(* ===== verification/_CoqProject ===== *)
-Q . S2P
Prelude.v
GoStrings.v
GoTime.v
Float64.v
GoText.v
Sha256.v
ControlTypes.v
ControlObserve.v
ControlState.v
ControlAct.v
ControlSweep.v
Leader.v
Semver.v
GoPath.v
VersionRender.v
VersionNext.v
VersionSettings.v
VersionService.v
Netalloc.v
Workloads.v
Restriction.v
Quota.v
Scheduler.v
Placement.v
Grants.v
SecPolicy.v
PortBinding.v
ManifestTypes.v
ManifestSpec.v
ManifestPlan.v
ManifestEdges.v
ManifestRefs.v
ApplyRun.v
GitOps.v
Migration.v
MigrationRun.v
MigrationInv.v
MigrationSafe.v
MigrationCut.v
MigrationUndo.v
MigrationHistory.v
MigrationEnds.v
MigrationPlan.v
Registry.v
DeployRules.v
Rollout.v
Deploy.v
DeployRun.v
Canary.v
RolloutLogic.v
RolloutCalm.v
RolloutSafe.v
RolloutHistory.v
CanaryProofs.v
RolloutLive.v
RolloutEnds.v
DeployImages.v
GoWeb.v
Roles.v
ApiScopes.v
Accounts.v
Members.v
GroupSync.v
AccountFacts.v
Handles.v
MemberOwners.v
MemberHistory.v
MemberRights.v
MemberInvites.v
ApiKeys.v
ApiAccess.v
AccessRules.v
RegistryAccess.v
Housekeeping.v
Images.v
PipelineSpec.v
JobSpec.v
Dispatch.v
DispatchRules.v
Pipelines.v
