(* ===== verification/Prelude.v ===== *)
(** * Miabi: a verification development of its control plane

    Miabi is a self-hosted platform that deploys applications and databases on Docker nodes. Its
    control plane is a Go program: HTTP handlers call services ([internal/services]), services call
    repositories over an SQL database ([internal/storage/repositories]) and the Docker engines of the
    nodes, and background loops reconcile what the records say with what runs. This library models the
    services whose logic is the program's own and proves what they promise. Definitions keep the names
    of the source, in snake case: [Service.findAllocation] is [find_allocation].

    ** How a Go program becomes Rocq definitions

    - A function is a [Definition] or a [Fixpoint]. A method that writes returns the new state beside
      its result; a function with an error returns [result], with the package's sentinels (and the
      data of its messages, where a caller can tell them apart) as an inductive type. The messages'
      wording, log lines and metrics are left out.
    - An [int], [int64] or [uint32] is a [Z], wrapped where the code can leave its width ([wrap64],
      [wrap32]); an id is an [N]; a [float64] is the IEEE 754 number of [SpecFloat] ([Float64]).
    - A Go string is a sequence of bytes ([GoStrings]); an instant counts nanoseconds since year 1,
      and [IsZero] is a test for 0 ([GoTime]); a Go map is a [gmap].
    - What lies outside the source is a parameter: Redis ([Redis]), the SQL tables ([VersionDB],
      [Ledger]), the services a service only knows as an interface ([WorkloadOps]) are classes; their
      documented behaviour is a second class of laws, and each file ends with a concrete instance
      that satisfies the laws, on which the witnesses run. Docker engines, clocks, registries and
      repository failures are arguments: functions, or the answers to come.
    - Concurrency is a step relation where the code has it: electors with commands and replies in
      flight ([Leader.step]), requests of several replicas on one cached gate
      ([Restriction.gate_step]). Elsewhere a mutex, a row lock or a transaction makes an operation
      one step, and histories are sequences of operations.
    - A worker that may die in the middle of its work is a computation in a monad of state, failure and
      death ([Migration.M], [Rollout.R]): every query and every call to an engine asks an argument for its
      answer, and the worker may be killed there. In [Rollout.R] others act between two calls: an argument says
      what they did.

    ** The parts

    - [Prelude], [GoStrings], [GoTime], [GoPath], [GoText], [Float64], [Sha256]: the language and its
      standard library, as far as the program calls it.
    - The control manager ([internal/services/controlmanager], vocabulary in [internal/drift]), which
      looks every interval for containers, services, volumes and gateways that should exist and do
      not. [ControlTypes]: the records read and [plan] (controlmanager.go). [ControlObserve]: what
      the engines say (observe.go). [ControlState]: findings, confirmation, what a lost volume
      blocks, notices and the status page (state.go). [ControlAct]: what may be redeployed, the
      budgets, the backoff and the breaker (act.go). [ControlSweep]: [sweep], runs of sweeps, and an
      abstract machine a run refines: a key's abstract state is the number of sweeps in a row that
      missed its workload, and the class of the loss; the concrete state also holds attempts, redeploys
      in flight, blocked apps and texts.
    - [Leader] ([internal/leader]): the lease and the elector that decides which replica sweeps.
    - Versioning ([internal/services/versioning]): [Semver] (semver.go), [VersionRender] (render.go),
      [VersionNext] (next.go), [VersionSettings] (settings.go), [VersionService] (service.go,
      snapshot.go and version_repo.go): which version a pipeline run gets, how it is reserved,
      published or given back, and where the floating tags point.
    - [Netalloc] ([internal/services/netalloc]): disjoint subnets for the Docker networks.
    - [Workloads] (services/account, and the [Start] and [Stop] of services/application and
      services/database) and [Restriction] (services/restriction): what a workspace under a
      restriction may do, and freezing and reviving it. [Restriction] uses [Workloads] through the
      class [WorkloadOps].
    - [Quota] (services/quota): the limits of a workspace and the checks against them. It asks
      [Restriction] whether the workspace is restricted.
    - [Scheduler] (services/runner/scheduler.go, and the selection of service.go): which build runner
      takes a job, and its leases; what a plan lends comes from [Quota].
    - [Placement] (services/placement, with the access questions of services/organization): which
      location and node a new resource gets, under the tenancy and plan rules; the plan's placement
      comes from [Quota].
    - [Grants] (models/capabilities.go and runas.go, services/application/capabilities.go, the hooks of
      cmd/miabi, internal/worker/runtime.go): the capabilities, devices and user of a container, from the
      gate on the written application to the fields the engine is given. Who must drop root comes from [Quota].
    - [SecPolicy] (services/secpolicy): the platform's rules on host ports and on unlocking the console;
      [PortBinding] (services/portbinding) asks them through the class [PortPolicy].
    - Declarative manifests ([internal/declarative]): [ManifestTypes] (schema.go, accessors.go,
      resourceset.go), [ManifestSpec] (validate.go and the load of parse.go), [ManifestPlan] (plan.go,
      jobs.go), [ManifestEdges] (edges.go) and [ManifestRefs] (refs.go). [ApplyRun] (services/apply): what an
      apply plans, refuses and executes, over a class [Backend] of what carries a change out. [GitOps]
      (services/gitops, services/apply/gitsource.go): projects that reconcile a workspace with a repository,
      over [ApplyRun].
    - Location migrations ([internal/services/locationmigration], with services/storage/relocate.go and
      services/database/relocate.go): an application and its data move to another location while their source
      is kept. [Migration] is the state and the monad; [MigrationPlan] the plan a person is shown and a move
      starts from (planner.go); [MigrationRun] the run and the requests (run.go, rollback.go, service.go).
      [MigrationInv] states the invariant, [MigrationSafe] a logic for code that may die anywhere and the steps
      before the switch, [MigrationCut] the last copy and the switch, [MigrationUndo] what undoes and what
      finishes, [MigrationHistory] every history of runs and requests, [MigrationEnds] that a run comes to rest.
    - Rollouts ([internal/worker/deploy.go], [imagereuse.go]; the requests on deployments, canary and releases of
      services/application; the references of services/registryserver). [Registry] says whose image a reference
      names; [DeployRules] what needs no engine: references, strategies, probes, the ramp of a canary, its routing and
      the backends of a route. [Rollout] is the state and the monad, [Deploy] and [DeployRun] a deployment from its
      task to its end, [Canary] the timer and what people ask. [RolloutLogic] is a logic for code that others
      interrupt and that may die; [RolloutCalm] what timers and requests keep, [RolloutSafe] what a deployment keeps,
      [RolloutHistory] every history of both; [RolloutLive] and [RolloutEnds] that good answers lead to a release;
      [CanaryProofs] the preview of a canary against a gateway, a class; [DeployImages] the images that are asked
      for. The example they run on is the Module [Shop] of [RolloutLogic].
    - People and keys. [GoWeb]: the parts of net/http, net/url and encoding the code calls. [Roles], [ApiScopes], [Accounts]:
      roles and permissions, the scopes of API keys and of routes (models, routes/scope.go, middlewares/scope.go), users and
      their sessions' claims. [Handles]: names made free. [Members]: workspaces, members, invitations and organizations
      (services/workspace, member handlers), in a monad of the tables whose calls may fail; [GroupSync] what a directory's groups
      give; [ApiKeys] keys from their making to their end; [ApiAccess] the middlewares a request passes.
      [AccountFacts], [MemberOwners], [MemberHistory], [MemberRights], [MemberInvites] and [AccessRules] hold the theorems.
    - The built-in registry (services/registryserver). [RegistryAccess]: what the gateway asks before it lets a request pass,
      over the keys and members above, and its specification. [Images] (services/image, with name.go, repos.go and
      browse.go of the registry): built images, their collection, repositories and tags.
    - [Housekeeping] (services/housekeeping and drift.go): the report on a node and what a cleanup takes.
    - Pipelines. [PipelineSpec] (services/pipeline/spec.go): a document and what it must satisfy. [Pipelines] (pipeline.go, adopt.go,
      discover.go, triggers.go and pipeline_repo.go): definitions, those a repository owns, the schedule, and how runs start; over
      [VersionService]. [JobSpec] (internal/runners: jobspec.go, buildcache.go, secrets.go): the job a runner is sent and the mask of
      its logs. [Dispatch] (runners/dispatcher.go, credentials.go, worker/pipeline.go): a run from its task to its end, over
      [Scheduler], [ApiKeys], [Images] and [VersionService]; [DispatchRules]: what it leaves behind.

    ** What the theorems show

    - Control manager. A run of sweeps refines the abstract machine, key by key: what is held about a
      workload follows from the observations of that workload alone, and a silent engine changes
      nothing ([run_refines]); no sweep redeploys an app before two sweeps missed it, or while a
      volume it mounts is confirmed lost ([never_starts_on_lost_data]); reachable states are well formed ([reachable_well_formed]);
      the blocked apps are exactly those that mount a lost volume, a loss is announced once, the
      backoff is bounded ([record_blocks_exactly], [loss_announced_once], [backoff_spec]).
    - Leadership. Two processes never lead at the same instant, whatever is delayed or lost
      ([at_most_one_leader]).
    - Versioning. Parsing and printing, the order of versions, series, the normal form of settings;
      the next version is above every release of its series; a reserved version is fresh, giving
      it back restores the table, a published one stays published for ever, and a floating tag moves
      to the newest version it fits.
    - Networks. The subnets of a pool are disjoint, so are those of every ledger the operations can
      build; an allocation fails only when nothing is free; the retries end with a network or an
      error, and leave no row behind on failure.
    - Tenancy. A placement respects the organization's and the plan's rules; a location the asker may
      not see is answered exactly as one that does not exist; the node is the one with the least
      load; listing and placing agree.
    - Restrictions. The transitions of the state and what each operation leaves; freezing then
      lifting puts every workload back, if the engines start what they are asked to start; what the gate answers from its cache was true less than 15 seconds ago.
    - Quotas and runners. Where the limits come from; a creation that passes its check stays within
      the limit, the compute budget exactly so in [float64]; the runner chosen is eligible and the
      best; a waiting job's reason says why.
    - Containers and host ports. A container of a workspace that must drop root is confined, and what is
      granted was allowed twice, on write and on deploy; approved bindings never share a port of a node; an
      enforced platform rule is only ever tightened, and one that rejects everything holds to the deploy.
    - Manifests. What validation accepts; loading is a projection; a plan deletes only what it may, respects
      the edges of the set, shows no secret, and is empty once applied; checked references resolve. An apply
      attempts each change once and leaves what projects manage alone; a teardown deletes exactly what is
      the project's; a reconcile touches its own, tells what it did, and projects never nest in a cycle.
    - People and keys. A workspace never loses its last owner ([never_ownerless]); nobody gives a role above their own
      ([no_escalation]); an invitation ends as the membership it promised ([invitation_round_trip]); what a key opens is the key
      itself, until it is revoked or expires, and then for ever nothing ([key_round_trip], [revoked_key_stays_dead]); a request with
      a key is held to the key's workspace, scopes, addresses and application ([api_key_confined]).
    - The registry and images. Who may pull and push ([registry_access_exact]); which images a collection takes ([collection_exact]);
      a tag is deleted in the workspace's own namespace, and never while a release holds it.
    - Housekeeping. A cleanup takes what was selected and is justified when read afresh ([cleanup_is_justified]), and what the dry run
      showed ([preview_is_applied]).
    - Pipelines. Definitions stay sound, and the queue holds only whole runs ([pipelines_sound]); a run starts only as it was asked
      for, numbered above its pipeline's others ([runs_start_as_asked]); however a run ends, its keys are dead and its lease is
      given back, and what is deployed is what it built ([run_ends_clean]); no line of its logs holds a secret of the job
      ([job_lines_masked]).
    - Location migrations. In every history the rows point at data that is the latest written
      ([migration_keeps_data]); nothing written before the switch is lost by it ([cutover_loses_no_write]); a move
      that was given up leaves the rows as they were ([given_up_restores]); a run whose worker lives comes to rest
      ([run_ends]). They suppose that a worker that began to undo a move that has not switched is not killed before
      it is done ([steady]): [dying_undo_loses_data] is what happens without. Two workers never run one migration
      at once: the lease, which a run takes and gives back, is modelled; its renewal while a run lasts is not.
    - Rollouts. An application that runs keeps a running release in force through every history of deployments,
      canary steps and requests ([never_dark]); a deployment either releases or leaves what served serving
      ([task_outcome]); it asks engines only for its own workspace's images of the built-in registry
      ([deployed_images_are_own]); good answers lead to a release ([well_answered_task_releases]) and a canary to its
      promotion ([canary_promotes]); the preview of a canary is what the gateway does ([preview_agrees]). The
      first two leave out deployments that recreate or publish host ports, which stop what runs first, on purpose;
      what they call running is what was started and not asked to stop: a container may die of itself.

    ** Bounds and fuel

    Recursion is structural wherever the code's loop runs over a list. The others: [collapse_dashes]
    and [parse_pattern] take the length of the text, which every round shortens
    ([collapse_dashes_done], [parse_plain]); [class_ranges] takes the length of what is left;
    [reserve_loop], [verify_loop] and [ensure_loop] count the attempts the code itself allows, and
    end with the code's own error; [instance_polls] and [deployment_polls] count what fits in the
    code's timeouts at its own intervals, [health_rounds] one look a second until the deadline and [converge_rounds]
    ninety, one each two seconds, and [presync] the passes the code allows. [v6_groups] has eight
    rounds because an address has eight groups; [duration_parts], [find_all] and [ref_segments] take the
    length of the text; [ancestry] takes two more than there are projects, and the loop's set of those
    seen stops it earlier ([ancestry_terminates]); [name_fuel] counts the names a search may find taken ([free_handle]); [natural_less] takes the length
    of its first text, of which each round reads a run; [free_name] takes the 98 names the code tries; the frames of a
    dispatch are a list, after which the stream has ended. Integers of the quota code are compared as [float64] exactly
    below 2^53, which the lemmas of [Float64] state as hypotheses.

    ** What is not modelled

    Network, Docker and file I/O, the HTTP layer but for the middlewares that decide access, the protocols of sign-in
    (passwords, OAuth, SAML, LDAP, SCIM, passkeys, second factors) and cryptography, the tables beyond the rows read here, and the
    web console. Inside the modelled packages: log lines, metrics,
    goroutines that only repeat a modelled step ([While], the sweep ticker), and setters, whose
    effect is the field they set.

    Of a rollout: events and logs, the hook that starts jobs when a release is activated, the details of mounts,
    networks and environments, labels and limits (calls that go well or not), and the pipeline a manual deploy may
    start instead. The lock of an application is a call: two deployments of one application do not interleave.

    Of people and keys: audit events and mail; the reading of a session's token, the hash of a key and what a UUID looks like are
    arguments; texts that are trimmed or folded are taken as ASCII. Of the registry: its own answers, an argument. Of housekeeping:
    the labels of the stack's package, a record of functions.

    Of pipelines: cloning, credentials inside URLs, the vault, the log store and the runner's connection are arguments; a retry of
    the queue and a lookup filled in for display are left out, and so are two requests on one definition at once.

    Of a migration: its progress, its report and the messages shown to people, and panics, which a run turns
    into a failure. Of manifests: decoding YAML and the template engine; of an apply: the executors behind
    [Backend].

    ** What is left of the plan

    In this order: the executors of an apply and the locations it checks; schedules and retention of backups;
    registration and tokens of runners. *)
From stdpp Require Export base tactics list list_numbers numbers option gmap strings sorting.
From stdpp Require Export fin_maps.

(** ** Results *)

(** A Go function returning [(T, error)]: the value, or the error it returns. *)
Inductive result (E A : Type) : Type :=
| Ok (a : A)
| Err (e : E).
Arguments Ok {E A} a.
Arguments Err {E A} e.

#[export] Instance result_eq_dec {E A} `{EqDecision E, EqDecision A} : EqDecision (result E A).
Proof. solve_decision. Defined.

Definition rbind {E A B : Type} (r : result E A) (f : A -> result E B) : result E B :=
  match r with
  | Ok a => f a
  | Err e => Err e
  end.

Definition of_option {E A : Type} (e : E) (o : option A) : result E A :=
  match o with
  | Some a => Ok a
  | None => Err e
  end.

Definition is_ok {E A : Type} (r : result E A) : bool :=
  match r with Ok _ => true | Err _ => false end.

Declare Scope go_scope.
Delimit Scope go_scope with go.
Notation "'let?' x ':=' r 'in' k" := (rbind r (fun x => k))
  (at level 10, x pattern, r at level 100, k at level 200) : go_scope.
#[global] Open Scope go_scope.

Section ResultFacts.
Context {E A B : Type}.

Lemma rbind_ok_inv (r : result E A) (f : A -> result E B) b :
  rbind r f = Ok b -> exists a, r = Ok a /\ f a = Ok b.
Proof. destruct r; simpl; [eauto | discriminate]. Qed.

Lemma of_option_ok (e : E) (o : option A) a : of_option e o = Ok a <-> o = Some a.
Proof. destruct o; simpl; split; congruence. Qed.
End ResultFacts.

(** ** Fixed-width integers *)

(** Go's [int] and [int64] are 64-bit two's complement; [uint32] wraps at [2^32]. *)
Definition wrap64 (z : Z) : Z := (z + 2 ^ 63) `mod` 2 ^ 64 - 2 ^ 63.
Definition u32 (z : Z) : Z := z `mod` 2 ^ 32.
Definition max_int64 : Z := 2 ^ 63 - 1.

Lemma wrap64_small z : (- 2 ^ 63 <= z < 2 ^ 63)%Z -> wrap64 z = z.
Proof. intros H. unfold wrap64. rewrite Z.mod_small; lia. Qed.

Lemma wrap64_range z : (- 2 ^ 63 <= wrap64 z < 2 ^ 63)%Z.
Proof. unfold wrap64. pose proof (Z.mod_pos_bound (z + 2 ^ 63) (2 ^ 64)). lia. Qed.

Lemma u32_range z : (0 <= u32 z < 2 ^ 32)%Z.
Proof. apply Z.mod_pos_bound. lia. Qed.

Lemma u32_small z : (0 <= z < 2 ^ 32)%Z -> u32 z = z.
Proof. intros. unfold u32. rewrite Z.mod_small; lia. Qed.

(** ** Tactics *)

(** Split every boolean conjunction, comparison and [result] equation among the hypotheses. *)
Ltac go_inv_step :=
  match goal with
  | H : Ok _ = Ok _ |- _ => injection H as H; try subst
  | H : Err _ = Err _ |- _ => injection H as H; try subst
  | H : Ok _ = Err _ |- _ => discriminate H
  | H : Err _ = Ok _ |- _ => discriminate H
  | H : rbind _ _ = Ok _ |- _ =>
      let a := fresh "v" in let H1 := fresh H in
      apply rbind_ok_inv in H as (a & H1 & H)
  | H : of_option _ _ = Ok _ |- _ => apply of_option_ok in H
  | H : andb _ _ = true |- _ => apply andb_true_iff in H as [H ?]
  | H : orb _ _ = false |- _ => apply orb_false_iff in H as [H ?]
  | H : negb _ = true |- _ => apply negb_true_iff in H
  | H : negb _ = false |- _ => apply negb_false_iff in H
  | H : bool_decide _ = true |- _ => apply bool_decide_eq_true in H
  | H : bool_decide _ = false |- _ => apply bool_decide_eq_false in H
  | H : Z.eqb _ _ = true |- _ => apply Z.eqb_eq in H
  | H : Z.eqb _ _ = false |- _ => apply Z.eqb_neq in H
  | H : Z.ltb _ _ = true |- _ => apply Z.ltb_lt in H
  | H : Z.ltb _ _ = false |- _ => apply Z.ltb_ge in H
  | H : Z.leb _ _ = true |- _ => apply Z.leb_le in H
  | H : Z.leb _ _ = false |- _ => apply Z.leb_gt in H
  end.
Ltac go_inv := repeat go_inv_step.

(** Case analysis on the scrutinee of a [match] of the goal, or of a hypothesis, keeping the equation. *)
Ltac go_cases := repeat (case_match; go_inv; simplify_eq/=).

Lemma elem_of_concat_fmap {A B} (f : A -> list B) (l : list A) y : y ∈ concat (f <$> l) -> exists x, x ∈ l /\ y ∈ f x.
Proof.
  intros (z & Hz & Hy)%list_elem_of_In%in_concat. apply list_elem_of_In, list_elem_of_fmap in Hz as (x & -> & Hx).
  exists x. split; [done|by apply list_elem_of_In].
Qed.

(** ** Stable sorting ([sort.SliceStable], and [sort.Slice] where the keys are distinct) *)

Section StableSort.
Context {A : Type} (less : A -> A -> bool).

Fixpoint sinsert (x : A) (l : list A) : list A :=
  match l with
  | [] => [x]
  | y :: l' => if less y x then y :: sinsert x l' else x :: l
  end.

Fixpoint stable_sort (l : list A) : list A :=
  match l with
  | [] => []
  | x :: l' => sinsert x (stable_sort l')
  end.

Lemma sinsert_perm x l : sinsert x l ≡ₚ x :: l.
Proof.
  induction l as [|y l IH]; simpl; [done|].
  destruct (less y x); [|done]. rewrite IH. apply Permutation_swap.
Qed.

Lemma stable_sort_perm l : stable_sort l ≡ₚ l.
Proof. induction l as [|x l IH]; simpl; [done|]. by rewrite sinsert_perm, IH. Qed.

Lemma elem_of_stable_sort x l : x ∈ stable_sort l <-> x ∈ l.
Proof. by rewrite stable_sort_perm. Qed.

Lemma length_stable_sort l : length (stable_sort l) = length l.
Proof. by rewrite stable_sort_perm. Qed.

Lemma NoDup_stable_sort l : NoDup (stable_sort l) <-> NoDup l.
Proof. by rewrite stable_sort_perm. Qed.

(** [le x y]: [y] is not before [x]. *)
Definition not_after (x y : A) : Prop := less y x = false.

Hypothesis less_asym : forall x y, less x y = true -> less y x = false.
Hypothesis less_negtrans : forall x y z, less y x = false -> less z y = false -> less z x = false.

Lemma sinsert_sorted x l :
  StronglySorted not_after l -> StronglySorted not_after (sinsert x l).
Proof.
  induction 1 as [|y l Hs IH Hy]; simpl; [by repeat constructor|].
  destruct (less y x) eqn:Hyx.
  - constructor; [done|]. rewrite sinsert_perm. constructor; [by apply less_asym|done].
  - constructor; [by constructor|]. constructor; [done|].
    eapply Forall_impl; [exact Hy|]. intros z Hz. by eapply less_negtrans.
Qed.

Lemma stable_sort_sorted l : StronglySorted not_after (stable_sort l).
Proof.
  induction l; simpl; [constructor | by apply sinsert_sorted].
Qed.
End StableSort.

(** ** Lists *)

(** The loop [for i := range l { if p(l[i]) { return &l[i] } }]. *)
Definition find_first {A} (p : A -> bool) (l : list A) : option A := head (List.filter p l).

Lemma find_first_cons {A} (p : A -> bool) x l :
  find_first p (x :: l) = if p x then Some x else find_first p l.
Proof. unfold find_first. simpl. by destruct (p x). Qed.

Lemma find_first_some {A} (p : A -> bool) l x :
  find_first p l = Some x -> x ∈ l /\ p x = true.
Proof.
  induction l as [|y l IH]; [done|]. rewrite find_first_cons.
  destruct (p y) eqn:E; intros H.
  - simplify_eq. split; [left|done].
  - destruct (IH H). split; [by right|done].
Qed.

Lemma find_first_none {A} (p : A -> bool) l :
  find_first p l = None <-> (forall x, x ∈ l -> p x = false).
Proof.
  induction l as [|y l IH]; [split; [inversion 2 | done]|].
  rewrite find_first_cons. destruct (p y) eqn:E; split.
  - done.
  - intros H. rewrite (H y) in E; [done | left].
  - intros H x Hx. apply elem_of_cons in Hx as [->|Hx]; [done|]. by apply IH.
  - intros H. apply IH. intros x Hx. apply H. by right.
Qed.

(** The indices [0 .. n-1] of a counted loop. *)
Definition upto (n : Z) : list Z := seqZ 0 n.

Lemma existsb_elem {A} (p : A -> bool) (l : list A) :
  existsb p l = true <-> exists x, x ∈ l /\ p x = true.
Proof.
  rewrite existsb_exists. split; intros (x & Hx & Hp); exists x;
    (split; [by apply list_elem_of_In|done]).
Qed.

Lemma existsb_elem_false {A} (p : A -> bool) (l : list A) :
  existsb p l = false <-> forall x, x ∈ l -> p x = false.
Proof.
  split.
  - intros H x Hx. destruct (p x) eqn:E; [|done].
    assert (existsb p l = true) by (apply existsb_elem; eauto). congruence.
  - intros H. destruct (existsb p l) eqn:E; [|done].
    apply existsb_elem in E as (x & Hx & Hp). rewrite (H x Hx) in Hp. done.
Qed.

Lemma bfilter_sublist {A} (p : A -> bool) (l : list A) : sublist (List.filter p l) l.
Proof. induction l as [|x l IH]; cbn; [constructor|]. destruct (p x); by constructor. Qed.

Lemma elem_of_bfilter {A} (p : A -> bool) (l : list A) x : x ∈ List.filter p l <-> x ∈ l /\ p x = true.
Proof. by rewrite !list_elem_of_In, filter_In. Qed.

(** ** Loops that update one entry of a map per element *)

Section KeyedFold.
Context `{Countable K} {A V : Type} (key : A -> K) (upd : A -> option V -> option V).

(** [for x := range l { m[key(x)] = upd(x, m[key(x)]) }], a [None] deleting the entry *)
Definition keyed_fold (l : list A) (m : gmap K V) : gmap K V :=
  foldl (fun m x => partial_alter (upd x) (key x) m) m l.

Lemma keyed_fold_other l m k : k ∉ (key <$> l) -> keyed_fold l m !! k = m !! k.
Proof.
  unfold keyed_fold. revert m. induction l as [|x l IH]; intros m Hk; simpl; [done|].
  rewrite fmap_cons, not_elem_of_cons in Hk. destruct Hk as [Hx Hl].
  rewrite IH by done. by rewrite lookup_partial_alter_ne.
Qed.

Lemma keyed_fold_lookup l m x :
  NoDup (key <$> l) -> x ∈ l -> keyed_fold l m !! key x = upd x (m !! key x).
Proof.
  unfold keyed_fold. revert m. induction l as [|y l IH]; intros m Hnd Hx; [by inversion Hx|].
  rewrite fmap_cons, NoDup_cons in Hnd. destruct Hnd as [Hy Hnd]. simpl.
  apply elem_of_cons in Hx as [->|Hx].
  - fold (keyed_fold l (partial_alter (upd y) (key y) m)).
    rewrite keyed_fold_other by done. by rewrite lookup_partial_alter_eq.
  - rewrite IH by done. rewrite lookup_partial_alter_ne; [done|].
    intros Heq. apply Hy. rewrite Heq. by apply list_elem_of_fmap_2.
Qed.
End KeyedFold.

(** A map entry rewritten to a known value. *)
Lemma partial_alter_value `{Countable K} {V} (f : option V -> option V) (k : K) (m : gmap K V) v :
  f (m !! k) = v ->
  partial_alter f k m = match v with Some x => <[k := x]> m | None => delete k m end.
Proof.
  intros Hv. apply map_eq. intros j. destruct (decide (k = j)) as [<-|Hne].
  - rewrite lookup_partial_alter_eq, Hv. destruct v; [by rewrite lookup_insert_eq | by rewrite lookup_delete_eq].
  - rewrite lookup_partial_alter_ne by done.
    destruct v; [by rewrite lookup_insert_ne | by rewrite lookup_delete_ne].
Qed.

Lemma gmap_size_insert_le `{Countable K} {V} (m : gmap K V) k v :
  (size (<[k := v]> m) <= S (size m))%nat.
Proof. rewrite (map_size_insert (M := gmap K)). destruct (m !! k); simpl; lia. Qed.

Lemma filter_all {A} (P : A -> Prop) `{forall x, Decision (P x)} (l : list A) : Forall P l -> filter P l = l.
Proof. induction 1 as [|x l Hx _ IH]; [done|]. by rewrite filter_cons_True, IH. Qed.

Lemma bfilter_bfilter {A} (f g : A -> bool) (l : list A) :
  List.filter f (List.filter g l) = List.filter (fun x => g x && f x) l.
Proof.
  induction l as [|x l IH]; [done|]. simpl. destruct (g x); simpl; [|done]. destruct (f x); by rewrite IH.
Qed.

Lemma NoDup_fmap_elem {A B} (f : A -> B) (l : list A) x y :
  NoDup (f <$> l) -> x ∈ l -> y ∈ l -> f x = f y -> x = y.
Proof.
  intros Hnd Hx Hy Hf. apply list_elem_of_lookup in Hx as [i Hi]. apply list_elem_of_lookup in Hy as [j Hj].
  assert (i = j) as <-; [|congruence].
  apply (NoDup_lookup (f <$> l) i j (f x)); [done|by rewrite list_lookup_fmap, Hi|by rewrite list_lookup_fmap, Hj, Hf].
Qed.

(** An invariant of a loop. *)
Lemma foldl_inv {A B} (P : A -> Prop) (f : A -> B -> A) (l : list B) (a : A) :
  P a -> (forall a b, b ∈ l -> P a -> P (f a b)) -> P (foldl f a l).
Proof.
  revert a. induction l as [|b l IH]; intros a Ha Hf; simpl; [done|].
  apply IH; [apply Hf; [left|done]|]. intros a' b' Hb. apply Hf. by right.
Qed.

(** ** The hint database of the development *)
#[export] Set Warnings "-clear-no-such-hyp".
Create HintDb miabi discriminated.
#[export] Hint Resolve sinsert_perm stable_sort_perm u32_range wrap64_range : miabi.
