(* ===== verification/GoStrings.v ===== *)
(** * The functions of Go's [strings] and [strconv] the program uses

    A Go string is a sequence of bytes; here it is a [string] of 8-bit characters. The case
    and white-space functions are those of the ASCII range, which is what the modelled code
    feeds them (names, tags, versions, keys); a byte outside it is neither a letter nor a space. *)
From S2P Require Import Prelude.
From Stdlib Require Export Ascii.
From Stdlib Require Import DecimalString DecimalZ DecimalFacts.
From Stdlib Require String OrdersEx.
#[global] Open Scope string_scope.
#[global] Open Scope list_scope.

Abbreviation byte_code c := (Z.of_N (N_of_ascii c)).

(** ** Characters *)

Definition is_space (c : ascii) : bool :=
  let n := byte_code c in (n =? 32)%Z || ((9 <=? n)%Z && (n <=? 13)%Z).
Definition is_digit (c : ascii) : bool := let n := byte_code c in (48 <=? n)%Z && (n <=? 57)%Z.
Definition is_lower (c : ascii) : bool := let n := byte_code c in (97 <=? n)%Z && (n <=? 122)%Z.
Definition is_upper (c : ascii) : bool := let n := byte_code c in (65 <=? n)%Z && (n <=? 90)%Z.
Definition lower_ascii (c : ascii) : ascii :=
  if is_upper c then ascii_of_N (N_of_ascii c + 32) else c.

(** ** Strings as lists of characters *)

Abbreviation chars := String.list_ascii_of_string.
Abbreviation of_chars := String.string_of_list_ascii.

Fixpoint str_map (f : ascii -> ascii) (s : string) : string :=
  match s with
  | EmptyString => EmptyString
  | String c s' => String (f c) (str_map f s')
  end.

(** [strings.ToLower] *)
Definition to_lower (s : string) : string := str_map lower_ascii s.

(** [strings.ToUpper] *)
Definition upper_ascii (c : ascii) : ascii :=
  if is_lower c then ascii_of_N (N_of_ascii c - 32) else c.
Definition to_upper (s : string) : string := str_map upper_ascii s.

(** [strings.EqualFold] *)
Definition equal_fold (a b : string) : bool := String.eqb (to_lower a) (to_lower b).

Fixpoint drop_while (p : ascii -> bool) (s : string) : string :=
  match s with
  | EmptyString => EmptyString
  | String c s' => if p c then drop_while p s' else s
  end.

Fixpoint drop_end_while (p : ascii -> bool) (s : string) : string :=
  match s with
  | EmptyString => EmptyString
  | String c s' =>
      match drop_end_while p s' with
      | EmptyString => if p c then EmptyString else String c EmptyString
      | t => String c t
      end
  end.

(** [strings.TrimSpace]; [strings.Trim] and [strings.TrimRight] for a one-character cut set. *)
Definition trim_space (s : string) : string := drop_end_while is_space (drop_while is_space s).
Definition trim_char (c : ascii) (s : string) : string :=
  drop_end_while (Ascii.eqb c) (drop_while (Ascii.eqb c) s).
Definition trim_right_char (c : ascii) (s : string) : string := drop_end_while (Ascii.eqb c) s.

(** [strings.HasPrefix] and [strings.CutPrefix] *)
Fixpoint cut_prefix (pre s : string) : option string :=
  match pre, s with
  | EmptyString, _ => Some s
  | String a pre', String b s' => if Ascii.eqb a b then cut_prefix pre' s' else None
  | String _ _, EmptyString => None
  end.
Definition has_prefix (pre s : string) : bool := match cut_prefix pre s with Some _ => true | None => false end.

(** [strings.TrimPrefix] *)
Definition trim_prefix (pre s : string) : string :=
  match cut_prefix pre s with Some rest => rest | None => s end.

(** [strings.HasSuffix] and [strings.TrimSuffix] *)
Fixpoint cut_suffix (suf s : string) : option string :=
  if String.eqb s suf then Some EmptyString
  else match s with
       | EmptyString => None
       | String c s' => option_map (String c) (cut_suffix suf s')
       end.
Definition has_suffix (suf s : string) : bool := match cut_suffix suf s with Some _ => true | None => false end.
Definition trim_suffix (suf s : string) : string :=
  match cut_suffix suf s with Some rest => rest | None => s end.

(** [strings.Contains] *)
Fixpoint contains (sub s : string) : bool :=
  has_prefix sub s || match s with EmptyString => false | String _ s' => contains sub s' end.

(** [strings.Cut] for a one-character separator: what is before and after it, and whether it occurs. *)
Fixpoint cut (sep : ascii) (s : string) : string * string * bool :=
  match s with
  | EmptyString => (EmptyString, EmptyString, false)
  | String c s' =>
      if Ascii.eqb c sep then (EmptyString, s', true)
      else let '(a, b, found) := cut sep s' in (String c a, b, found)
  end.

(** [strings.Split] for a one-character separator: never empty. *)
Fixpoint split (sep : ascii) (s : string) : list string :=
  match s with
  | EmptyString => [EmptyString]
  | String c s' =>
      if Ascii.eqb c sep then EmptyString :: split sep s'
      else match split sep s' with
           | [] => [String c EmptyString]
           | w :: ws => String c w :: ws
           end
  end.

(** [strings.Join] *)
Fixpoint join (sep : string) (l : list string) : string :=
  match l with
  | [] => ""
  | [w] => w
  | w :: ws => w +:+ sep +:+ join sep ws
  end.

(** [strings.LastIndex] for a one-character separator, as the part of the string before it. *)
Fixpoint before_last (sep : ascii) (s : string) : option string :=
  match s with
  | EmptyString => None
  | String c s' =>
      match before_last sep s' with
      | Some t => Some (String c t)
      | None => if Ascii.eqb c sep then Some EmptyString else None
      end
  end.

(** [s[:n]] of a string of at least [n] bytes *)
Definition str_take (n : nat) (s : string) : string := String.substring 0 n s.

(** [s[n:]] of a string of at least [n] bytes *)
Definition str_drop (n : nat) (s : string) : string := String.substring n (String.length s - n) s.

(** ** Numbers *)

(** [strconv.Itoa] and [%d] *)
Definition itoa (n : Z) : string := NilZero.string_of_int (Z.to_int n).

(** The decimal digits of [strconv.Atoi], without the range check. *)
Definition atoi_digits (s : string) : option Z :=
  match s with
  | String c s' =>
      if Ascii.eqb c "-"%char then option_map (fun u => (- Z.of_uint u)%Z) (NilZero.uint_of_string s')
      else if Ascii.eqb c "+"%char then option_map Z.of_uint (NilZero.uint_of_string s')
      else option_map Z.of_uint (NilZero.uint_of_string s)
  | EmptyString => None
  end.

(** [strconv.Atoi]: an optional sign, then decimal digits, within [int]'s 64 bits. *)
Definition atoi (s : string) : option Z :=
  match atoi_digits s with
  | Some n => if (- 2 ^ 63 <=? n)%Z && (n <=? max_int64)%Z then Some n else None
  | None => None
  end.

(** ** Order *)

(** Go's [<] on strings: byte-wise lexicographic. *)
Definition str_lt (a b : string) : bool := match OrdersEx.String_as_OT.compare a b with Lt => true | _ => false end.

(** [strings.Compare] *)
Definition str_compare (a b : string) : Z :=
  match OrdersEx.String_as_OT.compare a b with Lt => -1 | Eq => 0 | Gt => 1 end%Z.

(** [sort.Strings] *)
Definition sort_strings (l : list string) : list string := stable_sort str_lt l.

(** * Facts *)

#[local] Arguments String.append !_ _ /.

Fixpoint str_forall (p : ascii -> bool) (s : string) : bool :=
  match s with
  | EmptyString => true
  | String c s' => p c && str_forall p s'
  end.

Lemma str_forall_app p a b : str_forall p (a +:+ b) = str_forall p a && str_forall p b.
Proof. induction a as [|c a IH]; simpl; [done|]. rewrite IH. by destruct (p c). Qed.

Lemma str_app_nil_r (s : string) : s +:+ "" = s.
Proof. induction s; simpl; congruence. Qed.

Lemma str_app_assoc (a b c : string) : a +:+ (b +:+ c) = (a +:+ b) +:+ c.
Proof. induction a; simpl; congruence. Qed.

Lemma str_app_inv_head (a b c : string) : a +:+ b = a +:+ c -> b = c.
Proof. induction a; simpl; [done|]. intros. apply IHa. congruence. Qed.

Lemma cut_prefix_app pre s : cut_prefix pre (pre +:+ s) = Some s.
Proof. induction pre as [|c pre IH]; simpl; [done|]. by rewrite Ascii.eqb_refl. Qed.

Lemma cut_prefix_some pre s rest : cut_prefix pre s = Some rest <-> s = pre +:+ rest.
Proof.
  split; [|intros ->; apply cut_prefix_app].
  revert s. induction pre as [|c pre IH]; intros [|d s]; simpl; try done.
  - by intros [= ->].
  - by intros [= ->].
  - destruct (Ascii.eqb_spec c d) as [->|]; [|done]. intros H. by rewrite (IH _ H).
Qed.

(** ** Decimal numerals *)

Lemma to_int_not_nil n : Z.to_int n <> Decimal.Pos Decimal.Nil /\ Z.to_int n <> Decimal.Neg Decimal.Nil.
Proof.
  destruct n as [|p|p]; simpl; split; try done; injection 1; apply DecimalPos.Unsigned.to_uint_nonnil.
Qed.

Lemma int_of_itoa n : NilZero.int_of_string (itoa n) = Some (Z.to_int n).
Proof. unfold itoa. pose proof (to_int_not_nil n) as [? ?]. by apply NilZero.isi. Qed.

Lemma itoa_inj a b : itoa a = itoa b -> a = b.
Proof.
  intros H. pose proof (int_of_itoa a) as Ha. rewrite H, int_of_itoa in Ha.
  injection Ha as Hab. by rewrite <- (DecimalZ.of_to a), <- Hab, DecimalZ.of_to.
Qed.

Lemma digits_of_uint u : str_forall is_digit (NilZero.string_of_uint u) = true.
Proof.
  assert (Hne : forall u, str_forall is_digit (NilEmpty.string_of_uint u) = true).
  { clear u. induction u; simpl; try done. }
  destruct u; simpl; try done; apply Hne.
Qed.

Lemma itoa_digits n : (0 <= n)%Z -> str_forall is_digit (itoa n) = true.
Proof. intros H. destruct n; [done | apply digits_of_uint | lia]. Qed.

Lemma string_of_uint_cons u :
  exists c s, NilZero.string_of_uint u = String c s /\ is_digit c = true.
Proof. destruct u; simpl; eauto. Qed.

Lemma itoa_cons n : (0 <= n)%Z -> exists c s, itoa n = String c s /\ is_digit c = true.
Proof.
  intros H. destruct n as [|p|p]; [by exists "0"%char, "" | | lia].
  apply string_of_uint_cons.
Qed.

Lemma itoa_no_leading_zero n s : itoa n = String "0" s -> s = "".
Proof.
  destruct n as [|p|p]; [by intros [= <-]| |done]. unfold itoa. simpl.
  pose proof (DecimalZ.to_of (Decimal.Pos (Pos.to_uint p))) as Hto.
  replace (Z.of_int (Decimal.Pos (Pos.to_uint p))) with (Z.pos p) in Hto by (symmetry; apply (DecimalZ.of_to (Z.pos p))).
  simpl in Hto. injection Hto as Hto. destruct (Pos.to_uint p) as [|u| | | | | | | | |] eqn:Eu; simpl; try done.
  intros [= Hs]. unfold Decimal.unorm in Hto. simpl in Hto. destruct (Decimal.nzhead u) as [|u'| | | | | | | | |] eqn:Ez; try discriminate.
  - injection Hto as ->. simpl in Hs. done.
  - by apply DecimalFacts.nzhead_nonzero in Ez.
Qed.

Lemma is_digit_not c : is_digit c = true ->
  Ascii.eqb c "-" = false /\ Ascii.eqb c "+" = false /\ Ascii.eqb c "." = false /\ is_space c = false.
Proof.
  intros Hd. split_and!.
  - by apply Ascii.eqb_neq; intros ->.
  - by apply Ascii.eqb_neq; intros ->.
  - by apply Ascii.eqb_neq; intros ->.
  - unfold is_digit, is_space in *. go_inv. apply orb_false_iff. split; [apply Z.eqb_neq; lia|].
    apply andb_false_iff. right. apply Z.leb_gt. lia.
Qed.

Lemma atoi_digits_itoa n : atoi_digits (itoa n) = Some n.
Proof.
  assert (Hu : forall p, NilZero.uint_of_string (NilZero.string_of_uint (Pos.to_uint p)) = Some (Pos.to_uint p)).
  { intros p. apply NilZero.usu, DecimalPos.Unsigned.to_uint_nonnil. }
  destruct n as [|p|p]; [done| |]; unfold itoa; simpl.
  - specialize (Hu p). destruct (string_of_uint_cons (Pos.to_uint p)) as (c & s & E & Hd).
    unfold atoi_digits. rewrite E in Hu |- *. apply is_digit_not in Hd as (-> & -> & _). rewrite Hu. simpl.
    f_equal. apply (DecimalZ.of_to (Z.pos p)).
  - rewrite Hu. simpl. f_equal. apply (DecimalZ.of_to (Z.neg p)).
Qed.

(** [strconv.Atoi (strconv.Itoa n) = n] for every [int]. *)
Lemma atoi_itoa n : (- 2 ^ 63 <= n <= max_int64)%Z -> atoi (itoa n) = Some n.
Proof.
  intros [H1 H2]. unfold atoi. rewrite atoi_digits_itoa.
  rewrite (proj2 (Z.leb_le _ _) H1), (proj2 (Z.leb_le _ _) H2). done.
Qed.

Lemma atoi_range s n : atoi s = Some n -> (- 2 ^ 63 <= n <= max_int64)%Z.
Proof. unfold atoi. destruct (atoi_digits s); [|done]. case_match; [|done]. intros. go_inv. simplify_eq. lia. Qed.

(** A string of digits is no negative number. *)
Lemma atoi_nonneg s n : str_forall is_digit s = true -> atoi s = Some n -> (0 <= n)%Z.
Proof.
  unfold atoi. destruct s as [|c r]; [done|]. intros Hd.
  assert (Hc : is_digit c = true) by (simpl in Hd; by go_inv).
  apply is_digit_not in Hc as (H1 & H2 & _). unfold atoi_digits. rewrite H1, H2.
  destruct (NilZero.uint_of_string (String c r)) as [u|]; simpl; [|done]. case_match; [|done]. intros [= <-].
  unfold Z.of_uint. lia.
Qed.

(** ** Cutting and splitting *)

Definition without (sep c : ascii) : bool := negb (Ascii.eqb c sep).

Lemma cut_app sep a b : str_forall (without sep) a = true -> cut sep (a +:+ String sep b) = (a, b, true).
Proof.
  induction a as [|c a IH]; simpl; intros H; [by rewrite Ascii.eqb_refl|].
  go_inv. unfold without in *. go_inv. by rewrite H, IH.
Qed.

Lemma cut_none sep a : str_forall (without sep) a = true -> cut sep a = (a, "", false).
Proof.
  induction a as [|c a IH]; simpl; intros H; [done|]. unfold without in *. go_inv. by rewrite H, IH.
Qed.

Lemma split_none sep a : str_forall (without sep) a = true -> split sep a = [a].
Proof.
  induction a as [|c a IH]; simpl; intros H; [done|]. unfold without in *. go_inv. by rewrite H, IH.
Qed.

Lemma split_app sep a b : str_forall (without sep) a = true -> split sep (a +:+ String sep b) = a :: split sep b.
Proof.
  induction a as [|c a IH]; simpl; intros H; [by rewrite Ascii.eqb_refl|].
  unfold without in *. go_inv. by rewrite H, IH.
Qed.

Lemma split_not_nil sep s : split sep s <> [].
Proof. induction s as [|c s IH]; simpl; [done|]. repeat case_match; done. Qed.

Lemma str_forall_impl (p q : ascii -> bool) s :
  (forall c, p c = true -> q c = true) -> str_forall p s = true -> str_forall q s = true.
Proof. intros Hpq. induction s as [|c s IH]; simpl; [done|]. intros. go_inv. rewrite Hpq, IH; done. Qed.

Lemma itoa_without_dot n : (0 <= n)%Z -> str_forall (without ".") (itoa n) = true.
Proof.
  intros H. eapply str_forall_impl; [|by apply itoa_digits]. intros c Hc.
  unfold without. by apply is_digit_not in Hc as (_ & _ & -> & _).
Qed.

Lemma itoa_without_dash n : (0 <= n)%Z -> str_forall (without "-") (itoa n) = true.
Proof.
  intros H. eapply str_forall_impl; [|by apply itoa_digits]. intros c Hc.
  unfold without. by apply is_digit_not in Hc as (-> & _).
Qed.

Lemma cut_true sep s a b : cut sep s = (a, b, true) -> s = a +:+ String sep b.
Proof.
  revert a. induction s as [|c s IH]; simpl; intros a H; [done|].
  destruct (Ascii.eqb_spec c sep) as [->|]; [by simplify_eq|].
  destruct (cut sep s) as [[a' b'] f]. simplify_eq. simpl. by rewrite <- IH.
Qed.

Lemma cut_false sep s a b : cut sep s = (a, b, false) -> s = a /\ b = "".
Proof.
  revert a. induction s as [|c s IH]; simpl; intros a H; [by simplify_eq|].
  destruct (Ascii.eqb_spec c sep) as [->|]; [done|].
  destruct (cut sep s) as [[a' b'] f]. simplify_eq. by destruct (IH _ eq_refl) as [-> ->].
Qed.

(** ** Trimming *)

Lemma drop_end_while_app p s t :
  drop_end_while p (s +:+ t) =
  match drop_end_while p t with EmptyString => drop_end_while p s | t' => s +:+ t' end.
Proof.
  induction s as [|c s IH]; simpl; [by destruct (drop_end_while p t)|].
  rewrite IH. destruct (drop_end_while p t) as [|d t']; [done|]. by destruct s.
Qed.

Lemma drop_end_while_idem p s : drop_end_while p (drop_end_while p s) = drop_end_while p s.
Proof.
  induction s as [|c s IH]; simpl; [done|]. destruct (drop_end_while p s) as [|d t] eqn:E.
  - destruct (p c) eqn:Ec; simpl; [done|]. by rewrite Ec.
  - change (drop_end_while p (String c (String d t))) with
      (match drop_end_while p (String d t) with EmptyString => if p c then "" else String c "" | t' => String c t' end).
    by rewrite IH.
Qed.

Lemma str_app_length a b : String.length (a +:+ b) = (String.length a + String.length b)%nat.
Proof. induction a; simpl; congruence. Qed.

Lemma drop_end_while_length p s : (String.length (drop_end_while p s) <= String.length s)%nat.
Proof. induction s as [|c s IH]; simpl; [done|]. repeat case_match; simpl in *; lia. Qed.

Lemma drop_end_while_suffix p s t : drop_end_while p (s +:+ t) = s +:+ t -> drop_end_while p t = t.
Proof.
  rewrite drop_end_while_app. destruct (drop_end_while p t) as [|d t'] eqn:E.
  - intros H. pose proof (drop_end_while_length p s) as Hl. rewrite H, str_app_length in Hl.
    destruct t; [done|]. simpl in Hl. lia.
  - intros H. by apply str_app_inv_head in H.
Qed.

Lemma drop_end_while_keep p s t : t <> "" -> drop_end_while p t = t -> drop_end_while p (s +:+ t) = s +:+ t.
Proof. intros Hn Ht. rewrite drop_end_while_app, Ht. by destruct t. Qed.

Lemma str_app_not_nil_r a b : b <> "" -> a +:+ b <> "".
Proof. by destruct a, b. Qed.

Lemma drop_end_while_none p s : str_forall (fun c => negb (p c)) s = true -> drop_end_while p s = s.
Proof.
  induction s as [|c s IH]; simpl; [done|]. intros. go_inv. rewrite IH by done.
  destruct s; [by rewrite H|done].
Qed.

Lemma trim_space_clean s : str_forall (fun c => negb (is_space c)) s = true -> trim_space s = s.
Proof.
  intros H. unfold trim_space. replace (drop_while is_space s) with s; [by apply drop_end_while_none|].
  destruct s as [|c s]; simpl in *; [done|]. go_inv. by rewrite H.
Qed.

Lemma trim_space_idem s : trim_space (trim_space s) = trim_space s.
Proof.
  unfold trim_space. set (t := drop_while is_space s).
  assert (Ht : match t with EmptyString => True | String d _ => is_space d = false end).
  { subst t. induction s as [|d s IH]; cbn [drop_while]; [done|]. by destruct (is_space d) eqn:E. }
  replace (drop_while is_space (drop_end_while is_space t)) with (drop_end_while is_space t);
    [apply drop_end_while_idem|].
  destruct t as [|d t]; [done|]. cbn [drop_end_while].
  destruct (drop_end_while is_space t); [rewrite Ht|]; cbn [drop_while]; by rewrite Ht.
Qed.

Lemma trim_prefix_char_clean a s : str_forall (fun c => negb (Ascii.eqb a c)) s = true -> trim_prefix (String a "") s = s.
Proof.
  unfold trim_prefix. destruct s as [|c s]; simpl; [done|]. intros. go_inv. by rewrite H.
Qed.

Lemma to_lower_clean s : str_forall (fun c => negb (is_upper c)) s = true -> to_lower s = s.
Proof.
  unfold to_lower. induction s as [|c s IH]; simpl; [done|]. intros. go_inv. rewrite IH by done.
  unfold lower_ascii. by rewrite H.
Qed.

(** ** The order on strings *)

Lemma str_lt_lt a b : str_lt a b = true <-> OrdersEx.String_as_OT.lt a b.
Proof.
  unfold str_lt, OrdersEx.String_as_OT.lt. destruct (OrdersEx.String_as_OT.compare a b); split; congruence.
Qed.

Lemma str_lt_irrefl a : str_lt a a = false.
Proof. destruct (str_lt a a) eqn:E; [|done]. apply str_lt_lt in E. by apply OrdersEx.String_as_OT.lt_strorder in E. Qed.

Lemma str_lt_trans a b c : str_lt a b = true -> str_lt b c = true -> str_lt a c = true.
Proof.
  rewrite !str_lt_lt. intros H1 H2. destruct OrdersEx.String_as_OT.lt_strorder as [_ Ht]. by eapply Ht.
Qed.

Lemma str_lt_total a b : str_lt a b = false -> str_lt b a = false -> a = b.
Proof.
  intros Hab Hba. destruct (OrdersEx.String_as_OT.compare_spec a b) as [|H|H]; [done| |];
    apply str_lt_lt in H; congruence.
Qed.

Lemma str_lt_asym a b : str_lt a b = true -> str_lt b a = false.
Proof.
  intros H. destruct (str_lt b a) eqn:E; [|done].
  pose proof (str_lt_trans _ _ _ H E) as Haa. by rewrite str_lt_irrefl in Haa.
Qed.

Lemma str_lt_negtrans a b c : str_lt b a = false -> str_lt c b = false -> str_lt c a = false.
Proof.
  intros H1 H2. destruct (str_lt c a) eqn:E; [|done].
  destruct (str_lt a b) eqn:E2.
  - by rewrite (str_lt_trans _ _ _ E E2) in H2.
  - by rewrite (str_lt_total a b E2 H1), H2 in E.
Qed.

(** Sorting a list of strings without repetition is the same whatever order it came in. *)
Lemma sort_strings_sorted l : StronglySorted (not_after str_lt) (sort_strings l).
Proof. apply stable_sort_sorted; [apply str_lt_asym | apply str_lt_negtrans]. Qed.

#[export] Instance not_after_str_antisymm : AntiSymm eq (not_after str_lt).
Proof. intros a b Hab Hba. by apply str_lt_total. Qed.

Lemma sort_strings_proper l1 l2 : l1 ≡ₚ l2 -> sort_strings l1 = sort_strings l2.
Proof.
  intros Hp. apply (StronglySorted_unique (not_after str_lt)); [apply sort_strings_sorted..|].
  unfold sort_strings. by rewrite !stable_sort_perm.
Qed.

#[export] Hint Resolve itoa_digits itoa_without_dot itoa_without_dash str_lt_asym str_lt_negtrans : miabi.
