(* ===== verification/GoTime.v ===== *)
(** * The part of Go's [time] package the program uses

    An instant is a number of nanoseconds since the zero [time.Time] (1 January of year 1, UTC),
    so [IsZero] is a test for 0; a duration is a number of nanoseconds. *)
From S2P Require Import Prelude GoStrings.
#[local] Open Scope Z_scope.

Abbreviation instant := Z (only parsing).
Abbreviation duration := Z (only parsing).

Definition second : duration := 1000000000.
Definition minute : duration := 60 * second.
Definition millisecond : duration := 1000000.
Definition day_seconds : Z := 86400.

Definition is_zero_time (t : instant) : bool := t =? 0.
Definition time_before (a b : instant) : bool := a <? b.

(** The proleptic Gregorian date of a day number, day 0 being 0001-01-01: the years are counted
    from 1 March of year 0, so that a leap day ends its year. *)
Definition civil_of_day (day : Z) : Z * Z * Z :=
  let z := day + 306 in
  let era := z / 146097 in
  let doe := z - era * 146097 in
  let yoe := (doe - doe / 1460 + doe / 36524 - doe / 146096) / 365 in
  let y := yoe + era * 400 in
  let doy := doe - (365 * yoe + yoe / 4 - yoe / 100) in
  let mp := (5 * doy + 2) / 153 in
  let d := doy - (153 * mp + 2) / 5 + 1 in
  let m := if mp <? 10 then mp + 3 else mp - 9 in
  (if m <=? 2 then y + 1 else y, m, d).

Definition year (t : instant) : Z := (civil_of_day (t / second / day_seconds)).1.1.
Definition month (t : instant) : Z := (civil_of_day (t / second / day_seconds)).1.2.
Definition day (t : instant) : Z := (civil_of_day (t / second / day_seconds)).2.

(** Every day of the 400-year cycle has a month from 1 to 12 and a day from 1 to 31. *)
Definition civil_of_doe (doe : Z) : Z * Z * Z :=
  let yoe := (doe - doe / 1460 + doe / 36524 - doe / 146096) / 365 in
  let doy := doe - (365 * yoe + yoe / 4 - yoe / 100) in
  let mp := (5 * doy + 2) / 153 in
  let m := if mp <? 10 then mp + 3 else mp - 9 in
  (yoe, m, doy - (153 * mp + 2) / 5 + 1).

Lemma civil_of_day_split day :
  civil_of_day day =
  let z := day + 306 in
  let '(yoe, m, d) := civil_of_doe (z - z / 146097 * 146097) in
  (if m <=? 2 then yoe + z / 146097 * 400 + 1 else yoe + z / 146097 * 400, m, d).
Proof. done. Qed.

Lemma civil_in_range doe : 0 <= doe < 146097 ->
  let '(y, m, d) := civil_of_doe doe in 0 <= y /\ 1 <= m <= 12 /\ 1 <= d <= 31.
Proof.
  intros H. unfold civil_of_doe. set (yoe := (doe - doe / 1460 + doe / 36524 - doe / 146096) / 365).
  set (doy := doe - (365 * yoe + yoe / 4 - yoe / 100)).
  assert (Hy : 0 <= yoe <= 399 /\ 0 <= doy <= 365) by (subst doy yoe; Z.to_euclidean_division_equations; lia).
  clearbody yoe doy. destruct (Z.ltb_spec ((5 * doy + 2) / 153) 10); Z.to_euclidean_division_equations; lia.
Qed.

Lemma civil_ranges day :
  let '(y, m, d) := civil_of_day day in (0 <= day -> 0 <= y) /\ 1 <= m <= 12 /\ 1 <= d <= 31.
Proof.
  rewrite civil_of_day_split. cbv zeta. set (z := day + 306). set (doe := z - z / 146097 * 146097).
  assert (Hdoe : 0 <= doe < 146097) by (subst doe; pose proof (Z.mod_pos_bound z 146097); rewrite Z.mod_eq in *; lia).
  pose proof (civil_in_range doe Hdoe) as H. destruct (civil_of_doe doe) as [[y m] d].
  split; [|lia]. intros Hd. assert (0 <= z / 146097) by (apply Z.div_pos; lia). destruct (m <=? 2); lia.
Qed.

Lemma date_ranges t : (0 <= t -> 0 <= year t) /\ 1 <= month t <= 12 /\ 1 <= day t <= 31.
Proof.
  unfold year, month, day. pose proof (civil_ranges (t / second / day_seconds)) as H.
  destruct (civil_of_day _) as [[y m] d]. simpl. destruct H as (H1 & H2 & H3). split; [|done].
  intros Ht. apply H1. apply Z.div_pos; [|done]. by apply Z.div_pos.
Qed.

(** [%02d] and [%04d] of a non-negative number *)
Fixpoint zeros (n : nat) : string := match n with O => "" | S n => String "0"%char (zeros n) end.
Definition pad (w : nat) (n : Z) : string := let s := itoa n in zeros (w - String.length s) +:+ s.

(** [t.UTC().Format(time.RFC3339)] *)
Definition rfc3339 (t : instant) : string :=
  let secs := t / second in
  let s := secs `mod` day_seconds in
  pad 4 (year t) +:+ "-" +:+ pad 2 (month t) +:+ "-" +:+ pad 2 (day t) +:+ "T" +:+
  pad 2 (s / 3600) +:+ ":" +:+ pad 2 ((s / 60) `mod` 60) +:+ ":" +:+ pad 2 (s `mod` 60) +:+ "Z".

Example rfc3339_epoch : rfc3339 (719162 * day_seconds * second) = "1970-01-01T00:00:00Z".
Proof. reflexivity. Qed.

Example rfc3339_leap : rfc3339 ((738944 * day_seconds + 86399) * second) = "2024-02-29T23:59:59Z".
Proof. reflexivity. Qed.
