(* ===== verification/Float64.v ===== *)
(** * Go's [float64]

    The IEEE 754 binary64 operations the quota code uses, by the Standard Library's executable
    specification [SpecFloat]: conversion from an integer, product, quotient, comparison and [max].
    The lemmas say that integers below [2^53] are converted, multiplied and compared exactly. *)
From S2P Require Import Prelude.
From Stdlib Require Export SpecFloat.
#[local] Open Scope Z_scope.

Definition f64_of_int (n : Z) : spec_float := binary_normalize 53 1024 n 0 false.
Definition f64_mul (x y : spec_float) : spec_float := SFmul 53 1024 x y.
Definition f64_div (x y : spec_float) : spec_float := SFdiv 53 1024 x y.
Definition f64_le (x y : spec_float) : bool := SFleb x y.
Definition f64_lt (x y : spec_float) : bool := SFltb x y.
Definition f64_eq (x y : spec_float) : bool := SFeqb x y.
Definition f64_zero : spec_float := S754_zero false.
Definition f64_one : spec_float := f64_of_int 1.

(** [max(x, y)]: a NaN wins; the zeros do not matter here. *)
Definition f64_max (x y : spec_float) : spec_float :=
  match x, y with
  | S754_nan, _ | _, S754_nan => S754_nan
  | _, _ => if SFltb x y then y else x
  end.

(** ** Integers are exact *)

(** The float [x] is the natural number [n < 2^53]: its 53-bit mantissa, with a scale that is not positive. *)
Definition represents (x : spec_float) (n : Z) : Prop :=
  (n = 0 /\ x = S754_zero false) \/
  exists m u, x = S754_finite false m (- u) /\ 0 <= u /\ 2 ^ 52 <= Zpos m < 2 ^ 53 /\ Zpos m = n * 2 ^ u.

Lemma digits2_log2 p : Zpos (digits2_pos p) = Z.log2 (Zpos p) + 1.
Proof.
  induction p as [p IH|p IH|]; simpl digits2_pos; [| |done].
  - rewrite Pos2Z.inj_succ, IH, Pos2Z.inj_xI, Z.log2_succ_double by lia. lia.
  - rewrite Pos2Z.inj_succ, IH, Pos2Z.inj_xO, Z.log2_double by lia. lia.
Qed.

Lemma digits2_bits m k : 2 ^ 52 <= m < 2 ^ 53 -> 0 <= k ->
  Zdigits2 (m * 2 ^ k) = 53 + k.
Proof.
  intros Hm Hk. assert (Hp : 0 < 2 ^ k) by lia. destruct (m * 2 ^ k) as [|p|p] eqn:He; [nia| |nia].
  unfold Zdigits2. rewrite digits2_log2, <- He, Z.log2_mul_pow2 by lia.
  rewrite (Z.log2_unique m 52) by lia. lia.
Qed.

Lemma shr_1_even z : 0 < z -> shr_1 (Build_shr_record (2 * z) false false) = Build_shr_record z false false.
Proof. intros Hz. destruct z as [|p|p]; [lia|done|lia]. Qed.

Lemma shr_iter p m : 0 < m ->
  iter_pos shr_1 p (Build_shr_record (m * 2 ^ Zpos p) false false) = Build_shr_record m false false.
Proof.
  revert m. induction p as [p IH|p IH|]; intros m Hm; cbn [iter_pos].
  - replace (m * 2 ^ Zpos p~1) with (2 * ((m * 2 ^ Zpos p) * 2 ^ Zpos p)).
    + assert (0 < 2 ^ Zpos p) by lia. rewrite shr_1_even by nia. rewrite IH by nia. by rewrite IH.
    + replace (Zpos p~1) with (Zpos p + Zpos p + 1) by lia. rewrite !Z.pow_add_r by lia. lia.
  - replace (m * 2 ^ Zpos p~0) with ((m * 2 ^ Zpos p) * 2 ^ Zpos p).
    + assert (0 < 2 ^ Zpos p) by lia. rewrite IH by nia. by rewrite IH.
    + replace (Zpos p~0) with (Zpos p + Zpos p) by lia. rewrite !Z.pow_add_r by lia. lia.
  - replace (m * 2 ^ 1) with (2 * m) by lia. by apply shr_1_even.
Qed.

Lemma shr_fexp_exact m e k : 2 ^ 52 <= m < 2 ^ 53 -> 0 <= k -> - 1074 <= e + k ->
  shr_fexp 53 1024 (m * 2 ^ k) e loc_Exact = (Build_shr_record m false false, e + k).
Proof.
  intros Hm Hk He. unfold shr_fexp. rewrite digits2_bits by done.
  replace (fexp 53 1024 (53 + k + e) - e) with k by (unfold fexp, emin; lia).
  simpl. unfold shr. destruct k as [|p|p]; [|by rewrite shr_iter by lia|lia].
  f_equal; [f_equal|]; lia.
Qed.

(** A mantissa with trailing zeros is rounded exactly. *)
Lemma round_exact m e k : 2 ^ 52 <= Zpos m < 2 ^ 53 -> 0 <= k -> - 1074 <= e + k <= 971 ->
  binary_round_aux 53 1024 false (Zpos m * 2 ^ k) e loc_Exact = S754_finite false m (e + k).
Proof.
  intros Hm Hk He. unfold binary_round_aux. rewrite shr_fexp_exact by lia. simpl.
  pose proof (shr_fexp_exact (Zpos m) (e + k) 0 Hm) as H2. rewrite Z.mul_1_r in H2. rewrite H2 by lia. simpl.
  rewrite (proj2 (Z.leb_le _ _)) by lia. by rewrite Z.add_0_r.
Qed.

Lemma iter_xO n d : Zpos (Pos.iter xO n d) = Zpos n * 2 ^ Zpos d.
Proof.
  induction d as [|d IH] using Pos.peano_ind; [simpl; lia|].
  rewrite Pos.iter_succ, Pos2Z.inj_succ, Z.pow_succ_r by lia. change (Zpos (Pos.iter xO n d)~0) with (2 * Zpos (Pos.iter xO n d)). rewrite IH. lia.
Qed.

Lemma f64_of_int_exact n : 0 <= n < 2 ^ 53 -> represents (f64_of_int n) n.
Proof.
  intros Hn. destruct n as [|p|p]; [by left| |lia]. right.
  unfold f64_of_int, binary_normalize, binary_round. rewrite Z.add_0_r, digits2_log2.
  assert (Hl : 0 <= Z.log2 (Zpos p) <= 52).
  { split; [apply Z.log2_nonneg|]. assert (Z.log2 (Zpos p) < 53) by (apply Z.log2_lt_pow2; lia). lia. }
  pose proof (Z.log2_spec (Zpos p) ltac:(lia)) as Hs. set (l := Z.log2 (Zpos p)) in *.
  replace (fexp 53 1024 (l + 1)) with (l - 52) by (unfold fexp, emin; lia). unfold shl_align. rewrite Z.sub_0_r.
  destruct (l - 52) as [|d|d] eqn:Hd; [|lia|].
  - exists p, 0. split; [|split; [lia|split; [|lia]]].
    + assert (Hm : 2 ^ 52 <= Zpos p < 2 ^ 53) by (replace l with 52 in Hs by lia; done).
      pose proof (round_exact p 0 0 Hm ltac:(lia) ltac:(lia)) as Hr.
      change (2 ^ 0) with 1 in Hr. rewrite Z.mul_1_r in Hr. exact Hr.
    + replace l with 52 in Hs by lia. change (Z.succ 52) with 53 in Hs. lia.
  - assert (Hm : 2 ^ 52 <= Zpos (Pos.iter xO p d) < 2 ^ 53).
    { rewrite iter_xO. replace 52 with (l + Zpos d) by lia. replace 53 with (Z.succ l + Zpos d) by lia.
      rewrite !Z.pow_add_r by lia. nia. }
    exists (Pos.iter xO p d), (Zpos d). split; [|split; [lia|split; [done|apply iter_xO]]].
    pose proof (round_exact _ (Zneg d) 0 Hm ltac:(lia) ltac:(lia)) as Hr.
    change (2 ^ 0) with 1 in Hr. rewrite Z.mul_1_r in Hr. exact Hr.
Qed.

(** The scale of an integer is at most 52 bits. *)
Lemma scale_le m u n : 0 <= u -> 2 ^ 52 <= Zpos m < 2 ^ 53 -> Zpos m = n * 2 ^ u -> 0 < n /\ u <= 52.
Proof.
  intros Hu Hm Hn. assert (0 < n) by nia. split; [done|].
  destruct (Z.le_gt_cases u 52) as [|Hgt]; [done|]. assert (2 ^ 53 <= 2 ^ u) by (apply Z.pow_le_mono_r; lia). nia.
Qed.

Lemma f64_mul_exact x y a b :
  represents x a -> represents y b -> a * b < 2 ^ 53 -> represents (f64_mul x y) (a * b).
Proof.
  intros [[-> ->]|(m & u & -> & Hu & Hm & Ha)] [[-> ->]|(m' & u' & -> & Hu' & Hm' & Hb)] Hlt; try (left; split; [lia|done]).
  destruct (scale_le _ _ _ Hu Hm Ha) as [Ha0 Hu52]. destruct (scale_le _ _ _ Hu' Hm' Hb) as [Hb0 Hu52'].
  destruct (f64_of_int_exact (a * b)) as [[? _]|(p & v & _ & Hv & Hp & Hab)]; [nia|nia|].
  destruct (scale_le _ _ _ Hv Hp Hab) as [_ Hv52]. right. exists p, v. split; [|done].
  assert (Hle : v <= u + u').
  { apply Z.le_ngt. intros Hgt. assert (2 ^ (u + u' + 1) <= 2 ^ v) by (apply Z.pow_le_mono_r; lia).
    rewrite !Z.pow_add_r in * by lia. assert (0 < 2 ^ u) by lia. assert (0 < 2 ^ u') by lia.
    assert (Zpos m * Zpos m' = a * b * (2 ^ u * 2 ^ u')) by (rewrite Ha, Hb; lia). nia. }
  unfold f64_mul, SFmul. replace (Zpos (m * m')) with (Zpos p * 2 ^ (u + u' - v)).
  - change (xorb false false) with false. rewrite (round_exact p (- u + - u') (u + u' - v)) by lia. f_equal. lia.
  - rewrite Hab, Pos2Z.inj_mul, Ha, Hb. replace (a * b * 2 ^ v * 2 ^ (u + u' - v)) with (a * b * (2 ^ v * 2 ^ (u + u' - v))) by lia.
    rewrite <- Z.pow_add_r by lia. replace (v + (u + u' - v)) with (u + u') by lia. rewrite Z.pow_add_r by lia. lia.
Qed.

Lemma scale_order m m' u u' a b : 2 ^ 52 <= Zpos m < 2 ^ 53 -> 2 ^ 52 <= Zpos m' < 2 ^ 53 -> 0 <= u' ->
  Zpos m = a * 2 ^ u -> Zpos m' = b * 2 ^ u' -> u' < u -> a < b.
Proof.
  intros Hm Hm' Hu' Ha Hb Hlt. replace u with (u' + 1 + (u - u' - 1)) in Ha by lia.
  rewrite !Z.pow_add_r in Ha by lia. assert (1 <= 2 ^ (u - u' - 1)) by lia. assert (0 < 2 ^ u') by lia.
  set (p := 2 ^ u') in *. set (q := 2 ^ (u - u' - 1)) in *. change (2 ^ 1) with 2 in Ha.
  assert (a * p < b * p) by nia. nia.
Qed.

Lemma f64_le_exact x y a b : represents x a -> represents y b -> f64_le x y = (a <=? b).
Proof.
  intros [[-> ->]|(m & u & -> & Hu & Hm & Ha)] [[-> ->]|(m' & u' & -> & Hu' & Hm' & Hb)].
  - done.
  - destruct (scale_le _ _ _ Hu' Hm' Hb). symmetry. apply Z.leb_le. lia.
  - destruct (scale_le _ _ _ Hu Hm Ha). symmetry. apply Z.leb_gt. lia.
  - unfold f64_le, SFleb, SFcompare. destruct (Z.compare_spec (- u) (- u')) as [He|He|He].
    + assert (u = u') as <- by lia. change (Pos.compare_cont Eq m m') with (Pos.compare m m').
      assert (0 < 2 ^ u) by lia. destruct (Pos.compare_spec m m') as [->|Hc|Hc]; symmetry.
      * apply Z.leb_le. nia.
      * apply Z.leb_le. nia.
      * apply Z.leb_gt. nia.
    + symmetry. apply Z.leb_le. assert (a < b); [|lia]. by apply (scale_order m m' u u'); try lia.
    + symmetry. apply Z.leb_gt. by apply (scale_order m' m u' u); try lia.
Qed.

Lemma f64_zero_lt_exact x a : represents x a -> f64_lt x f64_zero = false.
Proof. intros [[-> ->]|(m & u & -> & _)]; done. Qed.
