(* ===== verification/GoText.v ===== *)
(** * The text grammars of Go's standard library the program reads

    [net/netip] (addresses and prefixes), [time.ParseDuration], [strconv.ParseFloat] and
    [strconv.Quote], byte by byte. A conversion of a [float64] to an integer is defined where the
    language defines it: when the truncated value fits. *)
From S2P Require Import Prelude GoStrings GoTime Float64.
#[local] Open Scope Z_scope.
#[local] Open Scope list_scope.

(** ** IPv4 *)

Definition all_digits (s : string) : bool := negb (String.eqb s "") && str_forall is_digit s.

Definition parse_octet (s : string) : option Z :=
  if all_digits s && negb (match s with String "0"%char (String _ _) => true | _ => false end) then
    match atoi s with Some n => if n <=? 255 then Some n else None | None => None end
  else None.

Definition parse_ip (s : string) : option Z :=
  match split "." s with
  | [a; b; c; d] =>
      match parse_octet a, parse_octet b, parse_octet c, parse_octet d with
      | Some a, Some b, Some c, Some d => Some (((a * 256 + b) * 256 + c) * 256 + d)
      | _, _, _, _ => None
      end
  | _ => None
  end.

(** ** IPv6 *)

(** An address is the number its bytes spell; an IPv6 address may have a zone. *)
Inductive ip_addr := IP4 (v : Z) | IP6 (v : Z) (zone : string).
#[export] Instance ip_addr_eq_dec : EqDecision ip_addr.
Proof. solve_decision. Defined.

Definition hex_value (c : ascii) : option Z :=
  let n := byte_code c in
  if is_digit c then Some (n - 48)
  else if (97 <=? n) && (n <=? 102) then Some (n - 87)
  else if (65 <=? n) && (n <=? 70) then Some (n - 55)
  else None.

(** The hexadecimal digits a text starts with: their number, their value and what follows. *)
Fixpoint hex_span (s : string) : nat * Z * string :=
  match s with
  | EmptyString => (0%nat, 0, s)
  | String c s' =>
      match hex_value c with
      | Some d => let '(n, v, rest) := hex_span s' in (S n, d * 16 ^ Z.of_nat n + v, rest)
      | None => (0%nat, 0, s)
      end
  end.

(** The groups of an IPv6 address, and where its ellipsis is. Each round reads a group; eight fill it. *)
Fixpoint v6_groups (fuel : nat) (s : string) (groups : list Z) (ell : option nat) : option (list Z * option nat) :=
  match fuel with
  | O => match s with EmptyString => Some (groups, ell) | _ => None end
  | S fuel =>
      let '(n, v, rest) := hex_span s in
      if (n =? 0)%nat || (4 <? n)%nat then None
      else match rest with
           | String "." _ =>
               if (match ell with None => negb (length groups =? 6)%nat | Some _ => false end)
                  || (8 <? length groups + 2)%nat then None
               else match parse_ip s with Some v4 => Some (groups ++ [v4 / 65536; v4 `mod` 65536], ell) | None => None end
           | EmptyString => Some (groups ++ [v], ell)
           | String ":" EmptyString => None
           | String ":" (String ":" rest') =>
               match ell with
               | Some _ => None
               | None =>
                   let groups := groups ++ [v] in
                   match rest' with
                   | EmptyString => Some (groups, Some (length groups))
                   | _ => v6_groups fuel rest' groups (Some (length groups))
                   end
               end
           | String ":" rest' => v6_groups fuel rest' (groups ++ [v]) ell
           | _ => None
           end
  end.

Definition parse_ipv6 (s : string) : option ip_addr :=
  let '(addr, zone, has_zone) := cut "%" s in
  if has_zone && String.eqb zone "" then None
  else
    let read := match addr with
                | String ":" (String ":" EmptyString) => Some ([], Some 0%nat)
                | String ":" (String ":" rest) => v6_groups 8 rest [] (Some 0%nat)
                | _ => v6_groups 8 addr [] None
                end in
    match read with
    | Some (groups, ell) =>
        let missing := (8 - length groups)%nat in
        match ell with
        | None => if (missing =? 0)%nat then Some (IP6 (foldl (fun a g => a * 65536 + g) 0 groups) zone) else None
        | Some at_ =>
            if (missing =? 0)%nat then None
            else Some (IP6 (foldl (fun a g => a * 65536 + g) 0 (take at_ groups ++ replicate missing 0 ++ drop at_ groups)) zone)
        end
    | None => None
    end.

(** [netip.ParseAddr]: the first of [.], [:] and [%] decides. *)
Fixpoint addr_kind (s : string) : option ascii :=
  match s with
  | EmptyString => None
  | String c s' => if Ascii.eqb c "." || Ascii.eqb c ":" || Ascii.eqb c "%" then Some c else addr_kind s'
  end.
Definition parse_addr (s : string) : option ip_addr :=
  match addr_kind s with
  | Some "."%char => IP4 <$> parse_ip s
  | Some ":"%char => parse_ipv6 s
  | _ => None
  end.

Definition addr_bits (a : ip_addr) : Z := match a with IP4 _ => 32 | IP6 _ _ => 128 end.
Definition addr_zone (a : ip_addr) : string := match a with IP4 _ => "" | IP6 _ z => z end.

(** [netip.Prefix], with the address as it was written *)
Record net_prefix := NetPrefix { np_addr : ip_addr; np_bits : Z }.

(** [netip.ParsePrefix]: no zone, and a length without sign or leading zero *)
Definition parse_net_prefix (s : string) : option net_prefix :=
  match before_last "/" s with
  | None => None
  | Some addr =>
      let bits := str_drop (S (String.length addr)) s in
      match parse_addr addr with
      | Some a =>
          if negb (String.eqb (addr_zone a) "") then None
          else if (1 <? String.length bits)%nat && (match bits with String c _ => Ascii.eqb c "0" || negb (is_digit c) | _ => false end) then None
          else if negb (all_digits bits) then None
          else match atoi bits with Some n => if n <=? addr_bits a then Some (NetPrefix a n) else None | None => None end
      | None => None
      end
  end.

(** [Prefix.Contains]: the same family, the same leading bits; never an address with a zone *)
Definition prefix_contains (p : net_prefix) (a : ip_addr) : bool :=
  let width := addr_bits (np_addr p) in
  match np_addr p, a with
  | IP4 v, IP4 w => (Z.shiftr v (width - np_bits p) =? Z.shiftr w (width - np_bits p))
  | IP6 v _, IP6 w z => String.eqb z "" && (Z.shiftr v (width - np_bits p) =? Z.shiftr w (width - np_bits p))
  | _, _ => false
  end.

(** ** Floating-point numbers *)

Definition f64_of_frac (neg : bool) (m : positive) (e : Z) : spec_float :=
  if 0 <=? e then binary_normalize 53 1024 (if neg then - (Zpos m * 10 ^ e) else Zpos m * 10 ^ e) 0 neg
  else match 10 ^ (- e) with
       | Zpos q => f64_div (S754_finite neg m 0) (S754_finite false q 0)
       | _ => S754_nan
       end.
Definition f64_of_hex (neg : bool) (m : positive) (e : Z) : spec_float :=
  binary_normalize 53 1024 (if neg then Zneg m else Zpos m) e neg.
Definition f64_infinite (x : spec_float) : bool := match x with S754_infinity _ => true | _ => false end.

(** The digits of a mantissa, before and after its point: how many, their value, how many after the point,
    whether an underscore was met, and what follows. *)
Fixpoint mantissa (hex : bool) (dot : bool) (n v frac : Z) (under : bool) (s : string) : Z * Z * Z * bool * bool * string :=
  match s with
  | EmptyString => (n, v, frac, dot, under, s)
  | String c s' =>
      if Ascii.eqb c "_" then mantissa hex dot n v frac true s'
      else if Ascii.eqb c "." then if dot then (n, v, frac, dot, under, s) else mantissa hex true n v frac under s'
      else match (if hex || is_digit c then hex_value c else None) with
           | Some d => mantissa hex dot (n + 1) (v * (if hex then 16 else 10) + d) (if dot then frac + 1 else frac) under s'
           | None => (n, v, frac, dot, under, s)
           end
  end.

(** The digits of an exponent; a value from 10000 on stops growing. *)
Fixpoint exponent_digits (e : Z) (under : bool) (s : string) : Z * bool * string :=
  match s with
  | EmptyString => (e, under, s)
  | String c s' =>
      if Ascii.eqb c "_" then exponent_digits e true s'
      else if is_digit c then exponent_digits (if e <? 10000 then e * 10 + (byte_code c - 48) else e) under s'
      else (e, under, s)
  end.

Inductive seen_class := SeenStart | SeenDigit | SeenUnderscore | SeenOther.
(** [underscoreOK], once a sign is off: an underscore stands between digits, or after a base prefix. *)
Fixpoint underscore_scan (hex : bool) (saw : seen_class) (s : string) : bool :=
  match s with
  | EmptyString => match saw with SeenUnderscore => false | _ => true end
  | String c s' =>
      if is_digit c || (hex && match hex_value c with Some _ => true | None => false end)
      then underscore_scan hex SeenDigit s'
      else if Ascii.eqb c "_" then match saw with SeenDigit => underscore_scan hex SeenUnderscore s' | _ => false end
      else match saw with SeenUnderscore => false | _ => underscore_scan hex SeenOther s' end
  end.
Definition underscore_ok (s : string) : bool :=
  match s with
  | String "0" (String c rest) =>
      let c := lower_ascii c in
      if Ascii.eqb c "b" || Ascii.eqb c "o" || Ascii.eqb c "x" then underscore_scan (Ascii.eqb c "x") SeenDigit rest
      else underscore_scan false SeenStart s
  | _ => underscore_scan false SeenStart s
  end.

(** An unsigned number: its value, or [None] where [ParseFloat] answers an error (of syntax or of range). *)
Definition read_float (neg : bool) (s : string) : option spec_float :=
  let hex := match s with
             | String "0" (String x (String _ _)) => Ascii.eqb (lower_ascii x) "x"
             | _ => false
             end in
  let body := if hex then str_drop 2 s else s in
  let '(n, v, frac, dot, under, rest) := mantissa hex false 0 0 0 false body in
  if n =? 0 then None
  else
    let exp_char := if hex then "p"%char else "e"%char in
    let exponent :=
      match rest with
      | String c rest' =>
          if Ascii.eqb (lower_ascii c) exp_char then
            let '(sign, digits) := match rest' with
                                   | String "+" r => (1, r)
                                   | String "-" r => (-1, r)
                                   | _ => (1, rest')
                                   end in
            match digits with
            | String d _ =>
                if is_digit d then let '(e, u, r) := exponent_digits 0 false digits in Some (sign * e, u, r) else None
            | EmptyString => None
            end
          else if hex then None else Some (0, false, rest)
      | EmptyString => if hex then None else Some (0, false, rest)
      end in
    match exponent with
    | Some (e, u, EmptyString) =>
        if (under || u) && negb (underscore_ok s) then None
        else
          let x := match v with
                   | Zpos m => if hex then f64_of_hex neg m (e - 4 * frac) else f64_of_frac neg m (e - frac)
                   | _ => S754_zero neg
                   end in
          if f64_infinite x then None else Some x
    | _ => None
    end.

(** [strconv.ParseFloat(s, 64)] *)
Definition parse_float (s : string) : option spec_float :=
  let '(neg, signed, body) := match s with
                              | String "+" r => (false, true, r)
                              | String "-" r => (true, true, r)
                              | _ => (false, false, s)
                              end in
  if equal_fold body "inf" || equal_fold body "infinity" then Some (S754_infinity neg)
  else if negb signed && equal_fold body "nan" then Some S754_nan
  else read_float neg body.

(** The integer a [float64] is truncated to; [None] for an infinity and for what is not a number. *)
Definition f64_trunc (x : spec_float) : option Z :=
  match x with
  | S754_zero _ => Some 0
  | S754_finite neg m e =>
      let v := if 0 <=? e then Zpos m * 2 ^ e else Zpos m / 2 ^ (- e) in
      Some (if neg then - v else v)
  | _ => None
  end.

Example parse_float_half : parse_float "0.5" = Some (f64_div f64_one (f64_of_int 2)). Proof. by vm_compute. Qed.
Example parse_float_tenth : parse_float "1e-1" = Some (f64_div f64_one (f64_of_int 10)). Proof. by vm_compute. Qed.
Example parse_float_hex : parse_float "0x1.8p1" = Some (f64_of_int 3). Proof. by vm_compute. Qed.
Example parse_float_under : parse_float "1_0" = Some (f64_of_int 10) /\ parse_float "1__0" = None /\ parse_float "_1" = None.
Proof. by vm_compute. Qed.
Example parse_float_words : parse_float "+Inf" = Some (S754_infinity false) /\ parse_float "NaN" = Some S754_nan
  /\ parse_float "-nan" = None /\ parse_float "1e400" = None /\ parse_float "" = None /\ parse_float "." = None.
Proof. by vm_compute. Qed.

(** ** Durations *)

(** The digits a text starts with: whether there are any, their value, what follows. *)
Fixpoint digit_span (any : bool) (v : Z) (s : string) : bool * Z * string :=
  match s with
  | String c s' => if is_digit c then digit_span true (v * 10 + (byte_code c - 48)) s' else (any, v, s)
  | EmptyString => (any, v, s)
  end.

(** [leadingInt] refuses what passes [2^63]. *)
Definition leading_int (s : string) : option (bool * Z * string) :=
  let '(any, v, rest) := digit_span false 0 s in if 2 ^ 63 <? v then None else Some (any, v, rest).

(** [leadingFraction]: once the value would pass [2^63 - 1], the further digits are read and left out. *)
Fixpoint leading_fraction (any over : bool) (f : Z) (scale : spec_float) (s : string) : bool * Z * spec_float * string :=
  match s with
  | String c s' =>
      if is_digit c then
        if over || ((2 ^ 63 - 1) / 10 <? f) then leading_fraction true true f scale s'
        else let y := f * 10 + (byte_code c - 48) in
             if 2 ^ 63 <? y then leading_fraction true true f scale s'
             else leading_fraction true over y (f64_mul scale (f64_of_int 10)) s'
      else (any, f, scale, s)
  | EmptyString => (any, f, scale, s)
  end.

Fixpoint unit_span (s : string) : string * string :=
  match s with
  | String c s' => if Ascii.eqb c "." || is_digit c then ("", s) else let '(u, r) := unit_span s' in (String c u, r)
  | EmptyString => ("", s)
  end.

Definition micro_sign : string := String (ascii_of_nat 194) (String (ascii_of_nat 181) "s").
Definition greek_mu : string := String (ascii_of_nat 206) (String (ascii_of_nat 188) "s").
Definition unit_value (u : string) : option Z :=
  if String.eqb u "ns" then Some 1
  else if String.eqb u "us" || String.eqb u micro_sign || String.eqb u greek_mu then Some 1000
  else if String.eqb u "ms" then Some millisecond
  else if String.eqb u "s" then Some second
  else if String.eqb u "m" then Some minute
  else if String.eqb u "h" then Some (60 * minute)
  else None.

(** Each round reads a number and a unit, so the length of the text bounds the rounds. *)
Fixpoint duration_parts (fuel : nat) (d : Z) (s : string) : option Z :=
  match fuel, s with
  | _, EmptyString => Some d
  | O, _ => None
  | S fuel, String c _ =>
      if negb (Ascii.eqb c "." || is_digit c) then None
      else match leading_int s with
           | None => None
           | Some (pre, v, s1) =>
               let '(post, f, scale, s2) :=
                 match s1 with
                 | String "." r => leading_fraction false false 0 f64_one r
                 | _ => (false, 0, f64_one, s1)
                 end in
               if negb pre && negb post then None
               else let '(u, s3) := unit_span s2 in
                    match unit_value u with
                    | None => None
                    | Some unit =>
                        if 2 ^ 63 / unit <? v then None
                        else
                          let frac := if 0 <? f then
                                        default 0 (f64_trunc (f64_mul (f64_of_int f) (f64_div (f64_of_int unit) scale)))
                                      else 0 in
                          let v := v * unit + frac in
                          if (2 ^ 63 <? v) || (2 ^ 63 <? d + v) then None else duration_parts fuel (d + v) s3
                    end
           end
  end.

(** [time.ParseDuration] *)
Definition parse_duration (s : string) : option duration :=
  let '(neg, body) := match s with
                      | String "-" r => (true, r)
                      | String "+" r => (false, r)
                      | _ => (false, s)
                      end in
  if String.eqb body "0" then Some 0
  else if String.eqb body "" then None
  else match duration_parts (String.length body) 0 body with
       | None => None
       | Some d => if neg then Some (- d) else if 2 ^ 63 - 1 <? d then None else Some d
       end.

Example parse_duration_ex : parse_duration "1h30m" = Some (90 * minute) /\ parse_duration "1.5s" = Some (1500 * millisecond)
  /\ parse_duration "-2m" = Some (- (2 * minute)) /\ parse_duration "5" = None /\ parse_duration "" = None.
Proof. by vm_compute. Qed.

(** ** Quoted strings *)

Definition hex_digit (n : N) : ascii := ascii_of_N (if (n <? 10)%N then n + 48 else n + 87)%N.

(** [strconv.Quote]; the bytes of a character beyond ASCII are kept, as they are of a printable one. *)
Definition quote_char (c : ascii) : string :=
  let n := N_of_ascii c in
  if (n =? 34)%N || (n =? 92)%N then String "\" (String c "")
  else if (n =? 7)%N then "\a" else if (n =? 8)%N then "\b" else if (n =? 12)%N then "\f"
  else if (n =? 10)%N then "\n" else if (n =? 13)%N then "\r" else if (n =? 9)%N then "\t"
  else if (n =? 11)%N then "\v"
  else if (n <? 32)%N || (n =? 127)%N then String "\" (String "x" (String (hex_digit (n / 16)) (String (hex_digit (n mod 16)) "")))
  else String c "".
Definition dquote : ascii := ascii_of_nat 34.
Definition go_quote (s : string) : string :=
  String dquote (String.concat "" (quote_char <$> chars s)) +:+ String dquote "".
