(* ===== verification/Sha256.v ===== *)
(** * SHA-256

    [crypto/sha256] of the Go library, over strings of bytes: FIPS 180-4 with 32-bit words as integers, and the
    hexadecimal print of a digest. *)
From S2P Require Import Prelude GoStrings GoText.
#[local] Open Scope Z_scope.
#[local] Open Scope list_scope.

Definition rotr (n x : Z) : Z := Z.lor (Z.shiftr x n) (u32 (Z.shiftl x (32 - n))).
Definition not32 (x : Z) : Z := Z.lxor x (2 ^ 32 - 1).

Definition ch (x y z : Z) : Z := Z.lxor (Z.land x y) (Z.land (not32 x) z).
Definition maj (x y z : Z) : Z := Z.lxor (Z.lxor (Z.land x y) (Z.land x z)) (Z.land y z).
Definition big_sigma0 (x : Z) : Z := Z.lxor (Z.lxor (rotr 2 x) (rotr 13 x)) (rotr 22 x).
Definition big_sigma1 (x : Z) : Z := Z.lxor (Z.lxor (rotr 6 x) (rotr 11 x)) (rotr 25 x).
Definition small_sigma0 (x : Z) : Z := Z.lxor (Z.lxor (rotr 7 x) (rotr 18 x)) (Z.shiftr x 3).
Definition small_sigma1 (x : Z) : Z := Z.lxor (Z.lxor (rotr 17 x) (rotr 19 x)) (Z.shiftr x 10).

(** The constants are defined by the fractional parts of roots of primes: [root k n] is the integer [k]th root of [n],
    a bit at a time from bit [bits]. *)
Fixpoint root (k : Z) (bits : nat) (acc n : Z) : Z :=
  match bits with
  | O => acc
  | S bits =>
      let next := acc + 2 ^ Z.of_nat bits in
      root k bits (if next ^ k <=? n then next else acc) n
  end.
Definition is_prime (n : Z) : bool := negb (existsb (fun d => n mod d =? 0) (seqZ 2 (n - 2))).
Definition primes (n : Z) : list Z := List.filter is_prime (seqZ 2 (n - 1)).
(** The first 32 bits of the fractional part of the [k]th root of a prime *)
Definition root_bits (k p : Z) : Z := u32 (root k 40 0 (p * 2 ^ (32 * k))).

(** The cube roots of the first 64 primes *)
Definition round_constants : list Z := Eval vm_compute in root_bits 3 <$> primes 311.

Record hash_state := HashState { h_a : Z; h_b : Z; h_c : Z; h_d : Z; h_e : Z; h_f : Z; h_g : Z; h_h : Z }.
(** The square roots of the first 8 primes *)
Definition initial_hash : hash_state := Eval vm_compute in
  match root_bits 2 <$> primes 19 with
  | [a; b; c; d; e; f; g; h] => HashState a b c d e f g h
  | _ => HashState 0 0 0 0 0 0 0 0
  end.

(** The message schedule, newest word first; [i] more words to come. *)
Fixpoint schedule (i : nat) (w : list Z) : list Z :=
  match i with
  | O => rev w
  | S i =>
      let word n := nth n w 0 in
      schedule i (u32 (small_sigma1 (word 1%nat) + word 6%nat + small_sigma0 (word 14%nat) + word 15%nat) :: w)
  end.

Definition round (s : hash_state) (kw : Z * Z) : hash_state :=
  let t1 := u32 (h_h s + big_sigma1 (h_e s) + ch (h_e s) (h_f s) (h_g s) + kw.1 + kw.2) in
  let t2 := u32 (big_sigma0 (h_a s) + maj (h_a s) (h_b s) (h_c s)) in
  HashState (u32 (t1 + t2)) (h_a s) (h_b s) (h_c s) (u32 (h_d s + t1)) (h_e s) (h_f s) (h_g s).

Definition compress (s : hash_state) (block : list Z) : hash_state :=
  let r := foldl round s (zip round_constants (schedule 48 (rev block))) in
  HashState (u32 (h_a s + h_a r)) (u32 (h_b s + h_b r)) (u32 (h_c s + h_c r)) (u32 (h_d s + h_d r))
            (u32 (h_e s + h_e r)) (u32 (h_f s + h_f r)) (u32 (h_g s + h_g r)) (u32 (h_h s + h_h r)).

Fixpoint bytes (s : string) : list Z :=
  match s with EmptyString => [] | String c s => byte_code c :: bytes s end.
(** Padding to whole blocks: a one bit, zeros, and the length in bits. *)
Definition pad (m : list Z) : list Z :=
  let n := Z.of_nat (length m) in
  m ++ 128 :: repeat 0 (Z.to_nat ((55 - n) `mod` 64)) ++ ((fun i => Z.shiftr (8 * n) (8 * i) `mod` 256) <$> rev (seqZ 0 8)).
Fixpoint words (m : list Z) : list Z :=
  match m with
  | a :: b :: c :: d :: m => (a * 2 ^ 24 + b * 2 ^ 16 + c * 2 ^ 8 + d) :: words m
  | _ => []
  end.
Fixpoint blocks (fuel : nat) (w : list Z) : list (list Z) :=
  match fuel, w with
  | S fuel, _ :: _ => take 16 w :: blocks fuel (drop 16 w)
  | _, _ => []
  end.

(** As many rounds of [blocks] as there are words. *)
Definition sha256 (m : string) : hash_state :=
  let w := words (pad (bytes m)) in foldl compress initial_hash (blocks (length w) w).

Definition hex_byte (b : Z) : string :=
  String (hex_digit (Z.to_N (b / 16))) (String (hex_digit (Z.to_N (b `mod` 16))) "").
Definition hex_word (w : Z) : string :=
  hex_byte (Z.shiftr w 24) +:+ hex_byte (Z.shiftr w 16 `mod` 256) +:+ hex_byte (Z.shiftr w 8 `mod` 256) +:+ hex_byte (w `mod` 256).
Definition hex_hash (s : hash_state) : string :=
  hex_word (h_a s) +:+ hex_word (h_b s) +:+ hex_word (h_c s) +:+ hex_word (h_d s)
  +:+ hex_word (h_e s) +:+ hex_word (h_f s) +:+ hex_word (h_g s) +:+ hex_word (h_h s).

(** The vectors of the standard *)
Lemma sha256_empty : hex_hash (sha256 "") = "e3b0c44298fc1c149afbf4c8996fb92427ae41e4649b934ca495991b7852b855".
Proof. by vm_compute. Qed.
Lemma sha256_abc : hex_hash (sha256 "abc") = "ba7816bf8f01cfea414140de5dae2223b00361a396177a9cb410ff61f20015ad".
Proof. by vm_compute. Qed.
Lemma sha256_two_blocks :
  hex_hash (sha256 "abcdbcdecdefdefgefghfghighijhijkijkljklmklmnlmnomnopnopq")
  = "248d6a61d20638b8e5c026930c3e6039a33ce45964ff2167f6ecedd419db06c1".
Proof. by vm_compute. Qed.
