(* ===== verification/ControlTypes.v ===== *)
(** * The control manager: its data and the plan of a sweep

    [internal/services/controlmanager/controlmanager.go] with the vocabulary of
    [internal/drift]: the workloads Miabi expects to exist ([item]), read from its records by
    [plan]. The stores a sweep reads are the fields of [stores]; their rows are the records of
    [internal/models] cut down to the columns this code reads. *)
From S2P Require Import Prelude GoStrings GoTime.
#[local] Open Scope Z_scope.
#[local] Open Scope list_scope.

(** ** Vocabulary *)

(** How far the control manager goes. *)
Inductive mode : Type := ModeOff | ModeObserve | ModeEnforce.
#[export] Instance mode_eq_dec : EqDecision mode.
Proof. solve_decision. Defined.

Inductive item_kind : Type := KindContainer | KindService | KindVolume | KindGateway.
#[export] Instance item_kind_eq_dec : EqDecision item_kind.
Proof. solve_decision. Defined.

Definition kind_string (k : item_kind) : string :=
  match k with
  | KindContainer => "container" | KindService => "service"
  | KindVolume => "volume" | KindGateway => "gateway"
  end.

(** The classes, actions and owners of [internal/drift] that this component uses. *)
Inductive drift_class : Type := ClassMissing | ClassReplaced.
#[export] Instance drift_class_eq_dec : EqDecision drift_class.
Proof. solve_decision. Defined.

Definition class_string (c : drift_class) : string :=
  match c with ClassMissing => "missing" | ClassReplaced => "replaced" end.

Inductive drift_action : Type := ActionRedeploy | ActionRestore | ActionNone.
#[export] Instance drift_action_eq_dec : EqDecision drift_action.
Proof. solve_decision. Defined.

Inductive drift_owner : Type := OwnerApp | OwnerDatabase | OwnerVolume | OwnerNode.
#[export] Instance drift_owner_eq_dec : EqDecision drift_owner.
Proof. solve_decision. Defined.

(** [drift.Replaced]: both timestamps are known and they differ. *)
Definition drift_replaced (recorded engine_created_at : string) : bool :=
  negb (String.eqb recorded "") && negb (String.eqb engine_created_at "")
  && negb (String.eqb engine_created_at recorded).

(** ** Constants *)

Definition confirm_after : Z := 2.
Definition node_grace : duration := minute.
Definition actor_name : string := "control-manager".

(** ** Rows *)

(** [models.ReconcilePolicy]; any other stored value reads as inherit. *)
Inductive reconcile_policy : Type := ReconcileInherit | ReconcileOff | ReconcileObserve | ReconcileEnforce.

(** [models.AppMount] *)
Record app_mount := AppMount { mt_volume_id : N; mt_docker_name : string; mt_config_id : N }.

(** [models.Application] *)
Record application := Application {
  app_id : N; app_name : string; app_alias : string; app_workspace_id : N; app_server_id : N;
  app_cluster_id : N; app_policy : reconcile_policy; app_runtime_service : bool;
  app_mounts : list app_mount }.

(** [models.Volume] *)
Record volume_row := VolumeRow {
  vol_id : N; vol_name : string; vol_docker_name : string; vol_driver_host : bool;
  vol_workspace_id : N; vol_server_id : N; vol_cluster_id : N; vol_engine_created_at : string }.

(** [models.DatabaseInstance] *)
Record instance_row := InstanceRow {
  inst_id : N; inst_name : string; inst_volume_name : string; inst_workspace_id : N;
  inst_server_id : N; inst_cluster_id : N; inst_volume_engine_created_at : string }.

(** [models.Server] *)
Record server_row := ServerRow {
  srv_id : N; srv_name : string; srv_cluster_id : N; srv_gateway_deployed : bool;
  srv_edge_gateway : bool; srv_gateway_imported : bool; srv_gateway_container : string }.

(** [models.VolumeBackup] and [models.DatabaseBackupSet], whose [Ref] is the file name for the former. *)
Record backup_row := BackupRow {
  bk_id : N; bk_completed : bool; bk_ref : string; bk_created_at : instant; bk_size : Z }.

(** The backup a lost volume is brought back from. *)
Record restore := Restore {
  rs_from : string; rs_available : bool; rs_backup_id : N; rs_ref : string;
  rs_created_at : instant; rs_size : Z }.

(** Where an event about an item goes. *)
Record subject := Subject {
  sb_workspace_id : N; sb_app_id : N; sb_database_id : N; sb_database_name : string }.

(** The column an adopted engine timestamp is written to. *)
Inductive adopt_target : Type := AdoptVolume (id : N) | AdoptInstance (id : N).

(** An expected workload. [it_policy] is [None] for the empty [Mode] of an item that carries no app.
    [it_restore] is [None] for a nil closure, else what the closure answers. *)
Record item := Item {
  it_key : string; it_kind : item_kind; it_name : string; it_ref : string; it_owner : drift_owner;
  it_id : N; it_workspace_id : N; it_node_id : N; it_cluster_id : N;
  it_app : option application; it_policy : option mode;
  it_container_id : string; it_service : string;
  it_gateway_name : string; it_imported : bool;
  it_volume_name : string; it_engine_created_at : string;
  it_adopt : option adopt_target; it_restore : option (option restore);
  it_subjects : list subject; it_needs : list string }.

(** ** Keys *)

Definition id_key (prefix : string) (id : N) : string := prefix +:+ itoa (Z.of_N id).
Definition app_key (id : N) : string := id_key "app:" id.
Definition volume_key (id : N) : string := id_key "volume:" id.
Definition db_volume_key (id : N) : string := id_key "dbvolume:" id.
Definition gateway_key (id : N) : string := id_key "gateway:" id.
Definition node_ref (id : N) : string := id_key "node:" id.

(** ** The stores a sweep plans from *)

Record stores := Stores {
  st_list_reconcilable : result string (list application);
  st_in_progress_app_ids : result string (list N);
  st_list_volumes : result string (list volume_row);
  st_list_instances : result string (list instance_row);
  (** the active release's container id; [None] when the lookup fails *)
  st_find_active : N -> option string;
  (** nil stores are [None]; an inner [None] is a query that fails *)
  st_list_servers : option (option (list server_row));
  st_volume_backups : option (N -> option (list backup_row));
  st_db_backups : option (N -> option (list backup_row)) }.

(** ** Planning *)

(** [Service.Mode]: an unknown setting observes. *)
Definition parse_mode (setting : string) : mode :=
  let s := to_lower (trim_space setting) in
  if String.eqb s "off" then ModeOff else if String.eqb s "enforce" then ModeEnforce else ModeObserve.

(** An app may opt in or out of enforcement without the platform mode changing. *)
Definition effective_policy (a : application) (platform : mode) : mode :=
  match app_policy a with
  | ReconcileOff => ModeOff
  | ReconcileObserve => ModeObserve
  | ReconcileEnforce => match platform with ModeOff => ModeOff | _ => ModeEnforce end
  | ReconcileInherit => platform
  end.

(** The newest completed backup ([ListByVolume] is newest first), or a [Restore] that names none. *)
Definition latest_backup (from : string) (rows : option (option (list backup_row))) (with_size : bool)
  : option restore :=
  match rows with
  | None | Some None => None
  | Some (Some l) =>
      match find_first bk_completed l with
      | Some b => Some (Restore from false (bk_id b) (bk_ref b) (bk_created_at b) (if with_size then bk_size b else 0))
      | None => Some (Restore from false 0 "" 0 0)
      end
  end.

Definition latest_volume_backup (s : stores) (id : N) : option restore :=
  latest_backup "volume-backup" ((fun f => f id) <$> st_volume_backups s) true.
Definition latest_recovery_point (s : stores) (id : N) : option restore :=
  latest_backup "recovery-point" ((fun f => f id) <$> st_db_backups s) false.

(** [node.AppAlias] *)
Definition app_alias_of (a : application) : string :=
  if String.eqb (app_alias a) "" then id_key "mb-app-" (app_id a) else app_alias a.

(** The volume item a mount resolves to, by row id or else by Docker name. *)
Definition mount_key (by_id : gmap N string) (by_name : gmap string string) (m : app_mount) : option string :=
  match by_id !! mt_volume_id m with
  | Some k => Some k
  | None => by_name !! mt_docker_name m
  end.

Definition volumes_by_id (vols : list volume_row) : gmap N string :=
  foldl (fun m v => <[vol_id v := volume_key (vol_id v)]> m) ∅ vols.
Definition volumes_by_name (vols : list volume_row) : gmap string string :=
  foldl (fun m v => <[vol_docker_name v := volume_key (vol_id v)]> m) ∅ vols.

Definition app_subject (a : application) : subject := Subject (app_workspace_id a) (app_id a) 0 "".

(** The item of one app, or [None] when there is no container recorded to judge it against. *)
Definition app_item (s : stores) (policy : mode) (needs : list string) (a : application) : option item :=
  let base k c svc := Item (app_key (app_id a)) k (app_name a) (app_key (app_id a)) OwnerApp (app_id a)
    (app_workspace_id a) (app_server_id a) (app_cluster_id a) (Some a) (Some policy) c svc "" false "" "" None None
    [app_subject a] needs in
  if app_runtime_service a then Some (base KindService "" (app_alias_of a))
  else match st_find_active s (app_id a) with
       | Some c => if String.eqb c "" then None else Some (base KindContainer c "")
       | None => None
       end.

(** One turn of the loop over the apps: [mountedBy] is extended even when the app gives no item. *)
Definition plan_app (s : stores) (platform : mode) (deploying : list N) (by_id : gmap N string)
    (by_name : gmap string string) (acc : list item * gmap string (list subject)) (a : application)
  : list item * gmap string (list subject) :=
  let '(items, mounted) := acc in
  if bool_decide (app_id a ∈ deploying) then acc
  else match effective_policy a platform with
       | ModeOff => acc
       | policy =>
           let needs : list string := omap (mount_key by_id by_name) (app_mounts a) in
           let mounted := foldl (fun m k => <[k := default [] (m !! k) ++ [app_subject a]]> m) mounted needs in
           match app_item s policy needs a with
           | Some it => (items ++ [it], mounted)
           | None => (items, mounted)
           end
       end.

(** Host-driver volumes are binds to an operator-managed path, not Docker volumes. *)
Definition volume_item (s : stores) (mounted : gmap string (list subject)) (v : volume_row) : option item :=
  if vol_driver_host v || String.eqb (vol_docker_name v) "" then None
  else Some (Item (volume_key (vol_id v)) KindVolume (vol_name v) (volume_key (vol_id v)) OwnerVolume (vol_id v)
    (vol_workspace_id v) (vol_server_id v) (vol_cluster_id v) None None "" "" "" false
    (vol_docker_name v) (vol_engine_created_at v) (Some (AdoptVolume (vol_id v)))
    (Some (latest_volume_backup s (vol_id v))) (default [] (mounted !! volume_key (vol_id v))) []).

Definition instance_item (s : stores) (i : instance_row) : option item :=
  if String.eqb (inst_volume_name i) "" then None
  else Some (Item (db_volume_key (inst_id i)) KindVolume (inst_name i) (db_volume_key (inst_id i)) OwnerDatabase
    (inst_id i) (inst_workspace_id i) (inst_server_id i) (inst_cluster_id i) None None "" "" "" false
    (inst_volume_name i) (inst_volume_engine_created_at i) (Some (AdoptInstance (inst_id i)))
    (Some (latest_recovery_point s (inst_id i)))
    [Subject (inst_workspace_id i) 0 (inst_id i) (inst_name i)] []).

(** [edgegateway.ContainerNameFor] *)
Definition gateway_container_name (srv : server_row) : string :=
  let n := trim_space (srv_gateway_container srv) in
  if String.eqb n "" then "mb-node-gateway" else n.

Definition gateway_item (srv : server_row) : option item :=
  if negb (srv_gateway_deployed srv) || negb (srv_edge_gateway srv) then None
  else Some (Item (gateway_key (srv_id srv)) KindGateway (srv_name srv) (node_ref (srv_id srv)) OwnerNode
    (srv_id srv) 0 (srv_id srv) (srv_cluster_id srv) None None "" "" (gateway_container_name srv)
    (srv_gateway_imported srv) "" "" None None [] []).

(** Unwired or unreadable servers: gateways are simply not watched. *)
Definition gateway_items (s : stores) : list item :=
  match st_list_servers s with
  | Some (Some l) => omap gateway_item l
  | _ => []
  end.

(** [Service.plan]: apps, then volumes, then database volumes, then gateways. *)
Definition plan (s : stores) (platform : mode) : result string (list item) :=
  let? apps := st_list_reconcilable s in
  let? busy := st_in_progress_app_ids s in
  let? vols := st_list_volumes s in
  let? insts := st_list_instances s in
  let '(items, mounted) :=
    foldl (plan_app s platform busy (volumes_by_id vols) (volumes_by_name vols)) ([], ∅) apps in
  Ok (items ++ omap (volume_item s mounted) vols ++ omap (instance_item s) insts ++ gateway_items s).
