(* ===== verification/ControlObserve.v ===== *)
(** * The control manager: observing the nodes

    [internal/services/controlmanager/observe.go]. An engine's answers are the fields of
    [docker_client], and [world] says which engines the control plane reaches during the sweep.
    A silent engine leaves its items without an observation, which reads as [Unknown]. *)
From S2P Require Import Prelude GoStrings GoTime ControlTypes.
#[local] Open Scope Z_scope.
#[local] Open Scope list_scope.

(** ** Observations *)

Inductive obs_state : Type := Unknown | Intact | Gone | Replaced.
#[export] Instance obs_state_eq_dec : EqDecision obs_state.
Proof. solve_decision. Defined.

Record observation := Observation { ob_state : obs_state; ob_kind : option item_kind }.
(** Go's zero observation, which a missing map entry reads as *)
Definition no_observation : observation := Observation Unknown None.

(** [state.class] *)
Definition class_of (st : obs_state) : drift_class :=
  match st with Replaced => ClassReplaced | _ => ClassMissing end.

Inductive skip_scope : Type := ScopeNode | ScopeCluster.
#[export] Instance skip_scope_eq_dec : EqDecision skip_scope.
Proof. solve_decision. Defined.
Record skip := Skip { sk_scope : skip_scope; sk_id : N; sk_reason : string }.

(** ** Engines *)

Inductive docker_error : Type := DockerNotFound | DockerError (msg : string).
Record container := Container { ct_id : string; ct_state : string }.
Record docker_volume := DockerVolume { dv_name : string; dv_created_at : string }.
Record docker_client := DockerClient {
  dc_list_containers : result string (list container);
  dc_list_volumes : result string (list docker_volume);
  dc_inspect_container : string -> result docker_error container;
  dc_service_inspect : string -> result docker_error unit }.

(** [ConnectedSince], [For] and [Manager] as they answer during the sweep. *)
Record world := World {
  w_connected_since : N -> instant * bool;
  w_for : N -> option docker_client;
  w_manager : N -> result string docker_client }.

(** ** Judging one item *)

Definition container_state (cs : list container) (id : string) : obs_state :=
  if existsb (fun c => has_prefix id (ct_id c)) cs then Intact else Gone.

(** Containers run unless-stopped, so a gateway that is not running counts as gone. *)
Definition gateway_state (dc : docker_client) (name : string) : obs_state :=
  match dc_inspect_container dc name with
  | Err DockerNotFound => Gone
  | Err (DockerError _) => Unknown
  | Ok c => if String.eqb (ct_state c) "running" then Intact else Gone
  end.

(** The state of a volume, and the engine timestamp to record for it ([""] for none). *)
Definition volume_state (live : gmap string docker_volume) (name recorded : string) : obs_state * string :=
  match live !! name with
  | None => (Gone, "")
  | Some v =>
      if String.eqb recorded "" then (Intact, dv_created_at v)
      else if drift_replaced recorded (dv_created_at v) then (Replaced, "")
      else (Intact, "")
  end.

(** ** One node *)

(** The listing loop of [observeNode]: an engine is listed when the first item needs it, and again
    while the listing is empty; a failed listing skips the node. *)
Fixpoint list_node (dc : docker_client) (items : list item) (cs : list container)
    (live : gmap string docker_volume) : result string (list container * gmap string docker_volume) :=
  match items with
  | [] => Ok (cs, live)
  | it :: rest =>
      match it_kind it with
      | KindContainer =>
          if match cs with [] => true | _ => false end then
            match dc_list_containers dc with
            | Err e => Err ("listing containers failed: " +:+ e)
            | Ok cs => list_node dc rest cs live
            end
          else list_node dc rest cs live
      | KindVolume =>
          if Nat.eqb (size live) 0 then
            match dc_list_volumes dc with
            | Err e => Err ("listing volumes failed: " +:+ e)
            | Ok vs => list_node dc rest cs (foldl (fun m v => <[dv_name v := v]> m) live vs)
            end
          else list_node dc rest cs live
      | _ => list_node dc rest cs live
      end
  end.

Abbreviation seen_map := (gmap string observation).
Abbreviation adoption := (adopt_target * string)%type.

(** The judging loop of [observeNode], for one item. *)
Definition observe_item (dc : docker_client) (cs : list container) (live : gmap string docker_volume)
    (acc : seen_map * list adoption) (it : item) : seen_map * list adoption :=
  let '(seen, adopted) := acc in
  match it_kind it with
  | KindContainer =>
      (<[it_key it := Observation (container_state cs (it_container_id it)) (Some KindContainer)]> seen, adopted)
  | KindGateway =>
      (<[it_key it := Observation (gateway_state dc (it_gateway_name it)) (Some KindGateway)]> seen, adopted)
  | KindVolume =>
      let '(st, at_) := volume_state live (it_volume_name it) (it_engine_created_at it) in
      (<[it_key it := Observation st (Some KindVolume)]> seen,
       match it_adopt it with
       | Some t => if String.eqb at_ "" then adopted else adopted ++ [(t, at_)]
       | None => adopted
       end)
  | KindService => acc
  end.

(** [observeNode]: the reason the node is skipped ([""] when it is not), and what was seen. *)
Definition observe_node (w : world) (now : instant) (node : N) (items : list item)
    (acc : seen_map * list adoption) : string * (seen_map * list adoption) :=
  let '(since, connected) := w_connected_since w node in
  if negb connected then ("offline", acc)
  else if negb (is_zero_time since) && (now - since <? node_grace) then ("agent connected recently", acc)
  else match w_for w node with
       | None => ("offline", acc)
       | Some dc =>
           match list_node dc items [] ∅ with
           | Err reason => (reason, acc)
           | Ok (cs, live) => ("", foldl (observe_item dc cs live) acc items)
           end
       end.

(** ** One cluster *)

(** Only not-found is missing; any other answer leaves the service unknown. *)
Definition observe_service (mgr : docker_client) (seen : seen_map) (it : item) : seen_map :=
  match dc_service_inspect mgr (it_service it) with
  | Ok _ => <[it_key it := Observation Intact (Some KindService)]> seen
  | Err DockerNotFound => <[it_key it := Observation Gone (Some KindService)]> seen
  | Err (DockerError _) => seen
  end.

Definition observe_cluster (w : world) (cluster : N) (items : list item) (seen : seen_map) : string * seen_map :=
  match w_manager w cluster with
  | Err e => ("manager unreachable: " +:+ e, seen)
  | Ok mgr => ("", foldl (observe_service mgr) seen items)
  end.

(** ** The whole sweep *)

Definition group_by (f : item -> N) (items : list item) : gmap N (list item) :=
  foldl (fun m it => <[f it := default [] (m !! f it) ++ [it]]> m) ∅ items.

Definition is_service (it : item) : bool := bool_decide (it_kind it = KindService).

Definition observe_nodes_step (w : world) (now : N -> instant) (acc : seen_map * list adoption * list skip)
    (group : N * list item) : seen_map * list adoption * list skip :=
  let '(sa, skipped) := acc in
  let '(reason, sa) := observe_node w (now group.1) group.1 group.2 sa in
  (sa, if String.eqb reason "" then skipped else skipped ++ [Skip ScopeNode group.1 reason]).

Definition observe_clusters_step (w : world) (acc : seen_map * list skip) (group : N * list item)
  : seen_map * list skip :=
  let '(seen, skipped) := acc in
  let '(reason, seen) := observe_cluster w group.1 group.2 seen in
  (seen, if String.eqb reason "" then skipped else skipped ++ [Skip ScopeCluster group.1 reason]).

(** Nodes before clusters, then by id. *)
Definition skip_less (a b : skip) : bool :=
  match sk_scope a, sk_scope b with
  | ScopeNode, ScopeCluster => true
  | ScopeCluster, ScopeNode => false
  | _, _ => (sk_id a <? sk_id b)%N
  end.

(** [Service.observe]. Go visits the groups in no fixed order; each writes the entries of its own
    items, and the skipped list is sorted afterwards. [now] is the clock read for each node. *)
Definition observe (w : world) (now : N -> instant) (items : list item) : seen_map * list skip * list adoption :=
  let by_node := group_by it_node_id (List.filter (fun it => negb (is_service it)) items) in
  let by_cluster := group_by it_cluster_id (List.filter is_service items) in
  let '(seen, adopted, skipped) := foldl (observe_nodes_step w now) (∅, [], []) (map_to_list by_node) in
  let '(seen, skipped) := foldl (observe_clusters_step w) (seen, skipped) (map_to_list by_cluster) in
  (seen, stable_sort skip_less skipped, adopted).
