(* ===== verification/ControlState.v ===== *)
(** * The control manager: findings

    [internal/services/controlmanager/state.go]: the findings a sweep updates, the apps a lost
    volume blocks, and what is announced. [*Finding] values live in the [findings] map alone, so a
    copy taken for a notice is a value. What a step tells the outside (timeline events, metrics,
    audit entries, adopted timestamps, redeploys) is a list of [output]s in the order of the calls. *)
From S2P Require Import Prelude GoStrings GoTime ControlTypes ControlObserve.
#[local] Open Scope Z_scope.
#[local] Open Scope list_scope.

(** ** State *)

Record finding := Finding {
  f_class : drift_class; f_kind : item_kind; f_ref : string; f_name : string;
  f_owner_kind : drift_owner; f_owner_id : N; f_action : drift_action;
  f_workspace_id : N; f_server_id : N; f_cluster_id : N;
  f_first_seen_at : instant; f_last_seen_at : instant; f_confirmed : bool;
  f_attempts : Z; f_next_attempt_at : option instant; f_breaker_open : bool;
  f_restore : option restore; f_blocked : bool; f_blocked_reason : string;
  f_misses : Z; f_subjects : list subject }.

(** One app's (or gateway's) history of attempts. *)
Record attempt := Attempt {
  at_tries : Z; at_failures : Z; at_breaker_open : bool;
  at_last_acted_at : instant; at_next_at : instant; at_said_blocked : string }.
Definition new_attempt : attempt := Attempt 0 0 false 0 0 "".

Record cm_state := CmState {
  cm_findings : gmap string finding;
  cm_blocked : gmap N string;
  cm_attempts : gmap string attempt;
  cm_inflight : gmap N N;
  cm_skipped : list skip;
  cm_last_sweep : option instant;
  cm_sweep_took : duration }.

(** [New]: a control manager that has never swept. *)
Definition new_state : cm_state := CmState ∅ ∅ ∅ ∅ [] None 0.

(** ** Outputs *)

Inductive event_type : Type :=
| EventDriftDetected | EventDriftResolved | EventReconcileRedeploy | EventReconcileBlocked | EventReconcileBreakerOpen.
Inductive severity : Type := SeverityInfo | SeverityWarning | SeverityError.

(** [metrics.ControlManagerDrift] *)
Record drift_counts := DriftCounts {
  dc_missing_containers : Z; dc_missing_services : Z; dc_missing_volumes : Z; dc_replaced_volumes : Z;
  dc_missing_gateways : Z; dc_blocked_apps : Z; dc_unobserved_nodes : Z; dc_unobserved_clusters : Z }.
Definition no_drift : drift_counts := DriftCounts 0 0 0 0 0 0 0 0.

Inductive output : Type :=
| OEmit (ws app : N) (t : event_type) (sev : severity) (msg : string) (meta : gmap string string)
| OEmitDatabase (ws db : N) (name : string) (t : event_type) (sev : severity) (msg : string) (meta : gmap string string)
| OMetricSweep (took : duration)
| OMetricDrift (c : drift_counts)
| OMetricAction (action outcome : string)
| OAdopt (t : adopt_target) (engine_created_at : string)
| ORedeploy (it : item) (reason : string)
| OEnsureGateway (node : N)
| OAudit (action target_type : string) (target_id : N) (ws : option N) (meta : gmap string string).

(** ** New findings *)

Definition initial_action (it : item) : drift_action :=
  match it_kind it with
  | KindVolume => ActionRestore
  | KindGateway => if it_imported it then ActionNone else ActionRedeploy
  | _ => ActionRedeploy
  end.

Definition mark_available (r : restore) : restore :=
  Restore (rs_from r) (negb (rs_backup_id r =? 0)%N) (rs_backup_id r) (rs_ref r) (rs_created_at r) (rs_size r).

Definition new_finding (it : item) (st : obs_state) (now : instant) : finding :=
  Finding (class_of st) (it_kind it) (it_ref it) (it_name it) (it_owner it) (it_id it) (initial_action it)
    (it_workspace_id it) (it_node_id it) (it_cluster_id it) now now false 0 None false
    (match it_kind it, it_restore it with
     | KindVolume, Some answer => mark_available <$> answer
     | _, _ => None
     end)
    false "" 0 (it_subjects it).

(** One more sweep that missed it. *)
Definition miss (f : finding) (now : instant) (confirmed : bool) : finding :=
  Finding (f_class f) (f_kind f) (f_ref f) (f_name f) (f_owner_kind f) (f_owner_id f) (f_action f)
    (f_workspace_id f) (f_server_id f) (f_cluster_id f) (f_first_seen_at f) now confirmed
    (f_attempts f) (f_next_attempt_at f) (f_breaker_open f) (f_restore f) (f_blocked f) (f_blocked_reason f)
    (f_misses f + 1) (f_subjects f).

(** A workload whose data is gone: a redeploy would start it on an empty volume. *)
Definition block_finding (f : finding) (reason : string) : finding :=
  Finding (f_class f) (f_kind f) (f_ref f) (f_name f) (f_owner_kind f) (f_owner_id f) ActionRestore
    (f_workspace_id f) (f_server_id f) (f_cluster_id f) (f_first_seen_at f) (f_last_seen_at f) (f_confirmed f)
    (f_attempts f) (f_next_attempt_at f) (f_breaker_open f) (f_restore f) true reason
    (f_misses f) (f_subjects f).

(** ** Recording a sweep *)

(** A timeline event decided under the lock and emitted after it. *)
Record notice := Notice { nt_finding : finding; nt_back : bool }.

(** The body of the loop of [record] over the expected items. *)
Definition record_item (now : instant) (seen : gmap string observation)
    (acc : gmap string finding * list notice) (it : item) : gmap string finding * list notice :=
  let '(fs, notices) := acc in
  let o := default no_observation (seen !! it_key it) in
  match ob_state o with
  | Unknown => acc
  | Intact =>
      match fs !! it_key it with
      | None => acc
      | Some f => (delete (it_key it) fs, if f_confirmed f then notices ++ [Notice f true] else notices)
      end
  | st =>
      let f := match fs !! it_key it with
               | Some f => if bool_decide (f_class f = class_of st) then f else new_finding it st now
               | None => new_finding it st now
               end in
      let confirms := negb (f_confirmed f) && (confirm_after <=? f_misses f + 1) in
      let f := miss f now (f_confirmed f || confirms) in
      (<[it_key it := f]> fs, if confirms then notices ++ [Notice f false] else notices)
  end.

(** An item no longer expected settles its finding. *)
Definition drop_unexpected (items : list item) (fs : gmap string finding) : gmap string finding :=
  filter (fun kf => kf.1 ∈ (it_key <$> items)) fs.

(** So an app that keeps disappearing does not reset its backoff by looking healthy for one sweep. *)
Definition forget_after : duration := 10 * minute.
Definition forget_attempts (now : instant) (fs : gmap string finding) (atts : gmap string attempt)
  : gmap string attempt :=
  filter (fun ka => ~ (fs !! ka.1 = None /\ forget_after < now - at_last_acted_at ka.2)) atts.

Definition block_reason (lost : finding) : string :=
  "its data volume " +:+ f_name lost +:+ " is " +:+ class_string (f_class lost)
  +:+ ", so it needs a manual restore before it runs again".

(** One need of one app item in [blockLocked]. *)
Definition block_need (it : item) (acc : gmap N string * gmap string finding) (need : string)
  : gmap N string * gmap string finding :=
  let '(out, fs) := acc in
  match fs !! need with
  | None => acc
  | Some lost =>
      if negb (f_confirmed lost) then acc
      else let reason := block_reason lost in
           (<[it_id it := reason]> out,
            match fs !! it_key it with
            | Some f => <[it_key it := block_finding f reason]> fs
            | None => fs
            end)
  end.

Definition block_item (acc : gmap N string * gmap string finding) (it : item)
  : gmap N string * gmap string finding :=
  match it_owner it with
  | OwnerApp => foldl (block_need it) acc (it_needs it)
  | _ => acc
  end.

(** [Service.blockLocked] *)
Definition block_locked (items : list item) (fs : gmap string finding) : gmap N string * gmap string finding :=
  foldl block_item (∅, fs) items.

(** [Service.countsLocked] *)
Definition count_finding (c : drift_counts) (f : finding) : drift_counts :=
  let '(DriftCounts mc ms mv rv mg b un uc) := c in
  if negb (f_confirmed f) then c
  else match f_kind f, f_class f with
       | KindService, _ => DriftCounts mc (ms + 1) mv rv mg b un uc
       | KindVolume, ClassReplaced => DriftCounts mc ms mv (rv + 1) mg b un uc
       | KindVolume, ClassMissing => DriftCounts mc ms (mv + 1) rv mg b un uc
       | KindGateway, _ => DriftCounts mc ms mv rv (mg + 1) b un uc
       | KindContainer, _ => DriftCounts (mc + 1) ms mv rv mg b un uc
       end.

Definition counts_locked (fs : gmap string finding) (blocked : gmap N string) : drift_counts :=
  let '(DriftCounts mc ms mv rv mg _ un uc) := foldl count_finding no_drift (map_to_list fs).*2 in
  DriftCounts mc ms mv rv mg (Z.of_nat (size blocked)) un uc.

Definition count_skip (c : drift_counts) (s : skip) : drift_counts :=
  let '(DriftCounts mc ms mv rv mg b un uc) := c in
  match sk_scope s with
  | ScopeCluster => DriftCounts mc ms mv rv mg b un (uc + 1)
  | ScopeNode => DriftCounts mc ms mv rv mg b (un + 1) uc
  end.

(** ** Announcing *)

Definition detected_message (k : item_kind) : string :=
  match k with
  | KindContainer => "The active release's container no longer exists on its node"
  | KindService => "The app's swarm service no longer exists in its cluster"
  | KindGateway => "The node's gateway is not running, so the node is serving nothing"
  | KindVolume => ""
  end.

Definition resolved_message (k : item_kind) : string :=
  match k with
  | KindContainer => "The active release's container exists again"
  | KindService => "The app's swarm service exists again"
  | KindGateway => "The node's gateway is running again"
  | KindVolume => ""
  end.

Definition restore_advice (r : option restore) : string :=
  match r with
  | None => "Restore it from a backup."
  | Some r =>
      let point := String.eqb (rs_from r) "recovery-point" in
      if negb (rs_available r) && point then "No completed recovery point was found for this instance."
      else if negb (rs_available r) then "No completed backup was found for this volume."
      else if point then "Restore recovery point " +:+ rs_ref r +:+ " from " +:+ rfc3339 (rs_created_at r) +:+ "."
      else "Restore the backup from " +:+ rfc3339 (rs_created_at r) +:+ "."
  end.

Definition message (f : finding) (back : bool) : string :=
  match f_kind f with
  | KindVolume =>
      if back then "The data volume " +:+ f_name f +:+ " exists again"
      else let lost := match f_class f with
                       | ClassReplaced => "The data volume " +:+ f_name f +:+
                           " was deleted and recreated outside Miabi, so it no longer holds the data it did"
                       | ClassMissing => "The data volume " +:+ f_name f +:+ " no longer exists on its node"
                       end in
           lost +:+ ". " +:+ restore_advice (f_restore f) +:+
           " Miabi will not recreate the volume, and nothing that mounts it is started again until it is back."
  | k => if back then resolved_message k else detected_message k
  end.

Definition is_volume (f : finding) : bool := bool_decide (f_kind f = KindVolume).

Definition announce_meta (f : finding) : gmap string string :=
  let meta := <["actor" := actor_name]> (<["kind" := kind_string (f_kind f)]>
    (<["class" := class_string (f_class f)]> {["first_seen_at" := rfc3339 (f_first_seen_at f)]})) in
  if is_volume f then
    let meta := <["volume" := f_name f]> meta in
    match f_restore f with
    | Some r => if rs_available r then <["restore_from" := rs_ref r]> meta else meta
    | None => meta
    end
  else meta.

(** [Service.announce]: one event per subject of the finding. *)
Definition announce (n : notice) : list output :=
  let f := nt_finding n in
  let typ := if nt_back n then EventDriftResolved else EventDriftDetected in
  let sev := if nt_back n then SeverityInfo else if is_volume f then SeverityError else SeverityWarning in
  let msg := message f (nt_back n) in
  (fun sub => if negb (sb_database_id sub =? 0)%N
              then OEmitDatabase (sb_workspace_id sub) (sb_database_id sub) (sb_database_name sub) typ sev msg (announce_meta f)
              else OEmit (sb_workspace_id sub) (sb_app_id sub) typ sev msg (announce_meta f)) <$> f_subjects f.

(** [Service.record]: [now] is its clock reading, [start] the beginning of the sweep. *)
Definition record (now start : instant) (items : list item) (seen : gmap string observation)
    (skipped : list skip) (s : cm_state) : cm_state * list output :=
  let '(fs, notices) := foldl (record_item now seen) (cm_findings s, []) items in
  let fs := drop_unexpected items fs in
  let atts := forget_attempts now fs (cm_attempts s) in
  let '(blocked, fs) := block_locked items fs in
  let took := now - start in
  let counts := foldl count_skip (counts_locked fs blocked) skipped in
  (CmState fs blocked atts (cm_inflight s) skipped (Some start) took,
   OMetricSweep took :: OMetricDrift counts :: concat (announce <$> notices)).

(** [Service.reset] *)
Definition reset : cm_state * list output := (new_state, [OMetricDrift no_drift]).

(** ** Reading the state *)

(** [Service.BlockedRedeploy] *)
Definition blocked_redeploy (s : cm_state) (app : N) : option string := cm_blocked s !! app.

(** What [Status] reports of one finding: a copy with its attempts filled in. *)
Definition report_finding (atts : gmap string attempt) (key : string) (f : finding) : finding :=
  match atts !! key with
  | None => f
  | Some a =>
      Finding (f_class f) (f_kind f) (f_ref f) (f_name f) (f_owner_kind f) (f_owner_id f) (f_action f)
        (f_workspace_id f) (f_server_id f) (f_cluster_id f) (f_first_seen_at f) (f_last_seen_at f) (f_confirmed f)
        (at_tries a) (if is_zero_time (at_next_at a) then f_next_attempt_at f else Some (at_next_at a))
        (at_breaker_open a) (f_restore f) (f_blocked f) (f_blocked_reason f) (f_misses f) (f_subjects f)
  end.

Definition finding_less (a b : finding) : bool :=
  if bool_decide (f_kind a = f_kind b) then (f_owner_id a <? f_owner_id b)%N
  else str_lt (kind_string (f_kind a)) (kind_string (f_kind b)).

Record blocked_app := BlockedApp { ba_app_id : N; ba_name : string; ba_reason : string }.

(** [Service.blockedList] *)
Definition blocked_list (s : cm_state) : list blocked_app :=
  stable_sort (fun a b => (ba_app_id a <? ba_app_id b)%N)
    ((fun '(id, reason) => BlockedApp id (from_option f_name "" (cm_findings s !! app_key id)) reason)
       <$> map_to_list (cm_blocked s)).

Record cm_status := CmStatus {
  ss_mode : mode; ss_last_sweep_at : option instant; ss_sweep_millis : Z;
  ss_findings : list finding; ss_blocked : list blocked_app; ss_skipped : list skip }.

(** [Service.Status] *)
Definition status (m : mode) (s : cm_state) : cm_status :=
  CmStatus m (cm_last_sweep s)
    (match cm_last_sweep s with Some _ => Z.quot (cm_sweep_took s) millisecond | None => 0 end)
    (stable_sort finding_less
       ((fun '(key, f) => report_finding (cm_attempts s) key f) <$> map_to_list (cm_findings s)))
    (blocked_list s) (cm_skipped s).

(** ** One key at a time *)

(** The finding a miss is counted on: the one there is, unless it is of another class. *)
Definition carried (it : item) (st : obs_state) (now : instant) (old : option finding) : finding :=
  match old with
  | Some f => if bool_decide (f_class f = class_of st) then f else new_finding it st now
  | None => new_finding it st now
  end.

Definition confirms (f : finding) : bool := negb (f_confirmed f) && (confirm_after <=? f_misses f + 1).

Abbreviation obs_at seen it := (ob_state (default no_observation (seen !! it_key it))).

(** What one sweep does to the finding of an expected item. *)
Definition next_finding (now : instant) (seen : gmap string observation) (it : item) (old : option finding)
  : option finding :=
  match obs_at seen it with
  | Unknown => old
  | Intact => None
  | st => let f := carried it st now old in Some (miss f now (f_confirmed f || confirms f))
  end.

(** The notices it gives rise to. *)
Definition item_notices (now : instant) (seen : gmap string observation) (it : item) (old : option finding)
  : list notice :=
  match obs_at seen it with
  | Unknown => []
  | Intact => match old with Some f => if f_confirmed f then [Notice f true] else [] | None => [] end
  | st => let f := carried it st now old in
          if confirms f then [Notice (miss f now (f_confirmed f || confirms f)) false] else []
  end.

Lemma record_item_keyed now seen fs ns it :
  record_item now seen (fs, ns) it =
  (partial_alter (next_finding now seen it) (it_key it) fs, ns ++ item_notices now seen it (fs !! it_key it)).
Proof.
  unfold record_item. rewrite (partial_alter_value _ _ _ _ eq_refl). unfold next_finding, item_notices.
  destruct (obs_at seen it) eqn:Ho.
  - rewrite app_nil_r. destruct (fs !! it_key it) eqn:Hf; [by rewrite insert_id | by rewrite delete_id].
  - destruct (fs !! it_key it) as [f|] eqn:Hf.
    + destruct (f_confirmed f); by rewrite ?app_nil_r.
    + by rewrite app_nil_r, delete_id.
  - fold (carried it Gone now (fs !! it_key it)). set (f := carried _ _ _ _). unfold confirms.
    destruct (negb (f_confirmed f) && _); by rewrite ?app_nil_r.
  - fold (carried it Replaced now (fs !! it_key it)). set (f := carried _ _ _ _). unfold confirms.
    destruct (negb (f_confirmed f) && _); by rewrite ?app_nil_r.
Qed.

#[local] Arguments record_item : simpl never.

Lemma record_items_findings now seen items fs ns :
  (foldl (record_item now seen) (fs, ns) items).1 = keyed_fold it_key (next_finding now seen) items fs.
Proof.
  unfold keyed_fold. revert fs ns. induction items as [|it items IH]; intros fs ns; [done|].
  simpl. rewrite record_item_keyed. by rewrite IH.
Qed.

(** With distinct keys, the notices of the loop are those of its items against the old findings. *)
Lemma record_items_notices now seen items fs ns :
  NoDup (it_key <$> items) ->
  (foldl (record_item now seen) (fs, ns) items).2 =
  ns ++ concat ((fun it => item_notices now seen it (fs !! it_key it)) <$> items).
Proof.
  revert fs ns. induction items as [|it items IH]; intros fs ns Hnd; simpl; [by rewrite app_nil_r|].
  rewrite fmap_cons, NoDup_cons in Hnd. destruct Hnd as [Hit Hnd].
  rewrite record_item_keyed, IH by done. rewrite <- app_assoc. do 3 f_equal.
  apply list_fmap_ext. intros i it' Hi. rewrite lookup_partial_alter_ne; [done|].
  intros Heq. apply Hit. rewrite Heq. apply list_elem_of_fmap_2. by eapply list_elem_of_lookup_2.
Qed.

(** ** Blocking leaves the history of a finding alone *)

(** A finding with what [blockLocked] may set put back. *)
Definition core (f : finding) : finding :=
  Finding (f_class f) (f_kind f) (f_ref f) (f_name f) (f_owner_kind f) (f_owner_id f) ActionNone
    (f_workspace_id f) (f_server_id f) (f_cluster_id f) (f_first_seen_at f) (f_last_seen_at f) (f_confirmed f)
    (f_attempts f) (f_next_attempt_at f) (f_breaker_open f) (f_restore f) false ""
    (f_misses f) (f_subjects f).

Lemma core_block f reason : core (block_finding f reason) = core f.
Proof. done. Qed.

Lemma block_need_core it acc need k : core <$> (block_need it acc need).2 !! k = core <$> acc.2 !! k.
Proof.
  destruct acc as [out fs]. unfold block_need. destruct (fs !! need) as [lost|]; [|done].
  destruct (f_confirmed lost); [simpl|done].
  destruct (fs !! it_key it) as [f|] eqn:Hf; [|done].
  destruct (decide (it_key it = k)) as [<-|Hne];
    [by rewrite lookup_insert_eq, Hf | by rewrite lookup_insert_ne].
Qed.

Lemma block_item_core acc it k : core <$> (block_item acc it).2 !! k = core <$> acc.2 !! k.
Proof.
  unfold block_item. destruct (it_owner it); try done.
  apply (foldl_inv (fun a => core <$> a.2 !! k = core <$> acc.2 !! k)); [done|].
  intros a need _ Ha. by rewrite block_need_core.
Qed.

Lemma block_locked_core items fs k : core <$> (block_locked items fs).2 !! k = core <$> fs !! k.
Proof.
  unfold block_locked. apply (foldl_inv (fun a => core <$> a.2 !! k = core <$> fs !! k)); [done|].
  intros a it _ Ha. by rewrite block_item_core.
Qed.

Lemma core_lookup (fs gs : gmap string finding) k f :
  core <$> fs !! k = core <$> gs !! k -> fs !! k = Some f -> exists g, gs !! k = Some g /\ core g = core f.
Proof. intros Heq Hf. rewrite Hf in Heq. destruct (gs !! k) as [g|]; [|done]. apply (inj Some) in Heq. eauto. Qed.

Lemma core_fields f g : core f = core g ->
  f_class f = f_class g /\ f_kind f = f_kind g /\ f_name f = f_name g /\ f_confirmed f = f_confirmed g
  /\ f_misses f = f_misses g.
Proof. intros H. injection H as. done. Qed.

(** ** The contract of a sweep, per workload

    Seen from outside, all the control manager remembers of a workload is the class of its drift
    and how many sweeps in a row it has been missing. *)

Abbreviation view := (option (drift_class * Z)).
Definition view_of (fs : gmap string finding) (k : string) : view :=
  (fun f => (f_class f, f_misses f)) <$> fs !! k.

Definition spec_step (o : obs_state) (v : view) : view :=
  match o with
  | Unknown => v
  | Intact => None
  | st => match v with
          | Some (c, n) => if bool_decide (c = class_of st) then Some (c, n + 1) else Some (class_of st, 1)
          | None => Some (class_of st, 1)
          end
  end.

Definition is_lost (o : obs_state) : bool := match o with Gone | Replaced => true | _ => false end.

Lemma next_finding_view now seen it old :
  (fun f => (f_class f, f_misses f)) <$> next_finding now seen it old =
  spec_step (obs_at seen it) ((fun f => (f_class f, f_misses f)) <$> old).
Proof.
  unfold next_finding, spec_step, carried.
  destruct (obs_at seen it); try done; destruct old as [f|]; simpl; try done; by case_bool_decide.
Qed.

(** The findings after [record], one key at a time. *)
Lemma record_findings_core now start items seen skipped s k :
  core <$> cm_findings (record now start items seen skipped s).1 !! k =
  core <$> drop_unexpected items (keyed_fold it_key (next_finding now seen) items (cm_findings s)) !! k.
Proof.
  unfold record. rewrite (surjective_pairing (foldl (record_item now seen) _ _)), record_items_findings.
  set (fs := drop_unexpected _ _). rewrite (surjective_pairing (block_locked items fs)). simpl.
  apply block_locked_core.
Qed.

Lemma drop_unexpected_lookup items fs k :
  drop_unexpected items fs !! k = if bool_decide (k ∈ (it_key <$> items)) then fs !! k else None.
Proof.
  unfold drop_unexpected. rewrite map_lookup_filter. destruct (fs !! k) as [f|]; simpl; [|by case_match].
  case_bool_decide as Hk.
  - by rewrite option_guard_True.
  - by rewrite option_guard_False.
Qed.

Lemma record_finding_next now start items seen skipped s it :
  NoDup (it_key <$> items) -> it ∈ items ->
  core <$> cm_findings (record now start items seen skipped s).1 !! it_key it =
  core <$> next_finding now seen it (cm_findings s !! it_key it).
Proof.
  intros Hnd Hit. rewrite record_findings_core, drop_unexpected_lookup, bool_decide_eq_true_2
    by (by apply list_elem_of_fmap_2).
  by rewrite keyed_fold_lookup.
Qed.

Lemma record_finding_some now start items seen skipped s it f :
  NoDup (it_key <$> items) -> it ∈ items ->
  cm_findings (record now start items seen skipped s).1 !! it_key it = Some f ->
  exists g, next_finding now seen it (cm_findings s !! it_key it) = Some g /\ core g = core f.
Proof.
  intros Hnd Hit Hf. pose proof (record_finding_next now start items seen skipped s it Hnd Hit) as H.
  rewrite Hf in H. destruct (next_finding _ _ _ _) as [g|]; [|done]. apply (inj Some) in H. eauto.
Qed.

Lemma record_finding_unexpected now start items seen skipped s k :
  k ∉ (it_key <$> items) -> cm_findings (record now start items seen skipped s).1 !! k = None.
Proof.
  intros Hk. pose proof (record_findings_core now start items seen skipped s k) as H.
  rewrite drop_unexpected_lookup, bool_decide_eq_false_2 in H by done.
  by destruct (cm_findings _ !! k).
Qed.

Lemma core_view (a b : option finding) :
  core <$> a = core <$> b ->
  (fun f => (f_class f, f_misses f)) <$> a = (fun f => (f_class f, f_misses f)) <$> b.
Proof.
  destruct a as [f|], b as [g|]; simpl; try done. intros H.
  apply (inj Some), core_fields in H. destruct_and!. congruence.
Qed.

(** One sweep implements the contract: for every workload, whether it is expected,
    observed or unknown, the class and the number of misses the control manager holds afterwards are
    those of [spec_step]; a workload no longer expected is forgotten. *)
Lemma record_refines now start items seen skipped s k :
  NoDup (it_key <$> items) ->
  view_of (cm_findings (record now start items seen skipped s).1) k =
  if bool_decide (k ∈ (it_key <$> items))
  then spec_step (ob_state (default no_observation (seen !! k))) (view_of (cm_findings s) k)
  else None.
Proof.
  intros Hnd. unfold view_of. case_bool_decide as Hk.
  - apply list_elem_of_fmap in Hk as (it & -> & Hit).
    pose proof (record_finding_next now start items seen skipped s it Hnd Hit) as H.
    rewrite <- (next_finding_view now).
    by apply core_view.
  - by rewrite record_finding_unexpected.
Qed.

(** ** The invariant of findings *)

Definition finding_ok (f : finding) : Prop :=
  1 <= f_misses f /\ f_confirmed f = (confirm_after <=? f_misses f).
Definition findings_ok (s : cm_state) : Prop := forall k f, cm_findings s !! k = Some f -> finding_ok f.

Lemma new_finding_facts it st now :
  f_misses (new_finding it st now) = 0 /\ f_confirmed (new_finding it st now) = false
  /\ f_class (new_finding it st now) = class_of st /\ f_kind (new_finding it st now) = it_kind it.
Proof. done. Qed.

Lemma carried_ok it st now old :
  (forall f, old = Some f -> finding_ok f) ->
  let f := carried it st now old in 0 <= f_misses f /\ f_confirmed f = (confirm_after <=? f_misses f).
Proof.
  intros Hold. unfold carried. destruct old as [f|]; [case_bool_decide|]; simpl; [|done..].
  destruct (Hold f eq_refl) as [? ->]. split; [lia|done].
Qed.

Lemma next_finding_ok now seen it old f :
  (forall f, old = Some f -> finding_ok f) -> next_finding now seen it old = Some f -> finding_ok f.
Proof.
  intros Hold. unfold next_finding.
  assert (Hc : forall st, finding_ok (let f := carried it st now old in miss f now (f_confirmed f || confirms f))).
  { intros st. pose proof (carried_ok it st now old Hold) as [Hm Hcf]. revert Hm Hcf. simpl.
    unfold confirms, finding_ok, confirm_after. simpl. intros Hm ->.
    split; [lia|]. destruct (2 <=? f_misses (carried it st now old)) eqn:E; simpl; [|done].
    symmetry. apply Z.leb_le. go_inv. lia. }
  destruct (obs_at seen it); intros H; simplify_eq; auto.
Qed.

(** Every finding has been missed at least once, and it is confirmed exactly
    when it has been missed by at least [confirmAfter] sweeps; a sweep preserves this whatever it observes. *)
Lemma record_findings_ok now start items seen skipped s :
  NoDup (it_key <$> items) -> findings_ok s -> findings_ok (record now start items seen skipped s).1.
Proof.
  intros Hnd Hok k f Hf. destruct (decide (k ∈ (it_key <$> items))) as [Hk|Hk];
    [|by rewrite (record_finding_unexpected now start items seen skipped s k Hk) in Hf].
  apply list_elem_of_fmap in Hk as (it & -> & Hit).
  apply record_finding_some in Hf as (g & Hg & Hcore); [|done..].
  apply core_fields in Hcore as (_ & _ & _ & Hc & Hm).
  assert (finding_ok g) as [? ?] by (eapply next_finding_ok; [|exact Hg]; intros ? ?; by eapply Hok).
  split; congruence || lia.
Qed.

(** ** Blocked apps *)

(** A need of an app whose data is confirmed lost. *)
Definition lost_need (fs : gmap string finding) (need : string) (lost : finding) : Prop :=
  fs !! need = Some lost /\ f_confirmed lost = true.
Definition needs_lost (items : list item) (fs : gmap string finding) (id : N) (lost : finding) : Prop :=
  exists it need, it ∈ items /\ it_owner it = OwnerApp /\ it_id it = id /\ need ∈ it_needs it
                  /\ lost_need fs need lost.

Definition same_core (fs gs : gmap string finding) : Prop := forall k, core <$> fs !! k = core <$> gs !! k.

Lemma lost_need_core fs gs need lost :
  same_core fs gs -> lost_need fs need lost ->
  exists lost', lost_need gs need lost' /\ block_reason lost' = block_reason lost.
Proof.
  intros Hs [Hf Hc]. destruct (core_lookup fs gs need lost (Hs need) Hf) as (g & Hg & Hcore).
  apply core_fields in Hcore as (Hcl & _ & Hn & Hcf & _). exists g. unfold lost_need, block_reason. split; [split|]; congruence.
Qed.

Section Blocking.
Context (items : list item) (fs : gmap string finding).

Definition block_inv (acc : gmap N string * gmap string finding) : Prop :=
  same_core acc.2 fs /\
  forall id r, acc.1 !! id = Some r -> exists lost, needs_lost items fs id lost /\ r = block_reason lost.

Lemma block_need_inv it acc need :
  it ∈ items -> it_owner it = OwnerApp -> need ∈ it_needs it -> block_inv acc -> block_inv (block_need it acc need).
Proof.
  intros Hit Ho Hneed [Hs Hb]. split; [intros k; rewrite block_need_core; apply Hs|].
  destruct acc as [out gs]. intros id r. unfold block_need.
  destruct (gs !! need) as [lost|] eqn:Hl; [|apply Hb]. destruct (f_confirmed lost) eqn:Hc; [simpl|apply Hb].
  destruct (decide (id = it_id it)) as [->|Hne]; [|rewrite lookup_insert_ne by done; apply Hb].
  rewrite lookup_insert_eq. intros [= <-].
  destruct (lost_need_core gs fs need lost Hs) as (lost' & Hl' & Hr); [by split|].
  exists lost'. split; [|done]. by exists it, need.
Qed.

Lemma block_need_hits it acc need lost :
  block_inv acc -> lost_need fs need lost -> is_Some ((block_need it acc need).1 !! it_id it).
Proof.
  intros [Hs _] [Hf Hc]. destruct acc as [out gs]. unfold block_need. simpl in *.
  destruct (core_lookup fs gs need lost (eq_sym (Hs need)) Hf) as (g & Hg & Hcore). rewrite Hg.
  apply core_fields in Hcore as (_ & _ & _ & Hcf & _). rewrite Hcf, Hc. simpl. rewrite lookup_insert_eq. eauto.
Qed.

Lemma block_need_mono it acc need id : is_Some (acc.1 !! id) -> is_Some ((block_need it acc need).1 !! id).
Proof.
  destruct acc as [out gs]. unfold block_need. intros H. destruct (gs !! need) as [lost|]; [|done].
  destruct (f_confirmed lost); [simpl|done].
  destruct (decide (id = it_id it)) as [->|]; [rewrite lookup_insert_eq; eauto | by rewrite lookup_insert_ne].
Qed.

Lemma block_item_mono acc it id : is_Some (acc.1 !! id) -> is_Some ((block_item acc it).1 !! id).
Proof.
  intros H. unfold block_item. destruct (it_owner it); try done.
  apply (foldl_inv (fun a => is_Some (a.1 !! id))); [done|]. intros. by apply block_need_mono.
Qed.

Lemma block_item_inv acc it : it ∈ items -> block_inv acc -> block_inv (block_item acc it).
Proof.
  intros Hit H. unfold block_item. destruct (it_owner it) eqn:Ho; try done.
  apply (foldl_inv block_inv); [done|]. intros. by apply block_need_inv.
Qed.

Lemma block_item_hits acc it need lost :
  it ∈ items -> it_owner it = OwnerApp -> need ∈ it_needs it -> block_inv acc -> lost_need fs need lost ->
  is_Some ((block_item acc it).1 !! it_id it).
Proof.
  intros Hit Ho Hneed Hinv Hl. unfold block_item. rewrite Ho.
  apply list_elem_of_split in Hneed as (l1 & l2 & Hsplit). rewrite Hsplit, foldl_app. simpl.
  apply (foldl_inv (fun a => is_Some (a.1 !! it_id it))); [|intros; by apply block_need_mono].
  eapply block_need_hits; [|exact Hl].
  apply (foldl_inv block_inv); [done|]. intros a n Hn Ha. apply block_need_inv; try done.
  rewrite Hsplit. apply elem_of_app. by left.
Qed.

Lemma block_inv_init : block_inv (∅, fs).
Proof. split; [done|]. intros id r H. simpl in H. by rewrite lookup_empty in H. Qed.

Lemma block_locked_inv : block_inv (block_locked items fs).
Proof.
  apply (foldl_inv block_inv); [apply block_inv_init|].
  intros. by apply block_item_inv.
Qed.

Lemma block_locked_hits id lost : needs_lost items fs id lost -> is_Some ((block_locked items fs).1 !! id).
Proof.
  intros (it & need & Hit & Ho & <- & Hneed & Hl). unfold block_locked.
  pose proof Hit as Hit'. apply list_elem_of_split in Hit as (l1 & l2 & Hsplit). rewrite Hsplit at 1. rewrite foldl_app. simpl.
  apply (foldl_inv (fun a => is_Some (a.1 !! it_id it))); [|intros; by apply block_item_mono].
  eapply block_item_hits; try done.
  apply (foldl_inv block_inv); [apply block_inv_init|].
  intros a i Hi Ha. apply block_item_inv; [|done]. rewrite Hsplit. apply elem_of_app. by left.
Qed.
End Blocking.

Lemma record_split now start items seen skipped s :
  exists fs, (record now start items seen skipped s).1 =
    CmState (block_locked items fs).2 (block_locked items fs).1 (forget_attempts now fs (cm_attempts s))
      (cm_inflight s) skipped (Some start) (now - start).
Proof.
  unfold record. rewrite (surjective_pairing (foldl _ _ _)).
  set (fs := drop_unexpected _ _). exists fs. by rewrite (surjective_pairing (block_locked items fs)).
Qed.

Lemma needs_lost_core items fs gs id lost :
  same_core fs gs -> needs_lost items fs id lost ->
  exists lost', needs_lost items gs id lost' /\ block_reason lost' = block_reason lost.
Proof.
  intros Hs (it & need & ? & ? & ? & ? & Hl). apply (lost_need_core _ gs) in Hl as (lost' & ? & ?); [|done].
  exists lost'. split; [|done]. by exists it, need.
Qed.

(** A sweep leaves an app blocked exactly when a volume it mounts is confirmed lost. *)
Lemma blocked_after_record now start items seen skipped s id :
  let s' := (record now start items seen skipped s).1 in
  (is_Some (blocked_redeploy s' id) <-> exists lost, needs_lost items (cm_findings s') id lost)
  /\ forall r, blocked_redeploy s' id = Some r ->
     exists lost, needs_lost items (cm_findings s') id lost /\ r = block_reason lost.
Proof.
  destruct (record_split now start items seen skipped s) as [fs ->]. simpl. unfold blocked_redeploy. simpl.
  pose proof (block_locked_inv items fs) as [Hs Hb].
  assert (Hb' : forall r, (block_locked items fs).1 !! id = Some r ->
    exists lost, needs_lost items (block_locked items fs).2 id lost /\ r = block_reason lost).
  { intros r Hr. apply Hb in Hr as (lost & Hl & ->).
    apply (needs_lost_core _ _ (block_locked items fs).2) in Hl as (lost' & ? & <-); eauto. intros k. by rewrite Hs. }
  split; [split|exact Hb'].
  - intros [r Hr]. apply Hb' in Hr as (lost & ? & _). eauto.
  - intros (lost & Hl). apply (needs_lost_core _ _ fs) in Hl as (lost' & ? & _); [|done].
    by eapply block_locked_hits.
Qed.

(** After a sweep an app is blocked exactly when one of the volumes it
    mounts is confirmed lost, and the reason names such a volume. *)
Lemma record_blocks_exactly now start items seen skipped s id :
  let s' := (record now start items seen skipped s).1 in
  (is_Some (blocked_redeploy s' id) <-> exists lost, needs_lost items (cm_findings s') id lost)
  /\ forall r, blocked_redeploy s' id = Some r ->
     exists lost, needs_lost items (cm_findings s') id lost /\ r = block_reason lost.
Proof. apply blocked_after_record. Qed.

(** ** Announcements *)

Lemma record_outputs now start items seen skipped s :
  NoDup (it_key <$> items) ->
  exists counts, (record now start items seen skipped s).2 =
    OMetricSweep (now - start) :: OMetricDrift counts ::
    concat (announce <$> concat ((fun it => item_notices now seen it (cm_findings s !! it_key it)) <$> items)).
Proof.
  intros Hnd. unfold record. rewrite (surjective_pairing (foldl (record_item now seen) _ _)).
  set (fs := drop_unexpected _ _). rewrite (surjective_pairing (block_locked items fs)). simpl.
  eexists. by rewrite record_items_notices.
Qed.

Lemma confirms_exactly f :
  (0 <= f_misses f /\ f_confirmed f = (confirm_after <=? f_misses f)) ->
  confirms f = (f_misses f + 1 =? confirm_after).
Proof.
  intros [Hm Hc]. unfold confirms. rewrite Hc. unfold confirm_after.
  destruct (Z.leb_spec 2 (f_misses f)), (Z.leb_spec 2 (f_misses f + 1)), (Z.eqb_spec (f_misses f + 1) 2); simpl; lia || done.
Qed.

(** A sweep announces the loss of a workload exactly when that sweep takes
    its count of misses to [confirmAfter]: neither on the first miss nor on any later one. *)
Lemma loss_announced_once now seen it s :
  findings_ok s ->
  (exists f, Notice f false ∈ item_notices now seen it (cm_findings s !! it_key it)) <->
  is_lost (obs_at seen it) = true /\
  exists c, spec_step (obs_at seen it) (view_of (cm_findings s) (it_key it)) = Some (c, confirm_after).
Proof.
  intros Hok. unfold item_notices, view_of. rewrite <- (next_finding_view now). unfold next_finding.
  assert (Hc : forall st, confirms (carried it st now (cm_findings s !! it_key it))
    = (f_misses (carried it st now (cm_findings s !! it_key it)) + 1 =? confirm_after)).
  { intros st. apply confirms_exactly, carried_ok. intros. by eapply Hok. }
  assert (Hl : forall st, (exists f, Notice f false ∈
      (let g := carried it st now (cm_findings s !! it_key it) in
       if confirms g then [Notice (miss g now (f_confirmed g || confirms g)) false] else [])) <->
    f_misses (carried it st now (cm_findings s !! it_key it)) + 1 = confirm_after).
  { intros st. simpl. rewrite Hc. case_match; go_inv; split; try done.
    - intros _. eexists. by left.
    - intros (f & Hf). by inversion Hf. }
  destruct (obs_at seen it); [| |rewrite Hl..].
  - split; [intros (f & Hf); by inversion Hf | by intros [? _]].
  - split; [|by intros [? _]]. intros (f & Hf). repeat case_match; try by inversion Hf.
    apply list_elem_of_singleton in Hf. discriminate.
  - split; [|by intros [_ (c & [=])]]. intros E. split; [done|]. eexists. simpl. by rewrite E.
  - split; [|by intros [_ (c & [=])]]. intros E. split; [done|]. eexists. simpl. by rewrite E.
Qed.
