(* ===== verification/ControlAct.v ===== *)
(** * The control manager: acting on confirmed findings

    [internal/services/controlmanager/act.go]: which findings are due, what refuses them, the
    in-flight budgets, the backoff and the breaker. The collaborators wired by [SetEnforcement],
    [SetSuspended] and [SetGateways] are the fields of [enforcement]. *)
From S2P Require Import Prelude GoStrings GoTime ControlTypes ControlObserve ControlState.
#[local] Open Scope Z_scope.
#[local] Open Scope list_scope.

Definition backoff_base : duration := minute.
Definition backoff_max : duration := 30 * minute.
Definition breaker_after : Z := 5.
Definition budget_per_node : Z := 3.
Definition budget_platform : Z := 10.

(** [backoffBase << max(tries-1, 0)] on a 64-bit [time.Duration]. *)
Definition backoff (tries : Z) : duration :=
  let d := wrap64 (Z.shiftl backoff_base (Z.max (wrap64 (tries - 1)) 0)) in
  if (backoff_max <? d) || (d <=? 0) then backoff_max else d.

(** ** Collaborators *)

Inductive deployment_status : Type :=
| DeploymentPending | DeploymentBuilding | DeploymentDeploying | DeploymentCanary
| DeploymentSucceeded | DeploymentFailed.

(** [DeploymentStatus.IsTerminal] *)
Definition is_terminal (s : deployment_status) : bool :=
  match s with DeploymentSucceeded | DeploymentFailed => true | _ => false end.

Record enforcement := Enforcement {
  (** [ReconcileRedeploy]: the id of the deployment it queued (an inner [None] is a nil deployment);
      [None] when no redeployer is wired *)
  en_redeploy : option (application -> string -> result string (option N));
  (** [EnsureGateway]; [None] when no ensurer is wired *)
  en_ensure_gateway : option (N -> result string unit);
  en_suspended : option (N -> bool);
  (** [Placeable]: the reason a node takes no workload *)
  en_placeable : option (N -> result string unit);
  (** [FindInWorkspace]: whether a config is still there *)
  en_config : option (N -> N -> bool);
  en_audited : bool;
  (** [DeploymentStore.FindByID] *)
  en_deployment : N -> option deployment_status;
  (** the clock when an item's attempt is recorded, by item key *)
  en_clock : string -> instant }.

(** A confirmed finding that enforcement may act on now. *)
Record actionable := Actionable { ac_it : item; ac_f : finding }.

Definition action_reason (a : actionable) : string :=
  match f_kind (ac_f a) with
  | KindGateway => "the node's gateway was not running"
  | KindService => "the app's swarm service no longer existed in its cluster"
  | _ => "the app's container no longer existed on its node"
  end.

Definition action_name (a : actionable) : string :=
  match f_kind (ac_f a) with KindGateway => "gateway_ensure" | _ => "redeploy" end.

Section Act.
Context (e : enforcement) (platform : mode).

(** [Service.canAct]: never volumes, and never imported gateways. *)
Definition can_act (it : item) : bool :=
  match it_kind it with
  | KindContainer | KindService =>
      bool_decide (is_Some (it_app it)) && bool_decide (is_Some (en_redeploy e))
      && bool_decide (it_policy it = Some ModeEnforce)
  | KindGateway =>
      negb (it_imported it) && bool_decide (is_Some (en_ensure_gateway e))
      && bool_decide (platform = ModeEnforce)
  | KindVolume => false
  end.

(** The attempt of an item is exhausted, or still backing off. *)
Definition holds_back (s : cm_state) (now : instant) (key : string) : bool :=
  match cm_attempts s !! key with
  | Some a => at_breaker_open a || time_before now (at_next_at a)
  | None => false
  end.

Definition due_item (s : cm_state) (now : instant) (it : item) : option actionable :=
  if negb (can_act it) then None
  else match cm_findings s !! it_key it with
       | None => None
       | Some f => if negb (f_confirmed f) || holds_back s now (it_key it) then None
                   else Some (Actionable it f)
       end.

(** [Service.due]: oldest first. *)
Definition due (s : cm_state) (now : instant) (items : list item) : list actionable :=
  stable_sort (fun a b => time_before (f_first_seen_at (ac_f a)) (f_first_seen_at (ac_f b)))
    (omap (due_item s now) items).

(** The first mounted config that no longer exists. *)
Definition missing_config (it : item) : option N :=
  match en_config e, it_app it with
  | Some found, Some a =>
      find_first (fun id => negb (id =? 0)%N && negb (found (it_workspace_id it) id)) (mt_config_id <$> app_mounts a)
  | _, _ => None
  end.

(** What [refuse] checks after the suspension: the node, then the configs. *)
Definition refuse_placement (it : item) : string :=
  match (match en_placeable e with Some placeable => placeable (it_node_id it) | None => Ok tt end) with
  | Err reason => "its node cannot take a workload: " +:+ reason
  | Ok _ =>
      match missing_config it with
      | Some id => "a config it mounts (#" +:+ itoa (Z.of_N id) +:+ ") no longer exists"
      | None => ""
      end
  end.

Definition is_suspended (it : item) : bool :=
  match en_suspended e, it_app it with
  | Some suspended, Some a => suspended (app_workspace_id a)
  | _, _ => false
  end.

(** [Service.refuse]: the reason an app is not brought back, [""] when nothing stands in the way. *)
Definition refuse (s : cm_state) (it : item) : string :=
  match it_kind it with
  | KindGateway => ""
  | _ =>
      match blocked_redeploy s (it_id it) with
      | Some reason => reason
      | None => if is_suspended it then "its workspace is suspended by the platform administrator"
                else refuse_placement it
      end
  end.

(** ** The in-flight budget *)

Definition in_progress (dep : N) : bool :=
  match en_deployment e dep with Some st => negb (is_terminal st) | None => false end.

(** [Service.inflight]: finished deployments are forgotten, the others counted by node. *)
Definition inflight (s : cm_state) : gmap N Z * Z * cm_state :=
  let live := filter (fun dn => in_progress dn.1 = true) (cm_inflight s) in
  (foldl (fun m n => <[n := default 0 (m !! n) + 1]> m) ∅ (map_to_list live).*2,
   Z.of_nat (size live),
   CmState (cm_findings s) (cm_blocked s) (cm_attempts s) live (cm_skipped s) (cm_last_sweep s) (cm_sweep_took s)).

(** ** The outcome of one action *)

Definition attempt_of (s : cm_state) (key : string) : attempt := default new_attempt (cm_attempts s !! key).

Definition set_attempt (s : cm_state) (key : string) (a : attempt) : cm_state :=
  CmState (cm_findings s) (cm_blocked s) (<[key := a]> (cm_attempts s)) (cm_inflight s) (cm_skipped s)
    (cm_last_sweep s) (cm_sweep_took s).

Definition add_inflight (s : cm_state) (dep node : N) : cm_state :=
  CmState (cm_findings s) (cm_blocked s) (cm_attempts s) (<[dep := node]> (cm_inflight s)) (cm_skipped s)
    (cm_last_sweep s) (cm_sweep_took s).

(** A gateway has no timeline of its own. *)
Definition emit_for (d : actionable) (t : event_type) (sev : severity) (msg : string) (meta : gmap string string)
  : list output :=
  if bool_decide (it_kind (ac_it d) = KindGateway) || (it_workspace_id (ac_it d) =? 0)%N then []
  else [OEmit (it_workspace_id (ac_it d)) (it_id (ac_it d)) t sev msg meta].

Definition record_audit (d : actionable) (action : string) (meta : gmap string string) : list output :=
  if negb (en_audited e) then []
  else let target := match f_kind (ac_f d) with KindGateway => "node" | _ => "application" end in
       [OAudit (target +:+ "." +:+ action) target (it_id (ac_it d))
          (if (it_workspace_id (ac_it d) =? 0)%N then None else Some (it_workspace_id (ac_it d)))
          (<["actor" := actor_name]> meta)].

(** [Service.started] *)
Definition started (d : actionable) (dep : option N) (s : cm_state) : cm_state * list output :=
  let it := ac_it d in
  let now := en_clock e (it_key it) in
  let a := attempt_of s (it_key it) in
  let tries := at_tries a + 1 in
  let s := set_attempt s (it_key it)
    (Attempt tries 0 (at_breaker_open a) now (now + backoff tries) "") in
  let s := match dep with Some id => add_inflight s id (it_node_id it) | None => s end in
  let meta := <["actor" := actor_name]> (<["kind" := kind_string (f_kind (ac_f d))]> {["attempt" := itoa tries]}) in
  let meta := match dep with Some id => <["deployment_id" := itoa (Z.of_N id)]> meta | None => meta end in
  (s, OMetricAction (action_name d) "started"
      :: emit_for d EventReconcileRedeploy SeverityWarning ("Restored by the control manager: " +:+ action_reason d) meta
      ++ record_audit d "reconcile.restore" (<["reason" := action_reason d]> {["attempt" := itoa tries]})).

(** [Service.failed]: the breaker opens on the fifth failure in a row. *)
Definition failed (d : actionable) (err : string) (s : cm_state) : cm_state * list output :=
  let it := ac_it d in
  let now := en_clock e (it_key it) in
  let a := attempt_of s (it_key it) in
  let tries := at_tries a + 1 in
  let failures := at_failures a + 1 in
  let opened := (breaker_after <=? failures) && negb (at_breaker_open a) in
  let s := set_attempt s (it_key it)
    (Attempt tries failures (at_breaker_open a || opened) now (now + backoff tries) (at_said_blocked a)) in
  (s, OMetricAction (action_name d) "failed"
      :: if negb opened then []
         else OMetricAction "breaker" "open"
              :: emit_for d EventReconcileBreakerOpen SeverityError
                   ("The control manager gave up after " +:+ itoa failures +:+ " failed attempts: " +:+ err)
                   (<["actor" := actor_name]> (<["kind" := kind_string (f_kind (ac_f d))]>
                      (<["failures" := itoa failures]> {["error" := err]})))
              ++ record_audit d "reconcile.breaker_open" (<["failures" := itoa failures]> {["error" := err]})).

(** [Service.reportBlocked]: the same reason is not repeated. *)
Definition report_blocked (d : actionable) (reason : string) (s : cm_state) : cm_state * list output :=
  let a := attempt_of s (it_key (ac_it d)) in
  let s := set_attempt s (it_key (ac_it d))
    (Attempt (at_tries a) (at_failures a) (at_breaker_open a) (at_last_acted_at a) (at_next_at a) reason) in
  (s, if String.eqb (at_said_blocked a) reason then []
      else OMetricAction (action_name d) "blocked"
           :: emit_for d EventReconcileBlocked SeverityWarning ("Not restored by the control manager: " +:+ reason)
                (<["actor" := actor_name]> {["kind" := kind_string (f_kind (ac_f d))]})).

(** [Service.restore]: the call it makes, and what it answers ([Some id] for a queued deployment). *)
Definition restore_call (d : actionable) : result string (option N) * list output :=
  match it_kind (ac_it d) with
  | KindGateway =>
      (match en_ensure_gateway e with
       | Some ensure => let? _ := ensure (it_node_id (ac_it d)) in Ok None
       | None => Err "nil gateway ensurer"
       end, [OEnsureGateway (it_node_id (ac_it d))])
  | _ =>
      (match en_redeploy e, it_app (ac_it d) with
       | Some redeploy, Some a => redeploy a (action_reason d)
       | _, _ => Err "nil redeployer"
       end, [ORedeploy (ac_it d) (action_reason d)])
  end.

(** ** The loop *)

Record act_acc := ActAcc { aa_per_node : gmap N Z; aa_total : Z; aa_state : cm_state; aa_out : list output }.

Definition over_budget (acc : act_acc) (node : N) : bool :=
  (budget_platform <=? aa_total acc) || (budget_per_node <=? default 0 (aa_per_node acc !! node)).

(** One turn of the loop of [act]. *)
Definition act_step (acc : act_acc) (d : actionable) : act_acc :=
  let reason := refuse (aa_state acc) (ac_it d) in
  let node := it_node_id (ac_it d) in
  if negb (String.eqb reason "") then
    let '(s, out) := report_blocked d reason (aa_state acc) in
    ActAcc (aa_per_node acc) (aa_total acc) s (aa_out acc ++ out)
  else if over_budget acc node then
    ActAcc (aa_per_node acc) (aa_total acc) (aa_state acc)
      (aa_out acc ++ [OMetricAction (action_name d) "deferred"])
  else
    let '(answer, calls) := restore_call d in
    match answer with
    | Err err =>
        let '(s, out) := failed d err (aa_state acc) in
        ActAcc (aa_per_node acc) (aa_total acc) s (aa_out acc ++ calls ++ out)
    | Ok dep =>
        let '(s, out) := started d dep (aa_state acc) in
        ActAcc (<[node := default 0 (aa_per_node acc !! node) + 1]> (aa_per_node acc)) (aa_total acc + 1)
          s (aa_out acc ++ calls ++ out)
    end.

(** [Service.act] *)
Definition act (now : instant) (items : list item) (s : cm_state) : cm_state * list output :=
  match platform with
  | ModeOff => (s, [])
  | _ =>
      let '(per_node, total, s) := inflight s in
      let acc := foldl act_step (ActAcc per_node total s []) (due s now items) in
      (aa_state acc, aa_out acc)
  end.
End Act.

(** * Facts *)

(** ** Backoff *)

Lemma wrap64_shift_out k : 53 <= k -> wrap64 (Z.shiftl backoff_base k) = 0.
Proof.
  intros Hk. unfold wrap64, backoff_base. rewrite Z.shiftl_mul_pow2 by lia.
  assert (Hm : minute * 2 ^ k = (29296875 * 2 ^ (k - 53)) * 2 ^ 64).
  { assert (E : 2 ^ k = 2 ^ (k - 53) * 2 ^ 53) by (rewrite <- Z.pow_add_r by lia; f_equal; lia). rewrite E.
    change minute with (29296875 * 2 ^ 11). change (2 ^ 64) with (2 ^ 11 * 2 ^ 53). ring. }
  rewrite Hm, Z.add_comm, Z_mod_plus_full. reflexivity.
Qed.

Definition backoff_at (k : Z) : duration :=
  let d := wrap64 (Z.shiftl backoff_base k) in if (backoff_max <? d) || (d <=? 0) then backoff_max else d.

Lemma backoff_at_small : forallb (fun k => backoff_at k =? Z.min (backoff_base * 2 ^ k) backoff_max) (upto 53) = true.
Proof. by vm_compute. Qed.

(** The wait before the next attempt is one minute doubled for each attempt, capped
    at thirty minutes, for every count of attempts an [int] holds: the shift that overflows 64 bits
    never yields a shorter or a negative wait. *)
Lemma backoff_spec tries :
  - 2 ^ 63 < tries <= max_int64 -> backoff tries = Z.min (backoff_base * 2 ^ (Z.max (tries - 1) 0)) backoff_max.
Proof.
  intros Ht. unfold backoff. rewrite (wrap64_small (tries - 1)) by (unfold max_int64 in *; lia).
  set (k := Z.max (tries - 1) 0). fold (backoff_at k).
  assert (0 <= k) by lia. destruct (Z.le_gt_cases 53 k) as [Hk|Hk].
  - unfold backoff_at. rewrite wrap64_shift_out by done. simpl.
    rewrite Z.min_r; [done|]. transitivity (backoff_base * 2 ^ 5); [by vm_compute|].
    apply Z.mul_le_mono_nonneg_l; [by vm_compute|]. apply Z.pow_le_mono_r; lia.
  - pose proof backoff_at_small as Hs. rewrite forallb_forall in Hs. apply Z.eqb_eq, Hs.
    apply list_elem_of_In, elem_of_seqZ. lia.
Qed.

Section ActFacts.
Context (e : enforcement) (platform : mode).

Abbreviation step := (act_step e).

(** ** What a turn of the loop touches *)

Lemma refuse_blocked s s' it : cm_blocked s = cm_blocked s' -> refuse e s it = refuse e s' it.
Proof. intros H. unfold refuse, blocked_redeploy. by rewrite H. Qed.

Definition frame (s s' : cm_state) : Prop :=
  cm_findings s' = cm_findings s /\ cm_blocked s' = cm_blocked s /\ cm_skipped s' = cm_skipped s
  /\ cm_last_sweep s' = cm_last_sweep s /\ cm_sweep_took s' = cm_sweep_took s.

#[export] Instance frame_preorder : PreOrder frame.
Proof. split; [done|]. intros a b c Hab Hbc. unfold frame in *. destruct_and!. repeat split; congruence. Qed.

Lemma started_frame d dep s : frame s (started e d dep s).1.
Proof. unfold started. by destruct dep. Qed.

(** What one turn does: at most one attempt record changes, the one of its item, and at most one
    deployment becomes in flight, counted on the item's node. *)
Lemma act_step_cases acc d :
  let acc' := step acc d in
  let key := it_key (ac_it d) in
  frame (aa_state acc) (aa_state acc')
  /\ (forall k, k <> key -> cm_attempts (aa_state acc') !! k = cm_attempts (aa_state acc) !! k)
  /\ ((aa_per_node acc' = aa_per_node acc /\ aa_total acc' = aa_total acc
       /\ cm_inflight (aa_state acc') = cm_inflight (aa_state acc))
      \/ (over_budget acc (it_node_id (ac_it d)) = false
          /\ aa_per_node acc' = <[it_node_id (ac_it d) := default 0 (aa_per_node acc !! it_node_id (ac_it d)) + 1]> (aa_per_node acc)
          /\ aa_total acc' = aa_total acc + 1
          /\ (cm_inflight (aa_state acc') = cm_inflight (aa_state acc)
              \/ exists dep, cm_inflight (aa_state acc') = <[dep := it_node_id (ac_it d)]> (cm_inflight (aa_state acc))))).
Proof.
  unfold act_step. destruct (String.eqb (refuse e (aa_state acc) (ac_it d)) "") eqn:Hr; simpl.
  2: { split_and!; [done | intros; by rewrite lookup_insert_ne | by left]. }
  destruct (over_budget acc (it_node_id (ac_it d))) eqn:Hb; simpl; [split_and!; [done|done|by left]|].
  destruct (restore_call e d) as [[dep|err] calls]; simpl.
  - split_and!; [by apply started_frame | intros k Hk; unfold started; destruct dep; simpl; by rewrite lookup_insert_ne |].
    right. split_and!; [done..|]. unfold started. destruct dep as [id|]; simpl; [right; by exists id | by left].
  - split_and!; [done | intros; by rewrite lookup_insert_ne | by left].
Qed.

(** ** Budgets *)

Definition node_count (m : gmap N N) (n : N) : Z := Z.of_nat (size (filter (fun dn => dn.2 = n) m)).

Lemma node_count_insert m dep node n :
  node_count (<[dep := node]> m) n <= node_count m n + (if bool_decide (node = n) then 1 else 0).
Proof.
  unfold node_count. case_bool_decide as Hn.
  - rewrite map_filter_insert_True by done.
    pose proof (gmap_size_insert_le (filter (fun dn : N * N => dn.2 = n) m) dep node). lia.
  - rewrite map_filter_insert_False by done.
    assert (size (filter (fun dn : N * N => dn.2 = n) (delete dep m)) <= size (filter (fun dn => dn.2 = n) m))%nat; [|lia].
    apply map_subseteq_size, map_filter_subseteq_mono, delete_subseteq.
Qed.

Definition within_budget (acc : act_acc) : Prop :=
  Z.of_nat (size (cm_inflight (aa_state acc))) <= aa_total acc
  /\ (forall n, node_count (cm_inflight (aa_state acc)) n <= default 0 (aa_per_node acc !! n))
  /\ aa_total acc <= budget_platform
  /\ (forall n, default 0 (aa_per_node acc !! n) <= budget_per_node).

Lemma act_step_budget acc d : within_budget acc -> within_budget (step acc d).
Proof.
  intros (Hs & Hn & Ht & Hp). destruct (act_step_cases acc d) as (_ & _ & [(E1 & E2 & E3)|(Hb & E1 & E2 & E3)]).
  - unfold within_budget. by rewrite E1, E2, E3.
  - unfold over_budget in Hb. go_inv. unfold within_budget. rewrite E1, E2.
    set (node := it_node_id (ac_it d)) in *. set (m' := cm_inflight (aa_state (step acc d))) in *.
    assert (Hm : Z.of_nat (size m') <= Z.of_nat (size (cm_inflight (aa_state acc))) + 1
      /\ forall n, node_count m' n <= node_count (cm_inflight (aa_state acc)) n + (if bool_decide (node = n) then 1 else 0)).
    { destruct E3 as [->|[dep ->]]; [split; [lia|]; intros n; case_bool_decide; lia|].
      split; [|intros n; apply node_count_insert].
      pose proof (gmap_size_insert_le (cm_inflight (aa_state acc)) dep node). lia. }
    destruct Hm as [Hm1 Hm2]. split_and!; [lia| |lia|]; intros n; specialize (Hn n); specialize (Hp n);
      specialize (Hm2 n); (destruct (decide (node = n)) as [<-|Hne];
      [rewrite lookup_insert_eq; rewrite ?bool_decide_eq_true_2 in Hm2 by done
      |rewrite lookup_insert_ne by done; rewrite ?bool_decide_eq_false_2 in Hm2 by done]); simpl; lia.
Qed.

Lemma count_nodes_lookup (l : list N) (m : gmap N Z) n :
  default 0 (foldl (fun m n => <[n := default 0 (m !! n) + 1]> m) m l !! n)
  = default 0 (m !! n) + Z.of_nat (length (filter (fun x => x = n) l)).
Proof.
  revert m. induction l as [|x l IH]; intros m; simpl; [lia|]. rewrite IH, filter_cons.
  destruct (decide (x = n)) as [->|Hne]; [rewrite lookup_insert_eq | rewrite lookup_insert_ne by done]; simpl; lia.
Qed.

Lemma node_count_list (m : gmap N N) n :
  node_count m n = Z.of_nat (length (filter (fun x => x = n) (map_to_list m).*2)).
Proof.
  unfold node_count. f_equal. induction m as [|k v m Hk IH] using map_ind.
  - by rewrite map_filter_empty, map_size_empty, map_to_list_empty.
  - rewrite (map_to_list_insert m k v Hk), fmap_cons, filter_cons. simpl.
    destruct (decide (v = n)) as [->|Hne]; simpl; rewrite <- IH.
    + rewrite map_filter_insert_True by done. rewrite map_size_insert_None; [done|].
      apply map_lookup_filter_None. by left.
    + rewrite map_filter_insert_False by done. by rewrite delete_id.
Qed.

Lemma inflight_counts s n :
  let '(per_node, total, s') := inflight e s in
  default 0 (per_node !! n) = node_count (cm_inflight s') n /\ total = Z.of_nat (size (cm_inflight s')).
Proof. simpl. split; [|done]. by rewrite count_nodes_lookup, lookup_empty, node_count_list. Qed.

(** At most [budgetPlatform] redeploys of the control manager are in flight, [budgetPerNode] on a node. *)
Definition inflight_ok (s : cm_state) : Prop :=
  Z.of_nat (size (cm_inflight s)) <= budget_platform /\ forall n, node_count (cm_inflight s) n <= budget_per_node.

Lemma inflight_shrinks s : inflight_ok s -> inflight_ok (inflight e s).2.
Proof.
  intros [Hs Hn]. simpl. assert (Hsub : filter (fun dn : N * N => in_progress e dn.1 = true) (cm_inflight s) ⊆ cm_inflight s)
    by apply map_filter_subseteq.
  split; [apply map_subseteq_size in Hsub; simpl; lia|]. intros n. specialize (Hn n). unfold node_count in *. simpl.
  apply (map_filter_subseteq_mono (fun dn : N * N => dn.2 = n)), map_subseteq_size in Hsub. lia.
Qed.
End ActFacts.

(** ** The loop as a whole *)

Section ActLoop.
Context (e : enforcement) (platform : mode) (now : instant) (items : list item) (s : cm_state).

Let start : act_acc := let '(per_node, total, s') := inflight e s in ActAcc per_node total s' [].
Let todo : list actionable := due e platform (aa_state start) now items.

Lemma act_unfold :
  act e platform now items s =
  match platform with
  | ModeOff => (s, [])
  | _ => (aa_state (foldl (act_step e) start todo), aa_out (foldl (act_step e) start todo))
  end.
Proof. unfold act, todo, start. by destruct platform. Qed.

Lemma elem_of_todo d : d ∈ todo -> ac_it d ∈ items /\ due_item e platform s now (ac_it d) = Some d.
Proof.
  unfold todo, due. rewrite elem_of_stable_sort, list_elem_of_omap. intros (it & Hit & Hd).
  assert (Hi : ac_it d = it).
  { unfold due_item in Hd. repeat case_match; simplify_eq. done. }
  subst it. split; [done|]. exact Hd.
Qed.

Lemma act_frame : frame s (act e platform now items s).1.
Proof.
  rewrite act_unfold. destruct platform; [done|..]; simpl;
    (apply (foldl_inv (fun acc => frame s (aa_state acc))); [done|]; intros acc d _ Hf;
     etransitivity; [exact Hf | apply act_step_cases]).
Qed.

Lemma start_within_budget : inflight_ok s -> within_budget start.
Proof.
  intros Hok. pose proof (inflight_shrinks e s Hok) as [Hs Hn]. unfold start, within_budget. simpl in *.
  split_and!; [done| |done|]; intros n; pose proof (inflight_counts e s n) as [Hc _]; simpl in Hc; rewrite Hc; auto with lia.
Qed.

(** ** Which redeploys are made *)

(** The configs an app mounts are all still there. *)
Definition configs_present (it : item) : Prop :=
  match en_config e, it_app it with
  | Some found, Some a => forall m, m ∈ app_mounts a -> mt_config_id m <> 0%N -> found (it_workspace_id it) (mt_config_id m) = true
  | _, _ => True
  end.

(** Everything that must hold for the control manager to put a workload back. *)
Record restorable (it : item) : Prop := {
  ro_item : it ∈ items;
  ro_kind : it_kind it = KindContainer \/ it_kind it = KindService;
  ro_policy : it_policy it = Some ModeEnforce;
  ro_confirmed : exists f, cm_findings s !! it_key it = Some f /\ f_confirmed f = true;
  ro_not_blocked : blocked_redeploy s (it_id it) = None;
  ro_not_suspended : is_suspended e it = false;
  ro_placeable : forall placeable, en_placeable e = Some placeable -> is_ok (placeable (it_node_id it)) = true;
  ro_configs : configs_present it;
  ro_not_held : holds_back s now (it_key it) = false }.

Lemma missing_config_none it : missing_config e it = None -> configs_present it.
Proof.
  unfold missing_config, configs_present. destruct (en_config e) as [found|], (it_app it) as [a|]; try done.
  intros Hn m Hm Hid. rewrite find_first_none in Hn.
  specialize (Hn (mt_config_id m) (list_elem_of_fmap_2 _ _ _ Hm)).
  apply N.eqb_neq in Hid. rewrite Hid in Hn. simpl in Hn. by go_inv.
Qed.

Lemma due_item_facts it d :
  due_item e platform s now it = Some d ->
  can_act e platform it = true /\ holds_back s now (it_key it) = false
  /\ exists f, cm_findings s !! it_key it = Some f /\ f_confirmed f = true.
Proof. unfold due_item. intros. repeat case_match; simplify_eq; go_inv. eauto. Qed.

Lemma refuse_none_facts it :
  (forall r, blocked_redeploy s (it_id it) = Some r -> r <> "") ->
  it_kind it <> KindGateway -> refuse e s it = "" ->
  blocked_redeploy s (it_id it) = None /\ is_suspended e it = false
  /\ (forall placeable, en_placeable e = Some placeable -> is_ok (placeable (it_node_id it)) = true)
  /\ configs_present it.
Proof.
  intros Hb Hk Hr. unfold refuse in Hr.
  assert (Hr' : match blocked_redeploy s (it_id it) with
                | Some reason => reason
                | None => if is_suspended e it then "its workspace is suspended by the platform administrator"
                          else refuse_placement e it end = "") by (by destruct (it_kind it)).
  clear Hr. destruct (blocked_redeploy s (it_id it)) as [r|]; [by destruct (Hb r eq_refl)|].
  destruct (is_suspended e it); [done|]. unfold refuse_placement in Hr'.
  destruct (en_placeable e) as [pl|]; [destruct (pl (it_node_id it)) eqn:Hp; [|done]|];
    (destruct (missing_config e it) eqn:Hm; [done|]); apply missing_config_none in Hm;
    (split_and!; [done|done| |done]); intros ? [= <-]; by rewrite Hp.
Qed.

Lemma act_step_redeploys acc d it r :
  ORedeploy it r ∈ aa_out (act_step e acc d) -> ORedeploy it r ∈ aa_out acc
  \/ (it = ac_it d /\ it_kind it <> KindGateway /\ refuse e (aa_state acc) it = "").
Proof.
  assert (Hemit : forall t sev msg meta, ORedeploy it r ∉ emit_for d t sev msg meta).
  { intros. unfold emit_for. case_match; [apply not_elem_of_nil|]. intros Hx%list_elem_of_singleton. discriminate. }
  assert (Haudit : forall a meta, ORedeploy it r ∉ record_audit e d a meta).
  { intros. unfold record_audit. case_match; [apply not_elem_of_nil|]. intros Hx%list_elem_of_singleton. discriminate. }
  unfold act_step. destruct (String.eqb_spec (refuse e (aa_state acc) (ac_it d)) "") as [Hr|Hr]; simpl.
  - destruct (over_budget acc (it_node_id (ac_it d))); simpl.
    + rewrite elem_of_app, list_elem_of_singleton. intros [?|?]; [by left|discriminate].
    + assert (Hcall : ORedeploy it r ∈ (restore_call e d).2 -> it = ac_it d /\ it_kind it <> KindGateway).
      { unfold restore_call. destruct (it_kind (ac_it d)) eqn:Hk; simpl; rewrite list_elem_of_singleton;
          intros [= -> ->]; by rewrite Hk. }
      destruct (restore_call e d) as [[dep|err] calls]; simpl in *;
        rewrite !elem_of_app; intros [H|[H|H]]; [by left|right|exfalso|by left|right|exfalso];
        try (destruct (Hcall H) as [-> ?]; done); unfold started, failed in H; simpl in H;
        repeat case_match; rewrite ?elem_of_cons, ?elem_of_app, ?elem_of_nil in H; naive_solver.
  - rewrite elem_of_app. intros [H|H]; [by left|exfalso]. unfold report_blocked in H. simpl in H.
    repeat case_match; rewrite ?elem_of_cons, ?elem_of_nil in H; naive_solver.
Qed.

(** Whatever the collaborators answer, the control manager calls for
    the redeploy of a workload only when its finding is confirmed, its own policy enforces, none of its
    volumes is confirmed lost, its workspace is not suspended, its node takes workloads, its configs
    exist, and its backoff and breaker let it; a volume or a gateway is never redeployed. *)
Lemma act_redeploys_only_restorable it r :
  (forall id reason, blocked_redeploy s id = Some reason -> reason <> "") ->
  ORedeploy it r ∈ (act e platform now items s).2 -> restorable it.
Proof.
  intros Hb Hin. rewrite act_unfold in Hin.
  assert (Hin' : ORedeploy it r ∈ aa_out (foldl (act_step e) start todo))
    by (destruct platform; [by apply elem_of_nil in Hin|done..]). clear Hin.
  cut (exists d, d ∈ todo /\ it = ac_it d /\ it_kind it <> KindGateway /\ refuse e s it = "").
  - intros (d & Hd & -> & Hk & Hr). apply elem_of_todo in Hd as [Hit Hd].
    apply due_item_facts in Hd as (Hca & Hh & Hc). apply refuse_none_facts in Hr as (? & ? & ? & ?); [|by apply Hb|done].
    unfold can_act in Hca. assert (it_kind (ac_it d) = KindContainer \/ it_kind (ac_it d) = KindService) as Hk2
      by (destruct (it_kind (ac_it d)); auto; done).
    constructor; try done. destruct Hk2 as [Hk2|Hk2]; rewrite Hk2 in Hca; by go_inv.
  - revert Hin'. apply (foldl_inv (fun acc => cm_blocked (aa_state acc) = cm_blocked s /\
      (ORedeploy it r ∈ aa_out acc -> exists d, d ∈ todo /\ it = ac_it d /\ it_kind it <> KindGateway /\ refuse e s it = ""))).
    + split; [done|]. intros H. by apply elem_of_nil in H.
    + intros acc d Hd [Hbl IH]. split; [destruct (act_step_cases e acc d) as ((_ & -> & _) & _); done|].
      intros [H|(-> & Hk & Hr)]%act_step_redeploys; [auto|]. exists d. split_and!; try done.
      by rewrite (refuse_blocked e s (aa_state acc)).
Qed.

(** With at most ten of its redeploys in flight and at most three on a node, the
    control manager still has at most ten and three after acting, however many findings are due. *)
Lemma act_keeps_budgets : inflight_ok s -> inflight_ok (act e platform now items s).1.
Proof.
  intros Hok. rewrite act_unfold.
  assert (H : within_budget (foldl (act_step e) start todo)).
  { apply (foldl_inv within_budget); [by apply start_within_budget|]. intros. by apply act_step_budget. }
  destruct H as (H1 & H2 & H3 & H4). destruct platform; [done|..]; simpl;
    (split; [lia|]; intros n; specialize (H2 n); specialize (H4 n); lia).
Qed.

(** ** The breaker *)

Lemma todo_keys_NoDup : NoDup (it_key <$> items) -> NoDup ((fun d => it_key (ac_it d)) <$> todo).
Proof.
  unfold todo, due. rewrite stable_sort_perm. generalize (aa_state start). intros st.
  induction items as [|it l IH]; simpl; [constructor|]. rewrite NoDup_cons. intros [Hit Hnd].
  destruct (due_item e platform st now it) as [d|] eqn:Hd; [|by apply IH].
  assert (ac_it d = it) as Heq by (unfold due_item in Hd; repeat case_match; by simplify_eq).
  rewrite fmap_cons, NoDup_cons. split; [|by apply IH]. rewrite Heq. intros Hin. apply Hit.
  apply list_elem_of_fmap in Hin as (d' & Hk & Hd'). apply list_elem_of_omap in Hd' as (it' & Hit' & Hd').
  assert (ac_it d' = it') as <- by (unfold due_item in Hd'; repeat case_match; by simplify_eq).
  rewrite Hk. by apply (list_elem_of_fmap_2 it_key).
Qed.
End ActLoop.

(** The breaker is open exactly when the last five attempts failed. *)
Definition attempt_ok (a : attempt) : Prop :=
  0 <= at_failures a /\ at_breaker_open a = (breaker_after <=? at_failures a).
Definition attempts_ok (s : cm_state) : Prop := forall k a, cm_attempts s !! k = Some a -> attempt_ok a.
Definition breaker_open (s : cm_state) (key : string) : bool := at_breaker_open (attempt_of s key).

Lemma attempt_of_ok s key : attempts_ok s -> attempt_ok (attempt_of s key).
Proof. intros H. unfold attempt_of. destruct (cm_attempts s !! key) eqn:E; [by eapply H | done]. Qed.

Lemma act_step_attempt_ok e acc d :
  breaker_open (aa_state acc) (it_key (ac_it d)) = false -> attempts_ok (aa_state acc) ->
  attempts_ok (aa_state (act_step e acc d)).
Proof.
  intros Hb Hok k a Hk. pose proof (act_step_cases e acc d) as (_ & Hother & _).
  destruct (decide (k = it_key (ac_it d))) as [->|Hne]; [|rewrite Hother in Hk by done; by eapply Hok].
  pose proof (attempt_of_ok (aa_state acc) (it_key (ac_it d)) Hok) as [Hf Hbo]. unfold breaker_open in Hb.
  rewrite Hb in Hbo. symmetry in Hbo. apply Z.leb_gt in Hbo. revert Hk. unfold act_step.
  destruct (String.eqb _ _); simpl.
  - destruct (over_budget _ _); simpl; [apply Hok|]. destruct (restore_call e d) as [[dep|err] calls]; simpl.
    + unfold started. destruct dep; simpl; rewrite lookup_insert_eq; intros [= <-]; split; simpl; done.
    + rewrite lookup_insert_eq. intros [= <-]. split; simpl; [lia|]. rewrite Hb. simpl. by rewrite andb_true_r.
  - rewrite lookup_insert_eq. intros [= <-]. split; simpl; [done|]. rewrite Hb. symmetry. by apply Z.leb_gt.
Qed.

Lemma act_loop_attempts_ok e l acc :
  NoDup ((fun d => it_key (ac_it d)) <$> l) ->
  (forall d, d ∈ l -> breaker_open (aa_state acc) (it_key (ac_it d)) = false) ->
  attempts_ok (aa_state acc) -> attempts_ok (aa_state (foldl (act_step e) acc l)).
Proof.
  revert acc. induction l as [|d l IH]; intros acc Hnd Hl Hok; [done|].
  rewrite fmap_cons, NoDup_cons in Hnd. destruct Hnd as [Hd Hnd]. simpl. apply IH; [done| |].
  - intros d' Hd'. unfold breaker_open, attempt_of.
    destruct (act_step_cases e acc d) as (_ & Hother & _). rewrite Hother; [apply Hl; by right|].
    intros Heq. apply Hd. rewrite <- Heq. by apply (list_elem_of_fmap_2 (fun d => it_key (ac_it d))).
  - apply act_step_attempt_ok; [|done]. apply Hl. left.
Qed.

(** Acting keeps the breaker of every workload open exactly when its last five attempts
    failed, and an open breaker is left alone: its record is the same after acting. *)
Lemma act_breaker e platform now items s :
  NoDup (it_key <$> items) -> attempts_ok s ->
  attempts_ok (act e platform now items s).1
  /\ forall key a, cm_attempts s !! key = Some a -> at_breaker_open a = true ->
     cm_attempts (act e platform now items s).1 !! key = Some a.
Proof.
  intros Hnd Hok. rewrite act_unfold.
  set (start := let '(per_node, total, s') := inflight e s in ActAcc per_node total s' []).
  set (todo := due e platform (aa_state start) now items).
  assert (Htodo : forall d, d ∈ todo -> breaker_open s (it_key (ac_it d)) = false).
  { intros d Hd. apply (elem_of_todo e platform now items s) in Hd as [_ Hd]. apply due_item_facts in Hd as (_ & Hh & _).
    unfold holds_back in Hh. unfold breaker_open, attempt_of. destruct (cm_attempts s !! _); [|done]. by go_inv. }
  assert (H1 : attempts_ok (aa_state (foldl (act_step e) start todo))).
  { apply act_loop_attempts_ok; [by apply (todo_keys_NoDup e platform now items s)|exact Htodo|exact Hok]. }
  assert (H2 : forall key a, cm_attempts s !! key = Some a -> at_breaker_open a = true ->
    cm_attempts (aa_state (foldl (act_step e) start todo)) !! key = Some a).
  { intros key a Hk Ho. apply (foldl_inv (fun acc => cm_attempts (aa_state acc) !! key = Some a)); [done|].
    intros acc d Hd Ha. destruct (act_step_cases e acc d) as (_ & -> & _); [done|].
    intros ->. apply Htodo in Hd. unfold breaker_open, attempt_of in Hd. rewrite Hk in Hd. simpl in Hd. congruence. }
  by destruct platform.
Qed.
