(* ===== verification/ControlSweep.v ===== *)
(** * The control manager: whole sweeps

    [Service.Sweep] of [internal/services/controlmanager/controlmanager.go] composes the plan, the
    observation, the record and the action. A run of the control manager is a sequence of sweeps,
    each with its own records, engines, collaborators and clock readings; what holds of every
    reachable state is proved by induction on the run. *)
From S2P Require Import Prelude GoStrings GoTime ControlTypes ControlObserve ControlState ControlAct.
#[local] Open Scope Z_scope.
#[local] Open Scope list_scope.

(** ** One sweep *)

(** What one sweep reads: the settings' mode, the records, the engines, the collaborators, the clock. *)
Record sweep_input := SweepInput {
  si_mode : string;
  si_stores : stores;
  si_world : world;
  si_enforcement : enforcement;
  si_start : instant;
  si_observe_now : N -> instant;
  si_record_now : instant;
  si_act_now : instant }.

(** [Service.Sweep]: the new state, the outputs and the error it returns. *)
Definition sweep (i : sweep_input) (s : cm_state) : cm_state * list output * option string :=
  let platform := parse_mode (si_mode i) in
  if bool_decide (platform = ModeOff) then let '(s, out) := reset in (s, out, None)
  else match plan (si_stores i) platform with
       | Err e => (s, [], Some e)
       | Ok items =>
           let '(seen, skipped, adopted) := observe (si_world i) (si_observe_now i) items in
           let '(s, out1) := record (si_record_now i) (si_start i) items seen skipped s in
           let '(s, out2) := act (si_enforcement i) platform (si_act_now i) items s in
           (s, ((fun '(t, at_) => OAdopt t at_) <$> adopted) ++ out1 ++ out2, None)
       end.

(** Primary keys are unique in every table. *)
Definition ids_unique (st : stores) : Prop :=
  (forall l, st_list_reconcilable st = Ok l -> NoDup (app_id <$> l))
  /\ (forall l, st_list_volumes st = Ok l -> NoDup (vol_id <$> l))
  /\ (forall l, st_list_instances st = Ok l -> NoDup (inst_id <$> l))
  /\ (forall l, st_list_servers st = Some (Some l) -> NoDup (srv_id <$> l)).

(** ** The keys of a plan *)

Lemma id_key_inj p a b : id_key p a = id_key p b -> a = b.
Proof. unfold id_key. intros H%str_app_inv_head%itoa_inj. lia. Qed.

#[export] Instance app_key_inj : Inj eq eq app_key. Proof. intros a b. apply id_key_inj. Qed.
#[export] Instance volume_key_inj : Inj eq eq volume_key. Proof. intros a b. apply id_key_inj. Qed.
#[export] Instance db_volume_key_inj : Inj eq eq db_volume_key. Proof. intros a b. apply id_key_inj. Qed.
#[export] Instance gateway_key_inj : Inj eq eq gateway_key. Proof. intros a b. apply id_key_inj. Qed.

(** What makes the keys of different kinds of items distinct. *)
Inductive key_class : Type := AppKeys | VolumeKeys | DbVolumeKeys | GatewayKeys | OtherKeys.
Definition class_of_key (k : string) : key_class :=
  match k with
  | String "a" _ => AppKeys | String "v" _ => VolumeKeys
  | String "d" _ => DbVolumeKeys | String "g" _ => GatewayKeys
  | _ => OtherKeys
  end%char.

Lemma omap_keys {A} (f : A -> option item) (key : A -> string) (l : list A) :
  (forall a it, f a = Some it -> it_key it = key a) -> (it_key <$> omap f l) `sublist_of` (key <$> l).
Proof.
  intros Hk. induction l as [|a l IH]; simpl; [constructor|].
  destruct (f a) as [it|] eqn:Hf; rewrite ?fmap_cons; [rewrite (Hk _ _ Hf); by constructor | by constructor].
Qed.

Lemma plan_apps_keys st m deploying by_id by_name apps items mounted :
  exists l, (foldl (plan_app st m deploying by_id by_name) (items, mounted) apps).1 = items ++ l
            /\ (it_key <$> l) `sublist_of` (app_key ∘ app_id <$> apps)
            /\ Forall (fun it => exists a, a ∈ apps /\ it_key it = app_key (app_id a)) l.
Proof.
  revert items mounted. induction apps as [|a apps IH]; intros items mounted.
  { exists []. rewrite app_nil_r. split_and!; [done|constructor|constructor]. }
  simpl. set (acc := if bool_decide _ then _ else _).
  assert (Hacc : exists its mo, acc = (its, mo) /\
    (its = items \/ exists it, its = items ++ [it] /\ it_key it = app_key (app_id a))).
  { unfold acc. destruct (bool_decide (app_id a ∈ deploying)); [eauto|].
    destruct (effective_policy a m); [eauto|..]; unfold app_item;
      (destruct (app_runtime_service a); [eauto 10|]; destruct (st_find_active st (app_id a)) as [c|]; [|eauto];
       destruct (String.eqb c ""); eauto 10). }
  destruct Hacc as (its & mo & -> & Hits). destruct (IH its mo) as (l & -> & Hsub & Hall).
  assert (Hall' : Forall (fun it => exists b, b ∈ a :: apps /\ it_key it = app_key (app_id b)) l).
  { eapply Forall_impl; [exact Hall|]. intros it (b & Hb & Hk). exists b. split; [by right|done]. }
  destruct Hits as [->|(it & -> & Hk)].
  - exists l. split_and!; [done | by constructor | done].
  - exists (it :: l). rewrite <- app_assoc. split_and!; [done| |constructor; [exists a; split; [left|done]|done]].
    rewrite fmap_cons, Hk. by constructor.
Qed.

Lemma NoDup_keys_of {A} (f : N -> string) `{!Inj eq eq f} (id : A -> N) (l : list A) (ks : list string) :
  NoDup (id <$> l) -> ks `sublist_of` (f ∘ id <$> l) -> NoDup ks.
Proof.
  intros Hnd Hsub. eapply sublist_NoDup; [|exact Hsub]. rewrite list_fmap_compose. by apply NoDup_fmap_2.
Qed.

Lemma keys_class (ks : list string) {A} (f : A -> string) (l : list A) c :
  ks `sublist_of` (f <$> l) -> (forall a, class_of_key (f a) = c) -> Forall (fun k => class_of_key k = c) ks.
Proof.
  intros Hsub Hc. apply Forall_forall. intros k Hk. eapply sublist_subseteq in Hk; [|exact Hsub].
  apply list_elem_of_fmap in Hk as (a & -> & _). apply Hc.
Qed.

Lemma NoDup_app_class (l1 l2 : list string) (P : key_class -> bool) :
  Forall (fun k => P (class_of_key k) = true) l1 -> Forall (fun k => P (class_of_key k) = false) l2 ->
  NoDup l1 -> NoDup l2 -> NoDup (l1 ++ l2).
Proof.
  intros H1 H2 Hn1 Hn2. apply NoDup_app. split_and!; try done. intros k Hk1 Hk2.
  rewrite Forall_forall in H1, H2. specialize (H1 k Hk1). specialize (H2 k Hk2). congruence.
Qed.

Lemma app_keys_class (l : list string) {A} (f : A -> string) (src : list A) c (P : key_class -> bool) b :
  l `sublist_of` (f <$> src) -> (forall a, class_of_key (f a) = c) -> P c = b ->
  Forall (fun k => P (class_of_key k) = b) l.
Proof.
  intros Hs Hc Hb. eapply Forall_impl; [by eapply keys_class|]. intros k Hk. simpl in *. by rewrite Hk.
Qed.

Lemma volume_item_key st mounted v it : volume_item st mounted v = Some it -> it_key it = volume_key (vol_id v).
Proof. unfold volume_item. case_match; [done|]. by intros [= <-]. Qed.
Lemma instance_item_key st v it : instance_item st v = Some it -> it_key it = db_volume_key (inst_id v).
Proof. unfold instance_item. case_match; [done|]. by intros [= <-]. Qed.
Lemma gateway_item_key v it : gateway_item v = Some it -> it_key it = gateway_key (srv_id v).
Proof. unfold gateway_item. case_match; [done|]. by intros [= <-]. Qed.

(** A plan never names two workloads by the same key: the items of the apps, the
    volumes, the database volumes and the gateways are told apart. *)
Lemma plan_keys_distinct st m items : ids_unique st -> plan st m = Ok items -> NoDup (it_key <$> items).
Proof.
  intros (Ha & Hv & Hi & Hg) Hp. unfold plan in Hp.
  apply rbind_ok_inv in Hp as (apps & Eapps & Hp). apply rbind_ok_inv in Hp as (busy & _ & Hp).
  apply rbind_ok_inv in Hp as (vols & Evols & Hp). apply rbind_ok_inv in Hp as (insts & Einsts & Hp).
  pose proof (plan_apps_keys st m busy (volumes_by_id vols) (volumes_by_name vols) apps [] ∅) as (l & El & Hl & _).
  destruct (foldl _ _ apps) as [items0 mounted]. simpl in El. subst items0. injection Hp as <-.
  pose proof (omap_keys (volume_item st mounted) _ vols (volume_item_key st mounted)) as Hvs.
  pose proof (omap_keys (instance_item st) _ insts (instance_item_key st)) as His.
  assert (exists srvs, (it_key <$> gateway_items st) `sublist_of` (gateway_key ∘ srv_id <$> srvs) /\ NoDup (srv_id <$> srvs)) as (srvs & Hgs & Hns).
  { unfold gateway_items. destruct (st_list_servers st) as [[srvs|]|] eqn:Es; [|exists []; split; constructor..].
    exists srvs. split; [apply (omap_keys gateway_item), gateway_item_key|by apply Hg]. }
  rewrite !fmap_app.
  set (P1 := fun c => match c with AppKeys => true | _ => false end).
  set (P2 := fun c => match c with VolumeKeys => true | _ => false end).
  set (P3 := fun c => match c with DbVolumeKeys => true | _ => false end).
  assert (C1 : forall a : application, class_of_key ((app_key ∘ app_id) a) = AppKeys) by done.
  assert (C2 : forall v : volume_row, class_of_key (volume_key (vol_id v)) = VolumeKeys) by done.
  assert (C3 : forall v : instance_row, class_of_key (db_volume_key (inst_id v)) = DbVolumeKeys) by done.
  assert (C4 : forall v : server_row, class_of_key ((gateway_key ∘ srv_id) v) = GatewayKeys) by done.
  apply (NoDup_app_class _ _ P1); rewrite ?Forall_app; [by eapply app_keys_class | split_and!; by eapply app_keys_class | | ].
  { eapply (NoDup_keys_of app_key); [by apply Ha|exact Hl]. }
  apply (NoDup_app_class _ _ P2); rewrite ?Forall_app; [by eapply app_keys_class | split_and!; by eapply app_keys_class | | ].
  { eapply (NoDup_keys_of volume_key); [by apply Hv|exact Hvs]. }
  apply (NoDup_app_class _ _ P3); [by eapply app_keys_class | by eapply app_keys_class | | ].
  { eapply (NoDup_keys_of db_volume_key); [by apply Hi|exact His]. }
  eapply (NoDup_keys_of gateway_key); [exact Hns|exact Hgs].
Qed.

(** ** The invariant of every reachable state *)

Record cm_ok (s : cm_state) : Prop := {
  ok_findings : findings_ok s;
  ok_inflight : inflight_ok s;
  ok_attempts : attempts_ok s;
  ok_blocked : forall id r, blocked_redeploy s id = Some r -> r <> "" }.

Inductive reachable : cm_state -> Prop :=
| reach_new : reachable new_state
| reach_sweep i s : reachable s -> ids_unique (si_stores i) -> reachable (sweep i s).1.1.

Lemma new_state_ok : cm_ok new_state.
Proof.
  split.
  - intros k f H. simpl in H. by rewrite lookup_empty in H.
  - split; [done|]. intros n. unfold node_count. simpl. rewrite map_filter_empty, map_size_empty. done.
  - intros k a H. simpl in H. by rewrite lookup_empty in H.
  - intros id r H. unfold blocked_redeploy in H. simpl in H. by rewrite lookup_empty in H.
Qed.

Lemma block_reason_not_empty f : block_reason f <> "".
Proof. done. Qed.

Lemma record_ok now start items seen skipped s :
  NoDup (it_key <$> items) -> cm_ok s -> cm_ok (record now start items seen skipped s).1.
Proof.
  intros Hnd [Hf Hi Ha Hb]. pose proof (record_findings_ok now start items seen skipped s Hnd Hf) as Hf'.
  pose proof (blocked_after_record now start items seen skipped s) as Hbl.
  destruct (record_split now start items seen skipped s) as [fs E]. split; [done| | |].
  - rewrite E. exact Hi.
  - rewrite E. intros k a Hk. simpl in Hk. apply map_lookup_filter_Some in Hk as [Hk _]. by eapply Ha.
  - intros id r Hr. destruct (Hbl id) as [_ Hr']. apply Hr' in Hr as (lost & _ & ->). apply block_reason_not_empty.
Qed.

Lemma act_ok e platform now items s :
  NoDup (it_key <$> items) -> cm_ok s -> cm_ok (act e platform now items s).1.
Proof.
  intros Hnd [Hf Hi Ha Hb]. pose proof (act_frame e platform now items s) as (Ef & Eb & _).
  split.
  - intros k f. rewrite Ef. apply Hf.
  - by apply act_keeps_budgets.
  - by apply act_breaker.
  - intros id r. unfold blocked_redeploy. rewrite Eb. apply Hb.
Qed.

(** The stages of a sweep that runs. *)
Lemma sweep_stages i s items :
  parse_mode (si_mode i) <> ModeOff -> plan (si_stores i) (parse_mode (si_mode i)) = Ok items ->
  exists seen skipped adopted,
    observe (si_world i) (si_observe_now i) items = (seen, skipped, adopted)
    /\ let r := record (si_record_now i) (si_start i) items seen skipped s in
       let a := act (si_enforcement i) (parse_mode (si_mode i)) (si_act_now i) items r.1 in
       sweep i s = (a.1, ((fun '(t, at_) => OAdopt t at_) <$> adopted) ++ r.2 ++ a.2, None).
Proof.
  intros Hm Hp. unfold sweep. rewrite bool_decide_eq_false_2, Hp by done.
  destruct (observe _ _ _) as [[seen skipped] adopted]. exists seen, skipped, adopted. split; [done|].
  destruct (record _ _ _ _ _ _) as [s1 out1]. simpl. by destruct (act _ _ _ _ _).
Qed.

(** From a well-formed state, a sweep in any mode, over any records, engines and
    collaborators, failing or not, leaves a well-formed state: findings confirmed only after enough
    misses, in-flight redeploys within both budgets, breakers in step with the failures. *)
Lemma sweep_preserves_ok i s : ids_unique (si_stores i) -> cm_ok s -> cm_ok (sweep i s).1.1.
Proof.
  intros Hu Hok. destruct (decide (parse_mode (si_mode i) = ModeOff)) as [Hm|Hm].
  { unfold sweep. rewrite bool_decide_eq_true_2 by done. apply new_state_ok. }
  destruct (plan (si_stores i) (parse_mode (si_mode i))) as [items|err] eqn:Hp.
  - destruct (sweep_stages i s items Hm Hp) as (seen & skipped & adopted & _ & ->). simpl.
    pose proof (plan_keys_distinct _ _ _ Hu Hp). apply act_ok; [done|]. by apply record_ok.
  - unfold sweep. rewrite bool_decide_eq_false_2, Hp by done. done.
Qed.

Lemma reachable_ok s : reachable s -> cm_ok s.
Proof. induction 1; [apply new_state_ok | by apply sweep_preserves_ok]. Qed.

(** In every state any run of sweeps reaches, over whatever records, engines,
    collaborators and clock readings: a finding is confirmed exactly when at least two sweeps missed its
    workload; at most ten redeploys are in flight, and at most three on any node; a breaker is open
    exactly when the last five attempts on its workload failed. *)
Lemma reachable_well_formed s :
  reachable s ->
  (forall k f, cm_findings s !! k = Some f -> 1 <= f_misses f /\ f_confirmed f = (confirm_after <=? f_misses f))
  /\ Z.of_nat (size (cm_inflight s)) <= budget_platform
  /\ (forall node, node_count (cm_inflight s) node <= budget_per_node)
  /\ (forall k a, cm_attempts s !! k = Some a ->
       0 <= at_failures a /\ at_breaker_open a = (breaker_after <=? at_failures a)).
Proof. intros [Hf [Hp Hn] Ha _]%reachable_ok. split_and!; [exact Hf | exact Hp | exact Hn | exact Ha]. Qed.

(** C8 [never_starts_on_lost_data]: in every run, when a sweep calls for the redeploy of a workload, that
    workload has been missed by at least two sweeps, none of the volumes it mounts is confirmed lost at
    that moment, its own policy enforces, and its workspace is not suspended. *)
Theorem never_starts_on_lost_data i s it r :
  reachable s -> ids_unique (si_stores i) -> ORedeploy it r ∈ (sweep i s).1.2 ->
  let s' := (sweep i s).1.1 in
  (exists f, cm_findings s' !! it_key it = Some f /\ confirm_after <= f_misses f)
  /\ (it_owner it = OwnerApp -> forall need lost, need ∈ it_needs it -> ~ lost_need (cm_findings s') need lost)
  /\ it_policy it = Some ModeEnforce
  /\ is_suspended (si_enforcement i) it = false.
Proof.
  intros Hr Hu Hin. apply reachable_ok in Hr.
  destruct (decide (parse_mode (si_mode i) = ModeOff)) as [Hm|Hm].
  { unfold sweep in Hin. rewrite bool_decide_eq_true_2 in Hin by done. simpl in Hin.
    apply list_elem_of_singleton in Hin. discriminate. }
  destruct (plan (si_stores i) (parse_mode (si_mode i))) as [items|err] eqn:Hp.
  2: { unfold sweep in Hin. rewrite bool_decide_eq_false_2, Hp in Hin by done. by apply elem_of_nil in Hin. }
  destruct (sweep_stages i s items Hm Hp) as (seen & skipped & adopted & _ & E). rewrite E in *. simpl in *.
  pose proof (plan_keys_distinct _ _ _ Hu Hp) as Hnd.
  set (s1 := (record (si_record_now i) (si_start i) items seen skipped s).1) in *.
  assert (Hok1 : cm_ok s1) by (by apply record_ok).
  assert (Hin' : ORedeploy it r ∈ (act (si_enforcement i) (parse_mode (si_mode i)) (si_act_now i) items s1).2).
  { rewrite !elem_of_app in Hin. destruct Hin as [Hin|[Hin|Hin]]; [exfalso|exfalso|done].
    - apply list_elem_of_fmap in Hin as ([t a] & ? & _). discriminate.
    - destruct (record_outputs (si_record_now i) (si_start i) items seen skipped s Hnd) as [c Hc]. rewrite Hc in Hin.
      rewrite !elem_of_cons in Hin. destruct Hin as [?|[?|Hin]]; [discriminate..|].
      apply list_elem_of_In, in_concat in Hin as (l & Hl & Hin). apply list_elem_of_In, list_elem_of_fmap in Hl as (n & -> & _).
      apply list_elem_of_In, list_elem_of_fmap in Hin as (sub & Hsub & _). by destruct (negb _). }
  apply act_redeploys_only_restorable in Hin' as [Hit Hk Hpol (f & Hf & Hcf) Hnb Hns _ _ _]; [|apply (ok_blocked s1 Hok1)].
  pose proof (act_frame (si_enforcement i) (parse_mode (si_mode i)) (si_act_now i) items s1) as (Ef & _).
  split_and!; try done.
  - exists f. rewrite Ef. split; [done|]. apply (ok_findings s1 Hok1) in Hf as [_ Hc]. rewrite Hcf in Hc. by apply Z.leb_le.
  - intros Ho need lost Hneed. rewrite Ef. intros Hl.
    destruct (blocked_after_record (si_record_now i) (si_start i) items seen skipped s (it_id it)) as [[_ Hb] _].
    fold s1 in Hb. destruct Hb as [reason Hreason]; [|congruence].
    exists lost, it, need. done.
Qed.

(** ** Runs *)

(** What one sweep tells about a workload: whether it is expected, and what was observed of it. *)
Definition sweep_view (i : sweep_input) (k : string) (v : view) : view :=
  if bool_decide (parse_mode (si_mode i) = ModeOff) then None
  else match plan (si_stores i) (parse_mode (si_mode i)) with
       | Err _ => v
       | Ok items =>
           if bool_decide (k ∈ (it_key <$> items)) then
             let seen := (observe (si_world i) (si_observe_now i) items).1.1 in
             spec_step (ob_state (default no_observation (seen !! k))) v
           else None
       end.

Definition run (ins : list sweep_input) (s : cm_state) : cm_state := foldl (fun s i => (sweep i s).1.1) s ins.

(** C2 [run_refines]: over any run, what the control manager holds about a workload is what the
    observations of that workload alone determine: the number of consecutive sweeps it was missing,
    unknown sweeps aside, and the class of its loss. *)
Theorem run_refines ins s k :
  Forall (fun i => ids_unique (si_stores i)) ins ->
  view_of (cm_findings (run ins s)) k = foldl (fun v i => sweep_view i k v) (view_of (cm_findings s) k) ins.
Proof.
  revert s. induction ins as [|i ins IH]; intros s Hu; [done|]. inversion Hu as [|? ? Hi Hrest]; subst. simpl.
  rewrite IH by done. f_equal. unfold sweep_view. case_bool_decide as Hm.
  { unfold sweep. rewrite bool_decide_eq_true_2 by done. simpl. unfold view_of. by rewrite lookup_empty. }
  destruct (plan (si_stores i) (parse_mode (si_mode i))) as [items|err] eqn:Hp.
  2: { unfold sweep. by rewrite bool_decide_eq_false_2, Hp by done. }
  destruct (sweep_stages i s items Hm Hp) as (seen & skipped & adopted & Ho & ->). simpl. rewrite Ho. simpl.
  pose proof (act_frame (si_enforcement i) (parse_mode (si_mode i)) (si_act_now i) items
    (record (si_record_now i) (si_start i) items seen skipped s).1) as (-> & _).
  apply record_refines. by eapply plan_keys_distinct.
Qed.

(** ** A small platform, to run the definitions on

    One node and one enforced app whose container mounts one volume. *)
Module Demo.
Definition app : application := Application 7 "shop" "" 1 2 1 ReconcileInherit false [AppMount 3 "mb-vol-3" 0].
Definition vol : volume_row := VolumeRow 3 "data" "mb-vol-3" false 1 2 1 "2026-01-01T00:00:00Z".
Definition db : stores := Stores (Ok [app]) (Ok []) (Ok [vol]) (Ok []) (fun _ => Some "abc") None None None.
Definition engine (cs : list container) (vs : list docker_volume) : docker_client :=
  DockerClient (Ok cs) (Ok vs) (fun _ => Err DockerNotFound) (fun _ => Err DockerNotFound).
Definition nodes (cs : list container) (vs : list docker_volume) : world :=
  World (fun _ => (0, true)) (fun _ => Some (engine cs vs)) (fun _ => Err "no manager").
Definition enforce : enforcement :=
  Enforcement (Some (fun _ _ => Ok (Some 41%N))) None (Some (fun _ => false)) (Some (fun _ => Ok tt)) None true
    (fun _ => Some DeploymentDeploying) (fun _ => 3 * minute).
Definition input (mode : string) (cs : list container) (vs : list docker_volume) : sweep_input :=
  SweepInput mode db (nodes cs vs) enforce (2 * minute) (fun _ => 2 * minute) (2 * minute) (3 * minute).

Definition running : list container := [Container "abcdef" "running"].
Definition mounted : list docker_volume := [DockerVolume "mb-vol-3" "2026-01-01T00:00:00Z"].

(** the container is gone, the volume is there *)
Definition crash : sweep_input := input "enforce" [] mounted.
(** both are gone *)
Definition loss : sweep_input := input "observe" [] [].
(** the volume is back, the container is still gone *)
Definition back : sweep_input := input "observe" [] mounted.

Lemma db_unique : ids_unique db.
Proof.
  split_and!; intros l; simpl; intros [= <-]; apply (bool_decide_unpack _); by vm_compute.
Qed.

Definition item_of_app : item :=
  default (Item "" KindVolume "" "" OwnerApp 0 0 0 0 None None "" "" "" false "" "" None None [] [])
    (match plan db ModeEnforce with Ok (it :: _) => Some it | _ => None end).
Definition items : list item := match plan db ModeEnforce with Ok l => l | Err _ => [] end.
Definition seen_crash : gmap string observation := {[ "app:7" := Observation Gone (Some KindContainer) ]}.

Lemma items_distinct : NoDup (it_key <$> items).
Proof. apply (bool_decide_unpack _). by vm_compute. Qed.

Definition once : cm_state := (sweep crash new_state).1.1.
Lemma once_reachable : reachable once.
Proof. apply reach_sweep; [constructor | apply db_unique]. Qed.
End Demo.


(** The second miss announces the loss. *)
(** The second sweep that misses the container confirms its loss and has one redeploy in flight. *)
(** The second sweep that misses the container redeploys the app. *)
Lemma never_starts_on_lost_data_witness :
  ORedeploy Demo.item_of_app "the app's container no longer existed on its node" ∈ (sweep Demo.crash Demo.once).1.2
  /\ exists f, cm_findings (sweep Demo.crash Demo.once).1.1 !! "app:7" = Some f /\ confirm_after <= f_misses f.
Proof.
  assert (H : ORedeploy Demo.item_of_app "the app's container no longer existed on its node" ∈ (sweep Demo.crash Demo.once).1.2)
    by (apply list_elem_of_lookup; exists 3%nat; by vm_compute).
  split; [exact H|].
  apply (never_starts_on_lost_data Demo.crash Demo.once Demo.item_of_app _ Demo.once_reachable Demo.db_unique H).
Defined.

Lemma run_refines_witness :
  view_of (cm_findings (run [Demo.loss; Demo.back; Demo.loss] new_state)) "volume:3" = Some (ClassMissing, 1).
Proof.
  rewrite (run_refines [Demo.loss; Demo.back; Demo.loss] new_state "volume:3");
    [by vm_compute | by repeat (constructor; [apply Demo.db_unique|])].
Defined.


(** ** A report that outlives its cause *)

(** [blockLocked] marks the finding of an app whose volume is lost, and nothing
    takes the mark back while the app stays missing: after the volume returned the app is no longer
    blocked, yet its finding is still reported as blocked by that volume and needing a restore. *)
Lemma stale_block_report :
  let s := run [Demo.loss; Demo.loss; Demo.back] new_state in
  blocked_redeploy s 7 = None
  /\ cm_findings s !! "volume:3" = None
  /\ exists f, ss_findings (status ModeObserve s) = [f] /\ f_owner_id f = 7%N /\ f_blocked f = true
     /\ f_action f = ActionRestore
     /\ f_blocked_reason f = "its data volume data is missing, so it needs a manual restore before it runs again".
Proof. split_and!; [by vm_compute..|]. eexists. split_and!; by vm_compute. Qed.
