(* ===== verification/Leader.v ===== *)
(** * Leader election

    [internal/leader]: a lease in Redis ([lease.go]) and the elector that campaigns for it
    ([leader.go]). Redis is third-party code: it is a store with the four commands the scripts
    call, whose documented behaviour is the class [RedisLaws]; the client's theorems are proved
    against the class, and [KeyStore] is a concrete store that satisfies it. Several processes
    run electors on one store, commands and replies may be delayed or lost, and the clock moves
    between any two steps: [step] is that system. *)
From S2P Require Import Prelude GoStrings GoTime.
#[local] Open Scope Z_scope.
#[local] Open Scope list_scope.

(** ** Redis *)

(** The commands, at a given instant; a time to live is in milliseconds. *)
Class Redis (R : Type) := {
  redis_get : R -> instant -> string -> option string;
  redis_set_px : R -> instant -> string -> string -> Z -> R;
  redis_pexpire : R -> instant -> string -> Z -> R;
  redis_del : R -> instant -> string -> R }.

Class RedisLaws (R : Type) `{Redis R} := {
  (** SET key value PX ms: the key reads as the value until its time to live has passed. *)
  redis_get_set : forall r t k v ms t', t <= t' ->
    redis_get (redis_set_px r t k v ms) t' k = if t' <? t + ms * millisecond then Some v else None;
  (** PEXPIRE key ms keeps the value of an existing key and gives it a new time to live. *)
  redis_get_pexpire : forall r t k v ms t', t <= t' -> redis_get r t k = Some v ->
    redis_get (redis_pexpire r t k ms) t' k = if t' <? t + ms * millisecond then Some v else None;
  redis_get_del : forall r t k t', t <= t' -> redis_get (redis_del r t k) t' k = None }.

(** ** The lease *)

Record lease := Lease { ls_key : string; ls_token : string; ls_ttl : duration }.

Section Lease.
Context {R : Type} `{Redis R}.

Definition ttl_millis (l : lease) : Z := Z.quot (ls_ttl l) millisecond.

(** [acquireScript]: take a free key, renew one's own, leave another's alone. *)
Definition acquire (l : lease) (r : R) (now : instant) : R * Z :=
  match redis_get r now (ls_key l) with
  | None => (redis_set_px r now (ls_key l) (ls_token l) (ttl_millis l), 1)
  | Some v =>
      if String.eqb v (ls_token l) then (redis_pexpire r now (ls_key l) (ttl_millis l), 1)
      else (r, 0)
  end.

(** [refreshScript]: renew only one's own. *)
Definition refresh (l : lease) (r : R) (now : instant) : R * Z :=
  match redis_get r now (ls_key l) with
  | Some v => if String.eqb v (ls_token l) then (redis_pexpire r now (ls_key l) (ttl_millis l), 1) else (r, 0)
  | None => (r, 0)
  end.

(** [releaseScript]: delete only one's own. *)
Definition release (l : lease) (r : R) (now : instant) : R * Z :=
  match redis_get r now (ls_key l) with
  | Some v => if String.eqb v (ls_token l) then (redis_del r now (ls_key l), 1) else (r, 0)
  | None => (r, 0)
  end.
End Lease.

(** ** The elector *)

(** [el_changed] counts the times the [changed] channel was closed and replaced. *)
Record elector := Elector {
  el_lease : lease; el_interval : duration; el_validity : duration;
  el_valid_until : instant; el_leading : bool; el_changed : nat }.

(** [newElector] *)
Definition new_elector (name token : string) (ttl : duration) : elector :=
  Elector (Lease ("miabi:leader:" +:+ name) token ttl) (Z.quot ttl 3) (Z.quot ttl 2) 0 false 0.

(** [Elector.Leading] *)
Definition leading (e : elector) (now : instant) : bool := time_before now (el_valid_until e).

(** [setLeadingLocked]: the flag, and whether it changed. *)
Definition set_leading (e : elector) (b : bool) : elector :=
  if Bool.eqb b (el_leading e) then e
  else Elector (el_lease e) (el_interval e) (el_validity e) (el_valid_until e) b (S (el_changed e)).

Definition set_valid_until (e : elector) (t : instant) : elector :=
  Elector (el_lease e) (el_interval e) (el_validity e) t (el_leading e) (el_changed e).

(** What [campaign] does with the answer of the acquisition it began at [start]: an error keeps a held
    lease trusted until its validity runs out; a refusal ends it. *)
Definition campaign (e : elector) (start now : instant) (answer : result unit bool) : elector :=
  let e := match answer with
           | Err _ => e
           | Ok true => set_valid_until e (start + el_validity e)
           | Ok false => set_valid_until e 0
           end in
  set_leading e (leading e now).

(** [resign], up to the release of the lease *)
Definition resign (e : elector) : elector := set_leading (set_valid_until e 0) false.

(** ** Processes on one store *)

(** What a process is doing: between campaigns, waiting for the answer of the campaign of that number,
    holding its answer, or stopped for good. *)
Inductive phase : Type :=
| Idle
| Waiting (gen : nat) (start : instant)
| Answered (gen : nat) (start : instant) (ok : bool)
| Stopped.

Inductive command : Type := CmdAcquire (pid : N) (gen : nat) | CmdRelease (pid : N).

Record system (R : Type) := System {
  sy_now : instant; sy_redis : R; sy_electors : gmap N elector; sy_phases : gmap N phase;
  sy_campaigns : nat; sy_net : list command }.
Arguments System {R}. Arguments sy_now {R}. Arguments sy_redis {R}. Arguments sy_electors {R}.
Arguments sy_phases {R}. Arguments sy_campaigns {R}. Arguments sy_net {R}.

Section Steps.
Context {R : Type} `{Redis R}.

(** The reply of an acquisition reaches its process only while it waits for that very campaign. *)
Definition deliver (p : phase) (gen : nat) (n : Z) : phase :=
  match p with
  | Waiting g start => if Nat.eqb g gen then Answered g start (n =? 1) else p
  | _ => p
  end.

(** One step of the system. A command may stay in the network for ever, and run at any later time. *)
Inductive step (s : system R) : system R -> Prop :=
| step_tick d : 0 <= d ->
    step s (System (sy_now s + d) (sy_redis s) (sy_electors s) (sy_phases s) (sy_campaigns s) (sy_net s))
| step_begin pid : sy_phases s !! pid = Some Idle ->
    step s (System (sy_now s) (sy_redis s) (sy_electors s)
              (<[pid := Waiting (sy_campaigns s) (sy_now s)]> (sy_phases s)) (S (sy_campaigns s))
              (CmdAcquire pid (sy_campaigns s) :: sy_net s))
| step_run_acquire pid gen e p net1 net2 :
    sy_net s = net1 ++ CmdAcquire pid gen :: net2 ->
    sy_electors s !! pid = Some e -> sy_phases s !! pid = Some p ->
    step s (System (sy_now s) (acquire (el_lease e) (sy_redis s) (sy_now s)).1 (sy_electors s)
              (<[pid := deliver p gen (acquire (el_lease e) (sy_redis s) (sy_now s)).2]> (sy_phases s))
              (sy_campaigns s) (net1 ++ net2))
| step_answer pid e gen start ok :
    sy_phases s !! pid = Some (Answered gen start ok) -> sy_electors s !! pid = Some e ->
    step s (System (sy_now s) (sy_redis s) (<[pid := campaign e start (sy_now s) (Ok ok)]> (sy_electors s))
              (<[pid := Idle]> (sy_phases s)) (sy_campaigns s) (sy_net s))
| step_timeout pid e p gen start :
    sy_phases s !! pid = Some p -> (p = Waiting gen start \/ exists ok, p = Answered gen start ok) ->
    sy_electors s !! pid = Some e ->
    step s (System (sy_now s) (sy_redis s) (<[pid := campaign e start (sy_now s) (Err tt)]> (sy_electors s))
              (<[pid := Idle]> (sy_phases s)) (sy_campaigns s) (sy_net s))
| step_resign pid e :
    sy_phases s !! pid = Some Idle -> sy_electors s !! pid = Some e ->
    step s (System (sy_now s) (sy_redis s) (<[pid := resign e]> (sy_electors s))
              (<[pid := Stopped]> (sy_phases s)) (sy_campaigns s) (CmdRelease pid :: sy_net s))
| step_run_release pid e net1 net2 :
    sy_net s = net1 ++ CmdRelease pid :: net2 -> sy_electors s !! pid = Some e ->
    step s (System (sy_now s) (release (el_lease e) (sy_redis s) (sy_now s)).1 (sy_electors s) (sy_phases s)
              (sy_campaigns s) (net1 ++ net2)).

(** Any number of processes campaigning for the lease [name] on a store, none of which has begun. *)
Definition boot (now : instant) (r : R) (name : string) (ttl : duration) (tokens : gmap N string) : system R :=
  System now r ((fun t => new_elector name t ttl) <$> tokens) ((fun _ => Idle) <$> tokens) 0 [].

Definition leads (s : system R) (pid : N) : Prop :=
  exists e, sy_electors s !! pid = Some e /\ leading e (sy_now s) = true.
End Steps.

(** * Facts *)

Section Scripts.
Context {R : Type} `{RedisLaws R}.

(** The lease reads as [tok]'s from [now] until [till]. *)
Definition held (r : R) (key tok : string) (now till : instant) : Prop :=
  forall t, now <= t < till -> redis_get r t key = Some tok.

Lemma held_later r key tok now now' till : now <= now' -> held r key tok now till -> held r key tok now' till.
Proof. intros Hn Hh t Ht. apply Hh. lia. Qed.

Lemma held_past r key tok now till : till <= now -> held r key tok now till.
Proof. intros Hn t Ht. lia. Qed.

Lemma acquire_held (l : lease) r now :
  (acquire l r now).2 = 1 -> held (acquire l r now).1 (ls_key l) (ls_token l) now (now + ttl_millis l * millisecond).
Proof.
  unfold acquire. destruct (redis_get r now (ls_key l)) as [v|] eqn:Hg.
  - destruct (String.eqb_spec v (ls_token l)) as [->|]; [|done]. intros _ t Ht. simpl.
    rewrite (redis_get_pexpire _ _ _ (ls_token l)) by (lia || done). rewrite (proj2 (Z.ltb_lt _ _)) by lia. done.
  - intros _ t Ht. simpl. rewrite redis_get_set by lia. rewrite (proj2 (Z.ltb_lt _ _)) by lia. done.
Qed.

(** A lease in force survives every acquisition, its own or another's. *)
Lemma acquire_keeps (l : lease) r now tok till :
  till <= now + ttl_millis l * millisecond ->
  held r (ls_key l) tok now till -> held (acquire l r now).1 (ls_key l) tok now till.
Proof.
  intros Htill Hh t Ht. assert (Hg : redis_get r now (ls_key l) = Some tok) by (apply Hh; lia).
  unfold acquire. rewrite Hg. destruct (String.eqb_spec tok (ls_token l)) as [->|]; simpl; [|by apply Hh].
  rewrite (redis_get_pexpire _ _ _ (ls_token l)) by (lia || done). rewrite (proj2 (Z.ltb_lt _ _)) by lia. done.
Qed.

(** Only its own release ends a lease in force. *)
Lemma release_keeps (l : lease) r now tok till :
  tok <> ls_token l -> held r (ls_key l) tok now till -> held (release l r now).1 (ls_key l) tok now till.
Proof.
  intros Hne Hh t Ht. assert (Hg : redis_get r now (ls_key l) = Some tok) by (apply Hh; lia).
  unfold release. rewrite Hg. destruct (String.eqb_spec tok (ls_token l)); [done|]. simpl. by apply Hh.
Qed.
End Scripts.

Section Election.
Context {R : Type} `{RedisLaws R}.
Context (name : string) (ttl : duration) (tokens : gmap N string).
Context (ttl_positive : millisecond <= ttl).
Context (tokens_unique : forall p q tok, tokens !! p = Some tok -> tokens !! q = Some tok -> p = q).

Let key : string := "miabi:leader:" +:+ name.
Let validity : duration := Z.quot ttl 2.

Lemma validity_within_ttl l : ls_ttl l = ttl -> 0 <= validity <= ttl_millis l * millisecond.
Proof.
  intros Hl. unfold ttl_millis, validity. rewrite Hl. pose proof ttl_positive as Ht. unfold millisecond in *.
  rewrite (Z.quot_div_nonneg ttl 2), (Z.quot_div_nonneg ttl 1000000) by lia.
  assert (1 <= ttl / 1000000) by (apply Z.div_le_lower_bound; lia).
  pose proof (Z.div_mod ttl 1000000). pose proof (Z.mod_pos_bound ttl 1000000).
  pose proof (Z.div_mod ttl 2). pose proof (Z.mod_pos_bound ttl 2). lia.
Qed.

(** What a process may rely on, given what it is doing. *)
Definition phase_ok (s : system R) (e : elector) (p : phase) : Prop :=
  match p with
  | Idle => True
  | Waiting _ start => start <= sy_now s
  | Answered _ start ok =>
      start <= sy_now s
      /\ (ok = true -> held (sy_redis s) key (ls_token (el_lease e)) (sy_now s) (start + validity))
  | Stopped => el_valid_until e = 0
  end.

Record process_ok (s : system R) (pid : N) (e : elector) : Prop := {
  po_token : tokens !! pid = Some (ls_token (el_lease e));
  po_key : ls_key (el_lease e) = key;
  po_ttl : ls_ttl (el_lease e) = ttl;
  po_validity : el_validity e = validity;
  po_recent : el_valid_until e <= sy_now s + validity;
  po_held : held (sy_redis s) key (ls_token (el_lease e)) (sy_now s) (el_valid_until e);
  po_phase : forall p, sy_phases s !! pid = Some p -> phase_ok s e p }.

Record system_ok (s : system R) : Prop := {
  so_time : 0 <= sy_now s;
  so_processes : forall pid e, sy_electors s !! pid = Some e -> process_ok s pid e;
  so_release : forall pid, CmdRelease pid ∈ sy_net s -> sy_phases s !! pid = Some Stopped }.

Lemma set_leading_fields e b :
  el_lease (set_leading e b) = el_lease e /\ el_validity (set_leading e b) = el_validity e
  /\ el_valid_until (set_leading e b) = el_valid_until e.
Proof. unfold set_leading. by destruct (Bool.eqb b (el_leading e)). Qed.

Lemma campaign_fields e start now answer :
  el_lease (campaign e start now answer) = el_lease e
  /\ el_validity (campaign e start now answer) = el_validity e
  /\ el_valid_until (campaign e start now answer)
     = match answer with Err _ => el_valid_until e | Ok true => start + el_validity e | Ok false => 0 end.
Proof.
  unfold campaign. destruct answer as [[|]|]; simpl; rewrite !(proj1 (set_leading_fields _ _)),
    !(proj1 (proj2 (set_leading_fields _ _))), !(proj2 (proj2 (set_leading_fields _ _))); done.
Qed.

(** A step that keeps every lease in force keeps what a process relies on. *)
Lemma process_ok_frame s s' pid e :
  sy_now s <= sy_now s' ->
  (forall till, till <= sy_now s + validity ->
     held (sy_redis s) key (ls_token (el_lease e)) (sy_now s) till ->
     held (sy_redis s') key (ls_token (el_lease e)) (sy_now s') till) ->
  (forall p, sy_phases s' !! pid = Some p -> sy_phases s !! pid = Some p \/ phase_ok s' e p) ->
  process_ok s pid e -> process_ok s' pid e.
Proof.
  intros Hnow Hheld Hph [Ht Hk Hl Hv Hr Hh Hp]. constructor; try done; [lia|by apply Hheld|].
  intros p Hp'. destruct (Hph p Hp') as [Hsame|]; [|done]. specialize (Hp p Hsame).
  destruct p; simpl in *; [done|lia| |done]. destruct Hp as [Hs Hok]. split; [lia|].
  intros Htrue. apply Hheld; [lia|auto].
Qed.

Lemma system_ok_boot now r : 0 <= now -> system_ok (boot now r name ttl tokens).
Proof.
  intros Hnow. constructor; simpl; [done| |intros pid Hp; by apply elem_of_nil in Hp].
  intros pid e He. rewrite lookup_fmap in He. destruct (tokens !! pid) as [tok|] eqn:Ht; [|done].
  injection He as <-. pose proof (validity_within_ttl (Lease key tok ttl) eq_refl).
  constructor; simpl; try done; [lia | by apply held_past |].
  intros p Hp. rewrite lookup_fmap, Ht in Hp. injection Hp as <-. done.
Qed.

Lemma phases_insert (s : system R) (ph : gmap N phase) pid q (p p' : phase) :
  (<[q := p]> ph) !! pid = Some p' -> (pid = q /\ p' = p) \/ (pid <> q /\ ph !! pid = Some p').
Proof.
  destruct (decide (pid = q)) as [->|Hne]; [rewrite lookup_insert_eq; intros [= <-]; auto|].
  rewrite lookup_insert_ne by done. auto.
Qed.

Lemma acquire_frame s q eq_ pid e till :
  system_ok s -> sy_electors s !! q = Some eq_ -> process_ok s pid e ->
  till <= sy_now s + validity -> held (sy_redis s) key (ls_token (el_lease e)) (sy_now s) till ->
  held (acquire (el_lease eq_) (sy_redis s) (sy_now s)).1 key (ls_token (el_lease e)) (sy_now s) till.
Proof.
  intros Hs Hq Hp Htill Hh. destruct (so_processes s Hs q eq_ Hq) as [_ Hk Hl _ _ _ _].
  pose proof (validity_within_ttl _ Hl). rewrite <- Hk in *. apply acquire_keeps; [lia|done].
Qed.

Lemma step_run_acquire_ok s pid gen e p net1 net2 :
  system_ok s -> sy_net s = net1 ++ CmdAcquire pid gen :: net2 ->
  sy_electors s !! pid = Some e -> sy_phases s !! pid = Some p ->
  system_ok (System (sy_now s) (acquire (el_lease e) (sy_redis s) (sy_now s)).1 (sy_electors s)
              (<[pid := deliver p gen (acquire (el_lease e) (sy_redis s) (sy_now s)).2]> (sy_phases s))
              (sy_campaigns s) (net1 ++ net2)).
Proof.
  intros Hs Hn He Hp. constructor; simpl; [apply Hs| |].
  - intros pid' e' He'. pose proof (so_processes s Hs _ _ He') as Hok.
    apply (process_ok_frame s); [simpl; lia|intros; simpl; by apply (acquire_frame s pid e pid' e')| |exact Hok].
    intros p' [[-> ->]|[_ ?]]%(phases_insert s); [|by left]. assert (e' = e) as -> by congruence.
    pose proof (po_phase _ _ _ Hok _ Hp) as Hph. unfold deliver.
    destruct p as [|g start|g start ok|]; try (by left). destruct (Nat.eqb g gen); [|by left]. right. simpl in *.
    split; [done|]. intros Hone. go_inv. apply acquire_held in Hone. rewrite (po_key _ _ _ Hok) in Hone.
    pose proof (validity_within_ttl _ (po_ttl _ _ _ Hok)). intros t Ht. apply Hone. lia.
  - intros q Hq. assert (Hq' : CmdRelease q ∈ sy_net s) by (rewrite Hn; set_solver).
    pose proof (so_release s Hs q Hq') as Hst. destruct (decide (q = pid)) as [->|Hne];
      [rewrite lookup_insert_eq; assert (p = Stopped) as -> by congruence; done | by rewrite lookup_insert_ne].
Qed.

Lemma step_run_release_ok s pid e net1 net2 :
  system_ok s -> sy_net s = net1 ++ CmdRelease pid :: net2 -> sy_electors s !! pid = Some e ->
  system_ok (System (sy_now s) (release (el_lease e) (sy_redis s) (sy_now s)).1 (sy_electors s) (sy_phases s)
              (sy_campaigns s) (net1 ++ net2)).
Proof.
  intros Hs Hn He. assert (Hst : sy_phases s !! pid = Some Stopped) by (apply (so_release s Hs); rewrite Hn; set_solver).
  constructor; simpl; [apply Hs| |].
  - intros pid' e' He'. pose proof (so_processes s Hs _ _ He') as Hok. pose proof (so_processes s Hs _ _ He) as Hoke.
    destruct (decide (pid' = pid)) as [->|Hne].
    + assert (e' = e) as -> by congruence. pose proof (po_phase _ _ _ Hok _ Hst) as Hz. simpl in Hz.
      destruct Hok as [Ht Hk Hl Hv Hr Hh Hp]. pose proof (so_time s Hs).
      constructor; simpl; try done; [rewrite Hz; by apply held_past|].
      intros p Hp'. assert (p = Stopped) as -> by congruence. done.
    + apply (process_ok_frame s); [| |intros; by left|exact Hok]; simpl; [lia|]. intros till Htill Hh.
      rewrite <- (po_key _ _ _ Hoke) in *. apply release_keeps; [|done]. intros Heq.
      apply Hne. eapply tokens_unique; [apply (po_token _ _ _ Hok)|]. rewrite Heq. apply (po_token _ _ _ Hoke).
  - intros q Hq. apply (so_release s Hs). rewrite Hn. set_solver.
Qed.

(** A process that changes only its own elector. *)
Lemma step_local_ok s pid e e' p net :
  system_ok s -> sy_electors s !! pid = Some e ->
  el_lease e' = el_lease e -> el_validity e' = el_validity e -> el_valid_until e' <= sy_now s + validity ->
  held (sy_redis s) key (ls_token (el_lease e)) (sy_now s) (el_valid_until e') ->
  (forall s', sy_now s' = sy_now s -> phase_ok s' e' p) ->
  (forall q, CmdRelease q ∈ net -> (q = pid /\ p = Stopped) \/ CmdRelease q ∈ sy_net s) ->
  sy_phases s !! pid <> Some Stopped ->
  system_ok (System (sy_now s) (sy_redis s) (<[pid := e']> (sy_electors s)) (<[pid := p]> (sy_phases s))
              (sy_campaigns s) net).
Proof.
  intros Hs He Hl Hv Hr Hh Hp Hnet Hns. constructor; simpl; [apply Hs| |].
  - intros q eq_ Hq. destruct (decide (q = pid)) as [->|Hne].
    + rewrite lookup_insert_eq in Hq. injection Hq as <-. destruct (so_processes s Hs _ _ He) as [? ? ? ? _ _ _].
      constructor; simpl; rewrite ?Hl, ?Hv; try done. intros p' Hp'. rewrite lookup_insert_eq in Hp'. injection Hp' as <-.
      by apply Hp.
    + rewrite lookup_insert_ne in Hq by done. apply (process_ok_frame s); [| | |by apply (so_processes s Hs)]; simpl; [lia|done|].
      intros p' Hp'. rewrite lookup_insert_ne in Hp' by done. by left.
  - intros q Hq. apply Hnet in Hq as [[-> ->]|Hq]; [by rewrite lookup_insert_eq|].
    apply (so_release s Hs) in Hq. rewrite lookup_insert_ne; [done|]. congruence.
Qed.

Lemma step_ok s s' : system_ok s -> step s s' -> system_ok s'.
Proof.
  intros Hs Hst. destruct Hst as [d Hd|pid Hp|pid gen e p net1 net2 Hn He Hp|pid e gen start ok Hp He
                                 |pid e p gen start Hp Hcase He|pid e Hp He|pid e net1 net2 Hn He].
  - constructor; simpl; [pose proof (so_time s Hs); lia| |apply Hs]. intros pid e He.
    apply (process_ok_frame s); [| |intros; by left|by apply (so_processes s Hs)]; simpl; [lia|].
    intros till _ Hh. eapply held_later; [|exact Hh]. lia.
  - constructor; simpl; [apply Hs| |].
    + intros q e He. apply (process_ok_frame s); [| | |by apply (so_processes s Hs)]; simpl; [lia|done|].
      intros p [[_ ->]|[_ ?]]%(phases_insert s); [right; simpl; lia|by left].
    + intros q Hq. apply elem_of_cons in Hq as [?|Hq]; [done|]. apply (so_release s Hs) in Hq.
      rewrite lookup_insert_ne; [done|]. congruence.
  - by apply step_run_acquire_ok.
  - pose proof (so_processes s Hs _ _ He) as Hok. pose proof (po_phase _ _ _ Hok _ Hp) as [Hsn Hok'].
    destruct (campaign_fields e start (sy_now s) (Ok ok)) as (Hl & Hv & Hu). pose proof (po_validity _ _ _ Hok) as Hval.
    pose proof (validity_within_ttl _ (po_ttl _ _ _ Hok)). pose proof (so_time s Hs).
    apply (step_local_ok s pid e); try done; [| |intros q Hq; by right|congruence]; rewrite Hu; destruct ok;
      try (rewrite Hval; lia || by apply Hok'); [lia|by apply held_past].
  - pose proof (so_processes s Hs _ _ He) as Hok. destruct (campaign_fields e start (sy_now s) (Err tt)) as (Hl & Hv & Hu).
    apply (step_local_ok s pid e); try done; [rewrite Hu; apply Hok|rewrite Hu; apply Hok|intros q Hq; by right|].
    destruct Hcase as [->|[ok ->]]; congruence.
  - pose proof (so_processes s Hs _ _ He) as Hok. pose proof (so_time s Hs). pose proof (validity_within_ttl _ (po_ttl _ _ _ Hok)).
    destruct (set_leading_fields (set_valid_until e 0) false) as (Hl & Hv & Hu).
    apply (step_local_ok s pid e); try done; unfold resign; rewrite ?Hu; simpl; [lia|by apply held_past| |congruence].
    intros q Hq. apply elem_of_cons in Hq as [[= ->]|Hq]; auto.
  - by eapply step_run_release_ok.
Qed.

Lemma steps_ok s s' : rtc step s s' -> system_ok s -> system_ok s'.
Proof. induction 1 as [|s1 s2 s3 Hst _ IH]; [done|]. intros Hs. apply IH. by apply (step_ok s1). Qed.

(** C31 [at_most_one_leader]: however campaigns, replies, lost replies, late commands, resignations and the
    clock interleave, two processes that share a Redis never lead at the same instant: a process
    stops trusting its lease before the key can pass to another. *)
Theorem at_most_one_leader (r : R) (now : instant) (s : system R) p q :
  0 <= now -> rtc step (boot now r name ttl tokens) s -> leads s p -> leads s q -> p = q.
Proof.
  intros Hnow Hrun (ep & Hep & Hlp) (eq_ & Heq & Hlq).
  pose proof (steps_ok _ _ Hrun (system_ok_boot now r Hnow)) as Hs.
  destruct (so_processes s Hs _ _ Hep) as [Htp _ _ _ _ Hhp _], (so_processes s Hs _ _ Heq) as [Htq _ _ _ _ Hhq _].
  unfold leading, time_before in *. go_inv. eapply tokens_unique; [exact Htp|].
  rewrite Htq. rewrite <- (Hhp (sy_now s)), <- (Hhq (sy_now s)); [done|lia..].
Qed.
End Election.

(** ** A concrete store *)

(** Values with the instant they expire at. *)
Module KeyStore.
Abbreviation store := (gmap string (string * instant)).

Definition get (r : store) (now : instant) (k : string) : option string :=
  match r !! k with
  | Some (v, e) => if now <? e then Some v else None
  | None => None
  end.

#[global] Instance store_redis : Redis store := {
  redis_get := get;
  redis_set_px r t k v ms := <[k := (v, t + ms * millisecond)]> r;
  redis_pexpire r t k ms :=
    match get r t k with Some v => <[k := (v, t + ms * millisecond)]> r | None => r end;
  redis_del r _ k := delete k r }.

#[global] Instance store_laws : RedisLaws store.
Proof.
  constructor; simpl; unfold get.
  - intros r t k v ms t' Ht. by rewrite lookup_insert_eq.
  - intros r t k v ms t' Ht Hg. destruct (r !! k) as [[v' e]|]; [|done].
    destruct (t <? e); [|done]. injection Hg as ->. by rewrite lookup_insert_eq.
  - intros r t k t' Ht. by rewrite lookup_delete_eq.
Qed.

(** Two control planes; the first has campaigned and its reply has come back. *)
Definition tokens : gmap N string := {[ 1%N := "t1"; 2%N := "t2" ]}.
Definition cold : system store := boot second (∅ : store) "control" (30 * second) tokens.
Definition begun : system store :=
  System second (∅ : store) (sy_electors cold) (<[1%N := Waiting 0 second]> (sy_phases cold)) 1 [CmdAcquire 1 0].
Definition lease1 : lease := Lease "miabi:leader:control" "t1" (30 * second).
Definition taken : store := (acquire lease1 (∅ : store) second).1.
Definition replied : system store :=
  System second taken (sy_electors cold) (<[1%N := Answered 0 second true]> (<[1%N := Waiting 0 second]> (sy_phases cold))) 1 [].
Definition elected : system store :=
  System second taken
    (<[1%N := campaign (new_elector "control" "t1" (30 * second)) second second (Ok true)]> (sy_electors cold))
    (<[1%N := Idle]> (sy_phases replied)) 1 [].

Lemma elected_reached : rtc step cold elected.
Proof.
  eapply rtc_l; [apply (step_begin cold 1); by vm_compute|].
  eapply rtc_l; [apply (step_run_acquire _ 1 0 (new_elector "control" "t1" (30 * second)) (Waiting 0 second) [] []); by vm_compute|].
  eapply rtc_l; [apply (step_answer _ 1 (new_elector "control" "t1" (30 * second)) 0 second true); by vm_compute|].
  apply rtc_refl.
Qed.
End KeyStore.

Lemma at_most_one_leader_witness :
  leads KeyStore.elected 1 /\ forall q, leads KeyStore.elected q -> 1%N = q.
Proof.
  assert (H1 : leads KeyStore.elected 1) by (eexists; split; by vm_compute).
  split; [exact H1|]. intros q Hq.
  apply (at_most_one_leader "control" (30 * second) KeyStore.tokens) with (r := (∅ : KeyStore.store)) (now := second) (s := KeyStore.elected);
    [by vm_compute| |by vm_compute|apply KeyStore.elected_reached|exact H1|exact Hq].
  intros a b tok. unfold KeyStore.tokens. rewrite !lookup_insert_Some, !lookup_singleton_Some. naive_solver.
Defined.
