(* ===== verification/Semver.v ===== *)
(** * Semantic versions and series

    [internal/services/versioning/semver.go]. A Go [int] is a [Z] within 64 bits; where the code adds
    or subtracts without a check, the result is wrapped. An error is its sentinel ([errors.Is]); the
    text wrapped around it is not kept. *)
From S2P Require Import Prelude GoStrings.
#[local] Open Scope Z_scope.
#[local] Open Scope list_scope.

(** ** Errors and constants *)

Inductive version_error : Type :=
| ErrInvalidVersion | ErrInvalidSeries | ErrInvalidTag | ErrInvalidSettings | ErrBumpOutsideSeries
| ErrOutsideSeries | ErrNotGreater | ErrVersionTaken | ErrOverrideNotSupported
| ErrPolicyNotFound | ErrPolicyExists | ErrManaged | ErrTagExists | ErrAllocationConflict | ErrDB.
#[export] Instance version_error_eq_dec : EqDecision version_error.
Proof. solve_decision. Defined.

(** [models.VersionBump] *)
Definition bump_patch : string := "patch".
Definition bump_minor : string := "minor".
Definition bump_major : string := "major".

(** ** Versions *)

Record version := Version { v_major : Z; v_minor : Z; v_patch : Z; v_pre : string }.
#[export] Instance version_eq_dec : EqDecision version.
Proof. solve_decision. Defined.

(** One of the three numbers of [ParseVersion]: no sign test but for a negative value, no leading zero. *)
Definition parse_part (p : string) : option Z :=
  match atoi p with
  | Some v =>
      if (v <? 0) || (match p with String "0"%char (String _ _) => true | _ => false end) then None else Some v
  | None => None
  end.

Definition parse_version (s : string) : result version_error version :=
  let s := trim_prefix "v" (trim_space s) in
  let '(core, pre, _) := cut "-" s in
  match split "." core with
  | [a; b; c] =>
      match parse_part a, parse_part b, parse_part c with
      | Some a, Some b, Some c => Ok (Version a b c pre)
      | _, _, _ => Err ErrInvalidVersion
      end
  | _ => Err ErrInvalidVersion
  end.

(** [Version.String] *)
Definition version_string (v : version) : string :=
  let s := itoa (v_major v) +:+ "." +:+ itoa (v_minor v) +:+ "." +:+ itoa (v_patch v) in
  if String.eqb (v_pre v) "" then s else s +:+ "-" +:+ v_pre v.

(** [Version.Core] *)
Definition version_core (v : version) : version := Version (v_major v) (v_minor v) (v_patch v) "".

Definition sign (d : Z) : Z := if d <? 0 then -1 else if 0 <? d then 1 else 0.

(** The loop of [comparePre] over the identifiers both have, then [sign(len(as) - len(bs))]. *)
Fixpoint compare_ids (a b : list string) : Z :=
  match a, b with
  | x :: a', y :: b' =>
      match atoi x, atoi y with
      | Some n, Some m => if n =? m then compare_ids a' b' else sign (wrap64 (n - m))
      | Some _, None => -1
      | None, Some _ => 1
      | None, None => let c := str_compare x y in if c =? 0 then compare_ids a' b' else c
      end
  | [], [] => 0
  | [], _ :: _ => -1
  | _ :: _, [] => 1
  end.

Definition compare_pre (a b : string) : Z := compare_ids (split "." a) (split "." b).

Fixpoint first_difference (l : list Z) : option Z :=
  match l with
  | [] => None
  | d :: l' => if d =? 0 then first_difference l' else Some (sign d)
  end.

(** [Version.Compare] *)
Definition compare (v o : version) : Z :=
  match first_difference [wrap64 (v_major v - v_major o); wrap64 (v_minor v - v_minor o); wrap64 (v_patch v - v_patch o)] with
  | Some d => d
  | None =>
      if String.eqb (v_pre v) (v_pre o) then 0
      else if String.eqb (v_pre v) "" then 1
      else if String.eqb (v_pre o) "" then -1
      else compare_pre (v_pre v) (v_pre o)
  end.

(** [Version.Bump]: any other bump is a patch. *)
Definition bump (v : version) (b : string) : version :=
  if String.eqb b bump_major then Version (wrap64 (v_major v + 1)) 0 0 ""
  else if String.eqb b bump_minor then Version (v_major v) (wrap64 (v_minor v + 1)) 0 ""
  else Version (v_major v) (v_minor v) (wrap64 (v_patch v + 1)) "".

(** ** Series *)

Record series := Series { sr_raw : string; sr_fixed : list Z }.

Definition series_string (fixed : list Z) : string :=
  join "." (take 3 ((itoa <$> fixed) ++ drop (length fixed) ["x"; "x"; "x"])).

(** The loop of [ParseSeries]: the fixed parts read so far, and whether an open part was met. *)
Fixpoint parse_fixed (parts : list string) (open : bool) : option (list Z) :=
  match parts with
  | [] => Some []
  | p :: parts' =>
      if String.eqb p "x" || String.eqb p "*" then parse_fixed parts' true
      else match atoi p with
           | Some n => if (n <? 0) || open then None else cons n <$> parse_fixed parts' open
           | None => None
           end
  end.

Definition parse_series (s : string) : result version_error series :=
  let s := to_lower (trim_prefix "v" (trim_space s)) in
  let parts := split "." s in
  if negb (Nat.eqb (length parts) 3) then Err ErrInvalidSeries
  else match parse_fixed parts false with
       | None => Err ErrInvalidSeries
       | Some fixed =>
           if Nat.eqb (length fixed) 3 then Err ErrInvalidSeries
           else Ok (Series (series_string fixed) fixed)
       end.

(** [Series.Contains] *)
Definition on_series (s : series) (v : version) : bool :=
  forallb (fun '(n, c) => n =? c) (zip (sr_fixed s) [v_major v; v_minor v; v_patch v]).

(** [Series.Allows] *)
Definition allows (s : series) (b : string) : bool :=
  if String.eqb b bump_major then Nat.eqb (length (sr_fixed s)) 0
  else if String.eqb b bump_minor then Nat.leb (length (sr_fixed s)) 1
  else true.

Definition bump_rank (b : string) : Z :=
  if String.eqb b bump_major then 2 else if String.eqb b bump_minor then 1 else 0.

(** [Series.Clamp] *)
Definition clamp (s : series) (b : string) : string :=
  match find_first (fun c => (bump_rank c <=? bump_rank b) && allows s c) [b; bump_minor; bump_patch] with
  | Some c => c
  | None => bump_patch
  end.

(** [Series.First] *)
Definition first (s : series) (start : string) : version :=
  let fallback :=
    let nth i := default 0 (sr_fixed s !! i) in
    Version (match sr_fixed s with [] => 1 | _ => nth 0%nat end) (nth 1%nat) (nth 2%nat) "" in
  match parse_version start with
  | Ok v => if String.eqb (v_pre v) "" && on_series s v then v else fallback
  | Err _ => fallback
  end.

Definition valid_bump (b : string) : bool :=
  String.eqb b bump_patch || String.eqb b bump_minor || String.eqb b bump_major.

(** * Facts *)

(** ** Parsing and printing *)

(** The versions [ParseVersion] answers: three 64-bit numbers, and a prerelease without trailing space. *)
Definition part_ok (n : Z) : Prop := 0 <= n <= max_int64.
Definition version_ok (v : version) : Prop :=
  part_ok (v_major v) /\ part_ok (v_minor v) /\ part_ok (v_patch v)
  /\ drop_end_while is_space (v_pre v) = v_pre v.

Lemma parse_part_ok p n : parse_part p = Some n -> part_ok n.
Proof.
  unfold parse_part. destruct (atoi p) as [v|] eqn:E; [|done]. apply atoi_range in E.
  case_match; [done|]. intros. simplify_eq. go_inv. unfold part_ok. lia.
Qed.

Lemma parse_part_itoa n : part_ok n -> parse_part (itoa n) = Some n.
Proof.
  intros [H1 H2]. unfold parse_part. rewrite atoi_itoa by (unfold max_int64 in *; lia).
  rewrite (proj2 (Z.ltb_ge n 0)) by lia. simpl.
  destruct (decide (n = 0)) as [->|Hn]; [done|].
  destruct (itoa n) as [|c [|c' r]] eqn:E; [done| |].
  - by destruct c as [[] [] [] [] [] [] [] []].
  - destruct (ascii_dec c "0") as [->|Hc]; [by apply itoa_no_leading_zero in E|].
    destruct c as [[] [] [] [] [] [] [] []]; done.
Qed.

Lemma parse_version_ok s v : parse_version s = Ok v -> version_ok v.
Proof.
  unfold parse_version. set (t := trim_prefix "v" (trim_space s)).
  assert (Ht : drop_end_while is_space t = t).
  { subst t. unfold trim_prefix. destruct (cut_prefix "v" (trim_space s)) as [r|] eqn:E; [|apply drop_end_while_idem].
    apply cut_prefix_some in E. apply (drop_end_while_suffix _ "v"). rewrite <- E. apply drop_end_while_idem. }
  destruct (cut "-" t) as [[core pre] found] eqn:Hc.
  assert (Hpre : drop_end_while is_space pre = pre).
  { destruct found; [|by apply cut_false in Hc as [_ ->]]. apply cut_true in Hc.
    apply (drop_end_while_suffix _ (core +:+ "-")). rewrite <- str_app_assoc. change ("-" +:+ pre) with (String "-" pre).
    rewrite <- Hc. exact Ht. }
  repeat case_match; intros; simplify_eq. split_and!; simpl; eauto using parse_part_ok.
Qed.

Lemma version_string_shape v :
  version_string v = (itoa (v_major v) +:+ "." +:+ itoa (v_minor v) +:+ "." +:+ itoa (v_patch v))
                     +:+ (if String.eqb (v_pre v) "" then "" else "-" +:+ v_pre v).
Proof. unfold version_string. destruct (String.eqb _ _); [by rewrite str_app_nil_r|done]. Qed.

Lemma core_without_dash v : version_ok v ->
  str_forall (without "-") (itoa (v_major v) +:+ "." +:+ itoa (v_minor v) +:+ "." +:+ itoa (v_patch v)) = true.
Proof.
  intros ([? _] & [? _] & [? _] & _). rewrite !str_forall_app. simpl.
  by rewrite !itoa_without_dash by done.
Qed.

Lemma version_string_trimmed v : version_ok v -> trim_prefix "v" (trim_space (version_string v)) = version_string v.
Proof.
  intros Hok. pose proof Hok as ([Hmaj _] & _ & [Hpat _] & Hpre).
  assert (Hc : exists c s, version_string v = String c s /\ is_digit c = true).
  { rewrite version_string_shape. destruct (itoa_cons _ Hmaj) as (c & s & -> & Hd). simpl. eauto. }
  destruct Hc as (c & s & E & Hd). apply is_digit_not in Hd as Hd'. destruct Hd' as (_ & _ & _ & Hsp).
  unfold trim_space. replace (drop_while is_space (version_string v)) with (version_string v)
    by (rewrite E; simpl; by rewrite Hsp).
  replace (drop_end_while is_space (version_string v)) with (version_string v).
  - unfold trim_prefix. rewrite E. cbn [cut_prefix]. by destruct (Ascii.eqb_spec "v" c) as [<-|].
  - symmetry. rewrite version_string_shape.
    assert (Hp : itoa (v_patch v) <> "") by (destruct (itoa_cons _ Hpat) as (c' & s' & -> & _); done).
    destruct (String.eqb_spec (v_pre v) "") as [Ep|Ep].
    + rewrite str_app_nil_r. do 4 (apply drop_end_while_keep; [by repeat apply str_app_not_nil_r|]).
      apply drop_end_while_none. eapply str_forall_impl; [|by apply itoa_digits].
      intros x Hx. apply is_digit_not in Hx as (_ & _ & _ & ->). done.
    + apply drop_end_while_keep; [done|]. by apply drop_end_while_keep.
Qed.

Lemma split_dots a b c :
  str_forall (without ".") a = true -> str_forall (without ".") b = true -> str_forall (without ".") c = true ->
  split "." (a +:+ "." +:+ b +:+ "." +:+ c) = [a; b; c].
Proof.
  intros Ha Hb Hc. change ("." +:+ b +:+ "." +:+ c) with (String "." (b +:+ String "." c)).
  by rewrite split_app, split_app, split_none.
Qed.

Lemma parse_version_string v : version_ok v -> parse_version (version_string v) = Ok v.
Proof.
  intros Hok. unfold parse_version. rewrite version_string_trimmed by done.
  assert (Hcut : cut "-" (version_string v) =
    (itoa (v_major v) +:+ "." +:+ itoa (v_minor v) +:+ "." +:+ itoa (v_patch v), v_pre v,
     negb (String.eqb (v_pre v) ""))).
  { rewrite version_string_shape. destruct (String.eqb_spec (v_pre v) "") as [->|].
    - rewrite str_app_nil_r. by rewrite cut_none by by apply core_without_dash.
    - change ("-" +:+ v_pre v) with (String "-" (v_pre v)). by rewrite cut_app by by apply core_without_dash. }
  rewrite Hcut. destruct Hok as (H1 & H2 & H3 & _). pose proof H1 as [? _]. pose proof H2 as [? _]. pose proof H3 as [? _].
  rewrite split_dots by auto with miabi. rewrite !parse_part_itoa by done. by destruct v.
Qed.

(** What [ParseVersion] answers prints as a canonical version: parsing what
    [String] prints gives the version back, for every version whose numbers are 64-bit and whose
    prerelease has no trailing space, and those are the only versions [ParseVersion] answers. *)
Lemma version_roundtrip :
  (forall s v, parse_version s = Ok v -> version_ok v)
  /\ (forall v, version_ok v -> parse_version (version_string v) = Ok v).
Proof. split; [apply parse_version_ok | apply parse_version_string]. Qed.

(** ** Order *)

(** The order of the releases: the numbers, most significant first. *)
Definition release_lt (a b : version) : Prop :=
  v_major a < v_major b \/ v_major a = v_major b /\
  (v_minor a < v_minor b \/ v_minor a = v_minor b /\ v_patch a < v_patch b).
Definition same_core_as (a b : version) : Prop :=
  v_major a = v_major b /\ v_minor a = v_minor b /\ v_patch a = v_patch b.

Definition parts_ok (v : version) : Prop := part_ok (v_major v) /\ part_ok (v_minor v) /\ part_ok (v_patch v).

Lemma wrap64_diff a b : part_ok a -> part_ok b -> wrap64 (a - b) = a - b.
Proof. unfold part_ok, max_int64. intros. apply wrap64_small. lia. Qed.

Lemma compare_core v o : parts_ok v -> parts_ok o ->
  (release_lt v o /\ compare v o = -1) \/ (release_lt o v /\ compare v o = 1)
  \/ (same_core_as v o /\ compare v o =
      (if String.eqb (v_pre v) (v_pre o) then 0 else if String.eqb (v_pre v) "" then 1
       else if String.eqb (v_pre o) "" then -1 else compare_pre (v_pre v) (v_pre o))).
Proof.
  intros (H1 & H2 & H3) (H4 & H5 & H6). unfold compare, release_lt, same_core_as.
  rewrite !wrap64_diff by done. unfold first_difference, sign.
  destruct (Z.eqb_spec (v_major v - v_major o) 0), (Z.eqb_spec (v_minor v - v_minor o) 0),
    (Z.eqb_spec (v_patch v - v_patch o) 0);
    repeat match goal with |- context [if ?a <? ?b then _ else _] => destruct (Z.ltb_spec a b) end; try lia.
Qed.

Lemma compare_release v o : parts_ok v -> parts_ok o -> v_pre v = "" -> v_pre o = "" ->
  (0 < compare v o <-> release_lt o v) /\ (compare v o = 0 <-> v = o) /\ (compare v o <= 0 <-> ~ release_lt o v).
Proof.
  intros Hv Ho Pv Po. destruct v as [a b c p], o as [a' b' c' p']. simpl in *. subst.
  destruct (compare_core _ _ Hv Ho) as [[H ->]|[[H ->]|[H ->]]];
    unfold release_lt, same_core_as in *; simpl in *; split_and!; try lia; split; try lia;
    try (intros [=]; lia); intros _; f_equal; lia.
Qed.

(** On the versions [ParseVersion] answers, [Compare] is semver precedence: it is
    decided by the first number that differs, most significant first; a prerelease is below its release;
    releases compare equal exactly when they are equal; and swapping two versions with different numbers
    negates the answer. *)
Lemma compare_precedence v o :
  version_ok v -> version_ok o ->
  (release_lt v o -> compare v o = -1 /\ compare o v = 1)
  /\ (same_core_as v o -> v_pre v <> "" -> v_pre o = "" -> compare v o = -1 /\ compare o v = 1)
  /\ (same_core_as v o -> v_pre v <> "" -> v_pre o <> "" -> v_pre v <> v_pre o ->
      compare v o = compare_pre (v_pre v) (v_pre o))
  /\ (v_pre v = "" -> v_pre o = "" -> compare v o = 0 <-> v = o).
Proof.
  intros (V1 & V2 & V3 & _) (O1 & O2 & O3 & _).
  assert (Hv : parts_ok v) by done. assert (Ho : parts_ok o) by done.
  pose proof (compare_core v o Hv Ho) as C1. pose proof (compare_core o v Ho Hv) as C2.
  split_and!.
  - intros Hlt. destruct C1 as [[_ ->]|[[H _]|[H _]]]; [|unfold release_lt, same_core_as in *; lia..].
    destruct C2 as [[H _]|[[_ ->]|[H _]]]; [|done|]; unfold release_lt, same_core_as in *; lia.
  - intros Hs Hp Hr. destruct C1 as [[H _]|[[H _]|[_ ->]]]; [unfold release_lt, same_core_as in *; lia..|].
    destruct C2 as [[H _]|[[H _]|[_ ->]]]; [unfold release_lt, same_core_as in *; lia..|].
    rewrite Hr. destruct (String.eqb_spec (v_pre v) ""), (String.eqb_spec "" (v_pre v)); simpl; try congruence. done.
  - intros Hs Hp Hr Hne. destruct C1 as [[H _]|[[H _]|[_ ->]]]; [unfold release_lt, same_core_as in *; lia..|].
    by rewrite !(proj2 (String.eqb_neq _ _)).
  - intros. by apply compare_release.
Qed.

(** ** Bumps *)

(** A version with room for one more of each number. *)
Definition has_room (v : version) : Prop :=
  v_major v < max_int64 /\ v_minor v < max_int64 /\ v_patch v < max_int64.

Lemma bump_cases v b : parts_ok v -> has_room v ->
  bump v b = (if String.eqb b bump_major then Version (v_major v + 1) 0 0 ""
              else if String.eqb b bump_minor then Version (v_major v) (v_minor v + 1) 0 ""
              else Version (v_major v) (v_minor v) (v_patch v + 1) "").
Proof.
  intros ([? ?] & [? ?] & [? ?]) (? & ? & ?). unfold bump, max_int64 in *. by rewrite !wrap64_small by lia.
Qed.

Lemma bump_ok v b : parts_ok v -> has_room v -> parts_ok (bump v b) /\ v_pre (bump v b) = "" /\ release_lt v (bump v b).
Proof.
  intros Hok Hr. rewrite bump_cases by done. destruct Hok as ([? ?] & [? ?] & [? ?]), Hr as (? & ? & ?).
  unfold release_lt, parts_ok, part_ok. repeat case_match; simpl; (split; [lia|split; [done|lia]]).
Qed.

(** ** Series *)

Definition series_ok (s : series) : Prop :=
  sr_raw s = series_string (sr_fixed s) /\ (length (sr_fixed s) <= 2)%nat /\ Forall part_ok (sr_fixed s).

Lemma parse_fixed_ok parts open l : parse_fixed parts open = Some l ->
  (length l <= length parts)%nat /\ Forall part_ok l.
Proof.
  revert open l. induction parts as [|p parts IH]; simpl; intros open l.
  - intros [= <-]. split; [done|constructor].
  - destruct (_ || _); [intros H; apply IH in H as [? ?]; split; [lia|done]|].
    destruct (atoi p) as [n|] eqn:E; [|done]. destruct (_ || _) eqn:Eo; [done|].
    intros H. apply fmap_Some in H as (l' & H & ->). apply IH in H as [? ?]. apply atoi_range in E.
    go_inv. simpl. split; [lia|]. constructor; [|done]. unfold part_ok. lia.
Qed.

Lemma parse_series_ok s sr : parse_series s = Ok sr -> series_ok sr.
Proof.
  unfold parse_series. destruct (Nat.eqb_spec (length (split "." (to_lower (trim_prefix "v" (trim_space s))))) 3) as [El|]; [|done].
  simpl. destruct (parse_fixed _ _) as [fixed|] eqn:E; [|done].
  apply parse_fixed_ok in E as [Hl Hf]. destruct (Nat.eqb_spec (length fixed) 3) as [|H3]; [done|].
  intros. go_inv. split_and!; simpl; [done|lia|done].
Qed.

Lemma parse_fixed_itoa n parts : part_ok n ->
  parse_fixed (itoa n :: parts) false = cons n <$> parse_fixed parts false.
Proof.
  intros [H1 H2]. simpl. destruct (itoa_cons n H1) as (c & s & E & Hd).
  assert (Hx : String.eqb (itoa n) "x" || String.eqb (itoa n) "*" = false).
  { rewrite E. apply orb_false_iff. split; apply String.eqb_neq; intros [= -> ->]; done. }
  rewrite Hx, atoi_itoa by (unfold max_int64 in *; lia).
  by rewrite (proj2 (Z.ltb_ge n 0)) by lia.
Qed.

(** The characters of a printed series. *)
Definition series_char (c : ascii) : bool := is_digit c || Ascii.eqb c "x" || Ascii.eqb c ".".

Lemma series_char_clean c : series_char c = true ->
  is_space c = false /\ Ascii.eqb "v" c = false /\ is_upper c = false.
Proof.
  unfold series_char. rewrite !orb_true_iff, !Ascii.eqb_eq. intros [[H| ->]| ->]; [|done..].
  split_and!.
  - apply is_digit_not in H. tauto.
  - apply Ascii.eqb_neq. by intros <-.
  - unfold is_digit, is_upper in *. go_inv. apply andb_false_iff. left. apply Z.leb_gt. lia.
Qed.

Lemma series_clean_read s : str_forall series_char s = true -> to_lower (trim_prefix "v" (trim_space s)) = s.
Proof.
  intros H. rewrite trim_space_clean, trim_prefix_char_clean, to_lower_clean; [done|..];
    (eapply str_forall_impl; [|exact H]); intros c Hc; apply series_char_clean in Hc as (E1 & E2 & E3);
    by rewrite ?E1, ?E2, ?E3.
Qed.

Lemma parse_series_string fixed : (length fixed <= 2)%nat -> Forall part_ok fixed ->
  parse_series (series_string fixed) = Ok (Series (series_string fixed) fixed).
Proof.
  intros Hl Hf. unfold parse_series.
  assert (Hd : forall n, part_ok n -> str_forall series_char (itoa n) = true /\ str_forall (without ".") (itoa n) = true).
  { intros n [Hn _]. split; [|by apply itoa_without_dot]. eapply str_forall_impl; [|by apply itoa_digits].
    intros c Hc. unfold series_char. by rewrite Hc. }
  destruct fixed as [|n [|m [|]]]; simpl in Hl; [done| | |lia];
    repeat match goal with H : Forall _ (_ :: _) |- _ => apply Forall_cons in H as [? H] end.
  - destruct (Hd n) as [Hn1 Hn2]; [done|]. change (series_string [n]) with (itoa n +:+ "." +:+ "x" +:+ "." +:+ "x").
    rewrite series_clean_read by (by rewrite !str_forall_app, Hn1). rewrite split_dots by done.
    cbn [length Nat.eqb negb]. by rewrite parse_fixed_itoa.
  - destruct (Hd n) as [Hn1 Hn2], (Hd m) as [Hm1 Hm2]; try done.
    change (series_string [n; m]) with (itoa n +:+ "." +:+ itoa m +:+ "." +:+ "x").
    rewrite series_clean_read by (by rewrite !str_forall_app, Hn1, Hm1). rewrite split_dots by done.
    cbn [length Nat.eqb negb]. by rewrite !parse_fixed_itoa.
Qed.

(** ** Staying on a series *)

Lemma on_series_spec s v : (length (sr_fixed s) <= 2)%nat ->
  on_series s v = true <->
  match sr_fixed s with
  | [] => True
  | [a] => v_major v = a
  | a :: b :: _ => v_major v = a /\ v_minor v = b
  end.
Proof.
  unfold on_series. destruct (sr_fixed s) as [|a [|b [|]]]; simpl; intros; [done|..|lia];
    rewrite ?andb_true_r, ?andb_true_iff, ?Z.eqb_eq; intuition.
Qed.

Lemma on_series_core s v w : same_core_as v w -> on_series s v = on_series s w.
Proof. intros (H1 & H2 & H3). unfold on_series. by rewrite H1, H2, H3. Qed.

Lemma clamp_allows s b : (length (sr_fixed s) <= 2)%nat -> allows s (clamp s b) = true.
Proof.
  intros Hl. unfold clamp. destruct (find_first _ _) as [c|] eqn:E.
  - apply find_first_some in E as [_ E]. by go_inv.
  - done.
Qed.

Lemma clamp_keeps s b : valid_bump b = true -> allows s b = true -> clamp s b = b.
Proof. intros _ H. unfold clamp. rewrite find_first_cons, H, Z.leb_refl. done. Qed.

Lemma bump_stays s b v : (length (sr_fixed s) <= 2)%nat -> allows s b = true ->
  parts_ok v -> has_room v -> on_series s v = true -> on_series s (bump v b) = true.
Proof.
  intros Hl Ha Hv Hr. rewrite bump_cases by done. rewrite !on_series_spec by done. revert Ha. unfold allows.
  destruct (sr_fixed s) as [|x [|y [|]]]; simpl in *; [done|..|lia]; repeat case_match; simpl; intros; try done; intuition.
Qed.

Lemma first_on_series s start : series_ok s ->
  on_series s (first s start) = true /\ v_pre (first s start) = "" /\ parts_ok (first s start).
Proof.
  intros (_ & Hl & Hf). unfold first.
  set (fb := Version _ _ _ _).
  assert (Hfb : on_series s fb = true /\ v_pre fb = "" /\ parts_ok fb).
  { subst fb. rewrite on_series_spec by done. unfold parts_ok, part_ok, max_int64 in *.
    destruct (sr_fixed s) as [|x [|y [|]]]; simpl in *; [split_and!; done||lia|..|lia];
      repeat match goal with H : Forall _ (_ :: _) |- _ => apply Forall_cons in H as [? H] end; split_and!; try done; lia. }
  destruct (parse_version start) as [v|] eqn:E; [|done]. destruct (_ && _) eqn:C; [|done]. go_inv.
  apply String.eqb_eq in C. apply parse_version_ok in E as (? & ? & ? & _). done.
Qed.

(** A series pattern that parses has at most two fixed leading numbers and prints as a
    pattern that parses to the same series; a bump the series allows keeps a version on it; [Clamp]
    answers a bump the series allows, and the bump itself when that is allowed; and [First] answers a
    release on the series, whatever the configured start. *)
Lemma series_laws text s :
  parse_series text = Ok s ->
  (length (sr_fixed s) <= 2)%nat
  /\ parse_series (sr_raw s) = Ok s
  /\ (forall b v, allows s b = true -> parts_ok v -> has_room v -> on_series s v = true -> on_series s (bump v b) = true)
  /\ (forall b, allows s (clamp s b) = true /\ (valid_bump b = true -> allows s b = true -> clamp s b = b))
  /\ (forall start, on_series s (first s start) = true /\ v_pre (first s start) = "").
Proof.
  intros Hs%parse_series_ok. pose proof Hs as (Hr & Hl & Hf). split_and!.
  - done.
  - rewrite Hr, parse_series_string by done. destruct s; simpl in *. by subst.
  - intros. by apply bump_stays.
  - intros b. split; [by apply clamp_allows | by apply clamp_keeps].
  - intros start. by destruct (first_on_series s start Hs) as (? & ? & _).
Qed.

#[export] Hint Resolve parse_version_ok parse_series_ok : miabi.
