(* ===== verification/GoPath.v ===== *)
(** * Go's [path.Match]

    The standard library's glob, as the program calls it: a pattern is cut into chunks at its stars,
    and each chunk is matched at the first place it fits, without going back ([path.Match] is greedy
    in that sense). A malformed pattern matches nothing. Patterns and names are read byte by byte. *)
From S2P Require Import Prelude GoStrings.
#[local] Open Scope Z_scope.
#[local] Open Scope list_scope.

(** A token of a pattern: [*], [?], a class of ranges (negated or not), or one character. *)
Inductive token : Type :=
| TStar
| TAny
| TClass (negated : bool) (ranges : list (ascii * ascii))
| TLit (c : ascii).

(** ** Reading a pattern *)

(** [getEsc]: one possibly escaped character of a class; something must follow it. *)
Definition get_esc (s : list ascii) : option (ascii * list ascii) :=
  match s with
  | [] => None
  | c :: rest =>
      if Ascii.eqb c "-" || Ascii.eqb c "]" then None
      else let s := if Ascii.eqb c "\" then rest else s in
           match s with
           | c :: (_ :: _) as rest => Some (c, List.tl s)
           | _ => None
           end
  end.

(** The ranges of a class up to its closing bracket; the fuel is the length of what is left. *)
Fixpoint class_ranges (fuel : nat) (s : list ascii) (acc : list (ascii * ascii)) : option (list (ascii * ascii) * list ascii) :=
  match fuel with
  | O => None
  | S fuel =>
      match s, acc with
      | "]"%char :: rest, _ :: _ => Some (acc, rest)
      | _, _ =>
          match get_esc s with
          | None => None
          | Some (lo, "-"%char :: rest) =>
              match get_esc rest with
              | None => None
              | Some (hi, rest) => class_ranges fuel rest (acc ++ [(lo, hi)])
              end
          | Some (lo, rest) => class_ranges fuel rest (acc ++ [(lo, lo)])
          end
      end
  end.

Fixpoint parse_pattern (fuel : nat) (s : list ascii) : option (list token) :=
  match fuel, s with
  | _, [] => Some []
  | O, _ => None
  | S fuel, c :: rest =>
      if Ascii.eqb c "*" then cons TStar <$> parse_pattern fuel rest
      else if Ascii.eqb c "?" then cons TAny <$> parse_pattern fuel rest
      else if Ascii.eqb c "[" then
        let '(negated, rest) := match rest with "^"%char :: r => (true, r) | _ => (false, rest) end in
        match class_ranges (S (length rest)) rest [] with
        | None => None
        | Some (ranges, rest) => cons (TClass negated ranges) <$> parse_pattern fuel rest
        end
      else if Ascii.eqb c "\" then
        match rest with
        | [] => None
        | d :: rest => cons (TLit d) <$> parse_pattern fuel rest
        end
      else cons (TLit c) <$> parse_pattern fuel rest
  end.

(** ** Matching *)

Definition in_ranges (c : ascii) (ranges : list (ascii * ascii)) : bool :=
  existsb (fun '(lo, hi) => (byte_code lo <=? byte_code c) && (byte_code c <=? byte_code hi)) ranges.

Definition token_matches (t : token) (c : ascii) : bool :=
  match t with
  | TStar => false
  | TAny => negb (Ascii.eqb c "/")
  | TClass negated ranges => xorb negated (in_ranges c ranges)
  | TLit d => Ascii.eqb d c
  end.

(** [matchChunk]: what is left of the name after a chunk without stars. *)
Fixpoint match_chunk (chunk : list token) (name : list ascii) : option (list ascii) :=
  match chunk, name with
  | [], _ => Some name
  | t :: chunk, c :: name => if token_matches t c then match_chunk chunk name else None
  | _ :: _, [] => None
  end.

(** The first place at or after the start of [name] the chunk fits, what is skipped holding no slash. *)
Fixpoint match_star (chunk : list token) (last : bool) (name : list ascii) : option (list ascii) :=
  match match_chunk chunk name with
  | Some rest => if negb last || match rest with [] => true | _ => false end then Some rest else
      match name with
      | c :: name' => if Ascii.eqb c "/" then None else match_star chunk last name'
      | [] => None
      end
  | None =>
      match name with
      | c :: name' => if Ascii.eqb c "/" then None else match_star chunk last name'
      | [] => None
      end
  end.

(** [scanChunk] over the tokens: each chunk, and whether stars come before it. *)
Fixpoint chunks (tokens : list token) : list (bool * list token) :=
  match tokens with
  | [] => []
  | TStar :: tokens =>
      match chunks tokens with
      | (false, chunk) :: rest => (true, chunk) :: rest
      | (true, chunk) :: rest => (true, chunk) :: rest
      | [] => [(true, [])]
      end
  | t :: tokens =>
      match chunks tokens with
      | (false, chunk) :: rest => (false, t :: chunk) :: rest
      | rest => (false, [t]) :: rest
      end
  end.

Fixpoint match_chunks (l : list (bool * list token)) (name : list ascii) : bool :=
  match l with
  | [] => match name with [] => true | _ => false end
  | (star, chunk) :: rest =>
      let last := match rest with [] => true | _ => false end in
      if star && match chunk with [] => true | _ => false end then negb (existsb (fun c => Ascii.eqb c "/") name)
      else if star then
        match match_star chunk last name with
        | Some name => match_chunks rest name
        | None => false
        end
      else match match_chunk chunk name with
           | Some name' => match_chunks rest name'
           | None => false
           end
  end.

(** [path.Match], an error reading as no match *)
Definition path_match (pattern name : string) : bool :=
  match parse_pattern (String.length pattern) (chars pattern) with
  | Some tokens => match_chunks (chunks tokens) (chars name)
  | None => false
  end.

Example match_prefix : path_match "release/*" "release/1.4" = true /\ path_match "release/*" "release/1.4/x" = false.
Proof. done. Qed.
Example match_class : path_match "v[0-9].[!x]*" "v1.!abc" = true /\ path_match "[]a]" "a" = false /\ path_match "a*b*c" "aXbYbZc" = true.
Proof. done. Qed.
Example match_greedy : path_match "*[^a]b*c" "xb/bc" = false /\ path_match "\*" "*" = true /\ path_match "a?" "a/" = false.
Proof. done. Qed.

(** A pattern without special characters matches itself only. *)
Definition plain_char (c : ascii) : bool :=
  negb (Ascii.eqb c "*" || Ascii.eqb c "?" || Ascii.eqb c "[" || Ascii.eqb c "\").

Lemma parse_plain fuel l : forallb plain_char l = true -> (length l <= fuel)%nat ->
  parse_pattern fuel l = Some (TLit <$> l).
Proof.
  revert fuel. induction l as [|c l IH]; intros fuel; [by destruct fuel|].
  destruct fuel as [|fuel]; simpl; [lia|]. intros Hp Hl. apply andb_true_iff in Hp as [Hc Hp].
  unfold plain_char in Hc. apply negb_true_iff in Hc.
  apply orb_false_iff in Hc as [[[H1 H2]%orb_false_iff H3]%orb_false_iff H4].
  rewrite H1, H2, H3, H4, IH by (done || lia). done.
Qed.

Lemma chunks_plain l : l <> [] -> chunks (TLit <$> l) = [(false, TLit <$> l)].
Proof.
  induction l as [|c l IH]; [done|]. intros _. destruct l as [|d l]; [done|].
  change (chunks (TLit <$> c :: d :: l)) with
    (match chunks (TLit <$> d :: l) with (false, chunk) :: rest => (false, TLit c :: chunk) :: rest
     | rest => (false, [TLit c]) :: rest end).
  by rewrite IH.
Qed.

Lemma match_literals l name : match_chunk (TLit <$> l) name = Some [] <-> name = l.
Proof.
  revert name. induction l as [|c l IH]; intros [|d name]; simpl; try done.
  destruct (Ascii.eqb_spec c d) as [->|Hne]; [rewrite IH; split; congruence | split; congruence].
Qed.

Lemma path_match_plain p name : str_forall plain_char p = true -> path_match p name = String.eqb name p.
Proof.
  intros Hp. unfold path_match.
  assert (Hf : forallb plain_char (chars p) = true).
  { clear name. induction p as [|c p IH]; simpl in *; [done|]. apply andb_true_iff in Hp as [-> Hp]. by rewrite IH. }
  assert (Hl : length (chars p) = String.length p) by (clear; induction p; simpl; congruence).
  rewrite (parse_plain _ _ Hf) by lia.
  apply eq_bool_prop_intro. rewrite !Is_true_true, String.eqb_eq.
  assert (Hinj : chars name = chars p <-> name = p).
  { split; [|congruence]. intros E. by rewrite <- (String.string_of_list_ascii_of_string name), E,
      String.string_of_list_ascii_of_string. }
  rewrite <- Hinj. destruct (chars p) as [|c l] eqn:E.
  - simpl. by destruct (chars name).
  - rewrite chunks_plain, <- match_literals by done. change (TLit <$> c :: l) with (TLit c :: (TLit <$> l)).
    generalize (TLit <$> l). intros ts.
    cbn [match_chunks andb]. destruct (match_chunk (TLit c :: ts) (chars name)) as [[|]|]; cbn; split; intros; simplify_eq; done.
Qed.
