(* ===== verification/VersionRender.v ===== *)
(** * Image tags and branch names

    [internal/services/versioning/render.go]: how a version becomes an image tag, how a branch name
    becomes part of a prerelease, the date part of a calver version, and the bump a commit message asks
    for. [prerelease_branch] reads its branch byte by byte where the code reads it rune by rune; a
    non-ASCII character is one dash there and several here, and repeated dashes are collapsed. *)
From S2P Require Import Prelude GoStrings GoTime GoPath Semver.
#[local] Open Scope Z_scope.
#[local] Open Scope list_scope.

Definition default_template : string := "v{version}".

(** ** Tags *)

Definition tag_head_char (c : ascii) : bool := is_lower c || is_upper c || is_digit c || Ascii.eqb c "_".
Definition tag_char (c : ascii) : bool := tag_head_char c || Ascii.eqb c "." || Ascii.eqb c "-".

(** [dockerTag]: the expression [^[A-Za-z0-9_][A-Za-z0-9_.-]{0,127}$] *)
Definition docker_tag (s : string) : bool :=
  match s with
  | EmptyString => false
  | String c rest => tag_head_char c && str_forall tag_char rest && Nat.leb (String.length rest) 127
  end.

Record tag_vars := TagVars { tv_version : string; tv_major : string; tv_minor : string; tv_patch : string; tv_sha : string }.

Definition short_sha (commit : string) : string :=
  if Nat.ltb 7 (String.length commit) then str_take 7 commit else commit.

Definition semver_vars (v : version) (commit : string) : tag_vars :=
  TagVars (version_string v) (itoa (v_major v)) (itoa (v_minor v)) (itoa (v_patch v)) (short_sha commit).

(** [strings.NewReplacer]: at each place the first pair whose old string fits is replaced, and the
    replacement is not read again. [skip] counts the characters of an old string still to be passed. *)
Fixpoint replace_from (pairs : list (string * string)) (skip : nat) (s : string) : string :=
  match s with
  | EmptyString => EmptyString
  | String c s' =>
      match skip with
      | S skip => replace_from pairs skip s'
      | O =>
          match find_first (fun '(old, _) => has_prefix old s) pairs with
          | Some (old, new) => new +:+ replace_from pairs (String.length old - 1) s'
          | None => String c (replace_from pairs 0 s')
          end
      end
  end.

Definition render (tmpl : string) (v : tag_vars) : string :=
  replace_from [("{version}", tv_version v); ("{major}", tv_major v); ("{minor}", tv_minor v);
    ("{patch}", tv_patch v); ("{sha}", tv_sha v)] 0 tmpl.

Definition render_tag (tmpl : string) (v : tag_vars) : result version_error string :=
  let tag := render tmpl v in
  if docker_tag tag then Ok tag else Err ErrInvalidTag.

Definition validate_template (tmpl : string) : result version_error unit :=
  if negb (contains "{version}" tmpl) then Err ErrInvalidTag
  else let? _ := render_tag tmpl (TagVars "1.0.0-x.1" "1" "0" "0" "abcdef0") in Ok tt.

Fixpoint validate_floating (tags : list string) : result version_error unit :=
  match tags with
  | [] => Ok tt
  | t :: tags =>
      if contains "{version}" t || contains "{patch}" t || contains "{sha}" t then Err ErrInvalidTag
      else if has_prefix "run-" t || has_prefix "cache-" t then Err ErrInvalidTag
      else let? _ := render_tag t (TagVars "" "1" "0" "" "") in validate_floating tags
  end.

(** ** Branches *)

Definition max_branch_part : nat := 40.

Definition branch_char (c : ascii) : ascii := if is_lower c || is_digit c then c else "-"%char.

(** [strings.ReplaceAll(s, "--", "-")] *)
Fixpoint replace_dashes (s : string) : string :=
  match s with
  | String c (String d s' as r) =>
      if Ascii.eqb c "-" && Ascii.eqb d "-" then String "-" (replace_dashes s') else String c (replace_dashes r)
  | _ => s
  end.

(** The loop [for strings.Contains(s, "--")]. *)
Fixpoint collapse_dashes (fuel : nat) (s : string) : string :=
  match fuel with
  | O => s
  | S fuel => if contains "--" s then collapse_dashes fuel (replace_dashes s) else s
  end.

Definition prerelease_branch (branch : string) : string :=
  let s := trim_char "-" (str_map branch_char (to_lower (trim_space branch))) in
  let s := collapse_dashes (String.length s) s in
  let s := if Nat.ltb max_branch_part (String.length s) then trim_right_char "-" (str_take max_branch_part s) else s in
  if String.eqb s "" then "branch" else s.

Definition branch_matches (patterns : list string) (branch : string) : bool :=
  existsb (fun p => path_match p branch) patterns.

(** ** Dates *)

Definition calver_formats : list string := ["YYYY.MM"; "YYYY.0M"; "YY.MM"; "YYYY.MM.DD"].
Definition default_calver_format : string := "YYYY.MM".

Definition calver_prefix (format : string) (now : instant) : result version_error string :=
  if String.eqb format "" || String.eqb format "YYYY.MM" then Ok (itoa (year now) +:+ "." +:+ itoa (month now))
  else if String.eqb format "YYYY.0M" then Ok (itoa (year now) +:+ "." +:+ pad 2 (month now))
  else if String.eqb format "YY.MM" then Ok (itoa (Z.rem (year now) 100) +:+ "." +:+ itoa (month now))
  else if String.eqb format "YYYY.MM.DD" then
    Ok (itoa (year now) +:+ "." +:+ itoa (month now) +:+ "." +:+ itoa (day now))
  else Err ErrInvalidSettings.

(** ** Commits *)

Fixpoint span (p : ascii -> bool) (s : string) : string * string :=
  match s with
  | EmptyString => (EmptyString, EmptyString)
  | String c s' => if p c then let '(a, b) := span p s' in (String c a, b) else (EmptyString, s)
  end.

Definition is_letter (c : ascii) : bool := is_lower c || is_upper c.

(** [conventionalHeader]: [^([a-zA-Z]+)(\([^)]*\))?(!)?:], answering the type and whether [!] is there. *)
Definition conventional_header (s : string) : option (string * bool) :=
  match span is_letter s with
  | (EmptyString, _) => None
  | (typ, rest) =>
      let rest := match rest with
                  | String "(" r => match cut ")" r with (_, r, true) => r | _ => rest end
                  | _ => rest
                  end in
      match rest with
      | String "!" (String ":" _) => Some (typ, true)
      | String ":" _ => Some (typ, false)
      | _ => None
      end
  end.

Definition bump_from_commit (msg : string) : option string :=
  let msg := trim_space msg in
  let '(subject, body, _) := cut "010" msg in
  match conventional_header subject with
  | None => None
  | Some (typ, bang) =>
      if bang || contains "BREAKING CHANGE" body || contains "BREAKING-CHANGE" body then Some bump_major
      else if equal_fold typ "feat" then Some bump_minor
      else Some bump_patch
  end.

Example render_example : render_tag default_template (semver_vars (Version 1 4 2 "") "0123456789") = Ok "v1.4.2".
Proof. reflexivity. Qed.
Example render_once : render "{sha}-{version}" (TagVars "{sha}" "" "" "" "abc") = "abc-{sha}".
Proof. reflexivity. Qed.
Example branch_example : prerelease_branch "feat/Login__UI " = "feat-login-ui" /\ prerelease_branch "///" = "branch".
Proof. split; reflexivity. Qed.
Example commit_example : bump_from_commit "feat(api)!: drop v1" = Some bump_major /\ bump_from_commit "Feat: x" = Some bump_minor
  /\ bump_from_commit "wip" = None /\ bump_from_commit "fix: x" = Some bump_patch.
Proof. split_and!; reflexivity. Qed.
Example calver_example : calver_prefix "YYYY.0M" ((738944 * day_seconds) * second) = Ok "2024.02".
Proof. reflexivity. Qed.

(** * Facts *)

(** ** The branch part of a prerelease *)

Definition branch_part_char (c : ascii) : bool := is_lower c || is_digit c || Ascii.eqb c "-".

Lemma replace_dashes_step c d s :
  replace_dashes (String c (String d s)) =
  if Ascii.eqb c "-" && Ascii.eqb d "-" then String "-" (replace_dashes s) else String c (replace_dashes (String d s)).
Proof. done. Qed.

Lemma contains_dd_step c d s :
  contains "--" (String c (String d s)) = (Ascii.eqb "-" c && Ascii.eqb "-" d) || contains "--" (String d s).
Proof.
  change (has_prefix "--" (String c (String d s)) || contains "--" (String d s) =
    (Ascii.eqb "-" c && Ascii.eqb "-" d) || contains "--" (String d s)).
  f_equal. unfold has_prefix. cbn [cut_prefix]. destruct (Ascii.eqb "-" c), (Ascii.eqb "-" d); done.
Qed.

Lemma contains_dd_one c : contains "--" (String c "") = false.
Proof.
  change (has_prefix "--" (String c "") || false = false). unfold has_prefix. cbn [cut_prefix].
  by destruct (Ascii.eqb "-" c).
Qed.

(** Induction on a string two characters at a time. *)
Lemma string_ind2 (P : string -> Prop) :
  P "" -> (forall c, P (String c "")) -> (forall c d s, P s -> P (String d s) -> P (String c (String d s))) ->
  forall s, P s.
Proof.
  intros H0 H1 H2 s. cut (P s /\ forall c, P (String c s)); [tauto|].
  induction s as [|d s [IH1 IH2]]; [auto|]. split; [auto|]. intros c. by apply H2.
Qed.

Lemma replace_dashes_length s :
  (String.length (replace_dashes s) <= String.length s)%nat
  /\ (contains "--" s = true -> (String.length (replace_dashes s) < String.length s)%nat).
Proof.
  induction s as [|c|c d s [IH1 _] [IH2 IH3]] using string_ind2; [done| |].
  - by rewrite contains_dd_one.
  - rewrite replace_dashes_step, contains_dd_step, (Ascii.eqb_sym "-" c), (Ascii.eqb_sym "-" d).
    destruct (_ && _); simpl in *; (split; [lia|]); [lia|]. intros H. specialize (IH3 H). lia.
Qed.

Lemma collapse_dashes_done fuel s :
  (String.length s <= fuel)%nat -> contains "--" (collapse_dashes fuel s) = false.
Proof.
  revert s. induction fuel as [|fuel IH]; intros s Hl; simpl.
  - by destruct s; [|simpl in Hl; lia].
  - destruct (contains "--" s) eqn:E; [|done]. apply IH. apply replace_dashes_length in E. lia.
Qed.

(** What a step of [prereleaseBranch] keeps: the characters, and that neither end is a dash. *)
Definition no_dash_ends (s : string) : Prop := trim_char "-" s = s.

Definition head_not_dash (s : string) : bool := match s with String c _ => negb (Ascii.eqb "-" c) | _ => true end.
Definition end_trimmed (s : string) : Prop := trim_right_char "-" s = s.

Lemma no_dash_ends_split s : no_dash_ends s <-> head_not_dash s = true /\ end_trimmed s.
Proof.
  unfold no_dash_ends, end_trimmed, trim_char, trim_right_char. destruct s as [|c s]; [done|].
  cbn [drop_while head_not_dash]. destruct (Ascii.eqb "-" c) eqn:E; simpl negb; [|intuition].
  split; [|intros [? _]; done]. intros H. exfalso.
  assert (Hl : forall t, (String.length (drop_while (Ascii.eqb "-") t) <= String.length t)%nat).
  { clear. induction t as [|d t IH]; cbn [drop_while String.length]; [done|]. destruct (Ascii.eqb "-" d); cbn [String.length]; lia. }
  specialize (Hl s). pose proof (drop_end_while_length (Ascii.eqb "-") (drop_while (Ascii.eqb "-") s)) as Hl2.
  rewrite H in Hl2. cbn [String.length] in Hl2. lia.
Qed.

Lemma end_trimmed_cons c d s : end_trimmed (String c (String d s)) <-> end_trimmed (String d s).
Proof.
  unfold end_trimmed, trim_right_char.
  change (drop_end_while (Ascii.eqb "-") (String c (String d s))) with
    (match drop_end_while (Ascii.eqb "-") (String d s) with
     | EmptyString => if Ascii.eqb "-" c then "" else String c ""
     | t => String c t
     end).
  split; intros H.
  - destruct (drop_end_while (Ascii.eqb "-") (String d s)) as [|x t]; [by destruct (Ascii.eqb "-" c)|congruence].
  - by rewrite H.
Qed.

Lemma end_trimmed_one c : end_trimmed (String c "") <-> Ascii.eqb "-" c = false.
Proof. unfold end_trimmed, trim_right_char. cbn [drop_end_while]. by destruct (Ascii.eqb "-" c). Qed.

Lemma replace_dashes_keeps p s : str_forall p s = true -> str_forall p (replace_dashes s) = true.
Proof.
  induction s as [|c|c d s IH1 IH2] using string_ind2; [done..|]. rewrite replace_dashes_step.
  intros [Hc Hr]%andb_true_iff. pose proof Hr as [Hd Hs]%andb_true_iff.
  destruct (Ascii.eqb c "-" && Ascii.eqb d "-") eqn:E; cbn [str_forall].
  - apply andb_true_iff in E as [Ec%Ascii.eqb_eq _]. subst c. by rewrite Hc, IH1.
  - rewrite Hc. simpl. by apply IH2.
Qed.

Lemma replace_dashes_not_nil c s : replace_dashes (String c s) <> "".
Proof. destruct s as [|d s]; [done|]. rewrite replace_dashes_step. by destruct (_ && _). Qed.

Lemma replace_dashes_head s : head_not_dash s = true -> head_not_dash (replace_dashes s) = true.
Proof.
  destruct s as [|c [|d s]]; [done..|]. rewrite replace_dashes_step. cbn [head_not_dash]. intros H.
  rewrite (Ascii.eqb_sym c "-"). destruct (Ascii.eqb "-" c) eqn:E; [done|]. cbn [andb head_not_dash]. by rewrite E.
Qed.

Lemma replace_dashes_end s : end_trimmed s -> end_trimmed (replace_dashes s).
Proof.
  induction s as [|c|c d s IH1 IH2] using string_ind2; [done..|].
  rewrite end_trimmed_cons, replace_dashes_step. intros H.
  assert (Hcons : forall x t, t <> "" -> end_trimmed t -> end_trimmed (String x t)).
  { intros x [|y t] Ht He; [done|]. by apply end_trimmed_cons. }
  destruct (_ && _) eqn:E.
  - apply andb_true_iff in E as [_ Ed%Ascii.eqb_eq]. subst d.
    destruct s as [|x s]; [by apply end_trimmed_one in H|].
    apply Hcons; [apply replace_dashes_not_nil|]. apply IH1. by apply end_trimmed_cons in H.
  - apply Hcons; [apply replace_dashes_not_nil|]. by apply IH2.
Qed.

Lemma collapse_dashes_inv (P : string -> Prop) fuel s :
  (forall s, P s -> P (replace_dashes s)) -> P s -> P (collapse_dashes fuel s).
Proof. intros Hstep. revert s. induction fuel as [|fuel IH]; intros s Hs; simpl; [done|]. case_match; auto. Qed.

Lemma trim_char_idem c s : trim_char c (trim_char c s) = trim_char c s.
Proof.
  unfold trim_char. set (t := drop_while (Ascii.eqb c) s).
  assert (Ht : match t with EmptyString => True | String d _ => Ascii.eqb c d = false end).
  { subst t. induction s as [|d s IH]; cbn [drop_while]; [done|]. by destruct (Ascii.eqb c d) eqn:E. }
  replace (drop_while (Ascii.eqb c) (drop_end_while (Ascii.eqb c) t)) with (drop_end_while (Ascii.eqb c) t);
    [apply drop_end_while_idem|].
  destruct t as [|d t]; [done|]. cbn [drop_end_while].
  destruct (drop_end_while (Ascii.eqb c) t); [rewrite Ht|]; cbn [drop_while]; by rewrite Ht.
Qed.

(** ** Prefixes *)

Lemma str_take_prefix n s : exists rest, s = str_take n s +:+ rest.
Proof.
  unfold str_take. revert s. induction n as [|n IH]; intros [|c s]; [by exists ""|by eexists|by exists ""|].
  destruct (IH s) as [rest E]. exists rest. cbn [String.substring]. by rewrite E at 1.
Qed.

Lemma drop_end_while_prefix p s : exists rest, s = drop_end_while p s +:+ rest.
Proof.
  induction s as [|c s [rest E]]; [by exists ""|]. cbn [drop_end_while].
  destruct (drop_end_while p s) as [|d t].
  - destruct (p c); [by eexists|]. exists s. done.
  - exists rest. by rewrite E at 1.
Qed.

Lemma str_take_length n s : (String.length (str_take n s) <= n)%nat.
Proof. unfold str_take. revert s. induction n as [|n IH]; intros [|c s]; simpl; try lia. specialize (IH s). lia. Qed.

Lemma contains_dd_prefix a b : contains "--" (a +:+ b) = false -> contains "--" a = false.
Proof.
  induction a as [|c|c d a IH1 IH2] using string_ind2; [done|by rewrite contains_dd_one|].
  change (String c (String d a) +:+ b) with (String c (String d (a +:+ b))). rewrite !contains_dd_step.
  intros [-> H]%orb_false_iff. simpl. by apply IH2.
Qed.

Lemma str_forall_prefix p a b : str_forall p (a +:+ b) = true -> str_forall p a = true.
Proof. rewrite str_forall_app. intros. by go_inv. Qed.

Lemma head_not_dash_prefix a b : head_not_dash (a +:+ b) = true -> head_not_dash a = true.
Proof. by destruct a. Qed.

Lemma drop_while_keeps p q s : str_forall p s = true -> str_forall p (drop_while q s) = true.
Proof. induction s as [|c s IH]; simpl; [done|]. intros. go_inv. destruct (q c); simpl; [auto|]. by rewrite H, H0. Qed.

Lemma branch_chars s : str_forall branch_part_char (str_map branch_char s) = true.
Proof.
  induction s as [|c s IH]; simpl; [done|]. rewrite IH, andb_true_r. unfold branch_char.
  destruct (is_lower c || is_digit c) eqn:E; [|done]. unfold branch_part_char. by rewrite E.
Qed.

Lemma is_lower_not_dot c : branch_part_char c = true -> Ascii.eqb c "." = false.
Proof.
  unfold branch_part_char. rewrite !orb_true_iff, Ascii.eqb_eq. intros H. apply Ascii.eqb_neq. intros ->.
  destruct H as [[H|H]|H]; done.
Qed.

(** Whatever the branch is called, its part of a prerelease is not empty, is
    at most 40 characters of [a-z0-9-], neither begins nor ends with a dash and has no two dashes in a
    row; so it is a single identifier, and the loop that collapses dashes ends. *)
Lemma prerelease_branch_clean branch :
  let s := prerelease_branch branch in
  s <> "" /\ (String.length s <= max_branch_part)%nat /\ str_forall branch_part_char s = true
  /\ trim_char "-" s = s /\ contains "--" s = false /\ split "." s = [s].
Proof.
  intros s. cut (s <> "" /\ (String.length s <= max_branch_part)%nat /\ str_forall branch_part_char s = true
    /\ head_not_dash s = true /\ end_trimmed s /\ contains "--" s = false).
  { intros (? & ? & Hf & ? & ? & ?). split_and!; try done; [by apply no_dash_ends_split|].
    apply split_none. eapply str_forall_impl; [|exact Hf]. intros c Hc. unfold without.
    by rewrite is_lower_not_dot. }
  subst s. unfold prerelease_branch. set (t := str_map _ _).
  assert (Ht : str_forall branch_part_char t = true) by apply branch_chars.
  set (u := trim_char "-" t).
  assert (Hu : str_forall branch_part_char u = true /\ head_not_dash u = true /\ end_trimmed u).
  { split; [|apply no_dash_ends_split; apply trim_char_idem].
    subst u. unfold trim_char. destruct (drop_end_while_prefix (Ascii.eqb "-") (drop_while (Ascii.eqb "-") t)) as [rest E].
    eapply str_forall_prefix. rewrite <- E. by apply drop_while_keeps. }
  set (v := collapse_dashes (String.length u) u).
  assert (Hv : str_forall branch_part_char v = true /\ head_not_dash v = true /\ end_trimmed v).
  { apply (collapse_dashes_inv (fun v => str_forall branch_part_char v = true /\ head_not_dash v = true /\ end_trimmed v)); [|done].
    intros w (? & ? & ?). split_and!; auto using replace_dashes_keeps, replace_dashes_head, replace_dashes_end. }
  assert (Hd : contains "--" v = false) by (by apply collapse_dashes_done).
  destruct Hv as (Hv1 & Hv2 & Hv3).
  set (w := if Nat.ltb max_branch_part (String.length v) then _ else v).
  assert (Hw : (String.length w <= max_branch_part)%nat /\ str_forall branch_part_char w = true
    /\ head_not_dash w = true /\ end_trimmed w /\ contains "--" w = false).
  { subst w. destruct (Nat.ltb_spec max_branch_part (String.length v)) as [_|Hle]; [|split_and!; done||lia].
    destruct (str_take_prefix max_branch_part v) as [r1 E1].
    destruct (drop_end_while_prefix (Ascii.eqb "-") (str_take max_branch_part v)) as [r2 E2].
    unfold trim_right_char. set (x := drop_end_while _ _) in *. rewrite E2, <- str_app_assoc in E1.
    split_and!.
    - pose proof (drop_end_while_length (Ascii.eqb "-") (str_take max_branch_part v)).
      pose proof (str_take_length max_branch_part v). subst x. lia.
    - eapply str_forall_prefix. by rewrite <- E1.
    - eapply head_not_dash_prefix. by rewrite <- E1.
    - apply drop_end_while_idem.
    - eapply contains_dd_prefix. by rewrite <- E1. }
  destruct Hw as (? & ? & ? & ? & ?). destruct (String.eqb_spec w ""); [|by split_and!].
  split_and!; try done. unfold max_branch_part. simpl. lia.
Qed.
