(* ===== verification/VersionNext.v ===== *)
(** * The next version of a policy

    [internal/services/versioning/next.go]: the version and tag a run receives, given every live
    allocation of its policy. *)
From S2P Require Import Prelude GoStrings GoTime GoPath Semver VersionRender.
#[local] Open Scope Z_scope.
#[local] Open Scope list_scope.

Definition scheme_semver : string := "semver".
Definition scheme_calver : string := "calver".
Definition scheme_run : string := "run".
Definition other_branches_prerelease : string := "prerelease".
Definition other_branches_run_tag : string := "run-tag".
Definition default_series : string := "1.x.x".
Definition default_start : string := "1.0.0".

(** [models.VersionPolicy], its settings and what the service keeps of it *)
Record policy := Policy {
  vp_id : N; vp_scheme : string; vp_template : string; vp_series : string; vp_bump : string; vp_start : string;
  vp_calver_format : string; vp_release_branches : list string; vp_other_branches : string;
  vp_branch_series : gmap string string; vp_floating_tags : list string; vp_bump_from_commits : bool;
  vp_managed_by : string; vp_current : string }.

Inductive allocation_status : Type := AllocationReserved | AllocationPublished | AllocationAbandoned.
#[export] Instance allocation_status_eq_dec : EqDecision allocation_status.
Proof. solve_decision. Defined.

(** [models.VersionAllocation] *)
Record allocation := Allocation {
  al_id : N; al_version : string; al_tag : string; al_series : string; al_branch : string;
  al_prerelease : bool; al_bump : string; al_exact : bool; al_status : allocation_status;
  al_run : N; al_digest : string; al_note : string }.

(** [Request] *)
Record request := Request {
  rq_branch : string; rq_commit : string; rq_commit_message : string; rq_bump : string; rq_exact : string;
  rq_now : instant }.

(** [Plan] *)
Record plan := Plan {
  pl_skip : bool; pl_version : string; pl_tag : string; pl_series : string; pl_branch : string;
  pl_prerelease : bool; pl_bump : string; pl_exact : bool; pl_note : string }.
Definition skip_plan : plan := Plan true "" "" "" "" false "" false "".

(** ** Branches and series *)

Definition sorted_keys (m : gmap string string) : list string := sort_strings ((map_to_list m).*1).

Definition is_release_branch (p : policy) (branch : string) : bool :=
  if String.eqb branch "" || match vp_release_branches p with [] => true | _ => false end then true
  else branch_matches (vp_release_branches p) branch || branch_matches (sorted_keys (vp_branch_series p)) branch.

Definition series_for (p : policy) (branch : string) : result version_error series :=
  match find_first (fun pattern => negb (String.eqb branch "") && branch_matches [pattern] branch)
          (sorted_keys (vp_branch_series p)) with
  | Some pattern => parse_series (default "" (vp_branch_series p !! pattern))
  | None => parse_series (if String.eqb (vp_series p) "" then default_series else vp_series p)
  end.

(** One turn of the loop of [seriesHead]. *)
Definition head_step (s : series) (head : option version) (a : allocation) : option version :=
  if al_prerelease a then head
  else match parse_version (al_version a) with
       | Err _ => head
       | Ok v =>
           if negb (String.eqb (v_pre v) "") || negb (on_series s v) then head
           else match head with
                | None => Some v
                | Some h => if 0 <? compare v h then Some v else head
                end
       end.

Definition series_head (s : series) (existing : list allocation) : option version :=
  foldl (head_step s) None existing.

(** ** Numbers *)

Definition used (existing : list allocation) (v : string) : bool :=
  existsb (fun a => String.eqb (al_version a) v) existing.

(** The highest number after a prefix, among the allocations the loop looks at; 0 without one. *)
Definition count_step (keep : allocation -> bool) (prefix : string) (n : Z) (a : allocation) : Z :=
  if keep a then
    match cut_prefix prefix (al_version a) with
    | Some rest => match atoi rest with Some k => if n <? k then k else n | None => n end
    | None => n
    end
  else n.
Definition highest (keep : allocation -> bool) (prefix : string) (existing : list allocation) : Z :=
  foldl (count_step keep prefix) 0 existing.

Definition prerelease_id (base : version) (branch : string) (existing : list allocation) : string :=
  let id := prerelease_branch branch in
  let prefix := version_string (version_core base) +:+ "-" +:+ id +:+ "." in
  id +:+ "." +:+ itoa (wrap64 (highest (fun _ => true) prefix existing + 1)).

(** ** Semver *)

Definition choose_bump (p : policy) (s : series) (req : request) : result version_error (string * string) :=
  if negb (String.eqb (rq_bump req) "") then
    if negb (valid_bump (rq_bump req)) then Err ErrInvalidSettings
    else if negb (allows s (rq_bump req)) then Err ErrBumpOutsideSeries
    else Ok (rq_bump req, "")
  else
    let want := if valid_bump (vp_bump p) then vp_bump p else bump_patch in
    let '(want, source) :=
      match (if vp_bump_from_commits p then bump_from_commit (rq_commit_message req) else None) with
      | Some b => (b, "commit")
      | None => (want, "policy")
      end in
    let got := clamp s want in
    if negb (String.eqb got want) then
      Ok (got, source +:+ " bump " +:+ want +:+ " lowered to " +:+ got +:+ " to stay on " +:+ sr_raw s)
    else Ok (got, "").

(** The [switch] of [nextSemver]: the release to build, its bump, whether it was set by hand, and the note. *)
Definition next_release (p : policy) (s : series) (existing : list allocation) (req : request)
  : result version_error (version * string * bool * string) :=
  let head := series_head s existing in
  if negb (String.eqb (rq_exact req) "") then
    let? v := parse_version (rq_exact req) in
    if negb (String.eqb (v_pre v) "") then Err ErrInvalidVersion
    else if negb (on_series s v) then Err ErrOutsideSeries
    else if match head with Some h => compare v h <=? 0 | None => false end then Err ErrNotGreater
    else if used existing (version_string v) then Err ErrVersionTaken
    else Ok (v, "", true, "")
  else match head with
       | None => Ok (first s (vp_start p), vp_bump p, false, "")
       | Some h => let? (b, note) := choose_bump p s req in Ok (bump h b, b, false, note)
       end.

Definition template_of (p : policy) : string :=
  if String.eqb (vp_template p) "" then default_template else vp_template p.

Definition next_semver (p : policy) (existing : list allocation) (req : request) (release : bool)
  : result version_error plan :=
  let? s := series_for p (rq_branch req) in
  if negb release && (negb (String.eqb (rq_exact req) "") || negb (String.eqb (rq_bump req) "")) then
    Err ErrOverrideNotSupported
  else
    let? (v, b, exact, note) := next_release p s existing req in
    let v := if release then v
             else Version (v_major v) (v_minor v) (v_patch v) (prerelease_id v (rq_branch req) existing) in
    let? tag := render_tag (template_of p) (semver_vars v (rq_commit req)) in
    Ok (Plan false (version_string v) tag (sr_raw s) (rq_branch req) (negb release) b exact note).

(** ** Calver *)

(** [clock] is what [time.Now] answers, for a request without a time. *)
Definition next_calver (clock : instant) (p : policy) (existing : list allocation) (req : request) (release : bool)
  : result version_error plan :=
  if negb (String.eqb (rq_bump req) "") || negb (String.eqb (rq_exact req) "") then Err ErrOverrideNotSupported
  else
    let now := if is_zero_time (rq_now req) then clock else rq_now req in
    let? prefix := calver_prefix (vp_calver_format p) now in
    let n := highest (fun a => negb (al_prerelease a)) (prefix +:+ ".") existing in
    let v := prefix +:+ "." +:+ itoa (wrap64 (n + 1)) in
    let v := if release then v
             else let id := prerelease_branch (rq_branch req) in
                  let k := highest (fun _ => true) (v +:+ "-" +:+ id +:+ ".") existing in
                  v +:+ "-" +:+ id +:+ "." +:+ itoa (wrap64 (k + 1)) in
    let? tag := render_tag (template_of p) (TagVars v "" "" "" (short_sha (rq_commit req))) in
    Ok (Plan false v tag "" (rq_branch req) (negb release) "" false "").

(** [Next] *)
Definition next (clock : instant) (p : policy) (existing : list allocation) (req : request) : result version_error plan :=
  let release := is_release_branch p (rq_branch req) in
  if negb release && String.eqb (vp_other_branches p) other_branches_run_tag then Ok skip_plan
  else if String.eqb (vp_scheme p) scheme_semver then next_semver p existing req release
  else if String.eqb (vp_scheme p) scheme_calver then next_calver clock p existing req release
  else if negb (String.eqb (rq_bump req) "") || negb (String.eqb (rq_exact req) "") then Err ErrOverrideNotSupported
  else Ok skip_plan.

(** ** Groups *)

Definition group_key (a : allocation) : string :=
  if al_prerelease a then "pre|" +:+ (cut "-" (al_version a)).1.1 +:+ "|" +:+ al_branch a
  else if negb (String.eqb (al_series a) "") then "series|" +:+ al_series a
  else match before_last "." (al_version a) with
       | None => "cal|" +:+ al_version a
       | Some prefix => "cal|" +:+ prefix
       end.

Definition is_head (a : allocation) (existing : list allocation) : bool :=
  negb (existsb (fun o => negb (al_id o =? al_id a)%N && (al_id a <? al_id o)%N && String.eqb (group_key o) (group_key a)) existing).

(** ** Preview *)

Definition preview_row (pl : plan) : allocation :=
  Allocation 0 (pl_version pl) "" (pl_series pl) (pl_branch pl) (pl_prerelease pl) "" false AllocationReserved 0 "" "".

(** The [count] turns of the loop of [Preview]. *)
Fixpoint preview_loop (count : nat) (clock : instant) (p : policy) (sim : list allocation) (branch : string) (now : instant)
    (out : list plan) : result version_error (list plan) :=
  match count with
  | O => Ok out
  | S count =>
      let? pl := next clock p sim (Request branch "" "" "" "" now) in
      if pl_skip pl then Ok out
      else preview_loop count clock p (sim ++ [preview_row pl]) branch now (out ++ [pl])
  end.
Definition preview (clock : instant) (p : policy) (existing : list allocation) (branch : string) (count : Z) (now : instant)
  : result version_error (list plan) :=
  preview_loop (Z.to_nat count) clock p existing branch now [].

(** * Facts *)

(** ** The rows of a policy *)

(** Every number a suffix of the string reads as leaves room for one more. *)
Fixpoint small_suffixes (s : string) : bool :=
  match atoi s with Some k => k <? max_int64 | None => true end
  && match s with EmptyString => true | String _ s' => small_suffixes s' end.

Definition roomy (v : version) : bool :=
  (v_major v <? max_int64) && (v_minor v <? max_int64) && (v_patch v <? max_int64).

(** A stored row: a prerelease has a dash in its version, and its numbers can still grow. *)
Definition row_ok (a : allocation) : bool :=
  small_suffixes (al_version a)
  && match parse_version (al_version a) with Ok v => roomy v | Err _ => true end
  && (negb (al_prerelease a) || negb (str_forall (without "-") (al_version a))).

Lemma small_suffixes_app prefix rest k :
  small_suffixes (prefix +:+ rest) = true -> atoi rest = Some k -> k < max_int64.
Proof.
  induction prefix as [|c prefix IH].
  - intros H Hk. change ("" +:+ rest) with rest in H.
    destruct rest; cbn [small_suffixes] in H; apply andb_true_iff in H as [H _]; rewrite Hk in H; by apply Z.ltb_lt.
  - change (String c prefix +:+ rest) with (String c (prefix +:+ rest)). intros [_ H]%andb_true_iff. by apply IH.
Qed.

Lemma row_ok_spec a : row_ok a = true ->
  small_suffixes (al_version a) = true
  /\ (forall v, parse_version (al_version a) = Ok v -> has_room v)
  /\ (al_prerelease a = true -> str_forall (without "-") (al_version a) = false).
Proof.
  unfold row_ok. intros [[H1 H2]%andb_true_iff H3]%andb_true_iff. split_and!; [done| |].
  - intros v Hv. rewrite Hv in H2. unfold roomy in H2. go_inv. by split_and!.
  - intros Hp. rewrite Hp in H3. by apply negb_true_iff in H3.
Qed.

(** ** Counters *)

Section Highest.
Context (keep : allocation -> bool) (prefix : string).

Lemma count_step_ge n a : n <= count_step keep prefix n a.
Proof.
  unfold count_step. destruct (keep a); [|lia]. destruct (cut_prefix _ _); [|lia]. destruct (atoi _) as [k|]; [|lia].
  destruct (Z.ltb_spec n k); lia.
Qed.

Lemma highest_from_ge l n : n <= foldl (count_step keep prefix) n l.
Proof. revert n. induction l as [|a l IH]; intros n; simpl; [lia|]. pose proof (count_step_ge n a). specialize (IH (count_step keep prefix n a)). lia. Qed.

Lemma highest_covers l n a k :
  a ∈ l -> keep a = true -> al_version a = prefix +:+ itoa k -> - 2 ^ 63 <= k <= max_int64 ->
  k <= foldl (count_step keep prefix) n l.
Proof.
  intros Ha Hk Hv Hr. revert n. induction Ha as [a l|a b l Ha IH]; intros n; simpl; [|by apply IH].
  etransitivity; [|apply highest_from_ge]. unfold count_step. rewrite Hk, Hv, cut_prefix_app, atoi_itoa by done.
  destruct (Z.ltb_spec n k); lia.
Qed.

Lemma highest_small l n : Forall (fun a => row_ok a = true) l -> n < max_int64 ->
  foldl (count_step keep prefix) n l < max_int64.
Proof.
  intros Hl. revert n. induction Hl as [|a l Ha Hl IH]; intros n Hn; simpl; [done|]. apply IH.
  unfold count_step. destruct (keep a); [|done]. destruct (cut_prefix _ _) as [rest|] eqn:E; [|done].
  apply cut_prefix_some in E. destruct (atoi rest) as [k|] eqn:Ek; [|done].
  apply row_ok_spec in Ha as (Hs & _). rewrite E in Hs. pose proof (small_suffixes_app _ _ _ Hs Ek).
  destruct (Z.ltb_spec n k); lia.
Qed.

(** The number after the highest names no row the count looked at. *)
Lemma next_number_fresh l a :
  Forall (fun a => row_ok a = true) l -> a ∈ l -> keep a = true ->
  al_version a <> prefix +:+ itoa (wrap64 (highest keep prefix l + 1)).
Proof.
  intros Hl Ha Hk Hv. pose proof (highest_from_ge l 0) as H0. pose proof (highest_small l 0 Hl ltac:(done)) as Hs.
  unfold highest in *. unfold max_int64 in *. rewrite wrap64_small in Hv by lia.
  pose proof (highest_covers l 0 a _ Ha Hk Hv ltac:(unfold max_int64; lia)). lia.
Qed.

Lemma next_number_range l : Forall (fun a => row_ok a = true) l -> 1 <= wrap64 (highest keep prefix l + 1) <= max_int64.
Proof.
  intros Hl. pose proof (highest_from_ge l 0) as H0. pose proof (highest_small l 0 Hl ltac:(done)) as Hs.
  unfold highest, max_int64 in *. rewrite wrap64_small by lia. lia.
Qed.
End Highest.

(** ** The head of a series *)

(** The releases of a series among the rows. *)
Definition release_on (s : series) (a : allocation) (v : version) : Prop :=
  al_prerelease a = false /\ parse_version (al_version a) = Ok v /\ v_pre v = "" /\ on_series s v = true.

Definition head_is (s : series) (l : list allocation) (head : option version) : Prop :=
  match head with
  | None => forall a v, a ∈ l -> ~ release_on s a v
  | Some h => (exists a, a ∈ l /\ release_on s a h) /\ forall a v, a ∈ l -> release_on s a v -> ~ release_lt h v
  end.

Lemma release_on_parts s a v : release_on s a v -> parts_ok v /\ v_pre v = "".
Proof. intros (_ & Hp & Hpre & _). apply parse_version_ok in Hp as (? & ? & ? & _). done. Qed.

Lemma head_step_spec s l head a : head_is s l head -> head_is s (l ++ [a]) (head_step s head a).
Proof.
  intros Hh.
  assert (Hskip : (forall v, ~ release_on s a v) -> head_is s (l ++ [a]) head).
  { intros Hn. destruct head as [h|]; simpl in *.
    - destruct Hh as [(a0 & Ha0 & Hr0) Hmax]. split; [exists a0; rewrite elem_of_app; auto|].
      intros b v. rewrite elem_of_app, list_elem_of_singleton. intros [Hb| ->] Hr; [by eapply Hmax|by apply Hn in Hr].
    - intros b v. rewrite elem_of_app, list_elem_of_singleton. intros [Hb| ->]; [by apply Hh|apply Hn]. }
  unfold head_step. destruct (al_prerelease a) eqn:Ep; [apply Hskip; intros v (? & _); congruence|].
  destruct (parse_version (al_version a)) as [v|] eqn:Ev; [|apply Hskip; intros v' (_ & ? & _); congruence].
  destruct (String.eqb_spec (v_pre v) "") as [Epre|Epre]; [|apply Hskip; intros v' (_ & ? & ? & _); congruence].
  destruct (on_series s v) eqn:Es; simpl; [|apply Hskip; intros v' (_ & ? & _ & ?); congruence].
  assert (Hr : release_on s a v) by done.
  assert (Huniq : forall v', release_on s a v' -> v' = v) by (intros v' (_ & ? & _); congruence).
  destruct head as [h|]; simpl in Hh.
  - destruct Hh as [(a0 & Ha0 & Hr0) Hmax]. pose proof (release_on_parts _ _ _ Hr0) as [Hh1 Hh2].
    pose proof (release_on_parts _ _ _ Hr) as [Hv1 Hv2].
    destruct (compare_release v h Hv1 Hh1 Hv2 Hh2) as (C1 & _ & C3).
    destruct (Z.ltb_spec 0 (compare v h)) as [Hlt|Hle]; simpl.
    + split; [exists a; by rewrite elem_of_app, list_elem_of_singleton; auto|].
      intros b w. rewrite elem_of_app, list_elem_of_singleton. intros [Hb| ->] Hw.
      * specialize (Hmax b w Hb Hw). apply C1 in Hlt. unfold release_lt in *. lia.
      * rewrite (Huniq w Hw). unfold release_lt. lia.
    + split; [exists a0; rewrite elem_of_app; auto|].
      intros b w. rewrite elem_of_app, list_elem_of_singleton. intros [Hb| ->] Hw; [by eapply Hmax|].
      rewrite (Huniq w Hw). by apply C3.
  - split; [exists a; by rewrite elem_of_app, list_elem_of_singleton; auto|].
    intros b w. rewrite elem_of_app, list_elem_of_singleton. intros [Hb| ->] Hw; [by apply Hh in Hw|].
    rewrite (Huniq w Hw). unfold release_lt. lia.
Qed.

Lemma series_head_spec s l : head_is s l (series_head s l).
Proof.
  unfold series_head. induction l as [|a l IH] using rev_ind; [intros a v Ha; by apply elem_of_nil in Ha|].
  rewrite foldl_app. simpl. by apply head_step_spec.
Qed.

(** ** The release a semver policy hands out *)

Lemma choose_bump_allows p s req b note :
  (length (sr_fixed s) <= 2)%nat -> choose_bump p s req = Ok (b, note) -> allows s b = true.
Proof.
  intros Hl. unfold choose_bump. destruct (negb (String.eqb (rq_bump req) "")).
  - destruct (valid_bump _); [|done]. destruct (allows s (rq_bump req)) eqn:E; [|done]. simpl. intros. by go_inv.
  - destruct (if vp_bump_from_commits p then _ else _) as [c|];
      destruct (negb (String.eqb _ _)); intros; go_inv; by apply clamp_allows.
Qed.

(** A release that follows: on the series, and above every release the series has. *)
Definition follows (s : series) (existing : list allocation) (v : version) : Prop :=
  parts_ok v /\ v_pre v = "" /\ on_series s v = true
  /\ forall a w, a ∈ existing -> release_on s a w -> release_lt w v.

Lemma release_lt_trans a b c : release_lt a b -> release_lt b c -> release_lt a c.
Proof. unfold release_lt. lia. Qed.

Lemma release_lt_le a b c : ~ release_lt b a -> release_lt b c -> parts_ok a -> parts_ok b -> release_lt a c.
Proof. unfold release_lt. lia. Qed.

Lemma next_release_follows p s existing req v b exact note :
  series_ok s -> Forall (fun a => row_ok a = true) existing ->
  next_release p s existing req = Ok (v, b, exact, note) -> follows s existing v.
Proof.
  intros Hs Hrows. pose proof Hs as (_ & Hl & _). unfold next_release.
  pose proof (series_head_spec s existing) as Hh.
  destruct (negb (String.eqb (rq_exact req) "")).
  - intros H. apply rbind_ok_inv in H as (w & Hw & H). destruct (String.eqb_spec (v_pre w) "") as [Hpre|]; [|done].
    destruct (on_series s w) eqn:Hon; [|done]. simpl in H.
    destruct (series_head s existing) as [h|] eqn:Eh; simpl in Hh.
    + destruct (Z.leb_spec (compare w h) 0) as [|Hgt]; [done|]. destruct (used _ _); [done|]. go_inv.
      destruct Hh as [(a0 & _ & Hr0) Hmax]. pose proof (release_on_parts _ _ _ Hr0) as [Hh1 Hh2].
      apply parse_version_ok in Hw as (H1 & H2 & H3 & _). split_and!; try done.
      intros a x Ha Hx. pose proof (release_on_parts _ _ _ Hx) as [Hx1 _].
      eapply release_lt_le; [by eapply Hmax| |done|done]. by apply compare_release.
    + destruct (used _ _); [done|]. go_inv. apply parse_version_ok in Hw as (H1 & H2 & H3 & _).
      split_and!; try done. intros a x Ha Hx. by apply Hh in Hx.
  - destruct (series_head s existing) as [h|] eqn:Eh; simpl in Hh.
    + intros H. apply rbind_ok_inv in H as ([c n] & Hc & H). go_inv. apply choose_bump_allows in Hc; [|done].
      destruct Hh as [(a0 & Ha0 & Hr0) Hmax]. pose proof (release_on_parts _ _ _ Hr0) as [Hh1 Hh2].
      assert (Hroom : has_room h).
      { rewrite Forall_forall in Hrows. apply Hrows, row_ok_spec in Ha0 as (_ & Hroom & _). by apply Hroom, Hr0. }
      destruct (bump_ok h b Hh1 Hroom) as (B1 & B2 & B3). split_and!; try done.
      * apply bump_stays; try done. by destruct Hr0 as (_ & _ & _ & ?).
      * intros a x Ha Hx. pose proof (release_on_parts _ _ _ Hx) as [Hx1 _].
        eapply release_lt_le; [by eapply Hmax|done..].
    + intros. go_inv. destruct (first_on_series s (vp_start p) Hs) as (? & ? & ?). split_and!; try done.
      intros a x Ha Hx. by apply Hh in Hx.
Qed.

Lemma release_string_no_dash v : parts_ok v -> v_pre v = "" -> str_forall (without "-") (version_string v) = true.
Proof.
  intros ([H1 _] & [H2 _] & [H3 _]) Hpre. unfold version_string. rewrite Hpre. simpl.
  by rewrite !str_forall_app, !itoa_without_dash by done.
Qed.

Lemma release_parses v : parts_ok v -> v_pre v = "" -> parse_version (version_string v) = Ok v.
Proof. intros (? & ? & ?) Hpre. apply parse_version_string. unfold version_ok. by rewrite Hpre. Qed.

Lemma follows_fresh s existing v : Forall (fun a => row_ok a = true) existing -> follows s existing v ->
  forall a, a ∈ existing -> al_version a <> version_string v.
Proof.
  intros Hrows (Hp & Hpre & Hon & Hlt) a Ha Heq. rewrite Forall_forall in Hrows.
  apply Hrows in Ha as Hr. apply row_ok_spec in Hr as (_ & _ & Hdash).
  assert (Hrel : release_on s a v).
  { split_and!; [|by rewrite Heq, release_parses|done|done].
    destruct (al_prerelease a); [|done]. rewrite Heq, release_string_no_dash in Hdash by done. by specialize (Hdash eq_refl). }
  pose proof (Hlt a v Ha Hrel). unfold release_lt in *. lia.
Qed.

(** ** Fresh versions *)

Lemma calver_prefix_no_dash format now prefix :
  0 <= now -> calver_prefix format now = Ok prefix -> str_forall (without "-") prefix = true.
Proof.
  intros Hnow. destruct (date_ranges now) as (Hy & Hm & Hd). specialize (Hy Hnow).
  assert (Hz : forall n, str_forall (without "-") (zeros n) = true) by (induction n; done).
  assert (Hrem : 0 <= Z.rem (year now) 100) by (by apply Z.rem_nonneg).
  unfold calver_prefix, pad. repeat case_match; intros; go_inv; try done;
    by rewrite !str_forall_app, ?Hz, !itoa_without_dash by lia.
Qed.


Lemma version_string_pre a b c id n :
  version_string (Version a b c (id +:+ "." +:+ n)) = (version_string (Version a b c "") +:+ "-" +:+ id +:+ ".") +:+ n.
Proof.
  unfold version_string. cbn [v_pre v_major v_minor v_patch].
  destruct (String.eqb_spec (id +:+ "." +:+ n) "") as [E|_]; [by destruct id|].
  rewrite String.eqb_refl. by rewrite !str_app_assoc.
Qed.

(** What [Next] answers is not skipped: a semver or a calver version. *)
Lemma next_cases clock p existing req pl :
  next clock p existing req = Ok pl -> pl_skip pl = false ->
  (vp_scheme p = scheme_semver /\ next_semver p existing req (is_release_branch p (rq_branch req)) = Ok pl)
  \/ (vp_scheme p = scheme_calver /\ next_calver clock p existing req (is_release_branch p (rq_branch req)) = Ok pl).
Proof.
  unfold next. destruct (_ && _); [intros; go_inv; done|].
  destruct (String.eqb_spec (vp_scheme p) scheme_semver); [by left|].
  destruct (String.eqb_spec (vp_scheme p) scheme_calver); [by right|].
  destruct (_ || _); [done|]. intros. go_inv. done.
Qed.

Lemma next_semver_inv p existing req release pl :
  next_semver p existing req release = Ok pl ->
  exists s v b exact note tag,
    series_for p (rq_branch req) = Ok s /\ next_release p s existing req = Ok (v, b, exact, note)
    /\ let v' := if release then v else Version (v_major v) (v_minor v) (v_patch v) (prerelease_id v (rq_branch req) existing) in
       render_tag (template_of p) (semver_vars v' (rq_commit req)) = Ok tag
       /\ pl = Plan false (version_string v') tag (sr_raw s) (rq_branch req) (negb release) b exact note.
Proof.
  unfold next_semver. intros H. apply rbind_ok_inv in H as (s & Hs & H). destruct (_ && _); [done|].
  apply rbind_ok_inv in H as ([[[v b] exact] note] & Hv & H). apply rbind_ok_inv in H as (tag & Ht & H). go_inv.
  exists s, v, b, exact, note, tag. done.
Qed.

Lemma series_for_ok p branch s : series_for p branch = Ok s -> series_ok s.
Proof. unfold series_for. destruct (find_first _ _); apply parse_series_ok. Qed.

Lemma prerelease_version_parses v id n :
  parts_ok v -> 0 <= n -> version_ok (Version (v_major v) (v_minor v) (v_patch v) (id +:+ "." +:+ itoa n)).
Proof.
  intros (? & ? & ?) Hn. split_and!; try done. cbn [v_pre].
  assert (Hne : itoa n <> "") by (destruct (itoa_cons n Hn) as (c & s & -> & _); done).
  do 2 (apply drop_end_while_keep; [by repeat apply str_app_not_nil_r|]).
  apply drop_end_while_none. eapply str_forall_impl; [|by apply itoa_digits].
  intros c Hc. apply is_digit_not in Hc as (_ & _ & _ & ->). done.
Qed.

(** Over any stored rows whose numbers can still grow, the version [Next] hands out, release or
    prerelease, semver or calver, on any branch, is none of the versions the policy already has. *)
Lemma next_fresh clock p existing req pl :
  Forall (fun a => row_ok a = true) existing -> 0 <= clock -> 0 <= rq_now req ->
  next clock p existing req = Ok pl -> pl_skip pl = false ->
  pl_version pl ∉ (al_version <$> existing).
Proof.
  intros Hrows Hc Hr Hn Hs Hin. apply list_elem_of_fmap in Hin as (a & Hv & Ha). symmetry in Hv. revert Hv.
  destruct (next_cases _ _ _ _ _ Hn Hs) as [[_ H]|[_ H]].
  - apply next_semver_inv in H as (s & v & b & exact & note & tag & Hser & Hrel & _ & ->). cbn [pl_version].
    apply next_release_follows in Hrel as Hf; [|by eapply series_for_ok|done].
    destruct (is_release_branch p (rq_branch req)); [by apply (follows_fresh s existing v)|].
    unfold prerelease_id. rewrite version_string_pre. by apply next_number_fresh.
  - unfold next_calver in H. destruct (_ || _); [done|].
    apply rbind_ok_inv in H as (prefix & Hp & H). apply rbind_ok_inv in H as (tag & _ & H). go_inv. cbn [pl_version].
    apply calver_prefix_no_dash in Hp as Hdash; [|by case_match].
    set (n := highest _ _ existing). assert (Hn1 : 1 <= wrap64 (n + 1) <= max_int64) by (by apply next_number_range).
    destruct (is_release_branch p (rq_branch req)) eqn:Er.
    + intros Hv. apply (next_number_fresh (fun a => negb (al_prerelease a)) (prefix +:+ ".") existing a Hrows Ha).
      * rewrite Forall_forall in Hrows. apply Hrows, row_ok_spec in Ha as (_ & _ & Hd).
        destruct (al_prerelease a); [|done]. specialize (Hd eq_refl). rewrite Hv, !str_forall_app, Hdash in Hd.
        rewrite itoa_without_dash in Hd by lia. done.
      * by rewrite <- str_app_assoc.
    + intros Hv. eapply (next_number_fresh (fun _ => true) _ existing a Hrows Ha eq_refl).
      rewrite Hv. rewrite !str_app_assoc. reflexivity.
Qed.

(** A conflict is the database's error, never the planner's. *)
Definition no_conflict {A} (r : result version_error A) : Prop := r <> Err ErrAllocationConflict.

Lemma rbind_no_conflict {A B} (r : result version_error A) (f : A -> result version_error B) :
  no_conflict r -> (forall a, no_conflict (f a)) -> no_conflict (rbind r f).
Proof. unfold no_conflict. intros Hr Hf. destruct r; simpl; [apply Hf|congruence]. Qed.

Lemma parse_version_no_conflict s : no_conflict (parse_version s).
Proof. unfold no_conflict, parse_version. by repeat case_match. Qed.
Lemma parse_series_no_conflict s : no_conflict (parse_series s).
Proof. unfold no_conflict, parse_series. by repeat case_match. Qed.
Lemma render_tag_no_conflict t v : no_conflict (render_tag t v).
Proof. unfold no_conflict, render_tag. by case_match. Qed.
Lemma series_for_no_conflict p b : no_conflict (series_for p b).
Proof. unfold series_for. case_match; apply parse_series_no_conflict. Qed.
Lemma choose_bump_no_conflict p s r : no_conflict (choose_bump p s r).
Proof. unfold no_conflict, choose_bump. by repeat case_match. Qed.
Lemma calver_prefix_no_conflict f now : no_conflict (calver_prefix f now).
Proof. unfold no_conflict, calver_prefix. by repeat case_match. Qed.
Create HintDb conflict discriminated.
#[local] Hint Resolve parse_version_no_conflict parse_series_no_conflict render_tag_no_conflict series_for_no_conflict
  choose_bump_no_conflict calver_prefix_no_conflict : conflict.

Lemma next_error clock p existing req : no_conflict (next clock p existing req).
Proof.
  assert (Hrel : forall s, no_conflict (next_release p s existing req)).
  { intros s. unfold next_release. case_match; [apply rbind_no_conflict; auto with conflict; intros; by repeat case_match|].
    case_match; [|done]. apply rbind_no_conflict; auto with conflict. by intros []. }
  unfold next. repeat case_match; try done.
  - unfold next_semver. apply rbind_no_conflict; auto with conflict. intros s. case_match; [done|].
    apply rbind_no_conflict; [done|]. intros [[[]]]. apply rbind_no_conflict; auto with conflict. done.
  - unfold next_calver. case_match; [done|]. apply rbind_no_conflict; auto with conflict. intros prefix.
    apply rbind_no_conflict; auto with conflict. done.
Qed.

(** The version a semver policy hands out lies on the series of its branch and
    is above every release the policy has on that series. On a release branch it is a release; on any
    other branch it is a prerelease of that release, named after the branch and numbered from 1. *)
Lemma semver_moves_forward clock p existing req pl :
  Forall (fun a => row_ok a = true) existing ->
  vp_scheme p = scheme_semver -> next clock p existing req = Ok pl -> pl_skip pl = false ->
  exists s v,
    series_for p (rq_branch req) = Ok s /\ pl_series pl = sr_raw s
    /\ parse_version (pl_version pl) = Ok v /\ on_series s v = true
    /\ (forall a w, a ∈ existing -> release_on s a w -> release_lt w v)
    /\ pl_prerelease pl = negb (is_release_branch p (rq_branch req))
    /\ (pl_prerelease pl = false -> v_pre v = "")
    /\ (pl_prerelease pl = true -> exists n, 1 <= n /\ v_pre v = prerelease_branch (rq_branch req) +:+ "." +:+ itoa n).
Proof.
  intros Hrows Hsch Hn Hs. destruct (next_cases _ _ _ _ _ Hn Hs) as [[_ H]|[Hsch2 H]];
    [|rewrite Hsch in Hsch2; done].
  apply next_semver_inv in H as (s & v & b & exact & note & tag & Hser & Hrel & _ & ->). cbn [pl_version pl_series pl_prerelease].
  apply next_release_follows in Hrel as (Hp & Hpre & Hon & Hlt); [|by eapply series_for_ok|done].
  exists s. destruct (is_release_branch p (rq_branch req)); cbn [negb].
  - exists v. split_and!; try done. by apply release_parses.
  - exists (Version (v_major v) (v_minor v) (v_patch v) (prerelease_id v (rq_branch req) existing)). unfold prerelease_id.
    pose proof (next_number_range (fun _ => true) (version_string (version_core v) +:+ "-" +:+ prerelease_branch (rq_branch req) +:+ ".")
      existing Hrows) as Hrange.
    split_and!; try done.
    + apply parse_version_string. apply prerelease_version_parses; [done|lia].
    + intros _. eexists. split; [|reflexivity]. lia.
Qed.

(** ** A policy to run the definitions on *)

Definition demo_policy : policy :=
  Policy 1 scheme_semver default_template "1.x.x" bump_patch "1.0.0" "" ["main"] other_branches_prerelease
    {["release-1.4" := "1.4.x"]} ["latest"; "v{major}"] true "" "".
Definition demo_row (id : N) (v : string) (pre : bool) : allocation :=
  Allocation id v ("v" +:+ v) (if pre then "" else "1.x.x") "main" pre bump_patch false AllocationPublished id "" "".
Definition demo_rows : list allocation :=
  [demo_row 1 "1.0.0" false; demo_row 2 "1.4.2" false; demo_row 3 "1.4.3-feat-x.1" true; demo_row 4 "1.10.0" false].
Definition demo_request (branch msg : string) : request := Request branch "0123456789abcdef" msg "" "" second.

Example demo_next : pl_version <$> (match next 0 demo_policy demo_rows (demo_request "main" "feat: x") with Ok p => Some p | Err _ => None end)
  = Some "1.11.0".
Proof. by vm_compute. Qed.

Definition plan_of (r : result version_error plan) : plan := match r with Ok p => p | Err _ => skip_plan end.
