(* ===== verification/VersionSettings.v ===== *)
(** * Versioning settings

    [internal/services/versioning/settings.go]: the settings a pipeline or the API gives, their
    normal form, and the policy they are stored in. [Normalize] writes the parsed series back into the
    map it was given; a value of [settings] is a value here, so the caller's map is the result's. *)
From S2P Require Import Prelude GoStrings GoTime GoPath Semver VersionRender VersionNext.
#[local] Open Scope Z_scope.
#[local] Open Scope list_scope.

Record branch_settings := BranchSettings {
  bs_release : list string; bs_others : string; bs_series : gmap string string }.

Record settings := Settings {
  st_scheme : string; st_template : string; st_series : string; st_bump : string; st_start : string;
  st_calver_format : string; st_branches : branch_settings; st_floating_tags : list string;
  st_bump_from_commits : bool }.

Definition default_settings : settings :=
  Settings scheme_semver "" "" "" "" "" (BranchSettings [] "" ∅) [] false.

(** [if s == "" { s = d }] *)
Definition or_default (s d : string) : string := if String.eqb s "" then d else s.

(** The loop over [s.Branches.Series]. The first error the loop meets is returned; which one it is
    depends on Go's map order, but it is [ErrInvalidSeries] whatever the order. *)
Definition normalize_branch_series (m : gmap string string) : result version_error (gmap string string) :=
  if forallb (fun '(_, ser) => is_ok (parse_series ser)) (map_to_list m) then
    Ok ((fun ser => match parse_series ser with Ok s => sr_raw s | Err _ => ser end) <$> m)
  else Err ErrInvalidSeries.

(** The semver case of [Normalize]: the series, the start and the branch series in normal form. *)
Definition normalize_semver (s : settings) : result version_error settings :=
  let? series := parse_series (or_default (st_series s) default_series) in
  let start := or_default (st_start s) (version_string (first series default_start)) in
  let? start := parse_version start in
  if negb (String.eqb (v_pre start) "") || negb (on_series series start) then Err ErrInvalidSettings
  else if negb (valid_bump (st_bump s)) then Err ErrInvalidSettings
  else if negb (allows series (st_bump s)) then Err ErrInvalidSettings
  else
    let? branch_series := normalize_branch_series (bs_series (st_branches s)) in
    Ok (Settings (st_scheme s) (st_template s) (sr_raw series) (st_bump s) (version_string start) ""
          (BranchSettings (bs_release (st_branches s)) (bs_others (st_branches s)) branch_series)
          (st_floating_tags s) (st_bump_from_commits s)).

Definition normalize_calver (s : settings) : result version_error settings :=
  let format := or_default (st_calver_format s) default_calver_format in
  if negb (existsb (String.eqb format) calver_formats) then Err ErrInvalidSettings
  else if negb (bool_decide (bs_series (st_branches s) = ∅)) then Err ErrInvalidSettings
  else Ok (Settings (st_scheme s) (st_template s) "" (st_bump s) "" format (st_branches s) (st_floating_tags s) false).

Definition run_settings : settings :=
  Settings scheme_run default_template "" bump_patch "" "" (BranchSettings [] other_branches_prerelease ∅) [] false.

(** The checks after the [switch]. *)
Definition check_settings (s : settings) : result version_error settings :=
  let? _ := validate_template (st_template s) in
  let? _ := validate_floating (st_floating_tags s) in
  let others := bs_others (st_branches s) in
  if negb (String.eqb others other_branches_prerelease) && negb (String.eqb others other_branches_run_tag) then
    Err ErrInvalidSettings
  else if existsb (fun b => String.eqb (trim_space b) "") (bs_release (st_branches s)) then Err ErrInvalidSettings
  else Ok s.

(** The defaults filled in before the [switch]. *)
Definition fill_defaults (s : settings) : settings :=
  Settings (or_default (st_scheme s) scheme_semver) (or_default (trim_space (st_template s)) default_template)
    (st_series s) (or_default (st_bump s) bump_patch) (st_start s) (st_calver_format s)
    (BranchSettings (bs_release (st_branches s)) (or_default (bs_others (st_branches s)) other_branches_prerelease)
       (bs_series (st_branches s)))
    (st_floating_tags s) (st_bump_from_commits s).

(** [Settings.Normalize] *)
Definition normalize (s : settings) : result version_error settings :=
  let s := fill_defaults s in
  if String.eqb (st_scheme s) scheme_semver then let? s := normalize_semver s in check_settings s
  else if String.eqb (st_scheme s) scheme_calver then let? s := normalize_calver s in check_settings s
  else if String.eqb (st_scheme s) scheme_run then Ok run_settings
  else Err ErrInvalidSettings.

(** [Settings.apply] *)
Definition apply_settings (s : settings) (p : policy) : policy :=
  Policy (vp_id p) (st_scheme s) (st_template s) (st_series s) (st_bump s) (st_start s) (st_calver_format s)
    (bs_release (st_branches s)) (bs_others (st_branches s)) (bs_series (st_branches s)) (st_floating_tags s)
    (st_bump_from_commits s) (vp_managed_by p) (vp_current p).

(** [SettingsOf] *)
Definition settings_of (p : policy) : settings :=
  Settings (vp_scheme p) (vp_template p) (vp_series p) (vp_bump p) (vp_start p) (vp_calver_format p)
    (BranchSettings (vp_release_branches p) (vp_other_branches p) (vp_branch_series p)) (vp_floating_tags p)
    (vp_bump_from_commits p).

(** * Facts *)

Lemma or_default_idem s d : or_default (or_default s d) d = or_default s d.
Proof. unfold or_default. destruct (String.eqb_spec s "") as [->|]; [by destruct d|]. by rewrite (proj2 (String.eqb_neq _ _)). Qed.

Lemma or_default_keep s d : s <> "" -> or_default s d = s.
Proof. intros H. unfold or_default. by rewrite (proj2 (String.eqb_neq _ _)). Qed.

Lemma version_string_not_nil v : version_string v <> "".
Proof. rewrite version_string_shape. destruct (itoa (v_major v)); done. Qed.

Lemma series_string_not_nil l : (length l <= 2)%nat -> series_string l <> "".
Proof.
  intros H. destruct l as [|n [|m [|]]]; simpl in H; [done|..|lia];
    [change (series_string [n]) with (itoa n +:+ "." +:+ "x" +:+ "." +:+ "x")
    |change (series_string [n; m]) with (itoa n +:+ "." +:+ itoa m +:+ "." +:+ "x")]; by destruct (itoa n).
Qed.

(** A series in normal form prints as itself. *)
Lemma parse_series_raw t s : parse_series t = Ok s -> parse_series (sr_raw s) = Ok s.
Proof.
  intros (Hr & Hl & Hf)%parse_series_ok. rewrite Hr, parse_series_string by done.
  destruct s; simpl in *. by subst.
Qed.

Lemma normalize_branch_series_idem m m' :
  normalize_branch_series m = Ok m' -> normalize_branch_series m' = Ok m'.
Proof.
  unfold normalize_branch_series. destruct (forallb _ (map_to_list m)) eqn:E; [|done]. intros H. go_inv.
  rewrite forallb_forall in E.
  assert (Hp : forall k ser, m !! k = Some ser -> exists s, parse_series ser = Ok s).
  { intros k ser Hk. specialize (E (k, ser)). cbn in E. destruct (parse_series ser) as [s|]; [eauto|].
    exfalso. assert (false = true); [apply E; by apply list_elem_of_In, elem_of_map_to_list|done]. }
  set (f := fun ser => match parse_series ser with Ok s => sr_raw s | Err _ => ser end).
  replace (forallb _ (map_to_list (f <$> m))) with true.
  - f_equal. apply map_eq. intros k. rewrite !lookup_fmap. destruct (m !! k) as [ser|] eqn:Ek; simpl; [|done].
    destruct (Hp k ser Ek) as [s Hs]. unfold f. rewrite Hs. by rewrite (parse_series_raw _ _ Hs).
  - symmetry. apply forallb_forall. intros [k ser] Hin. apply list_elem_of_In, elem_of_map_to_list in Hin.
    rewrite lookup_fmap in Hin. destruct (m !! k) as [ser0|] eqn:Ek; [|done]. simpl in Hin. simplify_eq.
    destruct (Hp k ser0 Ek) as [s Hs]. unfold f. rewrite Hs. by rewrite (parse_series_raw _ _ Hs).
Qed.

Lemma check_settings_same s s' : check_settings s = Ok s' -> s' = s.
Proof.
  unfold check_settings. intros H. apply rbind_ok_inv in H as (? & _ & H). apply rbind_ok_inv in H as (? & _ & H).
  repeat case_match; by go_inv.
Qed.

Lemma check_settings_transfer s s' :
  st_template s' = st_template s -> st_floating_tags s' = st_floating_tags s ->
  bs_others (st_branches s') = bs_others (st_branches s) -> bs_release (st_branches s') = bs_release (st_branches s) ->
  check_settings s = Ok s -> check_settings s' = Ok s'.
Proof.
  unfold check_settings. intros -> -> -> -> H. apply rbind_ok_inv in H as (? & -> & H).
  apply rbind_ok_inv in H as (? & -> & H). simpl. repeat case_match; done.
Qed.

Definition is_normal (s : settings) : Prop := normalize s = Ok s.

Lemma normalize_semver_idem s s' : normalize_semver s = Ok s' -> normalize_semver s' = Ok s'.
Proof.
  unfold normalize_semver. intros H. apply rbind_ok_inv in H as (series & Hser & H).
  apply rbind_ok_inv in H as (start & Hst & H).
  destruct (negb (String.eqb (v_pre start) "") || negb (on_series series start)) eqn:E1; [done|].
  destruct (valid_bump (st_bump s)) eqn:E2; [|done]. destruct (allows series (st_bump s)) eqn:E3; [|done].
  simpl in H. apply rbind_ok_inv in H as (bsr & Hb & H). go_inv. cbn.
  pose proof (parse_series_ok _ _ Hser) as (Hr & Hl & Hf).
  rewrite or_default_keep by (rewrite Hr; by apply series_string_not_nil).
  rewrite (parse_series_raw _ _ Hser). cbn.
  rewrite or_default_keep by apply version_string_not_nil.
  rewrite parse_version_string by (by eapply parse_version_ok). cbn.
  rewrite (proj2 (orb_false_iff _ _)) by (split; by apply negb_false_iff). rewrite E2, E3. cbn.
  by rewrite (normalize_branch_series_idem _ _ Hb).
Qed.

Lemma normalize_calver_idem s s' : normalize_calver s = Ok s' -> normalize_calver s' = Ok s'.
Proof.
  unfold normalize_calver. destruct (existsb _ _) eqn:E1; [|done].
  destruct (bool_decide (bs_series (st_branches s) = ∅)) eqn:E2; [|done]. cbn [negb]. intros. go_inv.
  cbn [st_calver_format st_branches st_scheme st_template st_bump st_floating_tags st_series st_start].
  rewrite or_default_idem, E1, bool_decide_eq_true_2 by done. done.
Qed.

Lemma template_idem t :
  or_default (trim_space (or_default (trim_space t) default_template)) default_template
  = or_default (trim_space t) default_template.
Proof.
  unfold or_default. destruct (String.eqb_spec (trim_space t) "") as [|Hne]; [done|].
  rewrite trim_space_idem. by rewrite (proj2 (String.eqb_neq _ _)).
Qed.

(** A semver policy in normal form, field by field. *)
Record semver_normal (m : settings) (series : series) (start : version) : Prop := {
  sn_scheme : st_scheme m = scheme_semver;
  sn_series : parse_series (st_series m) = Ok series /\ st_series m = sr_raw series;
  sn_start : parse_version (st_start m) = Ok start /\ st_start m = version_string start;
  sn_release : v_pre start = "" /\ on_series series start = true;
  sn_bump : valid_bump (st_bump m) = true /\ allows series (st_bump m) = true;
  sn_branches : normalize_branch_series (bs_series (st_branches m)) = Ok (bs_series (st_branches m));
  sn_calver : st_calver_format m = "";
  sn_filled : or_default (trim_space (st_template m)) default_template = st_template m
    /\ or_default (bs_others (st_branches m)) other_branches_prerelease = bs_others (st_branches m);
  sn_checked : check_settings m = Ok m }.

Lemma valid_bump_not_nil b : valid_bump b = true -> b <> "".
Proof. by intros H ->. Qed.

Lemma semver_normal_inv m : normalize m = Ok m -> st_scheme m = scheme_semver -> exists series start, semver_normal m series start.
Proof.
  intros Hn Hs. unfold normalize in Hn. cbv zeta in Hn.
  assert (Hf : st_scheme (fill_defaults m) = scheme_semver) by (unfold fill_defaults; cbn; by rewrite Hs).
  rewrite Hf in Hn. simpl in Hn. apply rbind_ok_inv in Hn as (k & Hk & Hc).
  apply check_settings_same in Hc as Hkm. subst k. unfold normalize_semver in Hk.
  apply rbind_ok_inv in Hk as (series & Hser & Hk). apply rbind_ok_inv in Hk as (start & Hst & Hk).
  destruct (_ || _) eqn:E1; [done|]. destruct (valid_bump _) eqn:E2; [|done]. destruct (allows _ _) eqn:E3; [|done].
  simpl in Hk. apply rbind_ok_inv in Hk as (b & Hb & Hk). injection Hk as Hk.
  apply orb_false_iff in E1 as [E1%negb_false_iff E1'%negb_false_iff]. apply String.eqb_eq in E1.
  pose proof (parse_version_ok _ _ Hst) as Hvok.
  rewrite <- Hk in *. cbn in *. exists series, start.
  split; cbn [st_scheme st_template st_series st_bump st_start st_calver_format st_branches bs_others bs_series]; try done.
  - split; [by eapply parse_series_raw|done].
  - split; [by apply parse_version_string|done].
  - rewrite or_default_idem in E2, E3. by split.
  - split; [apply template_idem | apply or_default_idem].
Qed.

Lemma semver_normal_normal m series start : semver_normal m series start -> normalize m = Ok m.
Proof.
  intros [Hs [Hse Hse'] [Hst Hst'] [Hp Ho] [Hvb Ha] Hb Hc [Ht Hot] Hck].
  assert (Hfill : fill_defaults m = m).
  { destruct m as [? ? ? ? ? ? [? ? ?] ? ?]. cbn in *. subst. unfold fill_defaults. cbn. rewrite Ht, Hot.
    rewrite (or_default_keep _ bump_patch) by (by apply valid_bump_not_nil). done. }
  unfold normalize. cbv zeta. rewrite Hfill, Hs. simpl.
  assert (Hsem : normalize_semver m = Ok m); [|by rewrite Hsem].
  unfold normalize_semver. pose proof (parse_series_ok _ _ Hse) as (Hr & Hl & _).
  rewrite or_default_keep by (rewrite Hse', Hr; by apply series_string_not_nil). rewrite Hse. cbn.
  rewrite or_default_keep by (rewrite Hst'; apply version_string_not_nil). rewrite Hst. cbn.
  rewrite Hp, Ho, Hvb, Ha. cbn. rewrite Hb. cbn. f_equal.
  destruct m as [? ? ? ? ? ? [? ? ?] ? ?]. cbn in *. by subst.
Qed.

Lemma normalize_fixed s n : normalize s = Ok n -> normalize n = Ok n.
Proof.
  unfold normalize. cbv zeta.
  assert (Hfix : forall m, (st_scheme m = st_scheme (fill_defaults s) /\ st_template m = st_template (fill_defaults s)
    /\ st_bump m = st_bump (fill_defaults s) /\ bs_others (st_branches m) = bs_others (st_branches (fill_defaults s))) ->
    fill_defaults m = m).
  { intros [? ? ? ? ? ? [? ? ?] ? ?] (H1 & H2 & H3 & H4). cbn in H1, H2, H3, H4. subst.
    unfold fill_defaults. cbn [st_scheme st_template st_series st_bump st_start st_calver_format st_branches
      st_floating_tags st_bump_from_commits bs_release bs_others bs_series].
    by rewrite !or_default_idem, template_idem. }
  destruct (String.eqb_spec (st_scheme (fill_defaults s)) scheme_semver) as [Es|Es].
  - intros H. apply rbind_ok_inv in H as (m & Hm & H). apply check_settings_same in H as Hn. subst n.
    assert (Hk : fill_defaults m = m).
    { apply Hfix. revert Hm. unfold normalize_semver. intros Hm. apply rbind_ok_inv in Hm as (? & _ & Hm).
      apply rbind_ok_inv in Hm as (? & _ & Hm). repeat case_match; try done.
      apply rbind_ok_inv in Hm as (? & _ & Hm). by go_inv. }
    assert (Hsc : st_scheme m = scheme_semver).
    { revert Hm. unfold normalize_semver. intros Hm. apply rbind_ok_inv in Hm as (? & _ & Hm).
      apply rbind_ok_inv in Hm as (? & _ & Hm). repeat case_match; try done.
      apply rbind_ok_inv in Hm as (? & _ & Hm). by go_inv. }
    rewrite Hk, Hsc. simpl. rewrite (normalize_semver_idem _ _ Hm). exact H.
  - destruct (String.eqb_spec (st_scheme (fill_defaults s)) scheme_calver) as [Ec|Ec].
    + intros H. apply rbind_ok_inv in H as (m & Hm & H). apply check_settings_same in H as Hn. subst n.
      assert (Hk : fill_defaults m = m /\ st_scheme m = scheme_calver).
      { revert Hm. unfold normalize_calver. repeat case_match; try done. intros. go_inv. split; [by apply Hfix|done]. }
      destruct Hk as [Hk Hsc]. rewrite Hk, Hsc. simpl. rewrite (normalize_calver_idem _ _ Hm). exact H.
    + destruct (String.eqb_spec (st_scheme (fill_defaults s)) scheme_run); [|done]. intros. go_inv. done.
Qed.

(** Settings in normal form are their own normal form, whatever the settings
    given were, so storing and reading a policy changes nothing; and a policy that holds them reads back
    as exactly them. *)
Lemma normalize_idempotent s n p :
  normalize s = Ok n -> normalize n = Ok n /\ settings_of (apply_settings n p) = n.
Proof. intros H. split; [by eapply normalize_fixed | by destruct n as [? ? ? ? ? ? [? ? ?] ? ?]]. Qed.

Definition demo_settings : settings :=
  Settings "" " {version} " "v1.X.x" "" "" "" (BranchSettings ["main"] "" {["rel-1.4" := "1.4.*"]}) ["latest"] true.

