(* ===== verification/VersionService.v ===== *)
(** * The versioning service

    [internal/services/versioning/service.go] and [snapshot.go], with the transactions of
    [internal/storage/repositories/version_repo.go]: reserving a version for a run, settling it when the
    run ends, moving the floating tags, and the life of a policy. The database is third-party code
    (gorm over SQL): it is the class [VersionDB], whose laws [VersionDBLaws] are what the tables and
    their unique key promise; [TableDB] is a table that satisfies them. A transaction that holds the
    policy row's lock is one step. A query that fails for another reason, and the run's log lines, are
    not modelled. *)
From S2P Require Import Prelude GoStrings GoTime GoPath Semver VersionRender VersionNext VersionSettings.
#[local] Open Scope Z_scope.
#[local] Open Scope list_scope.

(** ** Rows *)

(** [models.VersionPolicy] with the columns that say whose it is *)
Record policy_row := PolicyRow { pr_policy : policy; pr_workspace : N; pr_app : option N; pr_pipeline : option N }.

(** [models.PipelineDefinition] *)
Record pipeline_def := PipelineDef { pd_id : N; pd_workspace : N; pd_app : option N; pd_name : string }.

(** [models.PipelineRun], what the service reads and writes of it. [pn_builds] is whether a step of the
    run builds an image, or an error reading the steps. *)
Record pipeline_run := PipelineRun {
  pn_id : N; pn_workspace : N; pn_branch : string; pn_commit : string; pn_commit_message : string;
  pn_succeeded : bool; pn_image : option N; pn_builds : bool; pn_version : string; pn_image_tag : string }.

Definition owner (def : pipeline_def) : option N * option N :=
  match pd_app def with Some app => (Some app, None) | None => (None, Some (pd_id def)) end.

Definition with_id (a : allocation) (id : N) : allocation :=
  Allocation id (al_version a) (al_tag a) (al_series a) (al_branch a) (al_prerelease a) (al_bump a) (al_exact a)
    (al_status a) (al_run a) (al_digest a) (al_note a).
Definition with_status (a : allocation) (st : allocation_status) (digest note : string) : allocation :=
  Allocation (al_id a) (al_version a) (al_tag a) (al_series a) (al_branch a) (al_prerelease a) (al_bump a) (al_exact a)
    st (al_run a) digest note.
Definition update_by_id (id : N) (f : allocation -> allocation) (l : list allocation) : list allocation :=
  (fun a => if (al_id a =? id)%N then f a else a) <$> l.

(** ** The database *)

Class VersionDB (T : Type) := {
  db_find_policy_for : T -> option N -> option N -> option policy_row;
  db_find_policy : T -> N -> option policy_row;
  db_find_policy_by_ref : T -> N -> string -> option policy_row;
  (** [None] when the unique owner index refuses it *)
  db_create_policy : T -> policy_row -> option (T * policy_row);
  db_save_policy : T -> policy_row -> T;
  db_delete_policy : T -> N -> T;
  (** the rows of a policy, oldest first *)
  db_rows : T -> N -> list allocation;
  db_find_by_run : T -> N -> option (N * allocation);
  (** [None] when the unique (policy, version) key refuses it *)
  db_insert_row : T -> N -> allocation -> option (T * allocation);
  db_delete_row : T -> N -> N -> T;
  db_update_row : T -> N -> N -> (allocation -> allocation) -> T }.

Class VersionDBLaws (T : Type) `{VersionDB T} := {
  db_insert_refused : forall t p a, db_insert_row t p a = None <-> al_version a ∈ (al_version <$> db_rows t p);
  db_insert_adds : forall t p a t' a', db_insert_row t p a = Some (t', a') ->
    db_rows t' p = db_rows t p ++ [a'] /\ a' = with_id a (al_id a') /\ Forall (fun b => (al_id b < al_id a')%N) (db_rows t p);
  db_delete_removes : forall t p id, db_rows (db_delete_row t p id) p = filter (fun a => al_id a <> id) (db_rows t p);
  db_update_writes : forall t p id f, db_rows (db_update_row t p id f) p = update_by_id id f (db_rows t p);
  (** a row operation is about one policy, and saving a policy touches no row *)
  db_other_rows : forall t p q, p <> q ->
    (forall a t' a', db_insert_row t p a = Some (t', a') -> db_rows t' q = db_rows t q)
    /\ (forall id, db_rows (db_delete_row t p id) q = db_rows t q)
    /\ (forall id f, db_rows (db_update_row t p id f) q = db_rows t q);
  db_save_rows : forall t pr q, db_rows (db_save_policy t pr) q = db_rows t q;
  db_run_row : forall t run p a, db_find_by_run t run = Some (p, a) -> a ∈ db_rows t p /\ al_run a = run }.

(** The registry, as it answers during one operation; [None] is a call that fails. *)
Record registry := Registry {
  rg_tag_digest : string -> string -> option (option string);
  rg_tag_image : string -> string -> string -> option string }.

Inductive registry_call : Type :=
| CallTagImage (repository digest tag : string)
| CallSetTag (image : N) (tag : string)
| CallUpdateRun (version tag : string).

(** ** Comparing *)

(** [strconv.Atoi] with its error ignored: 0 for what is not a number, the nearest [int] for a large one. *)
Definition atoi_value (s : string) : Z :=
  match atoi_digits s with
  | Some n => Z.max (- 2 ^ 63) (Z.min n max_int64)
  | None => 0
  end.

Fixpoint compare_parts (a b : list string) : option Z :=
  match a, b with
  | x :: a', y :: b' =>
      let n := atoi_value x in let m := atoi_value y in
      if n =? m then compare_parts a' b' else Some (sign (wrap64 (n - m)))
  | _, _ => None
  end.

(** [compareVersions] *)
Definition compare_versions (a b : string) : Z :=
  if String.eqb b "" then if String.eqb a "" then 0 else 1
  else match parse_version a, parse_version b with
       | Ok va, Ok vb => compare va vb
       | _, _ =>
           let pa := split "." a in let pb := split "." b in
           match compare_parts pa pb with
           | Some c => c
           | None => sign (Z.of_nat (length pa) - Z.of_nat (length pb))
           end
       end.

Definition version_vars (v : string) : tag_vars :=
  let parts := split "." (cut "-" v).1.1 in
  TagVars v (default "" (parts !! 0%nat)) (default "" (parts !! 1%nat)) (default "" (parts !! 2%nat)) "".

Definition short_digest (d : string) : string :=
  let d := trim_prefix "sha256:" d in
  if Nat.ltb 12 (String.length d) then str_take 12 d else d.

Definition published_digest (existing : list allocation) (digest : string) : bool :=
  existsb (fun a => bool_decide (al_status a = AllocationPublished) && String.eqb (al_digest a) digest) existing.

Section Service.
Context {T : Type} `{VersionDB T}.

(** ** Reserving *)

(** The row a plan becomes. *)
Definition plan_row (pl : plan) (run : N) : allocation :=
  Allocation 0 (pl_version pl) (pl_tag pl) (pl_series pl) (pl_branch pl) (pl_prerelease pl) (pl_bump pl) (pl_exact pl)
    AllocationReserved run "" (pl_note pl).

(** [VersionRepository.Reserve] with the plan [reserve] gives it: one transaction. *)
Definition reserve_tx (clock : instant) (t : T) (pid run : N) (req : request)
  : result version_error (T * option allocation) :=
  match db_find_policy t pid with
  | None => Err ErrPolicyNotFound
  | Some pr =>
      let? pl := next clock (pr_policy pr) (db_rows t pid) req in
      if pl_skip pl then Ok (t, None)
      else match db_insert_row t pid (plan_row pl run) with
           | None => Err ErrAllocationConflict
           | Some (t', a) => Ok (t', Some a)
           end
  end.

Definition max_reserve_attempts : nat := 5.

(** [reserve]: planned again after a conflict, up to [more] times. *)
Fixpoint reserve_loop (more : nat) (clock : instant) (t : T) (pid run : N) (req : request)
  : result version_error (T * option allocation) :=
  match reserve_tx clock t pid run req with
  | Err ErrAllocationConflict =>
      match more with
      | O => Err ErrAllocationConflict
      | S more => reserve_loop more clock t pid run req
      end
  | r => r
  end.
Definition reserve (clock : instant) (t : T) (pid run : N) (req : request) : result version_error (T * option allocation) :=
  reserve_loop max_reserve_attempts clock t pid run req.

Definition set_run_version (run : pipeline_run) (v tag : string) : pipeline_run :=
  PipelineRun (pn_id run) (pn_workspace run) (pn_branch run) (pn_commit run) (pn_commit_message run) (pn_succeeded run)
    (pn_image run) (pn_builds run) v tag.

(** [Service.Reserve] *)
Definition reserve_run (clock : instant) (t : T) (run : pipeline_run) (def : pipeline_def) (req : request)
  : result version_error (T * pipeline_run) :=
  let '(app, pipeline) := owner def in
  match db_find_policy_for t app pipeline with
  | None =>
      if negb (String.eqb (rq_bump req) "") || negb (String.eqb (rq_exact req) "") then Err ErrOverrideNotSupported
      else Ok (t, run)
  | Some pr =>
      let req := Request (or_default (rq_branch req) (pn_branch run)) (or_default (rq_commit req) (pn_commit run))
        (or_default (rq_commit_message req) (pn_commit_message run)) (rq_bump req) (rq_exact req) (rq_now req) in
      let? (t, a) := reserve clock t (vp_id (pr_policy pr)) (pn_id run) req in
      match a with
      | None => Ok (t, run)
      | Some a => Ok (t, set_run_version run (al_version a) (al_tag a))
      end
  end.

(** ** Checking the tag is free *)

Definition max_tag_skips : nat := 20.

(** The loop of [VerifyTagFree]. *)
Fixpoint verify_loop (more : nat) (clock : instant) (rg : registry) (repository : string) (t : T) (pid : N)
    (run : pipeline_run) (a : allocation) (calls : list registry_call)
  : T * pipeline_run * list registry_call * option version_error :=
  match more with
  | O => (t, run, calls, Some ErrTagExists)
  | S more =>
      match rg_tag_digest rg repository (al_tag a) with
      | None | Some None => (t, run, calls, None)
      | Some (Some digest) =>
          let note := "tag already in the registry (" +:+ short_digest digest +:+ ")" in
          let t := db_update_row t pid (al_id a) (fun a => with_status a AllocationAbandoned (al_digest a) note) in
          if al_exact a then (t, run, calls, Some ErrTagExists)
          else
            match reserve clock t pid (pn_id run)
                    (Request (pn_branch run) (pn_commit run) (pn_commit_message run) "" "" 0) with
            | Err e => (t, run, calls, Some e)
            | Ok (t, None) =>
                (t, set_run_version run "" "", calls ++ [CallUpdateRun "" ""], None)
            | Ok (t, Some b) =>
                verify_loop more clock rg repository t pid (set_run_version run (al_version b) (al_tag b)) b
                  (calls ++ [CallUpdateRun (al_version b) (al_tag b)])
            end
      end
  end.

(** [VerifyTagFree]; a nil registry is [None]. *)
Definition verify_tag_free (clock : instant) (rg : option registry) (repository : string) (t : T) (run : pipeline_run)
  : T * pipeline_run * list registry_call * option version_error :=
  match rg with
  | None => (t, run, [], None)
  | Some rg =>
      if String.eqb repository "" then (t, run, [], None)
      else match db_find_by_run t (pn_id run) with
           | Some (pid, a) =>
               if bool_decide (al_status a = AllocationReserved)
               then verify_loop max_tag_skips clock rg repository t pid run a []
               else (t, run, [], None)
           | None => (t, run, [], None)
           end
  end.

(** ** Settling *)

(** [VersionRepository.Release]: one transaction, and whether the row was deleted. *)
Definition release_tx (t : T) (pid : N) (a : allocation) (note : string) : T * bool :=
  if is_head a (db_rows t pid) then (db_delete_row t pid (al_id a), true)
  else (db_update_row t pid (al_id a) (fun b => with_status b AllocationAbandoned (al_digest b) note), false).

Definition with_current (p : policy) (current : string) : policy :=
  Policy (vp_id p) (vp_scheme p) (vp_template p) (vp_series p) (vp_bump p) (vp_start p) (vp_calver_format p)
    (vp_release_branches p) (vp_other_branches p) (vp_branch_series p) (vp_floating_tags p) (vp_bump_from_commits p)
    (vp_managed_by p) current.
Definition row_with (pr : policy_row) (p : policy) : policy_row :=
  PolicyRow p (pr_workspace pr) (pr_app pr) (pr_pipeline pr).

(** [VersionRepository.Publish]: one transaction. *)
Definition publish_tx (t : T) (pid : N) (a : allocation) (digest note current : string) : T :=
  let t := db_update_row t pid (al_id a) (fun b => with_status b AllocationPublished digest note) in
  if String.eqb current "" then t
  else match db_find_policy t pid with
       | Some pr => db_save_policy t (row_with pr (with_current (pr_policy pr) current))
       | None => t
       end.

(** Whether a published row, other than [a], keeps the floating tag. *)
Definition newer_holder (tmpl tag : string) (a o : allocation) : bool :=
  negb ((al_id o =? al_id a)%N || al_prerelease o || negb (bool_decide (al_status o = AllocationPublished)))
  && String.eqb (render tmpl (version_vars (al_version o))) tag
  && (0 <? compare_versions (al_version o) (al_version a)).

(** One turn of the loop of [moveFloating]: the call it makes. *)
Definition move_one (rg : registry) (repository digest : string) (a : allocation) (existing : list allocation) (tmpl : string)
  : list registry_call :=
  let tag := render tmpl (version_vars (al_version a)) in
  if existsb (newer_holder tmpl tag a) existing then []
  else match rg_tag_digest rg repository tag with
       | Some (Some cur) =>
           if negb (String.eqb cur digest) && negb (published_digest existing cur) then []
           else [CallTagImage repository digest tag]
       | _ => [CallTagImage repository digest tag]
       end.

Definition move_floating (rg : option registry) (repository digest : string) (p : policy) (a : allocation)
    (existing : list allocation) : list registry_call :=
  match rg with
  | None => []
  | Some rg => if String.eqb repository "" then [] else mjoin (move_one rg repository digest a existing <$> vp_floating_tags p)
  end.

(** [Settle]: [run_status] is the text of the run's status, for the note of an abandoned version, and
    [images] whether the image catalog is wired. *)
Definition settle (rg : option registry) (images : bool) (t : T) (run : pipeline_run) (run_status digest repository : string)
  : T * list registry_call :=
  match db_find_by_run t (pn_id run) with
  | None => (t, [])
  | Some (pid, a) =>
      if negb (bool_decide (al_status a = AllocationReserved)) then (t, [])
      else if negb (pn_succeeded run) || (String.eqb digest "" && pn_builds run) then
        ((release_tx t pid a ("run " +:+ run_status)).1, [])
      else
        match db_find_policy t pid with
        | None => (t, [])
        | Some pr =>
            if negb (pr_workspace pr =? pn_workspace run)%N then (t, [])
            else
              let '(calls, note) :=
                match rg with
                | Some rg =>
                    if negb (String.eqb repository "") && negb (String.eqb digest "") then
                      ([CallTagImage repository digest (al_tag a)],
                       match rg_tag_image rg repository digest (al_tag a) with
                       | Some err => "registry tag failed: " +:+ err
                       | None => al_note a
                       end)
                    else ([], al_note a)
                | None => ([], al_note a)
                end in
              let current :=
                if negb (al_prerelease a) && (0 <? compare_versions (al_version a) (vp_current (pr_policy pr)))
                then al_version a else "" in
              let t := publish_tx t pid a digest note current in
              let labels := match pn_image run with Some i => if images then [CallSetTag i (al_tag a)] else [] | None => [] end in
              let moves :=
                if negb (al_prerelease a) && is_release_branch (pr_policy pr) (al_branch a)
                then move_floating rg repository digest (pr_policy pr) a (db_rows t pid) else [] in
              (t, calls ++ labels ++ moves)
        end
  end.

(** ** Policies *)

Definition set_managed (p : policy) (by_ : string) : policy :=
  Policy (vp_id p) (vp_scheme p) (vp_template p) (vp_series p) (vp_bump p) (vp_start p) (vp_calver_format p)
    (vp_release_branches p) (vp_other_branches p) (vp_branch_series p) (vp_floating_tags p) (vp_bump_from_commits p)
    by_ (vp_current p).
Definition empty_policy : policy := Policy 0 "" "" "" "" "" "" [] "" ∅ [] false "" "".

(** [EnsureForPipeline]: [settings] is [None] for nil. *)
Definition ensure_for_pipeline (t : T) (def : pipeline_def) (given : option settings) (managed : bool)
  : result version_error (T * policy_row) :=
  let '(app, pipeline) := owner def in
  match db_find_policy_for t app pipeline with
  | Some pr =>
      match given with
      | Some st =>
          if negb managed then Ok (t, pr)
          else
            let? n := normalize st in
            let pr := row_with pr (set_managed (apply_settings n (pr_policy pr)) (pd_name def)) in
            Ok (db_save_policy t pr, pr)
      | None => Ok (t, pr)
      end
  | None =>
      let? n := normalize (default default_settings given) in
      let p := apply_settings n empty_policy in
      let p := if managed then set_managed p (pd_name def) else p in
      match db_create_policy t (PolicyRow p (pd_workspace def) app pipeline) with
      | Some (t, pr) => Ok (t, pr)
      | None =>
          match db_find_policy_for t app pipeline with
          | Some pr => Ok (t, pr)
          | None => Err ErrDB
          end
      end
  end.

(** [Unmanage] *)
Definition unmanage (t : T) (def : pipeline_def) : T :=
  let '(app, pipeline) := owner def in
  match db_find_policy_for t app pipeline with
  | Some pr =>
      if String.eqb (vp_managed_by (pr_policy pr)) (pd_name def)
      then db_save_policy t (row_with pr (set_managed (pr_policy pr) "")) else t
  | None => t
  end.

(** [PipelineDeleted] *)
Definition pipeline_deleted (t : T) (def : pipeline_def) : T :=
  let '(app, pipeline) := owner def in
  match db_find_policy_for t app pipeline with
  | Some pr =>
      if bool_decide (pr_pipeline pr = Some (pd_id def)) then db_delete_policy t (vp_id (pr_policy pr)) else unmanage t def
  | None => t
  end.

(** [Get], without the fields filled in for display *)
Definition get_policy (t : T) (ws : N) (ref : string) : result version_error policy_row :=
  of_option ErrPolicyNotFound (db_find_policy_by_ref t ws ref).

Definition is_managed (pr : policy_row) : bool := negb (String.eqb (vp_managed_by (pr_policy pr)) "").

(** [Create] *)
Definition create_policy (t : T) (def : pipeline_def) (st : settings) : result version_error (T * policy_row) :=
  let '(app, pipeline) := owner def in
  match db_find_policy_for t app pipeline with
  | Some _ => Err ErrPolicyExists
  | None => ensure_for_pipeline t def (Some st) false
  end.

(** [Update] *)
Definition update_policy (t : T) (ws : N) (ref : string) (st : settings) : result version_error (T * policy_row) :=
  let? pr := get_policy t ws ref in
  if is_managed pr then Err ErrManaged
  else
    let? n := normalize st in
    let pr := row_with pr (apply_settings n (pr_policy pr)) in
    Ok (db_save_policy t pr, pr).

Definition set_series (p : policy) (series start bump : string) : policy :=
  Policy (vp_id p) (vp_scheme p) (vp_template p) series bump start (vp_calver_format p)
    (vp_release_branches p) (vp_other_branches p) (vp_branch_series p) (vp_floating_tags p) (vp_bump_from_commits p)
    (vp_managed_by p) (vp_current p).

(** [SwitchSeries] *)
Definition switch_series (t : T) (ws : N) (ref text : string) : result version_error (T * policy_row) :=
  let? pr := get_policy t ws ref in
  let p := pr_policy pr in
  if is_managed pr then Err ErrManaged
  else if negb (String.eqb (vp_scheme p) scheme_semver) then Err ErrInvalidSettings
  else
    let? s := parse_series text in
    let start := match parse_version (vp_start p) with
                 | Ok v => if on_series s v then vp_start p else version_string (first s default_start)
                 | Err _ => version_string (first s default_start)
                 end in
    let pr := row_with pr (set_series p (sr_raw s) start (clamp s (vp_bump p))) in
    Ok (db_save_policy t pr, pr).

(** [Delete] *)
Definition delete_policy (t : T) (ws : N) (ref : string) : result version_error T :=
  let? pr := get_policy t ws ref in
  if is_managed pr then Err ErrManaged else Ok (db_delete_policy t (vp_id (pr_policy pr))).

(** ** Moving a policy between workspaces *)

(** [Snapshot] and [SnapshotVersion] *)
Record snapshot_version := SnapshotVersion { sv_version : string; sv_tag : string; sv_series : string }.
Record snapshot := Snapshot { sn_settings : settings; sn_managed : bool; sn_published : list snapshot_version }.

(** One turn of the loop of [Export]: the highest published version of each group. *)
Definition export_step (heads : gmap string allocation) (a : allocation) : gmap string allocation :=
  if negb (bool_decide (al_status a = AllocationPublished)) || al_prerelease a then heads
  else match heads !! group_key a with
       | Some cur => if 0 <? compare_versions (al_version a) (al_version cur) then <[group_key a := a]> heads else heads
       | None => <[group_key a := a]> heads
       end.

(** [Export], before the JSON encoding; Go ranges over the heads in any order. *)
Definition export (t : T) (def : pipeline_def) : option snapshot :=
  let '(app, pipeline) := owner def in
  match db_find_policy_for t app pipeline with
  | None => None
  | Some pr =>
      let heads := foldl export_step ∅ (db_rows t (vp_id (pr_policy pr))) in
      Some (Snapshot (settings_of (pr_policy pr)) (String.eqb (vp_managed_by (pr_policy pr)) (pd_name def))
        ((fun ka => SnapshotVersion (al_version ka.2) (al_tag ka.2) (al_series ka.2)) <$> map_to_list heads))
  end.

(** One turn of the loop of [Import]: a version the target already has is left alone. *)
Definition import_step (pid : N) (acc : T * string) (v : snapshot_version) : T * string :=
  let '(t, current) := acc in
  match db_insert_row t pid (Allocation 0 (sv_version v) (sv_tag v) (sv_series v) "" false "" false
          AllocationPublished 0 "" "restored from a workspace bundle") with
  | None => acc
  | Some (t, _) => (t, if 0 <? compare_versions (sv_version v) current then sv_version v else current)
  end.

(** [Import], after the JSON decoding *)
Definition import (t : T) (def : pipeline_def) (snap : snapshot) : result version_error T :=
  let? (t, pr) := ensure_for_pipeline t def (Some (sn_settings snap)) (sn_managed snap) in
  let? (t, pr) :=
    if negb (sn_managed snap) && String.eqb (vp_managed_by (pr_policy pr)) "" then
      let? n := normalize (sn_settings snap) in
      let pr := row_with pr (apply_settings n (pr_policy pr)) in
      Ok (db_save_policy t pr, pr)
    else Ok (t, pr) in
  let p := pr_policy pr in
  let '(t, current) := foldl (import_step (vp_id p)) (t, vp_current p) (sn_published snap) in
  if String.eqb current (vp_current p) then Ok t
  else Ok (db_save_policy t (row_with pr (with_current p current))).
End Service.

(** * Facts *)

Section ServiceFacts.
Context {T : Type} `{VersionDBLaws T}.

(** ** Reserving *)

Lemma reserve_tx_spec clock t pid run req :
  Forall (fun a => row_ok a = true) (db_rows t pid) -> 0 <= clock -> 0 <= rq_now req ->
  reserve_tx clock t pid run req <> Err ErrAllocationConflict.
Proof.
  intros Hrows Hc Hr. unfold reserve_tx. destruct (db_find_policy t pid) as [pr|]; [|done].
  destruct (next _ _ _ _) as [pl|e] eqn:En; simpl.
  - destruct (pl_skip pl) eqn:Es; [done|]. destruct (db_insert_row _ _ _) as [[t' a]|] eqn:Ei; [done|].
    exfalso. apply db_insert_refused in Ei. by apply (next_fresh _ _ _ _ _ Hrows Hc Hr En Es) in Ei.
  - intros [= ->]. by apply next_error in En.
Qed.

(** What a reservation changes: one row at the end, with the version and tag of the plan. *)
Record reserved (clock : instant) (t : T) (pid run : N) (req : request) (t' : T) (a : allocation) : Prop := {
  rv_rows : db_rows t' pid = db_rows t pid ++ [a];
  rv_last : Forall (fun b => (al_id b < al_id a)%N) (db_rows t pid);
  rv_fresh : al_version a ∉ (al_version <$> db_rows t pid);
  rv_status : al_status a = AllocationReserved;
  rv_run : al_run a = run;
  rv_other : forall q, q <> pid -> db_rows t' q = db_rows t q;
  rv_plan : exists pr pl, db_find_policy t pid = Some pr /\ next clock (pr_policy pr) (db_rows t pid) req = Ok pl
    /\ pl_skip pl = false /\ a = with_id (plan_row pl run) (al_id a) }.

Lemma reserve_tx_ok clock t pid run req t' r :
  reserve_tx clock t pid run req = Ok (t', r) ->
  match r with None => t' = t | Some a => reserved clock t pid run req t' a end.
Proof.
  unfold reserve_tx. destruct (db_find_policy t pid) as [pr|] eqn:Ep; [|done].
  intros Hn. apply rbind_ok_inv in Hn as (pl & Hpl & Hn). destruct (pl_skip pl) eqn:Es; [by go_inv|].
  destruct (db_insert_row _ _ _) as [[t2 a]|] eqn:Ei; [|done]. go_inv.
  apply db_insert_adds in Ei as Ha. destruct Ha as (Hr & Ha & Hid).
  assert (Hv : al_version a = pl_version pl /\ al_status a = AllocationReserved /\ al_run a = run)
    by (rewrite Ha; done). destruct Hv as (Hv & Hst & Hrun).
  split; try done.
  - rewrite Hv. intros Hin. assert (Hno : db_insert_row t pid (plan_row pl run) = None) by (by apply db_insert_refused).
    congruence.
  - intros q Hq. by eapply (db_other_rows t pid q).
  - exists pr, pl. done.
Qed.

Lemma reserve_loop_ok more clock t pid run req t' r :
  reserve_loop more clock t pid run req = Ok (t', r) ->
  match r with None => t' = t | Some a => reserved clock t pid run req t' a end.
Proof.
  induction more as [|more IH]; simpl; destruct (reserve_tx clock t pid run req) as [[t2 a]|e] eqn:E; try done.
  - intros. go_inv. by apply reserve_tx_ok in E.
  - by destruct e.
  - intros. go_inv. by apply reserve_tx_ok in E.
  - by destruct e.
Qed.

(** Under the policy's lock, over rows whose numbers can still grow, a reservation
    never meets a conflict, so the first attempt is the last; what it stores is one new row, reserved for
    the run, whose version none of the policy's rows has, and it touches no other policy. *)
Lemma reserve_fresh clock t pid run req :
  Forall (fun a => row_ok a = true) (db_rows t pid) -> 0 <= clock -> 0 <= rq_now req ->
  reserve clock t pid run req = reserve_tx clock t pid run req
  /\ reserve clock t pid run req <> Err ErrAllocationConflict
  /\ forall t' a, reserve clock t pid run req = Ok (t', Some a) ->
     db_rows t' pid = db_rows t pid ++ [a] /\ ~ (al_version a ∈ (al_version <$> db_rows t pid))
     /\ al_status a = AllocationReserved /\ al_run a = run
     /\ forall q, q <> pid -> db_rows t' q = db_rows t q.
Proof.
  intros Hrows Hc Hr. pose proof (reserve_tx_spec clock t pid run req Hrows Hc Hr) as Hno.
  assert (Heq : reserve clock t pid run req = reserve_tx clock t pid run req).
  { unfold reserve, max_reserve_attempts. simpl. destruct (reserve_tx clock t pid run req) as [[]|[]]; done. }
  split_and!; [done|by rewrite Heq|]. intros t' a Ha. apply reserve_loop_ok in Ha as [H1 _ H2 H3 H4 H5 _]. by split_and!.
Qed.

(** When a run fails before any other run reserves, releasing its version
    deletes the row and leaves the policy's rows as they were, so the next run gets the same version. *)
Lemma release_undoes_reserve clock t pid run req t' a note :
  reserve clock t pid run req = Ok (t', Some a) ->
  exists t'', release_tx t' pid a note = (t'', true) /\ db_rows t'' pid = db_rows t pid.
Proof.
  intros [Hr Hid _ _ _ _ _]%reserve_loop_ok. unfold release_tx.
  assert (Hhead : is_head a (db_rows t' pid) = true).
  { unfold is_head. apply negb_true_iff, existsb_elem_false. intros b Hb. rewrite Hr, elem_of_app, list_elem_of_singleton in Hb.
    destruct Hb as [Hb| ->]; [|by rewrite N.eqb_refl].
    rewrite Forall_forall in Hid. specialize (Hid b Hb). rewrite (proj2 (N.ltb_ge _ _)) by lia. by rewrite andb_false_r. }
  rewrite Hhead. eexists. split; [done|]. rewrite db_delete_removes, Hr, filter_app.
  rewrite (filter_cons_False _ a) by auto. rewrite app_nil_r. apply filter_all.
  rewrite Forall_forall in *. intros b Hb. specialize (Hid b Hb). lia.
Qed.

(** ** Published versions stay *)

(** The unique keys of the rows of every policy. *)
Definition table_ok (t : T) : Prop :=
  forall p, NoDup (al_id <$> db_rows t p) /\ NoDup (al_version <$> db_rows t p).

(** What no operation of the service undoes. *)
Definition keeps (t t' : T) : Prop :=
  table_ok t -> table_ok t' /\ forall p b, b ∈ db_rows t p -> al_status b = AllocationPublished -> b ∈ db_rows t' p.

#[local] Instance keeps_preorder : PreOrder keeps.
Proof.
  split; [intros t Hok; by split|]. intros t1 t2 t3 H1 H2 Hok. destruct (H1 Hok) as [Hok2 Hk1].
  destruct (H2 Hok2) as [Hok3 Hk2]. split; [done|]. intros p b Hb Hs. by apply Hk2; [apply Hk1|].
Qed.

Lemma keeps_same_rows t t' : (forall p, db_rows t' p = db_rows t p) -> keeps t t'.
Proof. intros He Hok. split; [intros p; rewrite He; apply Hok | intros p b; by rewrite He]. Qed.

Lemma keeps_policy t t' pid :
  (forall q, q <> pid -> db_rows t' q = db_rows t q) ->
  (table_ok t -> NoDup (al_id <$> db_rows t' pid) /\ NoDup (al_version <$> db_rows t' pid)) ->
  (table_ok t -> forall b, b ∈ db_rows t pid -> al_status b = AllocationPublished -> b ∈ db_rows t' pid) ->
  keeps t t'.
Proof.
  intros Hother Hnd Hb Hok. split.
  - intros p. destruct (decide (p = pid)) as [->|Hne]; [by apply Hnd|]. rewrite Hother by done. apply Hok.
  - intros p b. destruct (decide (p = pid)) as [->|Hne]; [by apply Hb|]. by rewrite Hother by done.
Qed.

Lemma keeps_reserved clock t pid run req t' a : reserved clock t pid run req t' a -> keeps t t'.
Proof.
  intros [Hr Hid Hf _ _ Ho _]. apply (keeps_policy t t' pid Ho).
  - intros Hok. destruct (Hok pid) as [H1 H2]. rewrite Hr, !fmap_app. split; apply NoDup_app; (split; [done|split; [|apply NoDup_singleton]]);
      intros x Hx Hin; apply list_elem_of_singleton in Hin as ->; [|done].
    apply list_elem_of_fmap in Hx as (b & Hb & Hbin). rewrite Forall_forall in Hid. specialize (Hid b Hbin). rewrite Hb in Hid. lia.
  - intros _ b Hb _. rewrite Hr, elem_of_app. by left.
Qed.

Lemma keeps_update t pid a f :
  a ∈ db_rows t pid -> al_status a <> AllocationPublished ->
  (forall b, al_id (f b) = al_id b /\ al_version (f b) = al_version b) ->
  keeps t (db_update_row t pid (al_id a) f).
Proof.
  intros Ha Hs Hf. apply (keeps_policy t _ pid).
  - intros q Hq. by apply (db_other_rows t pid q).
  - intros Hok. destruct (Hok pid) as [H1 H2]. rewrite db_update_writes. unfold update_by_id. rewrite <- !list_fmap_compose.
    replace (al_id ∘ _ <$> db_rows t pid) with (al_id <$> db_rows t pid);
      [replace (al_version ∘ _ <$> db_rows t pid) with (al_version <$> db_rows t pid); [done|]|];
      apply list_fmap_ext; intros i b _; simpl; case_match; [by destruct (Hf b)|done|by destruct (Hf b)|done].
  - intros Hok b Hb Hp. destruct (Hok pid) as [H1 _]. rewrite db_update_writes. unfold update_by_id.
    apply list_elem_of_fmap. exists b. split; [|done]. destruct (N.eqb_spec (al_id b) (al_id a)) as [He|]; [|done].
    exfalso. apply Hs. rewrite <- Hp. f_equal. by eapply (NoDup_fmap_elem al_id).
Qed.

Lemma keeps_delete t pid a :
  a ∈ db_rows t pid -> al_status a <> AllocationPublished -> keeps t (db_delete_row t pid (al_id a)).
Proof.
  intros Ha Hs. apply (keeps_policy t _ pid).
  - intros q Hq. by apply (db_other_rows t pid q).
  - intros Hok. destruct (Hok pid) as [H1 H2]. rewrite db_delete_removes.
    split; (eapply sublist_NoDup; [|apply fmap_sublist, sublist_filter]); done.
  - intros Hok b Hb Hp. destruct (Hok pid) as [H1 _]. rewrite db_delete_removes. apply list_elem_of_filter. split; [|done].
    intros He. apply Hs. rewrite <- Hp. f_equal. by eapply (NoDup_fmap_elem al_id).
Qed.

Lemma keeps_reserve clock t pid run req t' r : reserve clock t pid run req = Ok (t', r) -> keeps t t'.
Proof. intros H1%reserve_loop_ok. destruct r as [a|]; [by eapply keeps_reserved|by subst]. Qed.

Lemma keeps_verify more clock rg repository t pid run a calls :
  a ∈ db_rows t pid -> al_status a = AllocationReserved ->
  keeps t (verify_loop more clock rg repository t pid run a calls).1.1.1.
Proof.
  revert t run a calls. induction more as [|more IH]; intros t run a calls Ha Hs; simpl; [done|].
  destruct (rg_tag_digest _ _ _) as [[digest|]|]; [|done..].
  set (t1 := db_update_row _ _ _ _).
  assert (Hk : keeps t t1) by (apply keeps_update; [done|congruence|done]).
  destruct (al_exact a); [done|].
  destruct (reserve clock t1 pid (pn_id run) _) as [[t2 [b|]]|e] eqn:Er; [| |done].
  - etransitivity; [exact Hk|]. etransitivity; [by eapply keeps_reserve|].
    apply reserve_loop_ok in Er as [Hr _ _ Hst _ _ _]. apply IH; [|done]. rewrite Hr, elem_of_app. right. by left.
  - simpl. etransitivity; [exact Hk|]. by eapply keeps_reserve.
Qed.

(** One operation of the service on the stored rows: a run reserves, checks its tag, or is settled; or a
    policy's settings are saved. *)
Inductive service_step (t : T) : T -> Prop :=
| step_reserve clock run def req t' run' : reserve_run clock t run def req = Ok (t', run') -> service_step t t'
| step_verify clock rg repository run : service_step t (verify_tag_free clock rg repository t run).1.1.1
| step_settle rg images run status digest repository : service_step t (settle rg images t run status digest repository).1
| step_save pr : service_step t (db_save_policy t pr).

Lemma service_step_keeps t t' : service_step t t' -> keeps t t'.
Proof.
  intros [clock run def req t2 run' Hr|clock rg repository run|rg images run status digest repository|pr].
  - revert Hr. unfold reserve_run. destruct (owner def) as [app pipeline].
    destruct (db_find_policy_for t app pipeline) as [pr|].
    + intros Hr. apply rbind_ok_inv in Hr as ([t3 r] & Hr & Heq). apply keeps_reserve in Hr.
      destruct r; by go_inv.
    + destruct (_ || _); [done|]. intros. by go_inv.
  - unfold verify_tag_free. destruct rg as [rg|]; [|done]. destruct (String.eqb _ _); [done|].
    destruct (db_find_by_run t (pn_id run)) as [[pid a]|] eqn:Ef; [|done].
    case_bool_decide as Hs; [|done]. apply db_run_row in Ef as [Ha _]. by apply keeps_verify.
  - unfold settle. destruct (db_find_by_run t (pn_id run)) as [[pid a]|] eqn:Ef; [|done].
    apply db_run_row in Ef as [Ha _]. case_bool_decide as Hs; [|done]. simpl.
    destruct (_ || _).
    + simpl. unfold release_tx. destruct (is_head _ _); simpl; [apply keeps_delete|apply keeps_update]; try done; congruence.
    + destruct (db_find_policy t pid) as [pr|] eqn:Ep; [|done]. destruct (negb (_ =? _)%N); [done|].
      destruct (match rg with Some _ => _ | None => _ end) as [calls note]. simpl.
      unfold publish_tx. set (t1 := db_update_row t pid (al_id a) _).
      assert (Hk : keeps t t1) by (apply keeps_update; [done|congruence|done]). destruct (String.eqb _ _); [done|]. destruct (db_find_policy t1 pid); [|done].
      etransitivity; [exact Hk|]. apply keeps_same_rows. intros q. apply db_save_rows.
  - apply keeps_same_rows. intros q. apply db_save_rows.
Qed.

(** C34 [published_forever]: from rows with distinct versions, whatever runs reserve, skip taken tags and
    settle, in whatever order and with whatever settings in between, the rows keep distinct versions, and
    a published row is never deleted or changed: its version is never handed out again. *)
Theorem published_forever t t' p b :
  rtc service_step t t' -> table_ok t -> b ∈ db_rows t p -> al_status b = AllocationPublished ->
  b ∈ db_rows t' p /\ NoDup (al_version <$> db_rows t' p).
Proof.
  intros Hs Hok Hb Hp. assert (Hk : keeps t t').
  { clear Hok Hb. induction Hs as [|t1 t2 t3 H1 _ IH]; [done|]. etransitivity; [by apply service_step_keeps|done]. }
  destruct (Hk Hok) as [Hok' Hk']. split; [by apply Hk' | apply Hok'].
Qed.
End ServiceFacts.

(** ** Floating tags *)

(** Settling a run tags its image with a floating tag only when that tag is
    rendered from a template of the policy and no other published release that the template names the
    same way is newer; so a fix on an old line never drags a floating tag back. *)
Lemma floating_tag_newest rg repository digest p a existing repo' digest' tag :
  CallTagImage repo' digest' tag ∈ move_floating rg repository digest p a existing ->
  exists tmpl, tmpl ∈ vp_floating_tags p /\ tag = render tmpl (version_vars (al_version a))
    /\ forall o, o ∈ existing -> al_id o <> al_id a -> al_prerelease o = false -> al_status o = AllocationPublished ->
       render tmpl (version_vars (al_version o)) = tag -> compare_versions (al_version o) (al_version a) <= 0.
Proof.
  unfold move_floating. destruct rg as [rg|]; [|by intros ?%elem_of_nil].
  destruct (String.eqb repository ""); [by intros ?%elem_of_nil|].
  intros (l & Hin & Hl)%list_elem_of_join. apply list_elem_of_fmap in Hl as (tmpl & -> & Htmpl).
  exists tmpl. split; [done|]. unfold move_one in Hin. set (tg := render tmpl _) in *.
  destruct (existsb (newer_holder tmpl tg a) existing) eqn:E; [by apply elem_of_nil in Hin|].
  assert (Ht : tag = tg) by (repeat case_match; rewrite ?elem_of_cons, ?elem_of_nil in Hin; naive_solver).
  subst tag. split; [done|]. intros o Ho Hid Hpre Hst Hr. rewrite existsb_elem_false in E. specialize (E o Ho).
  unfold newer_holder in E. rewrite Hpre, Hr, String.eqb_refl, bool_decide_eq_true_2 in E by done.
  rewrite (proj2 (N.eqb_neq _ _)) in E by done. simpl in E. by apply Z.ltb_ge.
Qed.

(** ** Settings stay normal *)

Definition policy_normal (p : policy) : Prop := normalize (settings_of p) = Ok (settings_of p).

Lemma clamp_valid s b : valid_bump b = true -> valid_bump (clamp s b) = true.
Proof.
  intros Hb. unfold clamp. destruct (find_first _ _) as [c|] eqn:E; [|done].
  apply find_first_some in E as [Hin _]. rewrite !elem_of_cons, elem_of_nil in Hin. naive_solver.
Qed.

(** The settings a policy holds are in normal form after every change of it: an
    update, or a switch to another series, which keeps the start and the bump only as far as the new
    series allows. *)
Lemma policy_stays_normal {T : Type} `{VersionDB T} (t t' : T) ws ref pr' :
  (forall pr, db_find_policy_by_ref t ws ref = Some pr -> policy_normal (pr_policy pr)) ->
  (exists st, update_policy t ws ref st = Ok (t', pr')) \/ (exists text, switch_series t ws ref text = Ok (t', pr')) ->
  policy_normal (pr_policy pr').
Proof.
  intros Hn [[st H1]|[text H1]].
  - unfold update_policy in H1. apply rbind_ok_inv in H1 as (pr & _ & H1). destruct (is_managed pr); [done|].
    apply rbind_ok_inv in H1 as (n & Hnorm & H1). go_inv. unfold policy_normal. cbn [pr_policy row_with].
    replace (settings_of (apply_settings n (pr_policy pr))) with n by (by destruct n as [? ? ? ? ? ? [? ? ?] ? ?]).
    by eapply normalize_fixed.
  - unfold switch_series, get_policy in H1. apply rbind_ok_inv in H1 as (pr & Hpr & H1). apply of_option_ok in Hpr.
    specialize (Hn pr Hpr). destruct (is_managed pr); [done|].
    destruct (String.eqb_spec (vp_scheme (pr_policy pr)) scheme_semver) as [Hsc|]; [|done]. simpl in H1.
    apply rbind_ok_inv in H1 as (s & Hs & H1). go_inv. unfold policy_normal in *. cbn [pr_policy row_with].
    destruct (semver_normal_inv _ Hn Hsc) as (series & start & [S1 [S2 S2'] [S3 S3'] [S4 S4'] [S5 S5'] S6 S7 S8 S9]).
    cbn in S3, S3', S5. pose proof (parse_series_ok _ _ Hs) as Hok. pose proof Hok as (_ & Hl & _).
    destruct (first_on_series s default_start Hok) as (F1 & F2 & F3).
    rewrite S3. destruct (on_series s start) eqn:Eon.
    + apply (semver_normal_normal _ s start). split; cbn; try done.
      * split; [by eapply parse_series_raw|done].
      * split; [by apply clamp_valid|by apply clamp_allows].
      * by eapply check_settings_transfer; [..|exact S9].
    + apply (semver_normal_normal _ s (first s default_start)). split; cbn; try done.
      * split; [by eapply parse_series_raw|done].
      * split; [by apply release_parses|done].
      * split; [by apply clamp_valid|by apply clamp_allows].
      * by eapply check_settings_transfer; [..|exact S9].
Qed.

(** ** A table *)

(** An in-memory database that keeps the laws, to run the service on. *)
Module TableDB.
Record table := Table { tb_policies : list policy_row; tb_rows : list (N * allocation) }.

Definition rows_of (t : table) (p : N) : list allocation := (filter (fun r => r.1 = p) (tb_rows t)).*2.
Definition fresh_id (l : list (N * allocation)) : N := N.succ (foldr (fun r m => N.max (al_id r.2) m) 0%N l).
Definition has_version (t : table) (p : N) (v : string) : bool :=
  existsb (fun a => String.eqb (al_version a) v) (rows_of t p).

#[global] Instance table_db : VersionDB table := {
  db_find_policy_for t app pipeline :=
    find_first (fun pr => bool_decide (pr_app pr = app /\ pr_pipeline pr = pipeline)) (tb_policies t);
  db_find_policy t id := find_first (fun pr => (vp_id (pr_policy pr) =? id)%N) (tb_policies t);
  db_find_policy_by_ref t ws ref :=
    find_first (fun pr => (pr_workspace pr =? ws)%N && String.eqb (itoa (Z.of_N (vp_id (pr_policy pr)))) ref) (tb_policies t);
  db_create_policy t pr := Some (Table (pr :: tb_policies t) (tb_rows t), pr);
  db_save_policy t pr :=
    Table ((fun o => if (vp_id (pr_policy o) =? vp_id (pr_policy pr))%N then pr else o) <$> tb_policies t) (tb_rows t);
  db_delete_policy t id := Table (tb_policies t) (filter (fun r => r.1 <> id) (tb_rows t));
  db_rows := rows_of;
  db_find_by_run t run := find_first (fun r => (al_run r.2 =? run)%N) (reverse (tb_rows t));
  db_insert_row t p a :=
    if has_version t p (al_version a) then None
    else let a := with_id a (fresh_id (tb_rows t)) in Some (Table (tb_policies t) (tb_rows t ++ [(p, a)]), a);
  db_delete_row t p id := Table (tb_policies t) (filter (fun r => ~ (r.1 = p /\ al_id r.2 = id)) (tb_rows t));
  db_update_row t p id f :=
    Table (tb_policies t) ((fun r => if (r.1 =? p)%N && (al_id r.2 =? id)%N then (r.1, f r.2) else r) <$> tb_rows t) }.

Lemma fresh_id_above l r : r ∈ l -> (al_id r.2 < fresh_id l)%N.
Proof. unfold fresh_id. induction 1 as [r l|r r' l _ IH]; simpl; lia. Qed.

Lemma rows_app l p r :
  (filter (fun r : N * allocation => r.1 = p) (l ++ [r])).*2
  = (filter (fun r => r.1 = p) l).*2 ++ (if decide (r.1 = p) then [r.2] else []).
Proof. rewrite filter_app, fmap_app, filter_cons, filter_nil. by case_decide. Qed.

Lemma rows_deleted l p id q :
  (filter (fun r : N * allocation => r.1 = q) (filter (fun r => ~ (r.1 = p /\ al_id r.2 = id)) l)).*2
  = if decide (q = p) then filter (fun a => al_id a <> id) (filter (fun r : N * allocation => r.1 = q) l).*2
    else (filter (fun r : N * allocation => r.1 = q) l).*2.
Proof.
  induction l as [|[k a] l IH]; [by case_decide|].
  destruct (decide (k = p /\ al_id a = id)) as [[-> Hid]|Hn].
  - rewrite (filter_cons_False _ (p, a)) by tauto. rewrite IH. destruct (decide (q = p)) as [->|Hq].
    + rewrite (filter_cons_True _ (p, a)) by done. rewrite fmap_cons. by rewrite filter_cons_False by (cbn; tauto).
    + by rewrite (filter_cons_False _ (p, a)) by (simpl; congruence).
  - rewrite (filter_cons_True _ (k, a)) by done. destruct (decide (k = q)) as [->|Hq].
    + rewrite !(filter_cons_True _ (q, a)) by done. rewrite !fmap_cons, IH. destruct (decide (q = p)) as [->|]; [|done].
      by rewrite filter_cons_True by (cbn; tauto).
    + by rewrite !(filter_cons_False _ (k, a)), IH by done.
Qed.

Lemma rows_updated (l : list (N * allocation)) p id f q :
  (filter (fun r : N * allocation => r.1 = q)
     ((fun r : N * allocation => if (r.1 =? p)%N && (al_id r.2 =? id)%N then (r.1, f r.2) else r) <$> l)).*2
  = if decide (q = p) then update_by_id id f (filter (fun r : N * allocation => r.1 = q) l).*2
    else (filter (fun r : N * allocation => r.1 = q) l).*2.
Proof.
  set (g := fun r : N * allocation => if (r.1 =? p)%N && (al_id r.2 =? id)%N then (r.1, f r.2) else r).
  assert (Hg : forall k a, (g (k, a)).1 = k) by (intros k a; unfold g; by case_match).
  unfold update_by_id. induction l as [|[k a] l IH]; [by case_decide|]. rewrite fmap_cons. destruct (decide (k = q)) as [->|Hq].
  - rewrite (filter_cons_True _ (g (q, a))) by apply Hg. rewrite (filter_cons_True _ (q, a)) by done.
    rewrite !fmap_cons, IH. destruct (decide (q = p)) as [->|Hne]; unfold g; simpl.
    + rewrite N.eqb_refl. simpl. by destruct (al_id a =? id)%N.
    + by rewrite (proj2 (N.eqb_neq _ _)).
  - rewrite (filter_cons_False _ (g (k, a))) by (by rewrite Hg). by rewrite (filter_cons_False _ (k, a)), IH by done.
Qed.

#[global] Instance table_laws : VersionDBLaws table.
Proof.
  split.
  - intros t p a. simpl. unfold has_version. destruct (existsb _ _) eqn:E.
    + split; [|done]. intros _. apply existsb_elem in E as (b & Hb & Heq). apply String.eqb_eq in Heq.
      rewrite <- Heq. by apply list_elem_of_fmap_2.
    + split; [done|]. intros (b & Hv & Hb)%list_elem_of_fmap. rewrite existsb_elem_false in E.
      specialize (E b Hb). rewrite Hv, String.eqb_refl in E. done.
  - intros t p a t' a'. simpl. destruct (has_version _ _ _); [done|]. intros [= <- <-]. unfold rows_of. simpl.
    split_and!; [rewrite rows_app; by rewrite decide_True | done|].
    apply Forall_forall. intros b Hb. apply list_elem_of_fmap in Hb as (r & -> & Hr). apply list_elem_of_filter in Hr as [_ Hr].
    by apply fresh_id_above.
  - intros t p id. simpl. unfold rows_of. simpl. rewrite rows_deleted. by rewrite decide_True.
  - intros t p id f. simpl. unfold rows_of. simpl. rewrite rows_updated. by rewrite decide_True.
  - intros t p q Hne. split_and!.
    + intros a t' a'. simpl. destruct (has_version _ _ _); [done|]. intros [= <- _]. unfold rows_of. simpl.
      rewrite rows_app. simpl. rewrite decide_False by done. by rewrite app_nil_r.
    + intros id. simpl. unfold rows_of. simpl. rewrite rows_deleted. by rewrite decide_False by done.
    + intros id f. simpl. unfold rows_of. simpl. rewrite rows_updated. by rewrite decide_False by done.
  - done.
  - intros t run p a. simpl. intros [Hin Hr]%find_first_some. apply N.eqb_eq in Hr. split; [|done].
    rewrite elem_of_reverse in Hin. unfold rows_of. apply list_elem_of_fmap. exists (p, a). split; [done|].
    by apply list_elem_of_filter.
Qed.

(** the policy of pipeline 9, with its published rows *)
Definition start : table := Table [PolicyRow demo_policy 5 None (Some 9%N)] (pair 1%N <$> demo_rows).
Definition run (id : N) : pipeline_run := PipelineRun id 5 "main" "0123456789abcdef" "fix: x" true None true "" "".
Definition ask : request := Request "main" "0123456789abcdef" "fix: x" "" "" second.
Definition def : pipeline_def := PipelineDef 9 5 None "build".

Definition state_of (r : result version_error (table * option allocation)) : table :=
  match r with Ok (t, _) => t | Err _ => start end.
Definition row_of (r : result version_error (table * option allocation)) : allocation :=
  match r with Ok (_, Some a) => a | _ => demo_row 0 "" false end.
Definition reserved_state : table := state_of (reserve 0 start 1 77 ask).
Definition reserved_row : allocation := row_of (reserve 0 start 1 77 ask).

Lemma reserved_ok : reserve 0 start 1 77 ask = Ok (reserved_state, Some reserved_row).
Proof. by vm_compute. Qed.

Lemma start_ok : table_ok start.
Proof.
  intros p. destruct (decide (p = 1%N)) as [->|Hne].
  - split; apply (bool_decide_unpack _); by vm_compute.
  - assert (Hnil : db_rows start p = []); [|rewrite Hnil; split; constructor].
    simpl. unfold rows_of. simpl. unfold demo_rows. simpl.
    repeat (rewrite filter_cons_False; [|simpl; congruence]). done.
Qed.

Lemma start_rows_ok : Forall (fun a => row_ok a = true) (db_rows start 1).
Proof. repeat constructor; by vm_compute. Qed.

Definition settled : table :=
  (settle (Some (Registry (fun _ _ => Some None) (fun _ _ _ => None))) true reserved_state (run 77) "succeeded" "sha256:aa" "shop").1.

Lemma settled_steps : rtc service_step start settled.
Proof.
  apply (rtc_l _ _ reserved_state).
  - apply (step_reserve start 0 (run 77) def (Request "" "" "" "" "" second) reserved_state
      (set_run_version (run 77) "1.10.1" "v1.10.1")). by vm_compute.
  - apply rtc_once. apply step_settle.
Qed.
End TableDB.

Lemma published_forever_witness :
  demo_row 2 "1.4.2" false ∈ db_rows TableDB.settled 1 /\ NoDup (al_version <$> db_rows TableDB.settled 1).
Proof.
  apply (published_forever TableDB.start TableDB.settled 1 (demo_row 2 "1.4.2" false) TableDB.settled_steps TableDB.start_ok).
  - apply list_elem_of_lookup. exists 1%nat. by vm_compute.
  - done.
Defined.

Definition demo_registry : registry := Registry (fun _ _ => Some None) (fun _ _ _ => None).
