(* ===== verification/Netalloc.v ===== *)
(** * The subnet allocator

    [internal/services/netalloc]: disjoint subnets handed out of one IPv4 pool and kept in a ledger. An
    address is a big-endian [uint32], so arithmetic on it wraps at 2^32. The ledger is a table behind
    gorm: it is the class [Ledger], whose laws are the two unique indexes the repository documents. The
    Docker engine that creates networks is an argument, one answer per attempt. Of [net.ParseCIDR] the
    IPv4 grammar is modelled; any other text is no IPv4 prefix. [s.mu] makes each operation of one process
    a step. *)
From S2P Require Import Prelude GoStrings GoText.
#[local] Open Scope Z_scope.
#[local] Open Scope list_scope.

(** ** Addresses as text *)

Definition octet (v i : Z) : Z := Z.land (Z.shiftr v (8 * i)) 255.

(** [u32ToIP(v).String()] *)
Definition ip_string (v : Z) : string :=
  itoa (octet v 3) +:+ "." +:+ itoa (octet v 2) +:+ "." +:+ itoa (octet v 1) +:+ "." +:+ itoa (octet v 0).

(** [net.ParseCIDR] on IPv4: the network address and the prefix length. *)
Definition parse_cidr (s : string) : option (Z * Z) :=
  match cut "/" s with
  | (addr, mask, true) =>
      match parse_ip addr, (if all_digits mask then atoi mask else None) with
      | Some v, Some p => if p <=? 32 then Some (v / 2 ^ (32 - p) * 2 ^ (32 - p), p) else None
      | _, _ => None
      end
  | _ => None
  end.

(** ** The service *)

Inductive netalloc_error : Type :=
| ErrBadPool | ErrPrefixDoesNotFit | ErrPoolExhausted | ErrNoSubnetFree | ErrDocker (msg : string).

(** A [netip.Prefix] that is not the zero one. *)
Inductive ip_prefix : Type := Prefix4 (a b c d bits : Z) | Prefix6 (bytes : list Z) (bits : Z).

(** [Service]. [na_ula] is the configured prefix text as [netip.ParsePrefix] reads it: [None] when it is
    empty, [Some None] when it does not parse. *)
Record netalloc := Netalloc {
  na_base : Z; na_total : Z; na_step : Z; na_prefix : Z;
  na_ipv6_enabled : bool; na_ula : option (option ip_prefix) }.

(** [NewService] *)
Definition new_service (pool_cidr : string) (subnet_prefix : Z) : result netalloc_error netalloc :=
  match parse_cidr (trim_space pool_cidr) with
  | None => Err ErrBadPool
  | Some (base, pool_prefix) =>
      if (subnet_prefix <=? pool_prefix) || (30 <? subnet_prefix) then Err ErrPrefixDoesNotFit
      else Ok (Netalloc base (u32 (Z.shiftl 1 (subnet_prefix - pool_prefix))) (u32 (Z.shiftl 1 (32 - subnet_prefix)))
                 subnet_prefix false None)
  end.

Definition net_addr (s : netalloc) (i : Z) : Z := u32 (na_base s + u32 (i * na_step s)).

(** [subnetAt] *)
Definition subnet_at (s : netalloc) (i : Z) : string * string :=
  let a := net_addr s i in
  (ip_string a +:+ "/" +:+ itoa (na_prefix s), ip_string (u32 (a + 1))).

(** [Capacity] *)
Definition capacity (s : netalloc) : Z := na_total s.

(** [inPool] *)
Definition in_pool (s : netalloc) (subnet : string) : bool :=
  match parse_cidr (trim_space subnet) with
  | None => false
  | Some (addr, _) =>
      if addr <? na_base s then false
      else addr <? u32 (na_base s + u32 (na_total s * na_step s))
  end.

Definition reserved_name (subnet : string) : string := "reserved:" +:+ subnet.
Definition is_subnet_overlap (msg : string) : bool := contains "overlap" (to_lower msg).

(** ** IPv6 *)

(** [DeriveIPv6]: [Ok None] when the daemon chooses. *)
Definition derive_ipv6 (ula : option (option ip_prefix)) (ipv4_subnet : option ip_prefix) : result unit (option ip_prefix) :=
  match ula with
  | None => Ok None
  | Some (Some (Prefix6 bytes bits)) =>
      if 48 <? bits then Err tt
      else match ipv4_subnet with
           | Some (Prefix4 _ b c _ _) => Ok (Some (Prefix6 (<[7%nat := c]> (<[6%nat := b]> bytes)) 64))
           | _ => Err tt
           end
  | Some _ => Err tt
  end.

(** [netip.ParsePrefix] of a subnet of the pool *)
Definition subnet_prefix_of (subnet : string) : option ip_prefix :=
  match cut "/" subnet with
  | (addr, mask, true) =>
      match parse_ip addr, (if all_digits mask then atoi mask else None) with
      | Some v, Some p => if p <=? 32 then Some (Prefix4 (octet v 3) (octet v 2) (octet v 1) (octet v 0) p) else None
      | _, _ => None
      end
  | _ => None
  end.

(** [docker.NetworkSpec], the fields set here *)
Record network_spec := NetworkSpec {
  sp_name : string; sp_subnet : string; sp_gateway : string; sp_enable_ipv6 : option bool; sp_ipv6 : option ip_prefix }.

(** [applyIPv6] *)
Definition apply_ipv6 (s : netalloc) (spec : network_spec) : network_spec :=
  let set v6 := NetworkSpec (sp_name spec) (sp_subnet spec) (sp_gateway spec) (Some (na_ipv6_enabled s)) v6 in
  if negb (na_ipv6_enabled s) || String.eqb (sp_subnet spec) "" then set (sp_ipv6 spec)
  else match derive_ipv6 (na_ula s) (subnet_prefix_of (sp_subnet spec)) with
       | Ok v6 => set v6
       | Err _ => set (sp_ipv6 spec)
       end.

(** ** The ledger *)

(** [models.NetworkAllocation] *)
Record net_row := NetRow { nr_name : string; nr_subnet : string; nr_gateway : string; nr_node : N; nr_kind : string }.
Definition kind_reserved : string := "reserved".

Class Ledger (L : Type) := {
  led_rows : L -> list net_row;
  led_create : L -> net_row -> option L;
  led_delete : L -> string -> L }.

Class LedgerLaws (L : Type) `{Ledger L} := {
  led_create_adds : forall l r l', led_create l r = Some l' ->
    led_rows l' = led_rows l ++ [r] /\ ~ (nr_name r ∈ (nr_name <$> led_rows l)) /\ ~ (nr_subnet r ∈ (nr_subnet <$> led_rows l));
  led_create_refused : forall l r, led_create l r = None ->
    nr_name r ∈ (nr_name <$> led_rows l) \/ nr_subnet r ∈ (nr_subnet <$> led_rows l);
  led_delete_removes : forall l n, led_rows (led_delete l n) = filter (fun r => nr_name r <> n) (led_rows l) }.

Section Allocator.
Context {L : Type} `{Ledger L} (s : netalloc).

(** [FindByDockerName], [AllSubnets] and [ExistsBySubnet] *)
Definition find_by_name (l : L) (name : string) : option net_row :=
  find_first (fun r => String.eqb (nr_name r) name) (led_rows l).
Definition all_subnets (l : L) : list string := nr_subnet <$> led_rows l.
Definition exists_subnet (l : L) (subnet : string) : bool := existsb (String.eqb subnet) (all_subnets l).

(** [Stats] *)
Definition stats (l : L) : Z * Z := (Z.of_nat (length (led_rows l)), na_total s).

(** The loop of [allocateLocked] over the subnets of the pool. *)
Fixpoint alloc_loop (idx : list Z) (used : list string) (l : L) (name : string) (node : N) (kind : string)
  : option (L * net_row) :=
  match idx with
  | [] => None
  | i :: idx =>
      let '(subnet, gateway) := subnet_at s i in
      if existsb (String.eqb subnet) used then alloc_loop idx used l name node kind
      else
        let r := NetRow name subnet gateway node kind in
        match led_create l r with
        | Some l' => Some (l', r)
        | None => alloc_loop idx (subnet :: used) l name node kind
        end
  end.

(** [allocateLocked] *)
Definition allocate (l : L) (name : string) (node : N) (kind : string) : result netalloc_error (L * net_row) :=
  match find_by_name l name with
  | Some r => Ok (l, r)
  | None => of_option ErrPoolExhausted (alloc_loop (upto (na_total s)) (all_subnets l) l name node kind)
  end.

(** [Release] *)
Definition release_network (l : L) (name : string) : L := led_delete l name.

Definition create_or_keep (l : L) (r : net_row) : L := default l (led_create l r).

Definition max_attempts : nat := 8.

(** The attempts of [EnsureManaged]; [dc] answers each attempt's [EnsureNetworkSpec]. *)
Fixpoint ensure_loop (more : nat) (dc : nat -> network_spec -> result string string) (l : L) (spec : network_spec)
    (node : N) (kind : string) : L * result netalloc_error (string * string) :=
  match more with
  | O => (l, Err ErrNoSubnetFree)
  | S more =>
      match allocate l (sp_name spec) node kind with
      | Err e => (l, Err e)
      | Ok (l, a) =>
          let spec' := apply_ipv6 s (NetworkSpec (sp_name spec) (nr_subnet a) (nr_gateway a) (sp_enable_ipv6 spec) (sp_ipv6 spec)) in
          match dc more spec' with
          | Ok id => (l, Ok (id, nr_subnet a))
          | Err msg =>
              if is_subnet_overlap msg then
                let l := led_delete l (sp_name spec) in
                let l := create_or_keep l (NetRow (reserved_name (nr_subnet a)) (nr_subnet a) (nr_gateway a) node kind_reserved) in
                ensure_loop more dc l spec' node kind
              else (led_delete l (sp_name spec), Err (ErrDocker msg))
          end
      end
  end.

(** [EnsureManaged] *)
Definition ensure_managed (dc : nat -> network_spec -> result string string) (l : L) (spec : network_spec) (node : N)
    (kind : string) : L * result netalloc_error (string * string) :=
  match find_by_name l (sp_name spec) with
  | Some a =>
      let spec := apply_ipv6 s (NetworkSpec (sp_name spec) (nr_subnet a) (nr_gateway a) (sp_enable_ipv6 spec) (sp_ipv6 spec)) in
      (l, match dc max_attempts spec with Ok id => Ok (id, nr_subnet a) | Err msg => Err (ErrDocker msg) end)
  | None => ensure_loop max_attempts dc l spec node kind
  end.

(** One turn of the loop of [ImportExisting]: the subnet of a network of the node. *)
Definition import_network (node : N) (l : L) (subnet : string) : L :=
  if String.eqb subnet "" || negb (in_pool s subnet) then l
  else if exists_subnet l subnet then l
  else create_or_keep l (NetRow (reserved_name subnet) subnet "" node kind_reserved).

(** [ImportExisting]: [nets] is what the engine lists. *)
Definition import_existing (nets : result string (list string)) (node : N) (l : L) : result string L :=
  let? nets := nets in Ok (foldl (import_network node) l nets).
End Allocator.

(** * Facts *)

(** ** Text of addresses *)

Lemma octet_div v i : 0 <= i -> octet v i = (v / 2 ^ (8 * i)) `mod` 256.
Proof.
  intros Hi. unfold octet. rewrite Z.shiftr_div_pow2 by lia. change 255 with (Z.ones 8). by rewrite Z.land_ones by lia.
Qed.

Lemma octet_range v i : 0 <= i -> 0 <= octet v i <= 255.
Proof. intros Hi. rewrite octet_div by done. pose proof (Z.mod_pos_bound (v / 2 ^ (8 * i)) 256). lia. Qed.

Lemma octets_value v : 0 <= v < 2 ^ 32 -> ((octet v 3 * 256 + octet v 2) * 256 + octet v 1) * 256 + octet v 0 = v.
Proof.
  intros Hv. rewrite !octet_div by lia. change (2 ^ (8 * 3)) with 16777216. change (2 ^ (8 * 2)) with 65536.
  change (2 ^ (8 * 1)) with 256. change (2 ^ (8 * 0)) with 1. change (2 ^ 32) with 4294967296 in Hv.
  Z.to_euclidean_division_equations. lia.
Qed.

Lemma all_digits_itoa n : 0 <= n -> all_digits (itoa n) = true.
Proof.
  intros Hn. unfold all_digits. rewrite itoa_digits by done. destruct (itoa_cons n Hn) as (c & r & -> & _). done.
Qed.

Lemma parse_octet_itoa n : 0 <= n <= 255 -> parse_octet (itoa n) = Some n.
Proof.
  intros Hn. unfold parse_octet. rewrite all_digits_itoa, atoi_itoa by (unfold max_int64; lia).
  rewrite (proj2 (Z.leb_le n 255)) by lia. destruct (decide (n = 0)) as [->|H0]; [done|].
  destruct (itoa n) as [|c [|d r]] eqn:E; [done| |].
  { by destruct c as [[] [] [] [] [] [] [] []]. }
  destruct (ascii_dec c "0") as [->|Hc]; [by apply itoa_no_leading_zero in E|].
  destruct c as [[] [] [] [] [] [] [] []]; done.
Qed.

Lemma split_four a b c d :
  str_forall (without ".") a = true -> str_forall (without ".") b = true -> str_forall (without ".") c = true ->
  str_forall (without ".") d = true -> split "." (a +:+ "." +:+ b +:+ "." +:+ c +:+ "." +:+ d) = [a; b; c; d].
Proof.
  intros Ha Hb Hc Hd.
  change ("." +:+ b +:+ "." +:+ c +:+ "." +:+ d) with (String "." (b +:+ String "." (c +:+ String "." d))).
  by rewrite split_app, split_app, split_app, split_none.
Qed.

Lemma parse_ip_string v : 0 <= v < 2 ^ 32 -> parse_ip (ip_string v) = Some v.
Proof.
  intros Hv. unfold parse_ip, ip_string.
  assert (Ho : forall i, 0 <= i -> str_forall (without ".") (itoa (octet v i)) = true /\ parse_octet (itoa (octet v i)) = Some (octet v i)).
  { intros i Hi. pose proof (octet_range v i Hi). split; [apply itoa_without_dot; lia|by apply parse_octet_itoa]. }
  destruct (Ho 0), (Ho 1), (Ho 2), (Ho 3); try lia. rewrite split_four by done.
  repeat match goal with H : parse_octet _ = Some _ |- _ => rewrite H; clear H end. by rewrite octets_value.
Qed.

Lemma ip_string_no_slash v : str_forall (without "/") (ip_string v) = true.
Proof.
  unfold ip_string.
  assert (Ho : forall i, 0 <= i -> str_forall (without "/") (itoa (octet v i)) = true).
  { intros i Hi. pose proof (octet_range v i Hi). eapply str_forall_impl; [|apply itoa_digits; lia].
    intros c Hc. unfold without. apply negb_true_iff, Ascii.eqb_neq. by intros ->. }
  by rewrite !str_forall_app, !Ho by lia.
Qed.

Lemma parse_cidr_string v p : 0 <= v < 2 ^ 32 -> 0 <= p <= 32 -> (2 ^ (32 - p) | v) ->
  parse_cidr (ip_string v +:+ "/" +:+ itoa p) = Some (v, p).
Proof.
  intros Hv Hp Hd. unfold parse_cidr. change ("/" +:+ itoa p) with (String "/" (itoa p)).
  rewrite cut_app by apply ip_string_no_slash. rewrite parse_ip_string, all_digits_itoa, atoi_itoa by (unfold max_int64; lia).
  rewrite (proj2 (Z.leb_le p 32)) by lia. do 2 f_equal. destruct Hd as [k ->]. by rewrite Z.div_mul by lia.
Qed.

(** ** The pool *)

Record pool_ok (s : netalloc) : Prop := {
  po_prefix : 1 <= na_prefix s <= 30;
  po_step : na_step s = 2 ^ (32 - na_prefix s);
  po_total : 0 < na_total s;
  po_base : 0 <= na_base s /\ (na_step s | na_base s);
  po_fits : na_base s + na_total s * na_step s <= 2 ^ 32 }.

Lemma parse_octet_range s n : parse_octet s = Some n -> 0 <= n <= 255.
Proof.
  unfold parse_octet. destruct (all_digits s && _) eqn:E; [|done]. destruct (atoi s) as [m|] eqn:Em; [|done].
  destruct (Z.leb_spec m 255); [|done]. intros [= <-]. go_inv. unfold all_digits in E. go_inv. split; [|done].
  by eapply atoi_nonneg.
Qed.

Lemma parse_ip_range s v : parse_ip s = Some v -> 0 <= v < 2 ^ 32.
Proof.
  unfold parse_ip. repeat case_match; try done. intros [= <-].
  repeat match goal with H : parse_octet _ = Some _ |- _ => apply parse_octet_range in H end. lia.
Qed.

Lemma parse_cidr_aligned s v p : parse_cidr s = Some (v, p) -> 0 <= p -> 0 <= v /\ p <= 32 /\ (2 ^ (32 - p) | v) /\ v + 2 ^ (32 - p) <= 2 ^ 32.
Proof.
  unfold parse_cidr. destruct (cut "/" s) as [[addr mask] []]; [|done]. destruct (parse_ip addr) as [w|] eqn:Ew; [|done].
  destruct (if all_digits mask then atoi mask else None) as [q|]; [|done]. destruct (Z.leb_spec q 32); [|done].
  intros [= <- <-] Hq. apply parse_ip_range in Ew.
  assert (Hpow : 0 < 2 ^ (32 - q)) by (by apply Z.pow_pos_nonneg; lia).
  assert (Hsplit : 2 ^ 32 = 2 ^ q * 2 ^ (32 - q)) by (rewrite <- Z.pow_add_r by lia; f_equal; lia).
  assert (Hdiv : 0 <= w / 2 ^ (32 - q) < 2 ^ q).
  { split; [apply Z.div_pos; lia|]. apply Z.div_lt_upper_bound; [done|]. lia. }
  split_and!; [nia|done|apply Z.divide_factor_r|nia].
Qed.

Lemma mask_not_negative s v p : parse_cidr s = Some (v, p) -> 0 <= p.
Proof.
  unfold parse_cidr. destruct (cut "/" s) as [[addr mask] []]; [|done]. destruct (parse_ip addr) as [w|]; [|done].
  destruct (all_digits mask) eqn:Ed; [|done]. destruct (atoi mask) as [q|] eqn:Eq; [|done].
  destruct (Z.leb_spec q 32); [|done]. intros [= _ <-].
  unfold all_digits in Ed. go_inv. by eapply atoi_nonneg.
Qed.

Lemma new_service_ok pool p s : new_service pool p = Ok s -> pool_ok s.
Proof.
  unfold new_service. destruct (parse_cidr (trim_space pool)) as [[base pp]|] eqn:E; [|done].
  destruct ((p <=? pp) || (30 <? p)) eqn:Eb; [done|]. intros. go_inv.
  pose proof (mask_not_negative _ _ _ E) as Hpp. apply parse_cidr_aligned in E as (H1 & H2 & H3 & H4); [|done].
  rewrite !Z.shiftl_1_l.
  assert (Hr : forall k, 0 <= k < 32 -> u32 (2 ^ k) = 2 ^ k).
  { intros k Hk. apply u32_small. split; [by apply Z.pow_nonneg|]. apply Z.pow_lt_mono_r; lia. }
  rewrite !Hr by lia.
  assert (Hsplit : 2 ^ (32 - pp) = 2 ^ (p - pp) * 2 ^ (32 - p)) by (rewrite <- Z.pow_add_r by lia; f_equal; lia).
  split; simpl; try done; [lia|by apply Z.pow_pos_nonneg; lia| |lia].
  split; [done|]. eapply Z.divide_trans; [|exact H3]. rewrite Hsplit. apply Z.divide_factor_r.
Qed.

(** ** Subnets *)

Section Pool.
Context (s : netalloc) (Hpool : pool_ok s).

Lemma step_pos : 4 <= na_step s.
Proof.
  destruct Hpool as [Hp Hs _ _ _]. rewrite Hs. change 4 with (2 ^ 2). apply Z.pow_le_mono_r; lia.
Qed.

Lemma net_addr_value i : 0 <= i < na_total s -> net_addr s i = na_base s + i * na_step s.
Proof.
  intros Hi. pose proof step_pos. destruct Hpool as [_ _ Ht [Hb _] Hf]. unfold net_addr.
  rewrite (u32_small (i * na_step s)) by nia. apply u32_small. nia.
Qed.

Lemma net_addr_range i : 0 <= i < na_total s ->
  na_base s <= net_addr s i /\ net_addr s i + na_step s <= na_base s + na_total s * na_step s
  /\ (na_step s | net_addr s i) /\ 0 <= net_addr s i < 2 ^ 32.
Proof.
  intros Hi. pose proof step_pos. rewrite net_addr_value by done. destruct Hpool as [_ _ Ht [Hb Hd] Hf].
  split_and!; try nia. by apply Z.divide_add_r; [|apply Z.divide_factor_r].
Qed.

Lemma parse_subnet i : 0 <= i < na_total s -> parse_cidr (subnet_at s i).1 = Some (net_addr s i, na_prefix s).
Proof.
  intros Hi. destruct (net_addr_range i Hi) as (_ & _ & Hd & Hr). simpl.
  destruct Hpool as [Hp Hs _ _ _]. rewrite Hs in Hd. apply parse_cidr_string; [done|lia|done].
Qed.

Lemma net_addr_disjoint i j : 0 <= i -> i < j -> j < na_total s -> net_addr s i + na_step s <= net_addr s j.
Proof. intros. pose proof step_pos. rewrite !net_addr_value by lia. nia. Qed.

Lemma subnet_inj i j : 0 <= i < na_total s -> 0 <= j < na_total s -> (subnet_at s i).1 = (subnet_at s j).1 -> i = j.
Proof.
  intros Hi Hj He. apply (f_equal parse_cidr) in He. rewrite !parse_subnet in He by done.
  injection He as He. pose proof step_pos. rewrite !net_addr_value in He by done. nia.
Qed.
End Pool.

(** For every pool and prefix [NewService] accepts, the subnets it hands out parse
    as prefixes of that length, lie in the pool without wrapping past the end of the address space, and
    follow one another without overlap; each gateway is the first host of its subnet. *)
Lemma subnets_disjoint pool p s i j :
  new_service pool p = Ok s -> 0 <= i -> i < j -> j < capacity s ->
  exists a b,
    parse_cidr (subnet_at s i).1 = Some (a, p) /\ parse_cidr (subnet_at s j).1 = Some (b, p)
    /\ na_base s <= a /\ a + 2 ^ (32 - p) <= b /\ b + 2 ^ (32 - p) <= 2 ^ 32
    /\ parse_ip (subnet_at s i).2 = Some (a + 1) /\ a + 1 < a + 2 ^ (32 - p).
Proof.
  intros Hs Hi Hij Hj. pose proof (new_service_ok _ _ _ Hs) as Hpool. unfold capacity in Hj.
  assert (Hp : na_prefix s = p) by (unfold new_service in Hs; repeat case_match; by go_inv).
  pose proof (po_step s Hpool) as Hstep. pose proof (po_fits s Hpool) as Hfits. rewrite Hp in Hstep.
  pose proof (step_pos s Hpool) as H4.
  destruct (net_addr_range s Hpool i) as (A1 & A2 & _ & A3); [lia|]. destruct (net_addr_range s Hpool j) as (B1 & B2 & _ & B3); [lia|].
  exists (net_addr s i), (net_addr s j). rewrite !parse_subnet, Hp by (done || lia). rewrite <- Hstep.
  split_and!; try done; try lia.
  - apply net_addr_disjoint; done || lia.
  - cbn [subnet_at snd]. assert (Hn : net_addr s i + na_step s <= net_addr s j) by (apply net_addr_disjoint; done || lia).
    rewrite u32_small by lia. apply parse_ip_string. lia.
Qed.

(** ** Allocation *)

Section LedgerFacts.
Context {L : Type} `{LedgerLaws L} (s : netalloc).

(** A row the allocator made, and the invariant of the ledger. *)
Definition managed_at (i : Z) (r : net_row) : Prop :=
  0 <= i < na_total s /\ (nr_subnet r, nr_gateway r) = subnet_at s i.
Definition row_kind (r : net_row) : Prop := (exists i, managed_at i r) \/ nr_name r = reserved_name (nr_subnet r).
Definition ledger_ok (l : L) : Prop :=
  NoDup (nr_name <$> led_rows l) /\ NoDup (nr_subnet <$> led_rows l) /\ Forall row_kind (led_rows l).

Lemma create_ok l r l' : led_create l r = Some l' -> row_kind r -> ledger_ok l -> ledger_ok l'.
Proof.
  intros (Hr & Hn & Hs)%led_create_adds Hk (H1 & H2 & H3). unfold ledger_ok. rewrite Hr, !fmap_app. split_and!.
  - apply NoDup_app. split; [done|]. split; [|apply NoDup_singleton]. intros x Hx ->%list_elem_of_singleton. done.
  - apply NoDup_app. split; [done|]. split; [|apply NoDup_singleton]. intros x Hx ->%list_elem_of_singleton. done.
  - apply Forall_app. split; [done|]. by constructor.
Qed.

Lemma delete_ok l n : ledger_ok l -> ledger_ok (led_delete l n).
Proof.
  intros (H1 & H2 & H3). unfold ledger_ok. rewrite led_delete_removes. split_and!.
  - eapply sublist_NoDup; [exact H1|apply fmap_sublist, sublist_filter].
  - eapply sublist_NoDup; [exact H2|apply fmap_sublist, sublist_filter].
  - apply Forall_forall. intros r [_ Hr]%list_elem_of_filter. by eapply Forall_forall in H3.
Qed.

Lemma alloc_loop_some idx used l name node kind l' r :
  alloc_loop s idx used l name node kind = Some (l', r) ->
  exists i, i ∈ idx /\ r = NetRow name (subnet_at s i).1 (subnet_at s i).2 node kind /\ led_create l r = Some l'
    /\ ~ ((subnet_at s i).1 ∈ used).
Proof.
  revert used. induction idx as [|i idx IH]; intros used; [done|]. cbn [alloc_loop].
  rewrite (surjective_pairing (subnet_at s i)). destruct (existsb _ used) eqn:Eu.
  - intros (j & Hj & Hrest)%IH. exists j. split; [by right|done].
  - destruct (led_create l (NetRow name _ _ _ _)) as [l2|] eqn:Ec.
    + intros [= <- <-]. exists i. split; [by left|]. split; [done|]. split; [done|].
      rewrite existsb_elem_false in Eu. intros Hin. specialize (Eu _ Hin). by rewrite String.eqb_refl in Eu.
    + intros (j & Hj & Hr & Hc & Hu)%IH. exists j. split; [by right|]. split; [done|]. split; [done|].
      intros Hin. apply Hu. by right.
Qed.

Lemma alloc_loop_none idx used l name node kind :
  alloc_loop s idx used l name node kind = None -> ~ (name ∈ (nr_name <$> led_rows l)) ->
  forall i, i ∈ idx -> (subnet_at s i).1 ∈ used \/ (subnet_at s i).1 ∈ (nr_subnet <$> led_rows l).
Proof.
  intros Hl Hn. revert used Hl. induction idx as [|j idx IH]; intros used; [intros _ i Hi; by apply elem_of_nil in Hi|].
  cbn [alloc_loop]. rewrite (surjective_pairing (subnet_at s j)). destruct (existsb _ used) eqn:Eu.
  - intros Hl i [->|Hi]%elem_of_cons; [|by apply IH]. left. apply existsb_elem in Eu as (x & Hx & He).
    apply String.eqb_eq in He. by subst.
  - destruct (led_create l (NetRow name _ _ _ _)) as [l2|] eqn:Ec; [done|]. apply led_create_refused in Ec as [Ec|Ec]; [done|].
    intros Hl i [->|Hi]%elem_of_cons; [by right|]. destruct (IH _ Hl i Hi) as [[->|Hu]%elem_of_cons|Hr]; auto.
Qed.

Lemma find_by_name_spec l name :
  match find_by_name l name with
  | Some r => r ∈ led_rows l /\ nr_name r = name
  | None => ~ (name ∈ (nr_name <$> led_rows l))
  end.
Proof.
  unfold find_by_name. destruct (find_first _ _) as [r|] eqn:E.
  - apply find_first_some in E as [? E]. by apply String.eqb_eq in E.
  - rewrite find_first_none in E. intros (r & -> & Hr)%list_elem_of_fmap. specialize (E r Hr). by rewrite String.eqb_refl in E.
Qed.

Lemma elem_of_upto i : i ∈ upto (na_total s) <-> 0 <= i < na_total s.
Proof. unfold upto. rewrite elem_of_seqZ. lia. Qed.

Lemma allocate_cases l name node kind l' r :
  allocate s l name node kind = Ok (l', r) ->
  (l' = l /\ r ∈ led_rows l /\ nr_name r = name)
  \/ (find_by_name l name = None /\ nr_name r = name /\ led_create l r = Some l' /\ exists i, managed_at i r).
Proof.
  unfold allocate. pose proof (find_by_name_spec l name) as Hf. destruct (find_by_name l name) as [r0|].
  - intros. go_inv. left. tauto.
  - intros Ha. apply of_option_ok, alloc_loop_some in Ha as (i & Hi & -> & Hc & _). apply elem_of_upto in Hi.
    right. split_and!; try done. exists i. split; [done|]. simpl. done.
Qed.

Lemma allocate_ok l name node kind l' r : allocate s l name node kind = Ok (l', r) -> ledger_ok l -> ledger_ok l'.
Proof.
  intros [(-> & _)|(_ & _ & Hc & Hm)]%allocate_cases Hok; [done|]. eapply create_ok; [done| |done]. by left.
Qed.

Lemma create_or_keep_ok l r : row_kind r -> ledger_ok l -> ledger_ok (create_or_keep l r).
Proof. intros Hk Hok. unfold create_or_keep. destruct (led_create l r) eqn:E; simpl; [by eapply create_ok|done]. Qed.

Lemma ensure_loop_ok more dc l spec node kind : ledger_ok l -> ledger_ok (ensure_loop s more dc l spec node kind).1.
Proof.
  revert l spec. induction more as [|more IH]; intros l spec Hok; [done|]. cbn [ensure_loop].
  destruct (allocate s l (sp_name spec) node kind) as [[l1 a]|e] eqn:Ea; [|done].
  pose proof (allocate_ok _ _ _ _ _ _ Ea Hok) as Hok1. destruct (dc more _) as [id|msg]; [done|].
  destruct (is_subnet_overlap msg); [|by apply delete_ok].
  apply IH. apply create_or_keep_ok; [by right|by apply delete_ok].
Qed.

(** One operation on the ledger. *)
Inductive ledger_step (l : L) : L -> Prop :=
| ls_allocate name node kind l' r : allocate s l name node kind = Ok (l', r) -> ledger_step l l'
| ls_ensure dc spec node kind : ledger_step l (ensure_managed s dc l spec node kind).1
| ls_release name : ledger_step l (release_network l name)
| ls_import nets node l' : import_existing s nets node l = Ok l' -> ledger_step l l'.

Lemma ledger_step_ok l l' : ledger_step l l' -> ledger_ok l -> ledger_ok l'.
Proof.
  intros [name node kind l2 r Ha|dc spec node kind|name|nets node l2 Hi] Hok.
  - by eapply allocate_ok.
  - unfold ensure_managed. destruct (find_by_name l (sp_name spec)); [done|]. by apply ensure_loop_ok.
  - by apply delete_ok.
  - unfold import_existing in Hi. apply rbind_ok_inv in Hi as (ns & _ & Hi). go_inv.
    apply (foldl_inv ledger_ok); [done|]. intros l0 sub _ Hok0. unfold import_network. repeat case_match; try done.
    apply create_or_keep_ok; [by right|done].
Qed.

(** From an empty ledger, whatever networks are allocated, ensured on whatever
    engines, released and imported, in any order: two networks of the ledger with different names, neither
    a reservation, have address ranges that do not meet. *)
Lemma ledger_disjoint pool p l0 l r1 r2 :
  new_service pool p = Ok s -> led_rows l0 = [] -> rtc ledger_step l0 l ->
  r1 ∈ led_rows l -> r2 ∈ led_rows l -> nr_name r1 <> nr_name r2 ->
  nr_name r1 <> reserved_name (nr_subnet r1) -> nr_name r2 <> reserved_name (nr_subnet r2) ->
  exists a b, parse_cidr (nr_subnet r1) = Some (a, na_prefix s) /\ parse_cidr (nr_subnet r2) = Some (b, na_prefix s)
    /\ (a + na_step s <= b \/ b + na_step s <= a).
Proof.
  intros Hs%new_service_ok Hempty Hsteps Hr1 Hr2 Hne N1 N2.
  assert (Hok : ledger_ok l).
  { assert (Hok0 : ledger_ok l0) by (unfold ledger_ok; rewrite Hempty; split_and!; constructor).
    clear Hempty Hr1 Hr2. induction Hsteps as [|x y z Hxy _ IH]; [done|]. apply IH. by eapply ledger_step_ok. }
  destruct Hok as (Hnames & Hsub & Hk). rewrite Forall_forall in Hk.
  destruct (Hk r1 Hr1) as [(i & Hi & E1)|]; [|done]. destruct (Hk r2 Hr2) as [(j & Hj & E2)|]; [|done].
  apply (f_equal fst) in E1. apply (f_equal fst) in E2. cbn [fst] in E1, E2. rewrite E1, E2, !parse_subnet by done.
  assert (Hij : i <> j).
  { intros ->. apply Hne. f_equal. apply (NoDup_fmap_elem nr_subnet (led_rows l)); congruence. }
  exists (net_addr s i), (net_addr s j). split_and!; try done.
  destruct (Z.lt_total i j) as [Hlt|[He|Hlt]]; [left|done|right]; apply net_addr_disjoint; done || lia.
Qed.
End LedgerFacts.

(** ** What the allocator promises its callers *)

Section Contracts.
Context {L : Type} `{LedgerLaws L} (s : netalloc).

Lemma find_created l l' r name :
  led_rows l' = led_rows l ++ [r] -> find_by_name l name = None -> nr_name r = name -> find_by_name l' name = Some r.
Proof.
  unfold find_by_name. intros -> Hf Hn. revert Hf. induction (led_rows l) as [|x rows IH]; simpl.
  - intros _. rewrite find_first_cons, Hn, String.eqb_refl. done.
  - rewrite !find_first_cons. case_match; [done|]. exact IH.
Qed.

Lemma find_deleted l name : find_by_name (led_delete l name) name = None.
Proof.
  unfold find_by_name. rewrite led_delete_removes. apply find_first_none. intros r [Hr _]%list_elem_of_filter.
  by apply String.eqb_neq.
Qed.

Lemma find_kept l r name : find_by_name l name = None -> nr_name r <> name -> find_by_name (create_or_keep l r) name = None.
Proof.
  unfold create_or_keep. destruct (led_create l r) as [l'|] eqn:E; [|done]. simpl.
  apply led_create_adds in E as (Hr & _). unfold find_by_name. rewrite Hr, !find_first_none.
  intros Hf Hn x [Hx|Hx%list_elem_of_singleton]%elem_of_app; [by apply Hf|]. subst. by apply String.eqb_neq.
Qed.

Lemma ensure_loop_contract more dc l spec node kind l' res :
  (forall sub, sp_name spec <> reserved_name sub) -> find_by_name l (sp_name spec) = None ->
  ensure_loop s more dc l spec node kind = (l', res) ->
  match res with
  | Ok (_, sub) => exists a i, find_by_name l' (sp_name spec) = Some a /\ nr_subnet a = sub /\ managed_at s i a
  | Err _ => find_by_name l' (sp_name spec) = None
  end.
Proof.
  intros Hname. revert l spec Hname. induction more as [|more IH]; intros l spec Hname Hf; cbn [ensure_loop].
  { by intros [= <- <-]. }
  destruct (allocate s l (sp_name spec) node kind) as [[l1 a]|e] eqn:Ea; [|by intros [= <- <-]].
  apply allocate_cases in Ea as [(_ & Hin & Hn)|(_ & Hn & Hc & i & Hm)].
  { pose proof (find_by_name_spec l (sp_name spec)) as Hspec. rewrite Hf in Hspec. exfalso. apply Hspec.
    rewrite <- Hn. by apply list_elem_of_fmap_2. }
  apply led_create_adds in Hc as (Hr & _).
  set (spec' := apply_ipv6 s _). assert (Hn' : sp_name spec' = sp_name spec).
  { subst spec'. unfold apply_ipv6. by repeat case_match. }
  destruct (dc more spec') as [id|msg].
  - intros [= <- <-]. exists a, i. split; [|done]. by eapply find_created.
  - destruct (is_subnet_overlap msg).
    + rewrite <- Hn'. apply IH; [by rewrite Hn'|]. rewrite Hn'. apply find_kept; [apply find_deleted|].
      simpl. intros E. by apply (Hname (nr_subnet a)).
    + intros [= <- <-]. apply find_deleted.
Qed.

(** What [EnsureManaged] promises. A name that has a subnet keeps it: the
    ledger does not change and the engine is asked for that very subnet. Otherwise, if it answers a
    subnet, the ledger pins the name to that subnet, and it is one of the pool's; if it fails, the ledger
    has no row of that name, so nothing leaks. *)
Lemma ensure_managed_contract dc l spec node kind l' res :
  (forall sub, sp_name spec <> reserved_name sub) ->
  ensure_managed s dc l spec node kind = (l', res) ->
  (forall a, find_by_name l (sp_name spec) = Some a ->
     l' = l /\ match res with Ok (_, sub) => sub = nr_subnet a | Err _ => True end)
  /\ (find_by_name l (sp_name spec) = None ->
     match res with
     | Ok (_, sub) => exists a i, find_by_name l' (sp_name spec) = Some a /\ nr_subnet a = sub /\ managed_at s i a
     | Err _ => find_by_name l' (sp_name spec) = None
     end).
Proof.
  intros Hname. unfold ensure_managed. destruct (find_by_name l (sp_name spec)) as [a|] eqn:Ef.
  - intros [= <- <-]. split; [|done]. intros b [= ->]. split; [done|]. by destruct (dc _ _).
  - intros He. split; [done|]. intros _. by eapply ensure_loop_contract.
Qed.

(** A new name gets a subnet of the pool that no row has, until every subnet of
    the pool is in the ledger: only then is the pool exhausted. Asking again for the same name answers
    the same row. *)
Lemma allocate_exhaustive l name node kind :
  find_by_name l name = None ->
  match allocate s l name node kind with
  | Ok (l', r) =>
      (exists i, managed_at s i r) /\ ~ (nr_subnet r ∈ (nr_subnet <$> led_rows l)) /\ led_rows l' = led_rows l ++ [r]
      /\ allocate s l' name node kind = Ok (l', r)
  | Err e => e = ErrPoolExhausted /\ forall i, 0 <= i < na_total s -> (subnet_at s i).1 ∈ (nr_subnet <$> led_rows l)
  end.
Proof.
  intros Hf. destruct (allocate s l name node kind) as [[l' r]|e] eqn:Ea.
  - apply allocate_cases in Ea as [(_ & Hin & Hn)|(_ & Hn & Hc & Hm)].
    + pose proof (find_by_name_spec l name) as Hspec. rewrite Hf in Hspec. exfalso. apply Hspec.
      rewrite <- Hn. by apply list_elem_of_fmap_2.
    + apply led_create_adds in Hc as (Hr & _ & Hsub). split_and!; try done.
      unfold allocate. by rewrite (find_created l l' r name).
  - unfold allocate in Ea. rewrite Hf in Ea. destruct (alloc_loop _ _ _ _ _ _ _) eqn:El; [done|]. injection Ea as <-.
    split; [done|]. intros i Hi%elem_of_upto. pose proof (find_by_name_spec l name) as Hspec. rewrite Hf in Hspec.
    by destruct (alloc_loop_none _ _ _ _ _ _ _ El Hspec i Hi).
Qed.
End Contracts.

(** ** Pools the membership test and the IPv6 mapping handle *)

(** [inPool] tells the subnets whose network address is in the pool, for every pool that
    ends below the last address. A pool that reaches 255.255.255.255 ends at 2^32, which wraps to 0, and
    then nothing is in it: [ImportExisting] reserves nothing there. *)
Lemma in_pool_spec pool p s text :
  new_service pool p = Ok s ->
  in_pool s text = true <->
  na_base s + na_total s * na_step s < 2 ^ 32
  /\ exists a q, parse_cidr (trim_space text) = Some (a, q) /\ na_base s <= a < na_base s + na_total s * na_step s.
Proof.
  intros Hs%new_service_ok. pose proof (step_pos s Hs) as H4. destruct Hs as [_ _ Ht [Hb _] Hf]. unfold in_pool.
  destruct (decide (na_base s + na_total s * na_step s = 2 ^ 32)) as [Htop|Hlow].
  - assert (Hz : u32 (na_base s + u32 (na_total s * na_step s)) = 0).
    { unfold u32. rewrite Zplus_mod_idemp_r, Htop. done. }
    rewrite Hz. split; [|intros [? _]; lia].
    destruct (parse_cidr _) as [[a q]|]; [|done]. destruct (Z.ltb_spec a (na_base s)); [done|]. rewrite Z.ltb_lt. lia.
  - rewrite (u32_small (na_total s * na_step s)), (u32_small (na_base s + _)) by nia.
    destruct (parse_cidr _) as [[a q]|].
    + destruct (Z.ltb_spec a (na_base s)).
      * split; [done|]. intros (_ & a' & q' & [= <- <-] & ?). lia.
      * rewrite Z.ltb_lt. split; [intros; split; [lia|]; exists a, q; split; [done|lia]|].
        intros (_ & a' & q' & [= <- <-] & ?). lia.
    + split; [done|]. by intros (_ & a' & q' & [=] & ?).
Qed.

Lemma subnet_prefix_at s i : pool_ok s -> 0 <= i < na_total s ->
  subnet_prefix_of (subnet_at s i).1 =
  Some (Prefix4 (octet (net_addr s i) 3) (octet (net_addr s i) 2) (octet (net_addr s i) 1) (octet (net_addr s i) 0) (na_prefix s)).
Proof.
  intros Hp Hi. destruct (net_addr_range s Hp i Hi) as (_ & _ & _ & Hr). unfold subnet_prefix_of. cbn [subnet_at fst].
  change ("/" +:+ itoa (na_prefix s)) with (String "/" (itoa (na_prefix s))).
  pose proof (po_prefix s Hp) as Hpre.
  rewrite cut_app by apply ip_string_no_slash. rewrite parse_ip_string, all_digits_itoa, atoi_itoa by (unfold max_int64; lia).
  by rewrite (proj2 (Z.leb_le _ 32)) by lia.
Qed.

(** In a pool of at most 2^24 addresses inside one /8, cut into subnets no longer than
    /24, distinct subnets get distinct IPv6 /64s from any ULA prefix that is accepted. *)
Lemma derive_ipv6_distinct pool p s bytes bits i j :
  new_service pool p = Ok s -> p <= 24 -> na_base s / 2 ^ 24 = (na_base s + na_total s * na_step s - 1) / 2 ^ 24 ->
  length bytes = 16%nat -> bits <= 48 -> 0 <= i < na_total s -> 0 <= j < na_total s -> i <> j ->
  exists u v, derive_ipv6 (Some (Some (Prefix6 bytes bits))) (subnet_prefix_of (subnet_at s i).1) = Ok (Some u)
    /\ derive_ipv6 (Some (Some (Prefix6 bytes bits))) (subnet_prefix_of (subnet_at s j).1) = Ok (Some v) /\ u <> v.
Proof.
  intros Hs Hp24 H8 Hlen Hbits Hi Hj Hne.
  assert (Hp : na_prefix s = p) by (unfold new_service in Hs; repeat case_match; by go_inv).
  apply new_service_ok in Hs. rewrite !subnet_prefix_at by done. unfold derive_ipv6.
  rewrite (proj2 (Z.ltb_ge 48 bits)) by done. eexists _, _. split; [reflexivity|]. split; [reflexivity|].
  destruct (net_addr_range s Hs i Hi) as (A1 & A2 & A3 & A4). destruct (net_addr_range s Hs j Hj) as (B1 & B2 & B3 & B4).
  pose proof (step_pos s Hs) as H4.
  assert (Hstep : (256 | na_step s)).
  { rewrite (po_step s Hs), Hp. exists (2 ^ (24 - p)). change 256 with (2 ^ 8). rewrite <- Z.pow_add_r by (destruct Hs; lia). f_equal. lia. }
  set (a := net_addr s i) in *. set (b := net_addr s j) in *.
  assert (Hab : a <> b).
  { subst a b. rewrite !net_addr_value by done. nia. }
  intros [= Heq]. apply Hab.
  assert (H2 : octet a 2 = octet b 2 /\ octet a 1 = octet b 1).
  { assert (Hl : <[7%nat := octet a 1]> (<[6%nat := octet a 2]> bytes) = <[7%nat := octet b 1]> (<[6%nat := octet b 2]> bytes)) by done.
    split; [pose proof (f_equal (.!! 6%nat) Hl) as Hk|pose proof (f_equal (.!! 7%nat) Hl) as Hk]; simpl in Hk.
    - rewrite !(list_lookup_insert_ne _ 7 6), !list_lookup_insert_eq in Hk by (done || lia). congruence.
    - rewrite !list_lookup_insert_eq in Hk by (rewrite length_insert; lia). congruence. }
  destruct H2 as [H2 H1]. rewrite !octet_div in H1, H2 by lia.
  assert (Hd : forall x, (na_step s | x) -> x `mod` 256 = 0) by (intros x Hx; apply Z.mod_divide; [done|by eapply Z.divide_trans]).
  apply Hd in A3, B3. change (2 ^ (8 * 2)) with 65536 in *. change (2 ^ (8 * 1)) with 256 in *. change (2 ^ 24) with 16777216 in *.
  clear Hd Hstep Heq Hab Hlen Hs. generalize dependent (na_total s * na_step s). intros w; intros.
  Z.to_euclidean_division_equations. lia.
Qed.

(** ** A ledger in memory *)

Module NetLedger.
#[global] Instance list_ledger : Ledger (list net_row) := {
  led_rows l := l;
  led_create l r :=
    if existsb (fun x => String.eqb (nr_name x) (nr_name r) || String.eqb (nr_subnet x) (nr_subnet r)) l then None
    else Some (l ++ [r]);
  led_delete l n := filter (fun r => nr_name r <> n) l }.

#[global] Instance list_ledger_laws : LedgerLaws (list net_row).
Proof.
  split; simpl.
  - intros l r l'. destruct (existsb _ l) eqn:E; [done|]. intros [= <-]. rewrite existsb_elem_false in E.
    split_and!; [done|..]; intros (x & Hx & Hin)%list_elem_of_fmap; specialize (E x Hin); rewrite Hx, String.eqb_refl, ?orb_true_r in E; done.
  - intros l r. destruct (existsb _ l) eqn:E; [|done]. intros _. apply existsb_elem in E as (x & Hin & E).
    apply orb_true_iff in E as [E|E]; apply String.eqb_eq in E; rewrite <- E; [left|right]; by apply list_elem_of_fmap_2.
  - done.
Qed.

Definition service : netalloc :=
  match new_service "10.64.0.0/22" 24 with Ok s => s | Err _ => Netalloc 0 0 0 0 false None end.
Definition large : netalloc :=
  match new_service "10.64.0.0/20" 24 with Ok s => s | Err _ => Netalloc 0 0 0 0 false None end.
Definition top : netalloc :=
  match new_service "240.0.0.0/4" 24 with Ok s => s | Err _ => Netalloc 0 0 0 0 false None end.
Definition imported : list net_row :=
  match import_existing large (Ok ["10.64.0.0/16"]) 0 ([] : list net_row) with Ok l => l | Err _ => [] end.
Definition rows (r : result netalloc_error (list net_row * net_row)) : list net_row :=
  match r with Ok (l, _) => l | Err _ => [] end.
Definition one : list net_row := rows (allocate service ([] : list net_row) "ws-1" 0 "workspace").
Definition two : list net_row := rows (allocate service one "ws-2" 0 "workspace").
Definition ws1 : net_row := NetRow "ws-1" "10.64.0.0/24" "10.64.0.1" 0 "workspace".
Definition ws2 : net_row := NetRow "ws-2" "10.64.1.0/24" "10.64.1.1" 0 "workspace".

Lemma service_ok : new_service "10.64.0.0/22" 24 = Ok service.
Proof. by vm_compute. Qed.
Lemma two_steps : rtc (ledger_step service) ([] : list net_row) two.
Proof.
  apply (rtc_l _ _ one).
  - apply (ls_allocate service ([] : list net_row) "ws-1" 0 "workspace" one ws1). by vm_compute.
  - apply rtc_once. apply (ls_allocate service one "ws-2" 0 "workspace" two ws2). by vm_compute.
Qed.
End NetLedger.

Definition demo_docker (more : nat) (spec : network_spec) : result string string :=
  if String.eqb (sp_subnet spec) "10.64.2.0/24" then Err "Pool overlaps with other one on this address space" else Ok "net-id".

(** The first free subnet overlaps a network of the host, so the next one is pinned. *)
(** [ImportExisting] reserves the text of an existing network's subnet, not its
    addresses: with a network 10.64.0.0/16 on the node, the first subnet handed out afterwards lies inside
    it. And subnets longer than /24 share their IPv6 /64. *)
Lemma import_overlap :
  exists s l,
    new_service "10.64.0.0/20" 24 = Ok s
    /\ import_existing s (Ok ["10.64.0.0/16"]) 0 ([] : list net_row) = Ok l
    /\ (exists l' r, allocate s l "ws-1" 0 "workspace" = Ok (l', r) /\ nr_subnet r = "10.64.0.0/24")
    /\ forall ula, derive_ipv6 ula (subnet_prefix_of "10.64.0.0/26") = derive_ipv6 ula (subnet_prefix_of "10.64.0.64/26").
Proof.
  exists NetLedger.large, NetLedger.imported. split; [by vm_compute|]. split; [by vm_compute|]. split.
  - exists (NetLedger.rows (allocate NetLedger.large NetLedger.imported "ws-1" 0 "workspace")), NetLedger.ws1. split; by vm_compute.
  - intros [[[]|]|]; reflexivity.
Qed.
