(* ===== verification/Workloads.v ===== *)
(** * Stopping and starting a workspace's workloads

    [internal/services/account/account.go]: [StopWorkspace], [StopWorkspaceApps] and
    [StartWorkspace], over the operations the service asks of the application and database
    services (the interfaces [AppOps], [DBOps], [AppStarter], [DBStarter]): the class
    [WorkloadOps] with the laws [WorkloadLaws]. [Tables] implements it with [Start] and [Stop] of
    [internal/services/application/application.go] and [internal/services/database/database.go]
    over the two tables; the answers of the Docker engine, of Swarm, of the data-volume guard and
    of the deploy queue are an argument. *)
From S2P Require Import Prelude GoStrings.
#[local] Open Scope list_scope.

(** ** Rows and statuses *)

Inductive kind := App | Database.
#[export] Instance kind_eq_dec : EqDecision kind.
Proof. solve_decision. Defined.

Definition status_running : string := "running".
Definition status_stopped : string := "stopped".
Definition status_upgrading : string := "upgrading".

(** [models.Application] and [models.DatabaseInstance], what stopping and starting read of them:
    [wl_service] is [RuntimeKind == RuntimeService], [wl_container] whether there is a container. *)
Record workload := Workload {
  wl_id : N; wl_status : string; wl_service : bool; wl_redeploy : bool; wl_container : bool }.

Definition with_wl_status (st : string) (x : workload) : workload :=
  Workload (wl_id x) st (wl_service x) (wl_redeploy x) (wl_container x).

Definition mark (st : string) (ids : list N) (l : list workload) : list workload :=
  (fun x => if bool_decide (wl_id x ∈ ids) then with_wl_status st x else x) <$> l.

(** What a start answers: the workload runs, or a deployment of it is queued, or an error. *)
Inductive start_answer := Running | Queued | StartFailed.
#[export] Instance start_answer_eq_dec : EqDecision start_answer.
Proof. solve_decision. Defined.

(** ** The operations *)

Class WorkloadOps (W : Type) := {
  (** [ListByWorkspace] of the two repositories *)
  wo_list : W -> kind -> N -> list workload;
  wo_stop : W -> kind -> N -> workload -> W * bool;
  wo_start : W -> kind -> N -> workload -> W * start_answer;
  (** the services also implement [AppStarter] and [DBStarter] *)
  wo_can_start : W -> bool }.

(** What the two services promise: an operation on a listed row only changes that row's status, and
    one that fails changes nothing. *)
Class WorkloadLaws (W : Type) `{WorkloadOps W} := {
  wo_stop_list : forall w k ws x k' ws', x ∈ wo_list w k ws -> NoDup (wl_id <$> wo_list w k ws) ->
    wo_list (wo_stop w k ws x).1 k' ws' =
    if bool_decide (k' = k /\ ws' = ws) && (wo_stop w k ws x).2
    then mark status_stopped [wl_id x] (wo_list w k' ws') else wo_list w k' ws';
  wo_start_list : forall w k ws x k' ws', x ∈ wo_list w k ws -> NoDup (wl_id <$> wo_list w k ws) ->
    wo_list (wo_start w k ws x).1 k' ws' =
    if bool_decide (k' = k /\ ws' = ws) && bool_decide ((wo_start w k ws x).2 = Running)
    then mark status_running [wl_id x] (wo_list w k' ws') else wo_list w k' ws';
  wo_stop_can : forall w k ws x, wo_can_start (wo_stop w k ws x).1 = wo_can_start w;
  wo_start_can : forall w k ws x, wo_can_start (wo_start w k ws x).1 = wo_can_start w }.

(** What the outside would answer to a start does not depend on the stops and starts in between. *)
Class SteadyOutside (W : Type) `{WorkloadOps W} : Prop := {
  steady_stop : forall w k ws x k' ws' y, (wo_start (wo_stop w k ws x).1 k' ws' y).2 = (wo_start w k' ws' y).2;
  steady_start : forall w k ws x k' ws' y, (wo_start (wo_start w k ws x).1 k' ws' y).2 = (wo_start w k' ws' y).2 }.

(** [models.FrozenResources] *)
Record frozen_resources := FrozenResources { fr_apps : list N; fr_databases : list N }.
Definition no_frozen : frozen_resources := FrozenResources [] [].
#[export] Instance frozen_resources_eq_dec : EqDecision frozen_resources.
Proof. solve_decision. Defined.

Definition frozen_ids (fr : frozen_resources) (k : kind) : list N :=
  match k with App => fr_apps fr | Database => fr_databases fr end.

Record start_result := StartResult { sr_apps : Z; sr_databases : Z; sr_failed : Z }.

Section Account.
Context {W : Type} `{WorkloadOps W}.

(** A loop of [stopWorkspace]: the running rows are stopped, and those that did stop are recorded. *)
Fixpoint stop_each (k : kind) (ws : N) (rows : list workload) (w : W) : W * list N :=
  match rows with
  | [] => (w, [])
  | x :: rows' =>
      if String.eqb (wl_status x) status_running then
        let '(w1, ok) := wo_stop w k ws x in
        let '(w2, ids) := stop_each k ws rows' w1 in
        (w2, if ok then wl_id x :: ids else ids)
      else stop_each k ws rows' w
  end.

(** [stopWorkspace] *)
Definition stop_workspace_gen (w : W) (ws : N) (databases : bool) : W * frozen_resources :=
  let '(w1, apps) := stop_each App ws (wo_list w App ws) w in
  if databases then
    let '(w2, dbs) := stop_each Database ws (wo_list w1 Database ws) w1 in (w2, FrozenResources apps dbs)
  else (w1, FrozenResources apps []).
Definition stop_workspace (w : W) (ws : N) : W * frozen_resources := stop_workspace_gen w ws true.
Definition stop_workspace_apps (w : W) (ws : N) : W * frozen_resources := stop_workspace_gen w ws false.

Definition want (ids : list N) (id : N) : bool := existsb (N.eqb id) ids.

(** A loop of [StartWorkspace]: the stopped rows that are wanted are started; the count of those
    brought back, and of those that failed. *)
Fixpoint start_each (k : kind) (ws : N) (only : option (list N)) (rows : list workload) (w : W) : W * (Z * Z) :=
  match rows with
  | [] => (w, (0%Z, 0%Z))
  | x :: rows' =>
      if negb (String.eqb (wl_status x) status_stopped) ||
         match only with Some ids => negb (want ids (wl_id x)) | None => false end
      then start_each k ws only rows' w
      else
        let '(w1, a) := wo_start w k ws x in
        let '(w2, (up, failed)) := start_each k ws only rows' w1 in
        (w2, if bool_decide (a = StartFailed) then (up, failed + 1)%Z else (up + 1, failed)%Z)
  end.

(** [StartWorkspace]; the error is that a service cannot start workloads at all. *)
Definition start_workspace (w : W) (ws : N) (only : option frozen_resources) : W * result unit start_result :=
  if negb (wo_can_start w) then (w, Err tt)
  else
    let '(w1, (dbs, f1)) := start_each Database ws (fr_databases <$> only) (wo_list w Database ws) w in
    let '(w2, (apps, f2)) := start_each App ws (fr_apps <$> only) (wo_list w1 App ws) w1 in
    (w2, Ok (StartResult apps dbs (f1 + f2))).
End Account.

(** ** The application and database services *)

(** What the outside answers for a workload of that kind and id. *)
Record outside := Outside {
  ou_stop : kind -> N -> bool;      (** [StopContainer], or [ServiceScale] to 0 *)
  ou_start : kind -> N -> bool;     (** [StartContainer], or [ServiceScale] up *)
  ou_engine : kind -> N -> bool;    (** [swarmManager], [dockerFor] *)
  ou_data : kind -> N -> bool;      (** [guardData] finds every volume *)
  ou_enqueue : N -> bool;           (** [Redeploy] queues a deployment *)
  ou_node_gone : N -> bool }.

Record tables := Tables { tb_rows : kind -> N -> list workload; tb_outside : outside }.

Definition set_status (t : tables) (k : kind) (ws id : N) (st : string) : tables :=
  Tables (fun k' ws' => if bool_decide (k' = k /\ ws' = ws) then mark st [id] (tb_rows t k' ws') else tb_rows t k' ws')
    (tb_outside t).

(** [application.Service.Stop]: the intent is written first, and taken back when the stop fails. *)
Definition app_stop (t : tables) (ws : N) (x : workload) : tables * bool :=
  let o := tb_outside t in
  let t1 := set_status t App ws (wl_id x) status_stopped in
  let back := (set_status t1 App ws (wl_id x) (wl_status x), false) in
  if wl_service x then
    if negb (ou_engine o App (wl_id x)) then back
    else if negb (ou_stop o App (wl_id x)) then back
    else (t1, true)
  else if negb (wl_container x) then back
  else if negb (ou_stop o App (wl_id x)) then back
  else (t1, true).

(** [application.Service.Start] *)
Definition app_start (t : tables) (ws : N) (x : workload) : tables * start_answer :=
  let o := tb_outside t in
  let up := (set_status t App ws (wl_id x) status_running, Running) in
  if negb (ou_data o App (wl_id x)) then (t, StartFailed)
  else if wl_redeploy x then (t, if ou_enqueue o (wl_id x) then Queued else StartFailed)
  else if wl_service x then
    if negb (ou_engine o App (wl_id x)) then (t, StartFailed)
    else if negb (ou_start o App (wl_id x)) then (t, StartFailed)
    else up
  else if negb (wl_container x) then (t, StartFailed)
  else if negb (ou_start o App (wl_id x)) then (t, StartFailed)
  else up.

(** [database.Service.Stop] *)
Definition db_stop (t : tables) (ws : N) (x : workload) : tables * bool :=
  let o := tb_outside t in
  if String.eqb (wl_status x) status_upgrading then (t, false)
  else if ou_node_gone o (wl_id x) then (set_status t Database ws (wl_id x) status_stopped, true)
  else if negb (wl_container x) then (t, false)
  else if negb (ou_engine o Database (wl_id x)) then (t, false)
  else if negb (ou_stop o Database (wl_id x)) then (t, false)
  else (set_status t Database ws (wl_id x) status_stopped, true).

(** [database.Service.Start] *)
Definition db_start (t : tables) (ws : N) (x : workload) : tables * start_answer :=
  let o := tb_outside t in
  if String.eqb (wl_status x) status_upgrading then (t, StartFailed)
  else if negb (wl_container x) then (t, StartFailed)
  else if negb (ou_data o Database (wl_id x)) then (t, StartFailed)
  else if negb (ou_engine o Database (wl_id x)) then (t, StartFailed)
  else if negb (ou_start o Database (wl_id x)) then (t, StartFailed)
  else (set_status t Database ws (wl_id x) status_running, Running).

#[export] Instance tables_ops : WorkloadOps tables := {
  wo_list t := fun k ws => tb_rows t k ws;
  wo_stop t k ws x := match k with App => app_stop t ws x | Database => db_stop t ws x end;
  wo_start t k ws x := match k with App => app_start t ws x | Database => db_start t ws x end;
  wo_can_start _ := true }.

(** * Facts *)

Lemma mark_ids st ids l : wl_id <$> mark st ids l = wl_id <$> l.
Proof.
  unfold mark. rewrite <- list_fmap_compose. apply list_fmap_ext. intros i x _. simpl.
  by destruct (bool_decide _).
Qed.

Lemma mark_nil st l : mark st [] l = l.
Proof.
  unfold mark. rewrite <- (list_fmap_id l) at 2. apply list_fmap_ext. intros i x _.
  cbn beta. by rewrite bool_decide_eq_false_2 by inversion 1.
Qed.

Lemma mark_mark st ids1 ids2 l : mark st ids1 (mark st ids2 l) = mark st (ids2 ++ ids1) l.
Proof.
  unfold mark. rewrite <- list_fmap_compose. apply list_fmap_ext. intros i x _. simpl.
  repeat case_bool_decide; simpl in *; try done; exfalso; set_solver.
Qed.

(** A mark only touches the rows it names. *)
Lemma mark_other st ids l x : x ∈ l -> wl_id x ∉ ids -> x ∈ mark st ids l.
Proof.
  intros Hx Hid. apply list_elem_of_fmap. exists x. by rewrite bool_decide_eq_false_2.
Qed.

(** Marking back the rows a mark had changed restores the table. *)
Lemma mark_back st ids1 ids2 st' l :
  (forall x, x ∈ l -> wl_id x ∈ ids1 -> wl_id x ∈ ids2 /\ wl_status x = st) ->
  (forall x, x ∈ l -> wl_id x ∈ ids2 -> wl_id x ∈ ids1) ->
  mark st ids2 (mark st' ids1 l) = l.
Proof.
  intros H1 H2. unfold mark. rewrite <- list_fmap_compose. rewrite <- (list_fmap_id l) at 2.
  apply list_fmap_ext. intros i x Hi. apply list_elem_of_lookup_2 in Hi. simpl.
  destruct (decide (wl_id x ∈ ids1)) as [Hin|Hin].
  - destruct (H1 x Hi Hin) as [Hin2 Hst]. rewrite (bool_decide_eq_true_2 _ Hin). simpl.
    rewrite bool_decide_eq_true_2 by done. destruct x; simpl in *. by subst.
  - rewrite (bool_decide_eq_false_2 _ Hin). rewrite bool_decide_eq_false_2; [done|].
    intros Hin2. by apply Hin, H2.
Qed.

Lemma want_spec ids id : want ids id = true <-> id ∈ ids.
Proof.
  unfold want. rewrite existsb_elem. split.
  - intros (y & Hy & E). apply N.eqb_eq in E as ->. done.
  - intros Hin. exists id. by rewrite N.eqb_refl.
Qed.

(** Whether a table is the one an operation on (k, ws) works on. *)
Lemma at_table (k : kind) (ws : N) : bool_decide (k = k /\ ws = ws) = true.
Proof. by apply bool_decide_eq_true_2. Qed.
Lemma off_workspace (k k' : kind) (ws ws' : N) : ws' <> ws -> bool_decide (k' = k /\ ws' = ws) = false.
Proof. intros Hne. apply bool_decide_eq_false_2. by intros [_ ?]. Qed.
Lemma off_kind (k k' : kind) (ws ws' : N) : k' <> k -> bool_decide (k' = k /\ ws' = ws) = false.
Proof. intros Hne. apply bool_decide_eq_false_2. by intros [? _]. Qed.

Section AccountFacts.
Context {W : Type} `{WorkloadLaws W}.

Definition distinct (w : W) (k : kind) (ws : N) : Prop := NoDup (wl_id <$> wo_list w k ws).

(** The rows a stop loop records were listed as running; the table shows them stopped, and nothing
    else has changed. *)
Lemma stop_each_spec (k : kind) (ws : N) (rows : list workload) (w : W) :
  distinct w k ws -> NoDup (wl_id <$> rows) -> (forall x, x ∈ rows -> x ∈ wo_list w k ws) ->
  forall w' ids, stop_each k ws rows w = (w', ids) ->
  (forall id, id ∈ ids -> exists x, x ∈ rows /\ wl_id x = id /\ wl_status x = status_running) /\
  (forall k' ws', wo_list w' k' ws' =
     if bool_decide (k' = k /\ ws' = ws) then mark status_stopped ids (wo_list w k' ws') else wo_list w k' ws') /\
  wo_can_start w' = wo_can_start w.
Proof.
  revert w. induction rows as [|x rows IH]; intros w Hd Hnd Hin w' ids' Hrun; simpl in Hrun.
  { simplify_eq. split; [by inversion 1|]. split; [|done]. intros k' ws'. rewrite mark_nil. by case_bool_decide. }
  rewrite fmap_cons, NoDup_cons in Hnd. destruct Hnd as [Hx Hnd].
  destruct (String.eqb_spec (wl_status x) status_running) as [Hst|Hst].
  - pose proof (wo_stop_list w k ws x) as Hl. pose proof (wo_stop_can w k ws x) as Hc.
    destruct (wo_stop w k ws x) as [w1 ok] eqn:Hop. simpl in *.
    assert (Hl1 : wo_list w1 k ws = if ok then mark status_stopped [wl_id x] (wo_list w k ws) else wo_list w k ws).
    { rewrite Hl by (done || apply Hin; left). by rewrite bool_decide_eq_true_2. }
    specialize (IH w1). destruct (stop_each k ws rows w1) as [w2 ids]. simplify_eq.
    edestruct IH as (Hids & Hlist & Hcan).
    + unfold distinct. rewrite Hl1. destruct ok; [|done]. by rewrite mark_ids.
    + done.
    + intros y Hy. rewrite Hl1. destruct ok; [|by apply Hin; right].
      apply mark_other; [by apply Hin; right|]. intros Heq. apply Hx. apply list_elem_of_singleton in Heq.
      rewrite <- Heq. by apply list_elem_of_fmap_2.
    + done.
    + split; [|split].
      * intros id Hid. destruct ok.
        -- apply elem_of_cons in Hid as [->|Hid]; [exists x; split; [left|done]|].
           destruct (Hids id Hid) as (y & Hy & ?). exists y. split; [by right|done].
        -- destruct (Hids id Hid) as (y & Hy & ?). exists y. split; [by right|done].
      * intros k' ws'. rewrite Hlist, (Hl k' ws') by (done || apply Hin; left).
        case_bool_decide; simpl; [|done]. destruct ok; [|done]. by rewrite mark_mark.
      * congruence.
  - edestruct (IH w) as (Hids & Hlist & Hcan); [done|done|intros y Hy; apply Hin; by right|exact Hrun|].
    split; [|done]. intros id Hid. destruct (Hids id Hid) as (y & Hy & ?). exists y. split; [by right|done].
Qed.

(** The rows a start loop brings back: those listed as stopped and wanted, when every start answers
    that the workload runs. *)
Definition wanted (only : option (list N)) (x : workload) : bool :=
  String.eqb (wl_status x) status_stopped && match only with Some ids => want ids (wl_id x) | None => true end.

Lemma wanted_false only x :
  negb (String.eqb (wl_status x) status_stopped) ||
    match only with Some ids => negb (want ids (wl_id x)) | None => false end = negb (wanted only x).
Proof.
  unfold wanted. destruct (String.eqb (wl_status x) status_stopped), only; simpl; try done.
Qed.

Lemma start_each_spec (k : kind) (ws : N) (only : option (list N)) (rows : list workload) (w : W) :
  distinct w k ws -> NoDup (wl_id <$> rows) -> (forall x, x ∈ rows -> x ∈ wo_list w k ws) ->
  forall w' up failed, start_each k ws only rows w = (w', (up, failed)) ->
  exists ids,
    (forall id, id ∈ ids -> exists x, x ∈ rows /\ wl_id x = id /\ wanted only x = true) /\
  (SteadyOutside W -> (forall x, x ∈ rows -> wanted only x = true -> (wo_start w k ws x).2 = Running) ->
       failed = 0%Z /\ forall x, x ∈ rows -> wanted only x = true -> wl_id x ∈ ids) /\
  (forall k' ws', wo_list w' k' ws' =
       if bool_decide (k' = k /\ ws' = ws) then mark status_running ids (wo_list w k' ws') else wo_list w k' ws') /\
  wo_can_start w' = wo_can_start w.
Proof.
  revert w. induction rows as [|x rows IH]; intros w Hd Hnd Hin w' up' failed' Hrun; simpl in Hrun.
  { simplify_eq. exists []. split; [by inversion 1|]. split; [intros _ _; split; [done|by inversion 1]|]. split; [|done].
    intros k' ws'. rewrite mark_nil. by case_bool_decide. }
  rewrite fmap_cons, NoDup_cons in Hnd. destruct Hnd as [Hx Hnd]. rewrite wanted_false in Hrun.
  destruct (wanted only x) eqn:Hw; simpl in Hrun.
  - pose proof (wo_start_list w k ws x) as Hl. pose proof (wo_start_can w k ws x) as Hc.
    destruct (wo_start w k ws x) as [w1 a] eqn:Hop. simpl in *.
    assert (Hl1 : wo_list w1 k ws =
      if bool_decide (a = Running) then mark status_running [wl_id x] (wo_list w k ws) else wo_list w k ws).
    { rewrite Hl by (done || apply Hin; left). by rewrite bool_decide_eq_true_2. }
    specialize (IH w1). destruct (start_each k ws only rows w1) as [w2 [up failed]].
    edestruct IH as (ids & Hids & Hup & Hlist & Hcan).
    + unfold distinct. rewrite Hl1. case_bool_decide; [|done]. by rewrite mark_ids.
    + done.
    + intros y Hy. rewrite Hl1. case_bool_decide; [|by apply Hin; right].
      apply mark_other; [by apply Hin; right|]. intros Heq. apply Hx. apply list_elem_of_singleton in Heq.
      rewrite <- Heq. by apply list_elem_of_fmap_2.
    + done.
    + assert (w' = w2) as -> by (case_bool_decide; congruence).
      exists ((if bool_decide (a = Running) then [wl_id x] else []) ++ ids). split; [|split; [|split]].
      * intros id Hid. apply elem_of_app in Hid as [Hid|Hid].
        -- case_bool_decide; [|by inversion Hid]. apply list_elem_of_singleton in Hid as ->. exists x. split; [left|done].
        -- destruct (Hids id Hid) as (y & Hy & ?). exists y. split; [by right|done].
      * intros Hsteady Hall.
        assert (a = Running) as -> by (specialize (Hall x ltac:(left) Hw); rewrite Hop in Hall; done).
        destruct (Hup Hsteady) as [-> Hids2].
        { intros y Hy Hwy. pose proof (steady_start w k ws x k ws y) as Hs. rewrite Hop in Hs. simpl in Hs. rewrite Hs.
          apply Hall; [by right|done]. } simpl in Hrun. simplify_eq. split; [done|].
        intros y Hy Hwy. apply elem_of_cons in Hy as [->|Hy]; [left|right; by apply Hids2].
      * intros k' ws'. rewrite Hlist, (Hl k' ws') by (done || apply Hin; left).
        destruct (decide (k' = k /\ ws' = ws)) as [Hk|Hk]; [|by rewrite !(bool_decide_eq_false_2 _ Hk)].
        rewrite !(bool_decide_eq_true_2 _ Hk). destruct a; simpl; [by rewrite mark_mark|done|done].
      * congruence.
  - edestruct (IH w) as (ids & Hids & Hup & Hlist & Hcan); [done|done|intros y Hy; apply Hin; by right|exact Hrun|].
    exists ids. split; [|split; [|done]].
    + intros id Hid. destruct (Hids id Hid) as (y & Hy & ?). exists y. split; [by right|done].
    + intros Hsteady Hall. destruct (Hup Hsteady) as [-> Hids2]; [intros y Hy; apply Hall; by right|]. split; [done|].
      intros y Hy Hwy. apply elem_of_cons in Hy as [->|Hy]; [congruence|by apply Hids2].
Qed.

Lemma stop_workspace_spec (w : W) (ws : N) (databases : bool) :
  (forall k, distinct w k ws) ->
  forall w' fr, stop_workspace_gen w ws databases = (w', fr) ->
  (forall k id, id ∈ frozen_ids fr k ->
     exists x, x ∈ wo_list w k ws /\ wl_id x = id /\ wl_status x = status_running) /\
  (forall k' ws', wo_list w' k' ws' =
     if bool_decide (ws' = ws) then mark status_stopped (frozen_ids fr k') (wo_list w k' ws') else wo_list w k' ws') /\
  wo_can_start w' = wo_can_start w.
Proof.
  intros Hd w' fr. unfold stop_workspace_gen.
  destruct (stop_each App ws (wo_list w App ws) w) as [w1 apps] eqn:H1.
  destruct (stop_each_spec App ws (wo_list w App ws) w (Hd App) (Hd App) (fun x Hx => Hx) _ _ H1) as (Hi1 & Hl1 & Hc1).
  assert (Hdb : wo_list w1 Database ws = wo_list w Database ws).
  { by rewrite Hl1, off_kind. }
  destruct databases.
  - destruct (stop_each Database ws (wo_list w1 Database ws) w1) as [w2 dbs] eqn:H2. intros Heq. simplify_eq.
    assert (Hd1 : distinct w1 Database ws) by (unfold distinct; rewrite Hdb; apply Hd).
    destruct (stop_each_spec Database ws _ w1 Hd1 Hd1 (fun x Hx => Hx) _ _ H2) as (Hi2 & Hl2 & Hc2).
    split; [|split; [|congruence]].
    + intros [] id Hid; simpl in Hid; [by apply Hi1|]. rewrite <- Hdb. by apply Hi2.
    + intros k' ws'. rewrite Hl2, Hl1. destruct (decide (ws' = ws)) as [->|Hne].
      * rewrite (bool_decide_eq_true_2 (ws = ws)) by done. destruct k'; [by rewrite (off_kind Database App), at_table|by rewrite (off_kind App Database), at_table].
      * rewrite (bool_decide_eq_false_2 (ws' = ws)) by done.
        by rewrite !off_workspace by done.
  - intros Heq. simplify_eq. split; [|split; [|done]].
    + intros [] id Hid; simpl in Hid; [by apply Hi1|by inversion Hid].
    + intros k' ws'. rewrite Hl1. destruct (decide (ws' = ws)) as [->|Hne].
      * rewrite (bool_decide_eq_true_2 (ws = ws)) by done.
        destruct k'; [by rewrite at_table|]. by rewrite off_kind, mark_nil.
      * by rewrite (bool_decide_eq_false_2 (ws' = ws)), off_workspace by done.
Qed.

Lemma stop_each_steady `{!SteadyOutside W} (k : kind) (ws : N) rows (w : W) k' ws' y :
  (wo_start (stop_each k ws rows w).1 k' ws' y).2 = (wo_start w k' ws' y).2.
Proof.
  revert w. induction rows as [|x rows IH]; intros w; simpl; [done|]. destruct (String.eqb _ _); [|done].
  pose proof (steady_stop w k ws x k' ws' y) as Hs. destruct (wo_stop w k ws x) as [w1 ok]. simpl in Hs.
  specialize (IH w1). destruct (stop_each k ws rows w1) as [w2 ids]. simpl in *. congruence.
Qed.

Lemma start_each_steady `{!SteadyOutside W} (k : kind) (ws : N) only rows (w : W) k' ws' y :
  (wo_start (start_each k ws only rows w).1 k' ws' y).2 = (wo_start w k' ws' y).2.
Proof.
  revert w. induction rows as [|x rows IH]; intros w; simpl; [done|].
  destruct (_ || _); [done|].
  pose proof (steady_start w k ws x k' ws' y) as Hs. destruct (wo_start w k ws x) as [w1 a]. simpl in Hs.
  specialize (IH w1). destruct (start_each k ws only rows w1) as [w2 [up failed]]. simpl in IH.
  destruct a; simpl; congruence.
Qed.

Lemma stop_workspace_steady `{!SteadyOutside W} (w : W) ws databases k' ws' y :
  (wo_start (stop_workspace_gen w ws databases).1 k' ws' y).2 = (wo_start w k' ws' y).2.
Proof.
  unfold stop_workspace_gen. pose proof (stop_each_steady App ws (wo_list w App ws) w k' ws' y) as H1.
  destruct (stop_each App ws _ w) as [w1 apps]. destruct databases; [|done].
  pose proof (stop_each_steady Database ws (wo_list w1 Database ws) w1 k' ws' y) as H2.
  destruct (stop_each Database ws _ w1) as [w2 dbs]. simpl in *. congruence.
Qed.

(** Starting what a stop recorded restores every row, when the rows were running and every start
    answers that the workload runs. *)
Lemma start_after_stop `{!SteadyOutside W} (w w1 : W) (ws : N) (fr : frozen_resources) :
  (forall k, distinct w k ws) ->
  (forall k id, id ∈ frozen_ids fr k ->
     exists x, x ∈ wo_list w k ws /\ wl_id x = id /\ wl_status x = status_running) ->
  (forall k' ws', wo_list w1 k' ws' =
     if bool_decide (ws' = ws) then mark status_stopped (frozen_ids fr k') (wo_list w k' ws') else wo_list w k' ws') ->
  wo_can_start w1 = true ->
  (forall k x, x ∈ wo_list w k ws -> wl_status x = status_running ->
     (wo_start w1 k ws (with_wl_status status_stopped x)).2 = Running) ->
  exists w' r, start_workspace w1 ws (Some fr) = (w', Ok r) /\ sr_failed r = 0%Z /\
    (forall k' ws', wo_list w' k' ws' = wo_list w k' ws').
Proof.
  intros Hd Hfr Hl Hcan Hrun. unfold start_workspace. rewrite Hcan. simpl.
  assert (Hws : forall k, wo_list w1 k ws = mark status_stopped (frozen_ids fr k) (wo_list w k ws)).
  { intros k. by rewrite Hl, bool_decide_eq_true_2. }
  assert (Hd1 : forall k, distinct w1 k ws) by (intros k; unfold distinct; rewrite Hws, mark_ids; apply Hd).
  assert (Hrun1 : forall k x, x ∈ wo_list w1 k ws -> wanted (Some (frozen_ids fr k)) x = true ->
    (wo_start w1 k ws x).2 = Running).
  { intros k x Hx Hw. unfold wanted in Hw. apply andb_true_iff in Hw as [_ Hw]. apply want_spec in Hw.
    rewrite Hws in Hx. apply list_elem_of_fmap in Hx as (y & -> & Hy).
    assert (Hid : wl_id y ∈ frozen_ids fr k) by (by destruct (bool_decide (wl_id y ∈ frozen_ids fr k))).
    rewrite (bool_decide_eq_true_2 _ Hid). destruct (Hfr k _ Hid) as (z & Hz & Hze & Hst).
    assert (z = y) as -> by (by apply (NoDup_fmap_elem wl_id (wo_list w k ws)); [apply Hd|..]). by apply Hrun. }
  destruct (start_each Database ws (Some (fr_databases fr)) (wo_list w1 Database ws) w1) as [w2 [dbs f1]] eqn:H2.
  destruct (start_each_spec Database ws _ _ w1 (Hd1 _) (Hd1 _) (fun x Hx => Hx) _ _ _ H2) as (ids & Hi2 & Hup2 & Hl2 & Hc2).
  destruct (Hup2 _ (Hrun1 Database)) as [-> Hall2].
  assert (Happ : wo_list w2 App ws = wo_list w1 App ws).
  { by rewrite Hl2, off_kind. }
  destruct (start_each App ws (Some (fr_apps fr)) (wo_list w2 App ws) w2) as [w3 [apps f2]] eqn:H3.
  assert (Hd2 : distinct w2 App ws) by (unfold distinct; rewrite Happ; apply Hd1).
  destruct (start_each_spec App ws _ _ w2 Hd2 Hd2 (fun x Hx => Hx) _ _ _ H3) as (ids' & Hi3 & Hup3 & Hl3 & Hc3).
  destruct (Hup3 _) as [-> Hall3].
  { intros x Hx Hw. rewrite Happ in Hx. rewrite <- (Hrun1 App x Hx Hw).
    pose proof (start_each_steady Database ws (Some (fr_databases fr)) (wo_list w1 Database ws) w1 App ws x) as Hs.
    by rewrite H2 in Hs. }
  eexists _, _. split; [done|]. split; [done|].
  assert (Hback : forall k idk,
    (forall id, id ∈ idk -> exists x, x ∈ wo_list w1 k ws /\ wl_id x = id /\ wanted (Some (frozen_ids fr k)) x = true) ->
    (forall x, x ∈ wo_list w1 k ws -> wanted (Some (frozen_ids fr k)) x = true -> wl_id x ∈ idk) ->
    mark status_running idk (mark status_stopped (frozen_ids fr k) (wo_list w k ws)) = wo_list w k ws).
  { intros k idk Hin Hall. apply mark_back.
    - intros x Hx Hid. destruct (Hfr k _ Hid) as (y & Hy & Hye & Hst).
      assert (x = y) as <- by (by apply (NoDup_fmap_elem wl_id (wo_list w k ws)); [apply Hd|..]).
      split; [|done]. change (wl_id x) with (wl_id (with_wl_status status_stopped x)). apply Hall.
      + rewrite Hws. apply list_elem_of_fmap. exists x. by rewrite bool_decide_eq_true_2.
      + unfold wanted. simpl. by apply want_spec.
    - intros x Hx Hid. destruct (Hin _ Hid) as (y & _ & <- & Hw). unfold wanted in Hw.
      apply andb_true_iff in Hw as [_ Hw]. by apply want_spec. }
  intros k' ws'. rewrite Hl3, Hl2, Hl. destruct (decide (ws' = ws)) as [->|Hne].
  - rewrite (bool_decide_eq_true_2 (ws = ws)) by done. destruct k'.
    + rewrite at_table, off_kind by done.
      apply Hback; [|intros x Hx; apply Hall3; by rewrite Happ].
      intros id Hid. destruct (Hi3 _ Hid) as (x & Hx & ?). exists x. by rewrite <- Happ.
    + rewrite (off_kind App Database), at_table by done.
      by apply Hback.
  - rewrite (bool_decide_eq_false_2 (ws' = ws)) by done.
    by rewrite !off_workspace by done.
Qed.
End AccountFacts.

(** The two services keep the laws. *)
Lemma mark_same st ids (l : list workload) :
  (forall x, x ∈ l -> wl_id x ∈ ids -> wl_status x = st) -> mark st ids l = l.
Proof.
  intros Hs. unfold mark. rewrite <- (list_fmap_id l) at 2. apply list_fmap_ext. intros i x Hi.
  apply list_elem_of_lookup_2 in Hi. cbn beta. case_bool_decide; [|done].
  rewrite <- (Hs x) by done. by destruct x.
Qed.

Lemma set_status_back t k ws x st :
  x ∈ tb_rows t k ws -> NoDup (wl_id <$> tb_rows t k ws) -> forall k' ws',
  tb_rows (set_status (set_status t k ws (wl_id x) st) k ws (wl_id x) (wl_status x)) k' ws' = tb_rows t k' ws'.
Proof.
  intros Hx Hd k' ws'. simpl. case_bool_decide as Hk; [|done]. destruct Hk as [-> ->].
  unfold mark. rewrite <- list_fmap_compose. rewrite <- (list_fmap_id (tb_rows t k ws)) at 2.
  apply list_fmap_ext. intros i y Hi. apply list_elem_of_lookup_2 in Hi. simpl.
  destruct (decide (wl_id y = wl_id x)) as [He|He].
  - assert (y = x) as -> by (by apply (NoDup_fmap_elem wl_id (tb_rows t k ws))).
    rewrite (bool_decide_eq_true_2 (wl_id x ∈ [wl_id x])) by left. simpl.
    rewrite bool_decide_eq_true_2 by left. by destruct x.
  - rewrite <- list_elem_of_singleton in He. by rewrite !(bool_decide_eq_false_2 _ He).
Qed.

(** One step of a function on tables: split on its next test, or compare the tables. *)
Ltac table_step := match goal with |- context [if ?b then _ else _] =>
  lazymatch b with context [bool_decide] => fail | _ => destruct b end end.

#[export] Instance tables_laws : WorkloadLaws tables.
Proof.
  constructor.
  - intros t k ws x k' ws' Hx Hd. simpl in *. destruct k; [unfold app_stop|unfold db_stop];
      repeat table_step; simpl; rewrite ?andb_true_r, ?andb_false_r; try done;
      by apply (set_status_back t App ws x).
  - intros t k ws x k' ws' Hx Hd. simpl in *. destruct k; [unfold app_start|unfold db_start];
      repeat table_step; simpl; by rewrite ?andb_true_r, ?andb_false_r.
  - intros t k ws x. done.
  - intros t k ws x. done.
Qed.

Lemma tables_outside t k ws x :
  tb_outside (wo_stop t k ws x).1 = tb_outside t /\ tb_outside (wo_start t k ws x).1 = tb_outside t.
Proof.
  split; destruct k; simpl; [unfold app_stop|unfold db_stop|unfold app_start|unfold db_start];
    repeat table_step; done.
Qed.

Lemma tables_answer t t' k ws x :
  tb_outside t = tb_outside t' -> (wo_start t k ws x).2 = (wo_start t' k ws x).2.
Proof.
  intros Ho. destruct k; simpl; [unfold app_start|unfold db_start]; rewrite Ho; repeat table_step; done.
Qed.

#[export] Instance tables_steady : SteadyOutside tables.
Proof. constructor; intros t k ws x k' ws' y; by apply tables_answer, (tables_outside t k ws x). Qed.
