(* ===== verification/Restriction.v ===== *)
(** * Workspace restrictions

    [internal/services/restriction/restriction.go], with the workspace queries it makes
    ([internal/storage/repositories/workspace_repo.go]) and the workloads it stops and restarts
    ([Workloads]). A repository call may fail: the world carries the faults to come, one per call.
    [Service.lookup] is one step here when the service runs alone; [gate_step] splits it, to say how
    old an answer of the gate can be while other requests and other replicas write. Log lines and
    the text of the messages are not modelled. *)
From S2P Require Import Prelude GoStrings GoTime Workloads.
#[local] Open Scope Z_scope.
#[local] Open Scope list_scope.

(** ** The workspace row *)

(** [models.WorkspaceRestriction] is a string. *)
Definition restriction_none : string := "".
Definition restriction_read_only : string := "read_only".
Definition restriction_suspended : string := "suspended".
Definition restriction_frozen : string := "frozen".

(** [WorkspaceRestriction.Valid]: an admin can set it. *)
Definition restriction_valid (r : string) : bool :=
  String.eqb r restriction_read_only || String.eqb r restriction_suspended.

(** [models.Workspace] *)
Record workspace := Workspace {
  ws_id : N; ws_system : bool; ws_restriction : string; ws_reason : string; ws_until : option instant;
  ws_restricted_at : option instant; ws_restricted_by : option N; ws_frozen : option frozen_resources }.

Definition with_restriction (st reason : string) (until at_ : option instant) (by_ : option N) (w : workspace) : workspace :=
  Workspace (ws_id w) (ws_system w) st reason until at_ by_ (ws_frozen w).
Definition with_reason (reason : string) (w : workspace) : workspace :=
  Workspace (ws_id w) (ws_system w) (ws_restriction w) reason (ws_until w) (ws_restricted_at w) (ws_restricted_by w)
    (ws_frozen w).
Definition with_frozen (fr : option frozen_resources) (w : workspace) : workspace :=
  Workspace (ws_id w) (ws_system w) (ws_restriction w) (ws_reason w) (ws_until w) (ws_restricted_at w)
    (ws_restricted_by w) fr.

(** ** The gate *)

Inductive action := ActionWrite | ActionDeploy | ActionRun.

(** [restriction.Error] *)
Record refusal := Refusal { rf_state : string; rf_reason : string; rf_billing : bool }.

(** [Error.Code] *)
Definition refusal_code (e : refusal) : string :=
  if rf_billing e then "BILLING_RESTRICTED"
  else if String.eqb (rf_state e) restriction_suspended then "WORKSPACE_SUSPENDED"
  else if String.eqb (rf_state e) restriction_frozen then "WORKSPACE_FROZEN"
  else "WORKSPACE_READ_ONLY".

(** [Error.Error] *)
Definition refusal_text (e : refusal) : string :=
  let reason := if String.eqb (rf_reason e) "" then "" else ": " +:+ rf_reason e in
  if String.eqb (rf_state e) restriction_frozen then "this workspace is frozen for a migration" +:+ reason
  else "this workspace is " +:+ (if String.eqb (rf_state e) restriction_suspended then "suspended" else "read-only") +:+
       (if rf_billing e then " because of its billing status" else " by the platform administrator") +:+ reason.

Record entry := Entry { en_state : string; en_reason : string; en_billing : bool; en_at : instant }.

Definition cache_ttl : duration := 15 * second.

Inductive rerr :=
| ErrInvalidState | ErrSystem | ErrUntilPast | ErrFrozen | ErrRestricted
| ErrNotFound | ErrDB | ErrStart
| ErrJoin (ids : list N) (errs : list rerr).

(** [Allowed], on what [lookup] answered *)
Definition judge (e : entry) (a : action) : option refusal :=
  let refuse := Some (Refusal (en_state e) (en_reason e) (en_billing e)) in
  if String.eqb (en_state e) restriction_read_only then
    match a with ActionRun => None | _ => refuse end
  else if String.eqb (en_state e) restriction_suspended || String.eqb (en_state e) restriction_frozen then refuse
  else None.

(** The cached entry [lookup] uses, and the one it makes of what it reads: a row that cannot be read
    counts as unrestricted. [billing] is what [billingActor] answers, if it is wired. *)
Definition cached (c : gmap N entry) (now : instant) (id : N) : option entry :=
  match c !! id with
  | Some e => if now - en_at e <? cache_ttl then Some e else None
  | None => None
  end.
Definition entry_of (billing : option N) (at_ : instant) (r : result rerr workspace) : entry :=
  match r with
  | Ok ws =>
      Entry (ws_restriction ws) (ws_reason ws)
        match ws_restricted_by ws, billing with
        | Some by_, Some actor => negb (actor =? 0)%N && (by_ =? actor)%N
        | _, _ => false
        end at_
  | Err _ => Entry restriction_none "" false at_
  end.

(** ** The service *)

(** [wd_told] is the workspaces the [changed] callback was called for, the last first. *)
Record world (W : Type) := World {
  wd_rows : gmap N workspace; wd_loads : W; wd_cache : gmap N entry; wd_now : instant;
  wd_faults : list bool; wd_told : list N }.
Arguments World {W}. Arguments wd_rows {W}. Arguments wd_loads {W}. Arguments wd_cache {W}.
Arguments wd_now {W}. Arguments wd_faults {W}. Arguments wd_told {W}.

Record set_input := SetInput { si_state : string; si_reason : string; si_until : option instant }.

Section Service.
Context {W : Type} `{WorkloadOps W} (billing : option N).

(** Each operation acts on the world and answers or fails. *)
Definition M (A : Type) : Type := world W -> world W * result rerr A.
#[local] Instance M_ret : MRet M := fun A a w => (w, Ok a).
#[local] Instance M_bind : MBind M := fun A B k m w =>
  match m w with (w1, Ok a) => k a w1 | (w1, Err e) => (w1, Err e) end.
Definition fail {A} (e : rerr) : M A := fun w => (w, Err e).

(** A repository call takes the next fault. *)
Definition call {A} (f : world W -> world W * result rerr A) : M A := fun w =>
  let w' := World (wd_rows w) (wd_loads w) (wd_cache w) (wd_now w) (tail (wd_faults w)) (wd_told w) in
  if default false (head (wd_faults w)) then (w', Err ErrDB) else f w'.

Definition find_by_id (id : N) : M workspace := call (fun w => (w, of_option ErrNotFound (wd_rows w !! id))).
Definition set_restriction (id : N) (fields : workspace -> workspace) : M unit :=
  call (fun w => (World (alter fields id (wd_rows w)) (wd_loads w) (wd_cache w) (wd_now w) (wd_faults w) (wd_told w), Ok tt)).
Definition due (now : instant) (w : workspace) : bool :=
  negb (String.eqb (ws_restriction w) restriction_none) &&
  match ws_until w with Some t => t <=? now | None => false end.
Definition list_restrictions_due (now : instant) : M (list workspace) :=
  call (fun w => (w, Ok (List.filter (due now) (map_to_list (wd_rows w)).*2))).

Definition forget (id : N) : M unit := fun w =>
  (World (wd_rows w) (wd_loads w) (delete id (wd_cache w)) (wd_now w) (wd_faults w) (wd_told w), Ok tt).
Definition notify (id : N) : M unit := fun w =>
  (World (wd_rows w) (wd_loads w) (wd_cache w) (wd_now w) (wd_faults w) (id :: wd_told w), Ok tt).
Definition now : M instant := fun w => (w, Ok (wd_now w)).
Definition with_loads {A} (f : W -> W * result rerr A) : M A := fun w =>
  let '(l, r) := f (wd_loads w) in (World (wd_rows w) l (wd_cache w) (wd_now w) (wd_faults w) (wd_told w), r).
Definition remember (id : N) (e : entry) : M unit := fun w =>
  (World (wd_rows w) (wd_loads w) (<[id := e]> (wd_cache w)) (wd_now w) (wd_faults w) (wd_told w), Ok tt).

(** [lookup] *)
Definition lookup_entry (id : N) : M entry := fun w =>
  match cached (wd_cache w) (wd_now w) id with
  | Some e => (w, Ok e)
  | None =>
      let '(w1, r) := find_by_id id w in
      let e := entry_of billing (wd_now w) r in
      (remember id e ≫= fun _ => mret e) w1
  end.

(** [Allowed] *)
Definition allowed (id : N) (a : action) : M (option refusal) :=
  if (id =? 0)%N then mret None
  else e ← lookup_entry id; mret (judge e a).

(** [restart]: what is remembered and still stopped is started, then forgotten. *)
Definition restart (ws : workspace) : M unit :=
  r ← with_loads (fun l =>
        let '(l', r) := start_workspace l (ws_id ws) (Some (default no_frozen (ws_frozen ws))) in
        (l', match r with Ok r => Ok r | Err _ => Err ErrStart end));
  set_restriction (ws_id ws) (with_frozen None).

Definition stopping (stop : W -> N -> W * frozen_resources) (id : N) : M unit :=
  fr ← with_loads (fun l => let '(l', fr) := stop l id in (l', Ok fr));
  set_restriction id (with_frozen (Some fr)).

(** [Set] *)
Definition set (id actor : N) (inp : set_input) : M workspace :=
  if negb (restriction_valid (si_state inp)) then fail ErrInvalidState
  else
    t ← now;
    if match si_until inp with Some u => u <=? t | None => false end then fail ErrUntilPast
    else
      ws ← find_by_id id;
      if ws_system ws then fail ErrSystem
      else if String.eqb (ws_restriction ws) restriction_frozen then fail ErrFrozen
      else
        set_restriction id (with_restriction (si_state inp) (trim_space (si_reason inp)) (si_until inp) (Some t) (Some actor));;
        forget id;;
        (if String.eqb (si_state inp) restriction_suspended && negb (String.eqb (ws_restriction ws) restriction_suspended)
         then stopping stop_workspace id
         else if String.eqb (si_state inp) restriction_read_only && String.eqb (ws_restriction ws) restriction_suspended
         then restart ws
         else mret tt);;
        notify id;;
        find_by_id id.

(** [Lift] *)
Definition lift (id : N) : M workspace :=
  ws ← find_by_id id;
  set_restriction id (with_restriction restriction_none "" None None None);;
  forget id;;
  (if String.eqb (ws_restriction ws) restriction_suspended || String.eqb (ws_restriction ws) restriction_frozen
   then restart ws else mret tt);;
  notify id;;
  find_by_id id.

(** [SetFrozenReason] *)
Definition set_frozen_reason (id : N) (reason : string) : M unit :=
  set_restriction id (with_reason (trim_space reason));;
  forget id.

(** [Freeze] *)
Definition freeze (id actor : N) (reason : string) : M unit :=
  ws ← find_by_id id;
  if ws_system ws then fail ErrSystem
  else if String.eqb (ws_restriction ws) restriction_frozen then set_frozen_reason id reason
  else if negb (String.eqb (ws_restriction ws) restriction_none) then fail ErrRestricted
  else
    t ← now;
    set_restriction id (with_restriction restriction_frozen (trim_space reason) None (Some t) (Some actor));;
    forget id;;
    stopping stop_workspace_apps id;;
    notify id.

(** [Unfreeze] *)
Definition unfreeze (id : N) : M unit :=
  ws ← find_by_id id;
  if negb (String.eqb (ws_restriction ws) restriction_frozen) then mret tt
  else lift id;; mret tt.

(** The loop of [ExpireDue], and [ExpireDue] *)
Fixpoint lift_all (rows : list workspace) (errs : list (N * rerr)) : M (list (N * rerr)) := fun w =>
  match rows with
  | [] => (w, Ok errs)
  | ws :: rows' =>
      match lift (ws_id ws) w with
      | (w1, Ok _) => lift_all rows' errs w1
      | (w1, Err e) => lift_all rows' (errs ++ [(ws_id ws, e)]) w1
      end
  end.
Definition expire_due : M unit :=
  t ← now;
  rows ← list_restrictions_due t;
  errs ← lift_all rows [];
  match errs with [] => mret tt | _ => fail (ErrJoin errs.*1 errs.*2) end.

(** ** The operations as one alphabet *)

Inductive op := OpSet (actor : N) (inp : set_input) | OpLift | OpFreeze (actor : N) (reason : string)
  | OpReword (reason : string) | OpUnfreeze.

Definition run_op (id : N) (o : op) : M unit :=
  match o with
  | OpSet actor inp => set id actor inp;; mret tt
  | OpLift => lift id;; mret tt
  | OpFreeze actor reason => freeze id actor reason
  | OpReword reason => set_frozen_reason id reason
  | OpUnfreeze => unfreeze id
  end.

(** The state machine of a workspace's restriction: where an operation leads from a state, if it is
    not refused. *)
Definition target (o : op) (system : bool) (st : string) : option string :=
  match o with
  | OpSet _ inp =>
      if system || String.eqb st restriction_frozen || negb (restriction_valid (si_state inp)) then None
      else Some (si_state inp)
  | OpLift => Some restriction_none
  | OpFreeze _ _ =>
      if system then None
      else if String.eqb st restriction_frozen || String.eqb st restriction_none then Some restriction_frozen else None
  | OpReword _ => Some st
  | OpUnfreeze => Some (if String.eqb st restriction_frozen then restriction_none else st)
  end.
End Service.

(** ** The gate among other requests and other replicas *)

(** A replica's gate: the rows the database holds and held before (with the instant each version
    came in force, the current first), the cache, and the requests inside [lookup]: begun at an
    instant, and what each has read. *)
Record gate := Gate {
  ga_now : instant; ga_log : list (instant * gmap N workspace); ga_cache : gmap N entry;
  ga_readers : list (N * instant * option entry) }.

Definition current (g : gate) : gmap N workspace := match ga_log g with (_, r) :: _ => r | [] => ∅ end.

Inductive gate_step (billing : option N) (g : gate) : gate -> Prop :=
| gs_tick d : 0 <= d -> gate_step billing g (Gate (ga_now g + d) (ga_log g) (ga_cache g) (ga_readers g))
(** a row is written, by this replica or another *)
| gs_write r : gate_step billing g (Gate (ga_now g) ((ga_now g, r) :: ga_log g) (ga_cache g) (ga_readers g))
| gs_forget id : gate_step billing g (Gate (ga_now g) (ga_log g) (delete id (ga_cache g)) (ga_readers g))
(** [lookup] finds nothing fresh in the cache and notes the time *)
| gs_begin id : cached (ga_cache g) (ga_now g) id = None ->
    gate_step billing g (Gate (ga_now g) (ga_log g) (ga_cache g) ((id, ga_now g, None) :: ga_readers g))
(** it reads the row, or fails to *)
| gs_read id at_ ok rs1 rs2 : ga_readers g = rs1 ++ (id, at_, None) :: rs2 ->
    gate_step billing g (Gate (ga_now g) (ga_log g) (ga_cache g)
      (rs1 ++ (id, at_, Some (entry_of billing at_
         (if ok : bool then of_option ErrNotFound (current g !! id) else Err ErrDB))) :: rs2))
(** it stores what it read *)
| gs_store id at_ e rs1 rs2 : ga_readers g = rs1 ++ (id, at_, Some e) :: rs2 ->
    gate_step billing g (Gate (ga_now g) (ga_log g) (<[id := e]> (ga_cache g)) (rs1 ++ rs2)).

Definition gate_boot (t : instant) (r : gmap N workspace) : gate := Gate t [(t, r)] ∅ [].

(** The database held [r] at the instant [t]: the version was in force by [t], and the next one came
    no earlier. *)
Definition held_at (log : list (instant * gmap N workspace)) (t : instant) (r : gmap N workspace) : Prop :=
  exists newer t0 older, log = newer ++ (t0, r) :: older /\ t0 <= t /\ Forall (fun v => t <= v.1) newer.

(** * The state machine *)

(** The workloads are stopped in these states. *)
Definition stops (st : string) : bool := String.eqb st restriction_suspended || String.eqb st restriction_frozen.

Section Machine.
Context {W : Type} `{WorkloadOps W}.

Abbreviation rows := (gmap N workspace).

(** What an operation does to the rows, whatever it answers; an error is described by [E]. *)
Definition triple {A} (P : rows -> Prop) (m : M (W := W) A) (Q : A -> rows -> Prop) (E : rows -> Prop) : Prop :=
  forall w, P (wd_rows w) ->
    match m w with (w', Ok a) => Q a (wd_rows w') | (w', Err _) => E (wd_rows w') end.

Lemma triple_bind {A B} P (m : M A) Q (k : A -> M B) R E :
  triple P m Q E -> (forall a, triple (Q a) (k a) R E) ->
  triple P (M_bind A B k m) R E.
Proof.
  intros Hm Hk w Hw. unfold M_bind. specialize (Hm w Hw). destruct (m w) as [w1 [a|e]]; [|done]. by apply Hk.
Qed.

(** An operation that leaves the rows alone. *)
Definition keeps_rows {A} (m : M (W := W) A) : Prop := forall w, wd_rows (m w).1 = wd_rows w.

Lemma triple_keeps {A} P (m : M A) (E : rows -> Prop) :
  keeps_rows m -> (forall r, P r -> E r) -> triple P m (fun _ => P) E.
Proof. intros Hm HE w Hw. specialize (Hm w). destruct (m w) as [w1 [a|e]]; simpl in Hm; rewrite Hm; auto. Qed.

Lemma triple_post {A} P (m : M A) (Q Q' : A -> rows -> Prop) (E : rows -> Prop) :
  triple P m Q E -> (forall a r, Q a r -> Q' a r) -> triple P m Q' E.
Proof. intros Hm HQ w Hw. specialize (Hm w Hw). destruct (m w) as [w1 [a|e]]; auto. Qed.

Lemma triple_fail {A} P (e : rerr) (Q : A -> rows -> Prop) (E : rows -> Prop) :
  (forall r, P r -> E r) -> triple P (fail e) Q E.
Proof. intros HE w Hw. by apply HE. Qed.

Lemma triple_ret {A} (P : rows -> Prop) (a : A) (Q : A -> rows -> Prop) E : (forall r, P r -> Q a r) -> triple P (M_ret A a) Q E.
Proof. intros HQ w Hw. by apply HQ. Qed.

Lemma keeps_forget id : keeps_rows (forget id). Proof. done. Qed.
Lemma keeps_notify id : keeps_rows (notify id). Proof. done. Qed.
Lemma keeps_now : keeps_rows now. Proof. done. Qed.
Lemma keeps_loads {A} (f : W -> W * result rerr A) : keeps_rows (with_loads f).
Proof. intros w. unfold with_loads. by destruct (f (wd_loads w)). Qed.
Lemma keeps_find id : keeps_rows (find_by_id id).
Proof. intros w. unfold find_by_id, call. by destruct (default false (head (wd_faults w))). Qed.

(** Only the row of [id] may differ from [r0], and it satisfies [Q]. *)
Definition only_row (id : N) (r0 : rows) (Q : workspace -> Prop) (r : rows) : Prop :=
  (forall j, j <> id -> r !! j = r0 !! j) /\ exists ws, r !! id = Some ws /\ Q ws.

Lemma only_row_impl id r0 (Q Q' : workspace -> Prop) r :
  only_row id r0 Q r -> (forall ws, Q ws -> Q' ws) -> only_row id r0 Q' r.
Proof. intros [Hj (ws & Hws & HQ)] HQQ. split; [done|]. eauto. Qed.

Lemma triple_find id r0 Q (E : rows -> Prop) :
  (forall r, only_row id r0 Q r -> E r) ->
  triple (only_row id r0 Q) (find_by_id id) (fun ws r => Q ws /\ only_row id r0 Q r) E.
Proof.
  intros HE w Hw. unfold find_by_id, call. destruct (default false (head (wd_faults w))); simpl; [by apply HE|].
  pose proof Hw as [_ (ws & Hws & HQ)]. rewrite Hws. done.
Qed.

Lemma triple_set id r0 (Q Q' : workspace -> Prop) f (E : rows -> Prop) :
  (forall r, only_row id r0 Q r -> E r) -> (forall ws, Q ws -> Q' (f ws)) ->
  triple (only_row id r0 Q) (set_restriction id f) (fun _ => only_row id r0 Q') E.
Proof.
  intros HE HQ w Hw. unfold set_restriction, call. destruct (default false (head (wd_faults w))); simpl; [by apply HE|].
  destruct Hw as [Hj (ws & Hws & HQw)]. split.
  - intros j Hne. by rewrite lookup_alter_ne, Hj.
  - exists (f ws). rewrite lookup_alter_eq, Hws. split; [done|by apply HQ].
Qed.

Section Op.
Context (id : N) (r0 : rows) (ws : workspace) (o : op).

(** What every outcome of an operation respects, and what a success has reached. *)
Definition respects (x : workspace) : Prop :=
  ws_system x = ws_system ws /\
  (ws_restriction x = ws_restriction ws \/ target o (ws_system ws) (ws_restriction ws) = Some (ws_restriction x)) /\
  (ws_restriction x = ws_restriction ws -> stops (ws_restriction ws) = true -> ws_frozen x = ws_frozen ws).
Definition reaches (x : workspace) : Prop :=
  respects x /\ target o (ws_system ws) (ws_restriction ws) = Some (ws_restriction x).

Lemma respects_refl : respects ws.
Proof. split; [done|]. split; [by left|done]. Qed.

Lemma reaches_respects r : only_row id r0 reaches r -> only_row id r0 respects r.
Proof. intros Hr. eapply only_row_impl; [exact Hr|]. by intros x []. Qed.

(** [Stop…] and the recording of what it stopped, once the state has changed to a stopped one *)
Lemma triple_stopping stop st :
  st <> ws_restriction ws ->
  triple (only_row id r0 (fun x => reaches x /\ ws_restriction x = st)) (stopping stop id)
    (fun _ => only_row id r0 (fun x => reaches x /\ ws_restriction x = st)) (only_row id r0 respects).
Proof.
  intros Hst. unfold stopping. eapply triple_bind.
  - apply triple_keeps; [apply keeps_loads|]. intros r Hr. apply reaches_respects. eapply only_row_impl; [exact Hr|]. by intros x [].
  - intros fr. apply triple_set.
    + intros r Hr. apply reaches_respects. eapply only_row_impl; [exact Hr|]. by intros x [].
    + intros x [[(Hs & Ht & Hf) Hr] Hx]. split; [|done]. split; [|done].
      split; [done|]. split; [done|]. simpl. intros Heq. congruence.
Qed.

Lemma triple_restart st : ws_id ws = id -> st <> ws_restriction ws ->
  triple (only_row id r0 (fun x => reaches x /\ ws_restriction x = st)) (restart ws)
    (fun _ => only_row id r0 (fun x => reaches x /\ ws_restriction x = st)) (only_row id r0 respects).
Proof.
  intros Hid Hst. unfold restart. rewrite Hid. eapply triple_bind.
  - apply triple_keeps; [apply keeps_loads|]. intros r Hr. apply reaches_respects. eapply only_row_impl; [exact Hr|]. by intros x [].
  - intros fr. apply triple_set.
    + intros r Hr. apply reaches_respects. eapply only_row_impl; [exact Hr|]. by intros x [].
    + intros x [[(Hs & Ht & Hf) Hr] Hx]. split; [|done]. split; [|done].
      split; [done|]. split; [done|]. simpl. intros Heq. congruence.
Qed.

(** The end every operation shares *)
Lemma triple_finish :
  triple (only_row id r0 reaches) (M_bind _ _ (fun _ => find_by_id id) (notify id))
    (fun _ => only_row id r0 reaches) (only_row id r0 respects).
Proof.
  eapply triple_bind; [apply triple_keeps; [apply keeps_notify|apply reaches_respects]|].
  intros []. apply triple_keeps; [apply keeps_find|apply reaches_respects].
Qed.

Lemma triple_pre {A} (P P' : rows -> Prop) (m : M (W := W) A) Q E :
  triple P m Q E -> (forall r, P' r -> P r) -> triple P' m Q E.
Proof. intros Hm HP w Hw. apply Hm. by apply HP. Qed.

(** The first steps: the row is read, tested, and its restriction rewritten. *)
Lemma triple_head {A} (k : workspace -> M A) Q :
  triple (only_row id r0 (eq ws)) (k ws) Q (only_row id r0 respects) ->
  triple (only_row id r0 (eq ws)) (M_bind _ _ k (find_by_id id)) Q (only_row id r0 respects).
Proof.
  intros Hk. eapply triple_bind.
  - apply triple_find. intros r Hr. eapply only_row_impl; [exact Hr|]. intros x <-. apply respects_refl.
  - intros ws' w [<- Hw]. by apply Hk.
Qed.

Lemma eq_respects r : only_row id r0 (eq ws) r -> only_row id r0 respects r.
Proof. intros Hr. eapply only_row_impl; [exact Hr|]. intros x <-. apply respects_refl. Qed.

Lemma triple_write {A} (f : workspace -> workspace) (k : unit -> M A) Q :
  reaches (f ws) ->
  triple (only_row id r0 (fun x => reaches x /\ ws_restriction x = ws_restriction (f ws))) (k tt) Q (only_row id r0 respects) ->
  triple (only_row id r0 (eq ws))
    (M_bind _ _ (fun _ => M_bind _ _ k (forget id)) (set_restriction id f)) Q (only_row id r0 respects).
Proof.
  intros Hf Hk. eapply triple_bind.
  - apply (triple_set id r0 (eq ws) (fun x => reaches x /\ ws_restriction x = ws_restriction (f ws))).
    + apply eq_respects.
    + intros x Hx. subst x. done.
  - intros []. eapply triple_bind.
    + apply triple_keeps; [apply keeps_forget|]. intros r Hr. apply reaches_respects.
      eapply only_row_impl; [exact Hr|]. by intros x [].
    + intros []. done.
Qed.

(** After the state is written: an optional effect on the workloads, then the end. *)
Lemma triple_effect (m : M unit) st :
  triple (only_row id r0 (fun x => reaches x /\ ws_restriction x = st)) m
    (fun _ => only_row id r0 (fun x => reaches x /\ ws_restriction x = st)) (only_row id r0 respects) ->
  triple (only_row id r0 (fun x => reaches x /\ ws_restriction x = st))
    (M_bind _ _ (fun _ => M_bind _ _ (fun _ => find_by_id id) (notify id)) m)
    (fun _ => only_row id r0 reaches) (only_row id r0 respects).
Proof.
  intros Hm. eapply triple_bind; [exact Hm|]. intros []. eapply triple_pre; [apply triple_finish|].
  intros r Hr. eapply only_row_impl; [exact Hr|]. by intros x [].
Qed.

Lemma triple_skip (st : string) :
  triple (only_row id r0 (fun x => reaches x /\ ws_restriction x = st)) (M_ret unit tt)
    (fun _ => only_row id r0 (fun x => reaches x /\ ws_restriction x = st)) (only_row id r0 respects).
Proof. by apply triple_ret. Qed.
End Op.

Lemma triple_lift id r0 ws o :
  ws_id ws = id -> target o (ws_system ws) (ws_restriction ws) = Some restriction_none ->
  triple (only_row id r0 (eq ws)) (lift id) (fun _ => only_row id r0 (reaches ws o)) (only_row id r0 (respects ws o)).
Proof.
  intros Hid Ht. unfold lift. apply triple_head, triple_write.
  - split; [|done]. split; [done|]. split; [by right|]. simpl. intros <-. done.
  - apply triple_effect. destruct (stops (ws_restriction ws)) eqn:Hst; unfold stops in Hst; rewrite Hst.
    + apply triple_restart; [done|]. intros Heq. simpl in Heq. by rewrite <- Heq in Hst.
    + apply triple_skip.
Qed.

Lemma run_op_spec id r0 ws o :
  ws_id ws = id ->
  triple (only_row id r0 (eq ws)) (run_op id o)
    (fun _ => only_row id r0 (reaches ws o)) (only_row id r0 (respects ws o)).
Proof.
  intros Hid. pose proof (eq_respects id r0 ws o) as Heq. destruct o as [actor inp| |actor reason|reason|]; simpl.
  - eapply (triple_bind _ _ (fun _ => only_row id r0 (reaches ws _))); [|intros a; apply triple_ret; intros r Hr; exact Hr]. unfold set.
    destruct (restriction_valid (si_state inp)) eqn:Hv; simpl; [|apply triple_fail; exact Heq].
    eapply triple_bind; [apply triple_keeps; [apply keeps_now|exact Heq]|]. intros t.
    match goal with |- context [match si_until inp with Some _ => _ | None => _ end] =>
      destruct (match si_until inp with Some u => u <=? t | None => false end) end; [apply triple_fail; exact Heq|].
    apply triple_head. destruct (ws_system ws) eqn:Hsys; [apply triple_fail; exact Heq|].
    destruct (String.eqb (ws_restriction ws) restriction_frozen) eqn:Hfr; [apply triple_fail; exact Heq|].
    assert (Ht : target (OpSet actor inp) (ws_system ws) (ws_restriction ws) = Some (si_state inp)).
    { simpl. by rewrite Hsys, Hfr, Hv. }
    apply triple_write.
    + split; [|exact Ht]. split; [done|]. split; [by right|done].
    + apply triple_effect. simpl.
      destruct (String.eqb_spec (si_state inp) restriction_suspended) as [Hs|Hs];
      destruct (String.eqb_spec (ws_restriction ws) restriction_suspended) as [Hs'|Hs']; simpl.
      * rewrite andb_true_r. destruct (String.eqb_spec (si_state inp) restriction_read_only) as [Hr|]; [by rewrite Hs in Hr|apply triple_skip].
      * apply triple_stopping. congruence.
      * rewrite andb_true_r. destruct (String.eqb_spec (si_state inp) restriction_read_only); [|apply triple_skip].
        apply triple_restart; [done|congruence].
      * rewrite andb_false_r. apply triple_skip.
  - eapply triple_bind; [by apply (triple_lift _ _ _ OpLift)|]. intros a. apply triple_ret. intros r Hr. exact Hr.
  - unfold freeze. apply triple_head. destruct (ws_system ws) eqn:Hsys; [apply triple_fail; exact Heq|].
    destruct (String.eqb_spec (ws_restriction ws) restriction_frozen) as [Hfr|Hfr].
    + unfold set_frozen_reason. eapply triple_bind.
      * apply (triple_set id r0 _ (reaches ws (OpFreeze actor reason))); [exact Heq|]. intros x Hx; subst x.
        split; [split; [done|split; [by left|done]]|]. simpl. by rewrite Hsys, Hfr.
      * intros []. apply triple_keeps; [apply keeps_forget|]. apply reaches_respects.
    + destruct (String.eqb_spec (ws_restriction ws) restriction_none) as [Hn|Hn]; simpl; [|apply triple_fail; exact Heq].
      eapply triple_bind; [apply triple_keeps; [apply keeps_now|exact Heq]|]. intros t.
      assert (Ht : target (OpFreeze actor reason) (ws_system ws) (ws_restriction ws) = Some restriction_frozen).
      { simpl. by rewrite Hsys, Hn. }
      apply triple_write.
      * split; [|exact Ht]. split; [done|]. split; [by right|]. simpl. congruence.
      * eapply triple_bind; [by apply triple_stopping; simpl; congruence|]. intros [].
        eapply triple_post; [apply triple_keeps; [apply keeps_notify|]|].
        -- intros r Hr. apply reaches_respects. eapply only_row_impl; [exact Hr|]. by intros x [].
        -- intros a r Hr. eapply only_row_impl; [exact Hr|]. by intros x [].
  - unfold set_frozen_reason. eapply triple_bind.
    + apply (triple_set id r0 _ (reaches ws (OpReword reason))); [exact Heq|]. intros x Hx; subst x.
      split; [split; [done|split; [by left|done]]|]. done.
    + intros []. apply triple_keeps; [apply keeps_forget|]. apply reaches_respects.
  - unfold unfreeze. apply triple_head.
    destruct (String.eqb_spec (ws_restriction ws) restriction_frozen) as [Hfr|Hfr]; simpl.
    + eapply (triple_bind _ _ (fun _ => only_row id r0 (reaches ws _))); [|intros a; apply triple_ret; intros r Hr; exact Hr].
      apply (triple_lift _ _ _ OpUnfreeze); [done|]. simpl. by rewrite Hfr.
    + apply triple_ret. intros r Hr0. eapply only_row_impl; [exact Hr0|]. intros x Hx; subst x.
      split; [apply respects_refl|]. simpl. by rewrite (proj2 (String.eqb_neq _ _) Hfr).
Qed.
End Machine.

(** ** Runs without faults *)

Section Runs.
Context {W : Type} `{WorkloadOps W}.

Lemma set_suspend_run id actor reason until r (l : W) c n t ws l1 fr :
  r !! id = Some ws -> ws_system ws = false -> ws_restriction ws = restriction_none ->
  (forall u, until = Some u -> n < u) -> stop_workspace l id = (l1, fr) ->
  let ws1 := with_frozen (Some fr)
    (with_restriction restriction_suspended (trim_space reason) until (Some n) (Some actor) ws) in
  set id actor (SetInput restriction_suspended reason until) (World r l c n [] t) =
  (World (<[id := ws1]> r) l1 (delete id c) n [] (id :: t), Ok ws1).
Proof.
  intros Hr Hsys Hst Hu Hstop ws1. unfold set. cbn [si_state si_reason si_until].
  assert (Hpast : (match until with Some u => u <=? n | None => false end) = false).
  { destruct until as [u|]; [|done]. apply Z.leb_gt. by apply Hu. }
  change (restriction_valid restriction_suspended) with true. cbv beta iota delta [negb].
  unfold mbind at 1, M_bind at 1, now at 1. cbn [wd_now]. rewrite Hpast.
  unfold mbind at 1, M_bind at 1, find_by_id at 1, call at 1. cbn. rewrite Hr. cbn. rewrite Hsys, Hst. cbn.
  unfold stopping, set_restriction, forget, notify, find_by_id, call, with_loads, mbind, M_bind. cbn. rewrite Hstop. cbn.
  rewrite (alter_alt_Some _ r id ws), alter_insert_eq by done. rewrite lookup_insert_eq. done.
Qed.

Lemma lift_stopped_run id r (l : W) c n t ws l1 sr :
  r !! id = Some ws -> ws_id ws = id -> stops (ws_restriction ws) = true ->
  start_workspace l id (Some (default no_frozen (ws_frozen ws))) = (l1, Ok sr) ->
  let ws1 := with_frozen None (with_restriction restriction_none "" None None None ws) in
  lift id (World r l c n [] t) = (World (<[id := ws1]> r) l1 (delete id c) n [] (id :: t), Ok ws1).
Proof.
  intros Hr Hid Hst Hstart ws1. unfold lift.
  unfold mbind at 1, M_bind at 1, find_by_id at 1, call at 1. cbn. rewrite Hr. cbn.
  unfold stops in Hst. rewrite Hst. unfold restart. rewrite Hid.
  unfold set_restriction, forget, notify, find_by_id, call, with_loads, mbind, M_bind. cbn. rewrite Hstart. cbn.
  rewrite (alter_alt_Some _ r id ws), alter_insert_eq by done. rewrite lookup_insert_eq. done.
Qed.
End Runs.

(** ** How old an answer can be *)

Section Gate.
Context (billing : option N).

(** The entry is what a read of the row gave at an instant no earlier than its time, or a read that
    failed. *)
Definition read_since (g : gate) (id : N) (e : entry) : Prop :=
  exists t r, en_at e <= t <= ga_now g /\ held_at (ga_log g) t r /\
    (e = entry_of billing (en_at e) (of_option ErrNotFound (r !! id)) \/ e = entry_of billing (en_at e) (Err ErrDB)).

Record gate_inv (g : gate) : Prop := {
  gi_log : ga_log g <> [] /\ Forall (fun v => v.1 <= ga_now g) (ga_log g);
  gi_cache : forall id e, ga_cache g !! id = Some e -> read_since g id e;
  gi_readers : forall id at_ e, (id, at_, e) ∈ ga_readers g ->
    at_ <= ga_now g /\ forall e', e = Some e' -> read_since g id e' }.

Lemma read_since_step g g' id e :
  gate_step billing g g' -> ga_now g <= ga_now g' -> read_since g id e -> read_since g' id e.
Proof.
  intros Hstep Hnow (t & r & Ht & (newer & t0 & older & Hlog & Ht0 & Hnew) & He).
  exists t, r. split; [lia|]. split; [|done].
  inversion Hstep; subst; simpl in *; try by (exists newer, t0, older).
  eexists (_ :: newer), t0, older. rewrite Hlog. split; [done|]. split; [done|].
  constructor; [simpl; lia|done].
Qed.

Lemma gate_step_now g g' : gate_step billing g g' -> ga_now g <= ga_now g'.
Proof. inversion 1; simpl; lia. Qed.

Lemma gate_inv_step g g' : gate_inv g -> gate_step billing g g' -> gate_inv g'.
Proof.
  intros [[Hne Hlog] Hc Hr] Hstep. pose proof (gate_step_now g g' Hstep) as Hnow.
  assert (Hkeep : forall id e, read_since g id e -> read_since g' id e) by (intros; by eapply read_since_step).
  assert (Hheld : held_at (ga_log g) (ga_now g) (current g)).
  { unfold current. destruct (ga_log g) as [|[t0 r] older] eqn:Hl; [done|]. exists [], t0, older.
    split; [done|]. split; [|constructor]. by inversion Hlog. }
  inversion Hstep; subst; constructor; simpl in *; try (split; [done|]); try done;
    try (by intros id' e' He'; apply Hkeep, Hc); try (by intros id' at' e' He'; destruct (Hr id' at' e' He') as [? H2];
      split; [lia|intros e'' ->; by apply Hkeep, H2]).
  - eapply Forall_impl; [exact Hlog|]. simpl. intros. lia.
  - constructor; [simpl; lia|done].
  - intros id' e' He'. apply lookup_delete_Some in He' as [_ He']. by apply Hkeep, Hc.
  - intros id' at' e' He'. apply elem_of_cons in He' as [He'|He'].
    + simplify_eq. split; [lia|done].
    + destruct (Hr id' at' e' He') as [? H2]. split; [lia|]. intros e'' ->. by apply Hkeep, H2.
  - intros id' at' e' He'.
    assert (Hold : (id', at', e') ∈ ga_readers g \/
      id' = id /\ at' = at_ /\ e' = Some (entry_of billing at_ (if ok then of_option ErrNotFound (current g !! id) else Err ErrDB))).
    { rewrite H. set_solver. }
    destruct Hold as [Hold|(-> & -> & ->)].
    + destruct (Hr id' at' e' Hold) as [? H2]. split; [lia|]. intros e'' ->. by apply Hkeep, H2.
    + assert (Hat : at_ <= ga_now g) by (apply (Hr id at_ None); rewrite H; set_solver).
      split; [done|]. intros e'' [= <-]. exists (ga_now g), (current g).
      assert (Hen : forall x, en_at (entry_of billing at_ x) = at_) by (by intros []).
      cbn [ga_now ga_log]. rewrite !Hen. split; [lia|]. split; [done|]. destruct ok; [by left|by right].
  - intros id' e' He'. apply lookup_insert_Some in He' as [[<- <-]|[_ He']]; [|by apply Hkeep, Hc].
    apply Hkeep. eapply (Hr id at_ (Some e)); [|done]. rewrite H. set_solver.
  - intros id' at' e' He'. destruct (Hr id' at' e') as [? H2]; [rewrite H; set_solver|].
    split; [lia|]. intros e'' ->. by apply Hkeep, H2.
Qed.
End Gate.

(** * Claims *)

(** From any world, with any repository failures, an operation on a
    workspace leaves every other workspace's row alone; it moves the workspace's restriction only
    along the transition the state machine gives it (an admin restriction is never laid over a
    migration freeze, a freeze never over an admin restriction, unfreezing only ever lifts a freeze,
    the system workspace is never restricted), and reaches it when it succeeds; and as long as the
    workspace stays suspended or frozen, the record of what to restart is kept. *)
Lemma restriction_transitions {W : Type} `{WorkloadOps W} (w : world W) (id : N) (o : op) (ws : workspace) :
  wd_rows w !! id = Some ws -> ws_id ws = id ->
  let '(w', r) := run_op id o w in
  (forall j, j <> id -> wd_rows w' !! j = wd_rows w !! j) /\
  exists ws', wd_rows w' !! id = Some ws' /\ ws_system ws' = ws_system ws /\
    (is_ok r = true -> target o (ws_system ws) (ws_restriction ws) = Some (ws_restriction ws')) /\
    (ws_restriction ws' = ws_restriction ws \/
     target o (ws_system ws) (ws_restriction ws) = Some (ws_restriction ws')) /\
    (stops (ws_restriction ws) = true -> ws_restriction ws' = ws_restriction ws -> ws_frozen ws' = ws_frozen ws).
Proof.
  intros Hws Hid. pose proof (run_op_spec id (wd_rows w) ws o Hid w) as Hs.
  assert (H0 : only_row id (wd_rows w) (eq ws) (wd_rows w)) by (split; [done|eauto]).
  specialize (Hs H0). destruct (run_op id o w) as [w' [[]|e]].
  - destruct Hs as [Hj (ws' & Hws' & (Hsys & Hmv & Hfr) & Ht)]. split; [done|]. exists ws'. split_and!; try done. auto.
  - destruct Hs as [Hj (ws' & Hws' & Hsys & Hmv & Hfr)]. split; [done|]. exists ws'. split_and!; try done. auto.
Qed.

(** C37 [suspend_then_lift_restores]: Suspending a workspace that is unrestricted, no system
    workspace and stored under its own non-zero id, until a time to come or for good, and then
    lifting the suspension with nothing in between: where no call of the repository fails, the
    outside stays as it is, workloads have distinct ids, the engine can start again, and every
    workload that runs would be started again when asked, every workload of every workspace ends
    exactly as it was, whichever stops failed: what the suspension stopped runs again, what its
    users had stopped does not. While it is suspended the gate refuses every action; afterwards the
    workspace is unrestricted, nothing is remembered, and the gate allows every action. Both are
    asked of the replica that made the change, with no lookup racing it. *)
Theorem suspend_then_lift_restores {W : Type} `{WorkloadLaws W} `{!SteadyOutside W} (billing : option N) (rows : gmap N workspace) (l : W)
    (c : gmap N entry) (t : instant) (told : list N) (id actor : N) (reason : string) (until : option instant)
    (ws : workspace) :
  rows !! id = Some ws -> ws_id ws = id -> id <> 0%N -> ws_system ws = false ->
  ws_restriction ws = restriction_none -> (forall u, until = Some u -> t < u) ->
  (forall k, distinct l k id) -> wo_can_start l = true ->
  (forall k x, x ∈ wo_list l k id -> wl_status x = status_running ->
     (wo_start l k id (with_wl_status status_stopped x)).2 = Running) ->
  let '(w1, r1) := set id actor (SetInput restriction_suspended reason until) (World rows l c t [] told) in
  let '(w2, r2) := lift id w1 in
  is_ok r1 = true /\ is_ok r2 = true /\
  (forall a, exists e, (allowed billing id a w1).2 = Ok (Some e) /\ rf_state e = restriction_suspended) /\
  (forall a, (allowed billing id a w2).2 = Ok None) /\
  (exists ws', wd_rows w2 !! id = Some ws' /\ ws_restriction ws' = restriction_none /\ ws_frozen ws' = None) /\
  (forall k i, wo_list (wd_loads w2) k i = wo_list l k i).
Proof.
  intros Hrow Hid Hid0 Hsys Hst Hu Hd Hcan Hrun. destruct (stop_workspace l id) as [l1 fr] eqn:Hstop.
  rewrite (set_suspend_run _ _ _ _ _ _ _ _ _ ws l1 fr) by done.
  set (ws1 := with_frozen (Some fr) _).
  destruct (stop_workspace_spec l id true Hd l1 fr Hstop) as (Hfr & Hl & Hc).
  destruct (start_after_stop l l1 id fr Hd Hfr Hl) as (l2 & sr & Hstart & _ & Hback); [congruence| |].
  { intros k x Hx Hst'. rewrite <- (Hrun k x Hx Hst').
    pose proof (stop_workspace_steady l id true k id (with_wl_status status_stopped x)) as Hs.
    unfold stop_workspace in Hstop. by rewrite Hstop in Hs. }
  assert (Hr1 : (<[id := ws1]> rows) !! id = Some ws1) by apply lookup_insert_eq.
  rewrite (lift_stopped_run _ _ _ _ _ _ ws1 l2 sr Hr1) by done.
  set (ws2 := with_frozen None _).
  assert (Hr2 : (<[id := ws2]> (<[id := ws1]> rows)) !! id = Some ws2) by apply lookup_insert_eq.
  split; [done|]. split; [done|]. split; [|split; [|split]].
  - intros a. unfold allowed. rewrite (proj2 (N.eqb_neq _ _) Hid0). unfold mbind, M_bind, lookup_entry, cached. simpl.
    rewrite lookup_delete_eq. unfold find_by_id, call. simpl. rewrite Hr1. simpl. eexists. split; [done|]. done.
  - intros a. unfold allowed. rewrite (proj2 (N.eqb_neq _ _) Hid0). unfold mbind, M_bind, lookup_entry, cached. simpl.
    rewrite lookup_delete_eq. unfold find_by_id, call. simpl. rewrite Hr2. done.
  - exists ws2. split; [apply lookup_insert_eq|done].
  - intros k i. apply Hback.
Qed.

(** Whatever other requests and other replicas do between the steps of a
    lookup, an answer the gate takes from its cache is what the database held at some instant less
    than 15 seconds ago (or comes of a read that failed in that time, and then allows everything). *)
Lemma gate_staleness_bounded (billing : option N) (t0 : instant) (rows0 : gmap N workspace) (g : gate) (id : N) (e : entry) :
  rtc (gate_step billing) (gate_boot t0 rows0) g ->
  cached (ga_cache g) (ga_now g) id = Some e ->
  exists t r, ga_now g - cache_ttl < t <= ga_now g /\ held_at (ga_log g) t r /\
    (e = entry_of billing (en_at e) (of_option ErrNotFound (r !! id)) \/ forall a, judge e a = None).
Proof.
  intros Hreach Hc.
  assert (Hinv : gate_inv billing g).
  { assert (H0 : gate_inv billing (gate_boot t0 rows0)).
    { constructor; simpl; [split; [done|by repeat constructor]|done|]. intros id' at' e' He'. by inversion He'. }
    revert H0. induction Hreach; [done|]. intros H0. apply IHHreach; [done|]. by eapply gate_inv_step. }
  unfold cached in Hc. destruct (ga_cache g !! id) as [e'|] eqn:He; [|done].
  destruct (ga_now g - en_at e' <? cache_ttl) eqn:Httl; [|done]. simplify_eq. apply Z.ltb_lt in Httl.
  destruct (gi_cache _ _ Hinv id e He) as (t & r & Ht & Hheld & Hcase).
  exists t, r. split; [lia|]. split; [done|]. destruct Hcase as [Hcase|Hcase]; [by left|right].
  intros a. rewrite Hcase. done.
Qed.

(** ** Findings *)

(** A lookup that read the row before a change and stores it after the cache was cleared brings the
    old answer back: the replica that suspended the workspace still allows everything. *)
Definition race_row (st : string) : workspace := Workspace 1 false st "" None None None None.
Definition race_gate : gate :=
  Gate 0 [(0, {[1%N := race_row restriction_suspended]}); (0, {[1%N := race_row restriction_none]})]
    {[1%N := entry_of None 0 (Ok (race_row restriction_none))]} [].

Lemma forget_races_lookup :
  rtc (gate_step None) (gate_boot 0 {[1%N := race_row restriction_none]}) race_gate /\
  ws_restriction <$> (current race_gate !! 1%N) = Some restriction_suspended /\
  exists e, cached (ga_cache race_gate) (ga_now race_gate) 1 = Some e /\ judge e ActionWrite = None.
Proof.
  split; [|split; [by vm_compute|by eexists]].
  eapply rtc_l; [by apply (gs_begin None _ 1)|]. eapply rtc_l; [by apply (gs_read None _ 1 0 true [] [])|].
  eapply rtc_l; [by apply (gs_write None _ {[1%N := race_row restriction_suspended]})|].
  eapply rtc_l; [by apply (gs_forget None _ 1)|]. eapply rtc_l; [by eapply (gs_store None _ 1 0 _ [] [])|].
  apply rtc_refl.
Qed.

(** ** Witnesses *)

(** A workspace with a running app, a stopped app and a running database on an engine that answers. *)
Definition demo_loads : tables :=
  Tables (fun k ws => match k with
                      | App => if (ws =? 1)%N then [Workload 7 "running" false false true; Workload 8 "stopped" false false true] else []
                      | Database => if (ws =? 1)%N then [Workload 9 "running" false false true] else []
                      end)
    (Outside (fun _ _ => true) (fun _ _ => true) (fun _ _ => true) (fun _ _ => true) (fun _ => true) (fun _ => false)).
Definition demo_row : workspace := Workspace 1 false "" "" None None None None.
Definition demo_world (faults : list bool) : world tables := World {[1%N := demo_row]} demo_loads ∅ 100 faults [].

Lemma demo_distinct k : distinct demo_loads k 1.
Proof. destruct k; apply (bool_decide_unpack (NoDup _)); vm_compute; exact I. Qed.

Lemma demo_starts k x : x ∈ wo_list demo_loads k 1 -> wl_status x = status_running ->
  (wo_start demo_loads k 1 (with_wl_status status_stopped x)).2 = Running.
Proof. intros Hx Hst. destruct k; simpl in Hx; repeat (apply elem_of_cons in Hx as [->|Hx]; [done|]); by inversion Hx. Qed.

Definition demo_suspended : world tables := (set 1 5 (SetInput restriction_suspended "unpaid" (Some 200)) (demo_world [])).1.

Lemma suspend_then_lift_restores_witness :
  tb_rows (wd_loads demo_suspended) App 1 =
    [Workload 7 "stopped" false false true; Workload 8 "stopped" false false true] /\
  tb_rows (wd_loads (lift 1 demo_suspended).1) App 1 = tb_rows demo_loads App 1.
Proof.
  split; [by vm_compute|].
  pose proof (suspend_then_lift_restores (Some 42%N) {[1%N := demo_row]} demo_loads ∅ 100 []
    1 5 "unpaid" (Some 200) demo_row eq_refl eq_refl ltac:(discriminate) eq_refl eq_refl ltac:(intros u [= <-]; lia)
    demo_distinct eq_refl demo_starts) as Ht.
  unfold demo_suspended. fold (demo_world []) in Ht.
  destruct (set 1 5 (SetInput restriction_suspended "unpaid" (Some 200)) (demo_world [])) as [w1 r1].
  simpl. destruct (lift 1 w1) as [w2 r2]. exact (proj2 (proj2 (proj2 (proj2 (proj2 Ht)))) App 1%N).
Defined.
