(* ===== verification/Quota.v ===== *)
(** * Plan limits and quotas

    [internal/services/quota]: the limits in force in a workspace (its override, its plan, the default
    plan, or none) and the checks the other services make against them. The queries of
    [internal/storage/repositories] are functions of the tables; one that fails, for any reason, is
    an argument of the database. Sums are those of SQL, exact, and fail when they leave [int64]; Go's
    own [int64] arithmetic wraps. The texts of the errors are kept as their data; the nil service is
    [None]. Setters that only wire the service are its fields. *)
From S2P Require Import Prelude GoStrings Float64 Restriction.
#[local] Open Scope Z_scope.
#[local] Open Scope list_scope.

(** ** Resources, capabilities, errors *)

Inductive resource :=
| ResourceApps | ResourceDatabaseInstances | ResourceCronJobs | ResourceVolumes | ResourceNetworks
| ResourceAPIKeys | ResourceMembers | ResourceDatabasesPerInstance | ResourceRunners | ResourceGPUs.

Inductive capability :=
| CapCustomTLS | CapPrivilegedHostMounts | CapShellExec | CapSharedStorage | CapDNSProviders
| CapCustomLabels | CapPlatformRunners | CapCustomBuilder | CapGPU | CapServiceRuntime.

Inductive quota_err :=
| ErrRestrictedWorkspace (e : refusal)
| QuotaError (r : resource) (used limit : Z)
| CapabilityDenied (c : capability)
| RunnerDenied (name : string)
| StorageClassDenied (name : string)
| LimitsRequired (missing : list string)
| CPUExceeded (what : string) (used : spec_float) (cores : Z)
| OvercommitExceeded (what : string) (used allowance : spec_float) (cores : Z)
| MemoryExceeded (what : string) (mb limit : Z)
| SizeExceeded (mb limit : Z)
| StorageExceeded (mb limit : Z).

(** [Code] of the errors that have one; the storage-class refusal is a plain error. *)
Definition quota_code (e : quota_err) : option string :=
  match e with
  | ErrRestrictedWorkspace e => Some (refusal_code e)
  | CapabilityDenied _ | RunnerDenied _ => Some "CAPABILITY_DENIED"
  | StorageClassDenied _ => None
  | LimitsRequired _ => Some "RESOURCE_LIMITS_REQUIRED"
  | _ => Some "QUOTA_EXCEEDED"
  end.

Definition bytes_per_mb : Z := 1024 * 1024.
Definition nano_per_core : Z := 1000000000.
Definition profile_default : string := "default".
Definition profile_restricted : string := "restricted".

(** [models.NormalizeSecurityProfile] *)
Definition normalize_security_profile (p : string) : string :=
  if String.eqb p profile_restricted then profile_restricted else profile_default.

(** [models.PlanPlacement] *)
Record plan_placement := PlanPlacement { pp_locations : list N; pp_pool : string }.
Definition no_placement : plan_placement := PlanPlacement [] "".

(** ** Limits, plans, overrides *)

(** [Limits]: -1 means unlimited, 0 means none. *)
Record limits := Limits {
  lMaxApps : Z; lMaxDatabaseInstances : Z; lMaxCronJobs : Z; lMaxVolumes : Z; lMaxNetworks : Z; lMaxAPIKeys : Z;
  lMaxMembers : Z; lMaxDatabasesPerInstance : Z; lMaxCPUCores : Z; lMaxMemoryMB : Z;
  lMaxDatabaseInstanceSizeMB : Z; lMaxStorageMB : Z; lMaxRunners : Z; lMaxGPUs : Z; lMaxDatabaseCPUCores : Z;
  lMaxDatabaseMemoryMB : Z; lAllowCustomTLS : bool; lAllowPrivilegedHostMounts : bool; lAllowShellExec : bool;
  lAllowSharedStorage : bool; lAllowDNSProviders : bool; lAllowCustomLabels : bool;
  lAllowPlatformRunners : bool; lAllowCustomBuilder : bool; lAllowGPU : bool; lAllowServiceRuntime : bool;
  lDefaultCPUMillicores : Z; lDefaultMemoryMB : Z; lRequireResourceLimits : bool; lSecurityProfile : string;
  lAllowOfficialImageUser : bool; lCPUOvercommit : spec_float }.

(** [unlimited] *)
Definition unlimited : limits :=
  Limits (-1) (-1) (-1) (-1) (-1) (-1) (-1) (-1) (-1) (-1) (-1) (-1) (-1) (-1) (-1) (-1)
    true true true true true true true true true true 0 0 false profile_default true f64_one.

(** [models.Plan], without its description and dates *)
Record plan := Plan {
  pID : N; pName : string; pIsDefault : bool; pIsActive : bool; pMaxApps : Z; pMaxDatabaseInstances : Z;
  pMaxCronJobs : Z; pMaxVolumes : Z; pMaxNetworks : Z; pMaxAPIKeys : Z; pMaxMembers : Z;
  pMaxDatabasesPerInstance : Z; pMaxCPUCores : Z; pMaxMemoryMB : Z; pMaxDatabaseInstanceSizeMB : Z;
  pMaxStorageMB : Z; pMaxRunners : Z; pMaxGPUs : Z; pMaxDatabaseCPUCores : Z; pMaxDatabaseMemoryMB : Z;
  pAllowCustomTLS : bool; pAllowPrivilegedHostMounts : bool; pAllowShellExec : bool; pAllowSharedStorage : bool;
  pAllowDNSProviders : bool; pAllowCustomLabels : bool; pAllowPlatformRunners : bool;
  pAllowCustomBuilder : bool; pAllowGPU : bool; pAllowServiceRuntime : bool; pDefaultCPUMillicores : Z;
  pDefaultMemoryMB : Z; pRequireResourceLimits : bool; pSecurityProfile : string;
  pAllowOfficialImageUser : bool; pPlacement : plan_placement; pDatabaseSizes : list N;
  pStorageClasses : list string; pDefaultStorageClass : string; pPlatformRunners : list string }.

(** [models.WorkspaceQuota]: a field that is set overrides the plan's *)
Record workspace_quota := WorkspaceQuota {
  oMaxApps : option Z; oMaxDatabaseInstances : option Z; oMaxCronJobs : option Z; oMaxVolumes : option Z;
  oMaxNetworks : option Z; oMaxAPIKeys : option Z; oMaxMembers : option Z; oMaxDatabasesPerInstance : option Z;
  oMaxCPUCores : option Z; oMaxMemoryMB : option Z; oMaxDatabaseInstanceSizeMB : option Z;
  oMaxStorageMB : option Z; oMaxRunners : option Z; oMaxGPUs : option Z; oMaxDatabaseCPUCores : option Z;
  oMaxDatabaseMemoryMB : option Z; oAllowCustomTLS : option bool; oAllowPrivilegedHostMounts : option bool;
  oAllowShellExec : option bool; oAllowSharedStorage : option bool; oAllowDNSProviders : option bool;
  oAllowCustomLabels : option bool; oAllowPlatformRunners : option bool; oAllowCustomBuilder : option bool;
  oAllowGPU : option bool; oAllowServiceRuntime : option bool; oDefaultCPUMillicores : option Z;
  oDefaultMemoryMB : option Z; oRequireResourceLimits : option bool; oSecurityProfile : option string;
  oAllowOfficialImageUser : option bool; oPlacement : option plan_placement; oDatabaseSizes : option (list N);
  oStorageClasses : option (list string); oDefaultStorageClass : option string;
  oPlatformRunners : option (list string) }.

(** [limitsFromPlan]: the overcommit is not the plan's, and is left zero. *)
Definition limits_from_plan (p : option plan) : limits :=
  match p with
  | None => unlimited
  | Some p =>
      Limits
    (pMaxApps p) (pMaxDatabaseInstances p) (pMaxCronJobs p) (pMaxVolumes p) (pMaxNetworks p) (pMaxAPIKeys p)
    (pMaxMembers p) (pMaxDatabasesPerInstance p) (pMaxCPUCores p) (pMaxMemoryMB p)
    (pMaxDatabaseInstanceSizeMB p) (pMaxStorageMB p) (pMaxRunners p) (pMaxGPUs p) (pMaxDatabaseCPUCores p)
    (pMaxDatabaseMemoryMB p) (pAllowCustomTLS p) (pAllowPrivilegedHostMounts p) (pAllowShellExec p)
    (pAllowSharedStorage p) (pAllowDNSProviders p) (pAllowCustomLabels p) (pAllowPlatformRunners p)
    (pAllowCustomBuilder p) (pAllowGPU p) (pAllowServiceRuntime p) (pDefaultCPUMillicores p)
    (pDefaultMemoryMB p)
    (pRequireResourceLimits p) (normalize_security_profile (pSecurityProfile p)) (pAllowOfficialImageUser p) f64_zero
  end.

(** [applyOverride] *)
Definition apply_override (l : limits) (o : option workspace_quota) : limits :=
  match o with
  | None => l
  | Some o =>
      Limits
    (default (lMaxApps l) (oMaxApps o)) (default (lMaxDatabaseInstances l) (oMaxDatabaseInstances o))
    (default (lMaxCronJobs l) (oMaxCronJobs o)) (default (lMaxVolumes l) (oMaxVolumes o))
    (default (lMaxNetworks l) (oMaxNetworks o)) (default (lMaxAPIKeys l) (oMaxAPIKeys o))
    (default (lMaxMembers l) (oMaxMembers o))
    (default (lMaxDatabasesPerInstance l) (oMaxDatabasesPerInstance o))
    (default (lMaxCPUCores l) (oMaxCPUCores o)) (default (lMaxMemoryMB l) (oMaxMemoryMB o))
    (default (lMaxDatabaseInstanceSizeMB l) (oMaxDatabaseInstanceSizeMB o))
    (default (lMaxStorageMB l) (oMaxStorageMB o)) (default (lMaxRunners l) (oMaxRunners o))
    (default (lMaxGPUs l) (oMaxGPUs o)) (default (lMaxDatabaseCPUCores l) (oMaxDatabaseCPUCores o))
    (default (lMaxDatabaseMemoryMB l) (oMaxDatabaseMemoryMB o))
    (default (lAllowCustomTLS l) (oAllowCustomTLS o))
    (default (lAllowPrivilegedHostMounts l) (oAllowPrivilegedHostMounts o))
    (default (lAllowShellExec l) (oAllowShellExec o)) (default (lAllowSharedStorage l) (oAllowSharedStorage o))
    (default (lAllowDNSProviders l) (oAllowDNSProviders o))
    (default (lAllowCustomLabels l) (oAllowCustomLabels o))
    (default (lAllowPlatformRunners l) (oAllowPlatformRunners o))
    (default (lAllowCustomBuilder l) (oAllowCustomBuilder o)) (default (lAllowGPU l) (oAllowGPU o))
    (default (lAllowServiceRuntime l) (oAllowServiceRuntime o))
    (default (lDefaultCPUMillicores l) (oDefaultCPUMillicores o))
    (default (lDefaultMemoryMB l) (oDefaultMemoryMB o))
    (default (lRequireResourceLimits l) (oRequireResourceLimits o))
    (match oSecurityProfile o with Some p => normalize_security_profile p | None => lSecurityProfile l end)
    (default (lAllowOfficialImageUser l) (oAllowOfficialImageUser o)) (lCPUOvercommit l)
  end.

Definition with_profile (l : limits) (profile : string) (overcommit : spec_float) : limits :=
  Limits
    (lMaxApps l) (lMaxDatabaseInstances l) (lMaxCronJobs l) (lMaxVolumes l) (lMaxNetworks l) (lMaxAPIKeys l)
    (lMaxMembers l) (lMaxDatabasesPerInstance l) (lMaxCPUCores l) (lMaxMemoryMB l)
    (lMaxDatabaseInstanceSizeMB l) (lMaxStorageMB l) (lMaxRunners l) (lMaxGPUs l) (lMaxDatabaseCPUCores l)
    (lMaxDatabaseMemoryMB l) (lAllowCustomTLS l) (lAllowPrivilegedHostMounts l) (lAllowShellExec l)
    (lAllowSharedStorage l) (lAllowDNSProviders l) (lAllowCustomLabels l) (lAllowPlatformRunners l)
    (lAllowCustomBuilder l) (lAllowGPU l) (lAllowServiceRuntime l) (lDefaultCPUMillicores l)
    (lDefaultMemoryMB l)
    (lRequireResourceLimits l) profile (lAllowOfficialImageUser l) overcommit.
(** [Limits.CPUAllowance] *)
Definition cpu_allowance (l : limits) (cores : Z) : spec_float :=
  if cores <? 0 then f64_of_int (-1)
  else f64_mul (f64_of_int cores) (f64_max (f64_of_int 1) (lCPUOvercommit l)).

(** [resourceLimit] *)
Definition resource_limit (l : limits) (r : resource) : Z :=
  match r with
  | ResourceApps => lMaxApps l
  | ResourceDatabaseInstances => lMaxDatabaseInstances l
  | ResourceCronJobs => lMaxCronJobs l
  | ResourceVolumes => lMaxVolumes l
  | ResourceNetworks => lMaxNetworks l
  | ResourceAPIKeys => lMaxAPIKeys l
  | ResourceMembers => lMaxMembers l
  | ResourceDatabasesPerInstance => lMaxDatabasesPerInstance l
  | ResourceRunners => lMaxRunners l
  | ResourceGPUs => lMaxGPUs l
  end.

(** The switch of [Require] *)
Definition allows_capability (l : limits) (c : capability) : bool :=
  match c with
  | CapCustomTLS => lAllowCustomTLS l
  | CapPrivilegedHostMounts => lAllowPrivilegedHostMounts l
  | CapShellExec => lAllowShellExec l
  | CapSharedStorage => lAllowSharedStorage l
  | CapDNSProviders => lAllowDNSProviders l
  | CapCustomLabels => lAllowCustomLabels l
  | CapPlatformRunners => lAllowPlatformRunners l
  | CapCustomBuilder => lAllowCustomBuilder l
  | CapGPU => lAllowGPU l
  | CapServiceRuntime => lAllowServiceRuntime l
  end.

(** ** The tables *)

(** [models.Application] and [models.DatabaseInstance], what the sums read of them *)
Record app_row := AppRow {
  ar_id : N; ar_workspace : N; ar_service : bool; ar_replicas : Z; ar_cpus : Z; ar_memory : Z;
  ar_running : bool; ar_gpus : Z }.
Record instance_row := InstanceRow { ir_id : N; ir_workspace : N; ir_cpus : Z; ir_memory : Z; ir_volume : Z }.

Inductive query := QPlan | QDefault | QOverride | QApps | QGPUs | QVolumes | QInstanceVolumes | QInstances.

(** The plans in the order of their ids, the plan of each workspace that has one, the overrides, and
    the counted rows; [qd_fails] is the queries that fail. *)
Record quota_db := QuotaDB {
  qd_plans : list plan; qd_assigned : gmap N N; qd_overrides : gmap N workspace_quota;
  qd_apps : list app_row; qd_volumes : list (N * Z); qd_instances : list instance_row; qd_fails : query -> bool }.

Definition run_query {A} (d : quota_db) (q : query) (a : option A) : option A := if qd_fails d q then None else a.

(** [PlanForWorkspace], [FindDefault], [FindByWorkspace] *)
Definition plan_for_workspace (d : quota_db) (ws : N) : option plan :=
  run_query d QPlan (id ← qd_assigned d !! ws; find_first (fun p => (pID p =? id)%N) (qd_plans d)).
Definition find_default_plan (d : quota_db) : option plan :=
  run_query d QDefault (find_first (fun p => pIsDefault p && pIsActive p) (qd_plans d)).
Definition find_override (d : quota_db) (ws : N) : option workspace_quota :=
  run_query d QOverride (qd_overrides d !! ws).

Definition in_int64 (n : Z) : bool := (- 2 ^ 63 <=? n) && (n <=? max_int64).
Definition sum_z (l : list Z) : Z := foldr Z.add 0 l.
Definition sql_sum (l : list Z) : option Z := let n := sum_z l in if in_int64 n then Some n else None.

(** [SumResourcesByWorkspace] of the applications: every replica of a service counts. *)
Definition app_replicas (a : app_row) : Z := if ar_service a && (1 <? ar_replicas a) then ar_replicas a else 1.
Definition counted_apps (d : quota_db) (ws exclude : N) : list app_row :=
  List.filter (fun a => (ar_workspace a =? ws)%N && ((exclude =? 0)%N || negb (ar_id a =? exclude)%N)) (qd_apps d).
Definition sum_app_resources (d : quota_db) (ws exclude : N) : option (Z * Z) :=
  let rows := counted_apps d ws exclude in
  run_query d QApps
    (cpu ← sql_sum ((fun a => ar_cpus a * app_replicas a) <$> rows);
     mem ← sql_sum ((fun a => ar_memory a * app_replicas a) <$> rows);
     Some (cpu, mem)).

(** [SumRunningGPUsByWorkspace] *)
Definition sum_running_gpus (d : quota_db) (ws exclude : N) : option Z :=
  run_query d QGPUs
    (sql_sum ((fun a => ar_gpus a * (if ar_replicas a <? 1 then 1 else ar_replicas a)) <$>
              List.filter (fun a => ar_running a && (0 <? ar_gpus a)) (counted_apps d ws exclude))).

(** [SumSizeByWorkspace], [SumVolumeSizeByWorkspace] and [SumResourcesByWorkspace] of the databases *)
Definition sum_volumes (d : quota_db) (ws : N) : option Z :=
  run_query d QVolumes (sql_sum (List.filter (fun v => (v.1 =? ws)%N) (qd_volumes d)).*2).
Definition instances_of (d : quota_db) (ws : N) : list instance_row :=
  List.filter (fun i => (ir_workspace i =? ws)%N) (qd_instances d).
Definition sum_instance_volumes (d : quota_db) (ws : N) : option Z :=
  run_query d QInstanceVolumes (sql_sum (ir_volume <$> instances_of d ws)).
Definition sum_instance_resources (d : quota_db) (ws exclude : N) : option (Z * Z) :=
  let rows := List.filter (fun i => negb (ir_id i =? exclude)%N) (instances_of d ws) in
  run_query d QInstances
    (cpu ← sql_sum (ir_cpus <$> rows); mem ← sql_sum (ir_memory <$> rows); Some (cpu, mem)).

(** ** The service *)

(** [qs_ee] is the edition's flags ([None] without a gate), [qs_restricted] the restriction gate. *)
Record quota_service := QuotaService {
  qs_enforce : bool; qs_ee : option (string -> bool); qs_force_non_root : bool;
  qs_restricted : option (N -> option refusal); qs_overcommit : spec_float; qs_overrides : bool }.

Definition flag_security_profile : string := "security_profile".
Definition flag_placement_policy : string := "placement_policy".
Definition flag_database_sizes : string := "database_sizes".
Definition flag_platform_runners : string := "platform_runners".

Section Service.
Context (s : option quota_service) (d : quota_db).

Definition enabled : bool := match s with Some s => qs_enforce s | None => false end.
Definition entitled (flag : string) : bool :=
  match s with Some s => match qs_ee s with Some has => has flag | None => false end | None => false end.
Definition has_overrides : bool := match s with Some s => qs_overrides s | None => false end.
Definition override_of (ws : N) : option workspace_quota := if has_overrides then find_override d ws else None.

(** [effectivePlan] *)
Definition effective_plan (ws : N) : option plan :=
  match plan_for_workspace d ws with
  | Some p => if pIsActive p then Some p else find_default_plan d
  | None => find_default_plan d
  end.

(** [EffectivePlanName] *)
Definition effective_plan_name (ws : N) : string :=
  match s with
  | None => ""
  | Some _ => match effective_plan ws with Some p => pName p | None => "" end
  end.

(** [EffectivePlacement], [EffectiveDatabaseSizes], [EffectivePlatformRunners]: [None] when the plan
    does not bind. *)
Definition placement_from (p : option plan) (o : option workspace_quota) : plan_placement :=
  match o ≫= oPlacement with
  | Some pl => pl
  | None => match p with Some p => pPlacement p | None => no_placement end
  end.
Definition effective_placement (ws : N) : option plan_placement :=
  if negb enabled || negb (entitled flag_placement_policy) then None
  else Some (placement_from (effective_plan ws) (override_of ws)).

Definition database_sizes_from (p : option plan) (o : option workspace_quota) : list N :=
  match o ≫= oDatabaseSizes with
  | Some l => l
  | None => match p with Some p => pDatabaseSizes p | None => [] end
  end.
Definition effective_database_sizes (ws : N) : option (list N) :=
  if negb enabled || negb (entitled flag_database_sizes) then None
  else Some (database_sizes_from (effective_plan ws) (override_of ws)).

Definition platform_runners_from (p : option plan) (o : option workspace_quota) : list string :=
  match o ≫= oPlatformRunners with
  | Some l => l
  | None => match p with Some p => pPlatformRunners p | None => [] end
  end.
Definition effective_platform_runners (ws : N) : option (list string) :=
  if negb enabled || negb (entitled flag_platform_runners) then None
  else Some (platform_runners_from (effective_plan ws) (override_of ws)).

(** [RunnerBinding.Allows], [StorageClassBinding.Allows]: an empty list allows every name. *)
Definition binding_allows (allowed : list string) (name : string) : bool :=
  match allowed with [] => true | _ => existsb (fun a => String.eqb a name) allowed end.

(** [RequirePlatformRunner] *)
Definition require_platform_runner (ws : N) (name : string) : option quota_err :=
  match effective_platform_runners ws with
  | None => None
  | Some allowed => if binding_allows allowed name then None else Some (RunnerDenied name)
  end.

(** [EffectiveStorageClasses]: the classes allowed and the default one; and [RequireStorageClass] *)
Definition effective_storage_classes (ws : N) : list string * string :=
  if negb enabled then ([], "")
  else
    let o := override_of ws in
    let p := effective_plan ws in
    let allowed := match p with Some p => pStorageClasses p | None => [] end in
    let dflt := match p with Some p => trim_space (pDefaultStorageClass p) | None => "" end in
    (default allowed (o ≫= oStorageClasses),
     match o ≫= oDefaultStorageClass with Some c => trim_space c | None => dflt end).
Definition require_storage_class (ws : N) (name : string) : option quota_err :=
  if negb enabled then None
  else if binding_allows (effective_storage_classes ws).1 name then None
  else Some (StorageClassDenied name).

(** [EffectiveLimits] *)
Definition effective_limits (ws : N) : limits :=
  match s with
  | None => unlimited
  | Some sv =>
      let l := apply_override (limits_from_plan (effective_plan ws)) (override_of ws) in
      with_profile l (if entitled flag_security_profile then lSecurityProfile l else profile_default)
        (f64_max (f64_of_int 1) (qs_overcommit sv))
  end.

(** [CheckCreate]: [None] is nil. *)
Definition check_create (ws : N) (r : resource) (current : Z) : option quota_err :=
  match (sv ← s; gate ← qs_restricted sv; gate ws) with
  | Some e => Some (ErrRestrictedWorkspace e)
  | None =>
      if negb enabled then None
      else
        let limit := resource_limit (effective_limits ws) r in
        if limit <? 0 then None
        else if limit <=? current then Some (QuotaError r current limit)
        else None
  end.

(** [RestrictedProfile], [AllowOfficialImageUser], [RequireNonRootUser] *)
Definition restricted_profile (ws : N) : bool :=
  if negb enabled then false else String.eqb (lSecurityProfile (effective_limits ws)) profile_restricted.
Definition allow_official_image_user (ws : N) : bool :=
  if negb enabled then true else lAllowOfficialImageUser (effective_limits ws).
Definition require_non_root_user (ws : N) (official : bool) : bool :=
  match s with
  | None => false
  | Some sv =>
      if qs_force_non_root sv then true
      else if negb (restricted_profile ws) then false
      else negb (official && allow_official_image_user ws)
  end.

(** [Require], [CustomBuilderAllowed] *)
Definition require (ws : N) (c : capability) : option quota_err :=
  if negb enabled then None
  else if allows_capability (effective_limits ws) c then None
  else Some (CapabilityDenied c).
Definition custom_builder_allowed (ws : N) : bool := bool_decide (require ws CapCustomBuilder = None).

(** [resolveAppResources], [ResolveAppResources] *)
Definition resolve_resources (l : limits) (memory cpus : Z) : Z * Z * option quota_err :=
  let memory := if (memory =? 0) && (0 <? lDefaultMemoryMB l) then wrap64 (lDefaultMemoryMB l * bytes_per_mb) else memory in
  let cpus := if (cpus =? 0) && (0 <? lDefaultCPUMillicores l)
              then wrap64 (lDefaultCPUMillicores l * Z.quot nano_per_core 1000) else cpus in
  if lRequireResourceLimits l then
    let missing := (if memory =? 0 then ["memory"] else []) ++ (if cpus =? 0 then ["CPU"] else []) in
    match missing with
    | [] => (memory, cpus, None)
    | _ => (memory, cpus, Some (LimitsRequired missing))
    end
  else (memory, cpus, None).
Definition resolve_app_resources (ws : N) (memory cpus : Z) : Z * Z * option quota_err :=
  if negb enabled then (memory, cpus, None) else resolve_resources (effective_limits ws) memory cpus.

(** [checkCPU] *)
Definition check_cpu (l : limits) (cores nano : Z) (what : string) : option quota_err :=
  let allowance := cpu_allowance l cores in
  if f64_lt allowance f64_zero || f64_le (f64_of_int nano) (f64_mul allowance (f64_of_int nano_per_core)) then None
  else
    let used := f64_div (f64_of_int nano) (f64_of_int nano_per_core) in
    if f64_eq allowance (f64_of_int cores) then Some (CPUExceeded what used cores)
    else Some (OvercommitExceeded what used allowance cores).

(** The memory test [CheckComputeAdd] and [CheckDatabaseComputeAdd] share *)
Definition check_memory (limit cur add : Z) (what : string) : option quota_err :=
  if (0 <=? limit) && (wrap64 (limit * bytes_per_mb) <? wrap64 (cur + add))
  then Some (MemoryExceeded what (Z.quot (wrap64 (cur + add)) bytes_per_mb) limit) else None.

(** [CheckComputeAdd]: a sum that cannot be read lets the request through. *)
Definition check_compute_add (ws : N) (add_cpus add_mem : Z) (exclude : N) : option quota_err :=
  if negb enabled then None
  else
    let l := effective_limits ws in
    if (lMaxCPUCores l <? 0) && (lMaxMemoryMB l <? 0) then None
    else
      match sum_app_resources d ws exclude with
      | None => None
      | Some (cpu, mem) =>
          match check_cpu l (lMaxCPUCores l) (wrap64 (cpu + add_cpus)) "workspace" with
          | Some e => Some e
          | None => check_memory (lMaxMemoryMB l) mem add_mem "workspace"
          end
      end.

(** [CheckDatabaseComputeAdd], [DatabaseComputeCapped] *)
Definition check_database_compute_add (ws : N) (add_cpus add_mem : Z) (exclude : N) : option quota_err :=
  if negb enabled then None
  else
    let l := effective_limits ws in
    if (lMaxDatabaseCPUCores l <? 0) && (lMaxDatabaseMemoryMB l <? 0) then None
    else
      match sum_instance_resources d ws exclude with
      | None => None
      | Some (cpu, mem) =>
          match check_cpu l (lMaxDatabaseCPUCores l) (wrap64 (cpu + add_cpus)) "database" with
          | Some e => Some e
          | None => check_memory (lMaxDatabaseMemoryMB l) mem add_mem "database"
          end
      end.
Definition database_compute_capped (ws : N) : bool * bool :=
  if negb enabled then (false, false)
  else let l := effective_limits ws in (0 <=? lMaxDatabaseCPUCores l, 0 <=? lMaxDatabaseMemoryMB l).

(** [CheckGPURequest], [CheckInstanceSize], [CheckStorageAdd] *)
Definition check_gpu_request (ws : N) (requested : Z) (exclude : N) : option quota_err :=
  if negb enabled || (requested <=? 0) then None
  else
    let limit := resource_limit (effective_limits ws) ResourceGPUs in
    if limit <? 0 then None
    else
      match sum_running_gpus d ws exclude with
      | None => None
      | Some cur =>
          if limit <? wrap64 (cur + requested) then Some (QuotaError ResourceGPUs (wrap64 (cur + requested)) limit) else None
      end.
Definition check_instance_size (ws : N) (size : Z) : option quota_err :=
  if negb enabled || (size <=? 0) then None
  else
    let limit := lMaxDatabaseInstanceSizeMB (effective_limits ws) in
    if limit <? 0 then None
    else if wrap64 (limit * bytes_per_mb) <? size then Some (SizeExceeded (Z.quot size bytes_per_mb) limit)
    else None.
Definition check_storage_add (ws : N) (add : Z) : option quota_err :=
  if negb enabled || (add <=? 0) then None
  else
    let limit := lMaxStorageMB (effective_limits ws) in
    if limit <? 0 then None
    else
      let cur := wrap64 (default 0 (sum_volumes d ws) + default 0 (sum_instance_volumes d ws)) in
      if wrap64 (limit * bytes_per_mb) <? wrap64 (cur + add)
      then Some (StorageExceeded (Z.quot (wrap64 (cur + add)) bytes_per_mb) limit) else None.
End Service.

(** * Facts *)

Lemma check_cpu_exact (l : limits) (cores nano : Z) (what : string) :
  lCPUOvercommit l = f64_one -> 0 <= cores -> cores * nano_per_core < 2 ^ 53 -> 0 <= nano < 2 ^ 53 ->
  check_cpu l cores nano what = None <-> nano <= cores * nano_per_core.
Proof.
  intros Ho Hc Hlt Hn. unfold check_cpu, cpu_allowance. rewrite Ho, (proj2 (Z.ltb_ge _ _)) by lia.
  change (f64_max (f64_of_int 1) f64_one) with (f64_of_int 1).
  assert (Hnano : nano_per_core = 1000000000) by done.
  assert (Ha : represents (f64_mul (f64_of_int cores) (f64_of_int 1)) cores).
  { rewrite <- (Z.mul_1_r cores) at 2. apply f64_mul_exact; [apply f64_of_int_exact; lia|apply f64_of_int_exact; lia|lia]. }
  rewrite (f64_zero_lt_exact _ cores Ha). rewrite orb_false_l.
  rewrite (f64_le_exact _ _ nano (cores * nano_per_core)).
  - destruct (Z.leb_spec nano (cores * nano_per_core)); [done|]. destruct (f64_eq _ _); split; (done || lia).
  - by apply f64_of_int_exact.
  - apply f64_mul_exact; [done|apply f64_of_int_exact; lia|done].
Qed.

Lemma check_memory_exact limit cur add what :
  0 <= limit -> limit * bytes_per_mb < 2 ^ 63 -> 0 <= cur + add < 2 ^ 63 ->
  check_memory limit cur add what = None <-> cur + add <= limit * bytes_per_mb.
Proof.
  intros Hl Hlt Hs. assert (Hb : bytes_per_mb = 1048576) by done.
  unfold check_memory. rewrite (proj2 (Z.leb_le _ _)) by lia.
  rewrite !wrap64_small by lia. simpl. destruct (Z.ltb_spec (limit * bytes_per_mb) (cur + add)); split; (done || lia).
Qed.

Lemma sql_sum_some l n : sql_sum l = Some n -> n = sum_z l.
Proof. unfold sql_sum. destruct (in_int64 (sum_z l)); [by intros [= <-]|done]. Qed.

(** The table after an application row is stored *)
Definition store_app (a : app_row) (d : quota_db) : quota_db :=
  QuotaDB (qd_plans d) (qd_assigned d) (qd_overrides d) (a :: List.filter (fun b => negb (ar_id b =? ar_id a)%N) (qd_apps d))
    (qd_volumes d) (qd_instances d) (qd_fails d).

Lemma counted_after_store (a : app_row) (d : quota_db) (ws exclude : N) :
  ar_workspace a = ws ->
  (exclude = ar_id a /\ exclude <> 0%N) \/ (exclude = 0%N /\ ar_id a ∉ (ar_id <$> qd_apps d)) ->
  counted_apps (store_app a d) ws 0 = a :: counted_apps d ws exclude.
Proof.
  intros Hws Hex. unfold counted_apps. simpl. rewrite Hws, N.eqb_refl. simpl. f_equal.
  rewrite bfilter_bfilter. apply List.filter_ext_in. intros b Hb. apply list_elem_of_In in Hb. rewrite andb_true_r.
  rewrite andb_comm. destruct (ar_workspace b =? ws)%N; simpl; [|done]. destruct Hex as [[-> H0]|[-> Hf]].
  - rewrite (proj2 (N.eqb_neq _ _) H0). done.
  - simpl. apply negb_true_iff, N.eqb_neq. intros He. apply Hf. rewrite <- He. by apply list_elem_of_fmap_2.
Qed.

(** What a plan and an override say of each resource and capability, field by field *)
Definition plan_limit (p : plan) (r : resource) : Z :=
  match r with
  | ResourceApps => pMaxApps p | ResourceDatabaseInstances => pMaxDatabaseInstances p
  | ResourceCronJobs => pMaxCronJobs p | ResourceVolumes => pMaxVolumes p | ResourceNetworks => pMaxNetworks p
  | ResourceAPIKeys => pMaxAPIKeys p | ResourceMembers => pMaxMembers p
  | ResourceDatabasesPerInstance => pMaxDatabasesPerInstance p | ResourceRunners => pMaxRunners p
  | ResourceGPUs => pMaxGPUs p
  end.
Definition override_limit (o : workspace_quota) (r : resource) : option Z :=
  match r with
  | ResourceApps => oMaxApps o | ResourceDatabaseInstances => oMaxDatabaseInstances o
  | ResourceCronJobs => oMaxCronJobs o | ResourceVolumes => oMaxVolumes o | ResourceNetworks => oMaxNetworks o
  | ResourceAPIKeys => oMaxAPIKeys o | ResourceMembers => oMaxMembers o
  | ResourceDatabasesPerInstance => oMaxDatabasesPerInstance o | ResourceRunners => oMaxRunners o
  | ResourceGPUs => oMaxGPUs o
  end.
Definition plan_capability (p : plan) (c : capability) : bool :=
  match c with
  | CapCustomTLS => pAllowCustomTLS p | CapPrivilegedHostMounts => pAllowPrivilegedHostMounts p
  | CapShellExec => pAllowShellExec p | CapSharedStorage => pAllowSharedStorage p
  | CapDNSProviders => pAllowDNSProviders p | CapCustomLabels => pAllowCustomLabels p
  | CapPlatformRunners => pAllowPlatformRunners p | CapCustomBuilder => pAllowCustomBuilder p
  | CapGPU => pAllowGPU p | CapServiceRuntime => pAllowServiceRuntime p
  end.
Definition override_capability (o : workspace_quota) (c : capability) : option bool :=
  match c with
  | CapCustomTLS => oAllowCustomTLS o | CapPrivilegedHostMounts => oAllowPrivilegedHostMounts o
  | CapShellExec => oAllowShellExec o | CapSharedStorage => oAllowSharedStorage o
  | CapDNSProviders => oAllowDNSProviders o | CapCustomLabels => oAllowCustomLabels o
  | CapPlatformRunners => oAllowPlatformRunners o | CapCustomBuilder => oAllowCustomBuilder o
  | CapGPU => oAllowGPU o | CapServiceRuntime => oAllowServiceRuntime o
  end.

Lemma effective_plan_active (d : quota_db) (ws : N) (p : plan) :
  effective_plan d ws = Some p -> p ∈ qd_plans d /\ pIsActive p = true.
Proof.
  assert (Hdef : forall q, find_default_plan d = Some q -> q ∈ qd_plans d /\ pIsActive q = true).
  { intros q. unfold find_default_plan, run_query. destruct (qd_fails d QDefault); [done|].
    intros Hq. apply find_first_some in Hq as [Hin Hq]. by apply andb_true_iff in Hq as [_ Hq]. }
  unfold effective_plan. destruct (plan_for_workspace d ws) as [q|] eqn:Hq; [|apply Hdef].
  destruct (pIsActive q) eqn:Ha; [|apply Hdef]. intros [= <-]. split; [|done].
  unfold plan_for_workspace, run_query in Hq. destruct (qd_fails d QPlan); [done|].
  destruct (qd_assigned d !! ws); [|done]. simpl in Hq. by apply find_first_some in Hq as [Hin _].
Qed.

(** * Claims *)

(** The limit of every resource, and every capability, is the workspace's
    override where it sets one, else that of its plan in force, else unlimited and allowed. The plan
    in force is an active one: the plan assigned, or else the default. The restricted profile binds
    only where it is licensed. *)
Lemma limits_resolution (sv : quota_service) (d : quota_db) (ws : N) :
  let l := effective_limits (Some sv) d ws in
  let p := effective_plan d ws in
  let o := override_of (Some sv) d ws in
  (forall r, resource_limit l r = default (match p with Some p => plan_limit p r | None => -1 end) (o ≫= fun o => override_limit o r)) /\
  (forall c, allows_capability l c = default (match p with Some p => plan_capability p c | None => true end) (o ≫= fun o => override_capability o c)) /\
  (lSecurityProfile l = profile_restricted <->
     entitled (Some sv) flag_security_profile = true /\
     default (match p with Some p => pSecurityProfile p | None => profile_default end) (o ≫= oSecurityProfile) = profile_restricted) /\
  (forall q, p = Some q -> q ∈ qd_plans d /\ pIsActive q = true) /\
  (lCPUOvercommit l = f64_max f64_one (qs_overcommit sv)).
Proof.
  intros l p o. unfold l, effective_limits. fold p o. split; [|split; [|split; [|split; [apply effective_plan_active|done]]]].
  - intros r. destruct o, p, r; reflexivity.
  - intros c. destruct o, p, c; reflexivity.
  - destruct (entitled (Some sv) flag_security_profile); cbn [with_profile lSecurityProfile]; [|by split; [|intros [? _]]].
    assert (Hn : forall x, normalize_security_profile x = profile_restricted <-> x = profile_restricted).
    { intros x. unfold normalize_security_profile. by destruct (String.eqb_spec x profile_restricted). }
    destruct o as [o|]; simpl; [destruct (oSecurityProfile o); simpl|]; destruct p; simpl; rewrite ?Hn; by intuition.
Qed.

(** Creating one after the other, each admitted or not on the live count. *)
Definition create_next (s : option quota_service) (d : quota_db) (ws : N) (r : resource) (n : Z) : Z :=
  match check_create s d ws r n with None => n + 1 | Some _ => n end.

(** A create is refused exactly by the workspace's restriction, or when
    quotas are enforced and the live count has reached a limit that is not unlimited. So creates made
    one after the other fill the workspace up to its limit and never pass it. *)
Lemma creates_stay_within_limit (sv : quota_service) (d : quota_db) (ws : N) (r : resource) (limit : Z) :
  qs_enforce sv = true -> resource_limit (effective_limits (Some sv) d ws) r = limit -> 0 <= limit ->
  (forall n, check_create (Some sv) d ws r n = None <->
     (qs_restricted sv ≫= fun gate => gate ws) = None /\ n < limit) /\
  (forall n k, 0 <= n -> (qs_restricted sv ≫= fun gate => gate ws) = None ->
     Nat.iter k (create_next (Some sv) d ws r) n = Z.max n (Z.min (n + Z.of_nat k) limit)).
Proof.
  intros Hen Hl Hlim.
  assert (Hcc : forall n, check_create (Some sv) d ws r n = None <->
     (qs_restricted sv ≫= fun gate => gate ws) = None /\ n < limit).
  { intros n. unfold check_create. cbn [mbind option_bind].
    destruct (qs_restricted sv) as [gate|]; cbn [mbind option_bind]; [destruct (gate ws); [by split; [|intros []]|]|];
      cbn [enabled]; rewrite Hen; cbn [negb]; rewrite Hl, (proj2 (Z.ltb_ge _ _)) by lia;
      destruct (Z.leb_spec limit n); split; (done || lia || intros [_ ?]; lia). }
  split; [exact Hcc|]. intros n k Hn Hg. induction k as [|k IH]; [simpl; lia|]. simpl. rewrite IH. unfold create_next at 1.
  set (m := Z.max n (Z.min (n + Z.of_nat k) limit)).
  destruct (check_create (Some sv) d ws r m) as [e|] eqn:Hc.
  - assert (~ m < limit) by (intros Hm; assert (check_create (Some sv) d ws r m = None) by (by apply Hcc); congruence). lia.
  - apply Hcc in Hc as [_ Hc]. lia.
Qed.

(** C40 [compute_budget_kept]: Where limits are enforced and the plan has no CPU overcommit (a ratio
    of exactly 1), when the query of the current sums succeeds (the check lets everything pass when
    it fails), the sums with the request stay below 2^53 nano-CPUs and 2^63 bytes, as do the plan's
    limits, and CheckComputeAdd lets the CPU and memory of an application pass (every replica of a
    service counted; its old row, if it has one, excluded): then once the application is stored, and
    if no other is meanwhile, the workspace's total is within the plan's cores and megabytes where
    these are limited. The comparison in float64 is exact. *)
Theorem compute_budget_kept (sv : quota_service) (d : quota_db) (a : app_row) (exclude : N) (cpu mem : Z) :
  let ws := ar_workspace a in
  let l := effective_limits (Some sv) d ws in
  let add_cpus := ar_cpus a * app_replicas a in
  let add_mem := ar_memory a * app_replicas a in
  let total f := sum_z ((fun b => f b * app_replicas b) <$> counted_apps (store_app a d) ws 0) in
  qs_enforce sv = true -> lCPUOvercommit l = f64_one ->
  (exclude = ar_id a /\ exclude <> 0%N) \/ (exclude = 0%N /\ ~ (ar_id a ∈ (ar_id <$> qd_apps d))) ->
  sum_app_resources d ws exclude = Some (cpu, mem) ->
  0 <= cpu + add_cpus < 2 ^ 53 -> 0 <= mem + add_mem < 2 ^ 63 ->
  lMaxCPUCores l * nano_per_core < 2 ^ 53 -> lMaxMemoryMB l * bytes_per_mb < 2 ^ 63 ->
  check_compute_add (Some sv) d ws add_cpus add_mem exclude = None ->
  (0 <= lMaxCPUCores l -> total ar_cpus <= lMaxCPUCores l * nano_per_core) /\
  (0 <= lMaxMemoryMB l -> total ar_memory <= lMaxMemoryMB l * bytes_per_mb).
Proof.
  intros ws l add_cpus add_mem total Hen Ho Hex Hsum Hc Hm Hcl Hml Hck.
  assert (Htot : total ar_cpus = cpu + add_cpus /\ total ar_memory = mem + add_mem).
  { unfold total. rewrite (counted_after_store a d ws exclude) by done. rewrite !fmap_cons.
    unfold sum_app_resources, run_query in Hsum. destruct (qd_fails d QApps); [done|]. 
    apply bind_Some in Hsum as (c & Hc1 & Hsum). apply bind_Some in Hsum as (m & Hm1 & [= <- <-]).
    apply sql_sum_some in Hc1 as ->, Hm1 as ->. unfold add_cpus, add_mem, ws, sum_z. cbn [foldr]. split; lia. }
  destruct Htot as [-> ->]. unfold check_compute_add in Hck. cbn [enabled] in Hck.
  rewrite Hen, Hsum in Hck. cbn [negb] in Hck. fold l in Hck.
  destruct ((lMaxCPUCores l <? 0) && (lMaxMemoryMB l <? 0)) eqn:Hneg.
  { apply andb_true_iff in Hneg as [H1 H2]. apply Z.ltb_lt in H1, H2. lia. }
  rewrite wrap64_small in Hck by lia.
  destruct (check_cpu l (lMaxCPUCores l) (cpu + add_cpus) "workspace") eqn:Hcpu; [done|]. split.
  - intros H0. by apply (check_cpu_exact l _ _ "workspace") in Hcpu.
  - intros H0. by apply check_memory_exact in Hck.
Qed.

(** ** Witnesses *)

Definition demo_plan (id : N) (apps cores mem : Z) (active : bool) : plan :=
  Plan id "small" true active apps 1 0 5 5 5 5 5 cores mem 1024 (-1) 1 0 (-1) (-1)
    true false true false false true true false false true 500 256 true "restricted" false
    no_placement [] [] "" ["shared-1"].
Definition demo_override (apps : option Z) : workspace_quota :=
  WorkspaceQuota apps None None None None None None None None None None None None None None None
    None None None None None None None (Some true) None None None None None None None
    None None None None None.
Definition demo_service : quota_service := QuotaService true (Some (fun _ => true)) false None f64_zero true.
Definition demo_db : quota_db :=
  QuotaDB [demo_plan 1 3 2 1024 true; demo_plan 2 9 4 4096 false] {[ 7%N := 2%N ]} {[ 8%N := demo_override (Some 5) ]}
    [AppRow 1 7 true 2 500000000 (256 * bytes_per_mb) true 0; AppRow 2 8 false 1 0 0 false 0] [] [] (fun _ => false).

Definition demo_app : app_row := AppRow 3 7 false 1 1000000000 (512 * bytes_per_mb) true 0.

Lemma compute_budget_kept_witness :
  sum_z ((fun b => ar_memory b * app_replicas b) <$> counted_apps (store_app demo_app demo_db) 7 0) <= 1024 * bytes_per_mb.
Proof.
  destruct (compute_budget_kept demo_service demo_db demo_app 0 1000000000 (512 * bytes_per_mb)) as [_ Hm].
  - reflexivity.
  - by vm_compute.
  - right. split; [reflexivity|]. apply (bool_decide_unpack _). by vm_compute.
  - by vm_compute.
  - by vm_compute.
  - by vm_compute.
  - by vm_compute.
  - by vm_compute.
  - by vm_compute.
  - apply Hm. by vm_compute.
Defined.
