(* ===== verification/Scheduler.v ===== *)
(** * Choosing a build runner

    [internal/services/runner/scheduler.go], the candidate set of [service.go] ([schedulable],
    [offeredByPlan]), and the queries of [runner_repo.go] and [runner_lease_repo.go]. The comparison of
    [golang.org/x/mod/semver] is third-party: [semver_valid] and [semver_compare] are arguments. What
    a plan lends a workspace is the [Quota] file's. *)
From S2P Require Import Prelude GoStrings GoTime Quota.
#[local] Open Scope Z_scope.
#[local] Open Scope list_scope.

(** ** Runners, jobs, leases *)

Definition scope_workspace : string := "workspace".
Definition scope_shared : string := "shared".

(** [models.Runner], what scheduling reads of it *)
Record runner := Runner {
  rn_id : N; rn_name : string; rn_workspace : option N; rn_scope : string; rn_labels : list string;
  rn_concurrency : Z; rn_version : string; rn_features : list string; rn_cordoned : bool; rn_enabled : bool }.

Record job := Job { jb_workspace : N; jb_labels : list string; jb_features : list string; jb_min_version : string }.

Inductive lease_kind := LeaseKindPipeline | LeaseKindBuild.
#[export] Instance lease_kind_eq_dec : EqDecision lease_kind.
Proof. solve_decision. Defined.
Inductive lease_status := LeaseActive | LeaseDone | LeaseExpired.
#[export] Instance lease_status_eq_dec : EqDecision lease_status.
Proof. solve_decision. Defined.

(** [models.RunnerLease] *)
Record runner_lease := RunnerLease {
  ls_id : N; ls_runner : N; ls_kind : lease_kind; ls_run : N; ls_step : option N; ls_status : lease_status;
  ls_leased : instant; ls_expires : instant }.

(** ** Eligibility *)

(** [owned], [inScope], [labelsSatisfy] *)
Definition owned (r : runner) : bool := match rn_workspace r with Some _ => true | None => false end.
Definition in_scope (r : runner) (ws : N) : bool :=
  match rn_workspace r with
  | Some w => (w =? ws)%N
  | None => String.eqb (rn_scope r) scope_shared
  end.
Definition labels_satisfy (have required : list string) : bool :=
  forallb (fun l => existsb (String.eqb l) have) required.

Section Scheduler.
Context (semver_valid : string -> bool) (semver_compare : string -> string -> Z).

(** [versionAtLeast] *)
Definition canon (v : string) : string :=
  let v := trim_space v in
  if negb (String.eqb v "") && negb (has_prefix "v" v) then "v" +:+ v else v.
Definition version_at_least (have min : string) : bool :=
  if String.eqb min "" || String.eqb have "dev" then true
  else semver_valid (canon have) && (0 <=? semver_compare (canon have) (canon min)).

(** [eligible] *)
Definition eligible (r : runner) (j : job) (connected : bool) : bool :=
  if negb (rn_enabled r) || rn_cordoned r || negb connected then false
  else if negb (in_scope r (jb_workspace j)) then false
  else labels_satisfy (rn_labels r) (jb_labels j) && labels_satisfy (rn_features r) (jb_features j) &&
       version_at_least (rn_version r) (jb_min_version j).

(** [outranks] *)
Definition outranks (r : runner) (load : Z) (best : option (runner * Z)) : bool :=
  match best with
  | None => true
  | Some (b, best_load) =>
      if negb (Bool.eqb (owned r) (owned b)) then owned r
      else if negb (load =? best_load) then load <? best_load
      else (rn_id r <? rn_id b)%N
  end.

(** A turn of the loop of [pick], and [pick] *)
Definition load_of (loads : gmap N Z) (r : runner) : Z := default 0 (loads !! rn_id r).
Definition pick_step (j : job) (loads : gmap N Z) (connected : N -> bool) (best : option (runner * Z)) (r : runner) :
    option (runner * Z) :=
  if negb (eligible r j (connected (rn_id r))) then best
  else
    let load := load_of loads r in
    if rn_concurrency r <=? load then best
    else if outranks r load best then Some (r, load) else best.
Definition pick (candidates : list runner) (j : job) (loads : gmap N Z) (connected : N -> bool) : option runner :=
  fst <$> foldl (pick_step j loads connected) None candidates.

(** ** The service *)

(** The runner table in the order of [ORDER BY id DESC], the leases, what the tunnel manager knows
    (if it is wired), and whether the runner and lease queries fail. *)
Record runner_env := RunnerEnv {
  re_quota : option quota_service; re_db : quota_db; re_runners : list runner;
  re_leases : option (list runner_lease); re_conn : option (N -> bool);
  re_list_fails : bool; re_count_fails : bool }.

Inductive runner_err := ErrNoRunner | ErrRunnerDB.

(** [ListSchedulable] *)
Definition list_schedulable (e : runner_env) (ws : N) (include_shared : bool) : result runner_err (list runner) :=
  if re_list_fails e then Err ErrRunnerDB
  else Ok (List.filter (fun r => match rn_workspace r with Some w => (w =? ws)%N | None => include_shared end) (re_runners e)).

(** [offeredByPlan], [schedulable], [UsableShared] *)
Definition offered_by_plan (all : list runner) (allowed : list string) : list runner :=
  List.filter (fun r => owned r || binding_allows allowed (rn_name r)) all.
Definition include_shared (e : runner_env) (ws : N) : bool :=
  bool_decide (require (re_quota e) (re_db e) ws CapPlatformRunners = None).
Definition schedulable (e : runner_env) (ws : N) : result runner_err (list runner) :=
  match list_schedulable e ws (include_shared e ws) with
  | Err er => Err er
  | Ok all =>
      if negb (include_shared e ws) then Ok all
      else match effective_platform_runners (re_quota e) (re_db e) ws with
           | None => Ok all
           | Some allowed => Ok (offered_by_plan all allowed)
           end
  end.
Definition usable_shared (e : runner_env) (ws : N) : result runner_err (list runner) :=
  let? all := schedulable e ws in Ok (List.filter (fun r => negb (owned r)) all).

(** [ActiveCountsByRunner], [activeCounts], [connected] *)
Definition active_of (leases : list runner_lease) (id : N) : list runner_lease :=
  List.filter (fun l => bool_decide (ls_status l = LeaseActive) && (ls_runner l =? id)%N) leases.
Definition active_counts_by_runner (leases : list runner_lease) : gmap N Z :=
  foldr (fun l m => if bool_decide (ls_status l = LeaseActive)
                    then <[ls_runner l := default 0 (m !! ls_runner l) + 1]> m else m) ∅ leases.
Definition active_counts (e : runner_env) : result runner_err (gmap N Z) :=
  match re_leases e with
  | None => Ok ∅
  | Some leases => if re_count_fails e then Err ErrRunnerDB else Ok (active_counts_by_runner leases)
  end.
Definition connected (e : runner_env) (id : N) : bool := match re_conn e with None => true | Some c => c id end.

(** [SelectRunner] *)
Definition select_runner (e : runner_env) (j : job) : result runner_err runner :=
  let? candidates := schedulable e (jb_workspace j) in
  let? loads := active_counts e in
  of_option ErrNoRunner (pick candidates j loads (connected e)).

(** What [AvailabilityReason] answers, and its text *)
Inductive availability :=
| CannotCheck | SharedNotInPlan | SharedNotRegistered | NoRunnerRegistered | Disabled | Offline
| LabelMismatch | FeatureMismatch | VersionMismatch | AllBusy | Available.

Definition availability_text (a : availability) (j : job) (db_error : string) : string :=
  match a with
  | CannotCheck => "could not check runner availability: " +:+ db_error
  | SharedNotInPlan => "a platform (shared) runner exists but this workspace's plan doesn't include platform runners"
  | SharedNotRegistered => "the platform (shared) runners this workspace's plan offers are not registered"
  | NoRunnerRegistered => "no runner is registered for this workspace — add one in Settings → Runners"
  | Disabled => "the registered runner(s) are disabled or cordoned"
  | Offline => "the registered runner(s) are offline (not connected) — check the runner is running and reachable"
  | LabelMismatch => "no connected runner matches the job's required labels"
  | FeatureMismatch =>
      "no connected runner supports " +:+ join ", " (jb_features j) +:+ " — upgrade the runners to a release that does"
  | VersionMismatch =>
      "no connected runner is at version " +:+ jb_min_version j +:+ " or newer, which this job needs — upgrade the runners"
  | AllBusy => "all runners are busy (at their concurrency limit); the build will start when one frees up"
  | Available => ""
  end.

(** The six counters, and the loop that fills them *)
Record counts := Counts {
  ct_enabled : Z; ct_connected : Z; ct_label : Z; ct_feature : Z; ct_version : Z; ct_capacity : Z }.
Definition count_step (e : runner_env) (j : job) (loads : gmap N Z) (c : counts) (r : runner) : counts :=
  if negb (rn_enabled r) || rn_cordoned r then c
  else if negb (connected e (rn_id r)) then
    Counts (ct_enabled c + 1) (ct_connected c) (ct_label c) (ct_feature c) (ct_version c) (ct_capacity c)
  else if negb (labels_satisfy (rn_labels r) (jb_labels j)) then
    Counts (ct_enabled c + 1) (ct_connected c + 1) (ct_label c) (ct_feature c) (ct_version c) (ct_capacity c)
  else if negb (labels_satisfy (rn_features r) (jb_features j)) then
    Counts (ct_enabled c + 1) (ct_connected c + 1) (ct_label c + 1) (ct_feature c) (ct_version c) (ct_capacity c)
  else if negb (version_at_least (rn_version r) (jb_min_version j)) then
    Counts (ct_enabled c + 1) (ct_connected c + 1) (ct_label c + 1) (ct_feature c + 1) (ct_version c) (ct_capacity c)
  else
    Counts (ct_enabled c + 1) (ct_connected c + 1) (ct_label c + 1) (ct_feature c + 1) (ct_version c + 1)
      (if load_of loads r <? rn_concurrency r then ct_capacity c + 1 else ct_capacity c).

(** [AvailabilityReason] *)
Definition availability_reason (e : runner_env) (j : job) : availability :=
  match schedulable e (jb_workspace j) with
  | Err _ => CannotCheck
  | Ok [] =>
      match list_schedulable e (jb_workspace j) true with
      | Ok (_ :: _) => if negb (include_shared e (jb_workspace j)) then SharedNotInPlan else SharedNotRegistered
      | _ => NoRunnerRegistered
      end
  | Ok candidates =>
      let loads := match active_counts e with Ok m => m | Err _ => ∅ end in
      let c := foldl (count_step e j loads) (Counts 0 0 0 0 0 0) candidates in
      if ct_enabled c =? 0 then Disabled
      else if ct_connected c =? 0 then Offline
      else if ct_label c =? 0 then LabelMismatch
      else if ct_feature c =? 0 then FeatureMismatch
      else if ct_version c =? 0 then VersionMismatch
      else if ct_capacity c =? 0 then AllBusy
      else Available
  end.

(** ** Leases *)

Definition with_lease_status (st : lease_status) (l : runner_lease) : runner_lease :=
  RunnerLease (ls_id l) (ls_runner l) (ls_kind l) (ls_run l) (ls_step l) st (ls_leased l) (ls_expires l).
Definition holds_job (k : lease_kind) (run : N) (l : runner_lease) : bool :=
  bool_decide (ls_kind l = k) && (ls_run l =? run)%N && bool_decide (ls_status l = LeaseActive).

(** [Lease]: the partial unique index on (kind, run_id) of the active rows refuses a second claim. *)
Definition lease (leases : list runner_lease) (id runner : N) (k : lease_kind) (run : N) (step : option N)
    (deadline now : instant) : result runner_err (list runner_lease) :=
  if existsb (holds_job k run) leases then Err ErrRunnerDB
  else Ok (RunnerLease id runner k run step LeaseActive now deadline :: leases).

(** [ReleaseRun]; [SweepExpiredLeases], with the leases it expired *)
Definition release_run (leases : list runner_lease) (k : lease_kind) (run : N) : list runner_lease :=
  (fun l => if holds_job k run l then with_lease_status LeaseDone l else l) <$> leases.
Definition overdue (now : instant) (l : runner_lease) : bool :=
  bool_decide (ls_status l = LeaseActive) && (ls_expires l <? now).
Definition sweep_expired_leases (leases : list runner_lease) (now : instant) : list runner_lease * list runner_lease :=
  ((fun l => if overdue now l then with_lease_status LeaseExpired l else l) <$> leases, List.filter (overdue now) leases).
End Scheduler.

(** * Facts *)

(** ** The order of [pick] *)

Lemma outranks_spec r lr b lb :
  outranks r lr (Some (b, lb)) = true <->
  (owned r = true /\ owned b = false) \/
  (owned r = owned b /\ (lr < lb \/ (lr = lb /\ (rn_id r < rn_id b)%N))).
Proof.
  unfold outranks. destruct (owned r), (owned b); simpl; try (split; [intros; (done || by left)|by intros [[]|[]]]);
    destruct (Z.eqb_spec lr lb); simpl; rewrite ?N.ltb_lt, ?Z.ltb_lt; split; intros; try lia; right; split; (done || lia).
Qed.

Lemma outranks_trans r lr b lb x lx :
  outranks r lr (Some (b, lb)) = true -> outranks b lb (Some (x, lx)) = true -> outranks r lr (Some (x, lx)) = true.
Proof.
  rewrite !outranks_spec. intros [[H1 H2]|[H1 H2]] [[H3 H4]|[H3 H4]].
  - congruence.
  - left. split; congruence.
  - left. split; congruence.
  - right. split; [congruence|lia].
Qed.

Lemma outranks_total r lr b lb :
  outranks r lr (Some (b, lb)) = false -> outranks b lb (Some (r, lr)) = false -> rn_id r = rn_id b.
Proof.
  intros H1 H2.
  assert (H1' : ~ outranks r lr (Some (b, lb)) = true) by congruence.
  assert (H2' : ~ outranks b lb (Some (r, lr)) = true) by congruence.
  rewrite outranks_spec in H1', H2'.
  destruct (owned r), (owned b); try (exfalso; (apply H1'; by left) || (apply H2'; by left));
    (destruct (N.lt_trichotomy (rn_id r) (rn_id b)) as [?|[?|?]]; [|done|]);
    exfalso; (destruct (Z.lt_trichotomy lr lb) as [?|[?|?]]);
    ((apply H1'; right; split; [done|lia]) || (apply H2'; right; split; [done|lia])).
Qed.

Lemma outranks_irrefl r lr : outranks r lr (Some (r, lr)) = false.
Proof. apply not_true_iff_false. rewrite outranks_spec. intros Ho. destruct (owned r); intuition (done || lia). Qed.

Section Facts.
Context (semver_valid : string -> bool) (semver_compare : string -> string -> Z).
Abbreviation elig := (eligible semver_valid semver_compare).

(** The runner could take the job now. *)
Definition fits (j : job) (loads : gmap N Z) (conn : N -> bool) (r : runner) : bool :=
  elig r j (conn (rn_id r)) && (load_of loads r <? rn_concurrency r).

Lemma pick_step_fits j loads conn best r :
  pick_step semver_valid semver_compare j loads conn best r =
  if fits j loads conn r && outranks r (load_of loads r) best then Some (r, load_of loads r) else best.
Proof.
  unfold pick_step, fits. destruct (elig r j (conn (rn_id r))); simpl; [|done].
  rewrite Z.leb_antisym. by destruct (load_of loads r <? rn_concurrency r).
Qed.

Lemma pick_fold j loads conn l :
  match foldl (pick_step semver_valid semver_compare j loads conn) None l with
  | None => forall r, r ∈ l -> fits j loads conn r = false
  | Some (b, lb) => b ∈ l /\ fits j loads conn b = true /\ lb = load_of loads b /\
      forall r, r ∈ l -> fits j loads conn r = true -> outranks r (load_of loads r) (Some (b, lb)) = false
  end.
Proof.
  induction l as [|x l IH] using rev_ind; [by inversion 1|]. rewrite foldl_snoc, pick_step_fits.
  destruct (foldl _ None l) as [[b lb]|].
  - destruct IH as (Hb & Hfb & -> & Hbest).
    destruct (fits j loads conn x && outranks x (load_of loads x) (Some (b, load_of loads b))) eqn:Hx.
    + apply andb_true_iff in Hx as [Hfx Hx]. split; [set_solver|]. split; [done|]. split; [done|].
      intros r Hr Hf. apply elem_of_app in Hr as [Hr|Hr].
      * apply not_true_iff_false. intros Ho. pose proof (outranks_trans _ _ _ _ _ _ Ho Hx). by rewrite Hbest in H.
      * apply list_elem_of_singleton in Hr as ->. apply outranks_irrefl.
    + split; [set_solver|]. split; [done|]. split; [done|]. intros r Hr Hf.
      apply elem_of_app in Hr as [Hr|Hr]; [by apply Hbest|]. apply list_elem_of_singleton in Hr as ->.
      by rewrite Hf in Hx.
  - destruct (fits j loads conn x) eqn:Hx; simpl.
    + split; [set_solver|]. split; [done|]. split; [done|]. intros r Hr Hf.
      apply elem_of_app in Hr as [Hr|Hr]; [by rewrite IH in Hf|]. apply list_elem_of_singleton in Hr as ->.
      apply outranks_irrefl.
    + intros r Hr. apply elem_of_app in Hr as [Hr|Hr]; [by apply IH|]. by apply list_elem_of_singleton in Hr as ->.
Qed.

(** ** The candidates *)

(** The runner is the workspace's own, or one its plan lends it. *)
Definition lent (e : runner_env) (ws : N) (r : runner) : Prop :=
  match rn_workspace r with
  | Some w => w = ws
  | None => include_shared e ws = true /\
      forall allowed, effective_platform_runners (re_quota e) (re_db e) ws = Some allowed ->
        binding_allows allowed (rn_name r) = true
  end.

Lemma schedulable_spec e ws l : schedulable e ws = Ok l -> forall r, r ∈ l <-> r ∈ re_runners e /\ lent e ws r.
Proof.
  unfold schedulable, list_schedulable, lent. destruct (re_list_fails e); [done|]. intros Hs r.
  assert (Hf : forall (p : runner -> bool) l, r ∈ List.filter p l <-> r ∈ l /\ p r = true).
  { intros p l'. rewrite !list_elem_of_In, List.filter_In. done. }
  destruct (include_shared e ws) eqn:Hi; simpl in Hs.
  - destruct (effective_platform_runners (re_quota e) (re_db e) ws) as [allowed|]; injection Hs as <-;
      unfold offered_by_plan; rewrite ?Hf; unfold owned; destruct (rn_workspace r) as [w|].
    + rewrite N.eqb_eq. split; [by intros [[? ?] _]|by intros [? ?]].
    + simpl. split; [intros [[? _] ?]; split; [done|split; [done|by intros ? [= <-]]]|].
      intros (? & _ & Ha). split; [done|by apply Ha].
    + rewrite N.eqb_eq. done.
    + split; [intros [? _]; by split|by intros [? _]].
  - injection Hs as <-. rewrite Hf. destruct (rn_workspace r) as [w|]; [by rewrite N.eqb_eq|].
    split; [by intros [_ ?]|by intros (_ & ? & _)].
Qed.

(** ** The load is the number of active leases. *)
Lemma active_count leases id :
  default 0 (active_counts_by_runner leases !! id) = Z.of_nat (length (active_of leases id)).
Proof.
  induction leases as [|l leases IH]; [done|]. unfold active_of. simpl. fold (active_of leases id).
  destruct (bool_decide (ls_status l = LeaseActive)); simpl; [|done].
  destruct (N.eqb_spec (ls_runner l) id) as [->|Hne].
  - rewrite lookup_insert_eq. simpl. rewrite IH. lia.
  - by rewrite lookup_insert_ne.
Qed.

(** ** The counters of [AvailabilityReason] *)
Lemma b2z_and a b : 0 <= Z.b2z (a && b) <= Z.b2z a.
Proof. destruct a, b; simpl; lia. Qed.
Lemma b2z_grows n b : 0 <= n -> 0 < n + Z.b2z b <-> 0 < n \/ b = true.
Proof. intros Hn. destruct b; simpl; split; intros; (lia || (by right) || intuition (lia || done)). Qed.

Definition tally (e : runner_env) (j : job) (loads : gmap N Z) (c : counts) (r : runner) : counts :=
  let p1 := rn_enabled r && negb (rn_cordoned r) in
  let p2 := p1 && connected e (rn_id r) in
  let p3 := p2 && labels_satisfy (rn_labels r) (jb_labels j) in
  let p4 := p3 && labels_satisfy (rn_features r) (jb_features j) in
  let p5 := p4 && version_at_least semver_valid semver_compare (rn_version r) (jb_min_version j) in
  let p6 := p5 && (load_of loads r <? rn_concurrency r) in
  Counts (ct_enabled c + Z.b2z p1) (ct_connected c + Z.b2z p2) (ct_label c + Z.b2z p3) (ct_feature c + Z.b2z p4)
    (ct_version c + Z.b2z p5) (ct_capacity c + Z.b2z p6).

Lemma count_step_tally e j loads c r : count_step semver_valid semver_compare e j loads c r = tally e j loads c r.
Proof.
  unfold count_step, tally. destruct c as [c1 c2 c3 c4 c5 c6]. simpl.
  destruct (rn_enabled r), (rn_cordoned r); simpl; rewrite ?Z.add_0_r; try done.
  destruct (connected e (rn_id r)); simpl; rewrite ?Z.add_0_r; try done.
  destruct (labels_satisfy (rn_labels r) (jb_labels j)); simpl; rewrite ?Z.add_0_r; try done.
  destruct (labels_satisfy (rn_features r) (jb_features j)); simpl; rewrite ?Z.add_0_r; try done.
  destruct (version_at_least semver_valid semver_compare (rn_version r) (jb_min_version j)); simpl; rewrite ?Z.add_0_r; try done.
  destruct (load_of loads r <? rn_concurrency r); simpl; by rewrite ?Z.add_0_r.
Qed.

(** The counters only grow, each is at least the next, and the last counts the runners that fit. *)
Lemma tally_fold e j loads l : (forall r, r ∈ l -> in_scope r (jb_workspace j) = true) ->
  let c := foldl (count_step semver_valid semver_compare e j loads) (Counts 0 0 0 0 0 0) l in
  0 <= ct_capacity c <= ct_version c /\ ct_version c <= ct_feature c <= ct_label c /\
  ct_label c <= ct_connected c <= ct_enabled c /\
  (0 < ct_capacity c <-> exists r, r ∈ l /\ fits j loads (connected e) r = true) /\
  (0 < ct_version c <-> exists r, r ∈ l /\ elig r j (connected e (rn_id r)) = true).
Proof.
  induction l as [|x l IH] using rev_ind; intros Hsc; simpl.
  { split_and!; try lia; split; try lia; intros (r & Hr & _); by inversion Hr. }
  rewrite foldl_snoc, count_step_tally. destruct IH as (H1 & H2 & H3 & Hcap & Hver); [intros r Hr; apply Hsc; set_solver|].
  set (c := foldl _ _ l) in *. cbn zeta. unfold tally. cbn [ct_enabled ct_connected ct_label ct_feature ct_version ct_capacity].
  assert (Hx : elig x j (connected e (rn_id x)) =
    (rn_enabled x && negb (rn_cordoned x)) && connected e (rn_id x) && labels_satisfy (rn_labels x) (jb_labels j) &&
    labels_satisfy (rn_features x) (jb_features j) &&
    version_at_least semver_valid semver_compare (rn_version x) (jb_min_version j)).
  { unfold eligible. rewrite Hsc by set_solver. destruct (rn_enabled x), (rn_cordoned x), (connected e (rn_id x)); done. }
  assert (Hex : forall p : runner -> bool, (exists r, r ∈ l ++ [x] /\ p r = true) <-> (exists r, r ∈ l /\ p r = true) \/ p x = true).
  { intros p. split.
    - intros (r & Hr & Hp). apply elem_of_app in Hr as [Hr|Hr]; [left; eauto|].
      apply list_elem_of_singleton in Hr as ->. by right.
    - intros [(r & Hr & Hp)|Hp]; [exists r|exists x]; split; (done || set_solver). }
  rewrite !Hex, <- Hcap, <- Hver. unfold fits at 1. rewrite Hx. clear Hx Hex Hcap Hver Hsc. clearbody c.
  set (p1 := rn_enabled x && negb (rn_cordoned x)). set (p2 := p1 && connected e (rn_id x)).
  set (p3 := p2 && labels_satisfy (rn_labels x) (jb_labels j)).
  set (p4 := p3 && labels_satisfy (rn_features x) (jb_features j)).
  set (p5 := p4 && version_at_least semver_valid semver_compare (rn_version x) (jb_min_version j)).
  set (p6 := p5 && (load_of loads x <? rn_concurrency x)).
  pose proof (b2z_and p1 (connected e (rn_id x))) as B2. pose proof (b2z_and p2 (labels_satisfy (rn_labels x) (jb_labels j))) as B3.
  pose proof (b2z_and p3 (labels_satisfy (rn_features x) (jb_features j))) as B4.
  pose proof (b2z_and p4 (version_at_least semver_valid semver_compare (rn_version x) (jb_min_version j))) as B5.
  pose proof (b2z_and p5 (load_of loads x <? rn_concurrency x)) as B6.
  fold p2 p3 p4 p5 p6 in B2, B3, B4, B5, B6. split; [lia|]. split; [lia|]. split; [lia|].
  split; apply b2z_grows; lia.
Qed.
End Facts.

(** ** Leases over time *)

Inductive lease_op :=
| OpLease (id runner : N) (k : lease_kind) (run : N) (step : option N) (deadline now : instant)
| OpRelease (k : lease_kind) (run : N)
| OpSweep (now : instant).

Definition lease_step (ls : list runner_lease) (o : lease_op) : list runner_lease :=
  match o with
  | OpLease id rn k run step deadline now =>
      match lease ls id rn k run step deadline now with Ok ls' => ls' | Err _ => ls end
  | OpRelease k run => release_run ls k run
  | OpSweep now => (sweep_expired_leases ls now).1
  end.

(** An operation that ends the lease [l]: its release, or a sweep after its deadline *)
Definition ends (l : runner_lease) (o : lease_op) : bool :=
  match o with
  | OpLease _ _ _ _ _ _ _ => false
  | OpRelease k run => bool_decide (ls_kind l = k) && (ls_run l =? run)%N
  | OpSweep now => ls_expires l <? now
  end.

Definition holders (k : lease_kind) (run : N) (ls : list runner_lease) : list runner_lease := List.filter (holds_job k run) ls.

(** Ending leases only removes holders. *)
Lemma holders_map k run (p : runner_lease -> bool) st ls : st <> LeaseActive ->
  (length (holders k run ((fun l => if p l then with_lease_status st l else l) <$> ls)) <= length (holders k run ls))%nat.
Proof.
  intros Hst. induction ls as [|l ls IH]; [done|]. unfold holders in *. rewrite fmap_cons. simpl.
  destruct (p l).
  - assert (holds_job k run (with_lease_status st l) = false) as ->.
    { unfold holds_job. simpl. rewrite (bool_decide_eq_false_2 (st = LeaseActive)) by done. by rewrite andb_false_r. }
    destruct (holds_job k run l); simpl; lia.
  - destruct (holds_job k run l); simpl; lia.
Qed.

Lemma lease_step_holders k run ls o : (length (holders k run ls) <= 1)%nat -> (length (holders k run (lease_step ls o)) <= 1)%nat.
Proof.
  intros Hle. destruct o as [id rn k' run' step deadline t|k' run'|t]; simpl.
  - unfold lease. destruct (existsb (holds_job k' run') ls) eqn:He; [done|]. unfold holders. simpl.
    fold (holders k run ls). destruct (holds_job k run _) eqn:Hh; [|done].
    unfold holds_job in Hh. simpl in Hh. go_inv. repeat match goal with H : (_ =? _)%N = true |- _ => apply N.eqb_eq in H end. subst. simpl.
    assert (holders k run ls = []) as ->; [|simpl; lia]. unfold holders.
    rewrite existsb_elem_false in He. clear Hle. induction ls as [|l ls IH]; [done|]. simpl.
    rewrite He by left. apply IH. intros x Hx. apply He. by right.
  - etrans; [|exact Hle]. by apply holders_map.
  - etrans; [|exact Hle]. by apply holders_map.
Qed.

Lemma lease_step_keeps l ls o : ls_status l = LeaseActive -> l ∈ ls -> ends l o = false -> l ∈ lease_step ls o.
Proof.
  intros Hact Hl He. destruct o as [id rn k run step deadline t|k run|t]; simpl in *.
  - unfold lease. destruct (existsb _ ls); [done|by right].
  - apply list_elem_of_fmap. exists l. split; [|done]. unfold holds_job. by rewrite He.
  - apply list_elem_of_fmap. exists l. split; [|done]. unfold overdue. by rewrite He, andb_false_r.
Qed.

Lemma lease_run_keeps l ops ls : ls_status l = LeaseActive -> l ∈ ls -> Forall (fun o => ends l o = false) ops ->
  l ∈ foldl lease_step ls ops.
Proof.
  intros Hact Hl Hops. revert ls Hl. induction Hops as [|o ops He _ IH]; intros ls Hl; [done|].
  simpl. apply IH. by apply lease_step_keeps.
Qed.

(** * Claims *)

(** The runner a job gets is enabled, not cordoned, connected, carries the
    labels, the features and the version the job asks for, and has fewer active leases than its
    concurrency; it is the workspace's own, or a shared one that the workspace's plan includes and
    offers; and no other such runner is preferred to it (own before shared, then the lower load, then
    the lower id). No runner is found exactly when none fits. *)
Lemma select_runner_best (semver_valid : string -> bool) (semver_compare : string -> string -> Z)
    (e : runner_env) (j : job) (leases : list runner_lease) :
  re_leases e = Some leases -> NoDup (rn_id <$> re_runners e) ->
  let fit r := r ∈ re_runners e /\ lent e (jb_workspace j) r /\
    eligible semver_valid semver_compare r j (connected e (rn_id r)) = true /\
    Z.of_nat (length (active_of leases (rn_id r))) < rn_concurrency r in
  let load r := Z.of_nat (length (active_of leases (rn_id r))) in
  match select_runner semver_valid semver_compare e j with
  | Ok r => fit r /\ forall r', fit r' -> r' = r \/ outranks r (load r) (Some (r', load r')) = true
  | Err ErrNoRunner => forall r, ~ fit r
  | Err ErrRunnerDB => re_list_fails e = true \/ re_count_fails e = true
  end.
Proof.
  intros Hl Hnd fit load. unfold select_runner. destruct (schedulable e (jb_workspace j)) as [l|er] eqn:Hs.
  2: { unfold schedulable, list_schedulable in Hs. destruct (re_list_fails e); [simplify_eq; by left|].
       destruct (negb _); [done|]. by destruct (effective_platform_runners _ _ _). }
  simpl. unfold active_counts. rewrite Hl. destruct (re_count_fails e); [by right|]. simpl.
  set (loads := active_counts_by_runner leases). pose proof (schedulable_spec e _ l Hs) as Hin.
  assert (Hload : forall r, load_of loads r = load r) by (intros r; apply active_count).
  assert (Hfit : forall r, fit r <-> r ∈ l /\ fits semver_valid semver_compare j loads (connected e) r = true).
  { intros r. unfold fits. rewrite Hload, andb_true_iff, Z.ltb_lt, Hin. unfold fit, load. tauto. }
  pose proof (pick_fold semver_valid semver_compare j loads (connected e) l) as Hp. unfold pick.
  destruct (foldl _ None l) as [[b lb]|]; simpl.
  - destruct Hp as (Hb & Hfb & -> & Hbest). split; [by apply Hfit|]. intros r' Hr'.
    pose proof (proj1 (Hfit r') Hr') as [Hr'l Hr'f]. pose proof (Hbest r' Hr'l Hr'f) as Hno. rewrite !Hload in Hno.
    destruct (outranks b (load b) (Some (r', load r'))) eqn:Ho; [by right|left].
    apply (NoDup_fmap_elem rn_id (re_runners e)); [done|apply Hr'|by apply Hin|]. by apply (outranks_total _ _ _ _ Hno Ho).
  - intros r Hr. apply Hfit in Hr as [Hr Hf]. by rewrite Hp in Hf.
Qed.

(** When the queries answer and the runners of the platform are
    shared ones, the reason given to a waiting job is empty exactly when a runner would be selected,
    and says that all runners are busy exactly when some runner could take the job but for its
    concurrency, and none is free. *)
Lemma availability_reason_complete (semver_valid : string -> bool) (semver_compare : string -> string -> Z)
    (e : runner_env) (j : job) :
  (forall r, r ∈ re_runners e -> rn_workspace r = None -> rn_scope r = scope_shared) ->
  re_list_fails e = false -> re_count_fails e = false ->
  let reason := availability_reason semver_valid semver_compare e j in
  let selected := select_runner semver_valid semver_compare e j in
  (reason = Available <-> is_ok selected = true) /\
  (reason = AllBusy <-> is_ok selected = false /\
     exists r, r ∈ re_runners e /\ lent e (jb_workspace j) r /\
       eligible semver_valid semver_compare r j (connected e (rn_id r)) = true).
Proof.
  intros Hwf Hlf Hcf reason selected.
  destruct (schedulable e (jb_workspace j)) as [l|er] eqn:Hs.
  2: { unfold schedulable, list_schedulable in Hs. rewrite Hlf in Hs.
       destruct (negb _); [done|]. by destruct (effective_platform_runners _ _ _). }
  pose proof (schedulable_spec e _ l Hs) as Hin.
  assert (Hcounts : exists loads, active_counts e = Ok loads).
  { unfold active_counts. rewrite Hcf. destruct (re_leases e); eauto. }
  destruct Hcounts as [loads Hloads].
  assert (Hsel : is_ok selected = true <-> exists r, r ∈ l /\ fits semver_valid semver_compare j loads (connected e) r = true).
  { unfold selected, select_runner. rewrite Hs. simpl. rewrite Hloads. simpl. unfold pick.
    pose proof (pick_fold semver_valid semver_compare j loads (connected e) l) as Hp.
    destruct (foldl _ None l) as [[b lb]|]; simpl.
    - split; [intros _; exists b; tauto|done].
    - split; [done|]. intros (r & Hr & Hf). by rewrite Hp in Hf. }
  assert (Hscope : forall r, r ∈ l -> in_scope r (jb_workspace j) = true).
  { intros r Hr. apply Hin in Hr as [Hr Hlent]. unfold in_scope. unfold lent in Hlent.
    destruct (rn_workspace r) eqn:Hw; [by apply N.eqb_eq|]. apply String.eqb_eq. by apply Hwf. }
  assert (Helig : (exists r, r ∈ re_runners e /\ lent e (jb_workspace j) r /\
       eligible semver_valid semver_compare r j (connected e (rn_id r)) = true) <->
     exists r, r ∈ l /\ eligible semver_valid semver_compare r j (connected e (rn_id r)) = true).
  { split; intros (r & Hr); exists r; [rewrite Hin; tauto|]. destruct Hr as [Hr He]. apply Hin in Hr. tauto. }
  rewrite Helig, <- not_true_iff_false, Hsel. clear Helig Hsel selected.
  pose proof (tally_fold semver_valid semver_compare e j loads l Hscope) as Ht.
  unfold reason, availability_reason. rewrite Hs. destruct l as [|x l'].
  - unfold list_schedulable. rewrite Hlf.
    assert (Hno : forall p : runner -> Prop, ~ exists r, r ∈ @nil runner /\ p r) by (intros p (r & Hr & _); by inversion Hr).
    destruct (List.filter _ _); [|destruct (negb _)]; split; split; try done; try (intros Hx; by apply Hno in Hx);
      intros [_ Hx]; by apply Hno in Hx.
  - rewrite Hloads. set (c := foldl _ _ (x :: l')) in *. destruct Ht as (H1 & H2 & H3 & Hcap & Hver).
    rewrite <- Hcap, <- Hver.
    destruct (Z.eqb_spec (ct_enabled c) 0); [split; split; (done || lia)|].
    destruct (Z.eqb_spec (ct_connected c) 0); [split; split; (done || lia)|].
    destruct (Z.eqb_spec (ct_label c) 0); [split; split; (done || lia)|].
    destruct (Z.eqb_spec (ct_feature c) 0); [split; split; (done || lia)|].
    destruct (Z.eqb_spec (ct_version c) 0); [split; split; (done || lia)|].
    destruct (Z.eqb_spec (ct_capacity c) 0); split; split; (done || lia).
Qed.

(** Whatever is leased, released and swept, in any order, a job has at most
    one active lease; and a lease in force is neither lost nor doubled before its job is released or
    a sweep runs past its deadline: until then every other claim of the job is refused. *)
Lemma leases_at_most_once (ops1 ops2 : list lease_op) (l : runner_lease) :
  let before := foldl lease_step [] ops1 in
  let after := foldl lease_step before ops2 in
  (forall k run, (length (holders k run before) <= 1)%nat) /\
  (l ∈ before -> ls_status l = LeaseActive -> Forall (fun o => ends l o = false) ops2 ->
     l ∈ after /\ forall id rn step deadline now, is_ok (lease after id rn (ls_kind l) (ls_run l) step deadline now) = false).
Proof.
  intros before after. split.
  - intros k run. unfold before. apply (foldl_inv (fun ls => (length (holders k run ls) <= 1)%nat)); [simpl; lia|].
    intros ls o _. apply lease_step_holders.
  - intros Hl Hact Hops. assert (Ha : l ∈ after).
    { by apply lease_run_keeps. }
    split; [done|]. intros id rn step deadline t. unfold lease.
    assert (existsb (holds_job (ls_kind l) (ls_run l)) after = true) as ->; [|done].
    apply existsb_elem. exists l. split; [done|]. unfold holds_job.
    rewrite !bool_decide_eq_true_2 by done. by rewrite N.eqb_refl.
Qed.

(** ** Witnesses *)

Definition demo_runner (id : N) (ws : option N) (scope : string) : runner :=
  Runner id (if (id =? 1)%N then "shared-1" else "r") ws scope ["linux"] 1 "dev" ["buildkit"] false true.
Definition demo_env (leases : list runner_lease) : runner_env :=
  RunnerEnv (Some demo_service) demo_db [demo_runner 3 (Some 8%N) "workspace"; demo_runner 2 (Some 7%N) "workspace"; demo_runner 1 None "shared"]
    (Some leases) (Some (fun _ => true)) false false.
Definition demo_job : job := Job 7 ["linux"] [] "".
Definition demo_lease : runner_lease := RunnerLease 1 2 LeaseKindBuild 5 None LeaseActive 0 100.
