(* ===== verification/Placement.v ===== *)
(** * Where a new resource lands

    [internal/services/placement]: choosing a location (a cluster) and a node for a new resource, the
    locations a workspace sees, and which private links can work ([reach.go]); with the queries of
    [cluster_repo.go] and [server_repo.go], and the three questions it asks the organization service
    ([internal/services/organization/organization.go]). The plan's placement is the [Quota] file's.
    A query that fails is an argument of the environment; the clusters and servers are tables in the
    order their [List] gives them. *)
From S2P Require Import Prelude GoStrings Quota.
#[local] Open Scope Z_scope.
#[local] Open Scope list_scope.

(** ** Rows *)

Definition mode_standalone : string := "standalone".
Definition mode_swarm : string := "swarm".
Definition visibility_restricted : string := "restricted".
Definition default_cluster_id : N := 0.
Definition pool_label : string := "miabi.pool".

(** [models.Cluster], what placement reads of it *)
Record cluster := Cluster {
  cl_id : N; cl_name : string; cl_display : string; cl_code : string; cl_mode : string; cl_default : bool;
  cl_manager : N; cl_visibility : string; cl_org : option N; cl_cordoned : bool }.
#[export] Instance cluster_eq_dec : EqDecision cluster.
Proof. solve_decision. Defined.

(** [Cluster.Label] *)
Definition cluster_label (c : cluster) : string :=
  let l := trim_space (cl_display c) in if String.eqb l "" then cl_name c else l.

(** [models.Server], what placement reads of it; [Server.Label] and [models.PoolOf] *)
Record server := Server {
  sr_id : N; sr_name : string; sr_display : string; sr_cluster : N; sr_local : bool; sr_cordoned : bool;
  sr_swarm_node : string; sr_labels : gmap string string }.
Definition server_label (s : server) : string :=
  let l := trim_space (sr_display s) in if String.eqb l "" then sr_name s else l.
Definition pool_of (s : server) : string := default "" (sr_labels s !! pool_label).

(** The placed workloads: an application with its memory limit, and the databases and volumes *)
Record placed_app := PlacedApp { pa_cluster : N; pa_server : N; pa_service : bool; pa_memory : Z }.

(** [models.Workspace] and [models.Organization] as the organization service reads them *)
Record org_workspace := OrgWorkspace { ow_system : bool; ow_org : option N }.
Record organization := Organization { og_id : N; og_name : string; og_display : string; og_default : bool }.

Inductive place_query :=
| PQClusterByName | PQClusterByID | PQDefaultCluster | PQClusters | PQWorkspaceDefault | PQSetDefault
| PQServers | PQServerByID | PQLocalServer | PQLoads | PQWorkspace | PQOwned | PQOrg | PQDefaultOrg.

(** The environment of the service: [en_policy] and [en_orgs] are whether [SetPolicy] and [SetOrgs] were
    called, [en_online] the agent registry if there is one, [en_plan] the answer of the plan policy. *)
Record place_env := PlaceEnv {
  en_clusters : list cluster; en_servers : list server; en_defaults : gmap N N;
  en_apps : list placed_app; en_others : list (N * N);
  en_workspaces : gmap N org_workspace; en_organizations : list organization;
  en_online : option (N -> bool); en_plan : option (N -> option plan_placement); en_orgs : bool;
  en_fails : place_query -> bool }.

Inductive place_err :=
| ErrLocationNotFound | ErrLocationNotAllowed | ErrLocationCordoned | ErrNoLocation | ErrNoLocationOf (who : string)
| ErrNoSchedulableNode | ErrPoolUnavailable (pool : string) | ErrNodePinAdminOnly | ErrLocationMismatch
| ErrNodeNotFound | ErrLocationPinned | ErrPlaceDB.
#[export] Instance place_err_eq_dec : EqDecision place_err.
Proof. solve_decision. Defined.

(** ** Access *)

Record access := Access { ac_admin : bool; ac_org : N; ac_confined : bool }.

(** [access.hidden], [access.allows] *)
Definition hidden (a : access) (c : cluster) : bool :=
  if ac_admin a then false
  else match cl_org c with
       | Some o => (ac_org a =? 0)%N || negb (o =? ac_org a)%N
       | None => String.eqb (cl_visibility c) visibility_restricted
       end.
Definition allows (a : access) (c : cluster) : bool :=
  match cl_org c with
  | Some o => negb (ac_org a =? 0)%N && (o =? ac_org a)%N
  | None =>
      if ac_confined a then false
      else if ac_admin a then true
      else negb (String.eqb (cl_visibility c) visibility_restricted)
  end.

(** [permits] *)
Definition permits (p : option plan_placement) (cluster_id : N) (confined : bool) : bool :=
  confined ||
  match p with
  | None => true
  | Some p => match pp_locations p with [] => true | l => existsb (N.eqb cluster_id) l end
  end.

Record request := Request {
  rq_workspace : N; rq_location : string; rq_server : N; rq_colocate : N; rq_admin : bool; rq_service : bool }.
Record placement := PlacementResult { pl_cluster : N; pl_server : N }.
#[export] Instance placement_eq_dec : EqDecision placement.
Proof. solve_decision. Defined.

Section Place.
Context (e : place_env).

(** ** Queries *)

Definition ask {A} (q : place_query) (a : option A) : option A := if en_fails e q then None else a.

(** [FindByName], [FindDefault], [FindByID], [List], [WorkspaceDefault] of the clusters *)
Definition cluster_by_name (name : string) : option cluster :=
  ask PQClusterByName (find_first (fun c => String.eqb (cl_name c) name) (en_clusters e)).
Definition find_default_cluster : option cluster := ask PQDefaultCluster (find_first cl_default (en_clusters e)).
Definition cluster_by_id (id : N) : option cluster :=
  if (id =? default_cluster_id)%N then find_default_cluster
  else ask PQClusterByID (find_first (fun c => (cl_id c =? id)%N) (en_clusters e)).
Definition list_clusters : option (list cluster) := ask PQClusters (Some (en_clusters e)).
Definition workspace_default (ws : N) : option cluster :=
  ask PQWorkspaceDefault (id ← en_defaults e !! ws; find_first (fun c => (cl_id c =? id)%N) (en_clusters e)).

(** [List], [FindByID], [FindLocal] of the servers *)
Definition list_servers : option (list server) := ask PQServers (Some (en_servers e)).
Definition server_by_id (id : N) : option server :=
  ask PQServerByID (find_first (fun s => (sr_id s =? id)%N) (en_servers e)).
Definition local_server : option server := ask PQLocalServer (find_first sr_local (en_servers e)).

(** [ServerLoads]: container memory, then the number of workloads; and [ServerLoad.Less] *)
Definition container_apps (cid sid : N) : list placed_app :=
  List.filter (fun a => (pa_cluster a =? cid)%N && negb (pa_service a) && (pa_server a =? sid)%N) (en_apps e).
Definition server_load (cid sid : N) : Z * Z :=
  (sum_z (pa_memory <$> container_apps cid sid),
   Z.of_nat (length (container_apps cid sid) +
             length (List.filter (fun o => (o.1 =? cid)%N && (o.2 =? sid)%N) (en_others e)))).
Definition load_less (a b : Z * Z) : bool := if negb (a.1 =? b.1) then a.1 <? b.1 else a.2 <? b.2.

(** ** The organization of a workspace *)

Definition default_org : N :=
  match ask PQDefaultOrg (find_first og_default (en_organizations e)) with Some o => og_id o | None => 0 end.
Definition resolve_org (id : option N) : N :=
  match id with Some i => if (i =? 0)%N then default_org else i | None => default_org end.
Definition organization_of_workspace (ws : N) : N :=
  match ask PQWorkspace (en_workspaces e !! ws) with
  | None => 0
  | Some w => if ow_system w then 0 else resolve_org (ow_org w)
  end.
Definition owns_clusters (org : N) : bool :=
  if (org =? 0)%N then false
  else match ask PQOwned (Some (List.filter (fun c => bool_decide (cl_org c = Some org)) (en_clusters e))) with
       | Some l => (0 <? length l)%nat
       | None => false
       end.
Definition organization_label (org : N) : string :=
  match ask PQOrg (find_first (fun o => (og_id o =? org)%N) (en_organizations e)) with
  | None => ""
  | Some o => if String.eqb (og_display o) "" then og_name o else og_display o
  end.

(** [accessFor] *)
Definition access_for (ws : N) (admin : bool) : access :=
  if negb (en_orgs e) then Access admin 0 false
  else
    let org := organization_of_workspace ws in
    if (org =? 0)%N then Access admin 0 false else Access admin org (owns_clusters org).

(** [planPlacement]: [None] when no policy is enforced *)
Definition plan_of (ws : N) : option plan_placement := match en_plan e with None => None | Some f => f ws end.
Definition pool_wanted (p : option plan_placement) : string := match p with Some p => pp_pool p | None => "" end.
Definition is_enforced (p : option plan_placement) : bool := match p with Some _ => true | None => false end.

(** [resolveID] *)
Definition resolve_id (id : N) : N :=
  if negb (id =? default_cluster_id)%N then id
  else match find_default_cluster with Some c => cl_id c | None => id end.

(** ** Locations *)

(** [resolveCluster]'s [usable] *)
Definition usable (ws : N) (admin : bool) (c : cluster) : bool :=
  let a := access_for ws admin in
  allows a c && negb (cl_cordoned c) && permits (plan_of ws) (cl_id c) (ac_confined a).

(** The plan's locations, in turn *)
Fixpoint first_plan_location (ok : cluster -> bool) (ids : list N) : option cluster :=
  match ids with
  | [] => None
  | id :: ids' =>
      match cluster_by_id id with
      | Some c => if ok c then Some c else first_plan_location ok ids'
      | None => first_plan_location ok ids'
      end
  end.

(** [resolveCluster] *)
Definition resolve_cluster (ws : N) (location : string) (admin : bool) : result place_err cluster :=
  let policy := plan_of ws in
  let a := access_for ws admin in
  let name := trim_space location in
  if negb (String.eqb name "") then
    match cluster_by_name name with
    | None => Err ErrLocationNotFound
    | Some c =>
        if hidden a c then Err ErrLocationNotFound
        else if negb (allows a c) || negb (permits policy (cl_id c) (ac_confined a)) then Err ErrLocationNotAllowed
        else if cl_cordoned c then Err ErrLocationCordoned
        else Ok c
    end
  else
    let fallback :=
      match list_clusters with
      | None => Err ErrPlaceDB
      | Some l =>
          match find_first (usable ws admin) l with
          | Some c => Ok c
          | None =>
              if ac_confined a then
                let label := if en_orgs e then organization_label (ac_org a) else "" in
                Err (ErrNoLocationOf (if String.eqb label "" then "this workspace's organization" else label))
              else Err ErrNoLocation
          end
      end in
    let planned :=
      match policy with
      | Some p => match first_plan_location (usable ws admin) (pp_locations p) with Some c => Ok c | None => fallback end
      | None => fallback
      end in
    match workspace_default ws with
    | Some d => if usable ws admin d then Ok d else planned
    | None => planned
    end.

(** ** Nodes *)

(** [cordoned]: a node that cannot be read is not. *)
Definition node_cordoned (id : N) : bool := match server_by_id id with Some s => sr_cordoned s | None => false end.

(** The pool test of [pickNode] for what Swarm or a single node hosts *)
Definition pool_ready (c : cluster) (pool : string) (l : list server) : bool :=
  existsb (fun s => (sr_cluster s =? cl_id c)%N && negb (sr_cordoned s) && String.eqb (pool_of s) pool) l.

(** A node [pickNode]'s loop considers, a turn of the loop, and the loop *)
Definition candidate (c : cluster) (pool : string) (pooled : bool) (s : server) : bool :=
  negb (negb (sr_cluster s =? cl_id c)%N || sr_cordoned s ||
        (negb (sr_local s) && negb match en_online e with Some f => f (sr_id s) | None => false end)) &&
  negb (pooled && negb (String.eqb (pool_of s) pool)).
Definition node_step (c : cluster) (pool : string) (pooled : bool) (best : N * (Z * Z)) (s : server) : N * (Z * Z) :=
  if negb (candidate c pool pooled s) then best
  else
    let load := server_load (cl_id c) (sr_id s) in
    if (best.1 =? 0)%N || load_less load best.2 then (sr_id s, load) else best.
Definition least_loaded (c : cluster) (pool : string) (pooled : bool) (l : list server) : N :=
  (foldl (node_step c pool pooled) (0%N, (0, 0)) l).1.

(** [pickNode] *)
Definition pick_node (c : cluster) (service : bool) (pool : string) (pooled : bool) : result place_err N :=
  let swarm := String.eqb (cl_mode c) mode_swarm in
  let fixed :=
    if cl_default c then
      match local_server with
      | None => Err ErrNoSchedulableNode
      | Some s => if negb swarm && sr_cordoned s then Err ErrNoSchedulableNode else Ok (sr_id s)
      end
    else if negb swarm && node_cordoned (cl_manager c) then Err ErrNoSchedulableNode
    else Ok (cl_manager c) in
  if negb swarm || service then
    if pooled then
      match list_servers with
      | None => Err ErrPlaceDB
      | Some l => if pool_ready c pool l then fixed else Err (ErrPoolUnavailable pool)
      end
    else fixed
  else
    match list_servers with
    | None => Err ErrPlaceDB
    | Some l =>
        if en_fails e PQLoads then Err ErrPlaceDB
        else
          let best := least_loaded c pool pooled l in
          if (best =? 0)%N && pooled then Err (ErrPoolUnavailable pool)
          else if (best =? 0)%N then Err ErrNoSchedulableNode
          else Ok best
    end.

(** ** Placing *)

(** [sameOrg]: [None] is nil. *)
Definition same_org (rq : request) (cluster_id : N) : option place_err :=
  match cluster_by_id (resolve_id cluster_id) with
  | None => None
  | Some c =>
      let a := access_for (rq_workspace rq) (rq_admin rq) in
      match cl_org c with
      | None => if ac_confined a then Some ErrLocationNotAllowed else None
      | Some o => if negb (ac_org a =? o)%N then Some ErrLocationNotAllowed else None
      end
  end.

(** [onNode] *)
Definition on_node (server_id : N) (location : string) (pin : bool) : result place_err placement :=
  match server_by_id server_id with
  | None => Err ErrNodeNotFound
  | Some s =>
      if pin && sr_cordoned s then Err ErrNoSchedulableNode
      else
        let here := resolve_id (sr_cluster s) in
        let name := trim_space location in
        if negb (String.eqb name "") then
          match cluster_by_name name with
          | None => Err ErrLocationNotFound
          | Some c => if negb (cl_id c =? here)%N then Err ErrLocationMismatch else Ok (PlacementResult here server_id)
          end
        else Ok (PlacementResult here server_id)
  end.

(** The pinned and the colocated branch of [Place] *)
Definition place_on (rq : request) (server_id : N) (pin : bool) : result place_err placement :=
  let? res := on_node server_id (rq_location rq) pin in
  match same_org rq (pl_cluster res) with Some er => Err er | None => Ok res end.

(** [Place] *)
Definition place (rq : request) : result place_err placement :=
  if negb (rq_server rq =? 0)%N && negb (rq_admin rq) then Err ErrNodePinAdminOnly
  else if (negb (rq_server rq =? 0)%N || negb (rq_colocate rq =? 0)%N) && negb (String.eqb (trim_space (rq_location rq)) "") &&
          match cluster_by_name (trim_space (rq_location rq)) with
          | Some c => hidden (access_for (rq_workspace rq) (rq_admin rq)) c
          | None => false
          end
  then Err ErrLocationNotFound
  else if negb (rq_server rq =? 0)%N then place_on rq (rq_server rq) true
  else if negb (rq_colocate rq =? 0)%N then place_on rq (rq_colocate rq) false
  else
    let? c := resolve_cluster (rq_workspace rq) (rq_location rq) (rq_admin rq) in
    let p := plan_of (rq_workspace rq) in
    let? server := pick_node c (rq_service rq) (pool_wanted p) (is_enforced p) in
    Ok (PlacementResult (cl_id c) server).

(** ** What a workspace sees *)

Record location := Location {
  lo_id : N; lo_name : string; lo_display : string; lo_code : string; lo_default : bool; lo_swarm : bool }.

(** [Locations] *)
Definition locations (ws : N) (admin : bool) : result place_err (list location) :=
  let? l := of_option ErrPlaceDB list_clusters in
  let fallback := resolve_cluster ws "" admin in
  Ok ((fun c => Location (cl_id c) (cl_name c) (cluster_label c) (cl_code c)
                  match fallback with Ok f => (cl_id f =? cl_id c)%N | Err _ => false end
                  (String.eqb (cl_mode c) mode_swarm))
      <$> List.filter (usable ws admin) l).

(** [LocationsFor]: the locations, whether the organization has taken the choice, and its label *)
Definition locations_for (ws : N) (admin : bool) : result place_err (list location * bool * string) :=
  let? l := locations ws admin in
  let a := access_for ws admin in
  if ac_confined a then Ok (l, true, if en_orgs e then organization_label (ac_org a) else "") else Ok (l, false, "").

(** [Node] and [Nodes] *)
Record node := Node { nd_id : N; nd_name : string; nd_local : bool; nd_online : bool; nd_cordoned : bool; nd_swarm : string }.
Definition nodes (ws : N) (loc : string) (admin : bool) : result place_err (list node) :=
  let? c := resolve_cluster ws loc admin in
  let? l := of_option ErrPlaceDB list_servers in
  let p := plan_of ws in
  Ok ((fun s => Node (sr_id s) (server_label s) (sr_local s)
                  (sr_local s || match en_online e with Some f => f (sr_id s) | None => false end) (sr_cordoned s) (sr_swarm_node s))
      <$> List.filter (fun s => (resolve_id (sr_cluster s) =? cl_id c)%N &&
                         negb (is_enforced p && negb (String.eqb (pool_of s) (pool_wanted p)))) l).

(** [NodeConstraint] *)
Definition node_constraint (server_id : N) : string :=
  match (if (server_id =? 0)%N then local_server else server_by_id server_id) with
  | None => ""
  | Some s => if String.eqb (sr_swarm_node s) "" then "" else "node.id==" +:+ sr_swarm_node s
  end.

(** [PoolConstraints] *)
Definition pool_constraints (ws cluster_id : N) : list string :=
  match plan_of ws with
  | None => []
  | Some p =>
      if negb (String.eqb (pp_pool p) "") then ["node.labels." +:+ pool_label +:+ "==" +:+ pp_pool p]
      else match list_servers with
           | None => []
           | Some l =>
               let cid := resolve_id cluster_id in
               let pools := foldl (fun seen s =>
                   if negb (String.eqb (pool_of s) "") && (sr_cluster s =? cid)%N && negb (existsb (String.eqb (pool_of s)) seen)
                   then seen ++ [pool_of s] else seen) [] l in
               sort_strings ((fun p => "node.labels." +:+ pool_label +:+ "!=" +:+ p) <$> pools)
           end
  end.

(** [SetDefaultLocation]: the workspace's default after it *)
Definition set_default_location (ws : N) (loc : string) (admin : bool) : result place_err (gmap N N) :=
  let a := access_for ws admin in
  let store id := if en_fails e PQSetDefault then Err ErrPlaceDB
                  else Ok (match en_workspaces e !! ws, id with
                           | None, _ => en_defaults e
                           | Some _, Some id => <[ws := id]> (en_defaults e)
                           | Some _, None => delete ws (en_defaults e)
                           end) in
  if ac_confined a then Err ErrLocationPinned
  else
    let name := trim_space loc in
    if String.eqb name "" then store None
    else match cluster_by_name name with
         | None => Err ErrLocationNotFound
         | Some c =>
             if hidden a c then Err ErrLocationNotFound
             else if negb (allows a c) || negb (permits (plan_of ws) (cl_id c) (ac_confined a)) then Err ErrLocationNotAllowed
             else store (Some (cl_id c))
         end.

(** ** Private links *)

Record site := Site { st_kind : string; st_name : string; st_cluster : N; st_server : N }.
Inductive reach_err := ErrCrossLocation | ErrCrossNode.

(** [Reach], and the service's [Reach] *)
Definition reach (a b : site) (swarm : option (N -> bool)) : option reach_err :=
  if negb (st_cluster a =? st_cluster b)%N then Some ErrCrossLocation
  else if negb (st_server a =? st_server b)%N && negb match swarm with Some f => f (st_cluster a) | None => false end
  then Some ErrCrossNode
  else None.
Definition with_cluster (a : site) (id : N) : site := Site (st_kind a) (st_name a) id (st_server a).
Definition service_reach (a b : site) (swarm : option (N -> bool)) : option reach_err :=
  reach (with_cluster a (resolve_id (st_cluster a))) (with_cluster b (resolve_id (st_cluster b))) swarm.
End Place.

(** * Facts *)

Lemma allows_not_hidden a c : allows a c = true -> hidden a c = false.
Proof.
  unfold allows, hidden. destruct (ac_admin a); [done|]. destruct (cl_org c) as [o|].
  - destruct (ac_org a =? 0)%N; [done|]. simpl. by destruct (o =? ac_org a)%N.
  - destruct (ac_confined a); [done|]. by destruct (String.eqb _ _).
Qed.

(** ** Searching a table *)

Lemma find_first_unique {A} (p : A -> bool) (l : list A) x :
  x ∈ l -> p x = true -> (forall y, y ∈ l -> p y = true -> y = x) -> find_first p l = Some x.
Proof.
  intros Hx Hp Hu. destruct (find_first p l) as [y|] eqn:Hf.
  - apply find_first_some in Hf as [Hy Hpy]. by rewrite (Hu y Hy Hpy).
  - pose proof (proj1 (find_first_none p l) Hf x Hx). congruence.
Qed.

(** A search that keeps what the filter keeps finds the same first element. *)
Lemma find_first_filter {A} (p q : A -> bool) (l : list A) :
  (forall x, x ∈ l -> p x = true -> q x = true) -> find_first p (List.filter q l) = find_first p l.
Proof.
  induction l as [|x l IH]; intros Hpq; [done|]. rewrite find_first_cons. simpl.
  destruct (q x) eqn:Hq.
  - rewrite find_first_cons. destruct (p x); [done|]. apply IH. intros y Hy. apply Hpq. by right.
  - destruct (p x) eqn:Hp; [|apply IH; intros y Hy; apply Hpq; by right].
    rewrite Hpq in Hq; [done|left|done].
Qed.

(** When at most one element satisfies [p], the filter only takes it away or leaves it. *)
Lemma find_first_filter_unique {A} (p q : A -> bool) (l : list A) :
  (forall x y, x ∈ l -> y ∈ l -> p x = true -> p y = true -> x = y) ->
  find_first p (List.filter q l) = match find_first p l with Some x => if q x then Some x else None | None => None end.
Proof.
  intros Hu. destruct (find_first p l) as [x|] eqn:Hf.
  - apply find_first_some in Hf as [Hx Hp]. destruct (q x) eqn:Hq.
    + apply find_first_unique; [|done|].
      * apply list_elem_of_In, List.filter_In. split; [by apply list_elem_of_In|done].
      * intros y Hy Hpy. apply list_elem_of_In, List.filter_In in Hy as [Hy _]. apply list_elem_of_In in Hy. by apply Hu.
    + apply find_first_none. intros y Hy. apply list_elem_of_In, List.filter_In in Hy as [Hy Hqy]. apply list_elem_of_In in Hy.
      destruct (p y) eqn:Hpy; [|done]. rewrite (Hu y x) in Hqy by done. congruence.
  - apply find_first_none. intros y Hy. apply list_elem_of_In, List.filter_In in Hy as [Hy _]. apply list_elem_of_In in Hy.
    by apply (proj1 (find_first_none p l) Hf).
Qed.

Section Facts.
Context (e : place_env).

Definition distinct_ids : Prop := NoDup (cl_id <$> en_clusters e).

Lemma id_unique c c' : distinct_ids -> c ∈ en_clusters e -> c' ∈ en_clusters e -> cl_id c = cl_id c' -> c = c'.
Proof. intros Hd Hc Hc'. by apply (NoDup_fmap_elem cl_id (en_clusters e)). Qed.

Lemma by_id_elem id c : cluster_by_id e id = Some c -> c ∈ en_clusters e.
Proof.
  unfold cluster_by_id, find_default_cluster, ask. intros H.
  destruct (id =? default_cluster_id)%N; [destruct (en_fails e PQDefaultCluster)|destruct (en_fails e PQClusterByID)]; try done;
    by apply find_first_some in H as [].
Qed.

Lemma by_id_found c : distinct_ids -> en_fails e PQClusterByID = false -> c ∈ en_clusters e -> cl_id c <> 0%N ->
  cluster_by_id e (cl_id c) = Some c.
Proof.
  intros Hd Hf Hc H0. unfold cluster_by_id, default_cluster_id, ask. rewrite (proj2 (N.eqb_neq _ _) H0), Hf.
  apply find_first_unique; [done|by apply N.eqb_refl|]. intros y Hy Hyid. apply N.eqb_eq in Hyid. by apply id_unique.
Qed.

Lemma resolve_id_nonzero id : id <> 0%N -> resolve_id e id = id.
Proof. intros H. unfold resolve_id, default_cluster_id. by rewrite (proj2 (N.eqb_neq _ _) H). Qed.

Lemma first_plan_some ok ids c : first_plan_location e ok ids = Some c -> c ∈ en_clusters e /\ ok c = true.
Proof.
  induction ids as [|id ids IH]; [done|]. simpl. destruct (cluster_by_id e id) as [d|] eqn:Hd; [|done].
  destruct (ok d) eqn:Hok; [|done]. intros [= <-]. split; [by apply (by_id_elem id)|done].
Qed.

Lemma ws_default_elem ws c : workspace_default e ws = Some c -> c ∈ en_clusters e.
Proof.
  unfold workspace_default, ask. destruct (en_fails e PQWorkspaceDefault); [done|].
  destruct (en_defaults e !! ws); [|done]. simpl. intros H. by apply find_first_some in H as [].
Qed.

(** A location that resolves is one the workspace may use, not hidden from the caller. *)
Lemma resolve_usable ws loc admin c :
  resolve_cluster e ws loc admin = Ok c -> c ∈ en_clusters e /\ usable e ws admin c = true.
Proof.
  unfold resolve_cluster. destruct (negb (String.eqb (trim_space loc) "")).
  - destruct (cluster_by_name e (trim_space loc)) as [d|] eqn:Hd; [|done].
    destruct (hidden _ d); [done|]. destruct (allows _ d) eqn:Ha; [|done]. destruct (permits _ _ _) eqn:Hp; [|done]. simpl.
    destruct (cl_cordoned d) eqn:Hc; [done|]. intros [= <-].
    unfold cluster_by_name, ask in Hd. destruct (en_fails e PQClusterByName); [done|]. apply find_first_some in Hd as [Hd _].
    split; [done|]. unfold usable. by rewrite Ha, Hc, Hp.
  - set (fallback := match list_clusters e with Some _ => _ | None => _ end).
    assert (Hfb : fallback = Ok c -> c ∈ en_clusters e /\ usable e ws admin c = true).
    { unfold fallback, list_clusters, ask. destruct (en_fails e PQClusters); [done|].
      destruct (find_first (usable e ws admin) (en_clusters e)) as [d|] eqn:Hd.
      - intros [= <-]. by apply find_first_some in Hd.
      - by destruct (ac_confined _). }
    clearbody fallback.
    set (planned := match plan_of e ws with Some _ => _ | None => _ end).
    assert (Hpl : planned = Ok c -> c ∈ en_clusters e /\ usable e ws admin c = true).
    { unfold planned. destruct (plan_of e ws) as [p|]; [|done].
      destruct (first_plan_location e _ _) as [d|] eqn:Hd; [|done]. intros [= <-]. by apply first_plan_some in Hd. }
    clearbody planned. destruct (workspace_default e ws) as [d|] eqn:Hd; [|done].
    destruct (usable e ws admin d) eqn:Hu; [|done]. intros [= <-]. split; [by apply (ws_default_elem ws)|done].
Qed.

(** The tests of a named location *)
Lemma resolve_named ws c admin : trim_space (cl_name c) = cl_name c -> cl_name c <> "" ->
  cluster_by_name e (cl_name c) = Some c ->
  resolve_cluster e ws (cl_name c) admin = Ok c <-> usable e ws admin c = true.
Proof.
  intros Ht Hn Hf. split; [by intros H; apply resolve_usable in H as []|]. intros Hu.
  unfold resolve_cluster. rewrite Ht, (proj2 (String.eqb_neq _ _) Hn). simpl. rewrite Hf.
  unfold usable in Hu. go_inv. rewrite (allows_not_hidden _ _ Hu), Hu. simpl. rewrite H. simpl.
  by rewrite H0.
Qed.

(** Some location is used whenever one is usable. *)
Lemma resolve_default_ok ws admin c : en_fails e PQClusters = false ->
  c ∈ en_clusters e -> usable e ws admin c = true -> exists d, resolve_cluster e ws "" admin = Ok d.
Proof.
  intros Hf Hc Hu. unfold resolve_cluster. simpl.
  destruct (workspace_default e ws) as [d|]; [destruct (usable e ws admin d); [eauto|]|];
    (destruct (plan_of e ws) as [p|]; [destruct (first_plan_location e _ (pp_locations p)); [eauto|]|]);
    unfold list_clusters, ask; rewrite Hf;
    (destruct (find_first (usable e ws admin) (en_clusters e)) eqn:Hff; [eauto|]);
    pose proof (proj1 (find_first_none _ _) Hff c Hc); congruence.
Qed.

(** ** Tenancy *)

Lemma place_on_spec rq id pin r c :
  distinct_ids -> en_fails e PQClusterByID = false -> c ∈ en_clusters e -> cl_id c <> 0%N -> cl_id c = pl_cluster r ->
  place_on e rq id pin = Ok r ->
  let a := access_for e (rq_workspace rq) (rq_admin rq) in
  (forall o, cl_org c = Some o -> ac_org a = o) /\ (ac_confined a = true -> cl_org c = Some (ac_org a)).
Proof.
  intros Hd Hf Hc H0 Hid Hp a. unfold place_on in Hp. apply rbind_ok_inv in Hp as (res & _ & Hp).
  destruct (same_org e rq (pl_cluster res)) eqn:Hs; [done|]. injection Hp as ->. unfold same_org in Hs.
  rewrite <- Hid, resolve_id_nonzero, by_id_found in Hs by done. fold a in Hs. destruct (cl_org c) as [o|].
  - destruct (N.eqb_spec (ac_org a) o) as [Ho|]; [|done]. split; [by intros ? [= <-]|by rewrite Ho].
  - destruct (ac_confined a); [done|]. by split.
Qed.

(** ** The least loaded node *)

Definition load_of_node (c : cluster) (s : server) : Z * Z := server_load e (cl_id c) (sr_id s).

(** [s] comes before [s'] in the order of the loop: no more loaded, and the lower id among equals. *)
Definition preferred (c : cluster) (s s' : server) : Prop :=
  load_less (load_of_node c s) (load_of_node c s') = true \/
  (load_of_node c s = load_of_node c s' /\ (sr_id s <= sr_id s')%N).

Lemma load_less_spec a b : load_less a b = true <-> a.1 < b.1 \/ (a.1 = b.1 /\ a.2 < b.2).
Proof. unfold load_less. destruct (Z.eqb_spec a.1 b.1); simpl; rewrite Z.ltb_lt; lia. Qed.

Lemma preferred_trans c s1 s2 s3 : preferred c s1 s2 -> preferred c s2 s3 -> preferred c s1 s3.
Proof.
  unfold preferred. rewrite !load_less_spec. intros [H1|[H1 I1]] [H2|[H2 I2]].
  - left. lia.
  - rewrite H2 in H1. by left.
  - rewrite H1. by left.
  - right. split; [congruence|lia].
Qed.

Lemma node_fold c pool pooled l :
  StronglySorted (fun s s' => (sr_id s < sr_id s')%N) l -> Forall (fun s => sr_id s <> 0%N) l ->
  let best := foldl (node_step e c pool pooled) (0%N, (0, 0)) l in
  (best = (0%N, (0, 0)) /\ forall s, s ∈ l -> candidate e c pool pooled s = false) \/
  (exists s, s ∈ l /\ candidate e c pool pooled s = true /\ best = (sr_id s, load_of_node c s) /\
     forall s', s' ∈ l -> candidate e c pool pooled s' = true -> preferred c s s').
Proof.
  induction l as [|x l IH] using rev_ind; intros Hs Hz best; [left; split; [done|by inversion 1]|].
  assert (Hle : forall s, s ∈ l -> (sr_id s < sr_id x)%N).
  { intros s Hin. clear -Hs Hin. induction l as [|y l IH]; [by inversion Hin|].
    simpl in Hs. inversion Hs as [|? ? Hs' Hall]; subst. apply elem_of_cons in Hin as [->|Hin]; [|by apply IH].
    rewrite Forall_forall in Hall. apply Hall. set_solver. }
  assert (Hsl : StronglySorted (fun s s' => (sr_id s < sr_id s')%N) l).
  { clear -Hs. induction l as [|y l IH]; [constructor|]. simpl in Hs. inversion Hs as [|? ? Hs' Hall]; subst.
    constructor; [by apply IH|]. rewrite Forall_app in Hall. apply Hall. }
  rewrite Forall_app in Hz. destruct Hz as [Hzl Hzx].
  specialize (IH Hsl Hzl). unfold best. rewrite foldl_snoc. unfold node_step at 1 3.
  destruct IH as [[-> Hno]|(s & Hin & Hc & -> & Hbest)]; destruct (candidate e c pool pooled x) eqn:Hx; simpl.
  - right. exists x. split; [set_solver|]. split; [done|]. split; [done|]. intros s' Hs' Hc'.
    apply elem_of_app in Hs' as [Hs'|Hs']; [by rewrite Hno in Hc'|]. apply list_elem_of_singleton in Hs' as ->.
    right. split; [done|lia].
  - left. split; [done|]. intros s' Hs'. apply elem_of_app in Hs' as [Hs'|Hs']; [by apply Hno|].
    by apply list_elem_of_singleton in Hs' as ->.
  - right. rewrite Forall_forall in Hzl. rewrite (proj2 (N.eqb_neq _ _) (Hzl s Hin)). simpl.
    fold (load_of_node c x). destruct (load_less (load_of_node c x) (load_of_node c s)) eqn:Hl.
    + exists x. split; [set_solver|]. split; [done|]. split; [done|]. intros s' Hs' Hc'.
      apply elem_of_app in Hs' as [Hs'|Hs']; [|apply list_elem_of_singleton in Hs' as ->; right; split; [done|lia]].
      apply (preferred_trans c x s s'); [by left|by apply Hbest].
    + exists s. split; [set_solver|]. split; [done|]. split; [done|]. intros s' Hs' Hc'.
      apply elem_of_app in Hs' as [Hs'|Hs']; [by apply Hbest|]. apply list_elem_of_singleton in Hs' as ->.
      pose proof (Hle s Hin) as Hlt. unfold preferred.
      assert (Hnl : ~ load_less (load_of_node c x) (load_of_node c s) = true) by congruence.
      rewrite load_less_spec in Hnl. rewrite load_less_spec.
      destruct (load_of_node c x) as [m n], (load_of_node c s) as [m' n']. simpl in *.
      destruct (decide (m' = m /\ n' = n)) as [[-> ->]|Hne]; [right; split; [done|lia]|left; lia].
  - right. exists s. split; [set_solver|]. split; [done|]. split; [done|]. intros s' Hs' Hc'.
    apply elem_of_app in Hs' as [Hs'|Hs']; [by apply Hbest|]. apply list_elem_of_singleton in Hs' as ->. congruence.
Qed.
End Facts.

(** ** What a stranger can observe *)

Section Visible.
Context (e : place_env) (ws : N).

Definition shown (c : cluster) : bool := negb (hidden (access_for e ws false) c).

(** The environment without the locations hidden from the members of the workspace *)
Definition visible : place_env :=
  PlaceEnv (List.filter shown (en_clusters e)) (en_servers e) (en_defaults e) (en_apps e) (en_others e)
    (en_workspaces e) (en_organizations e) (en_online e) (en_plan e) (en_orgs e) (en_fails e).

Hypothesis distinct_cluster_ids : NoDup (cl_id <$> en_clusters e).
Hypothesis distinct_names : NoDup (cl_name <$> en_clusters e).
Hypothesis one_default : forall c c', c ∈ en_clusters e -> c' ∈ en_clusters e ->
  cl_default c = true -> cl_default c' = true -> c = c'.

Lemma access_visible : access_for visible ws false = access_for e ws false.
Proof.
  unfold access_for. simpl. destruct (en_orgs e) eqn:Horgs; [|done]. simpl.
  change (organization_of_workspace visible ws) with (organization_of_workspace e ws).
  set (org := organization_of_workspace e ws). destruct (N.eqb_spec org 0) as [|H0]; [done|].
  assert (Hown : owns_clusters visible org = owns_clusters e org); [|by rewrite Hown].
  unfold owns_clusters, ask. simpl. destruct (org =? 0)%N; [done|]. destruct (en_fails e PQOwned); [done|].
  rewrite bfilter_bfilter. f_equal. f_equal. apply List.filter_ext. intros c.
  destruct (bool_decide (cl_org c = Some org)) eqn:Ho; [|by rewrite andb_false_r].
  apply bool_decide_eq_true in Ho. rewrite andb_true_r. unfold shown, hidden, access_for. rewrite Horgs. simpl. fold org.
  rewrite (proj2 (N.eqb_neq _ _) H0). simpl. rewrite Ho, (proj2 (N.eqb_neq _ _) H0), N.eqb_refl. done.
Qed.

Lemma usable_visible c : usable visible ws false c = usable e ws false c.
Proof. unfold usable. by rewrite access_visible. Qed.

Lemma usable_shown c : usable e ws false c = true -> shown c = true.
Proof. unfold usable, shown. intros H. go_inv. by rewrite allows_not_hidden. Qed.

Lemma keyed_unique {K} `{EqDecision K} (f : cluster -> K) k :
  NoDup (f <$> en_clusters e) ->
  forall x y, x ∈ en_clusters e -> y ∈ en_clusters e -> f x = k -> f y = k -> x = y.
Proof. intros Hd x y Hx Hy Hfx Hfy. apply (NoDup_fmap_elem f (en_clusters e)); [done..|congruence]. Qed.

Lemma by_id_visible id :
  cluster_by_id visible id = match cluster_by_id e id with Some c => if shown c then Some c else None | None => None end.
Proof.
  unfold cluster_by_id, find_default_cluster, ask. simpl. destruct (id =? default_cluster_id)%N.
  - destruct (en_fails e PQDefaultCluster); [done|]. by apply find_first_filter_unique.
  - destruct (en_fails e PQClusterByID); [done|]. apply find_first_filter_unique. intros x y Hx Hy Hpx Hpy.
    apply N.eqb_eq in Hpx, Hpy. by apply (keyed_unique cl_id id).
Qed.

Lemma by_name_visible name :
  cluster_by_name visible name = match cluster_by_name e name with Some c => if shown c then Some c else None | None => None end.
Proof.
  unfold cluster_by_name, ask. simpl. destruct (en_fails e PQClusterByName); [done|].
  apply find_first_filter_unique. intros x y Hx Hy Hpx Hpy. apply String.eqb_eq in Hpx, Hpy. by apply (keyed_unique cl_name name).
Qed.

Lemma ws_default_visible :
  workspace_default visible ws = match workspace_default e ws with Some c => if shown c then Some c else None | None => None end.
Proof.
  unfold workspace_default, ask. simpl. destruct (en_fails e PQWorkspaceDefault); [done|].
  destruct (en_defaults e !! ws) as [id|]; [|done]. simpl. apply find_first_filter_unique. intros x y Hx Hy Hpx Hpy.
  apply N.eqb_eq in Hpx, Hpy. by apply (keyed_unique cl_id id).
Qed.

Lemma first_plan_visible ids :
  first_plan_location visible (usable visible ws false) ids = first_plan_location e (usable e ws false) ids.
Proof.
  induction ids as [|id ids IH]; [done|]. simpl. rewrite by_id_visible. destruct (cluster_by_id e id) as [c|]; [|done].
  destruct (shown c) eqn:Hs; [by rewrite usable_visible, IH|]. rewrite IH.
  destruct (usable e ws false c) eqn:Hu; [|done]. apply usable_shown in Hu. congruence.
Qed.

Lemma find_usable_visible :
  find_first (usable visible ws false) (en_clusters visible) = find_first (usable e ws false) (en_clusters e).
Proof.
  transitivity (find_first (usable e ws false) (en_clusters visible)).
  - unfold find_first. f_equal. apply List.filter_ext. apply usable_visible.
  - apply find_first_filter. intros c _. apply usable_shown.
Qed.

Lemma resolve_visible loc : resolve_cluster visible ws loc false = resolve_cluster e ws loc false.
Proof.
  unfold resolve_cluster. rewrite access_visible, by_name_visible, ws_default_visible.
  change (plan_of visible ws) with (plan_of e ws). destruct (negb (String.eqb (trim_space loc) "")).
  - destruct (cluster_by_name e (trim_space loc)) as [c|]; [|done]. unfold shown.
    by destruct (hidden (access_for e ws false) c) eqn:Hh; simpl; rewrite ?Hh.
  - change (organization_label visible) with (organization_label e). change (en_orgs visible) with (en_orgs e).
    assert (Hl : forall l, list_clusters visible = Some l -> l = en_clusters visible /\ list_clusters e = Some (en_clusters e)).
    { unfold list_clusters, ask. simpl. destruct (en_fails e PQClusters); [done|]. by intros l [= <-]. }
    assert (Hn : list_clusters visible = None -> list_clusters e = None).
    { unfold list_clusters, ask. simpl. by destruct (en_fails e PQClusters). }
    assert (Hfb : forall A (f : option cluster -> A) (z : A),
      match list_clusters visible with Some l => f (find_first (usable visible ws false) l) | None => z end =
      match list_clusters e with Some l => f (find_first (usable e ws false) l) | None => z end).
    { intros A f z. destruct (list_clusters visible) as [l|]; [|by rewrite Hn].
      destruct (Hl l eq_refl) as [-> ->]. by rewrite find_usable_visible. }
    pose proof (Hfb (result place_err cluster) (fun o => match o with
      | Some c => Ok c
      | None => if ac_confined (access_for e ws false) then
          Err (ErrNoLocationOf (if String.eqb (if en_orgs e then organization_label e (ac_org (access_for e ws false)) else "") ""
            then "this workspace's organization" else if en_orgs e then organization_label e (ac_org (access_for e ws false)) else ""))
          else Err ErrNoLocation end) (Err ErrPlaceDB)) as Hfb'. cbn beta in Hfb'.
    rewrite Hfb'. clear Hfb Hfb'.
    destruct (workspace_default e ws) as [d|].
    + destruct (shown d) eqn:Hs.
      * rewrite usable_visible. destruct (usable e ws false d); [done|]. destruct (plan_of e ws) as [p|]; [|done].
        by rewrite first_plan_visible.
      * assert (usable e ws false d = false) as ->.
        { destruct (usable e ws false d) eqn:Hu; [|done]. apply usable_shown in Hu. congruence. }
        destruct (plan_of e ws) as [p|]; [|done]. by rewrite first_plan_visible.
    + destruct (plan_of e ws) as [p|]; [|done]. by rewrite first_plan_visible.
Qed.

Lemma pick_node_visible c service pool pooled : pick_node visible c service pool pooled = pick_node e c service pool pooled.
Proof. done. Qed.
End Visible.

(** * Claims *)


(** C18 [hidden_locations_unobservable]: Where the ids and the names of the clusters are unique and
    at most one is the default, then to a request that is neither an administrator's nor a
    colocation (colocate 0), the locations hidden from the workspace might as well not exist: naming
    one, or naming none, is answered exactly as it would be if the clusters hidden from the
    workspace were not there; and so are, for a member who is not an administrator, the list of
    locations and the choice of a default. *)
Theorem hidden_locations_unobservable (e : place_env) (rq : request) (loc : string) :
  NoDup (cl_id <$> en_clusters e) -> NoDup (cl_name <$> en_clusters e) ->
  (forall c c', c ∈ en_clusters e -> c' ∈ en_clusters e -> cl_default c = true -> cl_default c' = true -> c = c') ->
  rq_admin rq = false -> rq_colocate rq = 0%N ->
  let ws := rq_workspace rq in
  place (visible e ws) rq = place e rq /\
  locations (visible e ws) ws false = locations e ws false /\
  set_default_location (visible e ws) ws loc false = set_default_location e ws loc false.
Proof.
  intros Hid Hname Hdef Hadm Hco ws. split; [|split].
  - unfold place. rewrite Hadm, Hco. simpl. destruct (N.eqb_spec (rq_server rq) 0) as [Hs|Hs]; simpl; [|done].
    rewrite (resolve_visible e ws Hid Hname Hdef). done.
  - unfold locations. rewrite (resolve_visible e ws Hid Hname Hdef). unfold list_clusters, ask. simpl.
    destruct (en_fails e PQClusters); [done|]. simpl. f_equal. f_equal. rewrite bfilter_bfilter. apply List.filter_ext. intros c.
    rewrite usable_visible. destruct (usable e ws false c) eqn:Hu; [|by rewrite andb_false_r]. by rewrite (usable_shown e ws c Hu).
  - unfold set_default_location. rewrite access_visible, (by_name_visible e ws Hname). simpl.
    change (plan_of (visible e ws) ws) with (plan_of e ws).
    destruct (ac_confined (access_for e ws false)); [done|]. destruct (String.eqb (trim_space loc) ""); [done|].
    destruct (cluster_by_name e (trim_space loc)) as [c|]; [|done]. unfold shown.
    by destruct (hidden (access_for e ws false) c) eqn:Hh; simpl; rewrite ?Hh.
Qed.

(** In a swarm, a resource Swarm does not schedule goes to a node of the
    cluster that is not cordoned, is reachable, and is in the plan's pool when the plan binds; among
    those, to the one with the least container memory placed, then the fewest workloads, then the
    lowest id. It is refused exactly when there is no such node. *)
Lemma node_least_loaded (e : place_env) (c : cluster) (pool : string) (pooled : bool) :
  StronglySorted (fun s s' => (sr_id s < sr_id s')%N) (en_servers e) ->
  Forall (fun s => sr_id s <> 0%N) (en_servers e) ->
  cl_mode c = mode_swarm -> en_fails e PQServers = false -> en_fails e PQLoads = false ->
  match pick_node e c false pool pooled with
  | Ok n => exists s, s ∈ en_servers e /\ sr_id s = n /\ candidate e c pool pooled s = true /\
      forall s', s' ∈ en_servers e -> candidate e c pool pooled s' = true -> preferred e c s s'
  | Err er => (forall s, s ∈ en_servers e -> candidate e c pool pooled s = false) /\
      er = if pooled then ErrPoolUnavailable pool else ErrNoSchedulableNode
  end.
Proof.
  intros Hs Hz Hm Hf1 Hf2. unfold pick_node. rewrite Hm, String.eqb_refl. simpl.
  unfold list_servers, ask. rewrite Hf1, Hf2. unfold least_loaded.
  destruct (node_fold e c pool pooled (en_servers e) Hs Hz) as [[-> Hno]|(s & Hin & Hc & -> & Hbest)]; simpl.
  - by destruct pooled.
  - rewrite Forall_forall in Hz. rewrite (proj2 (N.eqb_neq _ _) (Hz s Hin)). simpl. eauto.
Qed.

(** The list a create form shows is exact: a location is listed
    when, and only when, naming it resolves to it; the one marked as the default is where a create
    that names none lands; and the list is empty exactly when such a create is refused. *)
Lemma locations_are_the_resolvable_ones (e : place_env) (ws : N) (admin : bool) :
  NoDup (cl_id <$> en_clusters e) -> NoDup (cl_name <$> en_clusters e) ->
  Forall (fun c => trim_space (cl_name c) = cl_name c /\ cl_name c <> "") (en_clusters e) ->
  en_fails e PQClusters = false -> en_fails e PQClusterByName = false ->
  exists ls, locations e ws admin = Ok ls /\
    (forall c, c ∈ en_clusters e ->
       (cl_id c ∈ (lo_id <$> ls) <-> resolve_cluster e ws (cl_name c) admin = Ok c)) /\
    (forall lo, lo ∈ ls -> (lo_default lo = true <-> exists c, resolve_cluster e ws "" admin = Ok c /\ cl_id c = lo_id lo)) /\
    (forall c, resolve_cluster e ws "" admin = Ok c -> cl_id c ∈ (lo_id <$> ls)) /\
    (ls = [] <-> is_ok (resolve_cluster e ws "" admin) = false).
Proof.
  intros Hid Hname Hn Hf1 Hf2. unfold locations, list_clusters, ask. rewrite Hf1. simpl. eexists. split; [done|].
  match goal with |- context [lo_id <$> ?l] => set (ls := l) end.
  assert (Hls : forall c, c ∈ en_clusters e -> (cl_id c ∈ (lo_id <$> ls) <-> usable e ws admin c = true)).
  { intros c Hc. unfold ls. rewrite <- list_fmap_compose, list_elem_of_fmap. split.
    - intros (d & Hd & Hin). simpl in Hd. apply list_elem_of_In, List.filter_In in Hin as [Hin Hu].
      apply list_elem_of_In in Hin. by rewrite (id_unique e c d Hid Hc Hin Hd).
    - intros Hu. exists c. split; [done|]. apply list_elem_of_In, List.filter_In. by rewrite <- list_elem_of_In. }
  split; [|split; [|split]].
  - intros c Hc. rewrite Hls by done. rewrite Forall_forall in Hn. destruct (Hn c Hc) as [Ht Hne]. symmetry.
    apply resolve_named; [done..|]. unfold cluster_by_name, ask. rewrite Hf2.
    apply find_first_unique; [done|apply String.eqb_refl|]. intros y Hy Hyn. apply String.eqb_eq in Hyn.
    by apply (NoDup_fmap_elem cl_name (en_clusters e)).
  - intros lo Hlo. unfold ls in Hlo. apply list_elem_of_fmap in Hlo as (c & -> & _). simpl.
    destruct (resolve_cluster e ws "" admin) as [d|er].
    + rewrite N.eqb_eq. split; [by exists d|by intros (? & [= <-] & ?)].
    + split; [done|by intros (? & ? & _)].
  - intros c Hc. pose proof (resolve_usable e ws "" admin c Hc) as [Hin Hu]. by apply Hls.
  - destruct (resolve_cluster e ws "" admin) as [d|er] eqn:Hr; simpl; split; try done.
    + intros Hnil. destruct (resolve_usable e ws "" admin d Hr) as [Hin Hu].
      pose proof (proj2 (Hls d Hin) Hu) as Hel. rewrite Hnil in Hel. by inversion Hel.
    + intros _. unfold ls. destruct (List.filter _ _) as [|c l] eqn:Hl; [done|]. exfalso.
      assert (Hc : c ∈ List.filter (usable e ws admin) (en_clusters e)) by (rewrite Hl; left).
      apply list_elem_of_In, List.filter_In in Hc as [Hc Hu]. apply list_elem_of_In in Hc.
      destruct (resolve_default_ok e ws admin c Hf1 Hc Hu) as [d Hd]. congruence.
Qed.

(** ** Witnesses *)

(** A default standalone cluster, a swarm dedicated to organization 2, a restricted cluster; the
    workspace 1 of organization 2, which owns the swarm, and the workspace 5 of the default one. *)
Definition demo_clusters : list cluster :=
  [Cluster 1 "default" "" "" mode_standalone true 0 "all" None false;
   Cluster 2 "acme" "Acme" "" mode_swarm false 10 "organization" (Some 2%N) false;
   Cluster 3 "lab" "" "" mode_standalone false 30 visibility_restricted None false].
Definition demo_servers : list server :=
  [Server 10 "m" "" 2 false false "s10" ∅; Server 11 "w1" "" 2 false false "s11" ∅;
   Server 12 "w2" "" 2 false false "s12" ∅; Server 20 "local" "" 1 true false "" ∅].
Definition demo_place : place_env :=
  PlaceEnv demo_clusters demo_servers ∅ [PlacedApp 2 10 false 512; PlacedApp 2 11 false 128] [(2%N, 12%N)]
    {[ 1%N := OrgWorkspace false (Some 2%N); 5%N := OrgWorkspace false None ]}
    [Organization 1 "default" "" true; Organization 2 "acme" "Acme" false] (Some (fun _ => true)) None true (fun _ => false).
Definition demo_request (ws : N) (loc : string) : request := Request ws loc 0 0 false false.

Lemma demo_ids : NoDup (cl_id <$> en_clusters demo_place).
Proof. apply (bool_decide_unpack _). vm_compute. exact I. Qed.
Lemma demo_names : NoDup (cl_name <$> en_clusters demo_place).
Proof. apply (bool_decide_unpack _). vm_compute. exact I. Qed.
Lemma demo_one_default c c' : c ∈ en_clusters demo_place -> c' ∈ en_clusters demo_place ->
  cl_default c = true -> cl_default c' = true -> c = c'.
Proof.
  intros Hc Hc' Hd Hd'. simpl in Hc, Hc'. unfold demo_clusters in *.
  repeat (apply elem_of_cons in Hc as [->|Hc]; [|]); try done; try (by inversion Hc);
    repeat (apply elem_of_cons in Hc' as [->|Hc']; [done|]); by inversion Hc'.
Qed.


Lemma hidden_locations_unobservable_witness :
  place demo_place (demo_request 5 "acme") = Err ErrLocationNotFound /\
  place (visible demo_place 5) (demo_request 5 "acme") = Err ErrLocationNotFound.
Proof.
  destruct (hidden_locations_unobservable demo_place (demo_request 5 "acme") "acme" demo_ids demo_names demo_one_default
    eq_refl eq_refl) as [Ht _].
  split; [by vm_compute|]. simpl rq_workspace in Ht. rewrite Ht. by vm_compute.
Defined.

Lemma demo_sorted : StronglySorted (fun s s' => (sr_id s < sr_id s')%N) (en_servers demo_place).
Proof. repeat constructor. Qed.

(** ** Findings *)

(** The control-plane node may carry cluster id 0, which the list of nodes and the pins resolve to the
    default cluster; the pool test of [pickNode] compares the raw id, so under a plan without a pool
    the default cluster is refused although its only node is in no pool. *)
Definition zero_place : place_env :=
  PlaceEnv [Cluster 1 "default" "" "" mode_standalone true 0 "all" None false] [Server 20 "local" "" 0 true false "" ∅]
    ∅ [] [] {[ 5%N := OrgWorkspace false None ]} [] None (Some (fun _ => Some no_placement)) true (fun _ => false).

Lemma control_plane_in_no_pool :
  place zero_place (demo_request 5 "") = Err (ErrPoolUnavailable "") /\
  nodes zero_place 5 "" false = Ok [Node 20 "local" true true false ""] /\
  place zero_place (Request 5 "" 20 0 true false) = Ok (PlacementResult 1 20).
Proof. split_and!; by vm_compute. Qed.
