(* ===== verification/Grants.v ===== *)
(** * What a container may do to its host

    [internal/models/capabilities.go] and [runas.go]: the capabilities, devices and users an application
    may name. [services/application/capabilities.go] with [validRunAsUser]: the gate when an application
    is written. [cmd/miabi/security.go] and [grants.go]: the two hooks a deploying process wires.
    [internal/worker/runtime.go] and the calls of [deploy.go] and [job.go]: the security of the container
    that is run, down to the fields [internal/docker/client.go] hands the engine. Who must drop root is
    the [Quota] file's question. The console's help texts are left out. *)
From S2P Require Import Prelude GoStrings Float64 Quota.
#[local] Open Scope Z_scope.
#[local] Open Scope list_scope.

(** ** Errors and tiers *)

Inductive grant_err :=
| ErrGrantsDisabled | ErrCapabilityUnknown (name : string) | ErrCapabilityElevated | ErrCapabilityRestricted
| ErrDeviceUnknown (path : string) | ErrDeviceBlockDevice (path : string) | ErrTooManyCapabilities
| ErrTooManyDevices | ErrDevicesOnService | ErrCapabilityNotLinux (name : string)
| ErrCapabilityConflict (name : string) | ErrHostMountNotPrivileged | ErrRunAsUserInvalid | ErrRunAsUserRoot
| ErrRunAsUserForbidden (user : string) | ErrWorkspaceLookup.

(** [TierElevated] is the greater one. *)
Inductive capability_tier := TierCommon | TierElevated.
Definition tier_max (a b : capability_tier) : capability_tier :=
  match a with TierElevated => TierElevated | TierCommon => b end.

(** ** Capabilities *)

Definition capability_all : string := "ALL".

Definition linux_capabilities : list string :=
  ["AUDIT_CONTROL"; "AUDIT_READ"; "AUDIT_WRITE"; "BLOCK_SUSPEND"; "BPF"; "CHECKPOINT_RESTORE"; "CHOWN";
   "DAC_OVERRIDE"; "DAC_READ_SEARCH"; "FOWNER"; "FSETID"; "IPC_LOCK"; "IPC_OWNER"; "KILL"; "LEASE";
   "LINUX_IMMUTABLE"; "MAC_ADMIN"; "MAC_OVERRIDE"; "MKNOD"; "NET_ADMIN"; "NET_BIND_SERVICE"; "NET_BROADCAST";
   "NET_RAW"; "PERFMON"; "SETFCAP"; "SETGID"; "SETPCAP"; "SETUID"; "SYSLOG"; "SYS_ADMIN"; "SYS_BOOT";
   "SYS_CHROOT"; "SYS_MODULE"; "SYS_NICE"; "SYS_PACCT"; "SYS_PTRACE"; "SYS_RAWIO"; "SYS_RESOURCE";
   "SYS_TIME"; "SYS_TTY_CONFIG"; "WAKE_ALARM"].

(** Name and tier of each capability that may be added. *)
Definition capabilities : list (string * capability_tier) :=
  [("NET_ADMIN", TierCommon); ("NET_RAW", TierCommon); ("NET_BIND_SERVICE", TierCommon); ("SYS_PTRACE", TierCommon);
   ("SYS_NICE", TierCommon); ("SYS_TIME", TierCommon); ("IPC_LOCK", TierCommon); ("CHOWN", TierCommon);
   ("DAC_OVERRIDE", TierCommon); ("FOWNER", TierCommon); ("SETUID", TierCommon); ("SETGID", TierCommon);
   ("KILL", TierCommon); ("AUDIT_WRITE", TierCommon);
   ("SYS_ADMIN", TierElevated); ("SYS_MODULE", TierElevated); ("SYS_RAWIO", TierElevated);
   ("DAC_READ_SEARCH", TierElevated); ("MKNOD", TierElevated)].

Definition max_capabilities : Z := 12.
Definition max_devices : Z := 8.

Definition lookup_capability (name : string) : option capability_tier :=
  snd <$> find_first (fun c => String.eqb c.1 name) capabilities.

Definition normalize_capability (v : string) : string := trim_prefix "CAP_" (to_upper (trim_space v)).

(** The loop the three normalizers share: each entry is cleaned, an empty one is dropped, one the check
    refuses ends the loop, and a repeated one is dropped. *)
Fixpoint normalize_loop (clean : string -> string) (refuse : string -> option grant_err) (raws : list string)
    (seen : gset string) (out : list string) : result grant_err (list string) :=
  match raws with
  | [] => Ok out
  | raw :: raws =>
      let name := clean raw in
      if String.eqb name "" then normalize_loop clean refuse raws seen out
      else match refuse name with
           | Some e => Err e
           | None => if bool_decide (name ∈ seen) then normalize_loop clean refuse raws seen out
                     else normalize_loop clean refuse raws ({[name]} ∪ seen) (out ++ [name])
           end
  end.

Definition refuse_capability (name : string) : option grant_err :=
  match lookup_capability name with Some _ => None | None => Some (ErrCapabilityUnknown name) end.

Definition normalize_capabilities (raws : list string) : result grant_err (list string) :=
  let? out := normalize_loop normalize_capability refuse_capability raws ∅ [] in
  if max_capabilities <? Z.of_nat (length out) then Err ErrTooManyCapabilities else Ok (sort_strings out).

(** A name seen before passed the check, so the code's order of the two tests makes no difference. *)
Definition refuse_drop (name : string) : option grant_err :=
  if negb (String.eqb name capability_all) && negb (bool_decide (name ∈ linux_capabilities))
  then Some (ErrCapabilityNotLinux name) else None.

Definition normalize_drop_capabilities (raws : list string) : result grant_err (list string) :=
  let? out := normalize_loop normalize_capability refuse_drop raws ∅ [] in
  if bool_decide (capability_all ∈ out) then Ok [capability_all] else Ok (sort_strings out).

(** [CheckCapabilityConflict]: the first drop that is also added. *)
Definition check_capability_conflict (add drop : list string) : option grant_err :=
  match find_first (fun d => bool_decide (d ∈ add)) drop with
  | Some d => Some (ErrCapabilityConflict d)
  | None => None
  end.

Definition highest_tier (tier_of : string -> option capability_tier) (names : list string) : capability_tier :=
  foldl (fun t n => match tier_of n with Some t' => tier_max t t' | None => t end) TierCommon names.
Definition highest_capability_tier : list string -> capability_tier := highest_tier lookup_capability.

(** ** Devices *)

(** Prefix, whether it is the whole path, and tier. *)
Definition device_prefixes : list (string * bool * capability_tier) :=
  [("/dev/net/tun", true, TierCommon); ("/dev/fuse", true, TierCommon); ("/dev/ttyUSB", false, TierCommon);
   ("/dev/ttyACM", false, TierCommon); ("/dev/serial/", false, TierCommon); ("/dev/i2c-", false, TierCommon);
   ("/dev/gpiochip", false, TierCommon); ("/dev/bus/usb/", false, TierElevated)].

Definition blocked_device_prefixes : list string :=
  ["/dev/sd"; "/dev/nvme"; "/dev/hd"; "/dev/vd"; "/dev/xvd"; "/dev/dm-"; "/dev/loop"; "/dev/mapper/"; "/dev/md";
   "/dev/mem"; "/dev/kmem"; "/dev/port"; "/dev/kmsg"].

Definition device_matches (path : string) (d : string * bool * capability_tier) : bool :=
  let '(prefix, exact, _) := d in
  if exact then String.eqb path prefix
  else has_prefix prefix path && (Z.of_nat (String.length prefix) <? Z.of_nat (String.length path)).
Definition lookup_device (path : string) : option capability_tier :=
  snd <$> find_first (device_matches path) device_prefixes.

Definition refuse_device (d : string) : option grant_err :=
  if negb (has_prefix "/dev/" d) || contains ".." d || contains ":" d then Some (ErrDeviceUnknown d)
  else if existsb (fun b => has_prefix b d) blocked_device_prefixes then Some (ErrDeviceBlockDevice d)
  else match lookup_device d with Some _ => None | None => Some (ErrDeviceUnknown d) end.

Definition normalize_devices (raws : list string) : result grant_err (list string) :=
  let? out := normalize_loop trim_space refuse_device raws ∅ [] in
  if max_devices <? Z.of_nat (length out) then Err ErrTooManyDevices else Ok (sort_strings out).

Definition highest_device_tier : list string -> capability_tier := highest_tier lookup_device.

(** ** Users *)

Definition max_run_as_part : nat := 32.

Fixpoint run_as_chars (first : bool) (p : string) : bool :=
  match p with
  | EmptyString => true
  | String c p' =>
      (is_lower c || is_upper c || is_digit c || Ascii.eqb c "_"
       || (negb first && (Ascii.eqb c "-" || Ascii.eqb c "."))) && run_as_chars false p'
  end.
Definition run_as_part_valid (p : string) : bool :=
  if String.eqb p "" || (max_run_as_part <? String.length p)%nat then false else run_as_chars true p.

Definition normalize_run_as_user (v : string) : result grant_err string :=
  let v := trim_space v in
  if String.eqb v "" then Ok ""
  else let '(user, group, has_group) := cut ":" v in
       if negb (run_as_part_valid user) || (has_group && negb (run_as_part_valid group))
       then Err ErrRunAsUserInvalid else Ok v.

Definition run_as_user_is_non_root (v : string) : bool :=
  let v := trim_space v in
  if String.eqb v "" then false
  else let '(user, group, has_group) := cut ":" v in
       match atoi user with
       | Some uid =>
           if uid <=? 0 then false
           else if has_group then match atoi group with Some gid => 0 <=? gid | None => false end
           else true
       | None => false
       end.

(** ** Who may hold a grant *)

(** The columns of a workspace the gates read. *)
Record grant_workspace := GrantWorkspace { gw_privileged : bool; gw_system : bool }.

(** What a process is configured with and what it reads: the platform switch, the restricted UID, the
    quota service over its tables, the workspaces. *)
Record grant_env := GrantEnv {
  ge_enabled : bool; ge_restricted_uid : Z; ge_quota : option quota_service; ge_db : quota_db;
  ge_workspaces : N -> option grant_workspace }.

Section Gates.
Context (e : grant_env).

Definition must_drop_root (ws : N) (official : bool) : bool := require_non_root_user (ge_quota e) (ge_db e) ws official.

(** [grantAllowed] of the application service, once its repositories are wired *)
Definition grant_allowed (ws : N) (tier : capability_tier) : option grant_err :=
  if negb (ge_enabled e) then Some ErrGrantsDisabled
  else match ge_workspaces e ws with
       | None => Some ErrWorkspaceLookup
       | Some w =>
           if must_drop_root ws false then Some ErrCapabilityRestricted
           else if negb (gw_privileged w) then Some ErrHostMountNotPrivileged
           else match tier with
                | TierElevated => if gw_system w then None else Some ErrCapabilityElevated
                | TierCommon => None
                end
       end.

(** [newGrantGuard]: the same question when a container starts *)
Definition grant_guard (ws : N) (tier : capability_tier) : option grant_err :=
  if negb (ge_enabled e) then Some ErrGrantsDisabled
  else if must_drop_root ws false then Some ErrCapabilityRestricted
  else match ge_workspaces e ws with
       | None => Some ErrWorkspaceLookup
       | Some w =>
           if negb (gw_privileged w) then Some ErrCapabilityElevated
           else match tier with
                | TierElevated => if gw_system w then None else Some ErrCapabilityElevated
                | TierCommon => None
                end
       end.

(** [validCapabilities], [validDevices], [validDropCapabilities], [validRunAsUser] *)
Definition valid_capabilities (ws : N) (raws : list string) : result grant_err (list string) :=
  let? caps := normalize_capabilities raws in
  match caps with
  | [] => Ok []
  | _ => match grant_allowed ws (highest_capability_tier caps) with Some err => Err err | None => Ok caps end
  end.
Definition valid_devices (ws : N) (raws : list string) : result grant_err (list string) :=
  let? devices := normalize_devices raws in
  match devices with
  | [] => Ok []
  | _ => match grant_allowed ws (highest_device_tier devices) with Some err => Err err | None => Ok devices end
  end.
Definition valid_drop_capabilities (add drop : list string) : result grant_err (list string) :=
  let? caps := normalize_drop_capabilities drop in
  match caps with
  | [] => Ok []
  | _ => match check_capability_conflict add caps with Some err => Err err | None => Ok caps end
  end.
Definition valid_run_as_user (ws : N) (v : string) (official : bool) : result grant_err string :=
  let? clean := normalize_run_as_user v in
  if String.eqb clean "" then Ok ""
  else if must_drop_root ws official && negb (run_as_user_is_non_root clean) then Err ErrRunAsUserRoot
  else Ok clean.
End Gates.

(** ** The security of a container *)

Record security := Security {
  sc_user : string; sc_no_new_privileges : bool; sc_cap_drop : list string; sc_cap_add : list string;
  sc_devices : list string; sc_read_only_rootfs : bool; sc_restricted : bool }.
Definition no_security : security := Security "" false [] [] [] false false.

(** The columns of an application (and of a job) the worker reads. *)
Record secured_app := SecuredApp {
  sa_workspace : N; sa_official : bool; sa_run_as_user : string; sa_add : list string; sa_drop : list string;
  sa_devices : list string; sa_no_new_privileges : bool; sa_read_only : bool; sa_image : string }.
Record secured_job := SecuredJob { sj_image : string; sj_run_as_user : string }.

(** The part of [runtimeBuilder] this code reads; [None] where a hook is not wired. *)
Record runtime_builder := RuntimeBuilder {
  rb_security : option (N -> bool -> security);
  rb_grants : option (N -> capability_tier -> option grant_err) }.

(** [baselineSecurity], [securityFor], [newSecurityResolver] *)
Definition baseline_security : security := Security "" false ["NET_RAW"] [] [] false false.
Definition security_for (user : string) (restricted exempt_uid : bool) : security :=
  if negb restricted then baseline_security
  else Security (if exempt_uid then "" else user) true ["NET_RAW"] [] [] false true.
Definition security_resolver (e : grant_env) (ws : N) (official : bool) : security :=
  if 0 <? ge_restricted_uid e then
    let user := itoa (ge_restricted_uid e) +:+ ":0" in
    let restricted := must_drop_root e ws false in
    security_for user restricted (restricted && negb (must_drop_root e ws official))
  else baseline_security.

(** The builder both processes wire. *)
Definition wired (e : grant_env) : runtime_builder := RuntimeBuilder (Some (security_resolver e)) (Some (grant_guard e)).

Section Worker.
Context (b : runtime_builder).

Definition container_security_for (app : secured_app) (official : bool) : security :=
  match rb_security b with Some resolve => resolve (sa_workspace app) official | None => no_security end.

Definition with_run_as_user (s : security) (run_as : string) : result grant_err security :=
  let? v := normalize_run_as_user run_as in
  if String.eqb v "" then Ok s
  else if sc_restricted s && negb (run_as_user_is_non_root v) then Err (ErrRunAsUserForbidden v)
  else Ok (Security v (sc_no_new_privileges s) (sc_cap_drop s) (sc_cap_add s) (sc_devices s)
             (sc_read_only_rootfs s) (sc_restricted s)).

Definition with_grants (s : security) (app : secured_app) : result grant_err security :=
  match sa_add app, sa_devices app with
  | [], [] => Ok s
  | add, devices =>
      if sc_restricted s then Err ErrCapabilityRestricted
      else
        let granted := Security (sc_user s) (sc_no_new_privileges s) (sc_cap_drop s) add devices
                         (sc_read_only_rootfs s) (sc_restricted s) in
        match rb_grants b with
        | None => Ok granted
        | Some guard =>
            match guard (sa_workspace app) (tier_max (highest_capability_tier add) (highest_device_tier devices)) with
            | Some err => Err err
            | None => Ok granted
            end
        end
  end.

Definition with_hardening (s : security) (app : secured_app) : security :=
  Security (sc_user s) (sc_no_new_privileges s || sa_no_new_privileges app)
    (foldl (fun drop c => if bool_decide (c ∈ drop) then drop else drop ++ [c]) (sc_cap_drop s) (sa_drop app))
    (sc_cap_add s) (sc_devices s) (sa_read_only app) (sc_restricted s).

Definition workload_security_for (app : secured_app) (run_as : string) (official : bool) : result grant_err security :=
  let? s := with_run_as_user (container_security_for app official) run_as in
  let? s := with_grants s app in
  Ok (with_hardening s app).
Definition workload_security (app : secured_app) (run_as : string) : result grant_err security :=
  workload_security_for app run_as (sa_official app).

(** A deploy as a container, as a service, and a job ([deploy.go], [job.go]) *)
Definition deploy_security (app : secured_app) : result grant_err security := workload_security app (sa_run_as_user app).
Definition service_security (app : secured_app) : result grant_err security :=
  let? s := workload_security app (sa_run_as_user app) in
  match sc_devices s with [] => Ok s | _ => Err ErrDevicesOnService end.
Definition own_image (app : secured_app) (j : secured_job) : bool :=
  negb (String.eqb (trim_space (sj_image j)) "") && negb (equal_fold (trim_space (sj_image j)) (trim_space (sa_image app))).
Definition job_security (app : secured_app) (j : secured_job) : result grant_err security :=
  let? s := workload_security_for app (sj_run_as_user j) (sa_official app && negb (own_image app j)) in
  Ok (Security (sc_user s) (sc_no_new_privileges s) (sc_cap_drop s) (sc_cap_add s) (sc_devices s) false (sc_restricted s)).
End Worker.

(** [applyTo] and [applyContainerSecurity]: what the engine is told. A device is mapped to its own path. *)
Record host_config := HostConfig {
  hc_user : string; hc_cap_drop : list string; hc_cap_add : list string; hc_read_only : bool;
  hc_devices : list (string * string * string); hc_security_opt : list string }.
Definition to_device_mappings (paths : list string) : list (string * string * string) := (fun p => (p, p, "rwm")) <$> paths.
Definition apply_container_security (s : security) : host_config :=
  HostConfig (sc_user s) (sc_cap_drop s) (sc_cap_add s) (sc_read_only_rootfs s) (to_device_mappings (sc_devices s))
    (if sc_no_new_privileges s then ["no-new-privileges"] else []).

(** A run of an application: its container, its Swarm service, or one of its jobs. *)
Inductive container_run := RunDeploy | RunService | RunJob (j : secured_job).
Definition security_of (b : runtime_builder) (app : secured_app) (r : container_run) : result grant_err security :=
  match r with
  | RunDeploy => deploy_security b app
  | RunService => service_security b app
  | RunJob j => job_security b app j
  end.

(** Whether a run claims the exemption of an official template. *)
Definition claims_exemption (app : secured_app) (r : container_run) : bool :=
  sa_official app && match r with RunJob j => negb (own_image app j) | _ => true end.

(** The account a user specification names first, when it is a number. *)
Definition user_uid (user : string) : option Z := atoi (cut ":" user).1.1.

(** * Facts *)

(** ** Normal forms *)

Section NormalizeLoop.
Context (clean : string -> string) (refuse : string -> option grant_err).
Abbreviation loop := (normalize_loop clean refuse).

Definition acceptable (raw : string) : Prop := clean raw = "" \/ refuse (clean raw) = None.

Lemma normalize_loop_ok raws seen out res :
  (forall x, x ∈ seen <-> x ∈ out) -> NoDup out -> loop raws seen out = Ok res ->
  Forall acceptable raws /\ NoDup res /\ forall x, x ∈ res <-> x ∈ out \/ (x <> "" /\ x ∈ clean <$> raws).
Proof.
  revert seen out. induction raws as [|raw raws IH]; intros seen out Hs Hnd; cbn [normalize_loop].
  { intros [= <-]. split; [constructor|]. split; [done|]. set_solver. }
  destruct (String.eqb_spec (clean raw) "") as [He|He].
  { intros Hl. destruct (IH _ _ Hs Hnd Hl) as (Ha & Hr & Hin). split; [constructor; [by left|done]|].
    split; [done|]. intros x. rewrite Hin, fmap_cons, elem_of_cons. naive_solver congruence. }
  destruct (refuse (clean raw)) as [err|] eqn:Hrf; [done|]. case_bool_decide as Hin0; intros Hl.
  - destruct (IH _ _ Hs Hnd Hl) as (Ha & Hr & Hin). split; [constructor; [by right|done]|].
    split; [done|]. intros x. rewrite Hin, fmap_cons, elem_of_cons. rewrite Hs in Hin0. naive_solver congruence.
  - rewrite Hs in Hin0.
    destruct (IH ({[clean raw]} ∪ seen) (out ++ [clean raw])) as (Ha & Hr & Hin); [| |exact Hl|].
    + intros x. rewrite elem_of_union, elem_of_singleton, elem_of_app, list_elem_of_singleton, Hs. tauto.
    + apply NoDup_app. split; [done|]. split; [|apply NoDup_singleton].
      intros x Hx ->%list_elem_of_singleton. done.
    + split; [constructor; [by right|done]|]. split; [done|]. intros x.
      rewrite Hin, fmap_cons, elem_of_cons, elem_of_app, list_elem_of_singleton. naive_solver congruence.
Qed.

Lemma normalize_loop_total raws seen out : Forall acceptable raws -> exists res, loop raws seen out = Ok res.
Proof.
  intros Ha. revert seen out. induction Ha as [|raw raws Hr _ IH]; intros seen out; cbn [normalize_loop]; [eauto|].
  destruct (String.eqb_spec (clean raw) "") as [He|He]; [apply IH|].
  destruct Hr as [Hr|Hr]; [done|]. rewrite Hr. case_bool_decide; apply IH.
Qed.

Lemma seen_nothing (x : string) : x ∈ (∅ : gset string) <-> x ∈ [].
Proof. rewrite elem_of_empty, elem_of_nil. done. Qed.

(** What a list normalizes to depends on the set of its cleaned entries alone. *)
Lemma normalize_loop_same raws raws' res res' :
  (forall x, x <> "" -> x ∈ clean <$> raws <-> x ∈ clean <$> raws') ->
  loop raws ∅ [] = Ok res -> loop raws' ∅ [] = Ok res' -> res ≡ₚ res'.
Proof.
  intros Hsame Hl Hl'.
  destruct (normalize_loop_ok raws ∅ [] res) as (_ & Hr & Hin); [apply seen_nothing|constructor|done|].
  destruct (normalize_loop_ok raws' ∅ [] res') as (_ & Hr' & Hin'); [apply seen_nothing|constructor|done|].
  apply NoDup_Permutation; [done|done|]. intros x. rewrite Hin, Hin'. specialize (Hsame x).
  rewrite !elem_of_nil. tauto.
Qed.
End NormalizeLoop.

Lemma sort_strings_perm l : sort_strings l ≡ₚ l.
Proof. apply stable_sort_perm. Qed.

Lemma sort_strings_idem l : sort_strings (sort_strings l) = sort_strings l.
Proof. apply sort_strings_proper, sort_strings_perm. Qed.

(** A normal form is sorted, without repetition, and its entries passed the check. *)
Definition normal_form (clean : string -> string) (refuse : string -> option grant_err) (raws l : list string) : Prop :=
  StronglySorted (not_after str_lt) l /\ NoDup l /\
  (forall x, x ∈ l <-> x <> "" /\ x ∈ clean <$> raws) /\ (forall x, x ∈ l -> refuse x = None).

Lemma normal_form_of clean refuse raws res :
  normalize_loop clean refuse raws ∅ [] = Ok res -> normal_form clean refuse raws (sort_strings res).
Proof.
  intros (Ha & Hnd & Hin)%normalize_loop_ok; [|apply seen_nothing|constructor].
  split; [apply sort_strings_sorted|]. split; [by rewrite sort_strings_perm|].
  assert (Hmem : forall x, x ∈ sort_strings res <-> x <> "" /\ x ∈ clean <$> raws).
  { intros x. rewrite sort_strings_perm, Hin, elem_of_nil. tauto. }
  split; [done|]. intros x (Hx & (raw & -> & Hraw)%list_elem_of_fmap)%Hmem.
  rewrite Forall_forall in Ha. destruct (Ha raw Hraw); done.
Qed.

(** Two lists with the same cleaned entries normalize alike, whatever their order and repetitions. *)
Lemma normalize_same_set clean refuse raws raws' res :
  (forall x, x <> "" -> x ∈ clean <$> raws <-> x ∈ clean <$> raws') ->
  normalize_loop clean refuse raws ∅ [] = Ok res ->
  exists res', normalize_loop clean refuse raws' ∅ [] = Ok res' /\ sort_strings res' = sort_strings res
    /\ length res' = length res.
Proof.
  intros Hsame Hl. pose proof Hl as Hl0. apply normalize_loop_ok in Hl0 as (Ha & _ & _); [|apply seen_nothing|constructor].
  assert (Ha' : Forall (acceptable clean refuse) raws').
  { apply Forall_forall. intros raw Hraw. destruct (decide (clean raw = "")) as [?|Hne]; [by left|].
    assert (Hin : clean raw ∈ clean <$> raws) by (apply Hsame; [done|by apply list_elem_of_fmap_2]).
    apply list_elem_of_fmap in Hin as (raw0 & Heq & Hraw0). rewrite Forall_forall in Ha.
    unfold acceptable. rewrite Heq. by apply Ha. }
  destruct (normalize_loop_total clean refuse raws' ∅ [] Ha') as [res' Hl']. exists res'. split; [done|].
  assert (Hp : res' ≡ₚ res).
  { eapply normalize_loop_same; [|exact Hl'|exact Hl]. intros x Hx. by rewrite Hsame. }
  split; [by apply sort_strings_proper|by rewrite Hp].
Qed.

(** The entries of a normal form are clean already, so it has itself as its cleaned entries. *)
Lemma normal_form_same_set clean refuse raws l :
  normal_form clean refuse raws l -> (forall x, x ∈ l -> clean x = x) ->
  forall x, x <> "" -> x ∈ clean <$> raws <-> x ∈ clean <$> l.
Proof.
  intros (_ & _ & Hin & _) Hclean x Hx. transitivity (x ∈ l); [rewrite Hin; tauto|]. split.
  - intros Hxl. apply list_elem_of_fmap. exists x. by rewrite Hclean.
  - intros (y & -> & Hy)%list_elem_of_fmap. by rewrite Hclean.
Qed.

(** The capabilities of the two tables are their own normal form. *)
Lemma capability_clean name : lookup_capability name <> None -> normalize_capability name = name.
Proof.
  unfold lookup_capability. intros H. destruct (find_first _ _) as [c|] eqn:Hf; [|done].
  apply find_first_some in Hf as [Hin Heq]. apply String.eqb_eq in Heq. subst name.
  assert (Hall : Forall (fun c => normalize_capability c.1 = c.1) capabilities) by by repeat constructor.
  rewrite Forall_forall in Hall. by apply Hall.
Qed.

Lemma refuse_capability_none name : refuse_capability name = None <-> lookup_capability name <> None.
Proof. unfold refuse_capability. by destruct (lookup_capability name). Qed.

(** What the device check lets through. *)
Lemma refuse_device_none d :
  refuse_device d = None ->
  has_prefix "/dev/" d = true /\ contains ".." d = false /\ contains ":" d = false
  /\ (forall b, b ∈ blocked_device_prefixes -> has_prefix b d = false) /\ lookup_device d <> None.
Proof.
  unfold refuse_device. destruct (negb _ || _ || _) eqn:E1; [done|].
  destruct (existsb _ _) eqn:E2; [done|]. rewrite existsb_elem_false in E2. go_inv.
  destruct (lookup_device d); [|done]. intros _. by split_and!.
Qed.

(** ** Who holds a grant *)

Section GateFacts.
Context (e : grant_env) (ws : N).

(** Both gates ask for the same things; they differ in the order, hence in the error of a refusal. *)
Definition may_hold (tier : capability_tier) : Prop :=
  ge_enabled e = true /\ must_drop_root e ws false = false /\
  exists w, ge_workspaces e ws = Some w /\ gw_privileged w = true /\ (tier = TierElevated -> gw_system w = true).

Lemma grant_allowed_spec tier : grant_allowed e ws tier = None <-> may_hold tier.
Proof.
  unfold grant_allowed, may_hold. destruct (ge_enabled e), (must_drop_root e ws false),
    (ge_workspaces e ws) as [[[] []]|], tier; simpl; naive_solver.
Qed.

Lemma grant_guard_spec tier : grant_guard e ws tier = None <-> may_hold tier.
Proof.
  unfold grant_guard, may_hold. destruct (ge_enabled e), (must_drop_root e ws false),
    (ge_workspaces e ws) as [[[] []]|], tier; simpl; naive_solver.
Qed.

Lemma may_hold_max a b : may_hold (tier_max a b) <-> may_hold a /\ may_hold b.
Proof. unfold may_hold. destruct a, b; simpl; naive_solver. Qed.

Lemma may_hold_common tier : may_hold tier -> may_hold TierCommon.
Proof. unfold may_hold. naive_solver. Qed.

(** The deploy-time answer to an application that asks for something. *)
Lemma with_grants_spec s app s' :
  sa_workspace app = ws ->
  with_grants (wired e) s app = Ok s' <->
  (sa_add app = [] /\ sa_devices app = [] /\ s' = s) \/
  ((sa_add app <> [] \/ sa_devices app <> []) /\ sc_restricted s = false
   /\ may_hold (highest_capability_tier (sa_add app)) /\ may_hold (highest_device_tier (sa_devices app))
   /\ s' = Security (sc_user s) (sc_no_new_privileges s) (sc_cap_drop s) (sa_add app) (sa_devices app)
             (sc_read_only_rootfs s) false).
Proof.
  intros Hw. rewrite (and_assoc (may_hold _)), <- may_hold_max, <- grant_guard_spec.
  unfold with_grants, wired. cbn [rb_grants]. rewrite Hw.
  destruct (sa_add app) as [|a l], (sa_devices app) as [|dv l']; [naive_solver| | |];
    (destruct (sc_restricted s); [naive_solver|]);
    destruct (grant_guard e ws _); naive_solver.
Qed.
End GateFacts.

Lemma with_run_as_user_ok s run_as s' :
  with_run_as_user s run_as = Ok s' ->
  sc_no_new_privileges s' = sc_no_new_privileges s /\ sc_cap_drop s' = sc_cap_drop s /\ sc_cap_add s' = sc_cap_add s
  /\ sc_devices s' = sc_devices s /\ sc_restricted s' = sc_restricted s
  /\ (sc_user s' = sc_user s \/ (sc_restricted s = true -> run_as_user_is_non_root (sc_user s') = true)).
Proof.
  unfold with_run_as_user. intros H. go_inv. destruct (String.eqb v ""); go_inv; [by split_and!; auto|].
  destruct (sc_restricted s && _) eqn:E; go_inv. split_and!; try done. right. cbn. intros Hr. rewrite Hr in E.
  by destruct (run_as_user_is_non_root v).
Qed.

Lemma hardening_keeps_drops s app c : c ∈ sc_cap_drop s -> c ∈ sc_cap_drop (with_hardening s app).
Proof.
  unfold with_hardening. cbn [sc_cap_drop]. generalize (sc_cap_drop s) as l. induction (sa_drop app) as [|x d IH]; [done|].
  intros l Hl. simpl. apply IH. case_bool_decide; [done|]. apply elem_of_app. by left.
Qed.

Lemma non_root_uid v : trim_space v = v -> run_as_user_is_non_root v = true -> exists uid, user_uid v = Some uid /\ 0 < uid.
Proof.
  unfold run_as_user_is_non_root, user_uid. intros ->. destruct (String.eqb v ""); [done|].
  destruct (cut ":" v) as [[user group] has]. cbn. destruct (atoi user) as [uid|]; [|done].
  destruct (Z.leb_spec uid 0); [done|]. intros _. eauto.
Qed.

Lemma normalize_run_as_user_ok v u : normalize_run_as_user v = Ok u -> u = trim_space v /\ normalize_run_as_user u = Ok u.
Proof.
  unfold normalize_run_as_user. intros H.
  assert (u = trim_space v) as ->.
  { destruct (String.eqb_spec (trim_space v) "") as [E|E]; go_inv; [by rewrite E|].
    destruct (cut _ _) as [[user group] has]. destruct (_ || _); by go_inv. }
  split; [done|]. by rewrite trim_space_idem.
Qed.

Lemma platform_uid n : 0 < n <= max_int64 -> user_uid (itoa n +:+ ":0") = Some n.
Proof.
  intros Hn. unfold user_uid. rewrite cut_app; [apply atoi_itoa; unfold max_int64 in *; lia|].
  eapply str_forall_impl; [|apply itoa_digits; lia]. intros c Hc. unfold without. apply negb_true_iff, Ascii.eqb_neq.
  by intros ->.
Qed.

(** What a run leaves of the resolver's answer. *)
Lemma workload_security_for_ok e app run_as official s :
  workload_security_for (wired e) app run_as official = Ok s ->
  let base := security_resolver e (sa_workspace app) official in
  (forall c, c ∈ sc_cap_drop base -> c ∈ sc_cap_drop s)
  /\ (sc_no_new_privileges base = true -> sc_no_new_privileges s = true)
  /\ sc_restricted s = sc_restricted base
  /\ (sc_restricted base = true -> sc_cap_add s = sc_cap_add base /\ sc_devices s = sc_devices base)
  /\ (sc_user s = sc_user base
      \/ (sc_restricted base = true -> exists uid, user_uid (sc_user s) = Some uid /\ 0 < uid)).
Proof.
  unfold workload_security_for, container_security_for. cbn [wired rb_security]. intros H. cbv zeta.
  set (base := security_resolver e (sa_workspace app) official) in *. clearbody base.
  apply rbind_ok_inv in H as (s1 & Hu & H). apply rbind_ok_inv in H as (s2 & Hg & [= <-]).
  assert (Huid : sc_user s1 = sc_user base
      \/ (sc_restricted base = true -> exists uid, user_uid (sc_user s1) = Some uid /\ 0 < uid)).
  { revert Hu. unfold with_run_as_user. intros Hu. apply rbind_ok_inv in Hu as (v & Hv & Hu).
    apply normalize_run_as_user_ok in Hv as [-> Hv]. destruct (String.eqb _ ""); go_inv; [by left|].
    destruct (sc_restricted base) eqn:Hr; [|by right]. destruct (run_as_user_is_non_root _) eqn:Hn; cbn in Hu; [|done].
    go_inv. right. intros _. apply non_root_uid; [apply trim_space_idem|done]. }
  apply with_run_as_user_ok in Hu as (Hnnp & Hdrop & Hadd & Hdev & Hrs & _).
  apply (with_grants_spec e (sa_workspace app)) in Hg; [|done].
  assert (Hs2 : sc_user s2 = sc_user s1 /\ sc_no_new_privileges s2 = sc_no_new_privileges s1 /\ sc_cap_drop s2 = sc_cap_drop s1
      /\ sc_restricted s2 = sc_restricted s1
      /\ (sc_restricted s1 = true -> sc_cap_add s2 = sc_cap_add s1 /\ sc_devices s2 = sc_devices s1)).
  { destruct Hg as [(_ & _ & ->)|(_ & Hr & _ & _ & ->)]; [by split_and!|]. cbn. split_and!; congruence. }
  destruct Hs2 as (Hu2 & Hn2 & Hd2 & Hr2 & Hg2). split_and!.
  - intros c Hc. apply hardening_keeps_drops. by rewrite Hd2, Hdrop.
  - intros Hb. cbn. by rewrite Hn2, Hnnp, Hb.
  - cbn. congruence.
  - intros Hb. cbn. destruct Hg2 as [-> ->]; [congruence|done].
  - cbn [sc_user with_hardening]. by rewrite Hu2.
Qed.

Lemma security_of_workload b app r s :
  security_of b app r = Ok s ->
  exists run_as s0, workload_security_for b app run_as (claims_exemption app r) = Ok s0
    /\ sc_user s = sc_user s0 /\ sc_no_new_privileges s = sc_no_new_privileges s0 /\ sc_cap_drop s = sc_cap_drop s0
    /\ sc_cap_add s = sc_cap_add s0 /\ sc_devices s = sc_devices s0.
Proof.
  unfold claims_exemption. destruct r as [| |j]; cbn [security_of]; rewrite ?andb_true_r; intros H.
  - exists (sa_run_as_user app), s. by split_and!.
  - apply rbind_ok_inv in H as (s0 & H0 & H). exists (sa_run_as_user app), s0. destruct (sc_devices s0) eqn:E; by go_inv.
  - apply rbind_ok_inv in H as (s0 & H0 & [= <-]). by exists (sj_run_as_user j), s0.
Qed.

(** What the write gate lets through may be held, and its user is one the deploy takes. *)
Lemma valid_capabilities_hold e ws raws caps :
  valid_capabilities e ws raws = Ok caps -> caps = [] \/ may_hold e ws (highest_capability_tier caps).
Proof.
  unfold valid_capabilities. intros Hc. apply rbind_ok_inv in Hc as (l & _ & Hc).
  destruct l; [left; congruence|]. destruct (grant_allowed _ _ _) eqn:Hg; [done|].
  right. apply grant_allowed_spec in Hg. by injection Hc as <-.
Qed.

Lemma valid_devices_hold e ws raws devices :
  valid_devices e ws raws = Ok devices -> devices = [] \/ may_hold e ws (highest_device_tier devices).
Proof.
  unfold valid_devices. intros Hd. apply rbind_ok_inv in Hd as (l & _ & Hd).
  destruct l; [left; congruence|]. destruct (grant_allowed _ _ _) eqn:Hg; [done|].
  right. apply grant_allowed_spec in Hg. by injection Hd as <-.
Qed.

Lemma resolver_base e ws official :
  let base := security_resolver e ws official in
  sc_cap_add base = [] /\ sc_devices base = [] /\ (sc_restricted base = true -> must_drop_root e ws false = true).
Proof.
  unfold security_resolver, security_for. destruct (0 <? _); [|done]. by destruct (must_drop_root e ws false).
Qed.

Lemma run_as_accepted e ws user official u base :
  valid_run_as_user e ws user official = Ok u -> must_drop_root e ws official = must_drop_root e ws false ->
  (sc_restricted base = true -> must_drop_root e ws false = true) ->
  exists s, with_run_as_user base u = Ok s /\ (u <> "" -> sc_user s = u).
Proof.
  unfold valid_run_as_user, with_run_as_user. intros Hu Hoff Hb. apply rbind_ok_inv in Hu as (v & Hv & Hu).
  apply normalize_run_as_user_ok in Hv as [_ Hv].
  destruct (String.eqb_spec v "") as [->|Hne]; [injection Hu as <-; rewrite Hv; cbn; by exists base|].
  rewrite Hoff in Hu. destruct (must_drop_root e ws false && _) eqn:Hm; [done|]. injection Hu as <-.
  rewrite Hv. cbn [rbind]. rewrite (proj2 (String.eqb_neq _ _)) by done.
  destruct (sc_restricted base); [|by eexists].
  rewrite (Hb eq_refl) in Hm. cbn [andb] in Hm |- *. rewrite Hm. by eexists.
Qed.

(** A container's grants are those of its application, and may be held. *)
Lemma granted_may_hold e app r s :
  security_of (wired e) app r = Ok s -> sc_cap_add s <> [] \/ sc_devices s <> [] ->
  may_hold e (sa_workspace app) (tier_max (highest_capability_tier (sc_cap_add s)) (highest_device_tier (sc_devices s))).
Proof.
  intros Hs Hne. apply security_of_workload in Hs as (run_as & s0 & Hs & _ & _ & _ & Ha & Hv).
  rewrite Ha, Hv in *. revert Hs. unfold workload_security_for. intros Hs.
  apply rbind_ok_inv in Hs as (s1 & Hu & Hs). apply rbind_ok_inv in Hs as (s2 & Hg & [= <-]).
  cbn [sc_cap_add sc_devices with_hardening] in *. apply (with_grants_spec e (sa_workspace app)) in Hg; [|done].
  apply with_run_as_user_ok in Hu as (_ & _ & Ha1 & Hd1 & _).
  destruct Hg as [(_ & _ & ->)|(_ & _ & H1 & H2 & ->)]; [|by apply may_hold_max].
  rewrite Ha1, Hd1 in Hne. unfold container_security_for, wired, rb_security in Hne.
  destruct (resolver_base e (sa_workspace app) (claims_exemption app r)) as (Hb1 & Hb2 & _). naive_solver congruence.
Qed.

(** * Claims *)

(** C28 [restricted_container_confined]: In a workspace that must drop root, with a restricted UID
    configured, every container, service or job of an application that is configured by its security
    drops NET_RAW, gains no capability and no device, cannot gain privileges, and runs as a numeric
    user other than root; unless it is an official template on its own image, which the plan
    exempts, and then the engine is given no user. The step that first hands the volumes to that
    user, a chown in the application's image that runs without any of this, is outside. *)
Theorem restricted_container_confined (e : grant_env) (app : secured_app) (r : container_run) (s : security) :
  0 < ge_restricted_uid e <= max_int64 -> must_drop_root e (sa_workspace app) false = true ->
  security_of (wired e) app r = Ok s ->
  let hc := apply_container_security s in
  "NET_RAW" ∈ hc_cap_drop hc /\ hc_cap_add hc = [] /\ hc_devices hc = [] /\ hc_security_opt hc = ["no-new-privileges"]
  /\ ((exists uid, user_uid (hc_user hc) = Some uid /\ 0 < uid)
      \/ (hc_user hc = "" /\ claims_exemption app r = true /\ must_drop_root e (sa_workspace app) true = false)).
Proof.
  intros Huid Hroot Hs. cbv zeta. apply security_of_workload in Hs as (run_as & s0 & Hs & Hu & Hn & Hd & Ha & Hv).
  apply workload_security_for_ok in Hs. cbv zeta in Hs. revert Hs. unfold security_resolver, security_for.
  rewrite (proj2 (Z.ltb_lt _ _)), Hroot by lia. cbn. intros (Hdrop & Hnnp & _ & Hgr & Huser).
  destruct (Hgr eq_refl) as [Hadd Hdev]. rewrite Hn, Hnnp, Hd, Ha, Hv, Hu, Hadd, Hdev by done. split_and!; try done.
  { apply Hdrop. by left. }
  destruct Huser as [->|Huser]; [|by left; apply Huser].
  destruct (claims_exemption app r), (must_drop_root e (sa_workspace app) true) eqn:Ht; cbn;
    [| by right | |]; rewrite ?Hroot, ?Ht; cbn; left; exists (ge_restricted_uid e); (split; [|lia]); by apply platform_uid.
Qed.

(** A device list that is accepted is sorted, without repetition, at most eight long;
    its entries are the trimmed non-blank entries that were asked for, each on the allow-list, below [/dev/],
    with no way out of it and no second target, and no block or memory device; and any list with the same
    entries, in another order or repeated, is accepted as the same list. *)
Lemma devices_normal_form (raws l : list string) :
  normalize_devices raws = Ok l ->
  StronglySorted (not_after str_lt) l /\ NoDup l /\ Z.of_nat (length l) <= max_devices
  /\ (forall d, d ∈ l <-> d <> "" /\ d ∈ trim_space <$> raws)
  /\ (forall d, d ∈ l -> has_prefix "/dev/" d = true /\ contains ".." d = false /\ contains ":" d = false
        /\ (forall b, b ∈ blocked_device_prefixes -> has_prefix b d = false) /\ lookup_device d <> None)
  /\ (forall raws', (forall x, x <> "" -> x ∈ trim_space <$> raws <-> x ∈ trim_space <$> raws') -> normalize_devices raws' = Ok l)
  /\ normalize_devices l = Ok l.
Proof.
  unfold normalize_devices. intros H. apply rbind_ok_inv in H as (res & Hl & H).
  destruct (Z.ltb_spec max_devices (Z.of_nat (length res))) as [|Hlen]; [done|]. go_inv.
  assert (Hn : normal_form trim_space refuse_device raws (sort_strings res)) by by apply normal_form_of.
  assert (Hsame : forall raws', (forall x, x <> "" -> x ∈ trim_space <$> raws <-> x ∈ trim_space <$> raws') ->
    normalize_devices raws' = Ok (sort_strings res)).
  { intros raws' Hr. destruct (normalize_same_set _ _ _ _ _ Hr Hl) as (res' & Hl' & Hs & Hlr).
    unfold normalize_devices. rewrite Hl'. cbn [rbind]. by rewrite Hlr, (proj2 (Z.ltb_ge _ _)), Hs by done. }
  pose proof Hn as (Hsorted & Hnd & Hin & Hrf). split_and!; try done.
  - by rewrite sort_strings_perm.
  - intros d Hd. apply refuse_device_none. by apply Hrf.
  - apply Hsame. apply (normal_form_same_set _ _ _ _ Hn). intros x (_ & Hx)%Hin.
    apply list_elem_of_fmap in Hx as (raw & -> & _). apply trim_space_idem.
Qed.

(** What the application service let an application ask for when it was written,
    the deploy grants while nothing changed (unless the application holds a template's exemption); and whatever
    was written before, a container gets a capability or a device only while the platform allows grants,
    the workspace is privileged and need not drop root, and for an elevated one is the system workspace. *)
Lemma grants_checked_twice (e : grant_env) (app : secured_app) (adds devs : list string) (user : string) :
  let ws := sa_workspace app in
  (valid_capabilities e ws adds = Ok (sa_add app) -> valid_devices e ws devs = Ok (sa_devices app) ->
   valid_run_as_user e ws user (sa_official app) = Ok (sa_run_as_user app) ->
   must_drop_root e ws (sa_official app) = must_drop_root e ws false ->
   exists s, deploy_security (wired e) app = Ok s /\ sc_cap_add s = sa_add app /\ sc_devices s = sa_devices app
     /\ (sa_run_as_user app <> "" -> sc_user s = sa_run_as_user app))
  /\ (forall r s, security_of (wired e) app r = Ok s -> sc_cap_add s <> [] \/ sc_devices s <> [] ->
      may_hold e ws (tier_max (highest_capability_tier (sc_cap_add s)) (highest_device_tier (sc_devices s)))).
Proof.
  intros ws. split; [|apply granted_may_hold].
  intros Hadd%valid_capabilities_hold Hdev%valid_devices_hold Hu Hoff.
  destruct (resolver_base e ws (sa_official app)) as (Hb1 & Hb2 & Hb3).
  destruct (run_as_accepted _ _ _ _ _ (security_resolver e ws (sa_official app)) Hu Hoff Hb3) as (s1 & Hrun & Huser).
  pose proof Hrun as (_ & _ & Ha1 & Hd1 & Hr1 & _)%with_run_as_user_ok.
  unfold deploy_security, workload_security, workload_security_for, container_security_for. cbn [wired rb_security].
  fold ws. rewrite Hrun. cbn [rbind].
  destruct (decide (sa_add app = [] /\ sa_devices app = [])) as [[Ha Hv]|Hne].
  { rewrite (proj2 (with_grants_spec e ws s1 app s1 eq_refl)) by (by left). cbn [rbind]. eexists. split; [done|].
    cbn. split_and!; [congruence..|done]. }
  assert (Hmay : may_hold e ws TierCommon)
    by (destruct Hadd as [?|?%may_hold_common]; [|done]; destruct Hdev as [?|?%may_hold_common]; tauto).
  erewrite (proj2 (with_grants_spec e ws s1 app _ eq_refl)).
  2: { right. split_and!; [|..|reflexivity].
    - destruct (sa_add app); [right|by left]. tauto.
    - rewrite Hr1. destruct (sc_restricted _); [|done]. destruct Hmay as (_ & Hf & _). by rewrite Hb3 in Hf.
    - destruct Hadd as [->|?]; done.
    - destruct Hdev as [->|?]; done. }
  cbn [rbind]. eexists. split; [done|]. cbn. by split_and!.
Qed.

(** ** Witnesses *)

(** A platform whose plan restricts workspace 7, and lets workspace 9, which has none, choose. *)
Definition demo_exempting_plan : plan :=
  Plan 1 "small" true true 3 1 0 5 5 5 5 5 2 1024 1024 (-1) 1 0 (-1) (-1)
    true false true false false true true false false true 500 256 true "restricted" true
    no_placement [] [] "" [].
Definition demo_env : grant_env :=
  GrantEnv true 10001 (Some (QuotaService true (Some (fun _ => true)) false None f64_zero true))
    (QuotaDB [demo_exempting_plan] {[ 7%N := 1%N ]} ∅ [] [] [] (fun q => match q with QDefault => true | _ => false end))
    (fun ws => Some (GrantWorkspace (9 =? ws)%N false)).
Definition demo_secured (ws : N) (adds devs : list string) : secured_app :=
  SecuredApp ws false "" adds [] devs false true "nginx".

Lemma restricted_container_confined_witness :
  let s := Security "1000" true ["NET_RAW"] [] [] false true in
  security_of (wired demo_env) (demo_secured 7 [] []) (RunJob (SecuredJob "busybox" "1000")) = Ok s
  /\ "NET_RAW" ∈ hc_cap_drop (apply_container_security s).
Proof.
  split; [by vm_compute|].
  apply (restricted_container_confined demo_env (demo_secured 7 [] []) (RunJob (SecuredJob "busybox" "1000"))
    (Security "1000" true ["NET_RAW"] [] [] false true)); [cbn; unfold max_int64; lia|by vm_compute|by vm_compute].
Defined.

(** The write gate grants an exempt template application the root user; its containers then never start. *)
Lemma exempt_root_never_starts :
  let app := SecuredApp 7 true "0" [] [] [] false false "nginx" in
  valid_run_as_user demo_env 7 "0" true = Ok "0" /\ deploy_security (wired demo_env) app = Err (ErrRunAsUserForbidden "0").
Proof. split; by vm_compute. Qed.
