(* ===== verification/SecPolicy.v ===== *)
(** * Platform security policies

    [internal/services/secpolicy]: the rules an administrator stores per scope ([policy.go]), which of them
    governs a workspace and how they are written ([service.go]), what the host-port rule lets a request
    and a deploy do ([ports.go]), and the console's unlock rule ([adminaccess.go]); with the queries of
    [security_policy_repo.go]. The spec column is the value its JSON text decodes to ([None] when it does
    not decode; the empty text is the empty object). The Redis message that drops other processes' caches is
    a step of theirs ([invalidate]); audit entries repeat the events and are left out. *)
From S2P Require Import Prelude GoStrings GoTime GoText.
#[local] Open Scope Z_scope.
#[local] Open Scope list_scope.

(** ** Rules *)

Definition kind_ports : string := "ports".
Definition kind_policy : string := "policy".
Definition kind_admin_access : string := "admin_access".
Definition mode_off : string := "off".
Definition mode_audit : string := "audit".
Definition mode_enforce : string := "enforce".
Definition scope_platform : string := "platform".
Definition scope_plan : string := "plan".
Definition scope_organization : string := "organization".
Definition scope_workspace : string := "workspace".
Definition decision_deny : string := "deny".
Definition decision_would_deny : string := "would_deny".
Definition decision_change : string := "change".
Definition ports_approval : string := "approval".
Definition ports_auto_approve_in_range : string := "auto_approve_in_range".
Definition ports_reject_all : string := "reject_all".
Definition existing_keep : string := "keep".
Definition existing_report : string := "report".
Definition existing_revoke : string := "revoke".
Definition spec_version : Z := 1.
Definition max_port_number : Z := 65535.
Definition cache_ttl : duration := 30 * second.

Inductive sec_err := ErrInvalidSpec | ErrLoosens | ErrNotFound | ErrDB.

Record port_range := PortRange { rg_from : Z; rg_to : Z; rg_protocols : list string }.
Definition range_contains (r : port_range) (port : Z) (proto : string) : bool :=
  if (port <? rg_from r) || (rg_to r <? port) then false
  else match rg_protocols r with [] => true | ps => bool_decide (proto ∈ ps) end.

Record ports_spec := PortsSpec {
  ps_v : Z; ps_mode : string; ps_ranges : list port_range; ps_bind : string;
  ps_bypass : option bool; ps_existing : string }.
Definition empty_ports_spec : ports_spec := PortsSpec 0 "" [] "" None "".
Definition privileged_bypass (s : ports_spec) : bool := default true (ps_bypass s).

Definition known_port_modes : list string := [ports_approval; ports_auto_approve_in_range; ports_reject_all].
Definition known_existing : list string := [existing_keep; existing_report; existing_revoke].
Definition range_valid (r : port_range) : bool :=
  negb ((rg_from r <? 1) || (max_port_number <? rg_to r) || (rg_to r <? rg_from r))
  && forallb (fun p => String.eqb p "tcp" || String.eqb p "udp") (rg_protocols r).

(** [ParsePortsSpec], of the decoded text *)
Definition parse_ports_spec (raw : option ports_spec) : result sec_err ports_spec :=
  match raw with
  | None => Err ErrInvalidSpec
  | Some s =>
      let v := if ps_v s =? 0 then spec_version else ps_v s in
      let mode := if String.eqb (ps_mode s) "" then ports_approval else ps_mode s in
      let existing := if String.eqb (ps_existing s) "" then existing_keep else ps_existing s in
      if negb (v =? spec_version) then Err ErrInvalidSpec
      else if negb (bool_decide (mode ∈ known_port_modes)) then Err ErrInvalidSpec
      else if negb (bool_decide (existing ∈ known_existing)) then Err ErrInvalidSpec
      else if negb (forallb range_valid (ps_ranges s)) then Err ErrInvalidSpec
      else if String.eqb mode ports_auto_approve_in_range && (match ps_ranges s with [] => true | _ => false end) then Err ErrInvalidSpec
      else if negb (String.eqb (ps_bind s) "") && (match parse_addr (ps_bind s) with None => true | Some _ => false end) then Err ErrInvalidSpec
      else Ok (PortsSpec v mode (ps_ranges s) (ps_bind s) (ps_bypass s) existing)
  end.

Definition mode_rank (m : string) : Z :=
  if String.eqb m mode_enforce then 2 else if String.eqb m mode_audit then 1 else 0.
Definition ports_mode_rank (m : string) : Z :=
  if String.eqb m ports_reject_all then 2 else if String.eqb m ports_approval then 1 else 0.

Definition range_covered (r : port_range) (base : list port_range) : bool :=
  let protos := match rg_protocols r with [] => ["tcp"; "udp"] | ps => ps end in
  forallb (fun p => forallb (fun port => existsb (fun b => range_contains b port p) base)
                      (seqZ (rg_from r) (rg_to r - rg_from r + 1))) protos.

Definition ports_loosens (base_mode : string) (base : ports_spec) (narrow_mode : string) (narrow : ports_spec) : bool :=
  if mode_rank narrow_mode <? mode_rank base_mode then true
  else if ports_mode_rank (ps_mode narrow) <? ports_mode_rank (ps_mode base) then true
  else if negb (privileged_bypass base) && privileged_bypass narrow then true
  else if negb (String.eqb (ps_bind base) "") && negb (String.eqb (ps_bind narrow) (ps_bind base)) then true
  else if String.eqb (ps_mode base) ports_auto_approve_in_range && String.eqb (ps_mode narrow) ports_auto_approve_in_range
  then negb (forallb (fun r => range_covered r (ps_ranges base)) (ps_ranges narrow))
  else false.

(** [ValidScope], [ValidMode], [scopeLabel] *)
Definition valid_scope (scope : string) (id : N) : bool :=
  if String.eqb scope scope_platform then (id =? 0)%N
  else if String.eqb scope scope_plan || String.eqb scope scope_organization || String.eqb scope scope_workspace
  then negb (id =? 0)%N
  else false.
Definition valid_mode (m : string) : bool := String.eqb m mode_off || String.eqb m mode_audit || String.eqb m mode_enforce.
Definition scope_label (scope : string) (id : N) : string :=
  if String.eqb scope scope_platform then scope_platform else scope +:+ ":" +:+ itoa (Z.of_N id).

(** ** The console's unlock rule *)

Definition factor_totp : string := "totp".

Record admin_spec := AdminSpec {
  as_v : Z; as_required : bool; as_factors : list string; as_ttl : string; as_idle : string;
  as_window : string; as_attempts : Z; as_lockout : string; as_ips : list string }.
Definition empty_admin_spec : admin_spec := AdminSpec 0 false [] "" "" "" 0 "" [].

Record admin_access := AdminAccess {
  aa_required : bool; aa_ttl : duration; aa_idle : duration; aa_window : duration; aa_attempts : Z;
  aa_lockout : duration; aa_ips : list net_prefix }.
Definition default_admin_access : admin_access := AdminAccess true (30 * minute) (10 * minute) (5 * minute) 5 (15 * minute) [].

(** A stated duration within [1m, 24h], or the default. *)
Definition bounded_duration (raw : string) (dflt : duration) : result sec_err duration :=
  if String.eqb raw "" then Ok dflt
  else match parse_duration raw with
       | Some v => if (v <? minute) || (24 * 60 * minute <? v) then Err ErrInvalidSpec else Ok v
       | None => Err ErrInvalidSpec
       end.

Definition parse_prefix (s : string) : option net_prefix :=
  let s := trim_space s in
  if contains "/" s then parse_net_prefix s
  else match parse_addr s with
       | Some a => Some (NetPrefix (match a with IP6 v _ => IP6 v "" | _ => a end) (addr_bits a))
       | None => None
       end.
Fixpoint parse_prefixes (ips : list string) : option (list net_prefix) :=
  match ips with
  | [] => Some []
  | ip :: ips => p ← parse_prefix ip; ps ← parse_prefixes ips; Some (p :: ps)
  end.

Definition stated_factors (l : list string) : list string := match l with [] => [factor_totp] | fs => fs end.

(** [ParseAdminAccessSpec], of the decoded text *)
Definition parse_admin_access_spec (raw : option admin_spec) : result sec_err (admin_spec * admin_access) :=
  match raw with
  | None => Err ErrInvalidSpec
  | Some s =>
      let d := default_admin_access in
      let v := if as_v s =? 0 then 1 else as_v s in
      let factors := stated_factors (as_factors s) in
      if negb (v =? 1) then Err ErrInvalidSpec
      else if negb (forallb (fun f => String.eqb f factor_totp) factors) then Err ErrInvalidSpec
      else let? ttl := bounded_duration (as_ttl s) (aa_ttl d) in
           let? idle := bounded_duration (as_idle s) (aa_idle d) in
           let? window := bounded_duration (as_window s) (aa_window d) in
           let? lockout := bounded_duration (as_lockout s) (aa_lockout d) in
           if ttl <? idle then Err ErrInvalidSpec
           else if (as_attempts s <? 0) || (50 <? as_attempts s) then Err ErrInvalidSpec
           else match parse_prefixes (as_ips s) with
                | None => Err ErrInvalidSpec
                | Some ips =>
                    Ok (AdminSpec v (as_required s) factors (as_ttl s) (as_idle s) (as_window s) (as_attempts s)
                          (as_lockout s) (as_ips s),
                        AdminAccess (as_required s) ttl idle window
                          (if 0 <? as_attempts s then as_attempts s else aa_attempts d) lockout ips)
                end
  end.

(** ** The tables *)

(** A spec column, as each kind's code decodes it; a row is only read as its own kind. *)
Record spec_text := SpecText { tx_ports : option ports_spec; tx_admin : option admin_spec }.
Definition empty_text : spec_text := SpecText (Some empty_ports_spec) (Some empty_admin_spec).
Definition encode_ports (s : ports_spec) : spec_text := SpecText (Some s) None.
Definition encode_admin (s : admin_spec) : spec_text := SpecText None (Some s).

Record policy := Policy {
  pl_id : N; pl_kind : string; pl_scope : string; pl_scope_id : N; pl_mode : string; pl_exceptions : bool;
  pl_spec : spec_text; pl_version : Z; pl_updated_by : option N; pl_updated_at : instant }.

Record security_event := SecurityEvent {
  ev_kind : string; ev_action : string; ev_decision : string; ev_user : option N; ev_workspace : option N;
  ev_resource : string; ev_policy : option N; ev_scope : string; ev_reason : string }.

Inductive sec_query := QListByKind | QFindScope | QFindByID | QSave | QDelete | QCreateEvent.

(** The edition, the kill switch, the workspaces' plan and organization ([None]: not wired), and the queries
    that fail. *)
Record sec_env := SecEnv {
  se_enabled : bool; se_entitled : bool; se_workspaces : option (N -> option (option N * option N));
  se_fails : sec_query -> bool }.

(** The rows in the order of their ids, this process's cache, and the events recorded so far. *)
Record sec_state := SecState {
  ss_rows : list policy; ss_cache : gmap string (list policy * instant); ss_events : list security_event }.

Definition of_scope (scope : string) (id : N) (p : policy) : bool := String.eqb (pl_scope p) scope && (pl_scope_id p =? id)%N.
Definition list_by_kind (kind : string) (st : sec_state) : list policy := List.filter (fun p => String.eqb (pl_kind p) kind) (ss_rows st).
Definition find_scope (kind scope : string) (id : N) (st : sec_state) : option policy :=
  find_first (fun p => String.eqb (pl_kind p) kind && of_scope scope id p) (ss_rows st).
Definition find_policy (id : N) (st : sec_state) : option policy := find_first (fun p => (pl_id p =? id)%N) (ss_rows st).
Definition opt_uint (n : N) : option N := if (n =? 0)%N then None else Some n.

Definition loosens (base narrow : policy) : bool :=
  if String.eqb (pl_kind base) kind_ports then
    match parse_ports_spec (tx_ports (pl_spec base)), parse_ports_spec (tx_ports (pl_spec narrow)) with
    | Ok b, Ok n => ports_loosens (pl_mode base) b (pl_mode narrow) n
    | _, _ => true
    end
  else mode_rank (pl_mode narrow) <? mode_rank (pl_mode base).

Definition find_rule (rows : list policy) (scope : string) (id : N) : option policy :=
  if negb (String.eqb scope scope_platform) && (id =? 0)%N then None else find_first (of_scope scope id) rows.

(** [resolve]: the most specific rule, or the platform's when that one would loosen it *)
Definition resolve (rows : list policy) (ws plan org : N) : option policy :=
  let platform := find_rule rows scope_platform 0 in
  match foldr (fun '(scope, id) rest => match find_rule rows scope id with Some p => Some p | None => rest end) None
          [(scope_workspace, ws); (scope_organization, org); (scope_plan, plan)] with
  | Some p =>
      match platform with
      | Some base => if negb (pl_exceptions base) && loosens base p then platform else Some p
      | None => Some p
      end
  | None => platform
  end.

(** ** What a host-port rule lets through *)

Record port_request := PortRequest {
  rq_workspace : N; rq_user : N; rq_host_port : Z; rq_protocol : string; rq_privileged : bool;
  rq_action : string; rq_resource : string }.
Record port_decision := PortDecision { pd_allowed : bool; pd_auto : bool; pd_note : string; pd_reason : string }.

Definition privileged_note : string := "Auto-approved (privileged workspace)".
Definition ports_denied : string := "host ports are disabled by platform policy".

Definition default_port_decision (privileged : bool) : port_decision :=
  PortDecision true privileged (if privileged then privileged_note else "") "".

Definition decide_port_request (mode : string) (spec : ports_spec) (rq : port_request) : port_decision * string :=
  let proto := if String.eqb (rq_protocol rq) "udp" then "udp" else "tcp" in
  if String.eqb (ps_mode spec) ports_reject_all then
    if String.eqb mode mode_audit then (default_port_decision (rq_privileged rq), ports_denied)
    else (PortDecision false false "" ports_denied, ports_denied)
  else if String.eqb mode mode_audit then (default_port_decision (rq_privileged rq), "")
  else
    let in_range := if String.eqb (ps_mode spec) ports_auto_approve_in_range && negb (rq_host_port rq =? 0)
                    then find_first (fun r => range_contains r (rq_host_port rq) proto) (ps_ranges spec) else None in
    match in_range with
    | Some r =>
        (PortDecision true true
           ("Auto-approved (within " +:+ itoa (rg_from r) +:+ "-" +:+ itoa (rg_to r) +:+ " by platform policy)") "", "")
    | None =>
        if rq_privileged rq && privileged_bypass spec then (PortDecision true true privileged_note "", "")
        else (PortDecision true false "" "", "")
    end.

(** [models.PortBinding] *)
Inductive binding_status := BindingPending | BindingApproved | BindingRejected.
#[export] Instance binding_status_eq_dec : EqDecision binding_status.
Proof. solve_decision. Defined.
Record port_binding := PortBinding {
  pb_id : N; pb_workspace : N; pb_app : N; pb_container_port : Z; pb_protocol : string; pb_host_port : Z;
  pb_status : binding_status; pb_server : N; pb_requested_by : N; pb_reviewed_by : option N; pb_note : string;
  pb_adopted : bool; pb_created_at : instant; pb_updated_at : instant }.

Record publish_decision := PublishDecision { ud_allowed : bool; ud_bind : string; ud_reason : string }.

Definition grandfathered (spec : ports_spec) (policy_at : instant) (b : port_binding) : bool :=
  negb (String.eqb (ps_existing spec) existing_revoke) && negb (time_before policy_at (pb_updated_at b)).

Definition decide_publish (mode : string) (spec : ports_spec) (policy_at : instant) (b : port_binding)
    : publish_decision * string :=
  if pb_adopted b then (PublishDecision true (if String.eqb mode mode_audit then "" else ps_bind spec) "", "")
  else if String.eqb mode mode_audit then
    (PublishDecision true "" "",
     if String.eqb (ps_mode spec) ports_reject_all && negb (grandfathered spec policy_at b)
     then "would not publish: host ports are disabled by platform policy" else "")
  else if String.eqb (ps_mode spec) ports_reject_all && negb (grandfathered spec policy_at b) then
    let reason := "host port " +:+ itoa (pb_host_port b) +:+ "/" +:+ pb_protocol b
                  +:+ " not published: host ports are disabled by platform policy" in
    (PublishDecision false "" reason, reason)
  else (PublishDecision true (ps_bind spec) "", "").

(** ** The service *)

Section Service.
Context (e : sec_env).

Definition active : bool := se_enabled e && se_entitled e.

Definition record_event (ev : security_event) (st : sec_state) : sec_state :=
  if se_fails e QCreateEvent then st else SecState (ss_rows st) (ss_cache st) (ss_events st ++ [ev]).

(** [invalidate]; [announce] runs it here and, through Redis, in the other processes. *)
Definition invalidate (kind : string) (st : sec_state) : sec_state :=
  SecState (ss_rows st) (if String.eqb kind "" then ∅ else delete kind (ss_cache st)) (ss_events st).

(** [rows]; one clock reading stands for the two around the query. *)
Definition cached_rows (kind : string) (now : instant) (st : sec_state) : sec_state * result sec_err (list policy) :=
  match ss_cache st !! kind with
  | Some (rows, at_) => if now - at_ <? cache_ttl then (st, Ok rows) else
      if se_fails e QListByKind then (st, Err ErrDB)
      else let rows := list_by_kind kind st in
           (SecState (ss_rows st) (<[kind := (rows, now)]> (ss_cache st)) (ss_events st), Ok rows)
  | None =>
      if se_fails e QListByKind then (st, Err ErrDB)
      else let rows := list_by_kind kind st in
           (SecState (ss_rows st) (<[kind := (rows, now)]> (ss_cache st)) (ss_events st), Ok rows)
  end.

(** The plan and organization [effective] reads of a workspace; 0 when there is none. *)
Definition plan_and_org (ws : N) : N * N :=
  if (ws =? 0)%N then (0%N, 0%N)
  else match se_workspaces e ≫= fun find => find ws with
       | Some (plan, org) => (default 0%N plan, default 0%N org)
       | None => (0%N, 0%N)
       end.

Definition effective (kind : string) (ws : N) (now : instant) (st : sec_state) : sec_state * result sec_err (option policy) :=
  let '(st, r) := cached_rows kind now st in
  (st, let? rows := r in
       match rows with
       | [] => Ok None
       | _ => let '(plan, org) := plan_and_org ws in Ok (resolve rows ws plan org)
       end).

(** The rule in force and its spec: none when the service is off, the rule cannot be read or resolved, is off,
    or does not parse; each then means the behaviour without rules. *)
Definition ports_rule (ws : N) (now : instant) (st : sec_state) : sec_state * option (policy * ports_spec) :=
  if negb active then (st, None)
  else let '(st, r) := effective kind_ports ws now st in
       (st, match r with
            | Ok (Some pol) =>
                if String.eqb (pl_mode pol) mode_off then None
                else match parse_ports_spec (tx_ports (pl_spec pol)) with Ok spec => Some (pol, spec) | Err _ => None end
            | _ => None
            end).

Definition port_event (action : string) (pol : policy) (user ws : N) (resource reason : string) : security_event :=
  SecurityEvent kind_ports action (if String.eqb (pl_mode pol) mode_audit then decision_would_deny else decision_deny)
    (opt_uint user) (opt_uint ws) resource (Some (pl_id pol)) (scope_label (pl_scope pol) (pl_scope_id pol)) reason.

Definition check_port_request (rq : port_request) (now : instant) (st : sec_state) : sec_state * port_decision :=
  let '(st, rule) := ports_rule (rq_workspace rq) now st in
  match rule with
  | None => (st, default_port_decision (rq_privileged rq))
  | Some (pol, spec) =>
      let '(d, denied) := decide_port_request (pl_mode pol) spec rq in
      (if String.eqb denied "" then st
       else record_event (port_event (rq_action rq) pol (rq_user rq) (rq_workspace rq) (rq_resource rq) denied) st, d)
  end.

Definition check_port_publish (ws : N) (b : port_binding) (resource : string) (now : instant) (st : sec_state)
    : sec_state * publish_decision :=
  let '(st, rule) := ports_rule ws now st in
  match rule with
  | None => (st, PublishDecision true "" "")
  | Some (pol, spec) =>
      let '(d, denied) := decide_publish (pl_mode pol) spec (pl_updated_at pol) b in
      (if String.eqb denied "" then st else record_event (port_event "publish" pol 0 ws resource denied) st, d)
  end.

(** [PortsView]: whether requests are allowed, the mode, the ranges and the reason a workspace sees *)
Record ports_view := PortsView { pv_allowed : bool; pv_mode : string; pv_ranges : list port_range; pv_reason : string }.
Definition view_ports (ws : N) (now : instant) (st : sec_state) : sec_state * ports_view :=
  let plain := PortsView true ports_approval [] "" in
  let '(st, rule) := ports_rule ws now st in
  (st, match rule with
       | Some (pol, spec) =>
           if negb (String.eqb (pl_mode pol) mode_enforce) then plain
           else if String.eqb (ps_mode spec) ports_reject_all then PortsView false (ps_mode spec) [] ports_denied
           else if String.eqb (ps_mode spec) ports_auto_approve_in_range then PortsView true (ps_mode spec) (ps_ranges spec) ""
           else PortsView true (ps_mode spec) [] ""
       | None => plain
       end).

(** [PlatformPorts] *)
Definition platform_ports (st : sec_state) : option policy * option ports_spec :=
  if se_fails e QFindScope then (None, None)
  else match find_scope kind_ports scope_platform 0 st with
       | None => (None, None)
       | Some p => (Some p, match parse_ports_spec (tx_ports (pl_spec p)) with Ok s => Some s | Err _ => None end)
       end.

(** [AdminAccessPolicy]: the first enforced platform rule, when it parses *)
Definition admin_access_policy (now : instant) (st : sec_state) : sec_state * option admin_access :=
  if negb active then (st, None)
  else let '(st, r) := cached_rows kind_admin_access now st in
       (st, match r with
            | Err _ => None
            | Ok rows =>
                match find_first (fun p => String.eqb (pl_scope p) scope_platform && String.eqb (pl_mode p) mode_enforce) rows with
                | Some p => match parse_admin_access_spec (tx_admin (pl_spec p)) with Ok (_, a) => Some a | Err _ => None end
                | None => None
                end
            end).

(** *** Writing rules *)

Record save_input := SaveInput {
  sv_kind : string; sv_scope : string; sv_scope_id : N; sv_mode : string; sv_exceptions : bool; sv_spec : spec_text }.

Definition normalize_spec (kind : string) (raw : spec_text) : result sec_err spec_text :=
  if String.eqb kind kind_ports then let? spec := parse_ports_spec (tx_ports raw) in Ok (encode_ports spec)
  else if String.eqb kind kind_admin_access then let? spec := parse_admin_access_spec (tx_admin raw) in Ok (encode_admin spec.1)
  else Err ErrInvalidSpec.

Definition fresh_id (rows : list policy) : N := N.succ (foldr N.max 0%N (pl_id <$> rows)).

(** [repo.Save]: a row without an id is inserted, its version defaulting to 1; another is replaced. *)
Definition store_policy (p : policy) (now : instant) (st : sec_state) : policy * sec_state :=
  if (pl_id p =? 0)%N then
    let p := Policy (fresh_id (ss_rows st)) (pl_kind p) (pl_scope p) (pl_scope_id p) (pl_mode p) (pl_exceptions p)
               (pl_spec p) (if pl_version p =? 0 then 1 else pl_version p) (pl_updated_by p) now in
    (p, SecState (ss_rows st ++ [p]) (ss_cache st) (ss_events st))
  else
    let p := Policy (pl_id p) (pl_kind p) (pl_scope p) (pl_scope_id p) (pl_mode p) (pl_exceptions p)
               (pl_spec p) (pl_version p) (pl_updated_by p) now in
    (p, SecState ((fun q => if (pl_id q =? pl_id p)%N then p else q) <$> ss_rows st) (ss_cache st) (ss_events st)).

Definition change_event (actor : N) (p : policy) (op : string) : security_event :=
  let scope := scope_label (pl_scope p) (pl_scope_id p) in
  SecurityEvent kind_policy op decision_change (Some actor) None (pl_kind p) (Some (pl_id p)) scope
    (pl_kind p +:+ " policy " +:+ op +:+ " at " +:+ scope +:+ " (mode " +:+ pl_mode p +:+ ")").

Definition save (actor : N) (i : save_input) (now : instant) (st : sec_state) : sec_state * result sec_err policy :=
  if negb (valid_scope (sv_scope i) (sv_scope_id i)) || negb (valid_mode (sv_mode i)) then (st, Err ErrInvalidSpec)
  else match normalize_spec (sv_kind i) (sv_spec i) with
       | Err err => (st, Err err)
       | Ok spec =>
           let platform := String.eqb (sv_scope i) scope_platform in
           if String.eqb (sv_kind i) kind_admin_access && (negb platform || String.eqb (sv_mode i) mode_audit)
           then (st, Err ErrInvalidSpec)
           else if negb platform && sv_exceptions i then (st, Err ErrInvalidSpec)
           else
             let next := Policy 0 (sv_kind i) (sv_scope i) (sv_scope_id i) (sv_mode i) (sv_exceptions i) spec 0 None 0 in
             let base := if platform || se_fails e QFindScope then None else find_scope (sv_kind i) scope_platform 0 st in
             if match base with Some b => negb (pl_exceptions b) && loosens b next | None => false end
             then (st, Err ErrLoosens)
             else if se_fails e QFindScope then (st, Err ErrDB)
             else
               let row := match find_scope (sv_kind i) (sv_scope i) (sv_scope_id i) st with
                          | None => next
                          | Some r => Policy (pl_id r) (pl_kind r) (pl_scope r) (pl_scope_id r) (sv_mode i) (sv_exceptions i)
                                        spec (wrap64 (pl_version r + 1)) (pl_updated_by r) (pl_updated_at r)
                          end in
               let row := Policy (pl_id row) (pl_kind row) (pl_scope row) (pl_scope_id row) (pl_mode row)
                            (pl_exceptions row) (pl_spec row) (pl_version row) (Some actor) (pl_updated_at row) in
               if se_fails e QSave then (st, Err ErrDB)
               else let '(row, st) := store_policy row now st in
                    (record_event (change_event actor row "save") (invalidate (sv_kind i) st), Ok row)
       end.

Definition delete_policy (actor id : N) (st : sec_state) : sec_state * result sec_err unit :=
  if se_fails e QFindByID then (st, Err ErrDB)
  else match find_policy id st with
       | None => (st, Err ErrNotFound)
       | Some row =>
           if se_fails e QDelete then (st, Err ErrDB)
           else
             let st := SecState (List.filter (fun p => negb (pl_id p =? id)%N) (ss_rows st)) (ss_cache st) (ss_events st) in
             (record_event (change_event actor row "delete") (invalidate (pl_kind row) st), Ok tt)
       end.
End Service.

(** * Facts *)

(** ** Specs *)

Lemma parse_ports_spec_ok raw s :
  parse_ports_spec raw = Ok s ->
  ps_v s = spec_version /\ ps_mode s ∈ known_port_modes /\ ps_existing s ∈ known_existing
  /\ forallb range_valid (ps_ranges s) = true /\ (ps_mode s = ports_auto_approve_in_range -> ps_ranges s <> [])
  /\ (ps_bind s <> "" -> parse_addr (ps_bind s) <> None).
Proof.
  unfold parse_ports_spec. intros H. destruct raw as [r|]; [|done].
  repeat match type of H with (if negb ?b then _ else _) = _ => destruct b eqn:?; cbn [negb] in H; [|done] end.
  destruct (String.eqb _ ports_auto_approve_in_range && _) eqn:E1; [done|].
  destruct (negb _ && _) eqn:E2; [done|]. go_inv. cbn in *. split_and!; try done.
  - intros Hm. apply String.eqb_eq in Hm. rewrite Hm in E1. by destruct (ps_ranges r).
  - intros Hb. apply String.eqb_neq in Hb. rewrite Hb in E2. by destruct (parse_addr (ps_bind r)).
Qed.

(** What is stored parses to itself. *)
Lemma parse_ports_spec_stable raw s : parse_ports_spec raw = Ok s -> parse_ports_spec (Some s) = Ok s.
Proof.
  intros (Hv & Hm & Hx & Hr & Hn & Hb)%parse_ports_spec_ok. unfold parse_ports_spec. rewrite Hv. cbn [Z.eqb spec_version negb].
  destruct (String.eqb_spec (ps_mode s) "") as [E|_].
  { rewrite E in Hm. exfalso. by apply (bool_decide_pack _) in Hm. }
  destruct (String.eqb_spec (ps_existing s) "") as [E|_].
  { rewrite E in Hx. exfalso. by apply (bool_decide_pack _) in Hx. }
  rewrite (bool_decide_eq_true_2 _ Hm), (bool_decide_eq_true_2 _ Hx), Hr. cbn [negb].
  destruct (String.eqb_spec (ps_mode s) ports_auto_approve_in_range) as [E|_]; cbn [andb].
  - specialize (Hn E). destruct (ps_ranges s) eqn:Er; [done|].
    destruct (String.eqb_spec (ps_bind s) "") as [Eb|Eb]; cbn [negb andb]; [by destruct s; cbn in *; subst|].
    specialize (Hb Eb). destruct (parse_addr _); [|done]. by destruct s; cbn in *; subst.
  - destruct (String.eqb_spec (ps_bind s) "") as [Eb|Eb]; cbn [negb andb]; [by destruct s; cbn in *; subst|].
    specialize (Hb Eb). destruct (parse_addr _); [|done]. by destruct s; cbn in *; subst.
Qed.

(** ** A narrower rule tightens *)

Lemma range_covered_contains r base port proto :
  range_covered r base = true -> range_contains r port proto = true -> proto = "tcp" \/ proto = "udp" ->
  existsb (fun b => range_contains b port proto) base = true.
Proof.
  unfold range_covered, range_contains at 2. intros Hc Hr Hp.
  destruct ((port <? rg_from r) || (rg_to r <? port)) eqn:Hb; [done|]. go_inv.
  rewrite forallb_forall in Hc. specialize (Hc proto). rewrite forallb_forall in Hc. apply Hc.
  - destruct (rg_protocols r); [by destruct Hp as [->| ->]; simpl; auto|]. apply list_elem_of_In. by apply bool_decide_eq_true in Hr.
  - apply list_elem_of_In, elem_of_seqZ. lia.
Qed.

Record tightens (bm : string) (b : ports_spec) (nm : string) (n : ports_spec) : Prop := {
  tg_mode : mode_rank bm <= mode_rank nm;
  tg_ports : ports_mode_rank (ps_mode b) <= ports_mode_rank (ps_mode n);
  tg_bypass : privileged_bypass n = true -> privileged_bypass b = true;
  tg_bind : ps_bind b <> "" -> ps_bind n = ps_bind b;
  tg_ranges : ps_mode b = ports_auto_approve_in_range -> ps_mode n = ports_auto_approve_in_range ->
    forall port proto r, r ∈ ps_ranges n -> range_contains r port proto = true -> proto = "tcp" \/ proto = "udp" ->
      existsb (fun r => range_contains r port proto) (ps_ranges b) = true }.

Lemma ports_loosens_false bm b nm n : ports_loosens bm b nm n = false -> tightens bm b nm n.
Proof.
  unfold ports_loosens. intros H.
  destruct (Z.ltb_spec (mode_rank nm) (mode_rank bm)); [done|].
  destruct (Z.ltb_spec (ports_mode_rank (ps_mode n)) (ports_mode_rank (ps_mode b))); [done|].
  destruct (negb (privileged_bypass b) && privileged_bypass n) eqn:Hb; [done|].
  destruct (negb (String.eqb (ps_bind b) "") && _) eqn:Hbind; [done|]. split; try done.
  - intros Hn. rewrite Hn in Hb. by destruct (privileged_bypass b).
  - intros Hne. apply String.eqb_neq in Hne. rewrite Hne in Hbind. cbn in Hbind. apply negb_false_iff in Hbind.
    by apply String.eqb_eq in Hbind.
  - intros Hbm Hnm port proto r Hr Hc Hp. rewrite Hbm, Hnm in H. cbn in H. apply negb_false_iff in H.
    rewrite forallb_forall in H. eapply range_covered_contains; [|done|done]. by apply H, list_elem_of_In.
Qed.

Lemma enforce_rank m : mode_rank mode_enforce <= mode_rank m -> m = mode_enforce.
Proof. unfold mode_rank. destruct (String.eqb_spec m mode_enforce); [done|]. cbn. destruct (String.eqb m mode_audit); lia. Qed.

Lemma ports_rank_cases m : m ∈ known_port_modes ->
  m = ports_reject_all /\ ports_mode_rank m = 2 \/ m = ports_approval /\ ports_mode_rank m = 1
  \/ m = ports_auto_approve_in_range /\ ports_mode_rank m = 0.
Proof. unfold known_port_modes. rewrite !elem_of_cons, elem_of_nil. intros [-> |[-> |[-> |[]]]]; auto. Qed.

(** Auto-approval by an enforced rule. *)
Lemma decide_auto spec rq :
  ps_mode spec <> ports_reject_all ->
  pd_auto (decide_port_request mode_enforce spec rq).1 = true <->
  (ps_mode spec = ports_auto_approve_in_range /\ rq_host_port rq <> 0 /\
     existsb (fun r => range_contains r (rq_host_port rq) (if String.eqb (rq_protocol rq) "udp" then "udp" else "tcp")) (ps_ranges spec) = true)
  \/ (rq_privileged rq = true /\ privileged_bypass spec = true).
Proof.
  intros Hm. unfold decide_port_request. apply String.eqb_neq in Hm. rewrite Hm. cbn [String.eqb mode_enforce mode_audit].
  set (proto := if String.eqb (rq_protocol rq) "udp" then _ else _).
  set (p := fun r => range_contains r (rq_host_port rq) proto).
  change (String.eqb mode_enforce mode_audit) with false. cbv iota.
  assert (Hex : if existsb p (ps_ranges spec) then exists r, find_first p (ps_ranges spec) = Some r
                else find_first p (ps_ranges spec) = None).
  { destruct (existsb p (ps_ranges spec)) eqn:He; [|by apply find_first_none, existsb_elem_false].
    destruct (find_first p (ps_ranges spec)) eqn:Hf; [eauto|].
    rewrite find_first_none, <- existsb_elem_false in Hf. congruence. }
  destruct (existsb p (ps_ranges spec)); [destruct Hex as [r Hex]|]; rewrite Hex;
    (destruct (String.eqb_spec (ps_mode spec) ports_auto_approve_in_range) as [Ea|Ea]);
    (destruct (Z.eqb_spec (rq_host_port rq) 0) as [Ez|Ez]); cbn [andb negb];
    destruct (rq_privileged rq), (privileged_bypass spec); cbn; intuition congruence.
Qed.

Lemma decide_allowed mode spec rq :
  pd_allowed (decide_port_request mode spec rq).1 = true <-> ps_mode spec <> ports_reject_all \/ mode = mode_audit.
Proof.
  unfold decide_port_request. destruct (String.eqb_spec (ps_mode spec) ports_reject_all), (String.eqb_spec mode mode_audit);
    cbn; [naive_solver..| |]; [naive_solver|].
  destruct (if _ && _ then _ else _); [naive_solver|]. destruct (rq_privileged rq && _); naive_solver.
Qed.

(** What an enforced base allows bounds what a rule that does not loosen it allows. *)
Section Tightening.
Context (b n : ports_spec) (nm : string).
Context (Hb : ps_mode b ∈ known_port_modes) (Hn : ps_mode n ∈ known_port_modes).
Context (Ht : tightens mode_enforce b nm n).

Lemma tight_mode : nm = mode_enforce.
Proof. apply enforce_rank, Ht. Qed.

Lemma tight_reject : ps_mode b = ports_reject_all -> ps_mode n = ports_reject_all.
Proof.
  intros E. pose proof (tg_ports _ _ _ _ Ht) as Hr. rewrite E in Hr. change (ports_mode_rank ports_reject_all) with 2 in Hr.
  destruct (ports_rank_cases _ Hn) as [[-> _]|[[_ ->]|[_ ->]]] in Hr |- *; [done|lia..].
Qed.

Lemma tight_allowed rq :
  pd_allowed (decide_port_request nm n rq).1 = true -> pd_allowed (decide_port_request mode_enforce b rq).1 = true.
Proof.
  rewrite tight_mode, !decide_allowed. intros [H|H]; [|done]. left. intros E. by apply H, tight_reject.
Qed.

Lemma tight_auto rq :
  pd_auto (decide_port_request nm n rq).1 = true -> pd_auto (decide_port_request mode_enforce b rq).1 = true.
Proof.
  rewrite tight_mode. intros Ha.
  assert (Hnr : ps_mode n <> ports_reject_all).
  { intros E. revert Ha. unfold decide_port_request. by rewrite E. }
  assert (Hbr : ps_mode b <> ports_reject_all) by (intros E; by apply Hnr, tight_reject).
  apply decide_auto in Ha; [|done]. apply decide_auto; [done|]. destruct Ha as [(Hm & Hz & He)|[Hp Hy]].
  - left. assert (Hbm : ps_mode b = ports_auto_approve_in_range).
    { pose proof (tg_ports _ _ _ _ Ht) as Hr. rewrite Hm in Hr. change (ports_mode_rank ports_auto_approve_in_range) with 0 in Hr.
      destruct (ports_rank_cases _ Hb) as [[_ E]|[[_ E]|[E _]]]; [lia..|done]. }
    split_and!; [done|done|]. apply existsb_elem in He as (r & Hr & Hc).
    eapply (tg_ranges _ _ _ _ Ht); [done|done|exact Hr|exact Hc|]. destruct (String.eqb _ _); auto.
  - right. split; [done|]. by apply (tg_bypass _ _ _ _ Ht).
Qed.

(** Publishing: the narrower rule lets more through only by sparing an earlier approval the base revokes. *)
Lemma tight_publish bat nat_ x :
  ud_allowed (decide_publish nm n nat_ x).1 = true ->
  (ud_allowed (decide_publish mode_enforce b bat x).1 = true
     /\ (ps_bind b <> "" -> ud_bind (decide_publish nm n nat_ x).1 = ud_bind (decide_publish mode_enforce b bat x).1))
  \/ (ps_mode b = ports_reject_all /\ grandfathered n nat_ x = true /\ grandfathered b bat x = false).
Proof.
  rewrite tight_mode. unfold decide_publish. change (String.eqb mode_enforce mode_audit) with false. cbv iota.
  pose proof tight_reject as Hrej. pose proof (tg_bind _ _ _ _ Ht) as Hbind.
  destruct (pb_adopted x); [by auto|].
  destruct (String.eqb_spec (ps_mode n) ports_reject_all) as [En|En],
    (String.eqb_spec (ps_mode b) ports_reject_all) as [Eb|Eb],
    (grandfathered n nat_ x) eqn:Gn, (grandfathered b bat x) eqn:Gb; cbn; intros H; try discriminate H; tauto.
Qed.
End Tightening.

(** ** Rules in force *)

Lemma find_rule_some rows scope id p :
  find_rule rows scope id = Some p -> p ∈ rows /\ pl_scope p = scope /\ pl_scope_id p = id.
Proof.
  unfold find_rule, of_scope. destruct (_ && _); [done|]. intros [Hin Hp]%find_first_some. go_inv.
  split; [done|]. split; [by apply String.eqb_eq|by apply N.eqb_eq].
Qed.

(** The rule in force is the platform's, or one that was asked whether it loosens the platform's. *)
Lemma resolve_cases rows ws plan org p :
  resolve rows ws plan org = Some p ->
  p ∈ rows /\ (find_rule rows scope_platform 0 = Some p \/
    forall base, find_rule rows scope_platform 0 = Some base -> pl_exceptions base = false -> loosens base p = false).
Proof.
  unfold resolve. cbn [foldr]. intros H.
  assert (Hspec : forall q, q ∈ rows ->
    match find_rule rows scope_platform 0 with
    | Some base => if negb (pl_exceptions base) && loosens base q then find_rule rows scope_platform 0 else Some q
    | None => Some q
    end = Some p -> p ∈ rows /\ (find_rule rows scope_platform 0 = Some p \/
      forall base, find_rule rows scope_platform 0 = Some base -> pl_exceptions base = false -> loosens base p = false)).
  { intros q Hq. destruct (find_rule rows scope_platform 0) as [base|] eqn:Hf; [|intros [= <-]; split; [done|by right]].
    destruct (negb (pl_exceptions base) && loosens base q) eqn:E; intros [= <-].
    - split; [by destruct (find_rule_some _ _ _ _ Hf)|by left].
    - split; [done|]. right. intros ? [= <-] Hx. by rewrite Hx in E. }
  destruct (find_rule rows scope_workspace ws) as [q|] eqn:E1;
    [apply find_rule_some in E1 as (Hin & _); exact (Hspec q Hin H)|].
  destruct (find_rule rows scope_organization org) as [q|] eqn:E2;
    [apply find_rule_some in E2 as (Hin & _); exact (Hspec q Hin H)|].
  destruct (find_rule rows scope_plan plan) as [q|] eqn:E3;
    [apply find_rule_some in E3 as (Hin & _); exact (Hspec q Hin H)|].
  split; [by destruct (find_rule_some _ _ _ _ H)|by left].
Qed.

(** ** Stored rules *)

Lemma parse_admin_stable raw s a : parse_admin_access_spec raw = Ok (s, a) -> parse_admin_access_spec (Some s) = Ok (s, a).
Proof.
  unfold parse_admin_access_spec. destruct raw as [r|]; [|done].
  destruct (negb ((if as_v r =? 0 then 1 else as_v r) =? 1)) eqn:Ev; [done|]. apply negb_false_iff, Z.eqb_eq in Ev.
  destruct (negb (forallb _ _)) eqn:Ef; [done|]. intros H.
  apply rbind_ok_inv in H as (ttl & Httl & H). apply rbind_ok_inv in H as (idle & Hidle & H).
  apply rbind_ok_inv in H as (window & Hw & H). apply rbind_ok_inv in H as (lockout & Hl & H).
  destruct (ttl <? idle) eqn:E1; [done|]. destruct ((as_attempts r <? 0) || _) eqn:E2; [done|].
  destruct (parse_prefixes (as_ips r)) as [ips|] eqn:Ei; [|done]. injection H as <- <-.
  cbn [as_v as_required as_factors as_ttl as_idle as_window as_attempts as_lockout as_ips].
  rewrite Ev. cbn [Z.eqb negb]. 
  assert (Hfs : stated_factors (stated_factors (as_factors r)) = stated_factors (as_factors r)) by by destruct (as_factors r).
  rewrite Hfs, Ef, Httl, Hidle, Hw, Hl. cbn [rbind]. by rewrite E1, E2, Ei.
Qed.

Definition rule_key (p : policy) : string * string * N := (pl_kind p, pl_scope p, pl_scope_id p).

(** A row as [Save] leaves it. *)
Record rule_ok (p : policy) : Prop := {
  ro_id : pl_id p <> 0%N;
  ro_scope : valid_scope (pl_scope p) (pl_scope_id p) = true;
  ro_mode : valid_mode (pl_mode p) = true;
  ro_spec : normalize_spec (pl_kind p) (pl_spec p) = Ok (pl_spec p);
  ro_exceptions : pl_exceptions p = true -> pl_scope p = scope_platform;
  ro_admin : pl_kind p = kind_admin_access -> pl_scope p = scope_platform /\ pl_mode p <> mode_audit }.

(** The unique index of the table, its key, and the rows. *)
Record rules_ok (st : sec_state) : Prop := {
  rs_ids : NoDup (pl_id <$> ss_rows st);
  rs_keys : NoDup (rule_key <$> ss_rows st);
  rs_rows : Forall rule_ok (ss_rows st) }.

Lemma normalize_spec_stable kind raw spec : normalize_spec kind raw = Ok spec -> normalize_spec kind spec = Ok spec.
Proof.
  unfold normalize_spec. destruct (String.eqb kind kind_ports).
  - intros H. apply rbind_ok_inv in H as (s & Hs & [= <-]). cbn [tx_ports encode_ports].
    by rewrite (parse_ports_spec_stable _ _ Hs).
  - destruct (String.eqb kind kind_admin_access); [|done].
    intros H. apply rbind_ok_inv in H as ([s a] & Hs & [= <-]). cbn [tx_admin encode_admin fst].
    by rewrite (parse_admin_stable _ _ _ Hs).
Qed.

Lemma fresh_id_new rows : ~ (fresh_id rows ∈ pl_id <$> rows) /\ fresh_id rows <> 0%N.
Proof.
  unfold fresh_id. split; [|lia]. set (m := foldr N.max 0%N (pl_id <$> rows)).
  assert (Hle : forall i, i ∈ pl_id <$> rows -> (i <= m)%N).
  { subst m. induction (pl_id <$> rows) as [|j l IH]; intros i Hi; [by inversion Hi|]. cbn [foldr].
    apply elem_of_cons in Hi as [->|Hi]; [lia|]. specialize (IH i Hi). lia. }
  intros Hin%Hle. lia.
Qed.

Lemma rules_ok_same st st' : ss_rows st' = ss_rows st -> rules_ok st -> rules_ok st'.
Proof. intros E [H1 H2 H3]. split; by rewrite E. Qed.

(** Inserting a row whose key is new, or replacing the row of the same id and key, keeps the table in order. *)
Lemma store_policy_ok p now st p' st' :
  rules_ok st -> store_policy p now st = (p', st') ->
  (pl_id p' <> 0%N -> rule_ok p') ->
  (pl_id p = 0%N -> rule_key p ∉ rule_key <$> ss_rows st) ->
  (pl_id p <> 0%N -> forall q, q ∈ ss_rows st -> pl_id q = pl_id p -> rule_key q = rule_key p) ->
  rules_ok st'.
Proof.
  intros [Hi Hk Hr] Hs Hok Hnew Hold. unfold store_policy in Hs. destruct (N.eqb_spec (pl_id p) 0) as [E|E].
  - injection Hs as <- <-. destruct (fresh_id_new (ss_rows st)) as [Hf Hf0]. split; cbn [ss_rows].
    + rewrite fmap_app. apply NoDup_app. split; [done|]. split; [|apply NoDup_singleton].
      intros x Hx Hx'. cbn in Hx'. apply list_elem_of_singleton in Hx'. by subst.
    + rewrite fmap_app. apply NoDup_app. split; [done|]. split; [|apply NoDup_singleton].
      intros x Hx Hx'. cbn in Hx'. apply list_elem_of_singleton in Hx'. subst. by apply (Hnew E).
    + apply Forall_app. split; [done|]. constructor; [by apply Hok|constructor].
  - injection Hs as <- <-. set (p' := Policy _ _ _ _ _ _ _ _ _ _) in *.
    assert (Hsame : forall {B} (f : policy -> B), (forall q, q ∈ ss_rows st -> pl_id q = pl_id p -> f p' = f q) ->
      (f <$> ((fun q => if (pl_id q =? pl_id p)%N then p' else q) <$> ss_rows st)) = (f <$> ss_rows st)).
    { intros B f Hf. rewrite <- list_fmap_compose. apply list_fmap_ext. intros i q Hq%list_elem_of_lookup_2. simpl.
      destruct (N.eqb_spec (pl_id q) (pl_id p)); [by apply Hf|done]. }
    split; cbn [ss_rows].
    + by rewrite Hsame.
    + rewrite Hsame; [done|]. intros q Hq Heq. by rewrite (Hold E q Hq Heq).
    + apply Forall_forall. intros q (q0 & -> & Hq0)%list_elem_of_fmap.
      destruct (N.eqb_spec (pl_id q0) (pl_id p)); [by apply Hok|]. rewrite Forall_forall in Hr. by apply Hr.
Qed.

Lemma record_event_rows e ev st : ss_rows (record_event e ev st) = ss_rows st.
Proof. unfold record_event. by destruct (se_fails e QCreateEvent). Qed.

Lemma find_scope_key kind scope id st :
  match find_scope kind scope id st with
  | Some r => r ∈ ss_rows st /\ rule_key r = (kind, scope, id)
  | None => (kind, scope, id) ∉ rule_key <$> ss_rows st
  end.
Proof.
  unfold find_scope, of_scope. destruct (find_first _ _) as [r|] eqn:Hf.
  - apply find_first_some in Hf as [Hin Hp]. go_inv. split; [done|]. unfold rule_key. repeat f_equal;
      [by apply String.eqb_eq|by apply String.eqb_eq|by apply N.eqb_eq].
  - intros (q & [= -> -> ->] & Hq)%list_elem_of_fmap. rewrite find_first_none in Hf. specialize (Hf q Hq).
    by rewrite !String.eqb_refl, N.eqb_refl in Hf.
Qed.

Lemma store_policy_row p now st p' st' :
  store_policy p now st = (p', st') ->
  pl_kind p' = pl_kind p /\ pl_scope p' = pl_scope p /\ pl_scope_id p' = pl_scope_id p /\ pl_mode p' = pl_mode p
  /\ pl_exceptions p' = pl_exceptions p /\ pl_spec p' = pl_spec p.
Proof. unfold store_policy. destruct (_ =? _)%N; intros [= <- <-]; by split_and!. Qed.

Lemma save_rules_ok e actor i now st : rules_ok st -> rules_ok (save e actor i now st).1.
Proof.
  intros Hok. unfold save. destruct (_ || _) eqn:Hv; [done|]. go_inv.
  destruct (normalize_spec _ _) as [spec|] eqn:Hsp; [|done]. apply normalize_spec_stable in Hsp.
  destruct (String.eqb _ kind_admin_access && _) eqn:Had; [done|]. destruct (negb _ && sv_exceptions i) eqn:Hex; [done|].
  destruct (match _ with Some b => _ | None => false end); [done|].
  destruct (se_fails e QFindScope); [done|]. pose proof (find_scope_key (sv_kind i) (sv_scope i) (sv_scope_id i) st) as Hf.
  destruct (se_fails e QSave); [done|].
  set (row := match find_scope _ _ _ _ with Some _ => _ | None => _ end).
  destruct (store_policy _ _ _) as [p' st'] eqn:Hs. cbn [fst].
  eapply rules_ok_same; [by rewrite record_event_rows|]. apply (rules_ok_same st'); [done|].
  assert (Hrow : rule_key row = (sv_kind i, sv_scope i, sv_scope_id i) /\ pl_mode row = sv_mode i
      /\ pl_exceptions row = sv_exceptions i /\ pl_spec row = spec
      /\ (pl_id row = 0%N -> (sv_kind i, sv_scope i, sv_scope_id i) ∉ rule_key <$> ss_rows st)
      /\ (pl_id row <> 0%N -> exists r, r ∈ ss_rows st /\ pl_id r = pl_id row /\ rule_key r = rule_key row)).
  { destruct Hok as [_ _ Hrows]. rewrite Forall_forall in Hrows. subst row.
    destruct (find_scope _ _ _ _) as [r|]; [|by split_and!]. destruct Hf as [Hin Hkey].
    split_and!; try done; [intros H0; by destruct (ro_id _ (Hrows r Hin))|]. intros _. by exists r. }
  destruct Hrow as (Hkey & Hm & He & Hspec & Hnew & Hold). clearbody row.
  pose proof (store_policy_row _ _ _ _ _ Hs) as Hp. cbn in Hp. destruct Hp as (Hpk & Hps & Hpi & Hpm & Hpe & Hpsp).
  injection Hkey as Hk1 Hk2 Hk3. rewrite Hk1 in Hpk. rewrite Hk2 in Hps. rewrite Hk3 in Hpi.
  eapply (store_policy_ok _ _ _ _ _ Hok Hs); cbn.
  - intros Hid. split; rewrite ?Hpk, ?Hps, ?Hpi, ?Hpm, ?Hpe, ?Hpsp, ?Hm, ?He, ?Hspec; [done..| |].
    + intros Hx. rewrite Hx in Hex. destruct (String.eqb_spec (sv_scope i) scope_platform); done.
    + intros Hka. rewrite Hka in Had. cbn in Had. go_inv.
      split; [by apply String.eqb_eq|by apply String.eqb_neq].
  - intros H0. unfold rule_key at 1. cbn. rewrite Hk1, Hk2, Hk3. by apply Hnew.
  - intros H0 q Hq Hqid. destruct (Hold H0) as (r & Hr & Hrid & Hrk). cut (q = r); [intros ->; exact Hrk|].
    destruct Hok as [Hids _ _]. apply list_elem_of_lookup_1 in Hq as [a Ha], Hr as [c Hc].
    assert (a = c); [|congruence]. apply (NoDup_lookup _ _ _ (pl_id q) Hids).
    + by rewrite list_lookup_fmap, Ha.
    + rewrite list_lookup_fmap, Hc. cbn. congruence.
Qed.

Lemma delete_rules_ok e actor id st : rules_ok st -> rules_ok (delete_policy e actor id st).1.
Proof.
  intros Hok. unfold delete_policy. destruct (se_fails e QFindByID); [done|]. destruct (find_policy id st) as [row|]; [|done].
  destruct (se_fails e QDelete); [done|]. cbn [fst]. set (st0 := SecState (List.filter _ _) _ _).
  eapply rules_ok_same; [by rewrite record_event_rows|]. apply (rules_ok_same st0); [done|].
  assert (Hsub : sublist (ss_rows st0) (ss_rows st)) by apply bfilter_sublist.
  destruct Hok as [Hi Hk Hr]. split.
  - eapply sublist_NoDup; [exact Hi|by apply fmap_sublist].
  - eapply sublist_NoDup; [exact Hk|by apply fmap_sublist].
  - rewrite Forall_forall in Hr |- *. intros q Hq. apply Hr. by eapply elem_of_sublist.
Qed.

(** A history of the service: writes, decisions (which fill the cache and record events), and the message
    that drops a cache, each with whatever queries fail. *)
Inductive policy_step (st : sec_state) : sec_state -> Prop :=
| StepSave e actor i now : policy_step st (save e actor i now st).1
| StepDelete e actor id : policy_step st (delete_policy e actor id st).1
| StepRequest e rq now : policy_step st (check_port_request e rq now st).1
| StepPublish e ws b resource now : policy_step st (check_port_publish e ws b resource now st).1
| StepView e ws now : policy_step st (view_ports e ws now st).1
| StepAdmin e now : policy_step st (admin_access_policy e now st).1
| StepInvalidate kind : policy_step st (invalidate kind st).

Lemma cached_rows_same e kind now st : ss_rows (cached_rows e kind now st).1 = ss_rows st.
Proof. unfold cached_rows. by repeat case_match. Qed.

Lemma ports_rule_same e ws now st : ss_rows (ports_rule e ws now st).1 = ss_rows st.
Proof.
  unfold ports_rule, effective. destruct (negb (active e)); [done|].
  pose proof (cached_rows_same e kind_ports now st) as H. by destruct (cached_rows e kind_ports now st).
Qed.

Lemma policy_step_ok st st' : policy_step st st' -> rules_ok st -> rules_ok st'.
Proof.
  intros [] Hok; [by apply save_rules_ok|by apply delete_rules_ok|..]; eapply rules_ok_same; try exact Hok; [| | | |done].
  - unfold check_port_request. pose proof (ports_rule_same e (rq_workspace rq) now st) as H.
    destruct (ports_rule _ _ _ _) as [st1 [[pol spec]|]]; [|done]. destruct (decide_port_request _ _ _) as [d denied].
    cbn. destruct (String.eqb denied ""); [done|]. by rewrite record_event_rows.
  - unfold check_port_publish. pose proof (ports_rule_same e ws now st) as H.
    destruct (ports_rule _ _ _ _) as [st1 [[pol spec]|]]; [|done]. destruct (decide_publish _ _ _ _) as [d denied].
    cbn. destruct (String.eqb denied ""); [done|]. by rewrite record_event_rows.
  - unfold view_ports. pose proof (ports_rule_same e ws now st) as H. by destruct (ports_rule _ _ _ _).
  - unfold admin_access_policy. destruct (negb (active e)); [done|].
    pose proof (cached_rows_same e kind_admin_access now st) as H. by destruct (cached_rows _ _ _ _).
Qed.

(** The durations and attempts of an unlock rule stay within the limits the service promises. *)
Lemma bounded_duration_range raw dflt d :
  minute <= dflt <= 24 * 60 * minute -> bounded_duration raw dflt = Ok d -> minute <= d <= 24 * 60 * minute.
Proof.
  unfold bounded_duration. intros Hd. destruct (String.eqb raw ""); [by intros [= <-]|].
  destruct (parse_duration raw) as [v|]; [|done]. destruct (_ || _) eqn:E; [done|]. intros [= <-]. go_inv. lia.
Qed.

(** * Claims *)

(** When the platform's enforced host-port rule allows no exceptions, whatever
    rule governs a workspace is enforced too, refuses every request the platform's refuses, auto-approves
    only what the platform's auto-approves, and publishes only what the platform's publishes, on its
    address; except a port approved earlier, which a narrower rule may spare although the platform's rule
    revokes it, or was written before the approval. *)
Lemma narrow_rules_only_tighten (rows : list policy) (ws plan org : N) (base pol : policy) (b : ports_spec) :
  find_rule rows scope_platform 0 = Some base -> pl_kind base = kind_ports -> pl_exceptions base = false ->
  pl_mode base = mode_enforce -> parse_ports_spec (tx_ports (pl_spec base)) = Ok b ->
  resolve rows ws plan org = Some pol ->
  exists n, parse_ports_spec (tx_ports (pl_spec pol)) = Ok n /\ pl_mode pol = mode_enforce
  /\ (forall rq, let d := (decide_port_request (pl_mode pol) n rq).1 in
                 let d0 := (decide_port_request (pl_mode base) b rq).1 in
        (pd_allowed d = true -> pd_allowed d0 = true) /\ (pd_auto d = true -> pd_auto d0 = true))
  /\ (forall x, let u := (decide_publish (pl_mode pol) n (pl_updated_at pol) x).1 in
                let u0 := (decide_publish (pl_mode base) b (pl_updated_at base) x).1 in
        ud_allowed u = true ->
        (ud_allowed u0 = true /\ (ps_bind b <> "" -> ud_bind u = ud_bind u0))
        \/ (ps_mode b = ports_reject_all /\ grandfathered n (pl_updated_at pol) x = true
            /\ grandfathered b (pl_updated_at base) x = false)).
Proof.
  intros Hbase Hkind Hx Hm Hb Hr. apply resolve_cases in Hr as [_ [Hp|Hl]].
  { rewrite Hbase in Hp. injection Hp as <-. exists b. rewrite Hm. cbv zeta. split_and!; auto. }
  specialize (Hl base Hbase Hx). unfold loosens in Hl. rewrite Hkind, Hb in Hl. cbn in Hl.
  destruct (parse_ports_spec (tx_ports (pl_spec pol))) as [n|] eqn:Hn; [|done]. exists n.
  rewrite Hm in Hl |- *. apply ports_loosens_false in Hl.
  apply parse_ports_spec_ok in Hb as (_ & Hbm & _), Hn as (_ & Hnm & _). cbv zeta. split_and!; [done|by eapply tight_mode| |].
  - intros rq. split; [by apply tight_allowed|by apply tight_auto].
  - intros x. by apply tight_publish.
Qed.

(** Whatever is written, deleted, decided and invalidated, in whatever order and
    whichever queries fail, the table holds at most one rule per kind and scope, every rule's spec is what
    parsing it gives back, its scope and mode are valid, only the platform's rule allows exceptions, and
    the console's unlock rule exists for the platform alone and is never merely audited. *)
Lemma stored_rules_stay_valid (st st' : sec_state) :
  rtc policy_step st st' -> rules_ok st -> rules_ok st'.
Proof. induction 1 as [|s1 s2 s3 H1 _ IH]; [done|]. intros Hok. by apply IH, (policy_step_ok s1). Qed.

(** An unlock rule that is accepted asks for at least one and at most fifty attempts,
    each of its times lies between a minute and a day, and idling never outlasts the unlock; parsing what
    is stored gives the same rule again. *)
Lemma unlock_rule_bounds (raw : option admin_spec) (s : admin_spec) (a : admin_access) :
  parse_admin_access_spec raw = Ok (s, a) ->
  (1 <= aa_attempts a <= 50) /\ aa_idle a <= aa_ttl a
  /\ Forall (fun d => minute <= d <= 24 * 60 * minute) [aa_ttl a; aa_idle a; aa_window a; aa_lockout a]
  /\ as_factors s <> [] /\ Forall (eq factor_totp) (as_factors s)
  /\ parse_admin_access_spec (Some s) = Ok (s, a).
Proof.
  intros H. pose proof (parse_admin_stable _ _ _ H) as Hst. unfold parse_admin_access_spec in H. destruct raw as [r|]; [|done].
  destruct (negb (_ =? 1)); [done|]. destruct (negb (forallb _ _)) eqn:Ef; [done|].
  apply rbind_ok_inv in H as (ttl & Httl & H). apply rbind_ok_inv in H as (idle & Hidle & H).
  apply rbind_ok_inv in H as (window & Hw & H). apply rbind_ok_inv in H as (lockout & Hl & H).
  apply bounded_duration_range in Httl, Hidle, Hw, Hl; [|cbn; unfold minute, second; lia..].
  destruct (Z.ltb_spec ttl idle); [done|]. destruct (_ || _) eqn:E2; [done|].
  destruct (parse_prefixes (as_ips r)) as [ips|]; [|done]. injection H as <- <-.
  cbn [aa_attempts aa_idle aa_ttl aa_window aa_lockout as_factors]. go_inv. split_and!; try done.
  - destruct (Z.ltb_spec 0 (as_attempts r)); cbn; lia.
  - destruct (Z.ltb_spec 0 (as_attempts r)); cbn; lia.
  - do 4 (constructor; [done|]). constructor.
  - by destruct (as_factors r).
  - apply Forall_forall. intros f Hf. rewrite forallb_forall in Ef. symmetry. apply String.eqb_eq, Ef. by apply list_elem_of_In.
Qed.

(** ** Witnesses *)

Definition demo_reject (scope : string) (id : N) (existing : string) (at_ : instant) : policy :=
  Policy 1 kind_ports scope id mode_enforce false
    (encode_ports (PortsSpec 1 ports_reject_all [] "" None existing)) 1 None at_.
Definition demo_binding : port_binding :=
  PortBinding 3 7 5 80 "tcp" 8080 BindingApproved 0 2 (Some 1%N) "" false 50 50.

(** A narrower rule that keeps what the platform's rule revokes is not seen as loosening it. *)
Lemma narrow_rule_spares_revoked :
  let base := demo_reject scope_platform 0 existing_revoke 100 in
  let narrow := demo_reject scope_workspace 7 existing_keep 100 in
  loosens base narrow = false /\ resolve [base; narrow] 7 0 0 = Some narrow
  /\ ud_allowed (decide_publish mode_enforce (PortsSpec 1 ports_reject_all [] "" None existing_revoke) 100 demo_binding).1 = false
  /\ ud_allowed (decide_publish mode_enforce (PortsSpec 1 ports_reject_all [] "" None existing_keep) 100 demo_binding).1 = true.
Proof. split_and!; by vm_compute. Qed.
