(* ===== verification/PortBinding.v ===== *)
(** * Host ports

    [internal/services/portbinding]: requests for a port of a node's host, their review, and the overview an
    administrator reads; with [port_repo.go]. The service asks a policy through an interface: the class
    [PortPolicy], which the [SecPolicy] service and the absence of a policy implement. The engine's list of
    running containers is an argument, [None] when the node is not reached. Notifications are left out. *)
From S2P Require Import Prelude GoStrings GoTime SecPolicy.
#[local] Open Scope Z_scope.
#[local] Open Scope list_scope.

(** ** The policy *)

Class PortPolicy (P : Type) := decide_request : port_request -> instant -> P -> P * port_decision.

(** No policy wired: [decide]'s first branch *)
#[export] Instance no_policy : PortPolicy unit := fun rq _ p => (p, default_port_decision (rq_privileged rq)).
(** The security policy service *)
#[export] Instance sec_policy : PortPolicy (sec_env * sec_state) := fun rq now p =>
  let '(st, d) := check_port_request p.1 rq now p.2 in ((p.1, st), d).

(** ** Containers and rows *)

Record container := Container { ct_id : string; ct_names : list string; ct_ports : list (Z * string); ct_workspace : string }.

Record bound_app := BoundApp { ba_id : N; ba_workspace : N; ba_server : N; ba_name : string; ba_released : bool }.

Inductive port_err :=
| ErrPortNotFound | ErrAppRequired | ErrPortNotExposed | ErrHostPortRange (lo hi : Z) | ErrHostPortTaken (owner : string)
| ErrNotPending | ErrPolicyDenied | ErrPortDB.
Inductive port_query := QApps | QPorts | QInUse | QCreate | QUpdate | QDeleteBinding | QFindBinding | QList.

(** The tables and engines one call reads; [pe_workspaces] is [None] when the repository is not wired. *)
Record port_env := PortEnv {
  pe_apps : N -> option bound_app; pe_ports : N -> list (Z * string); pe_workspaces : option (N -> option bool);
  pe_docker : N -> option (list container); pe_servers : option (list (N * string)); pe_min : Z; pe_max : Z;
  pe_fails : port_query -> bool }.

(** The bindings in the order of their ids, and the applications flagged for a redeploy. *)
Record port_state (P : Type) := PortState { po_policy : P; po_bindings : list port_binding; po_redeploy : gset N }.
Arguments PortState {P} _ _ _.
Arguments po_policy {P} _.
Arguments po_bindings {P} _.
Arguments po_redeploy {P} _.

Definition max_host_port : Z := 65535.

Definition norm_proto (p : string) : string := if String.eqb p "udp" then "udp" else "tcp".

(** ** Ports in use *)

Definition container_name (ct : container) : string :=
  match ct_names ct with
  | name :: _ => trim_prefix "/" name
  | [] => if String.eqb (ct_id ct) "" then "another container" else str_take 12 (ct_id ct)
  end.
Definition port_key (port : Z) (proto : string) : string := itoa port +:+ "/" +:+ norm_proto proto.

Definition published_ports (conts : list container) : gmap string string :=
  foldl (fun out ct =>
    foldl (fun out p => if p.1 =? 0 then out else <[port_key p.1 (norm_proto p.2) := container_name ct]> out) out (ct_ports ct))
    ∅ conts.

Definition of_endpoint (server : N) (port : Z) (proto : string) (b : port_binding) : bool :=
  (pb_server b =? server)%N && (pb_host_port b =? port) && String.eqb (pb_protocol b) proto.
(** [HostPortInUse] *)
Definition host_port_in_use (server : N) (port : Z) (proto : string) (exclude : N) (bs : list port_binding) : bool :=
  existsb (fun b => of_endpoint server port proto b && bool_decide (pb_status b = BindingApproved)
                    && negb (negb (exclude =? 0)%N && (pb_id b =? exclude)%N)) bs.

Section Service.
Context {P : Type} `{PortPolicy P} (e : port_env).

(** [inspectNode], [livePublishedPorts], [nodeContainers] *)
Definition inspect_node (server : N) : gmap string string * bool :=
  match pe_docker e server with Some conts => (published_ports conts, true) | None => (∅, false) end.
Definition live_published_ports (server : N) : gmap string string := (inspect_node server).1.
Definition node_containers (server : N) : list container := default [] (pe_docker e server).

Definition is_privileged (ws : N) : bool :=
  match pe_workspaces e with Some find => default false (find ws) | None => false end.

Definition host_port_allowed (port lo hi : Z) (privileged : bool) : bool :=
  if (port <? 1) || (max_host_port <? port) then false
  else if privileged then true else (lo <=? port) && (port <=? hi).

(** The scan of [FindFreeHostPort] over a run of ports: [Some None] is a free one that was not found. *)
Fixpoint first_free (free : Z -> result port_err bool) (ports : list Z) : result port_err (option Z) :=
  match ports with
  | [] => Ok None
  | p :: ports => let? ok := free p in if ok then Ok (Some p) else first_free free ports
  end.

Definition port_free (bs : list port_binding) (server : N) (proto : string) (p : Z) : result port_err bool :=
  match live_published_ports server !! port_key p proto with
  | Some _ => Ok false
  | None => if pe_fails e QInUse then Err ErrPortDB else Ok (negb (host_port_in_use server p proto 0 bs))
  end.

(** [FindFreeHostPort]: 0 when the window is full *)
Definition find_free_host_port (bs : list port_binding) (server : N) (proto : string) (preferred : Z) : result port_err Z :=
  let proto := norm_proto proto in
  let start := if (preferred <? pe_min e) || (pe_max e <? preferred) then pe_min e else preferred in
  let free := port_free bs server proto in
  let? up := first_free free (seqZ start (pe_max e - start + 1)) in
  match up with
  | Some p => Ok p
  | None => let? low := first_free free (seqZ (pe_min e) (start - pe_min e)) in Ok (default 0 low)
  end.

Definition find_app_in_workspace (ws app : N) : option bound_app :=
  if pe_fails e QApps then None
  else match pe_apps e app with Some a => if (ba_workspace a =? ws)%N then Some a else None | None => None end.

(** [SuggestHostPort] *)
Definition suggest_host_port (bs : list port_binding) (ws app : N) (proto : string) (preferred : Z) : result port_err Z :=
  match find_app_in_workspace ws app with
  | None => Err ErrAppRequired
  | Some a => find_free_host_port bs (ba_server a) proto preferred
  end.

Definition resolve_host_port (bs : list port_binding) (server : N) (want : Z) (proto : string) (privileged : bool)
    : result port_err Z :=
  if want =? 0 then
    let? free := find_free_host_port bs server proto 0 in
    if free =? 0 then Err (ErrHostPortTaken "") else Ok free
  else if negb (host_port_allowed want (pe_min e) (pe_max e) privileged) then
    Err (if privileged then ErrHostPortRange 1 max_host_port else ErrHostPortRange (pe_min e) (pe_max e))
  else Ok want.

(** [hostPortConflict]: the owner, when the port is taken *)
Definition host_port_conflict (bs : list port_binding) (server : N) (port : Z) (proto : string) (exclude : N)
    : result port_err (option string) :=
  if pe_fails e QInUse then Err ErrPortDB
  else if host_port_in_use server port proto exclude bs then Ok (Some "an approved binding")
  else Ok (live_published_ports server !! port_key port proto).

(** [tenantOwner], [tenantPortConflict] *)
Definition tenant_owner (conts : list container) (owner : string) (ws : N) : string :=
  if existsb (fun ct => String.eqb (container_name ct) owner && String.eqb (ct_workspace ct) (itoa (Z.of_N ws))) conts
  then owner else "another workload on the node".
Definition tenant_port_conflict (bs : list port_binding) (ws server : N) (port : Z) (proto : string)
    : result port_err (option string) :=
  let? c := host_port_conflict bs server port proto 0 in
  Ok (match c with Some owner => Some (tenant_owner (node_containers server) owner ws) | None => None end).

(** ** Requests *)

Record request_input := RequestInput { ri_app : N; ri_container_port : Z; ri_protocol : string; ri_host_port : Z }.

Definition exposes (ports : list (Z * string)) (port : Z) (proto : string) : bool :=
  existsb (fun p => (p.1 =? port) && String.eqb (norm_proto p.2) proto) ports.

Definition new_pending_binding (bs : list port_binding) (ws user : N) (i : request_input) (privileged : bool)
    : result port_err port_binding :=
  match find_app_in_workspace ws (ri_app i) with
  | None => Err ErrAppRequired
  | Some a =>
      let proto := norm_proto (ri_protocol i) in
      if pe_fails e QPorts then Err ErrPortDB
      else if negb (exposes (pe_ports e (ba_id a)) (ri_container_port i) proto) then Err ErrPortNotExposed
      else let? port := resolve_host_port bs (ba_server a) (ri_host_port i) proto privileged in
           Ok (PortBinding 0 ws (ba_id a) (ri_container_port i) proto port BindingPending (ba_server a) user None "" false 0 0)
  end.

Definition set_review (b : port_binding) (status : binding_status) (reviewer : N) (note : string) : port_binding :=
  PortBinding (pb_id b) (pb_workspace b) (pb_app b) (pb_container_port b) (pb_protocol b) (pb_host_port b)
    status (pb_server b) (pb_requested_by b) (Some reviewer) note (pb_adopted b) (pb_created_at b) (pb_updated_at b).
Definition set_note (b : port_binding) (note : string) : port_binding :=
  PortBinding (pb_id b) (pb_workspace b) (pb_app b) (pb_container_port b) (pb_protocol b) (pb_host_port b)
    (pb_status b) (pb_server b) (pb_requested_by b) (pb_reviewed_by b) note (pb_adopted b) (pb_created_at b) (pb_updated_at b).
Definition set_stored (b : port_binding) (id : N) (created updated : instant) : port_binding :=
  PortBinding id (pb_workspace b) (pb_app b) (pb_container_port b) (pb_protocol b) (pb_host_port b)
    (pb_status b) (pb_server b) (pb_requested_by b) (pb_reviewed_by b) (pb_note b) (pb_adopted b) created updated.

(** [autoApprove] *)
Definition auto_approve (b : port_binding) (reviewer : N) (in_use : bool) (note : string) : option port_binding :=
  if in_use then None else Some (set_review b BindingApproved reviewer note).

Definition next_id (bs : list port_binding) : N := N.succ (foldr N.max 0%N (pb_id <$> bs)).

Definition request_of (b : port_binding) (user : N) (privileged : bool) (action : string) : port_request :=
  PortRequest (pb_workspace b) user (pb_host_port b) (pb_protocol b) privileged action
    ("app:" +:+ itoa (Z.of_N (pb_app b)) +:+ " " +:+ itoa (pb_host_port b) +:+ "/" +:+ pb_protocol b).

(** [markAppRedeploy] *)
Definition mark_redeploy (app : N) (flags : gset N) : gset N :=
  match (if pe_fails e QApps then None else pe_apps e app) with
  | Some a => if ba_released a then {[app]} ∪ flags else flags
  | None => flags
  end.

Definition create_binding (b : port_binding) (now : instant) (st : port_state P) : port_state P * port_binding :=
  let b := set_stored b (next_id (po_bindings st)) now now in
  (PortState (po_policy st) (po_bindings st ++ [b]) (po_redeploy st), b).
Definition update_binding (b : port_binding) (now : instant) (st : port_state P) : port_state P * port_binding :=
  let b := set_stored b (pb_id b) (pb_created_at b) now in
  (PortState (po_policy st) ((fun x => if (pb_id x =? pb_id b)%N then b else x) <$> po_bindings st) (po_redeploy st), b).
Definition with_policy (p : P) (st : port_state P) : port_state P := PortState p (po_bindings st) (po_redeploy st).
Definition flag_redeploy (b : port_binding) (st : port_state P) : port_state P :=
  PortState (po_policy st) (po_bindings st) (mark_redeploy (pb_app b) (po_redeploy st)).

Definition request (ws user : N) (i : request_input) (now : instant) (st : port_state P)
    : port_state P * result port_err port_binding :=
  let privileged := is_privileged ws in
  match new_pending_binding (po_bindings st) ws user i privileged with
  | Err err => (st, Err err)
  | Ok b =>
      let '(p, dec) := decide_request (request_of b user privileged "request") now (po_policy st) in
      let st := with_policy p st in
      if negb (pd_allowed dec) then (st, Err ErrPolicyDenied)
      else
        let reviewed :=
          if pd_auto dec then
            let? c := tenant_port_conflict (po_bindings st) ws (pb_server b) (pb_host_port b) (pb_protocol b) in
            match c with
            | Some owner => Err (ErrHostPortTaken owner)
            | None => of_option ErrPortDB (auto_approve b user false (pd_note dec))
            end
          else Ok b in
        match reviewed with
        | Err err => (st, Err err)
        | Ok b =>
            if pe_fails e QCreate then (st, Err ErrPortDB)
            else let '(st, b) := create_binding b now st in
                 (if bool_decide (pb_status b = BindingApproved) then flag_redeploy b st else st, Ok b)
        end
  end.

(** [RequestImport]: the binding and, when the port is taken, by whom *)
Definition request_import (ws user : N) (i : request_input) (now : instant) (st : port_state P)
    : port_state P * result port_err (port_binding * string) :=
  let privileged := is_privileged ws in
  match new_pending_binding (po_bindings st) ws user i privileged with
  | Err err => (st, Err err)
  | Ok b =>
      let '(p, dec) := decide_request (request_of b user privileged "import") now (po_policy st) in
      let st := with_policy p st in
      if negb (pd_allowed dec) then (st, Err ErrPolicyDenied)
      else match tenant_port_conflict (po_bindings st) ws (pb_server b) (pb_host_port b) (pb_protocol b) with
           | Err err => (st, Err err)
           | Ok c =>
               let b := match c with
                        | Some owner =>
                            set_note b ("host port " +:+ itoa (pb_host_port b) +:+ "/" +:+ pb_protocol b
                                        +:+ " already in use on the node by " +:+ owner +:+ " — remap or have an admin review")
                        | None => if pd_auto dec then default b (auto_approve b user false (pd_note dec)) else b
                        end in
               if pe_fails e QCreate then (st, Err ErrPortDB)
               else let '(st, b) := create_binding b now st in (st, Ok (b, default "" c))
           end
  end.

(** ** Review *)

Definition find_binding (id : N) (st : port_state P) : option port_binding :=
  if pe_fails e QFindBinding then None else find_first (fun b => (pb_id b =? id)%N) (po_bindings st).

Definition approve (id reviewer : N) (note : string) (now : instant) (st : port_state P)
    : port_state P * result port_err port_binding :=
  match find_binding id st with
  | None => (st, Err ErrPortNotFound)
  | Some b =>
      if negb (bool_decide (pb_status b = BindingPending)) then (st, Err ErrNotPending)
      else match host_port_conflict (po_bindings st) (pb_server b) (pb_host_port b) (pb_protocol b) (pb_id b) with
           | Err err => (st, Err err)
           | Ok (Some owner) => (st, Err (ErrHostPortTaken owner))
           | Ok None =>
               if pe_fails e QUpdate then (st, Err ErrPortDB)
               else let '(st, b) := update_binding (set_review b BindingApproved reviewer note) now st in
                    (flag_redeploy b st, Ok b)
           end
  end.

Definition reject (id reviewer : N) (note : string) (now : instant) (st : port_state P)
    : port_state P * result port_err port_binding :=
  match find_binding id st with
  | None => (st, Err ErrPortNotFound)
  | Some b =>
      if negb (bool_decide (pb_status b = BindingPending)) then (st, Err ErrNotPending)
      else if pe_fails e QUpdate then (st, Err ErrPortDB)
      else let '(st, b) := update_binding (set_review b BindingRejected reviewer note) now st in (st, Ok b)
  end.

Definition cancel (ws id : N) (st : port_state P) : port_state P * result port_err unit :=
  match find_binding id st with
  | Some b =>
      if negb (pb_workspace b =? ws)%N then (st, Err ErrPortNotFound)
      else if pe_fails e QDeleteBinding then (st, Err ErrPortDB)
      else (PortState (po_policy st) (List.filter (fun x => negb (pb_id x =? pb_id b)%N) (po_bindings st)) (po_redeploy st), Ok tt)
  | None => (st, Err ErrPortNotFound)
  end.

Definition approved_bindings (st : port_state P) : list port_binding :=
  List.filter (fun b => bool_decide (pb_status b = BindingApproved)) (po_bindings st).

(** The loop of [RevokeApproved], up to the first write that fails. *)
Fixpoint revoke_each (reviewer : N) (now : instant) (bs : list port_binding) (st : port_state P) : port_state P :=
  match bs with
  | [] => st
  | b :: bs =>
      if pe_fails e QUpdate then st
      else let '(st, b) := update_binding (set_review b BindingRejected reviewer "Revoked by platform policy") now st in
           revoke_each reviewer now bs (flag_redeploy b st)
  end.
(** [ListApproved]'s rows, each with its application's name *)
Definition list_approved (st : port_state P) : option (list (port_binding * string)) :=
  if pe_fails e QList then None
  else Some ((fun b => (b, if pe_fails e QApps then "" else match pe_apps e (pb_app b) with Some a => ba_name a | None => "" end))
               <$> approved_bindings st).
Definition revoke_approved (reviewer : N) (dry_run : bool) (now : instant) (st : port_state P) : port_state P * bool :=
  match list_approved st with
  | None => (st, false)
  | Some l => if dry_run then (st, true) else (revoke_each reviewer now l.*1 st, negb (pe_fails e QUpdate) || bool_decide (l = []))
  end.

(** [ListByApp], [ListByWorkspace] *)
Definition list_by_app (ws app : N) (st : port_state P) : list port_binding :=
  List.filter (fun b => (pb_workspace b =? ws)%N) (List.filter (fun b => (pb_app b =? app)%N) (po_bindings st)).

(** ** The overview *)

Inductive port_state_kind := StatePending | StateReserved | StatePublished | StateUnmanaged.
#[local] Instance port_state_kind_eq_dec : EqDecision port_state_kind.
Proof. solve_decision. Defined.
Record port_entry := PortEntry {
  en_host_port : Z; en_protocol : string; en_state : port_state_kind; en_binding : N; en_container : string; en_app : string }.

(** [parsePortKey], on the keys [port_key] makes *)
Definition parse_port_key (key : string) : Z * string :=
  let '(port, proto, found) := cut "/" key in
  if found then (default 0 (atoi port), norm_proto proto) else (0, "tcp").

Definition binding_entry (live : gmap string string) (inspected : bool) (b : port_binding) : port_entry :=
  let owner := default "" (live !! port_key (pb_host_port b) (pb_protocol b)) in
  let state := if bool_decide (pb_status b = BindingPending) then StatePending
               else if negb inspected then StateReserved
               else if negb (String.eqb owner "") then StatePublished else StateReserved in
  PortEntry (pb_host_port b) (norm_proto (pb_protocol b)) state (pb_id b) owner
    (if (pb_app b =? 0)%N || pe_fails e QApps then "" else match pe_apps e (pb_app b) with Some a => ba_name a | None => "" end).

Definition entry_less (a b : port_entry) : bool :=
  if negb (en_host_port a =? en_host_port b) then en_host_port a <? en_host_port b else str_lt (en_protocol a) (en_protocol b).

(** Entries of the same port and protocol may come in any order; here they keep the table's. *)
Definition reconcile (bs : list port_binding) (live : gmap string string) (inspected : bool) : list port_entry :=
  let claimed := (fun b => port_key (pb_host_port b) (pb_protocol b)) <$> bs in
  let unmanaged := if inspected then
                     (fun kv => let '(port, proto) := parse_port_key kv.1 in PortEntry port proto StateUnmanaged 0 kv.2 "")
                       <$> List.filter (fun kv => negb (bool_decide (kv.1 ∈ claimed))) (map_to_list live)
                   else [] in
  stable_sort entry_less ((binding_entry live inspected <$> bs) ++ unmanaged).

Record node_overview := NodeOverview { no_server : N; no_name : string; no_inspected : bool; no_entries : list port_entry }.
Definition active_bindings (st : port_state P) : list port_binding :=
  List.filter (fun b => negb (bool_decide (pb_status b = BindingRejected))) (po_bindings st).
Definition overview (st : port_state P) : option (list node_overview) :=
  if pe_fails e QList then None
  else
    let bs := active_bindings st in
    let servers := default [] (pe_servers e) in
    let known := servers.*1 in
    let extra := List.filter (fun id => negb (bool_decide (id ∈ known))) (remove_dups (pb_server <$> bs)) in
    let ids := match known ++ extra with [] => [0%N] | l => l end in
    Some ((fun id =>
             let '(live, inspected) := inspect_node id in
             let name := match find_first (fun s => (s.1 =? id)%N) (rev servers) with Some s => s.2 | None => "" end in
             NodeOverview id (if negb (String.eqb name "") then name else if (id =? 0)%N then "Local node" else "") inspected
               (reconcile (List.filter (fun b => (pb_server b =? id)%N) bs) live inspected))
            <$> stable_sort (fun a b => (a <? b)%N) ids).
End Service.

(** * Facts *)

(** ** Finding a port *)

Section Finding.
Context (e : port_env).

(** A port no running container publishes and no approved binding has. *)
Definition is_free (bs : list port_binding) (server : N) (proto : string) (p : Z) : Prop :=
  live_published_ports e server !! port_key p proto = None /\ host_port_in_use server p proto 0 bs = false.

Lemma port_free_ok bs server proto p ok : port_free e bs server proto p = Ok ok -> ok = true <-> is_free bs server proto p.
Proof.
  unfold port_free, is_free. destruct (_ !! _); [by intros [= <-]; naive_solver|].
  destruct (pe_fails e QInUse); [done|]. intros [= <-]. rewrite negb_true_iff. tauto.
Qed.

Lemma first_free_ok (free : Z -> result port_err bool) (good : Z -> Prop) ports r :
  (forall p ok, free p = Ok ok -> ok = true <-> good p) -> first_free free ports = Ok r ->
  match r with
  | Some p => exists pre post, ports = pre ++ p :: post /\ good p /\ forall q, q ∈ pre -> ~ good q
  | None => forall q, q ∈ ports -> ~ good q
  end.
Proof.
  intros Hf. induction ports as [|p ports IH]; cbn [first_free]; [intros [= <-]; by intros q ?%elem_of_nil|].
  intros H. apply rbind_ok_inv in H as (ok & Hok & H). specialize (Hf p ok Hok). destruct ok.
  - injection H as <-. exists [], ports. split; [done|]. split; [by apply Hf|]. by intros q ?%elem_of_nil.
  - assert (Hp : ~ good p) by (intros ?%Hf; done). specialize (IH H). destruct r as [q|].
    + destruct IH as (pre & post & -> & Hg & Hpre). exists (p :: pre), post. split; [done|]. split; [done|].
      intros x [->|Hx]%elem_of_cons; [done|by apply Hpre].
    + intros x [->|Hx]%elem_of_cons; [done|by apply IH].
Qed.

(** The ports in the order of the scan: from the preferred one up, then from the bottom. *)
Definition scan_order (preferred : Z) : list Z :=
  let start := if (preferred <? pe_min e) || (pe_max e <? preferred) then pe_min e else preferred in
  seqZ start (pe_max e - start + 1) ++ seqZ (pe_min e) (start - pe_min e).

Lemma scan_order_window preferred p : p ∈ scan_order preferred <-> pe_min e <= p <= pe_max e.
Proof.
  unfold scan_order. rewrite elem_of_app, !elem_of_seqZ.
  destruct (Z.ltb_spec preferred (pe_min e)), (Z.ltb_spec (pe_max e) preferred); cbn; lia.
Qed.

Lemma find_free_scan bs server proto preferred p :
  find_free_host_port e bs server proto preferred = Ok p ->
  (exists pre post, scan_order preferred = pre ++ p :: post /\ is_free bs server (norm_proto proto) p
     /\ forall q, q ∈ pre -> ~ is_free bs server (norm_proto proto) q)
  \/ (p = 0 /\ forall q, q ∈ scan_order preferred -> ~ is_free bs server (norm_proto proto) q).
Proof.
  unfold find_free_host_port, scan_order.
  set (start := if (preferred <? pe_min e) || (pe_max e <? preferred) then pe_min e else preferred). intros H.
  apply rbind_ok_inv in H as (up & Hup & H).
  pose proof (first_free_ok _ (is_free bs server (norm_proto proto)) _ _ (port_free_ok bs server (norm_proto proto)) Hup) as Hu.
  destruct up as [q|].
  { injection H as ->. destruct Hu as (pre & post & E & Hg & Hpre). left. exists pre, (post ++ seqZ (pe_min e) (start - pe_min e)).
    split; [|done]. rewrite E, <- app_assoc. done. }
  apply rbind_ok_inv in H as (low & Hlow & [= <-]).
  pose proof (first_free_ok _ (is_free bs server (norm_proto proto)) _ _ (port_free_ok bs server (norm_proto proto)) Hlow) as Hl.
  destruct low as [q|].
  - destruct Hl as (pre & post & E & Hg & Hpre). left. cbn [default]. 
    exists (seqZ start (pe_max e - start + 1) ++ pre), post. split; [by rewrite E, app_assoc|]. split; [done|].
    intros x [Hx|Hx]%elem_of_app; [by apply Hu|by apply Hpre].
  - right. split; [done|]. intros x [Hx|Hx]%elem_of_app; [by apply Hu|by apply Hl].
Qed.
End Finding.

(** ** The table *)

Definition endpoint (b : port_binding) : N * Z * string := (pb_server b, pb_host_port b, pb_protocol b).

Record binding_ok (b : port_binding) : Prop := {
  bo_id : pb_id b <> 0%N;
  bo_proto : norm_proto (pb_protocol b) = pb_protocol b;
  bo_port : 1 <= pb_host_port b <= max_host_port }.

(** Ids are a key, the rows are in order, and an endpoint is approved for one binding at most. *)
Record ports_ok (bs : list port_binding) : Prop := {
  pk_ids : NoDup (pb_id <$> bs);
  pk_rows : Forall binding_ok bs;
  pk_exclusive : forall b c, b ∈ bs -> c ∈ bs -> pb_status b = BindingApproved -> pb_status c = BindingApproved ->
    endpoint b = endpoint c -> pb_id b = pb_id c }.

Definition env_ok (e : port_env) : Prop := 1 <= pe_min e /\ pe_max e <= max_host_port.

Lemma host_port_in_use_false server port proto exclude bs b :
  host_port_in_use server port proto exclude bs = false -> b ∈ bs -> pb_status b = BindingApproved ->
  endpoint b = (server, port, proto) -> exclude <> 0%N /\ pb_id b = exclude.
Proof.
  unfold host_port_in_use. rewrite existsb_elem_false. intros Hf Hb Hs [= E1 E2 E3]. specialize (Hf b Hb).
  unfold of_endpoint in Hf. rewrite E1, E2, E3, N.eqb_refl, Z.eqb_refl, String.eqb_refl, (bool_decide_eq_true_2 _ Hs) in Hf.
  cbn in Hf. apply negb_false_iff in Hf. go_inv. split; [by apply N.eqb_neq|by apply N.eqb_eq].
Qed.

Lemma next_id_new bs : ~ (next_id bs ∈ pb_id <$> bs) /\ next_id bs <> 0%N.
Proof.
  unfold next_id. split; [|lia]. set (m := foldr N.max 0%N (pb_id <$> bs)).
  assert (Hle : forall i, i ∈ pb_id <$> bs -> (i <= m)%N).
  { subst m. induction (pb_id <$> bs) as [|j l IH]; intros i Hi; [by inversion Hi|]. cbn [foldr].
    apply elem_of_cons in Hi as [->|Hi]; [lia|]. specialize (IH i Hi). lia. }
  intros Hin%Hle. lia.
Qed.

Section Table.
Context {P : Type} `{PortPolicy P}.

Lemma create_binding_ok b now (st : port_state P) :
  ports_ok (po_bindings st) -> norm_proto (pb_protocol b) = pb_protocol b -> 1 <= pb_host_port b <= max_host_port ->
  (pb_status b = BindingApproved -> host_port_in_use (pb_server b) (pb_host_port b) (pb_protocol b) 0 (po_bindings st) = false) ->
  ports_ok (po_bindings (create_binding b now st).1).
Proof.
  intros [Hi Hr Hx] Hp Hq Hfree. destruct (next_id_new (po_bindings st)) as [Hn Hn0]. cbn.
  set (b' := set_stored b _ _ _). split.
  - rewrite fmap_app. apply NoDup_app. split; [done|]. split; [|apply NoDup_singleton].
    intros x Hin Hx'. cbn in Hx'. apply list_elem_of_singleton in Hx'. by subst.
  - apply Forall_app. split; [done|]. constructor; [by split|constructor].
  - assert (Hno : forall c, c ∈ po_bindings st -> pb_status c = BindingApproved -> pb_status b = BindingApproved ->
      endpoint c <> endpoint b).
    { intros c Hc Hs Hsb Hend. by destruct (host_port_in_use_false _ _ _ _ _ c (Hfree Hsb) Hc Hs Hend). }
    intros c d [Hc|Hc%list_elem_of_singleton]%elem_of_app [Hd|Hd%list_elem_of_singleton]%elem_of_app Hsc Hsd Hend; subst.
    + by apply Hx.
    + by destruct (Hno c Hc Hsc Hsd).
    + by destruct (Hno d Hd Hsd Hsc).
    + done.
Qed.

(** Rewriting one row keeps the table in order when the row's new version clashes with no other. *)
Lemma update_binding_ok b now (st : port_state P) :
  ports_ok (po_bindings st) -> binding_ok b ->
  (pb_status b = BindingApproved -> forall c, c ∈ po_bindings st -> pb_status c = BindingApproved ->
     endpoint c = endpoint b -> pb_id c = pb_id b) ->
  ports_ok (po_bindings (update_binding b now st).1).
Proof.
  intros [Hi Hr Hx] Hb Hfree. cbn. set (b' := set_stored b _ _ _).
  assert (Hin : forall c, c ∈ (fun x => if (pb_id x =? pb_id b')%N then b' else x) <$> po_bindings st ->
    (c = b' \/ c ∈ po_bindings st /\ pb_id c <> pb_id b)).
  { intros c (x & -> & Hxin)%list_elem_of_fmap. destruct (N.eqb_spec (pb_id x) (pb_id b')); [by left|by right]. }
  split.
  - rewrite <- list_fmap_compose. erewrite list_fmap_ext; [exact Hi|]. intros i x _. cbn.
    by destruct (N.eqb_spec (pb_id x) (pb_id b)).
  - apply Forall_forall. intros c [Hc|[Hc _]]%Hin; [subst c; by destruct Hb; split|]. rewrite Forall_forall in Hr. by apply Hr.
  - intros c d [Hc|[Hc Hci]]%Hin [Hd|[Hd Hdi]]%Hin Hsc Hsd Hend; subst.
    + done.
    + symmetry. by apply (Hfree Hsc d Hd Hsd).
    + by apply (Hfree Hsd c Hc Hsc).
    + by apply Hx.
Qed.

Lemma flag_redeploy_bindings e b (st : port_state P) : po_bindings (flag_redeploy e b st) = po_bindings st.
Proof. done. Qed.

Lemma host_port_conflict_none e bs server port proto exclude :
  host_port_conflict e bs server port proto exclude = Ok None -> host_port_in_use server port proto exclude bs = false.
Proof. unfold host_port_conflict. destruct (pe_fails e QInUse); [done|]. by destruct (host_port_in_use _ _ _ _ _). Qed.

Lemma tenant_port_conflict_none e bs ws server port proto :
  tenant_port_conflict e bs ws server port proto = Ok None -> host_port_in_use server port proto 0 bs = false.
Proof.
  unfold tenant_port_conflict. intros H0. apply rbind_ok_inv in H0 as ([o|] & Hc & H0); [done|].
  by apply host_port_conflict_none in Hc.
Qed.

Lemma norm_proto_idem p : norm_proto (norm_proto p) = norm_proto p.
Proof. unfold norm_proto. by destruct (String.eqb p "udp"). Qed.

Lemma new_pending_binding_ok e bs ws user i privileged b :
  env_ok e -> new_pending_binding e bs ws user i privileged = Ok b ->
  pb_status b = BindingPending /\ norm_proto (pb_protocol b) = pb_protocol b /\ 1 <= pb_host_port b <= max_host_port.
Proof.
  intros [Hlo Hhi]. unfold new_pending_binding. destruct (find_app_in_workspace _ _ _) as [a|]; [|done].
  destruct (pe_fails e QPorts); [done|]. destruct (negb (exposes _ _ _)); [done|]. intros H0.
  apply rbind_ok_inv in H0 as (port & Hport & [= <-]). cbn. split; [done|]. split; [apply norm_proto_idem|].
  unfold resolve_host_port in Hport. destruct (Z.eqb_spec (ri_host_port i) 0).
  - apply rbind_ok_inv in Hport as (free & Hfree & Hport). destruct (Z.eqb_spec free 0); [done|]. injection Hport as <-.
    apply find_free_scan in Hfree as [(pre & post & E & _)|[-> _]]; [|done].
    assert (Hin : free ∈ scan_order e 0) by (rewrite E; apply elem_of_app; right; left).
    apply scan_order_window in Hin. unfold max_host_port in *. lia.
  - destruct (negb _) eqn:E; [done|]. injection Hport as <-. apply negb_false_iff in E. unfold host_port_allowed in E.
    destruct (_ || _) eqn:E2; [done|]. go_inv. lia.
Qed.
End Table.

(** ** The operations keep the table in order *)

Section Operations.
Context {P : Type} `{PortPolicy P} (e : port_env) (He : env_ok e).

Lemma request_ok ws user i now (st : port_state P) :
  ports_ok (po_bindings st) -> ports_ok (po_bindings (request e ws user i now st).1).
Proof.
  intros Hok. unfold request. destruct (new_pending_binding _ _ _ _ _ _) as [b|] eqn:Hb; [|done].
  apply new_pending_binding_ok in Hb as (Hs & Hp & Hq); [|done].
  destruct (decide_request _ _ _) as [p dec]. destruct (negb (pd_allowed dec)); [done|].
  set (reviewed := if pd_auto dec then _ else _).
  assert (Hrev : forall b', reviewed = Ok b' -> endpoint b' = endpoint b /\
    (pb_status b' = BindingApproved -> host_port_in_use (pb_server b') (pb_host_port b') (pb_protocol b') 0 (po_bindings st) = false)).
  { intros b'. subst reviewed. destruct (pd_auto dec); [|intros [= <-]; split; [done|congruence]].
    intros Hr. apply rbind_ok_inv in Hr as ([owner|] & Hc & Hr); [done|]. cbn in Hr. injection Hr as <-.
    split; [done|]. intros _. by apply tenant_port_conflict_none in Hc. }
  destruct reviewed as [b'|]; [|done]. destruct (Hrev b' eq_refl) as [[= E1 E2 E3] Hfree].
  destruct (pe_fails e QCreate); [done|].
  pose proof (create_binding_ok b' now (with_policy p st)) as Hc. cbn [po_bindings with_policy] in Hc.
  destruct (create_binding b' now (with_policy p st)) as [st' b'']. cbn [fst] in *.
  destruct (bool_decide _); rewrite ?flag_redeploy_bindings; apply Hc; rewrite ?E2, ?E3 in *; done.
Qed.

Lemma request_import_ok ws user i now (st : port_state P) :
  ports_ok (po_bindings st) -> ports_ok (po_bindings (request_import e ws user i now st).1).
Proof.
  intros Hok. unfold request_import. destruct (new_pending_binding _ _ _ _ _ _) as [b|] eqn:Hb; [|done].
  apply new_pending_binding_ok in Hb as (Hs & Hp & Hq); [|done].
  destruct (decide_request _ _ _) as [p dec]. destruct (negb (pd_allowed dec)); [done|].
  destruct (tenant_port_conflict _ _ _ _ _ _) as [c|] eqn:Hc; [|done].
  destruct (pe_fails e QCreate); [done|].
  set (b' := match c with Some _ => _ | None => _ end).
  pose proof (create_binding_ok b' now (with_policy p st)) as Hcr. cbn [po_bindings with_policy] in Hcr.
  destruct (create_binding b' now (with_policy p st)) as [st' b'']. cbn [fst] in *.
  subst b'. destruct c as [owner|]; [|apply tenant_port_conflict_none in Hc]; [|destruct (pd_auto dec)];
    apply Hcr; cbn; try done; congruence.
Qed.

Lemma find_binding_in id (st : port_state P) b : find_binding e id st = Some b -> b ∈ po_bindings st /\ pb_id b = id.
Proof.
  unfold find_binding. destruct (pe_fails e QFindBinding); [done|]. intros [Hin Hid]%find_first_some.
  split; [done|by apply N.eqb_eq].
Qed.

Lemma stored_binding_ok (st : port_state P) b : ports_ok (po_bindings st) -> b ∈ po_bindings st -> binding_ok b.
Proof. intros [_ Hr _] Hb. rewrite Forall_forall in Hr. by apply Hr. Qed.

Lemma set_review_ok b status reviewer note : binding_ok b -> binding_ok (set_review b status reviewer note).
Proof. by intros []. Qed.

Lemma approve_ok id reviewer note now (st : port_state P) :
  ports_ok (po_bindings st) -> ports_ok (po_bindings (approve e id reviewer note now st).1).
Proof.
  intros Hok. unfold approve. destruct (find_binding e id st) as [b|] eqn:Hf; [|done].
  apply find_binding_in in Hf as [Hin _]. destruct (negb _); [done|].
  destruct (host_port_conflict _ _ _ _ _ _) as [[owner|]|] eqn:Hc; [done| |done].
  apply host_port_conflict_none in Hc. destruct (pe_fails e QUpdate); [done|].
  pose proof (update_binding_ok (set_review b BindingApproved reviewer note) now st Hok) as Hu.
  destruct (update_binding _ _ _) as [st' b']. cbn [fst] in *. rewrite flag_redeploy_bindings. apply Hu.
  - by apply set_review_ok, (stored_binding_ok st).
  - intros _ c Hcin Hs Hend. by destruct (host_port_in_use_false _ _ _ _ _ c Hc Hcin Hs Hend).
Qed.

Lemma rejecting_ok b reviewer note now (st : port_state P) :
  ports_ok (po_bindings st) -> binding_ok b -> ports_ok (po_bindings (update_binding (set_review b BindingRejected reviewer note) now st).1).
Proof. intros Hok Hb. apply update_binding_ok; [done|by apply set_review_ok|done]. Qed.

Lemma reject_ok id reviewer note now (st : port_state P) :
  ports_ok (po_bindings st) -> ports_ok (po_bindings (reject e id reviewer note now st).1).
Proof.
  intros Hok. unfold reject. destruct (find_binding e id st) as [b|] eqn:Hf; [|done].
  apply find_binding_in in Hf as [Hin _]. destruct (negb _); [done|]. destruct (pe_fails e QUpdate); [done|].
  pose proof (rejecting_ok b reviewer note now st Hok (stored_binding_ok st b Hok Hin)) as Hr.
  by destruct (update_binding _ _ _).
Qed.

Lemma cancel_ok ws id (st : port_state P) : ports_ok (po_bindings st) -> ports_ok (po_bindings (cancel e ws id st).1).
Proof.
  intros Hok. unfold cancel. destruct (find_binding e id st) as [b|]; [|done].
  destruct (negb _); [done|]. destruct (pe_fails e QDeleteBinding); [done|]. cbn.
  set (l := List.filter _ _).
  assert (Hsub : sublist l (po_bindings st)) by apply bfilter_sublist.
  destruct Hok as [Hi Hr Hx]. split.
  - eapply sublist_NoDup; [exact Hi|by apply fmap_sublist].
  - rewrite Forall_forall in Hr |- *. intros x Hxl. apply Hr. by eapply elem_of_sublist.
  - intros x y Hxl Hyl. apply Hx; by eapply elem_of_sublist.
Qed.

Lemma revoke_each_ok reviewer now bs (st : port_state P) :
  Forall binding_ok bs -> ports_ok (po_bindings st) -> ports_ok (po_bindings (revoke_each e reviewer now bs st)).
Proof.
  intros Hbs. revert st. induction Hbs as [|b bs Hb _ IH]; intros st Hok; cbn [revoke_each]; [done|].
  destruct (pe_fails e QUpdate); [done|].
  pose proof (rejecting_ok b reviewer "Revoked by platform policy" now st Hok Hb) as Hr.
  destruct (update_binding _ _ _) as [st' b']. by apply IH.
Qed.

Lemma revoke_approved_ok reviewer dry now (st : port_state P) :
  ports_ok (po_bindings st) -> ports_ok (po_bindings (revoke_approved e reviewer dry now st).1).
Proof.
  intros Hok. unfold revoke_approved, list_approved. destruct (pe_fails e QList); [done|]. destruct dry; [done|]. cbn [fst].
  apply revoke_each_ok; [|done]. apply Forall_forall. intros b Hb. apply (stored_binding_ok st); [done|].
  rewrite <- list_fmap_compose in Hb. apply list_elem_of_fmap in Hb as (b' & -> & Hb). cbn.
  by apply elem_of_bfilter in Hb as [Hb _].
Qed.
End Operations.

(** A history of the service, each call with its own tables of applications, engines and failures. *)
Inductive port_step {P : Type} `{PortPolicy P} (st : port_state P) : port_state P -> Prop :=
| PortRequestStep e ws user i now : env_ok e -> port_step st (request e ws user i now st).1
| PortImportStep e ws user i now : env_ok e -> port_step st (request_import e ws user i now st).1
| PortApproveStep e id reviewer note now : port_step st (approve e id reviewer note now st).1
| PortRejectStep e id reviewer note now : port_step st (reject e id reviewer note now st).1
| PortCancelStep e ws id : port_step st (cancel e ws id st).1
| PortRevokeStep e reviewer dry now : port_step st (revoke_approved e reviewer dry now st).1.

#[export] Hint Resolve request_ok request_import_ok approve_ok reject_ok cancel_ok revoke_approved_ok : miabi.

Lemma port_step_ok {P : Type} `{PortPolicy P} (st st' : port_state P) :
  port_step st st' -> ports_ok (po_bindings st) -> ports_ok (po_bindings st').
Proof. intros []; auto with miabi. Qed.

(** ** The platform's rule, as the service sees it *)

Section RejectAll.
Context (se : sec_env) (ss : sec_state) (now : instant) (rows : list policy) (base : policy) (b : ports_spec).
Context (Hact : active se = true) (Hrows : (cached_rows se kind_ports now ss).2 = Ok rows).
Context (Hbase : find_rule rows scope_platform 0 = Some base) (Hkind : pl_kind base = kind_ports).
Context (Hx : pl_exceptions base = false) (Hm : pl_mode base = mode_enforce).
Context (Hb : parse_ports_spec (tx_ports (pl_spec base)) = Ok b) (Hrej : ps_mode b = ports_reject_all).

Lemma reject_all_rule w : exists pol n, (ports_rule se w now ss).2 = Some (pol, n) /\ pol ∈ rows
  /\ parse_ports_spec (tx_ports (pl_spec pol)) = Ok n /\ pl_mode pol = mode_enforce /\ ps_mode n = ports_reject_all.
Proof using Hact Hrows Hbase Hkind Hx Hm Hb Hrej.
  unfold ports_rule, effective. rewrite Hact. cbn [negb].
  destruct (cached_rows se kind_ports now ss) as [ss' r]. cbn [snd] in Hrows |- *. subst r. cbn [rbind].
  destruct (find_rule_some _ _ _ _ Hbase) as [Hin _]. destruct rows as [|p0 rows0] eqn:Er; [by inversion Hin|].
  rewrite <- Er in *. clear Er. destruct (plan_and_org se w) as [plan org].
  assert (Hex : exists pol, resolve rows w plan org = Some pol).
  { unfold resolve. rewrite Hbase. destruct (foldr _ _ _) as [q|]; [|by exists base]. destruct (_ && _); eauto. }
  destruct Hex as [pol Hpol]. rewrite Hpol. pose proof Hpol as Hc. apply resolve_cases in Hc as [Hpin [Hp|Hl]].
  - rewrite Hbase in Hp. injection Hp as <-. rewrite Hm, Hb. by exists base, b.
  - specialize (Hl base Hbase Hx). unfold loosens in Hl. rewrite Hkind, Hb in Hl. cbn in Hl.
    destruct (parse_ports_spec (tx_ports (pl_spec pol))) as [n|] eqn:Hn; [|done]. rewrite Hm in Hl. apply ports_loosens_false in Hl.
    pose proof (tight_mode _ _ _ Hl) as Hpm. pose proof Hn as (_ & Hnm & _)%parse_ports_spec_ok.
    rewrite Hpm. cbn. exists pol, n. split_and!; try done. by eapply tight_reject.
Qed.

Lemma reject_all_denies rq : pd_allowed (decide_request rq now (se, ss)).2 = false.
Proof using Hact Hrows Hbase Hkind Hx Hm Hb Hrej.
  unfold decide_request, sec_policy, check_port_request. cbn [fst snd].
  destruct (reject_all_rule (rq_workspace rq)) as (pol & n & Hr & _ & _ & Hpm & Hnm).
  destruct (ports_rule se (rq_workspace rq) now ss) as [ss' rule]. cbn [snd] in Hr. subst rule.
  unfold decide_port_request. by rewrite Hnm, Hpm.
Qed.

Lemma reject_all_publish ws x resource : ud_allowed (check_port_publish se ws x resource now ss).2 = true ->
  pb_adopted x = true \/ exists pol n, pol ∈ rows /\ parse_ports_spec (tx_ports (pl_spec pol)) = Ok n
                           /\ grandfathered n (pl_updated_at pol) x = true.
Proof using Hact Hrows Hbase Hkind Hx Hm Hb Hrej.
  unfold check_port_publish. destruct (reject_all_rule ws) as (pol & n & Hr & Hin & Hn & Hpm & Hnm).
  destruct (ports_rule se ws now ss) as [ss' rule]. cbn [snd] in Hr. subst rule.
  unfold decide_publish. rewrite Hnm, Hpm. destruct (pb_adopted x); [by left|].
  destruct (grandfathered n (pl_updated_at pol) x) eqn:Eg; [right; by exists pol, n|]. by cbn.
Qed.
End RejectAll.

(** A refused request leaves bindings and flags alone. *)
Lemma denied_request_inert {P : Type} `{PortPolicy P} e ws user i now (st : port_state P) :
  (forall rq, pd_allowed (decide_request rq now (po_policy st)).2 = false) ->
  let '(st1, r1) := request e ws user i now st in
  let '(st2, r2) := request_import e ws user i now st in
  is_ok r1 = false /\ is_ok r2 = false /\ po_bindings st1 = po_bindings st /\ po_bindings st2 = po_bindings st
  /\ po_redeploy st1 = po_redeploy st /\ po_redeploy st2 = po_redeploy st.
Proof.
  intros Hden. unfold request, request_import.
  destruct (new_pending_binding e (po_bindings st) ws user i _) as [bd|]; [|by cbn].
  pose proof (Hden (request_of bd user (is_privileged e ws) "request")) as H1.
  pose proof (Hden (request_of bd user (is_privileged e ws) "import")) as H2.
  destruct (decide_request (request_of bd user _ "request") now _) as [p1 d1], (decide_request (request_of bd user _ "import") now _) as [p2 d2].
  cbn [snd] in H1, H2. by rewrite H1, H2.
Qed.

(** A tenant learns the name of a container only when the container is the workspace's own. *)
Lemma tenant_owner_own conts owner ws :
  tenant_owner conts owner ws = "another workload on the node"
  \/ exists ct, ct ∈ conts /\ container_name ct = tenant_owner conts owner ws /\ ct_workspace ct = itoa (Z.of_N ws).
Proof.
  unfold tenant_owner. destruct (existsb _ conts) eqn:E; [right|by left].
  apply existsb_elem in E as (ct & Hct & [E1 E2]%andb_true_iff).
  apply String.eqb_eq in E1, E2. by exists ct.
Qed.

(** * Claims *)

(** C38 [host_ports_exclusive]: whatever requests, imports, approvals, rejections, cancellations and revocations
    run one after the other, on whatever nodes and with whatever failures, two approved bindings never share
    a node, a host port and a protocol; every binding's port is a real one, and ids stay distinct. *)
Theorem host_ports_exclusive {P : Type} `{PortPolicy P} (st st' : port_state P) :
  rtc port_step st st' -> ports_ok (po_bindings st) -> ports_ok (po_bindings st').
Proof. induction 1 as [|s1 s2 s3 H1 _ IH]; [done|]. intros Hok. by apply IH, (port_step_ok s1). Qed.

(** The port that is proposed lies in the window, no running container and no approved
    binding has it, and it is the first such port from the preferred one up and then from the bottom; 0
    is answered exactly when every port of the window is taken. *)
Lemma find_free_port_spec (e : port_env) (bs : list port_binding) (server : N) (proto : string) (preferred p : Z) :
  1 <= pe_min e -> find_free_host_port e bs server proto preferred = Ok p ->
  (p <> 0 -> pe_min e <= p <= pe_max e /\ is_free e bs server (norm_proto proto) p
     /\ exists pre post, scan_order e preferred = pre ++ p :: post
        /\ forall q, q ∈ pre -> ~ is_free e bs server (norm_proto proto) q)
  /\ (p = 0 <-> forall q, pe_min e <= q <= pe_max e -> ~ is_free e bs server (norm_proto proto) q).
Proof.
  intros Hmin [(pre & post & E & Hfree & Hpre)|[-> Hnone]]%find_free_scan.
  - assert (Hw : pe_min e <= p <= pe_max e).
    { apply (scan_order_window e preferred). rewrite E. apply elem_of_app. right. left. }
    split; [by eauto 10|]. split; [lia|]. intros Hall. by destruct (Hall p Hw).
  - split; [done|]. split; [|done]. intros _ q Hq. by apply Hnone, scan_order_window.
Qed.

(** While the platform's host-port rule is enforced, rejects every port and allows
    no exceptions, no request and no import creates a binding or changes one, whatever the workspace, its
    privileges and the rules of narrower scopes; and a deploy publishes an approved port only when an
    administrator adopted it or some rule spares it as approved before. *)
Lemma platform_reject_all_holds (e : port_env) (se : sec_env) (ss : sec_state) (bs : list port_binding) (flags : gset N)
    (ws user : N) (i : request_input) (now : instant) (rows : list policy) (base : policy) (b : ports_spec) :
  active se = true -> (cached_rows se kind_ports now ss).2 = Ok rows ->
  find_rule rows scope_platform 0 = Some base -> pl_kind base = kind_ports -> pl_exceptions base = false ->
  pl_mode base = mode_enforce -> parse_ports_spec (tx_ports (pl_spec base)) = Ok b -> ps_mode b = ports_reject_all ->
  let st := PortState (se, ss) bs flags in
  let '(st1, r1) := request e ws user i now st in
  let '(st2, r2) := request_import e ws user i now st in
  is_ok r1 = false /\ is_ok r2 = false /\ po_bindings st1 = bs /\ po_bindings st2 = bs
  /\ po_redeploy st1 = flags /\ po_redeploy st2 = flags
  /\ forall x resource, ud_allowed (check_port_publish se ws x resource now ss).2 = true ->
       pb_adopted x = true \/ exists pol n, pol ∈ rows /\ parse_ports_spec (tx_ports (pl_spec pol)) = Ok n
                                /\ grandfathered n (pl_updated_at pol) x = true.
Proof.
  intros Hact Hrows Hbase Hkind Hx Hm Hb Hrej st.
  pose proof (denied_request_inert e ws user i now st (reject_all_denies _ _ _ _ _ _ Hact Hrows Hbase Hkind Hx Hm Hb Hrej)) as Hin.
  destruct (request e ws user i now st) as [st1 r1], (request_import e ws user i now st) as [st2 r2].
  destruct Hin as (? & ? & ? & ? & ? & ?). split_and!; try done.
  by apply (reject_all_publish _ _ _ _ _ _ Hact Hrows Hbase Hkind Hx Hm Hb Hrej).
Qed.

(** ** Witnesses *)

Definition demo_port_env : port_env :=
  PortEnv (fun id => if (id =? 5)%N then Some (BoundApp 5 7 0 "web" true) else None) (fun _ => [(80, "tcp")]) None
    (fun _ => Some [Container "0123456789abcdef" ["/db"] [(30000, "tcp")] "9"]) None 30000 30003 (fun _ => false).
Definition demo_pending (id : N) (port : Z) : port_binding :=
  PortBinding id 7 5 80 "tcp" port BindingPending 0 2 None "" false 50 50.

Lemma host_ports_exclusive_witness :
  let st := PortState tt [demo_pending 1 30001; demo_pending 2 30001] ∅ in
  let st1 := (approve demo_port_env 1 9 "" 60 st).1 in
  let st2 := (approve demo_port_env 2 9 "" 60 st1).1 in
  (pb_status <$> po_bindings st2) = [BindingApproved; BindingPending] /\ ports_ok (po_bindings st2).
Proof.
  intros st st1 st2. split; [by vm_compute|]. apply (host_ports_exclusive st).
  - eapply rtc_l; [apply (PortApproveStep st demo_port_env 1 9 "" 60)|]. apply rtc_once, (PortApproveStep st1).
  - split.
    + apply (bool_decide_unpack _). vm_compute. exact I.
    + repeat constructor; cbn; unfold max_host_port; lia.
    + intros b c Hb Hc Hs. apply list_elem_of_In in Hb. by destruct Hb as [<-|[<-|[]]].
Defined.

(** The check of [Approve] and its write are separate queries with no lock or unique key between them: an approval
    that read the table before another one wrote approves the same endpoint again. *)
Lemma approvals_race :
  let st := PortState tt [demo_pending 1 30001; demo_pending 2 30001] ∅ in
  let '(st1, r1) := approve demo_port_env 1 9 "" 60 st in
  let '(_, r2) := approve demo_port_env 2 9 "" 60 st in
  exists b1 b2, r1 = Ok b1 /\ r2 = Ok b2 /\ endpoint b1 = endpoint b2
    /\ (pb_status <$> po_bindings (update_binding b2 60 st1).1) = [BindingApproved; BindingApproved].
Proof. vm_compute. do 2 eexists. by split_and!. Qed.
