(* ===== verification/ManifestTypes.v ===== *)
(** * Manifests: the resource model

    [internal/declarative]: the kinds and specs of [schema.go], the accessors of [accessors.go] and the set of
    [resourceset.go]. A resource carries the spec of its kind, as [parseNode] leaves it, or none. A [map] of
    strings is a [gmap]; where the code tells a nil map or slice from an empty one, it is an option. *)
From S2P Require Import Prelude GoStrings.
#[local] Open Scope Z_scope.
#[local] Open Scope list_scope.

(** ** Kinds *)

Definition kind : Type := string.

Definition api_version : string := "miabi.io/v1".
Definition kind_application : kind := "Application".
Definition kind_stack : kind := "Stack".
Definition kind_database : kind := "Database".
Definition kind_volume : kind := "Volume".
Definition kind_route : kind := "Route".
Definition kind_secret : kind := "Secret".
Definition kind_sealed_secret : kind := "SealedSecret".
Definition kind_domain : kind := "Domain".
Definition kind_registry : kind := "Registry".
Definition kind_project : kind := "Project".
Definition kind_config : kind := "Config".
Definition kind_middleware : kind := "Middleware".
Definition kind_cron_job : kind := "CronJob".
Definition kind_job : kind := "Job".
Definition kind_git_source : kind := "GitSource".
Definition kind_git_repository : kind := "GitRepository".

Definition known_kinds : list kind :=
  [kind_application; kind_stack; kind_database; kind_volume; kind_route; kind_secret; kind_sealed_secret; kind_domain;
   kind_registry; kind_project; kind_config; kind_middleware; kind_cron_job; kind_job; kind_git_source; kind_git_repository].

(** ** Specs *)

Record meta := Meta { mt_name : string; mt_uid : string; mt_labels : gmap string string; mt_annotations : gmap string string }.

Record source_spec := SourceSpec {
  so_git : string; so_ref : string; so_build_method : string; so_builder : string; so_buildpacks : list string;
  so_build_env : gmap string string; so_repository : string }.

Record port_spec := PortSpec {
  pt_container : Z; pt_protocol : string; pt_scheme : string; pt_external : bool; pt_publish : bool; pt_host_port : Z }.

Record mount_spec := MountSpec {
  mn_volume : string; mn_config : string; mn_key : string; mn_path : string; mn_mode : string; mn_read_only : bool }.

Record resource_spec := ResourceSpec { rs_memory : string; rs_cpu : string; rs_gpu : Z; rs_gpu_kind : string }.

Record app_placement_spec := AppPlacementSpec { pl_location : string; pl_constraints : option (list string) }.
Record update_spec := UpdateSpec { up_parallelism : Z; up_delay_seconds : Z }.
Record deployment_spec := DeploymentSpec {
  dp_runtime : string; dp_replicas : Z; dp_strategy : string; dp_update : option update_spec }.

Record capabilities_spec := CapabilitiesSpec { cp_add : option (list string); cp_drop : option (list string) }.
Record security_spec := SecuritySpec {
  se_run_as_user : string; se_read_only_rootfs : bool; se_no_new_privileges : option bool;
  se_capabilities : option capabilities_spec; se_devices : option (list string);
  se_deprecated_add : option (list string) }.
Definition empty_security : security_spec := SecuritySpec "" false None None None None.

Record healthcheck_spec := HealthcheckSpec {
  hc_type : string; hc_path : string; hc_port : Z; hc_command : string; hc_interval : Z; hc_timeout : Z;
  hc_retries : Z; hc_start_period : Z }.

Record application_spec := ApplicationSpec {
  ap_source : option source_spec; ap_image : string; ap_tag : string; ap_digest : string; ap_command : list string;
  ap_ports : list port_spec; ap_env : gmap string string; ap_secret_env : list string; ap_mounts : list mount_spec;
  ap_resources : option resource_spec; ap_placement : option app_placement_spec; ap_deployment : option deployment_spec;
  ap_security : option security_spec; ap_healthcheck : option healthcheck_spec; ap_container_labels : gmap string string;
  ap_stack : string; ap_registry : string; ap_external_label : string; ap_reload_policy : string;
  ap_deprecated_run_as_user : string; ap_deprecated_strategy : string; ap_config_fp : string }.

Record stack_spec := StackSpec {
  st_description : string; st_placement : option string; st_env : option (gmap string string); st_secret_env : list string }.

Record database_placement := DatabasePlacement { dl_location : string; dl_legacy_instance : string }.
Record database_resources := DatabaseResources { dr_memory : string; dr_cpu : string; dr_size : string }.
Record database_spec := DatabaseSpec {
  db_engine : string; db_version : string; db_instance : string; db_placement : option database_placement;
  db_resources : option database_resources; db_read_only_user : option bool }.

Record volume_spec := VolumeSpec { vo_size : string; vo_storage_class : string; vo_placement : option string }.

Record maintenance_spec := MaintenanceSpec { ma_enabled : bool; ma_status_code : Z; ma_message : string }.
Definition no_maintenance : maintenance_spec := MaintenanceSpec false 0 "".
Record route_spec := RouteSpec {
  ro_hosts : list string; ro_app : string; ro_port : Z; ro_path : string; ro_tls : string; ro_certificate : string;
  ro_tls_provider : string; ro_rewrite : string; ro_methods : list string; ro_advanced_config : string;
  ro_exploit_protection : option bool; ro_maintenance : option maintenance_spec; ro_middlewares : list string }.

(** A decoded YAML value of a middleware's rule *)
Inductive rule_value :=
| RStr (s : string) | RMap (fields : list (string * rule_value)) | RSeq (items : list rule_value) | ROther.
Record middleware_spec := MiddlewareSpec {
  mw_type : string; mw_paths : list string; mw_rule : rule_value; mw_rule_fp : string }.

Record cron_job_spec := CronJobSpec {
  cj_app : string; cj_schedule : string; cj_command : list string; cj_entrypoint : list string; cj_image : string;
  cj_registry : string; cj_timeout : Z; cj_concurrency : string; cj_history : Z; cj_suspend : option bool;
  cj_security : option security_spec }.

Definition run_on_change : string := "onChange".
Definition run_once : string := "once".
Definition run_on_release : string := "onRelease".
Record job_spec := JobSpec {
  jb_app : string; jb_command : list string; jb_entrypoint : list string; jb_image : string; jb_registry : string;
  jb_timeout : Z; jb_run_policy : string; jb_wait_for_deploy : option bool; jb_history : Z; jb_backoff_limit : Z;
  jb_security : option security_spec; jb_spec_fp : string }.
Definition empty_job : job_spec := JobSpec "" [] [] "" "" 0 "" None 0 0 None "".

Record domain_spec := DomainSpec { dm_tls : string; dm_wildcard : bool }.

Definition delete_policy_orphan : string := "orphan".
Definition delete_policy_cascade : string := "cascade".
Record git_source_spec := GitSourceSpec {
  gs_repo : string; gs_repository : string; gs_ref : string; gs_path : string; gs_sync_policy : string;
  gs_prune : bool; gs_self_heal : bool; gs_allow_empty : bool; gs_require_sealed : bool; gs_delete_policy : string }.
Record git_repository_spec := GitRepositorySpec { gr_url : string; gr_auth : string; gr_username : string; gr_secret_ref : string }.

Record registry_spec := RegistrySpec { rg_server : string; rg_username : string; rg_password : string; rg_password_fp : string }.
Definition empty_registry : registry_spec := RegistrySpec "" "" "" "".

Record secret_spec := SecretSpec {
  sc_value : string; sc_generate : bool; sc_length : Z; sc_symbols : option bool; sc_min_numbers : Z; sc_min_special : Z }.
Record sealed_secret_spec := SealedSecretSpec { ss_value : string; ss_sealed_fp : string }.

Record config_spec := ConfigSpec {
  cf_data : gmap string string; cf_mode : string; cf_sensitive : bool; cf_delimiters : list string; cf_digest_fp : string }.
Definition empty_config : config_spec := ConfigSpec ∅ "" false [] "".

(** [ProjectSpec]; the resources it bundles are listed beside it by [parseNode]. *)
Record project_spec := ProjectSpec { pj_description : string }.

(** The one spec of a resource *)
Inductive spec :=
| SApplication (a : application_spec) | SStack (s : stack_spec) | SDatabase (d : database_spec) | SVolume (v : volume_spec)
| SRoute (r : route_spec) | SSecret (s : secret_spec) | SSealedSecret (s : sealed_secret_spec) | SDomain (d : domain_spec)
| SRegistry (r : registry_spec) | SProject (p : project_spec) | SConfig (c : config_spec) | SMiddleware (m : middleware_spec)
| SCronJob (c : cron_job_spec) | SJob (j : job_spec) | SGitSource (g : git_source_spec)
| SGitRepository (g : git_repository_spec) | SNone.

Record resource := Resource { r_kind : kind; r_meta : meta; r_spec : spec }.

Definition r_name (r : resource) : string := mt_name (r_meta r).
Definition r_uid (r : resource) : string := mt_uid (r_meta r).
Definition key_of (k : kind) (name : string) : string := k +:+ "/" +:+ name.
(** [Resource.Key] *)
Definition key (r : resource) : string := key_of (r_kind r) (r_name r).

(** The kind whose spec a spec is *)
Definition spec_kind (s : spec) : option kind :=
  match s with
  | SApplication _ => Some kind_application | SStack _ => Some kind_stack | SDatabase _ => Some kind_database
  | SVolume _ => Some kind_volume | SRoute _ => Some kind_route | SSecret _ => Some kind_secret
  | SSealedSecret _ => Some kind_sealed_secret | SDomain _ => Some kind_domain | SRegistry _ => Some kind_registry
  | SProject _ => Some kind_project | SConfig _ => Some kind_config | SMiddleware _ => Some kind_middleware
  | SCronJob _ => Some kind_cron_job | SJob _ => Some kind_job | SGitSource _ => Some kind_git_source
  | SGitRepository _ => Some kind_git_repository | SNone => None
  end.

Definition is_vault_secret (k : kind) : bool := String.eqb k kind_secret || String.eqb k kind_sealed_secret.
Definition want_symbols (s : secret_spec) : bool := match sc_symbols s with Some b => b | None => 0 <? sc_min_special s end.

(** ** Accessors *)

Definition app_location (a : application_spec) : string := match ap_placement a with Some p => pl_location p | None => "" end.
Definition app_constraints (a : application_spec) : option (list string) :=
  match ap_placement a with Some p => pl_constraints p | None => None end.
Definition app_runtime (a : application_spec) : string := match ap_deployment a with Some d => dp_runtime d | None => "" end.
Definition app_replicas (a : application_spec) : Z := match ap_deployment a with Some d => dp_replicas d | None => 0 end.
Definition app_strategy (a : application_spec) : string := match ap_deployment a with Some d => dp_strategy d | None => "" end.
Definition app_update (a : application_spec) : option update_spec := match ap_deployment a with Some d => dp_update d | None => None end.
Definition security_run_as (s : option security_spec) : string := match s with Some s => se_run_as_user s | None => "" end.
Definition app_run_as_user (a : application_spec) : string := security_run_as (ap_security a).
Definition app_read_only_rootfs (a : application_spec) : bool := match ap_security a with Some s => se_read_only_rootfs s | None => false end.
Definition app_no_new_privileges (a : application_spec) : bool :=
  match ap_security a with Some s => default false (se_no_new_privileges s) | None => false end.
Definition app_capabilities (a : application_spec) : option capabilities_spec :=
  match ap_security a with Some s => se_capabilities s | None => None end.
Definition app_add_capabilities (a : application_spec) : option (list string) :=
  match app_capabilities a with Some c => cp_add c | None => None end.
Definition app_drop_capabilities (a : application_spec) : option (list string) :=
  match app_capabilities a with Some c => cp_drop c | None => None end.
Definition app_devices (a : application_spec) : option (list string) := match ap_security a with Some s => se_devices s | None => None end.
Definition stack_location (s : stack_spec) : string := default "" (st_placement s).
Definition database_location (d : database_spec) : string := match db_placement d with Some p => dl_location p | None => "" end.
Definition volume_location (v : volume_spec) : string := default "" (vo_placement v).

(** ** The set *)

(** [ResourceSet]: the resources in the order they came and the position of each key. *)
Record resource_set := ResourceSet { rl_list : list resource; rl_index : gmap string nat }.

Definition new_resource_set : resource_set := ResourceSet [] ∅.

Definition add (s : resource_set) (r : resource) : resource_set :=
  match rl_index s !! key r with
  | Some pos => ResourceSet (<[pos := r]> (rl_list s)) (rl_index s)
  | None => ResourceSet (rl_list s ++ [r]) (<[key r := length (rl_list s)]> (rl_index s))
  end.
Definition get (s : resource_set) (k : string) : option resource :=
  match rl_index s !! k with Some pos => rl_list s !! pos | None => None end.
Definition by_kind (s : resource_set) (k : kind) : list resource := List.filter (fun r => String.eqb (r_kind r) k) (rl_list s).
Definition has (s : resource_set) (k : kind) (name : string) : bool := bool_decide (is_Some (rl_index s !! key_of k name)).
Definition plain_secrets (s : resource_set) : list string :=
  sort_strings (omap (fun r => match r_spec r with
                               | SSecret sc => if String.eqb (r_kind r) kind_secret && negb (String.eqb (sc_value sc) "")
                                               then Some (r_name r) else None
                               | _ => None end) (rl_list s)).

(** * Facts *)

(** The index holds the position of every key, and only those. *)
Record set_ok (s : resource_set) : Prop := {
  so_keys : NoDup (key <$> rl_list s);
  so_index : forall k pos, rl_index s !! k = Some pos <-> exists r, rl_list s !! pos = Some r /\ key r = k }.

Lemma new_resource_set_ok : set_ok new_resource_set.
Proof. split; [constructor|]. intros k pos. cbn. rewrite lookup_empty. split; [done|]. intros (r & Hr & _). by rewrite lookup_nil in Hr. Qed.

Lemma key_unique l i j r r' : NoDup (key <$> l) -> l !! i = Some r -> l !! j = Some r' -> key r = key r' -> i = j.
Proof.
  intros Hn Hi Hj E. eapply (NoDup_lookup (key <$> l) i j (key r)); [done|by rewrite list_lookup_fmap, Hi|].
  by rewrite list_lookup_fmap, Hj, E.
Qed.

Lemma add_ok s r : set_ok s -> set_ok (add s r).
Proof.
  intros [Hn Hx]. unfold add. destruct (rl_index s !! key r) as [pos|] eqn:Ei.
  - apply Hx in Ei as (r0 & Hr0 & Ek). assert (Hlt : (pos < length (rl_list s))%nat) by by apply lookup_lt_Some in Hr0.
    assert (Hks : key <$> <[pos:=r]> (rl_list s) = key <$> rl_list s).
    { rewrite list_fmap_insert. apply list_insert_id. by rewrite list_lookup_fmap, Hr0, <- Ek. }
    split; cbn [rl_list rl_index]; [by rewrite Hks|]. intros k q. rewrite Hx.
    destruct (decide (q = pos)) as [->|Hq].
    + rewrite list_lookup_insert_eq by done. split; intros (x & Hx' & Hk); simplify_eq; eauto.
    + by rewrite list_lookup_insert_ne.
  - assert (Hno : ~ (key r ∈ key <$> rl_list s)).
    { intros (r' & Ek & Hin)%list_elem_of_fmap. apply list_elem_of_lookup in Hin as (i & Hi).
      assert (E : rl_index s !! key r = Some i) by (apply Hx; by exists r'). by rewrite Ei in E. }
    split; cbn [rl_list rl_index].
    + rewrite fmap_app. apply NoDup_app. split; [done|]. split; [|apply NoDup_singleton].
      intros k Hk ->%list_elem_of_singleton. done.
    + intros k q. destruct (decide (k = key r)) as [->|Hk].
      * rewrite lookup_insert_eq. split.
        { intros [= <-]. exists r. by rewrite list_lookup_middle. }
        intros (r' & Hr' & Ek). apply lookup_snoc_Some in Hr' as [[_ Hr']|[<- _]]; [|done].
        destruct Hno. apply list_elem_of_fmap. exists r'. split; [done|]. by eapply list_elem_of_lookup_2.
      * rewrite lookup_insert_ne, Hx by done. split; intros (r' & Hr' & Ek).
        { exists r'. split; [|done]. apply lookup_snoc_Some. left. split; [by apply lookup_lt_Some in Hr'|done]. }
        apply lookup_snoc_Some in Hr' as [[_ Hr']|[_ <-]]; [by exists r'|done].
Qed.

(** On a well-formed set, [Get] is the search of the list for the key. *)
Lemma get_spec s k r : set_ok s -> get s k = Some r <-> r ∈ rl_list s /\ key r = k.
Proof.
  intros [Hn Hx]. unfold get. split.
  - destruct (rl_index s !! k) as [pos|] eqn:E; [|done]. intros Hr. apply Hx in E as (r' & Hr' & Ek). simplify_eq.
    split; [by eapply list_elem_of_lookup_2|done].
  - intros [(i & Hi)%list_elem_of_lookup Ek]. assert (E : rl_index s !! k = Some i) by (apply Hx; by exists r). by rewrite E.
Qed.

Lemma has_spec s k name : set_ok s -> has s k name = true <-> exists r, r ∈ rl_list s /\ key r = key_of k name.
Proof.
  intros [Hn Hx]. unfold has. rewrite bool_decide_eq_true. split.
  - intros (pos & E). apply Hx in E as (r & Hr & Ek). exists r. split; [by eapply list_elem_of_lookup_2|done].
  - intros (r & (i & Hi)%list_elem_of_lookup & Ek). exists i. apply Hx. by exists r.
Qed.

Lemma get_none s k : set_ok s -> get s k = None <-> forall r, r ∈ rl_list s -> key r <> k.
Proof.
  intros Hok. split.
  - intros Hn r Hr Ek. assert (E : get s k = Some r) by by apply get_spec. by rewrite Hn in E.
  - intros Hall. destruct (get s k) as [r|] eqn:E; [|done]. apply get_spec in E as [Hr Ek]; [|done]. by destruct (Hall r Hr).
Qed.

Lemma set_unique s r r' : set_ok s -> r ∈ rl_list s -> r' ∈ rl_list s -> key r = key r' -> r = r'.
Proof.
  intros Hok Hr Hr' E. assert (E1 : get s (key r) = Some r) by by apply get_spec.
  assert (E2 : get s (key r) = Some r') by by apply get_spec. by rewrite E1 in E2; simplify_eq.
Qed.

(** Kinds hold no slash, so a key tells its kind and name. *)
Definition slashless (k : kind) : bool := str_forall (without "/") k.

Lemma known_kinds_slashless k : k ∈ known_kinds -> slashless k = true.
Proof. intros H. repeat (apply elem_of_cons in H as [->|H]; [done|]). by apply elem_of_nil in H. Qed.

Lemma key_of_inj k k' n n' : slashless k = true -> slashless k' = true -> key_of k n = key_of k' n' -> k = k' /\ n = n'.
Proof.
  unfold key_of. intros Hk Hk' E. pose proof (cut_app "/" k n Hk) as E1. pose proof (cut_app "/" k' n' Hk') as E2.
  change ("/" +:+ n) with (String "/" n) in E. change ("/" +:+ n') with (String "/" n') in E. rewrite E, E2 in E1. by simplify_eq.
Qed.
