(* ===== verification/ManifestSpec.v ===== *)
(** * Manifests: defaults and validation

    [internal/declarative/validate.go] and the load loop of [parse.go]: the defaults a parsed resource is given, the
    checks on each kind, the references inside a set, and the quantities of memory and CPU. Decoding YAML is
    not modelled: a load starts from the decoded resources. An error is the fixed part of its message. Cron
    expressions are read by a library: [cron_ok] tells which it accepts. *)
From S2P Require Import Prelude GoStrings Float64 GoText Grants ManifestTypes.
From Stdlib Require Import Floats.SpecFloat.
#[local] Open Scope Z_scope.
#[local] Open Scope list_scope.

(** ** Quantities *)

(** [int64] of a float: what does not fit is the least integer, the value an amd64 processor gives. *)
Definition int64_of_f64 (x : spec_float) : Z :=
  match f64_trunc x with
  | Some n => if (- 2 ^ 63 <=? n) && (n <=? max_int64) then n else - 2 ^ 63
  | None => - 2 ^ 63
  end.

Definition memory_unit (s : string) : Z * string :=
  if has_suffix "Gi" s then (2 ^ 30, trim_suffix "Gi" s)
  else if has_suffix "Mi" s then (2 ^ 20, trim_suffix "Mi" s)
  else if has_suffix "Ki" s then (2 ^ 10, trim_suffix "Ki" s)
  else (1, s).
Definition parse_quantity (s : string) (mult : spec_float) (err : string) : result string Z :=
  match parse_float s with
  | Some n => if f64_lt n f64_zero then Err err else Ok (int64_of_f64 (f64_mul n mult))
  | None => Err err
  end.
Definition memory_bytes (memory : string) : result string Z :=
  let s := trim_space memory in
  if String.eqb s "" || String.eqb s "0" then Ok 0
  else let '(mult, s) := memory_unit s in parse_quantity (trim_space s) (f64_of_int mult) "invalid memory".
Definition nano_cpus (cpu : string) : result string Z :=
  let s := trim_space cpu in
  if String.eqb s "" || String.eqb s "0" then Ok 0 else parse_quantity s (f64_of_int (10 ^ 9)) "invalid cpu".
Definition size_bytes (v : volume_spec) : result string Z := memory_bytes (vo_size v).

(** ** Grammars *)

Definition is_alnum (c : ascii) : bool := is_lower c || is_upper c || is_digit c.
Definition is_slug (c : ascii) : bool := is_lower c || is_digit c.
Definition one_of (l : list ascii) (c : ascii) : bool := existsb (Ascii.eqb c) l.
(** RE2's [\s] *)
Definition re_space (c : ascii) : bool := one_of ["009"; "010"; "012"; "013"; " "]%char c.

Definition head_is (p : ascii -> bool) (s : string) : bool := match s with String c _ => p c | EmptyString => false end.
Fixpoint last_is (p : ascii -> bool) (s : string) : bool :=
  match s with String c EmptyString => p c | String _ s => last_is p s | EmptyString => false end.
(** [^[ends]([mid]*[ends])?$] *)
Definition bounded_by (ends mid : ascii -> bool) (s : string) : bool := head_is ends s && last_is ends s && str_forall mid s.

Definition name_re (s : string) : bool := head_is is_slug s && str_forall (fun c => is_slug c || Ascii.eqb c "-") s.
Definition file_char (c : ascii) : bool := is_alnum c || one_of ["."; "_"; "-"]%char c.
Definition config_key_re (s : string) : bool :=
  match split "/" s with
  | first :: rest => head_is is_alnum first && str_forall file_char first
                     && forallb (fun seg => negb (String.eqb seg "") && str_forall file_char seg) rest
  | [] => false
  end.
Definition hostname_re (s : string) : bool :=
  forallb (bounded_by is_slug (fun c => is_slug c || Ascii.eqb c "-")) (split "." s).
Definition label_char (c : ascii) : bool := is_alnum c || one_of ["-"; "_"; "."]%char c.
Definition label_val_re (s : string) : bool := bounded_by is_alnum label_char s.
Definition label_key_re (s : string) : bool :=
  let '(pre, name, found) := cut "/" s in
  if found then bounded_by is_slug (fun c => is_slug c || one_of ["-"; "."]%char c) pre && label_val_re name
  else label_val_re pre.
Definition registry_server_re (s : string) : bool :=
  let '(host, port, found) := cut ":" s in
  hostname_re host && (negb found || (str_forall is_digit port && negb (String.eqb port "") && (String.length port <=? 5)%nat)).
Definition constraint_re (s : string) : bool :=
  let name := drop_while file_char s in
  negb (String.eqb name s)
  && match drop_while re_space name with
     | String a (String b v) =>
         (Ascii.eqb a "=" || Ascii.eqb a "!") && Ascii.eqb b "="
         && match drop_while re_space v with
            | String c r => negb (Ascii.eqb c "=") && negb (Ascii.eqb c "!") && str_forall (fun c => negb (Ascii.eqb c "010")) r
            | EmptyString => false
            end
     | _ => false
     end.

(** [base64.StdEncoding.DecodeString], as far as whether it accepts and how long the result is *)
Definition base64_char (c : ascii) : bool := is_alnum c || one_of ["+"; "/"]%char c.
Definition base64_len (s : string) : option Z :=
  let s := of_chars (List.filter (fun c => negb (one_of ["010"; "013"]%char c)) (chars s)) in
  let body := drop_end_while (Ascii.eqb "=") s in
  let padding := Z.of_nat (String.length s - String.length body) in
  if (Z.of_nat (String.length s) `mod` 4 =? 0) && (padding <=? 2) && str_forall base64_char body
  then Some (Z.of_nat (String.length s) / 4 * 3 - padding) else None.
(** [sealed.Parse]: the version and the length of the ciphertext *)
Definition sealed_prefix : string := "sealed:v1:".
Definition sealed_parse (s : string) : option (Z * Z) :=
  match cut_prefix sealed_prefix (trim_space s) with
  | None => None
  | Some rest =>
      let '(ver, data, found) := cut ":" rest in
      if negb found then None
      else match atoi ver with
           | Some v => if v <? 0 then None
                       else match base64_len data with Some n => if n =? 0 then None else Some (v, n) | None => None end
           | None => None
           end
  end.

(** ** Defaults *)

Definition default_file_mode : string := "0644".
Definition reload_restart : string := "restart".
Definition reload_none : string := "none".
Definition default_registry_server : string := "registry-1.docker.io".

Definition or_else (s d : string) : string := if String.eqb s "" then d else s.

Definition normalize_registry_server (server : string) : string :=
  let s := trim_space server in
  if String.eqb s "" then default_registry_server
  else trim_suffix "/" (trim_prefix "http://" (trim_prefix "https://" s)).
Definition normalize_git_url (raw : string) : string :=
  let u := trim_right_char "/" (trim_space raw) in
  if negb (String.eqb u "") && negb (has_suffix ".git" (to_lower u)) then u +:+ ".git" else u.

Definition normalize_port (p : port_spec) : port_spec :=
  PortSpec (pt_container p) (or_else (pt_protocol p) "tcp") (or_else (pt_scheme p) "http") (pt_external p)
    (pt_publish p || (0 <? pt_host_port p)) (pt_host_port p).
Definition normalize_mount (m : mount_spec) : mount_spec :=
  MountSpec (mn_volume m) (mn_config m) (mn_key m) (mn_path m) (mn_mode m) (mn_read_only m || negb (String.eqb (mn_config m) "")).

Definition adopt_strategy (dep : string) (d : option deployment_spec) : string * option deployment_spec :=
  let strategy := match d with Some d => dp_strategy d | None => "" end in
  if negb (String.eqb dep "") && String.eqb strategy "" then
    ("", Some (match d with
               | Some d => DeploymentSpec (dp_runtime d) (dp_replicas d) dep (dp_update d)
               | None => DeploymentSpec "" 0 dep None
               end))
  else (dep, d).
Definition adopt_run_as_user (dep : string) (s : option security_spec) : string * option security_spec :=
  if negb (String.eqb dep "") && String.eqb (security_run_as s) "" then
    let s := default empty_security s in
    ("", Some (SecuritySpec dep (se_read_only_rootfs s) (se_no_new_privileges s) (se_capabilities s) (se_devices s)
                 (se_deprecated_add s)))
  else (dep, s).
Definition adopt_capabilities (s : option security_spec) : option security_spec :=
  match s with
  | Some sec =>
      let added := match se_capabilities sec with Some c => cp_add c | None => None end in
      match se_deprecated_add sec, added with
      | Some dep, None =>
          Some (SecuritySpec (se_run_as_user sec) (se_read_only_rootfs sec) (se_no_new_privileges sec)
                  (Some (CapabilitiesSpec (Some dep) (match se_capabilities sec with Some c => cp_drop c | None => None end)))
                  (se_devices sec) None)
      | _, _ => s
      end
  | None => None
  end.

Definition normalize_application (a : application_spec) : application_spec :=
  let '(strategy, deployment) := adopt_strategy (ap_deprecated_strategy a) (ap_deployment a) in
  let '(run_as, security) := adopt_run_as_user (ap_deprecated_run_as_user a) (ap_security a) in
  ApplicationSpec (ap_source a) (ap_image a) (ap_tag a) (ap_digest a) (ap_command a) (normalize_port <$> ap_ports a)
    (ap_env a) (ap_secret_env a) (normalize_mount <$> ap_mounts a) (ap_resources a) (ap_placement a) deployment
    (adopt_capabilities security) (ap_healthcheck a) (ap_container_labels a) (ap_stack a) (ap_registry a)
    (ap_external_label a) (or_else (ap_reload_policy a) reload_restart) run_as strategy (ap_config_fp a).

Definition normalize_database (d : database_spec) : database_spec :=
  let legacy := match db_placement d with Some p => dl_legacy_instance p | None => "" end in
  let '(inst, placement) := if negb (String.eqb legacy "") && String.eqb (db_instance d) ""
                            then (legacy, None) else (db_instance d, db_placement d) in
  DatabaseSpec (db_engine d) (db_version d) (or_else inst "auto") placement (db_resources d) (db_read_only_user d).

Definition normalize_spec (s : spec) : spec :=
  match s with
  | SApplication a => SApplication (normalize_application a)
  | SConfig c => SConfig (ConfigSpec (cf_data c) (or_else (cf_mode c) default_file_mode) (cf_sensitive c) (cf_delimiters c) (cf_digest_fp c))
  | SDatabase d => SDatabase (normalize_database d)
  | SRoute r => SRoute (RouteSpec (ro_hosts r) (ro_app r) (ro_port r) (or_else (ro_path r) "/") (or_else (ro_tls r) "acme")
                          (ro_certificate r) (ro_tls_provider r) (ro_rewrite r) (ro_methods r) (ro_advanced_config r)
                          (ro_exploit_protection r) (ro_maintenance r) (ro_middlewares r))
  | SDomain d => SDomain (DomainSpec (or_else (dm_tls d) "acme") (dm_wildcard d))
  | SRegistry r => SRegistry (RegistrySpec (normalize_registry_server (rg_server r)) (rg_username r) (rg_password r) (rg_password_fp r))
  | SGitRepository g =>
      SGitRepository (GitRepositorySpec (normalize_git_url (gr_url g))
        (or_else (gr_auth g) (if String.eqb (gr_secret_ref g) "" then "public" else "token")) (gr_username g) (gr_secret_ref g))
  | SGitSource g =>
      SGitSource (GitSourceSpec (trim_space (gs_repo g)) (gs_repository g) (or_else (trim_space (gs_ref g)) "main")
        (or_else (trim_space (gs_path g)) ".") (or_else (gs_sync_policy g) "manual") (gs_prune g) (gs_self_heal g)
        (gs_allow_empty g) (gs_require_sealed g) (or_else (gs_delete_policy g) delete_policy_orphan))
  | _ => s
  end.
Definition normalize (r : resource) : resource := Resource (r_kind r) (r_meta r) (normalize_spec (r_spec r)).

(** ** Validation *)

Definition refuse (b : bool) (why : string) : result string unit := if b then Err why else Ok tt.
(** The first error of a list of checks *)
Fixpoint check_each {A : Type} (check : A -> result string unit) (l : list A) : result string unit :=
  match l with
  | [] => Ok tt
  | x :: l => let? _ := check x in check_each check l
  end.
Definition grants_ok {A : Type} (r : result grant_err A) (why : string) : result string A :=
  match r with Ok x => Ok x | Err _ => Err why end.
Definition mem (s : string) (l : list string) : bool := bool_decide (s ∈ l).
Definition missing (s : string) : bool := String.eqb s "".
Definition blank (s : string) : bool := String.eqb (trim_space s) "".
Definition stated {A : Type} (o : option A) : bool := match o with Some _ => true | None => false end.
Definition has_non_empty (l : list string) : bool := existsb (fun s => negb (blank s)) l.

Definition max_meta_segment : nat := 63.
Definition after_last_slash (s : string) : string := List.last (split "/" s) "".
Definition valid_meta_key (k : string) : result string unit :=
  refuse (missing k || (max_meta_segment <? String.length (after_last_slash k))%nat || negb (label_key_re k)) "metadata key is invalid".
Definition validate_meta (m : meta) : result string unit :=
  let? _ := check_each (fun kv => let? _ := valid_meta_key kv.1 in
              refuse ((max_meta_segment <? String.length kv.2)%nat || (negb (missing kv.2) && negb (label_val_re kv.2)))
                "label has invalid value") (map_to_list (mt_labels m)) in
  check_each (fun kv => valid_meta_key kv.1) (map_to_list (mt_annotations m)).

Definition valid_build_method : list string := ["auto"; "dockerfile"; "buildpack"].
Definition validate_source (s : source_spec) : result string unit :=
  let? _ := refuse (blank (so_git s)) "source.git is required" in
  let? _ := refuse (negb (missing (so_build_method s)) && negb (mem (so_build_method s) valid_build_method))
              "source.buildMethod must be auto, dockerfile or buildpack" in
  let? _ := refuse (String.eqb (so_build_method s) "dockerfile"
                    && (negb (missing (so_builder s)) || negb (bool_decide (so_buildpacks s = []))))
              "source.builder and source.buildpacks apply to buildpack builds" in
  refuse (negb (missing (so_repository s)) && negb (name_re (so_repository s))) "source.repository must be a resource name".

Definition valid_http_method : list string := ["GET"; "HEAD"; "POST"; "PUT"; "PATCH"; "DELETE"; "CONNECT"; "OPTIONS"; "TRACE"].
Definition valid_strategy : list string := ["recreate"; "rolling"; "canary"].
Definition valid_healthcheck_type : list string := ["image"; "none"; "http"; "command"].

Definition validate_healthcheck (hc : option healthcheck_spec) : result string unit :=
  match hc with
  | None => Ok tt
  | Some hc =>
      let? _ := refuse (negb (mem (hc_type hc) valid_healthcheck_type)) "healthcheck.type must be http, command, image or none" in
      let? _ := refuse (String.eqb (hc_type hc) "command" && blank (hc_command hc)) "healthcheck.command is required" in
      let? _ := refuse (negb (missing (hc_path hc)) && negb (has_prefix "/" (hc_path hc))) "healthcheck.path must start with /" in
      let? _ := refuse ((hc_port hc <? 0) || (65535 <? hc_port hc)) "healthcheck.port must be between 1 and 65535" in
      refuse ((hc_interval hc <? 0) || (hc_timeout hc <? 0) || (hc_retries hc <? 0) || (hc_start_period hc <? 0))
        "healthcheck intervals and retries cannot be negative"
  end.

Definition runtime_container : string := "container".
Definition runtime_service : string := "service".
Definition max_service_replicas : Z := 100.
Definition validate_runtime (a : application_spec) : result string unit :=
  let service := String.eqb (app_runtime a) runtime_service in
  let? _ := refuse (negb (missing (app_runtime a)) && negb (mem (app_runtime a) [runtime_container; runtime_service]))
              "deployment.runtime must be container or service" in
  let? _ := refuse (negb service && (negb (app_replicas a =? 0) || stated (app_constraints a) || stated (app_update a)))
              "deployment.replicas, deployment.update and placement.constraints need deployment.runtime: service" in
  let? _ := refuse ((app_replicas a <? 0) || (max_service_replicas <? app_replicas a)) "deployment.replicas must be between 1 and 100" in
  let? _ := refuse (service && negb (bool_decide (default [] (app_devices a) = []))) "devices cannot be attached to a service" in
  let? _ := check_each (fun c => refuse (negb (constraint_re (trim_space c))) "placement constraint must read <attribute>==<value>")
              (default [] (app_constraints a)) in
  match app_update a with
  | Some u => refuse ((up_parallelism u <? 0) || (up_delay_seconds u <? 0)) "deployment.update cannot be negative"
  | None => Ok tt
  end.

Definition validate_config_key (k : string) : result string unit :=
  let? _ := refuse (missing k) "file key must not be empty" in
  let? _ := refuse (negb (config_key_re k)) "file key must be a relative path" in
  refuse (existsb (fun seg => String.eqb seg "." || String.eqb seg "..") (split "/" k)) "file key must not contain path traversal".

(** [strconv.ParseUint] in base 8, on at most four digits *)
Fixpoint octal (acc : Z) (s : string) : option Z :=
  match s with
  | EmptyString => Some acc
  | String c s => let d := byte_code c - 48 in if (0 <=? d) && (d <=? 7) then octal (acc * 8 + d) s else None
  end.
Definition validate_file_mode (mode : string) : result string unit :=
  if missing mode then Ok tt
  else if (String.length mode <? 3)%nat || (4 <? String.length mode)%nat then Err "mode must be 3 or 4 octal digits"
  else match octal 0 mode with
       | None => Err "mode is not octal"
       | Some v => refuse (negb (Z.land v (7 * 8 ^ 3) =? 0)) "mode must not set the setuid, setgid or sticky bit"
       end.

Definition validate_mount (m : mount_spec) : result string unit :=
  let? _ := refuse (missing (mn_volume m) && missing (mn_config m)) "mount must set exactly one of volume or config" in
  let? _ := refuse (negb (missing (mn_volume m)) && negb (missing (mn_config m))) "mount sets both volume and config" in
  let? _ := refuse (negb (has_prefix "/" (mn_path m))) "mount path must be absolute" in
  if missing (mn_config m) then
    let? _ := refuse (negb (missing (mn_key m))) "mount key is only valid with a config" in
    refuse (negb (missing (mn_mode m))) "mount mode is only valid with a config"
  else
    let? _ := refuse (negb (name_re (mn_config m))) "mount config must be a resource name" in
    let? _ := (if missing (mn_key m) then Ok tt
               else let? _ := validate_config_key (mn_key m) in
                    refuse (has_suffix "/" (mn_path m)) "mount path must be a file path when key is set") in
    validate_file_mode (mn_mode m).

(** Does a mount of the list lie strictly inside the volume mounted at [outer]? The mount itself never does. *)
Definition nested_in (outer : string) (m : mount_spec) : bool :=
  let inner := trim_suffix "/" (mn_path m) in
  negb (missing outer) && negb (missing inner) && negb (String.eqb inner outer) && has_prefix (outer +:+ "/") inner.
Definition validate_mount_overlap (ms : list mount_spec) : result string unit :=
  check_each (fun v => refuse (negb (missing (mn_volume v)) && existsb (nested_in (trim_suffix "/" (mn_path v))) ms)
                         "mount path is nested inside a volume mount") ms.

Definition validate_port (p : port_spec) : result string unit :=
  let? _ := refuse ((pt_container p <=? 0) || (65535 <? pt_container p)) "invalid container port" in
  let? _ := refuse (negb (mem (pt_scheme p) ["http"; "https"])) "port scheme must be http or https" in
  let? _ := refuse (negb (mem (pt_protocol p) ["tcp"; "udp"])) "port protocol must be tcp or udp" in
  refuse ((pt_host_port p <? 0) || (65535 <? pt_host_port p)) "hostPort out of range".

Definition validate_security (a : application_spec) : result string unit :=
  let? _ := grants_ok (normalize_run_as_user (app_run_as_user a)) "security.runAsUser" in
  if stated (ap_security a) then
    let? add := grants_ok (normalize_capabilities (default [] (app_add_capabilities a))) "security.capabilities.add" in
    let? drop := grants_ok (normalize_drop_capabilities (default [] (app_drop_capabilities a))) "security.capabilities.drop" in
    let? _ := refuse (stated (check_capability_conflict add drop)) "capability is both added and dropped" in
    let? _ := grants_ok (normalize_devices (default [] (app_devices a))) "security.devices" in Ok tt
  else Ok tt.

Definition validate_resources (r : option resource_spec) : result string unit :=
  match r with
  | None => Ok tt
  | Some r => let? _ := memory_bytes (rs_memory r) in
              let? _ := nano_cpus (rs_cpu r) in
              refuse ((rs_gpu r <? 0) || (64 <? rs_gpu r)) "invalid gpu"
  end.

Definition validate_application (a : application_spec) : result string unit :=
  let? _ := refuse (negb (missing (ap_deprecated_strategy a))) "strategy is the old spelling of deployment.strategy" in
  let? _ := refuse (negb (missing (ap_deprecated_run_as_user a))) "runAsUser is the old spelling of security.runAsUser" in
  let? _ := refuse (match ap_security a with Some s => stated (se_deprecated_add s) | None => false end)
              "security.addCapabilities is the old spelling of security.capabilities.add" in
  let? _ := (match ap_source a with
             | None => refuse (blank (ap_image a)) "one of image or source is required"
             | Some s => let? _ := refuse (negb (blank (ap_image a))) "image and source are mutually exclusive" in validate_source s
             end) in
  let? _ := refuse (negb (missing (ap_digest a)) && negb (has_prefix "sha256:" (ap_digest a))) "digest must be a sha256: reference" in
  let? _ := check_each validate_port (ap_ports a) in
  let? _ := validate_security a in
  let? _ := validate_healthcheck (ap_healthcheck a) in
  let? _ := refuse (negb (missing (ap_external_label a)) && negb (name_re (ap_external_label a))) "externalLabel must be a DNS label" in
  let? _ := refuse (negb (missing (ap_registry a)) && negb (name_re (ap_registry a))) "registry must be a resource name" in
  let? _ := refuse (negb (missing (app_strategy a)) && negb (mem (app_strategy a) valid_strategy)) "deployment.strategy must be recreate, rolling or canary" in
  let? _ := validate_runtime a in
  let? _ := refuse (negb (mem (ap_reload_policy a) [""; reload_restart; reload_none])) "reloadPolicy must be restart or none" in
  let? _ := check_each validate_mount (ap_mounts a) in
  let? _ := validate_mount_overlap (ap_mounts a) in
  let? _ := check_each (fun k => refuse (negb (stated (ap_env a !! k))) "secretEnv is not declared in env") (ap_secret_env a) in
  validate_resources (ap_resources a).

Definition valid_engines : list string := ["postgres"; "mysql"; "mariadb"; "redis"; "mongodb"; "libsql"].
Definition engine_supports_logical_databases (e : string) : bool := mem e ["postgres"; "mysql"; "mariadb"; "mongodb"].
Definition validate_database (d : database_spec) : result string unit :=
  let? _ := refuse (negb (mem (db_engine d) valid_engines)) "unsupported engine" in
  let? _ := refuse (match db_placement d with Some p => negb (missing (dl_legacy_instance p)) | None => false end)
              "placement is the old spelling of instance" in
  let? _ := refuse (negb (mem (db_instance d) ["auto"; "dedicated"; "shared"])) "invalid instance" in
  let? _ := refuse (default false (db_read_only_user d) && negb (String.eqb (db_engine d) "postgres"))
              "readOnlyUser is available for postgres only" in
  let? _ := refuse (negb (engine_supports_logical_databases (db_engine d)) && String.eqb (db_instance d) "shared")
              "instance cannot be 'shared'" in
  match db_resources d with
  | None => Ok tt
  | Some r =>
      let? _ := refuse (negb (missing (dr_size r)) && (negb (missing (dr_memory r)) || negb (missing (dr_cpu r))))
                  "name a size, or set memory and cpu, not both" in
      let? _ := refuse (negb (missing (dr_size r)) && negb (name_re (dr_size r))) "size must be a size name" in
      let? _ := memory_bytes (dr_memory r) in
      let? _ := nano_cpus (dr_cpu r) in
      refuse (String.eqb (db_instance d) "shared") "resources size an instance of its own"
  end.

Definition validate_middleware (m : middleware_spec) : result string unit :=
  let? _ := refuse (blank (mw_type m)) "type is required" in
  check_each (fun p => refuse (blank p) "paths must not contain an empty entry") (mw_paths m).

Fixpoint check_middleware_names (seen : list string) (l : list string) : result string unit :=
  match l with
  | [] => Ok tt
  | n :: l =>
      let n := trim_space n in
      let? _ := refuse (missing n) "middlewares must not contain an empty name" in
      let? _ := refuse (mem n seen) "middleware is listed twice" in
      check_middleware_names (n :: seen) l
  end.
Definition validate_route (r : route_spec) : result string unit :=
  let? _ := refuse (negb (has_non_empty (ro_hosts r))) "at least one host is required" in
  let? _ := refuse (blank (ro_app r)) "app target is required" in
  let? _ := refuse (negb (mem (ro_tls r) ["acme"; "custom"; "off"])) "tls must be acme, custom or off" in
  let? _ := refuse (String.eqb (ro_tls r) "custom" && blank (ro_certificate r)) "tls: custom needs certificate" in
  let? _ := refuse (negb (String.eqb (ro_tls r) "custom") && negb (missing (ro_certificate r))) "certificate applies to tls: custom" in
  let? _ := refuse (negb (missing (ro_certificate r)) && negb (name_re (ro_certificate r))) "certificate must be a resource name" in
  let? _ := refuse (negb (missing (ro_tls_provider r)) && negb (String.eqb (ro_tls r) "acme")) "tlsProvider applies to tls: acme" in
  let? _ := check_each (fun m => refuse (negb (mem (to_upper (trim_space m)) valid_http_method)) "method is not an HTTP method") (ro_methods r) in
  check_middleware_names [] (ro_middlewares r).

Definition validate_registry (r : registry_spec) : result string unit :=
  let? _ := refuse (negb (registry_server_re (rg_server r))) "server must be a host, optionally with a port" in
  refuse (blank (rg_username r) && negb (blank (rg_password r))) "username is required when a password is set".

Definition validate_sealed_secret (s : sealed_secret_spec) : result string unit :=
  let? _ := refuse (missing (ss_value s)) "value is required" in
  refuse (negb (stated (sealed_parse (ss_value s)))) "value must be sealed".

Definition validate_git_repository (g : git_repository_spec) : result string unit :=
  let? _ := refuse (missing (gr_url g)) "url is required" in
  let? _ := refuse (negb (mem (gr_auth g) ["public"; "token"; "ssh"])) "auth must be public, token or ssh" in
  let? _ := refuse (String.eqb (gr_auth g) "public" && negb (missing (gr_secret_ref g))) "a public repository takes no secretRef" in
  let? _ := refuse (negb (String.eqb (gr_auth g) "public") && missing (gr_secret_ref g)) "auth needs secretRef" in
  refuse (negb (missing (gr_secret_ref g)) && negb (name_re (gr_secret_ref g))) "secretRef must be a resource name".

Definition validate_git_source (g : git_source_spec) : result string unit :=
  let? _ := refuse (Bool.eqb (missing (gs_repo g)) (missing (gs_repository g))) "set exactly one of repo and repository" in
  let? _ := refuse (negb (missing (gs_repository g)) && negb (name_re (gs_repository g))) "repository must be a resource name" in
  let? _ := refuse (negb (mem (gs_sync_policy g) ["manual"; "auto"])) "syncPolicy must be manual or auto" in
  let? _ := refuse (negb (mem (gs_delete_policy g) [delete_policy_orphan; delete_policy_cascade])) "deletePolicy must be orphan or cascade" in
  refuse (has_prefix "/" (gs_path g) || mem ".." (split "/" (gs_path g))) "path must be relative to the repository root".

Definition max_config_file_bytes : Z := 256 * 1024.
Definition max_config_total_bytes : Z := 512 * 1024.
Definition data_bytes (data : gmap string string) : Z :=
  foldr (fun kv n => Z.of_nat (String.length kv.2) + n) 0 (map_to_list data).
Definition validate_config (c : config_spec) : result string unit :=
  let? _ := refuse (bool_decide (cf_data c = ∅)) "data must declare at least one file" in
  let? _ := check_each (fun kv => let? _ := validate_config_key kv.1 in
              refuse (max_config_file_bytes <? Z.of_nat (String.length kv.2)) "file is over the limit") (map_to_list (cf_data c)) in
  let? _ := refuse (max_config_total_bytes <? data_bytes (cf_data c)) "total content is over the limit" in
  let? _ := validate_file_mode (cf_mode c) in
  match cf_delimiters c with
  | [] => Ok tt
  | [l; r] => let? _ := refuse (missing l || missing r) "delimiters must both be non-empty" in
              refuse (String.eqb l r) "delimiters must differ from each other"
  | _ => Err "delimiters must be exactly two entries"
  end.

Definition validate_run_template (command : list string) (image registry : string) (timeout history : Z) (sec : option security_spec)
    : result string unit :=
  let? _ := refuse (negb (has_non_empty command)) "command is required" in
  let? _ := refuse (negb (missing registry) && blank image) "registry is only valid with image" in
  let? _ := refuse ((timeout <? 0) || (history <? 0)) "timeoutSeconds and historyLimit must not be negative" in
  match sec with
  | Some s => let? _ := grants_ok (normalize_run_as_user (se_run_as_user s)) "security.runAsUser" in Ok tt
  | None => Ok tt
  end.

Definition concurrency_policies : list string := ["allow"; "forbid"; "replace"].
(** [Policy], [Waits] *)
Definition job_policy (j : job_spec) : string := or_else (jb_run_policy j) run_on_change.
Definition job_waits (j : job_spec) : bool := String.eqb (job_policy j) run_on_change && default true (jb_wait_for_deploy j).

Definition max_backoff_limit : Z := 10.
Definition validate_job (j : job_spec) : result string unit :=
  let? _ := refuse (blank (jb_app j)) "app is required" in
  let? _ := refuse (negb (mem (job_policy j) [run_on_change; run_once; run_on_release])) "runPolicy must be onChange, once or onRelease" in
  let? _ := refuse (stated (jb_wait_for_deploy j) && negb (String.eqb (job_policy j) run_on_change))
              "waitForDeploy only applies to runPolicy onChange" in
  let? _ := refuse ((jb_backoff_limit j <? 0) || (max_backoff_limit <? jb_backoff_limit j)) "backoffLimit must be between 0 and 10" in
  validate_run_template (jb_command j) (jb_image j) (jb_registry j) (jb_timeout j) (jb_history j) (jb_security j).

Section Load.
Context (cron_ok : string -> bool).

Definition validate_cron_job (c : cron_job_spec) : result string unit :=
  let? _ := refuse (blank (cj_app c)) "app is required" in
  let? _ := refuse (blank (cj_schedule c)) "schedule is required" in
  let? _ := refuse (negb (cron_ok (cj_schedule c))) "invalid schedule" in
  let? _ := refuse (negb (missing (cj_concurrency c)) && negb (mem (cj_concurrency c) concurrency_policies))
              "concurrencyPolicy must be one of allow, forbid, replace" in
  validate_run_template (cj_command c) (cj_image c) (cj_registry c) (cj_timeout c) (cj_history c) (cj_security c).

Definition no_spec : result string unit := Err "spec is required".
(** The code's switch is on the kind; each check then looks at the spec of that kind. *)
Definition validate_kind (k : kind) (s : spec) : result string unit :=
  if String.eqb k kind_application then match s with SApplication a => validate_application a | _ => no_spec end
  else if String.eqb k kind_database then match s with SDatabase d => validate_database d | _ => no_spec end
  else if String.eqb k kind_route then match s with SRoute r => validate_route r | _ => no_spec end
  else if String.eqb k kind_domain then
    match s with SDomain d => refuse (negb (mem (dm_tls d) ["acme"; "custom"])) "tls must be acme or custom" | _ => Ok tt end
  else if String.eqb k kind_registry then match s with SRegistry r => validate_registry r | _ => no_spec end
  else if String.eqb k kind_git_source then match s with SGitSource g => validate_git_source g | _ => no_spec end
  else if String.eqb k kind_git_repository then match s with SGitRepository g => validate_git_repository g | _ => no_spec end
  else if String.eqb k kind_config then match s with SConfig c => validate_config c | _ => no_spec end
  else if String.eqb k kind_middleware then match s with SMiddleware m => validate_middleware m | _ => no_spec end
  else if String.eqb k kind_cron_job then match s with SCronJob c => validate_cron_job c | _ => no_spec end
  else if String.eqb k kind_job then match s with SJob j => validate_job j | _ => no_spec end
  else if String.eqb k kind_sealed_secret then match s with SSealedSecret x => validate_sealed_secret x | _ => no_spec end
  else if String.eqb k kind_stack then
    match s with
    | SStack x => check_each (fun v => refuse (negb (stated (default ∅ (st_env x) !! v))) "secretEnv is not declared in env") (st_secret_env x)
    | _ => Ok tt
    end
  else if mem k [kind_volume; kind_secret; kind_project] then Ok tt
  else Err "unknown kind".

Definition validate (r : resource) : result string unit :=
  let? _ := (if String.eqb (r_kind r) kind_domain
             then refuse (negb (hostname_re (r_name r))) "metadata.name must be a valid hostname"
             else refuse (negb (name_re (r_name r))) "metadata.name must be a slug") in
  let? _ := validate_meta (r_meta r) in
  validate_kind (r_kind r) (r_spec r).

(** ** References inside a set *)

Definition mount_known (s : resource_set) (m : mount_spec) : bool :=
  if negb (missing (mn_config m)) then has s kind_config (mn_config m) else has s kind_volume (mn_volume m).
Definition validate_reference (s : resource_set) (r : resource) : result string unit :=
  let? _ := refuse (String.eqb (r_kind r) kind_sealed_secret && has s kind_secret (r_name r))
              "secret is declared both as a Secret and as a SealedSecret" in
  match r_spec r with
  | SApplication a =>
      let? _ := check_each (fun m => refuse (negb (mount_known s m)) "mount references unknown resource") (ap_mounts a) in
      refuse (negb (missing (ap_stack a)) && negb (has s kind_stack (ap_stack a))) "references unknown stack"
  | SRoute ro => refuse (negb (has s kind_application (ro_app ro))) "targets unknown application"
  | _ => Ok tt
  end.
Definition validate_references (s : resource_set) : result string unit := check_each (validate_reference s) (rl_list s).

(** ** Loading *)

(** The loop of [Parse] and of [ParseFS]: each decoded resource gets its defaults, is checked and added. *)
Fixpoint load_into (s : resource_set) (rs : list resource) : result string resource_set :=
  match rs with
  | [] => Ok s
  | r :: rs =>
      let r := normalize r in
      let? _ := validate r in
      match get s (key r) with
      | Some _ => Err "duplicate resource"
      | None => load_into (add s r) rs
      end
  end.
(** [Parse], after decoding *)
Definition load (rs : list resource) : result string resource_set :=
  let? s := load_into new_resource_set rs in
  let? _ := validate_references s in
  Ok s.
(** [ParseFS]: the resources of the files, in the order of their paths *)
Definition err_no_resources : string := "no declarative resources found".
Definition load_files (files : list (string * list resource)) : result string resource_set :=
  let files := stable_sort (fun a b => str_lt a.1 b.1) files in
  let? s := load_into new_resource_set (concat files.*2) in
  let? _ := refuse (bool_decide (rl_list s = [])) err_no_resources in
  let? _ := validate_references s in
  Ok s.
End Load.

(** * Facts *)

#[local] Arguments String.append !_ _ /.
#[local] Arguments or_else : simpl never.
#[local] Arguments trim_space : simpl never.

Lemma refuse_ok b why : refuse b why = Ok tt <-> b = false.
Proof. by destruct b. Qed.

Lemma rbind_tt {E} (r : result E unit) k : (let? _ := r in k) = Ok tt <-> r = Ok tt /\ k = Ok tt.
Proof. destruct r as [[]|]; cbn; naive_solver. Qed.

Lemma check_each_ok {A} (check : A -> result string unit) l : check_each check l = Ok tt <-> forall x, x ∈ l -> check x = Ok tt.
Proof.
  induction l as [|x l IH]; cbn [check_each]; [split; [by intros _ x ?%elem_of_nil|done]|]. rewrite rbind_tt, IH. split.
  - intros [Hx Hl] y [->|Hy]%elem_of_cons; [done|by apply Hl].
  - intros H. split; [apply H, elem_of_cons; by left|]. intros y Hy. apply H, elem_of_cons. by right.
Qed.

Lemma unit_ok {E} (r : result E unit) : is_ok r = true -> r = Ok tt.
Proof. by destruct r as [[]|]. Qed.

Lemma mem_spec s l : mem s l = true <-> s ∈ l.
Proof. apply bool_decide_eq_true. Qed.

Lemma missing_spec s : missing s = true <-> s = "".
Proof. apply String.eqb_eq. Qed.

(** Turn an accepted validation into the facts it checked. *)
Ltac accepted H :=
  repeat lazymatch type of H with
  | (let? _ := _ in _) = Ok tt => let H1 := fresh "Hc" in apply rbind_tt in H as [H1 H]; rewrite ?refuse_ok in H1
  | refuse _ _ = Ok tt => apply refuse_ok in H
  end.

Lemma or_else_idem s d : d <> "" -> or_else (or_else s d) d = or_else s d.
Proof. intros Hd. unfold or_else. destruct (String.eqb_spec s ""); [by apply String.eqb_neq in Hd; rewrite Hd|]. by apply String.eqb_neq in n as ->. Qed.

Lemma or_else_keep s d : s <> "" -> or_else s d = s.
Proof. intros Hs. unfold or_else. by apply String.eqb_neq in Hs as ->. Qed.

Lemma or_else_not_nil s d : d <> "" -> or_else s d <> "".
Proof. intros Hd. unfold or_else. by destruct (String.eqb_spec s ""). Qed.

(** ** Defaults are given once *)

Lemma normalize_port_idem p : normalize_port (normalize_port p) = normalize_port p.
Proof. unfold normalize_port. cbn. rewrite !or_else_idem by done. f_equal. by destruct (pt_publish p), (0 <? pt_host_port p). Qed.

Lemma normalize_mount_idem m : normalize_mount (normalize_mount m) = normalize_mount m.
Proof. unfold normalize_mount. cbn. f_equal. by destruct (mn_read_only m), (negb _). Qed.

Lemma normalize_application_lists a :
  let n := normalize_application a in
  ap_ports n = normalize_port <$> ap_ports a /\ ap_mounts n = normalize_mount <$> ap_mounts a
  /\ ap_reload_policy n = or_else (ap_reload_policy a) reload_restart.
Proof. unfold normalize_application. by destruct (adopt_strategy _ _), (adopt_run_as_user _ _). Qed.

Lemma fmap_idem {A} (f : A -> A) (l : list A) : (forall x, f (f x) = f x) -> f <$> (f <$> l) = f <$> l.
Proof. intros Hf. rewrite <- list_fmap_compose. apply list_fmap_ext. intros. apply Hf. Qed.

(** An application whose old spellings are gone is its own normal form. *)
Lemma normalize_application_idem a : validate_application (normalize_application a) = Ok tt ->
  normalize_application (normalize_application a) = normalize_application a.
Proof.
  intros H. destruct (normalize_application_lists a) as (Hpt & Hmt & Hrl). cbv zeta in Hpt, Hmt, Hrl.
  unfold validate_application in H. set (n := normalize_application a) in *. accepted H. clear - Hc Hc0 Hc1 Hpt Hmt Hrl.
  apply negb_false_iff, missing_spec in Hc, Hc0.
  assert (Hp : adopt_capabilities (ap_security n) = ap_security n).
  { unfold adopt_capabilities. destruct (ap_security n) as [s|]; [|done]. by destruct (se_deprecated_add s). }
  apply (f_equal (fmap normalize_port)) in Hpt as Hpt'. rewrite fmap_idem, <- Hpt in Hpt' by apply normalize_port_idem.
  apply (f_equal (fmap normalize_mount)) in Hmt as Hmt'. rewrite fmap_idem, <- Hmt in Hmt' by apply normalize_mount_idem.
  apply (f_equal (fun p => or_else p reload_restart)) in Hrl as Hrl'. cbv beta in Hrl'. rewrite or_else_idem, <- Hrl in Hrl' by done.
  clearbody n. unfold normalize_application. rewrite Hc, Hc0. cbn [adopt_strategy adopt_run_as_user String.eqb negb andb].
  rewrite Hp, Hpt', Hmt', Hrl'. destruct n. cbn in *. by subst.
Qed.

Lemma normalize_database_idem d : validate_database (normalize_database d) = Ok tt ->
  normalize_database (normalize_database d) = normalize_database d.
Proof.
  intros H. unfold validate_database in H. accepted H. unfold normalize_database at 1.
  assert (Hl : match db_placement (normalize_database d) with Some p => dl_legacy_instance p | None => "" end = "").
  { destruct (db_placement (normalize_database d)); [|done]. by apply negb_false_iff, missing_spec in Hc0. }
  rewrite Hl. cbn [String.eqb negb andb]. unfold normalize_database.
  destruct (_ && String.eqb (db_instance d) ""); cbn [db_engine db_version db_instance db_placement db_resources db_read_only_user];
    by rewrite or_else_idem.
Qed.

(** *** Addresses *)

Lemma split_forall p sep s : forallb (str_forall p) (split sep s) = true -> str_forall (fun c => p c || Ascii.eqb c sep) s = true.
Proof.
  induction s as [|c s IH]; [done|]. cbn [split str_forall]. pose proof (split_not_nil sep s) as Hn.
  destruct (Ascii.eqb_spec c sep) as [->|Hc].
  - cbn [forallb]. intros H. apply andb_true_iff in H as [_ H]. by rewrite orb_true_r, IH.
  - destruct (split sep s) as [|x l]; [done|]. cbn [forallb str_forall]. intros H. apply andb_true_iff in H as [H1 H2].
    apply andb_true_iff in H1 as [Hp Hx]. rewrite Hp. apply IH. cbn. by rewrite Hx.
Qed.

Definition server_char (c : ascii) : bool := is_slug c || one_of ["-"; "."; ":"]%char c.

Lemma registry_server_chars s : registry_server_re s = true -> s <> "" /\ str_forall server_char s = true.
Proof.
  unfold registry_server_re. destruct (cut ":" s) as [[host port] found] eqn:E. intros H. apply andb_true_iff in H as [Hh Hp].
  assert (Hl : forallb (str_forall (fun c => is_slug c || Ascii.eqb c "-")) (split "." host) = true).
  { unfold hostname_re in Hh. rewrite forallb_forall in Hh |- *. intros x Hx%Hh. unfold bounded_by in Hx. by go_inv. }
  assert (Hne : host <> "") by (intros ->; done).
  apply split_forall in Hl.
  assert (Hhost : str_forall server_char host = true).
  { eapply str_forall_impl; [|exact Hl]. intros c Hc. cbv beta in Hc. unfold server_char, one_of. cbn.
    destruct (is_slug c), (Ascii.eqb c "-"), (Ascii.eqb c "."), (Ascii.eqb c ":"); cbn in *; done. }
  destruct found.
  - apply cut_true in E. subst s. split; [by destruct host|]. rewrite str_forall_app, Hhost. cbn. apply andb_true_iff in Hp as [Hp _].
    apply andb_true_iff in Hp as [Hp _]. eapply str_forall_impl; [|exact Hp]. intros c Hc. unfold server_char, is_slug. by rewrite Hc, orb_true_r.
  - apply cut_false in E as [-> ->]. done.
Qed.

Lemma server_char_not c : server_char c = true -> is_space c = false /\ Ascii.eqb c "/" = false.
Proof. destruct c as [[] [] [] [] [] [] [] []]; vm_compute; done. Qed.

Lemma cut_suffix_some suf s rest : cut_suffix suf s = Some rest -> s = rest +:+ suf.
Proof.
  revert rest. induction s as [|c s IH]; intros rest; cbn [cut_suffix].
  - destruct (String.eqb_spec "" suf); [|done]. intros [= <-]. by subst.
  - destruct (String.eqb_spec (String c s) suf) as [<-|]; [by intros [= <-]|].
    destruct (cut_suffix suf s) as [r|]; [|done]. intros [= <-]. cbn. by rewrite (IH r).
Qed.

Lemma normalize_registry_server_stable s : registry_server_re s = true -> normalize_registry_server s = s.
Proof.
  intros [Hne Hch]%registry_server_chars. unfold normalize_registry_server.
  assert (Hslash : forall a b c, s <> a +:+ String "/" b +:+ c).
  { intros a b c ->. rewrite str_forall_app in Hch. apply andb_true_iff in Hch as [_ Hch]. by cbn in Hch. }
  rewrite trim_space_clean; [|eapply str_forall_impl; [|exact Hch]; intros c Hc; by apply server_char_not in Hc as [-> _]].
  apply String.eqb_neq in Hne as ->. unfold trim_prefix, trim_suffix.
  destruct (cut_prefix "https://" s) as [r|] eqn:E1; [apply cut_prefix_some in E1; by destruct (Hslash "https:" "/" r)|].
  destruct (cut_prefix "http://" s) as [r|] eqn:E2; [apply cut_prefix_some in E2; by destruct (Hslash "http:" "/" r)|].
  destruct (cut_suffix "/" s) as [r|] eqn:E3; [apply cut_suffix_some in E3; by destruct (Hslash r "" "")|done].
Qed.

Lemma str_map_app_inv f s x y : str_map f s = x +:+ y -> exists a b, s = a +:+ b /\ str_map f a = x /\ str_map f b = y.
Proof.
  revert s. induction x as [|c x IH]; intros s E; [by exists "", s|]. destruct s as [|d s]; [done|]. cbn in E. injection E as E1 E2.
  destruct (IH s E2) as (a & b & -> & Ha & Hb). exists (String d a), b. cbn. by rewrite E1, Ha.
Qed.

Lemma drop_while_head p s : head_is p s = false -> drop_while p s = s.
Proof. destruct s as [|c s]; cbn; [done|]. by intros ->. Qed.

Lemma drop_while_head_not p s : head_is p (drop_while p s) = false.
Proof. induction s as [|c s IH]; cbn; [done|]. by destruct (p c) eqn:E. Qed.

Lemma drop_end_while_head p q s : head_is p s = false -> head_is p (drop_end_while q s) = false.
Proof. destruct s as [|c s]; cbn; [done|]. intros Hc. destruct (drop_end_while q s); [by destruct (q c)|done]. Qed.

Lemma head_is_app p a b : a <> "" -> head_is p (a +:+ b) = head_is p a.
Proof. by destruct a. Qed.

(** A text in lower case that ends in [.git] ends in neither a space nor a slash. *)
Lemma git_end p g : to_lower g = ".git" -> p = is_space \/ p = Ascii.eqb "/" -> drop_end_while p g = g.
Proof.
  intros E Hp. apply drop_end_while_none.
  assert (Hg : str_forall (fun c => negb (is_space c) && negb (Ascii.eqb "/" c)) g = true).
  { assert (Hl : str_forall (fun c => negb (is_space c) && negb (Ascii.eqb "/" c)) (to_lower g) = true) by by rewrite E.
    clear -Hl. unfold to_lower in Hl. induction g as [|c g IH]; [done|].
    cbn [str_map str_forall] in Hl |- *. apply andb_true_iff in Hl as [Hc Hl].
    rewrite (IH Hl), andb_true_r. revert Hc. clear. destruct c as [[] [] [] [] [] [] [] []]; vm_compute; done. }
  eapply str_forall_impl; [|exact Hg]. intros c Hc. apply andb_true_iff in Hc as [H1 H2]. by destruct Hp as [-> | ->].
Qed.

Lemma str_map_app f a b : str_map f (a +:+ b) = str_map f a +:+ str_map f b.
Proof. induction a; simpl; congruence. Qed.

Lemma cut_suffix_app suf x : cut_suffix suf (x +:+ suf) = Some x.
Proof.
  assert (E0 : cut_suffix suf suf = Some "") by (destruct suf; cbn; by rewrite ?Ascii.eqb_refl, ?String.eqb_refl).
  induction x as [|c x IH]; [done|]. cbn [cut_suffix String.append].
  rewrite IH. destruct (String.eqb_spec (String c (x +:+ suf)) suf) as [E|_]; [|done].
  apply (f_equal String.length) in E. cbn in E. rewrite str_app_length in E. lia.
Qed.

Lemma normalize_git_url_idem raw : normalize_git_url (normalize_git_url raw) = normalize_git_url raw.
Proof.
  unfold normalize_git_url at 2 3. set (u := trim_right_char "/" (trim_space raw)).
  assert (Hh : head_is is_space u = false).
  { subst u. unfold trim_right_char, trim_space. apply drop_end_while_head, drop_end_while_head, drop_while_head_not. }
  assert (Hstay : forall a g, head_is is_space (a +:+ g) = false -> to_lower g = ".git" -> has_suffix ".git" (to_lower (a +:+ g)) = true ->
    normalize_git_url (a +:+ g) = a +:+ g).
  { intros a g Hhd Hg Hs. assert (Hg0 : g <> "") by (intros ->; done).
    unfold normalize_git_url, trim_right_char, trim_space. rewrite (drop_while_head is_space) by done.
    rewrite !drop_end_while_keep by first [done|eapply git_end; [exact Hg|auto]]. by rewrite Hs, andb_false_r. }
  destruct (String.eqb_spec u "") as [->|Hu]; [done|]. cbn [negb andb].
  destruct (has_suffix ".git" (to_lower u)) eqn:Hs; cbn [negb].
  - pose proof Hs as Hs'. unfold has_suffix in Hs'. destruct (cut_suffix ".git" (to_lower u)) as [r|] eqn:Ec; [|done].
    apply cut_suffix_some, str_map_app_inv in Ec as (a & g & Eu & _ & Hg). rewrite Eu. rewrite Eu in Hh, Hs. by apply Hstay.
  - assert (Hsuf : forall x, has_suffix ".git" (to_lower (x +:+ ".git")) = true).
    { intros x. unfold has_suffix, to_lower. by rewrite str_map_app, cut_suffix_app. }
    apply Hstay; [|done|apply Hsuf]. by rewrite head_is_app.
Qed.

(** *** A resource that is accepted is its own normal form *)

(** The spec of a resource is the one of its kind, as decoding leaves it. *)
Definition typed (r : resource) : Prop := spec_kind (r_spec r) = Some (r_kind r).

Lemma trim_or_else_idem s d : trim_space d = d -> d <> "" -> or_else (trim_space (or_else (trim_space s) d)) d = or_else (trim_space s) d.
Proof.
  intros Hd Hn. unfold or_else at 2. destruct (String.eqb_spec (trim_space s) "") as [->|H].
  - rewrite Hd. by apply or_else_keep.
  - rewrite trim_space_idem. done.
Qed.

Lemma normalize_spec_idem cron_ok r : typed r -> validate_kind cron_ok (r_kind r) (normalize_spec (r_spec r)) = Ok tt ->
  normalize_spec (normalize_spec (r_spec r)) = normalize_spec (r_spec r).
Proof.
  unfold typed. destruct (r_spec r) as [a|x|d|x|x|x|x|x|x|x|x|x|x|x|g|g|]; cbn [spec_kind normalize_spec]; intros [= <-]; try done.
  - cbn. intros H. by rewrite normalize_application_idem.
  - cbn. intros H. by rewrite normalize_database_idem.
  - intros _. cbn. by rewrite !or_else_idem.
  - intros _. cbn. by rewrite !or_else_idem.
  - cbn. unfold validate_registry. cbn. intros H. accepted H. apply negb_false_iff in Hc. by rewrite normalize_registry_server_stable.
  - intros _. cbn. by rewrite !or_else_idem.
  - intros _. cbn. by rewrite !trim_or_else_idem, trim_space_idem, !or_else_idem.
  - intros _. cbn. rewrite normalize_git_url_idem, or_else_idem; [done|]. by destruct (String.eqb _ "").
Qed.

(** ** Loading *)

Lemma get_fresh s r : get s (key r) = None -> rl_list (add s r) = rl_list s ++ [r] \/ exists pos, rl_index s !! key r = Some pos /\ rl_list s !! pos = None.
Proof. unfold get, add. destruct (rl_index s !! key r) as [pos|]; [intros H; right; by exists pos|by left]. Qed.

Lemma add_fresh s r : set_ok s -> get s (key r) = None -> rl_list (add s r) = rl_list s ++ [r].
Proof.
  intros [_ Hx] [H|(pos & Hi & Hn)]%get_fresh; [done|]. apply Hx in Hi as (r' & Hr' & _). by rewrite Hn in Hr'.
Qed.

Lemma set_ext s s' : set_ok s -> set_ok s' -> rl_list s = rl_list s' -> s = s'.
Proof.
  intros [_ Hx] [_ Hx'] E. destruct s as [l i], s' as [l' i']. cbn in *. subst l'. f_equal. apply map_eq. intros k.
  apply option_eq. intros pos. by rewrite Hx, Hx'.
Qed.

Section LoadFacts.
Context (cron_ok : string -> bool).

Lemma load_into_spec rs s s' : load_into cron_ok s rs = Ok s' -> set_ok s ->
  set_ok s' /\ rl_list s' = rl_list s ++ (normalize <$> rs) /\ forall r, r ∈ rs -> validate cron_ok (normalize r) = Ok tt.
Proof.
  revert s. induction rs as [|r rs IH]; intros s; cbn [load_into].
  { intros [= <-] Hok. split; [done|]. split; [by rewrite app_nil_r|]. by intros r ?%elem_of_nil. }
  intros H Hok. apply rbind_ok_inv in H as ([] & Hv & H). destruct (get s (key (normalize r))) eqn:Eg; [done|].
  destruct (IH _ H (add_ok _ _ Hok)) as (Hok' & El & Hall). split; [done|]. rewrite El, add_fresh by done. split.
  - by rewrite fmap_cons, <- app_assoc.
  - intros x [->|Hx]%elem_of_cons; [done|by apply Hall].
Qed.

Lemma load_into_complete rs s : set_ok s -> (forall r, r ∈ rs -> normalize r = r /\ validate cron_ok r = Ok tt) ->
  NoDup (key <$> (rl_list s ++ rs)) -> exists s', load_into cron_ok s rs = Ok s'.
Proof.
  revert s. induction rs as [|r rs IH]; intros s Hok Hall Hn; cbn [load_into]; [by exists s|].
  destruct (Hall r) as [Hr Hv]; [apply elem_of_cons; by left|]. rewrite Hr, Hv. cbn [rbind].
  assert (Hg : get s (key r) = None).
  { apply get_none; [done|]. intros r' Hr' E. rewrite fmap_app, fmap_cons in Hn. apply NoDup_app in Hn as (_ & Hd & _).
    apply (Hd (key r')); [by apply list_elem_of_fmap_2|]. rewrite E. by apply elem_of_cons; left. }
  rewrite Hg. apply IH; [by apply add_ok| |].
  - intros x Hx. apply Hall, elem_of_cons. by right.
  - by rewrite add_fresh, <- app_assoc.
Qed.

Lemma load_ok rs s : load cron_ok rs = Ok s -> set_ok s /\ rl_list s = normalize <$> rs
  /\ (forall r, r ∈ rl_list s -> validate cron_ok r = Ok tt) /\ forall r, r ∈ rl_list s -> validate_reference s r = Ok tt.
Proof.
  unfold load. intros H. apply rbind_ok_inv in H as (s' & Hl & H). apply rbind_ok_inv in H as ([] & Hr & [= <-]).
  apply load_into_spec in Hl as (Hok & El & Hv); [|apply new_resource_set_ok]. cbn in El. split_and!; [done|done| |].
  - intros r. rewrite El. intros (r0 & -> & Hr0)%list_elem_of_fmap. by apply Hv.
  - by apply check_each_ok.
Qed.

Lemma validate_known r : validate cron_ok r = Ok tt -> r_kind r ∈ known_kinds.
Proof.
  unfold validate. intros H. accepted H. unfold validate_kind in H.
  repeat match type of H with
  | (if String.eqb ?a ?b then _ else _) = _ => destruct (String.eqb_spec a b) as [->|_]; [apply mem_spec; by vm_compute|]
  end. destruct (mem _ _) eqn:E; [|done]. apply mem_spec in E. unfold known_kinds.
  repeat (apply elem_of_cons in E as [->|E]; [apply mem_spec; by vm_compute|]). by apply elem_of_nil in E.
Qed.
End LoadFacts.

(** ** What an accepted application and an accepted config guarantee *)

(** A relative path whose segments name files or directories below where it starts *)
Definition confined (k : string) : Prop := Forall (fun seg => seg <> "" /\ seg <> "." /\ seg <> "..") (split "/" k).
(** A file mode of permission bits alone *)
Definition plain_mode (mode : string) : Prop := mode = "" \/ exists v, octal 0 mode = Some v /\ 0 <= v < 8 ^ 3.

Lemma validate_config_key_ok k : validate_config_key k = Ok tt -> confined k.
Proof.
  unfold validate_config_key, config_key_re, confined. intros H. accepted H. apply negb_false_iff in Hc0.
  rewrite existsb_elem_false in H. apply Forall_forall. intros seg Hseg. specialize (H seg Hseg). go_inv.
  apply String.eqb_neq in H, H0. split_and!; [|done..]. destruct (split "/" k) as [|first rest]; [done|].
  apply andb_true_iff in Hc0 as [Hc0 Hr]. apply andb_true_iff in Hc0 as [Hh _].
  apply elem_of_cons in Hseg as [->|Hin]; [by intros ->|]. rewrite forallb_forall in Hr. apply list_elem_of_In in Hin.
  specialize (Hr seg Hin). apply andb_true_iff in Hr as [Hr _]. by apply negb_true_iff, String.eqb_neq in Hr.
Qed.

Lemma octal_range acc s v : 0 <= acc -> octal acc s = Some v -> 0 <= v < (acc + 1) * 8 ^ Z.of_nat (String.length s).
Proof.
  revert acc. induction s as [|c s IH]; intros acc Ha; cbn [octal String.length]; [intros [= <-]; change (Z.of_nat 0) with 0; lia|].
  destruct ((0 <=? byte_code c - 48) && (byte_code c - 48 <=? 7)) eqn:E; [|done]. go_inv. intros Ho. apply IH in Ho; [|lia].
  rewrite Nat2Z.inj_succ, Z.pow_succ_r by lia. nia.
Qed.

Lemma validate_file_mode_ok mode : validate_file_mode mode = Ok tt -> plain_mode mode.
Proof.
  unfold validate_file_mode, plain_mode. destruct (missing mode) eqn:E; [apply missing_spec in E; by left|].
  destruct ((_ <? _)%nat || _) eqn:El; [done|]. destruct (octal 0 mode) as [v|] eqn:Eo; [|done].
  intros H%refuse_ok%negb_false_iff%Z.eqb_eq. right. exists v. split; [done|].
  apply octal_range in Eo; [|lia]. apply orb_false_iff in El as [_ El]. apply Nat.ltb_ge in El.
  assert (Hv : 0 <= v < 8 ^ 4).
  { split; [lia|]. eapply Z.lt_le_trans; [apply Eo|]. rewrite Z.mul_1_l. apply Z.pow_le_mono_r; lia. }
  split; [lia|]. destruct (Z.lt_ge_cases v (8 ^ 3)) as [|Hge]; [done|]. exfalso.
  apply (f_equal (fun x => Z.shiftr x 9)) in H. rewrite Z.shiftr_land, Z.shiftr_div_pow2 in H by lia.
  change (Z.shiftr (7 * 8 ^ 3) 9) with (Z.ones 3) in H. change (Z.shiftr 0 9) with 0 in H.
  assert (Hq : 0 < v / 2 ^ 9 < 2 ^ 3) by (split; [apply Z.div_str_pos|apply Z.div_lt_upper_bound]; lia).
  rewrite Z.land_ones, Z.mod_small in H by lia. lia.
Qed.

Record mount_ok (m : mount_spec) : Prop := {
  mo_source : missing (mn_volume m) = negb (missing (mn_config m));
  mo_path : has_prefix "/" (mn_path m) = true;
  mo_key : mn_key m <> "" -> confined (mn_key m);
  mo_mode : plain_mode (mn_mode m) }.

Lemma validate_mount_ok m : validate_mount m = Ok tt -> mount_ok m.
Proof.
  unfold validate_mount. intros H. accepted H. apply negb_false_iff in Hc1.
  assert (Hs : missing (mn_volume m) = negb (missing (mn_config m))) by by destruct (missing (mn_volume m)), (missing (mn_config m)).
  assert (Hkm : (mn_key m <> "" -> confined (mn_key m)) /\ plain_mode (mn_mode m)); [|by destruct Hkm; split].
  destruct (missing (mn_config m)).
  - accepted H. apply negb_false_iff, missing_spec in Hc2, H. split; [intros Hk; by destruct (Hk Hc2)|left; exact H].
  - accepted H. apply validate_file_mode_ok in H. split; [|done]. intros Hk. destruct (missing (mn_key m)) eqn:Ek.
    + apply missing_spec in Ek. by destruct (Hk Ek).
    + accepted Hc3. by apply validate_config_key_ok.
Qed.

Lemma nested_in_spec outer m : nested_in outer m = false -> outer <> "" -> forall rest, trim_suffix "/" (mn_path m) <> outer +:+ "/" +:+ rest.
Proof.
  unfold nested_in. intros H Ho rest E. rewrite E in H. unfold has_prefix in H. rewrite str_app_assoc, cut_prefix_app in H.
  assert (Hm : missing outer = false) by by apply String.eqb_neq.
  assert (Hn : String.eqb ((outer +:+ "/") +:+ rest) outer = false).
  { apply String.eqb_neq. intros E'. apply (f_equal String.length) in E'. rewrite !str_app_length in E'. cbn in E'. lia. }
  assert (Hm2 : missing ((outer +:+ "/") +:+ rest) = false) by (apply String.eqb_neq; by destruct outer).
  by rewrite Hm, Hn, Hm2 in H.
Qed.

(** What validation leaves of an application *)
Record application_ok (a : application_spec) : Prop := {
  ao_source : stated (ap_source a) = blank (ap_image a);
  ao_ports : forall p, p ∈ ap_ports a -> 1 <= pt_container p <= 65535 /\ 0 <= pt_host_port p <= 65535;
  ao_replicas : 0 <= app_replicas a <= 100;
  ao_service : app_runtime a <> runtime_service -> app_replicas a = 0 /\ app_constraints a = None /\ app_update a = None;
  ao_devices : app_runtime a = runtime_service -> default [] (app_devices a) = [];
  ao_grants : stated (ap_security a) = true -> exists added dropped,
    normalize_capabilities (default [] (app_add_capabilities a)) = Ok added
    /\ normalize_drop_capabilities (default [] (app_drop_capabilities a)) = Ok dropped
    /\ (forall c, c ∈ dropped -> ~ (c ∈ added)) /\ is_ok (normalize_devices (default [] (app_devices a))) = true;
  ao_mounts : forall m, m ∈ ap_mounts a -> mount_ok m;
  ao_nesting : forall v m, v ∈ ap_mounts a -> m ∈ ap_mounts a -> mn_volume v <> "" -> trim_suffix "/" (mn_path v) <> "" ->
    forall rest, trim_suffix "/" (mn_path m) <> trim_suffix "/" (mn_path v) +:+ "/" +:+ rest;
  ao_secrets : forall k, k ∈ ap_secret_env a -> is_Some (ap_env a !! k) }.

Lemma grants_ok_some {A} (r : result grant_err A) why x : grants_ok r why = Ok x -> r = Ok x.
Proof. by destruct r; cbn; [intros [= ->]|]. Qed.

Lemma validate_security_ok a : validate_security a = Ok tt -> stated (ap_security a) = true -> exists added dropped,
  normalize_capabilities (default [] (app_add_capabilities a)) = Ok added
  /\ normalize_drop_capabilities (default [] (app_drop_capabilities a)) = Ok dropped
  /\ (forall c, c ∈ dropped -> ~ (c ∈ added)) /\ is_ok (normalize_devices (default [] (app_devices a))) = true.
Proof.
  unfold validate_security. intros H Hs. rewrite Hs in H. apply rbind_ok_inv in H as (u & _ & H).
  apply rbind_ok_inv in H as (added & Ha%grants_ok_some & H). apply rbind_ok_inv in H as (dropped & Hd%grants_ok_some & H).
  apply rbind_tt in H as [Hc%refuse_ok H]. apply rbind_ok_inv in H as (devs & Hv%grants_ok_some & _).
  exists added, dropped. split_and!; [done|done| |by rewrite Hv]. intros c Hcd Hca. unfold check_capability_conflict in Hc.
  destruct (find_first _ dropped) eqn:Ef; [done|]. rewrite find_first_none in Ef. specialize (Ef c Hcd). by go_inv.
Qed.

Lemma validate_runtime_ok a : validate_runtime a = Ok tt ->
  0 <= app_replicas a <= 100
  /\ (app_runtime a <> runtime_service -> app_replicas a = 0 /\ app_constraints a = None /\ app_update a = None)
  /\ (app_runtime a = runtime_service -> default [] (app_devices a) = []).
Proof.
  unfold validate_runtime. intros H. accepted H. split; [|split].
  - go_inv. unfold max_service_replicas in *. lia.
  - intros Hr%String.eqb_neq. rewrite Hr in Hc0. cbn in Hc0. go_inv. by destruct (app_constraints a), (app_update a).
  - intros Hr%String.eqb_eq. rewrite Hr in Hc2. cbn in Hc2. by go_inv.
Qed.

(** * Claims *)

(** An application that passes validation either builds or pulls; its ports are real
    ones; replicas, placement constraints and update settings belong to services, which have no devices and at
    most a hundred replicas; no capability is both added and dropped, and all are of the allow-lists; each mount
    is absolute, names one source, a key that cannot leave the mount and a mode without setuid; no mount lies
    inside a mounted volume; and every key called secret is one of the environment. *)
Lemma accepted_application (a : application_spec) : validate_application a = Ok tt -> application_ok a.
Proof.
  unfold validate_application. intros H. accepted H. split.
  - destruct (ap_source a); [apply rbind_tt in Hc2 as [Hc2%refuse_ok%negb_false_iff _]|apply refuse_ok in Hc2]; by rewrite Hc2.
  - intros p Hp. rewrite check_each_ok in Hc4. specialize (Hc4 p Hp). unfold validate_port in Hc4. accepted Hc4. go_inv. lia.
  - by apply validate_runtime_ok.
  - by apply validate_runtime_ok.
  - by apply validate_runtime_ok.
  - by apply validate_security_ok.
  - intros m Hm. rewrite check_each_ok in Hc12. by apply validate_mount_ok, Hc12.
  - intros v m Hv Hm Hvol Hout. unfold validate_mount_overlap in Hc13. rewrite check_each_ok in Hc13. specialize (Hc13 v Hv).
    apply refuse_ok in Hc13. assert (Hvm : missing (mn_volume v) = false) by by apply String.eqb_neq. rewrite Hvm in Hc13. cbn in Hc13.
    rewrite existsb_elem_false in Hc13. apply nested_in_spec; [by apply Hc13|done].
  - intros k Hk. rewrite check_each_ok in Hc14. specialize (Hc14 k Hk). apply refuse_ok, negb_false_iff in Hc14.
    by destruct (ap_env a !! k).
Qed.

(** Every file of a config that passes validation is named by a relative path none of
    whose segments is empty or a step up; no file is over 256 KiB, nor the config over 512 KiB, and its mode has
    permission bits alone. *)
Lemma config_files_confined (c : config_spec) : validate_config c = Ok tt ->
  (forall k v, cf_data c !! k = Some v -> confined k /\ Z.of_nat (String.length v) <= 256 * 1024)
  /\ data_bytes (cf_data c) <= 512 * 1024 /\ cf_data c <> ∅ /\ plain_mode (cf_mode c).
Proof.
  unfold validate_config. intros H. apply rbind_tt in H as [Hn%refuse_ok H]. apply rbind_tt in H as [He H].
  apply rbind_tt in H as [Ht%refuse_ok H]. apply rbind_tt in H as [Hm H]. go_inv. split_and!; [|done|done|by apply validate_file_mode_ok].
  intros k v Hk. rewrite check_each_ok in He. specialize (He (k, v)). rewrite elem_of_map_to_list in He. specialize (He Hk).
  apply rbind_tt in He as [Hkey Hl%refuse_ok]. split; [by apply validate_config_key_ok|]. by go_inv.
Qed.

(** C39 [loaded_set_sound]: a set that loads holds the resources of the manifests with their defaults, in their
    order, one per kind and name, each of a known kind and accepted; every volume, config and stack an
    application names and every application a route targets is in the set; and no name is both a secret and a
    sealed secret. *)
Theorem loaded_set_sound (cron_ok : string -> bool) (rs : list resource) (s : resource_set) :
  load cron_ok rs = Ok s ->
  set_ok s /\ rl_list s = normalize <$> rs
  /\ (forall r, r ∈ rl_list s -> validate cron_ok r = Ok tt /\ r_kind r ∈ known_kinds)
  /\ (forall r a m, r ∈ rl_list s -> r_spec r = SApplication a -> m ∈ ap_mounts a -> exists t, t ∈ rl_list s
        /\ key t = if missing (mn_config m) then key_of kind_volume (mn_volume m) else key_of kind_config (mn_config m))
  /\ (forall r a, r ∈ rl_list s -> r_spec r = SApplication a -> ap_stack a <> "" -> exists t, t ∈ rl_list s /\ key t = key_of kind_stack (ap_stack a))
  /\ (forall r ro, r ∈ rl_list s -> r_spec r = SRoute ro -> exists t, t ∈ rl_list s /\ key t = key_of kind_application (ro_app ro))
  /\ (forall r, r ∈ rl_list s -> r_kind r = kind_sealed_secret -> forall t, t ∈ rl_list s -> key t <> key_of kind_secret (r_name r)).
Proof.
  intros (Hok & El & Hv & Hr)%load_ok. split_and!; [done|done| | | | |].
  - intros r Hin. split; [by apply Hv|]. by eapply validate_known, Hv.
  - intros r a m Hin Es Hm. specialize (Hr r Hin). unfold validate_reference in Hr. rewrite Es in Hr. accepted Hr.
    rewrite check_each_ok in Hc0. specialize (Hc0 m Hm). apply refuse_ok, negb_false_iff in Hc0. unfold mount_known in Hc0.
    destruct (missing (mn_config m)); by apply has_spec.
  - intros r a Hin Es Hst. specialize (Hr r Hin). unfold validate_reference in Hr. rewrite Es in Hr. accepted Hr.
    assert (Hm : missing (ap_stack a) = false) by by apply String.eqb_neq. rewrite Hm in Hr. by apply negb_false_iff, has_spec in Hr.
  - intros r ro Hin Es. specialize (Hr r Hin). unfold validate_reference in Hr. rewrite Es in Hr. accepted Hr.
    by apply negb_false_iff, has_spec in Hr.
  - intros r Hin Ek t Ht E. specialize (Hr r Hin). unfold validate_reference in Hr. accepted Hr. rewrite Ek in Hc. cbn in Hc.
    assert (Hh : has s kind_secret (r_name r) = true) by (apply has_spec; eauto). by rewrite Hh in Hc.
Qed.

(** Loading what was loaded gives the same set: defaults are given once, and what is accepted
    with them is accepted again. *)
Lemma load_again (cron_ok : string -> bool) (rs : list resource) (s : resource_set) :
  (forall r, r ∈ rs -> typed r) -> load cron_ok rs = Ok s -> load cron_ok (rl_list s) = Ok s.
Proof.
  intros Ht H. pose proof H as (Hok & El & Hv & Hr)%load_ok.
  assert (Hn : forall r, r ∈ rl_list s -> normalize r = r).
  { intros r Hin. pose proof (Hv r Hin) as Hval. rewrite El in Hin. apply list_elem_of_fmap in Hin as (r0 & -> & Hr0).
    unfold validate in Hval. accepted Hval. unfold normalize. cbn. by erewrite normalize_spec_idem by (try exact Hval; by apply Ht). }
  destruct (load_into_complete cron_ok (rl_list s) new_resource_set) as (s' & Hl); [apply new_resource_set_ok|by split; auto|by destruct Hok|].
  assert (E : s' = s).
  { apply load_into_spec in Hl as (Hok' & El' & _); [|apply new_resource_set_ok]. apply set_ext; [done..|]. rewrite El'. cbn.
    apply list_eq. intros i. rewrite list_lookup_fmap. destruct (rl_list s !! i) as [r|] eqn:Ei; [|done]. cbn.
    by rewrite Hn by by eapply list_elem_of_lookup_2. }
  subst s'. unfold load. rewrite Hl. cbn [rbind].
  assert (Hvr : validate_references s = Ok tt) by by apply check_each_ok. by rewrite Hvr.
Qed.

(** ** Witnesses *)

Definition demo_meta (name : string) : meta := Meta name "" ∅ ∅.
Definition demo_app : application_spec :=
  ApplicationSpec None "nginx" "1.27" "" [] [PortSpec 80 "" "" false false 8080] (<["A" := "1"]> ∅) ["A"]
    [MountSpec "data" "" "" "/var/www" "" false] None None None
    (Some (SecuritySpec "" false None (Some (CapabilitiesSpec None (Some ["net_raw"]))) None (Some ["CAP_CHOWN"])))
    None ∅ "shop" "" "" "" "" "rolling" "".
Definition demo_manifest : list resource :=
  [Resource kind_route (demo_meta "www") (SRoute (RouteSpec ["shop.example.com"] "web" 0 "" "" "" "" "" ["get"] "" None None []));
   Resource kind_application (demo_meta "web") (SApplication demo_app);
   Resource kind_volume (demo_meta "data") (SVolume (VolumeSpec "5Gi" "" None));
   Resource kind_git_repository (demo_meta "repo") (SGitRepository (GitRepositorySpec " https://git.example.com/shop/ " "" "" "token"));
   Resource kind_stack (demo_meta "shop") (SStack (StackSpec "" None None []))].
Definition demo_config : config_spec := ConfigSpec (<["conf.d/site.conf" := "listen 80;"]> ∅) "0644" false [] "".

Lemma loaded_set_sound_witness : exists s, load (fun _ => true) demo_manifest = Ok s /\ set_ok s /\ length (rl_list s) = 5%nat.
Proof.
  destruct (load (fun _ => true) demo_manifest) as [s|] eqn:E; [|by vm_compute in E]. exists s. split; [done|].
  destruct (loaded_set_sound (fun _ => true) demo_manifest s E) as (Hok & El & _). split; [done|]. by rewrite El.
Defined.

(** A limit that is infinite, not a number, or past what an integer holds passes validation, as a negative number
    of bytes on amd64. *)
Lemma memory_limit_overflows :
  memory_bytes "inf" = Ok (- 2 ^ 63) /\ memory_bytes "NaN" = Ok (- 2 ^ 63) /\ memory_bytes "8589934592Gi" = Ok (- 2 ^ 63)
  /\ validate_resources (Some (ResourceSpec "inf" "inf" 0 "")) = Ok tt.
Proof. by vm_compute. Qed.
