(* ===== verification/ManifestPlan.v ===== *)
(** * Manifests: plans

    [internal/declarative/plan.go] and the jobs of [jobs.go]: which live resource a declared one is compared with,
    the fields that differ, the changes of a plan and their order. *)
From S2P Require Import Prelude GoStrings GoText Sha256 Grants ManifestTypes ManifestSpec.
#[local] Open Scope Z_scope.
#[local] Open Scope list_scope.

(** ** Plans *)

Inductive action := ActionCreate | ActionUpdate | ActionDelete | ActionNoop.
#[export] Instance action_eq_dec : EqDecision action.
Proof. solve_decision. Defined.

Record field_diff := FieldDiff { fd_field : string; fd_from : string; fd_to : string }.
Record change := Change { ch_action : action; ch_kind : kind; ch_name : string; ch_reason : string; ch_fields : list field_diff }.
Definition plan : Type := list change.

Record plan_options := PlanOptions {
  po_prune : bool; po_prune_managed_by : string; po_prune_source : string; po_include_noop : bool }.

Definition label_managed_by : string := "miabi.io/managed-by".
Definition label_gitops_source : string := "miabi.io/gitops-source".

Definition has_changes (p : plan) : bool := existsb (fun c => negb (bool_decide (ch_action c = ActionNoop))) p.
Definition count_action (a : action) (p : plan) : Z := Z.of_nat (length (List.filter (fun c => bool_decide (ch_action c = a)) p)).
Definition counts (p : plan) : Z * Z * Z * Z :=
  (count_action ActionCreate p, count_action ActionUpdate p, count_action ActionDelete p, count_action ActionNoop p).

Definition apply_rank (k : kind) : Z :=
  if mem k [kind_secret; kind_sealed_secret; kind_volume; kind_domain; kind_config; kind_middleware] then 0
  else if mem k [kind_database; kind_stack; kind_registry; kind_git_repository] then 1
  else if String.eqb k kind_application then 2
  else if mem k [kind_route; kind_cron_job; kind_job] then 3
  else if String.eqb k kind_git_source then 4
  else 9.
Definition planned (k : kind) : bool := negb (String.eqb k kind_project).
Definition vault_alias (k : kind) : option kind :=
  if String.eqb k kind_secret then Some kind_sealed_secret
  else if String.eqb k kind_sealed_secret then Some kind_secret
  else None.

(** ** The fields of a spec *)

Definition format_bool (b : bool) : string := if b then "true" else "false".
Definition when (b : bool) (l : list (string * string)) : list (string * string) := if b then l else [].
Definition keyed (pre : string) (m : gmap string string) : list (string * string) :=
  (fun kv => (pre +:+ kv.1, kv.2)) <$> map_to_list m.

(** A value that cannot be normalized is compared as it is. *)
Definition normalized_list (l : list string) (normalize : list string -> result grant_err (list string)) : string :=
  match normalize l with Ok out => join "," out | Err _ => join "," l end.
Definition amount (r : result string Z) : Z := match r with Ok n => n | Err _ => 0 end.

Definition reserved_label_prefixes : list string := ["io.miabi."; "com.docker."].
Definition reserved_label_key (k : string) : bool := existsb (fun p => has_prefix p k) reserved_label_prefixes.

Definition secret_mask : string := "(secret)".
(** The environment, with the values of secret keys hidden *)
Definition masked (secret : list string) (mask : string) (env : gmap string string) : gmap string string :=
  map_imap (fun k v => Some (if mem k secret then mask else v)) env.
Definition env_fields (secret : list string) (env : gmap string string) : list (string * string) :=
  keyed "env." (masked secret secret_mask env).

Definition source_fields (s : source_spec) : list (string * string) :=
  [("source.git", so_git s); ("source.ref", so_ref s); ("source.buildMethod", so_build_method s); ("source.builder", so_builder s);
   ("source.buildpacks", join "," (so_buildpacks s)); ("source.repository", so_repository s)]
  ++ keyed "source.buildEnv." (so_build_env s).

Definition healthcheck_fields (hc : healthcheck_spec) : list (string * string) :=
  [("healthcheck.type", hc_type hc)]
  ++ when (negb (missing (hc_path hc))) [("healthcheck.path", hc_path hc)]
  ++ when (0 <? hc_port hc) [("healthcheck.port", itoa (hc_port hc))]
  ++ when (negb (missing (hc_command hc))) [("healthcheck.command", hc_command hc)]
  ++ when (0 <? hc_interval hc) [("healthcheck.intervalSeconds", itoa (hc_interval hc))]
  ++ when (0 <? hc_timeout hc) [("healthcheck.timeoutSeconds", itoa (hc_timeout hc))]
  ++ when (0 <? hc_retries hc) [("healthcheck.retries", itoa (hc_retries hc))]
  ++ when (0 <? hc_start_period hc) [("healthcheck.startPeriodSeconds", itoa (hc_start_period hc))].

Definition resources_fields (r : resource_spec) : list (string * string) :=
  let mb := amount (memory_bytes (rs_memory r)) in
  let nc := amount (nano_cpus (rs_cpu r)) in
  when (negb (mb =? 0)) [("resources.memory", itoa mb)] ++ when (negb (nc =? 0)) [("resources.cpu", itoa nc)]
  ++ when (negb (rs_gpu r =? 0)) [("resources.gpu", itoa (rs_gpu r))]
  ++ when (negb (missing (rs_gpu_kind r))) [("resources.gpuKind", rs_gpu_kind r)].

Definition port_fields (p : port_spec) : list (string * string) :=
  when (pt_external p) [("port." +:+ itoa (pt_container p) +:+ ".external", "true")]
  ++ when (pt_publish p || (0 <? pt_host_port p)) [("port." +:+ itoa (pt_container p) +:+ ".published", "true")].

Definition security_fields (a : application_spec) : list (string * string) :=
  [("security.runAsUser", app_run_as_user a); ("security.readOnlyRootFilesystem", format_bool (app_read_only_rootfs a));
   ("security.noNewPrivileges", format_bool (app_no_new_privileges a));
   ("security.capabilities.add", normalized_list (default [] (app_add_capabilities a)) normalize_capabilities);
   ("security.capabilities.drop", normalized_list (default [] (app_drop_capabilities a)) normalize_drop_capabilities);
   ("security.devices", normalized_list (default [] (app_devices a)) normalize_devices)].

Definition placement_fields (a : application_spec) : list (string * string) :=
  when (negb (missing (app_location a))) [("placement.location", app_location a)]
  ++ when (negb (missing (app_strategy a))) [("deployment.strategy", app_strategy a)]
  ++ when (negb (missing (app_runtime a))) [("deployment.runtime", app_runtime a)]
  ++ when (0 <? app_replicas a) [("deployment.replicas", itoa (app_replicas a))]
  ++ match app_constraints a with Some c => [("placement.constraints", join "," c)] | None => [] end
  ++ match app_update a with
     | Some u => [("deployment.update.parallelism", itoa (up_parallelism u)); ("deployment.update.delaySeconds", itoa (up_delay_seconds u))]
     | None => []
     end.

Definition application_fields (a : application_spec) : list (string * string) :=
  [("image", ap_image a); ("tag", ap_tag a); ("digest", ap_digest a)]
  ++ match ap_source a with Some s => source_fields s | None => [] end
  ++ [("command", join " " (ap_command a)); ("registry", ap_registry a)]
  ++ when (negb (missing (ap_stack a))) [("stack", ap_stack a)]
  ++ security_fields a ++ placement_fields a
  ++ match ap_healthcheck a with Some hc => healthcheck_fields hc | None => [] end
  ++ when (negb (missing (ap_config_fp a))) [("configFP", ap_config_fp a)]
  ++ keyed "containerLabels." (filter (fun kv => reserved_label_key kv.1 = false) (ap_container_labels a))
  ++ match ap_resources a with Some r => resources_fields r | None => [] end
  ++ env_fields (ap_secret_env a) (ap_env a)
  ++ concat (port_fields <$> ap_ports a).

Definition database_fields (d : database_spec) : list (string * string) :=
  [("engine", db_engine d); ("version", db_version d)]
  ++ when (negb (missing (database_location d))) [("placement.location", database_location d)]
  ++ match db_read_only_user d with Some b => [("readOnlyUser", format_bool b)] | None => [] end
  ++ match db_resources d with
     | Some r => when (negb (missing (dr_memory r))) [("resources.memory", itoa (amount (memory_bytes (dr_memory r))))]
                 ++ when (negb (missing (dr_cpu r))) [("resources.cpu", itoa (amount (nano_cpus (dr_cpu r))))]
                 ++ when (negb (missing (dr_size r))) [("resources.size", dr_size r)]
     | None => []
     end.

Definition volume_fields (v : volume_spec) : list (string * string) :=
  when (negb (missing (volume_location v))) [("placement.location", volume_location v)]
  ++ when (negb (blank (vo_storage_class v))) [("storage.class", trim_space (vo_storage_class v))]
  ++ when (negb (missing (vo_size v))) [("size", itoa (amount (size_bytes v)))].

Definition route_fields (r : route_spec) : list (string * string) :=
  let mt := default no_maintenance (ro_maintenance r) in
  [("hosts", join "," (sort_strings (ro_hosts r))); ("app", ro_app r); ("path", ro_path r); ("tls", ro_tls r);
   ("certificate", ro_certificate r); ("tlsProvider", ro_tls_provider r); ("port", itoa (ro_port r)); ("rewrite", ro_rewrite r);
   ("methods", join "," (sort_strings (ro_methods r))); ("advancedConfig", ro_advanced_config r);
   ("security.exploitProtection", format_bool (default false (ro_exploit_protection r)));
   ("maintenance.enabled", format_bool (ma_enabled mt)); ("maintenance.statusCode", itoa (ma_status_code mt));
   ("maintenance.message", ma_message mt); ("middlewares", join "," (ro_middlewares r))].

Definition stack_fields (s : stack_spec) : list (string * string) :=
  [("description", st_description s)]
  ++ when (negb (missing (stack_location s))) [("placement.location", stack_location s)]
  ++ env_fields (st_secret_env s) (default ∅ (st_env s)).

Definition default_job_history : Z := 20.
Definition history_or_default (n : Z) : Z := if n <=? 0 then default_job_history else n.
Definition arg_list (args : list string) : string := join " " (go_quote <$> args).
(** The normal form of an account, or none when it has none *)
Definition run_as_or_empty (v : string) : string := match normalize_run_as_user v with Ok u => u | Err _ => "" end.

Definition cron_job_fields (c : cron_job_spec) : list (string * string) :=
  [("app", cj_app c); ("schedule", trim_space (cj_schedule c)); ("command", arg_list (cj_command c));
   ("entrypoint", arg_list (cj_entrypoint c)); ("image", trim_space (cj_image c)); ("registry", cj_registry c);
   ("timeoutSeconds", itoa (cj_timeout c)); ("concurrencyPolicy", or_else (cj_concurrency c) "allow");
   ("historyLimit", itoa (history_or_default (cj_history c)));
   ("security.runAsUser", run_as_or_empty (security_run_as (cj_security c)))]
  ++ match cj_suspend c with Some b => [("suspend", format_bool b)] | None => [] end.

Definition git_source_fields (g : git_source_spec) : list (string * string) :=
  [("repo", gs_repo g); ("repository", gs_repository g); ("ref", gs_ref g); ("path", gs_path g); ("syncPolicy", gs_sync_policy g);
   ("prune", format_bool (gs_prune g)); ("selfHeal", format_bool (gs_self_heal g)); ("allowEmpty", format_bool (gs_allow_empty g));
   ("requireSealedSecrets", format_bool (gs_require_sealed g)); ("deletePolicy", gs_delete_policy g)].

Definition spec_fields (s : spec) : gmap string string :=
  list_to_map
    match s with
    | SApplication a => application_fields a
    | SDatabase d => database_fields d
    | SVolume v => volume_fields v
    | SRoute r => route_fields r
    | SStack s => stack_fields s
    | SDomain d => [("tls", dm_tls d); ("wildcard", format_bool (dm_wildcard d))]
    | SCronJob c => cron_job_fields c
    | SGitRepository g => [("url", gr_url g); ("auth", gr_auth g); ("username", gr_username g); ("secretRef", gr_secret_ref g)]
    | SGitSource g => git_source_fields g
    | _ => []
    end.

(** ** Differences *)

Definition optional_when_unset : list string :=
  ["placement.location"; "placement.constraints"; "deployment.strategy"; "deployment.runtime"; "deployment.replicas";
   "deployment.update.parallelism"; "deployment.update.delaySeconds"; "healthcheck.type"; "healthcheck.path";
   "healthcheck.port"; "healthcheck.command"; "healthcheck.intervalSeconds"; "healthcheck.timeoutSeconds";
   "healthcheck.retries"; "healthcheck.startPeriodSeconds"; "stack"].
Definition optional_when_unset_by_kind (k : kind) : list string :=
  if String.eqb k kind_database then ["resources.memory"; "resources.cpu"; "resources.size"; "readOnlyUser"]
  else if String.eqb k kind_volume then ["storage.class"; "size"]
  else if String.eqb k kind_cron_job then ["suspend"]
  else [].

Definition fields_less (a b : field_diff) : bool := str_lt (fd_field a) (fd_field b).
Definition value (m : gmap string string) (f : string) : string := default "" (m !! f).
(** The keys with different values, in their order; a key a side lacks has the empty value. *)
Definition diff_maps (av dv : gmap string string) : list field_diff :=
  stable_sort fields_less
    (omap (fun f => if String.eqb (value av f) (value dv f) then None else Some (FieldDiff f (value av f) (value dv f)))
       (elements (dom av ∪ dom dv))).

(** Is a live field compared? Not when the manifest may leave it unstated and does, nor the variables of a stack whose
    manifest states none. *)
Definition compared (k : kind) (desired : spec) (dv : gmap string string) (f : string) : bool :=
  (stated (dv !! f) || negb (mem f optional_when_unset || mem f (optional_when_unset_by_kind k)))
  && match desired with
     | SStack s => stated (st_env s) || negb (has_prefix "env." f)
     | _ => true
     end.
Definition diff_specs (k : kind) (actual desired : spec) : list field_diff :=
  let dv := spec_fields desired in
  diff_maps (filter (fun kv => compared k desired dv kv.1 = true) (spec_fields actual)) dv.

Definition diff_if (field from to : string) : list field_diff :=
  if String.eqb from to then [] else [FieldDiff field from to].

Definition diff_sealed_secret (actual desired : spec) : list field_diff :=
  match desired with
  | SSealedSecret d =>
      if missing (ss_sealed_fp d) then []
      else match actual with
           | SSealedSecret a =>
               if missing (ss_sealed_fp a) then [FieldDiff "value" "(not from a sealed value)" "(sealed)"]
               else if String.eqb (ss_sealed_fp a) (ss_sealed_fp d) then [] else [FieldDiff "value" "(current)" "(sealed)"]
           | _ => [FieldDiff "value" "(not from a sealed value)" "(sealed)"]
           end
  | _ => []
  end.

Definition diff_registry (actual desired : spec) : list field_diff :=
  match desired with
  | SRegistry d =>
      let a := match actual with SRegistry a => a | _ => empty_registry end in
      diff_if "server" (rg_server a) (rg_server d) ++ diff_if "username" (rg_username a) (rg_username d)
      ++ if negb (missing (rg_password d)) && negb (missing (rg_password_fp d)) && negb (missing (rg_password_fp a))
            && negb (String.eqb (rg_password_fp a) (rg_password_fp d))
         then [FieldDiff "password" "(current)" "(rotated)"] else []
  | _ => []
  end.

Definition diff_middleware (actual desired : spec) : list field_diff :=
  match desired with
  | SMiddleware d =>
      let a := match actual with SMiddleware a => a | _ => MiddlewareSpec "" [] (RMap []) "" end in
      diff_if "type" (mw_type a) (mw_type d) ++ diff_if "paths" (join "," (mw_paths a)) (join "," (mw_paths d))
      ++ if negb (missing (mw_rule_fp a)) && negb (missing (mw_rule_fp d)) && negb (String.eqb (mw_rule_fp a) (mw_rule_fp d))
         then [FieldDiff "rule" "(current)" "(changed)"] else []
  | _ => []
  end.

Definition present (m : gmap string string) (k : string) : string := if stated (m !! k) then "(present)" else "(absent)".
Definition diff_config (actual desired : spec) : list field_diff :=
  match desired with
  | SConfig d =>
      let a := match actual with SConfig a => a | _ => empty_config end in
      stable_sort fields_less
        (diff_if "data" (cf_digest_fp a) (cf_digest_fp d) ++ diff_if "mode" (cf_mode a) (cf_mode d)
         ++ if cf_sensitive d then []
            else omap (fun k => if String.eqb (value (cf_data a) k) (value (cf_data d) k) then None
                                else Some (FieldDiff ("data." +:+ k) (present (cf_data a) k) (present (cf_data d) k)))
                   (elements (dom (cf_data a) ∪ dom (cf_data d))))
  | _ => []
  end.

(** [Fingerprint]: each part of what a run executes, closed by a zero byte. *)
Definition unit_separator : string := String (ascii_of_nat 31) "".
Definition zero_byte : string := String (ascii_of_nat 0) "".
Definition fingerprint (j : job_spec) : string :=
  str_take 16 (hex_hash (sha256 (foldr (fun part acc => part +:+ zero_byte +:+ acc) ""
    [join unit_separator (jb_command j); join unit_separator (jb_entrypoint j); trim_space (jb_image j); jb_registry j;
     run_as_or_empty (security_run_as (jb_security j)); itoa (jb_timeout j)]))).

Definition job_spec_field : string := "spec".
Definition diff_job (actual desired : spec) : list field_diff :=
  match desired with
  | SJob d =>
      let a := match actual with SJob a => a | _ => empty_job end in
      diff_if "app" (jb_app a) (jb_app d)
      ++ diff_if "historyLimit" (itoa (history_or_default (jb_history a))) (itoa (history_or_default (jb_history d)))
      ++ diff_if "runPolicy" (job_policy a) (job_policy d)
      ++ diff_if "waitForDeploy" (format_bool (job_waits a)) (format_bool (job_waits d))
      ++ diff_if "backoffLimit" (itoa (jb_backoff_limit a)) (itoa (jb_backoff_limit d))
      ++ diff_if job_spec_field (or_else (jb_spec_fp a) (fingerprint a)) (fingerprint d)
  | _ => []
  end.

Definition diff_fields (actual desired : resource) : list field_diff :=
  let k := r_kind desired in
  if String.eqb k kind_secret then []
  else if String.eqb k kind_sealed_secret then diff_sealed_secret (r_spec actual) (r_spec desired)
  else if String.eqb k kind_registry then diff_registry (r_spec actual) (r_spec desired)
  else if String.eqb k kind_config then diff_config (r_spec actual) (r_spec desired)
  else if String.eqb k kind_middleware then diff_middleware (r_spec actual) (r_spec desired)
  else if String.eqb k kind_job then diff_job (r_spec actual) (r_spec desired)
  else diff_specs k (r_spec actual) (r_spec desired).

(** ** Building a plan *)

Definition uid_key (r : resource) : string := key_of (r_kind r) (r_uid r).
Definition with_uid (l : list resource) : list resource := List.filter (fun r => negb (missing (r_uid r))) l.
Definition by_uid (l : list resource) : gmap string resource := foldl (fun m a => <[uid_key a := a]> m) ∅ (with_uid l).
Definition desired_uids (l : list resource) : gset string := list_to_set (uid_key <$> with_uid l).

Definition match_actual (actual : resource_set) (uids : gmap string resource) (d : resource) : option resource :=
  let by_name := match get actual (key d) with
                 | Some r => Some r
                 | None => match vault_alias (r_kind d) with Some alias => get actual (key_of alias (r_name d)) | None => None end
                 end in
  if negb (missing (r_uid d)) then match uids !! uid_key d with Some r => Some r | None => by_name end else by_name.

Definition desired_change (opts : plan_options) (actual : resource_set) (uids : gmap string resource) (d : resource) : option change :=
  if negb (planned (r_kind d)) then None
  else match match_actual actual uids d with
       | None => Some (Change ActionCreate (r_kind d) (r_name d) "not present in workspace" [])
       | Some cur =>
           match diff_fields cur d with
           | [] => if po_include_noop opts then Some (Change ActionNoop (r_kind d) (r_name d) "" []) else None
           | fields => Some (Change ActionUpdate (r_kind d) (r_name d) "live state differs from desired" fields)
           end
       end.

Definition label (r : resource) (l : string) : string := value (mt_labels (r_meta r)) l.
Definition prunable (opts : plan_options) (desired : resource_set) (uids : gset string) (a : resource) : bool :=
  planned (r_kind a)
  && negb (stated (get desired (key a)))
  && negb (match vault_alias (r_kind a) with Some alias => has desired alias (r_name a) | None => false end)
  && negb (negb (missing (r_uid a)) && bool_decide (uid_key a ∈ uids))
  && (missing (po_prune_managed_by opts) || String.eqb (label a label_managed_by) (po_prune_managed_by opts))
  && (missing (po_prune_source opts) || String.eqb (label a label_gitops_source) (po_prune_source opts)).
Definition delete_change (a : resource) : change := Change ActionDelete (r_kind a) (r_name a) "removed from desired state" [].

Definition group (a : action) : Z := if bool_decide (a = ActionDelete) then 0 else 1.
Definition rank_of (c : change) : Z :=
  if bool_decide (ch_action c = ActionDelete) then - apply_rank (ch_kind c) else apply_rank (ch_kind c).
Definition change_less (a b : change) : bool :=
  if negb (group (ch_action a) =? group (ch_action b)) then group (ch_action a) <? group (ch_action b)
  else
    (* both ranks are negated together: the groups agree *)
    if negb (rank_of a =? rank_of b) then rank_of a <? rank_of b
    else if negb (String.eqb (ch_kind a) (ch_kind b)) then str_lt (ch_kind a) (ch_kind b)
    else str_lt (ch_name a) (ch_name b).

Definition build_plan (desired actual : resource_set) (opts : plan_options) : plan :=
  stable_sort change_less
    (omap (desired_change opts actual (by_uid (rl_list actual))) (rl_list desired)
     ++ if po_prune opts
        then delete_change <$> List.filter (prunable opts desired (desired_uids (rl_list desired))) (rl_list actual)
        else []).

(** * Facts *)

#[local] Arguments String.append !_ _ /.
#[local] Arguments or_else : simpl never.
#[local] Arguments fingerprint : simpl never.
#[local] Arguments masked : simpl never.

(** ** The order of changes *)

Lemma change_less_spec a b : change_less a b = true <->
  group (ch_action a) < group (ch_action b)
  \/ group (ch_action a) = group (ch_action b) /\
     (rank_of a < rank_of b
      \/ rank_of a = rank_of b /\
         (str_lt (ch_kind a) (ch_kind b) = true \/ ch_kind a = ch_kind b /\ str_lt (ch_name a) (ch_name b) = true)).
Proof.
  unfold change_less. destruct (Z.eqb_spec (group (ch_action a)) (group (ch_action b))) as [Eg|Eg]; cbn [negb].
  - destruct (Z.eqb_spec (rank_of a) (rank_of b)) as [Er|Er]; cbn [negb].
    + destruct (String.eqb_spec (ch_kind a) (ch_kind b)) as [Ek|Ek]; cbn [negb].
      * rewrite Ek, str_lt_irrefl. split; [intros H; right; split; [lia|right; split; [lia|by right]]|].
        intros [?|[_ [?|[_ [?|[_ ?]]]]]]; [lia|lia|done|done].
      * split; [intros H; right; split; [lia|right; split; [lia|by left]]|].
        intros [?|[_ [?|[_ [?|[? ?]]]]]]; [lia|lia|done|done].
    + rewrite Z.ltb_lt. split; [intros H; right; split; [lia|by left]|]. intros [?|[_ [?|[? _]]]]; lia.
  - rewrite Z.ltb_lt. split; [by left|]. intros [?|[? _]]; lia.
Qed.

Lemma str_lt_split a b c : str_lt a c = true -> str_lt a b = true \/ str_lt b c = true.
Proof.
  intros H. destruct (str_lt a b) eqn:E1; [by left|]. destruct (str_lt b c) eqn:E2; [by right|].
  by rewrite (str_lt_negtrans _ _ _ E2 E1) in H.
Qed.

Lemma change_less_asym a b : change_less a b = true -> change_less b a = false.
Proof.
  intros H. destruct (change_less b a) eqn:E; [|done]. apply change_less_spec in H, E.
  destruct H as [?|[Hg [?|[Hr [Hk|[Hk Hn]]]]]], E as [?|[Hg' [?|[Hr' [Hk'|[Hk' Hn']]]]]]; try lia.
  - by rewrite (str_lt_asym _ _ Hk) in Hk'.
  - by rewrite Hk', str_lt_irrefl in Hk.
  - by rewrite Hk, str_lt_irrefl in Hk'.
  - by rewrite (str_lt_asym _ _ Hn) in Hn'.
Qed.

Lemma change_less_split a b c : change_less a c = true -> change_less a b = true \/ change_less b c = true.
Proof.
  rewrite !change_less_spec. intros H.
  destruct (Z.lt_trichotomy (group (ch_action a)) (group (ch_action b))) as [|[Eg|]]; [auto| |
    right; left; destruct H as [?|[? _]]; lia].
  destruct H as [Hg|[Eg' H]]; [right; left; lia|].
  destruct (Z.lt_trichotomy (rank_of a) (rank_of b)) as [|[Er|]]; [auto| | right; right; split; [lia|left; destruct H as [?|[? _]]; lia]].
  destruct H as [Hr|[Er' H]]; [right; right; split; [lia|left; lia]|]. 
  assert (Hc : (str_lt (ch_kind a) (ch_kind b) = true \/ ch_kind a = ch_kind b /\ str_lt (ch_name a) (ch_name b) = true)
    \/ (str_lt (ch_kind b) (ch_kind c) = true \/ ch_kind b = ch_kind c /\ str_lt (ch_name b) (ch_name c) = true)).
  { destruct (String.eqb_spec (ch_kind a) (ch_kind b)) as [Ek|Ek].
    - rewrite Ek in H |- *. destruct H as [Hk|[Hk Hn]]; [by right; left|]. apply (str_lt_split _ (ch_name b)) in Hn as [?|?]; auto.
    - destruct (str_lt (ch_kind a) (ch_kind b)) eqn:E1; [auto|]. destruct H as [Hk|[Hk _]].
      + apply (str_lt_split _ (ch_kind b)) in Hk as [?|?]; [congruence|auto].
      + right. left. destruct (str_lt (ch_kind b) (ch_kind c)) eqn:E2; [done|]. rewrite <- Hk in E2.
        by destruct Ek; apply str_lt_total. }
  destruct Hc as [Hc|Hc]; [left|right]; right; (split; [lia|]); right; (split; [lia|done]).
Qed.

Lemma plan_sorted desired actual opts : StronglySorted (not_after change_less) (build_plan desired actual opts).
Proof.
  apply stable_sort_sorted; [apply change_less_asym|]. intros x y z H1 H2. destruct (change_less z x) eqn:E; [|done].
  apply (change_less_split _ y) in E as [E|E]; congruence.
Qed.

(** In a sorted plan, what must come before does. *)
Lemma sorted_before l i j (a b : change) : StronglySorted (not_after change_less) l -> l !! i = Some a -> l !! j = Some b ->
  change_less a b = true -> (i < j)%nat.
Proof.
  intros Hs Hi Hj Hlt. destruct (Nat.lt_trichotomy i j) as [|[->|Hji]]; [done| |].
  - rewrite Hi in Hj. injection Hj as <-. pose proof (change_less_asym _ _ Hlt). congruence.
  - assert (Hna : not_after change_less b a).
    { clear Hlt. revert i j Hi Hj Hji. induction Hs as [|x l Hs IH Hx]; intros i j Hi Hj Hji; [by rewrite lookup_nil in Hi|].
      destruct i as [|i]; [lia|]. destruct j as [|j]; cbn in Hi, Hj.
      - injection Hj as <-. rewrite Forall_forall in Hx. apply Hx. by eapply list_elem_of_lookup_2.
      - apply (IH i j); [done|done|lia]. }
    unfold not_after in Hna. congruence.
Qed.

(** ** Differences *)

Lemma stable_sort_nil {A} (less : A -> A -> bool) l : stable_sort less l = [] <-> l = [].
Proof.
  split; [|by intros ->]. intros H. apply (f_equal length) in H. rewrite length_stable_sort in H. by destruct l.
Qed.

Lemma elem_of_diff_maps av dv d : d ∈ diff_maps av dv <->
  value av (fd_field d) <> value dv (fd_field d) /\ d = FieldDiff (fd_field d) (value av (fd_field d)) (value dv (fd_field d)).
Proof.
  unfold diff_maps. rewrite elem_of_stable_sort, list_elem_of_omap. setoid_rewrite elem_of_elements. split.
  - intros (f & _ & H). destruct (String.eqb_spec (value av f) (value dv f)); [done|]. by injection H as <-.
  - intros [Hne E]. exists (fd_field d). split.
    + unfold value in Hne. rewrite elem_of_union, !elem_of_dom.
      destruct (av !! fd_field d) eqn:E1; [left; eauto|]. destruct (dv !! fd_field d) eqn:E2; [right; eauto|done].
    + apply String.eqb_neq in Hne. by rewrite Hne, <- E.
Qed.

Lemma diff_maps_nil av dv : (forall f, value av f = value dv f) -> diff_maps av dv = [].
Proof.
  intros H. destruct (diff_maps av dv) as [|d l] eqn:E; [done|]. assert (Hd : d ∈ diff_maps av dv) by (rewrite E; left).
  apply elem_of_diff_maps in Hd as [Hne _]. by destruct Hne.
Qed.

(** A field that differs is listed, with both values, exactly when it is compared. *)
Lemma elem_of_diff_specs k a d x : x ∈ diff_specs k a d <->
  let from := if compared k d (spec_fields d) (fd_field x) then value (spec_fields a) (fd_field x) else "" in
  let to := value (spec_fields d) (fd_field x) in
  from <> to /\ x = FieldDiff (fd_field x) from to.
Proof.
  unfold diff_specs. rewrite elem_of_diff_maps. set (f := fd_field x).
  assert (E : value (filter (fun kv => compared k d (spec_fields d) kv.1 = true) (spec_fields a)) f
              = if compared k d (spec_fields d) f then value (spec_fields a) f else "").
  { unfold value. rewrite map_lookup_filter. destruct (spec_fields a !! f) as [v|]; cbn; [|by destruct (compared _ _ _ _)].
    by destruct (compared k d (spec_fields d) f). }
  by rewrite E.
Qed.

(** A stack without variables has none among its fields. *)
Lemma stack_fields_no_env s f : st_env s = None -> has_prefix "env." f = true -> spec_fields (SStack s) !! f = None.
Proof.
  intros He Hp. unfold has_prefix in Hp. destruct (cut_prefix "env." f) as [r|] eqn:Ec; [|done]. apply cut_prefix_some in Ec as ->.
  apply not_elem_of_list_to_map. unfold stack_fields, env_fields, masked, keyed. rewrite He. cbn [default].
  rewrite map_imap_empty, map_to_list_empty, app_nil_r. destruct (negb _); cbn; rewrite ?elem_of_cons, elem_of_nil; naive_solver.
Qed.

Lemma diff_specs_self k s : diff_specs k s s = [].
Proof.
  apply diff_maps_nil. intros f. unfold value. rewrite map_lookup_filter. destruct (spec_fields s !! f) as [v|] eqn:E; [|done]. cbn.
  rewrite option_guard_True; [done|]. unfold compared. rewrite E. cbn. destruct s; try done.
  destruct (st_env s) eqn:Es; [done|]. cbn. destruct (has_prefix "env." f) eqn:Ep; [|done].
  by rewrite (stack_fields_no_env s f Es Ep) in E.
Qed.

Lemma diff_if_same f v : diff_if f v v = [].
Proof. unfold diff_if. by rewrite String.eqb_refl. Qed.

(** The recorded fingerprint of a job, if there is one, is its own. *)
Definition settled (s : spec) : Prop :=
  match s with SJob j => jb_spec_fp j = "" \/ jb_spec_fp j = fingerprint j | _ => True end.

Lemma diff_fields_self a d : r_spec a = r_spec d -> settled (r_spec d) -> diff_fields a d = [].
Proof.
  intros E Hs. unfold diff_fields. rewrite E. destruct (r_spec d) as [x|x|x|x|x|x|x|x|x|x|x|x|x|x|x|x|];
    repeat (destruct (String.eqb _ _); [try done|]); rewrite ?diff_specs_self; try done; cbn.
  - destruct (missing (ss_sealed_fp x)); [done|]. by rewrite String.eqb_refl.
  - by rewrite !diff_if_same, String.eqb_refl, !andb_false_r.
  - rewrite !diff_if_same. cbn. destruct (cf_sensitive x); [done|]. apply stable_sort_nil.
    induction (elements _) as [|k l IH]; cbn; [done|]. by rewrite String.eqb_refl.
  - by rewrite !diff_if_same, String.eqb_refl, !andb_false_r.
  - rewrite !diff_if_same. cbn. cbn in Hs. destruct Hs as [Hs|Hs]; rewrite Hs; unfold or_else; cbn; [by rewrite diff_if_same|].
    destruct (String.eqb _ _); by rewrite diff_if_same.
Qed.

(** ** Matching *)

Lemma by_uid_some l k a : by_uid l !! k = Some a -> a ∈ l /\ r_uid a <> "" /\ uid_key a = k.
Proof.
  unfold by_uid. assert (H : forall m : gmap string resource, (forall x, m !! k = Some x -> x ∈ l /\ r_uid x <> "" /\ uid_key x = k) -> forall l', (forall x, x ∈ l' -> x ∈ with_uid l) ->
    foldl (fun m a => <[uid_key a := a]> m) m l' !! k = Some a -> a ∈ l /\ r_uid a <> "" /\ uid_key a = k).
  { intros m Hm l'. revert m Hm. induction l' as [|x l' IH]; intros m Hm Hl' H; [by apply Hm|]. cbn in H. apply (IH (<[uid_key x:=x]> m)); [| |done].
    - intros y Hy. destruct (decide (uid_key x = k)) as [<-|Hk]; [rewrite lookup_insert_eq in Hy|rewrite lookup_insert_ne in Hy by done; by apply Hm].
      injection Hy as <-. assert (Hx : x ∈ with_uid l) by (apply Hl'; left). apply elem_of_bfilter in Hx as [Hx Hu]. apply negb_true_iff, String.eqb_neq in Hu. done.
    - intros y Hy. apply Hl'. by right. }
  apply H; [|done]. intros x Hx. by rewrite lookup_empty in Hx.
Qed.

(** With distinct uids, the uid of a live resource finds it. *)
Lemma by_uid_lookup l a : NoDup (uid_key <$> with_uid l) -> a ∈ l -> r_uid a <> "" -> by_uid l !! uid_key a = Some a.
Proof.
  intros Hn Ha Hu. unfold by_uid. assert (Hin : a ∈ with_uid l).
  { apply elem_of_bfilter. split; [done|]. by apply negb_true_iff, String.eqb_neq. }
  revert Hn Hin. generalize (with_uid l). clear. intros l Hn Hin.
  assert (H : forall m : gmap string resource, foldl (fun m a => <[uid_key a := a]> m) m l !! uid_key a = Some a); [|apply H].
  induction l as [|x l IH] using rev_ind; intros m; [by inversion Hin|]. rewrite foldl_app. cbn.
  rewrite fmap_app in Hn. apply NoDup_app in Hn as (Hn & Hd & _). apply elem_of_app in Hin as [Hin|Hin%list_elem_of_singleton].
  - rewrite lookup_insert_ne; [by apply IH|]. intros E. apply (Hd (uid_key x)); [|by left].
    rewrite E. by apply list_elem_of_fmap_2.
  - subst. by rewrite lookup_insert_eq.
Qed.

Lemma match_actual_in actual d a : set_ok actual -> match_actual actual (by_uid (rl_list actual)) d = Some a ->
  a ∈ rl_list actual
  /\ (r_uid d <> "" /\ r_uid a <> "" /\ uid_key a = uid_key d
      \/ key a = key d
      \/ get actual (key d) = None /\ exists alias, vault_alias (r_kind d) = Some alias /\ key a = key_of alias (r_name d)).
Proof.
  intros Hok. unfold match_actual.
  assert (Hby : forall r, match get actual (key d) with Some r => Some r
      | None => match vault_alias (r_kind d) with Some alias => get actual (key_of alias (r_name d)) | None => None end end = Some r ->
    r ∈ rl_list actual /\ (key r = key d \/ get actual (key d) = None
      /\ exists alias, vault_alias (r_kind d) = Some alias /\ key r = key_of alias (r_name d))).
  { intros r. destruct (get actual (key d)) as [x|] eqn:Eg; [intros [= <-]; apply get_spec in Eg; naive_solver|].
    destruct (vault_alias (r_kind d)) as [alias|]; [|done]. intros H. apply get_spec in H; [|done]. naive_solver. }
  destruct (missing (r_uid d)) eqn:Em; cbn [negb]; [intros H; apply Hby in H; naive_solver|]. apply String.eqb_neq in Em.
  destruct (by_uid (rl_list actual) !! uid_key d) as [x|] eqn:Eu; [|intros H; apply Hby in H; naive_solver].
  intros [= <-]. apply by_uid_some in Eu. naive_solver.
Qed.

Lemma vault_alias_spec k alias : vault_alias k = Some alias ->
  vault_alias alias = Some k /\ planned alias = true /\ slashless k = true /\ slashless alias = true.
Proof.
  unfold vault_alias. destruct (String.eqb_spec k kind_secret) as [->|]; [intros [= <-]; by vm_compute|].
  destruct (String.eqb_spec k kind_sealed_secret) as [->|]; [|done]. intros [= <-]. by vm_compute.
Qed.

(** A live resource that a declared one is compared with is never pruned. *)
Lemma matched_not_prunable desired actual opts d a :
  set_ok desired -> set_ok actual -> (forall r, r ∈ rl_list actual -> slashless (r_kind r) = true) ->
  d ∈ rl_list desired -> match_actual actual (by_uid (rl_list actual)) d = Some a ->
  prunable opts desired (desired_uids (rl_list desired)) a = false.
Proof.
  intros Hd Ha Hsl Hin Hm. destruct (prunable _ _ _ _) eqn:Hp; [|done]. exfalso. unfold prunable in Hp.
  repeat match goal with H : andb _ _ = true |- _ => apply andb_true_iff in H as [H ?] end.
  apply match_actual_in in Hm as (Hain & [(Hu & Hua & Ek)|[Ek|(_ & alias & Hal & Ek)]]); [| | |done].
  - assert (Hx : uid_key a ∈ desired_uids (rl_list desired)).
    { unfold desired_uids. apply elem_of_list_to_set, list_elem_of_fmap. exists d. split; [done|]. apply elem_of_bfilter.
      split; [done|]. by apply negb_true_iff, String.eqb_neq. }
    apply negb_true_iff, andb_false_iff in H1 as [H1|H1].
    + by apply negb_false_iff, missing_spec in H1.
    + by apply bool_decide_eq_false in H1.
  - assert (Hg : get desired (key a) = Some d) by by apply get_spec. by rewrite Hg in H3.
  - apply vault_alias_spec in Hal as (Hal & _ & Hk1 & Hk2). apply key_of_inj in Ek as [Ek En]; [|by apply Hsl|done].
    rewrite Ek, Hal, En in H2. assert (Hh : has desired (r_kind d) (r_name d) = true) by (apply has_spec; eauto). by rewrite Hh in H2.
Qed.

(** ** The changes of a plan *)

Lemma elem_of_plan desired actual opts c : c ∈ build_plan desired actual opts <->
  (exists d, d ∈ rl_list desired /\ desired_change opts actual (by_uid (rl_list actual)) d = Some c)
  \/ (po_prune opts = true /\ exists a, a ∈ rl_list actual
        /\ prunable opts desired (desired_uids (rl_list desired)) a = true /\ c = delete_change a).
Proof.
  unfold build_plan. rewrite elem_of_stable_sort, elem_of_app, list_elem_of_omap. destruct (po_prune opts).
  - rewrite list_elem_of_fmap. setoid_rewrite elem_of_bfilter. naive_solver.
  - rewrite elem_of_nil. naive_solver.
Qed.

Lemma desired_change_cases opts actual uids d c : desired_change opts actual uids d = Some c ->
  planned (r_kind d) = true /\ ch_kind c = r_kind d /\ ch_name c = r_name d
  /\ match ch_action c with
     | ActionCreate => match_actual actual uids d = None
     | ActionUpdate => exists cur, match_actual actual uids d = Some cur /\ ch_fields c = diff_fields cur d /\ ch_fields c <> []
     | ActionNoop => exists cur, match_actual actual uids d = Some cur /\ diff_fields cur d = []
     | ActionDelete => False
     end.
Proof.
  unfold desired_change. destruct (planned (r_kind d)); [|done]. cbn [negb].
  destruct (match_actual actual uids d) as [cur|] eqn:Em; [|intros [= <-]; by cbn].
  destruct (diff_fields cur d) as [|x l] eqn:Ef; [destruct (po_include_noop opts); [|done]|]; intros [= <-]; cbn.
  - split_and!; try done. by exists cur.
  - split_and!; try done. exists cur. by rewrite Ef.
Qed.

(** ** Secrets *)

(** What a plan must not depend on: secret variables, secrets, sealed values, registry passwords, the rules of
    middlewares and the files of sensitive configs. *)
Definition hide_spec (s : spec) : spec :=
  match s with
  | SApplication a =>
      SApplication (ApplicationSpec (ap_source a) (ap_image a) (ap_tag a) (ap_digest a) (ap_command a) (ap_ports a)
        (masked (ap_secret_env a) "" (ap_env a)) (ap_secret_env a) (ap_mounts a) (ap_resources a) (ap_placement a) (ap_deployment a)
        (ap_security a) (ap_healthcheck a) (ap_container_labels a) (ap_stack a) (ap_registry a) (ap_external_label a)
        (ap_reload_policy a) (ap_deprecated_run_as_user a) (ap_deprecated_strategy a) (ap_config_fp a))
  | SStack s => SStack (StackSpec (st_description s) (st_placement s) (masked (st_secret_env s) "" <$> st_env s) (st_secret_env s))
  | SSecret _ => SSecret (SecretSpec "" false 0 None 0 0)
  | SSealedSecret s => SSealedSecret (SealedSecretSpec "" (ss_sealed_fp s))
  | SRegistry r => SRegistry (RegistrySpec (rg_server r) (rg_username r) (if missing (rg_password r) then "" else secret_mask) (rg_password_fp r))
  | SMiddleware m => SMiddleware (MiddlewareSpec (mw_type m) (mw_paths m) ROther (mw_rule_fp m))
  | SConfig c => SConfig (ConfigSpec (if cf_sensitive c then ∅ else cf_data c) (cf_mode c) (cf_sensitive c) (cf_delimiters c) (cf_digest_fp c))
  | _ => s
  end.
Definition hide (r : resource) : resource := Resource (r_kind r) (r_meta r) (hide_spec (r_spec r)).
Definition hide_set (s : resource_set) : resource_set := ResourceSet (hide <$> rl_list s) (rl_index s).
Definition sensitive (s : spec) : bool := match s with SConfig c => cf_sensitive c | _ => false end.

Lemma masked_masked secret mask env : masked secret mask (masked secret "" env) = masked secret mask env.
Proof.
  unfold masked. apply map_eq. intros k. rewrite !map_lookup_imap. destruct (env !! k) as [v|]; [|done]. cbn. by destruct (mem k secret).
Qed.

Lemma hide_fields s : spec_fields (hide_spec s) = spec_fields s.
Proof.
  destruct s as [a|st| | | | | | | | | | | | | | |]; try done; cbn [hide_spec]; unfold spec_fields; f_equal; cbv iota beta.
  - unfold application_fields, env_fields. cbn [ap_env ap_secret_env]. by rewrite masked_masked.
  - unfold stack_fields, env_fields. cbn [st_env st_secret_env]. destruct (st_env st) as [env|]; [|done].
    change (default ∅ (masked (st_secret_env st) "" <$> Some env)) with (masked (st_secret_env st) "" env). by rewrite masked_masked.
Qed.

Lemma hide_compared k d dv f : compared k (hide_spec d) dv f = compared k d dv f.
Proof. destruct d; try done. unfold compared. cbn. by destruct (st_env s). Qed.

Lemma hide_diff_specs k a d : diff_specs k (hide_spec a) (hide_spec d) = diff_specs k a d.
Proof.
  unfold diff_specs. rewrite !hide_fields. f_equal. apply map_filter_strong_ext_1. intros f v. cbn. by rewrite hide_compared.
Qed.

Lemma hide_diff_fields a d : (sensitive (r_spec a) = true -> sensitive (r_spec d) = true) ->
  diff_fields (hide a) (hide d) = diff_fields a d.
Proof.
  intros Hs. unfold diff_fields. cbn [r_kind r_spec hide]. rewrite hide_diff_specs.
  repeat (destruct (String.eqb _ _); [|]); try done; destruct (r_spec d) as [x|x|x|x|x|x|x|x|x|x|x|x|x|x|x|x|]; try done;
    destruct (r_spec a) as [y|y|y|y|y|y|y|y|y|y|y|y|y|y|y|y|]; try done; cbn in *.
  all: try (by destruct (missing (rg_password x))).
  all: destruct (cf_sensitive x) eqn:Ex; try done.
  all: destruct (cf_sensitive y); [by specialize (Hs eq_refl)|done].
Qed.

Lemma omap_map_ext {A B C} (f : B -> option C) (g : A -> B) (h : A -> option C) (l : list A) :
  (forall x, x ∈ l -> f (g x) = h x) -> omap f (g <$> l) = omap h l.
Proof.
  induction l as [|x l IH]; intros H; [done|]. cbn. rewrite H by left. rewrite IH; [done|]. intros y Hy. apply H. by right.
Qed.

Lemma hide_get s k : get (hide_set s) k = hide <$> get s k.
Proof. unfold get, hide_set. cbn. destruct (rl_index s !! k); [|done]. by rewrite list_lookup_fmap. Qed.

Lemma hide_with_uid l : with_uid (hide <$> l) = hide <$> with_uid l.
Proof. unfold with_uid. induction l as [|r l IH]; [done|]. cbn. destruct (negb (missing (r_uid r))) eqn:E; unfold r_uid in *; cbn; rewrite E; [by f_equal|done]. Qed.

Lemma hide_by_uid l : by_uid (hide <$> l) = hide <$> by_uid l.
Proof.
  unfold by_uid. rewrite hide_with_uid. rewrite <- (fmap_empty (M := gmap string) hide) at 1.
  generalize (∅ : gmap string resource). induction (with_uid l) as [|a l' IH]; intros m; [done|]. cbn. rewrite <- IH. f_equal.
  by rewrite fmap_insert.
Qed.

Lemma hide_match actual uids d : match_actual (hide_set actual) (hide <$> uids) (hide d) = hide <$> match_actual actual uids d.
Proof.
  unfold match_actual. change (r_uid (hide d)) with (r_uid d). change (uid_key (hide d)) with (uid_key d).
  change (key (hide d)) with (key d). change (r_kind (hide d)) with (r_kind d). change (r_name (hide d)) with (r_name d).
  rewrite !hide_get, lookup_fmap. destruct (negb (missing (r_uid d))).
  - destruct (uids !! uid_key d); [done|]. cbn. destruct (get actual (key d)); [done|]. cbn.
    destruct (vault_alias (r_kind d)); [|done]. by rewrite hide_get.
  - destruct (get actual (key d)); [done|]. cbn. destruct (vault_alias (r_kind d)); [|done]. by rewrite hide_get.
Qed.

Lemma hide_prunable opts desired uids a : prunable opts (hide_set desired) uids (hide a) = prunable opts desired uids a.
Proof.
  unfold prunable. change (key (hide a)) with (key a). rewrite hide_get. by destruct (get desired (key a)).
Qed.

(** * Claims *)

(** C22 [prune_is_safe]: a plan deletes only when pruning was asked for, and only a live resource the declared set
    does not hold, that no declared one is compared with (by uid, by name, or as the same vault entry under the
    other kind), and that carries the owner and the source the pruning is limited to. *)
Theorem prune_is_safe (desired actual : resource_set) (opts : plan_options) (c : change) :
  set_ok desired -> set_ok actual -> (forall r, r ∈ rl_list actual -> slashless (r_kind r) = true) ->
  c ∈ build_plan desired actual opts -> ch_action c = ActionDelete ->
  po_prune opts = true /\ exists a, a ∈ rl_list actual /\ ch_kind c = r_kind a /\ ch_name c = r_name a
    /\ get desired (key a) = None
    /\ (forall d, d ∈ rl_list desired -> match_actual actual (by_uid (rl_list actual)) d <> Some a)
    /\ (po_prune_managed_by opts <> "" -> label a label_managed_by = po_prune_managed_by opts)
    /\ (po_prune_source opts <> "" -> label a label_gitops_source = po_prune_source opts).
Proof.
  intros Hd Ha Hsl [(d & _ & H%desired_change_cases)|(Hp & a & Hin & Hpr & ->)]%elem_of_plan Hact.
  { destruct H as (_ & _ & _ & H). by rewrite Hact in H. }
  split; [done|]. exists a. split; [done|]. split; [done|]. split; [done|].
  assert (Hmatch : forall d, d ∈ rl_list desired -> match_actual actual (by_uid (rl_list actual)) d <> Some a).
  { intros d Hd' Hm. by rewrite (matched_not_prunable desired actual opts d a) in Hpr. }
  unfold prunable in Hpr. repeat match goal with H : andb _ _ = true |- _ => apply andb_true_iff in H as [H ?] end.
  split_and!; [by destruct (get desired (key a))|done| |]; intros Hne%String.eqb_neq.
  - unfold missing in H0. rewrite Hne in H0. cbn in H0. by apply String.eqb_eq.
  - unfold missing in H. rewrite Hne in H. cbn in H. by apply String.eqb_eq.
Qed.

(** Once every declared resource is live with the declared spec under its kind and name, and
    its uid if it states one, a plan creates and updates nothing, and deletes only what is not declared; with no
    pruning, or nothing else live, it has no changes: applying a manifest again does nothing. *)
Lemma applied_plan_empty (desired actual : resource_set) (opts : plan_options) :
  set_ok desired -> set_ok actual -> NoDup (uid_key <$> with_uid (rl_list actual)) ->
  (forall d, d ∈ rl_list desired -> planned (r_kind d) = true -> settled (r_spec d)
     /\ exists a, a ∈ rl_list actual /\ r_kind a = r_kind d /\ r_name a = r_name d /\ r_spec a = r_spec d
          /\ (r_uid d = "" \/ r_uid d = r_uid a)) ->
  (forall c, c ∈ build_plan desired actual opts -> ch_action c = ActionNoop
     \/ ch_action c = ActionDelete /\ exists a, a ∈ rl_list actual /\ c = delete_change a /\ get desired (key a) = None)
  /\ (po_prune opts = false \/ (forall a, a ∈ rl_list actual -> get desired (key a) <> None) ->
      has_changes (build_plan desired actual opts) = false).
Proof.
  intros Hd Ha Hu Hall.
  assert (Hc : forall c, c ∈ build_plan desired actual opts -> ch_action c = ActionNoop
     \/ po_prune opts = true /\ ch_action c = ActionDelete /\ exists a, a ∈ rl_list actual /\ c = delete_change a /\ get desired (key a) = None).
  { intros c [(d & Hin & Hch)|(Hp & a & Hin & Hpr & ->)]%elem_of_plan.
    - pose proof Hch as (Hpl & _ & _ & Hcase)%desired_change_cases. destruct (Hall d Hin Hpl) as (Hst & a & Hain & Ek & En & Es & Euid).
      assert (Hm : match_actual actual (by_uid (rl_list actual)) d = Some a).
      { unfold match_actual. assert (Hg : get actual (key d) = Some a) by (apply get_spec; [done|]; unfold key; by rewrite Ek, En).
        rewrite Hg. destruct (missing (r_uid d)) eqn:Em; [done|]. cbn. apply String.eqb_neq in Em.
        assert (Euk : uid_key d = uid_key a) by (unfold uid_key; destruct Euid as [|E]; congruence).
        rewrite Euk, by_uid_lookup; [done|done|done|]. by destruct Euid as [|<-]. }
      rewrite Hm in Hcase. pose proof (diff_fields_self a d Es Hst) as Hdf. destruct (ch_action c); [done| |done|by left].
      destruct Hcase as (cur & [= <-] & Hf & Hne). by rewrite Hf in Hne.
    - right. split; [done|]. split; [done|]. exists a. split_and!; [done|done|]. unfold prunable in Hpr.
      repeat match goal with H : andb _ _ = true |- _ => apply andb_true_iff in H as [H ?] end. by destruct (get desired (key a)). }
  split; [intros c Hin; destruct (Hc c Hin) as [|(_ & ? & ?)]; auto|].
  intros Hno. unfold has_changes. apply existsb_elem_false. intros c Hin. apply negb_false_iff, bool_decide_eq_true.
  destruct (Hc c Hin) as [|(Hp & _ & a & Hain & _ & Hg)]; [done|]. destruct Hno as [Hno|Hno]; [congruence|by destruct (Hno a Hain)].
Qed.

(** C30 [plan_hides_secrets]: Apart from the fingerprints, which are computed from them before
    planning, a plan is the same whatever the values of secret variables, secrets, sealed values,
    registry passwords, middleware rules and sensitive files are: with the fingerprints left as they
    are, replacing those values on either side changes nothing in it. This holds where no config is
    declared public while the live one is sensitive. *)
Theorem plan_hides_secrets (desired actual : resource_set) (opts : plan_options) :
  (forall d a, d ∈ rl_list desired -> match_actual actual (by_uid (rl_list actual)) d = Some a ->
     sensitive (r_spec a) = true -> sensitive (r_spec d) = true) ->
  build_plan (hide_set desired) (hide_set actual) opts = build_plan desired actual opts.
Proof.
  intros Hs. unfold build_plan. cbn [rl_list hide_set]. f_equal. f_equal.
  - rewrite hide_by_uid. apply omap_map_ext. intros d Hd.
    unfold desired_change. rewrite hide_match. change (r_kind (hide d)) with (r_kind d). change (r_name (hide d)) with (r_name d).
    destruct (planned (r_kind d)); [|done]. destruct (match_actual actual (by_uid (rl_list actual)) d) as [a|] eqn:Em; [|done].
    cbn. by rewrite hide_diff_fields by by apply Hs.
  - destruct (po_prune opts); [|done].
    assert (Eu : desired_uids (hide <$> rl_list desired) = desired_uids (rl_list desired)).
    { unfold desired_uids. rewrite hide_with_uid, <- list_fmap_compose. done. }
    rewrite Eu. clear Hs Eu. induction (rl_list actual) as [|a l IH]; [done|]. cbn. rewrite hide_prunable.
    destruct (prunable opts desired (desired_uids (rl_list desired)) a); cbn; [by f_equal|done].
Qed.

(** ** Witnesses *)

Definition demo_set (l : list resource) : resource_set := foldl add new_resource_set l.
Definition demo_live (name uid owner : string) (s : spec) (k : kind) : resource :=
  Resource k (Meta name uid (<[label_managed_by := owner]> ∅) ∅) s.
Definition demo_volume (size : string) : spec := SVolume (VolumeSpec size "" None).
Definition demo_prune : plan_options := PlanOptions true "apply" "" false.

Lemma demo_set_ok l : set_ok (demo_set l).
Proof.
  unfold demo_set. assert (H : forall s, set_ok s -> set_ok (foldl add s l)); [|apply H, new_resource_set_ok].
  induction l as [|r l IH]; intros s Hs; [done|]. cbn. by apply IH, add_ok.
Qed.

Lemma prune_is_safe_witness :
  let actual := demo_set [demo_live "old" "u1" "apply" (demo_volume "1Gi") kind_volume; demo_live "mine" "u2" "" (demo_volume "1Gi") kind_volume] in
  exists c, c ∈ build_plan new_resource_set actual demo_prune /\ ch_action c = ActionDelete /\ ch_name c = "old" /\ po_prune demo_prune = true.
Proof.
  intros actual. assert (E : build_plan new_resource_set actual demo_prune = [Change ActionDelete kind_volume "old" "removed from desired state" []]) by by vm_compute.
  exists (Change ActionDelete kind_volume "old" "removed from desired state" []). split_and!; [rewrite E; by left|done|done|].
  refine (proj1 (prune_is_safe new_resource_set actual demo_prune (Change ActionDelete kind_volume "old" "removed from desired state" [])
    new_resource_set_ok (demo_set_ok _) _ _ eq_refl)).
  - intros r Hr. apply list_elem_of_In in Hr. by repeat destruct Hr as [<-|Hr].
  - rewrite E. by left.
Defined.

Lemma plan_hides_secrets_witness :
  let app v := SApplication (ApplicationSpec None "nginx" "" "" [] [] (<["TOKEN" := v]> ∅) ["TOKEN"] [] None None None None None ∅ "" "" "" "" "" "" "") in
  let set v := demo_set [Resource kind_application (Meta "web" "" ∅ ∅) (app v)] in
  build_plan (set "old") new_resource_set demo_prune = build_plan (set "new") new_resource_set demo_prune.
Proof.
  intros app set. assert (Hn : hide_set new_resource_set = new_resource_set) by done.
  assert (Hs : forall v d a, d ∈ rl_list (set v) -> match_actual new_resource_set (by_uid (rl_list new_resource_set)) d = Some a ->
    sensitive (r_spec a) = true -> sensitive (r_spec d) = true).
  { intros v d a Hd Hm. apply list_elem_of_In in Hd as [<-|[]]. discriminate Hm. }
  rewrite <- (plan_hides_secrets (set "old") new_resource_set demo_prune (Hs "old")).
  rewrite <- (plan_hides_secrets (set "new") new_resource_set demo_prune (Hs "new")). by vm_compute.
Defined.

(** A resource renamed under its uid is compared with itself and found equal: the plan never renames it. *)
Lemma rename_is_not_planned :
  build_plan (demo_set [Resource kind_volume (Meta "data-renamed" "u1" ∅ ∅) (demo_volume "1Gi")])
    (demo_set [demo_live "data" "u1" "apply" (demo_volume "1Gi") kind_volume]) demo_prune = [].
Proof. by vm_compute. Qed.

(** A config that interpolates a secret of the same manifest is created before the secret. *)
Lemma config_precedes_its_secret :
  (ch_kind <$> build_plan (demo_set
     [Resource kind_secret (Meta "token" "" ∅ ∅) (SSecret (SecretSpec "s3cret" false 0 None 0 0));
      Resource kind_config (Meta "site" "" ∅ ∅) (SConfig (ConfigSpec (<["app.ini" := "token={{ .secrets.token }}"]> ∅) "0644" false [] "d1"))])
     new_resource_set demo_prune) = [kind_config; kind_secret].
Proof. by vm_compute. Qed.

(** A user with a space around it is accepted, stored without it, and differs at every plan. *)
Lemma spaced_user_drifts :
  let sec u := Some (SecuritySpec u false None None None None) in
  let app u := SApplication (ApplicationSpec None "nginx" "" "" [] [] ∅ [] [] None None None (sec u) None ∅ "" "" "" "restart" "" "" "") in
  normalize_run_as_user "1000 " = Ok "1000"
  /\ diff_specs kind_application (app "1000") (app "1000 ") = [FieldDiff "security.runAsUser" "1000" "1000 "].
Proof. by vm_compute. Qed.
