(* ===== verification/ManifestEdges.v ===== *)
(** * Manifests: edges

    [internal/declarative/edges.go]: the links a set's resources have to one another, with the scan for template
    references; and how a plan's order respects them. The variables of an application are scanned in an order of
    their own; the edges do not depend on it. *)
From S2P Require Import Prelude GoStrings ManifestTypes ManifestSpec ManifestPlan.
#[local] Open Scope Z_scope.
#[local] Open Scope list_scope.

(** ** Template references *)

Definition ref_char (c : ascii) : bool := is_alnum c || one_of ["_"; "-"]%char c.
Fixpoint span (p : ascii -> bool) (s : string) : string * string :=
  match s with
  | String c s' => if p c then let '(a, b) := span p s' in (String c a, b) else (EmptyString, s)
  | EmptyString => (EmptyString, EmptyString)
  end.
(** The collection a text starts with, after a dot, and what follows it *)
Definition collection_at (colls : list string) (s : string) : option (string * string) :=
  match find_first (fun c => has_prefix ("." +:+ c) s) colls with
  | Some c => Some (c, trim_prefix ("." +:+ c) s)
  | None => None
  end.

(** [FindAll]: the matches from the left, each search after the end of the match before; as many rounds as there are
    characters. *)
Fixpoint find_all {A : Type} (at_ : string -> option (A * string)) (fuel : nat) (s : string) : list A :=
  match fuel, s with
  | S fuel, String _ s' =>
      match at_ s with
      | Some (x, rest) => x :: find_all at_ fuel rest
      | None => find_all at_ fuel s'
      end
  | _, _ => []
  end.

Definition template_collections : list string := ["databases"; "secrets"; "applications"].
(** [tmplRef], anchored: a collection and a name right after an opening of a template *)
Definition tmpl_ref_at (s : string) : option ((string * string) * string) :=
  match cut_prefix "{{" s with
  | None => None
  | Some r =>
      match collection_at template_collections (drop_while (fun c => Ascii.eqb c "-" || re_space c) r) with
      | Some (coll, String "." r) =>
          let '(name, rest) := span ref_char r in if missing name then None else Some ((coll, name), rest)
      | _ => None
      end
  end.
Definition tmpl_refs (v : string) : list (string * string) := find_all tmpl_ref_at (String.length v) v.

(** ** Edges *)

Inductive edge_type :=
| EdgeMount | EdgeStack | EdgeRoute | EdgeDomain | EdgeDatabase | EdgeSecret | EdgeAppRef | EdgeRegistry | EdgeConfig
| EdgeMiddleware | EdgeSchedule | EdgeRun | EdgeRepository.
#[export] Instance edge_type_eq_dec : EqDecision edge_type.
Proof. solve_decision. Defined.
Record edge := Edge { e_from : string; e_to : string; e_type : edge_type }.
#[export] Instance edge_eq_dec : EqDecision edge.
Proof. solve_decision. Defined.

(** A link a resource may have: its kind and name, and the link's target and type *)
Record link := Link { ln_from : kind * string; ln_to : kind * string; ln_type : edge_type }.

Definition match_domain (host : string) (domains : list resource) : string :=
  let host := trim_suffix "." (to_lower (trim_space host)) in
  foldl (fun best d =>
    let dn := to_lower (r_name d) in
    if (String.eqb host dn || has_suffix ("." +:+ dn) host) && (String.length best <? String.length dn)%nat
    then r_name d else best) "" domains.

Definition application_links (name : string) (a : application_spec) : list link :=
  let from := (kind_application, name) in
  (if missing (ap_stack a) then [] else [Link from (kind_stack, ap_stack a) EdgeStack])
  ++ ((fun m => if missing (mn_config m) then Link from (kind_volume, mn_volume m) EdgeMount
                else Link from (kind_config, mn_config m) EdgeConfig) <$> ap_mounts a)
  ++ [Link from (kind_registry, ap_registry a) EdgeRegistry]
  ++ match ap_source a with Some s => [Link from (kind_git_repository, so_repository s) EdgeRepository] | None => [] end
  ++ concat ((fun kv =>
       concat ((fun m : string * string =>
         if String.eqb m.1 "databases" then [Link from (kind_database, m.2) EdgeDatabase]
         else if String.eqb m.1 "secrets" then [Link from (kind_secret, m.2) EdgeSecret; Link from (kind_sealed_secret, m.2) EdgeSecret]
         else [Link from (kind_application, m.2) EdgeAppRef]) <$> tmpl_refs kv.2)) <$> map_to_list (ap_env a)).

Definition links (domains : list resource) (r : resource) : list link :=
  let name := r_name r in
  match r_spec r with
  | SApplication a => application_links name a
  | SGitSource g => [Link (kind_git_source, name) (kind_git_repository, gs_repository g) EdgeRepository]
  | SGitRepository g =>
      [Link (kind_git_repository, name) (kind_secret, gr_secret_ref g) EdgeSecret;
       Link (kind_git_repository, name) (kind_sealed_secret, gr_secret_ref g) EdgeSecret]
  | SCronJob c =>
      [Link (kind_cron_job, name) (kind_application, cj_app c) EdgeSchedule; Link (kind_cron_job, name) (kind_registry, cj_registry c) EdgeRegistry]
  | SJob j => [Link (kind_job, name) (kind_application, jb_app j) EdgeRun; Link (kind_job, name) (kind_registry, jb_registry j) EdgeRegistry]
  | SRoute ro =>
      Link (kind_route, name) (kind_application, ro_app ro) EdgeRoute
      :: ((fun m => Link (kind_route, name) (kind_middleware, m) EdgeMiddleware) <$> ro_middlewares ro)
      ++ ((fun h => Link (kind_route, name) (kind_domain, match_domain h domains) EdgeDomain)
            <$> List.filter (fun h => negb (missing (match_domain h domains))) (ro_hosts ro))
  | _ => []
  end.

(** [add]: a link to a resource of the set, other than itself *)
Definition link_drawn (s : resource_set) (l : link) : bool :=
  negb (missing (ln_to l).2) && has s (ln_to l).1 (ln_to l).2
  && negb (String.eqb (ln_from l).1 (ln_to l).1 && String.eqb (ln_from l).2 (ln_to l).2).
Definition edge_of (l : link) : edge := Edge (key_of (ln_from l).1 (ln_from l).2) (key_of (ln_to l).1 (ln_to l).2) (ln_type l).
Definition add_edge (out : list edge) (e : edge) : list edge := if bool_decide (e ∈ out) then out else out ++ [e].
Definition edge_less (a b : edge) : bool :=
  if negb (String.eqb (e_from a) (e_from b)) then str_lt (e_from a) (e_from b) else str_lt (e_to a) (e_to b).

Definition edges (s : resource_set) : list edge :=
  let domains := by_kind s kind_domain in
  stable_sort edge_less
    (foldl add_edge [] (edge_of <$> List.filter (link_drawn s) (concat (links domains <$> rl_list s)))).

(** * Facts *)

(** ** The rank of what is linked *)

Definition link_kinds : list (kind * kind * edge_type) :=
  [(kind_application, kind_stack, EdgeStack); (kind_application, kind_volume, EdgeMount); (kind_application, kind_config, EdgeConfig);
   (kind_application, kind_registry, EdgeRegistry); (kind_application, kind_git_repository, EdgeRepository);
   (kind_application, kind_database, EdgeDatabase); (kind_application, kind_secret, EdgeSecret);
   (kind_application, kind_sealed_secret, EdgeSecret); (kind_application, kind_application, EdgeAppRef);
   (kind_git_source, kind_git_repository, EdgeRepository); (kind_git_repository, kind_secret, EdgeSecret);
   (kind_git_repository, kind_sealed_secret, EdgeSecret); (kind_cron_job, kind_application, EdgeSchedule);
   (kind_cron_job, kind_registry, EdgeRegistry); (kind_job, kind_application, EdgeRun); (kind_job, kind_registry, EdgeRegistry);
   (kind_route, kind_application, EdgeRoute); (kind_route, kind_middleware, EdgeMiddleware); (kind_route, kind_domain, EdgeDomain)].

Lemma link_kinds_spec f t x y : (f, t, x) ∈ link_kinds ->
  f ∈ known_kinds /\ t ∈ known_kinds /\ (x <> EdgeAppRef -> apply_rank t < apply_rank f) /\ ((f, t, y) ∈ link_kinds -> x = y).
Proof.
  assert (H : forallb (fun l => mem l.1.1 known_kinds && mem l.1.2 known_kinds
      && (bool_decide (l.2 = EdgeAppRef) || (apply_rank l.1.2 <? apply_rank l.1.1))
      && forallb (fun l' => negb (bool_decide (l'.1 = l.1)) || bool_decide (l'.2 = l.2)) link_kinds) link_kinds = true) by by vm_compute.
  rewrite forallb_forall in H. intros Hin%list_elem_of_In. specialize (H _ Hin). cbn [fst snd] in H.
  repeat match goal with H : andb _ _ = true |- _ => apply andb_true_iff in H as [H ?] end. apply mem_spec in H, H2.
  split_and!; [done|done| |].
  - intros Hx. apply orb_true_iff in H1 as [H1|H1]; [by apply bool_decide_eq_true in H1|by apply Z.ltb_lt].
  - intros Hy%list_elem_of_In. rewrite forallb_forall in H0. specialize (H0 _ Hy). cbn [fst snd] in H0. rewrite bool_decide_eq_true_2 in H0 by done.
    cbn in H0. by apply bool_decide_eq_true in H0.
Qed.

Lemma links_kinds domains r l : typed r -> l ∈ links domains r ->
  ln_from l = (r_kind r, r_name r) /\ ((ln_from l).1, (ln_to l).1, ln_type l) ∈ link_kinds.
Proof.
  assert (Hk : forall x, bool_decide (x ∈ link_kinds) = true -> x ∈ link_kinds) by by intros x ?%bool_decide_eq_true.
  unfold typed, links. destruct (r_spec r) as [a| | | |ro| | | | | | | |c|j|g|g|]; cbn [spec_kind]; intros [= Ek]; rewrite ?elem_of_nil; try done.
  - unfold application_links. rewrite !elem_of_app, list_elem_of_singleton. rewrite <- Ek.
    intros [H|[H|[->|[H|H]]]].
    + destruct (missing (ap_stack a)); [by inversion H|]. apply list_elem_of_singleton in H as ->. split; [done|apply Hk; by vm_compute].
    + apply list_elem_of_fmap in H as (m & -> & _). destruct (missing (mn_config m)); (split; [done|apply Hk; by vm_compute]).
    + split; [done|apply Hk; by vm_compute].
    + destruct (ap_source a); [|by inversion H]. apply list_elem_of_singleton in H as ->. split; [done|apply Hk; by vm_compute].
    + apply list_elem_of_In, in_concat in H as (x & Hx & H). apply list_elem_of_In, list_elem_of_fmap in Hx as (kv & -> & _).
      apply in_concat in H as (x & Hx & H). apply list_elem_of_In, list_elem_of_fmap in Hx as (m & -> & _).
      destruct (String.eqb m.1 "databases"); [|destruct (String.eqb m.1 "secrets")]; repeat destruct H as [<-|H];
        try done; (split; [done|apply Hk; by vm_compute]).
  - rewrite elem_of_cons, elem_of_app, !list_elem_of_fmap. rewrite <- Ek. intros [->|[(m & -> & _)|(h & -> & _)]];
      (split; [done|apply Hk; by vm_compute]).
  - rewrite !elem_of_cons, elem_of_nil, <- Ek. intros [->|[->|[]]]; (split; [done|apply Hk; by vm_compute]).
  - rewrite !elem_of_cons, elem_of_nil, <- Ek. intros [->|[->|[]]]; (split; [done|apply Hk; by vm_compute]).
  - rewrite !elem_of_cons, elem_of_nil, <- Ek. intros [->|[]]; (split; [done|apply Hk; by vm_compute]).
  - rewrite !elem_of_cons, elem_of_nil, <- Ek. intros [->|[->|[]]]; (split; [done|apply Hk; by vm_compute]).
Qed.

(** ** The edges of a set *)

(** The set as loading leaves it: well formed, each resource with the spec of its kind, each kind known. *)
Record typed_set (s : resource_set) : Prop := {
  ts_ok : set_ok s;
  ts_typed : forall r, r ∈ rl_list s -> typed r;
  ts_known : forall r, r ∈ rl_list s -> r_kind r ∈ known_kinds }.

(** A link the code draws between two resources of the set *)
Definition drawn (s : resource_set) (l : link) : Prop :=
  exists r, r ∈ rl_list s /\ l ∈ links (by_kind s kind_domain) r /\ link_drawn s l = true.

Lemma foldl_add_edge l out : NoDup out -> NoDup (foldl add_edge out l) /\ forall e, e ∈ foldl add_edge out l <-> e ∈ out \/ e ∈ l.
Proof.
  revert out. induction l as [|x l IH]; intros out Hn; cbn [foldl]; [split; [done|]; intros e; rewrite elem_of_nil; tauto|].
  assert (Ha : NoDup (add_edge out x) /\ forall e, e ∈ add_edge out x <-> e ∈ out \/ e = x).
  { unfold add_edge. destruct (decide (x ∈ out)) as [Hx|Hx].
    - rewrite bool_decide_eq_true_2 by done. split; [done|]. intros e. split; [auto|]. by intros [?| ->].
    - rewrite bool_decide_eq_false_2 by done. split.
      + apply NoDup_app. split; [done|]. split; [|apply NoDup_singleton]. intros e He ->%list_elem_of_singleton. done.
      + intros e. by rewrite elem_of_app, list_elem_of_singleton. }
  destruct Ha as [Hna Hea]. destruct (IH _ Hna) as [Hn' He']. split; [done|]. intros e. rewrite He', Hea, elem_of_cons. tauto.
Qed.

Lemma elem_of_edges s e : e ∈ edges s <-> exists l, drawn s l /\ e = edge_of l.
Proof.
  unfold edges. rewrite elem_of_stable_sort, (proj2 (foldl_add_edge _ [] (NoDup_nil_2))), elem_of_nil, list_elem_of_fmap. split.
  - intros [[]|(l & -> & [Hl Hd]%elem_of_bfilter)]. exists l. split; [|done]. apply list_elem_of_In, in_concat in Hl as (x & Hx & Hl).
    apply list_elem_of_In, list_elem_of_fmap in Hx as (r & -> & Hr). exists r. split_and!; [done|by apply list_elem_of_In|done].
  - intros (l & (r & Hr & Hl & Hd) & ->). right. exists l. split; [done|]. apply elem_of_bfilter. split; [|done].
    apply list_elem_of_In, in_concat. exists (links (by_kind s kind_domain) r). split; [|by apply list_elem_of_In].
    apply list_elem_of_In, list_elem_of_fmap. by exists r.
Qed.

Lemma edges_NoDup s : NoDup (edges s).
Proof. apply NoDup_stable_sort, (foldl_add_edge _ []), NoDup_nil_2. Qed.

Lemma drawn_kinds s l : typed_set s -> drawn s l -> ((ln_from l).1, (ln_to l).1, ln_type l) ∈ link_kinds.
Proof. intros Hs (r & Hr & Hl & _). by apply links_kinds in Hl as [_ H]; [|by apply (ts_typed s)]. Qed.

(** The endpoints of an edge tell its type. *)
Lemma edge_endpoints s a b : typed_set s -> a ∈ edges s -> b ∈ edges s -> e_from a = e_from b -> e_to a = e_to b -> a = b.
Proof.
  intros Hs (l & Hl & ->)%elem_of_edges (l' & Hl' & ->)%elem_of_edges Ef Et. cbn in Ef, Et.
  apply drawn_kinds in Hl, Hl'; [|done..]. pose proof (link_kinds_spec _ _ _ (ln_type l') Hl) as (H1 & H2 & _ & Hfun).
  pose proof (link_kinds_spec _ _ _ (ln_type l) Hl') as (H3 & H4 & _ & _).
  apply key_of_inj in Ef as [Ekf Enf]; [|by apply known_kinds_slashless..]. apply key_of_inj in Et as [Ekt Ent]; [|by apply known_kinds_slashless..].
  unfold edge_of. rewrite Ekf, Enf, Ekt, Ent. f_equal. apply Hfun. by rewrite Ekf, Ekt.
Qed.

Definition edge_lt (a b : edge) : Prop := edge_less a b = true.

Lemma edge_less_asym a b : edge_less a b = true -> edge_less b a = false.
Proof.
  unfold edge_less. destruct (String.eqb_spec (e_from a) (e_from b)) as [E|E]; cbn [negb].
  - rewrite <- E, String.eqb_refl. cbn [negb]. apply str_lt_asym.
  - assert (Hn : String.eqb (e_from b) (e_from a) = false) by (apply String.eqb_neq; congruence). rewrite Hn. cbn [negb]. apply str_lt_asym.
Qed.

Lemma edge_less_negtrans a b c : edge_less b a = false -> edge_less c b = false -> edge_less c a = false.
Proof.
  unfold edge_less. destruct (String.eqb_spec (e_from b) (e_from a)) as [E1|E1], (String.eqb_spec (e_from c) (e_from b)) as [E2|E2],
    (String.eqb_spec (e_from c) (e_from a)) as [E3|E3]; cbn [negb]; intros H1 H2; try congruence.
  - by eapply str_lt_negtrans.
  - rewrite <- E3 in H1. by destruct E2; apply str_lt_total.
  - by eapply str_lt_negtrans.
Qed.

Lemma edge_less_total a b : edge_less a b = false -> edge_less b a = false -> e_from a = e_from b /\ e_to a = e_to b.
Proof.
  unfold edge_less. destruct (String.eqb_spec (e_from a) (e_from b)) as [E|E]; cbn [negb].
  - rewrite <- E, String.eqb_refl. cbn [negb]. intros H1 H2. split; [done|by apply str_lt_total].
  - assert (Hn : String.eqb (e_from b) (e_from a) = false) by (apply String.eqb_neq; congruence). rewrite Hn. cbn [negb].
    intros H1 H2. by destruct E; apply str_lt_total.
Qed.

Lemma strictly_sorted (l : list edge) : NoDup l -> (forall a b, a ∈ l -> b ∈ l -> e_from a = e_from b -> e_to a = e_to b -> a = b) ->
  StronglySorted (not_after edge_less) l -> StronglySorted edge_lt l.
Proof.
  intros Hn Hu Hs. induction Hs as [|x l Hs IH Hx]; [constructor|]. apply NoDup_cons in Hn as [Hxl Hn]. constructor.
  - apply IH; [done|]. intros a b Ha Hb. apply Hu; by right.
  - apply Forall_forall. intros y Hy. rewrite Forall_forall in Hx. specialize (Hx y Hy). unfold edge_lt. destruct (edge_less x y) eqn:E; [done|].
    destruct (edge_less_total x y E Hx) as [Ef Et]. assert (x = y) as -> by (apply Hu; [by left|by right|done|done]). done.
Qed.

Lemma edges_sorted s : typed_set s -> StronglySorted edge_lt (edges s).
Proof.
  intros Hs. apply strictly_sorted; [apply edges_NoDup|intros a b; by apply (edge_endpoints s)|].
  apply stable_sort_sorted; [apply edge_less_asym|intros x y z H1 H2; by eapply edge_less_negtrans].
Qed.

Lemma sorted_unique (l l' : list edge) : StronglySorted edge_lt l -> StronglySorted edge_lt l' -> (forall e, e ∈ l <-> e ∈ l') -> l = l'.
Proof.
  assert (Hn : forall l, StronglySorted edge_lt l -> NoDup l).
  { induction 1 as [|x l0 _ IH Hx]; constructor; [|done]. intros Hin. rewrite Forall_forall in Hx. specialize (Hx x Hin).
    unfold edge_lt in Hx. pose proof (edge_less_asym x x Hx). congruence. }
  intros Hl Hl' He. assert (Ha : AntiSymm (=) edge_lt).
  { intros a b Hab Hba. unfold edge_lt in *. pose proof (edge_less_asym a b Hab). congruence. }
  apply (StronglySorted_unique edge_lt); [done..|]. apply NoDup_Permutation; auto.
Qed.

(** ** Plans *)

Lemma plan_change_kind desired actual opts c : typed_set desired -> typed_set actual -> c ∈ build_plan desired actual opts -> ch_kind c ∈ known_kinds.
Proof.
  intros Hd Ha [(d & Hin & H%desired_change_cases)|(_ & a & Hin & _ & ->)]%elem_of_plan.
  - destruct H as (_ & -> & _). by apply (ts_known desired).
  - by apply (ts_known actual).
Qed.

(** An edge other than a reference between applications goes from a higher rank to a lower one. *)
Lemma edge_rank s e k n k' n' : typed_set s -> e ∈ edges s -> e_type e <> EdgeAppRef -> slashless k = true -> slashless k' = true ->
  key_of k n = e_from e -> key_of k' n' = e_to e -> apply_rank k' < apply_rank k.
Proof.
  intros Hs (l & Hl & ->)%elem_of_edges Ht Hk Hk' Ef Et. cbn in Ef, Et, Ht. apply drawn_kinds in Hl; [|done].
  apply (link_kinds_spec _ _ _ (ln_type l)) in Hl as (H1 & H2 & Hr & _).
  apply key_of_inj in Ef as [-> _]; [|done|by apply known_kinds_slashless]. apply key_of_inj in Et as [-> _]; [|done|by apply known_kinds_slashless].
  by apply Hr.
Qed.

(** * Claims *)

(** In a plan every deletion comes before every creation and update; of two declared
    resources that are created or updated, the one an edge points to comes first, and of two live ones that are
    deleted, it comes last; references between applications aside, which have the same rank. *)
Lemma plan_respects_edges (desired actual : resource_set) (opts : plan_options) (i j : nat) (a b : change) :
  typed_set desired -> typed_set actual ->
  build_plan desired actual opts !! i = Some a -> build_plan desired actual opts !! j = Some b ->
  (ch_action a = ActionDelete -> ch_action b <> ActionDelete -> (i < j)%nat)
  /\ (forall e, e ∈ edges desired -> e_type e <> EdgeAppRef -> key_of (ch_kind a) (ch_name a) = e_from e -> key_of (ch_kind b) (ch_name b) = e_to e ->
        ch_action a <> ActionDelete -> ch_action b <> ActionDelete -> (j < i)%nat)
  /\ (forall e, e ∈ edges actual -> e_type e <> EdgeAppRef -> key_of (ch_kind a) (ch_name a) = e_from e -> key_of (ch_kind b) (ch_name b) = e_to e ->
        ch_action a = ActionDelete -> ch_action b = ActionDelete -> (i < j)%nat).
Proof.
  intros Hd Ha Hi Hj. pose proof (plan_sorted desired actual opts) as Hs.
  assert (Hk : forall n c, build_plan desired actual opts !! n = Some c -> slashless (ch_kind c) = true).
  { intros n c Hn. apply known_kinds_slashless. eapply (plan_change_kind desired actual opts); [done|done|]. by eapply list_elem_of_lookup_2. }
  pose proof (Hk i a Hi) as Hka. pose proof (Hk j b Hj) as Hkb. split_and!.
  - intros Hda Hdb. apply (sorted_before _ _ _ a b Hs Hi Hj), change_less_spec. left. unfold group.
    rewrite (bool_decide_eq_true_2 _ Hda), (bool_decide_eq_false_2 _ Hdb). lia.
  - intros e He Ht Ef Et Hna Hnb. apply (sorted_before _ _ _ b a Hs Hj Hi), change_less_spec. right. unfold group, rank_of.
    rewrite (bool_decide_eq_false_2 _ Hna), (bool_decide_eq_false_2 _ Hnb). split; [done|left]. by eapply (edge_rank desired).
  - intros e He Ht Ef Et Hda Hdb. apply (sorted_before _ _ _ a b Hs Hi Hj), change_less_spec. right. unfold group, rank_of.
    rewrite (bool_decide_eq_true_2 _ Hda), (bool_decide_eq_true_2 _ Hdb). split; [done|left].
    pose proof (edge_rank actual e _ _ _ _ Ha He Ht Hka Hkb Ef Et). lia.
Qed.

(** The edges of a set are exactly the links the code draws between its resources, each once, in
    strict order of their ends; they are the only such list, so the order in which an application's variables are
    scanned makes no difference. *)
Lemma edges_exact (s : resource_set) : typed_set s ->
  StronglySorted edge_lt (edges s)
  /\ (forall e, e ∈ edges s <-> exists l, drawn s l /\ e = edge_of l)
  /\ forall l', StronglySorted edge_lt l' -> (forall e, e ∈ l' <-> exists l, drawn s l /\ e = edge_of l) -> l' = edges s.
Proof.
  intros Hs. split_and!; [by apply edges_sorted|apply elem_of_edges|].
  intros l' Hl' He. apply sorted_unique; [done|by apply edges_sorted|]. intros e. by rewrite He, elem_of_edges.
Qed.

(** ** Witnesses *)

Definition demo_bundle : resource_set := demo_set
  [Resource kind_route (Meta "www" "" ∅ ∅) (SRoute (RouteSpec ["www.Example.com."] "web" 0 "/" "acme" "" "" "" [] "" None None []));
   Resource kind_domain (Meta "example.com" "" ∅ ∅) (SDomain (DomainSpec "acme" false));
   Resource kind_application (Meta "web" "" ∅ ∅)
     (SApplication (ApplicationSpec None "nginx" "" "" [] [] (<["DB" := "{{- .databases.shop-db.uri }}"]> ∅) []
        [MountSpec "data" "" "" "/data" "" false] None None None None None ∅ "" "" "" "restart" "" "" ""));
   Resource kind_volume (Meta "data" "" ∅ ∅) (SVolume (VolumeSpec "" "" None));
   Resource kind_database (Meta "shop-db" "" ∅ ∅) (SDatabase (DatabaseSpec "postgres" "" "auto" None None None))].

Lemma demo_bundle_typed : typed_set demo_bundle.
Proof.
  split; [apply demo_set_ok| |]; intros r Hr; apply list_elem_of_In in Hr.
  - repeat (destruct Hr as [<-|Hr]; [by vm_compute|]). destruct Hr.
  - repeat (destruct Hr as [<-|Hr]; [apply mem_spec; by vm_compute|]). destruct Hr.
Qed.

Lemma empty_typed : typed_set new_resource_set.
Proof. split; [apply new_resource_set_ok| |]; intros r Hr; by apply elem_of_nil in Hr. Qed.

(** A file or a middleware rule that refers to what the set declares draws no edge. *)
Lemma config_draws_no_edge :
  edges (demo_set
     [Resource kind_secret (Meta "token" "" ∅ ∅) (SSecret (SecretSpec "s3cret" false 0 None 0 0));
      Resource kind_config (Meta "site" "" ∅ ∅) (SConfig (ConfigSpec (<["app.ini" := "token={{ .secrets.token }}"]> ∅) "0644" false [] "d1"))]) = [].
Proof. by vm_compute. Qed.
