(* ===== verification/ManifestRefs.v ===== *)
(** * Manifests: references

    [internal/declarative/refs.go], and of [render.go] the lookup of a reference: the references the templates of a set
    make, the check that each names something that exists, and the value a reference has when it is rendered. The
    template engine around them is not modelled. *)
From S2P Require Import Prelude GoStrings GoText ManifestTypes ManifestSpec ManifestEdges.
#[local] Open Scope Z_scope.
#[local] Open Scope list_scope.

(** ** Scanning *)

Record reference := Reference { rf_where : string; rf_collection : string; rf_name : string; rf_field : string }.

(** The text up to the first occurrence of [sep], and what follows it *)
Fixpoint cut_str (sep s : string) : option (string * string) :=
  match cut_prefix sep s with
  | Some rest => Some ("", rest)
  | None => match s with
            | String c s => match cut_str sep s with Some (a, rest) => Some (String c a, rest) | None => None end
            | EmptyString => None
            end
  end.
(** [actionPattern] and its form for other delimiters, anchored: an action, its delimiters included *)
Definition action_at (left right s : string) : option (string * string) :=
  match cut_prefix left s with
  | Some r => match cut_str right r with Some (body, rest) => Some (left +:+ body +:+ right, rest) | None => None end
  | None => None
  end.

Definition ref_collections : list string := ["databases"; "secrets"; "applications"; "inputs"].
Fixpoint ref_segments (fuel : nat) (s : string) : list string * string :=
  match fuel, s with
  | S fuel, String "." r =>
      let '(name, rest) := span ref_char r in
      if missing name then ([], s) else let '(l, rest) := ref_segments fuel rest in (name :: l, rest)
  | _, _ => ([], s)
  end.
(** [refPattern], anchored; as many rounds of segments as there are characters *)
Definition ref_at (s : string) : option ((string * list string) * string) :=
  match collection_at ref_collections s with
  | Some (coll, r) =>
      let '(keys, rest) := ref_segments (String.length r) r in
      match keys with [] => None | _ => Some ((coll, keys), rest) end
  | None => None
  end.
Definition refs_in (where_ s left right : string) : list reference :=
  concat ((fun action =>
    (fun m : string * list string =>
       Reference where_ m.1 (List.hd "" m.2) (match m.2 with _ :: f :: _ => f | _ => "" end))
      <$> find_all ref_at (String.length action) action) <$> find_all (action_at left right) (String.length s) s).

(** [runtimeSecretRef], anchored *)
Definition max_secret_name : nat := 63.
Definition is_letter (c : ascii) : bool := is_lower c || is_upper c.
Definition runtime_secret_at (s : string) : option (string * string) :=
  match cut_prefix "${{" s with
  | None => None
  | Some r =>
      match cut_prefix "secrets." (drop_while re_space r) with
      | None => None
      | Some r =>
          let '(name, rest) := span ref_char r in
          if negb (head_is is_letter name) || (max_secret_name <? String.length name)%nat then None
          else match cut_prefix "}}" (drop_while re_space rest) with Some rest => Some (name, rest) | None => None end
      end
  end.
Definition env_refs (where_ s : string) : list reference :=
  refs_in where_ s "{{" "}}"
  ++ ((fun name => Reference where_ "secrets" name "") <$> find_all runtime_secret_at (String.length s) s).

Fixpoint rule_refs (where_ : string) (v : rule_value) : list reference :=
  match v with
  | RStr s => refs_in where_ s "{{" "}}"
  | RMap fields => concat ((fun kv => rule_refs (where_ +:+ "." +:+ kv.1) kv.2) <$> fields)
  | RSeq items =>
      (fix go (i : Z) (l : list rule_value) : list reference :=
         match l with [] => [] | x :: l => rule_refs (where_ +:+ "[" +:+ itoa i +:+ "]") x ++ go (i + 1) l end) 0 items
  | ROther => []
  end.

Definition env_where (what name k : string) : string := what +:+ " " +:+ go_quote name +:+ " env " +:+ k.
Definition resource_refs (r : resource) : list reference :=
  let name := r_name r in
  match r_spec r with
  | SApplication a => concat ((fun kv => env_refs (env_where "application" name kv.1) kv.2) <$> map_to_list (ap_env a))
  | SStack s => concat ((fun kv => env_refs (env_where "stack" name kv.1) kv.2) <$> map_to_list (default ∅ (st_env s)))
  | SRegistry r => refs_in ("registry " +:+ go_quote name +:+ " password") (rg_password r) "{{" "}}"
  | SMiddleware m => rule_refs ("middleware " +:+ go_quote name +:+ " rule") (mw_rule m)
  | SCronJob c => [Reference ("cronjob " +:+ go_quote name +:+ " app") "applications" (cj_app c) ""]
  | SJob j => [Reference ("job " +:+ go_quote name +:+ " app") "applications" (jb_app j) ""]
  | SConfig c =>
      let '(opening, closing) := match cf_delimiters c with [l; r] => (l, r) | _ => ("{{", "}}") end in
      concat ((fun kv => refs_in ("config " +:+ go_quote name +:+ " file " +:+ kv.1) kv.2 opening closing) <$> map_to_list (cf_data c))
  | _ => []
  end.
Definition references (s : resource_set) : list reference := concat (resource_refs <$> rl_list s).

(** ** Checking *)

Definition known_names : Type := string -> gset string.
Definition database_ref_fields : list string := ["host"; "port"; "user"; "password"; "name"; "uri"; "url"].
Definition application_ref_fields : list string := ["host"; "port"; "scheme"; "url"; "alias"].
Definition singular (coll : string) : string :=
  if String.eqb coll "databases" then "database" else if String.eqb coll "secrets" then "secret"
  else if String.eqb coll "applications" then "application" else if String.eqb coll "inputs" then "input" else coll.
Definition reference_string (r : reference) : string :=
  "." +:+ rf_collection r +:+ "." +:+ rf_name r +:+ (if missing (rf_field r) then "" else "." +:+ rf_field r) +:+ " in " +:+ rf_where r.

Definition no_field (what : string) (fields : list string) (r : reference) : string :=
  what +:+ " " +:+ go_quote (rf_name r) +:+ " has no field " +:+ go_quote (rf_field r) +:+ " (" +:+ reference_string r
  +:+ "); use one of " +:+ join ", " fields.
Definition reference_problem (known : known_names) (r : reference) : option string :=
  if negb (bool_decide (rf_name r ∈ known (rf_collection r))) then
    Some ("unknown " +:+ singular (rf_collection r) +:+ " " +:+ go_quote (rf_name r) +:+ " (" +:+ reference_string r +:+ ")")
  else if String.eqb (rf_collection r) "databases" && negb (missing (rf_field r)) && negb (mem (rf_field r) database_ref_fields)
  then Some (no_field "database" database_ref_fields r)
  else if String.eqb (rf_collection r) "applications" && negb (missing (rf_field r)) && negb (mem (rf_field r) application_ref_fields)
  then Some (no_field "application" application_ref_fields r)
  else None.
(** [CheckReferences]: the problems, each once, in order; none when all is well *)
Definition check_references (refs : list reference) (known : known_names) : list string :=
  sort_strings (foldl (fun out p => if mem p out then out else out ++ [p]) [] (omap (reference_problem known) refs)).

(** ** Rendering *)

Record conn_view := ConnView {
  cv_host : string; cv_port : string; cv_user : string; cv_password : string; cv_name : string; cv_uri : string;
  cv_ro_user : string; cv_ro_password : string; cv_ro_uri : string; cv_password_secret : string; cv_uri_secret : string }.
Definition conn_fields (c : conn_view) : list (string * string) :=
  [("host", cv_host c); ("port", cv_port c); ("user", cv_user c); ("password", cv_password c); ("name", cv_name c);
   ("uri", cv_uri c); ("url", cv_uri c); ("readonly_user", cv_ro_user c); ("readonly_password", cv_ro_password c);
   ("readonly_uri", cv_ro_uri c); ("readonly_url", cv_ro_uri c)].

Record app_view := AppView { av_host : string; av_port : string; av_scheme : string; av_alias : string }.
Definition app_url (a : app_view) : string :=
  let scheme := or_else (av_scheme a) "http" in
  if missing (av_port a) || String.eqb (av_port a) "0" then scheme +:+ "://" +:+ av_host a
  else scheme +:+ "://" +:+ av_host a +:+ ":" +:+ av_port a.
Definition app_fields (a : app_view) : list (string * string) :=
  [("host", av_host a); ("port", av_port a); ("scheme", av_scheme a); ("url", app_url a); ("alias", av_alias a)].

Record render_context := RenderContext {
  rc_inputs : gmap string string; rc_databases : gmap string conn_view; rc_apps : gmap string app_view;
  rc_secrets : gmap string string }.

Inductive ref_err := ErrNeedsName | ErrUnknownName | ErrNoField | ErrNoReadOnlyUser | ErrUnknownCollection.

Definition assoc (l : list (string * string)) (k : string) : option string :=
  match find_first (fun kv => String.eqb kv.1 k) l with Some kv => Some kv.2 | None => None end.
Definition credential_fields : list string := ["password"; "uri"; "url"; "readonly_password"; "readonly_uri"; "readonly_url"].

(** [ref]: the value, and whether the key being rendered is marked as holding a credential; it is marked before
    the lookup. *)
Definition ref_credential (coll field : string) : bool :=
  String.eqb coll "secrets" || (String.eqb coll "databases" && (missing field || mem field credential_fields)).
Definition ref_value (ctx : render_context) (coll : string) (keys : list string) : result ref_err string :=
  match keys with
  | [] => Err ErrNeedsName
  | name :: rest =>
      let field := match rest with f :: _ => f | [] => "" end in
      if String.eqb coll "inputs" then of_option ErrUnknownName (rc_inputs ctx !! name)
      else if String.eqb coll "secrets" then of_option ErrUnknownName (rc_secrets ctx !! name)
      else if String.eqb coll "databases" then
        match rc_databases ctx !! name with
        | None => Err ErrUnknownName
        | Some c =>
            let field := or_else field "uri" in
            match assoc (conn_fields c) field with
            | None => Err ErrNoField
            | Some v => if missing v && has_prefix "readonly_" field then Err ErrNoReadOnlyUser else Ok v
            end
        end
      else if String.eqb coll "applications" then
        match rc_apps ctx !! name with
        | None => Err ErrUnknownName
        | Some a => of_option ErrNoField (assoc (app_fields a) (or_else field "url"))
        end
      else Err ErrUnknownCollection
  end.

(** [secretRef], [databaseSecretRef] *)
Definition secret_pointer (name : string) : string := "${{ secrets." +:+ name +:+ " }}".
Definition secret_ref (ctx : render_context) (name : string) : result ref_err string :=
  if stated (rc_secrets ctx !! name) then Ok (secret_pointer name) else Err ErrUnknownName.
Definition database_secret_ref (ctx : render_context) (name field : string) : result ref_err string :=
  match rc_databases ctx !! name with
  | None => Err ErrUnknownName
  | Some c =>
      let secret := if String.eqb field "password" then cv_password_secret c else cv_uri_secret c in
      if negb (missing secret) && stated (rc_secrets ctx !! secret) then Ok (secret_pointer secret)
      else ref_value ctx "databases" (if missing field then [name] else [name; field])
  end.

(** * Facts *)

#[local] Arguments or_else : simpl never.
#[local] Arguments missing : simpl never.

(** ** Scans consume what they match *)

Lemma cut_prefix_length p s r : cut_prefix p s = Some r -> (String.length p + String.length r = String.length s)%nat.
Proof. intros ->%cut_prefix_some. by rewrite str_app_length. Qed.

Lemma drop_while_length p s : (String.length (drop_while p s) <= String.length s)%nat.
Proof. induction s as [|c s IH]; cbn; [done|]. destruct (p c); cbn; lia. Qed.

Lemma span_length p s a b : span p s = (a, b) -> (String.length a + String.length b = String.length s)%nat.
Proof.
  revert a b. induction s as [|c s IH]; intros a b; cbn [span]; [by intros [= <- <-]|]. destruct (p c); [|by intros [= <- <-]].
  destruct (span p s) as [a' b'] eqn:E. intros [= <- <-]. cbn. specialize (IH _ _ eq_refl). lia.
Qed.

Lemma cut_str_length sep s a r : cut_str sep s = Some (a, r) -> (String.length a + String.length sep + String.length r = String.length s)%nat.
Proof.
  revert a. induction s as [|c s IH]; intros a; cbn [cut_str].
  - destruct (cut_prefix sep "") as [x|] eqn:E; [|done]. intros [= <- <-]. apply cut_prefix_length in E. cbn in *. lia.
  - destruct (cut_prefix sep (String c s)) as [x|] eqn:E; [intros [= <- <-]; apply cut_prefix_length in E; cbn in *; lia|].
    destruct (cut_str sep s) as [[a' r']|] eqn:E'; [|done]. intros [= <- <-]. specialize (IH _ eq_refl). cbn. lia.
Qed.

Lemma collection_at_length colls s c r : collection_at colls s = Some (c, r) -> (String.length r < String.length s)%nat.
Proof.
  unfold collection_at. destruct (find_first _ colls) as [x|] eqn:Ef; [|done]. intros [= <- <-].
  apply find_first_some in Ef as [_ Hp]. unfold has_prefix in Hp. unfold trim_prefix.
  destruct (cut_prefix ("." +:+ x) s) as [r|] eqn:E; [|done]. apply cut_prefix_length in E. rewrite str_app_length in E. cbn in E. lia.
Qed.

Lemma ref_segments_length fuel s l r : ref_segments fuel s = (l, r) -> (String.length r <= String.length s)%nat.
Proof.
  revert s l r. induction fuel as [|fuel IH]; intros s l r; cbn [ref_segments]; [by intros [= <- <-]|].
  destruct s as [|c s]; [by intros [= <- <-]|]. repeat case_match; try (by intros [= <- <-]).
  intros [= <- <-]. match goal with H : span _ _ = _ |- _ => apply span_length in H end.
  match goal with H : ref_segments _ _ = _ |- _ => apply IH in H end. cbn. lia.
Qed.

(** A matcher that consumes something at each match needs no more rounds than characters. *)
Lemma find_all_fuel {A} (at_ : string -> option (A * string)) :
  (forall s x rest, at_ s = Some (x, rest) -> (String.length rest < String.length s)%nat) ->
  forall n m s, (String.length s <= n)%nat -> (String.length s <= m)%nat -> find_all at_ n s = find_all at_ m s.
Proof.
  intros Hat n. induction n as [|n IH]; intros m s Hn Hm.
  - destruct s; cbn in Hn; [|lia]. by destruct m.
  - destruct m as [|m]; [destruct s; cbn in Hm; [done|lia]|]. destruct s as [|c s]; [done|]. cbn [find_all].
    destruct (at_ (String c s)) as [[x rest]|] eqn:E.
    + apply Hat in E. f_equal. apply IH; cbn in *; lia.
    + apply IH; cbn in *; lia.
Qed.

Lemma tmpl_ref_at_consumes s x rest : tmpl_ref_at s = Some (x, rest) -> (String.length rest < String.length s)%nat.
Proof.
  unfold tmpl_ref_at. destruct (cut_prefix "{{" s) as [r|] eqn:E; [|done]. apply cut_prefix_length in E. cbn in E.
  set (d := drop_while _ r). assert (Hd : (String.length d <= String.length r)%nat) by apply drop_while_length.
  destruct (collection_at template_collections d) as [[c [|ch r2]]|] eqn:Ec; [done| |done]. apply collection_at_length in Ec.
  repeat case_match; try done. intros [= <- <-]. match goal with H : span _ _ = _ |- _ => apply span_length in H end. cbn in *. lia.
Qed.

Lemma action_at_consumes opening closing s x rest : opening <> "" ->
  action_at opening closing s = Some (x, rest) -> (String.length rest < String.length s)%nat.
Proof.
  intros Ho. unfold action_at. destruct (cut_prefix opening s) as [r|] eqn:E; [|done]. apply cut_prefix_length in E.
  destruct (cut_str closing r) as [[b r']|] eqn:E'; [|done]. apply cut_str_length in E'. intros [= <- <-].
  destruct opening; [done|]. cbn in E. lia.
Qed.

Lemma ref_at_consumes s x rest : ref_at s = Some (x, rest) -> (String.length rest < String.length s)%nat.
Proof.
  unfold ref_at. destruct (collection_at ref_collections s) as [[c r]|] eqn:Ec; [|done]. apply collection_at_length in Ec.
  destruct (ref_segments (String.length r) r) as [l r'] eqn:Es. apply ref_segments_length in Es. destruct l; [done|]. intros [= <- <-]. lia.
Qed.

Lemma runtime_secret_at_consumes s x rest : runtime_secret_at s = Some (x, rest) -> (String.length rest < String.length s)%nat.
Proof.
  unfold runtime_secret_at. destruct (cut_prefix "${{" s) as [r|] eqn:E; [|done]. apply cut_prefix_length in E.
  pose proof (drop_while_length re_space r) as Hd. destruct (cut_prefix "secrets." _) as [r2|] eqn:E2; [|done]. apply cut_prefix_length in E2.
  destruct (span ref_char r2) as [name r3] eqn:Esp. apply span_length in Esp. destruct (_ || _); [done|].
  pose proof (drop_while_length re_space r3) as Hd3. destruct (cut_prefix "}}" _) as [r4|] eqn:E4; [|done]. apply cut_prefix_length in E4.
  intros [= <- <-]. cbn in *. lia.
Qed.

(** ** The references of a set *)

Lemma find_all_elem {A} (at_ : string -> option (A * string)) fuel s x : x ∈ find_all at_ fuel s -> exists t rest, at_ t = Some (x, rest).
Proof.
  revert s. induction fuel as [|fuel IH]; intros s; cbn [find_all]; [by intros ?%elem_of_nil|]. destruct s as [|c s]; [by intros ?%elem_of_nil|].
  destruct (at_ (String c s)) as [[y rest]|] eqn:E; [|apply IH]. intros [->|H]%elem_of_cons; [by eauto|by apply IH in H].
Qed.

Definition known_collection (r : reference) : Prop := rf_collection r ∈ ref_collections.

Lemma refs_in_collection w s o c r : r ∈ refs_in w s o c -> known_collection r.
Proof.
  intros (a & _ & (m & -> & Hm)%list_elem_of_fmap)%elem_of_concat_fmap. apply find_all_elem in Hm as (t & rest & Hm).
  unfold ref_at, collection_at in Hm. destruct (find_first _ ref_collections) as [x|] eqn:Ef; [|done].
  destruct (ref_segments _ _) as [[|k l] rest']; [done|]. injection Hm as <- _. by apply find_first_some in Ef as [Hx _].
Qed.

Lemma env_refs_collection w s r : r ∈ env_refs w s -> known_collection r.
Proof.
  intros [H|H]%elem_of_app; [by apply refs_in_collection in H|]. apply list_elem_of_fmap in H as (n & -> & _).
  unfold known_collection. apply mem_spec. by vm_compute.
Qed.

(** Induction over a rule, through its maps and sequences *)
Fixpoint rule_ind (P : rule_value -> Prop) (Hs : forall s, P (RStr s))
    (Hm : forall l, Forall (fun kv => P kv.2) l -> P (RMap l)) (Hq : forall l, Forall P l -> P (RSeq l)) (Ho : P ROther) (v : rule_value) : P v :=
  match v with
  | RStr s => Hs s
  | RMap l => Hm l ((fix go l := match l return Forall (fun kv : string * rule_value => P kv.2) l with
                                 | [] => @List.Forall_nil _ _
                                 | kv :: l => @List.Forall_cons _ _ kv l (rule_ind P Hs Hm Hq Ho kv.2) (go l)
                                 end) l)
  | RSeq l => Hq l ((fix go l := match l return Forall P l with
                                 | [] => @List.Forall_nil _ _
                                 | x :: l => @List.Forall_cons _ _ x l (rule_ind P Hs Hm Hq Ho x) (go l)
                                 end) l)
  | ROther => Ho
  end.

Lemma rule_refs_collection v : forall w r, r ∈ rule_refs w v -> known_collection r.
Proof.
  induction v as [s|l IH|l IH|] using rule_ind; intros w r; cbn [rule_refs].
  - apply refs_in_collection.
  - intros ([k x] & Hx & Hr)%elem_of_concat_fmap. rewrite Forall_forall in IH. by apply (IH (k, x) Hx) in Hr.
  - generalize 0. induction IH as [|x l Hx _ IHl]; intros i; [by intros ?%elem_of_nil|]. intros [H|H]%elem_of_app; [by apply Hx in H|by apply IHl in H].
  - by intros ?%elem_of_nil.
Qed.

Lemma references_collection s r : r ∈ references s -> known_collection r.
Proof.
  assert (Hc : forall w n, known_collection (Reference w "applications" n "")) by (intros; unfold known_collection; apply mem_spec; by vm_compute).
  intros (x & _ & Hr)%elem_of_concat_fmap. unfold resource_refs in Hr. destruct (r_spec x) as [a|s0| | | | | | |rg| |c|m|c|j| | |]; try by apply elem_of_nil in Hr.
  - apply elem_of_concat_fmap in Hr as (kv & _ & Hr). by apply env_refs_collection in Hr.
  - apply elem_of_concat_fmap in Hr as (kv & _ & Hr). by apply env_refs_collection in Hr.
  - by apply refs_in_collection in Hr.
  - destruct (cf_delimiters c) as [|? [|? [|? ?]]]; apply elem_of_concat_fmap in Hr as (kv & _ & Hr); by apply refs_in_collection in Hr.
  - by apply rule_refs_collection in Hr.
  - apply list_elem_of_singleton in Hr as ->. apply Hc.
  - apply list_elem_of_singleton in Hr as ->. apply Hc.
Qed.

(** ** The scans end *)

Lemma ref_segments_fuel n s : (String.length s <= n)%nat -> ref_segments n s = ref_segments (String.length s) s.
Proof.
  assert (H : forall n m s, (String.length s <= n)%nat -> (String.length s <= m)%nat -> ref_segments n s = ref_segments m s);
    [|by intros; apply H].
  clear. induction n as [|n IH]; intros m s Hn Hm.
  - destruct s; cbn in Hn; [|lia]. by destruct m.
  - destruct m as [|m]; [destruct s; cbn in Hm; [done|lia]|]. cbn [ref_segments].
    destruct s as [|c s]; [done|]. destruct (span ref_char s) as [name rest] eqn:E. apply span_length in E. cbn in Hn, Hm.
    by rewrite (IH m rest) by lia.
Qed.

(** A scan for references, be it for the dotted form, for the runtime form of a secret, or for the
    databases and secrets that draw edges, takes no more rounds than the text has characters: with any larger number it
    returns the same. Within one action, the segments of one reference take no more either. *)
Lemma scans_terminate (text opening closing : string) (n : nat) (Ho : opening <> "") (Hn : (String.length text <= n)%nat) :
  find_all (action_at opening closing) n text = find_all (action_at opening closing) (String.length text) text
  /\ find_all ref_at n text = find_all ref_at (String.length text) text
  /\ find_all runtime_secret_at n text = find_all runtime_secret_at (String.length text) text
  /\ find_all tmpl_ref_at n text = find_all tmpl_ref_at (String.length text) text
  /\ ref_segments n text = ref_segments (String.length text) text.
Proof.
  split_and!; try (apply find_all_fuel; [|lia|lia]).
  - intros. by eapply action_at_consumes.
  - apply ref_at_consumes.
  - apply runtime_secret_at_consumes.
  - apply tmpl_ref_at_consumes.
  - by apply ref_segments_fuel.
Qed.

(** ** The check *)

Definition in_context (ctx : render_context) (coll name : string) : bool :=
  if String.eqb coll "inputs" then stated (rc_inputs ctx !! name)
  else if String.eqb coll "secrets" then stated (rc_secrets ctx !! name)
  else if String.eqb coll "databases" then stated (rc_databases ctx !! name)
  else if String.eqb coll "applications" then stated (rc_apps ctx !! name) else false.
(** The known names are those the context can resolve. *)
Definition describes (known : known_names) (ctx : render_context) : Prop :=
  forall coll name, coll ∈ ref_collections -> name ∈ known coll <-> in_context ctx coll name = true.
Definition keys_of (r : reference) : list string := if missing (rf_field r) then [rf_name r] else [rf_name r; rf_field r].
Definition resolves (ctx : render_context) (r : reference) : Prop := exists v, ref_value ctx (rf_collection r) (keys_of r) = Ok v.
Definition readonly_field (r : reference) : Prop := rf_collection r = "databases" /\ has_prefix "readonly_" (rf_field r) = true.

Definition add_once (out : list string) (p : string) : list string := if mem p out then out else out ++ [p].
Lemma add_once_elem l out p : p ∈ foldl add_once out l <-> p ∈ out \/ p ∈ l.
Proof.
  revert out. induction l as [|x l IH]; intros out; cbn; [rewrite elem_of_nil; tauto|].
  rewrite IH. unfold add_once at 1. destruct (mem x out) eqn:E; [apply mem_spec in E; set_solver|set_solver].
Qed.

Lemma check_references_elem refs known p :
  p ∈ check_references refs known <-> exists r, r ∈ refs /\ reference_problem known r = Some p.
Proof.
  unfold check_references, sort_strings. rewrite stable_sort_perm. fold add_once. rewrite (add_once_elem _ []), list_elem_of_omap, elem_of_nil.
  tauto.
Qed.

Lemma collection_cases coll : coll ∈ ref_collections ->
  coll = "databases" \/ coll = "secrets" \/ coll = "applications" \/ coll = "inputs".
Proof. unfold ref_collections. set_solver. Qed.

Lemma keys_head r : exists rest, keys_of r = rf_name r :: rest /\ (match rest with f :: _ => f | [] => "" end) = rf_field r.
Proof. unfold keys_of, missing. destruct (String.eqb_spec (rf_field r) "") as [->|]; eexists; done. Qed.

Lemma assoc_some l k : stated (assoc l k) = mem k (l.*1).
Proof.
  unfold assoc. induction l as [|[k' v] l IH]; [done|]. rewrite find_first_cons. cbn [fst fmap list_fmap].
  destruct (String.eqb_spec k' k) as [->|Hn].
  - symmetry. apply mem_spec. left.
  - rewrite IH. unfold mem. apply bool_decide_ext. set_solver.
Qed.

(** The fields the check knows of a database are those the renderer knows, but for the read-only ones. *)
Lemma database_fields_resolve c field : missing field = true \/ mem field database_ref_fields = true ->
  exists v, assoc (conn_fields c) (or_else field "uri") = Some v /\ has_prefix "readonly_" (or_else field "uri") = false.
Proof.
  intros [H|H]; [apply String.eqb_eq in H as ->; by eexists|]. apply mem_spec in H. revert H. unfold database_ref_fields.
  rewrite !elem_of_cons, elem_of_nil. intros H. destruct_or! H; try done; subst; by eexists.
Qed.
Lemma database_fields_only c field v : missing field = false -> mem field database_ref_fields = false ->
  assoc (conn_fields c) (or_else field "uri") = Some v -> has_prefix "readonly_" field = true.
Proof.
  intros Hm Hf Ha. unfold or_else in Ha. unfold missing in Hm. rewrite Hm in Ha.
  assert (H : mem field (conn_fields c).*1 = true) by by rewrite <- assoc_some, Ha.
  apply mem_spec in H. cbn in H. rewrite !elem_of_cons, elem_of_nil in H. destruct_or! H; try done; subst; by vm_compute in Hf || by vm_compute.
Qed.
Lemma application_fields_resolve a field :
  (missing field = true \/ mem field application_ref_fields = true) <-> stated (assoc (app_fields a) (or_else field "url")) = true.
Proof.
  rewrite assoc_some. unfold or_else, missing. destruct (String.eqb_spec field "") as [->|Hf]; [split; [by vm_compute|by left]|].
  split; [by intros [?|?]|by right].
Qed.

(** A reference resolves exactly when the check finds no problem, the read-only fields of a database apart. *)
Lemma problem_resolves known ctx r : known_collection r -> describes known ctx ->
  (reference_problem known r = None -> resolves ctx r) /\ (reference_problem known r <> None -> resolves ctx r -> readonly_field r).
Proof.
  intros Hc Hk. destruct r as [w coll name field]. unfold resolves, reference_problem, readonly_field, known_collection in *.
  destruct (keys_head (Reference w coll name field)) as (rest & -> & Hf). specialize (Hk coll name Hc). cbn in *. rewrite Hf.
  apply collection_cases in Hc. unfold in_context in Hk.
  destruct (bool_decide_reflect (name ∈ known coll)) as [Hin|Hin]; cbn [negb].
  - apply Hk in Hin. destruct Hc as [->|[->|[->| ->]]]; cbn in Hin |- *.
    + destruct (rc_databases ctx !! name) as [c|]; [|done]. destruct (missing field) eqn:Em; cbn.
      { destruct (database_fields_resolve c field) as (v & -> & ->); [by left|]. rewrite andb_false_r. split; [by eauto|done]. }
      destruct (mem field database_ref_fields) eqn:Ef; cbn.
      { destruct (database_fields_resolve c field) as (v & -> & ->); [by right|]. rewrite andb_false_r. split; [by eauto|done]. }
      split; [done|]. intros _ [v Hv]. split; [done|]. destruct (assoc _ _) eqn:Ea; [|done]. by eapply database_fields_only.
    + destruct (rc_secrets ctx !! name); [|done]. split; [by eauto|done].
    + destruct (rc_apps ctx !! name) as [a|]; [|done]. pose proof (application_fields_resolve a field) as Ha.
      destruct (assoc _ _) as [v|]; cbn in *; destruct (missing field), (mem field application_ref_fields); cbn;
        (split; [by eauto || done|by intros ? [? ?] || done]) || (exfalso; intuition congruence).
    + destruct (rc_inputs ctx !! name); [|done]. split; [by eauto|done].
  - split; [done|]. intros _ [v Hv]. exfalso. apply Hin, Hk.
    revert Hv. destruct Hc as [->|[->|[->| ->]]]; cbn;
      [destruct (rc_databases ctx !! name)|destruct (rc_secrets ctx !! name)|destruct (rc_apps ctx !! name)|destruct (rc_inputs ctx !! name)]; done.
Qed.

(** Against the names the render context knows, the check of a set is exact: when it reports
    nothing, every reference the set's templates make has a value; and each problem it reports is that of a reference
    of the set which would not render, except that it also reports the read-only fields of a database, which would. *)
Lemma checked_references_resolve (s : resource_set) (known : known_names) (ctx : render_context) (Hk : describes known ctx) :
  (check_references (references s) known = [] -> Forall (resolves ctx) (references s))
  /\ (forall p, p ∈ check_references (references s) known -> exists r, r ∈ references s /\ (~ resolves ctx r \/ readonly_field r)).
Proof.
  split.
  - intros H. apply Forall_forall. intros r Hr. apply (problem_resolves known ctx r); [by apply references_collection in Hr|done|].
    destruct (reference_problem known r) as [p|] eqn:E; [|done].
    assert (Hp : p ∈ check_references (references s) known) by (apply check_references_elem; eauto). rewrite H in Hp. by apply elem_of_nil in Hp.
  - intros p (r & Hr & Hp)%check_references_elem. exists r. split; [done|].
    destruct (problem_resolves known ctx r) as [_ H]; [by apply references_collection in Hr|done|]. rewrite Hp in H.
    destruct (decide (has_prefix "readonly_" (rf_field r) = true /\ rf_collection r = "databases")) as [[??]|Hn]; [by right|].
    left. intros [??]%H; [tauto|done].
Qed.

(** ** Concrete scans and sets *)

(** The names a context can resolve *)
Definition names_of (ctx : render_context) : known_names := fun coll =>
  if String.eqb coll "inputs" then dom (rc_inputs ctx) else if String.eqb coll "secrets" then dom (rc_secrets ctx)
  else if String.eqb coll "databases" then dom (rc_databases ctx) else if String.eqb coll "applications" then dom (rc_apps ctx) else ∅.
Lemma names_of_describes ctx : describes (names_of ctx) ctx.
Proof.
  intros coll name Hc. unfold names_of, in_context. apply collection_cases in Hc.
  assert (He : forall A (m : gmap string A), name ∈ dom m <-> stated (m !! name) = true).
  { intros A m. rewrite elem_of_dom. destruct (m !! name) as [a|]; cbn; [by split; [|exists a]|by split; [intros []|]]. }
  destruct Hc as [->|[->|[->| ->]]]; apply He.
Qed.

Definition demo_context : render_context :=
  RenderContext ∅ (<["shop" := ConnView "shop" "5432" "u" "p" "shop" "postgres://u:p@shop:5432/shop" "ro" "r"
                       "postgres://ro:r@shop:5432/shop" "" ""]> ∅) (<["api" := AppView "api" "8080" "" "api.internal"]> ∅) ∅.
Definition demo_reader (value : string) : resource_set :=
  foldl add new_resource_set
    [Resource kind_application (Meta "web" "" ∅ ∅)
       (SApplication (ApplicationSpec None "nginx" "" "" [] [] (<["DB" := value]> ∅) []
          [] None None None None None ∅ "" "" "" "restart" "" "" ""))].

(** The check refuses the read-only address of a database the renderer resolves. *)
Lemma readonly_reference_refused :
  let s := demo_reader "{{ .databases.shop.readonly_uri }}" in
  length (check_references (references s) (names_of demo_context)) = 1%nat /\ Forall (resolves demo_context) (references s).
Proof.
  split; [by vm_compute|]. assert (Hf : references (demo_reader "{{ .databases.shop.readonly_uri }}") =
    [Reference ("application " +:+ go_quote "web" +:+ " env DB") "databases" "shop" "readonly_uri"]) by by vm_compute.
  rewrite Hf. apply Forall_singleton. exists "postgres://ro:r@shop:5432/shop". by vm_compute.
Qed.
