(* ===== verification/ApplyRun.v ===== *)
(** * Applying manifests: runs

    [internal/services/apply/apply.go]: the plan of an apply and what refuses it, the loop that executes a plan, the
    runs that apply one resource, delete declared ones, delete one, or tear a project down. What carries a change
    out, renders templates, lists what is live or checks locations is the class [Backend]; a run also returns the
    changes it asked the backend to execute, in order. *)
From S2P Require Import Prelude GoStrings GoText ManifestTypes ManifestSpec ManifestPlan ManifestRefs.
#[local] Open Scope Z_scope.
#[local] Open Scope list_scope.

(** ** Ownership *)

Definition managed_by_gitops : string := "gitops".
Definition managed_by_apply : string := "apply".
Definition meta_managed_by : string := "miabi.io/managed-by".
Definition meta_gitops_source : string := "miabi.io/gitops-source".

Record options := Options {
  op_prune : bool; op_owner_source : string; op_admin : bool; op_check_references : bool; op_require_sealed : bool; op_force : bool }.

(** [ownerOf]; [managedBy] is that of the run's source. *)
Definition owner_of (source : string) : string := if missing source then managed_by_apply else managed_by_gitops.
Definition tag_source (source : string) (m : gmap string string) : gmap string string :=
  if missing source then m else <[meta_gitops_source := source]> m.
(** A run of a project takes over what an apply or a project made without naming a source. *)
Definition claim (source : string) (m : gmap string string) : gmap string string :=
  if missing source || negb (missing (value m meta_gitops_source)) then m
  else
    let owner := value m meta_managed_by in
    if negb (String.eqb owner managed_by_gitops) && negb (String.eqb owner managed_by_apply) then m
    else tag_source source (<[meta_managed_by := managed_by_gitops]> m).

(** ** What the engine asks of the services *)

Record run_context := RunContext { rx_source : string; rx_admin : bool }.
Definition context_of (opts : options) : run_context := RunContext (op_owner_source opts) (op_admin opts).

(** [bk_list] is the listing [snapshot] puts into a set: what it could read of what is live, for it leaves out an application it
    cannot read, and the declared databases when their table cannot be read; [bk_execute] is [execute], with the declared resource if there
    is one and the declared set where the run has one. *)
Class Backend (W : Type) := {
  bk_list : W -> result string (list resource);
  bk_render : W -> resource_set -> resource_set;
  bk_databases : W -> gset string;
  bk_secrets : W -> gset string;
  bk_applications : W -> gset string;
  bk_check_locations : W -> plan -> resource_set -> bool -> result string unit;
  bk_execute : W -> run_context -> change -> option resource -> option resource_set -> W * result string unit;
  bk_link_databases : W -> resource_set -> W;
  bk_failed_jobs : W -> string -> list string }.

Inductive apply_err :=
| ErrInvalidManifest (why : string)
| ErrPlainSecret (names : list string)
| ErrUnresolvable (problems : list string)
| ErrSnapshot (why : string)
| ErrOwnedByGitOps (owned : list string)
| ErrLocation (why : string)
| ErrResourceNotFound (which : string).

(** The text of an error, its fixed parts and data *)
Definition apply_err_text (e : apply_err) : string :=
  match e with
  | ErrInvalidManifest why => "invalid manifest: " +:+ why
  | ErrPlainSecret names =>
      "invalid manifest: this source only accepts sealed secrets, but these Secrets carry a plaintext value: " +:+ join ", " names
      +:+ " (seal them with `miabi secrets seal -f <file> --in-place`)"
  | ErrUnresolvable problems => "invalid manifest: unresolvable references: " +:+ join " " problems
  | ErrSnapshot why | ErrLocation why => why
  | ErrOwnedByGitOps owned =>
      "owned by a GitOps project: " +:+ join ", " owned
      +:+ ". Change them in the project's Git repository, or use --force to override until its next sync"
  | ErrResourceNotFound which => "resource not found in manifests: " +:+ which
  end.

Record failure := Failure { fl_kind : kind; fl_name : string; fl_action : action; fl_error : string }.
Record apply_result := ApplyResult {
  ar_plan : option plan; ar_applied : Z; ar_dry_run : bool; ar_failures : list failure; ar_failed_jobs : list string }.
(** A request to execute a change, with the declared resource it came with *)
Record call := Call { cl_change : change; cl_resource : option resource }.

Definition change_key (c : change) : string := key_of (ch_kind c) (ch_name c).
Definition snapshot_of (l : list resource) : resource_set := foldl add new_resource_set l.

Section Run.
Context {W : Type} `{Backend W} (cron_ok : string -> bool).

Definition snapshot (w : W) : result string resource_set := let? l := bk_list w in Ok (snapshot_of l).

(** [knownNames]: what is live and what is declared; no inputs. *)
Definition live_names (w : W) (coll : string) : gset string :=
  if String.eqb coll "databases" then bk_databases w else if String.eqb coll "secrets" then bk_secrets w
  else if String.eqb coll "applications" then bk_applications w else ∅.
Definition collection_of (r : resource) : string :=
  if String.eqb (r_kind r) kind_database then "databases" else if is_vault_secret (r_kind r) then "secrets"
  else if String.eqb (r_kind r) kind_application then "applications" else "".
Definition declared_names (desired : resource_set) (coll : string) : gset string :=
  list_to_set (r_name <$> List.filter (fun r => negb (missing coll) && String.eqb (collection_of r) coll) (rl_list desired)).
Definition run_known_names (w : W) (desired : resource_set) : known_names := fun coll => live_names w coll ∪ declared_names desired coll.

(** [refuseGitOpsOwned]: the updates of resources a project manages *)
Definition gitops_owned (actual : resource_set) (c : change) : bool :=
  bool_decide (ch_action c = ActionUpdate)
  && match get actual (change_key c) with Some a => String.eqb (label a label_managed_by) managed_by_gitops | None => false end.
Definition refuse_gitops_owned (p : plan) (actual : resource_set) : result apply_err unit :=
  match change_key <$> List.filter (gitops_owned actual) p with [] => Ok tt | owned => Err (ErrOwnedByGitOps owned) end.

Definition options_of (opts : options) : plan_options :=
  PlanOptions (op_prune opts) (owner_of (op_owner_source opts)) (op_owner_source opts) false.
Definition or_invalid {A} (r : result string A) : result apply_err A := match r with Ok a => Ok a | Err e => Err (ErrInvalidManifest e) end.
Definition or_snapshot {A} (r : result string A) : result apply_err A := match r with Ok a => Ok a | Err e => Err (ErrSnapshot e) end.

(** [Plan] *)
Definition plan_run (w : W) (manifests : list resource) (opts : options) : result apply_err (plan * resource_set) :=
  let? desired := or_invalid (load cron_ok manifests) in
  let? _ := match plain_secrets desired with
            | [] => Ok tt
            | names => if op_require_sealed opts then Err (ErrPlainSecret names) else Ok tt
            end in
  let? _ := (if op_check_references opts then
               match check_references (references desired) (run_known_names w desired) with [] => Ok tt | ps => Err (ErrUnresolvable ps) end
             else Ok tt) in
  let desired := bk_render w desired in
  let? actual := or_snapshot (snapshot w) in
  let p := build_plan desired actual (options_of opts) in
  let? _ := (if missing (op_owner_source opts) && negb (op_force opts) then refuse_gitops_owned p actual else Ok tt) in
  let? _ := match bk_check_locations w p desired (op_admin opts) with Ok _ => Ok tt | Err e => Err (ErrLocation e) end in
  Ok (p, desired).

(** ** Executing *)

Record run_state := RunState { rs_world : W; rs_calls : list call; rs_applied : Z; rs_failures : list failure }.
Definition start_run (w : W) : run_state := RunState w [] 0 [].

(** A turn of the loop: a change that fails is recorded, and the run goes on. *)
Definition run_change (ctx : run_context) (set : option resource_set) (st : run_state) (c : change) : run_state :=
  let dr := match set with Some s => get s (change_key c) | None => None end in
  let '(w, r) := bk_execute (rs_world st) ctx c dr set in
  let calls := rs_calls st ++ [Call c dr] in
  match r with
  | Ok _ => RunState w calls (rs_applied st + 1) (rs_failures st)
  | Err e => RunState w calls (rs_applied st) (rs_failures st ++ [Failure (ch_kind c) (ch_name c) (ch_action c) e])
  end.
Definition run_changes (ctx : run_context) (set : option resource_set) (st : run_state) (l : list change) : run_state :=
  foldl (run_change ctx set) st l.
Definition is_change (c : change) : bool := negb (bool_decide (ch_action c = ActionNoop)).
Definition is_delete (c : change) : bool := bool_decide (ch_action c = ActionDelete).
Definition linked (w : W) (manifests : list resource) : W :=
  match load cron_ok manifests with Ok raw => bk_link_databases w raw | Err _ => w end.

(** [Apply] *)
Definition apply (w : W) (manifests : list resource) (opts : options) : W * list call * result apply_err apply_result :=
  match plan_run w manifests opts with
  | Err e => (w, [], Err e)
  | Ok (p, desired) =>
      let st := run_changes (context_of opts) (Some desired) (start_run w) (List.filter is_change p) in
      let w := linked (rs_world st) manifests in
      (w, rs_calls st, Ok (ApplyResult (Some p) (rs_applied st) false (rs_failures st) (bk_failed_jobs w (op_owner_source opts))))
  end.

(** [ApplyResource] *)
Definition apply_resource (w : W) (manifests : list resource) (opts : options) (k : kind) (name : string)
    : W * list call * result apply_err apply_result :=
  match plan_run w manifests opts with
  | Err e => (w, [], Err e)
  | Ok (p, desired) =>
      match find_first (fun c => String.eqb (change_key c) (key_of k name)) p with
      | None => (w, [], Err (ErrResourceNotFound (key_of k name)))
      | Some c =>
          if negb (is_change c) then (w, [], Ok (ApplyResult (Some [c]) 0 false [] []))
          else
            let st := run_change (context_of opts) (Some desired) (start_run w) c in
            let w := match rs_failures st with [] => linked (rs_world st) manifests | _ => rs_world st end in
            (w, rs_calls st, Ok (ApplyResult (Some [c]) (rs_applied st) false (rs_failures st) []))
      end
  end.

(** [DeleteResource]; its own error is a failure's, returned with the result. *)
Definition delete_resource (w : W) (k : kind) (name : string) : W * list call * result apply_err apply_result :=
  match or_snapshot (snapshot w) with
  | Err e => (w, [], Err e)
  | Ok actual =>
      match get actual (key_of k name) with
      | None => (w, [], Ok (ApplyResult None 0 false [] []))
      | Some _ =>
          let c := Change ActionDelete k name "" [] in
          let st := run_change (RunContext "" false) None (start_run w) c in
          (rs_world st, rs_calls st, Ok (ApplyResult (Some [c]) (rs_applied st) false (rs_failures st) []))
      end
  end.

Definition run_deletes (w : W) (p : plan) : W * list call * result apply_err apply_result :=
  let st := run_changes (RunContext "" false) None (start_run w) (List.filter is_delete p) in
  (rs_world st, rs_calls st, Ok (ApplyResult (Some p) (rs_applied st) false (rs_failures st) [])).

(** [Teardown] *)
Definition owned_by (source : string) (a : resource) : bool :=
  String.eqb (label a label_managed_by) managed_by_gitops && String.eqb (label a label_gitops_source) source.
Definition teardown (w : W) (source : string) : W * list call * result apply_err apply_result :=
  if missing source then (w, [], Ok (ApplyResult None 0 false [] []))
  else match or_snapshot (snapshot w) with
       | Err e => (w, [], Err e)
       | Ok actual =>
           let owned := snapshot_of (List.filter (owned_by source) (rl_list actual)) in
           run_deletes w (build_plan new_resource_set owned (PlanOptions true managed_by_gitops "" false))
       end.

(** [Delete] *)
Definition delete_declared (w : W) (manifests : list resource) (dry_run : bool) : W * list call * result apply_err apply_result :=
  match or_invalid (load cron_ok manifests) with
  | Err e => (w, [], Err e)
  | Ok desired =>
      match or_snapshot (snapshot w) with
      | Err e => (w, [], Err e)
      | Ok actual =>
          let targets := snapshot_of (omap (fun d => get actual (key d)) (rl_list desired)) in
          let p := build_plan new_resource_set targets (PlanOptions true "" "" false) in
          if dry_run then (w, [], Ok (ApplyResult (Some p) 0 true [] [])) else run_deletes w p
      end
  end.
End Run.

(** What the renderer leaves as it is: which resources the set holds, and what they are called. *)
Class RenderLaws (W : Type) `{Backend W} := {
  render_ok : forall w s, set_ok s -> set_ok (bk_render w s);
  render_heads : forall w s, (fun r => (r_kind r, r_meta r)) <$> rl_list (bk_render w s) = (fun r => (r_kind r, r_meta r)) <$> rl_list s }.

(** * Facts *)

#[local] Arguments key_of : simpl never.

Lemma bfilter_fmap_nodup {A B} (f : A -> B) (p : A -> bool) (l : list A) : NoDup (f <$> l) -> NoDup (f <$> List.filter p l).
Proof.
  induction l as [|x l IH]; cbn; [done|]. intros [Hx Hn]%NoDup_cons. destruct (p x); [|by apply IH]. cbn. apply NoDup_cons. split; [|by apply IH].
  intros (y & E & [Hy _]%elem_of_bfilter)%list_elem_of_fmap. apply Hx. apply list_elem_of_fmap. by exists y.
Qed.

Lemma bfilter_all {A} (p : A -> bool) (l : list A) : (forall x, x ∈ l -> p x = true) -> List.filter p l = l.
Proof. induction l as [|x l IH]; cbn; [done|]. intros Hp. rewrite (Hp x) by left. f_equal. apply IH. intros y Hy. apply Hp. by right. Qed.

Lemma match_none_get actual uids d : match_actual actual uids d = None -> get actual (key d) = None.
Proof. unfold match_actual. repeat case_match; done. Qed.

Lemma snapshot_of_ok l : set_ok (snapshot_of l).
Proof.
  unfold snapshot_of. assert (H : forall s, set_ok s -> set_ok (foldl add s l)); [|apply H, new_resource_set_ok].
  induction l as [|r l IH]; intros s Hs; [done|]. apply IH, add_ok, Hs.
Qed.

(** Resources under different keys are all kept, in their order. *)
Lemma snapshot_of_distinct l : NoDup (key <$> l) -> rl_list (snapshot_of l) = l.
Proof.
  unfold snapshot_of. intros Hn.
  assert (H : forall s, set_ok s -> (forall r, r ∈ l -> get s (key r) = None) -> rl_list (foldl add s l) = rl_list s ++ l);
    [|rewrite H; [done|apply new_resource_set_ok|done]].
  induction l as [|r l IH]; intros s Hs Hl; [by rewrite app_nil_r|]. apply NoDup_cons in Hn as [Hr Hn]. cbn [foldl].
  assert (El : rl_list (add s r) = rl_list s ++ [r]) by (apply add_fresh; [done|apply Hl; left]).
  rewrite IH, El, <- app_assoc; [done|done|by apply add_ok|]. intros r' Hr'. apply get_none; [by apply add_ok|].
  rewrite El. intros x [Hx| ->%list_elem_of_singleton]%elem_of_app.
  - apply (proj1 (get_none s (key r') Hs)); [|done]. apply Hl. by right.
  - intros E. apply Hr. rewrite E. by apply list_elem_of_fmap_2.
Qed.

Lemma elem_of_snapshot_of l r : NoDup (key <$> l) -> r ∈ rl_list (snapshot_of l) <-> r ∈ l.
Proof. intros Hn. by rewrite snapshot_of_distinct. Qed.

(** ** A plan has one change for a resource *)

Lemma key_of_change opts actual uids d c : desired_change opts actual uids d = Some c -> change_key c = key d.
Proof. intros (_ & Ek & En & _)%desired_change_cases. unfold change_key, key. by rewrite Ek, En. Qed.

Lemma desired_keys_nodup opts actual uids l : NoDup (key <$> l) -> NoDup (change_key <$> omap (desired_change opts actual uids) l).
Proof.
  induction l as [|d l IH]; cbn; [by constructor|]. intros [Hd Hn]%NoDup_cons.
  destruct (desired_change opts actual uids d) as [c|] eqn:E; [|by apply IH]. cbn. apply NoDup_cons. split; [|by apply IH].
  intros (c' & Ec & (d' & Hd' & Hc')%list_elem_of_omap)%list_elem_of_fmap. apply Hd. apply list_elem_of_fmap. exists d'. split; [|done].
  by rewrite <- (key_of_change _ _ _ _ _ E), Ec, (key_of_change _ _ _ _ _ Hc').
Qed.

Lemma plan_keys_nodup desired actual opts : set_ok desired -> set_ok actual -> NoDup (change_key <$> build_plan desired actual opts).
Proof.
  intros Hd Ha. unfold build_plan. rewrite stable_sort_perm, fmap_app. apply NoDup_app. split_and!.
  - apply desired_keys_nodup, so_keys, Hd.
  - intros k (c & -> & (d & Hin & Hc)%list_elem_of_omap)%list_elem_of_fmap. destruct (po_prune opts); [|apply not_elem_of_nil].
    intros (c' & Ec & (a & -> & Hp)%list_elem_of_fmap)%list_elem_of_fmap. apply elem_of_bfilter in Hp as [_ Hp]. unfold prunable in Hp.
    repeat match goal with H : andb _ _ = true |- _ => apply andb_true_iff in H as [H ?] end.
    assert (Hg : get desired (key a) = None) by by destruct (get desired (key a)). apply (proj1 (get_none desired _ Hd)) with d in Hg; [|done].
    apply Hg. by rewrite <- (key_of_change _ _ _ _ _ Hc), Ec.
  - destruct (po_prune opts); [|constructor]. rewrite <- list_fmap_compose. apply (bfilter_fmap_nodup key), so_keys, Ha.
Qed.

(** ** A run *)

Section RunFacts.
Context {W : Type} `{Backend W}.

Definition outcome_failure (co : change * option string) : option failure :=
  match co.2 with Some e => Some (Failure (ch_kind co.1) (ch_name co.1) (ch_action co.1) e) | None => None end.
Definition resource_for (set : option resource_set) (c : change) : option resource :=
  match set with Some s => get s (change_key c) | None => None end.

(** Whatever the outcomes, a run asks for every change, in order, and counts each as applied or as failed. *)
Lemma run_changes_spec ctx set l st : exists outs,
  length outs = length l
  /\ rs_calls (run_changes ctx set st l) = rs_calls st ++ ((fun c => Call c (resource_for set c)) <$> l)
  /\ rs_failures (run_changes ctx set st l) = rs_failures st ++ omap outcome_failure (zip l outs)
  /\ rs_applied (run_changes ctx set st l) = rs_applied st + Z.of_nat (length (List.filter (fun o => negb (stated o)) outs))
  /\ Z.of_nat (length (omap outcome_failure (zip l outs))) + Z.of_nat (length (List.filter (fun o : option string => negb (stated o)) outs))
     = Z.of_nat (length l).
Proof.
  revert st. induction l as [|c l IH]; intros st.
  - exists []. cbn. rewrite !app_nil_r. split_and!; [done..| |done]. lia.
  - cbn [run_changes foldl]. fold (run_changes ctx set (run_change ctx set st c) l).
    destruct (IH (run_change ctx set st c)) as (outs & Hl & Hc & Hf & Ha & Hn).
    unfold run_change in Hc, Hf, Ha |- *. fold (resource_for set c) in Hc, Hf, Ha |- *.
    destruct (bk_execute (rs_world st) ctx c (resource_for set c) set) as [w [[]|e]]; cbn [rs_calls rs_failures rs_applied] in Hc, Hf, Ha.
    + exists (None :: outs). rewrite Hc, Hf, Ha, <- app_assoc. cbn. split_and!; [lia|done|done|lia|lia].
    + exists (Some e :: outs). rewrite Hc, Hf, Ha, <- !app_assoc. cbn. split_and!; [lia|done|done|lia|lia].
Qed.

Lemma run_changes_calls ctx set l w : rs_calls (run_changes ctx set (start_run w) l) = (fun c => Call c (resource_for set c)) <$> l.
Proof. destruct (run_changes_spec ctx set l (start_run w)) as (outs & _ & -> & _). done. Qed.

Lemma plan_run_ok `{!RenderLaws W} cron_ok w manifests opts p desired : plan_run cron_ok w manifests opts = Ok (p, desired) ->
  set_ok desired /\ (forall r, r ∈ rl_list desired -> r_kind r ∈ known_kinds)
  /\ exists actual, snapshot w = Ok actual /\ set_ok actual /\ p = build_plan desired actual (options_of opts)
  /\ (op_owner_source opts = "" -> op_force opts = false -> refuse_gitops_owned p actual = Ok tt).
Proof.
  unfold plan_run. intros Hp. apply rbind_ok_inv in Hp as (d0 & Hd & Hp). apply rbind_ok_inv in Hp as ([] & _ & Hp).
  apply rbind_ok_inv in Hp as ([] & _ & Hp). apply rbind_ok_inv in Hp as (actual & Hs & Hp). apply rbind_ok_inv in Hp as ([] & Ho & Hp).
  apply rbind_ok_inv in Hp as ([] & _ & [= <- <-]).
  assert (Hload : load cron_ok manifests = Ok d0) by (destruct (load cron_ok manifests) as [x|]; [by injection Hd as ->|done]).
  assert (Hsnap : snapshot w = Ok actual) by (destruct (snapshot w) as [x|]; [by injection Hs as ->|done]).
  pose proof (load_ok _ _ _ Hload) as (Hok & El & Hv & _). split_and!.
  - by apply render_ok.
  - intros r Hr. assert (Hh : (r_kind r, r_meta r) ∈ (fun r => (r_kind r, r_meta r)) <$> rl_list d0).
    { rewrite <- (render_heads w). by apply (list_elem_of_fmap_2 (fun r => (r_kind r, r_meta r))). }
    apply list_elem_of_fmap in Hh as (r0 & [= Ek _] & Hr0). rewrite Ek. by eapply validate_known, Hv.
  - exists actual. split_and!; [done| |done|].
    + unfold snapshot in Hsnap. apply rbind_ok_inv in Hsnap as (l & _ & [= <-]). apply snapshot_of_ok.
    + intros Es Ef. rewrite Es, Ef in Ho. done.
Qed.
End RunFacts.

(** Against an empty set, a plan deletes what is live and what the pruning is limited to. *)
Lemma empty_plan actual owner c : c ∈ build_plan new_resource_set actual (PlanOptions true owner "" false) <->
  exists a, a ∈ rl_list actual /\ planned (r_kind a) = true /\ (owner = "" \/ label a label_managed_by = owner) /\ c = delete_change a.
Proof.
  rewrite elem_of_plan. cbn [rl_list new_resource_set po_prune desired_uids with_uid List.filter fmap list_fmap list_to_set].
  assert (Hp : forall a, prunable (PlanOptions true owner "" false) new_resource_set ∅ a = true <->
    planned (r_kind a) = true /\ (owner = "" \/ label a label_managed_by = owner)).
  { intros a. unfold prunable, get, has. cbn. rewrite lookup_empty. rewrite !andb_true_iff, orb_true_iff.
    assert (Hb : forall k : option kind, match k with Some alias => bool_decide (is_Some ((∅ : gmap string nat) !! key_of alias (r_name a))) | None => false end = false).
    { intros [k|]; [|done]. rewrite lookup_empty. apply bool_decide_eq_false. by intros []. }
    rewrite Hb, andb_false_r. unfold missing. rewrite !String.eqb_eq. cbn. naive_solver. }
  split.
  - intros [(d & Hd & _)|(_ & a & Ha & Hpr & ->)]; [by apply elem_of_nil in Hd|]. apply Hp in Hpr as [? ?]. eauto 6.
  - intros (a & Ha & Hk & Ho & ->). right. split; [done|]. exists a. split_and!; [done| |done]. by apply Hp.
Qed.

(** Every change of such a plan is a deletion. *)
Lemma empty_plan_deletes actual owner :
  List.filter is_delete (build_plan new_resource_set actual (PlanOptions true owner "" false))
  = build_plan new_resource_set actual (PlanOptions true owner "" false).
Proof. apply bfilter_all. intros c (a & _ & _ & _ & ->)%empty_plan. done. Qed.

Lemma deletes_nodup {W} `{Backend W} actual owner (l : list call) : set_ok actual ->
  l = (fun c => Call c (resource_for None c)) <$> build_plan new_resource_set actual (PlanOptions true owner "" false) -> NoDup l.
Proof.
  intros Ha ->. apply NoDup_fmap_1 with (f := fun x => change_key (cl_change x)). rewrite <- list_fmap_compose.
  apply plan_keys_nodup; [apply new_resource_set_ok|done].
Qed.

(** * Claims *)

Section Claims.
Context {W : Type} `{Backend W} `{!RenderLaws W} (cron_ok : string -> bool).

(** Once its plan stands, an apply asks for every change of the plan, in the plan's
    order, each once and no resource twice, with the declared resource it is about; a change that fails stops none of
    the others; and every change ends up counted as applied or listed as failed. *)
Lemma apply_attempts_every_change (w : W) (manifests : list resource) (opts : options) (p : plan) (desired : resource_set) :
  plan_run cron_ok w manifests opts = Ok (p, desired) ->
  let todo := List.filter is_change p in
  exists w' outs r, apply cron_ok w manifests opts = (w', (fun c => Call c (get desired (change_key c))) <$> todo, Ok r)
    /\ NoDup (change_key <$> todo) /\ length outs = length todo
    /\ ar_failures r = omap outcome_failure (zip todo outs)
    /\ ar_applied r + Z.of_nat (length (ar_failures r)) = Z.of_nat (length todo).
Proof.
  intros Hp todo. unfold apply. rewrite Hp. pose proof (plan_run_ok _ _ _ _ _ _ Hp) as (Hd & _ & actual & _ & Ha & Epl & _).
  destruct (run_changes_spec (context_of opts) (Some desired) todo (start_run w)) as (outs & Hl & Hc & Hf & Hap & Hn).
  eexists _, outs, _. split; [unfold todo in *; rewrite Hc; reflexivity|]. cbn [ar_failures ar_applied]. split_and!.
  - apply bfilter_fmap_nodup. rewrite Epl. by apply plan_keys_nodup.
  - done.
  - exact Hf.
  - unfold todo in *. rewrite Hf, Hap. cbn [start_run rs_failures rs_applied app]. lia.
Qed.

(** A change a run may ask for, with what is live: a creation of what is not, an update of what no project manages, unless
    it is the run of a project or forced, and a deletion of what the run owns, when it prunes *)
Definition rightful (opts : options) (actual : resource_set) (x : call) : Prop :=
  let c := cl_change x in
  match ch_action c with
  | ActionCreate => get actual (change_key c) = None
  | ActionUpdate => op_owner_source opts = "" -> op_force opts = false ->
      forall a, get actual (change_key c) = Some a -> label a label_managed_by <> managed_by_gitops
  | ActionDelete => op_prune opts = true /\ cl_resource x = None /\ exists a, get actual (change_key c) = Some a
      /\ label a label_managed_by = owner_of (op_owner_source opts)
      /\ (op_owner_source opts <> "" -> label a label_gitops_source = op_owner_source opts)
  | ActionNoop => False
  end.

Lemma apply_calls_rightful (w w' : W) (manifests : list resource) (opts : options) (calls : list call) (r : result apply_err apply_result)
    (actual : resource_set) (x : call) :
  apply cron_ok w manifests opts = (w', calls, r) -> snapshot w = Ok actual -> x ∈ calls -> rightful opts actual x.
Proof.
  unfold apply. destruct (plan_run cron_ok w manifests opts) as [[p desired]|] eqn:Hp; [|intros [= _ <- _] _ ?%elem_of_nil; done].
  pose proof (plan_run_ok _ _ _ _ _ _ Hp) as (Hd & _ & actual' & Hs & Ha & -> & Ho). intros [= _ <- _] Hs'. rewrite Hs in Hs'. injection Hs' as ->.
  rewrite run_changes_calls. intros (c & -> & [Hin Hch]%elem_of_bfilter)%list_elem_of_fmap. unfold rightful. cbn [cl_change cl_resource].
  pose proof Hin as Hin'. apply elem_of_plan in Hin as [(d & Hdin & Hdc)|(Hpr & a & Hain & Hprun & ->)].
  - pose proof (key_of_change _ _ _ _ _ Hdc) as Ek. apply desired_change_cases in Hdc as (_ & _ & _ & Hcase). rewrite Ek.
    destruct (ch_action c) eqn:Ea; [by eapply match_none_get| |done|by unfold is_change in Hch; rewrite Ea in Hch].
    intros Es Ef a Hg Hl. specialize (Ho Es Ef). unfold refuse_gitops_owned in Ho.
    assert (Hc : c ∈ List.filter (gitops_owned actual) (build_plan desired actual (options_of opts))).
    { apply elem_of_bfilter. split; [done|]. unfold gitops_owned. by rewrite Ea, Ek, Hg, Hl. }
    destruct (List.filter _ _); [by apply elem_of_nil in Hc|done].
  - cbn [ch_action delete_change]. change (change_key (delete_change a)) with (key a). unfold prunable in Hprun.
    repeat match goal with H : andb _ _ = true |- _ => apply andb_true_iff in H as [H ?] end.
    split; [done|]. split; [change (get desired (key a) = None); by destruct (get desired (key a))|]. exists a. split; [by apply get_spec|].
    cbn [options_of po_prune_managed_by po_prune_source] in *. unfold owner_of, missing in *.
    destruct (String.eqb_spec (op_owner_source opts) "") as [->|Hn].
    + split; [|done]. by apply String.eqb_eq.
    + cbn in *. split; [by apply String.eqb_eq|]. intros _. by apply String.eqb_eq.
Qed.

Lemma apply_counts w w' manifests opts calls r : apply cron_ok w manifests opts = (w', calls, Ok r) ->
  ar_applied r + Z.of_nat (length (ar_failures r)) = Z.of_nat (length calls).
Proof.
  unfold apply. destruct (plan_run cron_ok w manifests opts) as [[p desired]|]; [|done]. intros [= _ <- <-]. cbn [ar_applied ar_failures].
  destruct (run_changes_spec (context_of opts) (Some desired) (List.filter is_change p) (start_run w)) as (outs & Hl & Hc & Hf & Ha & Hn).
  rewrite Hf, Ha, Hc. cbn [start_run rs_failures rs_applied rs_calls app]. rewrite length_fmap. lia.
Qed.

(** C23 [one_shot_leaves_projects_alone]: Outside a project and unless forced, of what is live under
    the very kind and name of a change that an apply asks for, none is managed by a project: such a
    change creates nothing that is live, updates only what no project manages, and deletes, when the
    apply prunes, only what an apply made. What an update finds under another kind or name is not
    covered: a SealedSecret declared over a project's plain Secret of that name is not refused. *)
Theorem one_shot_leaves_projects_alone (w w' : W) (manifests : list resource) (opts : options) (calls : list call)
    (r : result apply_err apply_result) (actual : resource_set) (x : call) (live : resource) :
  op_owner_source opts = "" -> op_force opts = false -> apply cron_ok w manifests opts = (w', calls, r) -> snapshot w = Ok actual ->
  x ∈ calls -> get actual (change_key (cl_change x)) = Some live ->
  label live label_managed_by <> managed_by_gitops
  /\ ch_action (cl_change x) <> ActionCreate
  /\ (ch_action (cl_change x) = ActionDelete -> op_prune opts = true /\ label live label_managed_by = managed_by_apply).
Proof.
  intros Es Ef Ha Hs Hx Hl. pose proof (apply_calls_rightful _ _ _ _ _ _ _ _ Ha Hs Hx) as Hr. unfold rightful in Hr.
  destruct (ch_action (cl_change x)); [congruence|split_and!; [by eapply Hr|done|done]| |done].
  destruct Hr as (Hp & _ & b & Hb & Ho & _). rewrite Hl in Hb. injection Hb as <-. rewrite Es in Ho. cbn in Ho.
  split_and!; [by rewrite Ho|done|done].
Qed.

(** C33 [teardown_exact]: Tearing a project down asks, once each, for the deletion of exactly what
    the workspace's listing holds, of a kind the engine manages, that carries both labels of that
    project; it asks to create or update nothing, and a deletion that fails is counted and the
    others go on. When the listing fails it asks for nothing, and with no project it does nothing.
    What the listing leaves out, such as an application that cannot be read, is not torn down. *)
Theorem teardown_exact (w : W) (source : string) :
  match snapshot w with
  | Err e => source <> "" -> teardown w source = (w, [], Err (ErrSnapshot e))
  | Ok actual =>
      exists w' calls r, teardown w source = (w', calls, Ok r) /\ NoDup calls
        /\ (forall x, x ∈ calls <-> source <> "" /\ exists a, a ∈ rl_list actual /\ planned (r_kind a) = true
              /\ owned_by source a = true /\ x = Call (delete_change a) None)
        /\ ar_applied r + Z.of_nat (length (ar_failures r)) = Z.of_nat (length calls)
        /\ (source = "" -> w' = w)
  end.
Proof.
  destruct (snapshot w) as [actual|e] eqn:Hs.
  2:{ intros Hn. unfold teardown, missing. rewrite (proj2 (String.eqb_neq _ _) Hn), Hs. done. }
  unfold teardown. destruct (missing source) eqn:Em.
  { apply String.eqb_eq in Em as ->. eexists w, [], _. split; [done|]. split; [constructor|]. split; [|done].
    intros x. rewrite elem_of_nil. naive_solver. }
  rewrite Hs. cbn [or_snapshot]. unfold run_deletes. rewrite empty_plan_deletes.
  assert (Hok : set_ok actual) by (unfold snapshot in Hs; apply rbind_ok_inv in Hs as (l & _ & [= <-]); apply snapshot_of_ok).
  set (owned := snapshot_of _). assert (Ho : set_ok owned) by apply snapshot_of_ok.
  assert (El : rl_list owned = List.filter (owned_by source) (rl_list actual)) by (apply snapshot_of_distinct, bfilter_fmap_nodup, so_keys, Hok).
  set (p := build_plan _ owned _). destruct (run_changes_spec (RunContext "" false) None p (start_run w)) as (outs & Hl & Hc & Hf & Ha & Hn).
  eexists _, _, _. split; [reflexivity|]. cbn [ar_applied ar_failures]. rewrite Hc. cbn [start_run rs_calls app]. split_and!.
  - by eapply (deletes_nodup owned).
  - intros x. rewrite list_elem_of_fmap. split.
    + intros (c & -> & (a & Hin & Hk & _ & ->)%empty_plan). rewrite El in Hin. apply elem_of_bfilter in Hin as [Hin Hob].
      split; [by apply String.eqb_neq|]. by exists a.
    + intros (_ & a & Hin & Hk & Hob & ->). exists (delete_change a). split; [done|]. apply empty_plan. exists a. split_and!; [|done| |done].
      * rewrite El. by apply elem_of_bfilter.
      * right. unfold owned_by in Hob. apply andb_true_iff in Hob as [Hob _]. by apply String.eqb_eq.
  - rewrite Hf, Ha, length_fmap. cbn [start_run rs_failures rs_applied app]. lia.
  - by intros ->.
Qed.

(** Deleting what manifests declare deletes what of it is live, whoever owns it; a dry run asks for nothing. *)
Lemma delete_exact (w : W) (manifests : list resource) (dry_run : bool) (desired actual : resource_set) :
  load cron_ok manifests = Ok desired -> snapshot w = Ok actual ->
  exists w' calls r, delete_declared cron_ok w manifests dry_run = (w', calls, Ok r)
    /\ forall x, x ∈ calls <-> dry_run = false /\ exists d a, d ∈ rl_list desired /\ get actual (key d) = Some a
         /\ planned (r_kind a) = true /\ x = Call (delete_change a) None.
Proof.
  intros Hl Hs. unfold delete_declared. rewrite Hl, Hs. cbn [or_invalid or_snapshot]. pose proof (load_ok _ _ _ Hl) as (Hd & _).
  assert (Hok : set_ok actual) by (unfold snapshot in Hs; apply rbind_ok_inv in Hs as (l & _ & [= <-]); apply snapshot_of_ok).
  set (targets := omap _ _). assert (El : rl_list (snapshot_of targets) = targets).
  { apply snapshot_of_distinct. unfold targets. generalize (so_keys _ Hd). generalize (rl_list desired).
    induction l as [|d l IH]; cbn; [by constructor|]. intros [Hn1 Hn2]%NoDup_cons. destruct (get actual (key d)) as [a|] eqn:Eg; [|by apply IH].
    cbn. apply NoDup_cons. split; [|by apply IH]. intros (a' & Ek & (d' & Hd' & Eg')%list_elem_of_omap)%list_elem_of_fmap.
    apply get_spec in Eg as [_ E1]; [|done]. apply get_spec in Eg' as [_ E2]; [|done]. apply Hn1, list_elem_of_fmap. exists d'. split; [congruence|done]. }
  destruct dry_run; [eexists w, [], _; split; [done|]; intros x; rewrite elem_of_nil; naive_solver|].
  unfold run_deletes. rewrite empty_plan_deletes. eexists _, _, _. split; [reflexivity|]. intros x. rewrite run_changes_calls, list_elem_of_fmap. split.
  - intros (c & -> & (a & Hin & Hk & _ & ->)%empty_plan). rewrite El in Hin. apply list_elem_of_omap in Hin as (d & Hdin & Hg). eauto 10.
  - intros (_ & d & a & Hdin & Hg & Hk & ->). exists (delete_change a). split; [done|]. apply empty_plan. exists a. rewrite El.
    split_and!; [|done|by left|done]. apply list_elem_of_omap. eauto.
Qed.

(** Applying, or deleting, one resource asks the services for nothing but that resource: at most
    one change, of its kind and name; deleting asks for nothing when it is not live. *)
Lemma one_resource_runs (w : W) (manifests : list resource) (opts : options) (k : kind) (name : string) :
  (let '(_, calls, _) := apply_resource cron_ok w manifests opts k name in
   (length calls <= 1)%nat /\ forall x, x ∈ calls -> change_key (cl_change x) = key_of k name)
  /\ (let '(_, calls, r) := delete_resource w k name in
      (length calls <= 1)%nat /\ (forall x, x ∈ calls -> cl_change x = Change ActionDelete k name "" [])
      /\ forall actual, snapshot w = Ok actual -> get actual (key_of k name) = None -> calls = []).
Proof.
  split.
  - unfold apply_resource. destruct (plan_run cron_ok w manifests opts) as [[p desired]|]; [|by split; [cbn; lia|intros x ?%elem_of_nil]].
    destruct (find_first _ p) as [c|] eqn:Ef; [|by split; [cbn; lia|intros x ?%elem_of_nil]]. apply find_first_some in Ef as [_ Ek].
    destruct (negb (is_change c)); [by split; [cbn; lia|intros x ?%elem_of_nil]|]. unfold run_change.
    destruct (bk_execute _ _ _ _ _) as [w' [[]|e]]; cbn [rs_calls start_run app]; (split; [cbn; lia|]);
      intros x ->%list_elem_of_singleton; by apply String.eqb_eq.
  - unfold delete_resource. destruct (or_snapshot (snapshot w)) as [actual|] eqn:Es; [|by split_and!; [cbn; lia|intros x ?%elem_of_nil|]].
    destruct (get actual (key_of k name)) eqn:Eg; [|by split_and!; [cbn; lia|intros x ?%elem_of_nil|]]. unfold run_change.
    destruct (bk_execute _ _ _ _ _) as [w' [[]|e]]; cbn [rs_calls start_run app]; (split_and!; [cbn; lia|by intros x ->%list_elem_of_singleton|]);
      intros a Ha Hn; rewrite Ha in Es; injection Es as ->; congruence.
Qed.
End Claims.

(** ** Concrete runs *)

(** A workspace as a list of resources, some of whose names no service can change *)
Record demo_world := DemoWorld { dw_live : list resource; dw_broken : list string }.
Definition demo_execute (w : demo_world) (ctx : run_context) (c : change) (dr : option resource) (set : option resource_set)
    : demo_world * result string unit :=
  if mem (ch_name c) (dw_broken w) then (w, Err "refused")
  else
    let others := List.filter (fun r => negb (String.eqb (key r) (change_key c))) (dw_live w) in
    match ch_action c, dr with
    | ActionDelete, _ => (DemoWorld others (dw_broken w), Ok tt)
    | ActionNoop, _ | _, None => (w, Ok tt)
    | _, Some r =>
        let m := tag_source (rx_source ctx) (<[meta_managed_by := owner_of (rx_source ctx)]> ∅) in
        (DemoWorld (others ++ [Resource (r_kind r) (Meta (r_name r) (r_uid r) m ∅) (r_spec r)]) (dw_broken w), Ok tt)
    end.
#[export] Instance demo_backend : Backend demo_world := {|
  bk_list w := Ok (dw_live w);
  bk_render _ s := s;
  bk_databases _ := ∅; bk_secrets _ := ∅; bk_applications _ := ∅;
  bk_check_locations _ _ _ _ := Ok tt;
  bk_execute := demo_execute;
  bk_link_databases w _ := w;
  bk_failed_jobs _ _ := [] |}.
#[export] Instance demo_render_laws : RenderLaws demo_world.
Proof. by split. Qed.

Definition demo_vol (name size : string) : resource := Resource kind_volume (Meta name "" ∅ ∅) (SVolume (VolumeSpec size "" None)).
Definition demo_owned (name size source : string) : resource :=
  Resource kind_volume (Meta name "" (<[label_managed_by := managed_by_gitops]> (<[label_gitops_source := source]> ∅)) ∅)
    (SVolume (VolumeSpec size "" None)).
(** Two projects' volumes, one of an apply, and one of nobody *)
Definition demo_live_world : demo_world :=
  DemoWorld [demo_owned "a" "1Gi" "1"; demo_owned "b" "1Gi" "1"; demo_owned "c" "1Gi" "2";
             Resource kind_volume (Meta "d" "" (<[label_managed_by := managed_by_apply]> ∅) ∅) (SVolume (VolumeSpec "1Gi" "" None));
             demo_vol "e" "1Gi"] ["b"].
Definition demo_opts (source : string) : options := Options true source false true true false.
Definition any_cron (_ : string) : bool := true.

Lemma ok_exists {E A} (r : result E A) : is_ok r = true -> exists a, r = Ok a.
Proof. destruct r; [by eexists|done]. Qed.

Definition shown (x : demo_world * list call * result apply_err apply_result) : list (action * string) * option (Z * list string) :=
  ((fun c => (ch_action (cl_change c), ch_name (cl_change c))) <$> x.1.2,
   match x.2 with Ok r => Some (ar_applied r, fl_name <$> ar_failures r) | Err _ => None end).

Lemma demo_snapshot : snapshot demo_live_world = Ok (snapshot_of (dw_live demo_live_world)).
Proof. reflexivity. Qed.

Lemma one_shot_leaves_projects_alone_witness :
  shown (apply any_cron demo_live_world [demo_vol "e" "2Gi"] (demo_opts ""))
    = ([(ActionDelete, "d"); (ActionUpdate, "e")], Some (2, []))
  /\ shown (apply any_cron demo_live_world [demo_vol "a" "2Gi"] (demo_opts "")) = ([], None)
  /\ forall w' calls r live, apply any_cron demo_live_world [demo_vol "e" "2Gi"] (demo_opts "") = (w', calls, r) ->
       Call (delete_change (demo_vol "d" "1Gi")) None ∈ calls -> get (snapshot_of (dw_live demo_live_world)) "Volume/d" = Some live ->
       label live label_managed_by = managed_by_apply.
Proof.
  split; [by vm_compute|]. split; [by vm_compute|]. intros w' calls r live E Hin Hl.
  apply (one_shot_leaves_projects_alone any_cron _ _ _ (demo_opts "") _ _ _ _ live eq_refl eq_refl E demo_snapshot Hin Hl). reflexivity.
Defined.

(** Tearing down a project of which one volume cannot be deleted *)
Lemma teardown_exact_witness :
  shown (teardown demo_live_world "1") = ([(ActionDelete, "a"); (ActionDelete, "b")], Some (1, ["b"]))
  /\ exists w' calls r, teardown demo_live_world "1" = (w', calls, Ok r) /\ NoDup calls.
Proof.
  split; [by vm_compute|]. pose proof (teardown_exact demo_live_world "1") as H. rewrite demo_snapshot in H.
  destruct H as (w' & calls & r & E & Hn & _). exists w', calls, r. split; [exact E|exact Hn].
Defined.
(** A sealed secret over a project's plain one of that name is not refused: the change is under another kind than what it finds. *)
Definition demo_secret : resource :=
  Resource kind_secret (Meta "token" "" (<[label_managed_by := managed_by_gitops]> (<[label_gitops_source := "1"]> ∅)) ∅) (SSecret (SecretSpec "s3cret" false 0 None 0 0)).
Definition demo_sealed : string := sealed_prefix +:+ "1:AQID".
Example sealed_takes_over_project_secret :
  shown (apply any_cron (DemoWorld [demo_secret] [])
    [Resource kind_sealed_secret (Meta "token" "" ∅ ∅) (SSealedSecret (SealedSecretSpec demo_sealed "f1"))] (demo_opts ""))
  = ([(ActionUpdate, "token")], Some (1, [])).
Proof. by vm_compute. Qed.

(** A declared resource that is live as declared has no change in the plan of an apply, so applying it alone fails as
    if it were not declared. *)
Lemma in_sync_resource_not_found :
  (apply_resource any_cron demo_live_world [demo_vol "a" "1Gi"] (demo_opts "1") kind_volume "a").2 = Err (ErrResourceNotFound "Volume/a").
Proof. by vm_compute. Qed.

(** Deleting one resource takes it whoever manages it. *)
Lemma delete_resource_takes_any :
  shown (delete_resource demo_live_world kind_volume "c") = ([(ActionDelete, "c")], Some (1, []))
  /\ shown (delete_resource demo_live_world kind_volume "e") = ([(ActionDelete, "e")], Some (1, [])).
Proof. by vm_compute. Qed.
