(* ===== verification/GitOps.v ===== *)
(** * GitOps projects

    [internal/services/gitops/gitops.go] and [internal/services/apply/gitsource.go]: the sources of a workspace, how one
    is reconciled with its repository, what a sync of one resource does, and the nesting of projects that declare
    projects. Cloning and credentials are arguments; the rows live in a store ([SourceStore]) beside what a run
    changes ([Backend], of ApplyRun). A bundle is the list of resources it decodes to. *)
From S2P Require Import Prelude GoStrings GoText ManifestTypes ManifestSpec ManifestPlan ManifestRefs ApplyRun.
#[local] Open Scope Z_scope.
#[local] Open Scope list_scope.

(** ** Sources *)

Definition sync_manual : string := "manual".
Definition sync_auto : string := "auto".
Inductive source_status := SourceUnknown | SourceSynced | SourceOutOfSync | SourceProgressing | SourceError | SourceDegraded.

Record git_source := GitSource {
  src_id : N; src_workspace : N; src_name : string; src_display_name : string; src_repo_url : string; src_ref : string;
  src_path : string; src_repository : option N; src_policy : string; src_prune : bool; src_self_heal : bool;
  src_allow_empty : bool; src_require_sealed : bool; src_delete_policy : string; src_metadata : gmap string string;
  src_annotations : gmap string string; src_webhook_secret : string; src_status : source_status; src_message : string;
  src_synced_commit : string; src_synced_author : string; src_synced_subject : string; src_synced_at : option Z;
  src_checked_commit : string; src_checked_at : option Z }.

(** The writes of single fields *)
Definition with_status (st : source_status) (msg : string) (s : git_source) : git_source :=
  GitSource (src_id s) (src_workspace s) (src_name s) (src_display_name s) (src_repo_url s) (src_ref s) (src_path s)
    (src_repository s) (src_policy s) (src_prune s) (src_self_heal s) (src_allow_empty s) (src_require_sealed s)
    (src_delete_policy s) (src_metadata s) (src_annotations s) (src_webhook_secret s) st msg
    (src_synced_commit s) (src_synced_author s) (src_synced_subject s) (src_synced_at s) (src_checked_commit s) (src_checked_at s).
Definition with_declared (policy : string) (m a : gmap string string) (s : git_source) : git_source :=
  GitSource (src_id s) (src_workspace s) (src_name s) (src_display_name s) (src_repo_url s) (src_ref s) (src_path s)
    (src_repository s) (src_policy s) (src_prune s) (src_self_heal s) (src_allow_empty s) (src_require_sealed s)
    policy m a (src_webhook_secret s) (src_status s) (src_message s)
    (src_synced_commit s) (src_synced_author s) (src_synced_subject s) (src_synced_at s) (src_checked_commit s) (src_checked_at s).

Record commit_info := CommitInfo { ci_hash : string; ci_author : string; ci_subject : string }.
(** [recordSync] *)
Definition record_sync (ci : commit_info) (applied now : Z) (s : git_source) : git_source :=
  if applied <=? 0 then s
  else GitSource (src_id s) (src_workspace s) (src_name s) (src_display_name s) (src_repo_url s) (src_ref s) (src_path s)
    (src_repository s) (src_policy s) (src_prune s) (src_self_heal s) (src_allow_empty s) (src_require_sealed s)
    (src_delete_policy s) (src_metadata s) (src_annotations s) (src_webhook_secret s) (src_status s) (src_message s)
    (ci_hash ci) (ci_author ci) (ci_subject ci) (Some now) (src_checked_commit s) (src_checked_at s).
(** [markChecked] *)
Definition mark_checked (hash : string) (now : Z) (s : git_source) : git_source :=
  GitSource (src_id s) (src_workspace s) (src_name s) (src_display_name s) (src_repo_url s) (src_ref s) (src_path s)
    (src_repository s) (src_policy s) (src_prune s) (src_self_heal s) (src_allow_empty s) (src_require_sealed s)
    (src_delete_policy s) (src_metadata s) (src_annotations s) (src_webhook_secret s) (src_status s) (src_message s)
    (src_synced_commit s) (src_synced_author s) (src_synced_subject s) (src_synced_at s)
    (if missing hash then src_checked_commit s else hash) (Some now).

Definition source_label (s : git_source) : string := itoa (Z.of_N (src_id s)).
Definition source_options (s : git_source) (check_references : bool) : options :=
  Options (src_prune s) (source_label s) false check_references (src_require_sealed s) false.

(** The table of sources, inside whatever else a state holds. [sst_put] is gorm's [Save]: it writes the whole row, and
    inserts it when it is not there. *)
Class SourceStore (S : Type) := {
  sst_rows : S -> gmap N git_source;
  sst_put : S -> git_source -> S;
  sst_remove : S -> N -> S }.
Class SourceStoreLaws (S : Type) `{SourceStore S} := {
  rows_put : forall s r, sst_rows (sst_put s r) = <[src_id r := r]> (sst_rows s);
  rows_remove : forall s i, sst_rows (sst_remove s i) = delete i (sst_rows s) }.

(** A Git credential of the workspace *)
Record git_repo := GitRepo { gp_id : N; gp_workspace : N; gp_name : string; gp_url : string }.

(** ** Input *)

Record source_input := SourceInput {
  in_name : string; in_display_name : string; in_repo_url : string; in_ref : string; in_path : string;
  in_repository : option N; in_policy : string; in_prune : bool; in_self_heal : bool; in_allow_empty : bool; in_require_sealed : bool }.
Definition default_ref : string := "main".
(** [Input.normalize] *)
Definition normalize_input (i : source_input) : source_input :=
  SourceInput (trim_space (in_name i)) (in_display_name i) (trim_space (in_repo_url i))
    (or_else (trim_space (in_ref i)) default_ref) (or_else (trim_space (in_path i)) ".") (in_repository i)
    (if String.eqb (in_policy i) sync_auto then sync_auto else sync_manual)
    (in_prune i) (in_self_heal i) (in_allow_empty i) (in_require_sealed i).

(** [slug.Make]: runs of what is not a letter or digit become one dash; none at the ends. Names are ASCII. *)
Fixpoint slug_body (pending : bool) (s : string) : string :=
  match s with
  | EmptyString => ""
  | String c s =>
      if is_slug c then (if pending then String "-" (String c (slug_body false s)) else String c (slug_body false s))
      else slug_body true s
  end.
Fixpoint slug_start (s : string) : string :=
  match s with
  | EmptyString => ""
  | String c s' => if is_slug c then slug_body false s else slug_start s'
  end.
Definition make_slug (name fallback : string) : string := or_else (slug_start (to_lower (trim_space name))) fallback.

Inductive gitops_err :=
| ErrSourceNotFound | ErrNameTaken | ErrNameRequired | ErrURLRequired | ErrRepoNotFound
| ErrRestricted (why : string) | ErrFetch (why : string) | ErrChangesFailed (n : Z) (why : string) | ErrApply (e : apply_err)
| ErrManifest (why : string).

(** ** Nesting ([apply/gitsource.go]) *)

Definition max_git_source_depth : nat := 3.
(** [ancestry]'s [parentOf]: the source a project is declared from *)
Definition parents (sources : list git_source) : gmap string string :=
  foldl (fun m s => <[source_label s := value (src_metadata s) meta_gitops_source]> m) ∅ sources.
Fixpoint ancestry_loop (fuel : nat) (parent_of : gmap string string) (chain : list string) (id : string) : list string :=
  match fuel with
  | O => chain
  | S fuel => if missing id || mem id chain then chain else ancestry_loop fuel parent_of (chain ++ [id]) (value parent_of id)
  end.
(** [ancestry]: a turn names a project not named before, so there are at most one more than there are projects, and one
    turn to stop. *)
Definition ancestry (sources : list git_source) (owner : string) : list string :=
  ancestry_loop (length sources + 2) (parents sources) [] owner.

(** [checkNesting] *)
Definition check_nesting (sources : list git_source) (owner : string) (live : option git_source) : result string unit :=
  if missing owner then Ok tt
  else
    let chain := ancestry sources owner in
    if match live with Some s => mem (source_label s) chain | None => false end
    then Err "is this project or one of its parents, so declaring it here would loop"
    else if (max_git_source_depth <=? length chain)%nat then Err "would nest projects too deep"
    else Ok tt.

(** User keys never replace the platform's ([models/metadata.go]). *)
Definition is_reserved_key (k : string) : bool := has_prefix "miabi.io/" k.
Definition sanitize_user (m : gmap string string) : gmap string string := filter (fun kv => is_reserved_key kv.1 = false) m.
Definition merge_user (current overlay : gmap string string) : gmap string string :=
  sanitize_user overlay ∪ filter (fun kv => is_reserved_key kv.1 = true) current.

Section GitOps.
Context {S : Type} `{SourceStore S} `{Backend S} (cron_ok : string -> bool).
(** The workspace's credentials and a fresh id and webhook secret, the restriction of a workspace, and the clone of a
    source: the commit checked out and the manifest files under its path, [None] when there is no such path. *)
Context (repos : list git_repo) (fresh : S -> N) (webhook_secret : string) (restricted : option (N -> option string))
  (checkout : git_source -> string -> result string (commit_info * option (list (string * list resource))))
  (auth_for : git_repo -> result string unit).

Definition find_repo (ws id : N) : option git_repo := find_first (fun g => (gp_id g =? id)%N && (gp_workspace g =? ws)%N) repos.
Definition find_repo_by_name (ws : N) (name : string) : option git_repo :=
  find_first (fun g => String.eqb (gp_name g) name && (gp_workspace g =? ws)%N) repos.

(** [get]; [FindByID] *)
Definition get_source (s : S) (ws id : N) : option git_source :=
  match sst_rows s !! id with Some r => if (src_workspace r =? ws)%N then Some r else None | None => None end.
Definition sources_of (s : S) (ws : N) : list git_source :=
  List.filter (fun r => (src_workspace r =? ws)%N) (map_to_list (sst_rows s)).*2.

(** [Create] *)
Definition create (s : S) (ws : N) (i : source_input) : S * result gitops_err git_source :=
  let i := normalize_input i in
  let name := make_slug (in_name i) "" in
  if missing name then (s, Err ErrNameRequired)
  else
    let display := or_else (trim_space (in_display_name i)) (trim_space (in_name i)) in
    match match in_repository i with
          | Some id => match find_repo ws id with Some g => Ok (gp_url g) | None => Err ErrRepoNotFound end
          | None => Ok (in_repo_url i)
          end with
    | Err e => (s, Err e)
    | Ok url =>
        if missing url then (s, Err ErrURLRequired)
        else if existsb (fun r => String.eqb (src_name r) name) (sources_of s ws) then (s, Err ErrNameTaken)
        else
          let r := GitSource (fresh s) ws name display url (in_ref i) (in_path i) (in_repository i) (in_policy i) (in_prune i)
                     (in_self_heal i) (in_allow_empty i) (in_require_sealed i) delete_policy_orphan ∅ ∅ webhook_secret
                     SourceUnknown "" "" "" "" None "" None in
          (sst_put s r, Ok r)
    end.

(** [Update] *)
Definition updated (r : git_source) (url : string) (i : source_input) : git_source :=
  GitSource (src_id r) (src_workspace r) (src_name r) (src_display_name r) url
    (or_else (in_ref i) (src_ref r)) (or_else (in_path i) (src_path r)) (in_repository i) (in_policy i) (in_prune i)
    (in_self_heal i) (in_allow_empty i) (in_require_sealed i) (src_delete_policy r) (src_metadata r) (src_annotations r)
    (src_webhook_secret r) (src_status r) (src_message r) (src_synced_commit r) (src_synced_author r) (src_synced_subject r)
    (src_synced_at r) (src_checked_commit r) (src_checked_at r).
Definition update (s : S) (ws id : N) (i : source_input) : S * result gitops_err git_source :=
  match get_source s ws id with
  | None => (s, Err ErrSourceNotFound)
  | Some r =>
      let i := normalize_input i in
      match match in_repository i with
            | Some g => match find_repo ws g with Some g => Ok (gp_url g) | None => Err ErrRepoNotFound end
            | None => Ok (or_else (in_repo_url i) (src_repo_url r))
            end with
      | Err e => (s, Err e)
      | Ok url => let r := updated r url i in (sst_put s r, Ok r)
      end
  end.

(** [Delete] *)
Definition delete_source (s : S) (ws id : N) (cascade : bool) : S * list call * result gitops_err (option apply_result) :=
  match get_source s ws id with
  | None => (s, [], Err ErrSourceNotFound)
  | Some r =>
      if cascade then
        let '(s, calls, res) := teardown s (source_label r) in
        match res with
        | Err e => (s, calls, Err (ErrApply e))
        | Ok res => (sst_remove s id, calls, Ok (Some res))
        end
      else (sst_remove s id, [], Ok None)
  end.
(** [Remove] *)
Definition remove (s : S) (ws id : N) : S * list call * result gitops_err (option apply_result) :=
  match get_source s ws id with
  | None => (s, [], Err ErrSourceNotFound)
  | Some r => delete_source s ws id (String.eqb (src_delete_policy r) delete_policy_cascade)
  end.

(** [Declare], without the sync it starts in the background *)
Definition declare (s : S) (ws : N) (id : option N) (i : source_input) (repository policy : string) (m a : gmap string string)
    : S * result gitops_err git_source :=
  match (if missing repository then Ok (in_repository i)
         else match find_repo_by_name ws repository with
              | Some g => Ok (Some (gp_id g))
              | None => Err (ErrManifest "unknown git repository")
              end) with
  | Err e => (s, Err e)
  | Ok g =>
      let i := SourceInput (in_name i) (in_display_name i) (in_repo_url i) (in_ref i) (in_path i) g (in_policy i) (in_prune i)
                 (in_self_heal i) (in_allow_empty i) (in_require_sealed i) in
      let '(s, r) := match id with None => create s ws i | Some id => update s ws id i end in
      match r with
      | Err e => (s, Err e)
      | Ok r => let r := with_declared policy m a r in (sst_put s r, Ok r)
      end
  end.

(** [applyGitSource]: what executes a change of kind GitSource. The live source is the one of that name. *)
Definition live_source (s : S) (ws : N) (name : string) : option git_source :=
  List.last (Some <$> List.filter (fun r => String.eqb (src_name r) name) (sources_of s ws)) None.
Definition input_of (name : string) (g : git_source_spec) : source_input :=
  SourceInput name "" (gs_repo g) (gs_ref g) (gs_path g) None (gs_sync_policy g) (gs_prune g) (gs_self_heal g) (gs_allow_empty g)
    (gs_require_sealed g).
Definition apply_git_source (s : S) (ws : N) (owner : string) (c : change) (m : meta) (g : git_source_spec)
    : S * list call * result gitops_err unit :=
  let live := live_source s ws (ch_name c) in
  match ch_action c with
  | ActionDelete =>
      match live with
      | None => (s, [], Ok tt)
      | Some r => let '(s, calls, res) := remove s ws (src_id r) in (s, calls, match res with Ok _ => Ok tt | Err e => Err e end)
      end
  | _ =>
      if bool_decide (ch_action c = ActionUpdate) && negb (stated live)
      then (s, [], Err (ErrManifest "a project's name can't change after creation"))
      else match check_nesting (sources_of s ws) owner live with
           | Err e => (s, [], Err (ErrManifest e))
           | Ok _ =>
               let meta := match live with
                           | None => tag_source owner (<[meta_managed_by := owner_of owner]> (sanitize_user (mt_labels m)))
                           | Some r => claim owner (merge_user (src_metadata r) (mt_labels m))
                           end in
               let '(s, r) := declare s ws (src_id <$> live) (input_of (ch_name c) g) (gs_repository g) (gs_delete_policy g)
                                meta (mt_annotations m) in
               (s, [], match r with Ok _ => Ok tt | Err e => Err e end)
           end
  end.

(** ** Fetching *)

(** The URL of [auth]; a credential that cannot be read, or used, is an error. *)
Definition clone_url (r : git_source) : result string string :=
  match src_repository r with
  | None => Ok (src_repo_url r)
  | Some id =>
      match find_repo (src_workspace r) id with
      | None => Err "git credential"
      | Some g => let? _ := auth_for g in Ok (or_else (src_repo_url r) (gp_url g))
      end
  end.
(** [fetch]: a missing path is an error, and so are manifests without resources, unless the source allows them. *)
Definition fetch (r : git_source) : result string (list resource * commit_info) :=
  let? url := clone_url r in
  let? co := checkout r url in
  match co.2 with
  | None => Err "manifest path not found"
  | Some files =>
      match load_files cron_ok files with
      | Ok set => Ok (rl_list set, co.1)
      | Err e =>
          if String.eqb e err_no_resources then
            if src_allow_empty r then Ok ([], co.1) else Err "no manifests found; refusing to remove resources"
          else Err e
      end
  end.

(** ** Reconciling *)

Definition mark_error (now : Z) (s : S) (r : git_source) (e : gitops_err) (why : string) : S * git_source * result gitops_err unit :=
  let r := with_status SourceError why (mark_checked "" now r) in
  (sst_put s r, r, Err e).

(** [Reconcile] up to the write that says it has begun, and after it: the row written in the end is the one read in
    the beginning. *)
Definition begin_reconcile (s : S) (r : git_source) : S * git_source := let r := with_status SourceProgressing "" r in (sst_put s r, r).
Definition finish_reconcile (now : Z) (s : S) (r : git_source) : S * list call * git_source * result gitops_err unit :=
  match fetch r with
  | Err e => let '(s, r, out) := mark_error now s r (ErrFetch e) ("fetch: " +:+ e) in (s, [], r, out)
  | Ok (bundle, ci) =>
      let r := mark_checked (ci_hash ci) now r in
      let '(s, calls, res) := apply cron_ok s bundle (source_options r false) in
      match res with
      | Err e => let '(s, r, out) := mark_error now s r (ErrApply e) (apply_err_text e) in (s, calls, r, out)
      | Ok res =>
          match ar_failures res with
          | f :: _ =>
              let n := Z.of_nat (length (ar_failures res)) in
              let '(s, r, out) := mark_error now s r (ErrChangesFailed n (fl_error f)) (itoa n +:+ " change(s) failed: " +:+ fl_error f) in
              (s, calls, r, out)
          | [] =>
              let r := match ar_failed_jobs res with
                       | [] => with_status SourceSynced "" r
                       | jobs => with_status SourceDegraded ("last run failed for job " +:+ join ", " jobs) r
                       end in
              let r := record_sync ci (ar_applied res) now r in
              (sst_put s r, calls, r, Ok tt)
          end
      end
  end.
Definition reconcile (now : Z) (s : S) (r : git_source) : S * list call * git_source * result gitops_err unit :=
  match match restricted with Some f => f (src_workspace r) | None => None end with
  | Some why => (s, [], r, Err (ErrRestricted why))
  | None => let '(s, r) := begin_reconcile s r in finish_reconcile now s r
  end.

(** [Sync]; [SyncByID] *)
Definition sync (now : Z) (s : S) (ws id : N) : S * list call * result gitops_err unit :=
  match get_source s ws id with
  | None => (s, [], Err ErrSourceNotFound)
  | Some r => let '(s, calls, _, out) := reconcile now s r in (s, calls, out)
  end.
Definition sync_by_id (now : Z) (s : S) (id : N) : S * list call * result gitops_err unit :=
  match sst_rows s !! id with
  | None => (s, [], Err ErrSourceNotFound)
  | Some r => let '(s, calls, _, out) := reconcile now s r in (s, calls, out)
  end.
(** [ReconcileAuto]: a source that fails is logged, and the sweep goes on. *)
Definition list_auto (s : S) : list git_source := List.filter (fun r => String.eqb (src_policy r) sync_auto) (map_to_list (sst_rows s)).*2.
Definition auto_step (now : Z) (acc : S * list (N * list call)) (r : git_source) : S * list (N * list call) :=
  let '(s, calls, _, _) := reconcile now acc.1 r in (s, acc.2 ++ [(src_id r, calls)]).
Definition reconcile_auto (now : Z) (s : S) : S * list (N * list call) := foldl (auto_step now) (s, []) (list_auto s).

(** [SyncResource] *)
Definition sync_resource (s : S) (ws id : N) (k : kind) (name : string) : S * list call * result gitops_err apply_result :=
  match get_source s ws id with
  | None => (s, [], Err ErrSourceNotFound)
  | Some r =>
      match fetch r with
      | Err e => (s, [], Err (ErrFetch e))
      | Ok (bundle, _) =>
          let '(s, calls, res) := apply_resource cron_ok s bundle (source_options r false) k name in
          (s, calls, match res with Ok x => Ok x | Err e => Err (ErrApply e) end)
      end
  end.
(** [DeleteResource] of the project, and [Diff] *)
Definition delete_project_resource (s : S) (ws id : N) (k : kind) (name : string) : S * list call * result gitops_err apply_result :=
  match get_source s ws id with
  | None => (s, [], Err ErrSourceNotFound)
  | Some _ => let '(s, calls, res) := delete_resource s k name in (s, calls, match res with Ok x => Ok x | Err e => Err (ErrApply e) end)
  end.
Definition diff (s : S) (ws id : N) : result gitops_err plan :=
  match get_source s ws id with
  | None => Err ErrSourceNotFound
  | Some r =>
      match fetch r with
      | Err e => Err (ErrFetch e)
      | Ok (bundle, _) => match plan_run cron_ok s bundle (source_options r true) with Ok (p, _) => Ok p | Err e => Err (ErrApply e) end
      end
  end.
End GitOps.

(** * Facts *)

(** ** Ancestry *)

Definition parent_step (parent_of : gmap string string) (a b : string) : Prop := a <> "" /\ b <> "" /\ value parent_of a = b.

(** What is left to be named *)
Definition unnamed (parent_of : gmap string string) (chain : list string) : nat := size (dom parent_of ∖ list_to_set chain).

Lemma unnamed_step parent_of chain id : ~ id ∈ chain -> id ∈ dom parent_of -> (unnamed parent_of (chain ++ [id]) < unnamed parent_of chain)%nat.
Proof.
  intros Hn Hd. unfold unnamed. apply subset_size. rewrite list_to_set_app_L. cbn. set_solver.
Qed.

Lemma value_absent parent_of id : ~ id ∈ dom parent_of -> value parent_of id = "".
Proof. intros Hn%not_elem_of_dom. unfold value. by rewrite Hn. Qed.

Lemma ancestry_loop_stop fuel parent_of chain id : id = "" \/ id ∈ chain -> ancestry_loop fuel parent_of chain id = chain.
Proof.
  intros Hs. destruct fuel; [done|]. cbn. destruct Hs as [->|Hs]; [done|].
  assert (Hm : mem id chain = true) by by apply mem_spec. by rewrite Hm, orb_true_r.
Qed.

Lemma ancestry_loop_go fuel parent_of chain id : id <> "" -> ~ id ∈ chain ->
  ancestry_loop (S fuel) parent_of chain id = ancestry_loop fuel parent_of (chain ++ [id]) (value parent_of id).
Proof.
  intros Hn Hc. cbn. unfold missing. destruct (String.eqb_spec id ""); [done|]. cbn.
  destruct (mem id chain) eqn:Em; [by apply mem_spec in Em|done].
Qed.

Lemma ancestry_loop_fuel n parent_of : forall m chain id, (unnamed parent_of chain + 2 <= n)%nat -> (unnamed parent_of chain + 2 <= m)%nat ->
  ancestry_loop n parent_of chain id = ancestry_loop m parent_of chain id.
Proof.
  induction n as [|n IH]; intros m chain id Hn Hm; [lia|]. destruct m as [|m]; [lia|].
  destruct (decide (id = "" \/ id ∈ chain)) as [Hs|Hs]; [by rewrite !ancestry_loop_stop|].
  rewrite !ancestry_loop_go by tauto. destruct (decide (id ∈ dom parent_of)) as [Hd|Hd].
  - pose proof (unnamed_step parent_of chain id ltac:(tauto) Hd). apply IH; lia.
  - rewrite (value_absent _ _ Hd). by rewrite !ancestry_loop_stop by by left.
Qed.

(** The loop returns what is reachable from the project it starts at. *)
Lemma ancestry_loop_reach n parent_of owner : forall chain id, (unnamed parent_of chain + 2 <= n)%nat ->
  (forall y, y ∈ chain -> y <> "" /\ rtc (parent_step parent_of) owner y) ->
  (forall y z, y ∈ chain -> parent_step parent_of y z -> z ∈ chain \/ z = id) ->
  (id = "" \/ rtc (parent_step parent_of) owner id) -> (owner ∈ chain \/ owner = id) -> owner <> "" ->
  forall x, x ∈ ancestry_loop n parent_of chain id <-> rtc (parent_step parent_of) owner x.
Proof.
  induction n as [|n IH]; intros chain id Hn Hr Hc Hid Ho Hne x; [lia|].
  destruct (decide (id = "" \/ id ∈ chain)) as [Hs|Hs].
  - rewrite ancestry_loop_stop by done. split; [by intros [_ Hx]%Hr|]. intros Hx.
    assert (Hcl : forall y z, y ∈ chain -> parent_step parent_of y z -> z ∈ chain).
    { intros y z Hy Hyz. destruct (Hc y z Hy Hyz) as [| ->]; [done|]. destruct Hs as [->|]; [|done]. by destruct Hyz as (_ & Hz & _). }
    assert (Ho' : owner ∈ chain) by (destruct Ho as [| ->]; [done|]; by destruct Hs as [->|]).
    clear -Hx Hcl Ho'. induction Hx as [|a b c Hab _ IHx]; [done|]. by apply IHx, (Hcl a b).
  - rewrite ancestry_loop_go by tauto. destruct Hid as [->|Hid]; [tauto|].
    assert (Hnx : value parent_of id = "" \/ parent_step parent_of id (value parent_of id)).
    { destruct (decide (value parent_of id = "")); [by left|]. right. split_and!; [tauto|done|done]. }
    destruct (decide (id ∈ dom parent_of)) as [Hd|Hd].
    + apply IH; [pose proof (unnamed_step parent_of chain id ltac:(tauto) Hd); lia| | | | |done].
      * intros y [Hy| ->%list_elem_of_singleton]%elem_of_app; [by apply Hr|]. split; [tauto|done].
      * intros y z [Hy| ->%list_elem_of_singleton]%elem_of_app Hyz.
        { destruct (Hc y z Hy Hyz) as [| ->]; left; apply elem_of_app; [by left|right; by apply list_elem_of_singleton]. }
        right. by destruct Hyz as (_ & _ & <-).
      * destruct Hnx as [|Hnx]; [by left|right]. by eapply rtc_r.
      * left. apply elem_of_app. destruct Ho as [| ->]; [by left|right; by apply list_elem_of_singleton].
    + rewrite (value_absent _ _ Hd), ancestry_loop_stop by by left. split.
      * intros [[_ Hx]%Hr| ->%list_elem_of_singleton]%elem_of_app; done.
      * intros Hx. assert (Hcl : forall y z, y ∈ chain ++ [id] -> parent_step parent_of y z -> z ∈ chain ++ [id]).
        { intros y z [Hy| ->%list_elem_of_singleton]%elem_of_app Hyz.
          - apply elem_of_app. destruct (Hc y z Hy Hyz) as [| ->]; [by left|right; by apply list_elem_of_singleton].
          - destruct Hyz as (_ & Hz & E). rewrite (value_absent _ _ Hd) in E. by subst z. }
        assert (Ho' : owner ∈ chain ++ [id]) by (apply elem_of_app; destruct Ho as [| ->]; [by left|right; by apply list_elem_of_singleton]).
        clear -Hx Hcl Ho'. induction Hx as [|a b c Hab _ IHx]; [done|]. by apply IHx, (Hcl a b).
Qed.

Lemma size_list_le (l : list string) : (size (list_to_set l : gset string) <= length l)%nat.
Proof.
  induction l as [|x l IH]; cbn; [by rewrite size_empty|]. rewrite size_union_alt, size_singleton.
  assert (Hs : (size ((list_to_set l : gset string) ∖ {[x]}) <= size (list_to_set l : gset string))%nat) by (apply subseteq_size; set_solver). lia.
Qed.

Lemma parents_dom sources : dom (parents sources) = list_to_set (source_label <$> sources).
Proof.
  unfold parents. assert (Hg : forall m : gmap string string, dom (foldl (fun m s => <[source_label s := value (src_metadata s) meta_gitops_source]> m) m sources)
    = dom m ∪ list_to_set (source_label <$> sources)); [|rewrite Hg; set_solver].
  induction sources as [|s l IH]; intros m; cbn; [set_solver|]. rewrite IH. set_solver.
Qed.

Lemma unnamed_bound sources chain : (unnamed (parents sources) chain <= length sources)%nat.
Proof.
  unfold unnamed. rewrite parents_dom. pose proof (size_list_le (source_label <$> sources)) as Hl. rewrite length_fmap in Hl.
  assert (Hs : (size ((list_to_set (source_label <$> sources) : gset string) ∖ list_to_set chain)
                <= size (list_to_set (source_label <$> sources) : gset string))%nat) by (apply subseteq_size; set_solver). lia.
Qed.

Lemma ancestry_elem sources owner x : owner <> "" -> x ∈ ancestry sources owner <-> rtc (parent_step (parents sources)) owner x.
Proof.
  intros Hne. unfold ancestry. apply ancestry_loop_reach; [pose proof (unnamed_bound sources []); lia| | | | |done].
  - intros y Hy. by apply elem_of_nil in Hy.
  - intros y z Hy. by apply elem_of_nil in Hy.
  - right. apply rtc_refl.
  - by right.
Qed.

(** ** Parents after a write *)

Definition acyclic (parent_of : gmap string string) : Prop := forall a, ~ tc (parent_step parent_of) a a.

(** An edge to where the source of it cannot be reached from closes no loop. *)
Lemma acyclic_edge m m' x o : acyclic m -> ~ rtc (parent_step m) o x ->
  (forall a, a <> x -> value m' a = value m a) -> value m' x = o -> acyclic m'.
Proof.
  intros Ha Hn Hother Hx. assert (Hstep : forall a b, parent_step m' a b -> parent_step m a b \/ a = x /\ b = o).
  { intros a b (H1 & H2 & E). destruct (decide (a = x)) as [->|Hax]; [right; split; congruence|left].
    split_and!; [done|done|]. by rewrite <- Hother. }
  assert (Hpath : forall a b, tc (parent_step m') a b -> tc (parent_step m) a b \/ rtc (parent_step m) a x /\ rtc (parent_step m) o b).
  { intros a b Hab. induction Hab as [a b Hab|a c b Hac _ IH].
    - destruct (Hstep a b Hab) as [H| [-> ->]]; [left; by apply tc_once|right; split; apply rtc_refl].
    - destruct (Hstep a c Hac) as [H| [-> ->]].
      + destruct IH as [IH|[IH1 IH2]]; [left; by eapply tc_l|right]. split; [by eapply rtc_l|done].
      + right. split; [apply rtc_refl|]. destruct IH as [IH|[_ IH]]; [by apply tc_rtc|done]. }
  intros a [H|[H1 H2]]%Hpath; [by apply (Ha a)|]. apply Hn. by etrans.
Qed.

Lemma acyclic_same m m' : acyclic m -> (forall a, value m' a = value m a) -> acyclic m'.
Proof.
  intros Ha He a Ht. apply (Ha a). eapply tc_congruence with (f := id); [|exact Ht].
  intros x y (H1 & H2 & E). split_and!; [done|done|]. by rewrite <- He.
Qed.

Lemma source_label_inj r r' : source_label r = source_label r' -> src_id r = src_id r'.
Proof. intros H%itoa_inj. lia. Qed.

Lemma parents_value sources : NoDup (src_id <$> sources) ->
  (forall r, r ∈ sources -> value (parents sources) (source_label r) = value (src_metadata r) meta_gitops_source)
  /\ (forall a, ~ a ∈ source_label <$> sources -> value (parents sources) a = "").
Proof.
  intros Hn. split; [|intros a Ha; apply value_absent; rewrite parents_dom; set_solver].
  unfold parents. intros r Hr.
  assert (Hg : forall l (m : gmap string string), NoDup (src_id <$> l) -> r ∈ l \/ value m (source_label r) = value (src_metadata r) meta_gitops_source /\ ~ src_id r ∈ src_id <$> l ->
    value (foldl (fun m s => <[source_label s := value (src_metadata s) meta_gitops_source]> m) m l) (source_label r)
    = value (src_metadata r) meta_gitops_source); [|by apply Hg; [|left]].
  clear. induction l as [|s l IH]; intros m Hn [Hr|[Hv Hni]].
  - by apply elem_of_nil in Hr.
  - done.
  - cbn. apply NoDup_cons in Hn as [Hs Hn]. apply IH; [done|]. apply elem_of_cons in Hr as [->|Hr]; [right|by left].
    split; [|done]. unfold value at 1. by rewrite lookup_insert_eq.
  - cbn in *. apply NoDup_cons in Hn as [Hs Hn]. apply IH; [done|]. right. rewrite elem_of_cons in Hni.
    split; [|tauto]. unfold value at 1. rewrite lookup_insert_ne; [done|]. intros E%source_label_inj. apply Hni. left. congruence.
Qed.

Section StoreFacts.
Context {S : Type} `{SourceStoreLaws S} `{Backend S}.

(** Rows are stored under their ids. *)
Definition keyed (s : S) : Prop := forall i r, sst_rows s !! i = Some r -> src_id r = i.

Lemma elem_of_sources s ws r : keyed s -> r ∈ sources_of s ws <-> sst_rows s !! src_id r = Some r /\ src_workspace r = ws.
Proof.
  intros Hk. unfold sources_of. rewrite elem_of_bfilter, list_elem_of_fmap, N.eqb_eq. split.
  - intros (([i r'] & -> & Hin%elem_of_map_to_list) & Hw). cbn in *. by rewrite (Hk _ _ Hin).
  - intros [Hr Hw]. split; [|done]. exists (src_id r, r). split; [done|]. by apply elem_of_map_to_list.
Qed.

Lemma sources_nodup s ws : keyed s -> NoDup (src_id <$> sources_of s ws).
Proof.
  intros Hk. apply bfilter_fmap_nodup. rewrite <- list_fmap_compose.
  assert (E : (src_id ∘ snd) <$> map_to_list (sst_rows s) = (map_to_list (sst_rows s)).*1).
  { apply list_fmap_ext. intros i [k r] Hi. cbn. eapply Hk, elem_of_map_to_list, list_elem_of_lookup_2, Hi. }
  rewrite E. apply NoDup_fst_map_to_list.
Qed.

Definition parent_of (s : S) (ws : N) : gmap string string := parents (sources_of s ws).

Lemma parent_of_row s ws r : keyed s -> sst_rows s !! src_id r = Some r -> src_workspace r = ws ->
  value (parent_of s ws) (source_label r) = value (src_metadata r) meta_gitops_source.
Proof. intros Hk Hr Hw. apply (parents_value _ (sources_nodup s ws Hk)). by apply elem_of_sources. Qed.

Lemma parent_of_absent s ws a : keyed s -> (forall r, sst_rows s !! src_id r = Some r -> src_workspace r = ws -> source_label r <> a) ->
  value (parent_of s ws) a = "".
Proof.
  intros Hk Ha. apply (parents_value _ (sources_nodup s ws Hk)). intros (r & -> & [Hr Hw]%elem_of_sources)%list_elem_of_fmap; [|done].
  by apply (Ha r).
Qed.

(** Writing a row changes the parent of that source alone. *)
Lemma put_parents s s' r : keyed s -> sst_rows s' = <[src_id r := r]> (sst_rows s) ->
  (forall r0, sst_rows s !! src_id r = Some r0 -> src_workspace r0 = src_workspace r) ->
  keyed s' /\ value (parent_of s' (src_workspace r)) (source_label r) = value (src_metadata r) meta_gitops_source
  /\ forall a, a <> source_label r -> value (parent_of s' (src_workspace r)) a = value (parent_of s (src_workspace r)) a.
Proof.
  intros Hk E Hw0. assert (Hk' : keyed s').
  { intros i x. rewrite E. destruct (decide (src_id r = i)) as [<-|Hi]; [rewrite lookup_insert_eq; by intros [= <-]|].
    rewrite lookup_insert_ne by done. apply Hk. }
  split_and!; [done|apply parent_of_row; [done| |done]; by rewrite E, lookup_insert_eq|]. intros a Ha.
  destruct (decide (a ∈ source_label <$> sources_of s (src_workspace r))) as [(x & -> & [Hx Hxw]%elem_of_sources)%list_elem_of_fmap|Hno]; [|done|].
  - rewrite !parent_of_row; try done. rewrite E, lookup_insert_ne; [done|]. intros Ei. apply Ha. unfold source_label. congruence.
  - assert (Hno' : forall x, sst_rows s !! src_id x = Some x -> src_workspace x = src_workspace r -> source_label x <> a).
    { intros x Hx Hxw Hl. apply Hno, list_elem_of_fmap. exists x. split; [done|]. by apply elem_of_sources. }
    rewrite !parent_of_absent; try done. intros x Hx Hxw Hl. rewrite E in Hx.
    destruct (decide (src_id r = src_id x)) as [Ei|Ei]; [rewrite Ei, lookup_insert_eq in Hx; injection Hx as <-; congruence|].
    rewrite lookup_insert_ne in Hx by done. by apply (Hno' x).
Qed.
End StoreFacts.

(** ** Declaring a project *)

Section DeclareFacts.
Context {S : Type} `{SourceStoreLaws S} `{Backend S}.
Context (repos : list git_repo) (fresh : S -> N) (webhook_secret : string).

Lemma create_writes s s' ws i out : create repos fresh webhook_secret s ws i = (s', out) ->
  match out with
  | Err _ => s' = s
  | Ok r => sst_rows s' = <[src_id r := r]> (sst_rows s) /\ src_id r = fresh s /\ src_workspace r = ws
  end.
Proof.
  unfold create. cbn zeta. set (name := make_slug _ _). destruct (missing name); [by intros [= <- <-]|].
  destruct (match in_repository _ with Some _ => _ | None => _ end) as [url|e]; [|by intros [= <- <-]].
  destruct (missing url); [by intros [= <- <-]|]. destruct (existsb _ _); [by intros [= <- <-]|].
  intros [= <- <-]. split; [apply rows_put|done].
Qed.

Lemma update_writes s s' ws id i out : keyed s -> update repos s ws id i = (s', out) ->
  match out with
  | Err _ => s' = s
  | Ok r => sst_rows s' = <[src_id r := r]> (sst_rows s) /\ src_id r = id /\ src_workspace r = ws /\ exists r0, get_source s ws id = Some r0
  end.
Proof.
  intros Hk. unfold update. destruct (get_source s ws id) as [r0|] eqn:Eg; [|by intros [= <- <-]].
  destruct (match in_repository _ with Some _ => _ | None => _ end) as [url|e]; [|by intros [= <- <-]].
  intros [= <- <-]. unfold get_source in Eg. destruct (sst_rows s !! id) as [r|] eqn:Er; [|done].
  destruct (N.eqb_spec (src_workspace r) ws); [|done]. injection Eg as <-. split_and!; [apply rows_put|by apply Hk in Er|done|by exists r].
Qed.

Lemma declare_writes s s' ws id i repository policy m a out : keyed s ->
  declare repos fresh webhook_secret s ws id i repository policy m a = (s', out) ->
  s' = s \/ exists r, sst_rows s' = <[src_id r := r]> (sst_rows s) /\ src_metadata r = m /\ src_workspace r = ws
    /\ match id with None => src_id r = fresh s | Some id => src_id r = id /\ exists r0, get_source s ws id = Some r0 end.
Proof.
  intros Hk. unfold declare. destruct (if missing repository then _ else _) as [g|e]; [|intros [= <- _]; by left].
  set (i' := SourceInput _ _ _ _ _ _ _ _ _ _ _). destruct id as [id|].
  - destruct (update repos s ws id i') as [s1 [r|e]] eqn:Eu; apply update_writes in Eu as Hw; [|done| |done].
    2: { intros [= <- _]. left. exact Hw. }
    intros [= <- _]. right. exists (with_declared policy m a r). destruct Hw as (Hr & Hi & Hws & Hx).
    split_and!; [|done|done|done|done]. rewrite rows_put, Hr. cbn [src_id with_declared]. by rewrite insert_insert_eq.
  - destruct (create repos fresh webhook_secret s ws i') as [s1 [r|e]] eqn:Eu; apply create_writes in Eu as Hw.
    2: { intros [= <- _]. left. exact Hw. }
    intros [= <- _]. right. exists (with_declared policy m a r). destruct Hw as (Hr & Hi & Hws).
    split_and!; [|done|done|done]. rewrite rows_put, Hr. cbn [src_id with_declared]. by rewrite insert_insert_eq.
Qed.

Lemma live_source_elem s ws name r : live_source s ws name = Some r -> r ∈ sources_of s ws.
Proof.
  unfold live_source. intros Hl. assert (Hg : forall l : list git_source, List.last (Some <$> l) None = Some r -> r ∈ l).
  { induction l as [|x l IH]; [done|]. destruct l as [|y l]; [intros [= ->]; left|]. intros Hr. right. by apply IH. }
  apply Hg in Hl. by apply elem_of_bfilter in Hl as [Hl _].
Qed.

Lemma value_insert (m : gmap string string) k k' v : value (<[k := v]> m) k' = if decide (k = k') then v else value m k'.
Proof. unfold value. destruct (decide (k = k')) as [->|Hk]; [by rewrite lookup_insert_eq|by rewrite lookup_insert_ne]. Qed.

(** The source a created or taken over project is labelled with *)
Lemma created_source owner labels : value (tag_source owner (<[meta_managed_by := owner_of owner]> (sanitize_user labels))) meta_gitops_source = owner.
Proof.
  assert (Hs : value (<[meta_managed_by := owner_of owner]> (sanitize_user labels)) meta_gitops_source = "").
  { rewrite value_insert. destruct (decide _); [done|]. unfold value, sanitize_user. rewrite map_lookup_filter.
    destruct (labels !! meta_gitops_source); [|done]. cbn. by rewrite option_guard_False by done. }
  unfold tag_source, missing. destruct (String.eqb_spec owner "") as [->|]; [done|]. rewrite value_insert. by destruct (decide _).
Qed.

Lemma merged_source current overlay : value (merge_user current overlay) meta_gitops_source = value current meta_gitops_source.
Proof.
  unfold value, merge_user, sanitize_user. rewrite lookup_union, !map_lookup_filter.
  destruct (overlay !! meta_gitops_source), (current !! meta_gitops_source); done.
Qed.

Lemma claimed_source owner m : value (claim owner m) meta_gitops_source = value m meta_gitops_source
  \/ owner <> "" /\ value (claim owner m) meta_gitops_source = owner.
Proof.
  unfold claim. destruct (missing owner || _) eqn:E; [by left|]. apply orb_false_iff in E as [E1 E2].
  destruct (_ && _); [by left|]. right. unfold missing in E1. apply String.eqb_neq in E1. split; [done|].
  unfold tag_source, missing. rewrite (proj2 (String.eqb_neq _ _) E1), value_insert. by destruct (decide _).
Qed.

(** A checked declaration closes no loop. *)
Lemma declare_acyclic s s' ws owner live labels : keyed s -> sst_rows s !! fresh s = None -> owner <> itoa (Z.of_N (fresh s)) ->
  (forall i r, sst_rows s !! i = Some r -> value (src_metadata r) meta_gitops_source <> itoa (Z.of_N (fresh s))) ->
  acyclic (parent_of s ws) -> (forall r, live = Some r -> r ∈ sources_of s ws) ->
  check_nesting (sources_of s ws) owner live = Ok tt ->
  (s' = s \/ exists r, sst_rows s' = <[src_id r := r]> (sst_rows s)
     /\ src_metadata r = match live with
                         | None => tag_source owner (<[meta_managed_by := owner_of owner]> (sanitize_user labels))
                         | Some r => claim owner (merge_user (src_metadata r) labels)
                         end
     /\ src_workspace r = ws
     /\ match src_id <$> live with None => src_id r = fresh s | Some id => src_id r = id /\ exists r0, get_source s ws id = Some r0 end) ->
  keyed s' /\ acyclic (parent_of s' ws).
Proof.
  intros Hk Hf Ho Hl Ha Hlive Hn [->|(r & E & Hm & Hw & Hi)]; [done|].
  assert (Hw0 : forall r0, sst_rows s !! src_id r = Some r0 -> src_workspace r0 = src_workspace r).
  { intros r0 Hr0. rewrite Hw. destruct live as [r1|]; cbn in Hi; [|congruence]. destruct Hi as [Hi [r2 Hr2]]. rewrite <- Hi in Hr2.
    unfold get_source in Hr2. rewrite Hr0 in Hr2. by destruct (N.eqb_spec (src_workspace r0) ws). }
  destruct (put_parents s s' r Hk E Hw0) as (Hk' & Hv & Hother). split; [done|]. rewrite Hw in Hv, Hother.
  assert (Hold : value (parent_of s' ws) (source_label r) = value (parent_of s ws) (source_label r)
    \/ owner <> "" /\ value (parent_of s' ws) (source_label r) = owner).
  { rewrite Hv, Hm. destruct live as [r1|]; cbn in Hi.
    - destruct Hi as [Hi _]. specialize (Hlive r1 eq_refl). apply elem_of_sources in Hlive as [Hr1 Hw1]; [|done].
      assert (El : source_label r = source_label r1) by (unfold source_label; by rewrite Hi).
      rewrite El, (parent_of_row s ws r1) by done. destruct (claimed_source owner (merge_user (src_metadata r1) labels)) as [->|Hc]; [left|by right].
      apply merged_source.
    - rewrite created_source. destruct (decide (owner = "")) as [->|]; [left|by right]. symmetry. apply parent_of_absent; [done|].
      intros x Hx _ Hxl%source_label_inj. congruence. }
  destruct Hold as [Hold|[Hne Hown]].
  { apply (acyclic_same (parent_of s ws)); [done|]. intros a. destruct (decide (a = source_label r)) as [->|]; [done|by apply Hother]. }
  apply (acyclic_edge (parent_of s ws) _ (source_label r) owner); [done| |done|done]. intros Hreach.
  destruct live as [r1|]; cbn in Hi.
  - destruct Hi as [Hi _]. assert (El : source_label r = source_label r1) by (unfold source_label; by rewrite Hi).
    rewrite El in Hreach. apply (ancestry_elem (sources_of s ws)) in Hreach; [|done]. unfold check_nesting, missing in Hn.
    rewrite (proj2 (String.eqb_neq _ _) Hne) in Hn. apply mem_spec in Hreach. by rewrite Hreach in Hn.
  - apply rtc_inv_r in Hreach as [Hreach|(b & _ & (Hb1 & _ & Hb))]; [apply Ho; by rewrite Hreach; unfold source_label; rewrite Hi|].
    destruct (decide (b ∈ source_label <$> sources_of s ws)) as [(x & -> & [Hx Hxw]%elem_of_sources)%list_elem_of_fmap|Hb']; [|done|].
    + rewrite (parent_of_row s ws x) in Hb by done. apply (Hl _ _ Hx). rewrite Hb. unfold source_label. by rewrite Hi.
    + rewrite parent_of_absent in Hb; [|done|]; [|intros x Hx Hxw E'; apply Hb', list_elem_of_fmap; exists x; split; [done|by apply elem_of_sources]].
      destruct (itoa_cons (Z.of_N (src_id r)) ltac:(lia)) as (ch & t & E' & _). unfold source_label in Hb. by rewrite E' in Hb.
Qed.
End DeclareFacts.

(** * Claims *)

(** The walk up from a project ends whatever the rows say, loops included: more turns than there
    are projects, and two, change nothing; and what it returns is exactly the project and all that are above it. *)
Lemma ancestry_terminates (sources : list git_source) (owner x : string) (n : nat)
    (Hn : (length sources + 2 <= n)%nat) (Ho : owner <> "") :
  ancestry_loop n (parents sources) [] owner = ancestry sources owner
  /\ (x ∈ ancestry sources owner <-> rtc (parent_step (parents sources)) owner x).
Proof.
  split; [|by apply ancestry_elem]. pose proof (unnamed_bound sources []). apply ancestry_loop_fuel; lia.
Qed.

Section Claims.
Context {S : Type} `{SourceStoreLaws S} `{Backend S} `{!RenderLaws S} (cron_ok : string -> bool).
Context (repos : list git_repo) (fresh : S -> N) (webhook_secret : string) (restricted : option (N -> option string))
  (checkout : git_source -> string -> result string (commit_info * option (list (string * list resource))))
  (auth_for : git_repo -> result string unit).

(** Whatever a run declares as a project, none comes to be above itself, directly or through
    others, provided a new project gets an id no row holds or is labelled with. *)
Lemma nesting_stays_acyclic (s s' : S) (ws : N) (owner : string) (c : change) (m : meta) (g : git_source_spec)
    (calls : list call) (out : result gitops_err unit) :
  keyed s -> sst_rows s !! fresh s = None -> owner <> itoa (Z.of_N (fresh s)) ->
  (forall i r, sst_rows s !! i = Some r -> value (src_metadata r) meta_gitops_source <> itoa (Z.of_N (fresh s))) ->
  acyclic (parent_of s ws) -> ch_action c <> ActionDelete ->
  apply_git_source repos fresh webhook_secret s ws owner c m g = (s', calls, out) ->
  keyed s' /\ acyclic (parent_of s' ws) /\ calls = [].
Proof.
  intros Hk Hf Ho Hl Ha Hc. unfold apply_git_source. set (live := live_source s ws (ch_name c)).
  assert (Hsame : forall r, (s, @nil call, r) = (s', calls, out) -> keyed s' /\ acyclic (parent_of s' ws) /\ calls = []) by (by intros r [= <- <- _]).
  destruct (ch_action c) eqn:Ea; [| |done|];
  (match goal with |- (if ?b then _ else _) = _ -> _ => destruct b; [apply Hsame|] end;
   destruct (check_nesting (sources_of s ws) owner live) as [[]|e] eqn:En; [|apply Hsame];
   match goal with |- (let '(_, _) := declare _ _ _ _ _ ?id ?i ?rp ?p ?md ?an in _) = _ -> _ =>
     destruct (declare repos fresh webhook_secret s ws id i rp p md an) as [s1 r1] eqn:Ed; intros [= <- <- _]; apply declare_writes in Ed; [|done] end;
   split_and!; [eapply declare_acyclic; [done..|intros r Hr; by eapply live_source_elem|done|exact Ed]|eapply declare_acyclic; [done..|intros r Hr; by eapply live_source_elem|done|exact Ed]|done]).
Qed.
(** What a reconcile does, past the restriction: the row it begins with, and what it ends with *)
Lemma reconcile_begins now s r : match restricted with Some f => f (src_workspace r) | None => None end = None ->
  reconcile cron_ok repos restricted checkout auth_for now s r
  = finish_reconcile cron_ok repos checkout auth_for now (sst_put s (with_status SourceProgressing "" r)) (with_status SourceProgressing "" r).
Proof. intros Hr. unfold reconcile. by rewrite Hr. Qed.

Lemma rbind_ext {E A B} (u : result E A) (f g : A -> result E B) : (forall a, f a = g a) -> rbind u f = rbind u g.
Proof. intros Hfg. destruct u; [apply Hfg|done]. Qed.

Lemma fetch_same r r' : src_repository r = src_repository r' -> src_workspace r = src_workspace r' -> src_repo_url r = src_repo_url r' ->
  src_allow_empty r = src_allow_empty r' -> (forall url, checkout r url = checkout r' url) ->
  fetch cron_ok repos checkout auth_for r = fetch cron_ok repos checkout auth_for r'.
Proof. intros E1 E2 E3 E4 E5. unfold fetch, clone_url. rewrite E1, E2, E3, E4. apply rbind_ext. intros url. by rewrite E5. Qed.

(** A fetch without resources fails unless the source allows it. *)
Lemma fetch_empty r url ci files : clone_url repos auth_for r = Ok url -> checkout r url = Ok (ci, files) ->
  match files with None => True | Some fs => forall f, f ∈ fs -> f.2 = [] end ->
  is_ok (fetch cron_ok repos checkout auth_for r) = match files with Some _ => src_allow_empty r | None => false end.
Proof.
  intros Hu Hc Hf. unfold fetch. rewrite Hu. cbn [rbind]. rewrite Hc. cbn [rbind fst snd]. destruct files as [fs|]; [|done].
  assert (Hl : load_files cron_ok fs = Err err_no_resources).
  { unfold load_files. assert (Hcat : concat (stable_sort (fun a b => str_lt a.1 b.1) fs).*2 = []).
    { apply concat_nil_Forall, Forall_forall. intros x (f & -> & Hin)%list_elem_of_fmap. apply Hf. by rewrite stable_sort_perm in Hin. }
    rewrite Hcat. done. }
  rewrite Hl. cbn. by destruct (src_allow_empty r).
Qed.

(** A reconcile that finds no manifest path, or no resource in it, asks for no change at all,
    unless the source allows it to be empty: its row says why, and nothing else is written. *)
Lemma no_resources_no_teardown (now : Z) (s s' : S) (r r' : git_source) (url : string) (ci : commit_info)
    (files : option (list (string * list resource))) (calls : list call) (out : result gitops_err unit) :
  (forall a b u, src_id a = src_id b -> checkout a u = checkout b u) ->
  clone_url repos auth_for r = Ok url -> checkout r url = Ok (ci, files) ->
  match files with None => True | Some fs => src_allow_empty r = false /\ forall f, f ∈ fs -> f.2 = [] end ->
  reconcile cron_ok repos restricted checkout auth_for now s r = (s', calls, r', out) ->
  calls = [] /\ is_ok out = false
  /\ (s' = s \/ sst_rows s' = <[src_id r := r']> (sst_rows s) /\ src_status r' = SourceError /\ src_synced_commit r' = src_synced_commit r).
Proof.
  intros Hid Hu Hc Hf Hr. destruct (match restricted with Some f => f (src_workspace r) | None => None end) as [why|] eqn:Er.
  { unfold reconcile in Hr. rewrite Er in Hr. injection Hr as <- <- _ <-. split_and!; [done|done|by left]. }
  rewrite reconcile_begins in Hr by done. set (r1 := with_status SourceProgressing "" r) in Hr. unfold finish_reconcile in Hr.
  rewrite (fetch_same r1 r) in Hr by (done || intros; by apply Hid).
  assert (Hok : is_ok (fetch cron_ok repos checkout auth_for r) = false).
  { destruct files as [fs|]; [destruct Hf as [Ha Hf]|]; by rewrite (fetch_empty r url ci _ Hu Hc). }
  destruct (fetch cron_ok repos checkout auth_for r) as [[b ci']|e]; [done|]. cbn in Hr. injection Hr as <- <- <- <-.
  split_and!; [done|done|right]. split_and!; [|done|done]. rewrite !rows_put. cbn. by rewrite insert_insert_eq.
Qed.

(** C24 [sync_touches_its_own]: The deletions that a reconcile itself asks for are none unless its
    project prunes, and then only of what is listed under that kind and name with the labels of this
    very project: never what another project made, nor what no project did. What deleting a nested
    project tears down in its turn, when its delete policy is cascade, is that project's own and not
    of this claim. *)
Theorem sync_touches_its_own (now : Z) (s s' : S) (r r' : git_source) (calls : list call) (out : result gitops_err unit)
    (actual : resource_set) (x : call) :
  reconcile cron_ok repos restricted checkout auth_for now s r = (s', calls, r', out) ->
  snapshot (sst_put s (with_status SourceProgressing "" r)) = Ok actual ->
  x ∈ calls -> ch_action (cl_change x) = ActionDelete ->
  src_prune r = true /\ exists a, get actual (change_key (cl_change x)) = Some a
    /\ label a label_managed_by = managed_by_gitops /\ label a label_gitops_source = source_label r
    /\ forall other, src_id other <> src_id r -> owned_by (source_label other) a = false.
Proof.
  intros Hr Hs Hx Hd. destruct (match restricted with Some f => f (src_workspace r) | None => None end) as [why|] eqn:Er.
  { unfold reconcile in Hr. rewrite Er in Hr. injection Hr as _ <- _ _. by apply elem_of_nil in Hx. }
  rewrite reconcile_begins in Hr by done. set (r1 := with_status SourceProgressing "" r) in *. set (s1 := sst_put s r1) in *. unfold finish_reconcile in Hr.
  destruct (fetch cron_ok repos checkout auth_for r1) as [[b ci]|e]; [|injection Hr as _ <- _ _; by apply elem_of_nil in Hx].
  set (opts := source_options _ false) in Hr. destruct (apply cron_ok s1 b opts) as [[s2 calls2] res] eqn:Ea.
  assert (Ec : calls = calls2).
  { destruct res as [res|e]; [|by injection Hr as _ <- _ _]. destruct (ar_failures res); by injection Hr as _ <- _ _. }
  subst calls2. pose proof (apply_calls_rightful cron_ok _ _ _ _ _ _ _ _ Ea Hs Hx) as Hri. unfold rightful in Hri. rewrite Hd in Hri.
  destruct Hri as (Hp & _ & a & Hg & Hm & Hsrc). split; [done|]. exists a.
  destruct (itoa_cons (Z.of_N (src_id r)) ltac:(lia)) as (ch & t & El & _).
  assert (Hne : op_owner_source opts <> "") by (cbn; unfold source_label; cbn; by rewrite El).
  specialize (Hsrc Hne). split_and!; [done| |exact Hsrc|].
  - rewrite Hm. unfold owner_of, missing. by rewrite (proj2 (String.eqb_neq _ _) Hne).
  - intros other Ho. unfold owned_by. apply andb_false_iff. right. apply String.eqb_neq. rewrite Hsrc. intros E%source_label_inj. by apply Ho.
Qed.

(** What a reconcile that is let through writes to the row it read tells what happened: an error as its
    status exactly when it returns one; otherwise it returns after every change it asked for was carried out, the
    status is synced, or degraded when a job of the project failed; and the commit last synced moves, to the one
    checked out, only when a change was applied. *)
Lemma sync_outcome (now : Z) (s s' : S) (r r' : git_source) (calls : list call) (out : result gitops_err unit) :
  match restricted with Some f => f (src_workspace r) | None => None end = None ->
  reconcile cron_ok repos restricted checkout auth_for now s r = (s', calls, r', out) ->
  sst_rows s' !! src_id r = Some r' /\ src_id r' = src_id r /\ src_checked_at r' = Some now
  /\ (is_ok out = false <-> src_status r' = SourceError)
  /\ (is_ok out = true -> (src_status r' = SourceSynced \/ src_status r' = SourceDegraded)
       /\ exists b ci, fetch cron_ok repos checkout auth_for (with_status SourceProgressing "" r) = Ok (b, ci)
            /\ (calls = [] -> src_synced_commit r' = src_synced_commit r)
            /\ (calls <> [] -> src_synced_commit r' = ci_hash ci /\ src_synced_at r' = Some now))
  /\ (is_ok out = false -> src_synced_commit r' = src_synced_commit r).
Proof.
  intros Hf Hr. rewrite reconcile_begins in Hr by done. set (r1 := with_status SourceProgressing "" r) in *.
  set (s1 := sst_put s r1) in *. unfold finish_reconcile in Hr.
  destruct (fetch cron_ok repos checkout auth_for r1) as [[b ci]|e] eqn:Ef.
  2: { cbn in Hr. injection Hr as <- <- <- <-. rewrite rows_put. cbn. rewrite lookup_insert_eq. split_and!; done. }
  set (opts := source_options _ false) in Hr. destruct (apply cron_ok s1 b opts) as [[s2 calls2] res] eqn:Ea.
  destruct res as [res|e].
  2: { cbn in Hr. injection Hr as <- <- <- <-. rewrite rows_put. cbn. rewrite lookup_insert_eq. split_and!; done. }
  destruct (ar_failures res) as [|f fs] eqn:Efl.
  2: { cbn in Hr. injection Hr as <- <- <- <-. rewrite rows_put. cbn. rewrite lookup_insert_eq. split_and!; done. }
  assert (Hcount : ar_applied res = Z.of_nat (length calls2)).
  { apply apply_counts in Ea. rewrite Efl in Ea. cbn in Ea. lia. }
  cbn in Hr. injection Hr as <- <- <- <-. rewrite rows_put.
  assert (Hid : forall st, src_id (record_sync ci (ar_applied res) now st) = src_id st) by (intros; unfold record_sync; by destruct (_ <=? _)).
  rewrite Hid. assert (Hst : forall st, src_status (record_sync ci (ar_applied res) now st) = src_status st) by (intros; unfold record_sync; by destruct (_ <=? _)).
  assert (Hck : forall st, src_checked_at (record_sync ci (ar_applied res) now st) = src_checked_at st) by (intros; unfold record_sync; by destruct (_ <=? _)).
  rewrite Hst, Hck. destruct (ar_failed_jobs res) as [|j js]; cbn; rewrite lookup_insert_eq.
  - split_and!; [done..| |done]. intros _. split; [by left|]. exists b, ci. split; [done|]. unfold record_sync.
    split; intros Hcalls; destruct (Z.leb_spec (ar_applied res) 0); try done; [subst calls2; cbn in *; lia|].
    destruct calls2; [done|]. cbn in *. lia.
  - split_and!; [done..| |done]. intros _. split; [by right|]. exists b, ci. split; [done|]. unfold record_sync.
    split; intros Hcalls; destruct (Z.leb_spec (ar_applied res) 0); try done; [subst calls2; cbn in *; lia|].
    destruct calls2; [done|]. cbn in *. lia.
Qed.
End Claims.

(** ** Concrete projects *)

Record demo_state := DemoState { ds_rows : gmap N git_source; ds_world : demo_world }.
#[export] Instance demo_store : SourceStore demo_state := {|
  sst_rows := ds_rows;
  sst_put s r := DemoState (<[src_id r := r]> (ds_rows s)) (ds_world s);
  sst_remove s i := DemoState (delete i (ds_rows s)) (ds_world s) |}.
#[export] Instance demo_store_laws : SourceStoreLaws demo_state.
Proof. by split. Qed.
#[export] Instance demo_state_backend : Backend demo_state := {|
  bk_list s := bk_list (ds_world s);
  bk_render s := bk_render (ds_world s);
  bk_databases s := bk_databases (ds_world s); bk_secrets s := bk_secrets (ds_world s); bk_applications s := bk_applications (ds_world s);
  bk_check_locations s := bk_check_locations (ds_world s);
  bk_execute s ctx c dr set := let '(w, r) := bk_execute (ds_world s) ctx c dr set in (DemoState (ds_rows s) w, r);
  bk_link_databases s set := DemoState (ds_rows s) (bk_link_databases (ds_world s) set);
  bk_failed_jobs s := bk_failed_jobs (ds_world s) |}.
#[export] Instance demo_state_render : RenderLaws demo_state.
Proof. by split. Qed.

Definition demo_source (id : N) (name : string) (labels : gmap string string) : git_source :=
  GitSource id 7 name name "https://git.example.com/x" "main" "." None sync_manual true false false false delete_policy_cascade labels ∅
    "hook" SourceUnknown "" "" "" "" None "" None.
Definition demo_label (owner source : string) : gmap string string := tag_source source (<[meta_managed_by := owner]> ∅).
Definition demo_ci : commit_info := CommitInfo "abc" "jo" "first".
(** Project 1 declares a volume; project 2 has no manifests. *)
Definition demo_checkout (r : git_source) (url : string) : result string (commit_info * option (list (string * list resource))) :=
  Ok (demo_ci, Some (if (src_id r =? 1)%N then [("app.yaml", [demo_vol "a" "2Gi"])] else [("README.yaml", [])])).
Definition demo_auth (_ : git_repo) : result string unit := Ok tt.
Definition demo_rows (l : list git_source) : gmap N git_source := list_to_map ((fun r => (src_id r, r)) <$> l).
Definition demo_projects : demo_state := DemoState (demo_rows [demo_source 1 "one" ∅; demo_source 2 "two" ∅]) demo_live_world.
Definition demo_fresh (s : demo_state) : N := 50.

Lemma demo_keyed l w : keyed (DemoState (demo_rows l) w).
Proof.
  intros i r Hr. cbn in Hr. apply elem_of_list_to_map_2, list_elem_of_fmap in Hr as (r' & [= -> ->] & _). done.
Qed.

Definition demo_child : change := Change ActionCreate kind_git_source "child" "" [].
Definition demo_child_spec : git_source_spec := GitSourceSpec "https://git.example.com/y" "" "main" "." "manual" false false false false "orphan".
Lemma sync_touches_its_own_witness :
  let out := reconcile any_cron [] None demo_checkout demo_auth 9 demo_projects (demo_source 1 "one" ∅) in
  (fun x => (ch_action (cl_change x), ch_name (cl_change x))) <$> out.1.1.2 = [(ActionDelete, "b"); (ActionUpdate, "a")]
  /\ forall x, x ∈ out.1.1.2 -> ch_action (cl_change x) = ActionDelete -> exists a,
       get (snapshot_of (dw_live demo_live_world)) (change_key (cl_change x)) = Some a /\ label a label_gitops_source = "1".
Proof.
  intros out. split; [by vm_compute|]. intros x Hx Hd. subst out.
  destruct (reconcile any_cron [] None demo_checkout demo_auth 9 demo_projects (demo_source 1 "one" ∅)) as [[[s' calls] r'] out] eqn:E.
  destruct (sync_touches_its_own any_cron [] None demo_checkout demo_auth 9 _ _ _ _ _ _ (snapshot_of (dw_live demo_live_world)) x E)
    as (_ & a & Hg & _ & Hl & _); [reflexivity|exact Hx|exact Hd|]. exists a. split; [exact Hg|exact Hl].
Defined.

(** A change to a source made while it is being synced is undone by the row the sync writes in the end, and a source
    deleted meanwhile is back. *)
Lemma sync_overwrites_update :
  let '(s1, r) := begin_reconcile demo_projects (demo_source 1 "one" ∅) in
  let input := SourceInput "" "" "" "" "" None sync_manual false false false false in
  let '(s2, _) := update [] s1 7 1 input in
  let '(s3, _, _, _) := finish_reconcile any_cron [] demo_checkout demo_auth 9 s2 r in
  (src_prune <$> (sst_rows s2 !! 1%N)) = Some false /\ (src_prune <$> (sst_rows s3 !! 1%N)) = Some true.
Proof. by vm_compute. Qed.
Lemma sync_revives_source :
  let '(s1, r) := begin_reconcile demo_projects (demo_source 1 "one" ∅) in
  let '(s2, _, _) := delete_source s1 7 1 false in
  let '(s3, _, _, _) := finish_reconcile any_cron [] demo_checkout demo_auth 9 s2 r in
  stated (sst_rows s2 !! 1%N) = false /\ stated (sst_rows s3 !! 1%N) = true.
Proof. by vm_compute. Qed.

(** Project 1 deletes a volume of project 2. *)
Lemma project_deletes_foreign :
  let '(s, calls, _) := delete_project_resource demo_projects 7 1 kind_volume "c" in
  (ch_name ∘ cl_change) <$> calls = ["c"] /\ length (dw_live (ds_world s)) = 4%nat.
Proof. by vm_compute. Qed.

(** A project that takes over one that was applied by hand, with projects below it, nests deeper than the limit. *)
Lemma adopting_deepens :
  let rows := demo_rows [demo_source 1 "root" ∅; demo_source 2 "a" (demo_label "apply" ""); demo_source 3 "b" (demo_label "gitops" "2");
                         demo_source 4 "c" (demo_label "gitops" "3")] in
  let s := DemoState rows demo_live_world in
  let '(s', _, out) := apply_git_source [] demo_fresh "hook" s 7 "1" (Change ActionUpdate kind_git_source "a" "" []) (Meta "a" "" ∅ ∅) demo_child_spec in
  is_ok out = true /\ length (ancestry (sources_of s 7) "4") = max_git_source_depth
  /\ length (ancestry (sources_of s' 7) "4") = S max_git_source_depth.
Proof. by vm_compute. Qed.
