(* ===== verification/Migration.v ===== *)
(** * Moving an application to another location: the state

    [internal/models/location_migration.go], [internal/storage/repositories/location_migration_repo.go] and what a move
    ([internal/services/locationmigration]) reads and writes of the other tables: the row of the application, its
    volumes, its database instances and logical databases, and what the engines of the nodes hold. A run is a
    computation in [M]: it changes the world and the migration it holds in memory, and every query and every call may
    fail, or be the last thing the worker lives to do. *)
From S2P Require Import Prelude GoStrings.
#[local] Open Scope Z_scope.
#[local] Open Scope list_scope.

(** ** The migration *)

Inductive mig_status := MigRunning | MigAwaitingCutover | MigCutOver | MigFinalized | MigRolledBack | MigFailed | MigCancelled.
Inductive mig_phase :=
| PhPrepare | PhPresync | PhStop | PhFinalSync | PhSwitch | PhVerify | PhReroute | PhDone | PhRollback | PhFinalize.
#[export] Instance mig_status_eq_dec : EqDecision mig_status.
Proof. solve_decision. Defined.
#[export] Instance mig_phase_eq_dec : EqDecision mig_phase.
Proof. solve_decision. Defined.
(** [MigrationStatus.Terminal] *)
Definition terminal (s : mig_status) : bool :=
  match s with MigFinalized | MigRolledBack | MigFailed | MigCancelled => true | _ => false end.

Inductive db_strategy := StrategyMove | StrategyNewInstance | StrategyExistingInstance.
#[export] Instance db_strategy_eq_dec : EqDecision db_strategy.
Proof. solve_decision. Defined.

(** [MigrationVolume], [MigrationLogicalDB] and [MigrationDBItem]: [pv_copy] is whether the action is [copy]. *)
Record plan_volume := PlanVolume { pv_id : N; pv_copy : bool }.
Record plan_logical := PlanLogical { pg_id : N; pg_name : string; pg_prefix : string }.
Record plan_database := PlanDatabase {
  pd_instance : N; pd_strategy : db_strategy; pd_target : N; pd_databases : list plan_logical }.
Record mig_plan := MigPlan { mp_volumes : list plan_volume; mp_databases : list plan_database }.

(** [MigrationVolumeState], [MigrationMoveState] and [MigrationRestore] *)
Record volume_state := VolumeState {
  vs_id : N; vs_docker : string; vs_src_server : N; vs_src_cluster : N; vs_src_created : string; vs_src_mount : string;
  vs_src_class : string; vs_tgt_created : string; vs_tgt_mount : string; vs_tgt_class : string; vs_prepared : bool }.
Record move_state := MoveState {
  ms_id : N; ms_volume : string; ms_src_server : N; ms_src_cluster : N; ms_src_container : string; ms_src_created : string;
  ms_src_class : string; ms_tgt_created : string; ms_tgt_class : string; ms_tgt_container : string; ms_prepared : bool }.
Record restore := Restore {
  rs_src_db : N; rs_src_instance : N; rs_name : string; rs_prefix : string; rs_tgt_instance : N; rs_tgt_db : N;
  rs_created : bool; rs_restored : bool }.
(** [MigrationState] *)
Record mig_state := MigState {
  so_container : string; so_release : N; so_volumes : list volume_state; so_instances : list move_state;
  so_restores : list restore; so_stopped : bool; so_switched : bool; so_deployment : N; so_gateway : N }.

(** [LocationMigration], without the progress and the report it shows to people *)
Record migration := Migration {
  mg_app : N; mg_src_cluster : N; mg_src_server : N; mg_tgt_cluster : N; mg_tgt_server : N; mg_status : mig_status;
  mg_phase : mig_phase; mg_manual : bool; mg_plan : mig_plan; mg_state : mig_state; mg_error : option string;
  mg_downtime_at : option Z; mg_cutover_at : option Z; mg_finalize_after : option Z; mg_finished_at : option Z }.
(** The row: [Update] never writes the flags a person sets nor the lease. *)
Record mig_row := MigRow { ro_mig : migration; ro_cutover : bool; ro_cancel : bool; ro_lease : option Z }.

(** The writes of single fields *)
Definition set_status (s : mig_status) (m : migration) : migration :=
  Migration (mg_app m) (mg_src_cluster m) (mg_src_server m) (mg_tgt_cluster m) (mg_tgt_server m) s (mg_phase m) (mg_manual m)
    (mg_plan m) (mg_state m) (mg_error m) (mg_downtime_at m) (mg_cutover_at m) (mg_finalize_after m) (mg_finished_at m).
Definition set_phase (p : mig_phase) (m : migration) : migration :=
  Migration (mg_app m) (mg_src_cluster m) (mg_src_server m) (mg_tgt_cluster m) (mg_tgt_server m) (mg_status m) p (mg_manual m)
    (mg_plan m) (mg_state m) (mg_error m) (mg_downtime_at m) (mg_cutover_at m) (mg_finalize_after m) (mg_finished_at m).
Definition set_state (s : mig_state) (m : migration) : migration :=
  Migration (mg_app m) (mg_src_cluster m) (mg_src_server m) (mg_tgt_cluster m) (mg_tgt_server m) (mg_status m) (mg_phase m)
    (mg_manual m) (mg_plan m) s (mg_error m) (mg_downtime_at m) (mg_cutover_at m) (mg_finalize_after m) (mg_finished_at m).
Definition set_error (e : option string) (m : migration) : migration :=
  Migration (mg_app m) (mg_src_cluster m) (mg_src_server m) (mg_tgt_cluster m) (mg_tgt_server m) (mg_status m) (mg_phase m)
    (mg_manual m) (mg_plan m) (mg_state m) e (mg_downtime_at m) (mg_cutover_at m) (mg_finalize_after m) (mg_finished_at m).
Definition set_times (down cut fin_after fin : option Z) (m : migration) : migration :=
  Migration (mg_app m) (mg_src_cluster m) (mg_src_server m) (mg_tgt_cluster m) (mg_tgt_server m) (mg_status m) (mg_phase m)
    (mg_manual m) (mg_plan m) (mg_state m) (mg_error m) down cut fin_after fin.

Definition so_with_source (container : string) (release : N) (s : mig_state) : mig_state :=
  MigState container release (so_volumes s) (so_instances s) (so_restores s) (so_stopped s) (so_switched s) (so_deployment s) (so_gateway s).
Definition so_with_gateway (g : N) (s : mig_state) : mig_state :=
  MigState (so_container s) (so_release s) (so_volumes s) (so_instances s) (so_restores s) (so_stopped s) (so_switched s) (so_deployment s) g.
Definition so_with_volumes (l : list volume_state) (s : mig_state) : mig_state :=
  MigState (so_container s) (so_release s) l (so_instances s) (so_restores s) (so_stopped s) (so_switched s) (so_deployment s) (so_gateway s).
Definition so_with_instances (l : list move_state) (s : mig_state) : mig_state :=
  MigState (so_container s) (so_release s) (so_volumes s) l (so_restores s) (so_stopped s) (so_switched s) (so_deployment s) (so_gateway s).
Definition so_with_restores (l : list restore) (s : mig_state) : mig_state :=
  MigState (so_container s) (so_release s) (so_volumes s) (so_instances s) l (so_stopped s) (so_switched s) (so_deployment s) (so_gateway s).
Definition so_with_stopped (s : mig_state) : mig_state :=
  MigState (so_container s) (so_release s) (so_volumes s) (so_instances s) (so_restores s) true (so_switched s) (so_deployment s) (so_gateway s).
Definition so_with_switched (b : bool) (s : mig_state) : mig_state :=
  MigState (so_container s) (so_release s) (so_volumes s) (so_instances s) (so_restores s) (so_stopped s) b (so_deployment s) (so_gateway s).
Definition so_with_deployment (d : N) (s : mig_state) : mig_state :=
  MigState (so_container s) (so_release s) (so_volumes s) (so_instances s) (so_restores s) (so_stopped s) (so_switched s) d (so_gateway s).
Definition in_state (f : mig_state -> mig_state) (m : migration) : migration := set_state (f (mg_state m)) m.

(** [volumeState], [moveState], [hasRestores] *)
Definition find_volume_state (m : migration) (id : N) : option volume_state :=
  find_first (fun v => (vs_id v =? id)%N) (so_volumes (mg_state m)).
Definition find_move_state (m : migration) (id : N) : option move_state :=
  find_first (fun v => (ms_id v =? id)%N) (so_instances (mg_state m)).
Definition has_restores (m : migration) (source : N) : bool :=
  existsb (fun r => (rs_src_instance r =? source)%N && negb (rs_src_db r =? 0)%N) (so_restores (mg_state m)).

(** ** The other tables *)

Inductive app_status := AppStopped | AppRunning | AppDeploying.
Inductive db_status := DbProvisioning | DbRunning | DbStopped | DbFailed | DbUpgrading.
#[export] Instance app_status_eq_dec : EqDecision app_status.
Proof. solve_decision. Defined.
#[export] Instance db_status_eq_dec : EqDecision db_status.
Proof. solve_decision. Defined.

(** [models.Application] with its active release; [AppRunning] stands for every status but stopped and deploying. *)
Record app_row := AppRow {
  ap_server : N; ap_cluster : N; ap_status : app_status; ap_service : bool; ap_container : string; ap_release : N }.
(** [models.Volume], [models.DatabaseInstance] ([ir_owner] is the application that owns it), [models.Database] *)
Record volume_row := VolumeRow {
  vr_docker : string; vr_server : N; vr_cluster : N; vr_created : string; vr_mount : string; vr_class : string;
  vr_shared : bool; vr_host : bool }.
Record instance_row := InstanceRow {
  ir_volume : string; ir_server : N; ir_cluster : N; ir_container : string; ir_created : string; ir_class : string;
  ir_status : db_status; ir_owner : option N }.
Record database_row := DatabaseRow {
  dr_instance : N; dr_name : string; dr_app : option N; dr_prefix : string; dr_map : gmap string string;
  dr_vars : list string; dr_readonly : bool }.

#[export] Instance instance_row_eq_dec : EqDecision instance_row.
Proof. solve_decision. Defined.

Definition app_at (server cluster : N) (a : app_row) : app_row :=
  AppRow server cluster (ap_status a) (ap_service a) (ap_container a) (ap_release a).
Definition app_with_status (s : app_status) (a : app_row) : app_row :=
  AppRow (ap_server a) (ap_cluster a) s (ap_service a) (ap_container a) (ap_release a).
Definition volume_at (server cluster : N) (created mount class : string) (v : volume_row) : volume_row :=
  VolumeRow (vr_docker v) server cluster created mount class (vr_shared v) (vr_host v).
Definition instance_at (server cluster : N) (created class container : string) (i : instance_row) : instance_row :=
  InstanceRow (ir_volume i) server cluster container created class DbStopped (ir_owner i).
Definition instance_run (st : db_status) (container : string) (i : instance_row) : instance_row :=
  InstanceRow (ir_volume i) (ir_server i) (ir_cluster i) container (ir_created i) (ir_class i) st (ir_owner i).
Definition database_link (app : option N) (prefix : string) (m : gmap string string) (vars : list string) (d : database_row) : database_row :=
  DatabaseRow (dr_instance d) (dr_name d) app prefix m vars (dr_readonly d).

(** What holds data: a volume on a node, or a logical database *)
Definition place : Type := (N * string) + N.
Definition on_disk (server : N) (volume : string) : place := inl (server, volume).
Definition in_database (id : N) : place := inr id.

Record world (D : Type) := World {
  w_row : mig_row; w_app : option app_row; w_volumes : gmap N volume_row; w_instances : gmap N instance_row;
  w_databases : gmap N database_row; w_links : list (N * N); w_env : gmap string string; w_next : N;
  w_held : gmap place D; w_calls : nat; w_left : option nat }.
Arguments World {D}.
Arguments w_row {D}. Arguments w_app {D}. Arguments w_volumes {D}. Arguments w_instances {D}. Arguments w_databases {D}.
Arguments w_links {D}. Arguments w_env {D}. Arguments w_next {D}. Arguments w_held {D}. Arguments w_calls {D}. Arguments w_left {D}.

Section Writes.
Context {D : Type}.
Definition put_row (r : mig_row) (w : world D) : world D :=
  World r (w_app w) (w_volumes w) (w_instances w) (w_databases w) (w_links w) (w_env w) (w_next w) (w_held w) (w_calls w) (w_left w).
Definition put_mig (m : migration) (w : world D) : world D :=
  put_row (MigRow m (ro_cutover (w_row w)) (ro_cancel (w_row w)) (ro_lease (w_row w))) w.
Definition put_app (a : option app_row) (w : world D) : world D :=
  World (w_row w) a (w_volumes w) (w_instances w) (w_databases w) (w_links w) (w_env w) (w_next w) (w_held w) (w_calls w) (w_left w).
Definition put_volumes (v : gmap N volume_row) (w : world D) : world D :=
  World (w_row w) (w_app w) v (w_instances w) (w_databases w) (w_links w) (w_env w) (w_next w) (w_held w) (w_calls w) (w_left w).
Definition put_instances (i : gmap N instance_row) (w : world D) : world D :=
  World (w_row w) (w_app w) (w_volumes w) i (w_databases w) (w_links w) (w_env w) (w_next w) (w_held w) (w_calls w) (w_left w).
Definition put_databases (d : gmap N database_row) (w : world D) : world D :=
  World (w_row w) (w_app w) (w_volumes w) (w_instances w) d (w_links w) (w_env w) (w_next w) (w_held w) (w_calls w) (w_left w).
Definition put_env (e : gmap string string) (w : world D) : world D :=
  World (w_row w) (w_app w) (w_volumes w) (w_instances w) (w_databases w) (w_links w) e (w_next w) (w_held w) (w_calls w) (w_left w).
Definition put_held (h : gmap place D) (w : world D) : world D :=
  World (w_row w) (w_app w) (w_volumes w) (w_instances w) (w_databases w) (w_links w) (w_env w) (w_next w) h (w_calls w) (w_left w).
Definition take_id (w : world D) : world D :=
  World (w_row w) (w_app w) (w_volumes w) (w_instances w) (w_databases w) (w_links w) (w_env w) (N.succ (w_next w)) (w_held w) (w_calls w) (w_left w).
Definition with_calls (calls : nat) (left_ : option nat) (w : world D) : world D :=
  World (w_row w) (w_app w) (w_volumes w) (w_instances w) (w_databases w) (w_links w) (w_env w) (w_next w) (w_held w) calls left_.
End Writes.

(** ** Calls *)

(** What a run asks of others: the database ([CRead], [CSave], [CTx], [CFlags]), the engines of the nodes, and the
    services that deploy and route. *)
Inductive call :=
| CRead | CSave | CTx | CFlags | CGateway | CPull (server : N)
| CEnsureDir (server : N) (class volume : string) | CCreateVolume (server : N) (volume : string)
| CRemoveVolume (server : N) (volume : string) | CReclaimDir (server : N) (class volume : string)
| CPlaceVolume (server : N) (class volume : string)
| CProvision (server source owner : N) | CPollInstance (id : N)
| CSync (source target : N) (volume : string) (final : bool)
| CStopApp | CStartApp | CRemoveService (cluster : N)
| CStopContainer (server : N) (container : string) | CStartContainer (server : N) (container : string)
| CRemoveContainer (server : N) (container : string)
| CBringUp (id : N)
| CCreateDatabase (instance : N) (name : string) | CRecreateDatabase (id : N) | CDropDatabase (id : N) | CDeleteRow (id : N)
| CDump (id : N) | CLoad (id : N) | CStream (source target : N) | CReadOnly (id : N)
| CSetEnv (key value : string) | CDeploy (server : N) | CPollDeployment (id : N)
| CSyncRoute | CRehost | CReload (server : N).

Inductive poll := PollRunning | PollSucceeded | PollFailed.
(** An answer: whether it went well, what it says, and what the workloads that run wrote meanwhile *)
Record answer (D : Type) := Answer {
  an_ok : bool; an_why : string; an_created : string; an_mount : string; an_class : string; an_name : string; an_server : N;
  an_cluster : N; an_transferred : Z; an_flag : bool; an_flag2 : bool; an_poll : poll; an_data : D; an_writes : list (place * D) }.
Arguments Answer {D}.
Arguments an_ok {D}. Arguments an_why {D}. Arguments an_created {D}. Arguments an_mount {D}. Arguments an_class {D}.
Arguments an_name {D}. Arguments an_server {D}. Arguments an_cluster {D}. Arguments an_transferred {D}. Arguments an_flag {D}.
Arguments an_flag2 {D}. Arguments an_poll {D}. Arguments an_data {D}. Arguments an_writes {D}.

(** What may be written now: the volumes of the application where its row says it is, unless it is stopped; the volume
    of an instance that has a container and is not stopped; the databases attached to an application that runs. *)
Definition app_up {D} (w : world D) : bool := match w_app w with Some a => negb (bool_decide (ap_status a = AppStopped)) | None => false end.
Definition instance_up (i : instance_row) : bool := negb (bool_decide (ir_status i = DbStopped)) && negb (String.eqb (ir_container i) "").
Definition writable {D} (w : world D) (p : place) : bool :=
  match p with
  | inl (server, volume) =>
      (app_up w && bool_decide (map_Exists (fun _ v => vr_server v = server /\ vr_docker v = volume) (w_volumes w)))
      || bool_decide (map_Exists (fun _ i => ir_server i = server /\ ir_volume i = volume /\ instance_up i = true) (w_instances w))
  | inr id => match w_databases w !! id with Some d => app_up w && bool_decide (is_Some (dr_app d)) | None => false end
  end.

(** ** Computations *)

Inductive failure := FAwaiting | FCancelled | FError (why : string).
Inductive outcome (A : Type) := Done (a : A) | Failed (f : failure) | Crashed.
Arguments Done {A}. Arguments Failed {A}. Arguments Crashed {A}.
Record run_st (D : Type) := RunSt { st_world : world D; st_mig : migration }.
Arguments RunSt {D}. Arguments st_world {D}. Arguments st_mig {D}.
Definition M (D A : Type) : Type := run_st D -> run_st D * outcome A.

Section Monad.
Context {D : Type}.
Definition ret {A} (a : A) : M D A := fun s => (s, Done a).
Definition throw {A} (f : failure) : M D A := fun s => (s, Failed f).
Definition bind {A B} (c : M D A) (k : A -> M D B) : M D B :=
  fun s => match c s with (s, Done a) => k a s | (s, Failed f) => (s, Failed f) | (s, Crashed) => (s, Crashed) end.
(** What a Go caller does with an error it looks at *)
Definition attempt {A} (c : M D A) : M D (failure + A) :=
  fun s => match c s with (s, Done a) => (s, Done (inr a)) | (s, Failed f) => (s, Done (inl f)) | (s, Crashed) => (s, Crashed) end.
Definition get_world : M D (world D) := fun s => (s, Done (st_world s)).
Definition get_mig : M D migration := fun s => (s, Done (st_mig s)).
Definition change_world (f : world D -> world D) : M D unit := fun s => (RunSt (f (st_world s)) (st_mig s), Done tt).
Definition change_mig (f : migration -> migration) : M D unit := fun s => (RunSt (st_world s) (f (st_mig s)), Done tt).
Fixpoint for_each {A} (l : list A) (f : A -> M D unit) : M D unit :=
  match l with [] => ret tt | x :: l => bind (f x) (fun _ => for_each l f) end.
End Monad.
Declare Scope mig_scope.
Delimit Scope mig_scope with mig.
Notation "x <-- c ; k" := (bind c (fun x => k)) (at level 100, c at next level, right associativity) : mig_scope.
Notation "c ;;; k" := (bind c (fun _ => k)) (at level 100, right associativity) : mig_scope.
#[global] Open Scope mig_scope.

(** ** What a call does *)

Section Calls.
Context {D : Type}.

Definition held_write (w : world D) (h : gmap place D) (x : place * D) : gmap place D :=
  if writable w x.1 && bool_decide (is_Some (h !! x.1)) then <[x.1 := x.2]> h else h.
Definition drift (writes : list (place * D)) (w : world D) : world D := put_held (foldl (held_write w) (w_held w) writes) w.

Definition hold_if_absent (p : place) (d : D) (w : world D) : world D :=
  match w_held w !! p with Some _ => w | None => put_held (<[p := d]> (w_held w)) w end.
Definition copy_held (from to : place) (otherwise : D) (w : world D) : world D :=
  put_held (<[to := default otherwise (w_held w !! from)]> (w_held w)) w.

(** What a call leaves. A bring-up that fails may have made the volume ([an_flag]); then its container ran, and either it is on
    the row and it was the wait for the engine that failed ([an_flag2]), or it is not, and the volume is as it left it. Two
    things of it are not followed: a container that came up and could not be recorded, which runs on unknown to the row, and
    the creation time a bring-up gives a row that has none.

    What goes when a volume is removed: its data, and the databases of an instance whose row says it is on it *)
Definition gone_with (s : N) (v : string) (w : world D) (p : place) : bool :=
  match p with
  | inl q => bool_decide (q = (s, v))
  | inr id =>
      match w_databases w !! id with
      | Some d => match w_instances w !! dr_instance d with Some i => (ir_server i =? s)%N && String.eqb (ir_volume i) v | None => false end
      | None => false
      end
  end.
Definition effect (c : call) (a : answer D) (w : world D) : world D :=
  match c with
  | CFlags => if an_flag a then put_row (MigRow (ro_mig (w_row w)) (ro_cutover (w_row w)) true (ro_lease (w_row w))) w else w
  | CCreateVolume s v => if an_ok a then hold_if_absent (on_disk s v) (an_data a) w else w
  | CRemoveVolume s v => if an_ok a then put_held (filter (fun x => gone_with s v w x.1 = false) (w_held w)) w else w
  | CSync s t v final =>
      if final && an_ok a then copy_held (on_disk s v) (on_disk t v) (an_data a) w
      else put_held (<[on_disk t v := an_data a]> (w_held w)) w
  | CStopApp => if an_ok a then put_app (app_with_status AppStopped <$> w_app w) w else w
  | CStartApp => if an_ok a then put_app (app_with_status (if an_flag a then AppDeploying else AppRunning) <$> w_app w) w else w
  | CDeploy _ => if an_ok a then take_id (put_app (app_with_status AppDeploying <$> w_app w) w) else w
  | CPollDeployment _ =>
      match an_poll a with
      | PollSucceeded => put_app ((fun x => AppRow (ap_server x) (ap_cluster x) AppRunning (ap_service x) (an_name a) (N.succ (ap_release x))) <$> w_app w) w
      | _ => w
      end
  | CProvision s _ owner =>
      if an_ok a || an_flag a then
        let w' := put_instances (<[w_next w := InstanceRow (an_name a) s (an_cluster a) "" (an_created a) (an_class a) DbProvisioning (Some owner)]> (w_instances w)) w in
        take_id (hold_if_absent (on_disk s (an_name a)) (an_data a) w')
      else w
  | CPollInstance id =>
      match an_poll a with
      | PollRunning => w
      | PollSucceeded => put_instances (alter (instance_run DbRunning (an_name a)) id (w_instances w)) w
      | PollFailed => put_instances (alter (fun i => instance_run DbFailed (ir_container i) i) id (w_instances w)) w
      end
  | CBringUp id =>
      match w_instances w !! id with
      | Some i =>
          let p := on_disk (ir_server i) (ir_volume i) in
          let w' := if an_ok a || an_flag a then hold_if_absent p (an_data a) w else w in
          if an_ok a || (an_flag a && an_flag2 a) then put_instances (<[id := instance_run DbRunning (an_name a) i]> (w_instances w')) w'
          else if an_flag a then put_held (<[p := an_data a]> (w_held w')) w' else w'
      | None => w
      end
  | CCreateDatabase i _ =>
      if an_ok a then
        let w' := put_databases (<[w_next w := DatabaseRow i (an_name a) None "" ∅ [] false]> (w_databases w)) w in
        take_id (put_held (<[in_database (w_next w) := an_data a]> (w_held w')) w')
      else w
  | CRecreateDatabase id => put_held (<[in_database id := an_data a]> (w_held w)) w
  | CDropDatabase id => if an_ok a then put_held (delete (in_database id) (w_held w)) w else w
  | CStream from to =>
      if an_ok a then copy_held (in_database from) (in_database to) (an_data a) w
      else put_held (<[in_database to := an_data a]> (w_held w)) w
  | CReadOnly id => if an_ok a then put_databases (alter (fun d => DatabaseRow (dr_instance d) (dr_name d) (dr_app d) (dr_prefix d) (dr_map d) (dr_vars d) true) id (w_databases w)) w else w
  | _ => w
  end.

(** [ext] answers every call, [clock] is the time at each. A worker lives for [w_left] more calls; with [None] it lives on. *)
Context (ext : nat -> call -> answer D) (clock : nat -> Z).
Definition ask (c : call) : M D (answer D) := fun s =>
  let w := st_world s in
  match w_left w with
  | Some O => (s, Crashed)
  | _ =>
      let a := ext (w_calls w) c in
      (RunSt (effect c a (drift (an_writes a) (with_calls (S (w_calls w)) (pred <$> w_left w) w))) (st_mig s), Done a)
  end.
Definition must (c : call) : M D (answer D) := a <-- ask c; (if an_ok a then ret a else throw (FError (an_why a))).
Definition best (c : call) : M D unit := _ <-- ask c; ret tt.
Definition now : M D Z := w <-- get_world; ret (clock (w_calls w)).
(** [save]: a write that fails is logged, and the run goes on. *)
Definition save : M D unit :=
  a <-- ask CSave; (if an_ok a then m <-- get_mig; change_world (put_mig m) else ret tt).
(** A transaction over other tables that saves the migration with them: all or nothing *)
Definition transaction (f : world D -> option (world D)) (m : migration) : M D unit :=
  _ <-- must CTx;
  w <-- get_world;
  match f w with
  | Some w' => change_world (fun _ => put_mig m w') ;;; change_mig (fun _ => m)
  | None => throw (FError "record not found")
  end.
End Calls.
