(* ===== verification/MigrationRun.v ===== *)
(** * Moving an application to another location: the run

    [internal/services/locationmigration]: the steps of a run and what it does about a failure ([run.go]), going back and
    finishing ([rollback.go]), and what people ask of a migration ([service.go]), over the state of [Migration]; with the
    operations of [services/storage/relocate.go] and [services/database/relocate.go] a run is made of. Texts shown to
    people (progress, report, messages) are left out. *)
From S2P Require Import Prelude GoStrings Migration.
#[local] Open Scope Z_scope.
#[local] Open Scope list_scope.

Definition max_passes : nat := 5.
Definition small_delta : Z := Z.shiftl 64 20.
Definition lease_for : Z := 120 * 10 ^ 9.
Definition grace_period : Z := 7 * 24 * 3600 * 10 ^ 9.
Definition default_class : string := "default".
(** Three seconds between two looks: a quarter of an hour for an instance, twenty minutes for a deployment *)
Definition instance_polls : nat := 301.
Definition deployment_polls : nat := 401.

Section Run.
Context {D : Type} (ext : nat -> call -> answer D) (clock : nat -> Z).
(** The directory a node's storage class gives a volume, when it registers the class; the variables a database link
    writes, from its instance, database, prefix and names; whether a node no longer exists; and whether a worker that has
    begun to undo a failed move finishes it. *)
Context (class_path : N -> string -> string -> option string)
  (app_env : N -> N -> string -> gmap string string -> list (string * string)) (node_gone : N -> bool) (steady : bool).
#[local] Abbreviation ask := (ask ext).
#[local] Abbreviation must := (must ext).
#[local] Abbreviation best := (best ext).
#[local] Abbreviation save := (save ext).
#[local] Abbreviation now := (now clock).
#[local] Abbreviation M := (M D).

Definition fail_with {A} (why : string) : M A := throw (FError why).
Definition when (b : bool) (c : M unit) : M unit := if b then c else ret tt.

(** ** The operations of other services *)

(** [app], [FindInstance], [FindDatabase], [FindInWorkspace] *)
Definition the_app : M app_row := _ <-- must CRead; w <-- get_world; match w_app w with Some a => ret a | None => fail_with "application" end.
Definition find_instance (id : N) : M instance_row :=
  _ <-- must CRead; w <-- get_world; match w_instances w !! id with Some i => ret i | None => fail_with "instance" end.
Definition find_database (id : N) : M database_row :=
  _ <-- must CRead; w <-- get_world; match w_databases w !! id with Some d => ret d | None => fail_with "database" end.
Definition find_volume (id : N) : M volume_row :=
  _ <-- must CRead; w <-- get_world; match w_volumes w !! id with Some v => ret v | None => fail_with "volume" end.
Definition update_instance (id : N) (i : instance_row) : M unit :=
  _ <-- must CSave; change_world (fun w => put_instances (<[id := i]> (w_instances w)) w).

(** [storage.PrepareMove]: class, creation time and mount point of the copy *)
Definition class_on (server : N) (class volume : string) : option string :=
  if String.eqb class "" || String.eqb class default_class then None else class_path server class volume.
Definition prepare_volume_move (v : volume_row) (server : N) : M (string * string * string) :=
  if vr_host v then fail_with "a host-path volume cannot be moved"
  else
    let path := if vr_shared v then None else class_on server (vr_class v) (vr_docker v) in
    (match path with Some _ => _ <-- must (CEnsureDir server (vr_class v) (vr_docker v)); ret tt | None => ret tt end) ;;;
    a <-- must (CCreateVolume server (vr_docker v));
    ret (match path with Some _ => vr_class v | None => default_class end, an_created a,
         match path with Some p => if String.eqb p "" then an_mount a else p | None => an_mount a end).
(** [storage.DropCopy] *)
Definition drop_volume_copy (server : N) (volume class : string) : M unit :=
  a <-- ask (CRemoveVolume server volume); (if an_ok a then best (CReclaimDir server class volume) else ret tt).

(** [database.PrepareMove] *)
Definition prepare_instance_move (i : instance_row) (server : N) : M (string * string) :=
  class <-- (if String.eqb (ir_class i) "" || String.eqb (ir_class i) default_class then ret default_class
             else a <-- ask (CPlaceVolume server (ir_class i) (ir_volume i)); ret (if an_ok a then an_class a else default_class));
  a <-- must (CCreateVolume server (ir_volume i));
  ret (class, an_created a).
(** [StopForMove], [StartStopped], [BringUpMoved] *)
Definition stop_for_move (id : N) (i : instance_row) : M unit :=
  if String.eqb (ir_container i) "" then ret tt
  else _ <-- must (CStopContainer (ir_server i) (ir_container i)); update_instance id (instance_run DbStopped (ir_container i) i).
Definition bring_up_moved (id : N) : M unit := _ <-- must (CBringUp id); ret tt.
Definition start_stopped (id : N) (i : instance_row) : M unit :=
  if String.eqb (ir_container i) "" then bring_up_moved id
  else _ <-- must (CStartContainer (ir_server i) (ir_container i)); update_instance id (instance_run DbRunning (ir_container i) i).
(** [database.DropCopy] *)
Definition drop_instance_copy (server : N) (container volume class : string) : M unit :=
  when (negb (String.eqb container "")) (best (CStopContainer server container) ;;; best (CRemoveContainer server container)) ;;;
  when (negb (String.eqb volume "")) (drop_volume_copy server volume class).
(** [database.Stop], [database.Delete] (of an instance given to a person, so its owner does not stand in the way),
    [DeleteDatabase] *)
Definition stop_instance (id : N) (i : instance_row) : M instance_row :=
  let i' := instance_run DbStopped (ir_container i) i in
  if bool_decide (ir_status i = DbUpgrading) then fail_with "upgrading"
  else if node_gone (ir_server i) then _ <-- attempt (update_instance id i'); ret i'
  else if String.eqb (ir_container i) "" then fail_with "no container"
  else
    _ <-- must (CStopContainer (ir_server i) (ir_container i));
    _ <-- attempt (update_instance id i'); ret i'.
Definition delete_instance (id : N) (i : instance_row) : M unit :=
  if bool_decide (ir_status i = DbUpgrading) || (bool_decide (ir_status i = DbRunning) && negb (node_gone (ir_server i)))
  then fail_with "instance running"
  else
    w <-- get_world;
    (if bool_decide (map_Exists (fun _ d => dr_instance d = id /\ is_Some (dr_app d)) (w_databases w)) then fail_with "instance in use"
     else if existsb (fun l => (l.1 =? id)%N) (w_links w) then fail_with "instance linked"
     else
       when (negb (String.eqb (ir_container i) ""))
         (best (CStopContainer (ir_server i) (ir_container i)) ;;; best (CRemoveContainer (ir_server i) (ir_container i))) ;;;
       when (negb (String.eqb (ir_volume i) ""))
         (best (CRemoveVolume (ir_server i) (ir_volume i)) ;;; best (CReclaimDir (ir_server i) (ir_class i) (ir_volume i))) ;;;
       _ <-- must (CDeleteRow id);
       change_world (fun w => put_databases (filter (fun x => dr_instance x.2 <> id) (w_databases w)) (put_instances (delete id (w_instances w)) w))).
Definition delete_database (id : N) : M unit :=
  d <-- find_database id;
  i <-- find_instance (dr_instance d);
  when (bool_decide (ir_status i = DbRunning)) (best (CDropDatabase id)) ;;;
  _ <-- must (CDeleteRow id);
  change_world (fun w => put_databases (delete id (w_databases w)) w).

(** ** Preparing *)

(** [prepare]: a volume, and an instance that moves whole, get an empty copy at the target; the others get an instance to
    restore into. *)
Definition prepare_volume (pv : plan_volume) : M unit :=
  m <-- get_mig;
  if match find_volume_state m (pv_id pv) with Some vs => vs_prepared vs | None => false end then ret tt
  else
    v <-- find_volume (pv_id pv);
    t <-- prepare_volume_move v (mg_tgt_server m);
    let '(class, created, mount) := t in
    let vs := VolumeState (pv_id pv) (vr_docker v) (vr_server v) (vr_cluster v) (vr_created v) (vr_mount v) (vr_class v)
                created mount class true in
    change_mig (in_state (fun s => so_with_volumes (so_volumes s ++ [vs]) s)) ;;; save.

(** [provisionTarget]: the pending restore is recorded while the instance comes up. *)
Fixpoint await_instance (polls : nat) (id : N) : M unit :=
  match polls with
  | O => fail_with "instance did not start in time"
  | S polls =>
      a <-- ask (CPollInstance id);
      (if an_ok a then
         w <-- get_world;
         match w_instances w !! id with
         | Some i =>
             if bool_decide (ir_status i = DbRunning) then ret tt
             else if bool_decide (ir_status i = DbFailed) then fail_with "instance failed to start"
             else await_instance polls id
         | None => await_instance polls id
         end
       else await_instance polls id)
  end.
Definition provision_target (source : N) : M N :=
  m <-- get_mig;
  w <-- get_world;
  _ <-- must (CProvision (mg_tgt_server m) source (mg_app m));
  let id := w_next w in
  change_mig (in_state (fun s => so_with_restores (so_restores s ++ [Restore 0 source "" "" id 0 true false]) s)) ;;; save ;;;
  await_instance instance_polls id ;;;
  change_mig (in_state (fun s => so_with_restores (removelast (so_restores s)) s)) ;;;
  ret id.
Definition prepare_database (pd : plan_database) : M unit :=
  i <-- find_instance (pd_instance pd);
  m <-- get_mig;
  match pd_strategy pd with
  | StrategyMove =>
      if match find_move_state m (pd_instance pd) with Some ms => ms_prepared ms | None => false end then ret tt
      else
        t <-- prepare_instance_move i (mg_tgt_server m);
        let ms := MoveState (pd_instance pd) (ir_volume i) (ir_server i) (ir_cluster i) (ir_container i) (ir_created i) (ir_class i)
                    t.2 t.1 "" true in
        change_mig (in_state (fun s => so_with_instances (so_instances s ++ [ms]) s)) ;;; save
  | _ =>
      if has_restores m (pd_instance pd) then ret tt
      else
        target <-- (if bool_decide (pd_strategy pd = StrategyNewInstance) then provision_target (pd_instance pd) else ret (pd_target pd));
        let created := bool_decide (pd_strategy pd = StrategyNewInstance) in
        let l := (fun d => Restore (pg_id d) (pd_instance pd) (pg_name d) (pg_prefix d) target 0 created false) <$> pd_databases pd in
        change_mig (in_state (fun s => so_with_restores (so_restores s ++ l) s)) ;;; save
  end.
Definition pre_pull : M unit := m <-- get_mig; a <-- ask CRead; when (an_ok a) (best (CPull (mg_tgt_server m))).
Definition prepare : M unit :=
  a <-- the_app;
  m <-- get_mig;
  (if String.eqb (so_container (mg_state m)) "" && negb (ap_service a) then
     r <-- ask CRead; when (an_ok r) (change_mig (in_state (so_with_source (ap_container a) (ap_release a))))
   else ret tt) ;;;
  g <-- ask CGateway;
  when (an_ok g) (change_mig (in_state (so_with_gateway (an_server g)))) ;;;
  for_each (mp_volumes (mg_plan m)) prepare_volume ;;;
  for_each (mp_databases (mg_plan m)) prepare_database ;;;
  pre_pull.

(** ** Copying *)

(** [copyJobs]: source node, and the volume, which has the same name on both *)
Definition copy_jobs (m : migration) : list (N * string) :=
  List.flat_map (fun pv => match find_volume_state m (pv_id pv) with
                           | Some vs => if pv_copy pv then [(vs_src_server vs, vs_docker vs)] else []
                           | None => [] end) (mp_volumes (mg_plan m))
  ++ ((fun ms => (ms_src_server ms, ms_volume ms)) <$> so_instances (mg_state m)).
(** [syncOne]: what the pass transferred *)
Definition sync_one (final : bool) (j : N * string) : M Z :=
  save ;;;
  m <-- get_mig;
  a <-- ask (CSync j.1 (mg_tgt_server m) j.2 final);
  (if an_ok a then save ;;; ret (an_transferred a) else save ;;; fail_with (an_why a)).
Definition cancel_requested : M bool := a <-- ask CFlags; w <-- get_world; ret (an_ok a && ro_cancel (w_row w)).
Fixpoint sync_pass (jobs : list (N * string)) (delta : Z) : M Z :=
  match jobs with
  | [] => ret delta
  | j :: jobs =>
      c <-- cancel_requested;
      (if c : bool then throw FCancelled
       else n <-- sync_one false j; sync_pass jobs (wrap64 (delta + n)))
  end.
(** [presync]: the passes stop once one sends little, or no longer halves what the one before sent. *)
Fixpoint presync_passes (left_ : nat) (pass : Z) (prev : Z) (jobs : list (N * string)) : M unit :=
  match left_ with
  | O => ret tt
  | S left_ =>
      delta <-- sync_pass jobs 0;
      save ;;;
      (if (1 <? pass) && ((delta <? small_delta) || ((0 <=? prev) && (prev <? wrap64 (delta * 2)))) then ret tt
       else presync_passes left_ (pass + 1) delta jobs)
  end.
Definition presync : M unit :=
  m <-- get_mig;
  let jobs := copy_jobs m in
  a <-- ask CFlags;
  w <-- get_world;
  let cutover := an_ok a && ro_cutover (w_row w) in
  (match jobs with [] => ret tt | _ => presync_passes (if cutover then 1%nat else max_passes) 1 (-1) jobs end) ;;;
  (if mg_manual m && negb cutover then change_mig (set_status MigAwaitingCutover) ;;; save ;;; throw FAwaiting else ret tt).

(** [stop]: the application, then the instances that move, are stopped; that the downtime has begun is recorded first. *)
Definition stop : M unit :=
  a <-- the_app;
  t <-- now;
  change_mig (fun m => in_state so_with_stopped
    (set_times (match mg_downtime_at m with None => Some t | d => d end) (mg_cutover_at m) (mg_finalize_after m) (mg_finished_at m) m)) ;;;
  save ;;;
  (if bool_decide (ap_status a = AppStopped) then ret tt else _ <-- must CStopApp; ret tt) ;;;
  m <-- get_mig;
  for_each (so_instances (mg_state m)) (fun ms => i <-- find_instance (ms_id ms); stop_for_move (ms_id ms) i).

(** [restoreOne], of the restore at that index *)
Definition update_restore (n : nat) (f : restore -> restore) : M unit :=
  change_mig (in_state (fun s => so_with_restores (alter f n (so_restores s)) s)).
Definition with_target_db (id : N) (r : restore) : restore :=
  Restore (rs_src_db r) (rs_src_instance r) (rs_name r) (rs_prefix r) (rs_tgt_instance r) id (rs_created r) (rs_restored r).
Definition with_restored (r : restore) : restore :=
  Restore (rs_src_db r) (rs_src_instance r) (rs_name r) (rs_prefix r) (rs_tgt_instance r) (rs_tgt_db r) (rs_created r) true.
Definition restore_one (n : nat) (r : restore) : M unit :=
  _ <-- find_instance (rs_src_instance r);
  d <-- find_database (rs_src_db r);
  _ <-- find_instance (rs_tgt_instance r);
  target <-- (if (rs_tgt_db r =? 0)%N then
                w <-- get_world;
                _ <-- must (CCreateDatabase (rs_tgt_instance r) (rs_name r));
                let id := w_next w in
                update_restore n (with_target_db id) ;;; save ;;; ret id
              else
                _ <-- find_database (rs_tgt_db r);
                _ <-- must (CRecreateDatabase (rs_tgt_db r)); ret (rs_tgt_db r));
  _ <-- must (CDump (rs_src_db r));
  _ <-- must (CLoad target);
  save ;;;
  _ <-- must (CStream (rs_src_db r) target);
  (if dr_readonly d then _ <-- must (CReadOnly target); ret tt else ret tt) ;;;
  update_restore n with_restored ;;; save.
Definition restore_at (n : nat) : M unit :=
  m <-- get_mig;
  match so_restores (mg_state m) !! n with
  | Some r =>
      if rs_restored r || (rs_src_db r =? 0)%N then ret tt
      else
        o <-- attempt (restore_one n r);
        match o with inr _ => ret tt | inl f => save ;;; throw f end
  | None => ret tt
  end.
Definition final_sync : M unit :=
  m <-- get_mig;
  for_each (copy_jobs m) (fun j => _ <-- sync_one true j; ret tt) ;;;
  m <-- get_mig;
  for_each (seq 0 (length (so_restores (mg_state m)))) restore_at.

(** ** The switch *)

(** [swapOwner] *)
Definition swap_owner (from to app : N) (prefix : string) (d : gmap N database_row) : option (gmap N database_row) :=
  match d !! from with
  | None => None
  | Some x => Some (alter (database_link (Some app) prefix (dr_map x) (dr_vars x)) to (alter (database_link None "" ∅ []) from d))
  end.
Definition switch_volume (m : migration) (v : gmap N volume_row) (vs : volume_state) : gmap N volume_row :=
  alter (volume_at (mg_tgt_server m) (mg_tgt_cluster m) (vs_tgt_created vs) (vs_tgt_mount vs) (vs_tgt_class vs)) (vs_id vs) v.
Definition switch_instance (m : migration) (i : gmap N instance_row) (ms : move_state) : gmap N instance_row :=
  alter (instance_at (mg_tgt_server m) (mg_tgt_cluster m) (ms_tgt_created ms) (ms_tgt_class ms) "") (ms_id ms) i.
Definition switch_database (m : migration) (d : option (gmap N database_row)) (r : restore) : option (gmap N database_row) :=
  match d with
  | Some d => if (rs_src_db r =? 0)%N then Some d else swap_owner (rs_src_db r) (rs_tgt_db r) (mg_app m) (rs_prefix r) d
  | None => None
  end.
Definition switch_rows (m : migration) (w : world D) : option (world D) :=
  match foldl (switch_database m) (Some (w_databases w)) (so_restores (mg_state m)) with
  | None => None
  | Some d =>
      Some (put_databases d (put_instances (foldl (switch_instance m) (w_instances w) (so_instances (mg_state m)))
        (put_volumes (foldl (switch_volume m) (w_volumes w) (so_volumes (mg_state m)))
          (put_app (app_at (mg_tgt_server m) (mg_tgt_cluster m) <$> w_app w) w))))
  end.
(** [inject] *)
Definition inject (instance database : N) (prefix : string) : M unit :=
  _ <-- find_instance instance;
  d <-- find_database database;
  for_each (app_env instance database prefix (dr_map d)) (fun kv =>
    _ <-- must (CSetEnv kv.1 kv.2); change_world (fun w => put_env (<[kv.1 := kv.2]> (w_env w)) w)).
(** [switchOver]: the rows move in one transaction with the record that they have. *)
Definition switch_over : M unit :=
  m <-- get_mig;
  (if so_switched (mg_state m) then ret tt
   else transaction ext (switch_rows m) (in_state (so_with_switched true) m)) ;;;
  m <-- get_mig;
  for_each (so_instances (mg_state m)) (fun ms =>
    i <-- find_instance (ms_id ms);
    (if bool_decide (ir_status i = DbRunning) && negb (String.eqb (ir_container i) "") then ret tt else bring_up_moved (ms_id ms))) ;;;
  _ <-- the_app;
  for_each (so_restores (mg_state m)) (fun r =>
    if (rs_tgt_db r =? 0)%N then ret tt else inject (rs_tgt_instance r) (rs_tgt_db r) (rs_prefix r)).

Fixpoint await_deployment (polls : nat) (id : N) : M unit :=
  match polls with
  | O => fail_with "the deployment did not finish in time"
  | S polls =>
      a <-- ask (CPollDeployment id);
      (if an_ok a then
         match an_poll a with
         | PollSucceeded => ret tt
         | PollFailed => fail_with "the deployment failed"
         | PollRunning => await_deployment polls id
         end
       else await_deployment polls id)
  end.
(** [RelocateDeploy]: the deployment's id *)
Definition relocate_deploy (a : app_row) : M N := w <-- get_world; _ <-- must (CDeploy (ap_server a)); ret (w_next w).
Definition verify : M unit :=
  m <-- get_mig;
  (if (so_deployment (mg_state m) =? 0)%N then
     a <-- the_app;
     id <-- relocate_deploy a;
     change_mig (in_state (so_with_deployment id)) ;;; save
   else ret tt) ;;;
  m <-- get_mig;
  await_deployment deployment_polls (so_deployment (mg_state m)).
Definition reroute : M unit :=
  _ <-- the_app;
  best CSyncRoute ;;; best CRehost ;;;
  m <-- get_mig;
  when (negb (so_gateway (mg_state m) =? 0)%N) (best (CReload (so_gateway (mg_state m)))).

(** ** Going back *)

(** [removeRuntime] *)
Definition remove_runtime (a : app_row) (cluster server : N) (active : bool) : M unit :=
  if ap_service a then best (CRemoveService cluster)
  else if negb active then ret tt
  else
    r <-- ask CRead;
    when (an_ok r && negb (String.eqb (ap_container a) ""))
      (best (CStopContainer server (ap_container a)) ;;; best (CRemoveContainer server (ap_container a))).
(** [restartSource] *)
Definition restart_source : M unit :=
  m <-- get_mig;
  for_each (so_instances (mg_state m)) (fun ms =>
    o <-- attempt (find_instance (ms_id ms));
    match o with
    | inr i => if bool_decide (ir_status i = DbRunning) then ret tt else _ <-- attempt (start_stopped (ms_id ms) i); ret tt
    | inl _ => ret tt
    end) ;;;
  o <-- attempt the_app;
  match o with inr _ => best CStartApp | inl _ => ret tt end.
(** [cleanupTarget] *)
Definition drop_created (id : N) : M unit :=
  o <-- attempt (find_instance id);
  match o with
  | inr i =>
      o <-- (if bool_decide (ir_status i = DbRunning) then attempt (stop_instance id i) else ret (inr i));
      _ <-- attempt (delete_instance id (match o with inr i' => i' | inl _ => i end)); ret tt
  | inl _ => ret tt
  end.
Definition created_instances (m : migration) : list N :=
  remove_dups (rs_tgt_instance <$> List.filter (fun r => rs_created r && negb (rs_tgt_instance r =? 0)%N) (so_restores (mg_state m))).
Definition cleanup_target : M unit :=
  m <-- get_mig;
  for_each (so_volumes (mg_state m)) (fun vs =>
    when (vs_prepared vs) (drop_volume_copy (mg_tgt_server m) (vs_docker vs) (vs_tgt_class vs))) ;;;
  for_each (so_instances (mg_state m)) (fun ms =>
    when (ms_prepared ms) (drop_instance_copy (mg_tgt_server m) (ms_tgt_container ms) (ms_volume ms) (ms_tgt_class ms))) ;;;
  for_each (so_restores (mg_state m)) (fun r =>
    if (rs_tgt_db r =? 0)%N then ret tt else _ <-- attempt (delete_database (rs_tgt_db r)); ret tt) ;;;
  for_each (created_instances m) drop_created ;;;
  change_mig (in_state (fun s => so_with_restores [] (so_with_instances [] (so_with_volumes [] s)))).

(** [switchBack] *)
Definition back_volume (v : gmap N volume_row) (vs : volume_state) : gmap N volume_row :=
  alter (volume_at (vs_src_server vs) (vs_src_cluster vs) (vs_src_created vs) (vs_src_mount vs) (vs_src_class vs)) (vs_id vs) v.
Definition back_instance (i : gmap N instance_row) (ms : move_state) : gmap N instance_row :=
  alter (instance_at (ms_src_server ms) (ms_src_cluster ms) (ms_src_created ms) (ms_src_class ms) (ms_src_container ms)) (ms_id ms) i.
Definition back_database (m : migration) (d : option (gmap N database_row)) (r : restore) : option (gmap N database_row) :=
  match d with
  | Some d =>
      if (rs_src_db r =? 0)%N || (rs_tgt_db r =? 0)%N then Some d
      else swap_owner (rs_tgt_db r) (rs_src_db r) (mg_app m) (rs_prefix r) d
  | None => None
  end.
Definition back_rows (m : migration) (w : world D) : option (world D) :=
  match foldl (back_database m) (Some (w_databases w)) (so_restores (mg_state m)) with
  | None => None
  | Some d =>
      Some (put_databases d (put_instances (foldl back_instance (w_instances w) (so_instances (mg_state m)))
        (put_volumes (foldl back_volume (w_volumes w) (so_volumes (mg_state m)))
          (put_app (app_at (mg_src_server m) (mg_src_cluster m) <$> w_app w) w))))
  end.
(** The containers instances have at the target are read before the rows forget them. *)
Fixpoint stop_targets (l : list move_state) (acc : list (N * string)) : M (list (N * string)) :=
  match l with
  | [] => ret acc
  | ms :: l =>
      o <-- attempt (find_instance (ms_id ms));
      match o with
      | inr i => _ <-- attempt (stop_for_move (ms_id ms) i); stop_targets l (acc ++ [(ms_id ms, ir_container i)])
      | inl _ => stop_targets l acc
      end
  end.
Definition with_target_container (containers : list (N * string)) (ms : move_state) : move_state :=
  MoveState (ms_id ms) (ms_volume ms) (ms_src_server ms) (ms_src_cluster ms) (ms_src_container ms) (ms_src_created ms) (ms_src_class ms)
    (ms_tgt_created ms) (ms_tgt_class ms)
    (match find_first (fun x => (x.1 =? ms_id ms)%N) containers with Some x => x.2 | None => "" end) (ms_prepared ms).
Definition switch_back : M unit :=
  a <-- the_app;
  g <-- ask CGateway;
  m <-- get_mig;
  remove_runtime a (mg_tgt_cluster m) (mg_tgt_server m) true ;;;
  containers <-- stop_targets (so_instances (mg_state m)) [];
  m <-- get_mig;
  transaction ext (back_rows m) (in_state (so_with_switched false) m) ;;;
  change_mig (in_state (fun s => so_with_instances (with_target_container containers <$> so_instances s) s)) ;;;
  for_each (so_instances (mg_state m)) (fun ms => i <-- find_instance (ms_id ms); start_stopped (ms_id ms) i) ;;;
  a <-- the_app;
  for_each (so_restores (mg_state m)) (fun r =>
    if (rs_src_db r =? 0)%N then ret tt else inject (rs_src_instance r) (rs_src_db r) (rs_prefix r)) ;;;
  id <-- relocate_deploy a;
  await_deployment deployment_polls id ;;;
  when (negb (String.eqb (so_container (mg_state m)) "")) (best (CRemoveContainer (mg_src_server m) (so_container (mg_state m)))) ;;;
  best CSyncRoute ;;; best CRehost ;;;
  when (an_ok g && negb (an_server g =? 0)%N) (best (CReload (an_server g))).

(** [rollback]; [cause] is the failure that made it necessary, when there is one. *)
Definition finish (s : mig_status) (t : Z) (e : option string) (keep_finalize : bool) (m : migration) : migration :=
  set_error e (set_status s (set_times (mg_downtime_at m) (mg_cutover_at m) (if keep_finalize then mg_finalize_after m else None) (Some t) m)).
Definition rollback (cause : option string) : M unit :=
  change_mig (set_phase PhRollback) ;;; save ;;;
  m <-- get_mig;
  let finish_back :=
    cleanup_target ;;;
    t <-- now;
    change_mig (fun m => finish MigRolledBack t (match cause with Some _ => cause | None => mg_error m end) false m) ;;; save in
  if so_switched (mg_state m) then
    o <-- attempt switch_back;
    match o with
    | inr _ => finish_back
    | inl f =>
        t <-- now;
        let why := match f with FError e => e | _ => "" end in
        change_mig (fun m => finish MigFailed t
          (Some (match cause with Some c => c +:+ "; rollback failed: " +:+ why | None => "rollback failed: " +:+ why end)) true m) ;;; save
    end
  else
    when (so_stopped (mg_state m)) restart_source ;;; finish_back.

(** ** The run *)

(** What undoes a move that has not switched, and records it. When [steady], a worker that begins it finishes it and its
    record is written. *)
Definition whole (c : M unit) : M unit :=
  if steady then
    w <-- get_world;
    let left_ := w_left w in
    change_world (fun w => with_calls (w_calls w) None w) ;;;
    o <-- attempt c;
    m <-- get_mig;
    change_world (fun w => put_mig m (with_calls (w_calls w) left_ w)) ;;;
    match o with inr _ => ret tt | inl f => throw f end
  else c.
(** [fail] and [cancelNow] *)
Definition fail_move (cause : string) : M unit :=
  m <-- get_mig;
  if so_switched (mg_state m) then rollback (Some cause)
  else whole (
    when (so_stopped (mg_state m)) restart_source ;;;
    cleanup_target ;;;
    t <-- now;
    change_mig (fun m => finish MigFailed t (Some cause) true m) ;;; save).
Definition cancel_now : M unit := whole (
  cleanup_target ;;;
  t <-- now;
  change_mig (fun m => finish MigCancelled t (mg_error m) true m) ;;; save).

Definition steps : list (mig_phase * M unit) :=
  [(PhPrepare, prepare); (PhPresync, presync); (PhStop, stop); (PhFinalSync, final_sync); (PhSwitch, switch_over);
   (PhVerify, verify); (PhReroute, reroute)].
(** A run starts at the step its row names, or at the first. *)
Fixpoint from_phase (p : mig_phase) (l : list (mig_phase * M unit)) : list (mig_phase * M unit) :=
  match l with [] => [] | x :: l => if bool_decide (x.1 = p) then x :: l else from_phase p l end.
Definition steps_from (p : mig_phase) : list (mig_phase * M unit) := match from_phase p steps with [] => steps | l => l end.
Definition cut_over : M unit :=
  t <-- now;
  change_mig (fun m => set_status MigCutOver (set_phase PhDone
    (set_times (mg_downtime_at m) (Some t) (Some (t + grace_period)) (mg_finished_at m) m))) ;;; save.
Fixpoint run_steps (l : list (mig_phase * M unit)) : M unit :=
  match l with
  | [] => cut_over
  | (p, step) :: l =>
      c <-- cancel_requested;
      m <-- get_mig;
      if c && negb (so_stopped (mg_state m)) then cancel_now
      else
        change_mig (set_phase p) ;;; save ;;;
        o <-- attempt step;
        match o with
        | inr _ => run_steps l
        | inl FAwaiting => ret tt
        | inl FCancelled => cancel_now
        | inl (FError e) => fail_move e
        end
  end.
Definition forward : M unit := m <-- get_mig; run_steps (steps_from (mg_phase m)).

(** [finalize] *)
Fixpoint drop_sources (rs : list restore) (emptied : list N) : M (list N) :=
  match rs with
  | [] => ret emptied
  | r :: rs =>
      if (rs_src_db r =? 0)%N then drop_sources rs emptied
      else
        o <-- attempt (delete_database (rs_src_db r));
        drop_sources rs (match o with inr _ => emptied ++ [rs_src_instance r] | inl _ => emptied end)
  end.
Definition drop_emptied (app id : N) : M unit :=
  o <-- attempt (find_instance id);
  match o with
  | inr i =>
      if bool_decide (ir_owner i = Some app) then
        a <-- ask CRead;
        w <-- get_world;
        (if an_ok a && bool_decide (map_Forall (fun _ d => dr_instance d <> id) (w_databases w)) then
           o <-- (if bool_decide (ir_status i = DbRunning) then attempt (stop_instance id i) else ret (inr i));
           _ <-- attempt (delete_instance id (match o with inr i' => i' | inl _ => i end)); ret tt
         else ret tt)
      else ret tt
  | inl _ => ret tt
  end.
Definition finalize : M unit :=
  m <-- get_mig;
  o <-- attempt the_app;
  match o with
  | inr a =>
      if ap_service a then remove_runtime a (mg_src_cluster m) (mg_src_server m) false
      else when (negb (String.eqb (so_container (mg_state m)) ""))
             (best (CStopContainer (mg_src_server m) (so_container (mg_state m))) ;;; best (CRemoveContainer (mg_src_server m) (so_container (mg_state m))))
  | inl _ => ret tt
  end ;;;
  for_each (so_volumes (mg_state m)) (fun vs => drop_volume_copy (vs_src_server vs) (vs_docker vs) (vs_src_class vs)) ;;;
  for_each (so_instances (mg_state m)) (fun ms => drop_instance_copy (ms_src_server ms) (ms_src_container ms) (ms_volume ms) (ms_src_class ms)) ;;;
  emptied <-- drop_sources (so_restores (mg_state m)) [];
  for_each (remove_dups emptied) (drop_emptied (mg_app m)) ;;;
  t <-- now;
  change_mig (fun m => set_phase PhDone (finish MigFinalized t (mg_error m) false m)) ;;; save.

(** [Run] of a worker that lives for so many calls: a row that is not running, or whose lease another holds, is left alone. *)
Definition dispatch : M unit :=
  m <-- get_mig;
  match mg_phase m with PhRollback => rollback None | PhFinalize => finalize | _ => forward end.
Definition lease_free (r : mig_row) (t : Z) : bool := match ro_lease r with None => true | Some u => u <? t end.
Definition set_lease (l : option Z) (w : world D) : world D :=
  put_row (MigRow (ro_mig (w_row w)) (ro_cutover (w_row w)) (ro_cancel (w_row w)) l) w.
Definition run (calls_left : option nat) (w : world D) : world D :=
  let r := w_row w in
  let t := clock (w_calls w) in
  if negb (bool_decide (mg_status (ro_mig r) = MigRunning)) || negb (lease_free r t) then w
  else
    match dispatch (RunSt (with_calls (w_calls w) calls_left (set_lease (Some (t + lease_for)) w)) (ro_mig r)) with
    | (s, Crashed) => st_world s
    | (s, _) => set_lease None (st_world s)
    end.

(** ** What people ask ([service.go]) *)

Inductive mig_err := ErrWrongState | ErrPastPointOfNoReturn.
Definition ask_cutover (w : world D) : world D * result mig_err unit :=
  let m := ro_mig (w_row w) in
  if negb (bool_decide (mg_status m = MigAwaitingCutover)) then (w, Err ErrWrongState)
  else (put_row (MigRow (set_phase PhPresync (set_status MigRunning m)) true (ro_cancel (w_row w)) (ro_lease (w_row w))) w, Ok tt).
Definition ask_cancel (calls_left : option nat) (w : world D) : world D * result mig_err unit :=
  let m := ro_mig (w_row w) in
  match mg_status m with
  | MigAwaitingCutover => (st_world (cancel_now (RunSt (with_calls (w_calls w) calls_left w) m)).1, Ok tt)
  | MigRunning =>
      if so_stopped (mg_state m) then (w, Err ErrPastPointOfNoReturn)
      else (put_row (MigRow m (ro_cutover (w_row w)) true (ro_lease (w_row w))) w, Ok tt)
  | _ => (w, Err ErrWrongState)
  end.
Definition ask_rollback (w : world D) : world D * result mig_err unit :=
  let m := ro_mig (w_row w) in
  if negb (bool_decide (mg_status m = MigCutOver)) && negb (bool_decide (mg_status m = MigFailed) && so_stopped (mg_state m))
  then (w, Err ErrWrongState)
  else (put_mig (set_error None (set_phase PhRollback (set_status MigRunning m))) w, Ok tt).
Definition ask_finalize (w : world D) : world D * result mig_err unit :=
  let m := ro_mig (w_row w) in
  if negb (bool_decide (mg_status m = MigCutOver)) then (w, Err ErrWrongState)
  else (put_mig (set_phase PhFinalize (set_status MigRunning m)) w, Ok tt).
(** [Sweep] on this migration: a cut-over one whose grace is over is finalized. *)
Definition due (t : Z) (m : migration) : bool :=
  bool_decide (mg_status m = MigCutOver) && match mg_finalize_after m with Some u => u <? t | None => false end.
Definition sweep_due (t : Z) (w : world D) : world D :=
  if due t (ro_mig (w_row w)) then put_mig (set_phase PhFinalize (set_status MigRunning (ro_mig (w_row w)))) w else w.

(** What can happen to a migration, in the order it happens *)
Inductive action := ARun (calls_left : option nat) | ACutover | ACancel (calls_left : option nat) | ARollback | AFinalize | ASweep (t : Z).
Definition act (w : world D) (a : action) : world D :=
  match a with
  | ARun n => run n w
  | ACutover => (ask_cutover w).1
  | ACancel n => (ask_cancel n w).1
  | ARollback => (ask_rollback w).1
  | AFinalize => (ask_finalize w).1
  | ASweep t => sweep_due t w
  end.
Definition history (l : list action) (w : world D) : world D := foldl act w l.
(** [Start], once the plan stands *)
Definition start_migration (app : N) (a : app_row) (plan : mig_plan) (server cluster : N) (manual : bool) : mig_row :=
  MigRow (Migration app (ap_cluster a) (ap_server a) cluster server MigRunning PhPrepare manual plan
    (MigState "" 0 [] [] [] false false 0 0) None None None None None) false false None.
End Run.
