(* ===== verification/MigrationInv.v ===== *)
(** * Moving an application to another location: what holds at every instant

    The invariant of a migration: what the rows say, what the nodes hold and what the recorded state knows fit together,
    whatever a run was doing when it stopped. Here: the setting a migration starts from, the invariant, and how the
    calls of a run change what it speaks of. *)
From S2P Require Import Prelude GoStrings Migration MigrationRun.
#[local] Open Scope Z_scope.
#[local] Open Scope list_scope.

(** ** The setting *)

(** The rows as they are when the migration starts, and its plan *)
Record setting := Setting {
  sg_app : N; sg_src_server : N; sg_src_cluster : N; sg_tgt_server : N; sg_tgt_cluster : N; sg_plan : mig_plan;
  sg_volumes : gmap N volume_row; sg_instances : gmap N instance_row; sg_databases : gmap N database_row }.
Definition planned_volume (g : setting) (id : N) : Prop := id ∈ pv_id <$> mp_volumes (sg_plan g).
Definition copied_volume (g : setting) (id : N) : Prop := exists pv, pv ∈ mp_volumes (sg_plan g) /\ pv_id pv = id /\ pv_copy pv = true.
Definition moving (g : setting) (id : N) : Prop :=
  exists pd, pd ∈ mp_databases (sg_plan g) /\ pd_instance pd = id /\ pd_strategy pd = StrategyMove.
Definition planned_database (g : setting) (pd : plan_database) (d : plan_logical) : Prop :=
  pd ∈ mp_databases (sg_plan g) /\ pd_strategy pd <> StrategyMove /\ d ∈ pd_databases pd.
Definition restored_ids (p : mig_plan) : list N :=
  List.flat_map (fun pd => if bool_decide (pd_strategy pd = StrategyMove) then [] else pg_id <$> pd_databases pd) (mp_databases p).

(** What the plan has to be: nothing planned already lives on the target node, names of volumes are unique, each planned
    database is the application's, and planned once. *)
Record well_planned (g : setting) : Prop := WellPlanned {
  wp_volume : forall id, planned_volume g id -> exists v, sg_volumes g !! id = Some v /\ vr_server v <> sg_tgt_server g;
  wp_instance : forall id, moving g id -> exists i, sg_instances g !! id = Some i /\ ir_server i <> sg_tgt_server g /\ ir_volume i <> "";
  wp_volume_names : forall i j v v', sg_volumes g !! i = Some v -> sg_volumes g !! j = Some v' -> vr_docker v = vr_docker v' -> i = j;
  wp_instance_names : forall i j v v', sg_instances g !! i = Some v -> sg_instances g !! j = Some v' ->
    ir_volume v = ir_volume v' -> ir_volume v <> "" -> i = j;
  wp_names_apart : forall i j v v', sg_volumes g !! i = Some v -> sg_instances g !! j = Some v' -> vr_docker v <> ir_volume v';
  wp_database : forall pd d, planned_database g pd d -> pg_id d <> 0%N /\ exists x, sg_databases g !! pg_id d = Some x
    /\ dr_app x = Some (sg_app g) /\ dr_prefix x = pg_prefix d;
  wp_one_strategy : forall pd pd', pd ∈ mp_databases (sg_plan g) -> pd' ∈ mp_databases (sg_plan g) -> pd_instance pd = pd_instance pd' ->
    pd_strategy pd = pd_strategy pd';
  wp_database_once : NoDup (restored_ids (sg_plan g)) }.

Existing Class well_planned.

Definition taken_name (g : setting) (name : string) : Prop :=
  (exists id v, sg_volumes g !! id = Some v /\ vr_docker v = name) \/ (exists id i, sg_instances g !! id = Some i /\ ir_volume i = name).

(** What the engines promise: the volume of a new instance gets a name nothing else has. *)
Class lawful {D} (g : setting) (ext : nat -> call -> answer D) : Prop := Lawful {
  law_names : forall n s a o, ~ taken_name g (an_name (ext n (CProvision s a o))) }.

(** ** The invariant *)

Section Invariant.
Context {D : Type} (g : setting).

Definition switched (m : migration) : bool := so_switched (mg_state m).
(** The source copies are being removed, or are. *)
Definition gone (m : migration) : bool := bool_decide (mg_phase m = PhFinalize) || bool_decide (mg_status m = MigFinalized).

Definition vs_ok (vs : volume_state) : Prop :=
  planned_volume g (vs_id vs) /\ vs_prepared vs = true
  /\ exists v, sg_volumes g !! vs_id vs = Some v /\ vs_docker vs = vr_docker v /\ vs_src_server vs = vr_server v
       /\ vs_src_cluster vs = vr_cluster v /\ vs_src_created vs = vr_created v /\ vs_src_mount vs = vr_mount v /\ vs_src_class vs = vr_class v.
Definition ms_ok (ms : move_state) : Prop :=
  moving g (ms_id ms) /\ ms_prepared ms = true
  /\ exists i, sg_instances g !! ms_id ms = Some i /\ ms_volume ms = ir_volume i /\ ms_src_server ms = ir_server i
       /\ ms_src_cluster ms = ir_cluster i /\ ms_src_created ms = ir_created i /\ ms_src_class ms = ir_class i.
Definition rs_ok (next : N) (r : restore) : Prop :=
  (rs_src_db r <> 0%N -> exists pd d, planned_database g pd d /\ rs_src_db r = pg_id d /\ rs_prefix r = pg_prefix d
     /\ rs_src_instance r = pd_instance pd)
  /\ (rs_created r = true -> sg_instances g !! rs_tgt_instance r = None)
  /\ (rs_src_db r = 0%N -> rs_tgt_db r = 0%N)
  /\ (rs_tgt_db r <> 0%N -> sg_databases g !! rs_tgt_db r = None /\ (rs_tgt_db r < next)%N).

(** What a migration's record says of the plan, whatever the world is *)
Record known (next : N) (m : migration) : Prop := Known {
  kn_static : mg_app m = sg_app g /\ mg_src_server m = sg_src_server g /\ mg_src_cluster m = sg_src_cluster g
    /\ mg_tgt_server m = sg_tgt_server g /\ mg_tgt_cluster m = sg_tgt_cluster g /\ mg_plan m = sg_plan g;
  kn_vs : Forall vs_ok (so_volumes (mg_state m));
  kn_ms : Forall ms_ok (so_instances (mg_state m));
  kn_rs : Forall (rs_ok next) (so_restores (mg_state m));
  kn_vs_once : NoDup (vs_id <$> so_volumes (mg_state m));
  kn_ms_once : NoDup (ms_id <$> so_instances (mg_state m)) }.

(** Everything planned has its copy. *)
Definition complete (m : migration) : Prop :=
  (forall id, planned_volume g id -> id ∈ vs_id <$> so_volumes (mg_state m))
  /\ (forall id, moving g id -> id ∈ ms_id <$> so_instances (mg_state m)).

(** Where the row of a volume, or of a moving instance, should be *)
Definition volume_now (m : migration) (id : N) (v : volume_row) : volume_row :=
  if switched m then
    match find_volume_state m id with
    | Some vs => volume_at (sg_tgt_server g) (sg_tgt_cluster g) (vs_tgt_created vs) (vs_tgt_mount vs) (vs_tgt_class vs) v
    | None => v
    end
  else v.
Definition located (i : instance_row) : N * N * string * string := (ir_server i, ir_cluster i, ir_created i, ir_class i).
Definition instance_now (m : migration) (id : N) (i : instance_row) : N * N * string * string :=
  if switched m then
    match find_move_state m id with
    | Some ms => (sg_tgt_server g, sg_tgt_cluster g, ms_tgt_created ms, ms_tgt_class ms)
    | None => located i
    end
  else located i.

(** The rows fit the record. *)
Record rows_fit (w : world D) (m : migration) : Prop := RowsFit {
  rf_app : exists a, w_app w = Some a
    /\ (ap_server a, ap_cluster a) = if switched m then (sg_tgt_server g, sg_tgt_cluster g) else (sg_src_server g, sg_src_cluster g);
  rf_volumes : forall id, w_volumes w !! id = volume_now m id <$> sg_volumes g !! id;
  rf_instances : forall id i0, moving g id -> sg_instances g !! id = Some i0 ->
    exists i, w_instances w !! id = Some i /\ ir_volume i = ir_volume i0 /\ located i = instance_now m id i0 }.

(** The volumes of all instances keep their names, and those of new ones are new. *)
Definition names_kept (w : world D) : Prop :=
  forall id i, w_instances w !! id = Some i ->
    match sg_instances g !! id with Some i0 => ir_volume i = ir_volume i0 | None => ~ taken_name g (ir_volume i) end.
Definition ids_fresh (w : world D) : Prop :=
  (0 < w_next w)%N /\ (forall id, is_Some (sg_instances g !! id) -> (id < w_next w)%N)
  /\ (forall id, is_Some (sg_databases g !! id) -> (id < w_next w)%N).

Definition holds (w : world D) (p : place) : Prop := is_Some (w_held w !! p).
Definition same_held (w : world D) (p q : place) : Prop := holds w p /\ w_held w !! p = w_held w !! q.
Definition volume_from (v : volume_row) : place := on_disk (vr_server v) (vr_docker v).
Definition volume_to (v : volume_row) : place := on_disk (sg_tgt_server g) (vr_docker v).
Definition instance_from (i : instance_row) : place := on_disk (ir_server i) (ir_volume i).
Definition instance_to (i : instance_row) : place := on_disk (sg_tgt_server g) (ir_volume i).

Definition app_stopped (w : world D) : Prop := app_up w = false.
Definition not_up (w : world D) (id : N) : Prop := exists i, w_instances w !! id = Some i /\ instance_up i = false.
(** Nothing that moves runs. *)
Definition quiet (w : world D) : Prop := app_stopped w /\ forall id, moving g id -> not_up w id.
(** The copies are what they are copies of. *)
Definition volumes_equal (w : world D) : Prop :=
  forall id v, copied_volume g id -> sg_volumes g !! id = Some v -> same_held w (volume_from v) (volume_to v).
Definition instance_equal (w : world D) (id : N) : Prop :=
  forall i, sg_instances g !! id = Some i -> same_held w (instance_from i) (instance_to i).

(** The data is where the rows say: at the source until its copies go, at the target once the rows have moved. *)
Record data_kept (w : world D) (m : migration) : Prop := DataKept {
  dk_source : gone m = false -> (forall id v, planned_volume g id -> sg_volumes g !! id = Some v -> holds w (volume_from v))
    /\ (forall id i, moving g id -> sg_instances g !! id = Some i -> holds w (instance_from i));
  dk_target : switched m = true -> (forall id v, copied_volume g id -> sg_volumes g !! id = Some v -> holds w (volume_to v))
    /\ (forall id i, moving g id -> sg_instances g !! id = Some i -> holds w (instance_to i));
  dk_volumes : switched m = true -> gone m = false -> app_stopped w -> volumes_equal w }.

(** What a running migration's phase promises *)
Definition before_switch (p : mig_phase) : bool := match p with PhPrepare | PhPresync | PhStop | PhFinalSync => true | _ => false end.
Definition after_switch (p : mig_phase) : bool := match p with PhVerify | PhReroute | PhDone | PhFinalize => true | _ => false end.
Record phase_fits (w : world D) (m : migration) : Prop := PhaseFits {
  pf_before : before_switch (mg_phase m) = true -> switched m = false;
  pf_after : after_switch (mg_phase m) = true -> switched m = true;
  pf_complete : match mg_phase m with PhPrepare | PhRollback => True | _ => complete m end;
  pf_stopped : match mg_phase m with PhPrepare | PhPresync | PhStop => True | _ => so_stopped (mg_state m) = true end;
  pf_early : match mg_phase m with PhPrepare | PhPresync => so_stopped (mg_state m) = false | _ => True end;
  pf_quiet : switched m = false -> match mg_phase m with PhFinalSync | PhSwitch => quiet w | _ => True end;
  pf_equal : switched m = false -> mg_phase m = PhSwitch -> volumes_equal w /\ forall id, moving g id -> instance_equal w id;
  pf_open : mg_phase m <> PhDone }.

Definition status_fits (m : migration) : Prop :=
  match mg_status m with
  | MigRunning => True
  | MigAwaitingCutover => mg_phase m = PhPresync /\ switched m = false /\ so_stopped (mg_state m) = false /\ complete m
  | MigCutOver => switched m = true /\ mg_phase m <> PhFinalize
  | MigFinalized => switched m = true
  | MigRolledBack => switched m = false /\ mg_phase m <> PhFinalize
  | MigCancelled => (switched m = false /\ mg_phase m <> PhFinalize) /\ so_stopped (mg_state m) = false
  | MigFailed => mg_phase m <> PhFinalize
  end.

Record inv (w : world D) (m : migration) : Prop := Inv {
  in_known : known (w_next w) m;
  in_rows : rows_fit w m;
  in_data : data_kept w m;
  in_switched : switched m = true -> complete m /\ so_stopped (mg_state m) = true;
  in_phase : mg_status m = MigRunning -> phase_fits w m;
  in_status : status_fits m }.
Definition inv_row (w : world D) : Prop := inv w (ro_mig (w_row w)).
Definition fits (w : world D) : Prop := names_kept w /\ ids_fresh w.
End Invariant.

(** ** What may be written *)

Section Places.
Context {D : Type} (g : setting) (Hg : well_planned g).

(** The places the invariant speaks of *)
Definition source_place (p : place) : Prop :=
  (exists id v, planned_volume g id /\ sg_volumes g !! id = Some v /\ p = volume_from v)
  \/ (exists id i, moving g id /\ sg_instances g !! id = Some i /\ p = instance_from i).
Definition target_place (p : place) : Prop :=
  (exists id v, planned_volume g id /\ sg_volumes g !! id = Some v /\ p = volume_to g v)
  \/ (exists id i, moving g id /\ sg_instances g !! id = Some i /\ p = instance_to g i).
Definition tracked (p : place) : Prop := source_place p \/ target_place p.

Lemma copied_planned id : copied_volume g id -> planned_volume g id.
Proof. intros (pv & Hpv & <- & _). apply list_elem_of_fmap. eauto. Qed.

Lemma volume_row_origin (w : world D) m id v : rows_fit g w m -> w_volumes w !! id = Some v ->
  exists v0, sg_volumes g !! id = Some v0 /\ vr_docker v = vr_docker v0
    /\ (planned_volume g id -> switched m = false -> v = v0).
Proof.
  intros R Hv. rewrite (rf_volumes _ _ _ R) in Hv. destruct (sg_volumes g !! id) as [v0|] eqn:E0; [|done].
  cbn in Hv. injection Hv as <-. exists v0. unfold volume_now. destruct (switched m); [|done].
  destruct (find_volume_state m id); (split; [done|]); split; done.
Qed.

(** A place on disk whose name is a volume's is written by the application alone, where that volume's row is. *)
Lemma volume_place_writer (w : world D) m s id v0 : rows_fit g w m -> names_kept g w -> sg_volumes g !! id = Some v0 ->
  writable w (on_disk s (vr_docker v0)) = true -> app_up w = true /\ exists v, w_volumes w !! id = Some v /\ vr_server v = s.
Proof.
  intros R N H0 [Ha%andb_true_iff|Hi%bool_decide_eq_true]%orb_true_iff.
  - destruct Ha as [Hup (j & v & Hj & Hs & Hd)%bool_decide_eq_true]. split; [done|].
    destruct (volume_row_origin w m j v R Hj) as (v1 & H1 & Hd1 & _).
    assert (j = id) as -> by (eapply (wp_volume_names g Hg); [exact H1|exact H0|congruence]). eauto.
  - destruct Hi as (j & i & Hj & _ & Hn & _). exfalso. specialize (N j i Hj).
    destruct (sg_instances g !! j) as [i0|] eqn:E0.
    + eapply (wp_names_apart g Hg); [exact H0|exact E0|congruence].
    + apply N. left. eauto.
Qed.
Lemma instance_place_writer (w : world D) m s id i0 : rows_fit g w m -> names_kept g w -> sg_instances g !! id = Some i0 ->
  ir_volume i0 <> "" -> writable w (on_disk s (ir_volume i0)) = true ->
  exists i, w_instances w !! id = Some i /\ ir_server i = s /\ instance_up i = true.
Proof.
  intros R N H0 Hne [Ha%andb_true_iff|Hi%bool_decide_eq_true]%orb_true_iff.
  - exfalso. destruct Ha as [_ (j & v & Hj & _ & Hd)%bool_decide_eq_true].
    destruct (volume_row_origin w m j v R Hj) as (v1 & H1 & Hd1 & _).
    eapply (wp_names_apart g Hg); [exact H1|exact H0|congruence].
  - destruct Hi as (j & i & Hj & Hs & Hn & Hup). specialize (N j i Hj).
    destruct (sg_instances g !! j) as [i1|] eqn:E1.
    + assert (j = id) as -> by (eapply (wp_instance_names g Hg); [exact E1|exact H0|congruence|congruence]). eauto.
    + exfalso. apply N. right. exists id, i0. split; congruence.
Qed.

(** No row is at the target before the switch, and none at the source after it. *)
Lemma volume_source_idle (w : world D) m id v0 : rows_fit g w m -> names_kept g w -> planned_volume g id -> sg_volumes g !! id = Some v0 ->
  app_stopped w -> writable w (volume_from v0) = false /\ writable w (volume_to g v0) = false.
Proof.
  intros R N Hp H0 Ha. split; apply not_true_iff_false; intros Hw;
    (destruct (volume_place_writer _ m _ id v0 R N H0 Hw) as [Hup _]; unfold app_stopped in Ha; congruence).
Qed.
Lemma volume_target_idle (w : world D) m id v0 : rows_fit g w m -> names_kept g w -> planned_volume g id -> sg_volumes g !! id = Some v0 ->
  switched m = false -> writable w (volume_to g v0) = false.
Proof.
  intros R N Hp H0 Hs. apply not_true_iff_false. intros Hw. destruct (volume_place_writer _ m _ id v0 R N H0 Hw) as (_ & v & Hv & Hsv).
  destruct (volume_row_origin w m id v R Hv) as (v1 & H1 & _ & Heq). rewrite H0 in H1. injection H1 as <-. specialize (Heq Hp Hs) as ->.
  destruct (wp_volume g Hg id Hp) as (v' & Hv' & Hne). congruence.
Qed.
Lemma instance_idle (w : world D) m id i0 : rows_fit g w m -> names_kept g w -> moving g id -> sg_instances g !! id = Some i0 ->
  not_up w id -> writable w (instance_from i0) = false /\ writable w (instance_to g i0) = false.
Proof.
  intros R N Hm H0 (i & Hi & Hup). destruct (wp_instance g Hg id Hm) as (i' & Hi' & _ & Hne). assert (i' = i0) as -> by congruence.
  split; apply not_true_iff_false; intros Hw;
    (destruct (instance_place_writer _ m _ id i0 R N H0 Hne Hw) as (i1 & Hi1 & _ & Hup1); congruence).
Qed.
Lemma instance_target_idle (w : world D) m id i0 : rows_fit g w m -> names_kept g w -> moving g id -> sg_instances g !! id = Some i0 ->
  switched m = false -> writable w (instance_to g i0) = false.
Proof.
  intros R N Hm H0 Hs. destruct (wp_instance g Hg id Hm) as (i' & Hi' & Hsrv & Hne). assert (i' = i0) as -> by congruence.
  apply not_true_iff_false. intros Hw. destruct (instance_place_writer _ m _ id i0 R N H0 Hne Hw) as (i1 & Hi1 & Hs1 & _).
  destruct (rf_instances _ _ _ R id i0 Hm H0) as (i2 & Hi2 & _ & Hl). assert (i2 = i1) as -> by congruence.
  unfold instance_now, located in Hl. rewrite Hs in Hl. injection Hl. congruence.
Qed.
Lemma container_not_up (w : world D) id i : w_instances w !! id = Some i -> ir_container i = "" -> not_up w id.
Proof. intros Hi Hc. exists i. split; [done|]. unfold instance_up. rewrite Hc. cbn. by rewrite andb_false_r. Qed.
End Places.

(** ** Changes of the world *)

Section Frames.
Context {D : Type} (g : setting) (Hg : well_planned g).

(** What every call leaves of the rows, and of the data but for the removal of a volume *)
Record rows_loose (w w' : world D) : Prop := RowsLoose {
  lo_app : (fun a => (ap_server a, ap_cluster a)) <$> w_app w' = (fun a => (ap_server a, ap_cluster a)) <$> w_app w;
  lo_volumes : w_volumes w' = w_volumes w;
  lo_instances : forall id, moving g id -> (fun i => (ir_volume i, located i)) <$> w_instances w' !! id = (fun i => (ir_volume i, located i)) <$> w_instances w !! id;
  lo_next : (w_next w <= w_next w')%N }.
Record loose (w w' : world D) : Prop := Loose {
  lo_rows : rows_loose w w';
  lo_holds : forall p, tracked g p -> holds w p -> holds w' p }.
(** What a call that starts nothing and writes nowhere leaves besides *)
Record tight (w w' : world D) : Prop := Tight {
  ti_loose : loose w w';
  ti_app : app_up w' = app_up w;
  ti_instances : forall id, moving g id -> exists f, w_instances w' !! id = f <$> w_instances w !! id
    /\ forall i, ir_container (f i) = ir_container i /\ (instance_up i = false -> instance_up (f i) = false);
  ti_held : forall p, tracked g p -> writable w p = false -> holds w p -> w_held w' !! p = w_held w !! p }.

Lemma known_mono n n' m : (n <= n')%N -> known g n m -> known g n' m.
Proof.
  intros Hn [? ? ? K ? ?]. constructor; try done. eapply Forall_impl; [exact K|]. intros r (H1 & H2 & H3 & H4).
  split; [done|]. split; [done|]. split; [done|]. intros Ht. destruct (H4 Ht). split; [done|lia].
Qed.

Lemma loose_rows (w w' : world D) m : rows_loose w w' -> rows_fit g w m -> rows_fit g w' m.
Proof.
  intros L [Ra Rv Ri]. constructor.
  - destruct Ra as (a & Ha & Hl). pose proof (lo_app _ _ L) as Hm. rewrite Ha in Hm. destruct (w_app w') as [a'|]; [|done].
    exists a'. split; [done|]. cbn in Hm. injection Hm as H1 H2. by rewrite H1, H2.
  - intros id. by rewrite (lo_volumes _ _ L).
  - intros id i0 Hm H0. destruct (Ri id i0 Hm H0) as (i & Hi & Hv & Hl). pose proof (lo_instances _ _ L id Hm) as Hmi.
    rewrite Hi in Hmi. destruct (w_instances w' !! id) as [i'|]; [|done]. exists i'. split; [done|].
    cbn in Hmi. injection Hmi as H1 H2 H3 H4 H5. split; [congruence|]. unfold located in *. congruence.
Qed.

Lemma same_held_keep (w w' : world D) p q : same_held w p q -> (holds w p -> w_held w' !! p = w_held w !! p) ->
  (holds w q -> w_held w' !! q = w_held w !! q) -> same_held w' p q.
Proof.
  unfold same_held, holds. intros [H1 H2] Hp Hq. assert (H3 : is_Some (w_held w !! q)) by by rewrite <- H2.
  by rewrite (Hp H1), (Hq H3).
Qed.

Lemma tracked_volume id v : planned_volume g id -> sg_volumes g !! id = Some v -> tracked g (volume_from v) /\ tracked g (volume_to g v).
Proof. intros Hp H0. split; [left|right]; left; exists id, v; auto. Qed.
Lemma tracked_instance id i : moving g id -> sg_instances g !! id = Some i -> tracked g (instance_from i) /\ tracked g (instance_to g i).
Proof. intros Hp H0. split; [left|right]; right; exists id, i; auto. Qed.

(** The places of the application's own volumes *)
Definition volume_place (p : place) : Prop :=
  exists id v, planned_volume g id /\ sg_volumes g !! id = Some v /\ (p = volume_from v \/ p = volume_to g v).
Lemma volume_place_tracked p : volume_place p -> tracked g p.
Proof. intros (id & v & Hp & H0 & [-> | ->]); by apply (tracked_volume id v). Qed.
Lemma volumes_equal_keep (w w' : world D) m : rows_fit g w m -> names_kept g w -> app_stopped w ->
  (forall p, volume_place p -> writable w p = false -> holds w p -> w_held w' !! p = w_held w !! p) -> volumes_equal g w -> volumes_equal g w'.
Proof.
  intros R N Ha Hh He id v Hc H0. pose proof (copied_planned g id Hc) as Hp.
  destruct (volume_source_idle g Hg w m id v R N Hp H0 Ha).
  eapply same_held_keep; [by apply (He id)| |]; intros; (apply Hh; [|done..]); exists id, v; auto.
Qed.
Lemma instance_equal_keep (w w' : world D) m id : rows_fit g w m -> names_kept g w -> moving g id -> not_up w id ->
  (forall p, tracked g p -> writable w p = false -> holds w p -> w_held w' !! p = w_held w !! p) -> instance_equal g w id -> instance_equal g w' id.
Proof.
  intros R N Hm Hu Hh He i H0. destruct (tracked_instance id i Hm H0). destruct (instance_idle g Hg w m id i R N Hm H0 Hu).
  eapply same_held_keep; [by apply He| |]; intros; by apply Hh.
Qed.

(** The invariant after a change: what the change has to keep depends on where the migration stands. *)
Lemma inv_change (w w' : world D) m : loose w w' -> names_kept g w ->
  (forall p, volume_place p -> writable w p = false -> holds w p -> w_held w' !! p = w_held w !! p) ->
  (switched m = false -> forall p, tracked g p -> writable w p = false -> holds w p -> w_held w' !! p = w_held w !! p) ->
  (switched m = true -> gone m = false -> app_up w = true -> app_up w' = true) ->
  (mg_status m = MigRunning -> switched m = false -> mg_phase m = PhFinalSync \/ mg_phase m = PhSwitch -> quiet g w -> quiet g w') ->
  inv g w m -> inv g w' m.
Proof.
  intros L N Hh Hi Hup Hq [Ik Ir Id Is Ip It]. constructor.
  - eapply known_mono; [apply (lo_rows _ _ L)|done].
  - eapply loose_rows; [apply L|done].
  - destruct Id as [Ds Dt Dv]. constructor.
    + intros Hgo. destruct (Ds Hgo) as [D1 D2]. split; intros id x Hx H0; (eapply (lo_holds _ _ L); [|eauto]).
      * by eapply tracked_volume. * by eapply tracked_instance.
    + intros Hsw. destruct (Dt Hsw) as [D1 D2]. split; intros id x Hx H0; (eapply (lo_holds _ _ L); [|eauto]).
      * eapply tracked_volume; [by apply copied_planned|done]. * by eapply tracked_instance.
    + intros Hsw Hgo Ha. assert (Ha0 : app_stopped w).
      { unfold app_stopped in *. destruct (app_up w) eqn:E; [|done]. by rewrite (Hup Hsw Hgo eq_refl) in Ha. }
      eapply volumes_equal_keep; eauto.
  - done.
  - intros Hr. destruct (Ip Hr) as [P1 P2 P3 P4 P4' P5 P6 P7]. constructor; try done.
    + intros Hsw. specialize (P5 Hsw). destruct (mg_phase m) eqn:E; try done; apply Hq; auto.
    + intros Hsw Hp. specialize (P5 Hsw). rewrite Hp in P5. destruct (P6 Hsw Hp) as [E1 E2]. split.
      * eapply volumes_equal_keep; eauto. apply P5.
      * intros id Hm. eapply instance_equal_keep; eauto. by apply P5.
  - done.
Qed.

(** Before the switch, or once the copies left behind go, the data is compared with nothing. *)
Lemma inv_weak (w w' : world D) m : rows_loose w w' ->
  (gone m = false -> forall p, source_place g p -> holds w p -> holds w' p) ->
  (switched m = true -> forall p, target_place g p -> holds w p -> holds w' p) ->
  switched m = false \/ gone m = true ->
  (mg_status m = MigRunning -> switched m = false -> mg_phase m <> PhSwitch /\ (mg_phase m = PhFinalSync -> quiet g w -> quiet g w')) ->
  inv g w m -> inv g w' m.
Proof.
  intros L Hs Ht Hsw Hq [Ik Ir Id Is Ip It]. constructor; [eapply known_mono; [apply L|done]|by eapply loose_rows| |done| |done].
  - destruct Id as [Ds Dt Dv]. constructor.
    + intros Hgo. destruct (Ds Hgo) as [D1 D2]. split; intros id x Hx H0; (apply Hs; [done| |eauto]); [left|right]; eauto.
    + intros Hw. destruct (Dt Hw) as [D1 D2]. split; intros id x Hx H0; (apply Ht; [done| |eauto]); [left; exists id, x; by auto using copied_planned|right; eauto].
    + intros H1 H2. destruct Hsw; congruence.
  - intros Hr. destruct (Ip Hr) as [P1 P2 P3 P4 P4' P5 P6 P7]. constructor; try done.
    + intros Hw. specialize (P5 Hw). destruct (Hq Hr Hw) as [Q1 Q2]. destruct (mg_phase m) eqn:E; try done; auto.
    + intros Hw Hp. by destruct (Hq Hr Hw) as [Q1 _].
Qed.

Lemma inv_tight (w w' : world D) m : tight w w' -> names_kept g w -> inv g w m -> inv g w' m.
Proof.
  intros [L Ta Ti Th] N. apply inv_change; [done|done|intros p Hp; by apply Th, volume_place_tracked|done| |].
  - intros _ _ H. by rewrite Ta.
  - intros _ _ _ [Qa Qi]. split; [unfold app_stopped in *; congruence|]. intros id Hm. destruct (Qi id Hm) as (i & Hi & Hu).
    destruct (Ti id Hm) as (f & Hf & Hfi). exists (f i). split; [by rewrite Hf, Hi|]. by apply Hfi.
Qed.
End Frames.

(** ** Calls *)

Section Asked.
Context {D : Type} (g : setting) (Hg : well_planned g) (ext : nat -> call -> answer D).
Hypothesis fresh_names : forall n s a o, ~ taken_name g (an_name (ext n (CProvision s a o))).

(** The world an answered call leaves: what runs has written, and the call has done what it does. *)
Definition written (c : call) (w : world D) : world D :=
  drift (an_writes (ext (w_calls w) c)) (with_calls (S (w_calls w)) (pred <$> w_left w) w).
Definition after (c : call) (w : world D) : world D := effect c (ext (w_calls w) c) (written c w).

Lemma drift_rows (wr : list (place * D)) (w : world D) : drift wr w = put_held (w_held (drift wr w)) w.
Proof. done. Qed.
Lemma held_writes (wr : list (place * D)) (w : world D) (h : gmap place D) p :
  (is_Some (h !! p) -> is_Some (foldl (held_write w) h wr !! p))
  /\ (writable w p = false -> foldl (held_write w) h wr !! p = h !! p).
Proof.
  revert h. induction wr as [|x wr IH]; intros h; [done|]. cbn. destruct (IH (held_write w h x)) as [H1 H2]. unfold held_write in *.
  destruct (writable w x.1 && bool_decide (is_Some (h !! x.1))) eqn:E; [|done].
  apply andb_true_iff in E as [Ew _]. split.
  - intros H. apply H1. destruct (decide (x.1 = p)) as [<-|Hn]; [by rewrite lookup_insert_eq|by rewrite lookup_insert_ne].
  - intros Hw. rewrite H2 by done. apply lookup_insert_ne. intros <-. congruence.
Qed.

Lemma writable_held (w : world D) (h : gmap place D) p : writable (put_held h w) p = writable w p.
Proof. done. Qed.
Lemma writable_written (c : call) (w : world D) p : writable (written c w) p = writable w p.
Proof. done. Qed.

Lemma loose_refl (w w' : world D) : w_app w' = w_app w -> w_volumes w' = w_volumes w -> w_instances w' = w_instances w ->
  (w_next w <= w_next w')%N -> (forall p, tracked g p -> holds w p -> holds w' p) -> loose g w w'.
Proof. intros Ha Hv Hi Hn Hh. constructor; [constructor; rewrite ?Ha, ?Hv, ?Hi; done|done]. Qed.
Lemma tight_refl (w w' : world D) : w_app w' = w_app w -> w_volumes w' = w_volumes w -> w_instances w' = w_instances w ->
  (w_next w <= w_next w')%N -> (forall p, tracked g p -> holds w p -> holds w' p) ->
  (forall p, tracked g p -> writable w p = false -> holds w p -> w_held w' !! p = w_held w !! p) -> tight g w w'.
Proof.
  intros Ha Hv Hi Hn Hh Hs. constructor; [by apply loose_refl| | |done].
  - unfold app_up. by rewrite Ha.
  - intros id _. exists (fun i => i). rewrite Hi. split; [by destruct (w_instances w !! id)|done].
Qed.

Lemma loose_trans (w1 w2 w3 : world D) : loose g w1 w2 -> loose g w2 w3 -> loose g w1 w3.
Proof.
  intros [[A1 B1 C1 E1] F1] [[A2 B2 C2 E2] F2]. constructor; [|auto]. constructor; [congruence|congruence| |lia].
  intros id Hm. rewrite (C2 id Hm). auto.
Qed.
Lemma tight_trans (w1 w2 w3 : world D) : tight g w1 w2 -> tight g w2 w3 -> (forall p, writable w1 p = false -> writable w2 p = false) -> tight g w1 w3.
Proof.
  intros [L1 A1 I1 H1] [L2 A2 I2 H2] Hw. constructor; [by eapply loose_trans|congruence| |].
  - intros id Hm. destruct (I1 id Hm) as (f1 & E1 & F1), (I2 id Hm) as (f2 & E2 & F2). exists (f2 ∘ f1).
    rewrite E2, E1. split; [by rewrite option_fmap_compose|]. intros i. destruct (F1 i) as [Ga Gb], (F2 (f1 i)) as [Gc Gd]. cbn.
    split; [congruence|auto].
  - intros p Ht Hn Hp. rewrite H2; [by apply H1|done|by apply Hw|]. by eapply (lo_holds _ _ _ L1).
Qed.

Lemma written_tight c (w : world D) : tight g w (written c w).
Proof.
  apply tight_refl; [done|done|done|done| |].
  - intros p _ H. by apply held_writes.
  - intros p _ H _. by apply (held_writes (an_writes (ext (w_calls w) c)) (with_calls (S (w_calls w)) (pred <$> w_left w) w) (w_held w) p).
Qed.

Lemma tracked_disk p : tracked g p -> exists s n, p = on_disk s n /\ taken_name g n.
Proof.
  intros [[(id & v & _ & H0 & ->)|(id & v & _ & H0 & ->)]|[(id & v & _ & H0 & ->)|(id & v & _ & H0 & ->)]];
    eexists _, _; (split; [reflexivity|]); [left|right|left|right]; eauto.
Qed.

(** Calls that start and stop nothing and leave the data of tracked places *)
Definition calm (c : call) : Prop :=
  match c with
  | CRemoveVolume _ _ | CSync _ _ _ _ | CStopApp | CStartApp | CDeploy _ | CPollDeployment _ | CBringUp _ => False
  | CPollInstance id => sg_instances g !! id = None
  | _ => True
  end.

Lemma hold_if_absent_held (p q : place) d (w : world D) : holds w q -> w_held (hold_if_absent p d w) !! q = w_held w !! q.
Proof.
  intros Hq. unfold hold_if_absent. destruct (w_held w !! p) eqn:E; [done|]. cbn. rewrite lookup_insert_ne; [done|].
  intros ->. unfold holds in Hq. rewrite E in Hq. by destruct Hq.
Qed.
Lemma hold_if_absent_rows (p : place) d (w : world D) : hold_if_absent p d w = put_held (w_held (hold_if_absent p d w)) w.
Proof. unfold hold_if_absent. destruct (w_held w !! p); by destruct w. Qed.
Lemma held_tight (w : world D) (h : gmap place D) : (forall p, tracked g p -> holds w p -> h !! p = w_held w !! p) -> tight g w (put_held h w).
Proof.
  intros Hh. apply tight_refl; [done|done|done|done| |].
  - intros p Ht Hp. unfold holds. cbn. by rewrite Hh.
  - intros p Ht _ Hp. cbn. by apply Hh.
Qed.
Lemma new_row_tight (w : world D) (id : N) i : ~ moving g id -> tight g w (put_instances (<[id := i]> (w_instances w)) w).
Proof.
  intros Hn. constructor; [constructor; [constructor|]|..]; try done.
  - intros j Hm. cbn. rewrite lookup_insert_ne; [done|]. by intros ->.
  - intros j Hm. exists (fun i => i). cbn. rewrite lookup_insert_ne by (by intros ->). split; [by destruct (w_instances w !! j)|done].
Qed.
Lemma alter_row_tight (w : world D) (id : N) f : ~ moving g id -> tight g w (put_instances (alter f id (w_instances w)) w).
Proof.
  intros Hn. constructor; [constructor; [constructor|]|..]; try done.
  - intros j Hm. cbn. rewrite lookup_alter_ne; [done|]. by intros ->.
  - intros j Hm. exists (fun i => i). cbn. rewrite lookup_alter_ne by (by intros ->). split; [by destruct (w_instances w !! j)|done].
Qed.
Lemma not_moving id : sg_instances g !! id = None -> ~ moving g id.
Proof. intros Hn Hm. destruct (wp_instance g Hg id Hm) as (i & Hi & _). congruence. Qed.

Lemma effect_tight c a (w : world D) : ids_fresh g w -> calm c -> tight g w (effect c a w).
Proof.
  intros Hf Hc. assert (Hid : tight g w w) by by apply tight_refl.
  destruct c; try exact Hid; try done; cbn.
  - destruct (an_flag a); [|done]. by apply tight_refl.
  - destruct (an_ok a); [|done]. rewrite hold_if_absent_rows. apply held_tight. intros p _ Hp. by apply hold_if_absent_held.
  - destruct (an_ok a || an_flag a); [|done].
    rewrite hold_if_absent_rows. set (w1 := put_instances _ w). set (h := w_held (hold_if_absent _ _ w1)).
    apply (tight_trans w (take_id (put_held h w)) _); [| |done].
    + assert (Hh : forall p, holds w p -> h !! p = w_held w !! p) by (intros p Hp; by apply (hold_if_absent_held _ p _ w1)).
      apply tight_refl; try done; cbn; [lia| |].
      * intros p _ Hp. unfold holds. cbn. by rewrite Hh.
      * intros p _ _ Hp. by apply Hh.
    + apply (new_row_tight (take_id (put_held h w)) (w_next w)).
      apply not_moving. destruct (sg_instances g !! w_next w) eqn:E; [|done]. destruct Hf as (_ & Hf & _).
      specialize (Hf (w_next w) ltac:(eauto)). lia.
  - destruct (an_poll a); [done| |]; by apply alter_row_tight, not_moving.
  - destruct (an_ok a); [|done]. apply tight_refl; try done; cbn; [lia| |].
    + intros p (s & n & -> & _)%tracked_disk Hp. unfold holds. cbn. by rewrite lookup_insert_ne.
    + intros p (s & n & -> & _)%tracked_disk _ Hp. by rewrite lookup_insert_ne.
  - apply held_tight. intros p (s & n & -> & _)%tracked_disk Hp. by rewrite lookup_insert_ne.
  - destruct (an_ok a); [|done]. apply held_tight. intros p (s & n & -> & _)%tracked_disk Hp. by rewrite lookup_delete_ne.
  - destruct (an_ok a); apply held_tight; intros p (s & n & -> & _)%tracked_disk Hp; by rewrite lookup_insert_ne.
  - destruct (an_ok a); [|done]. by apply tight_refl.
Qed.

Lemma after_tight c (w : world D) : ids_fresh g w -> calm c -> tight g w (after c w).
Proof. intros Hf Hc. eapply tight_trans; [apply written_tight| |done]. by apply effect_tight. Qed.

(** Names and ids *)
Lemma effect_fits n c (w : world D) : fits g w -> fits g (effect c (ext n c) w).
Proof.
  intros [HN F]. assert (Hid : fits g w) by done. set (a := ext n c).
  assert (Hins : forall (id : N) i, match sg_instances g !! id with Some i0 => ir_volume i = ir_volume i0 | None => ~ taken_name g (ir_volume i) end ->
    forall j x, (<[id := i]> (w_instances w)) !! j = Some x ->
    match sg_instances g !! j with Some i0 => ir_volume x = ir_volume i0 | None => ~ taken_name g (ir_volume x) end).
  { intros id i Hi j x [[<- <-]|[_ Hx]]%lookup_insert_Some; [done|by apply HN]. }
  assert (Halt : forall (id : N) f, (forall i, ir_volume (f i) = ir_volume i) -> forall j x, alter f id (w_instances w) !! j = Some x ->
    match sg_instances g !! j with Some i0 => ir_volume x = ir_volume i0 | None => ~ taken_name g (ir_volume x) end).
  { intros id f Hf j x. rewrite lookup_alter. case_decide; [|by apply HN]. subst j. destruct (w_instances w !! id) as [i|] eqn:E; [|done].
    cbn. intros [= <-]. rewrite Hf. by apply HN. }
  destruct c; try exact Hid; subst a; cbn.
  - destruct (an_flag _); done.
  - destruct (an_ok _); [|done]. by rewrite hold_if_absent_rows.
  - destruct (an_ok _); done.
  - destruct (an_ok _ || an_flag _); [|done]. rewrite hold_if_absent_rows. destruct F as (F1 & F2 & F3). split.
    + intros j x. cbn. apply Hins. cbn. destruct (sg_instances g !! w_next w) as [i0|] eqn:E; [|apply fresh_names].
      specialize (F2 (w_next w) ltac:(eauto)). lia.
    + split_and!; cbn; [lia| |]; intros id Hid'; [specialize (F2 id Hid')|specialize (F3 id Hid')]; lia.
  - destruct (an_poll _); [done| |]; (split; [|done]); intros j x; cbn; by apply Halt.
  - destruct (final && an_ok _); done.
  - destruct (an_ok _); done.
  - destruct (an_ok _); done.
  - destruct (w_instances w !! id) as [i|] eqn:E; [|done].
    set (w1 := if an_ok _ || an_flag _ then _ else w). assert (Hw1 : w_instances w1 = w_instances w /\ fits g w1).
    { subst w1. destruct (an_ok _ || an_flag _); [|done]. by rewrite hold_if_absent_rows. }
    destruct Hw1 as [Hi Hf1]. clearbody w1. destruct (an_ok _ || (an_flag _ && an_flag2 _)); [|by destruct (an_flag _)]. split; [|apply Hf1]. intros j x. intros Hx. cbn in Hx. rewrite Hi in Hx. revert Hx. apply Hins. cbn. by apply HN.
  - destruct (an_ok _); [|done]. destruct F as (F1 & F2 & F3). split; [done|].
    split_and!; cbn; [lia| |]; intros id Hid'; [specialize (F2 id Hid')|specialize (F3 id Hid')]; lia.
  - destruct (an_ok _); done.
  - destruct (an_ok _); done.
  - destruct (an_ok _); done.
  - destruct (an_ok _); [|done]. destruct F as (F1 & F2 & F3). split; [done|].
    split_and!; cbn; [lia| |]; intros id Hid'; [specialize (F2 id Hid')|specialize (F3 id Hid')]; lia.
  - destruct (an_poll _); done.
Qed.
Lemma after_fits c (w : world D) : fits g w -> fits g (after c w).
Proof. intros Hf. apply effect_fits. exact Hf. Qed.

(** Every call keeps where the rows are; every call but one keeps that there is data. *)
Definition removes (c : call) : bool := match c with CRemoveVolume _ _ => true | _ => false end.
Lemma app_change_loose (w : world D) f : (forall a, ap_server (f a) = ap_server a /\ ap_cluster (f a) = ap_cluster a) -> loose g w (put_app (f <$> w_app w) w).
Proof.
  intros Hf. constructor; [constructor|]; try done. cbn. destruct (w_app w) as [a|]; [|done]. cbn. destruct (Hf a) as [-> ->]. done.
Qed.
Lemma insert_held_loose (w : world D) p d : loose g w (put_held (<[p := d]> (w_held w)) w).
Proof.
  apply loose_refl; try done. intros q _ Hq. unfold holds. cbn. destruct (decide (p = q)) as [->|Hn]; [by rewrite lookup_insert_eq|by rewrite lookup_insert_ne].
Qed.
Lemma run_row_loose (w : world D) (id : N) i st c : w_instances w !! id = Some i ->
  loose g w (put_instances (<[id := instance_run st c i]> (w_instances w)) w).
Proof.
  intros Hi. constructor; [constructor|]; try done. intros j _. cbn. destruct (decide (id = j)) as [->|Hn];
    [by rewrite lookup_insert_eq, Hi|by rewrite lookup_insert_ne].
Qed.
Lemma hold_if_absent_loose (w : world D) p d : loose g w (hold_if_absent p d w).
Proof. rewrite hold_if_absent_rows. apply held_tight. intros q _ Hq. by apply hold_if_absent_held. Qed.
Lemma remove_rows (w : world D) n s v : rows_loose g w (effect (CRemoveVolume s v) (ext n (CRemoveVolume s v)) w).
Proof. cbn. destruct (an_ok _); by constructor. Qed.

Lemma effect_loose c a (w : world D) : ids_fresh g w -> removes c = false -> loose g w (effect c a w).
Proof.
  intros Hf Hr. assert (Hid : loose g w w) by by apply loose_refl.
  destruct c; try exact Hid; try done; try (apply (effect_tight _ a w Hf); exact I).
  - cbn. destruct (an_poll a); [done| |].
    + constructor; [constructor|]; try done. intros j _. cbn. rewrite lookup_alter. case_decide; [|done]. subst. by destruct (w_instances w !! j).
    + constructor; [constructor|]; try done. intros j _. cbn. rewrite lookup_alter. case_decide; [|done]. subst. by destruct (w_instances w !! j).
  - cbn. destruct (final && an_ok a); apply insert_held_loose.
  - cbn. destruct (an_ok a); [|done]. by apply app_change_loose.
  - cbn. destruct (an_ok a); [|done]. by apply app_change_loose.
  - cbn. destruct (w_instances w !! id) as [i|] eqn:E; [|done]. set (w1 := if an_ok a || an_flag a then _ else w).
    assert (Hw1 : loose g w w1 /\ w_instances w1 = w_instances w).
    { subst w1. destruct (an_ok a || an_flag a); [|done]. split; [apply hold_if_absent_loose|by rewrite hold_if_absent_rows]. }
    destruct Hw1 as [Hl Hi]. clearbody w1. destruct (an_ok a || (an_flag a && an_flag2 a)).
    + eapply loose_trans; [exact Hl|]. apply run_row_loose. by rewrite Hi.
    + destruct (an_flag a); [|done]. eapply loose_trans; [exact Hl|]. apply insert_held_loose.
  - cbn. destruct (an_ok a); [|done]. eapply loose_trans; [by apply (app_change_loose w (app_with_status AppDeploying))|].
    apply loose_refl; try done. cbn. lia.
  - cbn. destruct (an_poll a); try done. by apply app_change_loose.
Qed.
Lemma after_loose c (w : world D) : ids_fresh g w -> removes c = false -> loose g w (after c w).
Proof. intros Hf Hr. eapply loose_trans; [apply (written_tight c w)|]. by apply effect_loose. Qed.

(** A removal takes one volume away, and what rows keep on it. *)
Lemma after_remove s v (w : world D) : rows_loose g w (after (CRemoveVolume s v) w)
  /\ forall p, tracked g p -> p <> on_disk s v -> holds w p -> holds (after (CRemoveVolume s v) w) p.
Proof.
  unfold after. split.
  - pose proof (lo_rows _ _ _ (ti_loose _ _ _ (written_tight (CRemoveVolume s v) w))) as [A1 B1 C1 E1].
    destruct (remove_rows (written (CRemoveVolume s v) w) (w_calls w) s v) as [A2 B2 C2 E2]. constructor; [etrans; eauto|etrans; eauto| |lia].
    intros id Hm. rewrite (C2 id Hm). by apply C1.
  - intros p Ht Hn Hp. assert (Hw : holds (written (CRemoveVolume s v) w) p) by by eapply (lo_holds _ _ _ (ti_loose _ _ _ (written_tight _ w))).
    cbn. destruct (an_ok _); [|done]. destruct (tracked_disk p Ht) as (s' & n & -> & _). unfold holds. cbn. destruct Hw as [d Hd]. exists d.
    apply map_lookup_filter_Some. split; [done|]. cbn. apply bool_decide_eq_false. intros [= -> ->]. by apply Hn.
Qed.
End Asked.
#[global] Arguments after : simpl never.
