(* ===== verification/MigrationSafe.v ===== *)
(** * Moving an application to another location: the run keeps the invariant

    What a step of a run promises, wherever it stops: with a crash, a failure or a result. The steps before the switch
    build copies, the switch moves the rows once the copies are what they are copies of, going back and finishing remove
    only what no row points at. *)
From S2P Require Import Prelude GoStrings Migration MigrationRun MigrationInv.
#[local] Open Scope Z_scope.
#[local] Open Scope list_scope.

Section Safe.
Context {D : Type} {g : setting} {Hg : well_planned g} {ext : nat -> call -> answer D} {Hext : lawful g ext} {clock : nat -> Z}.
Let fresh_names := law_names (ext := ext).
Context {class_path : N -> string -> string -> option string}.
#[local] Abbreviation M := (M D).
#[local] Abbreviation after := (after ext).

(** ** Reasoning about runs that may stop anywhere *)

Definition safe (w : world D) : Prop := inv_row g w /\ fits g w.
Definition hoare {A} (P : run_st D -> Prop) (c : M A) (Q : A -> run_st D -> Prop) (E : failure -> run_st D -> Prop) : Prop :=
  forall s, P s -> match c s with (s', Done a) => Q a s' | (s', Failed f) => E f s' | (s', Crashed) => safe (st_world s') end.
Definition keeps {A} (P : run_st D -> Prop) (c : M A) : Prop := hoare P c (fun _ => P) (fun _ => P).

Lemma h_weaken {A} (P P' : run_st D -> Prop) (c : M A) Q Q' E E' : hoare P c Q E -> (forall s, P' s -> P s) ->
  (forall a s, Q a s -> Q' a s) -> (forall f s, E f s -> E' f s) -> hoare P' c Q' E'.
Proof. intros H Hp Hq He s Hs. specialize (H s (Hp s Hs)). destruct (c s) as [s' []]; auto. Qed.
Lemma h_ret {A} (P : run_st D -> Prop) (a : A) (Q : A -> run_st D -> Prop) E : (forall s, P s -> Q a s) -> hoare P (ret a) Q E.
Proof. intros H s Hs. cbn. by apply H. Qed.
Lemma h_throw {A} (P : run_st D -> Prop) f (Q : A -> run_st D -> Prop) (E : failure -> run_st D -> Prop) : (forall s, P s -> E f s) -> hoare P (throw f) Q E.
Proof. intros H s Hs. cbn. by apply H. Qed.
Lemma h_bind {A B} P (c : M A) (k : A -> M B) R Q E : hoare P c R E -> (forall a, hoare (R a) (k a) Q E) -> hoare P (bind c k) Q E.
Proof. intros Hc Hk s Hs. unfold bind. specialize (Hc s Hs). destruct (c s) as [s' [a|f|]]; [by apply Hk|done|done]. Qed.
Lemma h_attempt {A} P (c : M A) Q E E' : hoare P c Q E ->
  hoare P (attempt c) (fun r s => match r with inr a => Q a s | inl f => E f s end) E'.
Proof. intros Hc s Hs. unfold attempt. specialize (Hc s Hs). by destruct (c s) as [s' []]. Qed.
Lemma h_get_world (P : run_st D -> Prop) (E : failure -> run_st D -> Prop) : hoare P get_world (fun w s => P s /\ w = st_world s) E.
Proof. intros s Hs. done. Qed.
Lemma h_get_mig (P : run_st D -> Prop) (E : failure -> run_st D -> Prop) : hoare P get_mig (fun m s => P s /\ m = st_mig s) E.
Proof. intros s Hs. done. Qed.
Lemma h_change_world (P : run_st D -> Prop) f (Q : run_st D -> Prop) E : (forall s, P s -> Q (RunSt (f (st_world s)) (st_mig s))) ->
  hoare P (change_world f) (fun _ => Q) E.
Proof. intros H s Hs. cbn. by apply H. Qed.
Lemma h_change_mig (P : run_st D -> Prop) f (Q : run_st D -> Prop) E : (forall s, P s -> Q (RunSt (st_world s) (f (st_mig s)))) ->
  hoare P (change_mig f) (fun _ => Q) E.
Proof. intros H s Hs. cbn. by apply H. Qed.
Lemma h_if {A} (b : bool) P (c1 c2 : M A) Q E : (b = true -> hoare P c1 Q E) -> (b = false -> hoare P c2 Q E) -> hoare P (if b then c1 else c2) Q E.
Proof. destruct b; auto. Qed.
Lemma h_for_each {A} (I : list A -> run_st D -> Prop) (f : A -> M unit) E (l : list A) :
  (forall done_ x rest, l = done_ ++ x :: rest -> hoare (I done_) (f x) (fun _ => I (done_ ++ [x])) E) ->
  hoare (I []) (for_each l f) (fun _ => I l) E.
Proof.
  intros H. assert (G : forall done_ rest, l = done_ ++ rest -> hoare (I done_) (for_each rest f) (fun _ => I l) E); [|by apply (G [] l)].
  intros d rest. revert d. induction rest as [|x rest IH]; intros d Hl.
  - rewrite app_nil_r in Hl. subst. by apply h_ret.
  - cbn. eapply h_bind; [by apply (H d x rest)|]. intros ?. apply IH. by rewrite <- app_assoc.
Qed.
Lemma h_pre {A} (P P' : run_st D -> Prop) (c : M A) Q E : (forall s, P s -> P' s) -> hoare P' c Q E -> hoare P c Q E.
Proof. intros Hp H s Hs. by apply H, Hp. Qed.
Lemma h_fact {A} (F : Prop) (P : run_st D -> Prop) (c : M A) Q E : (F -> hoare P c Q E) -> hoare (fun s => F /\ P s) c Q E.
Proof. intros H s [Hf Hs]. by apply H. Qed.

(** An assertion that a crash may interrupt, and one a call does not disturb *)
Definition interruptible (P : run_st D -> Prop) : Prop := forall s, P s -> w_left (st_world s) = Some O -> safe (st_world s).
Definition stable (P : run_st D -> Prop) (c : call) : Prop := forall s, P s -> P (RunSt (after c (st_world s)) (st_mig s)).

Lemma ask_unfold c (s : run_st D) : ask ext c s =
  if bool_decide (w_left (st_world s) = Some O) then (s, Crashed)
  else (RunSt (after c (st_world s)) (st_mig s), Done (ext (w_calls (st_world s)) c)).
Proof. unfold ask. destruct (w_left (st_world s)) as [[|n]|] eqn:E; cbn; [done| |]; unfold after, written; by rewrite E. Qed.
Lemma h_ask P c (Q : answer D -> run_st D -> Prop) E : interruptible P ->
  (forall s, P s -> Q (ext (w_calls (st_world s)) c) (RunSt (after c (st_world s)) (st_mig s))) -> hoare P (ask ext c) Q E.
Proof. intros Hi Hq s Hs. rewrite ask_unfold. case_bool_decide; [by apply Hi|by apply Hq]. Qed.
Lemma h_must P c (Q : answer D -> run_st D -> Prop) (E : failure -> run_st D -> Prop) : interruptible P ->
  (forall s, P s -> an_ok (ext (w_calls (st_world s)) c) = true -> Q (ext (w_calls (st_world s)) c) (RunSt (after c (st_world s)) (st_mig s))) ->
  (forall s f, P s -> an_ok (ext (w_calls (st_world s)) c) = false -> E f (RunSt (after c (st_world s)) (st_mig s))) -> hoare P (must ext c) Q E.
Proof.
  intros Hi Hq He s Hs. unfold must, bind. rewrite ask_unfold. case_bool_decide; [by apply Hi|].
  destruct (an_ok _) eqn:Ea; [by apply Hq|by apply He].
Qed.
Lemma k_ask P c : interruptible P -> stable P c -> keeps P (ask ext c).
Proof. intros Hi Hs. apply h_ask; auto. Qed.
Lemma k_must P c : interruptible P -> stable P c -> keeps P (must ext c).
Proof. intros Hi Hs. apply h_must; auto. Qed.
Lemma k_bind {A B} P (c : M A) (k : A -> M B) : keeps P c -> (forall a, keeps P (k a)) -> keeps P (bind c k).
Proof. intros Hc Hk. by eapply h_bind. Qed.
Lemma k_ret {A} P (a : A) : keeps P (ret a).
Proof. by apply h_ret. Qed.
Lemma k_throw {A} P f : keeps P (throw f : M A).
Proof. by apply h_throw. Qed.
Lemma h_of_keeps {A} (P : run_st D -> Prop) (c : M A) (E : failure -> run_st D -> Prop) : keeps P c -> (forall f s, P s -> E f s) -> hoare P c (fun _ => P) E.
Proof. intros H He. eapply h_weaken; [exact H|done|done|exact He]. Qed.
Lemma k_attempt {A} P (c : M A) : keeps P c -> keeps P (attempt c).
Proof. intros H. eapply h_weaken; [by apply (h_attempt P c (fun _ => P) (fun _ => P) (fun _ => P))|done| |done]. by intros [] s. Qed.
(** Code that never fails *)
Definition quietly {A} (P : run_st D -> Prop) (c : M A) : Prop := hoare P c (fun _ => P) (fun _ _ => False).
Lemma k_quietly {A} P (c : M A) : quietly P c -> keeps P c.
Proof. intros H. by eapply h_weaken. Qed.
Lemma h_quietly {A} P (c : M A) E : quietly P c -> hoare P c (fun _ => P) E.
Proof. intros H. by eapply h_weaken. Qed.
Lemma q_ask P c : interruptible P -> stable P c -> quietly P (ask ext c).
Proof. intros Hi Hs. apply h_ask; auto. Qed.
Lemma q_best P c : interruptible P -> stable P c -> quietly P (best ext c).
Proof. intros Hi Hs. eapply h_bind; [by apply q_ask|]. intros ?. by apply h_ret. Qed.
Lemma q_attempt {A} P (c : M A) : keeps P c -> quietly P (attempt c).
Proof. intros H. eapply h_weaken; [by apply (h_attempt P c (fun _ => P) (fun _ => P) (fun _ _ => False))|done| |done]. by intros [] s. Qed.
Lemma q_bind {A B} P (c : M A) (k : A -> M B) : quietly P c -> (forall a, quietly P (k a)) -> quietly P (bind c k).
Proof. intros Hc Hk. by eapply h_bind. Qed.
Lemma q_ret {A} P (a : A) : quietly P (ret a).
Proof. by apply h_ret. Qed.
Lemma q_when P (b : bool) (c : M unit) : (b = true -> quietly P c) -> quietly P (when b c).
Proof. intros H. destruct b; [by apply H|apply q_ret]. Qed.
Lemma q_for_each {A} P (l : list A) (f : A -> M unit) : (forall x, x ∈ l -> quietly P (f x)) -> quietly P (for_each l f).
Proof. intros H. apply (h_for_each (fun _ => P)). intros d x rest Hl. apply H. rewrite Hl. set_solver. Qed.
Lemma h_get_world_keep (P : run_st D -> Prop) (E : failure -> run_st D -> Prop) : hoare P get_world (fun _ => P) E.
Proof. by intros s Hs. Qed.
Lemma h_get_mig_keep (P : run_st D -> Prop) (E : failure -> run_st D -> Prop) : hoare P get_mig (fun _ => P) E.
Proof. by intros s Hs. Qed.
Lemma k_get_world P : keeps P get_world.
Proof. eapply h_weaken; [apply (h_get_world P (fun _ => P))|done| |done]. by intros ? ? []. Qed.
Lemma k_get_mig P : keeps P get_mig.
Proof. eapply h_weaken; [apply (h_get_mig P (fun _ => P))|done| |done]. by intros ? ? []. Qed.
Lemma k_best P c : interruptible P -> stable P c -> keeps P (best ext c).
Proof. intros Hi Hs. apply k_bind; [by apply k_ask|intros; apply k_ret]. Qed.
Lemma k_when P (b : bool) (c : M unit) : keeps P c -> keeps P (when b c).
Proof. intros H. destruct b; [done|apply k_ret]. Qed.
Lemma k_for_each {A} P (l : list A) (f : A -> M unit) : (forall x, x ∈ l -> keeps P (f x)) -> keeps P (for_each l f).
Proof.
  intros H. apply (h_for_each (fun _ => P)). intros d x rest Hl. apply H. rewrite Hl. set_solver.
Qed.

(** What finds a row says what the row is. *)
Lemma h_find_instance P id : interruptible P -> stable P CRead ->
  hoare P (find_instance ext id) (fun i s => P s /\ w_instances (st_world s) !! id = Some i) (fun _ => P).
Proof.
  intros Hi Hs. eapply h_bind; [by apply k_must|]. intros ?. eapply h_bind; [apply h_get_world|]. intros w.
  intros s [Hp ->]. destruct (w_instances (st_world s) !! id) eqn:E; cbn; auto.
Qed.
Lemma h_find_volume P id : interruptible P -> stable P CRead ->
  hoare P (find_volume ext id) (fun i s => P s /\ w_volumes (st_world s) !! id = Some i) (fun _ => P).
Proof.
  intros Hi Hs. eapply h_bind; [by apply k_must|]. intros ?. eapply h_bind; [apply h_get_world|]. intros w.
  intros s [Hp ->]. destruct (w_volumes (st_world s) !! id) eqn:E; cbn; auto.
Qed.
Lemma h_the_app P : interruptible P -> stable P CRead ->
  hoare P (the_app ext) (fun a s => P s /\ w_app (st_world s) = Some a) (fun _ => P).
Proof.
  intros Hi Hs. eapply h_bind; [by apply k_must|]. intros ?. eapply h_bind; [apply h_get_world|]. intros w.
  intros s [Hp ->]. destruct (w_app (st_world s)) eqn:E; cbn; auto.
Qed.
Lemma k_find_database P id : interruptible P -> stable P CRead -> keeps P (find_database ext id).
Proof.
  intros Hi Hs. apply k_bind; [by apply k_must|]. intros ?. apply k_bind; [apply k_get_world|]. intros w.
  destruct (w_databases w !! id); [apply k_ret|apply k_throw].
Qed.

(** ** Assertions of a run *)

(** What the record may be behind of what the worker knows *)
Definition lag (r m : migration) : Prop :=
  switched r = switched m /\ (before_switch (mg_phase m) = true -> before_switch (mg_phase r) = true)
  /\ (mg_phase m = PhRollback -> switched m = false -> mg_phase r = PhRollback) /\ (gone m = true -> gone r = true).
Record going (s : run_st D) : Prop := Going {
  go_fits : fits g (st_world s);
  go_row : inv_row g (st_world s);
  go_inv : inv g (st_world s) (st_mig s);
  go_lag : lag (ro_mig (w_row (st_world s))) (st_mig s);
  go_running : mg_status (st_mig s) = MigRunning }.
(** With a fact about the migration held in memory *)
Definition with_mig (F : migration -> Prop) (s : run_st D) : Prop := going s /\ F (st_mig s).

Lemma row_after c (w : world D) : ro_mig (w_row (after c w)) = ro_mig (w_row w).
Proof.
  unfold after. set (v := written ext c w). change (ro_mig (w_row w)) with (ro_mig (w_row v)). clearbody v. unfold effect.
  destruct c; try done; repeat (case_match; try done; unfold hold_if_absent, copy_held in *; cbn; try done); case_match; done.
Qed.
Lemma left_after c (w : world D) : w_left (after c w) = pred <$> w_left w.
Proof.
  unfold after. set (v := written ext c w). change (pred <$> w_left w) with (w_left v). clearbody v. unfold effect.
  destruct c; try done; repeat (case_match; try done; unfold hold_if_absent, copy_held in *; cbn; try done); case_match; done.
Qed.
Lemma going_interruptible F : interruptible (with_mig F).
Proof. intros s [[Hf Hr _ _ _] _] _. split; done. Qed.

(** A change of the world the invariant survives, of the record and of what is in memory *)
Lemma going_change w' s : going s -> fits g w' -> ro_mig (w_row w') = ro_mig (w_row (st_world s)) ->
  (forall m, m = st_mig s \/ m = ro_mig (w_row (st_world s)) -> inv g (st_world s) m -> inv g w' m) -> going (RunSt w' (st_mig s)).
Proof.
  intros [Hf Hr Hi Hl Hs] Hf' Hrow Hinv. constructor; cbn; [done| | | |done].
  - unfold inv_row. rewrite Hrow. apply Hinv; [by right|exact Hr].
  - apply Hinv; [by left|done].
  - by rewrite Hrow.
Qed.

Lemma calm_stable F c : calm g c -> stable (with_mig F) c.
Proof.
  intros Hc s [Hg1 HF]. split; [|done]. apply going_change; [done|apply after_fits; [done|apply Hg1]|apply row_after|].
  intros m _ Hi. eapply inv_tight; [done|apply after_tight; [done|apply Hg1|done]|apply Hg1|done].
Qed.
Lemma quiet_same (w w' : world D) : w_app w' = w_app w -> w_instances w' = w_instances w -> quiet g w -> quiet g w'.
Proof.
  intros Ha Hi [Q1 Q2]. unfold quiet, app_stopped, app_up, not_up in *. rewrite Ha, Hi. done.
Qed.
Lemma before_not_switch p : before_switch p = true -> p <> PhSwitch.
Proof. by destruct p. Qed.
Lemma before_not_gone m : before_switch (mg_phase m) = true -> mg_status m = MigRunning -> gone m = false.
Proof. unfold gone. destruct (mg_phase m); try done; by intros _ ->. Qed.
(** Before the switch, what is written to the copies matters to nobody. *)
Lemma before_stable F c : (forall m, F m -> before_switch (mg_phase m) = true) -> removes c = false ->
  (forall w : world D, quiet g w -> quiet g (after c w)) -> stable (with_mig F) c.
Proof.
  intros HF Hr Hq s [Hg1 HFs]. split; [|done]. pose proof (go_lag _ Hg1) as (L1 & L2 & _). pose proof (HF _ HFs) as Hb.
  pose proof (in_phase _ _ _ (go_inv _ Hg1) (go_running _ Hg1)) as Hph. pose proof (pf_before _ _ _ Hph Hb) as Hns.
  assert (Hlo : loose g (st_world s) (after c (st_world s))) by (apply after_loose; [done|apply Hg1|done]).
  apply going_change; [done|apply after_fits; [done|apply Hg1]|apply row_after|].
  intros m Hm Hi. apply (inv_weak g (st_world s) _ m); [apply Hlo| | | | |done].
  - intros _ p Hp. apply (lo_holds _ _ _ Hlo). by left.
  - intros _ p Hp. apply (lo_holds _ _ _ Hlo). by right.
  - left. destruct Hm as [-> | ->]; congruence.
  - intros _ _. split; [|auto]. apply before_not_switch. destruct Hm as [-> | ->]; auto.
Qed.
Lemma after_sync_rows s t v fin (w : world D) : w_app (after (CSync s t v fin) w) = w_app w /\ w_instances (after (CSync s t v fin) w) = w_instances w.
Proof. unfold after. cbn. by destruct (fin && _). Qed.
Lemma sync_stable F s t v fin : (forall m, F m -> before_switch (mg_phase m) = true) -> stable (with_mig F) (CSync s t v fin).
Proof.
  intros HF. apply before_stable; [done|done|]. intros w. destruct (after_sync_rows s t v fin w) as [Ha Hi]. by apply quiet_same.
Qed.
Lemma after_stop_app (w : world D) : w_instances (after CStopApp w) = w_instances w
  /\ w_app (after CStopApp w) = if an_ok (ext (w_calls w) CStopApp) then app_with_status AppStopped <$> w_app w else w_app w.
Proof. unfold after. cbn. by destruct (an_ok _). Qed.
Lemma stop_app_stable F : (forall m, F m -> before_switch (mg_phase m) = true) -> stable (with_mig F) CStopApp.
Proof.
  intros HF. apply before_stable; [done|done|]. intros w [Q1 Q2]. destruct (after_stop_app w) as [Hi Ha]. split.
  - unfold app_stopped, app_up in *. rewrite Ha. destruct (an_ok _); [|done]. by destruct (w_app w).
  - unfold not_up in *. by rewrite Hi.
Qed.

Lemma inv_put_row r (w : world D) m : fits g w -> inv g w m -> inv g (put_row r w) m.
Proof. intros Hf. apply inv_tight; [done| |apply Hf]. by apply tight_refl. Qed.

(** Saving: the record is what is in memory, or stays what it was. *)
Lemma q_save_keep F : quietly (with_mig F) (save ext).
Proof.
  eapply h_bind; [apply q_ask; [apply going_interruptible|by apply calm_stable]|]. intros a.
  apply h_if; [|intros ?; by apply h_ret]. intros ?. eapply h_bind; [apply h_get_mig|]. intros m.
  intros s [[[Hf Hr Hi Hl Hs] HF] ->]. cbn. split; [|done]. constructor; cbn; [done|by apply inv_put_row|by apply inv_put_row| |done].
  split; [done|]. split; [done|]. split; done.
Qed.
Lemma h_save_keep F : keeps (with_mig F) (save ext).
Proof. apply k_quietly, q_save_keep. Qed.
(** The last save of a run, which may write another status: what the row holds is safe, before as after. *)
Definition ready (s : run_st D) : Prop := fits g (st_world s) /\ inv g (st_world s) (st_mig s) /\ inv_row g (st_world s).
(** What is in memory is sound, whatever the row says. *)
Definition sound (s : run_st D) : Prop := fits g (st_world s) /\ inv g (st_world s) (st_mig s).
Lemma inv_after_save (w : world D) m : fits g w -> inv g w m -> inv g (after CSave w) m.
Proof. intros Hf Hm. eapply inv_tight; [done|apply after_tight; [done|apply Hf|exact I]|apply Hf|done]. Qed.
Lemma h_save_last : hoare ready (save ext) (fun _ s => safe (st_world s)) (fun _ _ => False).
Proof.
  intros s (Hf & Hi & Hr). unfold save, bind. rewrite ask_unfold. case_bool_decide; [done|].
  assert (Hf' : fits g (after CSave (st_world s))) by by apply after_fits.
  destruct (an_ok _); cbn; (split; [|done]).
  - apply inv_put_row; [done|]. by apply inv_after_save.
  - unfold inv_row. rewrite row_after. by apply inv_after_save.
Qed.
Lemma h_save_sound : hoare (fun s => sound s /\ w_left (st_world s) = None) (save ext) (fun _ => sound) (fun _ _ => False).
Proof.
  intros s ((Hf & Hi) & Hn). unfold save, bind. rewrite ask_unfold. case_bool_decide as Hc; [congruence|].
  assert (Hs : sound (RunSt (after CSave (st_world s)) (st_mig s))) by (split; [by apply after_fits|by apply inv_after_save]).
  destruct (an_ok _); cbn; [|done]. split; [apply Hs|]. apply inv_put_row; apply Hs.
Qed.

Lemma k_ask_calm F c : calm g c -> keeps (with_mig F) (ask ext c).
Proof. intros H. apply k_ask; [apply going_interruptible|by apply calm_stable]. Qed.
Lemma k_must_calm F c : calm g c -> keeps (with_mig F) (must ext c).
Proof. intros H. apply k_must; [apply going_interruptible|by apply calm_stable]. Qed.
Lemma k_best_calm F c : calm g c -> keeps (with_mig F) (best ext c).
Proof. intros H. apply k_best; [apply going_interruptible|by apply calm_stable]. Qed.
Lemma h_find_instance_going F id : hoare (with_mig F) (find_instance ext id) (fun i s => with_mig F s /\ w_instances (st_world s) !! id = Some i) (fun _ => with_mig F).
Proof. apply h_find_instance; [apply going_interruptible|by apply calm_stable]. Qed.
Lemma h_find_volume_going F id : hoare (with_mig F) (find_volume ext id) (fun i s => with_mig F s /\ w_volumes (st_world s) !! id = Some i) (fun _ => with_mig F).
Proof. apply h_find_volume; [apply going_interruptible|by apply calm_stable]. Qed.
Lemma k_find_instance F id : keeps (with_mig F) (find_instance ext id).
Proof. eapply h_weaken; [apply h_find_instance_going|done| |done]. by intros ? ? []. Qed.
Lemma k_find_database_going F id : keeps (with_mig F) (find_database ext id).
Proof. apply k_find_database; [apply going_interruptible|by apply calm_stable]. Qed.
Lemma k_the_app F : keeps (with_mig F) (the_app ext).
Proof. eapply h_weaken; [apply (h_the_app (with_mig F)); [apply going_interruptible|by apply calm_stable]|done| |done]. by intros ? ? []. Qed.
Lemma k_now P : keeps P (now clock).
Proof. apply k_bind; [apply k_get_world|intros; apply k_ret]. Qed.

Lemma h_now (P : run_st D -> Prop) (E : failure -> run_st D -> Prop) : hoare P (now clock) (fun _ => P) E.
Proof. intros s Hs. done. Qed.

(** What of a migration the invariant reads *)
Definition core (m : migration) :=
  (mg_app m, mg_src_server m, mg_src_cluster m, mg_tgt_server m, mg_tgt_cluster m, mg_plan m, mg_status m, mg_phase m,
   so_volumes (mg_state m), so_instances (mg_state m), so_restores (mg_state m), so_stopped (mg_state m), so_switched (mg_state m)).
Lemma inv_core (w : world D) m m' : core m' = core m -> inv g w m -> inv g w m'.
Proof.
  destruct m as [? ? ? ? ? ? ? ? ? [] ? ? ? ? ?], m' as [? ? ? ? ? ? ? ? ? [] ? ? ? ? ?]. unfold core. cbn.
  intros [= -> -> -> -> -> -> -> -> -> -> -> -> ->] [[] [] [] Is Ip It]. constructor; [by constructor|by constructor|by constructor|done| |done].
  intros Hr. destruct (Ip Hr). by constructor.
Qed.
Lemma going_core w m m' : core m' = core m -> going (RunSt w m) -> going (RunSt w m').
Proof.
  intros Hc [Hf Hr Hi Hl Hs]. assert (Hi' : inv g w m') by (eapply inv_core; [exact Hc|exact Hi]). unfold core in Hc. injection Hc as ?????????????.
  constructor; try done; cbn in *; [|congruence]. unfold lag, switched, gone in *. destruct Hl as (L1 & L2 & L3 & L4).
  replace (so_switched (mg_state m')) with (so_switched (mg_state m)). replace (mg_phase m') with (mg_phase m). replace (mg_status m') with (mg_status m). done.
Qed.
Lemma h_change_core F F' f : (forall m, core (f m) = core m) -> (forall m, F m -> F' (f m)) -> hoare (with_mig F) (change_mig f) (fun _ => with_mig F') (fun _ => with_mig F).
Proof. intros Hc HF. apply h_change_mig. intros [w m] [Hs Hm]. split; [|by apply HF]. cbn in *. eapply going_core; [apply Hc|exact Hs]. Qed.

(** Code that only asks calm questions keeps what is known. *)
Ltac keeping_step :=
  lazymatch goal with
  | |- keeps _ (ret _) => apply k_ret
  | |- keeps _ (throw _) => apply k_throw
  | |- keeps _ get_world => apply k_get_world
  | |- keeps _ get_mig => apply k_get_mig
  | |- keeps _ (now _) => apply k_now
  | |- keeps _ (save _) => apply h_save_keep
  | |- keeps _ (must _ _) => apply k_must_calm; exact I
  | |- keeps _ (ask _ _) => apply k_ask_calm; exact I
  | |- keeps _ (best _ _) => apply k_best_calm; exact I
  | |- keeps _ (find_instance _ _) => apply k_find_instance
  | |- keeps _ (find_database _ _) => apply k_find_database_going
  | |- keeps _ (the_app _) => apply k_the_app
  | |- keeps _ (attempt _) => apply k_attempt
  | |- keeps _ (when _ _) => apply k_when
  | |- keeps _ (bind _ _) => apply k_bind; [|intros ?]
  | |- keeps _ (for_each _ _) => apply k_for_each; intros ? ?
  | |- keeps _ (if ?b then _ else _) => destruct b
  | |- keeps _ (match ?x with _ => _ end) => destruct x
  end.
Ltac keeping := repeat keeping_step.

(** ** Preparing *)

Definition at_phase (p : mig_phase) (m : migration) : Prop := mg_phase m = p.
Definition volumes_in (ids : list N) (m : migration) : Prop := forall id, id ∈ ids -> id ∈ vs_id <$> so_volumes (mg_state m).
Definition moves_in (l : list plan_database) (m : migration) : Prop :=
  forall pd, pd ∈ l -> pd_strategy pd = StrategyMove -> pd_instance pd ∈ ms_id <$> so_instances (mg_state m).

Lemma going_prepare w m vl il rl :
  going (RunSt w m) -> mg_phase m = PhPrepare ->
  let m' := in_state (fun s => so_with_restores rl (so_with_instances il (so_with_volumes vl s))) m in
  Forall (vs_ok g) vl -> Forall (ms_ok g) il -> Forall (rs_ok g (w_next w)) rl -> NoDup (vs_id <$> vl) -> NoDup (ms_id <$> il) ->
  going (RunSt w m').
Proof.
  intros [Hf Hr Hi Hl Hs] Hp m' Hv Him Hrs Nv Ni. cbn in *. pose proof (in_phase _ _ _ Hi Hs) as Hph.
  assert (Hns : switched m = false) by (apply (pf_before _ _ _ Hph); by rewrite Hp).
  constructor; try done. destruct Hi as [[Ks ? ? ? ? ?] [Ra Rv Ri] [Da Db Dc] Is Ip It]. constructor.
  - by constructor.
  - constructor; unfold volume_now, instance_now, m', switched in *; cbn in *; rewrite Hns in *; done.
  - constructor; unfold m', switched, gone in *; cbn in *; congruence || done.
  - unfold m', switched in *. cbn. congruence.
  - intros _. destruct Hph as [P1 P2 P3 P4 P4' P5 P6 Popen]. constructor; unfold m', switched in *; cbn in *; rewrite ?Hp in *; done.
  - unfold status_fits, m'. cbn. by rewrite Hs.
Qed.
Lemma going_static s : going s -> mg_app (st_mig s) = sg_app g /\ mg_src_server (st_mig s) = sg_src_server g
  /\ mg_src_cluster (st_mig s) = sg_src_cluster g /\ mg_tgt_server (st_mig s) = sg_tgt_server g /\ mg_tgt_cluster (st_mig s) = sg_tgt_cluster g
  /\ mg_plan (st_mig s) = sg_plan g.
Proof. intros H. apply (kn_static _ _ _ (in_known _ _ _ (go_inv _ H))). Qed.

Lemma not_found_volume s id : going s ->
  match find_volume_state (st_mig s) id with Some vs => vs_prepared vs | None => false end = false -> id ∉ vs_id <$> so_volumes (mg_state (st_mig s)).
Proof.
  intros Hs Hf (vs & -> & Hin)%list_elem_of_fmap. unfold find_volume_state in Hf. destruct (find_first _ _) as [x|] eqn:E.
  - apply find_first_some in E as [Hx _]. pose proof (kn_vs _ _ _ (in_known _ _ _ (go_inv _ Hs))) as K.
    rewrite Forall_forall in K. destruct (K x Hx) as (_ & Hp & _). congruence.
  - rewrite find_first_none in E. specialize (E vs Hin). by rewrite N.eqb_refl in E.
Qed.
Lemma not_found_move s id : going s ->
  match find_move_state (st_mig s) id with Some vs => ms_prepared vs | None => false end = false -> id ∉ ms_id <$> so_instances (mg_state (st_mig s)).
Proof.
  intros Hs Hf (vs & -> & Hin)%list_elem_of_fmap. unfold find_move_state in Hf. destruct (find_first _ _) as [x|] eqn:E.
  - apply find_first_some in E as [Hx _]. pose proof (kn_ms _ _ _ (in_known _ _ _ (go_inv _ Hs))) as K.
    rewrite Forall_forall in K. destruct (K x Hx) as (_ & Hp & _). congruence.
  - rewrite find_first_none in E. specialize (E vs Hin). by rewrite N.eqb_refl in E.
Qed.
Lemma found_volume m id vs : find_volume_state m id = Some vs -> id ∈ vs_id <$> so_volumes (mg_state m).
Proof. intros [Hx Heq%N.eqb_eq]%find_first_some. apply list_elem_of_fmap. eauto. Qed.
Lemma found_move m id vs : find_move_state m id = Some vs -> id ∈ ms_id <$> so_instances (mg_state m).
Proof. intros [Hx Heq%N.eqb_eq]%find_first_some. apply list_elem_of_fmap. eauto. Qed.

Lemma so_with_same (s : mig_state) : so_with_restores (so_restores s) (so_with_instances (so_instances s) (so_with_volumes (so_volumes s) s)) = s.
Proof. by destruct s. Qed.

Lemma k_prepare_volume_move F v server : keeps (with_mig F) (prepare_volume_move ext class_path v server).
Proof. unfold prepare_volume_move, fail_with. keeping. Qed.
Lemma k_prepare_instance_move F i server : keeps (with_mig F) (prepare_instance_move ext i server).
Proof. unfold prepare_instance_move. keeping. Qed.

Lemma prepare_volume_ok pv ids : planned_volume g (pv_id pv) ->
  hoare (with_mig (fun m => at_phase PhPrepare m /\ volumes_in ids m)) (prepare_volume ext class_path pv)
    (fun _ => with_mig (fun m => at_phase PhPrepare m /\ volumes_in (ids ++ [pv_id pv]) m)) (fun _ => with_mig (at_phase PhPrepare)).
Proof.
  intros Hp. unfold prepare_volume. eapply h_bind; [apply h_get_mig|]. intros m. apply h_if; intros Hc.
  { apply h_ret. intros s [[Hs [Hph Hv]] ->]. split; [done|]. split; [done|]. intros id [Hid|Hid]%elem_of_app; [by apply Hv|].
    apply list_elem_of_singleton in Hid as ->. destruct (find_volume_state (st_mig s) (pv_id pv)) eqn:E; [|done]. by eapply found_volume. }
  set (F := fun m' => (at_phase PhPrepare m' /\ volumes_in ids m') /\ m' = m).
  eapply h_bind; [eapply h_weaken; [apply (h_find_volume_going F (pv_id pv))| | |]|].
  { intros s [[Hs HF] ->]. split; [done|]. by split. }
  { intros v s H. exact H. }
  { intros f s [Hs [[H1 _] _]]. by split. }
  intros v. cbn beta.
  set (vok := exists v0, sg_volumes g !! pv_id pv = Some v0 /\ v = v0).
  eapply (h_pre _ (fun s => vok /\ with_mig F s)).
  { intros s [[Hs HF] Hv]. split; [|done]. destruct (volume_row_origin g (st_world s) (st_mig s) _ v (in_rows _ _ _ (go_inv _ Hs)) Hv) as (v0 & H0 & _ & He).
    exists v0. split; [done|]. apply He; [done|]. apply (pf_before _ _ _ (in_phase _ _ _ (go_inv _ Hs) (go_running _ Hs))).
    destruct HF as [[Hph _] _]. by rewrite Hph. }
  apply h_fact. intros (v0 & H0 & ->).
  eapply h_bind.
  { eapply h_weaken; [apply (k_prepare_volume_move F)|done|intros a s H; exact H|]. intros f s [Hs [[H1 _] _]]. by split. }
  intros [[class created] mount].
  eapply h_bind; [|intros ?; eapply h_weaken; [apply (h_save_keep (fun m => at_phase PhPrepare m /\ volumes_in (ids ++ [pv_id pv]) m))|intros s H; exact H|done|]].
  - apply h_change_mig. intros [w mm] [Hs [[Hph Hv] Heq]]. cbn in *. subst mm.
    set (vs := VolumeState _ _ _ _ _ _ _ _ _ _ _). split.
    + pose proof (going_prepare w m (so_volumes (mg_state m) ++ [vs]) (so_instances (mg_state m)) (so_restores (mg_state m)) Hs Hph) as G.
      cbn in G. unfold so_with_restores, so_with_instances, so_with_volumes in *. cbn in *.
      destruct (in_known _ _ _ (go_inv _ Hs)) as [_ K1 K2 K3 K4 K5]. cbn in *. apply G; [|done|done| |done].
      * apply Forall_app. split; [done|]. apply Forall_singleton. split; [done|]. split; [done|]. exists v0. done.
      * rewrite fmap_app. apply NoDup_app. split; [done|]. split; [|by apply NoDup_singleton].
        intros x Hx ->%list_elem_of_singleton. by apply (not_found_volume _ _ Hs Hc).
    + split; [done|]. intros id Hid. cbn. rewrite fmap_app. apply elem_of_app in Hid as [Hid|Hid]; [apply elem_of_app; left; by apply Hv|].
      apply elem_of_app. right. cbn. apply list_elem_of_singleton in Hid as ->. by apply list_elem_of_singleton.
  - intros f s [Hs [H1 _]]. by split.
Qed.

(** Facts that do not speak of the restores *)
Definition restores_free (F : migration -> Prop) : Prop := forall m rl, F m -> F (in_state (so_with_restores rl) m).
Lemma h_change_restores F f : restores_free F -> (forall m, F m -> mg_phase m = PhPrepare) ->
  (forall next l, Forall (rs_ok g next) l -> Forall (rs_ok g next) (f l)) ->
  keeps (with_mig F) (change_mig (in_state (fun s => so_with_restores (f (so_restores s)) s))).
Proof.
  intros Hfree Hph Hf. apply h_change_mig. intros [w m] [Hs HF]. cbn in *. split; [|by apply (Hfree m (f (so_restores (mg_state m))))].
  destruct (in_known _ _ _ (go_inv _ Hs)) as [_ K1 K2 K3 K4 K5].
  pose proof (going_prepare w m (so_volumes (mg_state m)) (so_instances (mg_state m)) (f (so_restores (mg_state m))) Hs (Hph m HF)) as G.
  cbn in *. unfold in_state in *. unfold so_with_restores, so_with_instances, so_with_volumes in *. cbn in *. apply G; auto.
Qed.

Lemma k_await_instance F polls id : sg_instances g !! id = None -> keeps (with_mig F) (await_instance ext polls id).
Proof.
  intros Hid. induction polls as [|n IH]; [apply k_throw|]. cbn [await_instance]. apply k_bind; [by apply k_ask_calm|]. intros a.
  destruct (an_ok a); [|done]. apply k_bind; [apply k_get_world|]. intros w. destruct (w_instances w !! id) as [i|]; [|done].
  destruct (bool_decide _); [apply k_ret|]. destruct (bool_decide _); [apply k_throw|done].
Qed.

Lemma forall_removelast {A} (P : A -> Prop) l : Forall P l -> Forall P (removelast l).
Proof.
  induction l as [|x l IH]; [done|]. intros [Hx Hl]%Forall_cons. cbn. destruct l; [done|]. apply Forall_cons. auto.
Qed.
Lemma provision_target_ok F source : restores_free F -> (forall m, F m -> mg_phase m = PhPrepare) ->
  hoare (with_mig F) (provision_target ext source) (fun id s => sg_instances g !! id = None /\ with_mig F s) (fun _ => with_mig F).
Proof.
  intros Hfree Hph. unfold provision_target. eapply h_bind; [apply k_get_mig|]. intros m.
  eapply h_bind; [apply h_get_world|]. intros w.
  eapply (h_pre _ (fun s => sg_instances g !! w_next w = None /\ with_mig F s)).
  { intros s [Hs ->]. split; [|done]. destruct (sg_instances g !! _) eqn:E; [|done]. destruct (go_fits _ (proj1 Hs)) as [_ (_ & Hn & _)].
    specialize (Hn (w_next (st_world s)) ltac:(eauto)). lia. }
  apply h_fact. intros Hid. set (id := w_next w) in *.
  eapply h_bind; [by apply k_must_calm|]. intros ?.
  eapply h_bind; [apply (h_change_restores F (fun l => l ++ [Restore 0 source "" "" id 0 true false]) Hfree Hph)|].
  { intros next l Hl. apply Forall_app. split; [done|]. apply Forall_singleton. repeat split; done. }
  intros ?. eapply h_bind; [apply h_save_keep|]. intros ?.
  eapply h_bind; [by apply k_await_instance|]. intros ?.
  eapply h_bind; [apply (h_change_restores F (@removelast _) Hfree Hph); intros; by apply forall_removelast|]. intros ?.
  apply h_ret. done.
Qed.

Definition preparing (ids : list N) (l : list plan_database) (m : migration) : Prop :=
  at_phase PhPrepare m /\ volumes_in ids m /\ moves_in l m.
Lemma preparing_free ids l : restores_free (preparing ids l).
Proof. by intros m rl (H1 & H2 & H3). Qed.

Lemma prepare_restores_ok pd ids l target : pd ∈ mp_databases (sg_plan g) -> pd_strategy pd <> StrategyMove ->
  (pd_strategy pd = StrategyNewInstance -> sg_instances g !! target = None) ->
  hoare (with_mig (preparing ids l)) (change_mig (in_state (fun s => so_with_restores (so_restores s ++
      ((fun d => Restore (pg_id d) (pd_instance pd) (pg_name d) (pg_prefix d) target 0 (bool_decide (pd_strategy pd = StrategyNewInstance)) false)
       <$> pd_databases pd)) s)) ;;; save ext)
    (fun _ => with_mig (preparing ids (l ++ [pd]))) (fun _ => with_mig (at_phase PhPrepare)).
Proof.
  intros Hpd Hst Ht. eapply h_bind.
  - eapply h_weaken; [apply (h_change_restores (preparing ids l) (fun rl => rl ++ ((fun d => Restore (pg_id d) (pd_instance pd) (pg_name d)
      (pg_prefix d) target 0 (bool_decide (pd_strategy pd = StrategyNewInstance)) false) <$> pd_databases pd)) (preparing_free ids l))|done| |].
    + by intros m [Hm _].
    + intros next rl Hl. apply Forall_app. split; [done|]. apply Forall_fmap, Forall_forall. intros d Hd. cbn. repeat split; cbn; try done.
      * intros _. exists pd, d. done.
      * intros Hn%bool_decide_eq_true. auto.
    + intros a s H. exact H.
    + by intros f s [Hs [Hm _]].
  - intros ?. eapply h_weaken; [apply (h_save_keep (preparing ids l))|done| |by intros f s [Hs [Hm _]]].
    intros aa s [Hs (H1 & H2 & H3)]. split; [done|]. split; [done|]. split; [done|]. intros pd' [Hin|Heq%list_elem_of_singleton]%elem_of_app Hs'; [by apply H3|subst pd'; done].
Qed.

Lemma moving_intro pd : pd ∈ mp_databases (sg_plan g) -> pd_strategy pd = StrategyMove -> moving g (pd_instance pd).
Proof. intros Hp Hs. by exists pd. Qed.

Lemma prepare_database_ok pd ids l : pd ∈ mp_databases (sg_plan g) ->
  hoare (with_mig (preparing ids l)) (prepare_database ext pd)
    (fun _ => with_mig (preparing ids (l ++ [pd]))) (fun _ => with_mig (at_phase PhPrepare)).
Proof.
  intros Hpd. unfold prepare_database.
  assert (Hw : forall m : migration, preparing ids l m -> mg_phase m = PhPrepare) by by intros m [Hm _].
  eapply h_bind; [eapply h_weaken; [apply (h_find_instance_going (preparing ids l) (pd_instance pd))|done|intros a s H; exact H|by intros f s [Hs [Hm _]]]|].
  intros i. eapply h_bind; [apply h_get_mig|]. intros m.
  assert (Hrest : pd_strategy pd <> StrategyMove -> hoare (with_mig (preparing ids l))
    (if has_restores m (pd_instance pd) then ret tt
     else target <-- (if bool_decide (pd_strategy pd = StrategyNewInstance) then provision_target ext (pd_instance pd) else ret (pd_target pd));
       let created := bool_decide (pd_strategy pd = StrategyNewInstance) in
       let l' := (fun d => Restore (pg_id d) (pd_instance pd) (pg_name d) (pg_prefix d) target 0 created false) <$> pd_databases pd in
       change_mig (in_state (fun s => so_with_restores (so_restores s ++ l') s)) ;;; save ext)
    (fun _ => with_mig (preparing ids (l ++ [pd]))) (fun _ => with_mig (at_phase PhPrepare))).
  { intros Hst. apply h_if; intros Hh.
    { apply h_ret. intros s [Hs (H1 & H2 & H3)]. split; [done|]. split; [done|]. split; [done|].
      intros pd' [Hin|Heq%list_elem_of_singleton]%elem_of_app Hs'; [by apply H3|subst pd'; done]. }
    eapply h_bind.
    - apply (h_weaken (with_mig (preparing ids l)) _ _ (fun target s => (pd_strategy pd = StrategyNewInstance -> sg_instances g !! target = None)
        /\ with_mig (preparing ids l) s) _ (fun _ => with_mig (preparing ids l))); [|done|intros a s H; exact H|by intros f s [Hs [Hm _]]].
      apply h_if; intros Hb.
      + eapply h_weaken; [apply (provision_target_ok (preparing ids l)); [apply preparing_free|done]|done| |done]. intros a s [H1 H2]. by split.
      + apply h_ret. intros s Hs. split; [|done]. intros He. apply bool_decide_eq_false in Hb. done.
    - intros target. apply h_fact. intros Ht. by apply prepare_restores_ok. }
  destruct (pd_strategy pd) eqn:Est; [clear Hrest|eapply h_pre; [|by apply Hrest]; by intros s [[Hs _] _]|eapply h_pre; [|by apply Hrest]; by intros s [[Hs _] _]].
  apply h_if; intros Hc.
  { apply h_ret. intros s [[[Hs (H1 & H2 & H3)] _] ->]. split; [done|]. split; [done|]. split; [done|].
    intros pd' [Hin|Heq%list_elem_of_singleton]%elem_of_app Hs'; [by apply H3|subst pd'].
    destruct (find_move_state (st_mig s) (pd_instance pd)) eqn:E; [|done]. by eapply found_move. }
  set (F := fun m' => preparing ids l m' /\ m' = m).
  set (iok := exists i0, sg_instances g !! pd_instance pd = Some i0 /\ ir_volume i = ir_volume i0 /\ located i = located i0).
  eapply (h_pre _ (fun s => iok /\ with_mig F s)).
  { intros s [[[Hs HF] Hi] ->]. split; [|done]. destruct (wp_instance g Hg _ (moving_intro pd Hpd Est)) as (i0 & H0 & _).
    exists i0. split; [done|]. destruct (rf_instances _ _ _ (in_rows _ _ _ (go_inv _ Hs)) _ i0 (moving_intro pd Hpd Est) H0) as (i1 & Hi1 & Hv & Hl).
    assert (i1 = i) as -> by congruence. split; [done|]. rewrite Hl. unfold instance_now.
    pose proof (pf_before _ _ _ (in_phase _ _ _ (go_inv _ Hs) (go_running _ Hs))) as Hb. rewrite (Hw _ HF) in Hb. by rewrite Hb. }
  apply h_fact. intros (i0 & H0 & Hv & Hl).
  eapply h_bind.
  { eapply h_weaken; [apply (k_prepare_instance_move F)|done|intros a s H; exact H|]. by intros f s [Hs [[H1 _] _]]. }
  intros [class created]. cbn [fst snd].
  eapply h_bind; [|intros ?; eapply h_weaken; [apply (h_save_keep (preparing ids (l ++ [pd])))|intros s H; exact H|done|by intros f s [Hs [Hm _]]]].
  apply h_change_mig. intros [w mm] [Hs [(Hph & Hvo & Hmo) Heq]]. cbn in *. subst mm.
  set (ms := MoveState _ _ _ _ _ _ _ _ _ _ _). split.
  - pose proof (going_prepare w m (so_volumes (mg_state m)) (so_instances (mg_state m) ++ [ms]) (so_restores (mg_state m)) Hs Hph) as G.
    cbn in G. unfold so_with_restores, so_with_instances, so_with_volumes in *. cbn in *.
    destruct (in_known _ _ _ (go_inv _ Hs)) as [_ K1 K2 K3 K4 K5]. cbn in *. apply G; [done| |done|done|].
    + apply Forall_app. split; [done|]. apply Forall_singleton. split; [by apply moving_intro|]. split; [done|]. exists i0. unfold located in Hl.
      injection Hl as E1 E2 E3 E4. cbn. by rewrite E1, E2, E3, E4, Hv.
    + rewrite fmap_app. apply NoDup_app. split; [done|]. split; [|by apply NoDup_singleton].
      intros x Hx ->%list_elem_of_singleton. by apply (not_found_move _ _ Hs Hc).
  - split; [done|]. split; [done|]. intros pd' Hid Hs'. cbn. rewrite fmap_app. apply elem_of_app. apply elem_of_app in Hid as [Hid|Hid].
    + left. by apply Hmo.
    + right. apply list_elem_of_singleton in Hid as ->. by apply list_elem_of_singleton.
Qed.

Lemma moves_free (F : migration -> Prop) f : (forall m, core (f m) = core m) -> (forall m, F m -> F (f m)) -> keeps (with_mig F) (change_mig f).
Proof. intros Hc HF. by apply h_change_core. Qed.
Lemma prepare_ok : hoare (with_mig (at_phase PhPrepare)) (prepare ext class_path)
  (fun _ => with_mig (fun m => at_phase PhPrepare m /\ complete g m)) (fun _ => with_mig (at_phase PhPrepare)).
Proof.
  unfold prepare. eapply h_bind; [apply k_the_app|]. intros a. eapply h_bind; [apply h_get_mig|]. intros m.
  eapply (h_pre _ (fun s => mg_plan m = sg_plan g /\ with_mig (at_phase PhPrepare) s)).
  { intros s [Hs ->]. split; [|done]. apply going_static. apply Hs. }
  apply h_fact. intros Hplan.
  eapply h_bind.
  { instantiate (1 := fun _ => with_mig (at_phase PhPrepare)). apply h_if; intros ?; [|apply k_ret]. apply k_bind; [by apply k_ask_calm|].
    intros r. apply k_when. by apply moves_free. }
  intros ?. eapply h_bind; [by apply k_ask_calm|]. intros gw.
  eapply h_bind; [apply k_when; by apply moves_free|]. intros ?.
  eapply h_bind.
  { eapply (h_weaken (with_mig (fun m => at_phase PhPrepare m /\ volumes_in (pv_id <$> ([] : list plan_volume)) m))); [| |intros aa s H; exact H|intros f s H; exact H].
    - apply (h_for_each (fun l => with_mig (fun m => at_phase PhPrepare m /\ volumes_in (pv_id <$> l) m)) (prepare_volume ext class_path) (fun _ => with_mig (at_phase PhPrepare))).
      intros d pv rest Hl. eapply h_weaken; [apply (prepare_volume_ok pv (pv_id <$> d))|done| |done].
      + unfold planned_volume. rewrite <- Hplan, Hl, fmap_app. set_solver.
      + intros ? s H. by rewrite fmap_app.
    - intros s [Hs Hp]. split; [done|]. split; [done|]. intros id Hid. by apply elem_of_nil in Hid. }
  intros ?. eapply h_bind.
  { eapply (h_weaken (with_mig (preparing (pv_id <$> mp_volumes (mg_plan m)) []))); [| |intros aa s H; exact H|intros f s H; exact H].
    - apply (h_for_each (fun l => with_mig (preparing (pv_id <$> mp_volumes (mg_plan m)) l)) (prepare_database ext) (fun _ => with_mig (at_phase PhPrepare))).
      intros d pd rest Hl. apply prepare_database_ok. rewrite <- Hplan, Hl. set_solver.
    - intros s [Hs [Hp Hv]]. split; [done|]. split; [done|]. split; [done|]. intros pd Hid. by apply elem_of_nil in Hid. }
  intros ?. unfold pre_pull.
  eapply h_weaken; [|intros s H; exact H| |intros f s H; exact H].
  - eapply h_weaken; [apply (k_bind (with_mig (preparing (pv_id <$> mp_volumes (mg_plan m)) (mp_databases (mg_plan m)))))| | |].
    + apply k_get_mig.
    + intros mm. apply k_bind; [by apply k_ask_calm|]. intros r. apply k_when. by apply k_best_calm.
    + done.
    + intros r s H. exact H.
    + by intros f s [Hs [Hp _]].
  - intros r s [Hs (Hp & Hv & Hm)]. split; [done|]. split; [done|]. rewrite Hplan in Hv, Hm. split; [exact Hv|].
    intros id (pd & Hpd & <- & Hst). by apply Hm.
Qed.

Lemma going_phase w m p : going (RunSt w m) -> phase_fits g w (set_phase p m) -> p <> PhRollback -> p <> PhFinalize -> gone m = false ->
  (before_switch p = true -> before_switch (mg_phase m) = true) -> going (RunSt w (set_phase p m)).
Proof.
  intros [Hf Hr Hi Hl Hs] Hp Hnr Hnf Hg0 Hb. cbn in *. constructor; cbn; [done|done| | |done].
  - destruct Hi as [[] [] [] Is Ip It].
    assert (Hg1 : gone (set_phase p m) = gone m).
    { unfold gone in *. cbn. rewrite (bool_decide_eq_false_2 (p = PhFinalize)) by done. apply orb_false_iff in Hg0 as [-> ->]. done. }
    constructor; [by constructor|by constructor| |done|done|by unfold status_fits; cbn; rewrite Hs]. constructor; rewrite ?Hg1; done.
  - destruct Hl as (L1 & L2 & L3 & L4). unfold lag. cbn. split; [done|]. split; [auto|]. split; [done|].
    unfold gone. cbn. rewrite (bool_decide_eq_false_2 (p = PhFinalize)) by done. cbn. intros Hfin%bool_decide_eq_true. rewrite Hs in Hfin. done.
Qed.
(** What the next step starts from *)
Definition enters (p : mig_phase) (s : run_st D) : Prop :=
  going (RunSt (st_world s) (set_phase p (st_mig s))) /\ mg_phase (st_mig s) <> PhFinalize.

Lemma prepare_enters s : with_mig (fun m => at_phase PhPrepare m /\ complete g m) s -> enters PhPresync s.
Proof.
  destruct s as [w m]. intros [Hs [Hp Hc]]. cbn in *. pose proof (in_phase _ _ _ (go_inv _ Hs) (go_running _ Hs)) as Hph. cbn in *.
  assert (Hb : before_switch (mg_phase m) = true) by by rewrite Hp.
  split; [|cbn; unfold at_phase in *; congruence].
  apply going_phase; cbn; [done| |done|done|apply before_not_gone; [done|apply Hs]|done].
  pose proof (pf_before _ _ _ Hph Hb). pose proof (pf_early _ _ _ Hph) as He. rewrite Hp in He. constructor; cbn; try done.
Qed.

(** ** Copying *)

Lemma k_sync_one F fin j : (forall m, F m -> before_switch (mg_phase m) = true) -> keeps (with_mig F) (sync_one ext fin j).
Proof.
  intros HF. unfold sync_one, fail_with. apply k_bind; [apply h_save_keep|]. intros ?. apply k_bind; [apply k_get_mig|]. intros m.
  apply k_bind; [apply k_ask; [apply going_interruptible|by apply sync_stable]|]. intros r. keeping.
Qed.
Lemma k_cancel_requested F : keeps (with_mig F) (cancel_requested ext).
Proof. unfold cancel_requested. keeping. Qed.
Lemma k_sync_pass F jobs delta : (forall m, F m -> before_switch (mg_phase m) = true) -> keeps (with_mig F) (sync_pass ext jobs delta).
Proof.
  intros HF. revert delta. induction jobs as [|j jobs IH]; intros delta; [apply k_ret|]. cbn. apply k_bind; [apply k_cancel_requested|].
  intros c. destruct c; [apply k_throw|]. apply k_bind; [by apply k_sync_one|]. intros n. apply IH.
Qed.
Lemma k_presync_passes F n pass prev jobs : (forall m, F m -> before_switch (mg_phase m) = true) -> keeps (with_mig F) (presync_passes ext n pass prev jobs).
Proof.
  intros HF. revert pass prev. induction n as [|n IH]; intros pass prev; [apply k_ret|]. cbn [presync_passes].
  apply k_bind; [by apply k_sync_pass|]. intros delta. apply k_bind; [apply h_save_keep|]. intros ?.
  match goal with |- keeps _ (if ?b then _ else _) => destruct b end; [apply k_ret|apply IH].
Qed.

Lemma inv_awaiting (w : world D) m : inv g w m -> mg_status m = MigRunning -> mg_phase m = PhPresync -> inv g w (set_status MigAwaitingCutover m).
Proof.
  intros Hi Hs Hp. pose proof (in_phase _ _ _ Hi Hs) as [P1 P2 P3 P4 P4' P5 P6 Popen]. rewrite Hp in *. specialize (P1 eq_refl).
  destruct Hi as [[] [] [] Is Ip It]. assert (Hg1 : gone (set_status MigAwaitingCutover m) = gone m).
  { unfold gone. cbn. rewrite Hp, Hs. done. }
  constructor; [by constructor|by constructor| |done|done|]; [constructor; rewrite ?Hg1; done|]. unfold status_fits. cbn. done.
Qed.
Lemma presync_ok : hoare (with_mig (at_phase PhPresync)) (presync ext)
  (fun _ => with_mig (at_phase PhPresync)) (fun f s => with_mig (at_phase PhPresync) s \/ (f = FAwaiting /\ safe (st_world s))).
Proof.
  assert (Hb : forall m, at_phase PhPresync m -> before_switch (mg_phase m) = true) by by intros m ->.
  unfold presync. eapply h_bind; [apply h_of_keeps; [apply k_get_mig|by left]|].
  intros m. eapply h_bind; [apply h_of_keeps; [by apply k_ask_calm|by left]|].
  intros a. eapply h_bind; [apply h_of_keeps; [apply k_get_world|by left]|].
  intros w. eapply h_bind.
  { apply h_of_keeps; [|by left]. destruct (copy_jobs m); [apply k_ret|by apply k_presync_passes]. }
  intros ?. apply h_if; intros Hm; [|by apply h_ret].
  eapply h_bind; [apply (h_change_mig _ _ ready)|].
  - intros [w' m'] [Hs Hp]. cbn. split; [apply Hs|]. split; [|apply Hs]. apply inv_awaiting; [apply Hs|apply Hs|done].
  - intros ?. eapply h_bind; [eapply h_weaken; [apply h_save_last|done|intros b s H; exact H|done]|].
    intros ?. apply h_throw. by right.
Qed.
Lemma presync_enters s : with_mig (at_phase PhPresync) s -> enters PhStop s.
Proof.
  destruct s as [w m]. intros [Hs Hp]. unfold at_phase in Hp. cbn in *. pose proof (in_phase _ _ _ (go_inv _ Hs) (go_running _ Hs)) as Hph. cbn in *.
  assert (Hb : before_switch (mg_phase m) = true) by by rewrite Hp.
  split; [|cbn; unfold at_phase in *; congruence].
  apply going_phase; cbn; [done| |done|done|apply before_not_gone; [done|apply Hs]|done].
  pose proof (pf_before _ _ _ Hph Hb). pose proof (pf_complete _ _ _ Hph) as Hc. rewrite Hp in Hc. constructor; cbn; done.
Qed.

(** ** Stopping *)

(** With a fact about the rows, too, that calm questions do not change *)
Definition with_both (F : migration -> Prop) (W : world D -> Prop) (s : run_st D) : Prop := with_mig F s /\ W (st_world s).
Definition calm_fact (W : world D -> Prop) : Prop :=
  forall w w', names_kept g w -> (exists m, rows_fit g w m) -> tight g w w' -> W w -> W w'.
Lemma going_rows s : going s -> names_kept g (st_world s) /\ exists m, rows_fit g (st_world s) m.
Proof. intros Hs. split; [apply Hs|]. exists (st_mig s). apply Hs. Qed.
Lemma both_interruptible F W : interruptible (with_both F W).
Proof. intros s [Hs _]. by apply going_interruptible with F. Qed.
Lemma both_stable F W c : calm g c -> calm_fact W -> stable (with_both F W) c.
Proof.
  intros Hc HW s [Hs Hw]. split; [by apply calm_stable|]. cbn. destruct (going_rows s (proj1 Hs)). eapply HW; [done|done| |exact Hw]. apply after_tight; [done|apply Hs|done].
Qed.
(** A question that changes nothing at all *)
Definition idle (c : call) : Prop := forall a (w : world D), effect c a w = w.
Lemma idle_stable F W c : calm g c -> idle c -> (forall w h k n, W w -> W (put_held h (with_calls k n w))) -> stable (with_both F W) c.
Proof.
  intros Hc Hi HW s [Hs Hw]. split; [by apply calm_stable|]. cbn. unfold MigrationInv.after. rewrite Hi. unfold written. rewrite drift_rows. by apply HW.
Qed.
Lemma k_both_must F W c : calm g c -> calm_fact W -> keeps (with_both F W) (must ext c).
Proof. intros Hc HW. apply k_must; [apply both_interruptible|by apply both_stable]. Qed.
Lemma k_both_idle F W c : calm g c -> idle c -> (forall w h k n, W w -> W (put_held h (with_calls k n w))) -> keeps (with_both F W) (must ext c).
Proof. intros. apply k_must; [apply both_interruptible|by apply idle_stable]. Qed.
Lemma k_both_save F W : calm_fact W -> (forall w r, W w -> W (put_row r w)) -> keeps (with_both F W) (save ext).
Proof.
  intros HW Hr. eapply h_bind; [apply k_ask; [apply both_interruptible|by apply both_stable]|]. intros r.
  apply h_if; [|intros ?; apply k_ret]. intros ?. eapply h_bind; [apply h_get_mig|]. intros m.
  intros s [[[[Hf Hr' Hi Hl Hs] HF] HW'] ->]. cbn. split; [split; [|done]|by apply Hr]. constructor; cbn; [done|by apply inv_put_row|by apply inv_put_row| |done].
  split; [done|]. split; [done|]. split; done.
Qed.

Lemma update_tight (w : world D) (id : N) i i' : w_instances w !! id = Some i -> ir_volume i' = ir_volume i -> located i' = located i ->
  ir_container i' = ir_container i -> (instance_up i = false -> instance_up i' = false) -> tight g w (put_instances (<[id := i']> (w_instances w)) w).
Proof.
  intros Hi Hv Hl Hc Hu. constructor; [constructor; [constructor|]|..]; try done.
  - intros j _. cbn. destruct (decide (id = j)) as [->|Hn]; [|by rewrite lookup_insert_ne]. rewrite lookup_insert_eq, Hi. cbn. congruence.
  - intros j _. cbn. destruct (decide (id = j)) as [->|Hn].
    + exists (fun x => if bool_decide (x = i) then i' else x). rewrite lookup_insert_eq, Hi. cbn. rewrite bool_decide_eq_true_2 by done. split; [done|].
      intros x. case_bool_decide; [subst; done|done].
    + exists (fun x => x). rewrite lookup_insert_ne by done. split; [by destruct (w_instances w !! j)|done].
Qed.
Lemma going_update w m (id : N) i i' : going (RunSt w m) -> w_instances w !! id = Some i -> ir_volume i' = ir_volume i ->
  tight g w (put_instances (<[id := i']> (w_instances w)) w) -> going (RunSt (put_instances (<[id := i']> (w_instances w)) w) m).
Proof.
  intros Hs Hi Hv Ht. pose proof (go_fits _ Hs) as [HN HF]. apply (going_change _ (RunSt w m)); [done| |done|].
  - split; [|done]. intros j x. cbn. intros [[<- <-]|[_ Hx]]%lookup_insert_Some; [|by apply HN]. specialize (HN id i Hi).
    destruct (sg_instances g !! id); rewrite Hv; done.
  - intros mm _ Hinv. eapply inv_tight; [done|exact Ht|exact HN|done].
Qed.
Lemma stopped_row i : ir_volume (instance_run DbStopped (ir_container i) i) = ir_volume i
  /\ located (instance_run DbStopped (ir_container i) i) = located i
  /\ ir_container (instance_run DbStopped (ir_container i) i) = ir_container i
  /\ instance_up (instance_run DbStopped (ir_container i) i) = false.
Proof. done. Qed.

(** Stopping an instance for the move *)
Definition row_is (id : N) (i : instance_row) (w : world D) : Prop := w_instances w !! id = Some i.
Lemma stop_for_move_ok F (W : world D -> Prop) id i : calm_fact W -> (forall w h k n, W w -> W (put_held h (with_calls k n w))) ->
  hoare (with_both F (fun w => W w /\ row_is id i w)) (stop_for_move ext id i) (fun _ => with_both F (fun w => W w /\ not_up w id)) (fun _ => with_mig F).
Proof.
  intros HW Hh. unfold stop_for_move. apply h_if; intros Hc.
  { apply h_ret. intros s [Hs [Hw Hr]]. split; [done|]. split; [done|]. apply String.eqb_eq in Hc. by eapply container_not_up. }
  assert (Hk : forall w h k n, W w /\ row_is id i w -> W (put_held h (with_calls k n w)) /\ row_is id i (put_held h (with_calls k n w))).
  { intros w h k n [Hw Hr]. split; [by apply Hh|done]. }
  eapply h_bind; [eapply h_of_keeps; [apply (k_both_idle F (fun w => W w /\ row_is id i w)); [done|done|exact Hk]|by intros f s [Hs _]]|].
  intros ?. unfold update_instance. eapply h_bind; [eapply h_of_keeps; [apply (k_both_idle F (fun w => W w /\ row_is id i w)); [done|done|exact Hk]|by intros f s [Hs _]]|].
  intros ?. apply h_change_world. intros [w m] [[Hs HF] [Hw Hr]]. cbn in *.
  destruct (stopped_row i) as (E1 & E2 & E3 & E4). set (i' := instance_run _ _ _) in *.
  assert (Ht : tight g w (put_instances (<[id := i']> (w_instances w)) w)) by (eapply update_tight; eauto).
  split; [split; [by eapply going_update|done]|]. destruct (going_rows _ Hs). split; [by eapply HW|]. exists i'. cbn. by rewrite lookup_insert_eq.
Qed.

Lemma app_up_calm b : calm_fact (fun w => app_up w = b).
Proof. intros w w' _ _ Ht Hw. by rewrite (ti_app _ _ _ Ht). Qed.
Lemma not_up_calm id : moving g id -> calm_fact (fun w => not_up w id).
Proof.
  intros Hm w w' _ _ Ht (i & Hi & Hu). destruct (ti_instances _ _ _ Ht id Hm) as (f & Hf & Hfi). exists (f i). rewrite Hf, Hi. split; [done|]. by apply Hfi.
Qed.
Definition all_down (l : list move_state) (w : world D) : Prop := app_stopped w /\ forall ms, ms ∈ l -> moving g (ms_id ms) /\ not_up w (ms_id ms).
Lemma all_down_calm l : calm_fact (all_down l).
Proof.
  intros w w' HN HR Ht [Ha Hl]. split; [by eapply (app_up_calm false)|]. intros ms Hms. destruct (Hl ms Hms) as [Hm Hu]. split; [done|].
  by eapply not_up_calm.
Qed.

Definition at_stop (m : migration) : Prop := mg_phase m = PhStop /\ so_stopped (mg_state m) = true.
Lemma going_stopped w m : going (RunSt w m) -> mg_phase m = PhStop -> going (RunSt w (in_state so_with_stopped m)).
Proof.
  intros [Hf Hr Hi Hl Hs] Hp. cbn in *. constructor; cbn; [done|done| | |done].
  - pose proof (in_phase _ _ _ Hi Hs) as [P1 P2 P3 P4 P4' P5 P6 Popen]. destruct Hi as [[] [] [] Is Ip It].
    constructor; [by constructor|by constructor|by constructor| | |unfold status_fits; cbn; by rewrite Hs].
    + intros Hsw. destruct (Is Hsw). done.
    + intros _. constructor; cbn in *; try done; by rewrite Hp.
  - exact Hl.
Qed.
Lemma before_stop : forall m, at_stop m -> before_switch (mg_phase m) = true.
Proof. by intros m [-> _]. Qed.
Lemma stop_ok : hoare (with_mig (at_phase PhStop)) (stop ext clock) (fun _ => with_both at_stop (quiet g)) (fun _ => with_mig (at_phase PhStop)).
Proof.
  unfold stop. eapply h_bind; [apply h_the_app; [apply going_interruptible|by apply calm_stable]|]. intros a.
  set (A := fun w : world D => ap_status a = AppStopped -> app_stopped w).
  assert (HA : calm_fact A).
  { intros w w' HN HR Ht Hw Hst. eapply (app_up_calm false); [done|done|exact Ht|]. by apply Hw. }
  assert (Hweak : forall (W : world D -> Prop) s, with_both at_stop W s -> with_mig (at_phase PhStop) s) by by intros W s [[Hs [Hp _]] _].
  eapply (h_pre _ (with_both (at_phase PhStop) A)).
  { intros s [[Hs HF] Ha]. split; [done|]. intros Hst. unfold app_stopped, app_up. rewrite Ha, Hst. done. }
  eapply h_bind; [eapply h_of_keeps; [apply k_now|by intros f s [Hs _]]|]. intros t.
  eapply h_bind; [apply (h_change_mig _ _ (with_both at_stop A))|].
  { intros [w m] [[Hs Hp] Hw]. cbn in *. split; [|done]. split; [|done]. apply (going_core w (in_state so_with_stopped m)); [done|]. by apply going_stopped. }
  intros ?. eapply h_bind; [eapply h_of_keeps; [apply k_both_save; [done|by intros w r Hw Hst; apply Hw]|intros f s; apply Hweak]|].
  intros ?. eapply h_bind.
  { instantiate (1 := fun _ => with_both at_stop app_stopped). apply h_if; intros Hb.
    - apply bool_decide_eq_true in Hb. apply h_ret. intros s [Hs Hw]. split; [done|]. by apply Hw.
    - eapply (h_bind _ _ _ (fun _ => with_both at_stop app_stopped)); [|intros ?; by apply h_ret]. apply h_must.
      + apply both_interruptible.
      + intros s [Hs Hw] Hok. split; [apply (stop_app_stable at_stop before_stop); done|]. cbn. destruct (after_stop_app (st_world s)) as [_ Ha].
        unfold app_stopped, app_up. rewrite Ha, Hok. by destruct (w_app (st_world s)).
      + intros s f [Hs Hw] _. destruct (stop_app_stable at_stop before_stop s Hs) as [H1 [H2 _]]. done. }
  intros ?. eapply h_bind; [apply h_get_mig|]. intros m.
  set (l := so_instances (mg_state m)).
  set (Fm := fun m' => at_stop m' /\ m' = m).
  assert (Hl : forall s, with_mig Fm s -> Forall (ms_ok g) l /\ forall id, moving g id -> id ∈ ms_id <$> l).
  { intros s [Hs [[Hp _] Heq]]. subst l. rewrite <- Heq. split; [apply (kn_ms _ _ _ (in_known _ _ _ (go_inv _ Hs)))|].
    pose proof (pf_complete _ _ _ (in_phase _ _ _ (go_inv _ Hs) (go_running _ Hs))) as Hc. rewrite Hp in Hc. apply Hc. }
  eapply (h_weaken (with_both Fm (all_down []))); [| | |intros f s H; exact H].
  - eapply h_weaken; [apply (h_for_each (fun d => with_both Fm (all_down d)) _ (fun _ => with_mig (at_phase PhStop)) l)|done|intros b s H; exact H|done].
    intros d ms rest Hd. eapply h_bind.
    { eapply h_weaken; [apply h_find_instance; [apply both_interruptible|apply both_stable; [done|apply all_down_calm]]|done|intros b s H; exact H|].
      by intros f s [[Hs [[Hp _] _]] _]. }
    intros i. eapply h_weaken; [apply (stop_for_move_ok Fm (all_down d) (ms_id ms) i); [apply all_down_calm|done]| | |].
    + intros s [[Hs Hw] Hi]. done.
    + intros b s [Hs [[Ha Hdn] Hu]]. split; [done|]. split; [done|]. intros ms' Hin. destruct (Hl s Hs) as [Hok _].
      apply elem_of_app in Hin as [Hin|Hin]; [by apply Hdn|]. apply list_elem_of_singleton in Hin as ->. split; [|done].
      rewrite Forall_forall in Hok. apply (Hok ms). rewrite Hd. set_solver.
    + by intros f s [Hs [[Hp _] _]].
  - intros s [[Hs Hw] ->]. split; [split; [apply Hs|split; [apply Hs|done]]|]. split; [done|]. intros ms Hms. by apply elem_of_nil in Hms.
  - intros b s [Hs [Ha Hdn]]. destruct (Hl s Hs) as [_ Hc]. split; [split; [apply Hs|apply Hs]|]. split; [done|]. intros id Hm.
    destruct (proj1 (list_elem_of_fmap _ _ _) (Hc id Hm)) as (ms & -> & Hin). by apply Hdn.
Qed.

Lemma stop_enters s : with_both at_stop (quiet g) s -> enters PhFinalSync s.
Proof.
  destruct s as [w m]. intros [[Hs [Hp Hst]] Hq]. cbn in *. pose proof (in_phase _ _ _ (go_inv _ Hs) (go_running _ Hs)) as Hph. cbn in *.
  assert (Hb : before_switch (mg_phase m) = true) by by rewrite Hp.
  split; [|cbn; unfold at_phase in *; congruence].
  apply going_phase; cbn; [done| |done|done|apply before_not_gone; [done|apply Hs]|done].
  pose proof (pf_before _ _ _ Hph Hb). pose proof (pf_complete _ _ _ Hph) as Hc. rewrite Hp in Hc. constructor; cbn; done.
Qed.

(** ** The final copy *)

(** What is copied: source node and name *)
Definition job_ok (j : N * string) : Prop :=
  (exists id v, planned_volume g id /\ sg_volumes g !! id = Some v /\ j = (vr_server v, vr_docker v))
  \/ (exists id i, moving g id /\ sg_instances g !! id = Some i /\ j = (ir_server i, ir_volume i)).
Definition job_from (j : N * string) : place := on_disk j.1 j.2.
Definition job_to (j : N * string) : place := on_disk (sg_tgt_server g) j.2.
Lemma job_places j : job_ok j -> source_place g (job_from j) /\ target_place g (job_to j) /\ j.1 <> sg_tgt_server g.
Proof.
  intros [(id & v & Hp & H0 & ->)|(id & i & Hp & H0 & ->)].
  - destruct (wp_volume g Hg id Hp) as (v' & Hv' & Hne). assert (v' = v) as -> by congruence.
    split_and!; [left|left|done]; exists id, v; done.
  - destruct (wp_instance g Hg id Hp) as (v' & Hv' & Hne & _). assert (v' = i) as -> by congruence.
    split_and!; [right|right|done]; exists id, i; done.
Qed.
Lemma job_unique j j' : job_ok j -> job_ok j' -> j.2 = j'.2 -> j = j'.
Proof.
  intros [(id & v & Hp & H0 & ->)|(id & i & Hp & H0 & ->)] [(id' & v' & Hp' & H0' & ->)|(id' & i' & Hp' & H0' & ->)] He; cbn in *.
  - assert (id = id') as -> by (by eapply (wp_volume_names g Hg)). congruence.
  - exfalso. by eapply (wp_names_apart g Hg); [exact H0|exact H0'|].
  - exfalso. by eapply (wp_names_apart g Hg); [exact H0'|exact H0|].
  - destruct (wp_instance g Hg id Hp) as (i1 & Hi1 & _ & Hne). assert (i1 = i) as -> by congruence.
    assert (id = id') as -> by (by eapply (wp_instance_names g Hg)). congruence.
Qed.
Lemma job_idle (w : world D) m j : rows_fit g w m -> names_kept g w -> quiet g w -> job_ok j ->
  writable w (job_from j) = false /\ writable w (job_to j) = false.
Proof.
  intros R HN [Qa Qi] [(id & v & Hp & H0 & ->)|(id & i & Hp & H0 & ->)].
  - by apply (volume_source_idle g Hg w m id v).
  - apply (instance_idle g Hg w m id i); auto.
Qed.
Definition jobs_equal (l : list (N * string)) (w : world D) : Prop := quiet g w /\ forall j, j ∈ l -> job_ok j /\ same_held w (job_from j) (job_to j).
Lemma quiet_calm : calm_fact (quiet g).
Proof.
  intros w w' HN HR Ht [Qa Qi]. split; [by eapply (app_up_calm false)|]. intros id Hm. eapply not_up_calm; eauto.
Qed.
Lemma jobs_equal_calm l : calm_fact (jobs_equal l).
Proof.
  intros w w' HN [m HR] Ht [Hq Hl]. split; [eapply quiet_calm; eauto|]. intros j Hj. destruct (Hl j Hj) as [Hok He]. split; [done|].
  destruct (job_idle w m j HR HN Hq Hok) as [H1 H2]. destruct (job_places j Hok) as (P1 & P2 & _).
  eapply same_held_keep; [exact He| |]; intros Hh; apply (ti_held _ _ _ Ht); try done; [by left|by right].
Qed.

Lemma written_quiet c (w : world D) m j : rows_fit g w m -> names_kept g w -> quiet g w -> job_ok j ->
  w_held (written ext c w) !! job_from j = w_held w !! job_from j /\ w_held (written ext c w) !! job_to j = w_held w !! job_to j.
Proof.
  intros R HN Hq Hok. destruct (job_idle w m j R HN Hq Hok) as [H1 H2].
  split; apply (held_writes (an_writes (ext (w_calls w) c)) (with_calls (S (w_calls w)) (pred <$> w_left w) w) (w_held w)); done.
Qed.
Lemma effect_final_sync s t v a (w : world D) : an_ok a = true ->
  w_held (effect (CSync s t v true) a w) = <[on_disk t v := default (an_data a) (w_held w !! on_disk s v)]> (w_held w).
Proof. intros Ha. cbn. by rewrite Ha. Qed.
Lemma final_copy (w : world D) m l j : rows_fit g w m -> names_kept g w -> jobs_equal l w -> job_ok j -> holds w (job_from j) ->
  an_ok (ext (w_calls w) (CSync j.1 (sg_tgt_server g) j.2 true)) = true ->
  jobs_equal (l ++ [j]) (after (CSync j.1 (sg_tgt_server g) j.2 true) w).
Proof.
  intros R HN [Hq Hl] Hok Hh Ha. set (c := CSync j.1 (sg_tgt_server g) j.2 true) in *.
  split; [destruct (after_sync_rows j.1 (sg_tgt_server g) j.2 true w) as [E1 E2]; by eapply quiet_same|].
  unfold MigrationInv.after. pose proof (effect_final_sync j.1 (sg_tgt_server g) j.2 _ (written ext c w) Ha) as Heff. fold c in Heff.
  assert (He : forall p, p <> job_to j -> w_held (effect c (ext (w_calls w) c) (written ext c w)) !! p = w_held (written ext c w) !! p).
  { intros p Hp. rewrite Heff. by apply lookup_insert_ne. }
  assert (Hto : w_held (effect c (ext (w_calls w) c) (written ext c w)) !! job_to j = w_held w !! job_from j).
  { rewrite Heff. unfold job_to at 1. rewrite lookup_insert_eq. destruct (written_quiet c w m j R HN Hq Hok) as [W1 _]. unfold job_from in *.
    rewrite W1. destruct Hh as [d Hd]. by rewrite Hd. }
  assert (Hfrom : forall j', job_ok j' -> w_held (effect c (ext (w_calls w) c) (written ext c w)) !! job_from j' = w_held w !! job_from j').
  { intros j' Hok'. destruct (job_places j' Hok') as (_ & _ & Hne). rewrite He; [by apply (written_quiet c w m)|]. intros [= E _]. congruence. }
  assert (Hj : same_held (effect c (ext (w_calls w) c) (written ext c w)) (job_from j) (job_to j)).
  { unfold same_held, holds. rewrite (Hfrom j Hok), Hto. done. }
  intros j' [Hin|Hin]%elem_of_app; [|by apply list_elem_of_singleton in Hin as ->].
  destruct (Hl j' Hin) as [Hok' [Hh' He']]. split; [done|]. destruct (decide (j'.2 = j.2)) as [E|E].
  { by rewrite (job_unique j' j Hok' Hok E). }
  unfold same_held, holds. rewrite (Hfrom j' Hok'). split; [done|]. rewrite He; [|intros [= Hx]; done].
  rewrite He'. symmetry. by apply (written_quiet c w m).
Qed.

(** An assertion every calm question and every save of a run keeps: the interface the code that only asks is proved
    against. *)
Class Robust (P : run_st D -> Prop) := {
  robust_interruptible : interruptible P;
  robust_calm : forall c, calm g c -> stable P c;
  robust_save : keeps P (save ext) }.
#[export] Instance robust_mig F : Robust (with_mig F).
Proof. constructor; [apply going_interruptible|apply calm_stable|apply h_save_keep]. Qed.
Lemma robust_both F W : calm_fact W -> (forall w r, W w -> W (put_row r w)) -> Robust (with_both F W).
Proof. intros HW Hr. constructor; [apply both_interruptible|intros c Hc; by apply both_stable|by apply k_both_save]. Qed.

Section Asking.
Context {P : run_st D -> Prop} `{!Robust P}.
Lemma kr_ask c : calm g c -> keeps P (ask ext c).
Proof. intros H. apply k_ask; [apply robust_interruptible|by apply robust_calm]. Qed.
Lemma kr_must c : calm g c -> keeps P (must ext c).
Proof. intros H. apply k_must; [apply robust_interruptible|by apply robust_calm]. Qed.
Lemma kr_best c : calm g c -> keeps P (best ext c).
Proof. intros H. apply k_best; [apply robust_interruptible|by apply robust_calm]. Qed.
Lemma hr_find_instance id : hoare P (find_instance ext id) (fun i s => P s /\ w_instances (st_world s) !! id = Some i) (fun _ => P).
Proof. apply h_find_instance; [apply robust_interruptible|by apply robust_calm]. Qed.
Lemma kr_find_instance id : keeps P (find_instance ext id).
Proof. eapply h_weaken; [apply hr_find_instance|done| |done]. by intros ? ? []. Qed.
Lemma kr_find_database id : keeps P (find_database ext id).
Proof. apply k_find_database; [apply robust_interruptible|by apply robust_calm]. Qed.
Lemma hr_the_app : hoare P (the_app ext) (fun a s => P s /\ w_app (st_world s) = Some a) (fun _ => P).
Proof. apply h_the_app; [apply robust_interruptible|by apply robust_calm]. Qed.
Lemma kr_the_app : keeps P (the_app ext).
Proof. eapply h_weaken; [apply hr_the_app|done| |done]. by intros ? ? []. Qed.
End Asking.

End Safe.

(** Code that only asks calm questions keeps what is robust. *)
Ltac asking_step :=
  lazymatch goal with
  | |- keeps _ (ret _) => apply k_ret
  | |- keeps _ (throw _) => apply k_throw
  | |- keeps _ (fail_with _) => apply k_throw
  | |- keeps _ get_world => apply k_get_world
  | |- keeps _ get_mig => apply k_get_mig
  | |- keeps _ (now _) => apply k_now
  | |- keeps _ (save _) => apply robust_save
  | |- keeps _ (must _ _) => apply kr_must; exact I
  | |- keeps _ (ask _ _) => apply kr_ask; exact I
  | |- keeps _ (best _ _) => apply kr_best; exact I
  | |- keeps _ (find_instance _ _) => apply kr_find_instance
  | |- keeps _ (find_database _ _) => apply kr_find_database
  | |- keeps _ (the_app _) => apply kr_the_app
  | |- keeps _ (attempt _) => apply k_attempt
  | |- keeps _ (when _ _) => apply k_when
  | |- keeps _ (cancel_requested _) => unfold cancel_requested
  | |- keeps _ (bind _ _) => apply k_bind; [|intros ?]
  | |- keeps _ (for_each _ _) => apply k_for_each; intros ? ?
  | |- keeps _ (if ?b then _ else _) => destruct b
  | |- keeps _ (match ?x with _ => _ end) => destruct x
  end.
Ltac asking := repeat asking_step.
