(* ===== verification/MigrationCut.v ===== *)
(** * Moving an application to another location: the final copy and the switch

    The last copies are taken while nothing that moves runs, so they are what they are copies of; the switch moves every
    row in one transaction, and what is switched runs from its copies. *)
From S2P Require Import Prelude GoStrings Migration MigrationRun MigrationInv MigrationSafe.
#[local] Open Scope Z_scope.
#[local] Open Scope list_scope.

Section Cut.
Context {D : Type} {g : setting} {Hg : well_planned g} {ext : nat -> call -> answer D} {Hext : lawful g ext} {clock : nat -> Z}.
Context {app_env : N -> N -> string -> gmap string string -> list (string * string)}.
#[local] Abbreviation M := (M D).
#[local] Abbreviation after := (after ext).
#[local] Abbreviation hoare := (@hoare D g _).
#[local] Abbreviation keeps := (@keeps D g _).
#[local] Abbreviation safe := (@safe D g).
#[local] Abbreviation going := (@going D g).
#[local] Abbreviation with_mig := (@with_mig D g).
#[local] Abbreviation with_both := (@with_both D g).
#[local] Abbreviation jobs_equal := (@jobs_equal D g).
#[local] Abbreviation enters := (@enters D g).
#[local] Abbreviation ready := (@ready D g).

(** ** The final copy *)

Lemma going_restores w m rl : going (RunSt w m) -> Forall (rs_ok g (w_next w)) rl -> going (RunSt w (in_state (so_with_restores rl) m)).
Proof.
  intros [Hf Hr Hi Hl Hs] Hrl. cbn in *. destruct m as [? ? ? ? ? ? ? ? ? [] ? ? ? ? ?]. cbn in *.
  constructor; cbn; [exact Hf|exact Hr| |exact Hl|exact Hs].
  destruct Hi as [[] [] [] Is Ip It]. cbn in *. constructor; [by constructor|by constructor|by constructor|exact Is| |exact It].
  intros Hst. destruct (Ip Hst). by constructor.
Qed.

(** Restoring at an index *)
Definition restoring (n : nat) (m : migration) : Prop :=
  at_phase PhFinalSync m /\ exists r, so_restores (mg_state m) !! n = Some r /\ rs_src_db r <> 0%N.
Lemma forall_alter {A} (Q : A -> Prop) f n (l : list A) : Forall Q l -> (forall x, l !! n = Some x -> Q x -> Q (f x)) -> Forall Q (alter f n l).
Proof.
  intros Hl Hf. rewrite Forall_lookup in *. intros k x Hx. destruct (decide (k = n)) as [->|Hn].
  - rewrite list_lookup_alter_eq in Hx. destruct (l !! n) as [y|] eqn:E; [|done]. cbn in Hx. injection Hx as <-. apply Hf; [done|]. by eapply Hl.
  - rewrite list_lookup_alter_ne in Hx by done. by eapply Hl.
Qed.
Lemma h_update_restore n f (W W' : world D -> Prop) :
  (forall next r, rs_src_db r <> 0%N -> rs_ok g next r -> (exists w, next = w_next w /\ W w) -> rs_ok g next (f r)) ->
  (forall r, rs_src_db (f r) = rs_src_db r) -> (forall w, W w -> W' w) ->
  hoare (with_both (restoring n) W) (update_restore n f) (fun _ => with_both (restoring n) W') (fun _ => with_mig (at_phase PhFinalSync)).
Proof.
  intros Hf Hsrc HW. apply h_change_mig. intros [w m] [[Hs [Hp (r & Hr & Hne)]] Hw]. cbn in *. split; [|by apply HW]. split.
  - apply going_restores; [done|]. apply forall_alter; [apply (kn_rs _ _ _ (in_known _ _ _ (go_inv _ Hs)))|].
    intros x Hx Hok. cbn in Hx. rewrite Hr in Hx. injection Hx as <-. apply Hf; [done|done|]. by exists w.
  - split; [done|]. exists (f r). cbn. rewrite list_lookup_alter_eq, Hr. cbn. by rewrite Hsrc.
Qed.
Lemma jobs_equal_row l (w : world D) r : jobs_equal l w -> jobs_equal l (put_row r w).
Proof. done. Qed.
Lemma jobs_robust F l : Robust (g := g) (ext := ext) (with_both F (jobs_equal l)).
Proof. apply robust_both; [apply jobs_equal_calm|intros; by apply jobs_equal_row]. Qed.
Lemma both_weaken F (F' : migration -> Prop) (W : world D -> Prop) s : (forall m, F m -> F' m) -> with_both F W s -> with_mig F' s.
Proof. intros HF [[Hs Hm] _]. split; [done|by apply HF]. Qed.

Lemma after_create_next i nm (w : world D) : an_ok (ext (w_calls w) (CCreateDatabase i nm)) = true ->
  w_next (after (CCreateDatabase i nm) w) = N.succ (w_next w).
Proof. intros Ha. unfold MigrationInv.after. cbn. by rewrite Ha. Qed.
Lemma new_id_fresh s : going s -> sg_databases g !! w_next (st_world s) = None.
Proof.
  intros Hs. destruct (sg_databases g !! w_next (st_world s)) eqn:E; [|done]. destruct (go_fits _ Hs) as [_ (_ & _ & Hn)].
  specialize (Hn (w_next (st_world s)) ltac:(eauto)). lia.
Qed.
Lemma restoring_weaken n m : restoring n m -> at_phase PhFinalSync m.
Proof. by intros [H _]. Qed.

(** A database is created for a restore once, and recorded. *)
Lemma create_target_ok n inst name jobs :
  hoare (with_both (restoring n) (jobs_equal jobs))
    (w <-- get_world; _ <-- must ext (CCreateDatabase inst name); let id := w_next w in update_restore n (with_target_db id) ;;; save ext ;;; ret id)
    (fun _ => with_both (restoring n) (jobs_equal jobs)) (fun _ => with_mig (at_phase PhFinalSync)).
Proof.
  pose proof (jobs_robust (restoring n) jobs) as HR.
  eapply h_bind; [apply h_get_world|]. intros w.
  eapply (h_pre _ (fun s => sg_databases g !! w_next w = None /\ (with_both (restoring n) (jobs_equal jobs) s /\ st_world s = w))).
  { intros s [Hs ->]. split; [apply new_id_fresh, Hs|done]. }
  apply h_fact. intros Hid. set (W := fun w' : world D => jobs_equal jobs w' /\ (w_next w < w_next w')%N).
  eapply (h_bind _ _ _ (fun _ => with_both (restoring n) W)).
  { apply h_must.
    - intros s [Hs _]. by apply (robust_interruptible (Robust := HR)).
    - intros s [Hs <-] Ha. destruct (robust_calm (Robust := HR) (CCreateDatabase inst name) I s Hs) as [Hm Hj].
      split; [done|]. split; [done|]. cbn. rewrite after_create_next by done. lia.
    - intros s f [Hs _] _. apply (both_weaken (restoring n) _ (jobs_equal jobs)); [apply restoring_weaken|].
      by apply (robust_calm (Robust := HR) (CCreateDatabase inst name) I s). }
  intros ?. cbn zeta. eapply h_bind; [apply (h_update_restore n _ W (jobs_equal jobs))|].
  - intros next r Hne (R1 & R2 & R3 & R4) (w' & -> & _ & Hlt). split; [exact R1|]. split; [exact R2|]. cbn. split; [done|]. done.
  - done.
  - by intros w' [Hj _].
  - intros ?. eapply h_of_keeps; [asking|]. intros f s. apply both_weaken, restoring_weaken.
Qed.
Lemma restore_one_ok n r jobs :
  hoare (with_both (restoring n) (jobs_equal jobs)) (restore_one ext n r)
    (fun _ => with_both (restoring n) (jobs_equal jobs)) (fun _ => with_mig (at_phase PhFinalSync)).
Proof.
  pose proof (jobs_robust (restoring n) jobs) as HR.
  assert (HE : forall (f : failure) s, with_both (restoring n) (jobs_equal jobs) s -> with_mig (at_phase PhFinalSync) s).
  { intros f s. apply both_weaken, restoring_weaken. }
  unfold restore_one.
  eapply h_bind; [eapply h_of_keeps; [asking|exact HE]|]. intros ?.
  eapply h_bind; [eapply h_of_keeps; [asking|exact HE]|]. intros d.
  eapply h_bind; [eapply h_of_keeps; [asking|exact HE]|]. intros ?.
  eapply (h_bind _ _ _ (fun _ => with_both (restoring n) (jobs_equal jobs))).
  { apply h_if; intros _; [apply create_target_ok|]. eapply h_of_keeps; [asking|exact HE]. }
  intros target. cbn beta.
  eapply h_bind; [eapply h_of_keeps; [asking|exact HE]|]. intros ?.
  eapply h_bind; [eapply h_of_keeps; [asking|exact HE]|]. intros ?.
  eapply h_bind; [eapply h_of_keeps; [asking|exact HE]|]. intros ?.
  eapply h_bind; [eapply h_of_keeps; [asking|exact HE]|]. intros ?.
  eapply h_bind; [eapply h_of_keeps; [asking|exact HE]|]. intros ?.
  eapply h_bind; [apply (h_update_restore n _ (jobs_equal jobs) (jobs_equal jobs)); [|done|done]|].
  - by intros next x _ (R1 & R2 & R3 & R4) _.
  - intros ?. eapply h_of_keeps; [asking|exact HE].
Qed.
Lemma restore_at_ok n jobs :
  hoare (with_both (at_phase PhFinalSync) (jobs_equal jobs)) (restore_at ext n)
    (fun _ => with_both (at_phase PhFinalSync) (jobs_equal jobs)) (fun _ => with_mig (at_phase PhFinalSync)).
Proof.
  pose proof (jobs_robust (at_phase PhFinalSync) jobs) as HR.
  assert (HE : forall (f : failure) s, with_both (at_phase PhFinalSync) (jobs_equal jobs) s -> with_mig (at_phase PhFinalSync) s).
  { intros f s. by apply both_weaken. }
  unfold restore_at. eapply h_bind; [apply h_get_mig|]. intros m. destruct (so_restores (mg_state m) !! n) as [r|] eqn:Hr.
  2:{ apply h_ret. by intros s [Hs _]. }
  apply h_if; intros Hd; [apply h_ret; by intros s [Hs _]|]. apply orb_false_iff in Hd as [_ Hne%N.eqb_neq].
  eapply h_bind.
  - eapply h_weaken; [apply (h_attempt _ _ _ _ (fun _ => with_mig (at_phase PhFinalSync)) (restore_one_ok n r jobs))| | |intros f s H; exact H].
    + intros s [[[Hs Hp] Hj] ->]. split; [|done]. split; [done|]. split; [done|]. by exists r.
    + intros o s H. exact H.
  - intros [f|u]; cbn beta iota.
    + eapply h_bind; [apply (h_save_keep (at_phase PhFinalSync))|]. intros ?. by apply h_throw.
    + apply h_ret. intros s [[Hs Hp] Hj]. split; [|done]. split; [done|]. by eapply restoring_weaken.
Qed.

(** One copy, and all of them *)
Lemma sync_one_ok d j m : job_ok (g := g) j ->
  hoare (with_both (fun m' => at_phase PhFinalSync m' /\ m' = m) (jobs_equal d)) (sync_one ext true j)
    (fun _ => with_both (fun m' => at_phase PhFinalSync m' /\ m' = m) (jobs_equal (d ++ [j]))) (fun _ => with_mig (at_phase PhFinalSync)).
Proof.
  intros Hj. set (F := fun m' => at_phase PhFinalSync m' /\ m' = m). pose proof (jobs_robust F d) as HR. pose proof (jobs_robust F (d ++ [j])) as HR'.
  assert (HE : forall l (f : failure) s, with_both F (jobs_equal l) s -> with_mig (at_phase PhFinalSync) s).
  { intros l f s. apply both_weaken. by intros m' []. }
  assert (HFb : forall m', F m' -> before_switch (mg_phase m') = true) by by intros m' [-> _].
  unfold sync_one. eapply h_bind; [eapply h_of_keeps; [asking|apply (HE d)]|]. intros ?. eapply h_bind; [apply h_get_mig|]. intros m'.
  eapply (h_pre _ (fun s => mg_tgt_server m' = sg_tgt_server g /\ with_both F (jobs_equal d) s)).
  { intros s [Hs ->]. split; [|done]. apply going_static, Hs. }
  apply h_fact. intros ->. eapply h_bind.
  { apply (h_ask _ _ (fun r s => if an_ok r then with_both F (jobs_equal (d ++ [j])) s else with_mig (at_phase PhFinalSync) s)).
    - intros s Hs. by apply (robust_interruptible (Robust := HR)).
    - intros s [Hs Hd]. pose proof (sync_stable F j.1 (sg_tgt_server g) j.2 true HFb s Hs) as Hst. destruct (an_ok _) eqn:Ea.
      + split; [done|]. cbn. apply (final_copy (st_world s) (st_mig s)); [apply Hs|apply Hs|done|done| |done].
        destruct Hs as [Hs HF]. pose proof (before_not_gone _ (HFb _ HF) (go_running _ Hs)) as Hng.
        destruct (dk_source _ _ _ (in_data _ _ _ (go_inv _ Hs)) Hng) as [D1 D2].
        destruct Hj as [(id & v & Hp & H0 & ->)|(id & i & Hp & H0 & ->)]; [by eapply D1|by eapply D2].
      + destruct Hst as [Hst [Hp _]]. by split. }
  intros r. apply (h_if (an_ok r)); intros Ea; rewrite Ea.
  - eapply h_of_keeps; [asking|apply (HE (d ++ [j]))].
  - eapply h_bind; [apply (h_save_keep (at_phase PhFinalSync))|]. intros ?. by apply h_throw.
Qed.

Lemma copy_jobs_ok s : going s -> forall j, j ∈ copy_jobs (st_mig s) -> job_ok (g := g) j.
Proof.
  intros Hs j Hin. pose proof (in_known _ _ _ (go_inv _ Hs)) as K. unfold copy_jobs in Hin. apply elem_of_app in Hin as [Hin|Hin].
  - apply list_elem_of_In, in_flat_map in Hin as (pv & _ & Hin). destruct (find_volume_state (st_mig s) (pv_id pv)) as [vs|] eqn:E; [|done].
    apply find_first_some in E as [Hvs _]. destruct (pv_copy pv); [|done]. destruct Hin as [<-|[]].
    pose proof (kn_vs _ _ _ K) as Kv. rewrite Forall_forall in Kv. destruct (Kv vs Hvs) as (Hp & _ & v & H0 & E1 & E2 & _).
    left. exists (vs_id vs), v. by rewrite E1, E2.
  - apply list_elem_of_fmap in Hin as (ms & -> & Hms). pose proof (kn_ms _ _ _ K) as Km. rewrite Forall_forall in Km.
    destruct (Km ms Hms) as (Hp & _ & i & H0 & E1 & E2 & _). right. exists (ms_id ms), i. by rewrite E1, E2.
Qed.
Lemma find_volume_state_is m id : id ∈ vs_id <$> so_volumes (mg_state m) -> exists vs, find_volume_state m id = Some vs /\ vs_id vs = id.
Proof.
  intros (vs & -> & Hin)%list_elem_of_fmap. unfold find_volume_state. destruct (find_first _ _) as [x|] eqn:E.
  - apply find_first_some in E as [_ Hx%N.eqb_eq]. by exists x.
  - rewrite find_first_none in E. specialize (E vs Hin). by rewrite N.eqb_refl in E.
Qed.
Lemma copy_jobs_all s l : going s -> complete g (st_mig s) -> copy_jobs (st_mig s) = l ->
  (forall id v, copied_volume g id -> sg_volumes g !! id = Some v -> (vr_server v, vr_docker v) ∈ l)
  /\ (forall id i, moving g id -> sg_instances g !! id = Some i -> (ir_server i, ir_volume i) ∈ l).
Proof.
  intros Hs [Hcv Hci] <-. pose proof (in_known _ _ _ (go_inv _ Hs)) as K. destruct (going_static _ Hs) as (_ & _ & _ & _ & _ & Hplan).
  split; intros id x Hm H0; unfold copy_jobs; apply elem_of_app; [left|right].
  - pose proof (copied_planned g id Hm) as Hp. destruct Hm as (pv & Hpv & <- & Hc). destruct (find_volume_state_is _ _ (Hcv _ Hp)) as (vs & Hvs & Hid).
    apply list_elem_of_In, in_flat_map. exists pv. rewrite Hplan. split; [by apply list_elem_of_In|]. rewrite Hvs, Hc. left.
    apply find_first_some in Hvs as [Hin _]. pose proof (kn_vs _ _ _ K) as Kv. rewrite Forall_forall in Kv.
    destruct (Kv vs Hin) as (_ & _ & v & H1 & E1 & E2 & _). rewrite Hid in H1. assert (v = x) as -> by congruence. by rewrite E1, E2.
  - apply list_elem_of_fmap. destruct (proj1 (list_elem_of_fmap _ _ _) (Hci id Hm)) as (ms & -> & Hin). exists ms. split; [|done].
    pose proof (kn_ms _ _ _ K) as Km. rewrite Forall_forall in Km. destruct (Km ms Hin) as (_ & _ & i & H1 & E1 & E2 & _).
    assert (i = x) as -> by congruence. by rewrite E1, E2.
Qed.

(** The copies are done: what the switch may rely on *)
Definition copied (w : world D) : Prop := quiet g w /\ volumes_equal g w /\ forall id, moving g id -> instance_equal g w id.
Lemma final_sync_ok : hoare (with_mig (at_phase PhFinalSync)) (final_sync ext)
  (fun _ => with_both (at_phase PhFinalSync) copied) (fun _ => with_mig (at_phase PhFinalSync)).
Proof.
  unfold final_sync. eapply h_bind; [apply h_get_mig|]. intros m. set (jobs := copy_jobs m). set (F := fun m' => at_phase PhFinalSync m' /\ m' = m).
  set (all := (forall id v, copied_volume g id -> sg_volumes g !! id = Some v -> (vr_server v, vr_docker v) ∈ jobs)
    /\ (forall id i, moving g id -> sg_instances g !! id = Some i -> (ir_server i, ir_volume i) ∈ jobs)).
  eapply (h_pre _ (fun s => ((forall j, j ∈ jobs -> job_ok (g := g) j) /\ all) /\ with_both F (jobs_equal []) s)).
  { intros s [[Hs Hp] ->]. pose proof (in_phase _ _ _ (go_inv _ Hs) (go_running _ Hs)) as Hph. unfold at_phase in Hp.
    assert (Hns : switched (st_mig s) = false) by (apply (pf_before _ _ _ Hph); by rewrite Hp).
    pose proof (pf_complete _ _ _ Hph) as Hc. pose proof (pf_quiet _ _ _ Hph Hns) as Hq. rewrite Hp in Hc, Hq.
    split; [split; [by apply copy_jobs_ok|by apply (copy_jobs_all s)]|]. split; [split; [done|by split]|]. split; [done|].
    intros j Hj. by apply elem_of_nil in Hj. }
  apply h_fact. intros [Hok Hall].
  eapply (h_bind _ _ _ (fun _ => with_both (at_phase PhFinalSync) (jobs_equal jobs))).
  - eapply h_weaken; [apply (h_for_each (fun d => with_both F (jobs_equal d)) _ (fun _ => with_mig (at_phase PhFinalSync)) jobs)|done| |intros f s H; exact H].
    + intros d j rest Hl. eapply h_bind; [apply sync_one_ok; apply Hok; rewrite Hl; set_solver|]. intros ?. by apply h_ret.
    + intros ? s [[Hs [Hp _]] Hj]. done.
  - intros ?. eapply h_bind; [eapply h_of_keeps; [apply k_get_mig|by intros f s [Hs _]]|]. intros m'.
    eapply h_weaken; [apply (h_for_each (fun _ => with_both (at_phase PhFinalSync) (jobs_equal jobs)))|intros s H; exact H| |intros f s H; exact H].
    + intros d n rest _. apply restore_at_ok.
    + intros ? s [Hs [Hq Hj]]. split; [done|]. split; [done|]. destruct Hall as [Hv Hi]. split.
      * intros id v Hc H0. by apply (Hj _ (Hv id v Hc H0)).
      * intros id Hm i H0. by apply (Hj _ (Hi id i Hm H0)).
Qed.
Lemma final_sync_enters s : with_both (at_phase PhFinalSync) copied s -> enters PhSwitch s.
Proof.
  destruct s as [w m]. intros [[Hs Hp] (Hq & Hv & Hi)]. unfold at_phase in Hp. cbn in *. pose proof (in_phase _ _ _ (go_inv _ Hs) (go_running _ Hs)) as Hph. cbn in *.
  assert (Hb : before_switch (mg_phase m) = true) by by rewrite Hp.
  split; [|cbn; congruence].
  apply going_phase; cbn; [done| |done|done|apply before_not_gone; [done|apply Hs]|done].
  pose proof (pf_complete _ _ _ Hph) as Hc. pose proof (pf_stopped _ _ _ Hph) as Hst. rewrite Hp in Hc, Hst. constructor; cbn; done.
Qed.

(** ** The switch *)

Lemma foldl_alter_lookup {A R} (key : R -> N) (f : R -> A -> A) (l : list R) (rows : gmap N A) (id : N) : NoDup (key <$> l) ->
  foldl (fun rows r => alter (f r) (key r) rows) rows l !! id
  = match find_first (fun r => (key r =? id)%N) l with Some r => f r <$> rows !! id | None => rows !! id end.
Proof.
  revert rows. induction l as [|r l IH]; intros rows Hnd; [done|]. cbn [foldl]. rewrite find_first_cons. apply NoDup_cons in Hnd as [Hr Hnd].
  rewrite IH by done. destruct (N.eqb_spec (key r) id) as [E|E].
  - destruct (find_first _ l) as [r'|] eqn:Ef; [|by rewrite <- E, lookup_alter_eq].
    apply find_first_some in Ef as [Hin He%N.eqb_eq]. exfalso. apply Hr. apply list_elem_of_fmap. exists r'. split; [congruence|done].
  - by rewrite !lookup_alter_ne.
Qed.
Definition switched_to (m : migration) : migration := in_state (so_with_switched true) m.

Lemma switched_volumes m (w : world D) id : NoDup (vs_id <$> so_volumes (mg_state m)) -> rows_fit g w m -> switched m = false ->
  mg_tgt_server m = sg_tgt_server g -> mg_tgt_cluster m = sg_tgt_cluster g ->
  foldl (switch_volume m) (w_volumes w) (so_volumes (mg_state m)) !! id = volume_now g (switched_to m) id <$> sg_volumes g !! id.
Proof.
  intros Hnd R Hs E1 E2. etrans; [exact (foldl_alter_lookup vs_id
    (fun vs => volume_at (mg_tgt_server m) (mg_tgt_cluster m) (vs_tgt_created vs) (vs_tgt_mount vs) (vs_tgt_class vs)) _ _ _ Hnd)|].
  rewrite (rf_volumes _ _ _ R id). unfold volume_now. cbn. rewrite Hs, E1, E2. unfold find_volume_state. cbn.
  destruct (find_first _ _); [|by destruct (sg_volumes g !! id)]. by destruct (sg_volumes g !! id).
Qed.
Lemma switched_instances m (w : world D) id i0 : NoDup (ms_id <$> so_instances (mg_state m)) -> rows_fit g w m -> switched m = false ->
  mg_tgt_server m = sg_tgt_server g -> mg_tgt_cluster m = sg_tgt_cluster g -> moving g id -> sg_instances g !! id = Some i0 ->
  exists i, foldl (switch_instance m) (w_instances w) (so_instances (mg_state m)) !! id = Some i
    /\ ir_volume i = ir_volume i0 /\ located i = instance_now g (switched_to m) id i0.
Proof.
  intros Hnd R Hs E1 E2 Hm H0. destruct (rf_instances _ _ _ R id i0 Hm H0) as (i & Hi & Hv & Hl).
  pose proof (foldl_alter_lookup ms_id (fun ms => instance_at (mg_tgt_server m) (mg_tgt_cluster m) (ms_tgt_created ms) (ms_tgt_class ms) "")
    (so_instances (mg_state m)) (w_instances w) id Hnd) as Hf. rewrite Hi in Hf.
  unfold instance_now in *. cbn. rewrite Hs in Hl. unfold find_move_state. cbn. destruct (find_first _ _) as [ms|] eqn:Ef; rewrite ?Ef.
  - eexists. split; [exact Hf|]. split; [done|]. unfold located. cbn. by rewrite E1, E2.
  - eexists. split; [exact Hf|]. done.
Qed.
Lemma switched_names m (w : world D) : names_kept g w -> forall id i, foldl (switch_instance m) (w_instances w) (so_instances (mg_state m)) !! id = Some i ->
  match sg_instances g !! id with Some i0 => ir_volume i = ir_volume i0 | None => ~ taken_name g (ir_volume i) end.
Proof.
  unfold names_kept. generalize (w_instances w). induction (so_instances (mg_state m)) as [|ms l IH]; intros rows HN id i; [by apply HN|].
  cbn. apply IH. intros j x. unfold switch_instance. rewrite lookup_alter. case_decide; [|by apply HN]. subst j.
  destruct (rows !! ms_id ms) as [y|] eqn:E; [|done]. cbn. intros [= <-]. cbn. by apply HN.
Qed.

Lemma switch_rows_put m (w w' : world D) : switch_rows m w = Some w' -> exists d, w' = put_databases d
  (put_instances (foldl (switch_instance m) (w_instances w) (so_instances (mg_state m)))
    (put_volumes (foldl (switch_volume m) (w_volumes w) (so_volumes (mg_state m)))
      (put_app (app_at (mg_tgt_server m) (mg_tgt_cluster m) <$> w_app w) w))).
Proof. unfold switch_rows. destruct (foldl _ _ _) as [d|]; [|done]. intros [= <-]. by exists d. Qed.

Lemma switch_inv (w w' : world D) m : inv g w m -> fits g w -> mg_status m = MigRunning -> mg_phase m = PhSwitch -> switched m = false ->
  switch_rows m w = Some w' -> fits g w' /\ inv g w' (switched_to m).
Proof.
  intros [K R Da Is Ip It] [HN HF] Hst Hp Hs (d & ->)%switch_rows_put.
  destruct (Ip Hst) as [P1 P2 P3 P4 P4' P5 P6 Popen]. specialize (P5 Hs). destruct (P6 Hs Hp) as [P7 P8]. rewrite Hp in P3, P4, P5.
  destruct (kn_static _ _ _ K) as (_ & _ & _ & E1 & E2 & _). split.
  { split; [|done]. intros id i Hi. by eapply (switched_names m w HN). }
  assert (Hg0 : gone m = false) by (unfold gone; by rewrite Hp, Hst).
  assert (Hg1 : gone (switched_to m) = false) by (unfold gone; cbn; by rewrite Hp, Hst).
  constructor; [by destruct K| | |done| |].
  - constructor.
    + destruct (rf_app _ _ _ R) as (a & Ha & _). exists (app_at (mg_tgt_server m) (mg_tgt_cluster m) a). cbn. rewrite Ha. split; [done|]. cbn. by rewrite E1, E2.
    + intros id. apply switched_volumes; [apply K|done..].
    + intros id i0. apply switched_instances; [apply K|done..].
  - destruct (dk_source _ _ _ Da Hg0) as [D1 D2]. constructor.
    + intros _. split; [exact D1|exact D2].
    + intros _. split; [intros id v Hc H0|intros id i Hm H0].
      * destruct (P7 id v Hc H0) as [[x Hx] He]. exists x. cbn. congruence.
      * destruct (P8 id Hm i H0) as [[x Hx] He]. exists x. cbn. congruence.
    + intros _ _ _. exact P7.
  - intros _. constructor; cbn; rewrite ?Hp; try done.
  - unfold status_fits. cbn. by rewrite Hst.
Qed.

Definition now_at (p : mig_phase) (m : migration) : Prop := at_phase p m /\ switched m = true.
Lemma switch_transaction_ok m0 :
  hoare (with_mig (fun m => at_phase PhSwitch m /\ switched m = false /\ m = m0)) (transaction ext (switch_rows m0) (switched_to m0))
    (fun _ => with_mig (now_at PhSwitch)) (fun _ => with_mig (at_phase PhSwitch)).
Proof.
  unfold transaction. set (F := fun m => _). assert (HE : forall s, with_mig F s -> with_mig (at_phase PhSwitch) s) by by intros s [Hs [Hp _]].
  eapply h_bind; [eapply h_of_keeps; [asking|by intros f]|]. intros ?. eapply h_bind; [apply h_get_world|]. intros w.
  destruct (switch_rows m0 w) as [w'|] eqn:E; [|apply h_throw; intros s [Hs _]; by apply HE].
  eapply (h_bind _ _ _ (fun _ s => going (RunSt (st_world s) (switched_to m0)) /\ at_phase PhSwitch m0)).
  - apply h_change_world. intros [v m] [[Hs (Hp & Hns & Heq)] Hw]. cbn in *. subst v m. split; [|done]. destruct Hs as [Hf Hr Hi Hl Hst]. cbn in *.
    destruct (switch_inv w w' m0 Hi Hf Hst Hp Hns E) as [Hf' Hi'].
    assert (Hi'' : inv g (put_mig (switched_to m0) w') (switched_to m0)) by by apply inv_put_row.
    constructor; cbn; try done.
  - intros ?. apply h_change_mig. intros s [Hs Hp]. done.
Qed.

(** ** At the target *)

(** Calls that start things are harmless once the rows have moved: what they start runs from the copies. *)
Definition raises (c : call) : bool := match c with CBringUp _ | CStartApp | CDeploy _ | CPollDeployment _ => true | _ => false end.
(** No instance has its data where a volume of the application has. *)
Lemma instance_apart (w : world D) (id : N) i p : names_kept g w -> w_instances w !! id = Some i -> volume_place g p -> p <> on_disk (ir_server i) (ir_volume i).
Proof.
  intros HN Hi (j & v & _ & H0 & Hp) ->. assert (Hn : vr_docker v = ir_volume i) by (by destruct Hp as [[= _ ->]|[= _ ->]]).
  specialize (HN id i Hi). destruct (sg_instances g !! id) as [i0|] eqn:E.
  - eapply (wp_names_apart g Hg); [exact H0|exact E|congruence].
  - apply HN. left. eauto.
Qed.
Lemma raise_effect c n (w : world D) : names_kept g w -> raises c = true ->
  (forall p, volume_place g p -> holds w p -> w_held (effect c (ext n c) w) !! p = w_held w !! p)
  /\ (app_up w = true -> app_up (effect c (ext n c) w) = true).
Proof.
  intros HN Hc. destruct c; try done; cbn; unfold app_up.
  - destruct (an_ok _); [|done]. split; [done|]. cbn. destruct (w_app w); [|done]. cbn. by destruct (an_flag _).
  - destruct (w_instances w !! id) as [i|] eqn:E; [|done]. set (w1 := if an_ok _ || an_flag _ then _ else w).
    assert (Hw1 : (forall p, holds w p -> w_held w1 !! p = w_held w !! p) /\ w_app w1 = w_app w).
    { subst w1. destruct (an_ok _ || an_flag _); [|done]. rewrite hold_if_absent_rows. split; [|done]. intros p Hp. by apply hold_if_absent_held. }
    destruct Hw1 as (Hh & Ha). clearbody w1. destruct (an_ok _ || (an_flag _ && _)); [cbn; rewrite Ha; by split; [intros p _; apply Hh|]|].
    destruct (an_flag _); cbn; rewrite Ha; (split; [|done]); intros p Hp Hw; [|by apply Hh].
    rewrite lookup_insert_ne; [by apply Hh|]. intros Heq. by apply (instance_apart w id i p HN E Hp).
  - destruct (an_ok _); [|done]. split; [done|]. cbn. by destruct (w_app w).
  - destruct (an_poll _); try done. split; [done|]. cbn. by destruct (w_app w).
Qed.
Lemma raise_inv c (w : world D) m : fits g w -> raises c = true -> switched m = true -> inv g w m -> inv g (after c w) m.
Proof.
  intros Hf Hc Hs. destruct (raise_effect c (w_calls w) (written ext c w) (proj1 Hf) Hc) as (Hh & Ha).
  apply inv_change; [done|apply after_loose; [done|apply Hf|by destruct c]|apply Hf| | | |]; try congruence.
  - intros p Ht Hw Hp. unfold MigrationInv.after. pose proof (written_tight g ext c w) as [[_ Hh1] _ _ Hh2].
    pose proof (volume_place_tracked g p Ht). rewrite Hh; [by apply Hh2|done|by apply Hh1].
  - intros _ _ Hup. by apply Ha.
Qed.
Lemma raise_stable F c : (forall m, F m -> switched m = true) -> raises c = true -> stable (ext := ext) (with_mig F) c.
Proof.
  intros HF Hc s [Hs Hm]. split; [|done]. pose proof (go_lag _ Hs) as (L1 & _). pose proof (HF _ Hm) as Hsw.
  apply going_change; [done|apply after_fits; [apply law_names|apply Hs]|apply row_after|].
  intros m Hor. apply raise_inv; [apply Hs|done|]. destruct Hor as [-> | ->]; congruence.
Qed.
Lemma k_must_raise F c : (forall m, F m -> switched m = true) -> raises c = true -> keeps (with_mig F) (must ext c).
Proof. intros. apply k_must; [apply going_interruptible|by apply raise_stable]. Qed.
Lemma k_ask_raise F c : (forall m, F m -> switched m = true) -> raises c = true -> keeps (with_mig F) (ask ext c).
Proof. intros. apply k_ask; [apply going_interruptible|by apply raise_stable]. Qed.

Lemma k_inject F i d prefix : keeps (with_mig F) (inject ext app_env i d prefix).
Proof.
  unfold inject. apply k_bind; [asking|]. intros ?. apply k_bind; [asking|]. intros x. apply k_for_each. intros kv _.
  apply k_bind; [asking|]. intros ?. apply h_change_world. intros [w m] [Hs HF]. cbn in *. split; [|done].
  apply (going_change _ (RunSt w m)); [done|apply Hs|done|]. intros mm _. apply inv_tight; [done| |apply Hs]. by apply tight_refl.
Qed.
Lemma now_switched p m : now_at p m -> switched m = true.
Proof. by intros []. Qed.

Lemma switch_over_ok : hoare (with_mig (at_phase PhSwitch)) (switch_over ext app_env)
  (fun _ => with_mig (now_at PhSwitch)) (fun _ => with_mig (at_phase PhSwitch)).
Proof.
  unfold switch_over. eapply h_bind; [apply h_get_mig|]. intros m0.
  eapply (h_bind _ _ _ (fun _ => with_mig (now_at PhSwitch))).
  { apply (h_if (switched m0)); intros Hsw.
    - apply h_ret. by intros s [[Hs Hp] ->].
    - eapply h_pre; [|apply switch_transaction_ok]. by intros s [[Hs Hp] ->]. }
  intros ?. eapply h_of_keeps; [|by intros f s [Hs [Hp _]]]. asking.
  - unfold bring_up_moved. apply k_bind; [apply k_must_raise; [apply now_switched|done]|intros ?; apply k_ret].
  - apply k_inject.
Qed.
Lemma switched_enters p q s : with_mig (now_at q) s -> mg_phase (st_mig s) <> PhFinalize -> p = PhVerify \/ p = PhReroute -> enters p s.
Proof.
  destruct s as [w m]. intros [Hs [Hp Hsw]] Hnf Hpq. cbn in *. destruct (in_switched _ _ _ (go_inv _ Hs) Hsw) as [Hc Hst].
  pose proof (go_running _ Hs) as Hst1. cbn in Hst1.
  assert (Hg0 : gone m = false) by (unfold gone; rewrite Hst1, bool_decide_eq_false_2 by done; done).
  split; [|done].
  apply going_phase; cbn; [done| |by destruct Hpq; subst|by destruct Hpq; subst|done|by destruct Hpq; subst].
  constructor; cbn; try congruence; by destruct Hpq; subst.
Qed.
Lemma k_await_deployment F polls id : (forall m, F m -> switched m = true) -> keeps (with_mig F) (await_deployment ext polls id).
Proof.
  intros HF. induction polls as [|n IH]; [apply k_throw|]. cbn [await_deployment]. apply k_bind; [by apply k_ask_raise|]. intros a. unfold fail_with.
  destruct (an_ok a); [|done]. destruct (an_poll a); [done|apply k_ret|apply k_throw].
Qed.
Lemma k_relocate_deploy F a : (forall m, F m -> switched m = true) -> keeps (with_mig F) (relocate_deploy ext a).
Proof. intros HF. unfold relocate_deploy. apply k_bind; [asking|]. intros w. apply k_bind; [by apply k_must_raise|]. intros ?. apply k_ret. Qed.
Lemma verify_ok : keeps (with_mig (now_at PhVerify)) (verify ext).
Proof.
  unfold verify. apply k_bind; [asking|]. intros m. apply k_bind; [|intros ?; apply k_bind; [asking|intros ?; by apply k_await_deployment, now_switched]].
  destruct (_ =? _)%N; [|apply k_ret]. apply k_bind; [asking|]. intros a. apply k_bind; [by apply k_relocate_deploy, now_switched|]. intros id.
  apply k_bind; [by apply moves_free|]. intros ?. asking.
Qed.
Lemma reroute_ok : keeps (with_mig (now_at PhReroute)) (reroute ext).
Proof. unfold reroute. asking. Qed.
(** A change of status and phase alone *)
Definition labels (m : migration) := (mg_app m, mg_src_server m, mg_src_cluster m, mg_tgt_server m, mg_tgt_cluster m, mg_plan m, mg_state m).
Lemma inv_relabel (w : world D) m m' : labels m' = labels m -> (gone m = true -> gone m' = true) ->
  (mg_status m' = MigRunning -> phase_fits g w m') -> status_fits g m' -> inv g w m -> inv g w m'.
Proof.
  intros Hl Hgo Hp Hst Hi. assert (Hn : gone m' = false -> gone m = false) by (destruct (gone m); [by rewrite Hgo|done]). clear Hgo.
  destruct Hi as [K R Da Is _ _]. destruct m, m'. injection Hl as -> -> -> -> -> -> ->.
  constructor; [by destruct K|by destruct R| |done|done|done]. destruct Da as [Da Db Dc]. constructor.
  - intros H. by apply Da, Hn.
  - exact Db.
  - intros H1 H2. by apply Dc; [|apply Hn].
Qed.
Lemma cut_over_ok : hoare (with_mig (now_at PhReroute)) (cut_over ext clock) (fun _ s => safe (st_world s)) (fun _ _ => False).
Proof.
  unfold cut_over. eapply (h_bind _ _ _ (fun _ => with_mig (now_at PhReroute))); [apply h_now|].
  intros t. eapply (h_bind _ _ _ (fun _ => ready)); [|intros ?; apply h_save_last]. apply h_change_mig.
  intros [w m] [Hs [Hp Hsw]]. cbn in *. split; [apply Hs|]. split; [|apply Hs].
  apply (inv_relabel _ m); [done| |done|done|apply Hs]. intros Hg0. exfalso. pose proof (go_running _ Hs) as Hst.
  unfold gone, at_phase in *. cbn in *. rewrite Hp, Hst in Hg0. done.
Qed.
End Cut.
