(* ===== verification/MigrationUndo.v ===== *)
(** * Moving an application to another location: going back and finishing

    What undoes a move that has not switched touches nothing the rows point at; going back after the switch moves every
    row back in one transaction first; finishing removes only what the rows no longer point at. The code that removes
    things is proved once, against what it needs of the assertion around it. *)
From S2P Require Import Prelude GoStrings Migration MigrationRun MigrationInv MigrationSafe MigrationCut.
#[local] Open Scope Z_scope.
#[local] Open Scope list_scope.

Section Undo.
Context {D : Type} {g : setting} {Hg : well_planned g} {ext : nat -> call -> answer D} {Hext : lawful g ext} {clock : nat -> Z}.
Context {app_env : N -> N -> string -> gmap string string -> list (string * string)} {node_gone : N -> bool}.
#[local] Abbreviation M := (M D).
#[local] Abbreviation after := (after ext).
#[local] Abbreviation hoare := (@hoare D g _).
#[local] Abbreviation keeps := (@keeps D g _).
#[local] Abbreviation quietly := (@quietly D g _).
#[local] Abbreviation safe := (@safe D g).
#[local] Abbreviation going := (@going D g).
#[local] Abbreviation with_mig := (@with_mig D g).
#[local] Abbreviation ready := (@ready D g).
#[local] Abbreviation sound := (@sound D g).
#[local] Abbreviation stable := (@stable D ext).
#[local] Abbreviation interruptible := (@interruptible D g).

(** ** What removes things *)

(** A call that removes no place of a kind *)
Definition spares (kept : place -> Prop) (c : call) : Prop := forall s v, c = CRemoveVolume s v -> forall p, kept p -> p <> on_disk s v.
Lemma spares_other kept c : removes c = false -> spares kept c.
Proof. by destruct c. Qed.

(** An assertion of code that removes things: kept by every call that spares what must be kept, and by changes of rows that
    leave where everything is. *)
Class Removing (kept : place -> Prop) (P : run_st D -> Prop) := {
  rm_interruptible : interruptible P;
  rm_call : forall c, spares kept c -> stable P c;
  rm_world : forall s w', P s -> rows_loose g (st_world s) w' -> fits g w' -> w_held w' = w_held (st_world s) ->
    w_row w' = w_row (st_world s) -> w_left w' = w_left (st_world s) -> P (RunSt w' (st_mig s));
  rm_fits : forall s, P s -> fits g (st_world s) }.

Section Removals.
Context {kept : place -> Prop} {P : run_st D -> Prop} {HP : Removing kept P}.

Lemma km_ask c : spares kept c -> keeps P (ask ext c).
Proof. intros H. apply k_ask; [apply rm_interruptible|by apply rm_call]. Qed.
Lemma qm_ask c : spares kept c -> quietly P (ask ext c).
Proof. intros H. apply q_ask; [apply rm_interruptible|by apply rm_call]. Qed.
Lemma qm_best c : spares kept c -> quietly P (best ext c).
Proof. intros H. apply q_best; [apply rm_interruptible|by apply rm_call]. Qed.
Lemma km_must c : spares kept c -> keeps P (must ext c).
Proof. intros H. apply k_must; [apply rm_interruptible|by apply rm_call]. Qed.
Lemma km_best c : spares kept c -> keeps P (best ext c).
Proof. intros H. apply k_best; [apply rm_interruptible|by apply rm_call]. Qed.
Lemma hm_find_instance id : hoare P (find_instance ext id) (fun i s => P s /\ w_instances (st_world s) !! id = Some i) (fun _ => P).
Proof. apply h_find_instance; [apply rm_interruptible|by apply rm_call]. Qed.
Lemma km_find_instance id : keeps P (find_instance ext id).
Proof. eapply h_weaken; [apply hm_find_instance|done| |done]. by intros ? ? []. Qed.
Lemma km_find_database id : keeps P (find_database ext id).
Proof. apply k_find_database; [apply rm_interruptible|by apply rm_call]. Qed.
Lemma km_the_app : keeps P (the_app ext).
Proof. eapply h_weaken; [apply (h_the_app P); [apply rm_interruptible|by apply rm_call]|done| |done]. by intros ? ? []. Qed.
End Removals.

Lemma k_when_true (P : run_st D -> Prop) (b : bool) (c : M unit) : (b = true -> keeps P c) -> keeps P (when b c).
Proof. intros H. destruct b; [by apply H|apply k_ret]. Qed.
Lemma named (s : string) : negb (String.eqb s "") = true -> s <> "".
Proof. destruct (String.eqb_spec s ""); done. Qed.

Ltac as_keeps := match goal with |- MigrationSafe.hoare ?P ?c _ _ => change (keeps P c) end.
Ltac removing_step :=
  lazymatch goal with
  | |- keeps _ (ret _) => apply k_ret
  | |- keeps _ (throw _) => apply k_throw
  | |- keeps _ (fail_with _) => apply k_throw
  | |- keeps _ get_world => apply k_get_world
  | |- keeps _ get_mig => apply k_get_mig
  | |- keeps _ (now _) => apply k_now
  | |- keeps _ (must _ _) => apply km_must; try by apply spares_other
  | |- keeps _ (ask _ _) => apply km_ask; try by apply spares_other
  | |- keeps _ (best _ _) => apply km_best; try by apply spares_other
  | |- keeps _ (find_instance _ _) => apply km_find_instance
  | |- keeps _ (find_database _ _) => apply km_find_database
  | |- keeps _ (the_app _) => apply km_the_app
  | |- keeps _ (attempt _) => apply k_attempt
  | |- keeps _ (when _ _) => apply k_when_true; intros ?
  | |- keeps _ (bind _ _) => apply k_bind; [|intros ?]
  | |- keeps _ (for_each _ _) => apply k_for_each; intros ? ?
  | |- keeps _ (if ?b then _ else _) => destruct b
  | |- keeps _ (match ?x with _ => _ end) => destruct x
  end.
Ltac removing := repeat removing_step.
Ltac quiet_step :=
  lazymatch goal with
  | |- quietly _ (ret _) => apply q_ret
  | |- quietly _ get_world => apply h_get_world_keep
  | |- quietly _ get_mig => apply h_get_mig_keep
  | |- quietly _ (now _) => apply h_now
  | |- quietly _ (ask _ _) => apply qm_ask; try by apply spares_other
  | |- quietly _ (best _ _) => apply qm_best; try by apply spares_other
  | |- quietly _ (attempt _) => apply q_attempt
  | |- quietly _ (when _ _) => apply q_when; intros ?
  | |- quietly _ (bind _ _) => apply q_bind; [|intros ?]
  | |- quietly _ (if ?b then _ else _) => destruct b
  end.
Ltac quietly_done := repeat quiet_step.

Section Removals2.
Context {kept : place -> Prop} {P : run_st D -> Prop} {HP : Removing kept P}.

Definition spared_copy (server : N) (volume : string) : Prop := forall p, kept p -> p <> on_disk server volume.
Lemma spared_spares s v : spared_copy s v -> spares kept (CRemoveVolume s v).
Proof. by intros H ? ? [= <- <-]. Qed.
Lemma qm_drop_volume_copy s v c : spared_copy s v -> quietly P (drop_volume_copy ext s v c).
Proof. intros H. unfold drop_volume_copy. quietly_done. by apply spared_spares. Qed.
Lemma qm_drop_instance_copy s c v k : (v <> "" -> spared_copy s v) -> quietly P (drop_instance_copy ext s c v k).
Proof. intros H. unfold drop_instance_copy. quietly_done. by apply qm_drop_volume_copy, H, named. Qed.
Lemma km_databases f : keeps P (change_world (fun w => put_databases (f w) w)).
Proof. apply h_change_world. intros [w m] Hs. by apply (rm_world (RunSt w m)); [| |apply (rm_fits _ Hs)|..]. Qed.
Lemma km_delete_database id : keeps P (delete_database ext id).
Proof. unfold delete_database. removing. apply (km_databases (fun w => delete id (w_databases w))). Qed.

(** A run change of the row that was found *)
Definition found (id : N) (i : instance_row) (s : run_st D) : Prop := P s /\ w_instances (st_world s) !! id = Some i.
Lemma found_call id i c : spares kept c -> idle (D := D) c -> stable (found id i) c.
Proof. intros Hc Hi s [Hs Hf]. split; [by apply rm_call|]. cbn. unfold MigrationInv.after. by rewrite Hi. Qed.
Lemma found_interruptible id i : interruptible (found id i).
Proof. intros s [Hs _]. by apply rm_interruptible. Qed.
Lemma run_row_fits (w : world D) id i st c : fits g w -> w_instances w !! id = Some i -> fits g (put_instances (<[id := instance_run st c i]> (w_instances w)) w).
Proof. intros [HN HF] Hi. split; [|done]. intros j x. cbn. intros [[<- <-]|[_ Hx]]%lookup_insert_Some; [|by apply HN]. by apply (HN id i). Qed.
Lemma hm_run_row id i st c : hoare (found id i) (update_instance ext id (instance_run st c i)) (fun _ => P) (fun _ => P).
Proof.
  unfold update_instance. eapply h_bind; [eapply h_of_keeps; [apply k_must; [apply found_interruptible|by apply found_call; [apply spares_other|]]|by intros f s []]|].
  intros ?. apply h_change_world. intros [w m] [Hs Hi]. cbn in *. apply (rm_world (RunSt w m)); try done.
  - apply run_row_loose, Hi. - apply run_row_fits; [apply (rm_fits _ Hs)|done].
Qed.
Lemma hm_stop_instance id i : hoare (found id i) (stop_instance ext node_gone id i)
  (fun i' s => (ir_volume i' = ir_volume i /\ ir_server i' = ir_server i) /\ P s) (fun _ => P).
Proof.
  unfold stop_instance. assert (HE : forall (f : failure) s, found id i s -> P s) by by intros f s [].
  apply h_if; intros _; [apply h_throw; by apply (HE (FError ""))|]. apply h_if; intros _.
  - eapply h_bind; [apply h_attempt, hm_run_row|]. intros [f|u]; by apply h_ret.
  - apply h_if; intros _; [apply h_throw; by apply (HE (FError ""))|].
    eapply h_bind; [eapply h_of_keeps; [apply k_must; [apply found_interruptible|by apply found_call; [apply spares_other|]]|exact HE]|].
    intros ?. eapply h_bind; [apply h_attempt, hm_run_row|]. intros [f|u]; by apply h_ret.
Qed.
Lemma delete_row_fits (w : world D) id : fits g w -> fits g (put_instances (delete id (w_instances w)) w).
Proof. intros [HN HF]. split; [|done]. intros j x. cbn. intros [_ Hx]%lookup_delete_Some. by apply HN. Qed.
Lemma delete_row_loose (w : world D) id : ~ moving g id -> rows_loose g w (put_instances (delete id (w_instances w)) w).
Proof. intros Hn. constructor; try done. intros j Hm. cbn. rewrite lookup_delete_ne; [done|]. by intros ->. Qed.
Lemma km_delete_instance id i : ~ moving g id -> (ir_volume i <> "" -> spared_copy (ir_server i) (ir_volume i)) -> keeps P (delete_instance ext node_gone id i).
Proof.
  intros Hn Hv. unfold delete_instance. removing.
  - by apply spared_spares, Hv, named.
  - apply h_change_world. intros [w m] Hs. cbn. pose proof (rm_fits _ Hs) as Hf. cbn in Hf.
    apply (rm_world (RunSt w m)); try done; cbn.
    + by destruct (delete_row_loose w id Hn).
    + by apply delete_row_fits.
Qed.
(** An instance that goes: stopped when it runs, then deleted *)
Lemma hm_drop_instance id i : ~ moving g id -> (ir_volume i <> "" -> spared_copy (ir_server i) (ir_volume i)) ->
  hoare (found id i) (o <-- (if bool_decide (ir_status i = DbRunning) then attempt (stop_instance ext node_gone id i) else ret (inr i));
       _ <-- attempt (delete_instance ext node_gone id (match o with inr i' => i' | inl _ => i end)); ret tt) (fun _ => P) (fun _ _ => False).
Proof.
  intros Hn Hv.
  eapply (h_bind _ _ _ (fun o s => match o with inr i' => ir_volume i' = ir_volume i /\ ir_server i' = ir_server i | inl _ => True end /\ P s)).
  - apply h_if; intros _; [|apply h_ret; by intros s []]. eapply h_weaken; [eapply (h_attempt _ _ _ _ (fun _ _ => False)), hm_stop_instance|done| |done].
    intros [f|i'] s; [by split|done].
  - intros o. apply h_fact. intros Ho. apply q_bind; [apply q_attempt|intros ?; apply q_ret]. apply km_delete_instance; [done|].
    destruct o as [f|i']; [done|]. by destruct Ho as [-> ->].
Qed.
Lemma hm_start_stopped id i : hoare (found id i) (start_stopped ext id i) (fun _ => P) (fun _ => P).
Proof.
  unfold start_stopped. assert (HE : forall (f : failure) s, found id i s -> P s) by by intros f s [].
  apply h_if; intros _.
  - apply (h_pre _ P); [by intros s []|]. as_keeps. unfold bring_up_moved. removing.
  - eapply h_bind; [eapply h_of_keeps; [apply k_must; [apply found_interruptible|by apply found_call; [apply spares_other|]]|exact HE]|].
    intros ?. apply hm_run_row.
Qed.
End Removals2.

(** ** A move that has not switched *)

Definition undone (m : migration) : migration := set_status MigFailed (set_phase PhPrepare m).
(** [lax]: the worker lives on until it has written what it ends with, and what the row says meanwhile is not asked. *)
Record undoing (lax : bool) (s : run_st D) : Prop := Undoing {
  un_fits : fits g (st_world s);
  un_open : switched (st_mig s) = false;
  un_inv : inv g (st_world s) (undone (st_mig s));
  un_row : if lax then w_left (st_world s) = None else inv_row g (st_world s) /\ switched (ro_mig (w_row (st_world s))) = false
    /\ mg_phase (ro_mig (w_row (st_world s))) = PhRollback }.
Definition with_undo (lax : bool) (F : migration -> Prop) (s : run_st D) : Prop := undoing lax s /\ F (st_mig s).
Definition ended (lax : bool) (s : run_st D) : Prop := if lax then sound s else safe (st_world s).

Lemma undoing_change lax s w' : undoing lax s -> rows_loose g (st_world s) w' -> fits g w' ->
  (forall p, source_place g p -> holds (st_world s) p -> holds w' p) -> ro_mig (w_row w') = ro_mig (w_row (st_world s)) ->
  (w_left (st_world s) = None -> w_left w' = None) -> undoing lax (RunSt w' (st_mig s)).
Proof.
  intros [Hf Ho Hi Hr] Hl Hf' Hh Hrow Hleft.
  assert (Hinv : forall m, switched m = false -> (mg_status m = MigRunning -> mg_phase m = PhRollback) -> inv g (st_world s) m -> inv g w' m).
  { intros m Hs Hp. apply inv_weak; [done|done| |by left|].
    - congruence.
    - intros Hst _. by rewrite (Hp Hst). }
  constructor; cbn; [done|done|by apply Hinv|]. destruct lax; [auto|]. destruct Hr as (H1 & H2 & H3).
  unfold inv_row. rewrite Hrow. split; [by apply Hinv|done].
Qed.
#[export] Instance removing_undo lax F : Removing (source_place g) (with_undo lax F).
Proof.
  constructor.
  - intros s [[Hf _ _ Hr] _] Hc. destruct lax; [congruence|]. by destruct Hr.
  - intros c Hc s [Hs HF]. split; [|done]. cbn. pose proof (un_fits _ _ Hs) as Hf.
    assert (Hx : rows_loose g (st_world s) (after c (st_world s)) /\ forall p, source_place g p -> holds (st_world s) p -> holds (after c (st_world s)) p).
    { destruct (removes c) eqn:Er.
      - destruct c; try done. destruct (after_remove g ext server volume (st_world s)) as [H1 H2]. split; [done|]. intros p Hp.
        apply H2; [by left|]. by apply Hc.
      - pose proof (after_loose g Hg ext c (st_world s) (proj2 Hf) Er) as Hl. split; [apply Hl|]. intros p Hp. apply (lo_holds _ _ _ Hl). by left. }
    destruct Hx as [H1 H2]. apply undoing_change; [done|done|by apply after_fits; [apply law_names|]|done|apply row_after|].
    intros Hn. by rewrite left_after, Hn.
  - intros s w' [Hs HF] Hl Hf Hh Hrow Hleft. split; [|done]. apply undoing_change; [done|done|done| |by rewrite Hrow|by rewrite Hleft].
    intros p _. unfold holds. by rewrite Hh.
  - intros s [Hs _]. apply Hs.
Qed.

(** The copies are no source of anything. *)
Lemma source_spared v : spared_copy (kept := source_place g) (sg_tgt_server g) v.
Proof.
  intros p [(id & x & Hp & H0 & ->)|(id & x & Hm & H0 & ->)] [= He _].
  - destruct (wp_volume g Hg id Hp) as (y & Hy & Hne). congruence.
  - destruct (wp_instance g Hg id Hm) as (y & Hy & Hne & _). congruence.
Qed.
Lemma new_spared s v : ~ taken_name g v -> spared_copy (kept := source_place g) s v.
Proof. intros Hn p [(id & x & Hp & H0 & ->)|(id & x & Hm & H0 & ->)] [= _ He]; apply Hn; [left|right]; eauto. Qed.

Lemma undo_drop_created lax F id : sg_instances g !! id = None -> quietly (with_undo lax F) (drop_created ext node_gone id).
Proof.
  intros Hid. unfold drop_created. eapply h_bind; [apply h_attempt, hm_find_instance|]. intros [f|i]; [apply q_ret|].
  eapply (h_pre _ (fun s => ~ taken_name g (ir_volume i) /\ found (P := with_undo lax F) id i s)).
  { intros s [Hs Hi]. split; [|done]. destruct (un_fits _ _ (proj1 Hs)) as [HN _]. specialize (HN id i Hi). by rewrite Hid in HN. }
  apply h_fact. intros Hn. eapply hm_drop_instance; [by apply not_moving|]. intros _. by apply new_spared.
Qed.

Lemma undoing_core lax w m m' : switched m' = false -> undoing lax (RunSt w m) -> inv g w (undone m') -> undoing lax (RunSt w m').
Proof. intros Ho [Hf _ Hi Hr] Hi'. by constructor. Qed.
Lemma inv_forget (w : world D) m : inv g w (undone m) -> switched m = false ->
  inv g w (undone (in_state (fun s => so_with_restores [] (so_with_instances [] (so_with_volumes [] s))) m)).
Proof.
  intros [K [Ra Rv Ri] [Da Db Dc] Is Ip It] Hs. destruct K as [Ks _ _ _ _ _].
  assert (Hs' : switched (undone (in_state (fun s => so_with_restores [] (so_with_instances [] (so_with_volumes [] s))) m)) = false) by done.
  constructor; [| | |by rewrite Hs'|done|done].
  - constructor; [exact Ks| | | | |]; constructor.
  - unfold volume_now, instance_now in *. change (switched (undone m)) with (switched m) in *. rewrite Hs in *.
    constructor; unfold volume_now, instance_now; rewrite Hs'; done.
  - change (switched (undone m)) with (switched m) in *. constructor; rewrite ?Hs'; done.
Qed.
Lemma h_forget lax F' (E : failure -> run_st D -> Prop) : (forall m, F' m -> F' (in_state (fun s => so_with_restores [] (so_with_instances [] (so_with_volumes [] s))) m)) ->
  hoare (with_undo lax F') (change_mig (in_state (fun s => so_with_restores [] (so_with_instances [] (so_with_volumes [] s))))) (fun _ => with_undo lax F') E.
Proof.
  intros HF. apply h_change_mig. intros [w m] [Hs Hm]. split; [|by apply HF]. eapply undoing_core; [apply (un_open _ _ Hs)|exact Hs|].
  apply inv_forget; [apply (un_inv _ _ Hs)|apply (un_open _ _ Hs)].
Qed.

Definition forgetful (F : migration -> Prop) : Prop :=
  forall m, F m -> F (in_state (fun s => so_with_restores [] (so_with_instances [] (so_with_volumes [] s))) m).
Lemma created_new lax s : undoing lax s -> forall id, id ∈ created_instances (st_mig s) -> sg_instances g !! id = None.
Proof.
  intros Hs id Hin. pose proof (kn_rs _ _ _ (in_known _ _ _ (un_inv _ _ Hs))) as K. rewrite Forall_forall in K. unfold created_instances in Hin.
  rewrite elem_of_remove_dups in Hin. apply list_elem_of_fmap in Hin as (r & -> & Hin). apply list_elem_of_In, filter_In in Hin as [Hin Hc].
  apply andb_true_iff in Hc as [Hc _]. apply list_elem_of_In in Hin. by apply (K r Hin).
Qed.
Lemma undo_cleanup lax F : forgetful F -> quietly (with_undo lax F) (cleanup_target ext node_gone).
Proof.
  intros HF. unfold cleanup_target. eapply h_bind; [apply h_get_mig|]. intros m.
  eapply (h_pre _ (fun s => (mg_tgt_server m = sg_tgt_server g /\ forall id, id ∈ created_instances m -> sg_instances g !! id = None) /\ with_undo lax F s)).
  { intros s [Hs ->]. split; [|done]. split; [apply (kn_static _ _ _ (in_known _ _ _ (un_inv _ _ (proj1 Hs))))|]. by eapply created_new, Hs. }
  apply h_fact. intros [-> Hc].
  apply q_bind; [apply q_for_each; intros vs _; apply q_when; intros _; apply qm_drop_volume_copy, source_spared|intros ?].
  apply q_bind; [apply q_for_each; intros ms _; apply q_when; intros _; apply qm_drop_instance_copy; intros _; apply source_spared|intros ?].
  apply q_bind; [apply q_for_each; intros r _; quietly_done; apply km_delete_database|intros ?].
  apply q_bind; [apply q_for_each; intros id Hid; apply undo_drop_created; by apply Hc|intros ?].
  apply h_forget, HF.
Qed.

Lemma undo_restart lax F : quietly (with_undo lax F) (restart_source ext).
Proof.
  unfold restart_source. quietly_done.
  - apply q_for_each. intros ms _. eapply h_bind; [apply h_attempt, hm_find_instance|]. intros [f|i]; [apply q_ret|].
    apply h_if; intros _; [apply h_ret; by intros s []|].
    eapply h_bind; [apply h_attempt, hm_start_stopped|]. intros [f|u]; apply q_ret.
  - apply km_the_app.
Qed.
Lemma undo_finish lax F f : (forall m, F m -> switched m = false -> labels (f m) = labels m /\ mg_status (f m) <> MigRunning /\ status_fits g (f m)) ->
  hoare (with_undo lax F) (change_mig f ;;; save ext) (fun _ => ended lax) (fun _ _ => False).
Proof.
  intros Hf. assert (Hi : forall s, with_undo lax F s -> inv g (st_world s) (f (st_mig s))).
  { intros [w m] [Hs Hm]. destruct (Hf m Hm (un_open _ _ Hs)) as (H1 & H2 & H3).
    apply (inv_relabel w (undone m)); [done|done|done|done|apply (un_inv _ _ Hs)]. }
  destruct lax.
  - eapply (h_bind _ _ _ (fun _ s => sound s /\ w_left (st_world s) = None)); [|intros ?; apply h_save_sound]. apply h_change_mig.
    intros s Hs. split; [split; [apply (proj1 Hs)|apply (Hi s Hs)]|apply (un_row _ _ (proj1 Hs))].
  - eapply (h_bind _ _ _ (fun _ => ready)); [|intros ?; apply h_save_last]. apply h_change_mig.
    intros s Hs. split; [apply (proj1 Hs)|]. split; [apply (Hi s Hs)|apply (un_row _ _ (proj1 Hs))].
Qed.

(** ** A worker that finishes what it begins to undo *)

Lemma inv_calls (w : world D) m a b : names_kept g w -> inv g w m -> inv g (with_calls a b w) m.
Proof. intros HN. apply inv_tight; [done| |done]. by apply tight_refl. Qed.
Lemma safe_calls (w : world D) a b : safe w -> safe (with_calls a b w).
Proof. intros [Hr Hf]. split; [|done]. by apply inv_calls; [apply Hf|]. Qed.
(** It ends by writing what it holds. *)
Lemma safe_written s a b : sound s -> safe (put_mig (st_mig s) (with_calls a b (st_world s))).
Proof.
  intros [Hf Hi]. split; [|done]. unfold inv_row. change (inv g (put_mig (st_mig s) (with_calls a b (st_world s))) (st_mig s)).
  apply inv_put_row; [done|]. by apply inv_calls; [apply Hf|].
Qed.
Lemma h_whole (P : run_st D -> Prop) (P' : run_st D -> Prop) (c : M unit) :
  (forall s, P s -> P' (RunSt (with_calls (w_calls (st_world s)) None (st_world s)) (st_mig s))) ->
  hoare P' c (fun _ => sound) (fun _ => sound) ->
  hoare P (whole true c) (fun _ s => safe (st_world s)) (fun _ s => safe (st_world s)).
Proof.
  intros Hp Hc s Hs. specialize (Hc _ (Hp s Hs)). unfold whole, bind, get_world, get_mig, change_world, attempt. cbn.
  destruct (c _) as [s' [u|f|]]; cbn in *; [by apply safe_written|by apply safe_written|done].
Qed.

(** Nothing has switched: a failed move is undone, and the rows are what they were. *)
Definition stuck (s : run_st D) : Prop := fits g (st_world s) /\ inv g (st_world s) (undone (st_mig s)) /\ switched (st_mig s) = false.
Lemma stuck_undo s : stuck s -> undoing true (RunSt (with_calls (w_calls (st_world s)) None (st_world s)) (st_mig s)).
Proof. intros (Hf & Hi & Hs). constructor; [done|done| |done]. cbn. apply inv_calls; [apply Hf|done]. Qed.
Lemma stuck_start s : fits g (st_world s) -> inv g (st_world s) (st_mig s) -> switched (st_mig s) = false -> gone (st_mig s) = false -> stuck s.
Proof. intros Hf Hi Hs Hg0. split; [done|]. split; [|done]. by apply (inv_relabel _ (st_mig s)); [|rewrite Hg0|..]. Qed.
Lemma gone_phase m : gone m = false -> mg_phase m <> PhFinalize.
Proof. unfold gone. intros H He. by rewrite He in H. Qed.
Lemma undo_fail b why : hoare (fun s => stuck s /\ mg_phase (st_mig s) <> PhFinalize)
  (whole true (when b (restart_source ext) ;;; cleanup_target ext node_gone ;;;
     t <-- now clock; change_mig (fun m => finish MigFailed t (Some why) true m) ;;; save ext))
  (fun _ s => safe (st_world s)) (fun _ s => safe (st_world s)).
Proof.
  set (F := fun m : migration => mg_phase m <> PhFinalize). apply (h_whole _ (with_undo true F)).
  { intros s [Hs Hp]. split; [by apply stuck_undo|done]. }
  eapply h_bind; [apply h_quietly, q_when; intros _; apply undo_restart|]. intros ?.
  eapply h_bind; [apply h_quietly, undo_cleanup; by intros m|]. intros ?.
  eapply h_bind; [apply h_now|]. intros t.
  eapply h_weaken; [apply (undo_finish true F)|done|done|done]. by intros m Hm Hs.
Qed.
Lemma cancel_now_ok : hoare (fun s => stuck s /\ so_stopped (mg_state (st_mig s)) = false /\ mg_phase (st_mig s) <> PhFinalize) (cancel_now ext clock node_gone true)
  (fun _ s => safe (st_world s)) (fun _ s => safe (st_world s)).
Proof.
  set (F := fun m : migration => so_stopped (mg_state m) = false /\ mg_phase m <> PhFinalize). unfold cancel_now. apply (h_whole _ (with_undo true F)).
  { intros s [Hs Hst]. split; [by apply stuck_undo|done]. }
  eapply h_bind; [apply h_quietly, undo_cleanup; by intros m|]. intros ?.
  eapply h_bind; [apply h_now|]. intros t.
  eapply h_weaken; [apply (undo_finish true F)|done|done|done]. by intros m [Hm Hp] Hs.
Qed.

(** ** Going back after the switch *)

Definition back_to (m : migration) : migration := in_state (so_with_switched false) m.
Lemma volume_back v0 vs (v : volume_row) : vs_src_server vs = vr_server v0 -> vs_src_cluster vs = vr_cluster v0 -> vs_src_created vs = vr_created v0 ->
  vs_src_mount vs = vr_mount v0 -> vs_src_class vs = vr_class v0 -> vr_docker v = vr_docker v0 -> vr_shared v = vr_shared v0 -> vr_host v = vr_host v0 ->
  volume_at (vs_src_server vs) (vs_src_cluster vs) (vs_src_created vs) (vs_src_mount vs) (vs_src_class vs) v = v0.
Proof. destruct v0. unfold volume_at. cbn. congruence. Qed.
Lemma back_volumes m (w : world D) id : known g (w_next w) m -> rows_fit g w m ->
  foldl back_volume (w_volumes w) (so_volumes (mg_state m)) !! id = volume_now g (back_to m) id <$> sg_volumes g !! id.
Proof.
  intros K R. etrans; [exact (foldl_alter_lookup vs_id
    (fun vs => volume_at (vs_src_server vs) (vs_src_cluster vs) (vs_src_created vs) (vs_src_mount vs) (vs_src_class vs)) _ _ _ (kn_vs_once _ _ _ K))|].
  rewrite (rf_volumes _ _ _ R id). unfold volume_now at 3. cbn. unfold volume_now, find_volume_state.
  destruct (find_first _ _) as [vs|] eqn:E; [|by destruct (switched m)].
  apply find_first_some in E as [Hin Hid%N.eqb_eq]. pose proof (kn_vs _ _ _ K) as Kv. rewrite Forall_forall in Kv.
  destruct (Kv vs Hin) as (_ & _ & v0 & H0 & E1 & E2 & E3 & E4 & E5 & E6). rewrite Hid in H0. rewrite H0. cbn. f_equal.
  apply volume_back; try done; by destruct (switched m).
Qed.
Lemma back_instances m (w : world D) id i0 : known g (w_next w) m -> rows_fit g w m -> complete g m -> moving g id -> sg_instances g !! id = Some i0 ->
  exists i, foldl back_instance (w_instances w) (so_instances (mg_state m)) !! id = Some i
    /\ ir_volume i = ir_volume i0 /\ located i = instance_now g (back_to m) id i0.
Proof.
  intros K R [_ Hc] Hm H0. destruct (rf_instances _ _ _ R id i0 Hm H0) as (i & Hi & Hv & _).
  pose proof (foldl_alter_lookup ms_id (fun ms => instance_at (ms_src_server ms) (ms_src_cluster ms) (ms_src_created ms) (ms_src_class ms) (ms_src_container ms))
    (so_instances (mg_state m)) (w_instances w) id (kn_ms_once _ _ _ K)) as Hf. rewrite Hi in Hf.
  destruct (find_first _ _) as [ms|] eqn:E.
  - apply find_first_some in E as [Hin Hid%N.eqb_eq]. pose proof (kn_ms _ _ _ K) as Km. rewrite Forall_forall in Km.
    destruct (Km ms Hin) as (_ & _ & i1 & H1 & E1 & E2 & E3 & E4 & E5). rewrite Hid in H1. assert (i1 = i0) as -> by congruence.
    eexists. split; [exact Hf|]. split; [done|]. unfold located, instance_now. cbn. unfold located. congruence.
  - exfalso. destruct (proj1 (list_elem_of_fmap _ _ _) (Hc id Hm)) as (ms & Hid & Hin). rewrite find_first_none in E.
    specialize (E ms Hin). apply N.eqb_neq in E. congruence.
Qed.
Lemma back_names m (w : world D) : names_kept g w -> forall id i, foldl back_instance (w_instances w) (so_instances (mg_state m)) !! id = Some i ->
  match sg_instances g !! id with Some i0 => ir_volume i = ir_volume i0 | None => ~ taken_name g (ir_volume i) end.
Proof.
  unfold names_kept. generalize (w_instances w). induction (so_instances (mg_state m)) as [|ms l IH]; intros rows HN id i; [by apply HN|].
  cbn. apply IH. intros j x. unfold back_instance. rewrite lookup_alter. case_decide; [|by apply HN]. subst j.
  destruct (rows !! ms_id ms) as [y|] eqn:E; [|done]. cbn. intros [= <-]. cbn. by apply HN.
Qed.
Lemma back_rows_put m (w w' : world D) : back_rows m w = Some w' -> exists d, w' = put_databases d
  (put_instances (foldl back_instance (w_instances w) (so_instances (mg_state m)))
    (put_volumes (foldl back_volume (w_volumes w) (so_volumes (mg_state m)))
      (put_app (app_at (mg_src_server m) (mg_src_cluster m) <$> w_app w) w))).
Proof. unfold back_rows. destruct (foldl _ _ _) as [d|]; [|done]. intros [= <-]. by exists d. Qed.
Lemma back_inv (w w' : world D) m : inv g w m -> fits g w -> mg_status m = MigRunning -> mg_phase m = PhRollback -> switched m = true ->
  back_rows m w = Some w' -> fits g w' /\ inv g w' (back_to m).
Proof.
  intros [K R Da Is Ip It] [HN HF] Hst Hp Hs (d & ->)%back_rows_put. destruct (Is Hs) as [Hc Hstop].
  destruct (kn_static _ _ _ K) as (_ & E1 & E2 & _). split.
  { split; [|done]. intros id i Hi. by eapply (back_names m w HN). }
  assert (Hg0 : gone m = false) by (unfold gone; by rewrite Hp, Hst).
  constructor; [by destruct K| | |done| |].
  - constructor.
    + destruct (rf_app _ _ _ R) as (a & Ha & _). exists (app_at (mg_src_server m) (mg_src_cluster m) a). cbn. rewrite Ha. split; [done|]. cbn. by rewrite E1, E2.
    + intros id. by apply back_volumes.
    + intros id i0. by apply back_instances.
  - destruct (dk_source _ _ _ Da Hg0) as [D1 D2]. constructor; done.
  - intros _. constructor; cbn; rewrite ?Hp; try done.
  - unfold status_fits. cbn. by rewrite Hst.
Qed.

Lemma back_transaction_ok m0 :
  hoare (with_mig (fun m => now_at PhRollback m /\ m = m0)) (transaction ext (back_rows m0) (back_to m0))
    (fun _ => with_undo false (at_phase PhRollback)) (fun _ => with_mig (now_at PhRollback)).
Proof.
  unfold transaction. set (F := fun m => _). assert (HE : forall s, with_mig F s -> with_mig (now_at PhRollback) s) by by intros s [Hs [Hp _]].
  eapply h_bind; [eapply h_of_keeps; [asking|by intros f]|]. intros ?. eapply h_bind; [apply h_get_world|]. intros w.
  destruct (back_rows m0 w) as [w'|] eqn:E; [|apply h_throw; intros s [Hs _]; by apply HE].
  eapply (h_bind _ _ _ (fun _ s => undoing false (RunSt (st_world s) (back_to m0)) /\ at_phase PhRollback m0)).
  - apply h_change_world. intros [v m] [[Hs ([Hp Hns] & Heq)] Hw]. cbn in *. subst v m. split; [|done]. destruct Hs as [Hf Hr Hi Hl Hst]. cbn in *.
    destruct (back_inv w w' m0 Hi Hf Hst Hp Hns E) as [Hf' Hi'].
    assert (Hi'' : inv g (put_mig (back_to m0) w') (back_to m0)) by by apply inv_put_row.
    constructor; cbn; [done|done| |done].
    apply (inv_relabel _ (back_to m0)); [done| |done|done|done]. unfold gone. cbn. unfold at_phase in Hp. by rewrite Hp, Hst.
  - intros ?. apply h_change_mig. intros s [Hs Hp]. done.
Qed.

Lemma k_stop_for_move F id i : hoare (fun s => with_mig F s /\ w_instances (st_world s) !! id = Some i) (stop_for_move ext id i) (fun _ => with_mig F) (fun _ => with_mig F).
Proof. eapply h_weaken; [apply (stop_for_move_ok F (fun _ => True) id i); done| | |done]; [by intros s []|by intros ? s []]. Qed.
Lemma k_stop_targets F l acc : quietly (with_mig F) (stop_targets ext l acc).
Proof.
  revert acc. induction l as [|ms l IH]; intros acc; [apply q_ret|]. cbn [stop_targets].
  eapply h_bind; [apply h_attempt, (hr_find_instance (P := with_mig F))|]. intros [f|i]; [apply IH|].
  eapply h_bind; [apply h_attempt, k_stop_for_move|]. intros [f|u]; apply IH.
Qed.

Lemma undoing_containers w m c : undoing false (RunSt w m) ->
  undoing false (RunSt w (in_state (fun s => so_with_instances (with_target_container c <$> so_instances s) s) m)).
Proof.
  intros Hs. eapply undoing_core; [apply (un_open _ _ Hs)|exact Hs|]. destruct Hs as [_ Ho Hi _]. cbn in *.
  destruct Hi as [[Ks Kv Km Kr Kvo Kmo] [Ra Rv Ri] [Da Db Dc] Is Ip It]. unfold undone in *.
  set (m' := set_status MigFailed (set_phase PhPrepare (in_state _ m))). assert (Hs' : switched m' = false) by done.
  constructor; [| | |by rewrite Hs'|done|done].
  - constructor; [exact Ks|exact Kv| |exact Kr|exact Kvo|]; subst m'; cbn.
    + apply Forall_fmap. eapply Forall_impl; [exact Km|]. intros ms Hms. exact Hms.
    + rewrite <- list_fmap_compose. exact Kmo.
  - unfold volume_now, instance_now in *. change (switched (set_status MigFailed (set_phase PhPrepare m))) with (switched m) in *. rewrite Ho in *.
    constructor; unfold volume_now, instance_now; rewrite Hs'; done.
  - change (switched (set_status MigFailed (set_phase PhPrepare m))) with (switched m) in *. constructor; rewrite ?Hs'; done.
Qed.
Section Removals3.
Context {kept : place -> Prop} {P : run_st D -> Prop} {HP : Removing kept P}.
Lemma km_inject i d prefix : keeps P (inject ext app_env i d prefix).
Proof.
  unfold inject. removing. apply h_change_world. intros [w m] Hs. by apply (rm_world (RunSt w m)); [| |apply (rm_fits _ Hs)|..].
Qed.
Lemma km_await_deployment polls id : keeps P (await_deployment ext polls id).
Proof. induction polls as [|n IH]; [apply k_throw|]. cbn [await_deployment]. removing; done. Qed.
Lemma km_relocate_deploy a : keeps P (relocate_deploy ext a).
Proof. unfold relocate_deploy. removing. Qed.
Lemma qm_remove_runtime a c s b : quietly P (remove_runtime ext a c s b).
Proof. unfold remove_runtime. quietly_done. Qed.
Lemma km_start id : keeps P (i <-- find_instance ext id; start_stopped ext id i).
Proof. eapply h_bind; [apply hm_find_instance|]. intros i. apply hm_start_stopped. Qed.
End Removals3.

Definition back (s : run_st D) : Prop := with_mig (now_at PhRollback) s \/ with_undo false (at_phase PhRollback) s.
Lemma switch_back_ok : hoare (with_mig (now_at PhRollback)) (switch_back ext app_env) (fun _ => with_undo false (at_phase PhRollback)) (fun _ => back).
Proof.
  unfold switch_back. assert (HE : forall (f : failure) s, with_mig (now_at PhRollback) s -> back s) by by left.
  assert (HU : forall (f : failure) s, with_undo false (at_phase PhRollback) s -> back s) by by right.
  eapply h_bind; [eapply h_of_keeps; [asking|exact HE]|]. intros a.
  eapply h_bind; [eapply h_of_keeps; [asking|exact HE]|]. intros gw.
  eapply h_bind; [eapply h_of_keeps; [asking|exact HE]|]. intros m1.
  eapply h_bind; [eapply h_of_keeps; [unfold remove_runtime; asking|exact HE]|]. intros ?.
  eapply h_bind; [apply h_quietly, k_stop_targets|]. intros containers.
  eapply h_bind; [apply h_get_mig|]. intros m.
  eapply (h_bind _ _ _ (fun _ => with_undo false (at_phase PhRollback))).
  { eapply h_weaken; [apply (back_transaction_ok m)| |done|exact HE]. intros s [[Hs Hp] ->]. done. }
  intros ?. eapply (h_bind _ _ _ (fun _ => with_undo false (at_phase PhRollback))).
  { apply h_change_mig. intros [w m'] [Hs Hp]. split; [by apply undoing_containers|done]. }
  intros ?. eapply h_of_keeps; [|exact HU]. apply k_bind; [apply k_for_each; intros ms _; apply km_start|intros ?]. removing.
  - apply km_inject.
  - apply km_relocate_deploy.
  - apply km_await_deployment.
Qed.

Lemma going_back w m : going (RunSt w m) -> gone m = false -> switched m = true \/ mg_phase m = PhRollback -> going (RunSt w (set_phase PhRollback m)).
Proof.
  intros Hs Hg0 Hor. destruct (decide (mg_phase m = PhRollback)) as [Hp|Hnp].
  { replace (set_phase PhRollback m) with m; [done|]. destruct m. cbn in *. by subst. }
  destruct Hor as [Hsw|?]; [|done]. destruct Hs as [Hf Hr Hi Hl Hst]. cbn in *. constructor; cbn; [done|done| | |done].
  - apply (inv_relabel w m); [done|by rewrite Hg0| |by unfold status_fits; cbn; rewrite Hst|done]. intros _.
    destruct (in_switched _ _ _ Hi Hsw) as [Hc Hstop]. constructor; cbn; try done; congruence.
  - destruct Hl as (L1 & L2 & L3 & L4). unfold lag. cbn. split; [done|]. split; [done|].
    split; [intros _ Hx; unfold switched in *; cbn in Hx; congruence|]. unfold gone. cbn. by rewrite Hst.
Qed.
Lemma undo_of_going s : with_mig (at_phase PhRollback) s -> switched (st_mig s) = false -> with_undo false (at_phase PhRollback) s.
Proof.
  destruct s as [w m]. intros [[Hf Hr Hi (L1 & L2 & L3 & L4) Hst] Hp] Hs. cbn in *. split; [|done]. constructor; cbn; [done|done| |].
  - apply (inv_relabel w m); [done| |done|done|done]. unfold gone. unfold at_phase in Hp. cbn in Hp. by rewrite Hp, Hst.
  - split; [done|]. split; [congruence|auto].
Qed.

Lemma finish_back_ok cause : hoare (with_undo false (at_phase PhRollback))
  (cleanup_target ext node_gone ;;; t <-- now clock;
   change_mig (fun m => finish MigRolledBack t (match cause with Some _ => cause | None => mg_error m end) false m) ;;; save ext)
  (fun _ s => safe (st_world s)) (fun _ _ => False).
Proof.
  eapply h_bind; [apply undo_cleanup; by intros m|]. intros ?. eapply h_bind; [apply h_now|]. intros t.
  apply (undo_finish false (at_phase PhRollback)). intros m Hm Hs. unfold at_phase in Hm. split; [done|]. split; [done|]. split; [done|]. cbn. congruence.
Qed.
Lemma rollback_ok cause : hoare (fun s => going s /\ gone (st_mig s) = false /\ (switched (st_mig s) = true \/ mg_phase (st_mig s) = PhRollback))
  (rollback ext clock app_env node_gone cause) (fun _ s => safe (st_world s)) (fun _ _ => False).
Proof.
  unfold rollback. eapply (h_bind _ _ _ (fun _ => with_mig (at_phase PhRollback))).
  { apply h_change_mig. intros [w m] (Hs & Hg0 & Hor). split; [|done]. by apply going_back. }
  intros ?. eapply h_bind; [apply q_save_keep|]. intros ?. eapply h_bind; [apply h_get_mig|]. intros m. cbn zeta.
  apply h_if; intros Hsw.
  - eapply (h_bind _ _ _ (fun o s => match o with inr _ => with_undo false (at_phase PhRollback) s | inl _ => back s end)).
    { eapply h_weaken; [eapply (h_attempt _ _ _ _ (fun _ _ => False)), switch_back_ok| |done|done]. by intros s [[Hs Hp] ->]. }
    intros [f|u]; [|apply finish_back_ok]. eapply h_bind; [apply h_now|]. intros t.
    eapply (h_bind _ _ _ (fun _ => ready)); [|intros ?; apply h_save_last]. apply h_change_mig. intros [w m'] [[Hs [Hp Hs']]|[Hs Hp]]; cbn in *.
    + split; [apply Hs|]. split; [|apply Hs]. pose proof (go_running _ Hs) as Hst. cbn in Hst. unfold at_phase in Hp.
      apply (inv_relabel w m'); [done| |done| |apply Hs]; unfold gone, status_fits; cbn; by rewrite Hp, ?Hst.
    + split; [apply Hs|]. split; [|apply (un_row _ _ Hs)]. unfold at_phase in Hp.
      apply (inv_relabel w (undone m')); [done|done|done| |apply (un_inv _ _ Hs)]. unfold status_fits. cbn. by rewrite Hp.
  - eapply (h_bind _ _ _ (fun _ => with_undo false (at_phase PhRollback))); [|intros ?; apply finish_back_ok].
    eapply h_pre; [|apply q_when; intros _; apply undo_restart]. intros s [Hs ->]. by apply undo_of_going.
Qed.

(** ** Finishing *)

Lemma final_facts s : with_mig (at_phase PhFinalize) s -> switched (st_mig s) = true /\ gone (st_mig s) = true
  /\ switched (ro_mig (w_row (st_world s))) = true /\ gone (ro_mig (w_row (st_world s))) = true.
Proof.
  intros [Hs Hp]. unfold at_phase in Hp. pose proof (pf_after _ _ _ (in_phase _ _ _ (go_inv _ Hs) (go_running _ Hs))) as Ha. rewrite Hp in Ha.
  specialize (Ha eq_refl). destruct (go_lag _ Hs) as (L1 & _ & _ & L4). assert (Hg1 : gone (st_mig s) = true) by (unfold gone; by rewrite Hp).
  split; [done|]. split; [done|]. split; [congruence|auto].
Qed.
Lemma final_change s w' : with_mig (at_phase PhFinalize) s -> rows_loose g (st_world s) w' -> fits g w' ->
  (forall p, target_place g p -> holds (st_world s) p -> holds w' p) -> ro_mig (w_row w') = ro_mig (w_row (st_world s)) ->
  with_mig (at_phase PhFinalize) (RunSt w' (st_mig s)).
Proof.
  intros Hs Hl Hf Hh Hrow. destruct (final_facts s Hs) as (H1 & H2 & H3 & H4). split; [|apply Hs]. apply going_change; [apply Hs|done|done|].
  intros m Hm. assert (Hmm : switched m = true /\ gone m = true) by by destruct Hm as [-> | ->]. destruct Hmm as [Hsw Hgo].
  apply inv_weak; [done|congruence|done|by right|congruence].
Qed.
#[export] Instance removing_final : Removing (target_place g) (with_mig (at_phase PhFinalize)).
Proof.
  constructor.
  - apply going_interruptible.
  - intros c Hc s Hs. pose proof (go_fits _ (proj1 Hs)) as Hf.
    assert (Hx : rows_loose g (st_world s) (after c (st_world s)) /\ forall p, target_place g p -> holds (st_world s) p -> holds (after c (st_world s)) p).
    { destruct (removes c) eqn:Er.
      - destruct c; try done. destruct (after_remove g ext server volume (st_world s)) as [H1 H2]. split; [done|]. intros p Hp.
        apply H2; [by right|]. by apply Hc.
      - pose proof (after_loose g Hg ext c (st_world s) (proj2 Hf) Er) as Hl. split; [apply Hl|]. intros p Hp. apply (lo_holds _ _ _ Hl). by right. }
    destruct Hx as [H1 H2]. apply final_change; [done|done|by apply after_fits; [apply law_names|]|done|apply row_after].
  - intros s w' Hs Hl Hf Hh Hrow Hleft. apply final_change; [done|done|done| |by rewrite Hrow]. intros p _. unfold holds. by rewrite Hh.
  - intros s [Hs _]. apply Hs.
Qed.

(** What the rows point at is at the target, and bears the names of what moved. *)
Lemma target_spared s v : s <> sg_tgt_server g -> spared_copy (kept := target_place g) s v.
Proof. intros Hs p [(id & x & Hp & H0 & ->)|(id & x & Hm & H0 & ->)] [= He _]; congruence. Qed.
Lemma unmoved_spared (w : world D) id i s : names_kept g w -> ~ moving g id -> w_instances w !! id = Some i -> ir_volume i <> "" ->
  spared_copy (kept := target_place g) s (ir_volume i).
Proof.
  intros HN Hnm Hi Hne p [(j & x & Hp & H0 & ->)|(j & x & Hm & H0 & ->)] [= _ He]; specialize (HN id i Hi); destruct (sg_instances g !! id) as [i0|] eqn:E.
  - eapply (wp_names_apart g Hg); [exact H0|exact E|congruence].
  - apply HN. left. eauto.
  - assert (id = j) as -> by (eapply (wp_instance_names g Hg); [exact E|exact H0|congruence|congruence]). done.
  - apply HN. right. eauto.
Qed.
Lemma restored_not_moving next r : rs_ok g next r -> rs_src_db r <> 0%N -> ~ moving g (rs_src_instance r).
Proof.
  intros [Hr _] Hne (pd' & Hpd' & He & Hst'). destruct (Hr Hne) as (pd & d & (Hpd & Hst & _) & _ & _ & Hi). apply Hst.
  rewrite <- Hst'. eapply (wp_one_strategy g Hg); [done|done|]. congruence.
Qed.

Lemma drop_sources_ok (P : run_st D -> Prop) kept {HP : Removing kept P} rs :
  hoare P (drop_sources ext rs []) (fun l s => (forall x, x ∈ l -> exists r, r ∈ rs /\ rs_src_db r <> 0%N /\ rs_src_instance r = x) /\ P s) (fun _ _ => False).
Proof.
  assert (G : forall rest emptied, (forall r, r ∈ rest -> r ∈ rs) -> (forall x, x ∈ emptied -> exists r, r ∈ rs /\ rs_src_db r <> 0%N /\ rs_src_instance r = x) ->
    hoare P (drop_sources ext rest emptied)
     (fun l s => (forall x, x ∈ l -> exists r, r ∈ rs /\ rs_src_db r <> 0%N /\ rs_src_instance r = x) /\ P s) (fun _ _ => False)).
  { induction rest as [|r rest IH]; intros emptied Hr He; [by apply h_ret|]. cbn [drop_sources].
    assert (Hr' : forall x, x ∈ rest -> x ∈ rs) by (intros x Hx; apply Hr; by right). apply h_if; intros Hz; [by apply IH|].
    eapply h_bind; [apply q_attempt, km_delete_database|]. intros [f|u]; apply IH; try done.
    intros x [Hx|Hx]%elem_of_app; [by apply He|]. apply list_elem_of_singleton in Hx as ->. exists r.
    split; [apply Hr; by left|]. split; [by apply N.eqb_neq|done]. }
  apply G; [done|]. intros x Hx. by apply elem_of_nil in Hx.
Qed.
Lemma drop_emptied_ok app id : ~ moving g id -> quietly (with_mig (at_phase PhFinalize)) (drop_emptied ext node_gone app id).
Proof.
  intros Hn. unfold drop_emptied. set (P := with_mig (at_phase PhFinalize)).
  eapply h_bind; [apply h_attempt, (hm_find_instance (P := P))|]. intros [f|i]; [apply q_ret|].
  apply h_if; intros _; [|apply h_ret; by intros s []].
  assert (Hi : interruptible (found (P := P) id i)) by by apply found_interruptible.
  eapply (h_bind _ _ _ (fun _ => found (P := P) id i)); [apply q_ask; [done|by apply found_call; [apply spares_other|]]|]. intros a.
  eapply h_bind; [apply h_get_world_keep|]. intros w. apply h_if; intros _; [|apply h_ret; by intros s []].
  eapply (h_pre _ (fun s => (ir_volume i <> "" -> spared_copy (kept := target_place g) (ir_server i) (ir_volume i)) /\ found (P := P) id i s)).
  { intros s [Hs Hf]. split; [|done]. intros Hne. eapply unmoved_spared; [apply (proj1 (go_fits _ (proj1 Hs)))|exact Hn|exact Hf|done]. }
  apply h_fact. intros Hsp. by eapply hm_drop_instance.
Qed.
Lemma source_servers s : with_mig (at_phase PhFinalize) s ->
  (forall vs, vs ∈ so_volumes (mg_state (st_mig s)) -> vs_src_server vs <> sg_tgt_server g)
  /\ (forall ms, ms ∈ so_instances (mg_state (st_mig s)) -> ms_src_server ms <> sg_tgt_server g)
  /\ (forall r, r ∈ so_restores (mg_state (st_mig s)) -> rs_src_db r <> 0%N -> ~ moving g (rs_src_instance r)).
Proof.
  intros [Hs _]. destruct (in_known _ _ _ (go_inv _ Hs)) as [_ Kv Km Kr _ _]. rewrite Forall_forall in Kv. rewrite Forall_forall in Km. rewrite Forall_forall in Kr. split_and!.
  - intros vs Hin. destruct (Kv vs Hin) as (Hp & _ & v & H0 & _ & -> & _). destruct (wp_volume g Hg _ Hp) as (v' & Hv' & Hne). congruence.
  - intros ms Hin. destruct (Km ms Hin) as (Hp & _ & i & H0 & _ & -> & _). destruct (wp_instance g Hg _ Hp) as (i' & Hi' & Hne & _). congruence.
  - intros r Hin. by apply (restored_not_moving _ _ (Kr r Hin)).
Qed.
Lemma finalize_ok : hoare (with_mig (at_phase PhFinalize)) (finalize ext clock node_gone) (fun _ s => safe (st_world s)) (fun _ _ => False).
Proof.
  unfold finalize. set (P := with_mig (at_phase PhFinalize)). eapply h_bind; [apply h_get_mig|]. intros m.
  eapply (h_pre _ (fun s => ((forall vs, vs ∈ so_volumes (mg_state m) -> vs_src_server vs <> sg_tgt_server g)
    /\ (forall ms, ms ∈ so_instances (mg_state m) -> ms_src_server ms <> sg_tgt_server g)
    /\ (forall r, r ∈ so_restores (mg_state m) -> rs_src_db r <> 0%N -> ~ moving g (rs_src_instance r))) /\ P s)).
  { intros s [Hs ->]. split; [by apply source_servers|done]. }
  apply h_fact. intros (Hv & Hi & Hr).
  eapply h_bind; [apply (q_attempt P), km_the_app|]. intros o.
  eapply (h_bind _ _ _ (fun _ => P)).
  { destruct o as [f|a]; [apply q_ret|]. apply (h_if (ap_service a)); intros _; [apply (qm_remove_runtime (P := P))|]. apply (q_when P). intros _. quietly_done. }
  intros ?. eapply h_bind; [apply (q_for_each P); intros vs Hvs; apply qm_drop_volume_copy, target_spared; by apply Hv|].
  intros ?. eapply h_bind; [apply (q_for_each P); intros ms Hms; apply qm_drop_instance_copy; intros _; apply target_spared; by apply Hi|].
  intros ?. eapply h_bind; [by apply (drop_sources_ok P (target_place g))|]. intros emptied. apply h_fact. intros He.
  eapply h_bind.
  { apply (q_for_each P). intros id Hid. apply drop_emptied_ok. rewrite elem_of_remove_dups in Hid. destruct (He id Hid) as (r & Hin & Hne & <-). by apply Hr. }
  intros ?. eapply h_bind; [apply h_now|]. intros t.
  eapply (h_bind _ _ _ (fun _ => ready)); [|intros ?; apply h_save_last]. apply h_change_mig. intros [w m'] Hs.
  destruct (final_facts _ Hs) as (H1 & H2 & _). destruct Hs as [Hs Hp]. cbn in *. split; [apply Hs|]. split; [|apply Hs].
  apply (inv_relabel w m'); [done|done|done|done|apply Hs].
Qed.
End Undo.
