(* ===== verification/MigrationHistory.v ===== *)
(** * Moving an application to another location: every history

    What a run, and what people ask of a migration, leave: whatever the engines answer, wherever workers die, and in
    whatever order people ask, the rows, the copies and the record fit together; and what that means for the data. *)
From S2P Require Import Prelude GoStrings Migration MigrationRun MigrationInv MigrationSafe MigrationCut MigrationUndo.
#[local] Open Scope Z_scope.
#[local] Open Scope list_scope.

(** ** Computations that fail with an error only *)

Section Errors.
Context {D : Type} {ext : nat -> call -> answer D} {clock : nat -> Z}
  {app_env : N -> N -> string -> gmap string string -> list (string * string)}.
Definition is_error (f : failure) : Prop := exists e, f = FError e.
Definition errs {A} (c : M D A) (Q : A -> Prop) : Prop :=
  forall s, match (c s).2 with Done a => Q a | Failed f => is_error f | Crashed => True end.
Definition any {A} (a : A) : Prop := True.
Definition seen {A} (o : failure + A) : Prop := match o with inl f => is_error f | inr _ => True end.

Lemma e_ret {A} (a : A) (Q : A -> Prop) : Q a -> errs (ret a) Q.
Proof. intros H s. exact H. Qed.
Lemma e_bind {A B} (c : M D A) (k : A -> M D B) (R : A -> Prop) (Q : B -> Prop) : errs c R -> (forall a, R a -> errs (k a) Q) -> errs (bind c k) Q.
Proof. intros Hc Hk s. unfold bind. specialize (Hc s). destruct (c s) as [s' [a|f|]]; [by apply Hk|done|done]. Qed.
Lemma e_error {A} why (Q : A -> Prop) : errs (fail_with why) Q.
Proof. intros s. by exists why. Qed.
Lemma e_throw {A} f (Q : A -> Prop) : is_error f -> errs (throw f) Q.
Proof. intros H s. exact H. Qed.
Lemma e_attempt {A} (c : M D A) : errs c any -> errs (attempt c) seen.
Proof. intros Hc s. unfold attempt. specialize (Hc s). by destruct (c s) as [s' [a|f|]]. Qed.
Lemma e_ask c : errs (ask ext c) any.
Proof. intros s. unfold ask. by destruct (w_left (st_world s)) as [[|]|]. Qed.
Lemma e_must c : errs (must ext c) any.
Proof. eapply e_bind; [apply e_ask|]. intros a _. destruct (an_ok a); [by apply e_ret|]. apply e_error. Qed.
Lemma e_for_each {A} (l : list A) (f : A -> M D unit) : (forall x, errs (f x) any) -> errs (for_each l f) any.
Proof. intros H. induction l as [|x l IH]; [by apply e_ret|]. cbn. eapply e_bind; [apply H|done]. Qed.
Lemma e_get_world : errs (get_world (D := D)) any.
Proof. by intros s. Qed.
Lemma e_get_mig : errs (get_mig (D := D)) any.
Proof. by intros s. Qed.
Lemma e_change_world f : errs (change_world (D := D) f) any.
Proof. by intros s. Qed.
Lemma e_change_mig f : errs (change_mig (D := D) f) any.
Proof. by intros s. Qed.
End Errors.
Ltac erring_step :=
  lazymatch goal with
  | |- errs (ret _) _ => first [exact (e_ret _ any I) | by apply e_ret]
  | |- errs (throw (FError _)) _ => apply e_error
  | |- errs (fail_with _) _ => first [exact (e_error _ any) | apply e_error]
  | |- errs (ask _ _) _ => apply e_ask
  | |- errs (must _ _) _ => apply e_must
  | |- errs (attempt _) _ => apply e_attempt
  | |- errs get_world _ => apply e_get_world
  | |- errs get_mig _ => apply e_get_mig
  | |- errs (change_world _) _ => apply e_change_world
  | |- errs (change_mig _) _ => apply e_change_mig
  | |- errs (for_each _ _) _ => apply e_for_each; intros ?
  | |- errs (bind _ _) _ => eapply e_bind; [|intros ? ?]
  | |- errs (if ?b then _ else _) _ => destruct b
  | |- errs (match ?x with _ => _ end) _ => destruct x
  end.
Ltac erring := repeat erring_step.

Section Steps.
Context {D : Type} {ext : nat -> call -> answer D} {clock : nat -> Z}
  {app_env : N -> N -> string -> gmap string string -> list (string * string)}.
Lemma e_stop : errs (stop ext clock) any.
Proof. unfold stop, the_app, now, save, find_instance, stop_for_move, update_instance. erring. Qed.
Lemma e_restore_one n r : errs (restore_one ext n r) any.
Proof. unfold restore_one, find_instance, find_database, update_restore, save. erring. Qed.
Lemma e_final_sync : errs (final_sync ext) any.
Proof.
  unfold final_sync, sync_one, restore_at, save. erring; try apply e_restore_one. by apply e_throw.
Qed.
Lemma e_await_deployment n id : errs (await_deployment ext n id) any.
Proof. induction n as [|n IH]; [apply e_error|]. cbn [await_deployment]. erring; done. Qed.
Lemma e_await_instance n id : errs (await_instance ext (D := D) n id) any.
Proof. induction n as [|n IH]; [apply e_error|]. cbn [await_instance]. erring; done. Qed.
Lemma e_switch_over : errs (switch_over ext app_env) any.
Proof. unfold switch_over, transaction, bring_up_moved, inject, the_app, find_instance, find_database. erring. Qed.
Lemma e_verify : errs (verify ext) any.
Proof. unfold verify, the_app, relocate_deploy, save. erring. apply e_await_deployment. Qed.
Lemma e_reroute : errs (reroute ext) any.
Proof. unfold reroute, the_app, best, when. erring. Qed.
End Steps.

(** ** A run *)

Section Run.
Context {D : Type} {g : setting} {Hg : well_planned g} {ext : nat -> call -> answer D} {Hext : lawful g ext} {clock : nat -> Z}.
Context {class_path : N -> string -> string -> option string} {app_env : N -> N -> string -> gmap string string -> list (string * string)}
  {node_gone : N -> bool}.
#[local] Abbreviation M := (M D).
#[local] Abbreviation after := (after ext).
#[local] Abbreviation hoare := (@hoare D g _).
#[local] Abbreviation keeps := (@keeps D g _).
#[local] Abbreviation safe := (@safe D g).
#[local] Abbreviation going := (@going D g).
#[local] Abbreviation with_mig := (@with_mig D g).
#[local] Abbreviation enters := (@enters D g).
#[local] Abbreviation ended := (fun s : run_st D => safe (st_world s)).
#[local] Abbreviation cancel_now := (cancel_now ext clock node_gone true).
#[local] Abbreviation fail_move := (fail_move ext clock app_env node_gone true).
#[local] Abbreviation run_steps := (run_steps ext clock app_env node_gone true).

Lemma going_safe s : going s -> safe (st_world s).
Proof. intros Hs. split; apply Hs. Qed.
Lemma hoare_errs {A} (P : run_st D -> Prop) (c : M A) Q (E : run_st D -> Prop) : hoare P c Q (fun _ => E) -> errs c any ->
  hoare P c Q (fun f s => E s /\ is_error f).
Proof. intros H He s Hs. specialize (H s Hs). specialize (He s). destruct (c s) as [s' [a|f|]]; done. Qed.

Lemma fail_move_ok why : hoare (fun s => going s /\ gone (st_mig s) = false) (fail_move why) (fun _ => ended) (fun _ => ended).
Proof.
  unfold MigrationRun.fail_move. eapply h_bind; [apply h_get_mig|]. intros m. apply h_if; intros Hsw.
  - eapply h_weaken; [apply rollback_ok|intros s [[Hs Hg0] ->]; by auto|done|done].
  - eapply h_weaken; [apply (undo_fail (so_stopped (mg_state m)) why)| |done|done].
    intros s [[Hs Hg0] ->]. split; [apply stuck_start; [apply Hs|apply Hs|done|done]|by apply gone_phase].
Qed.

(** What a step that fails leaves *)
Definition stopped_early (s : run_st D) : Prop := so_stopped (mg_state (st_mig s)) = false.
Definition step_fails (p : mig_phase) (f : failure) (s : run_st D) : Prop :=
  match f with
  | FAwaiting => safe (st_world s)
  | FCancelled => with_mig (at_phase p) s /\ stopped_early s
  | FError _ => with_mig (at_phase p) s
  end.
Lemma early_phase p s : with_mig (at_phase p) s -> p = PhPrepare \/ p = PhPresync -> stopped_early s.
Proof.
  intros [Hs Hp] Hor. pose proof (pf_early _ _ _ (in_phase _ _ _ (go_inv _ Hs) (go_running _ Hs))) as He. unfold at_phase in Hp.
  rewrite Hp in He. destruct Hor; subst p; rewrite H in He; exact He.
Qed.
Lemma cancel_early s : fits g (st_world s) -> inv g (st_world s) (st_mig s) -> mg_phase (st_mig s) <> PhFinalize -> mg_status (st_mig s) <> MigFinalized ->
  stopped_early s -> stuck (g := g) s.
Proof.
  intros Hf Hi Hp Hst He. apply stuck_start; [done|done| |].
  - destruct (switched (st_mig s)) eqn:E; [|done]. destruct (in_switched _ _ _ Hi E) as [_ H]. unfold stopped_early in He. congruence.
  - unfold gone. by rewrite !bool_decide_eq_false_2.
Qed.
Lemma enters_calm p c : calm g c -> stable (ext := ext) (enters p) c.
Proof. intros Hc s [Hs Hp]. split; [|done]. by destruct (calm_stable (fun _ => True) c Hc _ (conj Hs I)). Qed.
Lemma enters_interruptible p : interruptible (g := g) (enters p).
Proof. intros s [Hs _] _. apply (going_safe _ Hs). Qed.
Lemma enters_cancel p : quietly (g := g) (enters p) (cancel_requested ext).
Proof.
  apply q_bind; [apply q_ask; [apply enters_interruptible|by apply enters_calm]|]. intros a.
  apply q_bind; [apply h_get_world_keep|]. intros w. apply q_ret.
Qed.

Lemma step_stays p (step : M unit) l (Q : run_st D -> Prop) : p <> PhFinalize ->
  hoare (with_mig (at_phase p)) step (fun _ => Q) (step_fails p) -> hoare Q (run_steps l) (fun _ => ended) (fun _ => ended) ->
  hoare (enters p) (run_steps ((p, step) :: l)) (fun _ => ended) (fun _ => ended).
Proof.
  intros Hnf Hstep Hl. cbn [MigrationRun.run_steps]. eapply h_bind; [apply h_quietly, enters_cancel|]. intros c. eapply h_bind; [apply h_get_mig|]. intros m. apply h_if; intros Hc.
  - apply andb_true_iff in Hc as [_ Hst%negb_true_iff]. eapply h_weaken; [apply cancel_now_ok| |done|done]. intros s [[Hs Hp] ->]. split; [|done].
    assert (Hstuck : stuck (g := g) (RunSt (st_world s) (set_phase p (st_mig s)))).
    { apply cancel_early; [apply Hs|apply Hs|done| |done]. rewrite (go_running _ Hs). done. }
    done.
  - eapply (h_bind _ _ _ (fun _ => with_mig (at_phase p))); [by apply h_change_mig; intros s [[Hs _] _]|]. intros ?.
    eapply h_bind; [apply h_quietly, q_save_keep|]. intros ?.
    eapply h_bind; [apply h_attempt, Hstep|]. intros [[| |why]|u]; [by apply h_ret| | |done].
    + eapply h_weaken; [apply cancel_now_ok| |done|done]. intros s [[Hs Hp] He]. unfold at_phase in Hp.
      split; [|split; [done|congruence]]. apply cancel_early; [apply Hs|apply Hs|congruence| |done]. by rewrite (go_running _ Hs).
    + eapply h_weaken; [apply fail_move_ok| |done|done]. intros s [Hs Hp]. split; [done|]. unfold at_phase in Hp. unfold gone.
      by rewrite Hp, (go_running _ Hs), !bool_decide_eq_false_2.
Qed.
Lemma fails_early p : p = PhPrepare \/ p = PhPresync -> forall f s, with_mig (at_phase p) s -> step_fails p f s.
Proof. intros Hp [| |] s Hs; cbn; [by apply going_safe, Hs|split; [done|by eapply early_phase]|done]. Qed.
Lemma fails_error p (F : run_st D -> Prop) : (forall s, F s -> with_mig (at_phase p) s) -> forall f s, F s /\ is_error f -> step_fails p f s.
Proof. intros HF f s [Hs [e ->]]. by apply HF. Qed.
Lemma now_at_phase p s : with_mig (now_at p) s -> with_mig (at_phase p) s.
Proof. by intros [Hs []]. Qed.
Lemma enter_switched p : after_switch p = true -> forall s, with_mig (at_phase p) s -> with_mig (now_at p) s.
Proof.
  intros Ha s [Hs Hp]. split; [done|]. split; [done|]. unfold at_phase in Hp. apply (pf_after _ _ _ (in_phase _ _ _ (go_inv _ Hs) (go_running _ Hs))).
  by rewrite Hp.
Qed.

#[local] Abbreviation safely p := (hoare (enters p) (run_steps (from_phase p (steps ext clock class_path app_env))) (fun _ => ended) (fun _ => ended)).
Lemma from_reroute : safely PhReroute.
Proof.
  apply (step_stays _ _ _ (with_mig (now_at PhReroute))); [done| |].
  - eapply h_weaken; [apply hoare_errs; [apply reroute_ok|apply e_reroute]|by apply enter_switched|done|apply fails_error, now_at_phase].
  - eapply h_weaken; [apply cut_over_ok|done|done|done].
Qed.
Lemma from_verify : safely PhVerify.
Proof.
  apply (step_stays _ _ _ (enters PhReroute)); [done| |apply from_reroute].
  eapply h_weaken; [apply hoare_errs; [apply verify_ok|apply e_verify]|by apply enter_switched| |apply fails_error, now_at_phase].
  intros ? s Hs. eapply switched_enters; [exact Hs| |by right]. destruct Hs as [_ [Hp _]]. unfold at_phase in Hp. congruence.
Qed.
Lemma from_switch : safely PhSwitch.
Proof.
  apply (step_stays _ _ _ (enters PhVerify)); [done| |apply from_verify].
  eapply h_weaken; [apply hoare_errs; [apply switch_over_ok|apply e_switch_over]|done| |by apply fails_error].
  intros ? s Hs. eapply switched_enters; [exact Hs| |by left]. destruct Hs as [_ [Hp _]]. unfold at_phase in Hp. congruence.
Qed.
Lemma from_final_sync : safely PhFinalSync.
Proof.
  apply (step_stays _ _ _ (enters PhSwitch)); [done| |apply from_switch].
  eapply h_weaken; [apply hoare_errs; [apply final_sync_ok|apply e_final_sync]|done| |by apply fails_error].
  intros ? s. apply final_sync_enters.
Qed.
Lemma from_stop : safely PhStop.
Proof.
  apply (step_stays _ _ _ (enters PhFinalSync)); [done| |apply from_final_sync].
  eapply h_weaken; [apply hoare_errs; [apply stop_ok|apply e_stop]|done| |by apply fails_error].
  intros ? s. apply stop_enters.
Qed.
Lemma from_presync : safely PhPresync.
Proof.
  apply (step_stays _ _ _ (enters PhStop)); [done| |apply from_stop].
  eapply h_weaken; [apply presync_ok|done| |].
  - intros ? s. apply presync_enters.
  - intros f s [Hs|[-> Hs]]; [by apply fails_early; [right|]|done].
Qed.
Lemma from_prepare : safely PhPrepare.
Proof.
  apply (step_stays _ _ _ (enters PhPresync)); [done| |apply from_presync].
  eapply h_weaken; [apply prepare_ok|done| |].
  - intros ? s. apply prepare_enters.
  - apply fails_early. by left.
Qed.

Lemma enters_here s : going s -> mg_phase (st_mig s) <> PhFinalize -> enters (mg_phase (st_mig s)) s.
Proof. intros Hs Hf. split; [|done]. replace (set_phase (mg_phase (st_mig s)) (st_mig s)) with (st_mig s); [by destruct s|]. by destruct (st_mig s). Qed.
Lemma forward_ok : hoare (fun s => going s /\ mg_phase (st_mig s) <> PhRollback /\ mg_phase (st_mig s) <> PhFinalize)
  (forward ext clock class_path app_env node_gone true) (fun _ => ended) (fun _ => ended).
Proof.
  unfold forward. eapply h_bind; [apply h_get_mig|]. intros m.
  assert (H : forall p, mg_phase m = p -> safely p -> hoare (fun s => (going s /\ mg_phase (st_mig s) <> PhRollback /\ mg_phase (st_mig s) <> PhFinalize) /\ m = st_mig s)
    (run_steps (from_phase p (steps ext clock class_path app_env))) (fun _ => ended) (fun _ => ended)).
  { intros p Hp Hsafe. eapply h_pre; [|exact Hsafe]. intros s [(Hs & _ & Hf) ->]. rewrite <- Hp. by apply enters_here. }
  destruct (mg_phase m) eqn:Hp.
  - apply (H PhPrepare eq_refl from_prepare).
  - apply (H PhPresync eq_refl from_presync).
  - apply (H PhStop eq_refl from_stop).
  - apply (H PhFinalSync eq_refl from_final_sync).
  - apply (H PhSwitch eq_refl from_switch).
  - apply (H PhVerify eq_refl from_verify).
  - apply (H PhReroute eq_refl from_reroute).
  - intros s [(Hs & _) ->]. exfalso. by apply (pf_open _ _ _ (in_phase _ _ _ (go_inv _ Hs) (go_running _ Hs))).
  - intros s [(_ & Hr & _) ->]. done.
  - intros s [(_ & _ & Hf) ->]. done.
Qed.
Lemma dispatch_ok : hoare going (dispatch ext clock class_path app_env node_gone true) (fun _ => ended) (fun _ => ended).
Proof.
  unfold dispatch. eapply h_bind; [apply h_get_mig|]. intros m.
  assert (Hfw : mg_phase m <> PhRollback -> mg_phase m <> PhFinalize -> hoare (fun s => going s /\ m = st_mig s)
    (forward ext clock class_path app_env node_gone true) (fun _ => ended) (fun _ => ended)).
  { intros H1 H2. eapply h_pre; [|apply forward_ok]. by intros s [Hs ->]. }
  destruct (mg_phase m) eqn:Hp; try (by apply Hfw); clear Hfw.
  - eapply h_weaken; [apply rollback_ok| |done|done]. intros s [Hs ->]. split; [done|]. split; [|by right].
    unfold gone. by rewrite Hp, (go_running _ Hs).
  - eapply h_weaken; [apply finalize_ok| |done|done]. by intros s [Hs ->].
Qed.

(** ** Every history *)

Lemma safe_put_row r (w : world D) : ro_mig r = ro_mig (w_row w) -> safe w -> safe (put_row r w).
Proof. intros Hr [Hi Hf]. split; [|done]. unfold inv_row. cbn. rewrite Hr. by apply inv_put_row. Qed.
Lemma run_safe n (w : world D) : safe w -> safe (run ext clock class_path app_env node_gone true n w).
Proof.
  intros Hs. unfold run. destruct (negb _ || negb _) eqn:E; [done|]. apply orb_false_iff in E as [E _].
  apply negb_false_iff, bool_decide_eq_true in E. set (s0 := RunSt _ _).
  assert (Hgo : going s0).
  { assert (Hi : inv g (st_world s0) (ro_mig (w_row w))) by (apply inv_calls; [apply Hs|]; by apply inv_put_row; [apply Hs|apply Hs]).
    constructor; [apply Hs|exact Hi|exact Hi| |done]. done. }
  pose proof (dispatch_ok s0 Hgo) as Hd. destruct (dispatch _ _ _ _ _ _ s0) as [s [u|f|]]; [by apply safe_put_row|by apply safe_put_row|done].
Qed.

Lemma safe_relabel m' (w : world D) : labels m' = labels (ro_mig (w_row w)) -> gone (ro_mig (w_row w)) = false \/ gone m' = true ->
  (mg_status m' = MigRunning -> phase_fits g w m') -> status_fits g m' -> safe w -> forall a b c, safe (put_row (MigRow m' a b c) w).
Proof.
  intros Hl Hgo Hp Hst [Hi Hf] a b c. split; [|done]. unfold inv_row. cbn. apply inv_put_row; [done|].
  apply (inv_relabel w (ro_mig (w_row w))); [done| |done|done|exact Hi]. intros H. destruct Hgo as [H'|]; [congruence|done].
Qed.
Lemma cutover_safe (w : world D) : safe w -> safe (ask_cutover w).1.
Proof.
  intros Hs. unfold ask_cutover. destruct (bool_decide _) eqn:E; [|done]. apply bool_decide_eq_true in E. cbn.
  pose proof (in_status _ _ _ (proj1 Hs)) as Hst. unfold status_fits in Hst. rewrite E in Hst. destruct Hst as (Hp & Hsw & Hstop & Hc).
  apply safe_relabel; [done| | |done|done].
  - left. unfold gone. by rewrite E, Hp.
  - intros _. constructor; cbn; try done.
Qed.
Lemma cancel_safe n (w : world D) : safe w -> safe (ask_cancel ext clock node_gone true n w).1.
Proof.
  intros Hs. unfold ask_cancel. destruct (mg_status (ro_mig (w_row w))) eqn:E; try done.
  - destruct (so_stopped _); [done|]. cbn. by apply safe_put_row.
  - cbn [fst]. pose proof (in_status _ _ _ (proj1 Hs)) as Hst. unfold status_fits in Hst. rewrite E in Hst. destruct Hst as (Hp & Hsw & Hstop & Hc).
    set (s0 := RunSt _ _). assert (Hstuck : stuck (g := g) s0 /\ so_stopped (mg_state (st_mig s0)) = false /\ mg_phase (st_mig s0) <> PhFinalize).
    { split; [|split; [done|cbn; congruence]]. apply stuck_start; [apply Hs|apply inv_calls; [apply Hs|apply Hs]|done|]. cbn. unfold gone. by rewrite E, Hp. }
    pose proof (cancel_now_ok (ext := ext) (clock := clock) (node_gone := node_gone) s0 Hstuck) as H. by destruct (MigrationRun.cancel_now _ _ _ _ s0) as [s [u|f|]].
Qed.
Lemma rollback_safe (w : world D) : safe w -> safe (ask_rollback w).1.
Proof.
  intros Hs. unfold ask_rollback. destruct (negb _ && negb _) eqn:E; [done|]. cbn.
  pose proof (proj1 Hs) as Hi. pose proof (in_status _ _ _ Hi) as Hst. unfold status_fits in Hst.
  assert (Hx : gone (ro_mig (w_row w)) = false /\ so_stopped (mg_state (ro_mig (w_row w))) = true).
  { apply andb_false_iff in E as [E|E]; apply negb_false_iff in E.
    - apply bool_decide_eq_true in E. rewrite E in Hst. destruct Hst as [Hsw Hp]. destruct (in_switched _ _ _ Hi Hsw) as [_ Hstop].
      split; [|done]. unfold gone. by rewrite E, bool_decide_eq_false_2.
    - apply andb_true_iff in E as [E Hstop]. apply bool_decide_eq_true in E. rewrite E in Hst. split; [|done]. unfold gone.
      by rewrite E, bool_decide_eq_false_2. }
  destruct Hx as [Hgo Hstop]. unfold put_mig. apply safe_relabel; [done|by left| |done|done].
  intros _. constructor; cbn; try done.
Qed.
Lemma finalizing_safe (w : world D) : mg_status (ro_mig (w_row w)) = MigCutOver -> safe w ->
  safe (put_mig (set_phase PhFinalize (set_status MigRunning (ro_mig (w_row w)))) w).
Proof.
  intros E Hs. pose proof (proj1 Hs) as Hi. pose proof (in_status _ _ _ Hi) as Hst. unfold status_fits in Hst. rewrite E in Hst.
  destruct Hst as [Hsw Hp]. destruct (in_switched _ _ _ Hi Hsw) as [Hc Hstop].
  unfold put_mig. apply safe_relabel; [done|by right| |done|done]. intros _. constructor; cbn; try done.
Qed.
Lemma act_safe (w : world D) a : safe w -> safe (act ext clock class_path app_env node_gone true w a).
Proof.
  intros Hs. destruct a; cbn [act].
  - by apply run_safe.
  - by apply cutover_safe.
  - by apply cancel_safe.
  - by apply rollback_safe.
  - unfold ask_finalize. destruct (bool_decide _) eqn:E; [|done]. apply bool_decide_eq_true in E. by apply finalizing_safe.
  - unfold sweep_due, due. destruct (bool_decide _) eqn:E; [|done]. cbn. destruct (match _ with Some _ => _ | None => _ end); [|done].
    apply bool_decide_eq_true in E. by apply finalizing_safe.
Qed.
Lemma history_safe l (w : world D) : safe w -> safe (history ext clock class_path app_env node_gone true l w).
Proof. revert w. induction l as [|a l IH]; intros w Hs; [done|]. apply IH. by apply act_safe. Qed.
End Run.

(** ** From the start of a migration *)

Section Claims.
Context {D : Type} (g : setting) (ext : nat -> call -> answer D) (clock : nat -> Z).
Context (class_path : N -> string -> string -> option string) (app_env : N -> N -> string -> gmap string string -> list (string * string))
  (node_gone : N -> bool).

(** The rows and the data when [Start] has written the migration *)
Record mig_started (w : world D) : Prop := Started {
  sd_row : exists a manual, w_app w = Some a /\ ap_server a = sg_src_server g /\ ap_cluster a = sg_src_cluster g
    /\ w_row w = start_migration (sg_app g) a (sg_plan g) (sg_tgt_server g) (sg_tgt_cluster g) manual;
  sd_volumes : w_volumes w = sg_volumes g;
  sd_instances : w_instances w = sg_instances g;
  sd_ids : ids_fresh g w;
  sd_volume_data : forall id v, planned_volume g id -> sg_volumes g !! id = Some v -> holds w (volume_from v);
  sd_instance_data : forall id i, moving g id -> sg_instances g !! id = Some i -> holds w (instance_from i) }.

Lemma started_safe (w : world D) : mig_started w -> safe (g := g) w.
Proof.
  intros [(a & manual & Ha & Hs & Hc & Hrow) Hv Hi Hf Hdv Hdi].
  split; [|split; [|done]].
  - unfold inv_row. rewrite Hrow. cbn. constructor.
    + constructor; cbn; try (by constructor).
    + constructor; cbn.
      * exists a. by rewrite Hs, Hc.
      * intros id. rewrite Hv. unfold volume_now. cbn. by destruct (sg_volumes g !! id).
      * intros id i0 Hm H0. exists i0. rewrite Hi. done.
    + constructor; done.
    + done.
    + intros _. by constructor.
    + done.
  - intros id i. rewrite Hi. intros ->. done.
Qed.

(** Where a row points: the data of a volume, of an instance *)
Definition volume_place (v : volume_row) : place := on_disk (vr_server v) (vr_docker v).
Definition instance_place (i : instance_row) : place := on_disk (ir_server i) (ir_volume i).
(** Everything planned is on one side. *)
Definition all_at_source (w : world D) : Prop :=
  (exists a, w_app w = Some a /\ ap_server a = sg_src_server g /\ ap_cluster a = sg_src_cluster g)
  /\ w_volumes w = sg_volumes g
  /\ forall id i0, moving g id -> sg_instances g !! id = Some i0 ->
       exists i, w_instances w !! id = Some i /\ ir_volume i = ir_volume i0 /\ located i = located i0.
Definition all_at_target (w : world D) : Prop :=
  (exists a, w_app w = Some a /\ ap_server a = sg_tgt_server g /\ ap_cluster a = sg_tgt_cluster g)
  /\ (forall id, planned_volume g id -> exists v, w_volumes w !! id = Some v /\ vr_server v = sg_tgt_server g /\ vr_cluster v = sg_tgt_cluster g)
  /\ forall id, moving g id -> exists i, w_instances w !! id = Some i /\ ir_server i = sg_tgt_server g /\ ir_cluster i = sg_tgt_cluster g.

Context {Hg : well_planned g}.
Lemma rows_unswitched (w : world D) m : rows_fit g w m -> switched m = false -> all_at_source w.
Proof.
  intros [(a & Ha & Hl) Hv Hi] Hs. unfold volume_now, instance_now in *. rewrite Hs in *. injection Hl as H1 H2. split_and!.
  - by exists a.
  - apply map_eq. intros id. rewrite Hv. by destruct (sg_volumes g !! id).
  - done.
Qed.
Lemma rows_switched (w : world D) m : rows_fit g w m -> switched m = true -> complete g m -> all_at_target w.
Proof.
  intros [(a & Ha & Hl) Hv Hi] Hs [Hcv Hci]. unfold volume_now, instance_now in *. rewrite Hs in *. injection Hl as H1 H2. split_and!.
  - by exists a.
  - intros id Hp. destruct (wp_volume g Hg id Hp) as (v & H0 & _). destruct (find_volume_state_is m id (Hcv id Hp)) as (vs & Hvs & _).
    eexists. rewrite Hv, H0, Hvs. done.
  - intros id Hm. destruct (wp_instance g Hg id Hm) as (i0 & H0 & _). destruct (Hi id i0 Hm H0) as (i & Hii & _ & Hloc).
    destruct (find_move_state m id) as [ms|] eqn:E.
    + exists i. injection Hloc as -> -> _ _. done.
    + exfalso. destruct (proj1 (list_elem_of_fmap _ _ _) (Hci id Hm)) as (ms & Hid & Hin). unfold find_move_state in E.
      rewrite find_first_none in E. specialize (E ms Hin). apply N.eqb_neq in E. congruence.
Qed.
Lemma gone_switched (w : world D) m : inv g w m -> gone m = true -> switched m = true.
Proof.
  intros Hi [Hp%bool_decide_eq_true|Hs%bool_decide_eq_true]%orb_true_iff; pose proof (in_status _ _ _ Hi) as Hst; unfold status_fits in Hst.
  - destruct (mg_status m) eqn:E; try tauto.
    + pose proof (pf_after _ _ _ (in_phase _ _ _ Hi E)) as Ha. rewrite Hp in Ha. by apply Ha.
    + destruct Hst as [H _]. congruence.
  - by rewrite Hs in Hst.
Qed.

Lemma history_inv {Hext : lawful g ext} l (w : world D) : mig_started w ->
  let w' := history ext clock class_path app_env node_gone true l w in inv g w' (ro_mig (w_row w')).
Proof. intros Hs. by apply history_safe, started_safe. Qed.


(** The copies are what they are copies of. *)
Definition copies_match (w : world D) (source target : place) : Prop := exists d, w_held w !! source = Some d /\ w_held w !! target = Some d.
Lemma same_held_match (w : world D) p q : same_held w p q -> copies_match w p q.
Proof. intros [[d Hd] He]. exists d. split; [done|congruence]. Qed.


End Claims.

(** ** A small migration *)

(** An application with one volume and one instance of its own, moving from node 1 to node 2, while what runs writes the
    number of the call to the volumes at every call *)
Module Small.
Definition volume : volume_row := VolumeRow "vol" 1 1 "t0" "/src" "default" false false.
Definition instance : instance_row := InstanceRow "db" 1 1 "c0" "t0" "default" DbRunning None.
Definition application : app_row := AppRow 1 1 AppRunning false "r0" 1.
Definition plan : mig_plan := MigPlan [PlanVolume 1 true] [PlanDatabase 5 StrategyMove 0 []].
Definition setting0 : setting := Setting 7 1 1 2 1 plan {[1%N := volume]} {[5%N := instance]} ∅.
Definition answers (n : nat) (c : call) : answer nat :=
  Answer true "" "t1" "/tgt" "default" "c1" 0 0 0 false false PollSucceeded 0%nat
    [(on_disk 1 "vol", n); (on_disk 2 "vol", n); (on_disk 1 "db", n); (on_disk 2 "db", n)].
Definition failing (at_call : nat) (n : nat) (c : call) : answer nat :=
  let a := answers n c in
  if (n =? at_call)%nat then Answer false "down" "t1" "/tgt" "default" "c1" 0 0 0 false false PollFailed 0%nat (an_writes a) else a.
Definition world0 : world nat :=
  World (start_migration 7 application plan 2 1 false) (Some application) {[1%N := volume]} {[5%N := instance]} ∅ [] ∅ 100
    (<[on_disk 1 "vol" := 10%nat]> {[on_disk 1 "db" := 20%nat]}) 0 None.
(** Between two calls a lease runs out. *)
Definition ticks (n : nat) : Z := Z.of_nat n * (lease_for + 1).
Definition moves (steady : bool) (ext : nat -> call -> answer nat) (l : list action) : world nat :=
  history ext ticks (fun _ _ _ => None) (fun _ _ _ _ => []) (fun _ => false) steady l world0.

Lemma volume_is id v : sg_volumes setting0 !! id = Some v -> id = 1%N /\ v = volume.
Proof. cbn. by intros [<- <-]%lookup_singleton_Some. Qed.
Lemma instance_is id v : sg_instances setting0 !! id = Some v -> id = 5%N /\ v = instance.
Proof. cbn. by intros [<- <-]%lookup_singleton_Some. Qed.
Lemma planned : well_planned setting0.
Proof.
  constructor.
  - intros id Hp. unfold planned_volume in Hp. cbn in Hp. apply list_elem_of_singleton in Hp as ->. by exists volume.
  - intros id (pd & Hpd & <- & _). apply list_elem_of_singleton in Hpd as ->. by exists instance.
  - by intros i j v v' [-> _]%volume_is [-> _]%volume_is.
  - by intros i j v v' [-> _]%instance_is [-> _]%instance_is.
  - by intros i j v v' [_ ->]%volume_is [_ ->]%instance_is.
  - intros pd d (Hpd & Hst & _). apply list_elem_of_singleton in Hpd as ->. done.
  - intros pd pd' Hpd%list_elem_of_singleton Hpd'%list_elem_of_singleton _. by subst.
  - constructor.
Qed.
Lemma law (f : nat -> call -> answer nat) : (forall n c, an_name (f n c) = "c1") -> lawful setting0 f.
Proof.
  intros Hf. constructor.
  intros n s a o. rewrite Hf. by intros [(id & v & [_ ->]%volume_is & Hn)|(id & v & [_ ->]%instance_is & Hn)].
Qed.
Lemma failing_law k : lawful setting0 (failing k).
Proof. apply law. intros n c. unfold failing. by destruct (n =? k)%nat. Qed.
Lemma start : mig_started setting0 world0.
Proof.
  constructor; try done.
  - by exists application, false.
  - split_and!; [done| |]; intros id [x Hx]; [by apply instance_is in Hx as [-> _]|done].
  - intros id v _ [_ ->]%volume_is. by exists 10%nat.
  - intros id v _ [_ ->]%instance_is. by exists 20%nat.
Qed.
End Small.


(** [fail] (run.go:149) starts the source again and removes the copies before it records that the move failed. Of a worker that
    dies in between, the row still says [switch]: the run that resumes switches to copies that are gone, and cuts over. *)
Example dying_undo_loses_data :
  let w' := Small.moves false (Small.failing 52) [ARun (Some 61%nat); ARun None] in
  mg_status (ro_mig (w_row w')) = MigCutOver /\ vr_server <$> w_volumes w' !! 1%N = Some 2%N /\ w_held w' !! on_disk 2 "vol" = None.
Proof. vm_compute. done. Qed.

(** A move of one logical database into an instance the target has, and what the application's environment names *)
Module Db.
Definition source : instance_row := InstanceRow "db" 1 1 "c0" "t0" "default" DbRunning None.
Definition target : instance_row := InstanceRow "db2" 2 1 "c0" "t0" "default" DbRunning None.
Definition database : database_row := DatabaseRow 5 "main" (Some 7%N) "P" ∅ [] false.
Definition plan : mig_plan := MigPlan [] [PlanDatabase 5 StrategyExistingInstance 6 [PlanLogical 9 "main" "P"]].
Definition world0 : world nat :=
  World (start_migration 7 Small.application plan 2 1 false) (Some Small.application) ∅ {[5%N := source; 6%N := target]}
    {[9%N := database]} [] {["URL" := "source"]} 100 {[in_database 9 := 10%nat]} 0 None.
Definition env_of (instance database : N) (prefix : string) (m : gmap string string) : list (string * string) :=
  [("URL", if (database =? 9)%N then "source" else "target")].
Definition moves (ext : nat -> call -> answer nat) (l : list action) : world nat :=
  history ext Small.ticks (fun _ _ _ => None) env_of (fun _ => false) true l world0.
End Db.
Example rollback_once : let w' := Db.moves Small.answers [ARun None; ARollback; ARun None] in
  mg_status (ro_mig (w_row w')) = MigRolledBack /\ w_env w' !! "URL" = Some "source".
Proof. vm_compute. done. Qed.
(** [switchBack] records that nothing is switched any more before it puts the environment back (rollback.go:117 and 145). When it
    fails in between, the next rollback takes the way of a move that never switched: it ends well, with the application's
    environment naming the copy it has just deleted. *)
Example rollback_again_keeps_target_env : let w' := Db.moves (Small.failing 55) [ARun None; ARollback; ARun None; ARollback; ARun None] in
  mg_status (ro_mig (w_row w')) = MigRolledBack /\ w_env w' !! "URL" = Some "target" /\ map_to_list (dr_instance <$> w_databases w') = [(9%N, 5%N)].
Proof. vm_compute. done. Qed.
