(* ===== verification/MigrationEnds.v ===== *)
(** * Moving an application to another location: a run ends

    A worker that lives through a run, holds the lease and whose writes of the migration's row are taken leaves it in a
    state that is not running, and gives the lease back: whatever else is answered, no run is left for the sweep to find
    for ever. A write that fails is only logged ([save], run.go:184). *)
From S2P Require Import Prelude GoStrings Migration MigrationRun MigrationHistory.
#[local] Open Scope Z_scope.
#[local] Open Scope list_scope.

(** The database takes what the run writes of its own row. *)
Class saves_kept {D} (ext : nat -> call -> answer D) : Prop := saves_taken : forall n, an_ok (ext n CSave) = true.

(** ** A worker that lives *)

Section Alive.
Context {D : Type} {ext : nat -> call -> answer D} {clock : nat -> Z}.
Definition lives (s : run_st D) : Prop := w_left (st_world s) = None.
(** From a state in which the worker lives, with a fact about its migration: it lives on, and [Q] or [E] holds. *)
Definition ends {A} (P : run_st D -> Prop) (c : M D A) (Q : A -> run_st D -> Prop) (E : failure -> run_st D -> Prop) : Prop :=
  forall s, lives s -> P s -> match c s with (s', Done a) => lives s' /\ Q a s' | (s', Failed f) => lives s' /\ E f s' | (_, Crashed) => False end.
Definition alive {A} (c : M D A) : Prop := ends (fun _ => True) c (fun _ _ => True) (fun _ _ => True).

Lemma n_weaken {A} P P' (c : M D A) (Q Q' : A -> run_st D -> Prop) (E E' : failure -> run_st D -> Prop) : ends P c Q E -> (forall s, P' s -> P s) -> (forall a s, Q a s -> Q' a s) ->
  (forall f s, E f s -> E' f s) -> ends P' c Q' E'.
Proof. intros H Hp Hq He s Hl Hs. specialize (H s Hl (Hp s Hs)). destruct (c s) as [s' []]; intuition. Qed.
Lemma n_bind {A B} P (c : M D A) (k : A -> M D B) R Q E : ends P c R E -> (forall a, ends (R a) (k a) Q E) -> ends P (bind c k) Q E.
Proof.
  intros Hc Hk s Hl Hs. unfold bind. specialize (Hc s Hl Hs). destruct (c s) as [s' [a|f|]]; [|done|done]. destruct Hc as [Hl' Hr]. by apply Hk.
Qed.
Lemma n_ret {A} (P : run_st D -> Prop) (a : A) (Q : A -> run_st D -> Prop) E : (forall s, P s -> Q a s) -> ends P (ret a) Q E.
Proof. intros H s Hl Hs. split; [done|]. by apply H. Qed.
Lemma n_throw {A} (P : run_st D -> Prop) f (Q : A -> run_st D -> Prop) (E : failure -> run_st D -> Prop) : (forall s, P s -> E f s) -> ends P (throw f) Q E.
Proof. intros H s Hl Hs. split; [done|]. by apply H. Qed.
Lemma n_attempt {A} P (c : M D A) Q E E' : ends P c Q E -> ends P (attempt c) (fun o s => match o with inr a => Q a s | inl f => E f s end) E'.
Proof. intros H s Hl Hs. unfold attempt. specialize (H s Hl Hs). by destruct (c s) as [s' [a|f|]]. Qed.
Lemma n_any {A} (P : run_st D -> Prop) (c : M D A) : alive c -> ends P c (fun _ _ => True) (fun _ _ => True).
Proof. intros H. eapply n_weaken; [exact H|done|done|done]. Qed.

Lemma a_ret {A} (a : A) : alive (ret a).
Proof. by apply n_ret. Qed.
Lemma a_throw {A} f : alive (throw f : M D A).
Proof. by apply n_throw. Qed.
Lemma a_bind {A B} (c : M D A) (k : A -> M D B) : alive c -> (forall a, alive (k a)) -> alive (bind c k).
Proof. intros Hc Hk. eapply n_bind; [exact Hc|]. intros a. apply Hk. Qed.
Lemma a_attempt {A} (c : M D A) : alive c -> alive (attempt c).
Proof. intros H s Hl _. unfold attempt. specialize (H s Hl I). by destruct (c s) as [s' [a|f|]]. Qed.
Lemma a_for_each {A} (l : list A) (f : A -> M D unit) : (forall x, alive (f x)) -> alive (for_each l f).
Proof. intros H. induction l as [|x l IH]; [by apply a_ret|]. cbn. by apply a_bind. Qed.
Lemma a_get_world : alive get_world.
Proof. by intros s Hl _. Qed.
Lemma a_get_mig : alive get_mig.
Proof. by intros s Hl _. Qed.
Lemma a_change_world f : (forall w : world D, w_left (f w) = w_left w) -> alive (change_world f).
Proof. intros H s Hl _. split; [|done]. unfold lives in *. cbn. by rewrite H. Qed.
Lemma a_change_mig f : alive (change_mig f).
Proof. by intros s Hl _. Qed.
Lemma left_effect c a (w : world D) : w_left (effect c a w) = w_left w.
Proof.
  unfold effect. destruct c; try done; repeat (case_match; try done; unfold hold_if_absent, copy_held in *; cbn; try done); case_match; done.
Qed.
Lemma a_ask c : alive (ask ext c).
Proof.
  intros s Hl _. unfold ask. unfold lives in Hl. rewrite Hl. split; [|done]. unfold lives. cbn. by rewrite left_effect.
Qed.
Lemma a_must c : alive (must ext c).
Proof. apply a_bind; [apply a_ask|]. intros a. destruct (an_ok a); [apply a_ret|apply a_throw]. Qed.
Lemma a_best c : alive (best ext c).
Proof. apply a_bind; [apply a_ask|]. intros a. apply a_ret. Qed.
Lemma a_now : alive (now clock).
Proof. apply a_bind; [apply a_get_world|intros; apply a_ret]. Qed.
End Alive.
Ltac living_step :=
  lazymatch goal with
  | |- alive (ret _) => apply a_ret
  | |- alive (throw _) => apply a_throw
  | |- alive (fail_with _) => apply a_throw
  | |- alive (ask _ _) => apply a_ask
  | |- alive (must _ _) => apply a_must
  | |- alive (best _ _) => apply a_best
  | |- alive (now _) => apply a_now
  | |- alive (attempt _) => apply a_attempt
  | |- alive get_world => apply a_get_world
  | |- alive get_mig => apply a_get_mig
  | |- alive (change_world _) => apply a_change_world; done
  | |- alive (change_mig _) => apply a_change_mig
  | |- alive (for_each _ _) => apply a_for_each; intros ?
  | |- alive (bind _ _) => apply a_bind; [|intros ?]
  | |- alive (when ?b _) => unfold when
  | |- alive (if ?b then _ else _) => destruct b
  | |- alive (match ?x with _ => _ end) => destruct x
  end.
Ltac living := repeat living_step.

Section Ends.
Context {D : Type} {ext : nat -> call -> answer D} {clock : nat -> Z}.
Context {class_path : N -> string -> string -> option string} {app_env : N -> N -> string -> gmap string string -> list (string * string)}
  {node_gone : N -> bool} {steady : bool}.

(** ** Every part of a run lets its worker live *)

Lemma a_save : alive (save ext (D := D)).
Proof. unfold save. living. Qed.
Lemma a_the_app : alive (the_app ext (D := D)).
Proof. unfold the_app. living. Qed.
Lemma a_find_instance id : alive (find_instance ext (D := D) id).
Proof. unfold find_instance. living. Qed.
Lemma a_find_database id : alive (find_database ext (D := D) id).
Proof. unfold find_database. living. Qed.
Lemma a_find_volume id : alive (find_volume ext (D := D) id).
Proof. unfold find_volume. living. Qed.
Lemma a_update_instance id i : alive (update_instance ext (D := D) id i).
Proof. unfold update_instance. living. Qed.
Lemma a_cancel_requested : alive (cancel_requested ext (D := D)).
Proof. unfold cancel_requested. living. Qed.
Lemma a_stop_for_move id i : alive (stop_for_move ext (D := D) id i).
Proof. unfold stop_for_move. living. apply a_update_instance. Qed.
Lemma a_start_stopped id i : alive (start_stopped ext (D := D) id i).
Proof. unfold start_stopped, bring_up_moved. living. apply a_update_instance. Qed.
Lemma a_drop_volume_copy s v c : alive (drop_volume_copy ext (D := D) s v c).
Proof. unfold drop_volume_copy. living. Qed.
Lemma a_drop_instance_copy s c v k : alive (drop_instance_copy ext (D := D) s c v k).
Proof. unfold drop_instance_copy. living. apply a_drop_volume_copy. Qed.
Lemma a_stop_instance id i : alive (stop_instance ext node_gone (D := D) id i).
Proof. unfold stop_instance. living; apply a_update_instance. Qed.
Lemma a_delete_instance id i : alive (delete_instance ext node_gone (D := D) id i).
Proof. unfold delete_instance. living. Qed.
Lemma a_delete_database id : alive (delete_database ext (D := D) id).
Proof. unfold delete_database. living; [apply a_find_database|apply a_find_instance]. Qed.
Lemma a_inject i d p : alive (inject ext app_env (D := D) i d p).
Proof. unfold inject. living; [apply a_find_instance|apply a_find_database]. Qed.
Lemma a_transaction f m : (forall w w' : world D, f w = Some w' -> w_left w' = w_left w) -> alive (transaction ext f m).
Proof.
  intros Hf. unfold transaction. apply a_bind; [apply a_must|]. intros _ s Hl _. unfold bind, get_world. cbn.
  destruct (f (st_world s)) as [w'|] eqn:E; [|done]. cbn. split; [|done]. unfold lives in *. cbn. by rewrite (Hf _ _ E).
Qed.
Lemma a_await_instance n id : alive (await_instance ext (D := D) n id).
Proof. induction n as [|n IH]; [apply a_throw|]. cbn [await_instance]. living; done. Qed.
Lemma a_await_deployment n id : alive (await_deployment ext (D := D) n id).
Proof. induction n as [|n IH]; [apply a_throw|]. cbn [await_deployment]. living; done. Qed.
Lemma a_relocate_deploy a : alive (relocate_deploy ext (D := D) a).
Proof. unfold relocate_deploy. living. Qed.
Lemma a_remove_runtime a c s b : alive (remove_runtime ext (D := D) a c s b).
Proof. unfold remove_runtime. living. Qed.

Lemma a_prepare : alive (prepare ext class_path (D := D)).
Proof.
  unfold prepare, prepare_volume, prepare_database, prepare_volume_move, prepare_instance_move, provision_target, pre_pull. living;
    first [apply a_the_app|apply a_find_volume|apply a_find_instance|apply a_save|apply a_await_instance].
Qed.
Lemma a_sync_one b j : alive (sync_one ext (D := D) b j).
Proof. unfold sync_one. living; apply a_save. Qed.
Lemma a_stop : alive (stop ext clock (D := D)).
Proof. unfold stop. living; first [apply a_the_app|apply a_save|apply a_find_instance|apply a_stop_for_move]. Qed.
Lemma a_restore_one n r : alive (restore_one ext (D := D) n r).
Proof. unfold restore_one, update_restore. living; first [apply a_find_instance|apply a_find_database|apply a_save]. Qed.
Lemma a_final_sync : alive (final_sync ext (D := D)).
Proof. unfold final_sync, restore_at. living; first [apply a_sync_one|apply a_restore_one|apply a_save]. Qed.
Lemma switch_rows_left m (w w' : world D) : switch_rows m w = Some w' -> w_left w' = w_left w.
Proof. unfold switch_rows. destruct (foldl _ _ _); [|done]. by intros [= <-]. Qed.
Lemma back_rows_left m (w w' : world D) : back_rows m w = Some w' -> w_left w' = w_left w.
Proof. unfold back_rows. destruct (foldl _ _ _); [|done]. by intros [= <-]. Qed.
Lemma a_switch_over : alive (switch_over ext app_env (D := D)).
Proof.
  unfold switch_over, bring_up_moved. living; first [apply a_transaction, switch_rows_left|apply a_find_instance|apply a_the_app|apply a_inject].
Qed.
Lemma a_verify : alive (verify ext (D := D)).
Proof. unfold verify. living; first [apply a_the_app|apply a_relocate_deploy|apply a_save|apply a_await_deployment]. Qed.
Lemma a_reroute : alive (reroute ext (D := D)).
Proof. unfold reroute. living. apply a_the_app. Qed.

Lemma a_restart_source : alive (restart_source ext (D := D)).
Proof. unfold restart_source. living; first [apply a_find_instance|apply a_start_stopped|apply a_the_app]. Qed.
Lemma a_drop_created id : alive (drop_created ext node_gone (D := D) id).
Proof. unfold drop_created. living; first [apply a_find_instance|apply a_stop_instance|apply a_delete_instance]. Qed.
Lemma a_cleanup_target : alive (cleanup_target ext node_gone (D := D)).
Proof.
  unfold cleanup_target. living; first [apply a_drop_volume_copy|apply a_drop_instance_copy|apply a_delete_database|apply a_drop_created].
Qed.
Lemma a_stop_targets l acc : alive (stop_targets ext (D := D) l acc).
Proof. revert acc. induction l as [|ms l IH]; intros acc; [apply a_ret|]. cbn [stop_targets]. living; first [apply IH|apply a_find_instance|apply a_stop_for_move]. Qed.
Lemma a_switch_back : alive (switch_back ext app_env (D := D)).
Proof.
  unfold switch_back. living; first [apply a_the_app|apply a_remove_runtime|apply a_stop_targets|apply a_transaction, back_rows_left
    |apply a_find_instance|apply a_start_stopped|apply a_inject|apply a_relocate_deploy|apply a_await_deployment].
Qed.
Lemma a_drop_sources rs emptied : alive (drop_sources ext (D := D) rs emptied).
Proof. revert emptied. induction rs as [|r rs IH]; intros e; [apply a_ret|]. cbn [drop_sources]. living; first [apply IH|apply a_delete_database]. Qed.
Lemma a_drop_emptied app id : alive (drop_emptied ext node_gone (D := D) app id).
Proof. unfold drop_emptied. living; first [apply a_find_instance|apply a_stop_instance|apply a_delete_instance]. Qed.

(** ** The state a run leaves *)

(** What the row says and what the worker holds *)
Definition settled (s : run_st D) : Prop := mg_status (ro_mig (w_row (st_world s))) <> MigRunning /\ mg_status (st_mig s) <> MigRunning.
Definition settles (c : M D unit) : Prop := ends (fun _ => True) c (fun _ => settled) (fun _ => settled).

Context {Hsaves : saves_kept ext}.
Lemma n_save (E : failure -> run_st D -> Prop) : ends (fun s => mg_status (st_mig s) <> MigRunning) (save ext) (fun _ => settled) E.
Proof.
  intros s Hl Hs. unfold lives in Hl. unfold save, bind, ask, get_mig. rewrite Hl. cbn [effect st_world st_mig]. by rewrite (saves_taken (ext := ext)).
Qed.
Lemma settles_bind {A} (c : M D A) (k : A -> M D unit) : ends (fun _ => True) c (fun _ _ => True) (fun _ => settled) -> (forall a, settles (k a)) -> settles (bind c k).
Proof. intros Hc Hk. eapply n_bind; [exact Hc|]. intros a. apply Hk. Qed.
Lemma settles_change f : (forall m, mg_status (f m) <> MigRunning) -> settles (change_mig f ;;; save ext).
Proof. intros Hf. eapply n_bind; [|intros ?; apply n_save]. intros s Hl _. split; [done|apply Hf]. Qed.
Lemma settles_now (f : Z -> migration -> migration) : (forall t m, mg_status (f t m) <> MigRunning) ->
  settles (t <-- now clock; change_mig (f t) ;;; save ext).
Proof.
  intros Hf. apply settles_bind; [|intros t; by apply settles_change]. intros s Hl _. done.
Qed.
(** An answer looked at never fails, so what follows it decides. *)
Lemma settles_attempt {A} (c : M D A) (k : failure + A -> M D unit) : alive c -> (forall o, settles (k o)) -> settles (bind (attempt c) k).
Proof.
  intros Hc Hk. apply settles_bind; [|exact Hk]. intros s Hl _. unfold attempt. specialize (Hc s Hl I). by destruct (c s) as [s' [a|f|]]; destruct Hc.
Qed.

(** ** Code that never fails *)

Definition steadfast {A} (c : M D A) : Prop := ends (fun _ => True) c (fun _ _ => True) (fun _ _ => False).
Lemma t_ret {A} (a : A) : steadfast (ret a).
Proof. by apply n_ret. Qed.
Lemma t_bind {A B} (c : M D A) (k : A -> M D B) : steadfast c -> (forall a, steadfast (k a)) -> steadfast (bind c k).
Proof. intros Hc Hk. eapply n_bind; [exact Hc|]. intros a. apply Hk. Qed.
Lemma t_ask c : steadfast (ask ext c).
Proof. intros s Hl H. unfold ask. unfold lives in Hl. rewrite Hl. split; [|done]. unfold lives. cbn. by rewrite left_effect. Qed.
Lemma t_best c : steadfast (best ext c).
Proof. apply t_bind; [apply t_ask|intros; apply t_ret]. Qed.
Lemma t_attempt {A} (c : M D A) : alive c -> steadfast (attempt c).
Proof. intros Hc s Hl _. unfold attempt. specialize (Hc s Hl I). by destruct (c s) as [s' [a|f|]]; destruct Hc. Qed.
Lemma t_for_each {A} (l : list A) (f : A -> M D unit) : (forall x, steadfast (f x)) -> steadfast (for_each l f).
Proof. intros H. induction l as [|x l IH]; [by apply t_ret|]. cbn. by apply t_bind. Qed.
Lemma t_get_world : steadfast get_world.
Proof. by intros s Hl _. Qed.
Lemma t_get_mig : steadfast get_mig.
Proof. by intros s Hl _. Qed.
Lemma t_change_mig f : steadfast (change_mig f).
Proof. by intros s Hl _. Qed.
Lemma t_save : steadfast (save ext).
Proof.
  unfold save. apply t_bind; [apply t_ask|]. intros a. destruct (an_ok a); [|apply t_ret].
  apply t_bind; [apply t_get_mig|]. intros m s Hl _. done.
Qed.
Lemma settles_after {A} (c : M D A) (k : A -> M D unit) : steadfast c -> (forall a, settles (k a)) -> settles (bind c k).
Proof. intros Hc Hk. apply settles_bind; [|exact Hk]. eapply n_weaken; [exact Hc|done|done|done]. Qed.
End Ends.
Ltac lasting_step :=
  lazymatch goal with
  | |- steadfast (ret _) => apply t_ret
  | |- steadfast (ask _ _) => apply t_ask
  | |- steadfast (best _ _) => apply t_best
  | |- steadfast (save _) => apply t_save
  | |- steadfast (attempt _) => apply t_attempt
  | |- steadfast get_world => apply t_get_world
  | |- steadfast get_mig => apply t_get_mig
  | |- steadfast (change_mig _) => apply t_change_mig
  | |- steadfast (for_each _ _) => apply t_for_each; intros ?
  | |- steadfast (bind _ _) => apply t_bind; [|intros ?]
  | |- steadfast (when ?b _) => unfold when
  | |- steadfast (if ?b then _ else _) => destruct b
  | |- steadfast (match ?x with _ => _ end) => destruct x
  end.
Ltac lasting := repeat lasting_step.

Section Runs.
Context {D : Type} {ext : nat -> call -> answer D} {clock : nat -> Z}.
Context {class_path : N -> string -> string -> option string} {app_env : N -> N -> string -> gmap string string -> list (string * string)}
  {node_gone : N -> bool} {steady : bool} {Hsaves : saves_kept ext}.
#[local] Abbreviation settles := (@settles D).
#[local] Abbreviation steadfast := (@steadfast D _).

Lemma t_restart_source : steadfast (restart_source ext).
Proof. unfold restart_source. lasting; first [apply a_find_instance|apply a_start_stopped|apply a_the_app]. Qed.
Lemma t_drop_volume_copy s v c : steadfast (drop_volume_copy ext s v c).
Proof. unfold drop_volume_copy. lasting. Qed.
Lemma t_cleanup_target : steadfast (cleanup_target ext node_gone).
Proof.
  unfold cleanup_target, drop_instance_copy, drop_created. lasting; first [apply t_drop_volume_copy|apply a_delete_database|apply a_find_instance
    |apply a_stop_instance|apply a_delete_instance].
Qed.
Lemma settles_whole c : settles c -> settles (whole steady c).
Proof.
  intros Hc. unfold whole. destruct steady; [|done]. intros s Hl _. unfold bind, get_world, get_mig, change_world, attempt. cbn.
  specialize (Hc (RunSt (with_calls (w_calls (st_world s)) None (st_world s)) (st_mig s)) eq_refl I).
  destruct (c _) as [s1 [u|f|]]; [|destruct Hc as [_ [_ Hc]]; done|done]. destruct Hc as [_ [_ Hc]]. done.
Qed.
Lemma settles_rollback cause : settles (rollback ext clock app_env node_gone cause).
Proof.
  unfold rollback. apply settles_after; [apply t_change_mig|]. intros ?. apply settles_after; [apply t_save|]. intros ?.
  apply settles_after; [apply t_get_mig|]. intros m. cbn zeta.
  assert (Hf : settles (cleanup_target ext node_gone ;;; t <-- now clock;
    change_mig (fun m => finish MigRolledBack t (match cause with Some _ => cause | None => mg_error m end) false m) ;;; save ext)).
  { apply settles_after; [apply t_cleanup_target|]. intros ?. by apply settles_now. }
  destruct (so_switched _).
  - apply settles_attempt; [apply a_switch_back|]. intros [f|u]; [|exact Hf]. by apply settles_now.
  - apply settles_after; [|done]. destruct (so_stopped _); [apply t_restart_source|apply t_ret].
Qed.
Lemma settles_fail why : settles (fail_move ext clock app_env node_gone steady why).
Proof.
  unfold fail_move. apply settles_after; [apply t_get_mig|]. intros m. destruct (so_switched _); [apply settles_rollback|]. apply settles_whole.
  apply settles_after; [destruct (so_stopped _); [apply t_restart_source|apply t_ret]|]. intros ?.
  apply settles_after; [apply t_cleanup_target|]. intros ?. by apply settles_now.
Qed.
Lemma settles_cancel : settles (cancel_now ext clock node_gone steady).
Proof. unfold cancel_now. apply settles_whole. apply settles_after; [apply t_cleanup_target|]. intros ?. by apply settles_now. Qed.
Lemma settles_finalize : settles (finalize ext clock node_gone).
Proof.
  unfold finalize. apply settles_after; [apply t_get_mig|]. intros m. apply settles_attempt; [apply a_the_app|]. intros o.
  apply settles_after; [unfold remove_runtime; lasting|]. intros ?.
  apply settles_after; [lasting; apply t_drop_volume_copy|]. intros ?.
  apply settles_after; [unfold drop_instance_copy; lasting; apply t_drop_volume_copy|]. intros ?.
  apply settles_after.
  { generalize (@nil N). induction (so_restores (mg_state m)) as [|r rs IH]; intros e; [apply t_ret|]. cbn [drop_sources].
    lasting; first [apply IH|apply a_delete_database]. }
  intros e. apply settles_after; [unfold drop_emptied; lasting; first [apply a_find_instance|apply a_stop_instance|apply a_delete_instance]|].
  intros ?. by apply settles_now.
Qed.

(** ** Who waits for a cutover has said so *)

Definition waits_settled {A} (c : M D A) : Prop := ends (fun _ => True) c (fun _ _ => True) (fun f s => f = FAwaiting -> settled s).
Definition unwaiting {A} (c : M D A) : Prop := ends (fun _ => True) c (fun _ _ => True) (fun f _ => f <> FAwaiting).
Lemma u_errs {A} (c : M D A) : alive c -> errs c any -> unwaiting c.
Proof.
  intros Ha He s Hl _. specialize (Ha s Hl I). specialize (He s). destruct (c s) as [s' [a|f|]]; [done| |done].
  destruct He as [e ->], Ha as [Hl' _]. done.
Qed.
Lemma u_bind {A B} (c : M D A) (k : A -> M D B) : unwaiting c -> (forall a, unwaiting (k a)) -> unwaiting (bind c k).
Proof. intros Hc Hk. eapply n_bind; [exact Hc|]. intros a. apply Hk. Qed.
Lemma u_waits {A} (c : M D A) : unwaiting c -> waits_settled c.
Proof. intros H. by eapply n_weaken. Qed.
Lemma t_unwaiting {A} (c : M D A) : steadfast c -> unwaiting c.
Proof. intros H. by eapply n_weaken. Qed.
Lemma t_cancel_requested : steadfast (cancel_requested ext).
Proof. unfold cancel_requested. lasting. Qed.
Lemma u_sync_pass jobs delta : unwaiting (sync_pass ext jobs delta).
Proof.
  revert delta. induction jobs as [|j jobs IH]; intros delta; [apply t_unwaiting, t_ret|]. cbn [sync_pass].
  apply u_bind; [apply t_unwaiting, t_cancel_requested|]. intros [|]; [by apply n_throw|].
  apply u_bind; [apply u_errs; [apply a_sync_one|unfold sync_one, save; erring]|]. intros n. apply IH.
Qed.
Lemma u_presync_passes n pass prev jobs : unwaiting (presync_passes ext n pass prev jobs).
Proof.
  revert pass prev. induction n as [|n IH]; intros pass prev; [apply t_unwaiting, t_ret|]. cbn [presync_passes].
  apply u_bind; [apply u_sync_pass|]. intros delta. apply u_bind; [apply t_unwaiting, t_save|]. intros ?.
  match goal with |- unwaiting (if ?b then _ else _) => destruct b end; [apply t_unwaiting, t_ret|apply IH].
Qed.
Lemma w_bind {A B} (c : M D A) (k : A -> M D B) : unwaiting c -> (forall a, waits_settled (k a)) -> waits_settled (bind c k).
Proof. intros Hc Hk. eapply n_bind; [apply u_waits, Hc|]. intros a. apply Hk. Qed.
Lemma w_presync : waits_settled (presync ext).
Proof.
  unfold presync. apply w_bind; [apply t_unwaiting, t_get_mig|]. intros m. apply w_bind; [apply t_unwaiting, t_ask|]. intros a.
  apply w_bind; [apply t_unwaiting, t_get_world|]. intros w. apply w_bind.
  { destruct (copy_jobs m); [apply t_unwaiting, t_ret|apply u_presync_passes]. }
  intros ?. destruct (mg_manual m && _); [|apply u_waits, t_unwaiting, t_ret].
  eapply (n_bind _ _ _ (fun _ s => mg_status (st_mig s) <> MigRunning)); [intros s Hl _; split; [done|]; cbn; discriminate|]. intros ?.
  eapply n_bind; [apply n_save|]. intros ?. by apply n_throw.
Qed.
Lemma e_prepare : errs (prepare ext class_path (D := D)) any.
Proof.
  unfold prepare, prepare_volume, prepare_database, prepare_volume_move, prepare_instance_move, provision_target, pre_pull, the_app, save, when, best,
    find_volume, find_instance. erring.
  - apply e_await_instance.
  - apply e_await_instance.
Qed.

Lemma settles_steps l : (forall p c, (p, c) ∈ l -> alive c /\ waits_settled c) ->
  settles (run_steps ext clock app_env node_gone steady l).
Proof.
  induction l as [|[p c] l IH]; intros Hl; cbn [run_steps].
  - unfold cut_over. apply settles_now. done.
  - destruct (Hl p c ltac:(by left)) as [Ha Hw].
    apply settles_after; [apply t_cancel_requested|]. intros b. apply settles_after; [apply t_get_mig|]. intros m.
    destruct (b && _); [apply settles_cancel|]. apply settles_after; [apply t_change_mig|]. intros ?. apply settles_after; [apply t_save|]. intros ?.
    eapply (n_bind _ _ _ (fun o s => match o with inl FAwaiting => settled s | _ => True end)).
    { eapply n_weaken; [eapply (n_attempt _ _ _ _ (fun _ => settled)), Hw|done| |done]. intros [[| |]|u] s H; try done. by apply H. }
    intros [[| |why]|u].
    + by apply n_ret.
    + eapply n_weaken; [apply settles_cancel|done|done|done].
    + eapply n_weaken; [apply settles_fail|done|done|done].
    + eapply n_weaken; [apply IH; intros p' c' Hin; apply (Hl p'); by right|done|done|done].
Qed.
Lemma step_settles p c : (p, c) ∈ steps ext clock class_path app_env -> alive c /\ waits_settled c.
Proof.
  intros Hin. assert (G : forall c' : M D unit, alive c' -> errs c' any -> alive c' /\ waits_settled c') by (intros c' H1 H2; split; [done|by apply u_waits, u_errs]).
  unfold steps in Hin. repeat (apply elem_of_cons in Hin as [[= -> ->]|Hin]).
  - apply G; [apply a_prepare|apply e_prepare].
  - split; [|apply w_presync]. eapply n_weaken; [apply w_presync|done|done|done].
  - apply G; [apply a_stop|apply e_stop].
  - apply G; [apply a_final_sync|apply e_final_sync].
  - apply G; [apply a_switch_over|apply e_switch_over].
  - apply G; [apply a_verify|apply e_verify].
  - apply G; [apply a_reroute|apply e_reroute].
  - by apply elem_of_nil in Hin.
Qed.
Lemma from_phase_sub p (l : list (mig_phase * M D unit)) x : x ∈ from_phase p l -> x ∈ l.
Proof. induction l as [|y l IH]; [done|]. cbn. case_bool_decide; [done|]. intros Hx. right. by apply IH. Qed.
Lemma settles_forward : settles (forward ext clock class_path app_env node_gone steady).
Proof.
  unfold forward. apply settles_after; [apply t_get_mig|]. intros m. apply settles_steps. intros p c Hin.
  apply (step_settles p). unfold steps_from in Hin. destruct (from_phase (mg_phase m) _) as [|x l] eqn:E; [done|].
  apply (from_phase_sub (mg_phase m)). by rewrite E.
Qed.
Lemma settles_dispatch : settles (dispatch ext clock class_path app_env node_gone steady).
Proof.
  unfold dispatch. apply settles_after; [apply t_get_mig|]. intros m.
  destruct (mg_phase m); try apply settles_forward; [apply settles_rollback|apply settles_finalize].
Qed.
End Runs.

(** Nothing runs the migration, and nobody holds it. *)
Definition at_rest {D} (w : world D) : Prop := mg_status (ro_mig (w_row w)) <> MigRunning /\ ro_lease (w_row w) = None.

(** The calls that fail are those to one of the engines. *)
Definition engine_down (n : nat) (c : call) : answer nat :=
  match c with CCreateVolume _ _ => Small.failing n n c | _ => Small.answers n c end.
(** A write that is lost is only logged: the run that could not record how it ended leaves the migration running, without a lease,
    and the next one starts again where the row says. *)
Example lost_write_leaves_running : let w' := Small.moves false (fun n c => match c with CSave => Small.failing n n c | _ => Small.answers n c end) [ARun None] in
  mg_status (ro_mig (w_row w')) = MigRunning /\ ro_lease (w_row w') = None.
Proof. vm_compute. done. Qed.
