(* ===== verification/MigrationPlan.v ===== *)
(** * Moving an application to another location: the plan

    [internal/services/locationmigration/planner.go]: what a move would do and what stands in its way, computed from the
    rows of the workspace; and [Start] of [service.go], which plans again and writes the migration a run executes. With
    the queries of [services/storage] and [services/database/relocate.go] and the comparison of database versions. The
    location and node come from [Placement]. An issue is its code and its resource; messages are left out. Generated
    URLs, storage classes and the nodes' architectures are arguments. *)
From S2P Require Import Prelude GoStrings Quota Placement Migration MigrationRun MigrationInv MigrationHistory.
#[local] Open Scope Z_scope.
#[local] Open Scope list_scope.
#[local] Open Scope go_scope.

(** ** The rows *)

Definition engine_redis : string := "redis".
Definition engine_libsql : string := "libsql".
Definition engine_logical (e : string) : bool := existsb (String.eqb e) ["postgres"; "mysql"; "mariadb"; "mongodb"].
Definition meta_managed : string := "miabi.io/managed-by".
Definition meta_owner_kind : string := "miabi.io/owner-kind".
Definition meta_owner_id : string := "miabi.io/owner-id".
Definition owner_app : string := "app".

(** [models.AppMount] and [models.AppEnvVar], as far as the planner reads them *)
Record move_mount := MoveMount { mm_volume : N; mm_config : N; mm_path : string; mm_host_path : string; mm_preset : string }.
Record env_var := EnvVar { ev_value : string; ev_secret : bool }.
(** [models.Application]: what a run reads of it, and what the planner reads besides *)
Record move_app := MoveApp {
  ma_id : N; ma_workspace : N; ma_name : string; ma_alias : string; ma_row : app_row; ma_deployed : option N; ma_canary : option N;
  ma_stack : option N; ma_gpus : Z; ma_meta : gmap string string; ma_mounts : list move_mount; ma_env : list env_var }.
(** [models.Volume] *)
Record move_volume := MoveVolume {
  mv_id : N; mv_workspace : N; mv_name : string; mv_docker : string; mv_server : N; mv_cluster : N; mv_created : string;
  mv_mount : string; mv_driver : string; mv_rwx : bool; mv_used : Z; mv_class : string }.
(** [models.DatabaseInstance], [models.Database], [models.DatabaseInstanceLink] *)
Record move_instance := MoveInstance {
  mi_id : N; mi_workspace : N; mi_name : string; mi_engine : string; mi_version : string; mi_host : string;
  mi_meta : gmap string string; mi_row : instance_row }.
Record move_db := MoveDb { mb_id : N; mb_row : database_row }.

Definition driver_host : string := "host".
Definition driver_shared (d : string) : bool := String.eqb d "nfs" || String.eqb d "cifs".
Definition row_of_volume (v : move_volume) : volume_row :=
  VolumeRow (mv_docker v) (mv_server v) (mv_cluster v) (mv_created v) (mv_mount v) (mv_class v) (driver_shared (mv_driver v))
    (String.eqb (mv_driver v) driver_host).

(** [strconv.ParseUint] in base 10, its error ignored: nothing of a text that is no number, the largest of one too long *)
Definition max_uint64 : N := (2 ^ 64 - 1)%N.
Fixpoint parse_uint_loop (n : N) (s : string) : N :=
  match s with
  | EmptyString => n
  | String c s =>
      if is_digit c then
        if (max_uint64 / 10 + 1 <=? n)%N then max_uint64
        else let n' := (n * 10 + Z.to_N (byte_code c - 48))%N in if (max_uint64 <? n')%N then max_uint64 else parse_uint_loop n' s
      else 0%N
  end.
Definition parse_uint (s : string) : N := parse_uint_loop 0 s.
(** [models.Owner]: kind and id *)
Definition meta_owner (m : gmap string string) : option (string * N) :=
  let kind := default "" (m !! meta_owner_kind) in
  if String.eqb kind "" then None else Some (kind, parse_uint (default "" (m !! meta_owner_id))).

(** [versionComponents] and [cmpVersion] *)
Fixpoint numbers_of (l : list string) : list Z :=
  match l with
  | [] => []
  | p :: l => match atoi (trim_space p) with Some n => n :: numbers_of l | None => [] end
  end.
Definition version_components (v : string) : list Z :=
  let v := trim_space v in
  if String.eqb v "" then [] else numbers_of (split "." (cut "-" v).1.1).
Fixpoint cmp_at (a b : list Z) (l : list nat) : Z :=
  match l with
  | [] => 0
  | i :: l => let x := nth i a 0 in let y := nth i b 0 in if x =? y then cmp_at a b l else if x <? y then -1 else 1
  end.
Definition cmp_components (a b : list Z) : Z := cmp_at a b (seq 0 (length a `max` length b)).
Definition cmp_version (a b : string) : Z := cmp_components (version_components a) (version_components b).
(** [database.CanRestoreInto] *)
Definition can_restore_into (src dst : move_instance) : bool :=
  String.eqb (mi_engine src) (mi_engine dst) && negb (0 <? cmp_version (mi_version src) (mi_version dst)).

(** ** The plan *)

Record issue := Issue { is_code : string; is_resource : string }.
#[export] Instance issue_eq_dec : EqDecision issue.
Proof. solve_decision. Defined.
(** [MigrationVolume] and [MigrationDBItem]; an item nothing can be done about has no strategy. *)
Record volume_item := VolumeItem { vi_volume : N; vi_name : string; vi_driver : string; vi_copy : bool; vi_used : Z; vi_class : string }.
Record database_item := DatabaseItem {
  di_instance : N; di_name : string; di_engine : string; di_version : string; di_exclusive : bool; di_strategies : list db_strategy;
  di_strategy : option db_strategy; di_target : N; di_databases : list plan_logical }.
Record draft := Draft {
  df_location : string; df_label : string; df_cluster : N; df_server : N; df_service : bool; df_volumes : list volume_item;
  df_databases : list database_item; df_blockers : list issue; df_warnings : list issue; df_bytes : Z; df_urls : list string;
  df_domains : list string }.

(** [block], [warn], and the appends to the plan *)
Definition block (code resource : string) (d : draft) : draft :=
  Draft (df_location d) (df_label d) (df_cluster d) (df_server d) (df_service d) (df_volumes d) (df_databases d)
    (df_blockers d ++ [Issue code resource]) (df_warnings d) (df_bytes d) (df_urls d) (df_domains d).
Definition warn (code resource : string) (d : draft) : draft :=
  Draft (df_location d) (df_label d) (df_cluster d) (df_server d) (df_service d) (df_volumes d) (df_databases d)
    (df_blockers d) (df_warnings d ++ [Issue code resource]) (df_bytes d) (df_urls d) (df_domains d).
Definition block_if (b : bool) (code resource : string) (d : draft) : draft := if b then block code resource d else d.
Definition warn_if (b : bool) (code resource : string) (d : draft) : draft := if b then warn code resource d else d.
Definition add_volume (v : volume_item) (d : draft) : draft :=
  Draft (df_location d) (df_label d) (df_cluster d) (df_server d) (df_service d) (df_volumes d ++ [v]) (df_databases d)
    (df_blockers d) (df_warnings d) (df_bytes d) (df_urls d) (df_domains d).
Definition add_bytes (n : Z) (d : draft) : draft :=
  Draft (df_location d) (df_label d) (df_cluster d) (df_server d) (df_service d) (df_volumes d) (df_databases d)
    (df_blockers d) (df_warnings d) (wrap64 (df_bytes d + n)) (df_urls d) (df_domains d).
Definition add_database (i : database_item) (d : draft) : draft :=
  Draft (df_location d) (df_label d) (df_cluster d) (df_server d) (df_service d) (df_volumes d) (df_databases d ++ [i])
    (df_blockers d) (df_warnings d) (df_bytes d) (df_urls d) (df_domains d).
Definition set_routing (urls domains : list string) (d : draft) : draft :=
  Draft (df_location d) (df_label d) (df_cluster d) (df_server d) (df_service d) (df_volumes d) (df_databases d)
    (df_blockers d) (df_warnings d) (df_bytes d) urls domains.

(** ** What the planner reads *)

(** [PlanDatabases] and [PlanLinks] are asked for the same instance more than once. *)
Inductive plan_site := SiteDependencies | SiteExclusive | SiteTarget.
Inductive plan_query :=
| PlanApp | PlanApps | PlanInstances | PlanVolume_ (id : N) | PlanConsumers (id : N) | PlanDatabases (s : plan_site) (id : N)
| PlanLinks (s : plan_site) (id : N) | PlanActive | PlanHosts.
(** A migration of another time: its id, application, status, and whether its rows have moved *)
Record past := Past { pt_id : N; pt_app : N; pt_status : mig_status; pt_stopped : bool; pt_switched : bool }.
Record plan_env := PlanEnv {
  pe_place : place_env; pe_apps : list move_app; pe_volumes : list move_volume; pe_instances : list move_instance;
  pe_databases : list move_db; pe_links : list (N * N); pe_past : list past;
  (** routes: application, whether generated, whether enabled, hosts *)
  pe_routes : list (N * bool * bool * list string);
  (** whether a node's engine is reached, and the architecture it tells when it answers *)
  pe_arch : N -> option (option string);
  pe_class : N -> string -> bool; pe_urls : list string; pe_fails : plan_query -> bool }.

Inductive plan_err := ErrNotFound | ErrLocationRequired | ErrSameLocation | ErrPlace (e : place_err) | ErrPlanDB | ErrBlocked | ErrActive
| ErrCreate | ErrQueue.

(** [PlanRequest] and [DBChoice] *)
Record db_choice := DbChoice { dc_instance : N; dc_strategy : string; dc_target : N }.
Record plan_request := PlanRequest { pq_location : string; pq_databases : list db_choice; pq_admin : bool }.

(** ** Planning *)

Section Planner.
Context (e : plan_env).
Definition pl_ask {A} (q : plan_query) (a : option A) : option A := if pe_fails e q then None else a.
Definition pl_list {A} (q : plan_query) (l : list A) : list A := if pe_fails e q then [] else l.

(** [norm] *)
Definition norm (cluster : N) : N :=
  if (cluster =? default_cluster_id)%N then match find_default_cluster (pe_place e) with Some c => cl_id c | None => cluster end
  else cluster.
(** [FindInWorkspace] of applications and volumes, [ActiveForApp] (the newest of them), [ListInstanceDatabases],
    [ListInstanceLinks] *)
Definition find_app (ws id : N) : option move_app :=
  pl_ask PlanApp (find_first (fun a => (ma_id a =? id)%N && (ma_workspace a =? ws)%N) (pe_apps e)).
Definition find_move_volume (ws id : N) : option move_volume :=
  pl_ask (PlanVolume_ id) (find_first (fun v => (mv_id v =? id)%N && (mv_workspace v =? ws)%N) (pe_volumes e)).
Definition open_status (s : mig_status) : bool := match s with MigRunning | MigAwaitingCutover | MigCutOver => true | _ => false end.
Definition active_for_app (app : N) : option past :=
  pl_ask PlanActive (head (stable_sort (fun a b => (pt_id b <? pt_id a)%N)
    (List.filter (fun m => (pt_app m =? app)%N && open_status (pt_status m)) (pe_past e)))).
Definition list_instance_databases (s : plan_site) (id : N) : list move_db :=
  pl_list (PlanDatabases s id) (List.filter (fun d => (dr_instance (mb_row d) =? id)%N) (pe_databases e)).
Definition instance_links (s : plan_site) (id : N) : list (N * N) :=
  pl_list (PlanLinks s id) (List.filter (fun l => (l.1 =? id)%N) (pe_links e)).

(** [envMentions] and [linkedBy] *)
Definition env_mentions (env : list env_var) (host : string) : bool :=
  if String.eqb host "" then false else existsb (fun v => negb (ev_secret v) && contains host (ev_value v)) env.
Definition linked_by (links : list (N * N)) (app : N) : bool * bool :=
  (existsb (fun l => (l.2 =? app)%N) links, existsb (fun l => negb (l.2 =? app)%N) links).
(** [AppAlias] *)
Definition move_alias (a : move_app) : string :=
  if String.eqb (ma_alias a) "" then "mb-app-" +:+ itoa (Z.of_N (ma_id a)) else ma_alias a.

(** [load]: the environment of the application as the list has it, its peers, and the instances of the workspace *)
Definition with_env (env : list env_var) (a : move_app) : move_app :=
  MoveApp (ma_id a) (ma_workspace a) (ma_name a) (ma_alias a) (ma_row a) (ma_deployed a) (ma_canary a) (ma_stack a) (ma_gpus a)
    (ma_meta a) (ma_mounts a) env.
Definition load_plan (a : move_app) : option (move_app * list move_app * list move_instance) :=
  match pl_ask PlanApps (Some (List.filter (fun x => (ma_workspace x =? ma_workspace a)%N) (pe_apps e))) with
  | None => None
  | Some apps =>
      match pl_ask PlanInstances (Some (List.filter (fun i => (mi_workspace i =? ma_workspace a)%N) (pe_instances e))) with
      | None => None
      | Some instances =>
          Some (foldl (fun acc x => if (ma_id x =? ma_id a)%N then with_env (ma_env x) acc else acc) a apps,
                List.filter (fun x => negb (ma_id x =? ma_id a)%N) apps, instances)
      end
  end.

Section Of.
Context (app : move_app) (peers : list move_app) (instances : list move_instance).

(** [volume], [hasLocalVolumes] *)
Definition mounted_volume (m : move_mount) : option move_volume :=
  if (mm_volume m =? 0)%N || negb (mm_config m =? 0)%N then None else find_move_volume (ma_workspace app) (mm_volume m).
Definition has_local_volumes : bool :=
  existsb (fun m => match mounted_volume m with Some v => negb (mv_rwx v) | None => false end) (ma_mounts app).

(** [checkApp] *)
Definition same_stack (a b : option N) : bool := match a, b with Some x, Some y => (x =? y)%N | _, _ => false end.
Definition check_app (d : draft) : draft :=
  let name := ma_name app in
  let managed := default "" (ma_meta app !! meta_managed) in
  foldl (fun d p => warn_if (env_mentions (ma_env p) (move_alias app)) "private_reach" (ma_name p) d)
    (warn_if (String.eqb managed "apply") "apply" name
      (warn_if (String.eqb managed "gitops") "gitops" name
        (warn_if (bool_decide (ap_status (ma_row app) = AppStopped)) "stopped" name
          (warn_if (0 <? ma_gpus app) "gpu" name
            (block_if (bool_decide (is_Some (active_for_app (ma_id app)))) "migration_active" name
              (block_if (existsb (fun p => same_stack (ma_stack app) (ma_stack p)) peers) "stack_members" name
                (block_if (bool_decide (is_Some (ma_canary app))) "canary" name
                  (block_if (bool_decide (ap_status (ma_row app) = AppDeploying)) "deploying" name
                    (block_if (bool_decide (ma_deployed app = None)) "not_deployed" name d)))))))))
    peers.

(** [VolumeConsumers]: the other applications that mount a volume, once per mount *)
Definition volume_consumers (id : N) : option (list (N * string)) :=
  pl_ask (PlanConsumers id) (Some (List.flat_map (fun a =>
    (fun _ => (ma_id a, ma_name a)) <$> List.filter (fun m => (mm_volume m =? id)%N) (ma_mounts a))
    (List.filter (fun a => (ma_workspace a =? ma_workspace app)%N) (pe_apps e)))).
(** [ClassAvailable] *)
Definition class_available (server : N) (class : string) : bool :=
  String.eqb class "" || String.eqb class default_class || pe_class e server class.
(** A turn of [checkVolumes] *)
Definition check_volume (d : draft) (m : move_mount) : draft :=
  if negb (mm_config m =? 0)%N then d
  else if negb (String.eqb (mm_host_path m) "") || negb (String.eqb (mm_preset m) "") then warn "host_bind" (mm_path m) d
  else
    match mounted_volume m with
    | None => d
    | Some v =>
        let d := match volume_consumers (mv_id v) with
                 | Some users => block_if (existsb (fun u => negb (u.1 =? ma_id app)%N) users) "volume_shared" (mv_name v) d
                 | None => d end in
        let item copy class := VolumeItem (mv_id v) (mv_name v) (mv_driver v) copy (mv_used v) class in
        if String.eqb (mv_driver v) driver_host then add_volume (item false (mv_class v)) (block "volume_host" (mv_name v) d)
        else if driver_shared (mv_driver v) then add_volume (item false (mv_class v)) (warn "shared_storage" (mv_name v) d)
        else
          let here := class_available (df_server d) (mv_class v) in
          add_volume (item true (if here then mv_class v else default_class))
            (warn_if (negb here) "storage_class" (mv_name v) (add_bytes (mv_used v) d))
    end.
Definition check_volumes (d : draft) : draft := foldl check_volume d (ma_mounts app).

(** [dependencies] *)
Definition dependency (i : move_instance) : option (move_instance * list move_db) :=
  let mine := List.filter (fun d => bool_decide (dr_app (mb_row d) = Some (ma_id app))) (list_instance_databases SiteDependencies (mi_id i)) in
  let owned := match meta_owner (mi_meta i) with Some (k, o) => String.eqb k owner_app && (o =? ma_id app)%N | None => false end in
  if negb (bool_decide (mine = [])) || owned || (linked_by (instance_links SiteDependencies (mi_id i)) (ma_id app)).1
     || (negb (String.eqb (mi_host i) "") && env_mentions (ma_env app) (mi_host i))
  then Some (i, mine) else None.
Definition dependencies : list (move_instance * list move_db) := omap dependency instances.

(** [exclusive] *)
Definition exclusive (i : move_instance) : bool :=
  forallb (fun d => bool_decide (dr_app (mb_row d) = Some (ma_id app))) (list_instance_databases SiteExclusive (mi_id i))
  && negb match meta_owner (mi_meta i) with Some (k, o) => String.eqb k owner_app && negb (o =? ma_id app)%N && negb (o =? 0)%N | None => false end
  && negb (linked_by (instance_links SiteExclusive (mi_id i)) (ma_id app)).2
  && negb (existsb (fun p => negb (String.eqb (mi_host i) "") && env_mentions (ma_env p) (mi_host i)) peers).

(** [strategies], [findChoice] *)
Definition strategies (engine : string) (exclusive same_arch has_databases : bool) : list db_strategy :=
  (if exclusive && same_arch then [StrategyMove] else [])
  ++ (if has_databases && negb (String.eqb engine engine_redis) && negb (String.eqb engine engine_libsql)
      then [StrategyNewInstance; StrategyExistingInstance] else []).
Definition strategy_name (s : db_strategy) : string :=
  match s with StrategyMove => "move" | StrategyNewInstance => "new_instance" | StrategyExistingInstance => "existing_instance" end.
Definition find_choice (choices : list db_choice) (id : N) : option db_choice := find_first (fun c => (dc_instance c =? id)%N) choices.

(** [sameArch]: the target's node being out of reach is a blocker, the source's is not. *)
Definition same_arch (d : draft) : bool * draft :=
  match pe_arch e (ap_server (ma_row app)) with
  | None => (false, d)
  | Some a =>
      match pe_arch e (df_server d) with
      | None => (false, block "target_offline" (df_location d) d)
      | Some b => (match a, b with Some a, Some b => negb (String.eqb a "") && String.eqb a b | _, _ => false end, d)
      end
  end.

(** [checkExistingTarget] *)
Definition names_taken (dst : move_instance) (dbs taken : list move_db) (d : draft) : draft :=
  foldl (fun d x => foldl (fun d t => block_if (String.eqb (dr_name (mb_row t)) (dr_name (mb_row x))) "db_name_taken" (mi_name dst) d) d taken) d dbs.
Definition check_existing_target (src : move_instance) (target : N) (dbs : list move_db) (d : draft) : draft :=
  if (target =? 0)%N then block "db_target_required" (mi_name src) d
  else
    match foldl (fun acc i => if (mi_id i =? target)%N then Some i else acc) None instances with
    | None => block "db_target_missing" (mi_name src) d
    | Some dst =>
        names_taken dst dbs (list_instance_databases SiteTarget (mi_id dst))
          (block_if (negb (can_restore_into src dst)) "db_target_version" (mi_name dst)
            (block_if (negb (bool_decide (ir_status (mi_row dst) = DbRunning))) "db_target_stopped" (mi_name dst)
              (block_if (negb (norm (ir_cluster (mi_row dst)) =? df_cluster d)%N) "db_target_location" (mi_name dst) d)))
    end.

(** A turn of [checkDatabases] *)
Definition logical_of (d : move_db) : plan_logical := PlanLogical (mb_id d) (dr_name (mb_row d)) (dr_prefix (mb_row d)).
Definition check_database (choices : list db_choice) (arch : bool) (d : draft) (dep : move_instance * list move_db) : draft :=
  let '(i, dbs) := dep in
  let ex := exclusive i in
  let all := strategies (mi_engine i) ex arch (negb (bool_decide (dbs = []))) in
  let item s target := DatabaseItem (mi_id i) (mi_name i) (mi_engine i) (mi_version i) ex all s target (logical_of <$> dbs) in
  match all with
  | [] => add_database (item None 0%N) (block (if negb ex then "db_shared_unmovable" else "db_arch") (mi_name i) d)
  | first :: _ =>
      let '(s, target, d) :=
        match find_choice choices (mi_id i) with
        | Some c =>
            if String.eqb (dc_strategy c) "" then (first, 0%N, d)
            else
              match find_first (fun s => String.eqb (strategy_name s) (dc_strategy c)) all with
              | None => (first, 0%N, block "db_strategy" (mi_name i) d)
              | Some s => (s, dc_target c, d)
              end
        | None => (first, 0%N, d)
        end in
      let d := if bool_decide (s = StrategyExistingInstance) then check_existing_target i target dbs d else d in
      let d := warn_if (negb arch && ex && engine_logical (mi_engine i) && negb (String.eqb (mi_engine i) engine_libsql)) "db_arch" (mi_name i) d in
      let d := warn_if (negb (bool_decide (s = StrategyMove))) "db_downtime" (mi_name i) d in
      add_database (item (Some s) target) d
  end.
Definition check_databases (choices : list db_choice) (d : draft) : draft :=
  let '(arch, d) := same_arch d in foldl (check_database choices arch) d dependencies.

(** [checkRouting], with [CustomHosts] *)
Definition custom_hosts : list string :=
  pl_list PlanHosts (List.flat_map (fun r => let '(a, generated, enabled, hosts) := r in
    if (a =? ma_id app)%N && negb generated && enabled then hosts else []) (pe_routes e)).
Definition check_routing (d : draft) : draft :=
  warn_if (negb (bool_decide (pe_urls e = []))) "generated_urls" (ma_name app) (set_routing (pe_urls e) custom_hosts d).
End Of.

(** [plan] *)
Definition first_non_empty (a b : string) : string := if String.eqb a "" then b else a.
Definition plan (ws id : N) (rq : plan_request) : result plan_err (draft * move_app) :=
  match find_app ws id with
  | None => Err ErrNotFound
  | Some app =>
      let location := trim_space (pq_location rq) in
      if String.eqb location "" then Err ErrLocationRequired
      else
        match resolve_cluster (pe_place e) ws location (pq_admin rq) with
        | Err er => Err (ErrPlace er)
        | Ok c =>
            if (cl_id c =? norm (ap_cluster (ma_row app)))%N then Err ErrSameLocation
            else
              match load_plan app with
              | None => Err ErrPlanDB
              | Some (app, peers, instances) =>
                  let service := ap_service (ma_row app) && negb (has_local_volumes app) in
                  match Placement.place (pe_place e) (Request ws (cl_name c) 0 0 (pq_admin rq) service) with
                  | Err er => Err (ErrPlace er)
                  | Ok at_ =>
                      let d := Draft (cl_name c) (first_non_empty (cl_display c) (cl_name c)) (pl_cluster at_) (pl_server at_) service
                                 [] [] [] [] 0 [] [] in
                      Ok (check_routing app (check_databases app peers instances (pq_databases rq)
                            (check_volumes app (check_app app peers d))), app)
                  end
              end
        end
  end.

(** What a run reads of a plan; an item without a strategy is a blocker's. *)
Definition plan_of_draft (d : draft) : mig_plan :=
  MigPlan ((fun v => PlanVolume (vi_volume v) (vi_copy v)) <$> df_volumes d)
    (omap (fun i => (fun s => PlanDatabase (di_instance i) s (di_target i) (di_databases i)) <$> di_strategy i) (df_databases d)).

(** [Start]: the row it writes, whether it could be created and queued, and what it answers. A move that cannot be queued
    is saved as failed, when that can be written. *)
Definition cutover_manual : string := "manual".
Definition start (created : bool) (queued : option string) (saved : bool) (ws id : N) (rq : plan_request) (mode : string) :
  option mig_row * result plan_err unit :=
  if bool_decide (is_Some (active_for_app id)) then (None, Err ErrActive)
  else
    match plan ws id rq with
    | Err er => (None, Err er)
    | Ok (d, app) =>
        if negb (bool_decide (df_blockers d = [])) then (None, Err ErrBlocked)
        else
          let row := start_migration (ma_id app) (ma_row app) (plan_of_draft d) (df_server d) (df_cluster d) (String.eqb mode cutover_manual) in
          if negb created then (None, Err ErrCreate)
          else
            match queued with
            | None => (Some row, Ok tt)
            | Some why =>
                let m := set_error (Some ("could not queue the migration: " +:+ why)) (set_status MigFailed (ro_mig row)) in
                (Some (if saved then MigRow m false false None else row), Err ErrQueue)
            end
    end.
End Planner.

(** ** What a check leaves *)

(** Everything of a draft but its issues and its size *)
Definition rest (d : draft) := (df_location d, df_cluster d, df_server d, df_volumes d, df_databases d).
Lemma rest_block_if b c r d : rest (block_if b c r d) = rest d.
Proof. by destruct b. Qed.
Lemma rest_warn_if b c r d : rest (warn_if b c r d) = rest d.
Proof. by destruct b. Qed.
Lemma warn_if_blockers b c r d : df_blockers (warn_if b c r d) = df_blockers d.
Proof. by destruct b. Qed.
Lemma block_clear c r d : df_blockers (block c r d) = [] <-> False.
Proof. split; [|done]. cbn. by destruct (df_blockers d). Qed.
Lemma block_if_clear b c r d : df_blockers (block_if b c r d) = [] <-> b = false /\ df_blockers d = [].
Proof. destruct b; cbn [block_if]; [|naive_solver]. rewrite block_clear. naive_solver. Qed.
Create Rewrite HintDb draft.
#[local] Hint Rewrite rest_block_if rest_warn_if : draft.

(** A fold whose steps keep something, or are each clear when what they lead to is *)
Lemma foldl_keeps {A B C} (f : A -> B -> A) (g : A -> C) l a : (forall a x, g (f a x) = g a) -> g (foldl f a l) = g a.
Proof. intros H. revert a. induction l as [|x l IH]; intros a; [done|]. cbn. by rewrite IH, H. Qed.
Lemma foldl_clear {B} (f : draft -> B -> draft) (P : B -> Prop) l d :
  (forall d x, df_blockers (f d x) = [] -> df_blockers d = [] /\ P x) ->
  df_blockers (foldl f d l) = [] -> df_blockers d = [] /\ Forall P l.
Proof.
  intros H. revert d. induction l as [|x l IH]; intros d Hc; [done|]. cbn in Hc. destruct (IH _ Hc) as [Hd Hl].
  destruct (H d x Hd). by split; [|constructor].
Qed.

Section PlannerFacts.
Context (e : plan_env) (app : move_app) (peers : list move_app) (instances : list move_instance).

(** An application that can move *)
Record movable : Prop := Movable {
  mo_deployed : is_Some (ma_deployed app);
  mo_idle : ap_status (ma_row app) <> AppDeploying;
  mo_canary : ma_canary app = None;
  mo_alone : forall p s, p ∈ peers -> ma_stack app = Some s -> ma_stack p <> Some s;
  mo_only : active_for_app e (ma_id app) = None }.
Lemma check_app_clear d : df_blockers (check_app e app peers d) = [] -> df_blockers d = [] /\ movable.
Proof.
  unfold check_app. rewrite (foldl_keeps _ df_blockers) by (intros; apply warn_if_blockers). rewrite !warn_if_blockers, !block_if_clear.
  intros (Ha%bool_decide_eq_false & Hs & Hc%bool_decide_eq_false & Hi%bool_decide_eq_false & Hd%bool_decide_eq_false & Hb).
  split; [done|]. constructor; [by apply not_eq_None_Some|done|by apply eq_None_not_Some| |by apply eq_None_not_Some].
  intros p s Hp Ha' Hp'. apply not_true_iff_false in Hs. apply Hs. apply existsb_exists. exists p. split; [by apply list_elem_of_In|].
  rewrite Ha', Hp'. cbn. apply N.eqb_refl.
Qed.
Lemma check_app_rest d : rest (check_app e app peers d) = rest d.
Proof.
  unfold check_app. rewrite (foldl_keeps _ rest) by (intros; apply rest_warn_if). by autorewrite with draft.
Qed.

(** The volume a mount moves *)
Definition moved_volume (m : move_mount) : option move_volume :=
  if negb (mm_config m =? 0)%N || negb (String.eqb (mm_host_path m) "") || negb (String.eqb (mm_preset m) "") then None
  else mounted_volume e app m.
(** A volume no other application mounts, as far as can be told, whose data is not a path of its node *)
Definition own_volume (v : move_volume) : Prop :=
  mv_driver v <> driver_host /\ forall users u, volume_consumers e app (mv_id v) = Some users -> u ∈ users -> u.1 = ma_id app.
Definition item_of_volume (server : N) (v : move_volume) : volume_item :=
  let copy := negb (String.eqb (mv_driver v) driver_host) && negb (driver_shared (mv_driver v)) in
  VolumeItem (mv_id v) (mv_name v) (mv_driver v) copy (mv_used v)
    (if copy && negb (class_available e server (mv_class v)) then default_class else mv_class v).
Lemma check_volume_clear d m : df_blockers (check_volume e app d m) = [] ->
  df_blockers d = [] /\ forall v, moved_volume m = Some v -> own_volume v.
Proof.
  unfold check_volume, moved_volume. destruct (negb (mm_config m =? 0)%N); cbn; [done|].
  destruct (negb (String.eqb (mm_host_path m) "") || _); [done|]. destruct (mounted_volume e app m) as [v|]; [|done].
  set (d1 := match volume_consumers e app (mv_id v) with Some _ => _ | None => _ end). intros Hc.
  assert (H : String.eqb (mv_driver v) driver_host = false /\ df_blockers d1 = []).
  { destruct (String.eqb (mv_driver v) driver_host); [by apply (block_clear "volume_host" (mv_name v) d1) in Hc|]. split; [done|].
    destruct (driver_shared (mv_driver v)); [done|]. cbn in Hc. by rewrite warn_if_blockers in Hc. }
  destruct H as [Hh H1]. subst d1. unfold own_volume. apply String.eqb_neq in Hh.
  destruct (volume_consumers e app (mv_id v)) as [users|] eqn:Eu.
  - apply block_if_clear in H1 as [Hu Hd]. split; [done|]. intros v' [= <-]. split; [done|]. rewrite Eu. intros ? u [= <-] Hin.
    apply not_true_iff_false in Hu. destruct (N.eqb_spec u.1 (ma_id app)); [done|]. exfalso. apply Hu. apply existsb_exists.
    exists u. split; [by apply list_elem_of_In|]. by apply negb_true_iff, N.eqb_neq.
  - split; [done|]. intros v' [= <-]. split; [done|]. by rewrite Eu.
Qed.
Lemma check_volume_volumes d m : df_volumes (check_volume e app d m) =
  df_volumes d ++ option_list (item_of_volume (df_server d) <$> moved_volume m)
  /\ (df_location (check_volume e app d m), df_cluster (check_volume e app d m), df_server (check_volume e app d m), df_databases (check_volume e app d m))
     = (df_location d, df_cluster d, df_server d, df_databases d).
Proof.
  unfold check_volume, moved_volume. destruct (negb (mm_config m =? 0)%N); cbn; [by rewrite app_nil_r|].
  destruct (negb (String.eqb (mm_host_path m) "") || _); [by rewrite app_nil_r|]. destruct (mounted_volume e app m) as [v|]; [|by rewrite app_nil_r].
  set (d1 := match volume_consumers e app (mv_id v) with Some _ => _ | None => _ end).
  assert (Hr : rest d1 = rest d) by (subst d1; case_match; [apply rest_block_if|done]). injection Hr as H1 H2 H3 H4 H5.
  unfold item_of_volume. cbn. destruct (String.eqb (mv_driver v) driver_host); cbn; [by rewrite H1, H2, H3, H4, H5|].
  destruct (driver_shared (mv_driver v)); cbn; [by rewrite H1, H2, H3, H4, H5|]. rewrite H3.
  destruct (class_available e (df_server d) (mv_class v)); cbn; by rewrite H1, H2, H3, H4, H5.
Qed.
Lemma check_volumes_spec d : df_volumes (check_volumes e app d) = df_volumes d ++ omap (fun m => item_of_volume (df_server d) <$> moved_volume m) (ma_mounts app)
  /\ (df_location (check_volumes e app d), df_cluster (check_volumes e app d), df_server (check_volumes e app d), df_databases (check_volumes e app d))
     = (df_location d, df_cluster d, df_server d, df_databases d).
Proof.
  unfold check_volumes. generalize (ma_mounts app). intros l. revert d. induction l as [|m l IH]; intros d; [by rewrite app_nil_r|].
  cbn. destruct (IH (check_volume e app d m)) as [H1 H2]. destruct (check_volume_volumes d m) as [H3 H4].
  rewrite H1, H2, H3, H4. injection H4 as _ _ -> _. split; [|done]. rewrite <- app_assoc. f_equal. by destruct (moved_volume m).
Qed.

(** An instance a database can be restored into *)
Record restorable (cluster : N) (src : move_instance) (target : N) (dbs : list move_db) (dst : move_instance) : Prop := Restorable {
  re_listed : dst ∈ instances;
  re_id : mi_id dst = target;
  re_there : norm e (ir_cluster (mi_row dst)) = cluster;
  re_running : ir_status (mi_row dst) = DbRunning;
  re_engine : mi_engine src = mi_engine dst;
  re_version : cmp_version (mi_version src) (mi_version dst) <= 0;
  re_names : forall x t, x ∈ dbs -> t ∈ list_instance_databases e SiteTarget (mi_id dst) -> dr_name (mb_row t) <> dr_name (mb_row x) }.
Lemma names_taken_rest dst dbs taken d : rest (names_taken dst dbs taken d) = rest d.
Proof.
  unfold names_taken. apply foldl_keeps. intros d' x. apply foldl_keeps. intros. apply rest_block_if.
Qed.
Lemma check_existing_rest src target dbs d : rest (check_existing_target e instances src target dbs d) = rest d.
Proof.
  unfold check_existing_target. destruct (target =? 0)%N; [done|]. case_match; [|done]. rewrite names_taken_rest. by autorewrite with draft.
Qed.
Lemma last_match_elem target acc (l : list move_instance) i :
  foldl (fun acc i => if (mi_id i =? target)%N then Some i else acc) acc l = Some i -> acc = Some i \/ (i ∈ l /\ mi_id i = target).
Proof.
  revert acc. induction l as [|x l IH]; intros acc; cbn; [by left|]. intros H. destruct (IH _ H) as [Hx|[Hx Hi]]; [|right; split; [by right|done]].
  destruct (N.eqb_spec (mi_id x) target); [|by left]. injection Hx as ->. right. split; [by left|done].
Qed.
Lemma check_existing_clear src target dbs d : df_blockers (check_existing_target e instances src target dbs d) = [] ->
  df_blockers d = [] /\ exists dst, restorable (df_cluster d) src target dbs dst.
Proof.
  unfold check_existing_target. destruct (target =? 0)%N; [by intros H%block_clear|].
  destruct (foldl _ None instances) as [dst|] eqn:Ed; [|by intros H%block_clear].
  destruct (last_match_elem _ _ _ _ Ed) as [|[Hin Hid]]; [done|]. intros Hc. unfold names_taken in Hc.
  apply (foldl_clear _ (fun x => Forall (fun t => dr_name (mb_row t) <> dr_name (mb_row x)) (list_instance_databases e SiteTarget (mi_id dst)))) in Hc as [Hc Hn].
  - rewrite !block_if_clear, !negb_false_iff in Hc. destruct Hc as (Hr & Hs%bool_decide_eq_true & Hl%N.eqb_eq & Hd). split; [done|]. exists dst.
    unfold can_restore_into in Hr. apply andb_true_iff in Hr as [He%String.eqb_eq Hv%negb_true_iff%Z.ltb_ge].
    constructor; try done. intros x t Hx Ht. rewrite Forall_forall in Hn. specialize (Hn x Hx). rewrite Forall_forall in Hn. by apply Hn.
  - intros d' x Hd. apply (foldl_clear _ (fun t => dr_name (mb_row t) <> dr_name (mb_row x))) in Hd; [done|].
    intros d'' t Ht%block_if_clear. split; [apply Ht|]. apply String.eqb_neq, Ht.
Qed.

(** What an item says, whatever stood in the way before it *)
Definition chosen (choices : list db_choice) (i : move_instance) (all : list db_strategy) : option (db_strategy * N) :=
  match all with
  | [] => None
  | first :: _ => Some
      match find_choice choices (mi_id i) with
      | Some c =>
          if String.eqb (dc_strategy c) "" then (first, 0%N)
          else match find_first (fun s => String.eqb (strategy_name s) (dc_strategy c)) all with Some s => (s, dc_target c) | None => (first, 0%N) end
      | None => (first, 0%N)
      end
  end.
Definition ways (arch : bool) (dep : move_instance * list move_db) : list db_strategy :=
  strategies (mi_engine dep.1) (exclusive e app peers dep.1) arch (negb (bool_decide (dep.2 = []))).
Definition item_of_database (choices : list db_choice) (arch : bool) (dep : move_instance * list move_db) : database_item :=
  let i := dep.1 in
  let c := chosen choices i (ways arch dep) in
  DatabaseItem (mi_id i) (mi_name i) (mi_engine i) (mi_version i) (exclusive e app peers i) (ways arch dep) (fst <$> c)
    (match c with Some (_, t) => t | None => 0%N end) (logical_of <$> dep.2).
Lemma rest_eq d d' : rest d = rest d' -> df_location d = df_location d' /\ df_cluster d = df_cluster d' /\ df_server d = df_server d'
  /\ df_volumes d = df_volumes d' /\ df_databases d = df_databases d'.
Proof. unfold rest. intros [= H1 H2 H3 H4 H5]. done. Qed.
Lemma existing_step s t i dbs d d1 : rest d1 = rest d -> (df_blockers d1 = [] -> df_blockers d = []) ->
  let d2 := (if bool_decide (s = StrategyExistingInstance) then check_existing_target e instances i t dbs d1 else d1) in
  rest d2 = rest d /\ (df_blockers d2 = [] -> df_blockers d = [] /\ (s = StrategyExistingInstance -> exists dst, restorable (df_cluster d) i t dbs dst)).
Proof.
  intros Hr Hb. cbn. apply rest_eq in Hr as Hc. destruct Hc as (_ & Hc & _). destruct (bool_decide_reflect (s = StrategyExistingInstance)) as [Hs|Hs].
  - split; [by rewrite check_existing_rest|]. intros [H1 H2]%check_existing_clear. rewrite Hc in H2. split; [by apply Hb|by intros _].
  - split; [done|]. intros H1. split; [by apply Hb|done].
Qed.
Lemma check_database_spec choices arch d dep :
  let d' := check_database e app peers instances choices arch d dep in
  rest d' = rest (add_database (item_of_database choices arch dep) d)
  /\ (df_blockers d' = [] -> df_blockers d = [] /\ exists s t, chosen choices dep.1 (ways arch dep) = Some (s, t)
       /\ (s = StrategyExistingInstance -> exists dst, restorable (df_cluster d) dep.1 t dep.2 dst)).
Proof.
  destruct dep as [i dbs]. unfold check_database, item_of_database, ways. cbn [fst snd].
  destruct (strategies (mi_engine i) _ arch _) as [|first others] eqn:Eall; cbn zeta.
  { split; [done|]. intros Hc. by apply (block_clear _ (mi_name i) d) in Hc. }
  assert (W : forall s t d1 b1 b2, rest d1 = rest d -> (df_blockers d1 = [] -> df_blockers d = []) ->
    chosen choices i (first :: others) = Some (s, t) ->
    let d2 := (if bool_decide (s = StrategyExistingInstance) then check_existing_target e instances i t dbs d1 else d1) in
    let it := DatabaseItem (mi_id i) (mi_name i) (mi_engine i) (mi_version i) (exclusive e app peers i) (first :: others) (Some s) t (logical_of <$> dbs) in
    let d' := add_database it (warn_if b1 "db_downtime" (mi_name i) (warn_if b2 "db_arch" (mi_name i) d2)) in
    rest d' = rest (add_database it d)
    /\ (df_blockers d' = [] -> df_blockers d = [] /\ exists s t, chosen choices i (first :: others) = Some (s, t)
       /\ (s = StrategyExistingInstance -> exists dst, restorable (df_cluster d) i t dbs dst))).
  { intros s t d1 b1 b2 Hr Hb Hch d2 it d'. destruct (existing_step s t i dbs d d1 Hr Hb) as [H1 H2]. fold d2 in H1, H2. subst d'. split.
    - assert (Hw : rest (warn_if b1 "db_downtime" (mi_name i) (warn_if b2 "db_arch" (mi_name i) d2)) = rest d) by by autorewrite with draft.
      apply rest_eq in Hw as (E1 & E2 & E3 & E4 & E5). unfold rest, add_database. cbn -[warn_if]. by rewrite E1, E2, E3, E4, E5.
    - cbn -[warn_if]. rewrite !warn_if_blockers. intros Hd2. destruct (H2 Hd2). eauto. }
  assert (X : exists s t d1, chosen choices i (first :: others) = Some (s, t) /\ rest d1 = rest d /\ (df_blockers d1 = [] -> df_blockers d = [])
    /\ match find_choice choices (mi_id i) with
        | Some c =>
            if String.eqb (dc_strategy c) "" then (first, 0%N, d)
            else
              match find_first (fun s => String.eqb (strategy_name s) (dc_strategy c)) (first :: others) with
              | None => (first, 0%N, block "db_strategy" (mi_name i) d)
              | Some s => (s, dc_target c, d)
              end
        | None => (first, 0%N, d)
        end = (s, t, d1)).
  { unfold chosen. destruct (find_choice choices (mi_id i)) as [c|]; [|by exists first, 0%N, d].
    destruct (String.eqb (dc_strategy c) ""); [by exists first, 0%N, d|].
    destruct (find_first _ _) as [s|]; [by exists s, (dc_target c), d|]. exists first, 0%N, (block "db_strategy" (mi_name i) d).
    split; [done|]. split; [done|]. split; [by intros Hb%block_clear|done]. }
  destruct X as (s & t & d1 & Hch & Hr & Hb & ->).
  destruct (W s t d1 (negb (bool_decide (s = StrategyMove)))
    (negb arch && exclusive e app peers i && engine_logical (mi_engine i) && negb (String.eqb (mi_engine i) engine_libsql)) Hr Hb Hch) as [Y1 Y2].
  split; [rewrite Hch; exact Y1|exact Y2].
Qed.
Lemma check_databases_spec choices d :
  let arch := (same_arch e app d).1 in
  let d' := check_databases e app peers instances choices d in
  df_databases d' = df_databases d ++ (item_of_database choices arch <$> dependencies e app instances)
  /\ (df_location d', df_cluster d', df_server d', df_volumes d') = (df_location d, df_cluster d, df_server d, df_volumes d)
  /\ (df_blockers d' = [] -> df_blockers d = [] /\ forall dep, dep ∈ dependencies e app instances -> exists s t,
       chosen choices dep.1 (ways arch dep) = Some (s, t) /\ (s = StrategyExistingInstance -> exists dst, restorable (df_cluster d) dep.1 t dep.2 dst)).
Proof.
  unfold check_databases. destruct (same_arch e app d) as [arch d0] eqn:Ea. cbn zeta.
  assert (H0 : rest d0 = rest d /\ (df_blockers d0 = [] -> df_blockers d = [])).
  { unfold same_arch in Ea. repeat case_match; simplify_eq; try done. split; [done|]. by intros Hb%block_clear. }
  change ((arch, d0).1) with arch. clear Ea. destruct H0 as [Hr0 Hb0]. apply rest_eq in Hr0 as (E1 & E2 & E3 & E4 & E5).
  rewrite <- E1, <- E2, <- E3, <- E4, <- E5.
  cut (df_databases (foldl (check_database e app peers instances choices arch) d0 (dependencies e app instances)) =
       df_databases d0 ++ (item_of_database choices arch <$> dependencies e app instances)
    /\ (df_location (foldl (check_database e app peers instances choices arch) d0 (dependencies e app instances)),
        df_cluster (foldl (check_database e app peers instances choices arch) d0 (dependencies e app instances)),
        df_server (foldl (check_database e app peers instances choices arch) d0 (dependencies e app instances)),
        df_volumes (foldl (check_database e app peers instances choices arch) d0 (dependencies e app instances)))
       = (df_location d0, df_cluster d0, df_server d0, df_volumes d0)
    /\ (df_blockers (foldl (check_database e app peers instances choices arch) d0 (dependencies e app instances)) = [] ->
        df_blockers d0 = [] /\ forall dep, dep ∈ dependencies e app instances -> exists s t,
          chosen choices dep.1 (ways arch dep) = Some (s, t) /\ (s = StrategyExistingInstance -> exists dst, restorable (df_cluster d0) dep.1 t dep.2 dst))).
  { intros (H1 & H2 & H3). split; [done|]. split; [done|]. intros Hc. destruct (H3 Hc). split; [by apply Hb0|done]. }
  generalize (dependencies e app instances). intros l. clear E1 E2 E3 E4 E5 Hb0. revert d0. induction l as [|dep l IH]; intros d0.
  { cbn. rewrite app_nil_r. split; [done|]. split; [done|]. intros Hc. split; [done|]. by intros dep ?%elem_of_nil. }
  cbn [foldl]. destruct (IH (check_database e app peers instances choices arch d0 dep)) as (H1 & H2 & H3).
  destruct (check_database_spec choices arch d0 dep) as [H4 H5]. apply rest_eq in H4 as (F1 & F2 & F3 & F4 & F5).
  rewrite H1, H2, F1, F2, F3, F4, F5. cbn [df_location df_cluster df_server df_volumes df_databases add_database]. split; [by rewrite <- app_assoc|].
  split; [done|]. intros Hc. destruct (H3 Hc) as [Hd Hl]. destruct (H5 Hd) as [Hd0 Hx]. split; [done|].
  intros dep' [->|Hin]%elem_of_cons; [done|]. rewrite F2 in Hl. by apply Hl.
Qed.
End PlannerFacts.

Lemma chosen_elem choices i all s t : chosen choices i all = Some (s, t) -> s ∈ all.
Proof.
  unfold chosen. destruct all as [|first others]; [done|]. intros [= Hc].
  destruct (find_choice choices (mi_id i)) as [c|]; [|injection Hc as <- _; by left].
  destruct (String.eqb (dc_strategy c) ""); [injection Hc as <- _; by left|].
  destruct (find_first _ _) as [s'|] eqn:Ef; [|injection Hc as <- _; by left]. injection Hc as <- _.
  by apply find_first_some in Ef as [Hin _].
Qed.
Lemma move_way engine ex arch has : StrategyMove ∈ strategies engine ex arch has -> ex = true /\ arch = true.
Proof.
  unfold strategies. intros [H|H]%elem_of_app.
  - destruct ex, arch; cbn in H; try by apply elem_of_nil in H. done.
  - destruct (has && _ && _) in H; [|by apply elem_of_nil in H]. by apply elem_of_cons in H as [H|[H|H%elem_of_nil]%elem_of_cons].
Qed.
Lemma same_arch_true e app d d' : same_arch e app d = (true, d') ->
  exists a, a <> "" /\ pe_arch e (ap_server (ma_row app)) = Some (Some a) /\ pe_arch e (df_server d) = Some (Some a).
Proof.
  unfold same_arch. destruct (pe_arch e (ap_server (ma_row app))) as [a|]; [|done]. destruct (pe_arch e (df_server d)) as [b|]; [|done].
  intros [= H _]. destruct a as [a|], b as [b|]; try done. apply andb_true_iff in H as [Ha%negb_true_iff%String.eqb_neq Hb%String.eqb_eq]. exists a. by subst.
Qed.

(** What loading keeps of the application *)
Lemma with_env_fold id (l : list move_app) a :
  let a' := foldl (fun acc x => if (ma_id x =? id)%N then with_env (ma_env x) acc else acc) a l in
  ma_id a' = ma_id a /\ ma_workspace a' = ma_workspace a /\ ma_row a' = ma_row a /\ ma_mounts a' = ma_mounts a.
Proof.
  revert a. induction l as [|x l IH]; intros a; [done|]. cbn. destruct (IH (if (ma_id x =? id)%N then with_env (ma_env x) a else a)) as (H1 & H2 & H3 & H4).
  rewrite H1, H2, H3, H4. by destruct (ma_id x =? id)%N.
Qed.

(** How a plan comes about *)
Record planned (e : plan_env) (ws id : N) (rq : plan_request) (d : draft) (app : move_app) (peers : list move_app)
  (instances : list move_instance) (d0 : draft) : Prop := Planned {
  pn_found : ma_id app = id /\ ma_workspace app = ws;
  pn_instances : instances = List.filter (fun i => (mi_workspace i =? ws)%N) (pe_instances e);
  pn_peers : peers = List.filter (fun x => negb (ma_id x =? id)%N) (List.filter (fun x => (ma_workspace x =? ws)%N) (pe_apps e));
  pn_start : df_volumes d0 = [] /\ df_databases d0 = [] /\ df_blockers d0 = [];
  pn_draft : d = check_routing e app (check_databases e app peers instances (pq_databases rq) (check_volumes e app (check_app e app peers d0))) }.
Lemma plan_planned e ws id rq d app : plan e ws id rq = Ok (d, app) ->
  exists peers instances d0, planned e ws id rq d app peers instances d0.
Proof.
  unfold plan. destruct (find_app e ws id) as [a|] eqn:Ea; [|done]. destruct (String.eqb (trim_space _) ""); [done|].
  destruct (resolve_cluster _ _ _ _) as [c|]; [|done]. destruct (cl_id c =? _)%N; [done|].
  destruct (load_plan e a) as [[[a' peers] instances]|] eqn:El; [|done]. destruct (Placement.place _ _) as [p|]; [|done]. intros [= Hd <-].
  unfold find_app, pl_ask in Ea. destruct (pe_fails e PlanApp); [done|].
  apply find_first_some in Ea as [_ [Hid%N.eqb_eq Hws%N.eqb_eq]%andb_true_iff].
  unfold load_plan, pl_ask in El. destruct (pe_fails e PlanApps); [done|]. destruct (pe_fails e PlanInstances); [done|].
  injection El as Ha Hp Hi. destruct (with_env_fold (ma_id a) (List.filter (fun x => (ma_workspace x =? ma_workspace a)%N) (pe_apps e)) a) as (H1 & H2 & _).
  rewrite Ha in H1, H2. exists peers, instances, (Draft (cl_name c) (first_non_empty (cl_display c) (cl_name c)) (pl_cluster p) (pl_server p)
    (ap_service (ma_row a') && negb (has_local_volumes e a')) [] [] [] [] 0 [] []).
  constructor; [by rewrite H1, H2| | |done|done].
  - by rewrite <- Hi, Hws.
  - by rewrite <- Hp, Hws, Hid.
Qed.

Section Clear.
Context {e : plan_env} {ws id : N} {rq : plan_request} {d : draft} {app : move_app} {peers : list move_app} {instances : list move_instance} {d0 : draft}.
Context (P : planned e ws id rq d app peers instances d0).
#[local] Abbreviation arch := (same_arch e app (check_volumes e app (check_app e app peers d0))).1.
Lemma planned_items : df_server d = df_server d0 /\ df_cluster d = df_cluster d0
  /\ df_volumes d = omap (fun m => item_of_volume e (df_server d0) <$> moved_volume e app m) (ma_mounts app)
  /\ df_databases d = item_of_database e app peers (pq_databases rq) arch <$> dependencies e app instances.
Proof.
  pose proof (pn_draft _ _ _ _ _ _ _ _ _ P) as Hd. destruct (pn_start _ _ _ _ _ _ _ _ _ P) as (V0 & D0 & _).
  pose proof (check_app_rest e app peers d0) as A%rest_eq. destruct A as (A1 & A2 & A3 & A4 & A5).
  destruct (check_volumes_spec e app (check_app e app peers d0)) as [V1 V2]. injection V2 as V2 V3 V4 V5.
  destruct (check_databases_spec e app peers instances (pq_databases rq) (check_volumes e app (check_app e app peers d0))) as (B1 & B2 & _).
  injection B2 as B2 B3 B4 B5. set (d3 := check_databases _ _ _ _ _ _) in *.
  assert (R : rest d = rest d3) by (rewrite Hd; unfold check_routing; by rewrite rest_warn_if). apply rest_eq in R as (R1 & R2 & R3 & R4 & R5).
  rewrite R2, R3, R4, R5, B1, B3, B4, B5, V1, V3, V4, V5, A2, A3, A4, A5, V0, D0. done.
Qed.
Lemma planned_clear : df_blockers d = [] -> movable e app peers
  /\ (forall m v, m ∈ ma_mounts app -> moved_volume e app m = Some v -> own_volume e app v)
  /\ forall dep, dep ∈ dependencies e app instances -> exists s t,
       chosen (pq_databases rq) dep.1 (ways e app peers arch dep) = Some (s, t)
       /\ (s = StrategyExistingInstance -> exists dst, restorable e instances (df_cluster d) dep.1 t dep.2 dst).
Proof.
  intros Hc. pose proof (pn_draft _ _ _ _ _ _ _ _ _ P) as Hd. rewrite Hd in Hc. unfold check_routing in Hc. rewrite warn_if_blockers in Hc.
  cbn [df_blockers set_routing] in Hc.
  destruct (check_databases_spec e app peers instances (pq_databases rq) (check_volumes e app (check_app e app peers d0))) as (_ & _ & B).
  destruct (B Hc) as [Hv Hdb]. unfold check_volumes in Hv.
  apply (foldl_clear _ (fun m => forall v, moved_volume e app m = Some v -> own_volume e app v)) in Hv as [Ha Hv].
  2: intros d' x H; by apply check_volume_clear.
  apply check_app_clear in Ha as [_ Ha]. split; [done|]. rewrite Forall_forall in Hv. split; [by intros m v Hm; apply Hv|].
  intros dep Hin. destruct (Hdb dep Hin) as (s & t & H1 & H2). exists s, t. split; [done|].
  destruct planned_items as (_ & Hcl & _). rewrite Hcl.
  destruct (check_volumes_spec e app (check_app e app peers d0)) as [_ V2]. injection V2 as _ V3 _ _. rewrite V3 in H2.
  pose proof (check_app_rest e app peers d0) as A%rest_eq. destruct A as (_ & A2 & _). by rewrite A2 in H2.
Qed.
Lemma planned_arch : arch = true -> exists a, a <> "" /\ pe_arch e (ap_server (ma_row app)) = Some (Some a) /\ pe_arch e (df_server d) = Some (Some a).
Proof.
  intros Ht. destruct (same_arch e app (check_volumes e app (check_app e app peers d0))) as [b d'] eqn:E. cbn in Ht. subst b.
  destruct (same_arch_true _ _ _ _ E) as (a & H1 & H2 & H3). exists a. split; [done|]. split; [done|].
  destruct planned_items as (Hs & _). rewrite Hs. destruct (check_volumes_spec e app (check_app e app peers d0)) as [_ V2]. injection V2 as _ _ V4 _.
  rewrite V4 in H3. pose proof (check_app_rest e app peers d0) as A%rest_eq. destruct A as (_ & _ & A3 & _). by rewrite A3 in H3.
Qed.
End Clear.

(** ** What a plan without blockers promises *)

(** The other applications of the workspace, and its instances, as [load] lists them *)
Definition peers_of (e : plan_env) (ws id : N) : list move_app :=
  List.filter (fun x => negb (ma_id x =? id)%N) (List.filter (fun x => (ma_workspace x =? ws)%N) (pe_apps e)).
Definition instances_of (e : plan_env) (ws : N) : list move_instance := List.filter (fun i => (mi_workspace i =? ws)%N) (pe_instances e).
(** What is planned of a volume that is mounted, and of an instance that is depended on *)
Definition volume_planned (e : plan_env) (app : move_app) (p : mig_plan) (v : move_volume) : Prop :=
  own_volume e app v /\ PlanVolume (mv_id v) (negb (driver_shared (mv_driver v))) ∈ mp_volumes p.
Definition instance_planned (e : plan_env) (app : move_app) (peers : list move_app) (instances : list move_instance) (d : draft)
  (i : move_instance) (dbs : list move_db) : Prop :=
  exists s t, PlanDatabase (mi_id i) s t (logical_of <$> dbs) ∈ mp_databases (plan_of_draft d)
  /\ match s with
     | StrategyMove => exclusive e app peers i = true
         /\ exists a, a <> "" /\ pe_arch e (ap_server (ma_row app)) = Some (Some a) /\ pe_arch e (df_server d) = Some (Some a)
     | StrategyNewInstance => dbs <> []
     | StrategyExistingInstance => exists dst, restorable e instances (df_cluster d) i t dbs dst
     end.
Lemma clear_plan_sound (e : plan_env) (ws id : N) (rq : plan_request) (d : draft) (app : move_app) :
  plan e ws id rq = Ok (d, app) -> df_blockers d = [] ->
  movable e app (peers_of e ws id)
  /\ (forall m v, m ∈ ma_mounts app -> moved_volume e app m = Some v -> volume_planned e app (plan_of_draft d) v)
  /\ forall i dbs, (i, dbs) ∈ dependencies e app (instances_of e ws) -> instance_planned e app (peers_of e ws id) (instances_of e ws) d i dbs.
Proof.
  intros Hp Hc. destruct (plan_planned _ _ _ _ _ _ Hp) as (peers & instances & d0 & P).
  assert (Ep : peers = peers_of e ws id) by apply P. assert (Ei : instances = instances_of e ws) by apply P. rewrite <- Ep, <- Ei. clear Ep Ei.
  destruct (planned_clear P Hc) as (H1 & H2 & H3). destruct (planned_items P) as (Es & _ & Ev & Ed). split; [done|]. split.
  - intros m v Hm Hv. pose proof (H2 m v Hm Hv) as Ho. split; [done|]. cbn. apply list_elem_of_fmap. exists (item_of_volume e (df_server d) v). split.
    + unfold item_of_volume. cbn. destruct (String.eqb_spec (mv_driver v) driver_host) as [E|_]; [|done]. by destruct Ho.
    + rewrite Ev, Es. apply list_elem_of_omap. exists m. split; [done|]. by rewrite Hv.
  - intros i dbs Hin. destruct (H3 _ Hin) as (s & t & Hch & Hex). cbn [fst snd] in Hch, Hex. exists s, t. split.
    { cbn. rewrite Ed. apply list_elem_of_omap. eexists. split; [apply list_elem_of_fmap; exists (i, dbs); split; [reflexivity|done]|].
      unfold item_of_database. cbn [fst snd di_instance di_databases di_strategy di_target]. by rewrite Hch. }
    pose proof (chosen_elem _ _ _ _ _ Hch) as Hw. unfold ways in Hw. cbn [fst snd] in Hw. destruct s.
    + apply move_way in Hw as [Hx Ha]. split; [done|]. by apply (planned_arch P).
    + intros ->. unfold strategies in Hw. apply elem_of_app in Hw as [Hw|Hw]; [destruct (_ && _) in Hw|cbn in Hw]; by repeat apply elem_of_cons in Hw as [Hw|Hw]; try apply elem_of_nil in Hw.
    + by apply Hex.
Qed.

(** ** From the plan to the run *)

Definition rows_by {A B} (key : A -> N) (row : A -> B) (l : list A) : gmap N B := list_to_map ((fun x => (key x, row x)) <$> l).
Definition volume_rows (e : plan_env) : gmap N volume_row := rows_by mv_id row_of_volume (pe_volumes e).
Definition instance_rows (e : plan_env) : gmap N instance_row := rows_by mi_id mi_row (pe_instances e).
Definition database_rows (e : plan_env) : gmap N database_row := rows_by mb_id mb_row (pe_databases e).
(** The setting of the run that executes a plan, and the world it starts in *)
Definition setting_of (e : plan_env) (app : move_app) (d : draft) : setting :=
  Setting (ma_id app) (ap_server (ma_row app)) (ap_cluster (ma_row app)) (df_server d) (df_cluster d) (plan_of_draft d)
    (volume_rows e) (instance_rows e) (database_rows e).
Definition world_of {D} (e : plan_env) (app : move_app) (row : mig_row) (next : N) (held : gmap place D) : world D :=
  World row (Some (ma_row app)) (volume_rows e) (instance_rows e) (database_rows e) (pe_links e) ∅ next held 0 None.

(** What the tables guarantee (keys, and names of Docker volumes, are unique), what is held where the rows say, and what the
    planner does not check: that nothing the application mounts or depends on is on the target node already. *)
Record rows_sound {D} (e : plan_env) (app : move_app) (d : draft) (next : N) (held : gmap place D) : Prop := RowsSound {
  rw_volumes : NoDup (mv_id <$> pe_volumes e);
  rw_instances : NoDup (mi_id <$> pe_instances e);
  rw_databases : NoDup (mb_id <$> pe_databases e) /\ 0%N ∉ mb_id <$> pe_databases e;
  rw_volume_names : NoDup (mv_docker <$> pe_volumes e);
  rw_instance_names : forall i j, i ∈ pe_instances e -> j ∈ pe_instances e -> ir_volume (mi_row i) = ir_volume (mi_row j) ->
    ir_volume (mi_row i) <> "" -> mi_id i = mi_id j;
  rw_apart : forall v i, v ∈ pe_volumes e -> i ∈ pe_instances e -> mv_docker v <> ir_volume (mi_row i);
  rw_volumes_elsewhere : forall m v, m ∈ ma_mounts app -> moved_volume e app m = Some v -> mv_server v <> df_server d;
  rw_instances_elsewhere : forall it i, it ∈ df_databases d -> di_strategy it = Some StrategyMove -> i ∈ pe_instances e -> mi_id i = di_instance it ->
    ir_server (mi_row i) <> df_server d /\ ir_volume (mi_row i) <> "";
  rw_next : (0 < next)%N /\ (forall i, i ∈ pe_instances e -> (mi_id i < next)%N) /\ (forall b, b ∈ pe_databases e -> (mb_id b < next)%N);
  rw_volume_data : forall v, v ∈ pe_volumes e -> is_Some (held !! on_disk (mv_server v) (mv_docker v));
  rw_instance_data : forall i, i ∈ pe_instances e -> is_Some (held !! on_disk (ir_server (mi_row i)) (ir_volume (mi_row i))) }.

Section Rows.
Context {A B : Type} (key : A -> N) (row : A -> B) (l : list A).
Lemma rows_by_some id b : rows_by key row l !! id = Some b -> exists x, x ∈ l /\ key x = id /\ row x = b.
Proof. intros (x & [= -> ->] & Hx)%elem_of_list_to_map_2%list_elem_of_fmap. eauto. Qed.
Lemma rows_by_elem x : NoDup (key <$> l) -> x ∈ l -> rows_by key row l !! key x = Some (row x).
Proof.
  intros Hn Hx. apply elem_of_list_to_map_1.
  - rewrite <- list_fmap_compose. exact Hn.
  - apply list_elem_of_fmap. by exists x.
Qed.
End Rows.
Lemma mounted_volume_elem e app m v : mounted_volume e app m = Some v -> v ∈ pe_volumes e.
Proof.
  unfold mounted_volume, find_move_volume, pl_ask. destruct (_ || _); [done|]. destruct (pe_fails _ _); [done|].
  by intros [Hin _]%find_first_some.
Qed.
Lemma moved_volume_elem e app m v : moved_volume e app m = Some v -> v ∈ pe_volumes e.
Proof. unfold moved_volume. destruct (_ || _ || _); [done|]. apply mounted_volume_elem. Qed.
Lemma bfilter_keys {A B} (key : A -> B) (p : A -> bool) l : NoDup (key <$> l) -> NoDup (key <$> List.filter p l).
Proof. intros Hn. eapply sublist_NoDup; [exact Hn|]. apply fmap_sublist, bfilter_sublist. Qed.
Lemma dependency_elem e app i dep : dependency e app i = Some dep -> dep.1 = i /\ forall b, b ∈ dep.2 ->
  b ∈ pe_databases e /\ dr_instance (mb_row b) = mi_id i /\ dr_app (mb_row b) = Some (ma_id app).
Proof.
  unfold dependency. destruct (_ || _); [|done]. intros [= <-]. split; [done|]. intros b [Hb Ha%bool_decide_eq_true]%elem_of_bfilter.
  unfold list_instance_databases, pl_list in Hb. destruct (pe_fails _ _); [by apply elem_of_nil in Hb|].
  apply elem_of_bfilter in Hb as [Hb Hi%N.eqb_eq]. done.
Qed.
Lemma dependency_once e app i dep : NoDup (mb_id <$> pe_databases e) -> dependency e app i = Some dep -> NoDup (mb_id <$> dep.2).
Proof.
  unfold dependency. intros Hn. destruct (_ || _); [|done]. intros [= <-]. cbn. apply bfilter_keys.
  unfold list_instance_databases, pl_list. destruct (pe_fails _ _); [constructor|by apply bfilter_keys].
Qed.

Section Started.
Context {e : plan_env} {ws id : N} {rq : plan_request} {d : draft} {app : move_app} {peers : list move_app} {instances : list move_instance} {d0 : draft}.
Context (P : planned e ws id rq d app peers instances d0).
Context {D : Type} {next : N} {held : gmap place D} (R : rows_sound e app d next held).

(** A database of the plan comes from an instance the application depends on. *)
Lemma planned_item pd : pd ∈ mp_databases (plan_of_draft d) -> exists i dep it, i ∈ pe_instances e /\ dependency e app i = Some dep
  /\ it ∈ df_databases d /\ di_strategy it = Some (pd_strategy pd) /\ di_instance it = mi_id i /\ pd_instance pd = mi_id i
  /\ pd_databases pd = (logical_of <$> dep.2)
  /\ it = item_of_database e app peers (pq_databases rq) (same_arch e app (check_volumes e app (check_app e app peers d0))).1 dep.
Proof.
  intros (it & Hit & Hs)%list_elem_of_omap. destruct (di_strategy it) as [s|] eqn:Es; [|done]. injection Hs as <-.
  pose proof Hit as Hit'. destruct (planned_items P) as (_ & _ & _ & Hd). rewrite Hd in Hit.
  apply list_elem_of_fmap in Hit as (dep & Hitd & Hdep). apply list_elem_of_omap in Hdep as (i & Hi & Hdi).
  rewrite (pn_instances _ _ _ _ _ _ _ _ _ P) in Hi. apply elem_of_bfilter in Hi as [Hi _].
  destruct (dependency_elem _ _ _ _ Hdi) as [Ei _]. exists i, dep, it. cbn. rewrite Es.
  assert (E1 : di_instance it = mi_id i) by (rewrite Hitd; unfold item_of_database; cbn; by rewrite Ei).
  assert (E2 : di_databases it = logical_of <$> dep.2) by (by rewrite Hitd).
  split_and!; done.
Qed.
Lemma restored_once : NoDup (restored_ids (plan_of_draft d)).
Proof.
  unfold restored_ids, plan_of_draft. destruct (planned_items P) as (_ & _ & _ & ->). cbn [mp_databases].
  set (f := item_of_database _ _ _ _ _). set (h := fun i : database_item => _). set (g := fun pd : plan_database => _).
  assert (Hn : NoDup (mi_id <$> instances)).
  { rewrite (pn_instances _ _ _ _ _ _ _ _ _ P). apply bfilter_keys, (rw_instances _ _ _ _ _ R). }
  enough (NoDup (List.flat_map g (omap h (f <$> dependencies e app instances)))
    /\ forall n, n ∈ List.flat_map g (omap h (f <$> dependencies e app instances)) -> exists b, b ∈ pe_databases e /\ mb_id b = n
         /\ dr_instance (mb_row b) ∈ mi_id <$> instances) as [H _] by done.
  unfold dependencies. clear P. induction instances as [|i l IH]; [split; [constructor|by intros n ?%elem_of_nil]|].
  apply NoDup_cons in Hn as [Hi Hn]. destruct (IH Hn) as [IH1 IH2]. clear IH.
  assert (IH2' : forall n, n ∈ List.flat_map g (omap h (f <$> omap (dependency e app) l)) -> exists b, b ∈ pe_databases e /\ mb_id b = n
    /\ dr_instance (mb_row b) ∈ mi_id <$> (i :: l)).
  { intros n Hx. destruct (IH2 n Hx) as (b & ? & ? & ?). exists b. split_and!; try done. by right. }
  cbn [omap list_omap]. destruct (dependency e app i) as [dep|] eqn:Ed; [|by split].
  cbn [fmap list_fmap omap list_omap]. destruct (h (f dep)) as [pd|] eqn:Eh; [|by split].
  destruct (dependency_elem _ _ _ _ Ed) as [Ei Hb].
  assert (Hg : g pd = [] \/ g pd = mb_id <$> dep.2).
  { subst g h f. cbn in Eh. destruct (fst <$> _) as [s|]; [|done]. injection Eh as <-. cbn. destruct (bool_decide _); [by left|right].
    rewrite <- list_fmap_compose. done. }
  cbn [List.flat_map]. destruct Hg as [-> | ->]; [by split|]. split.
  - apply NoDup_app. split; [by apply (dependency_once e app i), Ed; apply (rw_databases _ _ _ _ _ R)|]. split; [|done].
    intros n (b & -> & Hin)%list_elem_of_fmap Hn'. destruct (Hb b Hin) as (Hbe & Hbi & _). destruct (IH2 _ Hn') as (b' & Hb' & Hid & Hin').
    assert (b' = b) as -> by (eapply NoDup_fmap_elem; [apply (rw_databases _ _ _ _ _ R)|done..]). by rewrite Hbi in Hin'.
  - intros n [(b & -> & Hin)%list_elem_of_fmap|Hn']%elem_of_app; [|by apply IH2']. destruct (Hb b Hin) as (Hbe & Hbi & _).
    exists b. split_and!; try done. rewrite Hbi. left.
Qed.
Lemma draft_well_planned : well_planned (setting_of e app d).
Proof.
  destruct (planned_items P) as (Hs & _ & Hv & Hd).
  assert (HV : forall n v, volume_rows e !! n = Some v -> exists x, x ∈ pe_volumes e /\ mv_id x = n /\ row_of_volume x = v) by apply rows_by_some.
  assert (HI : forall n v, instance_rows e !! n = Some v -> exists x, x ∈ pe_instances e /\ mi_id x = n /\ mi_row x = v) by apply rows_by_some.
  constructor; cbn [sg_app sg_src_server sg_tgt_server sg_plan sg_volumes sg_instances sg_databases setting_of].
  - intros n Hp. unfold planned_volume in Hp. cbn in Hp. rewrite <- list_fmap_compose in Hp.
    apply list_elem_of_fmap in Hp as (it & -> & Hit). rewrite Hv in Hit. apply list_elem_of_omap in Hit as (m & Hm & Hmv).
    destruct (moved_volume e app m) as [v|] eqn:Em; [|done]. injection Hmv as <-. pose proof (moved_volume_elem _ _ _ _ Em) as Hin.
    exists (row_of_volume v). split; [by apply (rows_by_elem mv_id); [apply (rw_volumes _ _ _ _ _ R)|]|]. by apply (rw_volumes_elsewhere _ _ _ _ _ R m).
  - intros n (pd & Hpd & <- & Hm). destruct (planned_item pd Hpd) as (i & dep & it & Hi & _ & Hit & Hst & Hii & -> & _).
    exists (mi_row i). split; [by apply (rows_by_elem mi_id); [apply (rw_instances _ _ _ _ _ R)|]|]. rewrite Hm in Hst. by apply (rw_instances_elsewhere _ _ _ _ _ R it).
  - intros i j v v' (x & Hx & <- & <-)%HV (y & Hy & <- & <-)%HV E. f_equal. eapply NoDup_fmap_elem; [apply (rw_volume_names _ _ _ _ _ R)|done..].
  - intros i j v v' (x & Hx & <- & <-)%HI (y & Hy & <- & <-)%HI E Hne. by apply (rw_instance_names _ _ _ _ _ R).
  - intros i j v v' (x & Hx & <- & <-)%HV (y & Hy & <- & <-)%HI. by apply (rw_apart _ _ _ _ _ R).
  - intros pd x (Hpd & _ & Hx). destruct (planned_item pd Hpd) as (i & dep & it & _ & Hdep & _ & _ & _ & _ & Hdb & _).
    rewrite Hdb in Hx. apply list_elem_of_fmap in Hx as (b & -> & Hb). destruct (dependency_elem _ _ _ _ Hdep) as [_ Hdb'].
    destruct (Hdb' b Hb) as (Hbe & _ & Ha). destruct (rw_databases _ _ _ _ _ R) as [Hn H0]. cbn. split.
    + intros Hz. apply H0. rewrite <- Hz. apply list_elem_of_fmap. by exists b.
    + exists (mb_row b). split; [by apply (rows_by_elem mb_id)|done].
  - intros pd pd' H1 H2 E. destruct (planned_item pd H1) as (i & dep & it & Hi & Hdep & _ & Hst & _ & Ep & _ & Hit).
    destruct (planned_item pd' H2) as (i' & dep' & it' & Hi' & Hdep' & _ & Hst' & _ & Ep' & _ & Hit').
    assert (i = i') as <- by (eapply NoDup_fmap_elem; [apply (rw_instances _ _ _ _ _ R)|done|done|congruence]).
    assert (dep = dep') as <- by congruence. congruence.
  - exact restored_once.
Qed.
Lemma draft_started (row : mig_row) manual :
  row = start_migration (ma_id app) (ma_row app) (plan_of_draft d) (df_server d) (df_cluster d) manual ->
  mig_started (setting_of e app d) (world_of e app row next held).
Proof.
  intros ->. constructor; try done.
  - by exists (ma_row app), manual.
  - destruct (rw_next _ _ _ _ _ R) as (H0 & H1 & H2). split; [done|].
    split; intros n [b (x & Hx & <- & _)%rows_by_some]; [by apply H1|by apply H2].
  - intros n v _ (x & Hx & _ & <-)%rows_by_some. by apply (rw_volume_data _ _ _ _ _ R).
  - intros n v _ (x & Hx & _ & <-)%rows_by_some. by apply (rw_instance_data _ _ _ _ _ R).
Qed.
End Started.


(** ** A workspace that moves *)

(** Two locations of one node each; an application with a volume and a database instance of its own; another application,
    with a database on an instance they share *)
Module Office.
Definition two_locations : place_env :=
  PlaceEnv [Cluster 1 "paris" "" "" mode_standalone true 0 "all" None false; Cluster 2 "berlin" "Berlin" "" mode_standalone false 30 "all" None false]
    [Server 20 "local" "" 1 true false "" ∅; Server 30 "b" "" 2 false false "" ∅] ∅ [] [] {[ 5%N := OrgWorkspace false None ]}
    [Organization 1 "default" "" true] (Some (fun _ => true)) None true (fun _ => false).
Definition shop : move_app :=
  MoveApp 7 5 "shop" "" (AppRow 20 1 AppRunning false "c7" 3) (Some 3%N) None None 0 ∅ [MoveMount 1 0 "/data" "" ""] [EnvVar "pg://mb-db-5" false].
Definition blog : move_app := MoveApp 8 5 "blog" "" (AppRow 20 1 AppRunning false "c8" 4) (Some 4%N) None None 0 ∅ [] [].
Definition data : move_volume := MoveVolume 1 5 "data" "vol" 20 1 "t0" "/src" "local" false 4096 "default".
Definition pg (server cluster : N) (st : db_status) : move_instance :=
  MoveInstance 5 5 "pg" "postgres" "16.2" "mb-db-5" ∅ (InstanceRow "db" server cluster "d5" "t0" "default" st None).
Definition env_with (server cluster : N) (owner : N) (past : list past) (fails : plan_query -> bool) : plan_env :=
  PlanEnv two_locations [shop; blog] [data] [pg server cluster DbRunning]
    [MoveDb 9 (DatabaseRow 5 "main" (Some 7%N) "DB" ∅ [] false); MoveDb 10 (DatabaseRow 5 "other" (Some owner) "" ∅ [] false)] [] past []
    (fun _ => Some (Some "amd64")) (fun _ _ => false) [] fails.
Definition env : plan_env := env_with 20 1 7 [] (fun _ => false).
Definition ask_berlin : plan_request := PlanRequest " berlin " [] false.
Definition draft_of (e : plan_env) : option draft := match plan e 5 7 ask_berlin with Ok (d, _) => Some d | Err _ => None end.
Definition the_draft : draft := Eval vm_compute in default (Draft "" "" 0 0 false [] [] [] [] 0 [] []) (draft_of env).
Definition held : gmap Migration.place nat := <[on_disk 20 "vol" := 10%nat]> {[on_disk 20 "db" := 20%nat]}.
Lemma plan_is : plan env 5 7 ask_berlin = Ok (the_draft, shop).
Proof. vm_compute. reflexivity. Qed.
Lemma sound : rows_sound env shop the_draft 100 held.
Proof.
  constructor.
  1-2: by apply (bool_decide_unpack _); vm_compute.
  - split; by apply (bool_decide_unpack _); vm_compute.
  - by apply (bool_decide_unpack _); vm_compute.
  - by intros i j ->%list_elem_of_singleton ->%list_elem_of_singleton.
  - by intros v i ->%list_elem_of_singleton ->%list_elem_of_singleton.
  - intros m v ->%list_elem_of_singleton. vm_compute. by intros [= <-].
  - by intros it i _ _ ->%list_elem_of_singleton _.
  - split; [done|]. split; [by intros i ->%list_elem_of_singleton|].
    intros b [E|E]%elem_of_cons; [by subst|by apply list_elem_of_singleton in E as ->].
  - intros v ->%list_elem_of_singleton. by exists 10%nat.
  - intros i ->%list_elem_of_singleton. by exists 20%nat.
Qed.
End Office.

(** The tables of that workspace are sound. *)
Example office_is_sound : well_planned (setting_of Office.env Office.shop Office.the_draft).
Proof.
  destruct (plan_planned _ _ _ _ _ _ Office.plan_is) as (peers & instances & d0 & P). exact (draft_well_planned P Office.sound).
Qed.

(** [dependencies] (planner.go:243) does not ask where an instance is: one that is at the target already is planned to move whole. The
    run then prepares its volume as if it were a copy, cannot copy it onto itself, and asks for its removal when it
    gives up. *)
Example planned_onto_itself : let e := Office.env_with 30 2 7 [] (fun _ => false) in
  exists d, Office.draft_of e = Some d /\ df_blockers d = [] /\ df_server d = 30%N /\ (di_strategy <$> df_databases d) = [Some StrategyMove]
    /\ (ir_server ∘ mi_row <$> pe_instances e) = [30%N].
Proof. eexists. vm_compute. done. Qed.
Definition same_node (n : nat) (c : call) : answer nat :=
  match c with
  | CSync s t _ _ => Answer (negb (s =? t)%N) "transfer: source and target are the same node" "t1" "" "" "" 0 0 0 false false PollFailed 0%nat []
  | _ => Small.answers n c
  end.
Example onto_itself_removes_the_data : let e := Office.env_with 30 2 7 [] (fun _ => false) in
  match start e true None true 5 7 Office.ask_berlin "auto" with
  | (Some row, Ok tt) =>
      let w := run same_node Small.ticks (fun _ _ _ => None) (fun _ _ _ _ => []) (fun _ => false) true None
                 (world_of e Office.shop row 100 (<[on_disk 20 "vol" := 10%nat]> {[on_disk 30 "db" := 20%nat]})) in
      mg_status (ro_mig (w_row w)) = MigFailed /\ w_held w !! on_disk 30 "db" = None
  | _ => False
  end.
Proof. vm_compute. done. Qed.

(** [exclusive] (planner.go:266) ignores the errors of its queries: an instance that other applications use is the application's
    alone when its databases cannot be listed at that moment, and is planned to move whole. *)
Example unlisted_is_exclusive :
  (exists d, Office.draft_of (Office.env_with 20 1 8 [] (fun _ => false)) = Some d /\ (di_strategy <$> df_databases d) = [Some StrategyNewInstance])
  /\ exists d, Office.draft_of (Office.env_with 20 1 8 [] (fun q => match q with PlanDatabases SiteExclusive _ => true | _ => false end)) = Some d
     /\ df_blockers d = [] /\ (di_strategy <$> df_databases d) = [Some StrategyMove].
Proof. split; eexists; vm_compute; done. Qed.

(** [ActiveForApp] (location_migration_repo.go:71) leaves out a failed migration whose rollback failed after the switch: the
    application can be moved again, while [Rollback] of the first is still allowed and would take the rows back. *)
Example failed_rollback_is_not_active : let m := Past 3 7 MigFailed true true in
  (start (Office.env_with 20 1 7 [m] (fun _ => false)) true None true 5 7 Office.ask_berlin "auto").2 = Ok tt
  /\ forall w : world nat, mg_status (ro_mig (w_row w)) = pt_status m -> so_stopped (mg_state (ro_mig (w_row w))) = pt_stopped m -> (ask_rollback w).2 = Ok tt.
Proof.
  split; [vm_compute; reflexivity|]. intros w Hs Ha. cbn in Hs, Ha. unfold ask_rollback. rewrite Hs, Ha. done.
Qed.
