(* ===== verification/Registry.v ===== *)
(** * The built-in registry: whose image a reference names

    [internal/services/registryserver/ref.go] with the names of distribute.go and auth.go. A reference on the registry's host
    belongs to the workspace its namespace names, by its name or as [ws_<id>]; one pull credential covers every namespace, so
    resolving a reference is the only boundary between tenants. Each operation reads the settings anew: what one such read
    finds is a record, whose host is empty when the settings cannot be read, and then no reference is on the host
    ([RegistryHost] answers an empty host for an error). *)
From S2P Require Import Prelude GoStrings.
#[local] Open Scope Z_scope.
#[local] Open Scope list_scope.

(** What one read of [Service] finds, as far as references go: the host (empty when the settings cannot be read), why
    distribution is unavailable (empty when it is not), and the workspaces: by id the name, when a finder is configured
    and answers *)
Record registry := Registry { rg_host : string; rg_unavailable : string; rg_workspaces : option (gmap N string) }.

(** [Namespace] *)
Definition namespace (workspace : N) : string := "ws_" +:+ itoa (Z.of_N workspace).
(** [strconv.ParseUint(s, 10, 64)] *)
Definition parse_uint (s : string) : option N :=
  if String.eqb s "" || negb (str_forall is_digit s) then None
  else match atoi_digits s with Some n => if n <? 2 ^ 64 then Some (Z.to_N n) else None | None => None end.
Definition parse_id_namespace (ns : string) : option N :=
  match cut_prefix "ws_" ns with Some rest => parse_uint rest | None => None end.
(** [FindByID], [FindByName]: names are unique *)
Definition named_workspace (name : string) (rows : gmap N string) : option (N * string) :=
  find_first (fun r => String.eqb r.2 name) (map_to_list rows).
Definition resolve_namespace (g : registry) (ns : string) : option (N * string) :=
  match rg_workspaces g with
  | None => None
  | Some rows =>
      match parse_id_namespace ns with
      | Some id => (fun name => (id, name)) <$> rows !! id
      | None => named_workspace ns rows
      end
  end.

(** [splitInternalRef]: the namespace and the rest, of a reference on the host *)
Definition split_internal_ref (host ref : string) : string * string * bool :=
  let host := trim_space host in
  let ref := trim_space ref in
  if String.eqb host "" || String.eqb ref "" then ("", "", false)
  else
    match cut_prefix (host +:+ "/") ref with
    | None => ("", "", false)
    | Some body =>
        let '(ns, rest, found) := cut "/" body in
        if negb found || String.eqb ns "" || String.eqb rest "" then ("", body, true) else (ns, rest, true)
    end.
Definition is_internal_ref (g : registry) (ref : string) : bool := (split_internal_ref (rg_host g) ref).2.

Inductive ref_err := ErrUnknownNamespace (ref : string) | ErrForeignNamespace (ref workspace : string).
(** [ResolveImageRef] *)
Definition resolve_image_ref (g : registry) (workspace : N) (ref : string) : result ref_err string :=
  let host := rg_host g in
  let '(ns, rest, internal) := split_internal_ref host ref in
  if negb internal then Ok ref
  else if String.eqb ns "" then Err (ErrUnknownNamespace ref)
  else
    match resolve_namespace g ns with
    | None => Err (ErrUnknownNamespace ref)
    | Some (id, name) => if (id =? workspace)%N then Ok (host +:+ "/" +:+ namespace id +:+ "/" +:+ rest) else Err (ErrForeignNamespace ref name)
    end.
(** [BuildRef], [PushAuth]: the credential is the server's name. *)
Definition build_ref (g : registry) (workspace : N) (app : string) (deployment : N) : string :=
  if String.eqb (rg_host g) "" then ""
  else rg_host g +:+ "/" +:+ namespace workspace +:+ "/" +:+ app +:+ ":" +:+ itoa (Z.of_N deployment).
Definition push_auth (g : registry) : option string := if String.eqb (rg_host g) "" then None else Some (rg_host g).

(** ** Lemmas *)

Lemma parse_uint_itoa n : (n < 2 ^ 64)%N -> parse_uint (itoa (Z.of_N n)) = Some n.
Proof.
  intros H. unfold parse_uint. rewrite itoa_digits by lia. destruct (itoa_cons (Z.of_N n)) as (c & s & E & _); [lia|].
  rewrite E. cbn -[atoi_digits Z.ltb]. rewrite <- E, atoi_digits_itoa.
  assert (Hz : (Z.of_N n <? 2 ^ 64) = true) by (apply Z.ltb_lt; lia). rewrite Hz. f_equal. lia.
Qed.
Lemma parse_id_namespace_of n : (n < 2 ^ 64)%N -> parse_id_namespace (namespace n) = Some n.
Proof. intros H. unfold parse_id_namespace, namespace. rewrite cut_prefix_app. by apply parse_uint_itoa. Qed.
Lemma namespace_inj a b : namespace a = namespace b -> a = b.
Proof. intros H%str_app_inv_head%itoa_inj. lia. Qed.

Lemma cut_true_without sep s a b : cut sep s = (a, b, true) -> str_forall (without sep) a = true.
Proof.
  revert a. induction s as [|c s IH]; cbn; intros a H; [done|]. destruct (Ascii.eqb_spec c sep) as [->|Hc]; [by simplify_eq|].
  destruct (cut sep s) as [[a' b'] f]. simplify_eq. cbn. rewrite IH by done. unfold without. by destruct (Ascii.eqb_spec c sep).
Qed.
(** What [split_internal_ref] says of a reference *)
Lemma split_internal_shape host ref ns rest : split_internal_ref host ref = (ns, rest, true) -> ns <> "" ->
  trim_space ref = trim_space host +:+ "/" +:+ ns +:+ "/" +:+ rest /\ rest <> "" /\ str_forall (without "/") ns = true.
Proof.
  unfold split_internal_ref. destruct (String.eqb (trim_space host) "" || String.eqb (trim_space ref) "") eqn:E; [intros H; simplify_eq|].
  destruct (cut_prefix _ _) as [body|] eqn:Ec; [|intros; simplify_eq].
  apply cut_prefix_some in Ec. destruct (cut "/" body) as [[n r] f] eqn:Eb.
  destruct f; cbn; [|intros; simplify_eq].
  destruct (String.eqb_spec n ""); cbn; [intros; simplify_eq|]. destruct (String.eqb_spec r ""); cbn; [intros; simplify_eq|].
  intros H Hn. simplify_eq. pose proof (cut_true _ _ _ _ Eb) as ->. split_and!; [|done|].
  - by rewrite Ec, <- str_app_assoc.
  - by eapply cut_true_without.
Qed.
