(* ===== verification/DeployRules.v ===== *)
(** * What a deployment decides

    The decisions of [internal/worker/deploy.go] and [imagereuse.go] that need no engine: which image reference runs, when
    a cached image may be reused, the strategy in force, the probe of a container and how long it may take, the variables
    and aliases it gets, and the ramp of a canary; with the image references and strategies of [models/application.go].
    And the routing of a canary: its validation and preview ([services/application/canary.go], [canary_preview.go]) and the
    backends a route is rendered with ([services/route/route.go]). Regular expressions are an argument. *)
From S2P Require Import Prelude GoStrings ControlAct.
#[local] Open Scope Z_scope.
#[local] Open Scope list_scope.

(** ** Image references *)

Definition after_last (sep : ascii) (s : string) : string :=
  match before_last sep s with Some t => str_drop (S (String.length t)) s | None => s end.
Definition through_last (sep : ascii) (s : string) : string :=
  match before_last sep s with Some t => t +:+ String sep EmptyString | None => "" end.
(** [ComposeImageRef], [Application.ImageRef], [SplitImageRef] *)
Definition compose_image_ref (image tag : string) : string :=
  if String.eqb image "" then image
  else if contains "@" image then image
  else if contains ":" (after_last "/" image) then image
  else image +:+ ":" +:+ (if String.eqb tag "" then "latest" else tag).
Definition image_ref (image tag digest override : string) : string :=
  if String.eqb override "" && negb (String.eqb digest "") && negb (String.eqb image "") && negb (contains "@" image)
  then image +:+ "@" +:+ digest
  else compose_image_ref image (if String.eqb override "" then tag else override).
Definition split_image_ref (ref : string) : string * string :=
  if String.eqb ref "" then ("", "")
  else if contains "@" ref then (ref, "")
  else
    let seg := after_last "/" ref in
    match before_last ":" seg with
    | Some name => (through_last "/" ref +:+ name, after_last ":" seg)
    | None => (ref, "")
    end.
(** [isPinnedRef] *)
Definition is_pinned_ref (digest ref : string) : bool := negb (String.eqb digest "") && has_suffix ("@" +:+ digest) ref.

(** [looksLikeHost], [registryHostOf], [authServer] *)
Definition docker_hub : string := "docker.io".
Definition looks_like_host (seg : string) : bool := contains "." seg || contains ":" seg || String.eqb seg "localhost".
Definition registry_host_of (ref : string) : string :=
  let '(head, _, found) := cut "/" (trim_space ref) in
  if negb found || negb (looks_like_host head) then docker_hub
  else
    let host := to_lower head in
    if existsb (String.eqb host) ["index.docker.io"; "registry-1.docker.io"; "registry.hub.docker.com"; docker_hub] then docker_hub else host.
Fixpoint after_scheme (s : string) : option string :=
  match cut_prefix "://" s with
  | Some rest => Some rest
  | None => match s with EmptyString => None | String _ s => after_scheme s end
  end.
Definition auth_server (server : string) : string :=
  let s := to_lower (trim_space server) in
  let s := match after_scheme s with Some rest => rest | None => s end in
  let s := (cut "/" s).1.1 in
  if String.eqb s "" then docker_hub else if negb (looks_like_host s) then docker_hub else s +:+ "/".
(** [mayReuseCachedImage]: the credential is the server's name, [None] without one. *)
Definition may_reuse_cached_image (ref : string) (internal : bool) (auth : option string) : bool :=
  if internal then true
  else match auth with None => false | Some server => String.eqb (registry_host_of ref) (registry_host_of (auth_server server)) end.

(** ** Strategies *)

Definition deploy_recreate : string := "recreate".
Definition deploy_rolling : string := "rolling".
Definition deploy_canary : string := "canary".
(** [ValidDeployStrategy], [EffectiveDeployStrategy] *)
Definition valid_deploy_strategy (s : string) : bool := existsb (String.eqb s) [deploy_recreate; deploy_rolling; deploy_canary].
Definition effective_deploy_strategy (configured : string) (released : bool) (requested : string) : string :=
  let st := if valid_deploy_strategy requested then requested else configured in
  let st := if valid_deploy_strategy st then st else deploy_rolling in
  if String.eqb st deploy_canary && negb released then deploy_rolling else st.
(** [effectiveStrategy] and [failedAppStatus] of the worker *)
Definition effective_strategy (requested : string) (published : nat) : string :=
  if String.eqb requested deploy_rolling && (0 <? published)%nat then deploy_recreate else requested.
Inductive live_status := LiveCreated | LiveDeploying | LiveRunning | LiveStopped | LiveFailed.
#[export] Instance live_status_eq_dec : EqDecision live_status.
Proof. solve_decision. Defined.
Definition failed_app_status (has_current : bool) (strategy : string) : live_status :=
  if has_current && negb (String.eqb strategy deploy_recreate) then LiveRunning else LiveFailed.

(** ** The probe of a container *)

Record health_conf := HealthConf {
  hk_type : string; hk_path : string; hk_port : Z; hk_command : string; hk_interval : Z; hk_timeout : Z; hk_retries : Z; hk_start : Z }.
Record health_spec := HealthSpec { hs_test : list string; hs_interval : Z; hs_timeout : Z; hs_retries : Z; hs_start : Z }.
Definition second : Z := 10 ^ 9.
Definition clamp_int (v lo hi : Z) : Z := if v <? lo then lo else if hi <? v then hi else v.
Definition hc_interval (h : health_conf) : Z := clamp_int (hk_interval h) 1 3600.
Definition hc_timeout (h : health_conf) : Z := clamp_int (hk_timeout h) 1 3600.
Definition hc_retries (h : health_conf) : Z := clamp_int (hk_retries h) 1 20.
(** [GatesDeploy] *)
Definition gates_deploy (h : health_conf) : bool := String.eqb (hk_type h) "http" || String.eqb (hk_type h) "command".
Definition health_gate_timeout (h : health_conf) : Z :=
  if negb (gates_deploy h) then 15 * second
  else
    let d := clamp_int (hk_start h) 0 600 * second + hc_interval h * second * (hc_retries h + 1) + 15 * second in
    if 180 * second <? d then 180 * second else d.
Fixpoint quote_chars (s : string) : string :=
  match s with
  | EmptyString => EmptyString
  | String c s => if Ascii.eqb c "'" then "'\''" +:+ quote_chars s else String c (quote_chars s)
  end.
Definition shell_quote (s : string) : string := "'" +:+ quote_chars s +:+ "'".
Definition http_check_target (h : health_conf) (port : Z) : Z * string :=
  let p := if hk_port h =? 0 then port else hk_port h in
  let p := if p =? 0 then 80 else p in
  let path := trim_space (hk_path h) in
  (p, if has_prefix "/" path then path else "/" +:+ path).
(** The shell's double quote, as a string *)
Definition dq : string := String (ascii_of_nat 34) "".
Definition shell_http_probe (port : Z) (path : string) : string :=
  let url := shell_quote ("http://127.0.0.1:" +:+ itoa port +:+ path) in
  let dev_tcp := "exec 3<>/dev/tcp/127.0.0.1/" +:+ itoa port +:+ " && printf " +:+ dq +:+
    "GET %s HTTP/1.1\r\nHost: localhost\r\nConnection: close\r\n\r\n" +:+ dq +:+ " " +:+ dq +:+ "$1" +:+ dq +:+
    " >&3 && read -r _ c _ <&3 && [ " +:+ dq +:+ "$c" +:+ dq +:+ " -ge 200 ] && [ " +:+ dq +:+ "$c" +:+ dq +:+ " -lt 400 ]" in
  "if command -v curl >/dev/null 2>&1; then curl -fsS -o /dev/null " +:+ url +:+
  "; elif command -v wget >/dev/null 2>&1; then wget -q -O /dev/null " +:+ url +:+
  "; elif command -v bash >/dev/null 2>&1; then bash -c " +:+ shell_quote dev_tcp +:+ " _ " +:+ shell_quote path +:+
  "; else echo 'no curl, wget or bash in the image: use a command healthcheck' >&2; exit 1; fi".
Definition build_healthcheck (h : health_conf) (port : Z) : option health_spec :=
  let spec test := Some (HealthSpec test (hc_interval h * second) (hc_timeout h * second) (hc_retries h) (clamp_int (hk_start h) 0 600 * second)) in
  if String.eqb (hk_type h) "http" then
    let '(p, path) := http_check_target h port in spec ["CMD-SHELL"; shell_http_probe p path]
  else if String.eqb (hk_type h) "command" then
    let cmd := trim_space (hk_command h) in
    if String.eqb cmd "" then None else spec ["CMD-SHELL"; cmd]
  else if String.eqb (hk_type h) "none" then Some (HealthSpec ["NONE"] 0 0 0 0)
  else None.

(** ** What a container is given *)

(** [ensurePortEnv] *)
Definition ensure_port_env (env : list string) (port : Z) : list string :=
  if existsb (has_prefix "PORT=") env then env else env ++ ["PORT=" +:+ itoa (if port =? 0 then 8080 else port)].
(** [AppAlias], [CanaryAlias], and the name of a deployment's container *)
Definition deploy_alias (alias : string) (id : N) : string := if String.eqb alias "" then "mb-app-" +:+ itoa (Z.of_N id) else alias.
Definition canary_alias (alias : string) (id : N) : string := deploy_alias alias id +:+ "-canary".
Definition container_name (alias : string) (id deployment : N) : string := deploy_alias alias id +:+ "-" +:+ itoa (Z.of_N deployment).
(** [appendUniqueAlias] and [nameAliasesByNetwork], of the networks' Docker names and the stack's network *)
Definition append_unique_alias (l : list string) (name : string) : list string := if existsb (String.eqb name) l then l else l ++ [name].
Definition name_aliases_by_network (name : string) (stack_network : option string) (networks : list string) (canary : bool) : gmap string (list string) :=
  let out := match stack_network with Some n => if String.eqb n "" then ∅ else {[ n := [name] ]} | None => ∅ end in
  if canary then out
  else foldl (fun m n => if String.eqb n "" then m else <[n := append_unique_alias (default [] (m !! n)) name]> m) out networks.

(** ** The ramp of a canary *)

Record canary_conf := CanaryConf { cc_initial : Z; cc_step : Z; cc_interval : Z }.
Definition default_canary_weight : Z := 10.
Definition canary_initial_weight (c : canary_conf) : Z :=
  if (1 <=? cc_initial c) && (cc_initial c <=? 99) then cc_initial c else default_canary_weight.
Definition canary_step (c : canary_conf) : Z := if (1 <=? cc_step c) && (cc_step c <=? 99) then cc_step c else 20.
Definition canary_interval (c : canary_conf) : Z := if 10 <=? cc_interval c then cc_interval c else 60.
Definition next_canary_weight (current step : Z) : Z := let n := wrap64 (current + step) in if 100 <? n then 100 else n.
Inductive ramp_action := RampAdvance | RampPromote | RampHold.
(** [nextCanaryRamp]: [held] is whether the rollout is paused or in manual mode. *)
Definition next_canary_ramp (c : canary_conf) (held : bool) (weight : Z) : ramp_action * Z :=
  if held then (RampHold, weight)
  else
    let next := next_canary_weight weight (canary_step c) in
    if 100 <=? next then (RampPromote, 100) else (RampAdvance, next).

(** ** The routing of a canary *)

(** [CanaryMatchRule], [CanaryRouting] *)
Record match_rule := MatchRule { cm_source : string; cm_name : string; cm_op : string; cm_value : string }.
#[export] Instance match_rule_eq_dec : EqDecision match_rule.
Proof. solve_decision. Defined.
Record canary_routing := CanaryRouting { cr_mode : string; cr_exclusive : bool; cr_priority : Z; cr_match : list match_rule }.
Definition mode_auto : string := "auto".
Definition mode_manual : string := "manual".
Definition valid_canary_mode (m : string) : bool := existsb (String.eqb m) [mode_auto; mode_manual].
Definition match_sources : list string := ["header"; "query"; "cookie"; "ip"].
Definition match_operators : list string := ["equals"; "not_equals"; "contains"; "not_contains"; "starts_with"; "ends_with"; "regex"; "in"].
Definition max_canary_match_rules : nat := 10.
Inductive canary_err :=
| ErrCanaryModeInvalid | ErrCanaryRulesNeedManual | ErrCanaryExclusiveNoMatch | ErrCanaryPooledZeroWeight | ErrCanaryTooManyRules
| ErrCanaryMatchSource | ErrCanaryMatchOperator | ErrCanaryMatchName | ErrCanaryMatchValue | ErrCanaryMatchRegex (pattern : string)
| ErrCanaryPriority | ErrNoCanary | ErrCanaryActive | ErrNotDeployable | ErrReleaseNotFound | ErrReleaseActive | ErrReleasePinned
| ErrGuard | ErrQueue | ErrRolloutDB.

(** [normalizeCanaryRouting] *)
Definition normalize_rule (r : match_rule) : match_rule :=
  MatchRule (to_lower (trim_space (cm_source r))) (trim_space (cm_name r)) (to_lower (trim_space (cm_op r))) (trim_space (cm_value r)).
Definition normalize_canary_routing (r : canary_routing) : result canary_err canary_routing :=
  let mode := if String.eqb (cr_mode r) "" then mode_auto else cr_mode r in
  if negb (valid_canary_mode mode) then Err ErrCanaryModeInvalid
  else
    let auto := String.eqb mode mode_auto in
    Ok (CanaryRouting mode (negb auto && cr_exclusive r) (if auto then 0 else cr_priority r) (normalize_rule <$> cr_match r)).

Section Routing.
(** [regexp.MatchString] of a pattern and a text: nothing when the pattern does not compile *)
Context (regex : string -> string -> option bool).

(** [validateCanaryMatchRule], [validateCanaryRouting]; the weight is the one in force ([effectiveCanaryWeight]). *)
Definition validate_match_rule (r : match_rule) : option canary_err :=
  if negb (existsb (String.eqb (cm_source r)) match_sources) then Some ErrCanaryMatchSource
  else if negb (existsb (String.eqb (cm_op r)) match_operators) then Some ErrCanaryMatchOperator
  else if negb (String.eqb (cm_source r) "ip") && String.eqb (cm_name r) "" then Some ErrCanaryMatchName
  else if String.eqb (cm_value r) "" then Some ErrCanaryMatchValue
  else if String.eqb (cm_op r) "regex" && bool_decide (regex (cm_value r) "" = None) then Some (ErrCanaryMatchRegex (cm_value r))
  else None.
Fixpoint first_err {A} (f : A -> option canary_err) (l : list A) : option canary_err :=
  match l with [] => None | x :: l => match f x with Some er => Some er | None => first_err f l end end.
Definition validate_canary_routing (weight : Z) (r : canary_routing) : option canary_err :=
  let some := negb (bool_decide (cr_match r = [])) in
  if String.eqb (cr_mode r) mode_auto && some then Some ErrCanaryRulesNeedManual
  else if (cr_priority r <? 0) || (1000 <? cr_priority r) then Some ErrCanaryPriority
  else if (max_canary_match_rules <? length (cr_match r))%nat then Some ErrCanaryTooManyRules
  else if cr_exclusive r && negb some then Some ErrCanaryExclusiveNoMatch
  else if negb (cr_exclusive r) && some && (weight <=? 0) then Some ErrCanaryPooledZeroWeight
  else first_err validate_match_rule (cr_match r).

(** [textproto.CanonicalMIMEHeaderKey]: unchanged when a byte may not be in a header name *)
Definition token_byte (c : ascii) : bool :=
  is_lower c || is_upper c || is_digit c || existsb (Ascii.eqb c) ["!"; "#"; "$"; "%"; "&"; "'"; "*"; "+"; "-"; "."; "^"; "_"; "`"; "|"; "~"]%char.
Fixpoint canonical_from (upper : bool) (s : string) : string :=
  match s with
  | EmptyString => EmptyString
  | String c s => String (if upper then upper_ascii c else lower_ascii c) (canonical_from (Ascii.eqb c "-") s)
  end.
Definition canonical_header (s : string) : string := if str_forall token_byte s then canonical_from true s else s.

(** [CanaryPreviewRequest]: a header's place in the list is the place the iteration of the map gives it. *)
Record preview_request := PreviewRequest {
  pr_headers : list (string * string); pr_query : gmap string string; pr_cookies : gmap string string; pr_ip : string }.
Definition lookup_header (headers : list (string * string)) (name : string) : string :=
  match find_first (fun h => String.eqb h.1 name) headers with
  | Some h => h.2
  | None =>
      match find_first (fun h => String.eqb (canonical_header h.1) (canonical_header name)) headers with Some h => h.2 | None => "" end
  end.
Definition preview_value (q : preview_request) (r : match_rule) : string :=
  if String.eqb (cm_source r) "header" then lookup_header (pr_headers q) (cm_name r)
  else if String.eqb (cm_source r) "query" then default "" (pr_query q !! cm_name r)
  else if String.eqb (cm_source r) "cookie" then default "" (pr_cookies q !! cm_name r)
  else if String.eqb (cm_source r) "ip" then pr_ip q
  else "".
(** [evaluateCanaryOperator] *)
Definition evaluate_operator (op actual expected : string) : bool :=
  if String.eqb op "equals" then String.eqb actual expected
  else if String.eqb op "not_equals" then negb (String.eqb actual expected)
  else if String.eqb op "contains" then contains expected actual
  else if String.eqb op "not_contains" then negb (contains expected actual)
  else if String.eqb op "starts_with" then has_prefix expected actual
  else if String.eqb op "ends_with" then has_suffix expected actual
  else if String.eqb op "regex" then match regex expected actual with Some b => b | None => false end
  else if String.eqb op "in" then existsb (fun v => String.eqb (trim_space v) actual) (split "," expected)
  else false.
Definition rule_matches (q : preview_request) (r : match_rule) : bool := evaluate_operator (cm_op r) (preview_value q r) (cm_value r).

(** What a canary has of its application: whether there is one, its weight, and its rules *)
Record canary_view := CanaryView { cv_live : bool; cv_weight : Z; cv_initial : Z; cv_exclusive : bool; cv_priority : Z; cv_match : list match_rule }.
(** [effectiveCanaryWeight] *)
Definition effective_canary_weight (v : canary_view) : Z := if cv_live v then cv_weight v else cv_initial v.
(** [PreviewCanaryRouting]: the backend, the chance of the canary, and whether every rule holds *)
Inductive preview_backend := PreviewStable | PreviewCanary | PreviewSplit.
Definition preview_canary_routing (v : canary_view) (q : preview_request) : preview_backend * Z * bool :=
  let w := effective_canary_weight v in
  let w := if 100 <? w then 100 else w in
  let w := if w <? 0 then 0 else w in
  let matched := forallb (rule_matches q) (cv_match v) in
  match cv_match v with
  | [] => if w <=? 0 then (PreviewStable, 0, matched) else (PreviewSplit, w, matched)
  | _ =>
      if negb matched then (PreviewStable, 0, matched)
      else if cv_exclusive v then (PreviewCanary, 100, matched)
      else if w <=? 0 then (PreviewStable, 0, matched)
      else (PreviewSplit, w, matched)
  end.

(** [proxy.Backend] and [aliasBackends]: the stable backend, and the canary's *)
Record backend := Backend { bk_endpoint : string; bk_weight : Z; bk_exclusive : bool; bk_priority : Z; bk_match : list match_rule }.
Definition alias_backends (v : canary_view) (alias : string) (id : N) (port : Z) (scheme : string) : list backend :=
  let endpoint a := scheme +:+ "://" +:+ a +:+ ":" +:+ itoa port in
  let w := if 100 <? cv_weight v then 100 else cv_weight v in
  let w := if w <? 0 then 0 else w in
  let some := negb (bool_decide (cv_match v = [])) in
  if negb (cv_live v) || ((w <=? 0) && negb (cv_exclusive v && some)) then [Backend (endpoint (deploy_alias alias id)) 0 false 0 []]
  else
    [Backend (endpoint (deploy_alias alias id)) (100 - w) false 0 [];
     Backend (endpoint (canary_alias alias id)) w (some && cv_exclusive v) (if some then cv_priority v else 0) (cv_match v)].
End Routing.
