(* ===== verification/Rollout.v ===== *)
(** * The rollout of an application: the state

    What a deployment, a canary's timer and people change of one application: its row, its deployments and releases
    ([storage/repositories/application_repo.go], [deployment_repo.go], [release_repo.go]), the containers and the service
    that were started and not taken away, what the proxy was last told, and the queue ([internal/worker/producer.go]).
    A computation in [R] may be the last thing its worker lives to do: at every query and call [ext] answers, others may
    have acted ([meanwhile]), and the worker may be dead. *)
From S2P Require Import Prelude GoStrings ControlAct Registry DeployRules.
#[local] Open Scope Z_scope.
#[local] Open Scope list_scope.

(** ** Rows *)

(** [models.Application]: what no operation of a rollout writes *)
Record app_conf := AppConf {
  cf_id : N; cf_workspace : N; cf_name : string; cf_alias : string; cf_git : bool; cf_build : string; cf_command : list string;
  cf_digest : string; cf_pull : string; cf_registry : option N; cf_strategy : string; cf_gpus : Z; cf_port : Z; cf_replicas : Z;
  cf_stack_net : option string; cf_networks : list string; cf_health : health_conf; cf_canary : canary_conf }.
(** [RuntimeKind]: unset in rows older than the field *)
Inductive runtime_kind := KindUnset | KindContainer | KindService.
#[export] Instance runtime_kind_eq_dec : EqDecision runtime_kind.
Proof. solve_decision. Defined.
(** [models.Application]: what they write *)
Record app_state := AppState {
  as_status : live_status; as_kind : runtime_kind; as_image : string; as_tag : string; as_current : option N; as_redeploy : bool;
  as_canary : option N; as_weight : Z; as_paused : option Z; as_mode : string; as_exclusive : bool; as_priority : Z;
  as_match : list match_rule; as_auto : bool }.
(** Why a deployment failed *)
Inductive deploy_err :=
| DeNoApplication | DeGuard | DeImage (e : ref_err) | DePullDistributed | DeRegistryRequired | DeUnavailable (reason : string)
| DeHandOff | DeNoRepository | DeSource | DeBuild | DePullBuilt | DeCredential | DeNotPresent | DeCachedImageUnauthorized | DePull
| DeGPUWithCluster | DeGPU | DeContext | DeSecurity | DeVolumes | DeGPUWithRestrictedProfile | DeInfo | DeRun | DeInspect | DeExited | DeUnhealthy
| DeNotHealthyInTime | DeNotStartedInTime | DeRelease | DeNoSwarm | DeNetworks | DeIngress | DeEnv | DeConfigs | DeService | DeConverge (desired : Z)
| DeSuperseded (latest : Z) | DeNoRunnerInTime.
(** [models.Deployment] *)
Record deployment := Deployment {
  dp_number : Z; dp_status : deployment_status; dp_image : string; dp_trigger : string; dp_strategy : string; dp_image_id : option N;
  dp_image_tag : string; dp_registry : option N; dp_container : string; dp_error : option deploy_err; dp_created : Z; dp_started : option Z;
  dp_finished : option Z }.
(** [models.Release]: the container's id, or the service's *)
Record release := Release {
  rl_deployment : N; rl_version : Z; rl_kind : runtime_kind; rl_image : string; rl_container : string; rl_active : bool; rl_pinned : bool;
  rl_image_tag : string }.
#[export] Instance release_eq_dec : EqDecision release.
Proof. solve_decision. Defined.

(** [EnqueueDeploy], [EnqueueDeployIn], [EnqueueDeployToBuilder], [EnqueueCanaryStep]: a deployment's id, and a delay in seconds *)
Inductive task := TaskDeploy (id : N) | TaskDeployIn (id : N) (delay : Z) | TaskBuilder (id : N) | TaskCanaryStep (id : N) (delay : Z).

Definition with_status (s : live_status) (a : app_state) : app_state :=
  AppState s (as_kind a) (as_image a) (as_tag a) (as_current a) (as_redeploy a) (as_canary a) (as_weight a) (as_paused a) (as_mode a)
    (as_exclusive a) (as_priority a) (as_match a) (as_auto a).
(** [SetRuntimeKind], [SetCurrentRelease], [SetCurrentReleaseImage] *)
Definition with_runtime (kind : runtime_kind) (a : app_state) : app_state :=
  AppState (as_status a) kind (as_image a) (as_tag a) (as_current a) (as_redeploy a) (as_canary a) (as_weight a) (as_paused a) (as_mode a)
    (as_exclusive a) (as_priority a) (as_match a) (as_auto a).
Definition with_current (release : N) (s : live_status) (a : app_state) : app_state :=
  AppState s (as_kind a) (as_image a) (as_tag a) (Some release) false (as_canary a) (as_weight a) (as_paused a) (as_mode a)
    (as_exclusive a) (as_priority a) (as_match a) (as_auto a).
Definition with_current_image (release : N) (s : live_status) (image tag : string) (a : app_state) : app_state :=
  AppState s (as_kind a) image tag (Some release) false (as_canary a) (as_weight a) (as_paused a) (as_mode a)
    (as_exclusive a) (as_priority a) (as_match a) (as_auto a).
(** [SetCanary]: clearing drops the rules too. [SetCanaryPaused], [SetCanaryRouting] *)
Definition with_canary (release : option N) (weight : Z) (a : app_state) : app_state :=
  match release with
  | Some _ => AppState (as_status a) (as_kind a) (as_image a) (as_tag a) (as_current a) (as_redeploy a) release weight (as_paused a) (as_mode a)
                (as_exclusive a) (as_priority a) (as_match a) (as_auto a)
  | None => AppState (as_status a) (as_kind a) (as_image a) (as_tag a) (as_current a) (as_redeploy a) None weight None (as_mode a) false 0 [] (as_auto a)
  end.
(** [reconcileAutoRuntime]: no longer automatic, and a container if it must be *)
Definition without_auto (downgrade : bool) (a : app_state) : app_state :=
  AppState (as_status a) (if downgrade then KindContainer else as_kind a) (as_image a) (as_tag a) (as_current a) (as_redeploy a) (as_canary a)
    (as_weight a) (as_paused a) (as_mode a) (as_exclusive a) (as_priority a) (as_match a) false.
Definition with_redeploy (b : bool) (a : app_state) : app_state :=
  AppState (as_status a) (as_kind a) (as_image a) (as_tag a) (as_current a) b (as_canary a) (as_weight a) (as_paused a) (as_mode a)
    (as_exclusive a) (as_priority a) (as_match a) (as_auto a).
Definition with_paused (at_ : option Z) (a : app_state) : app_state :=
  AppState (as_status a) (as_kind a) (as_image a) (as_tag a) (as_current a) (as_redeploy a) (as_canary a) (as_weight a) at_ (as_mode a)
    (as_exclusive a) (as_priority a) (as_match a) (as_auto a).
Definition with_routing (r : canary_routing) (a : app_state) : app_state :=
  AppState (as_status a) (as_kind a) (as_image a) (as_tag a) (as_current a) (as_redeploy a) (as_canary a) (as_weight a) (as_paused a)
    (cr_mode r) (cr_exclusive r) (cr_priority r) (cr_match r) (as_auto a).

Definition set_active (b : bool) (r : release) : release :=
  Release (rl_deployment r) (rl_version r) (rl_kind r) (rl_image r) (rl_container r) b (rl_pinned r) (rl_image_tag r).
Definition set_pinned (b : bool) (r : release) : release :=
  Release (rl_deployment r) (rl_version r) (rl_kind r) (rl_image r) (rl_container r) (rl_active r) b (rl_image_tag r).
Definition set_dep_status (s : deployment_status) (d : deployment) : deployment :=
  Deployment (dp_number d) s (dp_image d) (dp_trigger d) (dp_strategy d) (dp_image_id d) (dp_image_tag d) (dp_registry d) (dp_container d)
    (dp_error d) (dp_created d) (dp_started d) (dp_finished d).
Definition set_dep_image (i : string) (d : deployment) : deployment :=
  Deployment (dp_number d) (dp_status d) i (dp_trigger d) (dp_strategy d) (dp_image_id d) (dp_image_tag d) (dp_registry d) (dp_container d)
    (dp_error d) (dp_created d) (dp_started d) (dp_finished d).
Definition set_dep_image_tag (t : string) (d : deployment) : deployment :=
  Deployment (dp_number d) (dp_status d) (dp_image d) (dp_trigger d) (dp_strategy d) (dp_image_id d) t (dp_registry d) (dp_container d)
    (dp_error d) (dp_created d) (dp_started d) (dp_finished d).
Definition set_dep_strategy (s : string) (d : deployment) : deployment :=
  Deployment (dp_number d) (dp_status d) (dp_image d) (dp_trigger d) s (dp_image_id d) (dp_image_tag d) (dp_registry d) (dp_container d)
    (dp_error d) (dp_created d) (dp_started d) (dp_finished d).
Definition set_dep_container (c : string) (d : deployment) : deployment :=
  Deployment (dp_number d) (dp_status d) (dp_image d) (dp_trigger d) (dp_strategy d) (dp_image_id d) (dp_image_tag d) (dp_registry d) c
    (dp_error d) (dp_created d) (dp_started d) (dp_finished d).
Definition set_dep_started (t : option Z) (s : deployment_status) (d : deployment) : deployment :=
  Deployment (dp_number d) s (dp_image d) (dp_trigger d) (dp_strategy d) (dp_image_id d) (dp_image_tag d) (dp_registry d) (dp_container d)
    (dp_error d) (dp_created d) t (dp_finished d).
Definition set_dep_ended (t : Z) (s : deployment_status) (why : option deploy_err) (d : deployment) : deployment :=
  Deployment (dp_number d) s (dp_image d) (dp_trigger d) (dp_strategy d) (dp_image_id d) (dp_image_tag d) (dp_registry d) (dp_container d)
    why (dp_created d) (dp_started d) (Some t).

(** ** The world *)

(** A container, or the application's Swarm service *)
Inductive workload := InContainer (id : string) | InService.
#[export] Instance workload_eq_dec : EqDecision workload.
Proof. solve_decision. Defined.
Definition workload_of (r : release) : workload := if bool_decide (rl_kind r = KindService) then InService else InContainer (rl_container r).

(** What a container or a service is started with *)
Record run_spec := RunSpec { rs_name : string; rs_image : string; rs_alias : string; rs_env : list string; rs_cmd : list string;
  rs_names : gmap string (list string); rs_health : option health_spec }.
(** What is asked outside: the answers depend on it. *)
Inductive ro_call :=
| QFind | QRegistry | QLocalStorage | QWrite | QCreate | QSlot | QLock | QGuard | QImage (ref : string) | QCredential (registry : N) | QPull (ref : string) (server : option string)
| QSource | QBuild (repository : string) | QWaitReason | QPreflight | QContext | QPorts | QSecurity | QVolumes | QInfo | QDevices
| QRun (s : run_spec) | QInspect (id : string) | QSwarm | QNetworks | QRoutes | QIngress | QEnv | QConfigs | QServices | QService (s : run_spec)
| QServiceInspect (name : string) | QStop (id : string) | QRemove (id : string) | QRemoveService (id : string) | QSync | QEnqueue | QTag (digest : string) (version : Z).
(** Whether it went well, and what it says *)
Record ro_answer := RoAnswer { rn_ok : bool; rn_text : string; rn_more : string; rn_list : list string; rn_count : Z; rn_flag : bool }.

(** [ro_next] is above every id given; [ro_up] are the workloads that were started and that nothing has asked to stop,
    remove or replace; [ro_routed] is what the proxy was last told of the canary, once the application has a current release;
    [ro_trace] what was asked, the last first; [ro_left] how many calls the worker lives for, if it does not live on. *)
Record rollout := Rollout {
  ro_app : app_state; ro_deps : gmap N deployment; ro_rels : gmap N release; ro_next : N; ro_up : list workload;
  ro_routed : option canary_view; ro_queue : list task; ro_trace : list ro_call; ro_left : option nat }.

Definition put_state (a : app_state) (w : rollout) : rollout :=
  Rollout a (ro_deps w) (ro_rels w) (ro_next w) (ro_up w) (ro_routed w) (ro_queue w) (ro_trace w) (ro_left w).
Definition put_deps (d : gmap N deployment) (w : rollout) : rollout :=
  Rollout (ro_app w) d (ro_rels w) (ro_next w) (ro_up w) (ro_routed w) (ro_queue w) (ro_trace w) (ro_left w).
Definition put_rels (r : gmap N release) (w : rollout) : rollout :=
  Rollout (ro_app w) (ro_deps w) r (ro_next w) (ro_up w) (ro_routed w) (ro_queue w) (ro_trace w) (ro_left w).
Definition take_next (w : rollout) : rollout :=
  Rollout (ro_app w) (ro_deps w) (ro_rels w) (N.succ (ro_next w)) (ro_up w) (ro_routed w) (ro_queue w) (ro_trace w) (ro_left w).
Definition put_up (u : list workload) (w : rollout) : rollout :=
  Rollout (ro_app w) (ro_deps w) (ro_rels w) (ro_next w) u (ro_routed w) (ro_queue w) (ro_trace w) (ro_left w).
Definition put_routed (v : option canary_view) (w : rollout) : rollout :=
  Rollout (ro_app w) (ro_deps w) (ro_rels w) (ro_next w) (ro_up w) v (ro_queue w) (ro_trace w) (ro_left w).
Definition put_queue (q : list task) (w : rollout) : rollout :=
  Rollout (ro_app w) (ro_deps w) (ro_rels w) (ro_next w) (ro_up w) (ro_routed w) q (ro_trace w) (ro_left w).
Definition put_life (trace : list ro_call) (left_ : option nat) (w : rollout) : rollout :=
  Rollout (ro_app w) (ro_deps w) (ro_rels w) (ro_next w) (ro_up w) (ro_routed w) (ro_queue w) trace left_.

(** ** Computations *)

Definition R (A : Type) : Type := rollout -> rollout * option A.
Definition done {A} (a : A) : R A := fun w => (w, Some a).
Definition andthen {A B} (c : R A) (k : A -> R B) : R B := fun w => match c w with (w, Some a) => k a w | (w, None) => (w, None) end.
Definition look : R rollout := fun w => (w, Some w).
Definition change (f : rollout -> rollout) : R unit := fun w => (f w, Some tt).
Definition when (b : bool) (c : R unit) : R unit := if b then c else done tt.
Declare Scope rollout_scope.
Delimit Scope rollout_scope with rollout.
Notation "x <~ c ; k" := (andthen c (fun x => k)) (at level 100, c at next level, right associativity) : rollout_scope.
Notation "c ;~ k" := (andthen c (fun _ => k)) (at level 100, right associativity) : rollout_scope.
#[global] Open Scope rollout_scope.

(** [ext] answers each call, by its number; [clock] is the time at each; [fresh] names the containers an engine creates. *)
Record outside := Outside { ou_ext : nat -> ro_call -> ro_answer; ou_clock : nat -> Z; ou_fresh : N -> string }.
Section Calls.
Context (o : outside) (meanwhile : nat -> rollout -> rollout).

Definition ask (q : ro_call) : R ro_answer := fun w =>
  match ro_left w with
  | Some O => (w, None)
  | _ => let n := length (ro_trace w) in (put_life (q :: ro_trace w) (pred <$> ro_left w) (meanwhile n w), Some (ou_ext o n q))
  end.
Definition now : R Z := w <~ look; done (ou_clock o (length (ro_trace w))).
(** A write and a read that may fail, and the creation of a row: [f] is nothing when the row breaks a constraint. *)
Definition write (f : rollout -> rollout) : R bool := a <~ ask QWrite; when (rn_ok a) (change f) ;~ done (rn_ok a).
Definition find {A} (g : rollout -> option A) : R (option A) := a <~ ask QFind; w <~ look; done (if rn_ok a then g w else None).
Definition create (f : N -> rollout -> option rollout) : R (option N) :=
  a <~ ask QCreate; w <~ look;
  match f (ro_next w) w with
  | Some w' => if rn_ok a then change (fun _ => take_next w') ;~ done (Some (ro_next w)) else done None
  | None => done None
  end.

(** ** The repositories *)

Definition set_status (s : live_status) : R bool := write (fun w => put_state (with_status s (ro_app w)) w).
Definition set_runtime_kind (kind : runtime_kind) : R bool := write (fun w => put_state (with_runtime kind (ro_app w)) w).
Definition set_canary (release : option N) (weight : Z) : R bool := write (fun w => put_state (with_canary release weight (ro_app w)) w).
Definition set_canary_paused (at_ : option Z) : R bool := write (fun w => put_state (with_paused at_ (ro_app w)) w).
Definition set_canary_routing (r : canary_routing) : R bool := write (fun w => put_state (with_routing r (ro_app w)) w).
Definition set_current_release (id : N) (s : live_status) : R bool := write (fun w => put_state (with_current id s (ro_app w)) w).
Definition set_current_release_image (id : N) (s : live_status) (image tag : string) : R bool :=
  write (fun w => put_state (with_current_image id s image tag (ro_app w)) w).
Definition set_redeploy_required (b : bool) : R bool := write (fun w => put_state (with_redeploy b (ro_app w)) w).
Definition update_application (a : app_state) : R bool := write (fun w => put_state a w).
Definition find_application : R (option app_state) := find (fun w => Some (ro_app w)).

Definition find_deployment (id : N) : R (option deployment) := find (fun w => ro_deps w !! id).
Definition update_deployment (id : N) (d : deployment) : R bool := write (fun w => put_deps (<[id := d]> (ro_deps w)) w).
Definition highest {A} (f : A -> Z) (l : list A) : Z := foldl (fun m x => Z.max m (f x)) 0 l.
(** [BeforeCreate]: the next number of the application; [d] is the row of a number. *)
Definition next_number (w : rollout) : Z := highest dp_number (map_to_list (ro_deps w)).*2 + 1.
Definition create_deployment (d : Z -> deployment) : R (option N) :=
  create (fun id w => Some (put_deps (<[id := d (next_number w)]> (ro_deps w)) w)).
Definition latest_number : R (option Z) := find (fun w => Some (highest dp_number (map_to_list (ro_deps w)).*2)).

(** The rows of releases by id *)
Definition release_rows (w : rollout) : list (N * release) := stable_sort (fun a b => (a.1 <? b.1)%N) (map_to_list (ro_rels w)).
Definition find_release (id : N) : R (option release) := find (fun w => ro_rels w !! id).
Definition find_active : R (option (N * release)) := find (fun w => find_first (fun x => rl_active x.2) (release_rows w)).
Definition next_version : R Z := v <~ find (fun w => Some (highest rl_version (map_to_list (ro_rels w)).*2)); done (default 0 v + 1).
(** The version of a release is unique in its application. *)
Definition version_taken (v : Z) (w : rollout) : bool := existsb (fun r => rl_version r =? v) (map_to_list (ro_rels w)).*2.
Definition create_release (r : release) : R (option N) :=
  create (fun id w => if version_taken (rl_version r) w then None else Some (put_rels (<[id := r]> (ro_rels w)) w)).
Definition delete_release (id : N) : R bool := write (fun w => put_rels (delete id (ro_rels w)) w).
Definition activate (id : N) : R bool := write (fun w => put_rels (alter (set_active true) id (set_active false <$> ro_rels w)) w).
Definition set_release_pinned (id : N) (b : bool) : R bool := write (fun w => put_rels (alter (set_pinned b) id (ro_rels w)) w).
Definition image_tag_by_image (image : string) : R (option string) :=
  find (fun w => rl_image_tag ∘ snd <$> find_first (fun x => String.eqb (rl_image x.2) image && negb (String.eqb (rl_image_tag x.2) "")) (reverse (release_rows w))).

(** ** The engine, the proxy and the queue *)

(** A container an engine created has an id no other has; it runs if it could be started. *)
Definition run_container (s : run_spec) : R (bool * string) :=
  a <~ ask (QRun s); w <~ look;
  (if rn_ok a then change (fun w => take_next (put_up (InContainer (ou_fresh o (ro_next w)) :: ro_up w) w)) ;~ done (true, ou_fresh o (ro_next w))
   else if rn_flag a then change take_next ;~ done (false, ou_fresh o (ro_next w))
   else done (false, "")).
(** A request to stop or remove takes the workload away whether or not it is answered well. *)
Definition without_workload (x : workload) (w : rollout) : rollout := put_up (List.filter (fun y => negb (bool_decide (y = x))) (ro_up w)) w.
Definition stop_container (id : string) : R unit := ask (QStop id) ;~ change (without_workload (InContainer id)).
Definition remove_container (id : string) : R unit := ask (QRemove id) ;~ change (without_workload (InContainer id)).
Definition service_remove (id : string) : R unit := ask (QRemoveService id) ;~ change (without_workload InService).
(** [ServiceCreate], [ServiceUpdate]: the service's tasks are replaced in place, with nothing that would roll them back. What
    ran before counts as gone, whatever is answered; the service runs again once its tasks have converged
    ([service_converge]). *)
Definition put_service (s : run_spec) : R bool := a <~ ask (QService s); change (without_workload InService) ;~ done (rn_ok a).
Definition with_service (w : rollout) : rollout := put_up (InService :: ro_up w) w.
(** [SyncRoute]: a route is rendered while the application has a current release. *)
Definition view_of (c : app_conf) (a : app_state) : canary_view :=
  CanaryView (bool_decide (is_Some (as_canary a))) (as_weight a) (cc_initial (cf_canary c)) (as_exclusive a) (as_priority a) (as_match a).
Definition sync_route (c : app_conf) : R bool :=
  a <~ ask QSync;
  when (rn_ok a) (change (fun w => put_routed (if bool_decide (is_Some (as_current (ro_app w))) then Some (view_of c (ro_app w)) else None) w)) ;~ done (rn_ok a).
Definition enqueue (t : task) : R bool := a <~ ask QEnqueue; when (rn_ok a) (change (fun w => put_queue (ro_queue w ++ [t]) w)) ;~ done (rn_ok a).
End Calls.
