(* ===== verification/Deploy.v ===== *)
(** * The deploy worker

    [internal/worker/deploy.go]: a deployment from its task to its end ([process_task]), which selects an image, starts a
    container or rolls a service, waits for it to be well, and makes it the release in force or the live canary; and the
    timer of a canary ([process_canary_step]). The data guard, networks, volumes, security profile, host ports, devices,
    build runners and the engine are calls with any answer. *)
From S2P Require Import Prelude GoStrings ControlAct Registry DeployRules Rollout.
#[local] Open Scope Z_scope.
#[local] Open Scope list_scope.

(** [DeployHandler], as wired: the registry's distributor (what it finds when it reads, by the number of the call), whether builds can be dispatched from here, how long to wait
    for a runner (0 for ever), and whether there is a GPU allocator *)
Record deployer := Deployer { dl_registry : option (nat -> registry); dl_dispatch : bool; dl_wait : Z; dl_gpu : bool }.

(** How a task ends: with a release, a live canary, or without *)
Inductive ending := FailedAt (why : deploy_err) | WaitsForRunner | HandedOff | PutOff | NothingToDo | NotFound.
Inductive outcome := Released (id : N) | CanaryLive (id : N) | Ended (e : ending).

Section Worker.
Context (o : outside) (meanwhile : nat -> rollout -> rollout) (h : deployer) (c : app_conf).
#[local] Abbreviation ask := (ask o meanwhile).
#[local] Abbreviation find_application := (find_application o meanwhile).
#[local] Abbreviation find_deployment := (find_deployment o meanwhile).
#[local] Abbreviation update_deployment := (update_deployment o meanwhile).
#[local] Abbreviation find_active := (find_active o meanwhile).
#[local] Abbreviation find_release := (find_release o meanwhile).
#[local] Abbreviation set_status := (set_status o meanwhile).
#[local] Abbreviation set_canary := (set_canary o meanwhile).
#[local] Abbreviation enqueue := (enqueue o meanwhile).
#[local] Abbreviation sync_route := (sync_route o meanwhile c).
#[local] Abbreviation stop_container := (stop_container o meanwhile).
#[local] Abbreviation remove_container := (remove_container o meanwhile).

(** ** Failing *)

Definition revert_runtime_switch (a : app_state) : R unit :=
  r <~ find_active;
  match r with
  | Some (_, r) =>
      if bool_decide (rl_kind r = KindUnset) || bool_decide (rl_kind r = as_kind a) then done tt
      else set_runtime_kind o meanwhile (rl_kind r) ;~ done tt
  | None => done tt
  end.
Definition fail (id : N) (d : deployment) (why : deploy_err) : R ending :=
  t <~ now o;
  let d := set_dep_ended t DeploymentFailed (Some why) d in
  update_deployment id d ;~
  a <~ find_application;
  set_status (failed_app_status (bool_decide (is_Some (a ≫= as_current))) (dp_strategy d)) ;~
  match a with
  | Some a => when (negb (String.eqb (dp_strategy d) deploy_recreate)) (revert_runtime_switch a)
  | None => done tt
  end ;~
  done (FailedAt why).

(** ** The image *)

(** Every question to the distributor reads the registry's settings; without a distributor there is none. *)
Definition registry_says {A} (otherwise : A) (f : registry -> A) : R A :=
  match dl_registry h with
  | None => done otherwise
  | Some g => w <~ look; ask QRegistry ;~ done (f (g (length (ro_trace w))))
  end.
(** [authorizedImageRef], [imagePresent], [resolveRegistryAuth] *)
Definition authorized_image_ref (ref : string) : R (result ref_err string) :=
  if String.eqb ref "" then done (Ok ref) else registry_says (Ok ref) (fun g => resolve_image_ref g (cf_workspace c) ref).
Definition is_build_ref (ref : string) : R bool := registry_says false (fun g => is_internal_ref g ref).
Definition registry_auth : R (option string) := registry_says None push_auth.
Definition image_present (ref : string) : R bool := a <~ ask (QImage ref); done (rn_ok a && rn_flag a).
Definition pull_image (ref : string) (auth : option string) : R bool := a <~ ask (QPull ref auth); done (rn_ok a).
Definition resolve_registry_auth (d : deployment) : R (option (option string)) :=
  match (match dp_registry d with Some r => Some r | None => cf_registry c end) with
  | None => done (Some None)
  | Some reg => a <~ ask (QCredential reg); done (if rn_ok a then Some (Some (rn_text a)) else None)
  end.

(** [buildOnRunner]: the built image, or how it failed. An answer to the build that is not ok tells whether no runner
    was there. *)
Inductive build_failure := BfNoRunner | BfNoDispatch | BfOther (why : deploy_err).
Definition build_on_runner (id : N) : R (build_failure + string) :=
  unavailable <~ registry_says None (fun g => Some (rg_unavailable g));
  match unavailable with
  | None => done (inl (BfOther DeRegistryRequired))
  | Some reason =>
      if negb (String.eqb reason "") then done (inl (BfOther (DeUnavailable reason)))
      else if negb (dl_dispatch h) then done (inl BfNoDispatch)
      else
        repository <~ registry_says "" (fun g => (split_image_ref (build_ref g (cf_workspace c) (cf_name c) id)).1);
        if String.eqb repository "" then done (inl (BfOther DeNoRepository))
        else
          s <~ ask QSource;
          if negb (rn_ok s) then done (inl (BfOther DeSource))
          else
            b <~ ask (QBuild repository);
            done (if rn_ok b then inr (repository +:+ "@" +:+ rn_text b) else if rn_flag b then inl BfNoRunner else inl (BfOther DeBuild))
  end.

(** [deferForRunner]: waits for a runner, unless a newer deployment waits too or the wait was too long. *)
Definition defer_for_runner (id : N) (d : deployment) : R ending :=
  latest <~ latest_number o meanwhile;
  t <~ now o;
  if (match latest with Some n => dp_number d <? n | None => false end) then fail id d (DeSuperseded (default 0 latest))
  else if (0 <? dl_wait h) && (dl_wait h <? t - dp_created d) then fail id d DeNoRunnerInTime
  else
    update_deployment id (set_dep_started None DeploymentPending d) ;~
    enqueue (TaskDeployIn id 15) ;~
    done WaitsForRunner.

(** [PullIfNotPresent], [PullNever]; the other policy always pulls. *)
Definition pull_if_not_present : string := "if-not-present".
Definition pull_never : string := "never".
(** What [run] takes from the image's part: the deployment, the image, and whether a build made it just now *)
Definition run_image (id : N) (a : app_state) (d : deployment) : R (ending + deployment * string * bool) :=
  let stop why := out <~ fail id d why; done (inl out) in
  let image := dp_image d in
  prebuilt <~ (if bool_decide (is_Some (dp_image_id d)) && negb (String.eqb image "") then image_present image else done false);
  distributed <~ (if prebuilt || String.eqb image "" then done false else is_build_ref image);
  if prebuilt then done (inr (d, image, false))
  else if distributed then
    here <~ image_present image;
    if here then done (inr (d, image, false))
    else
      auth <~ registry_auth;
      ok <~ pull_image image auth;
      if ok then done (inr (d, image, false)) else stop DePullDistributed
  else if cf_git c then
    b <~ build_on_runner id;
    match b with
    | inl BfNoRunner => ask QWaitReason ;~ out <~ defer_for_runner id d; done (inl out)
    | inl BfNoDispatch => ok <~ enqueue (TaskBuilder id); if ok then done (inl HandedOff) else stop DeHandOff
    | inl (BfOther why) => stop why
    | inr built =>
        let d := set_dep_image built d in
        update_deployment id d ;~
        here <~ image_present built;
        if here then done (inr (d, built, true))
        else
          auth <~ registry_auth;
          ok <~ pull_image built auth;
          if ok then done (inr (d, built, true)) else (out <~ fail id d DePullBuilt; done (inl out))
    end
  else
    checked <~ (if String.eqb image "" then authorized_image_ref (image_ref (as_image a) (as_tag a) (cf_digest c) "") else done (Ok image));
    match checked with
    | Err e => stop (DeImage e)
    | Ok image =>
        let d := set_dep_image image d in
        let stop why := out <~ fail id d why; done (inl out) in
        auth <~ resolve_registry_auth d;
        match auth with
        | None => stop DeCredential
        | Some auth =>
            here <~ image_present image;
            internal <~ is_build_ref image;
            let reusable := may_reuse_cached_image image internal auth in
            if here && reusable && (contains "@" image || String.eqb (cf_pull c) pull_if_not_present) then done (inr (d, image, false))
            else if String.eqb (cf_pull c) pull_never then
              if negb here then stop DeNotPresent else if negb reusable then stop DeCachedImageUnauthorized else done (inr (d, image, false))
            else
              ok <~ pull_image image auth;
              if ok then done (inr (d, image, false)) else stop DePull
        end
    end.

(** ** Is it well? *)

(** [healthGate]: at most one look a second *)
Fixpoint health_rounds (fuel : nat) (deadline : Z) (gates : bool) (container : string) : R (option deploy_err) :=
  let late := done (Some (if gates then DeNotHealthyInTime else DeNotStartedInTime)) in
  match fuel with
  | O => late
  | S fuel =>
      t <~ now o;
      if deadline <=? t then late
      else
        a <~ ask (QInspect container);
        if negb (rn_ok a) then done (Some DeInspect)
        else if String.eqb (rn_text a) "exited" || String.eqb (rn_text a) "dead" then done (Some DeExited)
        else if String.eqb (rn_text a) "running" then
          if negb gates || String.eqb (rn_more a) "healthy" then done None
          else if String.eqb (rn_more a) "unhealthy" then done (Some DeUnhealthy)
          else health_rounds fuel deadline gates container
        else health_rounds fuel deadline gates container
  end.
Definition health_gate (container : string) : R (option deploy_err) :=
  t <~ now o;
  let timeout := health_gate_timeout (cf_health c) in
  health_rounds (Z.to_nat (timeout / second)) (t + timeout) (gates_deploy (cf_health c)) container.
(** [serviceConverge]: every two seconds, for three minutes *)
Fixpoint converge_rounds (fuel : nat) (deadline : Z) (name : string) (desired : Z) : R bool :=
  match fuel with
  | O => done false
  | S fuel =>
      t <~ now o;
      if deadline <=? t then done false
      else
        a <~ ask (QServiceInspect name);
        if rn_ok a && (desired <=? rn_count a) then done true else converge_rounds fuel deadline name desired
  end.
Definition service_converge (name : string) (desired : Z) : R bool :=
  t <~ now o;
  well <~ converge_rounds 90 (t + 180 * second) name (if desired =? 0 then 1 else desired);
  when well (change with_service) ;~ done well.

(** ** Retiring *)

Definition retire_release (r : release) : R unit :=
  if bool_decide (rl_kind r = KindService) then service_remove o meanwhile (rl_container r)
  else stop_container (rl_container r) ;~ remove_container (rl_container r).
(** [finalizeCanary] *)
Definition finalize_canary (id : N) (s : deployment_status) : R unit :=
  if (id =? 0)%N then done tt
  else
    d <~ find_deployment id;
    match d with
    | Some d => if is_terminal (dp_status d) then done tt
                else t <~ now o; update_deployment id (set_dep_ended t s (dp_error d) d) ;~ done tt
    | None => done tt
    end.
Definition remove_canary_container (r : release) : R unit :=
  when (negb (String.eqb (rl_container r) "")) (stop_container (rl_container r) ;~ remove_container (rl_container r)).
Definition detach_canary : R (option (N * release)) :=
  a <~ find_application;
  match a ≫= as_canary with
  | None => done None
  | Some id => r <~ find_release id; set_canary None 0 ;~ done ((fun r => (id, r)) <$> r)
  end.
Definition retire_canary_release (x : N * release) : R unit :=
  remove_canary_container x.2 ;~
  finalize_canary (rl_deployment x.2) DeploymentSucceeded ;~
  delete_release o meanwhile x.1 ;~ done tt.

(** ** Releasing *)

(** [releaseImageTag], [tagReleaseImage] *)
Definition release_image_tag (d : deployment) (image : string) : R deployment :=
  if String.eqb (dp_image_tag d) "" && negb (String.eqb image "") then
    t <~ image_tag_by_image o meanwhile image;
    done (match t with Some t => set_dep_image_tag t d | None => d end)
  else done d.
Definition tag_release_image (d : deployment) (version : Z) : R unit :=
  internal <~ (if negb (String.eqb (dp_image_tag d) "") || String.eqb (dp_image d) "" then done false else is_build_ref (dp_image d));
  if negb internal then done tt
  else
    let '(_, digest, found) := cut "@" (dp_image d) in
    when (found && negb (String.eqb digest "")) (ask (QTag digest version) ;~ done tt).
(** The current release, and the image it takes over unless it is built or pinned *)
Definition make_current (id : N) (image : string) : R unit :=
  (if negb (cf_git c) && negb (String.eqb image "") && negb (is_pinned_ref (cf_digest c) image) then
     let '(img, tag) := split_image_ref image in set_current_release_image o meanwhile id LiveRunning img tag
   else set_current_release o meanwhile id LiveRunning) ;~
  done tt.
Definition succeed (id : N) (d : deployment) : R unit :=
  t <~ now o; update_deployment id (set_dep_ended t DeploymentSucceeded (dp_error d) d) ;~ done tt.

Definition release_canary (id : N) (d : deployment) (image container : string) : R outcome :=
  a <~ find_application;
  match a ≫= as_canary with
  | None => done tt
  | Some old =>
      r <~ find_release old;
      match r with
      | Some r =>
          when (negb (String.eqb (rl_container r) container)) (remove_canary_container r) ;~
          finalize_canary (rl_deployment r) DeploymentSucceeded
      | None => done tt
      end ;~
      delete_release o meanwhile old ;~ done tt
  end ;~
  version <~ next_version o meanwhile;
  d <~ release_image_tag d image;
  new <~ create_release o meanwhile (Release id version KindContainer image container false false (dp_image_tag d));
  match new with
  | None => e <~ fail id d DeRelease; done (Ended e)
  | Some new =>
      tag_release_image d version ;~
      let weight := canary_initial_weight (cf_canary c) in
      set_canary (Some new) weight ;~
      set_canary_paused o meanwhile None ;~
      set_status LiveRunning ;~
      update_deployment id (set_dep_status DeploymentCanary d) ;~
      sync_route ;~
      when (weight <? 100) (enqueue (TaskCanaryStep id (canary_interval (cf_canary c))) ;~ done tt) ;~
      done (CanaryLive new)
  end.

(** Both kinds of releases: in force and told to the proxy before what it replaces is retired *)
Definition put_in_force (id : N) (d : deployment) (new : N) (version : Z) (image : string) (retire : R unit) : R outcome :=
  activate o meanwhile new ;~
  succeed id d ;~
  make_current new image ;~
  sync_route ;~
  retire ;~
  tag_release_image d version ;~
  done (Released new).
Definition swap_and_release (id : N) (d : deployment) (image container : string) : R outcome :=
  prev <~ find_active;
  canary <~ detach_canary;
  version <~ next_version o meanwhile;
  d <~ release_image_tag d image;
  new <~ create_release o meanwhile (Release id version KindContainer image container true false (dp_image_tag d));
  match new with
  | None =>
      match canary with Some x => retire_canary_release x | None => done tt end ;~
      e <~ fail id d DeRelease; done (Ended e)
  | Some new =>
      put_in_force id d new version image
        (match canary with Some x => retire_canary_release x | None => done tt end ;~
         match prev with
         | Some (_, r) => when (negb (String.eqb (rl_container r) "") && negb (String.eqb (rl_container r) container)) (retire_release r)
         | None => done tt
         end)
  end.

Definition release_service (id : N) (d : deployment) (image service : string) : R outcome :=
  prev <~ find_active;
  version <~ next_version o meanwhile;
  d <~ release_image_tag d image;
  new <~ create_release o meanwhile (Release id version KindService image service true false (dp_image_tag d));
  match new with
  | None => e <~ fail id d DeRelease; done (Ended e)
  | Some new =>
      put_in_force id d new version image
        (match prev with
         | Some (_, r) => when (bool_decide (rl_kind r = KindContainer) && negb (String.eqb (rl_container r) "")) (retire_release r)
         | None => done tt
         end)
  end.
End Worker.
