(* ===== verification/DeployRun.v ===== *)
(** * Deployments from their task to their end

    The rest of a deployment in [internal/worker/deploy.go]: a service ([deploy_service]), a container
    ([deploy_container]), the run ([run_deployment]) and the task ([process_task]). Slots of a cluster and the lock of an
    application are calls; a lock that was taken is held until the task ends. *)
From S2P Require Import Prelude GoStrings ControlAct Registry DeployRules Rollout Deploy.
#[local] Open Scope Z_scope.
#[local] Open Scope list_scope.

Section Worker.
Context (o : outside) (meanwhile : nat -> rollout -> rollout) (h : deployer) (c : app_conf).
#[local] Abbreviation ask := (ask o meanwhile).
#[local] Abbreviation find_application := (find_application o meanwhile).
#[local] Abbreviation find_deployment := (find_deployment o meanwhile).
#[local] Abbreviation update_deployment := (update_deployment o meanwhile).
#[local] Abbreviation find_active := (find_active o meanwhile).
#[local] Abbreviation find_release := (find_release o meanwhile).
#[local] Abbreviation enqueue := (enqueue o meanwhile).
#[local] Abbreviation sync_route := (sync_route o meanwhile c).
#[local] Abbreviation remove_container := (remove_container o meanwhile).
#[local] Abbreviation fail := (fail o meanwhile).


(** Steps that may end the deployment *)
Definition attempt {A B} (m : R (ending + A)) (k : A -> R (ending + B)) : R (ending + B) :=
  r <~ m; match r with inl out => done (inl out) | inr x => k x end.
#[local] Notation "x <! m ; k" := (attempt m (fun x => k)) (at level 100, m at next level, right associativity).
#[local] Notation "m ;! k" := (attempt m (fun _ => k)) (at level 100, right associativity).
Definition stop {A} (id : N) (d : deployment) (why : deploy_err) : R (ending + A) := out <~ fail id d why; done (inl out).
Definition need (id : N) (d : deployment) (q : ro_call) (why : deploy_err) : R (ending + ro_answer) :=
  a <~ ask q; if rn_ok a then done (inr a) else stop id d why.
Definition unless (b : bool) (m : R (ending + unit)) : R (ending + unit) := if b then done (inr tt) else m.

(** The command and the environment of an image: [built] is whether this deployment built it. *)
Definition build_buildpack : string := "buildpack".
Definition build_auto : string := "auto".
Definition runtime_command (built : bool) : list string := if built && String.eqb (cf_build c) build_buildpack then [] else cf_command c.
Definition runtime_env (built : bool) (env : list string) : list string :=
  if built && (String.eqb (cf_build c) build_buildpack || String.eqb (cf_build c) build_auto) then ensure_port_env env (cf_port c) else env.

(** ** A service *)

(** [deployService] up to the engine: what the service is started with *)
Definition service_spec (id : N) (d : deployment) (image : string) (built : bool) : R (ending + run_spec) :=
  need id d QNetworks DeNetworks ;!
  routed <~ ask QRoutes;
  unless (negb (rn_flag routed)) (need id d QIngress DeIngress ;! done (inr tt)) ;!
  env <! need id d QEnv DeEnv;
  need id d QConfigs DeConfigs ;!
  internal <~ is_build_ref o meanwhile h image;
  (if internal then registry_auth o meanwhile h ;~ done tt else resolve_registry_auth o meanwhile c d ;~ done tt) ;~
  need id d QSecurity DeSecurity ;!
  let alias := deploy_alias (cf_alias c) (cf_id c) in
  done (inr (RunSpec alias image alias (runtime_env built (rn_list env)) (runtime_command built) ∅ (build_healthcheck (cf_health c) (cf_port c)))).
Definition deploy_service (id : N) (d : deployment) (image : string) (built : bool) : R (ending + outcome) :=
  swarm <~ ask QSwarm;
  unless (rn_ok swarm && rn_flag swarm) (stop id d DeNoSwarm) ;!
  let d := set_dep_status DeploymentDeploying d in
  update_deployment id d ;~
  spec <! service_spec id d image built;
  (if String.eqb (dp_strategy d) deploy_recreate then
     prev <~ find_active;
     match prev with
     | Some (_, r) => when (bool_decide (rl_kind r = KindContainer) && negb (String.eqb (rl_container r) "")) (retire_release o meanwhile r)
     | None => done tt
     end
   else done tt) ;~
  ask QServices ;~
  ok <~ put_service o meanwhile spec;
  unless ok (stop id d DeService) ;!
  let replicas := if 0 <? cf_replicas c then cf_replicas c else 1 in
  let alias := deploy_alias (cf_alias c) (cf_id c) in
  well <~ service_converge o meanwhile alias replicas;
  unless well (stop id d (DeConverge replicas)) ;!
  st <~ ask (QServiceInspect alias);
  let service := if rn_ok st && negb (String.eqb (rn_text st) "") then rn_text st else alias in
  out <~ release_service o meanwhile h c id d image service;
  done (inr out).

(** ** A container *)

(** [run] of a container from its networks to the engine: the deployment, under the strategy in force, and what the
    container is started with *)
Definition published_ports (canary : bool) : R nat :=
  if canary then done O else p <~ ask QPorts; done (if rn_ok p then Z.to_nat (rn_count p) else O).
Definition container_devices (id : N) (d : deployment) (restricted : bool) : R (ending + unit) :=
  if (0 <? cf_gpus c) && dl_gpu h then
    unless (negb restricted) (stop id d DeGPUWithRestrictedProfile) ;!
    need id d QInfo DeInfo ;!
    need id d QDevices DeGPU ;!
    done (inr tt)
  else done (inr tt).
Definition container_spec (id : N) (d : deployment) (image : string) (built : bool) : R (ending + deployment * run_spec) :=
  let canary := String.eqb (dp_strategy d) deploy_canary in
  let alias := if canary then canary_alias (cf_alias c) (cf_id c) else deploy_alias (cf_alias c) (cf_id c) in
  context <! need id d QContext DeContext;
  ports <~ published_ports canary;
  let eff := effective_strategy (dp_strategy d) ports in
  let d' := set_dep_strategy eff d in
  when (negb (String.eqb eff (dp_strategy d))) (update_deployment id d' ;~ done tt) ;~
  let d := d' in
  (if String.eqb eff deploy_recreate then
     prev <~ find_active;
     match prev with Some (_, r) => when (negb (String.eqb (rl_container r) "")) (retire_release o meanwhile r) | None => done tt end
   else done tt) ;~
  security <! need id d QSecurity DeSecurity;
  unless (negb (rn_flag security)) (need id d QVolumes DeVolumes ;! done (inr tt)) ;!
  container_devices id d (String.eqb (rn_text security) "restricted") ;!
  let health := build_healthcheck (cf_health c) (cf_port c) in
  when (bool_decide (is_Some health) && String.eqb (hk_type (cf_health c)) "http") (ask QInfo ;~ done tt) ;~
  done (inr (d, RunSpec (container_name (cf_alias c) (cf_id c) id) image alias (runtime_env built (rn_list context)) (runtime_command built)
                     (name_aliases_by_network (cf_name c) (cf_stack_net c) (cf_networks c) canary) health)).
Definition deploy_container (id : N) (d : deployment) (image : string) (built : bool) : R (ending + outcome) :=
  let d := set_dep_status DeploymentDeploying d in
  update_deployment id d ;~
  r <! container_spec id d image built;
  let '(d, spec) := r in
  ran <~ run_container o meanwhile spec;
  let '(started, container) := ran in
  unless started (when (negb (String.eqb container "")) (remove_container container) ;~ stop id d DeRun) ;!
  let d := set_dep_container container d in
  update_deployment id d ;~
  well <~ health_gate o meanwhile c container;
  match well with
  | Some why => remove_container container ;~ stop id d why
  | None =>
      out <~ (if String.eqb (dp_strategy d) deploy_canary then release_canary o meanwhile h c id d image container
              else swap_and_release o meanwhile h c id d image container);
      done (inr out)
  end.

(** ** The task *)

(** [run]: [a] is the application as the task found it. *)
Definition run_deployment (id : N) (a : app_state) (d : deployment) : R outcome :=
  r <~
    (t <~ now o;
     let d := set_dep_started (Some t) DeploymentBuilding d in
     update_deployment id d ;~
     set_status o meanwhile LiveDeploying ;~
     need id d QGuard DeGuard ;!
     checked <~ authorized_image_ref o meanwhile h c (dp_image d);
     match checked with
     | Err e => stop id d (DeImage e)
     | Ok ref =>
         let d' := set_dep_image ref d in
         when (negb (String.eqb ref (dp_image d))) (update_deployment id d' ;~ done tt) ;~
         r <! run_image o meanwhile h c id a d';
         let '(d, image, built) := r in
         unless (negb (0 <? cf_gpus c))
           (unless (negb (bool_decide (as_kind a = KindService))) (stop id d DeGPUWithCluster) ;!
            unless (negb (dl_gpu h)) (need id d QPreflight DeGPU ;! done (inr tt))) ;!
         if bool_decide (as_kind a = KindService) then deploy_service id d image built else deploy_container id d image built
     end);
  done (match r with inl e => Ended e | inr out => out end).
(** [ProcessTask]: a full cluster or another deployment of the application puts it off; an unreachable lock does not. *)
Definition start_task (id : N) (d : deployment) : R outcome :=
  if is_terminal (dp_status d) then done (Ended NothingToDo)
  else
    a <~ find_application;
    match a with
    | None => e <~ fail id d DeNoApplication; done (Ended e)
    | Some a =>
        slot <~ ask QSlot;
        if negb (rn_ok slot) then enqueue (TaskDeployIn id 5) ;~ done (Ended PutOff)
        else
          lock <~ ask QLock;
          if rn_ok lock && negb (rn_flag lock) then enqueue (TaskDeployIn id 5) ;~ done (Ended PutOff)
          else run_deployment id a d
    end.
Definition process_task (id : N) : R outcome :=
  d <~ find_deployment id; match d with Some d => start_task id d | None => done (Ended NotFound) end.
End Worker.
