(* ===== verification/Canary.v ===== *)
(** * Canaries, and what people ask of an application's releases

    The timer of a canary in [internal/worker/deploy.go] ([process_canary_step]), and the requests of
    [services/application/application.go] and [canary.go]: deploying, rolling back, starting, weighing, pausing, promoting
    and aborting a canary, its routing, pinning and deleting releases. A request works on the application as its handler
    loaded it, [a]. *)
From S2P Require Import Prelude GoStrings ControlAct Registry DeployRules Rollout Deploy.
#[local] Open Scope Z_scope.
#[local] Open Scope list_scope.

Section Canary.
Context (o : outside) (meanwhile : nat -> rollout -> rollout) (c : app_conf) (regex : string -> string -> option bool).
#[local] Abbreviation ask := (ask o meanwhile).
#[local] Abbreviation find_application := (find_application o meanwhile).
#[local] Abbreviation find_deployment := (find_deployment o meanwhile).
#[local] Abbreviation find_release := (find_release o meanwhile).
#[local] Abbreviation set_canary := (set_canary o meanwhile).
#[local] Abbreviation set_status := (set_status o meanwhile).
#[local] Abbreviation sync_route := (sync_route o meanwhile c).
#[local] Abbreviation remove_canary_container := (remove_canary_container o meanwhile).
#[local] Abbreviation finalize_canary := (finalize_canary o meanwhile).
#[local] Abbreviation delete_release := (delete_release o meanwhile).

(** A pending deployment: its number and its time of creation are the row's. *)
Definition pending (image trigger strategy : string) (registry : option N) (created number : Z) : deployment :=
  Deployment number DeploymentPending image trigger strategy None "" registry "" None created None None.

(** ** The timer *)

Definition auto_abort_canary (id : N) (r : release) : R unit :=
  remove_canary_container r ;~
  delete_release id ;~
  set_canary None 0 ;~
  set_status LiveRunning ;~
  sync_route ;~
  finalize_canary (rl_deployment r) DeploymentFailed.
Definition auto_promote_canary (r : release) : R unit :=
  t <~ now o;
  new <~ create_deployment o meanwhile (pending (if cf_git c then "" else rl_image r) "auto" deploy_rolling (cf_registry c) t);
  match new with Some id => enqueue o meanwhile (TaskDeploy id) ;~ done tt | None => done tt end.
Definition canary_held (a : app_state) : bool := bool_decide (is_Some (as_paused a)) || String.eqb (as_mode a) mode_manual.
(** The dead canary is given up; a live one is moved along, or held, and looked at again. *)
Definition canary_tick (id : N) (a : app_state) (canary : N) (r : release) : R unit :=
  dead <~ (if String.eqb (rl_container r) "" then done false
           else i <~ ask (QInspect (rl_container r)); done (rn_ok i && (String.eqb (rn_text i) "exited" || String.eqb (rn_text i) "dead")));
  if dead then auto_abort_canary canary r
  else
    let again := enqueue o meanwhile (TaskCanaryStep id (canary_interval (cf_canary c))) ;~ done tt in
    match next_canary_ramp (cf_canary c) (canary_held a) (as_weight a) with
    | (RampPromote, _) => auto_promote_canary r
    | (RampAdvance, next) => set_canary (Some canary) next ;~ sync_route ;~ again
    | (RampHold, _) => again
    end.
Definition process_canary_step (id : N) : R unit :=
  d <~ find_deployment id;
  match d with
  | None => done tt
  | Some _ =>
      a <~ find_application;
      match a with
      | None => done tt
      | Some a =>
          match as_canary a with
          | None => done tt
          | Some canary =>
              r <~ find_release canary;
              match r with
              | None => done tt
              | Some r => if (rl_deployment r =? id)%N then canary_tick id a canary r else done tt
              end
          end
      end
  end.

(** ** Deploying *)

Definition enqueue_deploy (image trigger : string) (registry : option N) (strategy : string) : R (result canary_err N) :=
  a <~ find_application;
  guard <~ match a with Some _ => g <~ ask QGuard; done (rn_ok g) | None => done true end;
  if negb guard then done (Err ErrGuard)
  else
    let strategy := if valid_deploy_strategy strategy then strategy else deploy_rolling in
    t <~ now o;
    new <~ create_deployment o meanwhile (pending image trigger strategy registry t);
    match new with
    | None => done (Err ErrRolloutDB)
    | Some id => ok <~ enqueue o meanwhile (TaskDeploy id); done (if ok then Ok id else Err ErrQueue)
    end.
Definition reconcile_auto_runtime : R unit :=
  a <~ find_application;
  match a with
  | Some a =>
      if negb (as_auto a) then done tt
      else
        local <~ (if bool_decide (as_current a = None) && bool_decide (as_kind a = KindService) then l <~ ask QLocalStorage; done (rn_flag l) else done false);
        update_application o meanwhile (without_auto local a) ;~ done tt
  | None => done tt
  end.
Definition app_image (a : app_state) (tag : string) : string := if cf_git c then "" else image_ref (as_image a) (as_tag a) (cf_digest c) tag.
Definition deploy (a : app_state) (registry : option N) (tag strategy : string) : R (result canary_err N) :=
  reconcile_auto_runtime ;~
  enqueue_deploy (app_image a tag) "manual" (match registry with Some r => Some r | None => cf_registry c end)
    (effective_deploy_strategy (cf_strategy c) (bool_decide (is_Some (as_current a))) strategy).
Definition redeploy (a : app_state) : R (result canary_err N) :=
  reconcile_auto_runtime ;~ enqueue_deploy (app_image a "") "auto" (cf_registry c) deploy_rolling.
Definition reconcile_redeploy (a : app_state) : R (result canary_err N) := enqueue_deploy (app_image a "") "reconcile" (cf_registry c) deploy_rolling.
(** [AutoRedeploy], [MarkRedeployRequired]: nothing is deployed, or a deployment *)
Definition auto_redeploy (a : app_state) : R (result canary_err (option N)) :=
  if bool_decide (as_current a = None) then done (Ok None)
  else if bool_decide (as_status a = LiveStopped) then
    ok <~ set_redeploy_required o meanwhile true; done (if ok then Ok None else Err ErrRolloutDB)
  else r <~ redeploy a; done (match r with Ok id => Ok (Some id) | Err e => Err e end).
Definition mark_redeploy_required (a : app_state) : R (result canary_err bool) :=
  if bool_decide (as_current a = None) then done (Ok false)
  else ok <~ set_redeploy_required o meanwhile true; done (if ok then Ok true else Err ErrRolloutDB).
Definition rollback (release : N) : R (result canary_err N) :=
  r <~ find_release release;
  match r with
  | None => done (Err ErrReleaseNotFound)
  | Some r => enqueue_deploy (rl_image r) "rollback" (cf_registry c) deploy_rolling
  end.

(** ** The canary *)

Definition start_canary (a : app_state) (registry : option N) (tag : string) : R (result canary_err N) :=
  if bool_decide (as_current a = None) then done (Err ErrNotDeployable)
  else if bool_decide (is_Some (as_canary a)) then done (Err ErrCanaryActive)
  else deploy a registry tag deploy_canary.
Definition set_canary_weight (a : app_state) (weight : Z) : R (result canary_err unit) :=
  match as_canary a with
  | None => done (Err ErrNoCanary)
  | Some canary =>
      let weight := if weight <? 0 then 0 else weight in
      let weight := if 99 <? weight then 99 else weight in
      if (weight =? 0) && negb (as_exclusive a && negb (bool_decide (as_match a = []))) then done (Err ErrCanaryPooledZeroWeight)
      else
        ok <~ set_canary (Some canary) weight;
        if ok then sync_route ;~ done (Ok tt) else done (Err ErrRolloutDB)
  end.
Definition pause_canary (a : app_state) : R (result canary_err unit) :=
  if bool_decide (as_canary a = None) then done (Err ErrNoCanary)
  else if bool_decide (is_Some (as_paused a)) then done (Ok tt)
  else t <~ now o; ok <~ set_canary_paused o meanwhile (Some t); done (if ok then Ok tt else Err ErrRolloutDB).
Definition resume_canary (a : app_state) : R (result canary_err unit) :=
  if bool_decide (as_canary a = None) then done (Err ErrNoCanary)
  else if bool_decide (as_paused a = None) then done (Ok tt)
  else ok <~ set_canary_paused o meanwhile None; done (if ok then Ok tt else Err ErrRolloutDB).
Definition promote_canary (a : app_state) : R (result canary_err N) :=
  match as_canary a with
  | None => done (Err ErrNoCanary)
  | Some canary =>
      r <~ find_release canary;
      match r with
      | None => done (Err ErrReleaseNotFound)
      | Some r => enqueue_deploy (if cf_git c then "" else rl_image r) "manual" (cf_registry c) deploy_rolling
      end
  end.
Definition abort_canary (a : app_state) : R (result canary_err unit) :=
  match as_canary a with
  | None => done (Err ErrNoCanary)
  | Some canary =>
      r <~ find_release canary;
      match r with
      | Some r => remove_canary_container r ;~ finalize_canary (rl_deployment r) DeploymentFailed ;~ delete_release canary ;~ done tt
      | None => done tt
      end ;~
      ok <~ set_canary None 0;
      if ok then set_status LiveRunning ;~ sync_route ;~ done (Ok tt) else done (Err ErrRolloutDB)
  end.
(** [SetCanaryRouting] *)
Definition change_canary_routing (a : app_state) (r : canary_routing) : R (result canary_err unit) :=
  match normalize_canary_routing r with
  | Err e => done (Err e)
  | Ok r =>
      match validate_canary_routing regex (effective_canary_weight (view_of c a)) r with
      | Some e => done (Err e)
      | None =>
          ok <~ set_canary_routing o meanwhile r;
          if negb ok then done (Err ErrRolloutDB)
          else
            match as_canary a with
            | Some canary =>
                when (String.eqb (cr_mode r) mode_auto && (as_weight a <=? 0)) (set_canary (Some canary) (cc_initial (cf_canary c)) ;~ done tt)
            | None => done tt
            end ;~
            sync_route ;~ done (Ok tt)
      end
  end.

(** ** Releases *)

Definition set_pinned_release (id : N) (pinned : bool) : R (result canary_err unit) :=
  r <~ find_release id;
  match r with
  | None => done (Err ErrReleaseNotFound)
  | Some _ => ok <~ set_release_pinned o meanwhile id pinned; done (if ok then Ok tt else Err ErrRolloutDB)
  end.
Definition remove_release (id : N) : R (result canary_err unit) :=
  r <~ find_release id;
  match r with
  | None => done (Err ErrReleaseNotFound)
  | Some r =>
      if rl_active r then done (Err ErrReleaseActive)
      else if rl_pinned r then done (Err ErrReleasePinned)
      else
        when (negb (String.eqb (rl_container r) "")) (remove_container o meanwhile (rl_container r)) ;~
        ok <~ delete_release id; done (if ok then Ok tt else Err ErrRolloutDB)
  end.
End Canary.

(** ** Requests and timers *)

(** What may happen to an application between two steps of a deployment, with its own answers and its own life *)
Inductive request :=
| RqTick (deployment : N) | RqDeploy (registry : option N) (tag strategy : string) | RqRedeploy | RqReconcile | RqAuto | RqMark
| RqRollback (release : N) | RqStart (registry : option N) (tag : string) | RqWeight (weight : Z) | RqPause | RqResume | RqPromote | RqAbort
| RqRouting (r : canary_routing) | RqPin (release : N) (pinned : bool) | RqDelete (release : N).
Record action := Action { ac_outside : outside; ac_left : option nat; ac_request : request }.
(** A handler loads the application first. *)
Definition on_application {A} (o : outside) (k : app_state -> R A) : R unit :=
  a <~ find_application o (fun _ w => w); match a with Some a => k a ;~ done tt | None => done tt end.
Definition request_run (c : app_conf) (regex : string -> string -> option bool) (o : outside) (q : request) : R unit :=
  let alone := fun (_ : nat) (w : rollout) => w in
  let on {A} (k : app_state -> R A) := on_application o k in
  match q with
  | RqTick id => process_canary_step o alone c id
  | RqDeploy reg tag strategy => on (fun a => deploy o alone c a reg tag strategy)
  | RqRedeploy => on (redeploy o alone c)
  | RqReconcile => on (reconcile_redeploy o alone c)
  | RqAuto => on (auto_redeploy o alone c)
  | RqMark => on (mark_redeploy_required o alone)
  | RqRollback id => on (fun _ => rollback o alone c id)
  | RqStart reg tag => on (fun a => start_canary o alone c a reg tag)
  | RqWeight weight => on (fun a => set_canary_weight o alone c a weight)
  | RqPause => on (pause_canary o alone)
  | RqResume => on (resume_canary o alone)
  | RqPromote => on (promote_canary o alone c)
  | RqAbort => on (abort_canary o alone c)
  | RqRouting r => on (fun a => change_canary_routing o alone c regex a r)
  | RqPin id b => on (fun _ => set_pinned_release o alone id b)
  | RqDelete id => on (fun _ => remove_release o alone id)
  end.
(** Handled to its end, or until its process dies *)
Definition perform (c : app_conf) (regex : string -> string -> option bool) (x : action) (w : rollout) : rollout :=
  put_life (ro_trace w) (ro_left w) (request_run c regex (ac_outside x) (ac_request x) (put_life [] (ac_left x) w)).1.
Definition performed (c : app_conf) (regex : string -> string -> option bool) (l : list action) (w : rollout) : rollout :=
  foldl (fun w x => perform c regex x w) w l.
