(* ===== verification/RolloutLogic.v ===== *)
(** * Reasoning about the rollout of an application

    Triples over computations that may end with the death of their worker, assertions that neither a death nor what others
    do in the meantime disturbs, and the invariant of an application's releases ([well_formed]). [calm] relates the
    worlds before and after what canaries' timers and people do: it is what a deployment relies on.

    A concrete application, engine and days, on which the theorems about rollouts are applied and the model is run. *)
From S2P Require Import Prelude GoStrings ControlAct Registry DeployRules Rollout Deploy DeployRun Canary.
#[local] Open Scope Z_scope.
#[local] Open Scope list_scope.

(** ** Triples *)

Section Triples.
Context (o : outside) (meanwhile : nat -> rollout -> rollout) (dies : rollout -> Prop).

Definition hoare {A} (P : rollout -> Prop) (m : R A) (Q : A -> rollout -> Prop) : Prop :=
  forall w, P w -> match m w with (w', Some a) => Q a w' | (w', None) => dies w' end.
Definition keeps {A} (P : rollout -> Prop) (m : R A) : Prop := hoare P m (fun _ => P).

(** The part of the world the releases live in *)
Definition same_core (w w' : rollout) : Prop :=
  ro_rels w' = ro_rels w /\ (ro_next w <= ro_next w')%N /\ ro_up w' = ro_up w /\ as_canary (ro_app w') = as_canary (ro_app w).
Record solid (P : rollout -> Prop) : Prop := {
  solid_dies : forall w, P w -> dies w;
  solid_core : forall w w', same_core w w' -> P w -> P w';
  solid_meanwhile : forall n w, P w -> P (meanwhile n w) }.

Lemma h_weakened {A} (P P' : rollout -> Prop) (m : R A) Q Q' : hoare P m Q -> (forall w, P' w -> P w) -> (forall a w, Q a w -> Q' a w) -> hoare P' m Q'.
Proof. intros H Hp Hq w Hw. specialize (H w (Hp w Hw)). destruct (m w) as [w' []]; auto. Qed.
Lemma h_before {A} (P P' : rollout -> Prop) (m : R A) Q : (forall w, P' w -> P w) -> hoare P m Q -> hoare P' m Q.
Proof. intros Hp H. by eapply h_weakened. Qed.
Lemma h_post {A} P (m : R A) (Q Q' : A -> rollout -> Prop) : hoare P m Q -> (forall a w, Q a w -> Q' a w) -> hoare P m Q'.
Proof. intros H Hq. by eapply h_weakened. Qed.
Lemma h_done {A} (P : rollout -> Prop) (a : A) (Q : A -> rollout -> Prop) : (forall w, P w -> Q a w) -> hoare P (done a) Q.
Proof. intros H w Hw. by apply H. Qed.
Lemma h_then {A B} P (m : R A) (k : A -> R B) M Q : hoare P m M -> (forall a, hoare (M a) (k a) Q) -> hoare P (andthen m k) Q.
Proof. intros Hm Hk w Hw. unfold andthen. specialize (Hm w Hw). destruct (m w) as [w' [a|]]; [by apply Hk|done]. Qed.
Lemma h_look P : hoare P look (fun x w => P w /\ x = w).
Proof. intros w Hw. done. Qed.
Lemma h_change (P : rollout -> Prop) f (Q : rollout -> Prop) : (forall w, P w -> Q (f w)) -> hoare P (change f) (fun _ => Q).
Proof. intros H w Hw. by apply H. Qed.
Lemma h_taken {A} (F : Prop) (P : rollout -> Prop) (m : R A) Q : (F -> hoare P m Q) -> hoare (fun w => F /\ P w) m Q.
Proof. intros H w [Hf Hw]. by apply H. Qed.
Lemma h_false {A} (m : R A) Q : hoare (fun _ => False) m Q.
Proof. intros w []. Qed.

Lemma h_asked P q : solid P -> hoare P (ask o meanwhile q) (fun _ => P).
Proof.
  intros [Hd Hc Hm] w Hw. unfold ask. destruct (ro_left w) as [[|n]|]; [by apply Hd| |]; by eapply Hc, Hm.
Qed.
(** What a computation returns, wherever it starts *)
Definition yields {A} (F : A -> Prop) (m : R A) : Prop := forall w, match (m w).2 with Some a => F a | None => True end.
Lemma y_done {A} (F : A -> Prop) a : F a -> yields F (done a).
Proof. by intros H w. Qed.
Lemma y_bind {A B} (F : B -> Prop) (m : R A) k : (forall a, yields F (k a)) -> yields F (andthen m k).
Proof. intros H w. unfold andthen. destruct (m w) as [w' [a|]]; [apply H|done]. Qed.
Lemma h_yields {A} (F : A -> Prop) P (m : R A) Q : yields F m -> hoare P m Q -> hoare P m (fun a w => F a /\ Q a w).
Proof. intros Hf Hm w Hw. specialize (Hf w). specialize (Hm w Hw). by destruct (m w) as [w' [a|]]. Qed.
Lemma k_asked P q : solid P -> keeps P (ask o meanwhile q).
Proof. apply h_asked. Qed.
Lemma k_done {A} P (a : A) : keeps P (done a).
Proof. by apply h_done. Qed.
Lemma k_then {A B} P (m : R A) (k : A -> R B) : keeps P m -> (forall a, keeps P (k a)) -> keeps P (andthen m k).
Proof. intros Hm Hk. by eapply h_then. Qed.
Lemma h_seq {A B} P (m : R A) (k : A -> R B) Q : keeps P m -> (forall a, hoare P (k a) Q) -> hoare P (andthen m k) Q.
Proof. intros Hm Hk. by eapply h_then. Qed.
Lemma k_look P : keeps P look.
Proof. intros w Hw. done. Qed.
Lemma k_clock P : keeps P (now o).
Proof. intros w Hw. done. Qed.
Lemma k_guard P b (m : R unit) : keeps P m -> keeps P (when b m).
Proof. destruct b; [done|]. intros _. apply k_done. Qed.
Lemma k_change P f : (forall w, P w -> P (f w)) -> keeps P (change f).
Proof. intros H. by apply h_change. Qed.

(** What a write, a read and a creation leave *)
Lemma h_write (P : rollout -> Prop) f (Q : bool -> rollout -> Prop) : solid P -> (forall w, P w -> Q true (f w)) -> (forall w, P w -> Q false w) ->
  hoare P (write o meanwhile f) Q.
Proof.
  intros Hs Ht Hf. eapply h_then; [by apply h_asked|]. intros a. destruct (rn_ok a).
  - eapply h_then; [by apply (h_change P f (Q true))|]. intros ?. by apply h_done.
  - eapply h_then; [apply (h_done P tt (fun _ => P)); auto|]. intros ?. by apply h_done.
Qed.
Lemma k_write P f : solid P -> (forall w, P w -> P (f w)) -> keeps P (write o meanwhile f).
Proof. intros Hs Hf. by apply h_write. Qed.
Lemma k_write_core P f : solid P -> (forall w, same_core w (f w)) -> keeps P (write o meanwhile f).
Proof. intros Hs Hf. apply k_write; [done|]. intros w. by apply (solid_core _ Hs). Qed.
Lemma h_find {A} P (g : rollout -> option A) : solid P ->
  hoare P (find o meanwhile g) (fun r w => P w /\ (r = None \/ r = g w)).
Proof.
  intros Hs. eapply h_then; [by apply h_asked|]. intros a. eapply h_then; [apply h_look|]. intros x. apply h_done.
  intros w [Hw ->]. split; [done|]. destruct (rn_ok a); auto.
Qed.
Lemma k_find {A} P (g : rollout -> option A) : solid P -> keeps P (find o meanwhile g).
Proof. intros Hs. eapply h_post; [by apply h_find|]. by intros ?? []. Qed.
Lemma h_create P f (Q : option N -> rollout -> Prop) : solid P -> (forall w, P w -> Q None w) ->
  (forall w w', P w -> f (ro_next w) w = Some w' -> Q (Some (ro_next w)) (take_next w')) -> hoare P (create o meanwhile f) Q.
Proof.
  intros Hs Hn Hf. eapply h_then; [by apply h_asked|]. intros a. eapply h_then; [apply h_look|]. intros x w [Hw ->].
  destruct (f (ro_next w) w) eqn:E; [|by apply Hn]. destruct (rn_ok a); [|by apply Hn]. by apply (Hf w).
Qed.
(** Steps that leave the releases and what runs alone *)
Lemma k_create_core P f : solid P -> (forall id w w', f id w = Some w' -> same_core w (take_next w')) -> keeps P (create o meanwhile f).
Proof. intros Hs Hf. apply h_create; [done|done|]. intros w w' Hw E. eapply (solid_core _ Hs); [by eapply Hf|done]. Qed.
End Triples.

(** ** Steps that leave the releases and what runs alone *)

Create HintDb rollout.
#[export] Hint Resolve k_asked k_done k_look k_clock k_find : rollout.
(** Goes through code by its steps. *)
Ltac keep :=
  try match goal with |- hoare ?d ?P ?m _ => change (keeps d P m) end;
  repeat (cbv zeta; first
    [ progress intros
    | solve [eauto with rollout]
    | apply k_then
    | apply k_guard
    | match goal with |- keeps _ _ (match ?x with _ => _ end) => destruct x end ]).
(** Goes through code for what it returns. *)
Ltac yield :=
  repeat (cbv zeta; first
    [ progress intros
    | match goal with
      | |- yields _ (andthen _ _) => apply y_bind
      | |- yields _ (done _) => apply y_done
      | |- yields _ (match ?x with _ => _ end) => destruct x
      end ]).
Ltac core := intros; repeat match goal with |- context [if ?b then _ else _] => destruct b end; repeat split; cbn; try done; lia.

Section Core.
Context (o : outside) (meanwhile : nat -> rollout -> rollout) (dies : rollout -> Prop) (P : rollout -> Prop) (Hs : solid meanwhile dies P).
#[local] Abbreviation keeps := (keeps dies P).

Lemma k_set_status s : keeps (set_status o meanwhile s).
Proof. apply k_write_core; [done|core]. Qed.
Lemma k_set_runtime k : keeps (set_runtime_kind o meanwhile k).
Proof. apply k_write_core; [done|core]. Qed.
Lemma k_set_paused t : keeps (set_canary_paused o meanwhile t).
Proof. apply k_write_core; [done|core]. Qed.
Lemma k_set_routing r : keeps (set_canary_routing o meanwhile r).
Proof. apply k_write_core; [done|core]. Qed.
Lemma k_set_redeploy b : keeps (set_redeploy_required o meanwhile b).
Proof. apply k_write_core; [done|core]. Qed.
Lemma k_set_current id s : keeps (set_current_release o meanwhile id s).
Proof. apply k_write_core; [done|core]. Qed.
Lemma k_set_current_image id s i t : keeps (set_current_release_image o meanwhile id s i t).
Proof. apply k_write_core; [done|core]. Qed.
Lemma k_find_application : keeps (find_application o meanwhile).
Proof. by apply k_find. Qed.
Lemma k_find_deployment id : keeps (find_deployment o meanwhile id).
Proof. by apply k_find. Qed.
Lemma k_find_release id : keeps (find_release o meanwhile id).
Proof. by apply k_find. Qed.
Lemma k_find_active : keeps (find_active o meanwhile).
Proof. by apply k_find. Qed.
Lemma k_update_deployment id d : keeps (update_deployment o meanwhile id d).
Proof. apply k_write_core; [done|core]. Qed.
Lemma k_create_deployment d : keeps (create_deployment o meanwhile d).
Proof. apply k_create_core; [done|]. intros id w w' [= <-]. core. Qed.
Lemma k_sync_route c : keeps (sync_route o meanwhile c).
Proof.
  apply k_then; [by apply k_asked|]. intros a. apply k_then; [|keep]. apply k_guard, k_change. intros w. apply (solid_core _ _ _ Hs). core.
Qed.
Lemma k_enqueue t : keeps (enqueue o meanwhile t).
Proof.
  apply k_then; [by apply k_asked|]. intros a. apply k_then; [|keep]. apply k_guard, k_change. intros w. apply (solid_core _ _ _ Hs). core.
Qed.
Lemma k_finalize id s : keeps (finalize_canary o meanwhile id s).
Proof. unfold finalize_canary. pose proof k_find_deployment. pose proof k_update_deployment. keep. Qed.
End Core.
#[export] Hint Resolve k_set_status k_set_runtime k_set_paused k_set_routing k_set_redeploy k_set_current k_set_current_image k_find_application
  k_find_deployment k_find_release k_find_active k_update_deployment k_create_deployment k_sync_route k_enqueue k_finalize : rollout.


(** ** The releases of an application *)

(** What a release is, but for its pin *)
Definition alike (r r' : release) : Prop := set_pinned false r' = set_pinned false r.
Lemma alike_refl r : alike r r.
Proof. done. Qed.
Lemma alike_trans a b d : alike a b -> alike b d -> alike a d.
Proof. unfold alike. congruence. Qed.
Lemma alike_same r r' : alike r r' ->
  rl_active r' = rl_active r /\ rl_kind r' = rl_kind r /\ rl_container r' = rl_container r /\ workload_of r' = workload_of r.
Proof. destruct r, r'. intros H. inversion H. subst. done. Qed.
#[export] Hint Resolve alike_refl : core.

Section Releases.
(** [fresh] names the containers engines create, [service_id] tells the ids and names of services; [live] is whether
    something served to begin with. *)
Context (fresh : N -> string) (service_id : string -> bool) (live : Prop).

Record well_formed (w : rollout) : Prop := {
  wf_ids : forall id r, ro_rels w !! id = Some r -> (id < ro_next w)%N;
  wf_fresh : forall id r k, ro_rels w !! id = Some r -> (ro_next w <= k)%N -> rl_container r <> fresh k;
  wf_own : forall i j ri rj, ro_rels w !! i = Some ri -> ro_rels w !! j = Some rj -> i <> j -> rl_active ri = true ->
    rl_kind ri <> KindService -> rl_container ri <> "" -> rl_container rj <> rl_container ri;
  wf_kinds : forall id r, ro_rels w !! id = Some r -> rl_kind r <> KindService -> service_id (rl_container r) = false;
  wf_canary : forall k r, as_canary (ro_app w) = Some k -> ro_rels w !! k = Some r -> rl_active r = false;
  wf_pointer : forall k, as_canary (ro_app w) = Some k -> (k < ro_next w)%N }.
(** The release [id] is in force, and what runs it was started and not asked to go. *)
Record serves (w : rollout) (id : N) (r : release) : Prop := {
  sv_row : exists r', ro_rels w !! id = Some r' /\ alike r r';
  sv_active : rl_active r = true;
  sv_container : rl_container r <> "";
  sv_up : workload_of r ∈ ro_up w }.
Definition lit (w : rollout) : Prop := exists id r, serves w id r.
Definition good (w : rollout) : Prop := well_formed w /\ (live -> lit w).
(** Every release that serves in one world serves in the other. *)
Definition still_serves (w w' : rollout) : Prop := forall id r, serves w id r -> serves w' id r.

(** What timers and requests may do: drop and pin releases that are not in force, and stop what these ran *)
Record calm (w w' : rollout) : Prop := {
  calm_rows : forall id r', ro_rels w' !! id = Some r' -> exists r, ro_rels w !! id = Some r /\ alike r r';
  calm_active : forall id r, ro_rels w !! id = Some r -> rl_active r = true -> is_Some (ro_rels w' !! id);
  calm_up : forall x, x ∈ ro_up w -> x ∈ ro_up w' \/
    exists id r, ro_rels w !! id = Some r /\ rl_active r = false /\ rl_container r <> "" /\ x = InContainer (rl_container r);
  calm_hosted : InService ∈ ro_up w' -> InService ∈ ro_up w;
  calm_next : (ro_next w <= ro_next w')%N;
  calm_canary : forall k, as_canary (ro_app w') = Some k -> as_canary (ro_app w) = Some k }.

Lemma calm_refl w : calm w w.
Proof. by split; eauto. Qed.
Lemma calm_trans a b d : calm a b -> calm b d -> calm a d.
Proof.
  intros [r1 a1 u1 h1 n1 c1] [r2 a2 u2 h2 n2 c2]. split; [| | |auto|lia|auto].
  - intros id r'' H. destruct (r2 id r'' H) as (r' & H' & E'). destruct (r1 id r' H') as (r & Hr & E). exists r. split; [done|].
    by eapply alike_trans.
  - intros id r H Ha. destruct (a1 id r H Ha) as [r' H']. destruct (r1 id r' H') as (r0 & Hr & E). simplify_eq.
    apply (a2 id r' H'). by apply alike_same in E as (-> & _).
  - intros x Hx. destruct (u1 x Hx) as [Hb|]; [|by right]. destruct (u2 x Hb) as [|(id & r' & H' & Ha & Hc & ->)]; [by left|].
    right. destruct (r1 id r' H') as (r & Hr & (E1 & _ & E2 & _)%alike_same). exists id, r. rewrite E1 in Ha. rewrite E2 in Hc |- *. done.
Qed.
Lemma calm_serves w w' : well_formed w -> calm w w' -> still_serves w w'.
Proof.
  intros Hwf Hc id r [(r0 & Hr & E) Ha Hn Hu]. pose proof (alike_same _ _ E) as (E1 & E2 & E3 & E4).
  destruct (calm_active _ _ Hc id r0 Hr) as [r' Hr']; [by rewrite E1|].
  destruct (calm_rows _ _ Hc id r' Hr') as (r1 & Hr1 & E'). rewrite Hr in Hr1. injection Hr1 as <-. split; [|done|done|].
  - exists r'. split; [done|]. by eapply alike_trans.
  - destruct (calm_up _ _ Hc _ Hu) as [|(id' & q & Hq & Hqa & Hqn & Hx)]; [done|]. exfalso.
    unfold workload_of in Hx. case_bool_decide as Hk; [done|]. injection Hx as Hx.
    assert (id <> id') by (intros ->; rewrite Hr in Hq; injection Hq as ->; congruence).
    eapply (wf_own w Hwf id id' r0 q); [done|done|done| | | |]; rewrite ?E1, ?E2, ?E3; done.
Qed.
Lemma calm_well_formed w w' : calm w w' -> well_formed w -> well_formed w'.
Proof.
  intros Hc Hwf. pose proof (calm_next _ _ Hc) as Hn. split.
  - intros id r H. destruct (calm_rows _ _ Hc id r H) as (r0 & H0 & _). pose proof (wf_ids w Hwf id r0 H0). lia.
  - intros id r k H Hk. destruct (calm_rows _ _ Hc id r H) as (r0 & H0 & (_ & _ & -> & _)%alike_same). eapply (wf_fresh w Hwf); [done|lia].
  - intros i j ri rj Hi Hj Hij Ha Hk Hne. destruct (calm_rows _ _ Hc i ri Hi) as (i0 & Hi0 & (E1 & E2 & E3 & _)%alike_same).
    destruct (calm_rows _ _ Hc j rj Hj) as (j0 & Hj0 & (_ & _ & E6 & _)%alike_same). rewrite E3, E6.
    apply (wf_own w Hwf i j i0 j0); congruence.
  - intros id r H. destruct (calm_rows _ _ Hc id r H) as (r0 & H0 & (_ & -> & -> & _)%alike_same). by eapply (wf_kinds w Hwf).
  - intros k r Hp H. destruct (calm_rows _ _ Hc k r H) as (r0 & H0 & (-> & _)%alike_same). eapply (wf_canary w Hwf); [|done]. by apply (calm_canary _ _ Hc).
  - intros k Hp. apply (calm_canary _ _ Hc) in Hp. pose proof (wf_pointer w Hwf k Hp). lia.
Qed.
Lemma still_refl w : still_serves w w.
Proof. by intros id r. Qed.
Lemma still_trans a b d : still_serves a b -> still_serves b d -> still_serves a d.
Proof. intros H1 H2 id r H. by apply H2, H1. Qed.
Lemma still_lit w w' : still_serves w w' -> (live -> lit w) -> live -> lit w'.
Proof. intros H Hl Hlive. destruct (Hl Hlive) as (id & r & Hs). exists id, r. by apply H. Qed.
Lemma calm_good w w' : calm w w' -> good w -> good w'.
Proof. intros Hc [Hwf Hl]. split; [by eapply calm_well_formed|]. eapply still_lit; [|done]. by apply calm_serves. Qed.

Lemma core_calm w w' : same_core w w' -> calm w w'.
Proof.
  intros (Hr & Hn & Hu & Hc). split; rewrite ?Hr, ?Hu, ?Hn, ?Hc; by eauto.
Qed.

(** ** Assertions that what is calm keeps *)

Definition sturdy (Q : rollout -> Prop) : Prop := forall w w', well_formed w -> calm w w' -> Q w -> Q w'.
Definition holding (Q : rollout -> Prop) (w : rollout) : Prop := good w /\ Q w.
Lemma holding_solid meanwhile Q : (forall n w, well_formed w -> calm w (meanwhile n w)) -> sturdy Q -> solid meanwhile good (holding Q).
Proof.
  intros Hm Hq. assert (H : forall w w', calm w w' -> holding Q w -> holding Q w').
  { intros w w' Hc [Hg Hw]. split; [by eapply calm_good|]. eapply Hq; [apply Hg|done|done]. }
  split; [by intros w []| |].
  - intros w w' Hc. by apply H, core_calm.
  - intros n w Hw. apply (H w); [|done]. apply Hm, Hw.
Qed.
Lemma sturdy_and Q1 Q2 : sturdy Q1 -> sturdy Q2 -> sturdy (fun w => Q1 w /\ Q2 w).
Proof. intros H1 H2 w w' Hwf Hc []. split; [by eapply H1|by eapply H2]. Qed.
Lemma sturdy_true : sturdy (fun _ => True).
Proof. done. Qed.
Lemma sturdy_still w0 : sturdy (still_serves w0).
Proof. intros w w' Hwf Hc H. eapply still_trans; [done|]. by apply calm_serves. Qed.
Lemma sturdy_serves id r : sturdy (fun w => serves w id r).
Proof. intros w w' Hwf Hc H. by apply (calm_serves w). Qed.
(** Nothing in force runs in the container [x]; [x] is no release's; [x] runs, and is new; the release [k] is not in force. *)
Definition unused (x : string) (w : rollout) : Prop :=
  forall id r, ro_rels w !! id = Some r -> rl_active r = true -> rl_kind r <> KindService -> rl_container r <> x.
Definition unlisted (x : string) (w : rollout) : Prop := forall id r, ro_rels w !! id = Some r -> rl_container r <> x.
Definition running (x : string) (w : rollout) : Prop :=
  unlisted x w /\ InContainer x ∈ ro_up w /\ exists k, x = fresh k /\ (k < ro_next w)%N.
Definition parked (k : N) (w : rollout) : Prop := forall r, ro_rels w !! k = Some r -> rl_active r = false.
Definition given (k : N) (w : rollout) : Prop := (k < ro_next w)%N.
Definition hosted (w : rollout) : Prop := InService ∈ ro_up w.

Lemma sturdy_unused x : sturdy (unused x).
Proof.
  intros w w' _ Hc H id r Hr Ha Hk. destruct (calm_rows _ _ Hc id r Hr) as (r0 & H0 & (E1 & E2 & E3 & _)%alike_same). rewrite E3.
  apply (H id r0); congruence.
Qed.
Lemma sturdy_unlisted x : sturdy (unlisted x).
Proof. intros w w' _ Hc H id r Hr. destruct (calm_rows _ _ Hc id r Hr) as (r0 & H0 & (_ & _ & -> & _)%alike_same). by eapply H. Qed.
Lemma sturdy_running x : sturdy (running x).
Proof.
  intros w w' Hwf Hc (Hl & Hu & k & Hk & Hlt). split_and!; [by eapply sturdy_unlisted| |].
  - destruct (calm_up _ _ Hc _ Hu) as [|(id & r & Hr & _ & _ & Hx)]; [done|]. injection Hx as Hx. by destruct (Hl id r Hr).
  - exists k. split; [done|]. pose proof (calm_next _ _ Hc). lia.
Qed.
Lemma sturdy_parked k : sturdy (parked k).
Proof. intros w w' _ Hc H r Hr. destruct (calm_rows _ _ Hc k r Hr) as (r0 & H0 & (-> & _)%alike_same). by apply H. Qed.
Lemma sturdy_given k : sturdy (given k).
Proof. intros w w' _ Hc H. pose proof (calm_next _ _ Hc). unfold given in *. lia. Qed.
Lemma sturdy_unhosted F : sturdy (fun w => F -> ~ hosted w).
Proof. intros w w' _ Hc H Hf Hh. by apply H, (calm_hosted _ _ Hc). Qed.
Lemma sturdy_hosted : sturdy hosted.
Proof. intros w w' _ Hc H. by destruct (calm_up _ _ Hc _ H) as [|(id & r & _ & _ & _ & ?)]. Qed.
End Releases.
#[export] Hint Resolve sturdy_and sturdy_true sturdy_still sturdy_serves sturdy_unused sturdy_unlisted sturdy_running sturdy_parked sturdy_given
  sturdy_hosted sturdy_unhosted : rollout.

(** * A shop *)

Module Shop.
Definition conf : app_conf := AppConf 1 1 "shop" "shop" false "" [] "" "always" None "rolling" 0 8080 1 None []
  (HealthConf "http" "/" 0 "" 5 3 3 0) (CanaryConf 10 30 60).
Definition row : app_state := AppState LiveRunning KindContainer "shop" "1" (Some 1%N) false None 0 None "auto" false 0 [] false.
Definition wanted (strategy : string) : deployment :=
  Deployment 2 DeploymentPending "shop:2" "manual" strategy None "" None "" None 0 None None.
Definition first : release := Release 1 1 KindContainer "shop:1" "old" true false "".
(** Release 1 runs in the container old, and deployment 2 waits. *)
Definition world (strategy : string) : rollout :=
  Rollout row {[ 2%N := wanted strategy ]} {[ 1%N := first ]} 3 [InContainer "old"] None [] [] None.
Definition ids (n : N) : string := "c" +:+ itoa (Z.of_N n).
Definition service_id (s : string) : bool := String.eqb s "shop".
(** Everything goes well, or what [bad] names does not. *)
Definition answers (bad : ro_call -> bool) (n : nat) (q : ro_call) : ro_answer :=
  match q with
  | QInspect x => RoAnswer true "running" (if bad q then "unhealthy" else "healthy") [] 0 false
  | QServiceInspect _ => RoAnswer true "shop" "" [] 9 false
  | QImage _ | QPorts | QSecurity | QRoutes | QServices => RoAnswer true "" "" [] 0 false
  | QSwarm | QLock => RoAnswer true "" "" [] 0 true
  | _ => RoAnswer (negb (bad q)) "" "" [] 0 false
  end.
Definition day (bad : ro_call -> bool) : outside := Outside (answers bad) (fun n => Z.of_nat n * second) ids.
Definition good_day : outside := day (fun _ => false).
(** A container that does not get well *)
Definition sick_day : outside := day (fun q => match q with QInspect _ => true | _ => false end).
Definition worker : deployer := Deployer None false 0 false.
Definition no_regex (_ _ : string) : option bool := None.
Definition ask_on (o : outside) (q : request) : action := Action o None q.
End Shop.
