(* ===== verification/RolloutCalm.v ===== *)
(** * Canaries' timers and requests never touch a release in force

    Whatever they are answered and wherever they stop, they leave a world that is [calm] with the one they found. *)
From S2P Require Import Prelude GoStrings ControlAct Registry DeployRules Rollout Deploy Canary RolloutLogic.
#[local] Open Scope Z_scope.
#[local] Open Scope list_scope.

Section Calm.
Context (o : outside) (c : app_conf) (regex : string -> string -> option bool) (fresh : N -> string) (service_id : string -> bool) (w0 : rollout)
  (Hwf : well_formed fresh service_id w0).
#[local] Abbreviation alone := (fun (_ : nat) (w : rollout) => w).
#[local] Abbreviation keeps := (keeps (calm w0) (calm w0)).
#[local] Abbreviation hoare := (hoare (calm w0)).

Lemma calm_solid : solid alone (calm w0) (calm w0).
Proof. split; [done| |done]. intros w w' Hc Hw. eapply calm_trans; [done|]. by apply core_calm. Qed.
#[local] Hint Resolve calm_solid : rollout.
(** A release that is not in force, and a canary *)
Definition idle (id : N) (r : release) : Prop := exists r0, ro_rels w0 !! id = Some r0 /\ alike r0 r /\ rl_active r0 = false.
Definition pointed (k : N) : Prop := as_canary (ro_app w0) = Some k.

Lemma idle_canary w k r : calm w0 w -> pointed k -> ro_rels w !! k = Some r -> idle k r.
Proof.
  intros Hc Hp Hr. destruct (calm_rows _ _ Hc k r Hr) as (r0 & H0 & E). exists r0. split_and!; [done|done|]. by eapply (wf_canary _ _ _ Hwf).
Qed.
Lemma k_without x : (forall w, calm w0 w -> x ∈ ro_up w0 -> exists id r, ro_rels w0 !! id = Some r /\ rl_active r = false /\ rl_container r <> "" /\ x = InContainer (rl_container r)) ->
  keeps (change (without_workload x)).
Proof.
  intros Hx. apply k_change. intros w Hc. destruct Hc as [Hr Ha Hu Hh Hn Hk]. split; [done|done| | |done|done].
  2:{ intros [Hi _]%list_elem_of_In%filter_In. by apply Hh, list_elem_of_In. }
  intros y Hy. destruct (Hu y Hy) as [Hw|]; [|by right]. destruct (decide (y = x)) as [->|Hne].
  - right. apply (Hx w); [by split|done].
  - left. unfold without_workload. cbn. apply list_elem_of_In, filter_In. split; [by apply list_elem_of_In|]. by rewrite bool_decide_eq_false_2.
Qed.
Lemma k_remove_idle id r : idle id r -> rl_container r <> "" -> keeps (remove_container o alone (rl_container r)).
Proof.
  intros (r0 & H0 & (_ & _ & E & _)%alike_same & Ha) Hne. apply k_then; [keep|]. intros _. apply k_without. intros w _ _. exists id, r0.
  rewrite E in Hne |- *. done.
Qed.
Lemma k_stop_idle id r : idle id r -> rl_container r <> "" -> keeps (stop_container o alone (rl_container r)).
Proof.
  intros (r0 & H0 & (_ & _ & E & _)%alike_same & Ha) Hne. apply k_then; [keep|]. intros _. apply k_without. intros w _ _. exists id, r0.
  rewrite E in Hne |- *. done.
Qed.
Lemma k_remove_canary id r : idle id r -> keeps (remove_canary_container o alone r).
Proof.
  intros Hi. unfold remove_canary_container. destruct (String.eqb_spec (rl_container r) ""); cbn; [apply k_done|].
  pose proof (k_remove_idle id r Hi). pose proof (k_stop_idle id r Hi). keep.
Qed.
Lemma k_delete_idle id : (forall r, ro_rels w0 !! id = Some r -> rl_active r = false) -> keeps (delete_release o alone id).
Proof.
  intros Hi. apply k_write; [eauto with rollout|]. intros w [Hr Ha Hu Hh Hn Hk]. split; [| |done|done|done|done]; cbn.
  - intros i r'. rewrite lookup_delete_Some. intros [_ H]. eauto.
  - intros i r H Hact. destruct (decide (i = id)) as [->|]; [by rewrite (Hi r H) in Hact|]. rewrite lookup_delete_ne by done. eauto.
Qed.
Lemma k_set_canary_none : keeps (set_canary o alone None 0).
Proof. apply k_write; [eauto with rollout|]. intros w [Hr Ha Hu Hh Hn Hk]. by split. Qed.
Lemma k_set_canary_same k weight : pointed k -> keeps (set_canary o alone (Some k) weight).
Proof. intros Hp. apply k_write; [eauto with rollout|]. intros w [Hr Ha Hu Hh Hn Hk]. split; [done|done|done|done|done|]. by intros k' [= <-]. Qed.
#[local] Hint Resolve k_remove_canary k_set_canary_none k_set_canary_same : rollout.

Lemma idle_delete id r : idle id r -> forall r', ro_rels w0 !! id = Some r' -> rl_active r' = false.
Proof. intros (r0 & H0 & _ & Ha) r' H. congruence. Qed.
#[local] Hint Resolve k_delete_idle idle_delete : rollout.
(** Reading the application, its canary's release, and a release *)
Lemma h_application : hoare (calm w0) (find_application o alone) (fun a w => calm w0 w /\ forall s k, a = Some s -> as_canary s = Some k -> pointed k).
Proof.
  eapply h_post; [apply h_find; eauto with rollout|]. intros a w [Hc Ha]. split; [done|]. intros s k -> Hk.
  destruct Ha as [|[= ->]]; [done|]. by apply (calm_canary _ _ Hc).
Qed.
Lemma h_canary_release k : pointed k -> hoare (calm w0) (find_release o alone k) (fun r w => (forall q, r = Some q -> idle k q) /\ calm w0 w).
Proof.
  intros Hp. eapply h_post; [apply h_find; eauto with rollout|]. intros r w [Hc Hr]. split; [|done]. intros q ->.
  destruct Hr as [|Hr]; [done|]. by eapply idle_canary.
Qed.
Lemma on_canary_release {A} k (m : option release -> R A) : pointed k ->
  (forall r, (forall q, r = Some q -> idle k q) -> keeps (m r)) -> keeps (r <~ find_release o alone k; m r).
Proof. intros Hp Hm. eapply h_then; [by apply h_canary_release|]. intros r. apply h_taken. apply Hm. Qed.

(** ** The timer *)

Lemma k_auto_abort k r : idle k r -> keeps (auto_abort_canary o alone c k r).
Proof. intros Hi. unfold auto_abort_canary. keep. Qed.
Lemma k_auto_promote r : keeps (auto_promote_canary o alone c r).
Proof. unfold auto_promote_canary. keep. Qed.
#[local] Hint Resolve k_auto_abort k_auto_promote : rollout.
Lemma k_tick id a k r : pointed k -> idle k r -> keeps (canary_tick o alone c id a k r).
Proof. intros Hp Hi. unfold canary_tick. keep. Qed.
Lemma k_process_canary_step id : keeps (process_canary_step o alone c id).
Proof.
  unfold process_canary_step. apply k_then; [keep|]. intros [d|]; [|keep].
  eapply h_then; [apply h_application|]. intros [a|]; [|by apply h_done; intros ? []]. eapply h_before; [intros w [H1 H2]; exact (conj H2 H1)|].
  apply h_taken. intros Hp. destruct (as_canary a) as [k|] eqn:Ek; [|keep]. apply on_canary_release; [by eapply Hp|].
  intros [r|] Hi; [|keep]. destruct (rl_deployment r =? id)%N; [|keep]. apply k_tick; [by eapply Hp|by apply Hi].
Qed.

(** ** Requests *)

Lemma k_enqueue_deploy i t reg s : keeps (enqueue_deploy o alone i t reg s).
Proof. unfold enqueue_deploy. keep. Qed.
Lemma k_update_application a : (forall k, as_canary a = Some k -> pointed k) -> keeps (update_application o alone a).
Proof. intros Hp. apply k_write; [eauto with rollout|]. intros w [Hr Ha Hu Hh Hn Hk]. by split. Qed.
Lemma k_reconcile_auto : keeps (reconcile_auto_runtime o alone).
Proof.
  unfold reconcile_auto_runtime. eapply h_then; [apply h_application|]. intros [a|]; [|by apply h_done; intros ? []].
  eapply h_before; [intros w [H1 H2]; exact (conj H2 H1)|]. apply h_taken. intros Hp.
  assert (forall b, keeps (update_application o alone (without_auto b a))) by (intros b; apply k_update_application; intros k Hk; by eapply Hp).
  keep.
Qed.
#[local] Hint Resolve k_enqueue_deploy k_reconcile_auto : rollout.
Lemma k_deploy a reg tag s : keeps (deploy o alone c a reg tag s).
Proof. unfold deploy. keep. Qed.
Lemma k_redeploy a : keeps (redeploy o alone c a).
Proof. unfold redeploy. keep. Qed.
Lemma k_reconcile_redeploy a : keeps (reconcile_redeploy o alone c a).
Proof. unfold reconcile_redeploy. keep. Qed.
#[local] Hint Resolve k_deploy k_redeploy k_reconcile_redeploy : rollout.
Lemma k_auto_redeploy a : keeps (auto_redeploy o alone c a).
Proof. unfold auto_redeploy. keep. Qed.
Lemma k_mark_redeploy a : keeps (mark_redeploy_required o alone a).
Proof. unfold mark_redeploy_required. keep. Qed.
Lemma k_rollback id : keeps (rollback o alone c id).
Proof. unfold rollback. keep. Qed.
Lemma k_start_canary a reg tag : keeps (start_canary o alone c a reg tag).
Proof. unfold start_canary. keep. Qed.
Lemma k_pause a : keeps (pause_canary o alone a).
Proof. unfold pause_canary. keep. Qed.
Lemma k_resume a : keeps (resume_canary o alone a).
Proof. unfold resume_canary. keep. Qed.

(** The application is as it was found, or was since left by what is calm *)
Definition loaded (a : app_state) : Prop := forall k, as_canary a = Some k -> pointed k.
Lemma k_weight a weight : loaded a -> keeps (set_canary_weight o alone c a weight).
Proof.
  intros Ha. unfold set_canary_weight. destruct (as_canary a) as [k|] eqn:Ek; [|keep]. pose proof (Ha k Ek).
  generalize (if weight <? 0 then 0 else weight); intros v. generalize (if 99 <? v then 99 else v); intros u. keep.
Qed.
Lemma k_promote a : keeps (promote_canary o alone c a).
Proof. unfold promote_canary. keep. Qed.
Lemma k_abort a : loaded a -> keeps (abort_canary o alone c a).
Proof.
  intros Ha. unfold abort_canary. destruct (as_canary a) as [k|] eqn:Ek; [|keep]. pose proof (Ha k Ek).
  apply on_canary_release; [done|]. intros r Hi. apply k_then; [|keep]. destruct r as [r|]; [|keep].
  pose proof (Hi r eq_refl). pose proof (k_remove_canary k r). pose proof (k_delete_idle k). pose proof (idle_delete k r). keep.
Qed.
Lemma k_routing a r : loaded a -> keeps (change_canary_routing o alone c regex a r).
Proof.
  intros Ha. unfold change_canary_routing. destruct (normalize_canary_routing r); [|keep]. destruct (validate_canary_routing _ _ _); [keep|].
  apply k_then; [keep|]. intros []; cbn [negb]; [|keep]. apply k_then; [|keep]. destruct (as_canary a) as [k|] eqn:Ek; [|keep]. pose proof (Ha k Ek). keep.
Qed.
Lemma k_pin id b : keeps (set_pinned_release o alone id b).
Proof.
  unfold set_pinned_release. apply k_then; [keep|]. intros [r|]; [|keep]. apply k_then; [|keep]. apply k_write; [eauto with rollout|].
  intros w [Hr Ha Hu Hh Hn Hk]. split; [| |done|done|done|done]; cbn.
  - intros i r'. rewrite lookup_alter_Some. intros [(-> & q & Hq & ->)|[_ H]]; [|by apply Hr]. destruct (Hr _ _ Hq) as (q0 & H0 & E).
    exists q0. split; [done|]. by eapply alike_trans.
  - intros i q H Hact. apply lookup_alter_is_Some. by eapply Ha.
Qed.
Lemma k_remove_release id : keeps (remove_release o alone id).
Proof.
  unfold remove_release. eapply h_then; [apply h_find; eauto with rollout|]. intros [r|]; [|by apply h_done; intros ? []].
  destruct (rl_active r) eqn:Ea; [by apply h_done; intros ? []|].
  eapply (h_before _ (fun w => idle id r /\ calm w0 w)).
  { intros w [Hc [|Hr]]; [done|]. split; [|done]. destruct (calm_rows _ _ Hc id r (eq_sym Hr)) as (r0 & H0 & E). exists r0. split_and!; [done|done|].
    by apply alike_same in E as (<- & _). }
  apply h_taken. intros Hi. destruct (rl_pinned r); [keep|]. pose proof (k_delete_idle id (idle_delete id r Hi)).
  apply k_then; [|keep]. destruct (String.eqb_spec (rl_container r) ""); cbn [negb when]; [keep|]. by apply (k_remove_idle id).
Qed.
#[local] Hint Resolve k_auto_redeploy k_mark_redeploy k_rollback k_start_canary k_pause k_resume k_weight k_promote k_abort k_routing k_pin
  k_remove_release k_process_canary_step : rollout.
Lemma k_on {A} (k : app_state -> R A) : (forall a, loaded a -> keeps (k a)) -> keeps (on_application o k).
Proof.
  intros Hk. unfold on_application. eapply h_then; [apply h_application|]. intros [a|]; [|by apply h_done; intros ? []].
  eapply h_before; [intros w [H1 H2]; exact (conj H2 H1)|]. apply h_taken. intros Hp. apply k_then; [|keep]. apply Hk. intros i Hi. by eapply Hp.
Qed.
Lemma k_request q : keeps (request_run c regex o q).
Proof. destruct q; cbn -[on_application]; try (apply k_on; intros); eauto with rollout. Qed.
End Calm.

Lemma life_core w t l : same_core w (put_life t l w).
Proof. done. Qed.
Lemma perform_calm c regex fresh service_id x w : well_formed fresh service_id w -> calm w (perform c regex x w).
Proof.
  intros Hwf. unfold perform. set (w1 := put_life [] (ac_left x) w).
  assert (H : calm w1 (request_run c regex (ac_outside x) (ac_request x) w1).1).
  { pose proof (k_request (ac_outside x) c regex fresh service_id w1) as H. assert (Hwf1 : well_formed fresh service_id w1) by (apply (calm_well_formed fresh service_id w); [apply core_calm, life_core|done]).
    specialize (H Hwf1 (ac_request x) w1 (calm_refl w1)). by destruct (request_run _ _ _ _ _) as [w' []]. }
  eapply calm_trans; [apply (core_calm w w1), life_core|]. eapply calm_trans; [done|]. apply core_calm, life_core.
Qed.
Lemma performed_calm c regex fresh service_id l w : well_formed fresh service_id w -> calm w (performed c regex l w).
Proof.
  revert w. induction l as [|x l IH]; intros w Hwf; cbn; [apply calm_refl|].
  pose proof (perform_calm c regex fresh service_id x w Hwf) as H.
  eapply calm_trans; [done|]. apply IH. by eapply calm_well_formed.
Qed.
