(* ===== verification/RolloutSafe.v ===== *)
(** * A deployment never leaves an application without a release in force

    While others act between its steps ([calm]), whatever it is answered and wherever its worker dies, a deployment that
    is not a recreate ends or stops with a release whose workload runs; and unless it released, every release that was
    served still is. *)
From S2P Require Import Prelude GoStrings ControlAct Registry DeployRules Rollout Deploy DeployRun RolloutLogic.
#[local] Open Scope Z_scope.
#[local] Open Scope list_scope.

(** Docker's and Swarm's ids: a container's is new, and is neither a service's nor the name of this one. *)
Class lawful_ids (o : outside) (service_id : string -> bool) (c : app_conf) : Prop := {
  ids_inj : forall i j, ou_fresh o i = ou_fresh o j -> i = j;
  ids_named : forall i, ou_fresh o i <> "";
  ids_container : forall i, service_id (ou_fresh o i) = false;
  ids_service : forall n s, rn_ok (ou_ext o n (QServiceInspect (deploy_alias (cf_alias c) (cf_id c)))) = true ->
    rn_text (ou_ext o n (QServiceInspect (deploy_alias (cf_alias c) (cf_id c)))) = s -> s <> "" -> service_id s = true;
  ids_alias : service_id (deploy_alias (cf_alias c) (cf_id c)) = true }.

Section Keeping.
Context (o : outside) (meanwhile : nat -> rollout -> rollout) (h : deployer) (c : app_conf) (dies : rollout -> Prop).
Context (P : rollout -> Prop) (Hs : solid meanwhile dies P).
#[local] Abbreviation keeps := (keeps dies P).

(** ** Steps that keep whatever stands *)

Lemma k_revert a : keeps (revert_runtime_switch o meanwhile a).
Proof. unfold revert_runtime_switch. keep. Qed.
#[local] Hint Resolve k_revert : rollout.
Lemma k_fail id d why : keeps (fail o meanwhile id d why).
Proof. unfold fail. keep. Qed.
#[local] Hint Resolve k_fail : rollout.
Lemma k_registry {A} (x : A) f : keeps (registry_says o meanwhile h x f).
Proof. unfold registry_says. keep. Qed.
#[local] Hint Resolve k_registry : rollout.
Lemma k_authorized ref : keeps (authorized_image_ref o meanwhile h c ref).
Proof. unfold authorized_image_ref. keep. Qed.
Lemma k_is_build ref : keeps (is_build_ref o meanwhile h ref).
Proof. unfold is_build_ref. keep. Qed.
Lemma k_registry_auth : keeps (registry_auth o meanwhile h).
Proof. unfold registry_auth. keep. Qed.
#[local] Hint Resolve k_authorized k_is_build k_registry_auth : rollout.
Lemma k_image_present ref : keeps (image_present o meanwhile ref).
Proof. unfold image_present. keep. Qed.
Lemma k_pull ref auth : keeps (pull_image o meanwhile ref auth).
Proof. unfold pull_image. keep. Qed.
Lemma k_credential d : keeps (resolve_registry_auth o meanwhile c d).
Proof. unfold resolve_registry_auth. keep. Qed.
Lemma k_build id : keeps (build_on_runner o meanwhile h c id).
Proof. unfold build_on_runner. keep. Qed.
Lemma k_latest : keeps (latest_number o meanwhile).
Proof. by apply k_find. Qed.
#[local] Hint Resolve k_image_present k_pull k_credential k_build k_latest : rollout.
Lemma k_defer id d : keeps (defer_for_runner o meanwhile h id d).
Proof. unfold defer_for_runner. keep. Qed.
#[local] Hint Resolve k_defer : rollout.
Lemma k_run_image id a d : keeps (run_image o meanwhile h c id a d).
Proof. unfold run_image. keep. Qed.
Lemma k_health_rounds fuel deadline gates x : keeps (health_rounds o meanwhile fuel deadline gates x).
Proof. induction fuel as [|fuel IH]; cbn [health_rounds]; keep. Qed.
Lemma k_health_gate x : keeps (health_gate o meanwhile c x).
Proof. unfold health_gate. pose proof k_health_rounds. keep. Qed.
Lemma k_converge_rounds fuel deadline name desired : keeps (converge_rounds o meanwhile fuel deadline name desired).
Proof. induction fuel as [|fuel IH]; cbn [converge_rounds]; keep. Qed.
Lemma k_image_tag image : keeps (image_tag_by_image o meanwhile image).
Proof. by apply k_find. Qed.
Lemma k_next_version : keeps (next_version o meanwhile).
Proof. apply k_then; [by apply k_find|keep]. Qed.
#[local] Hint Resolve k_image_tag : rollout.
Lemma k_release_tag d image : keeps (release_image_tag o meanwhile d image).
Proof. unfold release_image_tag. keep. Qed.
Lemma k_tag d v : keeps (tag_release_image o meanwhile h d v).
Proof. unfold tag_release_image. keep. Qed.
Lemma k_make_current id image : keeps (make_current o meanwhile c id image).
Proof. unfold make_current. keep. Qed.
Lemma k_succeed id d : keeps (succeed o meanwhile id d).
Proof. unfold succeed. keep. Qed.
Lemma k_stop {A} id d why : keeps (stop o meanwhile id d why : R (ending + A)).
Proof. unfold stop. keep. Qed.
#[local] Hint Resolve k_stop : rollout.
Lemma k_need id d q why : keeps (need o meanwhile id d q why).
Proof. unfold need. keep. Qed.
Lemma k_attempted {A B} (m : R (ending + A)) (k : A -> R (ending + B)) : keeps m -> (forall a, keeps (k a)) -> keeps (attempt m k).
Proof. intros Hm Hk. unfold attempt. keep. Qed.
Lemma k_unless b (m : R (ending + unit)) : keeps m -> keeps (unless b m).
Proof. intros H. unfold unless. keep. Qed.
End Keeping.
#[export] Hint Resolve k_registry k_authorized k_is_build k_registry_auth k_revert k_fail k_image_present k_pull k_credential k_build k_latest k_defer k_run_image k_health_gate k_converge_rounds k_next_version
  k_release_tag k_tag k_make_current k_succeed k_stop k_need : rollout.
(** [keep] through steps that may end the deployment *)
Ltac keep_on := repeat (cbv zeta; first [ progress intros | apply k_attempted | apply k_unless | progress keep ]).

Section Spec.
Context (o : outside) (meanwhile : nat -> rollout -> rollout) (h : deployer) (c : app_conf) (dies : rollout -> Prop).
Context (P : rollout -> Prop) (Hs : solid meanwhile dies P).
#[local] Abbreviation keeps := (keeps dies P).

Lemma k_service_spec id d image built : keeps (service_spec o meanwhile h c id d image built).
Proof. unfold service_spec. keep_on. Qed.
Lemma k_devices id d b : keeps (container_devices o meanwhile h c id d b).
Proof. unfold container_devices. keep_on. Qed.
#[local] Hint Resolve k_devices : rollout.
(** Without published ports the strategy in force is the one asked for. *)
Lemma h_published canary : (forall n, rn_count (ou_ext o n QPorts) <= 0) ->
  hoare dies P (published_ports o meanwhile canary) (fun n w => n = O /\ P w).
Proof.
  intros Hp w Hw. unfold published_ports. destruct canary; [done|]. unfold andthen, ask.
  pose proof (k_asked o meanwhile dies P QPorts Hs w Hw) as H. unfold ask in H. specialize (Hp (length (ro_trace w))).
  destruct (ro_left w) as [[|n]|]; [done| |]; cbn; destruct (rn_ok _); (split; [lia || done|done]).
Qed.
Lemma k_container_spec_any id d image built : (forall r, keeps (retire_release o meanwhile r)) -> keeps (container_spec o meanwhile h c id d image built).
Proof. intros Hr. unfold container_spec, published_ports. keep_on. Qed.
Lemma k_container_spec id d image built : (forall n, rn_count (ou_ext o n QPorts) <= 0) -> dp_strategy d <> deploy_recreate ->
  keeps (container_spec o meanwhile h c id d image built).
Proof.
  intros Hp Hd. unfold container_spec. apply k_attempted; [keep_on|]. intros context. eapply h_then; [by apply h_published|]. intros ports. apply h_taken. intros ->.
  assert (E : effective_strategy (dp_strategy d) 0 = dp_strategy d) by (unfold effective_strategy; by rewrite andb_false_r). rewrite E.
  destruct (String.eqb_spec (dp_strategy d) deploy_recreate); [done|]. keep_on.
Qed.
End Spec.
#[export] Hint Resolve k_service_spec k_container_spec : rollout.

(** ** Steps on the releases *)

Section Releasing.
Context (o : outside) (meanwhile : nat -> rollout -> rollout) (h : deployer) (c : app_conf) (service_id : string -> bool) (live : Prop).
Context (Hids : lawful_ids o service_id c).
#[local] Abbreviation fresh := (ou_fresh o).
#[local] Abbreviation well_formed := (well_formed fresh service_id).
#[local] Abbreviation good := (good fresh service_id live).
#[local] Abbreviation holding := (holding fresh service_id live).
#[local] Abbreviation hoare := (hoare good).
#[local] Abbreviation keeps := (keeps good).
#[local] Abbreviation sturdy := (sturdy fresh service_id).
Context (Hm : forall n w, well_formed w -> calm w (meanwhile n w)).

Lemma hold_solid Q : sturdy Q -> solid meanwhile good (holding Q).
Proof. intros Hq. by apply holding_solid. Qed.
#[local] Hint Resolve hold_solid : rollout.

(** Taking a workload away *)
Lemma without_well_formed x w : well_formed w -> well_formed (without_workload x w).
Proof. by intros []; split. Qed.
Lemma without_serves x w id r : workload_of r <> x -> serves w id r -> serves (without_workload x w) id r.
Proof.
  intros Hx [Hr Ha Hn Hu]. split; [done|done|done|]. unfold without_workload. cbn. apply list_elem_of_In, filter_In.
  split; [by apply list_elem_of_In|]. by rewrite bool_decide_eq_false_2.
Qed.
Lemma serves_unused x w id r : unused x w -> serves w id r -> workload_of r <> InContainer x.
Proof.
  intros Hx [(r' & Hr & (E1 & E2 & E3 & <-)%alike_same) Ha Hn Hu]. unfold workload_of. case_bool_decide; [done|]. intros [= Hc].
  apply (Hx id r' Hr); [congruence|done|done].
Qed.
Lemma without_unused x w : unused x w -> still_serves w (without_workload (InContainer x) w).
Proof. intros Hx id r Hs. apply without_serves; [|done]. by eapply serves_unused. Qed.
Lemma good_without x w : unused x w -> good w -> good (without_workload (InContainer x) w).
Proof. intros Hx [Hwf Hl]. split; [by apply without_well_formed|]. eapply still_lit; [|done]. by apply without_unused. Qed.

(** An assertion that losing the container [x] does not disturb *)
Definition spares (x : string) (Q : rollout -> Prop) : Prop := forall w, well_formed w -> unused x w -> Q w -> Q (without_workload (InContainer x) w).
Lemma spares_and x Q1 Q2 : spares x Q1 -> spares x Q2 -> spares x (fun w => Q1 w /\ Q2 w).
Proof. intros H1 H2 w Hwf Hx []. split; [by apply H1|by apply H2]. Qed.
Lemma spares_true x : spares x (fun _ => True).
Proof. by intros w _ _ H. Qed.
Lemma spares_still x w0 : spares x (still_serves w0).
Proof. intros w _ Hx H. eapply still_trans; [done|]. by apply without_unused. Qed.
Lemma spares_serves x id r : spares x (fun w => serves w id r).
Proof. intros w _ Hx H. by apply without_unused. Qed.
Lemma spares_unused x y : spares x (unused y).
Proof. by intros w _ _ H. Qed.
Lemma spares_unlisted x y : spares x (unlisted y).
Proof. by intros w _ _ H. Qed.
Lemma spares_parked x k : spares x (parked k).
Proof. by intros w _ _ H. Qed.
Lemma spares_given x k : spares x (given k).
Proof. by intros w _ _ H. Qed.
Lemma spares_running x y : x <> y -> spares x (running fresh y).
Proof.
  intros Hne w _ _ (Hl & Hu & Hk). split_and!; [done| |done]. unfold without_workload. cbn. apply list_elem_of_In, filter_In.
  split; [by apply list_elem_of_In|]. rewrite bool_decide_eq_false_2; [done|]. congruence.
Qed.
Lemma spares_unhosted x F : spares x (fun w => F -> ~ hosted w).
Proof.
  intros w _ _ Hn Hf Hu. apply (Hn Hf). unfold hosted, without_workload in *. cbn in Hu. apply list_elem_of_In, filter_In in Hu as [Hu _].
  by apply list_elem_of_In.
Qed.
Lemma spares_hosted x : spares x hosted.
Proof.
  intros w _ _ Hu. unfold hosted, without_workload. cbn. apply list_elem_of_In, filter_In. split; [by apply list_elem_of_In|].
  by rewrite bool_decide_eq_false_2.
Qed.
#[local] Hint Resolve spares_and spares_true spares_still spares_serves spares_unused spares_unlisted spares_parked spares_given spares_running spares_hosted spares_unhosted : rollout.

Lemma h_without x Q : sturdy Q -> spares x Q -> forall q, hoare (holding (fun w => unused x w /\ Q w)) (ask o meanwhile q ;~ change (without_workload (InContainer x)))
  (fun _ => holding (fun w => unused x w /\ Q w)).
Proof.
  intros Hq Hx q. eapply h_then; [apply h_asked; eauto with rollout|]. intros a. apply h_change. intros w [[Hwf Hl] [Hu HQ]].
  split; [by apply good_without|]. split; [done|]. by apply Hx.
Qed.
Lemma k_stop_unused x Q : sturdy Q -> spares x Q -> keeps (holding (fun w => unused x w /\ Q w)) (stop_container o meanwhile x).
Proof. intros Hq Hx. by apply h_without. Qed.
Lemma k_remove_unused x Q : sturdy Q -> spares x Q -> keeps (holding (fun w => unused x w /\ Q w)) (remove_container o meanwhile x).
Proof. intros Hq Hx. by apply h_without. Qed.
Lemma unlisted_unused x w : unlisted x w -> unused x w.
Proof. intros H id r Hr _ _. by eapply H. Qed.

(** Dropping the row of a release that is not in force *)
Lemma delete_well_formed k w : well_formed w -> well_formed (put_rels (delete k (ro_rels w)) w).
Proof.
  intros [H1 H2 H3 H4 H5 H6]. split; cbn.
  - intros id r [_ H]%lookup_delete_Some. eauto.
  - intros id r i [_ H]%lookup_delete_Some. eauto.
  - intros i j ri rj [_ Hi]%lookup_delete_Some [_ Hj]%lookup_delete_Some. eauto.
  - intros id r [_ H]%lookup_delete_Some. eauto.
  - intros i r Hi [_ H]%lookup_delete_Some. eauto.
  - done.
Qed.
Lemma delete_serves k w id r : id <> k -> serves w id r -> serves (put_rels (delete k (ro_rels w)) w) id r.
Proof. intros Hne [(r' & Hr & E) Ha Hn Hu]. split; [|done|done|done]. exists r'. cbn. by rewrite lookup_delete_ne. Qed.
Lemma delete_still k w : parked k w -> still_serves w (put_rels (delete k (ro_rels w)) w).
Proof.
  intros Hk id r Hs. apply delete_serves; [|done]. intros ->. destruct Hs as [(r' & Hr & (E & _)%alike_same) Ha _ _].
  rewrite (Hk r' Hr) in E. congruence.
Qed.

(** ** A new release *)

(** What a release must be for its row to be added *)
Record addable (r : release) (w : rollout) : Prop := {
  ad_fresh : forall k, (ro_next w <= k)%N -> rl_container r <> fresh k;
  ad_other : forall id q, ro_rels w !! id = Some q -> rl_active q = true -> rl_kind q <> KindService -> rl_container q <> "" -> rl_container r <> rl_container q;
  ad_own : rl_kind r <> KindService -> unlisted (rl_container r) w;
  ad_kind : rl_kind r <> KindService -> service_id (rl_container r) = false }.
Definition with_release (r : release) (w : rollout) : rollout := take_next (put_rels (<[ro_next w := r]> (ro_rels w)) w).
Lemma no_row_yet w : well_formed w -> ro_rels w !! ro_next w = None.
Proof. intros Hwf. destruct (ro_rels w !! ro_next w) eqn:E; [|done]. apply (wf_ids _ _ _ Hwf) in E. lia. Qed.
Lemma with_release_well_formed r w : well_formed w -> addable r w -> well_formed (with_release r w).
Proof.
  intros Hwf [A1 A2 A3 A4]. pose proof (no_row_yet w Hwf) as Hno. destruct Hwf as [H1 H2 H3 H4 H5 H6]. split; cbn.
  - intros id q. rewrite lookup_insert_Some. intros [[<- _]|[_ H]]; [lia|]. specialize (H1 id q H). lia.
  - intros id q k. rewrite lookup_insert_Some. intros [[_ <-]|[_ H]] Hk; [apply A1; lia|]. apply (H2 id q k H). lia.
  - intros i j ri rj. rewrite !lookup_insert_Some. intros [[<- <-]|[Hi Hri]] [[<- <-]|[Hj Hrj]] Hij Ha Hk Hne; [done| | |].
    + by apply (A3 Hk j).
    + by apply (A2 i).
    + by apply (H3 i j).
  - intros id q. rewrite lookup_insert_Some. intros [[_ <-]|[_ H]]; [done|]. eauto.
  - intros k q Hp. rewrite lookup_insert_Some. intros [[<- _]|[_ H]]; [specialize (H6 _ Hp); lia|]. eauto.
  - intros k Hp. specialize (H6 k Hp). lia.
Qed.
Lemma with_release_still r w : well_formed w -> still_serves w (with_release r w).
Proof.
  intros Hwf id q [(q' & Hq & E) Ha Hn Hu]. split; [|done|done|done]. exists q'. split; [|done]. cbn. rewrite lookup_insert_ne; [done|].
  pose proof (wf_ids _ _ _ Hwf id q' Hq). lia.
Qed.
Lemma with_release_good r w : good w -> addable r w -> good (with_release r w).
Proof. intros [Hwf Hl] Ha. split; [by apply with_release_well_formed|]. eapply still_lit; [|done]. by apply with_release_still. Qed.
Lemma container_addable x r w : running fresh x w -> rl_container r = x -> addable r w.
Proof.
  intros (Hl & Hu & k & -> & Hk) Hx. split; rewrite Hx.
  - intros j Hj H%(ids_inj (lawful_ids := Hids)). lia.
  - intros id q Hq _ _ _ H. by apply (Hl id q).
  - done.
  - intros _. apply (ids_container (lawful_ids := Hids)).
Qed.
Lemma service_addable r w : well_formed w -> rl_kind r = KindService -> service_id (rl_container r) = true -> addable r w.
Proof.
  intros Hwf Hk Hx. split; [| |done|done].
  - intros k _ E. rewrite E in Hx. by rewrite (ids_container (lawful_ids := Hids)) in Hx.
  - intros id q Hq _ Hqk _ E. rewrite E, (wf_kinds _ _ _ Hwf id q) in Hx; done.
Qed.
(** The row of a release that serves at once *)
Lemma h_create_serving r Q : sturdy Q -> rl_active r = true -> rl_container r <> "" ->
  (forall w, well_formed w -> Q w -> addable r w /\ workload_of r ∈ ro_up w) ->
  hoare (holding Q) (create_release o meanwhile r)
    (fun n => match n with None => holding Q | Some new => fun w => (exists w1, Q w1 /\ new = ro_next w1) /\ holding (fun w => serves w new r) w end).
Proof.
  intros Hq Ha Hn Hw. apply h_create; [eauto with rollout|done|]. intros w w' [Hg HQ]. destruct (version_taken _ _); [done|]. intros [= <-].
  destruct (Hw w (proj1 Hg) HQ) as [Hadd Hup]. split; [by exists w|]. split; [by apply (with_release_good r)|].
  split; [|done|done|done]. exists r. split; [|done]. cbn. apply lookup_insert_eq.
Qed.
(** The row of a canary *)
Lemma h_create_parked r x Q : sturdy Q -> rl_active r = false -> rl_container r = x -> (forall w, well_formed w -> Q w -> Q (with_release r w)) ->
  hoare (holding (fun w => running fresh x w /\ Q w)) (create_release o meanwhile r)
    (fun n => match n with None => holding (fun w => running fresh x w /\ Q w) | Some new => holding (fun w => (parked new w /\ given new w) /\ Q w) end).
Proof.
  intros Hq Ha Hx Hw. apply h_create; [eauto with rollout|done|]. intros w w' [Hg [Hr HQ]]. destruct (version_taken _ _); [done|]. intros [= <-].
  split; [by apply (with_release_good r), (container_addable x)|]. split; [|by apply (Hw w), HQ; apply Hg]. split.
  - intros q. cbn. rewrite lookup_insert_eq. by intros [= <-].
  - unfold given. cbn. lia.
Qed.
(** Activating a release that serves *)
Lemma k_activate new r : keeps (holding (fun w => serves w new r)) (activate o meanwhile new).
Proof.
  apply k_write; [eauto with rollout|]. intros w [[[H1 H2 H3 H4 H5 H6] _] [(r' & Hr & E) Ha Hn Hu]].
  pose proof (alike_same _ _ E) as (E1 & E2 & E3 & E4).
  set (w' := put_rels _ w). assert (Hrow : forall id q, ro_rels w' !! id = Some q -> exists q0, ro_rels w !! id = Some q0 /\ rl_kind q = rl_kind q0 /\ rl_container q = rl_container q0 /\ (rl_active q = true -> id = new)).
  { intros id q. cbn. rewrite lookup_alter_Some. intros [(-> & q1 & Hq & ->)|[Hne Hq]]; rewrite lookup_fmap, fmap_Some in Hq; destruct Hq as (q0 & Hq0 & ->); exists q0; done. }
  assert (Hserves : serves w' new r).
  { split; [|done|done|done]. exists (set_active true (set_active false r')). split; [|].
    - cbn. by rewrite lookup_alter_eq, lookup_fmap, Hr.
    - unfold alike in *. destruct r, r'. cbn in *. unfold set_pinned in *. cbn in *. congruence. }
  split; [|done]. split; [|by intros _; exists new, r]. split.
  - intros id q (q0 & Hq & _)%Hrow. eauto.
  - intros id q k (q0 & Hq & _ & -> & _)%Hrow. eauto.
  - intros i j ri rj (i0 & Hi & Ki & -> & Ai)%Hrow (j0 & Hj & _ & -> & _)%Hrow Hij Hact Hk Hne. rewrite (Ai Hact) in *.
    assert (i0 = r') as -> by congruence. apply (H3 new j r' j0); [done|done|done| | |done]; [congruence|by rewrite <- Ki].
  - intros id q (q0 & Hq & Kq & -> & _)%Hrow. rewrite Kq. eauto.
  - intros k q Hp (q0 & Hq & _ & _ & Aq)%Hrow. destruct (rl_active q) eqn:Eq; [|done]. rewrite (Aq eq_refl) in *.
    rewrite (H5 new r') in E1; [congruence|done|done].
  - done.
Qed.

(** ** The release in force, and the canary, as they are read *)

Definition free (r : release) (w : rollout) : Prop := rl_container r <> "" -> unused (rl_container r) w.
Lemma sturdy_free r : sturdy (free r).
Proof. intros w w' Hwf Hc H Hne. by eapply sturdy_unused, H. Qed.
Lemma spares_free x r : spares x (free r).
Proof. by intros w _ _ H. Qed.
Lemma sturdy_fact (F : Prop) : sturdy (fun _ => F).
Proof. by intros w w' _ _ H. Qed.
Lemma spares_fact x (F : Prop) : spares x (fun _ => F).
Proof. by intros w _ _ H. Qed.
#[local] Hint Resolve sturdy_free spares_free sturdy_fact spares_fact : rollout.
Lemma release_rows_lookup w id r : (id, r) ∈ release_rows w -> ro_rels w !! id = Some r.
Proof. unfold release_rows. rewrite stable_sort_perm. by intros ?%elem_of_map_to_list. Qed.
Lemma h_find_active Q (F : release -> Prop) : sturdy Q -> (forall w id r, Q w -> ro_rels w !! id = Some r -> F r) ->
  hoare (holding Q) (find_active o meanwhile) (fun x w => (forall id r, x = Some (id, r) -> F r) /\ holding Q w).
Proof.
  intros Hq Hf. eapply h_post; [apply h_find; eauto with rollout|]. intros x w [HQ Hx]. split; [|done]. intros id r ->.
  destruct Hx as [|Hx]; [done|]. symmetry in Hx. apply find_first_some in Hx as [Hx _]. apply release_rows_lookup in Hx. eapply Hf; [apply HQ|done].
Qed.
Lemma free_parked w k r : well_formed w -> ro_rels w !! k = Some r -> parked k w -> free r w.
Proof.
  intros Hwf Hr Hk Hne id q Hq Ha Hkind E. apply (wf_own _ _ _ Hwf id k q r); try done; [|by rewrite E]. intros ->.
  assert (q = r) as -> by congruence. rewrite (Hk r Hr) in Ha. done.
Qed.
(** The canary's pointer, then its row *)
Lemma h_canary_pointer Q : sturdy Q ->
  hoare (holding Q) (find_application o meanwhile) (fun a => holding (fun w => (forall k, a ≫= as_canary = Some k -> parked k w /\ given k w) /\ Q w)).
Proof.
  intros Hq. eapply h_post; [apply h_find; eauto with rollout|]. intros a w [[Hg HQ] Ha]. split; [done|]. split; [|done]. intros k Hk.
  destruct Ha as [->|[= ->]]; [done|]. cbn in Hk. destruct Hg as [Hwf _]. split; [intros r Hr; by eapply (wf_canary _ _ _ Hwf)|by apply (wf_pointer _ _ _ Hwf)].
Qed.
Lemma h_canary_row k Q (F : release -> Prop) : sturdy Q -> (forall w id r, Q w -> ro_rels w !! id = Some r -> F r) ->
  hoare (holding (fun w => (parked k w /\ given k w) /\ Q w)) (find_release o meanwhile k)
    (fun r => holding (fun w => (forall q, r = Some q -> F q /\ free q w) /\ (parked k w /\ given k w) /\ Q w)).
Proof.
  intros Hq Hf. eapply h_post; [apply h_find; eauto 6 with rollout|]. intros r w [[Hg [[Hp Hgv] HQ]] Hr]. split; [done|]. split; [|done]. intros q ->.
  destruct Hr as [|Hr]; [done|]. split; [by eapply Hf|]. apply (free_parked w k); [apply Hg|done|done].
Qed.
Lemma k_clear_canary Q : sturdy Q -> keeps (holding Q) (set_canary o meanwhile None 0).
Proof.
  intros Hq. apply k_write; [eauto with rollout|]. intros w [Hg HQ].
  assert (Hc : calm w (put_state (with_canary None 0 (ro_app w)) w)) by (by split; cbn; eauto).
  split; [by eapply calm_good|]. eapply Hq; [apply Hg|done|done].
Qed.

(** What a deployment keeps of the world it started in: [kept]. What stands however much is taken away: [immune]. *)
Record kept (K : rollout -> Prop) : Prop := {
  kp_sturdy : sturdy K;
  kp_spares : forall x, spares x K;
  kp_added : forall r w, well_formed w -> K w -> K (with_release r w);
  kp_canary : forall k weight w, K w -> K (put_state (with_canary (Some k) weight (ro_app w)) w);
  kp_service : forall w, K w -> K (with_service w) }.
Definition immune (K : rollout -> Prop) : Prop := ~ live /\ forall x w, K w -> K (without_workload x w).
Lemma with_service_still w : still_serves w (with_service w).
Proof. intros i q [S1 S2 S3 S4]. split; [done|done|done|]. by right. Qed.
Lemma kept_still w0 : kept (still_serves w0).
Proof.
  split.
  - apply sturdy_still.
  - intros x. apply spares_still.
  - intros r w Hwf H. eapply still_trans; [done|]. by apply with_release_still.
  - intros k weight w H. eapply still_trans; [done|]. intros i q [S1 S2 S3 S4]. by split.
  - intros w H. eapply still_trans; [done|]. apply with_service_still.
Qed.
Lemma kept_any : kept (fun _ => True).
Proof. by split; [apply sturdy_true|intros; apply spares_true| | |]. Qed.
Lemma k_set_canary_parked k weight K : kept K ->
  keeps (holding (fun w => (parked k w /\ given k w) /\ K w)) (set_canary o meanwhile (Some k) weight).
Proof.
  intros [Hq _ _ Hc _]. apply k_write; [eauto 6 with rollout|]. intros w [[[H1 H2 H3 H4 H5 H6] Hl] [[Hp Hgv] HQ]].
  assert (Hserves : still_serves w (put_state (with_canary (Some k) weight (ro_app w)) w)) by (intros i q [S1 S2 S3 S4]; by split).
  split; [split|].
  - split; [done..| |]; cbn; [by intros i q [= <-] Hq'; apply Hp|by intros i [= <-]].
  - by eapply still_lit.
  - split; [done|]. by apply Hc.
Qed.

(** ** Retiring *)

Lemma k_remove_canary_free r Q : sturdy Q -> spares (rl_container r) Q -> keeps (holding (fun w => free r w /\ Q w)) (remove_canary_container o meanwhile r).
Proof.
  intros Hq Hx. unfold remove_canary_container. destruct (String.eqb_spec (rl_container r) "") as [|Hne]; cbn [negb when]; [keep|].
  apply (h_weakened _ (holding (fun w => unused (rl_container r) w /\ Q w)) _ _ (fun _ => holding (fun w => unused (rl_container r) w /\ Q w))).
  - apply k_then; [by apply k_stop_unused|]. intros _. by apply k_remove_unused.
  - intros w [Hg [Hf HQ]]. split; [done|]. split; [by apply Hf|done].
  - intros _ w [Hg [Hu HQ]]. split; [done|]. split; [by intros _|done].
Qed.
Lemma k_delete_parked k Q : sturdy Q -> keeps (holding (fun w => parked k w /\ Q w)) (delete_release o meanwhile k).
Proof.
  intros Hq. apply k_write; [eauto with rollout|]. intros w [[Hwf Hl] [Hk HQ]].
  assert (Hc : calm w (put_rels (delete k (ro_rels w)) w)).
  { split; cbn; [| |by left|done|done|done].
    - intros id r [_ H]%lookup_delete_Some. eauto.
    - intros id r H Ha. rewrite lookup_delete_ne; [done|]. intros ->. by rewrite (Hk r H) in Ha. }
  split; [by eapply calm_good|]. split; [by eapply sturdy_parked|by eapply Hq].
Qed.
Lemma k_retire_canary k r Q : sturdy Q -> spares (rl_container r) Q ->
  keeps (holding (fun w => free r w /\ parked k w /\ Q w)) (retire_canary_release o meanwhile (k, r)).
Proof.
  intros Hq Hx. unfold retire_canary_release. cbn [fst snd]. apply k_then; [apply k_remove_canary_free; eauto with rollout|]. intros _.
  apply k_then; [apply k_finalize; eauto with rollout|]. intros _. apply k_then; [|keep].
  eapply h_weakened; [apply (k_delete_parked k (fun w => free r w /\ Q w)); eauto with rollout| |]; intros; unfold RolloutLogic.holding in *; tauto.
Qed.

(** Once the new release serves, what it does not run in may go. *)
Lemma k_without_served x new r : workload_of r <> x -> keeps (holding (fun w => serves w new r)) (change (without_workload x)).
Proof.
  intros Hx. apply k_change. intros w [[Hwf _] Hs]. assert (serves (without_workload x w) new r) by by apply without_serves.
  split; [|done]. split; [by apply without_well_formed|by intros _; exists new, r].
Qed.
Lemma k_retire_served r0 new r : workload_of r <> workload_of r0 -> keeps (holding (fun w => serves w new r)) (retire_release o meanwhile r0).
Proof.
  intros Hne. unfold retire_release. unfold workload_of in Hne at 2. case_bool_decide;
    unfold service_remove, stop_container, remove_container; pose proof (k_without_served _ new r Hne); keep.
Qed.
Lemma k_delete_served k new r : k <> new -> keeps (holding (fun w => serves w new r)) (delete_release o meanwhile k).
Proof.
  intros Hne. apply k_write; [eauto with rollout|]. intros w [[Hwf _] Hs]. assert (Hs' : serves (put_rels (delete k (ro_rels w)) w) new r) by by apply delete_serves.
  split; [|done]. split; [by apply delete_well_formed|by intros _; exists new, r].
Qed.
Lemma k_retire_canary_served k r0 new r : k <> new -> workload_of r <> InContainer (rl_container r0) ->
  keeps (holding (fun w => serves w new r)) (retire_canary_release o meanwhile (k, r0)).
Proof.
  intros Hk Hx. unfold retire_canary_release, remove_canary_container, stop_container, remove_container. cbn [fst snd].
  pose proof (k_without_served _ new r Hx). pose proof (k_delete_served k new r Hk). keep.
Qed.

(** ** Releasing *)

(** [mild]: it takes nothing away that serves; otherwise what it keeps is [immune]. *)
Context (mild : bool) (K : rollout -> Prop) (HK : kept K) (Himmune : mild = false -> immune K).
Lemma mild_or_not : mild = true \/ mild = false.
Proof. destruct mild; auto. Qed.
Lemma sturdy_kept : sturdy K.
Proof. by apply kp_sturdy. Qed.
Lemma spares_kept x : spares x K.
Proof. by apply kp_spares. Qed.
#[local] Hint Resolve sturdy_kept spares_kept : rollout.
Lemma k_retire_immune r : mild = false -> keeps (holding K) (retire_release o meanwhile r).
Proof.
  intros Hm0. destruct (Himmune Hm0) as [Hlive Hx].
  assert (H : forall x, keeps (holding K) (change (without_workload x))).
  { intros x. apply k_change. intros w [[Hwf _] HQ]. split; [split; [by apply without_well_formed|done]|by apply Hx]. }
  unfold retire_release, service_remove, stop_container, remove_container. keep.
Qed.
(** What a deployment that keeps something must be: none that recreates, or publishes host ports *)
Definition rolls (d : deployment) : Prop := mild = true -> (forall n, rn_count (ou_ext o n QPorts) <= 0) /\ dp_strategy d <> deploy_recreate.

(** How a deployment may end: with its own release serving, or with everything that served still serving *)
Definition settled (id : N) (out : outcome) (w : rollout) : Prop :=
  match out with
  | Released new => good w /\ exists r, serves w new r /\ rl_deployment r = id
  | _ => holding K w
  end.
Lemma h_fail id0 id d why : hoare (holding K) (e <~ fail o meanwhile id d why; done (Ended e)) (settled id0).
Proof. eapply h_then; [apply k_fail; eauto with rollout|]. intros e. by apply h_done. Qed.
(** After the row of the new release is there *)
Lemma h_in_force id new r image (m : R unit) v d : keeps (holding (fun w => serves w new r)) m ->
  hoare (holding (fun w => serves w new r)) (put_in_force o meanwhile h c id d new v image m) (fun out w => out = Released new /\ good w /\ serves w new r).
Proof.
  intros Hk. unfold put_in_force. pose proof (k_activate new r). do 6 (apply h_seq; [keep|intros ?]). apply h_done. by intros w [Hg Hs].
Qed.
(** The canary that was detached *)
Definition detached (x : string) (k : option (N * release)) (w : rollout) : Prop :=
  match k with Some (k, q) => rl_container q <> x /\ free q w /\ parked k w /\ given k w | None => True end.
Lemma sturdy_detached x k : sturdy (detached x k).
Proof. destruct k as [[k q]|]; cbn; eauto 6 with rollout. Qed.
#[local] Hint Resolve sturdy_detached : rollout.
Lemma h_detach x : hoare (holding (fun w => running fresh x w /\ K w)) (detach_canary o meanwhile)
  (fun k => holding (fun w => detached x k w /\ running fresh x w /\ K w)).
Proof.
  unfold detach_canary. eapply h_then; [apply h_canary_pointer; eauto with rollout|]. intros a.
  destruct (a ≫= as_canary) as [k|] eqn:Ek; [|apply h_done; intros w [Hg [_ HQ]]; done].
  eapply (h_before _ (holding (fun w => (parked k w /\ given k w) /\ running fresh x w /\ K w)));
    [intros w [Hg [Hk HQ]]; split; [done|split; [by apply Hk|done]]|].
  eapply h_then; [apply (h_canary_row k _ (fun q => rl_container q <> x)); [eauto with rollout|]; intros w i q [[Hl _] _] Hq; by eapply Hl|].
  intros r. eapply (h_before _ (holding (fun w => detached x ((fun r => (k, r)) <$> r) w /\ running fresh x w /\ K w))).
  { intros w [Hg [Hq [[Hp Hgv] HQ]]]. split; [done|]. split; [|done]. destruct r as [q|]; [|done]. by destruct (Hq q eq_refl). }
  apply h_seq; [apply k_clear_canary; eauto with rollout|]. intros ?. by apply h_done.
Qed.
Lemma h_swap id d image x : x <> "" ->
  hoare (holding (fun w => running fresh x w /\ K w)) (swap_and_release o meanwhile h c id d image x) (settled id).
Proof.
  intros Hx. unfold swap_and_release.
  eapply h_then; [apply (h_find_active _ (fun q => rl_container q <> x)); [eauto with rollout|]; intros w i q [[Hl _] _] Hq; by eapply Hl|].
  intros prev. apply h_taken. intros Hprev. eapply h_then; [apply h_detach|]. intros canary.
  apply h_seq; [keep|]. intros version. apply h_seq; [keep|]. intros d'.
  eapply h_then; [apply h_create_serving; [eauto with rollout|done|done|]; intros w _ [_ [Hr _]]; split; [by apply (container_addable x)|by apply Hr]|].
  intros [new|].
  - intros w [(w1 & [Hd _] & Hnew) Hw]. revert w Hw. eapply h_post; [apply h_in_force|by intros out w [-> [Hg Hs]]; split; [done|by eexists]].
    apply k_then; [destruct canary as [[k q]|]; [|keep]|intros _; destruct prev as [[i q]|]; [|keep]].
    + destruct Hd as (Hq & _ & _ & Hgv). apply k_retire_canary_served; [unfold given in Hgv; lia|].
      change (InContainer x <> InContainer (rl_container q)). congruence.
    + apply k_guard, k_retire_served. change (InContainer x <> workload_of q). unfold workload_of. case_bool_decide; [done|].
      intros [= E]. by eapply Hprev.
  - apply (h_then _ _ _ _ (fun _ => holding K)); [|intros _; apply h_fail].
    destruct canary as [[k q]|]; [|apply h_done; intros w [Hg [_ [_ HQ]]]; done].
    eapply (h_before _ (fun w => rl_container q <> x /\ holding (fun w => free q w /\ parked k w /\ running fresh x w /\ K w) w)).
    { intros w [Hg [(Hq & Hf & Hp & _) HQ]]. by split. }
    apply h_taken. intros Hq. eapply h_post; [apply k_retire_canary; eauto with rollout|]. intros _ w [Hg [_ [_ [_ HQ]]]]. done.
Qed.
Lemma h_release_canary id d image x :
  hoare (holding (fun w => running fresh x w /\ K w)) (release_canary o meanwhile h c id d image x) (settled id).
Proof.
  unfold release_canary. eapply h_then; [apply h_canary_pointer; eauto with rollout|]. intros a.
  apply (h_then _ _ _ _ (fun _ => holding (fun w => running fresh x w /\ K w))).
  { destruct (a ≫= as_canary) as [old|] eqn:Ea; [|apply h_done; intros w [Hg [_ HQ]]; done].
    eapply (h_before _ (holding (fun w => (parked old w /\ given old w) /\ running fresh x w /\ K w)));
      [intros w [Hg [Hk HQ]]; split; [done|split; [by apply Hk|done]]|].
    eapply h_then; [apply (h_canary_row old _ (fun q => rl_container q <> x)); [eauto with rollout|]; intros w i q [[Hl _] _] Hq; by eapply Hl|].
    intros r. apply (h_then _ _ _ _ (fun _ => holding (fun w => parked old w /\ running fresh x w /\ K w))).
    - destruct r as [q|]; [|apply h_done; intros w [Hg [_ [[Hp _] HQ]]]; done].
      eapply (h_before _ (fun w => rl_container q <> x /\ holding (fun w => free q w /\ parked old w /\ running fresh x w /\ K w) w)).
      { intros w [Hg [Hq [[Hp _] HQ]]]. by destruct (Hq q eq_refl). }
      apply h_taken. intros Hq. apply h_seq; [apply k_guard, k_remove_canary_free; eauto with rollout|]. intros _.
      eapply h_post; [apply k_finalize; eauto with rollout|]. intros _ w [Hg [_ HQ]]. done.
    - intros _. apply h_seq; [apply k_delete_parked; eauto with rollout|]. intros _. apply h_done. intros w [Hg [_ HQ]]. done. }
  intros _. apply h_seq; [keep|]. intros version. apply h_seq; [keep|]. intros d'.
  eapply h_then; [apply (h_create_parked _ x K); [eauto with rollout|done|done|]; intros w Hwf HQ; by apply (kp_added _ HK)|].
  intros [new|].
  - pose proof (k_set_canary_parked new (canary_initial_weight (cf_canary c)) K HK).
    do 7 (apply h_seq; [keep|intros ?]). apply h_done. by intros w [Hg [_ HQ]].
  - eapply h_before; [|apply h_fail]. by intros w [Hg [_ HQ]].
Qed.
Lemma h_release_service id d image s : service_id s = true -> s <> "" ->
  hoare (holding (fun w => hosted w /\ K w)) (release_service o meanwhile h c id d image s) (settled id).
Proof.
  intros Hid Hs. unfold release_service. apply h_seq; [keep|]. intros prev. apply h_seq; [keep|]. intros version. apply h_seq; [keep|]. intros d'.
  eapply h_then; [apply h_create_serving; [eauto with rollout|done|done|]; intros w Hwf [Hh _]; split; [by apply service_addable|done]|].
  intros [new|].
  - intros w [_ Hw]. revert w Hw. eapply h_post; [apply h_in_force|by intros out w [-> [Hg Hserve]]; split; [done|by eexists]].
    destruct prev as [[i q]|]; [|keep]. case_bool_decide as Hk; [|cbn; keep]. apply k_guard, k_retire_served.
    unfold workload_of at 2. rewrite bool_decide_eq_false_2; [done|]. by rewrite Hk.
  - eapply h_before; [|apply h_fail]. by intros w [Hg [_ HQ]].
Qed.

(** ** A whole deployment *)

Lemma h_attempted {A B} P (m : R (ending + A)) (k : A -> R (ending + B)) (Q : ending + B -> rollout -> Prop) :
  keeps P m -> (forall e w, P w -> Q (inl e) w) -> (forall a, hoare P (k a) Q) -> hoare P (attempt m k) Q.
Proof. intros Hk0 He Hk. unfold attempt. apply h_seq; [done|]. intros [e|a]; [by apply h_done, He|apply Hk]. Qed.
Definition ends (id : N) (r : ending + outcome) : rollout -> Prop := settled id (match r with inl e => Ended e | inr out => out end).
(** A container was created, and runs or not *)
Definition ran (r : bool * string) (w : rollout) : Prop :=
  match r with
  | (true, x) => x <> "" /\ holding (fun w => running fresh x w /\ K w) w
  | (false, x) => holding (fun w => (x <> "" -> unlisted x w) /\ K w) w
  end.
Lemma h_run_container spec : hoare (holding K) (run_container o meanwhile spec) ran.
Proof.
  unfold run_container. eapply h_then; [apply h_asked; eauto with rollout|]. intros a. eapply h_then; [apply h_look|]. intros w1.
  assert (Hnew : forall w, well_formed w -> unlisted (fresh (ro_next w)) w) by (intros w Hwf id r Hr; by apply (wf_fresh _ _ _ Hwf id r)).
  destruct (rn_ok a); [|destruct (rn_flag a)].
  - intros w [[[Hwf Hl] HQ] ->]. cbn. set (w' := take_next _).
    assert (Hc : calm w w') by (split; cbn; eauto; [intros y Hy; left; set_solver|set_solver|lia]).
    split; [apply (ids_named (lawful_ids := Hids))|]. split; [by eapply calm_good|]. split.
    + split_and!; [by apply (Hnew w)|cbn; set_solver|]. exists (ro_next w). split; [done|]. cbn. lia.
    + by apply (sturdy_kept w).
  - intros w [[[Hwf Hl] HQ] ->]. cbn. assert (Hc : calm w (take_next w)) by (split; cbn; eauto; lia).
    split; [by eapply calm_good|]. split; [intros _; by apply (Hnew w)|]. by apply (sturdy_kept w).
  - apply h_done. intros w [[Hg HQ] _]. split; [done|]. split; [done|]. done.
Qed.
Lemma h_remove_listed x : hoare (holding (fun w => unlisted x w /\ K w)) (remove_container o meanwhile x) (fun _ => holding K).
Proof.
  apply (h_weakened _ (holding (fun w => unused x w /\ K w)) _ _ (fun _ => holding (fun w => unused x w /\ K w))).
  - apply k_remove_unused; eauto with rollout.
  - intros w [Hg [Hx HQ]]. split; [done|]. split; [by apply unlisted_unused|done].
  - intros _ w [Hg [_ HQ]]. done.
Qed.
Lemma h_go_on {A} P (k : unit -> R (ending + A)) Q : hoare P (k tt) Q -> hoare P (attempt (done (inr tt)) k) Q.
Proof. done. Qed.
Lemma h_assoc {A B C} P (m : R A) (k : A -> R (ending + B)) (l : B -> R (ending + C)) Q :
  hoare P (x <~ m; attempt (k x) l) Q -> hoare P (attempt (x <~ m; k x) l) Q.
Proof. intros H w Hw. specialize (H w Hw). unfold attempt, andthen in *. by destruct (m w) as [w' []]. Qed.
(** A stop ends the deployment. *)
Lemma h_stop {A} id id0 d why (k : A -> R (ending + outcome)) :
  hoare (holding K) (attempt (stop o meanwhile id d why) k) (ends id0).
Proof.
  unfold attempt, stop. intros w Hw. pose proof (k_fail o meanwhile good _ (hold_solid _ sturdy_kept) id d why w Hw) as H.
  unfold andthen, done. by destruct (fail _ _ _ _ _ w) as [w' [e|]].
Qed.
Lemma h_stopped id id0 d why : hoare (holding K) (stop o meanwhile id d why) (ends id0).
Proof.
  unfold stop. apply h_seq; [apply k_fail; eauto with rollout|]. intros e. by apply h_done.
Qed.
Lemma k_spec_of_container id d image built : rolls d -> keeps (holding K) (container_spec o meanwhile h c id d image built).
Proof.
  intros Hd. destruct (mild_or_not) as [Em|Em].
  - destruct (Hd Em) as [Hp Hs]. by apply k_container_spec; eauto with rollout.
  - apply k_container_spec_any; [eauto with rollout|]. intros r. by apply k_retire_immune.
Qed.
Lemma h_deploy_container id d image built : rolls d -> hoare (holding K) (deploy_container o meanwhile h c id d image built) (ends id).
Proof.
  intros Hd. unfold deploy_container. apply h_seq; [keep|]. intros _. apply h_attempted; [by apply k_spec_of_container|done|].
  intros [d' spec]. eapply h_then; [apply h_run_container|]. intros [[] x].
  - apply h_taken. intros Hx. cbn [unless]. apply h_go_on. apply h_seq; [keep|]. intros _. apply h_seq; [keep|]. intros [why|].
    + apply (h_then _ _ _ _ (fun _ => holding K)); [|intros _; apply h_stopped].
      eapply h_before; [|apply h_remove_listed]. intros w [Hg [[Hl _] HQ]]. done.
    + eapply h_then; [destruct (String.eqb _ _); [apply h_release_canary|by apply h_swap]|]. intros out. by apply h_done.
  - cbn [unless]. apply h_assoc. apply (h_then _ _ _ _ (fun _ => holding K)); [|intros _; by apply h_stop].
    destruct (String.eqb_spec x "") as [|Hx]; cbn [negb when]; [by apply h_done; intros w [Hg [_ HQ]]|].
    eapply h_before; [|apply h_remove_listed]. intros w [Hg [Hl HQ]]. split; [done|]. split; [by apply Hl|done].
Qed.
Lemma h_unless P b id id0 d why (k : unit -> R (ending + outcome)) : (forall w, P w -> holding K w) ->
  (b = true -> hoare P (k tt) (ends id0)) -> hoare P (attempt (unless b (stop o meanwhile id d why)) k) (ends id0).
Proof. intros HP Hk. destruct b; cbn [unless]; [by apply h_go_on, Hk|]. eapply h_before; [exact HP|]. apply h_stop. Qed.
Definition unhosted (w : rollout) : Prop := mild = true -> ~ hosted w.
Lemma h_put_service spec : hoare (holding (fun w => unhosted w /\ K w)) (put_service o meanwhile spec) (fun _ => holding K).
Proof.
  unfold put_service. eapply h_then; [apply h_asked; unfold unhosted; eauto with rollout|]. intros a.
  apply (h_then _ _ _ _ (fun _ => holding K)); [|by intros _; apply h_done].
  apply h_change. intros w [Hg [Hh HQ]]. destruct mild_or_not as [Em|Em].
  - assert (Hc : calm w (without_workload InService w)).
    { split; cbn; eauto; [|by intros [Hi _]%list_elem_of_In%filter_In; apply list_elem_of_In].
      intros x Hx. left. apply list_elem_of_In, filter_In. split; [by apply list_elem_of_In|]. rewrite bool_decide_eq_false_2; [done|].
      intros ->. by apply (Hh Em). }
    split; [by eapply calm_good|]. by apply (sturdy_kept w); [apply Hg| |].
  - destruct (Himmune Em) as [Hlive Hx]. split; [split; [apply without_well_formed, Hg|done]|by apply Hx].
Qed.
Lemma h_converge name desired : hoare (holding K) (service_converge o meanwhile name desired) (fun ok => holding (fun w => (ok = true -> hosted w) /\ K w)).
Proof.
  unfold service_converge. apply h_seq; [keep|]. intros t. apply h_seq; [keep|]. intros []; cbn [when].
  - apply (h_then _ _ _ _ (fun _ => holding (fun w => hosted w /\ K w))).
    + apply h_change. intros w [[Hwf Hl] HQ]. split; [split|split; [by left|by apply (kp_service _ HK)]].
      * destruct Hwf. by split.
      * eapply still_lit; [|done]. apply with_service_still.
    + intros _. apply h_done. intros w [Hg [Hh HQ]]. done.
  - apply h_seq; [keep|]. intros _. apply h_done. intros w [Hg HQ]. done.
Qed.
Lemma k_if {A} P (b : bool) (m1 m2 : R A) : keeps P m1 -> keeps P m2 -> keeps P (if b then m1 else m2).
Proof. by destruct b. Qed.
Lemma h_service_id Q : sturdy Q -> let alias := deploy_alias (cf_alias c) (cf_id c) in
  hoare (holding Q) (ask o meanwhile (QServiceInspect alias)) (fun st w =>
    (forall s, (if rn_ok st && negb (String.eqb (rn_text st) "") then rn_text st else alias) = s -> service_id s = true) /\ holding Q w).
Proof.
  intros Hq alias w Hw. pose proof (k_asked o meanwhile good _ (QServiceInspect alias) (hold_solid Q Hq) w Hw) as H. unfold ask in *.
  destruct (ro_left w) as [[|n]|]; [done| |]; (split; [|done]); intros s <-;
    (destruct (rn_ok _) eqn:Eok; cbn; [|apply (ids_alias (lawful_ids := Hids))]);
    (destruct (String.eqb_spec (rn_text (ou_ext o (length (ro_trace w)) (QServiceInspect alias))) "") as [|Hne]; cbn; [apply (ids_alias (lawful_ids := Hids))|]);
    by eapply (ids_service (lawful_ids := Hids)).
Qed.
Lemma k_retire_previous d Q : sturdy Q -> (rolls d -> mild = false -> forall r, keeps (holding Q) (retire_release o meanwhile r)) -> rolls d ->
  keeps (holding Q) (if String.eqb (dp_strategy d) deploy_recreate then
     prev <~ find_active o meanwhile;
     match prev with
     | Some (_, r) => when (bool_decide (rl_kind r = KindContainer) && negb (String.eqb (rl_container r) "")) (retire_release o meanwhile r)
     | None => done tt
     end
   else done tt).
Proof.
  intros Hq Hr Hd. destruct (String.eqb_spec (dp_strategy d) deploy_recreate) as [E|_]; [|keep].
  assert (Em : mild = false) by (destruct mild_or_not as [Em|]; [by destruct (Hd Em)|done]). specialize (Hr Hd Em). keep.
Qed.
Lemma h_deploy_service id d image built : deploy_alias (cf_alias c) (cf_id c) <> "" -> rolls d ->
  hoare (holding (fun w => unhosted w /\ K w)) (deploy_service o meanwhile h c id d image built) (ends id).
Proof.
  intros Hal Hd. assert (Hw : forall w, holding (fun w => unhosted w /\ K w) w -> holding K w) by by intros w [Hg [_ HQ]].
  assert (Hsu : sturdy (fun w => unhosted w /\ K w)) by (unfold unhosted; eauto with rollout).
  unfold deploy_service. apply h_seq; [keep|]. intros swarm. apply h_unless; [done|]. intros _. apply h_seq; [keep|]. intros _.
  apply h_attempted; [apply k_service_spec; eauto with rollout|intros e w H; by apply Hw|]. intros spec.
  apply h_seq; [apply (k_retire_previous (set_dep_status DeploymentDeploying d)); [done| |done]|].
  { intros _ Em r. eapply h_weakened; [by apply (k_retire_immune r)|apply Hw|]. intros _ w [Hg HQ]. split; [done|]. split; [unfold unhosted; congruence|done]. }
  intros _. apply h_seq; [keep|]. intros _. eapply h_then; [apply h_put_service|]. intros ok.
  apply h_unless; [done|]. intros ->. eapply h_then; [apply h_converge|]. intros well. apply h_unless; [by intros w [Hg [_ HQ]]|]. intros ->.
  eapply (h_before _ (holding (fun w => hosted w /\ K w))); [intros w [Hg [Hh HQ]]; split; [done|split; [by apply Hh|done]]|].
  eapply h_then; [apply h_service_id; eauto with rollout|]. intros st. apply h_taken. intros Hst.
  assert (Hne : (if rn_ok st && negb (String.eqb (rn_text st) "") then rn_text st else deploy_alias (cf_alias c) (cf_id c)) <> "").
  { destruct (rn_ok st); cbn; [|done]. by destruct (String.eqb_spec (rn_text st) ""). }
  eapply h_then; [apply h_release_service; [by apply Hst|done]|]. intros out. by apply h_done.
Qed.
Lemma y_run_image id a d :
  yields (fun r => match r with inr (d', _, _) => dp_strategy d' = dp_strategy d | inl _ => True end) (run_image o meanwhile h c id a d).
Proof. unfold run_image. yield; done. Qed.
Lemma h_unless_keep P (b : bool) (m : R (ending + unit)) id0 (k : unit -> R (ending + outcome)) : keeps P m -> (forall w, P w -> holding K w) ->
  hoare P (k tt) (ends id0) -> hoare P (attempt (unless b m) k) (ends id0).
Proof. intros Hk HP Hq. apply h_attempted; [by apply k_unless|intros e w Hw; by apply HP|]. by intros []. Qed.
(** Whether a deployment of the application [a] updates a service that runs *)
Definition settles_in (a : app_state) (w : rollout) : Prop := mild = true /\ as_kind a = KindService -> ~ hosted w.
Lemma h_run_deployment id a d : deploy_alias (cf_alias c) (cf_id c) <> "" -> rolls d ->
  hoare (holding (fun w => settles_in a w /\ K w)) (run_deployment o meanwhile h c id a d) (settled id).
Proof.
  intros Hal Hd. assert (Hw : forall w, holding (fun w => settles_in a w /\ K w) w -> holding K w) by by intros w [Hg [_ HQ]].
  assert (Hsu : sturdy (fun w => settles_in a w /\ K w)) by (unfold settles_in; eauto with rollout).
  unfold run_deployment. apply (h_then _ _ _ _ (ends id)); [|by intros r; apply h_done].
  apply h_seq; [keep|]. intros t. apply h_seq; [keep|]. intros _. apply h_seq; [keep|]. intros _.
  apply h_attempted; [keep|intros e w H; by apply Hw|]. intros _.
  apply h_seq; [keep|]. intros [ref|e]; [|by eapply h_before; [exact Hw|apply h_stopped]].
  apply h_seq; [keep|]. intros _. unfold attempt at 1.
  eapply h_then; [apply (h_yields _ (fun r => match r with inr (d', _, _) => dp_strategy d' = dp_strategy d | inl _ => True end));
    [by apply (y_run_image _ _ (set_dep_image ref (set_dep_started (Some t) DeploymentBuilding d)))|apply k_run_image; eauto with rollout]|].
  intros [e|[[d' image] built]]; apply h_taken; [by intros _; apply h_done; intros w H; apply Hw|]. intros Ed.
  assert (Hd' : rolls d') by (unfold rolls; by rewrite Ed).
  apply h_unless_keep; [|done|].
  - keep_on.
  - case_bool_decide as Hk.
    + eapply h_before; [|by apply h_deploy_service]. intros w [Hg [Hs HQ]]. split; [done|]. split; [|done]. intros Em. by apply Hs.
    + eapply h_before; [|by apply h_deploy_container]. exact Hw.
Qed.
(** [w1] is the world its worker reads the application in. *)
Lemma h_start_task id d w1 : deploy_alias (cf_alias c) (cf_id c) <> "" -> rolls d -> holding K w1 ->
  (forall w' a, find_application o meanwhile w1 = (w', Some (Some a)) -> settles_in a w') ->
  match start_task o meanwhile h c id d w1 with (w', Some out) => settled id out w' | (w', None) => good w' end.
Proof.
  intros Hal Hd Hw1 Hread. unfold start_task. destruct (is_terminal _); [done|].
  pose proof (k_find_application o meanwhile good (holding K) (hold_solid _ sturdy_kept) w1 Hw1) as H. unfold andthen at 1.
  destruct (find_application o meanwhile w1) as [w2 [[a|]|]]; [|by apply (h_fail id id d DeNoApplication w2)|done].
  specialize (Hread w2 a eq_refl). assert (Hw2 : holding (fun w => settles_in a w /\ K w) w2) by (destruct H; done).
  assert (Hsu : sturdy (fun w => settles_in a w /\ K w)) by (unfold settles_in; eauto with rollout).
  assert (Hlast : forall w e, holding (fun w => settles_in a w /\ K w) w -> settled id (Ended e) w) by by intros w e [Hg [_ HQ]].
  clear H Hread. revert w2 Hw2. match goal with |- forall w2, _ -> match ?m _ with _ => _ end => change (hoare (holding (fun w => settles_in a w /\ K w)) m (settled id)) end.
  apply h_seq; [keep|]. intros slot. destruct (negb (rn_ok slot)); [apply h_seq; [keep|]; intros _; apply h_done; auto|].
  apply h_seq; [keep|]. intros lock. destruct (rn_ok lock && _); [apply h_seq; [keep|]; intros _; apply h_done; auto|].
  by apply h_run_deployment.
Qed.
End Releasing.
