(* ===== verification/RolloutHistory.v ===== *)
(** * Histories of an application: deployments, canaries and requests

    Deployments run one at a time, as the application's lock has it; canaries' timers and requests are handled between the
    steps of a deployment. Any worker or process may die at any call. *)
From S2P Require Import Prelude GoStrings ControlAct Registry DeployRules Rollout Deploy DeployRun Canary RolloutLogic RolloutCalm RolloutSafe.
#[local] Open Scope Z_scope.
#[local] Open Scope list_scope.

(** One run of the task of deployment [id]: [calls n] is what is handled before its [n]th call is answered. *)
Record run := Run { ru_outside : outside; ru_worker : deployer; ru_calls : nat -> list action; ru_left : option nat; ru_deployment : N }.
Section Histories.
Context (c : app_conf) (regex : string -> string -> option bool) (fresh : N -> string) (service_id : string -> bool).

Definition meanwhile_of (r : run) (n : nat) : rollout -> rollout := performed c regex (ru_calls r n).
Definition task_run (r : run) (w : rollout) : rollout * option outcome :=
  process_task (ru_outside r) (meanwhile_of r) (ru_worker r) c (ru_deployment r) (put_life [] (ru_left r) w).
Definition task (r : run) (w : rollout) : rollout := put_life (ro_trace w) (ro_left w) (task_run r w).1.
(** The deployment is not a recreate, and none is made of it: it publishes no host port; and it does not replace the tasks of
    a service that runs, which is updated in place. What is handled before the task reads the deployment is taken to come
    before the task. *)
Record gentle (r : run) (w : rollout) : Prop := {
  ge_fresh : ou_fresh (ru_outside r) = fresh;
  ge_ids : lawful_ids (ru_outside r) service_id c;
  ge_ports : forall n, rn_count (ou_ext (ru_outside r) n QPorts) <= 0;
  ge_first : ru_calls r 0 = [];
  ge_strategy : forall d, ro_deps w !! ru_deployment r = Some d -> dp_strategy d <> deploy_recreate;
  ge_service : InService ∈ ro_up w -> forall t l, as_kind (ro_app (meanwhile_of r 1 (put_life t l w))) <> KindService }.
Inductive history : rollout -> rollout -> Prop :=
| hist_start w : history w w
| hist_request w w' x : history w w' -> history w (perform c regex x w')
| hist_task w w' r : history w w' -> gentle r w' -> history w (task r w').

Lemma deploy_alias_named alias id : deploy_alias alias id <> "".
Proof. unfold deploy_alias. destruct (String.eqb_spec alias ""); [done|done]. Qed.
Lemma meanwhile_calm r n w : well_formed fresh service_id w -> calm w (meanwhile_of r n w).
Proof. apply performed_calm. Qed.

(** The first two reads of a task, before the first of which nothing is handled *)
Lemma first_read r w : ru_calls r 0 = [] -> ro_trace w = [] ->
  match find_deployment (ru_outside r) (meanwhile_of r) (ru_deployment r) w with
  | (w', Some d) => (exists l, w' = put_life [QFind] l w) /\ forall d', d = Some d' -> ro_deps w !! ru_deployment r = Some d'
  | (w', None) => w' = w
  end.
Proof.
  intros H0 Ht. unfold find_deployment, find, andthen, ask, look, done, meanwhile_of, performed. rewrite Ht. cbn [length]. rewrite H0.
  destruct (ro_left w) as [[|n]|]; [done| |];
    (split; [by eexists|]; intros d'; destruct (rn_ok _); [|done]; cbn; by rewrite ?H0).
Qed.
Lemma second_read r w w' t a : ro_trace w = [t] -> find_application (ru_outside r) (meanwhile_of r) w = (w', Some (Some a)) ->
  exists t' l, w' = put_life t' l (meanwhile_of r 1 w) /\ a = ro_app (meanwhile_of r 1 w).
Proof.
  intros Ht. unfold find_application, find, andthen, ask, look, done. rewrite Ht. cbn [length].
  destruct (ro_left w) as [[|n]|]; [done| |]; destruct (rn_ok _); intros [= <- <-]; by eexists _, _.
Qed.
(** How a task ends *)
Definition task_ends (live : Prop) (w : rollout) (r : run) (out : option outcome) (w' : rollout) : Prop :=
  good fresh service_id live w' /\
  match out with
  | Some (Released new) => exists q, serves w' new q /\ rl_deployment q = ru_deployment r
  | Some _ => still_serves w w'
  | None => True
  end.
Lemma task_spec (live : Prop) r w : gentle r w -> good fresh service_id live w -> task_ends live w r (task_run r w).2 (task_run r w).1.
Proof.
  intros [Hf Hi Hp H0 Hd Hsv] Hg. set (w0 := put_life [] (ru_left r) w).
  assert (Hs0 : still_serves w w0) by (apply (calm_serves fresh service_id); [apply Hg|apply core_calm, life_core]).
  assert (Hg0 : good fresh service_id live w0) by (eapply calm_good; [apply core_calm, life_core|done]).
  set (P := holding fresh service_id live (still_serves w)).
  assert (HP : solid (meanwhile_of r) (good fresh service_id live) P) by (apply holding_solid; [intros; by apply meanwhile_calm|apply sturdy_still]).
  pose proof (first_read r w0 H0 eq_refl) as H.
  unfold task_ends, task_run, process_task, andthen. fold w0. destruct (find_deployment _ _ _ _) as [w1 [d|]]; cbn [fst snd]; [|by rewrite H].
  destruct H as [[l ->] Hrow]. assert (Hw1 : P (put_life [QFind] l w0)) by by apply (solid_core _ _ _ HP w0). destruct d as [d|]; [|by destruct Hw1].
  assert (Hroll : rolls (ru_outside r) true d) by (intros _; split; [done|]; apply (Hd d), (Hrow d eq_refl)). subst fresh.
  pose proof (h_start_task (ru_outside r) (meanwhile_of r) (ru_worker r) c service_id live Hi (fun n u => performed_calm c regex _ service_id (ru_calls r n) u)
    true (still_serves w) (kept_still _ _ w) ltac:(done) (ru_deployment r) d _ (deploy_alias_named _ _) Hroll Hw1) as H.
  assert (Hread : forall w' a, find_application (ru_outside r) (meanwhile_of r) (put_life [QFind] l w0) = (w', Some (Some a)) -> settles_in true a w').
  { intros w' a (t' & l' & -> & ->)%(second_read _ _ _ QFind); [|done]. intros [_ Hk] Hh.
    apply (Hsv) with (t := [QFind]) (l := l); [|exact Hk]. apply (calm_hosted _ _ (performed_calm c regex _ service_id (ru_calls r 1) (put_life [QFind] l w0) (proj1 (proj1 Hw1)))). exact Hh. }
  specialize (H Hread).
  destruct (start_task _ _ _ _ _ _ _) as [w2 [[new|new|e]|]]; cbn [fst snd settled] in *; [|by destruct H|by destruct H|done].
  destruct H as [Hg' (q & Hq)]. eauto.
Qed.
Lemma task_good (live : Prop) r w : gentle r w -> good fresh service_id live w -> good fresh service_id live (task r w).
Proof. intros Hr Hg. destruct (task_spec live r w Hr Hg) as [H _]. eapply calm_good; [apply core_calm, life_core|done]. Qed.
Lemma history_good (live : Prop) w w' : history w w' -> good fresh service_id live w -> good fresh service_id live w'.
Proof.
  intros H Hg. induction H as [|w w' x _ IH|w w' r _ IH Hr]; [done| |].
  - eapply calm_good; [apply (perform_calm c regex fresh service_id)|]; by apply IH.
  - by apply task_good; [|apply IH].
Qed.


End Histories.

(** ** The shop *)

Import Shop.
Lemma shop_ids bad : lawful_ids (day bad) service_id conf.
Proof.
  split.
  - cbn. unfold ids. intros i j H. apply str_app_inv_head in H. apply itoa_inj in H. lia.
  - done.
  - intros i. cbn. unfold ids, service_id. done.
  - by intros n s _ <-.
  - done.
Qed.
(** A deployment on a day, with what is handled before its calls *)
Definition on_day (o : outside) (left_ : option nat) (id : N) (at_ : nat) (l : list action) : run :=
  Run o worker (fun n => if bool_decide (n = S at_) then l else []) left_ id.
Lemma shop_gentle bad left_ id at_ l w : (forall n, rn_count (answers bad n QPorts) <= 0) ->
  match ro_deps w !! id with Some d => String.eqb (dp_strategy d) deploy_recreate | None => false end = false ->
  bool_decide (InService ∈ ro_up w) = false -> gentle conf no_regex ids service_id (on_day (day bad) left_ id at_ l) w.
Proof.
  intros Hp Hd Hs. split; [done|apply shop_ids|done| | |].
  - cbn. by rewrite bool_decide_eq_false_2.
  - intros d. cbn. intros E. rewrite E in Hd. by apply String.eqb_neq.
  - intros Hu. by apply bool_decide_eq_false in Hs.
Qed.
Lemma shop_well_formed strategy : well_formed ids service_id (world strategy).
Proof.
  split; cbn.
  - intros id r. rewrite lookup_singleton_Some. intros [<- _]. lia.
  - intros id r k. rewrite lookup_singleton_Some. by intros [_ <-] _.
  - intros i j ri rj. rewrite !lookup_singleton_Some. by intros [<- _] [<- _].
  - intros id r. rewrite lookup_singleton_Some. by intros [_ <-] _.
  - done.
  - done.
Qed.
Lemma shop_lit strategy : lit (world strategy).
Proof. exists 1%N, first. split; [by exists first|done|done|]. cbn. set_solver. Qed.
(** A canary goes live, is weighed and promoted; the promotion runs while the canary is aborted, and its worker dies; another
    deployment fails on a bad day. *)
Definition canary_day : rollout := task conf no_regex (on_day good_day None 2 0 []) (world "canary").
Definition promotion_asked : rollout := perform conf no_regex (ask_on good_day RqPromote) (perform conf no_regex (ask_on good_day (RqTick 2)) canary_day).
Definition promotion_cut : rollout := task conf no_regex (on_day good_day (Some 30%nat) 5 20 [ask_on good_day RqAbort]) promotion_asked.
Definition asked_again : rollout := perform conf no_regex (ask_on good_day RqRedeploy) promotion_cut.
Definition after_bad_day : rollout := task conf no_regex (on_day sick_day None 8 0 []) asked_again.
Example bad_day_fails : (task_run conf no_regex (on_day sick_day None 8 0 []) asked_again).2 = Some (Ended (FailedAt DeUnhealthy)).
Proof. by vm_compute. Qed.
(** A worker that dies once its release is in force leaves the rest undone for ever: the task finds the deployment ended, so
    what the release replaced runs on, and the canary's deployment never ends. *)
Example cut_promotion_is_not_finished :
  ro_up promotion_cut = [InContainer "c6"; InContainer "old"] /\
  dp_status <$> ro_deps promotion_cut !! 2%N = Some DeploymentCanary /\ as_canary (ro_app promotion_cut) = None /\
  (task_run conf no_regex (on_day good_day None 5 0 []) promotion_cut).2 = Some (Ended NothingToDo).
Proof. by vm_compute. Qed.
(** A service is updated in place: when the new tasks do not converge, nothing runs any more, while the release it replaced stays
    in force and the application is said to run. *)
Definition service_row : app_state := with_runtime KindService row.
Definition served_first : release := Release 1 1 KindService "shop:1" "shop" true false "".
Definition with_a_service : rollout := Rollout service_row {[ 2%N := wanted "rolling" ]} {[ 1%N := served_first ]} 3 [InService] None [] [] None.
Definition no_tasks : outside :=
  Outside (fun n q => match q with QServiceInspect _ => RoAnswer true "shop" "" [] 0 false | _ => ou_ext good_day n q end) (ou_clock good_day) ids.
Example service_update_goes_dark :
  let w' := (task_run conf no_regex (on_day no_tasks None 2 0 []) with_a_service).1 in
  (task_run conf no_regex (on_day no_tasks None 2 0 []) with_a_service).2 = Some (Ended (FailedAt (DeConverge 1))) /\
  ro_up w' = [] /\ as_status (ro_app w') = LiveRunning /\ ro_rels w' !! 1%N = Some served_first.
Proof. by vm_compute. Qed.
