(* ===== verification/CanaryProofs.v ===== *)
(** * Canaries: routing, its preview, and the end of a ramp

    What is stored as a canary's routing, that the preview of a request agrees with what the gateway does with the backends
    a route is rendered with, and that a ramp left alone promotes its canary. The gateway is a class, with the laws
    [internal/proxy/proxy.go] states of its backends. *)
From S2P Require Import Prelude GoStrings ControlAct DeployRules Rollout Deploy Canary RolloutLogic.
#[local] Open Scope Z_scope.
#[local] Open Scope list_scope.

(** ** The gateway *)

(** What share of the requests like [q], in per cent, the gateway sends to an endpoint of a route's backends; and whether
    a request satisfies a rule *)
Class Gateway := { gw_share : list backend -> preview_request -> string -> Z; gw_holds : preview_request -> match_rule -> bool }.
Definition eligible `{Gateway} (q : preview_request) (l : list backend) : list backend := List.filter (fun b => forallb (gw_holds q) (bk_match b)) l.
Definition weight_of (l : list backend) : Z := foldr (fun b n => bk_weight b + n) 0 l.
(** proxy.go: probability = weight / sum of the weights; a matching exclusive backend takes all matching traffic, another one
    joins the weighted pool; the rules are those a preview evaluates (canary_preview.go). A backend alone takes everything. *)
Class GatewayLaws `{Gateway} (regex : string -> string -> option bool) : Prop := {
  gw_mirrors : forall q r, gw_holds q r = rule_matches regex q r;
  gw_absent : forall l q e, Forall (fun b => bk_endpoint b <> e) (eligible q l) -> gw_share l q e = 0;
  gw_alone : forall l q b, eligible q l = [b] -> gw_share l q (bk_endpoint b) = 100;
  gw_exclusive : forall l q b, List.filter bk_exclusive (eligible q l) = [b] -> gw_share l q (bk_endpoint b) = 100;
  gw_pool : forall l q b, b ∈ eligible q l -> Forall (fun x => bk_exclusive x = false) (eligible q l) -> NoDup (bk_endpoint <$> eligible q l) ->
    weight_of (eligible q l) = 100 -> gw_share l q (bk_endpoint b) = bk_weight b }.

Section Preview.
Context `{Hgw : GatewayLaws regex}.
Definition canary_endpoint (alias : string) (id : N) (port : Z) (scheme : string) : string := scheme +:+ "://" +:+ canary_alias alias id +:+ ":" +:+ itoa port.
Definition stable_endpoint (alias : string) (id : N) (port : Z) (scheme : string) : string := scheme +:+ "://" +:+ deploy_alias alias id +:+ ":" +:+ itoa port.
Lemma endpoints_differ alias id port scheme : stable_endpoint alias id port scheme <> canary_endpoint alias id port scheme.
Proof.
  unfold stable_endpoint, canary_endpoint, canary_alias. intros He%(f_equal String.length). rewrite !str_app_length in He. cbn in He. lia.
Qed.
Lemma holds_matches q l : forallb (gw_holds q) l = forallb (rule_matches regex q) l.
Proof. induction l as [|r l IH]; cbn; [done|]. by rewrite gw_mirrors, IH. Qed.
(** The two backends of a live canary, and which of them a request is eligible for *)
Definition pair_of (v : canary_view) (alias : string) (id : N) (port : Z) (scheme : string) (w : Z) : list backend :=
  let some := negb (bool_decide (cv_match v = [])) in
  [Backend (stable_endpoint alias id port scheme) (100 - w) false 0 [];
   Backend (canary_endpoint alias id port scheme) w (some && cv_exclusive v) (if some then cv_priority v else 0) (cv_match v)].
Lemma share_alone q alias id port scheme :
  gw_share [Backend (stable_endpoint alias id port scheme) 0 false 0 []] q (canary_endpoint alias id port scheme) = 0.
Proof. apply gw_absent. cbn. constructor; [|constructor]. apply endpoints_differ. Qed.
Lemma share_unmatched v q alias id port scheme w : forallb (rule_matches regex q) (cv_match v) = false ->
  gw_share (pair_of v alias id port scheme w) q (canary_endpoint alias id port scheme) = 0.
Proof.
  intros Hm. apply gw_absent. unfold eligible, pair_of. cbn. rewrite holds_matches, Hm. constructor; [|constructor]. apply endpoints_differ.
Qed.
Lemma share_pooled v q alias id port scheme w : forallb (rule_matches regex q) (cv_match v) = true ->
  negb (bool_decide (cv_match v = [])) && cv_exclusive v = false ->
  gw_share (pair_of v alias id port scheme w) q (canary_endpoint alias id port scheme) = w.
Proof.
  intros Hm He. unfold pair_of. rewrite He. set (b := Backend (canary_endpoint _ _ _ _) _ _ _ _). change w with (bk_weight b) at 2.
  assert (E : eligible q [Backend (stable_endpoint alias id port scheme) (100 - w) false 0 []; b] = [Backend (stable_endpoint alias id port scheme) (100 - w) false 0 []; b])
    by (unfold eligible; cbn; by rewrite holds_matches, Hm).
  apply (gw_pool _ _ b); rewrite E.
  - set_solver.
  - repeat constructor.
  - cbn. apply NoDup_cons. split; [|apply NoDup_singleton]. intros ?%list_elem_of_singleton. by eapply endpoints_differ.
  - cbn. lia.
Qed.
Lemma share_exclusive v q alias id port scheme w : forallb (rule_matches regex q) (cv_match v) = true ->
  negb (bool_decide (cv_match v = [])) && cv_exclusive v = true ->
  gw_share (pair_of v alias id port scheme w) q (canary_endpoint alias id port scheme) = 100.
Proof.
  intros Hm He. unfold pair_of. rewrite He. set (b := Backend (canary_endpoint _ _ _ _) _ _ _ _).
  assert (E : eligible q [Backend (stable_endpoint alias id port scheme) (100 - w) false 0 []; b] = [Backend (stable_endpoint alias id port scheme) (100 - w) false 0 []; b])
    by (unfold eligible; cbn; by rewrite holds_matches, Hm).
  apply (gw_exclusive _ _ b). by rewrite E.
Qed.

(** For a live canary, what the preview of a request says is what the gateway does with the backends
    the route is rendered with: never the canary, always the canary, or the canary's weight. *)
Lemma preview_agrees v q alias id port scheme : cv_live v = true ->
  let share := gw_share (alias_backends v alias id port scheme) q (canary_endpoint alias id port scheme) in
  match preview_canary_routing regex v q with
  | (PreviewStable, chance, _) => share = 0 /\ chance = 0
  | (PreviewCanary, chance, _) => share = 100 /\ chance = 100
  | (PreviewSplit, chance, _) => share = chance
  end.
Proof.
  intros Hv share. unfold share, preview_canary_routing, effective_canary_weight, alias_backends. clear share. rewrite Hv. cbn [negb orb].
  set (w := if (if 100 <? cv_weight v then 100 else cv_weight v) <? 0 then 0 else _).
  pose proof (endpoints_differ alias id port scheme) as Hne.
  pose proof (share_unmatched v q alias id port scheme w) as Hun. pose proof (share_pooled v q alias id port scheme w) as Hpool.
  pose proof (share_exclusive v q alias id port scheme w) as Hex. unfold pair_of in *.
  destruct (bool_decide_reflect (cv_match v = [])) as [Em|Em]; cbn [negb andb] in *.
  - rewrite Em in *. cbn [forallb] in *. rewrite andb_false_r. destruct (Z.leb_spec w 0); cbn [andb negb]; [|by apply Hpool].
    split; [|done]. apply share_alone.
  - destruct (cv_match v) as [|r l] eqn:El; [done|]. rewrite <- El in *. clear El.
    destruct (forallb (rule_matches regex q) (cv_match v)); cbn [negb].
    + destruct (cv_exclusive v); cbn [negb andb].
      * rewrite andb_false_r. split; [by apply Hex|done].
      * rewrite andb_true_r. destruct (Z.leb_spec w 0); [|by apply Hpool]. split; [|done]. apply share_alone.
    + split; [|done]. destruct (_ && _); [|by apply Hun]. apply share_alone.
Qed.
End Preview.

(** A gateway that picks by weight among what a request is eligible for, unless an exclusive backend is among it *)
Definition weighted_share (regex : string -> string -> option bool) (l : list backend) (q : preview_request) (e : string) : Z :=
  let pool := List.filter (fun b => forallb (rule_matches regex q) (bk_match b)) l in
  let exclusive := List.filter bk_exclusive pool in
  let pool := match exclusive with [] => pool | _ => exclusive end in
  let mine := List.filter (fun b => String.eqb (bk_endpoint b) e) pool in
  match pool with
  | [_] => if bool_decide (mine = []) then 0 else 100
  | _ => weight_of mine
  end.
Definition weighted_gateway (regex : string -> string -> option bool) : Gateway := {| gw_share := weighted_share regex; gw_holds := rule_matches regex |}.
Lemma filter_none {A} (f : A -> bool) l : Forall (fun x => f x = false) l -> List.filter f l = [].
Proof. induction 1 as [|x l Hx _ IH]; cbn; [done|]. by rewrite Hx. Qed.
Lemma filter_forall {A} (f g : A -> bool) (P : A -> Prop) l : Forall P l -> Forall P (List.filter f l).
Proof. induction 1 as [|x l Hx _ IH]; cbn; [done|]. destruct (f x); [by constructor|done]. Qed.
Lemma mine_of (l : list backend) b : b ∈ l -> NoDup (bk_endpoint <$> l) -> List.filter (fun x => String.eqb (bk_endpoint x) (bk_endpoint b)) l = [b].
Proof.
  induction l as [|x l IH]; cbn; intros Hb Hn; [by apply not_elem_of_nil in Hb|]. apply NoDup_cons in Hn as [Hx Hn].
  apply elem_of_cons in Hb as [->|Hb].
  - rewrite String.eqb_refl. f_equal. apply filter_none, Forall_forall. intros y Hy. apply String.eqb_neq. intros E. apply Hx. rewrite <- E.
    by apply list_elem_of_fmap_2.
  - destruct (String.eqb_spec (bk_endpoint x) (bk_endpoint b)) as [E|_]; [|by apply IH]. destruct Hx. rewrite E. by apply list_elem_of_fmap_2.
Qed.
Lemma weighted_laws regex : @GatewayLaws (weighted_gateway regex) regex.
Proof.
  split; [done| | | |]; intros l q; cbn [gw_share weighted_gateway]; unfold weighted_share;
    change (List.filter (fun b => forallb (rule_matches regex q) (bk_match b)) l) with (@eligible (weighted_gateway regex) q l); set (pool := eligible q l) in *.
  - intros e He. assert (Hp : forall p, Forall (fun b => bk_endpoint b <> e) p -> List.filter (fun b => String.eqb (bk_endpoint b) e) p = []).
    { intros p Hp. apply filter_none. eapply Forall_impl; [exact Hp|]. intros b. apply String.eqb_neq. }
    set (p := match List.filter bk_exclusive pool with [] => pool | _ => _ end). assert (Forall (fun b => bk_endpoint b <> e) p) as H.
    { subst p. pose proof (filter_forall bk_exclusive bk_exclusive _ _ He) as H. by destruct (List.filter bk_exclusive pool). }
    rewrite (Hp p H). destruct p as [|x [|y p']]; [done|by rewrite bool_decide_eq_true_2|done].
  - intros b ->. cbn. destruct (bk_exclusive b); cbn; by rewrite String.eqb_refl.
  - intros b ->. cbn. by rewrite String.eqb_refl.
  - intros b Hb He Hn Hw. rewrite (filter_none _ _ He), (mine_of pool b Hb Hn). destruct pool as [|x [|y p]]; cbn; [by apply not_elem_of_nil in Hb| |lia].
    apply list_elem_of_singleton in Hb as ->. cbn in Hw. lia.
Qed.
