(* ===== verification/RolloutLive.v ===== *)
(** * When everything answers well

    Triples over computations whose worker lives and whose calls go well, nothing else acting: they end, and the world they
    leave is known but for what was asked. A canary left to its timer is promoted. *)
From S2P Require Import Prelude GoStrings ControlAct Registry DeployRules Rollout Deploy DeployRun Canary RolloutLogic.
#[local] Open Scope Z_scope.
#[local] Open Scope list_scope.

(** Every call goes well; a container that is looked at runs, and is healthy; a lock is free. *)
Record obliging (o : outside) : Prop := {
  ob_ok : forall n q, rn_ok (ou_ext o n q) = true;
  ob_inspect : forall n x, rn_text (ou_ext o n (QInspect x)) = "running" /\ rn_more (ou_ext o n (QInspect x)) = "healthy";
  ob_lock : forall n, rn_flag (ou_ext o n QLock) = true }.
Section Live.
Context (o : outside) (Ho : obliging o).
#[local] Abbreviation alone := (fun (_ : nat) (w : rollout) => w).

Definition reaches {A} (w : rollout) (m : R A) (Q : A -> rollout -> Prop) : Prop :=
  forall t, exists t' a w', m (put_life t None w) = (put_life t' None w', Some a) /\ Q a w'.
Lemma r_bind {A B} w (m : R A) (k : A -> R B) M Q : reaches w m M -> (forall a w', M a w' -> reaches w' (k a) Q) -> reaches w (andthen m k) Q.
Proof.
  intros Hm Hk t. destruct (Hm t) as (t1 & a & w1 & E & H). destruct (Hk a w1 H t1) as (t2 & b & w2 & E2 & H2). exists t2, b, w2.
  unfold andthen. by rewrite E.
Qed.
Lemma r_done {A} w (a : A) (Q : A -> rollout -> Prop) : Q a w -> reaches w (done a) Q.
Proof. intros H t. by exists t, a, w. Qed.
Lemma r_post {A} w (m : R A) (Q Q' : A -> rollout -> Prop) : reaches w m Q -> (forall a w, Q a w -> Q' a w) -> reaches w m Q'.
Proof. intros H Hq t. destruct (H t) as (t1 & a & w1 & E & H1). exists t1, a, w1. auto. Qed.
Lemma ask_live t w q : ask o alone q (put_life t None w) = (put_life (q :: t) None w, Some (ou_ext o (length t) q)).
Proof. done. Qed.
(** What is known of an answer *)
Definition well (q : ro_call) (a : ro_answer) : Prop :=
  rn_ok a = true /\ match q with QInspect _ => rn_text a = "running" /\ rn_more a = "healthy" | QLock => rn_flag a = true | _ => True end.
Lemma r_ask w q : reaches w (ask o alone q) (fun a w' => w' = w /\ well q a).
Proof.
  intros t. eexists _, _, w. split; [done|]. split; [done|]. split; [apply (ob_ok _ Ho)|].
  destruct q; try done; [apply (ob_lock _ Ho)|apply (ob_inspect _ Ho)].
Qed.
Lemma r_now w : reaches w (now o) (fun _ w' => w' = w).
Proof. intros t. by eexists _, _, w. Qed.
Lemma r_change w f : (forall t, f (put_life t None w) = put_life t None (f w)) -> reaches w (change f) (fun _ w' => w' = f w).
Proof. intros Hf t. eexists t, tt, (f w). unfold change. by rewrite Hf. Qed.
Lemma r_when w b (m : R unit) (Q : unit -> rollout -> Prop) : (b = true -> reaches w m Q) -> (b = false -> Q tt w) -> reaches w (when b m) Q.
Proof. destruct b; cbn; [auto|]. intros _ H. by apply r_done, H. Qed.
Lemma r_write w f : (forall t, f (put_life t None w) = put_life t None (f w)) -> reaches w (write o alone f) (fun b w' => b = true /\ w' = f w).
Proof.
  intros Hf. eapply r_bind; [apply r_ask|]. intros a w1 [-> [Ha _]]. rewrite Ha. eapply r_bind; [by apply r_change|].
  intros [] w2 ->. by apply r_done.
Qed.
Lemma r_find {A} w (g : rollout -> option A) : (forall t, g (put_life t None w) = g w) -> reaches w (find o alone g) (fun r w' => r = g w /\ w' = w).
Proof.
  intros Hg t. exists (QFind :: t), (g w), w. split; [|done]. unfold find, andthen, ask, look, done. cbn. rewrite (ob_ok _ Ho). f_equal. f_equal. apply Hg.
Qed.
Lemma r_create w w1 f : (forall t, f (ro_next w) (put_life t None w) = Some (put_life t None w1)) ->
  reaches w (create o alone f) (fun n w' => n = Some (ro_next w) /\ w' = take_next w1).
Proof.
  intros Hf t. exists (QCreate :: t), (Some (ro_next w)), (take_next w1). split; [|done].
  unfold create, andthen at 1. rewrite ask_live. unfold andthen, look. change (ro_next (put_life (QCreate :: t) None w)) with (ro_next w).
  by rewrite Hf, (ob_ok _ Ho).
Qed.
Lemma r_enqueue w x : reaches w (enqueue o alone x) (fun b w' => b = true /\ w' = put_queue (ro_queue w ++ [x]) w).
Proof.
  eapply r_bind; [apply r_ask|]. intros a w1 [-> [Ha _]]. rewrite Ha. eapply r_bind; [by apply r_change|]. intros [] w2 ->. by apply r_done.
Qed.
Lemma r_sync c w : reaches w (sync_route o alone c)
  (fun b w' => b = true /\ w' = put_routed (if bool_decide (is_Some (as_current (ro_app w))) then Some (view_of c (ro_app w)) else None) w).
Proof.
  eapply r_bind; [apply r_ask|]. intros a w1 [-> [Ha _]]. rewrite Ha. eapply r_bind; [by apply r_change|]. intros [] w2 ->. by apply r_done.
Qed.

(** ** The ramp of a canary *)

Context (c : app_conf).
(** The canary [k] of deployment [id], with weight [weight], that its timer moves *)
Record ramping (id k : N) (r : release) (weight : Z) (w : rollout) : Prop := {
  rp_canary : as_canary (ro_app w) = Some k;
  rp_weight : as_weight (ro_app w) = weight;
  rp_auto : canary_held (ro_app w) = false;
  rp_row : ro_rels w !! k = Some r;
  rp_deployment : rl_deployment r = id;
  rp_known : is_Some (ro_deps w !! id) }.
(** A tick that moves the weight along, and asks for the next *)
Definition advanced (id k : N) (weight : Z) (w : rollout) : rollout :=
  let w := put_state (with_canary (Some k) weight (ro_app w)) w in
  let w := put_routed (if bool_decide (is_Some (as_current (ro_app w))) then Some (view_of c (ro_app w)) else None) w in
  put_queue (ro_queue w ++ [TaskCanaryStep id (canary_interval (cf_canary c))]) w.
(** A tick that asks for the canary to be made the release in force *)
Definition promoted (r : release) (w w' : rollout) : Prop := exists at_,
  w' = put_queue (ro_queue w ++ [TaskDeploy (ro_next w)])
    (take_next (put_deps (<[ro_next w := pending (if cf_git c then "" else rl_image r) "auto" deploy_rolling (cf_registry c) at_ (next_number w)]> (ro_deps w)) w)).
Lemma tick_spec id k r weight w : ramping id k r weight w ->
  reaches w (process_canary_step o alone c id) (fun _ w' =>
    let next := next_canary_weight weight (canary_step (cf_canary c)) in
    if 100 <=? next then promoted r w w' else w' = advanced id k next w).
Proof.
  intros [Hk Hw Ha Hr Hd [d Hdep]]. unfold process_canary_step. eapply r_bind; [by apply r_find|]. intros d' w1 [-> ->]. rewrite Hdep.
  eapply r_bind; [by apply r_find|]. intros a w2 [-> ->]. rewrite Hk. eapply r_bind; [by apply r_find|]. intros r' w3 [-> ->]. rewrite Hr, Hd, N.eqb_refl.
  unfold canary_tick. apply (r_bind _ _ _ (fun b w' => b = false /\ w' = w)).
  { destruct (String.eqb _ _); [by apply r_done|]. eapply r_bind; [apply r_ask|]. intros a w4 (-> & Hok & Ht & _). apply r_done. by rewrite Hok, Ht. }
  intros b w4 [-> ->]. unfold next_canary_ramp. rewrite Ha, Hw. cbv zeta. destruct (100 <=? _).
  - unfold auto_promote_canary. eapply r_bind; [apply r_now|]. intros t w5 ->. eapply r_bind; [by apply (r_create _ (put_deps (<[ro_next w := pending (if cf_git c then "" else rl_image r) "auto" deploy_rolling (cf_registry c) t (next_number w)]> (ro_deps w)) w))|].
    intros n w6 [-> ->].
    eapply r_bind; [apply r_enqueue|]. intros b w7 [-> ->]. apply r_done. by exists t.
  - eapply r_bind; [by apply r_write|]. intros b w5 [-> ->]. eapply r_bind; [apply r_sync|]. intros b w6 [-> ->].
    eapply r_bind; [apply r_enqueue|]. intros b w7 [-> ->]. by apply r_done.
Qed.
Lemma advanced_ramping id k r weight next w : ramping id k r weight w -> ramping id k r next (advanced id k next w).
Proof. intros [Hk Hw Ha Hr Hd Hdep]. by split. Qed.
End Live.

(** The timer, as the queue drives it: the step of deployment [id] that is due, if one was asked for, is taken and processed. *)
Definition is_step (id : N) (x : task) : bool := match x with TaskCanaryStep i _ => (i =? id)%N | _ => false end.
Fixpoint take_due (id : N) (q : list task) : option (list task) :=
  match q with
  | [] => None
  | x :: q => if is_step id x then Some q else cons x <$> take_due id q
  end.
Definition deliver (o : outside) (c : app_conf) (id : N) (w : rollout) : rollout :=
  match take_due id (ro_queue w) with Some q => (process_canary_step o (fun _ w => w) c id (put_queue q w)).1 | None => w end.
Fixpoint deliveries (o : outside) (c : app_conf) (id : N) (n : nat) (w : rollout) : rollout :=
  match n with O => w | S n => deliveries o c id n (deliver o c id w) end.

Lemma take_due_none id q : existsb (is_step id) q = false -> take_due id q = None.
Proof. induction q as [|x q IH]; cbn; [done|]. intros [-> Hq]%orb_false_iff. by rewrite IH. Qed.
Lemma take_due_last id q x : existsb (is_step id) q = false -> is_step id x = true -> take_due id (q ++ [x]) = Some q.
Proof. intros Hq Hx. induction q as [|y q IH]; cbn in *; [by rewrite Hx|]. apply orb_false_iff in Hq as [-> Hq]. by rewrite IH. Qed.
Lemma canary_step_bounds c : 1 <= canary_step c <= 99.
Proof. unfold canary_step. destruct (1 <=? cc_step c) eqn:E1, (cc_step c <=? 99) eqn:E2; cbn; lia. Qed.
(** One delivery of a canary that is not yet promoted, [rest] being what else the queue holds *)
Record due (id k : N) (r : release) (weight : Z) (rest : list task) (w : rollout) : Prop := {
  du_ramping : ramping id k r weight w;
  du_lives : ro_left w = None;
  du_weight : 0 <= weight < 100;
  du_next : take_due id (ro_queue w) = Some rest;
  du_rest : existsb (is_step id) rest = false }.
Definition asked_for (c : app_conf) (r : release) (rest : list task) (w w' : rollout) : Prop := exists at_,
  ro_queue w' = rest ++ [TaskDeploy (ro_next w)] /\
  ro_deps w' = <[ro_next w := pending (if cf_git c then "" else rl_image r) "auto" deploy_rolling (cf_registry c) at_ (next_number w)]> (ro_deps w).
Definition moved_to (c : app_conf) (id k : N) (rest : list task) (weight : Z) (w w' : rollout) : Prop :=
  ro_queue w' = rest ++ [TaskCanaryStep id (canary_interval (cf_canary c))] /\ as_canary (ro_app w') = Some k /\ as_weight (ro_app w') = weight /\
  ro_routed w' = (if bool_decide (is_Some (as_current (ro_app w'))) then Some (view_of c (ro_app w')) else None) /\
  ro_deps w' = ro_deps w /\ ro_next w' = ro_next w.
Lemma deliver_spec o c id k r weight rest w : obliging o -> due id k r weight rest w ->
  let next := weight + canary_step (cf_canary c) in
  if 100 <=? next then asked_for c r rest w (deliver o c id w)
  else due id k r next rest (deliver o c id w) /\ moved_to c id k rest next w (deliver o c id w).
Proof.
  intros Ho [[Hk Hw Ha Hr Hd Hdep] Hl Hb Hq Hrest]. pose proof (canary_step_bounds (cf_canary c)) as Hstep. cbv zeta. unfold deliver. rewrite Hq.
  set (w0 := put_queue rest w). assert (Hr0 : ramping id k r weight w0) by by split.
  assert (E0 : w0 = put_life (ro_trace w) None w0) by (subst w0; destruct w; cbn in *; by subst).
  destruct (tick_spec o Ho c id k r weight w0 Hr0 (ro_trace w)) as (t1 & [] & w1 & E & H). rewrite <- E0 in E. rewrite E. cbn [fst]. cbv zeta in H.
  assert (Hwr : wrap64 (weight + canary_step (cf_canary c)) = weight + canary_step (cf_canary c)) by (apply wrap64_small; lia).
  unfold next_canary_weight in H. rewrite Hwr in H.
  destruct (Z.leb_spec 100 (weight + canary_step (cf_canary c))) as [Hge|Hlt].
  - destruct (100 <? weight + canary_step (cf_canary c)) eqn:E1.
    + destruct H as [at_ ->]. by exists at_.
    + destruct (Z.leb_spec 100 (weight + canary_step (cf_canary c))); [|lia]. destruct H as [at_ ->]. by exists at_.
  - destruct (Z.ltb_spec 100 (weight + canary_step (cf_canary c))); [lia|]. destruct (Z.leb_spec 100 (weight + canary_step (cf_canary c))); [lia|].
    subst w1. split; [|by split_and!]. split; [by split|done|lia| |done]. cbn. apply take_due_last; [done|]. cbn. by rewrite N.eqb_refl.
Qed.
Lemma deliveries_done o c id n w : take_due id (ro_queue w) = None -> deliveries o c id n w = w.
Proof. intros H. induction n as [|n IH]; cbn; [done|]. unfold deliver. by rewrite H. Qed.

(** C32 [canary_promotes]: A canary left to its timer is promoted. The queue holds one step of the
    canary's deployment, the canary is live and nobody holds it (not paused, not in manual mode),
    its container runs, its weight is below 100, its rows are there, and every call goes well with
    nothing else acting: then after n deliveries of the step the queue makes, the canary has the
    weight it had plus n steps while that is below 100, the proxy is told so, the next step is asked
    for once and no deployment is; from the delivery that reaches 100 on, the queue holds instead
    exactly one deployment more than before, a new pending rolling one of the canary's image (of a
    build, for an application built from a repository), and no further step. A tick that fails to
    read a row asks for no other: the ramp then stands still. *)
Theorem canary_promotes o c id k r weight rest w n : obliging o -> due id k r weight rest w ->
  let reached := weight + Z.of_nat (S n) * canary_step (cf_canary c) in
  if reached <? 100 then moved_to c id k rest reached w (deliveries o c id (S n) w) else asked_for c r rest w (deliveries o c id (S n) w).
Proof.
  intros Ho Hdue. cbv zeta. revert weight w Hdue. induction n as [|n IH]; intros weight w Hdue.
  - pose proof (deliver_spec o c id k r weight rest w Ho Hdue) as H. cbv zeta in H. cbn [deliveries]. rewrite Z.mul_1_l.
    destruct (Z.leb_spec 100 (weight + canary_step (cf_canary c))), (Z.ltb_spec (weight + canary_step (cf_canary c)) 100); try lia; [done|by destruct H].
  - pose proof (deliver_spec o c id k r weight rest w Ho Hdue) as H. cbv zeta in H. pose proof (canary_step_bounds (cf_canary c)) as Hstep.
    change (deliveries o c id (S (S n)) w) with (deliveries o c id (S n) (deliver o c id w)).
    destruct (Z.leb_spec 100 (weight + canary_step (cf_canary c))) as [Hge|Hlt].
    + rewrite deliveries_done.
      * destruct (Z.ltb_spec (weight + Z.of_nat (S (S n)) * canary_step (cf_canary c)) 100); [nia|done].
      * destruct H as (at_ & -> & _). apply take_due_none. rewrite existsb_app, (du_rest _ _ _ _ _ _ Hdue). done.
    + destruct H as [Hdue' (Hq1 & Hk1 & Hw1 & Hr1 & Hd1 & Hn1)]. specialize (IH _ _ Hdue').
      replace (weight + Z.of_nat (S (S n)) * canary_step (cf_canary c)) with (weight + canary_step (cf_canary c) + Z.of_nat (S n) * canary_step (cf_canary c)) by lia.
      destruct (_ <? 100).
      * destruct IH as (H1 & H2 & H3 & H4 & H5 & H6). split_and!; congruence.
      * destruct IH as (at_ & H1 & H2). exists at_. rewrite Hn1 in *. rewrite Hd1 in H2. split; [done|]. rewrite H2. unfold next_number. by rewrite Hd1.
Qed.
Import Shop.
Lemma shop_obliging : obliging good_day.
Proof. split; [|done|done]. intros n q. by destruct q. Qed.
(** The shop with its canary at a tenth of the traffic: three ticks promote it. *)
Definition canary_row : release := Release 2 2 KindContainer "shop:2" "c3" false false "".
Definition with_canary_live : rollout :=
  Rollout (with_canary (Some 4%N) 10 row) {[ 2%N := set_dep_status DeploymentCanary (wanted "canary") ]}
    (<[4%N := canary_row]> {[ 1%N := first ]}) 5 [InContainer "c3"; InContainer "old"] None [] [] None.
Definition canary_due : rollout := put_queue [TaskCanaryStep 2 60; TaskDeploy 9] with_canary_live.
Lemma canary_promotes_witness :
  moved_to conf 2 4 [TaskDeploy 9] 70 canary_due (deliveries good_day conf 2 2 canary_due) /\ asked_for conf canary_row [TaskDeploy 9] canary_due (deliveries good_day conf 2 3 canary_due).
Proof.
  assert (H : due 2 4 canary_row 10 [TaskDeploy 9] canary_due) by (split; [by split|done|done|done|done]).
  split; [exact (canary_promotes good_day conf 2 4 canary_row 10 [TaskDeploy 9] canary_due 1 shop_obliging H)
         |exact (canary_promotes good_day conf 2 4 canary_row 10 [TaskDeploy 9] canary_due 2 shop_obliging H)].
Defined.
(** A request may delete the release of the live canary, and with it the container the proxy sends traffic to; the application keeps
    naming it, and its timer stops. *)
Example live_canary_deleted :
  let w := perform conf no_regex (ask_on good_day (RqDelete 4)) canary_due in
  ro_up w = [InContainer "old"] /\ as_canary (ro_app w) = Some 4%N /\ as_weight (ro_app w) = 10 /\ ro_queue (deliver good_day conf 2 w) = [TaskDeploy 9].
Proof. by vm_compute. Qed.
(** A failed read at a tick ends the ramp: no other tick is asked for. *)
Example unread_tick_ends_ramp :
  ro_queue (deliver (day (fun q => match q with QFind => true | _ => false end)) conf 2 canary_due) = [TaskDeploy 9].
Proof. by vm_compute. Qed.
