(* ===== verification/RolloutEnds.v ===== *)
(** * A deployment whose calls go well releases

    With every call answered well and nothing else acting, the task of a deployment that may run ends with its release in
    force, or, for a canary, with the canary live: what the rows, the proxy and the queue say of it then. *)
From S2P Require Import Prelude GoStrings ControlAct Registry DeployRules Rollout Deploy DeployRun Canary RolloutLogic RolloutCalm RolloutSafe RolloutHistory RolloutLive.
#[local] Open Scope Z_scope.
#[local] Open Scope list_scope.

Section Ends.
Context (o : outside) (Ho : obliging o) (h : deployer) (c : app_conf).
#[local] Abbreviation alone := (fun (_ : nat) (w : rollout) => w).

(** Whenever the registry is asked, the image is one the workspace may use. *)
Definition image_fine (ref : string) : Prop :=
  forall g n, dl_registry h = Some g -> exists ref', resolve_image_ref (g n) (cf_workspace c) ref = Ok ref'.
(** What a deployment needs besides answers: an image that may be pulled, enough tasks of a service, no GPU *)
Record deployable (a : app_state) (d : deployment) : Prop := {
  dy_image : image_fine (dp_image d);
  dy_fallback : image_fine (image_ref (as_image a) (as_tag a) (cf_digest c) "");
  dy_build : cf_git c = true -> dl_dispatch h = true /\ exists g, dl_registry h = Some g /\ forall n, rg_unavailable (g n) = "" /\
    forall id, (split_image_ref (build_ref (g n) (cf_workspace c) (cf_name c) id)).1 <> "";
  dy_pull : cf_pull c <> pull_never;
  dy_gpus : cf_gpus c <= 0;
  dy_tasks : forall n x, 1 <= rn_count (ou_ext o n (QServiceInspect x)) /\ cf_replicas c <= rn_count (ou_ext o n (QServiceInspect x)) }.

(** What a release in force, and a canary, look like: the rows of the application and of the deployment [id], the proxy and the queue *)
Definition only (new : N) (w : rollout) : Prop := forall i q, ro_rels w !! i = Some q -> rl_active q = true -> i = new.
Record told (id new : N) (w : rollout) : Prop := {
  td_only : only new w;
  td_current : as_current (ro_app w) = Some new;
  td_status : as_status (ro_app w) = LiveRunning;
  td_deployment : exists d, ro_deps w !! id = Some d /\ dp_status d = DeploymentSucceeded;
  td_routed : ro_routed w = Some (view_of c (ro_app w)) }.
Record canary_told (id new : N) (w : rollout) : Prop := {
  ct_canary : as_canary (ro_app w) = Some new;
  ct_weight : as_weight (ro_app w) = canary_initial_weight (cf_canary c);
  ct_paused : as_paused (ro_app w) = None;
  ct_status : as_status (ro_app w) = LiveRunning;
  ct_row : exists r, ro_rels w !! new = Some r /\ rl_deployment r = id /\ rl_active r = false /\ InContainer (rl_container r) ∈ ro_up w;
  ct_deployment : exists d, ro_deps w !! id = Some d /\ dp_status d = DeploymentCanary;
  ct_routed : ro_routed w = if bool_decide (is_Some (as_current (ro_app w))) then Some (view_of c (ro_app w)) else None;
  ct_queue : canary_initial_weight (cf_canary c) < 100 -> TaskCanaryStep id (canary_interval (cf_canary c)) ∈ ro_queue w }.

(** ** Computations that end, with what they return *)

Definition ends_from {A} (P : rollout -> Prop) (F : A -> rollout -> Prop) (m : R A) : Prop :=
  forall w, ro_left w = None -> P w -> exists w' a, m w = (w', Some a) /\ F a w' /\ ro_left w' = None.
Definition ends_in {A} (F : A -> rollout -> Prop) (m : R A) : Prop :=
  forall w, ro_left w = None -> exists w' a, m w = (w', Some a) /\ F a w' /\ ro_left w' = None.
Definition ends_with {A} (F : A -> Prop) (m : R A) : Prop := ends_in (fun a _ => F a) m.
Definition any {A} (_ : A) : Prop := True.
Lemma e_done {A} (F : A -> Prop) a : F a -> ends_with F (done a).
Proof. intros H w Hw. by exists w, a. Qed.
Lemma e_into {A B} (G : A -> Prop) (F : B -> rollout -> Prop) (m : R A) k : ends_with G m -> (forall a, G a -> ends_in F (k a)) -> ends_in F (andthen m k).
Proof. intros Hm Hk w Hw. destruct (Hm w Hw) as (w1 & a & E & Ha & Hl). unfold andthen. rewrite E. by apply Hk. Qed.
Lemma e_then {A B} (G : A -> Prop) (F : B -> Prop) (m : R A) k : ends_with G m -> (forall a, G a -> ends_with F (k a)) -> ends_with F (andthen m k).
Proof. intros Hm Hk. by eapply e_into. Qed.
Lemma e_step {A B} (F : B -> rollout -> Prop) (m : R A) k : ends_with any m -> (forall a, ends_in F (k a)) -> ends_in F (andthen m k).
Proof. intros Hm Hk. eapply e_into; [done|]. auto. Qed.
Lemma e_seq {A B} (F : B -> Prop) (m : R A) k : ends_with any m -> (forall a, ends_with F (k a)) -> ends_with F (andthen m k).
Proof. intros Hm Hk. by apply e_step. Qed.
Lemma f_then {A B} P (G : A -> rollout -> Prop) (F : B -> rollout -> Prop) (m : R A) k :
  ends_from P G m -> (forall a, ends_from (G a) F (k a)) -> ends_from P F (andthen m k).
Proof. intros Hm Hk w Hw HP. destruct (Hm w Hw HP) as (w1 & a & E & Ha & Hl). unfold andthen. rewrite E. by apply (Hk a w1). Qed.
Lemma f_start {A B} (G : A -> rollout -> Prop) (F : B -> rollout -> Prop) (m : R A) k :
  ends_in G m -> (forall a, ends_from (G a) F (k a)) -> ends_in F (andthen m k).
Proof. intros Hm Hk w Hw. destruct (Hm w Hw) as (w1 & a & E & Ha & Hl). unfold andthen. rewrite E. by apply (Hk a w1). Qed.
Lemma f_taken {A} (C : Prop) P (F : A -> rollout -> Prop) (m : R A) : (C -> ends_from P F m) -> ends_from (fun w => C /\ P w) F m.
Proof. intros H w Hw [HC HP]. by apply H. Qed.
Lemma f_forget {A} P (F : A -> rollout -> Prop) (m : R A) : ends_in F m -> ends_from P F m.
Proof. intros H w Hw _. by apply H. Qed.
Lemma f_post {A} P (F G : A -> rollout -> Prop) (m : R A) : ends_from P F m -> (forall a w, F a w -> G a w) -> ends_from P G m.
Proof. intros Hm Hf w Hw HP. destruct (Hm w Hw HP) as (w1 & a & E & Ha & Hl). exists w1, a. auto. Qed.
Lemma f_done {A} P (F : A -> rollout -> Prop) a : (forall w, P w -> F a w) -> ends_from P F (done a).
Proof. intros H w Hw HP. exists w, a. auto. Qed.
Lemma f_kept {A} (P : rollout -> Prop) (F : A -> Prop) (m : R A) : ends_with F m -> hoare (fun _ => True) P m (fun _ => P) -> ends_from P (fun a w => F a /\ P w) m.
Proof. intros He Hh w Hw HP. destruct (He w Hw) as (w1 & a & E & Ha & Hl). specialize (Hh w HP). rewrite E in Hh. by exists w1, a. Qed.
Lemma f_write (P Q : rollout -> Prop) f : (forall w, ro_left (f w) = ro_left w) -> (forall w t l, P w -> Q (f (put_life t l w))) ->
  ends_from P (fun b w => b = true /\ Q w) (write o alone f).
Proof.
  intros Hf Hq w Hw HP. unfold write, andthen at 1, ask. rewrite Hw, (ob_ok _ Ho). cbn [when]. eexists _, true. split; [done|].
  split; [split; [done|by apply Hq]|]. by rewrite Hf.
Qed.
Lemma f_asked P q : (forall w t l, P w -> P (put_life t l w)) -> ends_from P (fun a w => rn_ok a = true /\ P w) (ask o alone q).
Proof. intros Hp w Hw HP. unfold ask. rewrite Hw. eexists _, _. split; [done|]. rewrite (ob_ok _ Ho). split; [split; [done|by apply Hp]|done]. Qed.
Lemma f_change (P Q : rollout -> Prop) f : (forall w, ro_left (f w) = ro_left w) -> (forall w, P w -> Q (f w)) -> ends_from P (fun _ => Q) (change f).
Proof. intros Hf Hq w Hw HP. eexists _, tt. split; [done|]. split; [by apply Hq|by rewrite Hf]. Qed.
Lemma f_sync (P Q : rollout -> Prop) : (forall w t l, P w -> P (put_life t l w)) ->
  (forall w, P w -> Q (put_routed (if bool_decide (is_Some (as_current (ro_app w))) then Some (view_of c (ro_app w)) else None) w)) ->
  ends_from P (fun _ => Q) (sync_route o alone c).
Proof.
  intros Hp Hq. unfold sync_route. eapply f_then; [by apply f_asked|]. intros a. apply f_taken. intros ->. cbn [when].
  apply (f_then _ (fun _ => Q)); [by apply f_change|]. intros _. by apply f_done.
Qed.
Lemma f_enqueue (P Q : rollout -> Prop) x : (forall w t l, P w -> P (put_life t l w)) -> (forall w, P w -> Q (put_queue (ro_queue w ++ [x]) w)) ->
  ends_from P (fun _ => Q) (enqueue o alone x).
Proof.
  intros Hp Hq. unfold enqueue. eapply f_then; [by apply f_asked|]. intros a. apply f_taken. intros ->. cbn [when].
  apply (f_then _ (fun _ => Q)); [by apply f_change|]. intros _. by apply f_done.
Qed.
Lemma f_last {A B} P (G : A -> rollout -> Prop) (F : B -> rollout -> Prop) (m : R A) (f : A -> B) :
  ends_from P G m -> (forall a w, G a w -> F (f a) w) -> ends_from P F (a <~ m; done (f a)).
Proof. intros Hm Hf. apply (f_then _ G); [done|]. intros a. apply f_done. apply Hf. Qed.
Lemma e_last {A B} (G : A -> rollout -> Prop) (F : B -> rollout -> Prop) (m : R A) (f : A -> B) :
  ends_in G m -> (forall a w, G a w -> F (f a) w) -> ends_in F (a <~ m; done (f a)).
Proof. intros Hm Hf w Hw. destruct (Hm w Hw) as (w1 & a & E & Ha & Hl). exists w1, (f a). unfold andthen. rewrite E. auto. Qed.
Lemma e_any {A} (F : A -> Prop) m : ends_with F m -> ends_with any m.
Proof. intros H w Hw. destruct (H w Hw) as (w' & a & E & _ & Hl). by exists w', a. Qed.
Lemma e_post {A} (F G : A -> Prop) m : ends_with F m -> (forall a, F a -> G a) -> ends_with G m.
Proof. intros H Hfg w Hw. destruct (H w Hw) as (w' & a & E & Ha & Hl). exists w', a. auto. Qed.
Lemma e_done_any {A} (a : A) : ends_with any (done a).
Proof. by apply e_done. Qed.
Lemma e_asked q : ends_with (well q) (ask o alone q).
Proof.
  intros w Hw. unfold ask. rewrite Hw. eexists _, _. split; [done|]. split; [|done]. split; [apply (ob_ok _ Ho)|].
  destruct q; try done; [apply (ob_lock _ Ho)|apply (ob_inspect _ Ho)].
Qed.
Lemma e_ask_any q : ends_with any (ask o alone q).
Proof. eapply e_any, e_asked. Qed.
Lemma e_now : ends_with any (now o).
Proof. intros w Hw. by eexists _, _. Qed.
Lemma e_look : ends_with any look.
Proof. intros w Hw. by eexists _, _. Qed.
Lemma e_change f : (forall w, ro_left (f w) = ro_left w) -> ends_with any (change f).
Proof. intros Hf w Hw. eexists _, _. split; [done|]. split; [done|]. cbn. by rewrite Hf. Qed.
Lemma e_when b (m : R unit) : ends_with any m -> ends_with any (when b m).
Proof. destruct b; [done|]. intros _. apply e_done_any. Qed.
Lemma e_write f : (forall w, ro_left (f w) = ro_left w) -> ends_with (fun b => b = true) (write o alone f).
Proof.
  intros Hf. eapply e_then; [apply e_asked|]. intros a [Ha _]. rewrite Ha. apply e_seq; [by apply e_change|]. intros _. by apply e_done.
Qed.
Lemma e_find {A} (g : rollout -> option A) : ends_with any (find o alone g).
Proof. apply e_seq; [apply e_ask_any|]. intros a. apply e_seq; [apply e_look|]. intros w. apply e_done_any. Qed.
Lemma e_enqueue x : ends_with (fun b => b = true) (enqueue o alone x).
Proof. eapply e_then; [apply e_asked|]. intros a [Ha _]. rewrite Ha. apply e_seq; [by apply e_change|]. intros _. by apply e_done. Qed.
Lemma e_sync : ends_with any (sync_route o alone c).
Proof. apply e_seq; [apply e_ask_any|]. intros a. apply e_seq; [by apply e_when, e_change|]. intros _. apply e_done_any. Qed.
Lemma e_stopped x : ends_with any (stop_container o alone x).
Proof. apply e_seq; [apply e_ask_any|]. intros _. by apply e_change. Qed.
Lemma e_remove x : ends_with any (remove_container o alone x).
Proof. apply e_seq; [apply e_ask_any|]. intros _. by apply e_change. Qed.
Lemma e_service_remove x : ends_with any (service_remove o alone x).
Proof. apply e_seq; [apply e_ask_any|]. intros _. by apply e_change. Qed.
Lemma e_any_write f : (forall w, ro_left (f w) = ro_left w) -> ends_with any (write o alone f).
Proof. intros Hf. by eapply e_any, e_write. Qed.
End Ends.
Create HintDb ends.
#[export] Hint Resolve e_done_any e_ask_any e_now e_look e_find e_sync e_stopped e_remove e_service_remove : ends.
#[export] Hint Extern 2 (ends_with any (write _ _ _)) => (apply e_any_write; done) : ends.
#[export] Hint Extern 2 (ends_with any (enqueue _ _ _)) => (eapply e_any, e_enqueue; done) : ends.
(** Goes through code that ends. *)
Ltac finish :=
  repeat (cbv zeta; first
    [ progress intros
    | solve [eauto with ends]
    | solve [apply e_any_write; [done|by intros]]
    | solve [apply e_find; done]
    | match goal with
      | |- ends_with _ (andthen _ _) => apply e_seq
      | |- ends_with any (when _ _) => apply e_when
      | |- ends_with _ (match ?x with _ => _ end) => destruct x
      end ]).

Section Task.
Context (o : outside) (Ho : obliging o) (h : deployer) (c : app_conf).
#[local] Abbreviation alone := (fun (_ : nat) (w : rollout) => w).

(** ** The registry *)

Lemma e_registry {A} (F : A -> Prop) x f : (dl_registry h = None -> F x) -> (forall g n, dl_registry h = Some g -> F (f (g n))) ->
  ends_with F (registry_says o alone h x f).
Proof.
  intros Hx Hf. unfold registry_says. destruct (dl_registry h) as [g|]; [|by apply e_done, Hx].
  eapply (e_then any); [finish|]. intros w _. eapply e_then; [by apply e_asked|]. intros r _. apply e_done. by apply Hf.
Qed.
Lemma e_authorized ref : image_fine h c ref -> ends_with (fun r => exists ref', r = Ok ref') (authorized_image_ref o alone h c ref).
Proof. intros H. unfold authorized_image_ref. destruct (String.eqb ref ""); [apply e_done; eauto|]. apply e_registry; eauto. Qed.
Lemma e_is_build ref : ends_with any (is_build_ref o alone h ref).
Proof. by apply e_registry. Qed.
Lemma e_registry_auth : ends_with any (registry_auth o alone h).
Proof. by apply e_registry. Qed.
#[local] Hint Resolve e_is_build e_registry_auth : ends.

(** ** Releasing *)

Lemma e_finalize id s : ends_with any (finalize_canary o alone id s).
Proof. unfold finalize_canary. finish. Qed.
Lemma e_remove_canary r : ends_with any (remove_canary_container o alone r).
Proof. unfold remove_canary_container. finish. Qed.
Lemma e_retire r : ends_with any (retire_release o alone r).
Proof. unfold retire_release. finish. Qed.
#[local] Hint Resolve e_finalize e_remove_canary e_retire : ends.
Lemma e_detach : ends_with any (detach_canary o alone).
Proof. unfold detach_canary. finish. Qed.
Lemma e_retire_canary x : ends_with any (retire_canary_release o alone x).
Proof. unfold retire_canary_release. finish. Qed.
Lemma e_tag d v : ends_with any (tag_release_image o alone h d v).
Proof. unfold tag_release_image. finish. Qed.
Lemma e_make_current id image : ends_with any (make_current o alone c id image).
Proof. unfold make_current. finish. Qed.
Lemma e_succeed id d : ends_with any (succeed o alone id d).
Proof. unfold succeed. finish. Qed.
#[local] Hint Resolve e_detach e_retire_canary e_tag e_make_current e_succeed : ends.

Lemma highest_above {A} (f : A -> Z) l x : x ∈ l -> f x <= highest f l.
Proof.
  unfold highest. assert (G : forall (l : list A) m, m <= foldl (fun m x => Z.max m (f x)) m l).
  { intros l'. induction l' as [|y l' IH]; intros m; cbn; [lia|]. etransitivity; [|apply IH]. lia. }
  generalize 0. induction l as [|y l IH]; intros m Hx; [by apply not_elem_of_nil in Hx|]. cbn.
  apply elem_of_cons in Hx as [->|Hx]; [|by apply IH]. etransitivity; [|apply G]. lia.
Qed.
Lemma version_free w : version_taken (highest rl_version (map_to_list (ro_rels w)).*2 + 1) w = false.
Proof.
  unfold version_taken. apply not_true_is_false. intros (r & Hr%list_elem_of_In & Hv)%existsb_exists. pose proof (highest_above rl_version _ r Hr). lia.
Qed.
(** The next version is free when the row is created. *)
Definition new_row (id : N) (kind : runtime_kind) (image x : string) (act : bool) (new : N) (w : rollout) : Prop :=
  exists r, ro_rels w !! new = Some r /\ rl_deployment r = id /\ rl_active r = act /\ rl_container r = x.
Lemma f_create_next {B} (U : list workload -> Prop) (F : B -> rollout -> Prop) id kind image x act d (k : Z -> deployment -> option N -> R B) :
  (forall v d' new, ends_from (fun w => new_row id kind image x act new w /\ U (ro_up w)) F (k v d' (Some new))) ->
  ends_from (fun w => U (ro_up w)) F (v <~ next_version o alone; d' <~ release_image_tag o alone d image;
               new <~ create_release o alone (Release id v kind image x act false (dp_image_tag d')); k v d' new).
Proof.
  intros Hk w Hw HU. assert (E : w = put_life (ro_trace w) None w) by (destruct w; cbn in *; by subst).
  assert (H : reaches w (v <~ next_version o alone; d' <~ release_image_tag o alone d image;
               new <~ create_release o alone (Release id v kind image x act false (dp_image_tag d')); done (v, d', new))
    (fun r w' => exists n, r.2 = Some n /\ new_row id kind image x act n w' /\ U (ro_up w'))).
  { eapply (r_bind _ _ _ (fun v w' => v = highest rl_version (map_to_list (ro_rels w)).*2 + 1 /\ w' = w)).
    { eapply r_bind; [by apply (r_find o Ho)|]. intros v w1 [-> ->]. by apply r_done. }
    intros v w1 [-> ->]. apply (r_bind _ _ _ (fun _ w' => w' = w)).
    { unfold release_image_tag. destruct (_ && _); [|by apply r_done]. eapply r_bind; [by apply (r_find o Ho)|]. intros t w1 [_ ->]. by apply r_done. }
    intros d' w1 ->. set (rel := Release _ _ _ _ _ _ _ _).
    eapply r_bind; [apply (r_create o Ho w (put_rels (<[ro_next w := rel]> (ro_rels w)) w))|].
    - intros t. change (version_taken (rl_version rel) (put_life t None w)) with (version_taken (highest rl_version (map_to_list (ro_rels w)).*2 + 1) w).
      by rewrite version_free.
    - intros n w2 [-> ->]. apply r_done. exists (ro_next w). split; [done|]. split; [|done]. exists rel. split; [|done]. cbn. apply lookup_insert_eq. }
  destruct (H (ro_trace w)) as (t & [[v d'] new] & w' & E' & n & Hn & Hrow & HU'). rewrite <- E in E'. cbn in Hn. subst new.
  destruct (Hk v d' n (put_life t None w') eq_refl) as (w2 & b & E2 & HF & Hl); [by split|]. exists w2, b. split_and!; [|done|done].
  unfold andthen, done in *. destruct (next_version o alone w) as [w3 [v3|]]; [|done]. destruct (release_image_tag _ _ _ _ w3) as [w4 [d4|]]; [|done].
  destruct (create_release _ _ _ w4) as [w5 [n5|]]; [|done]. by simplify_eq.
Qed.
Definition released (id : N) (out : outcome) (w : rollout) : Prop := match out with Released new => told c id new w | _ => False end.
Definition live_canary (id : N) (out : outcome) (w : rollout) : Prop := match out with CanaryLive new => canary_told c id new w | _ => False end.

(** What is told stays told while what was replaced is retired. *)
Definition stays (P : rollout -> Prop) {A} (m : R A) : Prop := ends_from P (fun _ => P) m.
Definition lifeless (P : rollout -> Prop) : Prop := forall w t l, P w -> P (put_life t l w).
Section Stays.
Context (P : rollout -> Prop) (HP : lifeless P).
Lemma s_then {A B} (m : R A) (k : A -> R B) : stays P m -> (forall a, stays P (k a)) -> stays P (andthen m k).
Proof. intros Hm Hk. by eapply f_then. Qed.
Lemma s_done {A} (a : A) : stays P (done a).
Proof. by apply f_done. Qed.
Lemma s_when b (m : R unit) : stays P m -> stays P (when b m).
Proof. destruct b; [done|]. intros _. apply s_done. Qed.
Lemma s_ask q : stays P (ask o alone q).
Proof. intros w Hw Hp. destruct (f_asked o Ho P q HP w Hw Hp) as (w' & a & E & [_ H] & Hl). by exists w', a. Qed.
Lemma s_find {A} (g : rollout -> option A) : stays P (find o alone g).
Proof. apply s_then; [apply s_ask|]. intros a w Hw Hp. by eexists _, _. Qed.
Lemma s_write f : (forall w, ro_left (f w) = ro_left w) -> (forall w, P w -> P (f w)) -> stays P (write o alone f).
Proof.
  intros Hf Hp w Hw H. destruct (f_write o Ho P P f Hf (fun w t l H => Hp _ (HP w t l H)) w Hw H) as (w' & a & E & [_ H'] & Hl). by exists w', a.
Qed.
Lemma s_without x q : (forall y w, P w -> P (without_workload y w)) -> stays P (ask o alone q ;~ change (without_workload x)).
Proof. intros H. apply s_then; [apply s_ask|]. intros _. apply f_change; [done|]. by intros w; apply H. Qed.
Lemma s_registry {A} (x : A) f : stays P (registry_says o alone h x f).
Proof.
  unfold registry_says. destruct (dl_registry h); [|apply s_done]. apply s_then; [intros w Hw Hp; by exists w, w|]. intros w.
  apply s_then; [apply s_ask|]. intros _. apply s_done.
Qed.
Lemma s_tag d v : stays P (tag_release_image o alone h d v).
Proof.
  unfold tag_release_image. apply s_then.
  { destruct (_ || _); [apply s_done|]. apply s_registry. }
  intros []; [|apply s_done]. cbn [negb]. destruct (cut _ _) as [[? ?] ?]. apply s_when, s_then; [by apply s_ask|].
  intros _. apply s_done.
Qed.
End Stays.
Section Retired.
Context (id new : N).
#[local] Abbreviation T := (told c id new).
Lemma told_lifeless : lifeless T.
Proof. by intros w t l []. Qed.
Lemma told_without y w : T w -> T (without_workload y w).
Proof. by intros []. Qed.
Lemma s_retire r : stays T (retire_release o alone r).
Proof.
  pose proof (s_without T told_lifeless (InContainer (rl_container r))). pose proof told_without. pose proof (s_without T told_lifeless InService).
  unfold retire_release, service_remove, stop_container, remove_container. case_bool_decide; [by auto|]. apply s_then; auto.
Qed.
Lemma s_remove_canary r : stays T (remove_canary_container o alone r).
Proof.
  unfold remove_canary_container, stop_container, remove_container. pose proof told_without.
  apply s_when, s_then; intros; by apply s_without; [apply told_lifeless|].
Qed.
Lemma s_finalize k : stays T (finalize_canary o alone k DeploymentSucceeded).
Proof.
  unfold finalize_canary. destruct (k =? 0)%N; [apply s_done|]. apply s_then; [apply s_find, told_lifeless|].
  intros [d|]; [|apply s_done]. destruct (is_terminal _); [apply s_done|]. apply s_then; [intros w Hw Hp; by eexists _, _|].
  intros t. apply s_then; [|intros _; apply s_done]. apply s_write; [apply told_lifeless|done|]. intros w [H0 H1 H2 (d' & Hd & Hs) H4]. split; [done|done|done| |done].
  destruct (decide (k = id)) as [->|Hne].
  - eexists. cbn. rewrite lookup_insert_eq. split; [done|]. done.
  - exists d'. cbn. by rewrite lookup_insert_ne.
Qed.
Lemma s_retire_canary x : stays T (retire_canary_release o alone x).
Proof.
  unfold retire_canary_release. apply s_then; [apply s_remove_canary|]. intros _. apply s_then; [apply s_finalize|]. intros _.
  apply s_then; [|intros _; apply s_done]. apply s_write; [apply told_lifeless|done|]. intros w [H]. split; [|done..].
  intros i q Hq. cbn in Hq. apply lookup_delete_Some in Hq as [_ Hq]. by apply (H i q).
Qed.
Lemma f_in_force d v image (m : R unit) : stays T m -> ends_in (released id) (put_in_force o alone h c id d new v image m).
Proof.
  intros Hm. unfold put_in_force. 
  apply (f_start (fun b w => b = true /\ only new w)).
  { intros w Hw. apply (f_write o Ho (fun _ => True) (only new)); [done| |done|done]. intros u t l _ i q. cbn. rewrite lookup_alter_Some.
    intros [[-> _]|[_ Hq]]; [done|]. rewrite lookup_fmap, fmap_Some in Hq. by destruct Hq as (q0 & _ & ->). }
  intros b0. apply f_taken. intros _. apply (f_then _ (fun _ w => only new w /\ exists d, ro_deps w !! id = Some d /\ dp_status d = DeploymentSucceeded)).
  { intros w Hw Hon. unfold succeed, update_deployment, write, now, look, andthen, ask, done. rewrite Hw, (ob_ok _ Ho). cbn [when]. eexists _, tt. split; [done|].
    split; [|done]. split; [exact Hon|]. eexists. cbn. rewrite lookup_insert_eq. by split. }
  set (M := fun w => only new w /\ as_current (ro_app w) = Some new /\ as_status (ro_app w) = LiveRunning /\ exists d, ro_deps w !! id = Some d /\ dp_status d = DeploymentSucceeded).
  intros _. apply (f_then _ (fun _ => M)).
  { unfold make_current. apply (f_then _ (fun b w => b = true /\ M w)); [|by intros b; apply f_done; intros w [_ H]].
    destruct (_ && _); [destruct (split_image_ref _)|]; apply f_write; try done; by intros w t l []. }
  intros _. apply (f_then _ (fun _ => T)).
  { apply f_sync; [done|done|]. intros w (H0 & H1 & H2 & H3). rewrite H1, bool_decide_eq_true_2; [|by eexists]. by split. }
  intros _. apply (f_then _ (fun _ => T)); [done|]. intros _. apply (f_then _ (fun _ => T)); [apply s_tag, told_lifeless|]. intros _. by apply f_done.
Qed.
End Retired.
Lemma f_swap id d image x : ends_in (released id) (swap_and_release o alone h c id d image x).
Proof.
  unfold swap_and_release. apply e_step; [finish|]. intros prev. apply e_step; [finish|]. intros canary w Hw.
  apply (f_create_next (fun _ => True)); [|done|done]. intros v d' new. apply f_forget, f_in_force.
  apply s_then; [destruct canary; [apply s_retire_canary|apply s_done]|]. intros _. destruct prev as [[]|]; [|apply s_done]. apply s_when, s_retire.
Qed.
Lemma f_release_service id d image x : ends_in (released id) (release_service o alone h c id d image x).
Proof.
  unfold release_service. apply e_step; [finish|]. intros prev w Hw. apply (f_create_next (fun _ => True)); [|done|done].
  intros v d' new. apply f_forget, f_in_force. destruct prev as [[]|]; [|apply s_done]. apply s_when, s_retire.
Qed.
(** The container of a canary runs on while it is released. *)
Definition runs (x : string) (w : rollout) : Prop := InContainer x ∈ ro_up w.
Lemma runs_solid x : solid alone (fun _ => True) (runs x).
Proof. split; [done| |done]. intros w w' (_ & _ & E & _). unfold runs. by rewrite E. Qed.
#[local] Hint Resolve runs_solid : rollout.
Lemma k_remove_other x r : rl_container r <> x -> keeps (fun _ => True) (runs x) (remove_canary_container o alone r).
Proof.
  intros Hne. assert (H : keeps (fun _ => True) (runs x) (change (without_workload (InContainer (rl_container r))))).
  { apply k_change. intros w Hu. unfold runs, without_workload in *. cbn. apply list_elem_of_In, filter_In. split; [by apply list_elem_of_In|].
    rewrite bool_decide_eq_false_2; [done|]. congruence. }
  unfold remove_canary_container, stop_container, remove_container. keep.
Qed.
Lemma k_delete_row x k : keeps (fun _ => True) (runs x) (delete_release o alone k).
Proof. apply k_write; [eauto with rollout|done]. Qed.
#[local] Hint Resolve k_delete_row : rollout.
Lemma f_release_canary id d image x : ends_from (runs x) (live_canary id) (release_canary o alone h c id d image x).
Proof.
  unfold release_canary.
  eapply f_then; [apply (f_kept _ any); [finish|keep]|]. intros a. apply f_taken. intros _.
  apply (f_then _ (fun _ => runs x)).
  { apply (f_post _ (fun u w => any u /\ runs x w)); [|by intros u w []]. apply (f_kept _ any); [pose proof e_finalize; pose proof e_remove_canary; finish|]. destruct (a ≫= as_canary) as [old|]; [|keep]. apply k_then; [keep|]. intros [r|]; [|keep].
    destruct (String.eqb_spec (rl_container r) x) as [E|Hne]; cbn [negb when]; [keep|]. pose proof (k_remove_other x r Hne). keep. }
  intros _. apply (f_create_next (fun u => InContainer x ∈ u)). intros v d' new.
  set (C0 := fun w => new_row id KindContainer image x false new w /\ runs x w).
  apply (f_then _ (fun _ => C0)); [exact (s_tag C0 (fun w t l H => H) d' v)|]. intros _. cbv zeta.
  set (weight := canary_initial_weight (cf_canary c)).
  set (C1 := fun w => (exists r, ro_rels w !! new = Some r /\ rl_deployment r = id /\ rl_active r = false /\ InContainer (rl_container r) ∈ ro_up w) /\
    as_canary (ro_app w) = Some new /\ as_weight (ro_app w) = weight).
  set (C2 := fun w => C1 w /\ as_paused (ro_app w) = None). set (C3 := fun w => C2 w /\ as_status (ro_app w) = LiveRunning).
  set (C4 := fun w => C3 w /\ exists d, ro_deps w !! id = Some d /\ dp_status d = DeploymentCanary).
  set (C5 := fun w => C4 w /\ ro_routed w = if bool_decide (is_Some (as_current (ro_app w))) then Some (view_of c (ro_app w)) else None).
  eapply f_then; [apply (f_write o Ho _ C1); [done|]|].
  { intros w t l [(r & Hr & Hd & Ha & <-) Hu]. split; [|done]. by exists r. }
  intros b1. apply f_taken. intros _. eapply f_then; [by apply (f_write o Ho _ C2)|]. intros b2. apply f_taken. intros _.
  eapply f_then; [apply (f_write o Ho _ C3); [done|by intros w t l []]|]. intros b3. apply f_taken. intros _.
  eapply f_then; [apply (f_write o Ho _ C4); [done|]|].
  { intros w t l H. split; [exact H|]. eexists. cbn. rewrite lookup_insert_eq. by split. }
  intros b4. apply f_taken. intros _. apply (f_then _ (fun _ => C5)); [apply f_sync; [done|done|]; by intros w H|]. intros _.
  apply (f_then _ (fun _ => canary_told c id new)); [|by intros _; apply f_done].
  destruct (Z.ltb_spec weight 100) as [Hlt|Hge]; cbn [when].
  - apply (f_then _ (fun _ => canary_told c id new)); [|by intros _; apply f_done]. apply (f_enqueue o Ho C5); [done|].
    intros w [[[[(Hr & H1 & H2) H3] H4] H5] H6]. split; try done. intros _. cbn. set_solver.
  - apply f_done. intros w [[[[(Hr & H1 & H2) H3] H4] H5] H6]. split; try done. unfold weight in *. lia.
Qed.

(** ** The image *)

Lemma e_pull ref auth : ends_with (fun b => b = true) (pull_image o alone ref auth).
Proof. unfold pull_image. eapply e_then; [by apply e_asked|]. intros a [Ha _]. by apply e_done. Qed.
Lemma e_present ref : ends_with any (image_present o alone ref).
Proof. unfold image_present. finish. Qed.
Lemma e_credential d : ends_with is_Some (resolve_registry_auth o alone c d).
Proof.
  unfold resolve_registry_auth. destruct (match dp_registry d with Some r => Some r | None => cf_registry c end) as [reg|]; [|by apply e_done].
  eapply e_then; [by apply e_asked|]. intros a [Ha _]. apply e_done. by rewrite Ha.
Qed.
Context (a : app_state) (d0 : deployment) (Hdy : deployable o h c a d0).
Lemma e_build id : cf_git c = true -> ends_with (fun r => exists built, r = inr built) (build_on_runner o alone h c id).
Proof.
  intros Hg. destruct (dy_build _ _ _ _ _ Hdy Hg) as (Hd & g & Eg & Hr). unfold build_on_runner.
  eapply (e_then (fun r => r = Some "")); [apply e_registry; [congruence|]|].
  { intros g' n Eg'. assert (g' = g) as -> by congruence. by rewrite (proj1 (Hr n)). }
  intros _ ->. cbn [negb String.eqb]. rewrite Hd. cbn [negb]. eapply (e_then (fun r => r <> "")); [apply e_registry; [congruence|]|].
  { intros g' n Eg'. assert (g' = g) as -> by congruence. apply (Hr n). }
  intros r Hne. destruct (String.eqb_spec r "") as [E|_]; [done|].
  eapply e_then; [by apply e_asked|]. intros s [Hs _]. rewrite Hs. cbn [negb]. eapply e_then; [by apply e_asked|]. intros b [Hb _].
  apply e_done. rewrite Hb. eauto.
Qed.
Definition same_strategy (d : deployment) (r : ending + deployment * string * bool) : Prop :=
  match r with inr (d', _, _) => dp_strategy d' = dp_strategy d | inl _ => False end.
Lemma e_run_image id d : ends_with (same_strategy d) (run_image o alone h c id a d).
Proof.
  unfold run_image. apply e_seq; [pose proof e_present; finish|]. intros prebuilt. apply e_seq; [pose proof e_is_build; finish|]. intros distributed.
  destruct prebuilt; [by apply e_done|]. destruct distributed.
  { apply e_seq; [apply e_present|]. intros []; [by apply e_done|]. apply e_seq; [apply e_registry_auth|]. intros auth.
    eapply e_then; [apply e_pull|]. intros ok ->. by apply e_done. }
  destruct (cf_git c) eqn:Eg.
  { eapply e_then; [by apply e_build|]. intros b [built ->]. apply e_seq; [finish|]. intros _. apply e_seq; [apply e_present|].
    intros []; [by apply e_done|]. apply e_seq; [apply e_registry_auth|]. intros auth. eapply e_then; [apply e_pull|]. intros ok ->. by apply e_done. }
  eapply (e_then (fun r => exists i, r = Ok i)); [destruct (String.eqb _ _); [apply e_authorized, (dy_fallback _ _ _ _ _ Hdy)|apply e_done; eauto]|].
  intros _ [i ->]. eapply e_then; [apply e_credential|]. intros auth [auth' ->]. apply e_seq; [apply e_present|]. intros here.
  apply e_seq; [apply e_is_build|]. intros internal.
  destruct (_ && (_ || _)); [by apply e_done|].
  destruct (String.eqb_spec (cf_pull c) pull_never) as [E|_]; [by destruct (dy_pull _ _ _ _ _ Hdy)|].
  eapply e_then; [apply e_pull|]. intros ok ->. by apply e_done.
Qed.

(** ** Is it well? *)

Lemma gate_timeout_bounds k : 15 * second <= health_gate_timeout k.
Proof.
  unfold health_gate_timeout, hc_interval, hc_retries. destruct (gates_deploy k); cbn [negb]; [|unfold second; lia].
  assert (forall v lo hi, lo <= hi -> lo <= clamp_int v lo hi) as Hc by (intros v lo hi; unfold clamp_int; destruct (v <? lo) eqn:?, (hi <? v) eqn:?; lia).
  pose proof (Hc (hk_start k) 0 600 ltac:(lia)). pose proof (Hc (hk_interval k) 1 3600 ltac:(lia)). pose proof (Hc (hk_retries k) 1 20 ltac:(lia)).
  destruct (_ <? _); unfold second in *; nia.
Qed.
Lemma e_health_gate x : ends_with (fun r => r = None) (health_gate o alone c x).
Proof.
  intros w Hw. unfold health_gate. pose proof (gate_timeout_bounds (cf_health c)) as Hb. set (timeout := health_gate_timeout (cf_health c)) in *.
  assert (Hn : exists n, Z.to_nat (timeout / second) = S n).
  { exists (pred (Z.to_nat (timeout / second))). assert (15 <= timeout / second) by (apply Z.div_le_lower_bound; unfold second in *; lia). lia. }
  destruct Hn as [n ->]. unfold andthen at 1, now at 1, andthen at 1, look at 1, done at 1. cbn [health_rounds].
  unfold andthen at 1, now at 1, andthen at 1, look at 1, done at 1.
  destruct (Z.leb_spec (ou_clock o (length (ro_trace w)) + timeout) (ou_clock o (length (ro_trace w)))); [unfold second in *; lia|].
  destruct (e_asked o Ho (QInspect x) w Hw) as (w' & r & E & (Hok & Ht & Hm) & Hl). unfold andthen at 1. rewrite E, Hok, Ht, Hm. cbn.
  rewrite orb_true_r. by exists w', None.
Qed.
Lemma converges_at_once fuel w deadline x desired : ro_left w = None -> ou_clock o (length (ro_trace w)) < deadline -> desired <= Z.max 1 (cf_replicas c) ->
  exists w', converge_rounds o alone (S fuel) deadline x desired w = (w', Some true) /\ ro_left w' = None.
Proof.
  intros Hw Hc Hd. cbn [converge_rounds]. unfold andthen at 1, now at 1, andthen at 1, look at 1, done at 1.
  destruct (Z.leb_spec deadline (ou_clock o (length (ro_trace w)))); [lia|].
  unfold andthen at 1, ask. rewrite Hw, (ob_ok _ Ho). pose proof (dy_tasks _ _ _ _ _ Hdy (length (ro_trace w)) x) as [H1 H2]. cbn [andb].
  destruct (Z.leb_spec desired (rn_count (ou_ext o (length (ro_trace w)) (QServiceInspect x)))); [|lia]. by eexists.
Qed.
Lemma e_converge x desired : 0 < desired <= Z.max 1 (cf_replicas c) -> ends_with (fun b => b = true) (service_converge o alone x desired).
Proof.
  intros Hd w Hw. unfold service_converge. unfold andthen at 1, now at 1, andthen at 1, look at 1, done at 1. change 90%nat with (S 89).
  destruct (Z.eqb_spec desired 0); [lia|].
  destruct (converges_at_once 89 w (ou_clock o (length (ro_trace w)) + 180 * second) x desired Hw) as (w' & E & Hl); [unfold second; lia|lia|].
  unfold andthen at 1. rewrite E. cbn [when]. eexists _, true. split; [done|]. by split.
Qed.

(** ** The whole task *)

(** A step that does not end the deployment *)
Definition goes_on {A} (G : A -> Prop) (r : ending + A) : Prop := match r with inr x => G x | inl _ => False end.
Lemma e_attempted {A B} (G : A -> Prop) (F : ending + B -> Prop) (m : R (ending + A)) k :
  ends_with (goes_on G) m -> (forall x, G x -> ends_with F (k x)) -> ends_with F (attempt m k).
Proof. intros Hm Hk. unfold attempt. eapply e_then; [exact Hm|]. intros [e|x] Hx; [done|by apply Hk]. Qed.
Lemma e_need id d q why : ends_with (goes_on (well q)) (need o alone id d q why).
Proof. unfold need. eapply e_then; [by apply e_asked|]. intros x Hx. pose proof (proj1 Hx) as ->. by apply e_done. Qed.
Lemma e_unless b (m : R (ending + unit)) : (b = false -> ends_with (goes_on any) m) -> ends_with (goes_on any) (unless b m).
Proof. destruct b; cbn; [intros _; by apply e_done|auto]. Qed.
Lemma e_need_unit id d q why : ends_with (goes_on any) (attempt (need o alone id d q why) (fun _ => done (inr tt))).
Proof. eapply e_attempted; [apply e_need|]. intros x _. by apply e_done. Qed.
#[local] Hint Resolve e_need_unit : ends.
Lemma e_service_spec id d image built : ends_with (goes_on any) (service_spec o alone h c id d image built).
Proof.
  unfold service_spec. eapply e_attempted; [apply e_need|]. intros _ _. apply e_seq; [finish|]. intros routed.
  eapply e_attempted; [apply e_unless; auto with ends|]. intros _ _. eapply e_attempted; [apply e_need|]. intros env _.
  eapply e_attempted; [apply e_need|]. intros _ _. apply e_seq; [apply e_is_build|]. intros internal.
  apply e_seq; [destruct internal; (apply e_seq; [first [apply e_registry_auth|eapply e_any, e_credential]|]); finish|]. intros _.
  eapply e_attempted; [apply e_need|]. intros _ _. by apply e_done.
Qed.
Definition is_canary (d : deployment) : Prop := dp_strategy d = deploy_canary.
Lemma effective_canary s n : effective_strategy s n = deploy_canary <-> s = deploy_canary.
Proof.
  unfold effective_strategy. destruct (String.eqb_spec s deploy_rolling) as [->|_]; cbn; [|done]. by destruct n.
Qed.
Lemma e_container_spec id d image built : ends_with (goes_on (fun r => is_canary r.1 <-> is_canary d)) (container_spec o alone h c id d image built).
Proof.
  unfold container_spec. eapply e_attempted; [apply e_need|]. intros context _.
  apply e_seq; [unfold published_ports; finish|]. intros ports. apply e_seq; [finish|]. intros _. apply e_seq; [pose proof e_retire; finish|]. intros _.
  eapply e_attempted; [apply e_need|]. intros security _. eapply e_attempted; [apply e_unless; auto with ends|]. intros _ _.
  eapply (e_attempted any).
  { unfold container_devices. destruct (Z.ltb_spec 0 (cf_gpus c)); [pose proof (dy_gpus _ _ _ _ _ Hdy); lia|]. by apply e_done. }
  intros _ _. apply e_seq; [finish|]. intros _. apply e_done. cbn. apply effective_canary.
Qed.
Lemma e_run_container spec : ends_with (fun r => r.1 = true) (run_container o alone spec).
Proof.
  unfold run_container. eapply e_then; [by apply e_asked|]. intros x [Hx _]. apply e_seq; [finish|]. intros w. rewrite Hx.
  apply e_seq; [by apply e_change|]. intros _. by apply e_done.
Qed.
(** How it ends: a canary live, anything else released *)
Definition well_ended (id : N) (canary : Prop) (out : outcome) (w : rollout) : Prop :=
  (canary -> live_canary id out w) /\ (~ canary -> released id out w).
Definition goes_well (F : outcome -> rollout -> Prop) (r : ending + outcome) (w : rollout) : Prop := match r with inr out => F out w | inl _ => False end.
Lemma f_attempted {A B} (G : A -> Prop) (F : ending + B -> rollout -> Prop) (m : R (ending + A)) k :
  ends_with (goes_on G) m -> (forall x, G x -> ends_in F (k x)) -> ends_in F (attempt m k).
Proof. intros Hm Hk. unfold attempt. eapply e_into; [exact Hm|]. intros [e|x] Hx; [done|by apply Hk]. Qed.
Lemma f_run_container spec : ends_in (fun r w => r.1 = true /\ InContainer r.2 ∈ ro_up w) (run_container o alone spec).
Proof.
  unfold run_container. eapply e_into; [by apply e_asked|]. intros x [Hx _] w Hw. unfold andthen, look, change, done. rewrite Hx.
  eexists _, _. split; [done|]. split; [|done]. split; [done|]. cbn. by left.
Qed.
Lemma f_deploy_container id d image built : ends_in (goes_well (well_ended id (is_canary d))) (deploy_container o alone h c id d image built).
Proof.
  unfold deploy_container. apply e_step; [finish|]. intros _. eapply f_attempted; [apply e_container_spec|]. intros [d' spec] Hd.
  eapply f_start; [apply f_run_container|]. intros [started x]. apply f_taken. cbn [fst snd]. intros ->. cbn [unless].
  change (ends_from (runs x) (goes_well (well_ended id (is_canary d)))
    (update_deployment o alone id (set_dep_container x d') ;~ well <~ health_gate o alone c x;
     match well with
     | Some why => remove_container o alone x ;~ stop o alone id (set_dep_container x d') why
     | None => out <~ (if String.eqb (dp_strategy (set_dep_container x d')) deploy_canary then release_canary o alone h c id (set_dep_container x d') image x
                       else swap_and_release o alone h c id (set_dep_container x d') image x); done (inr out)
     end)).
  eapply f_then; [apply (f_kept _ any); [finish|pose proof (runs_solid x); keep]|]. intros b. apply f_taken. intros _.
  eapply f_then; [apply (f_kept _ (fun r => r = None)); [apply e_health_gate|pose proof (runs_solid x); keep]|]. intros w. apply f_taken. intros ->.
  destruct (String.eqb_spec (dp_strategy (set_dep_container x d')) deploy_canary) as [E|E]; cbn in Hd, E.
  - eapply f_last; [by apply f_release_canary|]. intros out w Hout. split; [done|]. intros Hn. destruct Hn. by apply Hd.
  - eapply f_last; [by apply f_forget, f_swap|]. intros out w Hout. split; [|done]. intros Hc. destruct E. by apply Hd.
Qed.
Lemma e_put_service spec : ends_with (fun b => b = true) (put_service o alone spec).
Proof.
  unfold put_service. eapply e_then; [by apply e_asked|]. intros x [Hx _]. rewrite Hx. apply e_seq; [by apply e_change|intros _; by apply e_done].
Qed.
Lemma f_deploy_service id d image built : (forall n, rn_flag (ou_ext o n QSwarm) = true) ->
  ends_in (goes_well (released id)) (deploy_service o alone h c id d image built).
Proof.
  intros Hsw. unfold deploy_service. eapply (e_into (fun s => rn_ok s && rn_flag s = true)).
  { intros w Hw. unfold ask. rewrite Hw. eexists _, _. split; [done|]. by rewrite (ob_ok _ Ho), Hsw. }
  intros s ->. cbn [unless]. apply (f_attempted any); [by apply e_done|]. intros _ _. apply e_step; [finish|]. intros _.
  eapply f_attempted; [apply e_service_spec|]. intros spec _. apply e_step; [pose proof e_retire; finish|]. intros _. apply e_step; [finish|]. intros _.
  eapply e_into; [apply e_put_service|]. intros b ->. cbn [unless]. apply (f_attempted any); [by apply e_done|]. intros _ _.
  eapply e_into; [apply e_converge|].
  { destruct (Z.ltb_spec 0 (cf_replicas c)); lia. }
  intros b ->. cbn [unless]. apply (f_attempted any); [by apply e_done|]. intros _ _. apply e_step; [finish|]. intros st.
  eapply e_last; [by apply f_release_service|]. by intros out w Hout.
Qed.
End Task.

Section Whole.
Context (o : outside) (Ho : obliging o) (Hswarm : forall n, rn_flag (ou_ext o n QSwarm) = true) (h : deployer) (c : app_conf).
#[local] Abbreviation alone := (fun (_ : nat) (w : rollout) => w).
Lemma f_run_deployment id a d : deployable o h c a d ->
  ends_in (well_ended c id (is_canary d /\ as_kind a <> KindService)) (run_deployment o alone h c id a d).
Proof.
  intros Hdy. unfold run_deployment. set (W := well_ended c id (is_canary d /\ as_kind a <> KindService)).
  apply (e_last (goes_well W)); [|by intros [e|out] w Hout].
  apply e_step; [finish|]. intros t. apply e_step; [finish|]. intros _. apply e_step; [finish|]. intros _.
  eapply f_attempted; [by apply e_need|]. intros _ _. cbn [dp_image set_dep_started].
  eapply e_into; [by apply e_authorized, (dy_image _ _ _ _ _ Hdy)|]. intros _ [ref ->]. apply e_step; [finish|]. intros _.
  eapply (f_attempted (fun r => dp_strategy r.1.1 = dp_strategy d)).
  { eapply e_post; [by eapply e_run_image|]. by intros [e|[[d' image] built]]. }
  intros [[d' image] built] Hd. cbn in Hd. apply (f_attempted any).
  { apply e_unless. intros E. destruct (Z.ltb_spec 0 (cf_gpus c)); [pose proof (dy_gpus _ _ _ _ _ Hdy); lia|done]. }
  intros _ _. case_bool_decide as Hk.
  - intros w Hw. destruct (f_deploy_service o Ho h c a d Hdy id d' image built Hswarm w Hw) as (w' & r & E & Hout & Hl). exists w', r.
    split_and!; [done| |done]. destruct r as [e|out]; [done|]. split; [by intros [_ ?]|done].
  - intros w Hw. destruct (f_deploy_container o Ho h c a d Hdy id d' image built w Hw) as (w' & r & E & Hout & Hl). exists w', r.
    split_and!; [done| |done]. destruct r as [e|out]; [done|]. destruct Hout as [Hc Hr]. unfold is_canary in *. rewrite Hd in *.
    split; [by intros []; apply Hc|]. intros Hn. apply Hr. intros Hcan. by apply Hn.
Qed.
End Whole.

(** A release a task makes serves, whatever the task takes down on the way. *)
Lemma released_serves o h c service_id id w w' new : lawful_ids o service_id c -> well_formed (ou_fresh o) service_id w ->
  process_task o (fun _ w => w) h c id w = (w', Some (Released new)) -> exists r, serves w' new r /\ rl_deployment r = id.
Proof.
  intros Hi Hwf E. unfold process_task, andthen in E.
  assert (Hc : forall (n : nat) w, well_formed (ou_fresh o) service_id w -> calm w w) by (intros; apply calm_refl).
  assert (Hw : holding (ou_fresh o) service_id False (fun _ => True) w) by (split; [by split|done]).
  pose proof (k_find_deployment o (fun _ w => w) _ _ (holding_solid _ _ False (fun _ w => w) (fun _ => True) Hc (sturdy_true _ _)) id w Hw) as H.
  destruct (find_deployment o _ id w) as [w1 [[d|]|]]; [|done|done].
  assert (Himm : false = false -> immune False (fun _ => True)) by (intros _; split; [tauto|done]).
  pose proof (h_start_task o (fun _ w => w) h c service_id False Hi Hc false (fun _ => True) (kept_any _ _) Himm id d w1 (deploy_alias_named _ _) ltac:(done) H) as Hs.
  rewrite E in Hs. destruct Hs as [_ Hr]; [by intros ? ? _ [? _]|]. done.
Qed.

(** C29 [well_answered_task_releases]: When the worker lives, every call goes well, nothing else
    acts, the releases' rows are well formed, the engine's ids are new and differ from services',
    and the deployment may run (it is not over; its image is the workspace's own, or on another
    registry, whenever the registry is asked, or is built and distribution is available; its image
    may be pulled; no GPU is asked for; Swarm is there and as many tasks run as are wanted for a
    service), the task ends. If it is a canary of an application run as a container, it ends with
    the canary live: its release's row is there and not in force, its container runs, the
    application points to it with the first weight, unpaused and running, the deployment is in
    canary, the proxy was told, and the next step is in the queue when the weight is below 100.
    Otherwise it ends with the deployment's release in force, alone, and what it runs in running,
    the application pointing to it and running, the deployment succeeded, and the proxy told. *)
Theorem well_answered_task_releases o h c service_id id d w : obliging o -> (forall n, rn_flag (ou_ext o n QSwarm) = true) ->
  lawful_ids o service_id c -> well_formed (ou_fresh o) service_id w ->
  ro_left w = None -> ro_deps w !! id = Some d -> is_terminal (dp_status d) = false -> deployable o h c (ro_app w) d ->
  exists w' out, process_task o (fun _ w => w) h c id w = (w', Some out) /\
    match out with
    | Released new => ~ (is_canary d /\ as_kind (ro_app w) <> KindService) /\ (exists r, serves w' new r /\ rl_deployment r = id) /\ told c id new w'
    | CanaryLive new => (is_canary d /\ as_kind (ro_app w) <> KindService) /\ canary_told c id new w'
    | Ended _ => False
    end.
Proof.
  intros Ho Hswarm Hi Hwf Hl Hd Ht Hdy. assert (E : w = put_life (ro_trace w) None w) by (destruct w; cbn in *; by subst).
  set (canary := is_canary d /\ as_kind (ro_app w) <> KindService).
  assert (H : reaches w (process_task o (fun _ w => w) h c id) (well_ended c id canary)).
  { unfold process_task. eapply r_bind; [by apply (r_find o Ho)|]. intros d' w1 [-> ->]. rewrite Hd. unfold start_task. rewrite Ht.
    eapply r_bind; [by apply (r_find o Ho)|]. intros a w1 [-> ->]. eapply r_bind; [by apply (r_ask o Ho)|]. intros s w1 [-> [Hs _]]. rewrite Hs. cbn [negb].
    eapply r_bind; [by apply (r_ask o Ho)|]. intros l w1 (-> & Hok & Hlock). rewrite Hok, Hlock. cbn [andb negb].
    intros t. destruct (f_run_deployment o Ho Hswarm h c id (ro_app w) d Hdy (put_life t None w) eq_refl) as (w' & out & Eq & Hout & Hl').
    exists (ro_trace w'), out, w'. rewrite Eq. split; [|done]. f_equal. destruct w'; cbn in *; by subst. }
  destruct (H (ro_trace w)) as (t' & out & w' & Eq & [Hcan Hrel]). rewrite <- E in Eq. exists (put_life t' None w'), out. split; [done|].
  assert (Hdec : canary \/ ~ canary).
  { destruct (decide (dp_strategy d = deploy_canary)) as [Hc|Hc]; [|right; by intros []].
    destruct (decide (as_kind (ro_app w) = KindService)) as [Hk|Hk]; [right; by intros []|by left]. }
  destruct out as [new|new|e].
  - assert (Hn : ~ canary) by (intros Hc; by destruct (Hcan Hc)). split_and!; [done|by eapply released_serves|]. destruct (Hrel Hn). by split.
  - destruct Hdec as [Hc|Hn]; [|by destruct (Hrel Hn)]. split; [done|]. destruct (Hcan Hc). by split.
  - destruct Hdec as [Hc|Hn]; [by destruct (Hcan Hc)|by destruct (Hrel Hn)].
Qed.
Import Shop.
Lemma well_answered_task_releases_witness : exists w' new,
  process_task good_day (fun _ w => w) worker conf 2 (world "canary") = (w', Some (CanaryLive new)) /\ canary_told conf 2 new w'.
Proof.
  destruct (well_answered_task_releases good_day worker conf service_id 2 (wanted "canary") (world "canary")) as (w' & [new|new|e] & E & H);
    [apply shop_obliging|done|apply shop_ids|apply shop_well_formed|done|done|done| | | |].
  - split; [by intros g n|by intros g n|done|done|done|done].
  - destruct H as [[]]. by split.
  - exists w', new. split; [exact E|apply H].
  - destruct H.
Defined.
