(* ===== verification/DeployImages.v ===== *)
(** * Whose images a deployment runs

    Images of the built-in registry are pulled with a credential that opens every workspace's namespace, and images cached on
    a node may be another workspace's. Whatever the calls answer and whoever acts in between, as long as the registry's settings
    are read and name the same host, a deployment asks to pull and to run only its own workspace's images of that registry. *)
From S2P Require Import Prelude GoStrings ControlAct Registry DeployRules Rollout Deploy DeployRun RolloutLogic.
#[local] Open Scope Z_scope.
#[local] Open Scope list_scope.

(** ** References of a workspace *)

(** On the registry's host, only the workspace's namespace *)
Definition own_ref (host : string) (workspace : N) (ref : string) : Prop :=
  (split_internal_ref host ref).2 = true -> has_prefix (host +:+ "/" +:+ namespace workspace +:+ "/") ref = true.
Lemma prefix_app p s : has_prefix p (p +:+ s) = true.
Proof. unfold has_prefix. by rewrite cut_prefix_app. Qed.
Lemma resolved_own g ws ref ref' : resolve_image_ref g ws ref = Ok ref' -> own_ref (rg_host g) ws ref'.
Proof.
  unfold resolve_image_ref, own_ref. destruct (split_internal_ref (rg_host g) ref) as [[ns rest] internal] eqn:E.
  destruct internal; cbn [negb]; [|intros [= <-]; by rewrite E].
  destruct (String.eqb ns ""); [done|]. destruct (resolve_namespace g ns) as [[id name]|]; [|done].
  destruct (N.eqb_spec id ws) as [->|]; [|done]. intros [= <-] _.
  replace (rg_host g +:+ "/" +:+ namespace ws +:+ "/" +:+ rest) with ((rg_host g +:+ "/" +:+ namespace ws +:+ "/") +:+ rest); [apply prefix_app|].
  by rewrite !str_app_assoc.
Qed.
Lemma before_last_app sep p r : exists u v, before_last sep (p +:+ String sep r) = Some (p +:+ u) /\ u +:+ String sep "" = String sep v.
Proof.
  induction p as [|a p IH].
  - destruct (before_last sep r) as [t|] eqn:E.
    + exists (String sep t), (t +:+ String sep ""). by change ("" +:+ String sep r) with (String sep r); cbn [before_last]; rewrite E.
    + exists "", "". change ("" +:+ String sep r) with (String sep r). cbn [before_last]. by rewrite E, Ascii.eqb_refl.
  - destruct IH as (u & v & E & Hv). exists u, v. change (String a p +:+ String sep r) with (String a (p +:+ String sep r)). cbn [before_last].
    by rewrite E.
Qed.
Lemma through_last_prefix sep p r : has_prefix (p +:+ String sep "") (through_last sep (p +:+ String sep r)) = true.
Proof.
  unfold through_last. destruct (before_last_app sep p r) as (u & v & -> & Hv). rewrite <- str_app_assoc, Hv.
  replace (p +:+ String sep v) with ((p +:+ String sep "") +:+ v); [apply prefix_app|]. by rewrite <- str_app_assoc.
Qed.
Lemma prefix_grows p s t : has_prefix p s = true -> has_prefix p (s +:+ t) = true.
Proof.
  unfold has_prefix. destruct (cut_prefix p s) as [r|] eqn:E; [|done]. intros _. apply cut_prefix_some in E as ->.
  rewrite <- str_app_assoc. by rewrite cut_prefix_app.
Qed.
(** The repository of a build is the workspace's. *)
Lemma build_repository_own g ws app id : let repository := (split_image_ref (build_ref g ws app id)).1 in
  repository <> "" -> has_prefix (rg_host g +:+ "/" +:+ namespace ws +:+ "/") repository = true.
Proof.
  unfold build_ref. destruct (String.eqb (rg_host g) ""); [done|]. set (p := rg_host g +:+ "/" +:+ namespace ws).
  set (r := app +:+ ":" +:+ itoa (Z.of_N id)).
  assert (Eref : rg_host g +:+ "/" +:+ namespace ws +:+ "/" +:+ r = p +:+ String "/" r)
    by (unfold p; by rewrite <- !str_app_assoc).
  assert (Epre : rg_host g +:+ "/" +:+ namespace ws +:+ "/" = p +:+ String "/" "") by (unfold p; by rewrite <- !str_app_assoc).
  rewrite Eref, Epre. cbn zeta. unfold split_image_ref. destruct (String.eqb (p +:+ String "/" r) ""); [done|]. intros _.
  assert (Hall : has_prefix (p +:+ String "/" "") (p +:+ String "/" r) = true).
  { replace (p +:+ String "/" r) with ((p +:+ String "/" "") +:+ r); [apply prefix_app|]. by rewrite <- str_app_assoc. }
  destruct (contains "@" (p +:+ String "/" r)); [done|]. destruct (before_last ":" _) as [name|]; cbn [fst]; [|done].
  apply prefix_grows, through_last_prefix.
Qed.

(** ** What a computation asks *)

Section Asks.
Context (o : outside) (meanwhile : nat -> rollout -> rollout) (h : deployer) (c : app_conf).
(** The host the registry's settings name whenever they are read *)
Definition named_host (host : string) : Prop := forall g n, dl_registry h = Some g -> rg_host (g n) = host.
Context (host : string).
Definition own (ref : string) : Prop := match dl_registry h with Some _ => own_ref host (cf_workspace c) ref | None => True end.
(** To pull, to run and to roll out, only the workspace's own *)
Definition allowed (q : ro_call) : Prop :=
  match q with QPull ref _ => own ref | QRun s | QService s => own (rs_image s) | _ => True end.
Definition asks {A} (G : A -> Prop) (m : R A) : Prop :=
  forall w, Forall allowed (ro_trace w) -> Forall allowed (ro_trace (m w).1) /\ match (m w).2 with Some a => G a | None => True end.
Definition whatever {A} (_ : A) : Prop := True.
Lemma a_done {A} (G : A -> Prop) a : G a -> asks G (done a).
Proof. by intros H w Hw. Qed.
Lemma a_then {A B} (G : A -> Prop) (F : B -> Prop) (m : R A) k : asks G m -> (forall a, G a -> asks F (k a)) -> asks F (andthen m k).
Proof. intros Hm Hk w Hw. destruct (Hm w Hw) as [H1 H2]. unfold andthen. destruct (m w) as [w' [a|]]; [by apply Hk|done]. Qed.
Lemma a_seq {A B} (F : B -> Prop) (m : R A) k : asks whatever m -> (forall a, asks F (k a)) -> asks F (andthen m k).
Proof. intros Hm Hk. eapply a_then; [done|]. auto. Qed.
Lemma a_post {A} (F G : A -> Prop) m : asks F m -> (forall a, F a -> G a) -> asks G m.
Proof. intros H Hfg w Hw. destruct (H w Hw) as [H1 H2]. split; [done|]. destruct (m w).2; auto. Qed.
Lemma a_whatever {A} (a : A) : asks whatever (done a).
Proof. by apply a_done. Qed.
Lemma a_asked q : allowed q -> asks whatever (ask o meanwhile q).
Proof. intros Hq w Hw. unfold ask. destruct (ro_left w) as [[|n]|]; (split; [|done]); cbn; [done|by constructor|by constructor]. Qed.
Lemma a_look : asks whatever look.
Proof. by intros w Hw. Qed.
Lemma a_clock : asks whatever (now o).
Proof. by intros w Hw. Qed.
Lemma a_change f : (forall w, ro_trace (f w) = ro_trace w) -> asks whatever (change f).
Proof. intros Hf w Hw. cbn. by rewrite Hf. Qed.
Lemma a_when b (m : R unit) : asks whatever m -> asks whatever (when b m).
Proof. destruct b; [done|]. intros _. apply a_whatever. Qed.
Lemma a_write f : (forall w, ro_trace (f w) = ro_trace w) -> asks whatever (write o meanwhile f).
Proof. intros Hf. apply a_seq; [by apply a_asked|]. intros a. apply a_seq; [by apply a_when, a_change|]. intros _. apply a_whatever. Qed.
Lemma a_find {A} (g : rollout -> option A) : asks whatever (find o meanwhile g).
Proof. apply a_seq; [by apply a_asked|]. intros a. apply a_seq; [apply a_look|]. intros w. apply a_whatever. Qed.
Lemma a_create f : (forall n w w', f n w = Some w' -> ro_trace w' = ro_trace w) -> asks whatever (create o meanwhile f).
Proof.
  intros Hf. apply a_seq; [by apply a_asked|]. intros a w Hw. unfold andthen, look. destruct (f (ro_next w) w) as [w'|] eqn:E; [|done].
  destruct (rn_ok a); [|done]. cbn. by rewrite (Hf _ _ _ E).
Qed.
Lemma a_enqueue x : asks whatever (enqueue o meanwhile x).
Proof. apply a_seq; [by apply a_asked|]. intros a. apply a_seq; [by apply a_when, a_change|]. intros _. apply a_whatever. Qed.
Lemma a_sync : asks whatever (sync_route o meanwhile c).
Proof. apply a_seq; [by apply a_asked|]. intros a. apply a_seq; [by apply a_when, a_change|]. intros _. apply a_whatever. Qed.
Lemma a_stop_container x : asks whatever (stop_container o meanwhile x).
Proof. apply a_seq; [by apply a_asked|]. intros _. by apply a_change. Qed.
Lemma a_remove_container x : asks whatever (remove_container o meanwhile x).
Proof. apply a_seq; [by apply a_asked|]. intros _. by apply a_change. Qed.
Lemma a_service_remove x : asks whatever (service_remove o meanwhile x).
Proof. apply a_seq; [by apply a_asked|]. intros _. by apply a_change. Qed.
End Asks.
Create HintDb asks.
#[export] Hint Resolve a_whatever a_look a_clock a_find a_enqueue a_sync a_stop_container a_remove_container a_service_remove : asks.
(** Goes through code for what it asks. *)
Ltac asking :=
  repeat (cbv zeta; first
    [ progress intros
    | solve [eauto with asks]
    | solve [apply a_asked; exact I]
    | solve [apply a_write; intros; reflexivity]
    | solve [apply a_find]
    | match goal with
      | |- asks _ _ _ _ (andthen _ _) => apply a_seq
      | |- asks _ _ _ whatever (when _ _) => apply a_when
      | |- asks _ _ _ _ (match ?x with _ => _ end) => destruct x
      end ]).

(** ** The steps that name no image *)

Section Steps.
Context (o : outside) (meanwhile : nat -> rollout -> rollout) (h : deployer) (c : app_conf) (host : string).
#[local] Abbreviation asks := (asks h c host).

Lemma a_registry {A} (F : A -> Prop) x f : (dl_registry h = None -> F x) -> (forall g n, dl_registry h = Some g -> F (f (g n))) ->
  asks F (registry_says o meanwhile h x f).
Proof.
  intros Hx Hf. unfold registry_says. destruct (dl_registry h) as [g|]; [|by apply a_done, Hx]. apply a_seq; [apply a_look|]. intros w.
  apply a_seq; [by apply a_asked|]. intros _. apply a_done. by apply Hf.
Qed.
Lemma a_is_build ref : asks whatever (is_build_ref o meanwhile h ref).
Proof. by apply a_registry. Qed.
Lemma a_registry_auth : asks whatever (registry_auth o meanwhile h).
Proof. by apply a_registry. Qed.
#[local] Hint Resolve a_is_build a_registry_auth : asks.
Lemma a_set_canary release weight : asks whatever (set_canary o meanwhile release weight).
Proof. asking. Qed.
Lemma a_update_deployment id d : asks whatever (update_deployment o meanwhile id d).
Proof. asking. Qed.
Lemma a_delete_release id : asks whatever (delete_release o meanwhile id).
Proof. asking. Qed.
Lemma a_revert a : asks whatever (revert_runtime_switch o meanwhile a).
Proof. unfold revert_runtime_switch, find_active, set_runtime_kind. asking. Qed.
#[local] Hint Resolve a_set_canary a_update_deployment a_delete_release a_revert : asks.
Lemma a_fail id d why : asks whatever (fail o meanwhile id d why).
Proof. unfold fail, find_application, set_status. asking. Qed.
#[local] Hint Resolve a_fail : asks.
Lemma a_defer id d : asks whatever (defer_for_runner o meanwhile h id d).
Proof. unfold defer_for_runner, latest_number. asking. Qed.
Lemma a_credential d : asks whatever (resolve_registry_auth o meanwhile c d).
Proof. unfold resolve_registry_auth. asking. Qed.
Lemma a_image_present ref : asks whatever (image_present o meanwhile ref).
Proof. unfold image_present. asking. Qed.
Lemma a_health_rounds fuel deadline gates x : asks whatever (health_rounds o meanwhile fuel deadline gates x).
Proof. induction fuel as [|fuel IH]; cbn [health_rounds]; asking. Qed.
Lemma a_converge_rounds fuel deadline name desired : asks whatever (converge_rounds o meanwhile fuel deadline name desired).
Proof. induction fuel as [|fuel IH]; cbn [converge_rounds]; asking. Qed.
#[local] Hint Resolve a_defer a_credential a_image_present a_health_rounds a_converge_rounds : asks.
Lemma a_health_gate x : asks whatever (health_gate o meanwhile c x).
Proof. unfold health_gate. asking. Qed.
Lemma a_converge name desired : asks whatever (service_converge o meanwhile name desired).
Proof. unfold service_converge. asking. Qed.
Lemma a_retire_release r : asks whatever (retire_release o meanwhile r).
Proof. unfold retire_release. asking. Qed.
Lemma a_finalize id s : asks whatever (finalize_canary o meanwhile id s).
Proof. unfold finalize_canary, find_deployment. asking. Qed.
Lemma a_remove_canary_container r : asks whatever (remove_canary_container o meanwhile r).
Proof. unfold remove_canary_container. asking. Qed.
Lemma a_detach : asks whatever (detach_canary o meanwhile).
Proof. unfold detach_canary, find_application, find_release. asking. Qed.
#[local] Hint Resolve a_health_gate a_converge a_retire_release a_finalize a_remove_canary_container a_detach : asks.
Lemma a_retire_canary x : asks whatever (retire_canary_release o meanwhile x).
Proof. unfold retire_canary_release. asking. Qed.
Lemma a_release_tag d image : asks whatever (release_image_tag o meanwhile d image).
Proof. unfold release_image_tag, image_tag_by_image. asking. Qed.
Lemma a_tag d v : asks whatever (tag_release_image o meanwhile h d v).
Proof. unfold tag_release_image. asking. Qed.
Lemma a_make_current id image : asks whatever (make_current o meanwhile c id image).
Proof. unfold make_current, set_current_release_image, set_current_release. asking. Qed.
Lemma a_succeed id d : asks whatever (succeed o meanwhile id d).
Proof. unfold succeed. asking. Qed.
Lemma a_next_version : asks whatever (next_version o meanwhile).
Proof. unfold next_version. asking. Qed.
Lemma a_create_release r : asks whatever (create_release o meanwhile r).
Proof. apply a_create. intros n w w'. destruct (version_taken _ w); [done|]. by intros [= <-]. Qed.
#[local] Hint Resolve a_retire_canary a_release_tag a_tag a_make_current a_succeed a_next_version a_create_release : asks.
Lemma a_release_canary id d image x : asks whatever (release_canary o meanwhile h c id d image x).
Proof. unfold release_canary, find_application, find_release, set_canary_paused, set_status. asking. Qed.
Lemma a_put_in_force id d new v image m : asks whatever m -> asks whatever (put_in_force o meanwhile h c id d new v image m).
Proof. intros H. unfold put_in_force, activate. asking. Qed.
Lemma a_swap id d image x : asks whatever (swap_and_release o meanwhile h c id d image x).
Proof. pose proof a_put_in_force. unfold swap_and_release, find_active. asking. apply a_put_in_force. asking. Qed.
Lemma a_release_service id d image s : asks whatever (release_service o meanwhile h c id d image s).
Proof. unfold release_service, find_active. asking. apply a_put_in_force. asking. Qed.
End Steps.
#[export] Hint Resolve a_is_build a_registry_auth a_set_canary a_update_deployment a_fail a_defer a_credential a_image_present a_health_gate a_converge a_retire_release
  a_release_canary a_swap a_release_service : asks.

(** ** The steps that name one *)

Section Images.
Context (o : outside) (meanwhile : nat -> rollout -> rollout) (h : deployer) (c : app_conf) (host : string) (Hhost : named_host h host).
#[local] Abbreviation asks := (asks h c host).
#[local] Abbreviation own := (own h c host).
Definition fits {A} (G : A -> Prop) (r : ending + A) : Prop := match r with inl _ => True | inr x => G x end.

Lemma a_stopped {A} (G : A -> Prop) id d why : asks (fits G) (stop o meanwhile id d why).
Proof. apply a_seq; [apply a_fail|]. intros e. by apply a_done. Qed.
Lemma a_attempted {A B} (G : A -> Prop) (F : B -> Prop) (m : R (ending + A)) k :
  asks (fits G) m -> (forall a, G a -> asks (fits F) (k a)) -> asks (fits F) (attempt m k).
Proof. intros Hm Hk. eapply a_then; [done|]. intros [e|a] Ha; [by apply a_done|by apply Hk]. Qed.
Lemma a_need id d q why : allowed h c host q -> asks (fits whatever) (need o meanwhile id d q why).
Proof. intros H. apply a_seq; [by apply a_asked|]. intros a. destruct (rn_ok a); [by apply a_done|apply a_stopped]. Qed.
Lemma a_unless b (m : R (ending + unit)) : asks (fits whatever) m -> asks (fits whatever) (unless b m).
Proof. destruct b; [|done]. intros _. by apply a_done. Qed.
Lemma a_pull {B} (F : B -> Prop) ref auth k : own ref -> (forall ok, asks F (k ok)) -> asks F (andthen (pull_image o meanwhile ref auth) k).
Proof. intros Ho Hk. apply a_seq; [|done]. apply a_seq; [by apply a_asked|]. intros a. apply a_whatever. Qed.

(** A build's image is the workspace's, whatever digest it answers. *)
Definition built_own (r : build_failure + string) : Prop := match r with inl _ => True | inr image => own image end.
Lemma a_build id : asks built_own (build_on_runner o meanwhile h c id).
Proof.
  unfold build_on_runner. apply a_seq; [by apply a_registry|]. intros [reason|]; [|by apply a_done].
  destruct (negb (String.eqb reason "")); [by apply a_done|]. destruct (negb _); [by apply a_done|].
  eapply (a_then _ _ _ (fun r => r <> "" -> forall t, own (r +:+ t))); [apply a_registry; [done|]|].
  { intros g n Eg Hne t. pose proof (build_repository_own (g n) (cf_workspace c) (cf_name c) id Hne) as Hp. rewrite (Hhost g n Eg) in Hp.
    unfold DeployImages.own. rewrite Eg. intros _. by apply prefix_grows. }
  intros repository Hrep. destruct (String.eqb_spec repository ""); [by apply a_done|]. apply a_seq; [by apply a_asked|]. intros s.
  destruct (negb _); [by apply a_done|]. apply a_seq; [by apply a_asked|]. intros b. apply a_done. destruct (rn_ok b); [|by destruct (rn_flag b)].
  by apply Hrep.
Qed.
Definition image_own (x : deployment * string * bool) : Prop := own x.1.2.
Definition checked_own (r : result ref_err string) : Prop := match r with Ok ref => own ref | Err _ => True end.
Lemma empty_own : own "".
Proof. unfold DeployImages.own. destruct (dl_registry h); [|done]. unfold own_ref, split_internal_ref. by rewrite orb_comm. Qed.
Lemma a_authorized ref : asks checked_own (authorized_image_ref o meanwhile h c ref).
Proof.
  unfold authorized_image_ref. destruct (String.eqb_spec ref "") as [->|_]; [apply a_done, empty_own|]. apply a_registry.
  - intros En. cbn. unfold DeployImages.own. by rewrite En.
  - intros g n Eg. destruct (resolve_image_ref _ _ _) as [ref'|] eqn:E; [|done]. cbn. unfold DeployImages.own. rewrite Eg, <- (Hhost g n Eg).
    by eapply resolved_own.
Qed.
Lemma a_run_image id a d : own (dp_image d) -> asks (fits image_own) (run_image o meanwhile h c id a d).
Proof.
  intros Ho. assert (Hfail : forall d' why, asks (fits image_own) (out <~ fail o meanwhile id d' why; done (inl out))) by (intros; apply a_stopped).
  assert (Hyes : forall d' image b, own image -> asks (fits image_own) (done (inr (d', image, b)))) by (intros; by apply a_done).
  unfold run_image. cbv zeta. apply a_seq; [destruct (_ && _); eauto with asks|]. intros prebuilt.
  apply a_seq; [destruct (_ || _); eauto with asks|]. intros distributed.
  destruct prebuilt; [by apply Hyes|]. destruct distributed.
  - apply a_seq; [eauto with asks|]. intros here. destruct here; [by apply Hyes|]. apply a_seq; [eauto with asks|]. intros auth.
    apply a_pull; [done|]. intros ok. destruct ok; auto.
  - destruct (cf_git c).
    + eapply a_then; [apply a_build|]. intros [[]|built] Hb.
      * apply a_seq; [by apply a_asked|]. intros _. apply a_seq; [eauto with asks|]. intros e. by apply a_done.
      * apply a_seq; [eauto with asks|]. intros ok. destruct ok; [by apply a_done|auto].
      * auto.
      * apply a_seq; [eauto with asks|]. intros _. apply a_seq; [eauto with asks|]. intros here. destruct here; [by apply Hyes|].
        apply a_seq; [eauto with asks|]. intros auth. apply a_pull; [done|]. intros ok. destruct ok; auto.
    + eapply (a_then _ _ _ checked_own); [destruct (String.eqb (dp_image d) ""); [apply a_authorized|by apply a_done]|].
      intros [image|e] Hi; [|auto]. cbn in Hi.
      apply a_seq; [eauto with asks|]. intros [auth|]; [|auto]. apply a_seq; [eauto with asks|]. intros here.
      apply a_seq; [eauto with asks|]. intros internal.
      destruct (_ && _ && _); [by apply Hyes|]. destruct (String.eqb (cf_pull c) pull_never).
      * destruct (negb here); [auto|]. destruct (negb _); auto.
      * apply a_pull; [done|]. intros ok. destruct ok; auto.
Qed.

(** ** From the image to the engine *)

#[local] Hint Resolve a_stopped a_need a_unless : asks.
Lemma a_fine {A} (x : A) : asks (fits whatever) (done (inr x : ending + A)).
Proof. by apply a_done. Qed.
#[local] Hint Resolve a_fine : asks.
Lemma a_needed id d q why : allowed h c host q -> asks (fits whatever) (attempt (need o meanwhile id d q why) (fun _ => done (inr tt))).
Proof. intros H. eapply a_attempted; [by apply a_need|]. intros a _. apply a_fine. Qed.
Definition spec_own (s : run_spec) : Prop := own (rs_image s).
Lemma a_service_spec id d image built : own image -> asks (fits spec_own) (service_spec o meanwhile h c id d image built).
Proof.
  intros Ho. unfold service_spec. eapply a_attempted; [by apply a_need|]. intros _ _. apply a_seq; [by apply a_asked|]. intros routed.
  eapply a_attempted; [apply a_unless; by apply a_needed|]. intros _ _. eapply a_attempted; [by apply a_need|]. intros env _.
  eapply a_attempted; [by apply a_need|]. intros _ _. apply a_seq; [asking|]. intros internal. apply a_seq; [asking|]. intros _.
  eapply a_attempted; [by apply a_need|]. intros _ _. by apply a_done.
Qed.
Lemma a_devices id d b : asks (fits whatever) (container_devices o meanwhile h c id d b).
Proof.
  unfold container_devices. destruct (_ && _); [|apply a_fine]. eapply a_attempted; [apply a_unless, a_stopped|]. intros _ _.
  eapply a_attempted; [by apply a_need|]. intros _ _. by apply a_needed.
Qed.
Lemma a_container_spec id d image built : own image -> asks (fits (fun x => spec_own x.2)) (container_spec o meanwhile h c id d image built).
Proof.
  intros Ho. unfold container_spec, published_ports. cbv zeta. eapply a_attempted; [by apply a_need|]. intros context _.
  apply a_seq; [asking|]. intros ports. apply a_seq; [asking|]. intros _. apply a_seq; [unfold find_active; asking|]. intros _.
  eapply a_attempted; [by apply a_need|]. intros security _. eapply a_attempted; [apply a_unless; by apply a_needed|]. intros _ _.
  eapply a_attempted; [apply a_devices|]. intros _ _. apply a_seq; [asking|]. intros _. by apply a_done.
Qed.
Lemma a_run_container s : spec_own s -> asks whatever (run_container o meanwhile s).
Proof.
  intros Hs. apply a_seq; [by apply a_asked|]. intros a. apply a_seq; [apply a_look|]. intros w. destruct (rn_ok a).
  - apply a_seq; [by apply a_change|]. intros _. apply a_whatever.
  - destruct (rn_flag a); [|apply a_whatever]. apply a_seq; [by apply a_change|]. intros _. apply a_whatever.
Qed.
Lemma a_put_service s : spec_own s -> asks whatever (put_service o meanwhile s).
Proof.
  intros Hs. apply a_seq; [by apply a_asked|]. intros a. apply a_seq; [by apply a_change|]. intros _. apply a_whatever.
Qed.
Lemma a_deploy_service id d image built : own image -> asks (fits whatever) (deploy_service o meanwhile h c id d image built).
Proof.
  intros Ho. unfold deploy_service. cbv zeta. apply a_seq; [by apply a_asked|]. intros swarm. eapply a_attempted; [apply a_unless, a_stopped|]. intros _ _.
  apply a_seq; [asking|]. intros _. eapply a_attempted; [by apply a_service_spec|]. intros spec Hspec.
  apply a_seq; [unfold find_active; asking|]. intros _. apply a_seq; [by apply a_asked|]. intros _. apply a_seq; [by apply a_put_service|]. intros ok.
  eapply a_attempted; [apply a_unless, a_stopped|]. intros _ _. apply a_seq; [asking|]. intros well. eapply a_attempted; [apply a_unless, a_stopped|]. intros _ _.
  apply a_seq; [by apply a_asked|]. intros st. apply a_seq; [asking|]. intros out. apply a_fine.
Qed.
Lemma a_deploy_container id d image built : own image -> asks (fits whatever) (deploy_container o meanwhile h c id d image built).
Proof.
  intros Ho. unfold deploy_container. cbv zeta. apply a_seq; [asking|]. intros _. eapply a_attempted; [by apply a_container_spec|].
  intros [d' spec] Hspec. apply a_seq; [by apply a_run_container|]. intros [started x].
  eapply a_attempted; [apply a_unless; apply a_seq; [asking|]; intros _; apply a_stopped|]. intros _ _.
  apply a_seq; [asking|]. intros _. apply a_seq; [asking|]. intros [why|].
  - apply a_seq; [asking|]. intros _. apply a_stopped.
  - apply a_seq; [asking|]. intros out. apply a_fine.
Qed.
Lemma a_run_deployment id a d : asks whatever (run_deployment o meanwhile h c id a d).
Proof.
  unfold run_deployment. cbv zeta. eapply (a_then _ _ _ (fits whatever)); [|intros; apply a_whatever].
  apply a_seq; [asking|]. intros t. apply a_seq; [asking|]. intros _. apply a_seq; [unfold set_status; asking|]. intros _.
  eapply a_attempted; [by apply a_need|]. intros _ _. cbn [set_dep_started dp_image].
  eapply a_then; [apply a_authorized|]. intros [ref|e] Hr; [|apply a_stopped]. cbn in Hr. apply a_seq; [asking|]. intros _.
  eapply a_attempted; [by apply a_run_image|]. intros [[d' image] built] Ho. eapply a_attempted.
  - apply a_unless. eapply a_attempted; [apply a_unless, a_stopped|]. intros _ _. apply a_unless. by apply a_needed.
  - intros _ _. destruct (bool_decide _); [by apply a_deploy_service|by apply a_deploy_container].
Qed.
Lemma a_process_task id : asks whatever (process_task o meanwhile h c id).
Proof.
  unfold process_task, start_task, find_deployment, find_application. pose proof a_run_deployment. asking.
Qed.
End Images.

(** ** What a deployment asks of the engines *)

(** C12 [deployed_images_are_own]: As long as the registry's settings can be read and name the same
    host whenever a deployment's task asks for them, then whatever else is answered, whoever acts in
    between and wherever its worker dies, the task never asks a node to pull or run, nor the cluster
    to roll out, an image on that host outside its workspace's namespace: not from the deployment's
    row, the application's image, or a build. (A read of the settings that fails counts as no
    registry, and lets another workspace's image through.) *)
Theorem deployed_images_are_own o meanwhile h c host id left_ w : named_host h host ->
  Forall (allowed h c host) (ro_trace (process_task o meanwhile h c id (put_life [] left_ w)).1).
Proof. intros Hhost. by apply (a_process_task o meanwhile h c host Hhost id). Qed.

(** The registry of the shop, where another workspace has images too; its settings cannot be read at the calls numbered [lost]. *)
Definition mall : registry := Registry "registry.mall:5000" "" (Some {[ 1%N := "shop"; 2%N := "bakery" ]}).
Definition mall_worker (lost : list nat) : deployer :=
  Deployer (Some (fun n => if existsb (Nat.eqb n) lost then Registry "" "registry unavailable" (rg_workspaces mall) else mall)) false 0 false.
Definition order (image : string) : rollout :=
  put_deps {[ 2%N := set_dep_image image (Shop.wanted "rolling") ]} (Shop.world "rolling").
Lemma deployed_images_are_own_witness : let w := process_task Shop.good_day (fun _ w => w) (mall_worker []) Shop.conf 2 (put_life [] None (order "registry.mall:5000/shop/web:2")) in
  w.2 = Some (Released 4) /\ Forall (allowed (mall_worker []) Shop.conf "registry.mall:5000") (ro_trace w.1).
Proof. split; [vm_compute; reflexivity|]. apply deployed_images_are_own. intros g n [= <-]. reflexivity. Defined.
(** Its own image is pulled by the name of its namespace; the other's is not. *)
Definition ordered (lost : list nat) (image : string) := process_task Shop.good_day (fun _ w => w) (mall_worker lost) Shop.conf 2 (order image).
Example mall_own : let w := ordered [] "registry.mall:5000/shop/web:2" in
  w.2 = Some (Released 4) /\ In (QPull "registry.mall:5000/ws_1/web:2" (Some "registry.mall:5000")) (ro_trace w.1).
Proof. vm_compute. split; [reflexivity|]. repeat (first [by left|right]). Qed.
Example mall_foreign : let w := ordered [] "registry.mall:5000/ws_2/web:2" in
  w.2 = Some (Ended (FailedAt (DeImage (ErrForeignNamespace "registry.mall:5000/ws_2/web:2" "bakery")))).
Proof. by vm_compute. Qed.
(** [RegistryHost] (distribute.go:119) answers an empty host when the settings cannot be read, and then no reference counts as the
    registry's: a read that fails where the reference is checked, and succeeds afterwards, has the other workspace's image pulled with
    the platform's own credential, and run. *)
Example unread_settings_open_namespaces : exists n, let w := ordered [n] "registry.mall:5000/ws_2/web:2" in
  w.2 = Some (Released 4) /\ In (QPull "registry.mall:5000/ws_2/web:2" (Some "registry.mall:5000")) (ro_trace w.1).
Proof. exists 7%nat. vm_compute. split; [reflexivity|]. repeat (first [by left|right]). Qed.
