(* ===== verification/GoWeb.v ===== *)
(** * Paths, URLs and Basic authentication in Go

    [path.Clean], [url.PathUnescape], [url.ParseQuery], [base64.StdEncoding.DecodeString], the letters of other alphabets that
    fold to ASCII ones, and white space beyond ASCII: what the code that reads requests calls. A request has no more query
    parameters than [ParseQuery] takes by default (10,000). *)
From S2P Require Import Prelude GoStrings GoText.
#[local] Open Scope Z_scope.
#[local] Open Scope list_scope.

(** ** [path.Clean] *)

(** The elements kept so far, the last first *)
Definition clean_step (rooted : bool) (kept : list string) (e : string) : list string :=
  if String.eqb e "" || String.eqb e "." then kept
  else if String.eqb e ".." then
    match kept with
    | last :: rest => if String.eqb last ".." then ".." :: kept else rest
    | [] => if rooted then [] else [".."]
    end
  else e :: kept.
Definition clean_elements (rooted : bool) (p : string) : list string := reverse (foldl (clean_step rooted) [] (split "/" p)).
Definition path_clean (p : string) : string :=
  let rooted := has_prefix "/" p in
  let l := clean_elements rooted p in
  if rooted then "/" +:+ join "/" l else if bool_decide (l = []) then "." else join "/" l.

(** ** Escapes *)

Fixpoint unescape (plus : bool) (s : string) : option string :=
  match s with
  | EmptyString => Some EmptyString
  | String "%" (String a (String b rest)) =>
      match hex_value a, hex_value b, unescape plus rest with
      | Some x, Some y, Some rest => Some (String (ascii_of_N (Z.to_N (16 * x + y))) rest)
      | _, _, _ => None
      end
  | String "%" _ => None
  | String c rest => String (if plus && Ascii.eqb c "+" then " " else c)%char <$> unescape plus rest
  end.
Definition path_unescape (s : string) : option string := unescape false s.
Definition query_unescape (s : string) : option string := unescape true s.

(** [url.ParseQuery]: the pairs in order, or nothing when one is malformed *)
Definition query_pair (s : string) : option (option (string * string)) :=
  if contains ";" s then None
  else if String.eqb s "" then Some None
  else
    let '(k, v, _) := cut "=" s in
    match query_unescape k, query_unescape v with Some k, Some v => Some (Some (k, v)) | _, _ => None end.
Fixpoint query_pairs (l : list string) : option (list (string * string)) :=
  match l with
  | [] => Some []
  | s :: l =>
      match query_pair s, query_pairs l with
      | Some (Some kv), Some rest => Some (kv :: rest)
      | Some None, Some rest => Some rest
      | _, _ => None
      end
  end.
Definition parse_query (s : string) : option (list (string * string)) := query_pairs (split "&" s).
(** [Values.Get] *)
Definition query_get (k : string) (l : list (string * string)) : string :=
  match find_first (fun kv => String.eqb kv.1 k) l with Some kv => kv.2 | None => "" end.

(** ** Base64 *)

Definition base64_value (c : ascii) : option Z :=
  let n := byte_code c in
  if is_upper c then Some (n - 65) else if is_lower c then Some (n - 71) else if is_digit c then Some (n + 4)
  else if Ascii.eqb c "+" then Some 62 else if Ascii.eqb c "/" then Some 63 else None.
Definition byte_of (n : Z) : ascii := ascii_of_N (Z.to_N (n mod 256)).
Fixpoint base64_groups (s : string) : option string :=
  match s with
  | EmptyString => Some EmptyString
  | String a (String b (String "=" (String "=" EmptyString))) =>
      match base64_value a, base64_value b with
      | Some x, Some y => Some (String (byte_of (4 * x + y / 16)) EmptyString)
      | _, _ => None
      end
  | String a (String b (String c (String "=" EmptyString))) =>
      match base64_value a, base64_value b, base64_value c with
      | Some x, Some y, Some z => Some (String (byte_of (4 * x + y / 16)) (String (byte_of (16 * y + z / 4)) EmptyString))
      | _, _, _ => None
      end
  | String a (String b (String c (String d rest))) =>
      match base64_value a, base64_value b, base64_value c, base64_value d, base64_groups rest with
      | Some x, Some y, Some z, Some t, Some rest =>
          Some (String (byte_of (4 * x + y / 16)) (String (byte_of (16 * y + z / 4)) (String (byte_of (64 * z + t)) rest)))
      | _, _, _, _, _ => None
      end
  | _ => None
  end.
(** Line breaks are skipped. *)
Fixpoint without_breaks (s : string) : string :=
  match s with
  | EmptyString => EmptyString
  | String c s => if Ascii.eqb c "010" || Ascii.eqb c "013" then without_breaks s else String c (without_breaks s)
  end.
Definition base64_decode (s : string) : option string := base64_groups (without_breaks s).

(** ** Beyond ASCII *)

(** The letters that fold to an ASCII one: the long s and the Kelvin sign. [fold_ascii a = fold_ascii b] is [strings.EqualFold a b]
    when [b] is ASCII. *)
Fixpoint fold_ascii (s : string) : string :=
  match s with
  | EmptyString => EmptyString
  | String "197" (String "191" s) => String "s" (fold_ascii s)
  | String "226" (String "132" (String "170" s)) => String "k" (fold_ascii s)
  | String c s => String (lower_ascii c) (fold_ascii s)
  end.
(** [strings.ToUpper], as far as whether it gives an ASCII word without an I *)
Fixpoint upper_fold (s : string) : string :=
  match s with
  | EmptyString => EmptyString
  | String "197" (String "191" s) => String "S" (upper_fold s)
  | String c s => String (upper_ascii c) (upper_fold s)
  end.

(** [strings.TrimSpace], of any white space: U+0085, U+00A0, U+1680, U+2000 to U+200A, U+2028, U+2029, U+202F, U+205F and U+3000 *)
Definition str_of_bytes (l : list nat) : string := of_chars (ascii_of_nat <$> l).
Definition wide_spaces : list string :=
  str_of_bytes <$> ([[194; 133]; [194; 160]; [225; 154; 128]] ++ ((fun n => [226; 128; n]) <$> seq 128 11) ++
    [[226; 128; 168]; [226; 128; 169]; [226; 128; 175]; [226; 129; 159]; [227; 128; 128]])%nat.
Fixpoint trim_wide_left (fuel : nat) (s : string) : string :=
  match fuel with
  | O => s
  | S fuel =>
      let s := drop_while is_space s in
      match find_first (fun w => has_prefix w s) wide_spaces with Some w => trim_wide_left fuel (trim_prefix w s) | None => s end
  end.
Fixpoint trim_wide_right (fuel : nat) (s : string) : string :=
  match fuel with
  | O => s
  | S fuel =>
      let s := drop_end_while is_space s in
      match find_first (fun w => has_suffix w s) wide_spaces with Some w => trim_wide_right fuel (trim_suffix w s) | None => s end
  end.
Definition trim_wide (s : string) : string := let n := S (String.length s) in trim_wide_right n (trim_wide_left n s).

Example clean_examples : path_clean <$> ["/v2/a/../b//c/./d"; "/.."; "a/../.."; ""; "../a/.."; "/a/b/"] = ["/v2/b/c/d"; "/"; ".."; "."; ".."; "/a/b"].
Proof. by vm_compute. Qed.
Example query_examples : (query_get "from" <$> parse_query "mount=x&from=a%2Fb+c") = Some "a/b c" /\ parse_query "a=%zz" = None.
Proof. by vm_compute. Qed.
Example base64_examples : base64_decode <$> ["YTpi"; "YTo="; "YQ=="; "YQ="; "!!!!"; ""] = [Some "a:b"; Some "a:"; Some "a"; None; None; Some ""].
Proof. by vm_compute. Qed.

(** ** [net.ParseIP] and [net.ParseCIDR]: an IPv4 address in an IPv6 one is the IPv4 one *)

Definition unmap (a : ip_addr) : ip_addr :=
  match a with
  | IP6 v z => if v / 2 ^ 32 =? 65535 then IP4 (v mod 2 ^ 32) else IP6 v z
  | IP4 v => IP4 v
  end.
Definition parse_net_ip (s : string) : option ip_addr :=
  a ← parse_addr s; if String.eqb (addr_zone a) "" then Some (unmap a) else None.
(** The network: the address, unmapped where its prefix covers the mapping, and its length in that family *)
Definition parse_cidr (s : string) : option net_prefix :=
  match cut "/" s with
  | (addr, mask, true) =>
      a ← parse_addr addr;
      if negb (String.eqb (addr_zone a) "") || negb (all_digits mask) then None
      else
        n ← atoi mask;
        if addr_bits a <? n then None
        else Some (match a, unmap a with
                   | IP6 _ _, IP4 v => if 96 <=? n then NetPrefix (IP4 v) (n - 96) else NetPrefix a n
                   | _, _ => NetPrefix a n
                   end)
  | _ => None
  end.

Example cidr_contains :
  let inside net ip := match parse_cidr net, parse_net_ip ip with Some p, Some a => prefix_contains p a | _, _ => false end in
  inside "10.0.0.0/8" "10.9.8.7" = true /\ inside "10.0.0.0/8" "11.0.0.1" = false /\ inside "10.0.0.0/8" "::ffff:10.1.2.3" = true /\
  inside "::ffff:10.0.0.0/104" "10.1.2.3" = true /\ inside "2001:db8::/32" "2001:db8::1" = true /\ inside "10.0.0.0/33" "10.0.0.0" = false.
Proof. vm_compute. repeat split. Qed.
