(* ===== verification/Roles.v ===== *)
(** * Workspace roles, permissions and custom roles

    models/workspace.go and models/permission.go: the four built-in roles, their ranks and their permission sets;
    models/custom_role.go and the checks of services/customrole/service.go, whose tables are in [Accounts]. *)
From S2P Require Import Prelude GoStrings.
#[local] Open Scope Z_scope.
#[local] Open Scope list_scope.

(** ** Roles and their ranks *)

Definition role_owner : string := "owner".
Definition role_admin : string := "admin".
Definition role_developer : string := "developer".
Definition role_viewer : string := "viewer".

(** [roleRank]: [None] is a role the map does not have, whose rank Go reads as 0. *)
Definition role_rank (r : string) : option Z :=
  if String.eqb r role_viewer then Some 1
  else if String.eqb r role_developer then Some 2
  else if String.eqb r role_admin then Some 3
  else if String.eqb r role_owner then Some 4
  else None.
Definition rank (r : string) : Z := default 0 (role_rank r).
Definition at_least (r min : string) : bool := rank min <=? rank r.
Definition role_valid (r : string) : bool := bool_decide (is_Some (role_rank r)).

(** ** Permissions *)

Definition perm_member_write : string := "member:write".
Definition all_read_permissions : list string :=
  ["app:read"; "database:read"; "volume:read"; "domain:read"; "route:read"; "network:read"; "backup:read"; "secret:read";
   "config:read"; "member:read"].
Definition developer_extra : list string :=
  ["app:write"; "app:deploy"; "database:write"; "volume:write"; "route:write"; "network:write"; "backup:run"; "backup:restore";
   "secret:write"; "config:write"].
Definition admin_extra : list string := ["app:delete"; "app:admin"; "database:delete"; "domain:write"; perm_member_write].
Definition owner_extra : list string := ["workspace:write"; "workspace:delete"].

Definition viewer_permissions : gset string := list_to_set all_read_permissions.
Definition developer_permissions : gset string := list_to_set (all_read_permissions ++ developer_extra).
Definition admin_permissions : gset string := list_to_set ((all_read_permissions ++ developer_extra) ++ admin_extra).
Definition owner_permissions : gset string :=
  list_to_set (((all_read_permissions ++ developer_extra) ++ admin_extra) ++ owner_extra).

(** [rolePermissions], [RolePermissions] and [RoleHasPermission] *)
Definition role_permissions (r : string) : gset string :=
  if String.eqb r role_viewer then viewer_permissions
  else if String.eqb r role_developer then developer_permissions
  else if String.eqb r role_admin then admin_permissions
  else if String.eqb r role_owner then owner_permissions
  else ∅.
Definition role_has_permission (r p : string) : bool := bool_decide (p ∈ role_permissions r).

Definition all_permissions : list string :=
  ["app:read"; "app:write"; "app:deploy"; "app:delete"; "app:admin"; "database:read"; "database:write"; "database:delete";
   "volume:read"; "volume:write"; "domain:read"; "domain:write"; "route:read"; "route:write"; "network:read"; "network:write";
   "backup:read"; "backup:run"; "backup:restore"; "secret:read"; "secret:write"; "config:read"; "config:write"; "member:read";
   perm_member_write; "workspace:write"; "workspace:delete"].
Definition is_valid_permission (p : string) : bool := bool_decide (p ∈ all_permissions).

(** [Resource] and [Action] of a permission *)
Definition perm_resource (p : string) : string := (cut ":" p).1.1.
Definition perm_action (p : string) : string := (cut ":" p).1.2.

(** ** Custom roles *)

(** [cr_workspace] is [None] for a template of the whole organization; the row's id is its key. *)
Record custom_role := CustomRole {
  cr_workspace : option N; cr_name : string; cr_base : string; cr_permissions : list string }.
Definition permission_set (r : custom_role) : gset string := list_to_set (cr_permissions r).

(** [Input] *)
Record role_input := RoleInput { ri_name : string; ri_base : string; ri_permissions : list string }.

Inductive role_err := ErrNameRequired | ErrInvalidBaseRole | ErrNoPermissions | ErrInvalidPermission | ErrEscalation.

(** The loop over the permissions asked for *)
Fixpoint check_permissions (actor : gset string) (ps : list string) : option role_err :=
  match ps with
  | [] => None
  | p :: ps =>
      if negb (is_valid_permission p) then Some ErrInvalidPermission
      else if bool_decide (p ∈ actor) then check_permissions actor ps else Some ErrEscalation
  end.

(** [validate]: [None] is nil. *)
Definition validate (i : role_input) (actor : gset string) : option role_err :=
  if String.eqb (trim_space (ri_name i)) "" then Some ErrNameRequired
  else if negb (role_valid (ri_base i)) then Some ErrInvalidBaseRole
  else if bool_decide (ri_permissions i = []) then Some ErrNoPermissions
  else match check_permissions actor (ri_permissions i) with
       | Some e => Some e
       | None => if bool_decide (role_permissions (ri_base i) ⊆ actor) then None else Some ErrEscalation
       end.

(** ** What holds of them *)

Definition roles : list string := [role_viewer; role_developer; role_admin; role_owner].

Lemma role_valid_cases r : role_valid r = true <-> r ∈ roles.
Proof.
  unfold role_valid, role_rank. rewrite bool_decide_eq_true. split.
  - repeat case_match; repeat match goal with H : String.eqb _ _ = true |- _ => apply String.eqb_eq in H as -> end;
      intros [? Hs]; set_solver.
  - unfold roles. intros [->|[->|[->|[->|[]%elem_of_nil]%elem_of_cons]%elem_of_cons]%elem_of_cons]%elem_of_cons; vm_compute; eauto.
Qed.

Lemma rank_nonneg r : 0 <= rank r.
Proof. unfold rank, role_rank. repeat case_match; cbn; lia. Qed.
Lemma rank_invalid r : role_valid r = false -> rank r = 0 /\ role_permissions r = ∅.
Proof.
  unfold role_valid, rank, role_permissions, role_rank. rewrite bool_decide_eq_false.
  repeat case_match; intros Hn; first [by destruct Hn; eauto | done].
Qed.
Lemma rank_valid r : role_valid r = true -> 1 <= rank r <= 4.
Proof.
  intros H%role_valid_cases. unfold roles in H. repeat (apply elem_of_cons in H as [->|H]; [vm_compute; split; discriminate|]).
  by apply elem_of_nil in H.
Qed.
Lemma rank_owner r : 4 <= rank r -> r = role_owner.
Proof. unfold rank, role_rank. repeat case_match; cbn; try lia. intros _. by apply String.eqb_eq. Qed.

Lemma viewer_developer : viewer_permissions ⊆ developer_permissions.
Proof. unfold viewer_permissions, developer_permissions. rewrite list_to_set_app. apply union_subseteq_l. Qed.
Lemma developer_admin : developer_permissions ⊆ admin_permissions.
Proof. unfold developer_permissions, admin_permissions. rewrite (list_to_set_app (_ ++ _)). apply union_subseteq_l. Qed.
Lemma admin_owner : admin_permissions ⊆ owner_permissions.
Proof. unfold admin_permissions, owner_permissions. rewrite (list_to_set_app ((_ ++ _) ++ _)). apply union_subseteq_l. Qed.

(** The set of each rank *)
Definition ranked_permissions (n : Z) : gset string :=
  if n =? 1 then viewer_permissions else if n =? 2 then developer_permissions
  else if n =? 3 then admin_permissions else if n =? 4 then owner_permissions else ∅.
Lemma role_permissions_ranked r : role_permissions r = ranked_permissions (rank r).
Proof. unfold role_permissions, rank, role_rank. repeat case_match; reflexivity. Qed.

(** The built-in sets are those a rank grants: a role has the permissions of every role at or below it. *)
Lemma permissions_monotone r1 r2 : rank r1 <= rank r2 -> role_permissions r1 ⊆ role_permissions r2.
Proof.
  rewrite !role_permissions_ranked. pose proof (rank_nonneg r1) as H0.
  assert (H4 : rank r2 <= 4) by (unfold rank, role_rank; repeat case_match; cbn; lia).
  revert H0 H4. generalize (rank r1) (rank r2). intros n m Hn Hm Hle. unfold ranked_permissions.
  pose proof viewer_developer as V. pose proof developer_admin as D. pose proof admin_owner as A.
  assert (n = 0 \/ n = 1 \/ n = 2 \/ n = 3 \/ n = 4) as Hcn by lia. assert (m = 0 \/ m = 1 \/ m = 2 \/ m = 3 \/ m = 4) as Hcm by lia.
  assert (viewer_permissions ⊆ admin_permissions /\ viewer_permissions ⊆ owner_permissions /\ developer_permissions ⊆ owner_permissions)
    as (? & ? & ?) by (split_and!; [by etrans; [apply V|] | by etrans; [apply V|]; etrans; [apply D|] | by etrans; [apply D|]]).
  destruct_or!; subst; try lia; cbn [Z.eqb Pos.eqb]; first [done | apply empty_subseteq].
Qed.

Lemma owner_has_every_permission p : is_valid_permission p = role_has_permission role_owner p.
Proof.
  unfold is_valid_permission, role_has_permission. apply bool_decide_ext. change (role_permissions role_owner) with owner_permissions.
  unfold owner_permissions. rewrite elem_of_list_to_set. unfold all_permissions, all_read_permissions, developer_extra, admin_extra, owner_extra.
  cbn [app]. split; rewrite !elem_of_cons, elem_of_nil; tauto.
Qed.

(** What a definition that passes may grant *)
Lemma check_permissions_sound actor ps :
  check_permissions actor ps = None -> forall p, p ∈ ps -> is_valid_permission p = true /\ p ∈ actor.
Proof.
  induction ps as [|q ps IH]; cbn; [intros _ p []%elem_of_nil|].
  destruct (is_valid_permission q) eqn:Hv; cbn; [|done]. case_bool_decide as Ha; [|done].
  intros Hc p [->|Hp]%elem_of_cons; [done|by apply IH].
Qed.
Lemma validate_sound i actor :
  validate i actor = None ->
  role_valid (ri_base i) = true /\ list_to_set (ri_permissions i) ⊆ actor /\ role_permissions (ri_base i) ⊆ actor.
Proof.
  unfold validate. destruct (String.eqb _ _); [done|]. destruct (role_valid (ri_base i)) eqn:Hv; cbn; [|done].
  case_bool_decide; [done|]. destruct (check_permissions _ _) eqn:Hc; [done|]. case_bool_decide as Hb; [|done].
  intros _. split_and!; [done| |done]. intros p Hp%elem_of_list_to_set. by apply (check_permissions_sound _ _ Hc).
Qed.
