(* ===== verification/ApiScopes.v ===== *)
(** * API key scopes

    models/api_key.go: what a key's scopes grant and what the key is for; routes/scope.go and routes/register.go: the scope a route
    asks; middlewares/scope.go: the mode it is enforced in. *)
From S2P Require Import Prelude GoStrings GoTime.
#[local] Open Scope Z_scope.
#[local] Open Scope list_scope.

(** ** Scopes *)

Definition scope_read : string := "read".
Definition scope_write : string := "write".
Definition scope_deploy : string := "deploy".
Definition scope_admin : string := "admin".
Definition scope_all : string := "*".
Definition scope_registry_read : string := "registry_read".
Definition scope_registry_write : string := "registry_write".
Definition scope_billing : string := "billing".
Definition scope_migration : string := "migration".

Definition valid_scopes : list string :=
  [scope_read; scope_write; scope_deploy; scope_admin; scope_all; scope_registry_read; scope_registry_write].
Definition general_scopes : list string := [scope_read; scope_write; scope_deploy; scope_admin; scope_all].

(** [scopeImplies]; a scope the map does not have implies nothing. *)
Definition scope_implies (g : string) : list string :=
  if String.eqb g scope_all then [scope_all; scope_admin; scope_write; scope_deploy; scope_read]
  else if String.eqb g scope_admin then [scope_admin; scope_write; scope_deploy; scope_read]
  else if String.eqb g scope_write then [scope_write; scope_read]
  else if String.eqb g scope_deploy then [scope_deploy; scope_read]
  else if String.eqb g scope_read then [scope_read]
  else if String.eqb g scope_billing then [scope_billing]
  else if String.eqb g scope_migration then [scope_migration]
  else [].
Definition or_read (granted : list string) : list string := match granted with [] => [scope_read] | l => l end.
(** [ScopeSatisfies] *)
Definition scope_satisfies (granted : list string) (required : string) : bool :=
  String.eqb required "" || existsb (fun g => bool_decide (required ∈ scope_implies g)) (or_read granted).

(** ** Keys *)

Record api_key := ApiKey {
  k_id : N; k_user : N; k_workspace : option N; k_name : string; k_hash : string; k_prefix : string; k_scopes : list string;
  k_ips : list string; k_app : option N; k_ephemeral : bool; k_last_used : option instant; k_expires : option instant; k_revoked : bool }.
Inductive purpose := General | RegistryOnly | Billing | Migration.
#[export] Instance purpose_eq : EqDecision purpose.
Proof. solve_decision. Defined.

(** The first loop of [Purpose] *)
Fixpoint special_purpose (scopes : list string) : option purpose :=
  match scopes with
  | [] => None
  | s :: rest =>
      if String.eqb s scope_billing then Some Billing
      else if String.eqb s scope_migration then Some Migration else special_purpose rest
  end.
Definition key_purpose (k : api_key) : purpose :=
  match k_scopes k with
  | [] => General
  | scopes =>
      match special_purpose scopes with
      | Some p => p
      | None => if existsb (fun s => bool_decide (s ∈ general_scopes)) scopes then General else RegistryOnly
      end
  end.
Definition bound_to_app (k : api_key) (app : N) : bool := bool_decide (k_app k = Some app).
(** [HasScope] *)
Definition has_scope (k : api_key) (s : string) : bool :=
  match k_scopes k with
  | [] => String.eqb s scope_read
  | scopes => existsb (fun sc => String.eqb sc scope_all || String.eqb sc s) scopes
  end.
Definition is_expired (k : api_key) (now : instant) : bool := match k_expires k with Some t => t <? now | None => false end.
Definition is_valid (k : api_key) (now : instant) : bool := negb (k_revoked k) && negb (is_expired k now).

(** [NormalizeScopes]: the scopes without repetitions, or the first unknown one *)
Fixpoint normalize_from (seen : list string) (scopes : list string) : result string (list string) :=
  match scopes with
  | [] => Ok []
  | sc :: rest =>
      if negb (bool_decide (sc ∈ valid_scopes)) then Err sc
      else if bool_decide (sc ∈ seen) then normalize_from seen rest
      else let? out := normalize_from (sc :: seen) rest in Ok (sc :: out)
  end.
Definition normalize_scopes (scopes : list string) : result string (list string) :=
  match scopes with [] => Ok [scope_read] | _ => normalize_from [] scopes end.

(** ** The scope a route asks *)

Definition billing_prefix : string := "/api/v1/billing/".
Definition migration_prefix : string := "/api/v1/migration/".
Definition admin_prefixes : list string :=
  ["/api/v1/admin/"; "/api/v1/api-keys"; "/api/v1/auth/2fa/"; "/api/v1/me/sessions"; "/api/v1/scim/"; "/api/v1/sso/"].
Definition admin_segments : list string :=
  ["members"; "invitations"; "roles"; "policies"; "api-keys"; "service-accounts"; "backup-settings"; "audit"; "audit-logs";
   "portable-backup"; "encryption"].
Definition admin_suffixes : list string := ["/exec"; "/reveal"; "/credentials"; "/connection"; "/recovery-kit"; "/webhook-info"].
Definition admin_write_segments : list string := ["runners"; "webhooks"].
Definition deploy_actions : list string :=
  ["deploy"; "start"; "stop"; "restart"; "rollback"; "scale"; "trigger"; "rerun"; "sync"; "promote"; "approve"].

Definition path_segments (path : string) : list string :=
  match split "/" (trim_char "/" path) with
  | [s] => if String.eqb s "" then [] else [s]
  | l => l
  end.
Definition is_param (s : string) : bool := has_prefix "{" s && has_suffix "}" s.
Definition reads (method : string) : bool := String.eqb method "GET" || String.eqb method "HEAD".
Definition is_backup_download (segs : list string) : bool :=
  match reverse segs with
  | last :: before =>
      String.eqb last "download" && negb (bool_decide (head before = Some "logs")) &&
      existsb (fun s => String.eqb s "backups" || String.eqb s "platform-backup") segs
  | [] => false
  end.
Definition is_deploy_action (segs : list string) : bool :=
  existsb (fun s => bool_decide (s ∈ deploy_actions) || String.eqb s "canary" || has_prefix "canary-" s) segs.
Definition deletes_workspace (method : string) (segs : list string) : bool :=
  String.eqb method "DELETE" &&
  match segs with [_; _; c; w] => String.eqb c "workspaces" && is_param w | _ => false end.
(** [adminScope] answers the admin scope or none. *)
Definition asks_admin (method path : string) (segs : list string) : bool :=
  existsb (fun p => has_prefix p path) admin_prefixes || existsb (fun s => has_suffix s path) admin_suffixes ||
  deletes_workspace method segs || is_backup_download segs ||
  existsb (fun s => bool_decide (s ∈ admin_segments) || (bool_decide (s ∈ admin_write_segments) && negb (reads method))) segs.
(** [scopeFor] *)
Definition scope_for (method path : string) : string :=
  if has_prefix billing_prefix path then scope_billing
  else if has_prefix migration_prefix path then scope_migration
  else
    let segs := path_segments path in
    if asks_admin method path segs then scope_admin
    else if reads method then scope_read
    else if is_deploy_action segs then scope_deploy
    else scope_write.

(** [routePath]: the group's prefix and the route's path, joined *)
Definition trim_left_char (c : ascii) (s : string) : string := drop_while (Ascii.eqb c) s.
Definition route_path (prefix path : string) : string :=
  let p := trim_suffix "/" (trim_right_char "/" prefix +:+ "/" +:+ trim_left_char "/" path) in
  if String.eqb p "" then "/" else if has_prefix "/" p then p else "/" +:+ p.

(** ** The mode scopes are enforced in *)

Inductive scope_mode := ModeOff | ModeWarn | ModeEnforce.
#[export] Instance scope_mode_eq : EqDecision scope_mode.
Proof. solve_decision. Defined.
Definition parse_scope_mode (s : string) : scope_mode :=
  let s := to_lower (trim_space s) in
  if String.eqb s "off" then ModeOff else if String.eqb s "enforce" then ModeEnforce else ModeWarn.
(** [ResolveScopeMode] and where the mode is from *)
Definition resolve_scope_mode (configured legacy : string) : scope_mode * string :=
  if negb (String.eqb (trim_space configured) "") then (parse_scope_mode configured, "configured")
  else if negb (String.eqb (trim_space legacy) "") then (parse_scope_mode legacy, "kept from before scopes were enforced")
  else (ModeEnforce, "default").
(** [splitScopes] of the scopes [authAPIKey] joined *)
Definition split_scopes (raw : string) : list string :=
  if String.eqb (trim_space raw) "" then []
  else List.filter (fun p => negb (String.eqb p "")) (trim_space <$> split "," raw).

(** ** Examples of routes/scope_test.go *)

Example reveal_is_admin : scope_for "GET" "/api/v1/workspaces/{workspace}/secrets/{secretID}/reveal" = scope_admin.
Proof. vm_compute. reflexivity. Qed.
Example log_download_is_read :
  scope_for "GET" "/api/v1/workspaces/{workspace}/apps/{appID}/deployments/{deploymentID}/logs/download" = scope_read.
Proof. vm_compute. reflexivity. Qed.
Example backup_download_is_admin :
  scope_for "GET" "/api/v1/workspaces/{workspace}/databases/{databaseID}/databases/{dbID}/backups/{backupID}/download" = scope_admin.
Proof. vm_compute. reflexivity. Qed.
Example canary_promote_is_deploy : scope_for "POST" "/api/v1/workspaces/{workspace}/apps/{appID}/canary/promote" = scope_deploy.
Proof. vm_compute. reflexivity. Qed.
Example workspace_delete_is_admin :
  scope_for "DELETE" (route_path "/api/v1/workspaces" "/{workspace}") = scope_admin /\
  scope_for "DELETE" "/api/v1/workspaces/{workspace}/networks/{id}" = scope_write.
Proof. vm_compute. split; reflexivity. Qed.

(** ** What they grant *)

Lemma implies_refl s : s ∈ [scope_read; scope_write; scope_deploy; scope_admin; scope_all; scope_billing; scope_migration] -> s ∈ scope_implies s.
Proof. intros H. repeat (apply elem_of_cons in H as [->|H]; [by vm_compute; left|]). by apply elem_of_nil in H. Qed.
(** Only a billing key satisfies the billing scope, only a migration key the migration scope. *)
Lemma special_not_implied g s : s = scope_billing \/ s = scope_migration -> s ∈ scope_implies g -> g = s.
Proof.
  intros Hs. unfold scope_implies. repeat (match goal with |- context [String.eqb g ?x] => destruct (String.eqb_spec g x) as [->|] end);
    rewrite ?elem_of_cons, ?elem_of_nil; destruct Hs; subst; intros Hin; destruct_or?; by done || destruct Hin.
Qed.
Lemma normalize_from_valid seen scopes out :
  normalize_from seen scopes = Ok out -> NoDup out /\ (forall s, s ∈ out -> s ∈ valid_scopes /\ s ∉ seen) /\ (forall s, s ∈ scopes -> s ∈ seen \/ s ∈ out).
Proof.
  revert seen out. induction scopes as [|sc rest IH]; intros seen out; cbn.
  { intros [= <-]. split_and!; [constructor|set_solver|set_solver]. }
  case_bool_decide as Hv; [|done]. cbn. case_bool_decide as Hs.
  - intros (H1 & H2 & H3)%IH. split_and!; [done|done|set_solver].
  - destruct (normalize_from (sc :: seen) rest) as [l|] eqn:Hn; cbn; [|done]. intros [= <-].
    destruct (IH _ _ Hn) as (H1 & H2 & H3). split_and!; [constructor; [|done]; intros H; destruct (H2 _ H); set_solver| |].
    + intros s [->|Hin]%elem_of_cons; [done|]. destruct (H2 _ Hin). set_solver.
    + intros s [->|Hin]%elem_of_cons; [set_solver|]. destruct (H3 _ Hin); set_solver.
Qed.
Lemma normalize_scopes_valid scopes out : normalize_scopes scopes = Ok out -> out <> [] /\ forall s, s ∈ out -> s ∈ valid_scopes.
Proof.
  unfold normalize_scopes. destruct scopes as [|s scopes]; [intros [= <-]; split; [done|]; intros s ->%list_elem_of_singleton; by left|].
  intros (_ & H1 & H2)%normalize_from_valid. split; [|intros x Hx; by apply H1]. intros ->. destruct (H2 s); [left|set_solver..].
Qed.
(** A key made from valid scopes is a general one or the registry's. *)
Lemma normalized_purpose k scopes : normalize_scopes scopes = Ok (k_scopes k) -> key_purpose k = General \/ key_purpose k = RegistryOnly.
Proof.
  intros [Hne Hv]%normalize_scopes_valid. unfold key_purpose. destruct (k_scopes k) as [|s l]; [by left|].
  assert (special_purpose (s :: l) = None) as ->.
  { clear Hne. induction (s :: l) as [|x r IH]; [done|]. cbn. assert (Hx : x ∈ valid_scopes) by (apply Hv; left).
    destruct (String.eqb_spec x scope_billing) as [->|]; [by vm_compute in Hx; set_solver|].
    destruct (String.eqb_spec x scope_migration) as [->|]; [by vm_compute in Hx; set_solver|]. apply IH. intros y Hy. apply Hv. by right. }
  destruct (existsb _ _); [by left|by right].
Qed.
