(* ===== verification/Accounts.v ===== *)
(** * Users, organizations, workspaces and memberships: the tables

    models/user.go, models/organization.go, models/workspace.go and the calls of storage/repositories/workspace_repo.go,
    user_repo.go, custom_role_repo.go and organization_repo.go that the services of [Members] and [GroupSync] make. A call
    takes the next fault of [w_faults]: it then answers an error and leaves the tables alone; a transaction is one call.
    A new row gets [w_seq], which no row of the tables has; e-mail addresses and names are ASCII. *)
From S2P Require Import Prelude GoStrings GoTime Quota ManifestSpec GitOps Roles ApiScopes.
#[local] Open Scope Z_scope.
#[local] Open Scope list_scope.

(** ** Rows *)

Definition kind_human : string := "user".
Definition kind_service : string := "service".
Definition system_admin : string := "admin".
Definition system_user : string := "user".
Definition source_local : string := "local".

Record user := User {
  u_id : N; u_name : string; u_username : string; u_email : string; u_password : string; u_role : string; u_active : bool;
  u_suspended_at : option instant; u_suspended_reason : string; u_suspended_until : option instant; u_auth_source : string;
  u_kind : string; u_org : option N; u_workspace_limit : option Z; u_membership_limit : option Z; u_can_create : option bool;
  u_signup : string }.
Definition is_service (u : user) : bool := String.eqb (u_kind u) kind_service.
Definition is_admin (u : user) : bool := String.eqb (u_role u) system_admin && negb (is_service u).
Definition user_suspended (u : user) (now : instant) : bool :=
  match u_suspended_at u with
  | None => false
  | Some _ => match u_suspended_until u with None => true | Some t => now <? t end
  end.
Definition is_external (u : user) : bool :=
  let src := to_lower (trim_space (u_auth_source u)) in negb (String.eqb src "") && negb (String.eqb src source_local).

Record organization := Organization {
  o_id : N; o_default : bool; o_owner : N; o_max_workspaces : Z; o_per_user : option Z; o_memberships : option Z;
  o_per_owner : option Z; o_creation : option string; o_cluster : option N }.
Definition workspaces_unlimited (o : organization) : bool := o_max_workspaces o <? 0.

(** The columns of a workspace row that these services read and write; its restriction is [Restriction]'s *)
Record space := Space {
  sp_name : string; sp_display : string; sp_description : string; sp_owner : N; sp_org : option N; sp_privileged : bool;
  sp_system : bool; sp_plan : option N; sp_cluster : option N }.

(** A membership; its key is the workspace and the user, which the table keeps unique. *)
Record member := Member { m_role : string; m_custom : option N; m_managed : string }.

Definition invite_pending : string := "pending".
Definition invite_accepted : string := "accepted".
Record invitation := Invitation {
  i_id : N; i_workspace : N; i_email : string; i_role : string; i_hash : string; i_status : string; i_by : N; i_expires : instant }.
Definition with_status (st : string) (i : invitation) : invitation :=
  Invitation (i_id i) (i_workspace i) (i_email i) (i_role i) (i_hash i) st (i_by i) (i_expires i).

Inductive acc_err :=
| ErrNotFound | ErrStorage | ErrDuplicate
| ErrNameTaken | ErrNameInvalid | ErrNameReserved | ErrSystemNameLocked | ErrSystemProtected
| ErrLastOwner | ErrAlreadyMember | ErrInvitePending | ErrInvalidInvite | ErrInvitationClaimed | ErrInvalidRole
| ErrServiceAccountOwner | ErrOutranked | ErrRoleAboveSelf
| ErrWorkspaceLimitReached | ErrOrgWorkspaceLimitReached | ErrMembershipLimitReached
| ErrCreationDenied (mode : string) | ErrQuota (e : quota_err)
| ErrRole (e : role_err) | ErrRoleNotFound | ErrRoleInUse
| ErrInvalidKey | ErrUnknownScope (s : string) | ErrUnauthorized (why : string)
| ErrForbidden | ErrBadRequest (what : string) | ErrEntitlement | ErrOutOfFuel.

(** What else the services tell: the default network, the seeded middlewares, the first workspace, shredded keys, an audited event *)
Inductive hook := HookNetwork (ws : N) | HookSeed (ws : N) | HookAdopt (u ws : N) | HookShred (ws : N) | HookAudit (u : N) (event : string) (ws : N).

Record world := World {
  w_users : gmap N user; w_orgs : gmap N organization; w_spaces : gmap N space; w_members : gmap (N * N) member;
  w_invites : gmap N invitation; w_roles : gmap N custom_role;
  w_keys : gmap N api_key; w_plans : gmap string N; w_seq : N; w_now : instant;
  w_faults : list bool; w_told : list hook }.
Definition set_users (f : gmap N user -> gmap N user) (w : world) : world :=
  World (f (w_users w)) (w_orgs w) (w_spaces w) (w_members w) (w_invites w) (w_roles w) (w_keys w) (w_plans w) (w_seq w) (w_now w) (w_faults w) (w_told w).
Definition set_orgs (f : gmap N organization -> gmap N organization) (w : world) : world :=
  World (w_users w) (f (w_orgs w)) (w_spaces w) (w_members w) (w_invites w) (w_roles w) (w_keys w) (w_plans w) (w_seq w) (w_now w) (w_faults w) (w_told w).
Definition set_spaces (f : gmap N space -> gmap N space) (w : world) : world :=
  World (w_users w) (w_orgs w) (f (w_spaces w)) (w_members w) (w_invites w) (w_roles w) (w_keys w) (w_plans w) (w_seq w) (w_now w) (w_faults w) (w_told w).
Definition set_members (f : gmap (N * N) member -> gmap (N * N) member) (w : world) : world :=
  World (w_users w) (w_orgs w) (w_spaces w) (f (w_members w)) (w_invites w) (w_roles w) (w_keys w) (w_plans w) (w_seq w) (w_now w) (w_faults w) (w_told w).
Definition set_invites (f : gmap N invitation -> gmap N invitation) (w : world) : world :=
  World (w_users w) (w_orgs w) (w_spaces w) (w_members w) (f (w_invites w)) (w_roles w) (w_keys w) (w_plans w) (w_seq w) (w_now w) (w_faults w) (w_told w).
Definition set_roles (f : gmap N custom_role -> gmap N custom_role) (w : world) : world :=
  World (w_users w) (w_orgs w) (w_spaces w) (w_members w) (w_invites w) (f (w_roles w)) (w_keys w) (w_plans w) (w_seq w) (w_now w) (w_faults w) (w_told w).
Definition set_keys (f : gmap N api_key -> gmap N api_key) (w : world) : world :=
  World (w_users w) (w_orgs w) (w_spaces w) (w_members w) (w_invites w) (w_roles w) (f (w_keys w)) (w_plans w) (w_seq w) (w_now w) (w_faults w) (w_told w).
Definition set_faults (f : list bool) (w : world) : world :=
  World (w_users w) (w_orgs w) (w_spaces w) (w_members w) (w_invites w) (w_roles w) (w_keys w) (w_plans w) (w_seq w) (w_now w) f (w_told w).
Definition next_id (w : world) : world :=
  World (w_users w) (w_orgs w) (w_spaces w) (w_members w) (w_invites w) (w_roles w) (w_keys w) (w_plans w) (w_seq w + 1)%N (w_now w) (w_faults w) (w_told w).
Definition told (h : hook) (w : world) : world :=
  World (w_users w) (w_orgs w) (w_spaces w) (w_members w) (w_invites w) (w_roles w) (w_keys w) (w_plans w) (w_seq w) (w_now w) (w_faults w) (h :: w_told w).

(** ** Operations on the tables *)

Definition M (A : Type) : Type := world -> world * result acc_err A.
#[export] Instance M_ret : MRet M := fun A a w => (w, Ok a).
#[export] Instance M_bind : MBind M := fun A B k m w =>
  match m w with (w1, Ok a) => k a w1 | (w1, Err e) => (w1, Err e) end.
Definition throw {A} (e : acc_err) : M A := fun w => (w, Err e).
(** A repository call *)
Definition call {A} (f : world -> world * result acc_err A) : M A := fun w =>
  let w' := set_faults (tail (w_faults w)) w in
  if default false (head (w_faults w)) then (w', Err ErrStorage) else f w'.
Definition query {A} (f : world -> result acc_err A) : M A := call (fun w => (w, f w)).
Definition write (f : world -> world) : M unit := call (fun w => (f w, Ok tt)).
(** [if x, err := m; err == nil]: the answer, or nothing for an error *)
Definition attempt {A} (m : M A) : M (option A) := fun w =>
  match m w with (w1, Ok a) => (w1, Ok (Some a)) | (w1, Err _) => (w1, Ok None) end.
(** An error answered as another one *)
Definition or_err {A} (e : acc_err) (m : M A) : M A := fun w =>
  match m w with (w1, Err _) => (w1, Err e) | r => r end.
Definition now : M instant := fun w => (w, Ok (w_now w)).
Definition tell (h : hook) : M unit := fun w => (told h w, Ok tt).
Definition refuse_if (b : bool) (e : acc_err) : M unit := if b then throw e else mret tt.

(** [Update] with its [WHERE]: no row, no error *)
Definition find_row {A} (m : gmap N A) (id : N) : result acc_err A := of_option ErrNotFound (m !! id).
Definition row_where {A} (p : A -> bool) (m : gmap N A) : option A := find_first p (map_to_list m).*2.
Definition count_members (p : N * N -> member -> bool) (m : gmap (N * N) member) : Z :=
  Z.of_nat (length (List.filter (fun kv => p kv.1 kv.2) (map_to_list m))).

(** *** Users *)

Definition norm_email (e : string) : string := to_lower (trim_space e).
Definition find_user (id : N) : M user := query (fun w => find_row (w_users w) id).
Definition find_user_by_email (e : string) : M user :=
  query (fun w => of_option ErrNotFound (row_where (fun u => String.eqb (u_email u) (norm_email e)) (w_users w))).
Definition exists_by_email (e : string) : M bool :=
  query (fun w => Ok (existsb (fun u => String.eqb (u_email u) (norm_email e)) (map_to_list (w_users w)).*2)).
Definition count_by_role (role : string) : M Z :=
  query (fun w => Ok (Z.of_nat (length (List.filter
    (fun u => String.eqb (u_role u) role && negb (is_service u)) (map_to_list (w_users w)).*2)))).
Definition update_user (u : user) : M unit := write (set_users <[u_id u := u]>).

(** *** Organizations: services/organization/organization.go *)

Definition find_org (id : N) : M organization := query (fun w => find_row (w_orgs w) id).
Definition default_org_id : M N :=
  o ← attempt (query (fun w => of_option ErrNotFound (row_where o_default (w_orgs w))));
  mret (match o with Some o => o_id o | None => 0%N end).
Definition resolve_org (id : option N) : M N :=
  match id with
  | Some n => if (n =? 0)%N then default_org_id else mret n
  | None => default_org_id
  end.
Definition home_organization (u : user) : M N := resolve_org (u_org u).
Definition cap_reached (org : N) : M bool :=
  if (org =? 0)%N then mret false
  else
    o ← attempt (find_org org);
    match o with
    | None => mret false
    | Some o =>
        if workspaces_unlimited o then mret false
        else
          n ← attempt (query (fun w => Ok (Z.of_nat (length (List.filter
                 (fun s => bool_decide (sp_org s = Some org)) (map_to_list (w_spaces w)).*2)))));
          mret (match n with Some n => o_max_workspaces o <=? n | None => false end)
    end.

(** *** Memberships *)

Definition find_member (ws u : N) : M member := query (fun w => of_option ErrNotFound (w_members w !! (ws, u))).
Definition add_member (ws u : N) (m : member) : M unit :=
  call (fun w => match w_members w !! (ws, u) with
                 | Some _ => (w, Err ErrDuplicate)
                 | None => (set_members <[(ws, u) := m]> w, Ok tt)
                 end).
(** [UpdateMemberRole] of the repository: a built-in role clears the custom one. *)
Definition repo_update_role (ws u : N) (role : string) : M unit :=
  write (set_members (alter (fun m => Member role None (m_managed m)) (ws, u))).
Definition repo_set_custom (ws u custom : N) (base : string) : M unit :=
  write (set_members (alter (fun m => Member base (Some custom) (m_managed m)) (ws, u))).
Definition repo_remove_member (ws u : N) : M unit := write (set_members (delete (ws, u))).
Definition set_managed_by (ws u : N) (manager : string) : M unit :=
  write (set_members (alter (fun m => Member (m_role m) (m_custom m) manager) (ws, u))).
Definition list_managed_by (u : N) (manager : string) : M (list N) :=
  query (fun w => Ok ((List.filter (fun kv : (N * N) * member => (kv.1.2 =? u)%N && String.eqb (m_managed kv.2) manager)
                                   (map_to_list (w_members w))).*1.*1)).
Definition owner_of (ws : N) (k : N * N) (m : member) : bool := (k.1 =? ws)%N && String.eqb (m_role m) role_owner.
Definition count_owners (ws : N) : M Z := query (fun w => Ok (count_members (owner_of ws) (w_members w))).
Definition member_count (ws : N) : M Z := query (fun w => Ok (count_members (fun k _ => (k.1 =? ws)%N) (w_members w))).
Definition in_tenant_space (w : world) (ws : N) : bool :=
  match w_spaces w !! ws with Some s => negb (sp_system s) | None => false end.
Definition count_owned_by (u : N) : M Z :=
  query (fun w => Ok (count_members
    (fun k m => (k.2 =? u)%N && String.eqb (m_role m) role_owner && in_tenant_space w k.1) (w_members w))).
Definition count_joined_by (u : N) : M Z :=
  query (fun w => Ok (count_members
    (fun k m => (k.2 =? u)%N && negb (String.eqb (m_role m) role_owner) && in_tenant_space w k.1) (w_members w))).

(** *** Workspaces *)

Definition find_space (id : N) : M space := query (fun w => find_row (w_spaces w) id).
Definition find_space_by_name (name : string) : M (N * space) :=
  query (fun w => of_option ErrNotFound (find_first (fun kv => String.eqb (sp_name kv.2) name) (map_to_list (w_spaces w)))).
Definition space_name_taken (w : world) (name : string) : bool :=
  existsb (fun s => String.eqb (sp_name s) name) (map_to_list (w_spaces w)).*2.
Definition exists_by_name (name : string) : M bool := query (fun w => Ok (space_name_taken w name)).
Definition find_system : M N :=
  query (fun w => of_option ErrNotFound (fst <$> find_first (fun kv => sp_system kv.2) (map_to_list (w_spaces w)))).
(** The workspace and its owner's membership, in one transaction *)
Definition create_with_owner (s : space) : M N :=
  call (fun w =>
    if space_name_taken w (sp_name s) then (w, Err ErrDuplicate)
    else let id := w_seq w in
         (next_id (set_members <[(id, sp_owner s) := Member role_owner None ""]> (set_spaces <[id := s]> w)), Ok id)).
Definition assign_plan (id plan : N) : M unit :=
  write (set_spaces (alter (fun s => Space (sp_name s) (sp_display s) (sp_description s) (sp_owner s) (sp_org s)
                                           (sp_privileged s) (sp_system s) (Some plan) (sp_cluster s)) id)).
Definition save_space (id : N) (s : space) : M unit := write (set_spaces <[id := s]>).
Definition find_plan (name : string) : M N := query (fun w => of_option ErrNotFound (w_plans w !! name)).
(** [Delete]: of the tables here, the memberships, the invitations and the row *)
Definition delete_space (id : N) : M unit :=
  write (fun w => set_spaces (delete id) (set_invites (filter (fun kv => i_workspace kv.2 <> id))
                  (set_members (filter (fun kv => kv.1.1 <> id)) w))).

(** *** Invitations *)

Definition create_invitation (ws : N) (email role hash : string) (by_ : N) (expires : instant) : M invitation :=
  call (fun w =>
    let i := Invitation (w_seq w) ws email role hash invite_pending by_ expires in
    if existsb (fun j => String.eqb (i_hash j) hash) (map_to_list (w_invites w)).*2 then (w, Err ErrDuplicate)
    else (next_id (set_invites <[w_seq w := i]> w), Ok i)).
Definition pending_invitation_exists (ws : N) (email : string) : M bool :=
  query (fun w => Ok (existsb (fun i => (i_workspace i =? ws)%N && String.eqb (i_email i) (norm_email email)
                                        && String.eqb (i_status i) invite_pending && (w_now w <? i_expires i))
                              (map_to_list (w_invites w)).*2)).
Definition find_invitation_by_hash (h : string) : M invitation :=
  query (fun w => of_option ErrNotFound (row_where (fun i => String.eqb (i_hash i) h) (w_invites w))).
Definition find_invitation (id : N) : M invitation := query (fun w => find_row (w_invites w) id).
Definition update_invitation (i : invitation) : M unit := write (set_invites <[i_id i := i]>).

(** *** Custom roles *)

Definition in_workspace (ws : N) (r : custom_role) : bool :=
  match cr_workspace r with None => true | Some n => (n =? ws)%N end.
Definition find_role (id : N) : M custom_role := query (fun w => find_row (w_roles w) id).
Definition find_role_in (ws id : N) : M custom_role :=
  query (fun w => match w_roles w !! id with
                  | Some r => if in_workspace ws r then Ok r else Err ErrNotFound
                  | None => Err ErrNotFound
                  end).
Definition create_role (ws : N) (name base : string) (perms : list string) : M N :=
  call (fun w => (next_id (set_roles <[w_seq w := CustomRole (Some ws) name base perms]> w), Ok (w_seq w))).
Definition update_role (id : N) (r : custom_role) : M unit := write (set_roles <[id := r]>).
Definition delete_role (id : N) : M unit := write (set_roles (delete id)).
Definition count_members_using (id : N) : M Z :=
  query (fun w => Ok (count_members (fun _ m => bool_decide (m_custom m = Some id)) (w_members w))).

(** ** Handles: slug/slug.go *)

Definition reserved : list string :=
  ["system"; "current"; "me"; "admin"; "api"; "v1"; "internal"; "registry"; "login"; "logout"; "invitations"; "new"; "settings";
   "catalog"; "organizations"; "orgs"; "org"; "workspaces"; "users"; "auth"; "health"].
Definition is_reserved (s : string) : bool := bool_decide (make_slug s "" ∈ reserved).

(** The [i]-th name tried for a base: the base itself, then [base-1], [base-2], ... *)
Definition numbered (base : string) (i : nat) : string :=
  match i with O => base | S _ => base +:+ "-" +:+ itoa (Z.of_nat i) end.
(** [UniqueAvailable], with the lookup it is given; [i] names tried so far *)
Fixpoint unique_from (taken : string -> M bool) (fuel : nat) (base : string) (i : nat) : M string :=
  match fuel with
  | O => throw ErrOutOfFuel
  | S fuel =>
      let candidate := numbered base i in
      if is_reserved candidate then unique_from taken fuel base (S i)
      else
        taken candidate ≫= fun t : bool => if t then unique_from taken fuel base (S i) else mret candidate
  end.
Definition unique_available (taken : string -> M bool) (fuel : nat) (name fallback : string) : M string :=
  let base := make_slug name fallback in
  unique_from taken fuel (or_else base fallback) 0.
(** Enough names for a table of [n] rows: one is neither reserved nor taken *)
Definition name_fuel (n : nat) : nat := S (length reserved + n).

(** *** The hooks of a new user: [BeforeCreate], the unique columns, [AfterCreate] *)

Definition username_taken (w : world) (name : string) : bool :=
  existsb (fun u => String.eqb (u_username u) name) (map_to_list (w_users w)).*2.
Definition before_at (e : string) : string := (cut "@" e).1.1.
(** The handle [BeforeCreate] gives; no lookup of the transaction fails apart from the transaction. *)
Definition choose_username (w : world) (u : user) : option string :=
  let h := make_slug (u_username u) "" in
  let taken (c : string) : M bool := fun w => (w, Ok (username_taken w c)) in
  if negb (String.eqb h "") then Some h
  else
    match (unique_available taken (name_fuel (size (w_users w))) (before_at (u_email u)) "user" w).2 with
    | Ok h => Some h
    | Err _ => None
    end.
Definition with_handle (id : N) (signup handle : string) (u : user) : user :=
  User id (u_name u) handle (u_email u) (u_password u) (u_role u) (u_active u) (u_suspended_at u) (u_suspended_reason u)
       (u_suspended_until u) (u_auth_source u) (u_kind u) (u_org u) (u_workspace_limit u) (u_membership_limit u) (u_can_create u) signup.
(** The first user of an organization nobody owns becomes its owner. *)
Definition claim_org (u : user) : gmap N organization -> gmap N organization :=
  match u_org u with
  | None => id
  | Some org =>
      if (org =? 0)%N then id
      else alter (fun o => if (o_owner o =? 0)%N then
                        Organization (o_id o) (o_default o) (u_id u) (o_max_workspaces o) (o_per_user o) (o_memberships o)
                                     (o_per_owner o) (o_creation o) (o_cluster o)
                      else o) org
  end.
Definition insert_user (u : user) (w : world) : result acc_err (world * user) :=
  let signup := if String.eqb (u_signup u) "" && is_external u then to_lower (trim_space (u_auth_source u)) else u_signup u in
  match choose_username w u with
  | None => Err ErrStorage
  | Some h =>
      if username_taken w h || existsb (fun v => String.eqb (u_email v) (u_email u)) (map_to_list (w_users w)).*2 then Err ErrDuplicate
      else let u := with_handle (w_seq w) signup h u in
           Ok (next_id (set_orgs (claim_org u) (set_users <[u_id u := u]> w)), u)
  end.
(** [CreateUserFromInvitation]: the claim, the user and the membership, or nothing *)
Definition create_user_from_invitation (u : user) (i : invitation) : M unit :=
  call (fun w =>
    match w_invites w !! i_id i with
    | Some row =>
        if String.eqb (i_status row) invite_pending then
          match insert_user u (set_invites <[i_id i := with_status invite_accepted row]> w) with
          | Err e => (w, Err e)
          | Ok (w', u) =>
              match w_members w' !! (i_workspace i, u_id u) with
              | Some _ => (w, Err ErrDuplicate)
              | None => (set_members <[(i_workspace i, u_id u) := Member (i_role i) None ""]> w', Ok tt)
              end
          end
        else (w, Err ErrInvitationClaimed)
    | None => (w, Err ErrInvitationClaimed)
    end).
