(* ===== verification/Members.v ===== *)
(** * Workspaces, members, invitations and custom roles: the services

    services/workspace/workspace.go, creation.go and invitation_signup.go; services/customrole/service.go; and the requests of
    handlers/workspace_handler.go and handlers/custom_role_handler.go that change a membership, behind the scope and the role or
    permission their routes require (routes/workspace_routes.go, routes/role_routes.go, middlewares/workspace.go). *)
From S2P Require Import Prelude GoStrings GoTime Sha256 Quota ManifestSpec GitOps Roles Accounts.
#[local] Open Scope Z_scope.
#[local] Open Scope list_scope.

Definition invitation_ttl : duration := 7 * 24 * (60 * minute).
Definition hash_token (raw : string) : string := hex_hash (sha256 raw).

Definition creation_anyone : string := "anyone".
Definition creation_except_invited : string := "except_invited".
Definition creation_admins_only : string := "admins_only".
Definition creation_console : string := "console".
Definition valid_workspace_creation (mode : string) : bool :=
  bool_decide (mode ∈ [creation_anyone; creation_except_invited; creation_admins_only; creation_console]).
Definition signup_invitation : string := "invitation".

(** What is wired into the service. A setting the code reads through a function is what the function answers; [None] is a
    function that is not wired. *)
Record service := Service {
  sv_quota : option quota_service; sv_orgs : bool; sv_org_entitled : option bool; sv_global : option Z; sv_override : option bool;
  sv_member_global : option Z; sv_member_override : option bool; sv_mode : option string; sv_console : option string;
  sv_plans : bool; sv_nets : bool; sv_seeder : bool; sv_adopter : bool; sv_keys : bool }.

(** [CreationPolicy] *)
Record creation_policy := CreationPolicy { cp_allowed : bool; cp_mode : string; cp_source : string; cp_console : string }.

Definition is_yes (o : option bool) : bool := default false o.
(** [bound]: [None] is unlimited. *)
Definition bound (n : Z) : option Z := if n <? 0 then None else Some n.

Section Service.
Context (sv : service) (d : quota_db).

(** ** Limits *)

Definition home_org (u : N) : M (option organization) :=
  if negb (sv_orgs sv) then mret None
  else
    r ← attempt (find_user u);
    match r with
    | None => mret None
    | Some u =>
        home_organization u ≫= fun org : N =>
        if (org =? 0)%N then mret None else attempt (find_org org)
    end.
Definition org_limits (u : N) : M (option organization) :=
  if is_yes (sv_org_entitled sv) then home_org u else mret None.
Definition organization_for (owner : N) : M (N * option N) :=
  if negb (sv_orgs sv) then mret (0%N, None)
  else
    r ← attempt (find_user owner);
    match r with
    | None => mret (0%N, None)
    | Some u =>
        home_organization u ≫= fun org : N =>
        if (org =? 0)%N then mret (0%N, None)
        else o ← attempt (find_org org); mret (org, o ≫= o_cluster)
    end.

Definition user_override (entitled : option bool) (get : user -> option Z) (u : N) : M (option Z) :=
  if is_yes entitled then r ← attempt (find_user u); mret (r ≫= get) else mret None.
Definition platform_limit (global : option Z) : option Z := global ≫= bound.

(** [effectiveWorkspaceLimit] *)
Definition effective_workspace_limit (u : N) : M (option Z) :=
  o ← user_override (sv_override sv) u_workspace_limit u;
  match o with
  | Some n => mret (bound n)
  | None =>
      org ← org_limits u;
      let per_owner := match org with
                       | Some g => if (o_owner g =? u)%N && is_yes (sv_override sv) then o_per_owner g else None
                       | None => None
                       end in
      match per_owner with
      | Some n => mret (bound n)
      | None =>
          match org ≫= o_per_user with
          | Some n => mret (bound n)
          | None => mret (platform_limit (sv_global sv))
          end
      end
  end.
(** [effectiveMembershipLimit] *)
Definition effective_membership_limit (u : N) : M (option Z) :=
  o ← user_override (sv_member_override sv) u_membership_limit u;
  match o with
  | Some n => mret (bound n)
  | None =>
      org ← org_limits u;
      match org ≫= o_memberships with
      | Some n => mret (bound n)
      | None => mret (platform_limit (sv_member_global sv))
      end
  end.

(** A count against a limit; a count that fails lets it through. *)
Definition under_limit (limit : M (option Z)) (count : M Z) (e : acc_err) : M unit :=
  l ← limit;
  match l with
  | None => mret tt
  | Some l =>
      n ← attempt count;
      match n with
      | Some n => if l <=? n then throw e else mret tt
      | None => mret tt
      end
  end.

Definition is_wired (global : option Z) (entitled : option bool) : bool :=
  bool_decide (is_Some global) || bool_decide (is_Some entitled).
(** [canOwnAnother] *)
Definition can_own_another (u : N) : M unit :=
  r ← attempt (find_user u);
  if default false (is_service <$> r) then throw ErrServiceAccountOwner
  else if negb (is_wired (sv_global sv) (sv_override sv)) then mret tt
  else under_limit (effective_workspace_limit u) (count_owned_by u) ErrWorkspaceLimitReached.
(** [CanJoinAnother] *)
Definition can_join_another (u : N) : M unit :=
  if negb (is_wired (sv_member_global sv) (sv_member_override sv)) then mret tt
  else under_limit (effective_membership_limit u) (count_joined_by u) ErrMembershipLimitReached.
(** [checkMemberCapacity] *)
Definition check_member_capacity (ws : N) : M unit :=
  match sv_quota sv with
  | None => mret tt
  | Some _ =>
      n ← attempt (member_count ws);
      match n with
      | None => mret tt
      | Some n => match check_create (sv_quota sv) d ws ResourceMembers n with Some e => throw (ErrQuota e) | None => mret tt end
      end
  end.

(** ** Creating and deleting workspaces *)

Definition console_only : bool := bool_decide (sv_mode sv = Some creation_console).
Definition mode_allows (mode : string) (u : user) : M bool :=
  if String.eqb mode creation_console then mret false
  else if String.eqb mode creation_except_invited then mret (negb (String.eqb (u_signup u) signup_invitation))
  else if String.eqb mode creation_admins_only then
    org ← home_org (u_id u); mret (match org with Some o => (o_owner o =? u_id u)%N | None => false end)
  else mret true.
Definition policy (u : N) : M creation_policy :=
  if console_only then mret (CreationPolicy false creation_console "platform" (default "" (sv_console sv)))
  else
    r ← attempt (find_user u);
    match r with
    | None => mret (CreationPolicy true creation_anyone "platform" "")
    | Some usr =>
        if is_admin usr then mret (CreationPolicy true "" "admin" "")
        else
          match (if is_yes (sv_override sv) then u_can_create usr else None) with
          | Some b => mret (CreationPolicy b "" "user" "")
          | None =>
              let platform := match sv_mode sv with
                              | Some m => if valid_workspace_creation m then m else creation_anyone
                              | None => creation_anyone
                              end in
              org ← org_limits u;
              let '(mode, source) :=
                match org ≫= o_creation with
                | Some m => if valid_workspace_creation m then (m, "organization") else (platform, "platform")
                | None => (platform, "platform")
                end in
              b ← mode_allows mode usr;
              mret (CreationPolicy b mode source "")
          end
    end.
Definition can_create (u : N) : M unit :=
  r ← attempt (find_user u);
  if default false (is_service <$> r) then mret tt
  else p ← policy u; if cp_allowed p then mret tt else throw (ErrCreationDenied (cp_mode p)).

Definition unique_name (base : string) : M string := fun w =>
  unique_available exists_by_name (name_fuel (size (w_spaces w))) base "workspace" w.
Definition tell_if (b : bool) (h : hook) : M unit := if b then tell h else mret tt.

Definition create_named (owner : N) (name display description : string) (org : N) (cluster : option N) : M N :=
  let display := if String.eqb (trim_space display) "" then name else display in
  let s := if (org =? 0)%N then Space name display description owner None false false None None
           else Space name display description owner (Some org) false false None cluster in
  id ← create_with_owner s;
  _ ← tell_if (sv_nets sv) (HookNetwork id);
  _ ← tell_if (sv_seeder sv) (HookSeed id);
  _ ← tell_if (sv_adopter sv) (HookAdopt owner id);
  mret id.
(** [Create] *)
Definition create (owner : N) (display handle description : string) : M N :=
  _ ← can_create owner;
  _ ← can_own_another owner;
  oc ← organization_for owner;
  _ ← (if negb (oc.1 =? 0)%N && is_yes (sv_org_entitled sv) then
         cap_reached oc.1 ≫= fun full : bool => if full then throw ErrOrgWorkspaceLimitReached else mret tt
       else mret tt);
  name ← unique_name (or_else (trim_space handle) display);
  create_named owner name display description oc.1 oc.2.
(** [CreateForOwner] *)
Definition create_for_owner (owner : N) (display handle : string) : M N :=
  let name := make_slug handle "" in
  if String.eqb name "" then throw ErrNameInvalid
  else if is_reserved name then throw ErrNameReserved
  else
    exists_by_name name ≫= fun taken : bool =>
    if taken then throw ErrNameTaken
    else oc ← organization_for owner; create_named owner name display "" oc.1 oc.2.
(** [SetName], then the handler's save *)
Definition rename (id : N) (new : string) : M unit :=
  s ← find_space id;
  let name := make_slug new "" in
  if String.eqb name "" then throw ErrNameInvalid
  else if String.eqb name (sp_name s) then save_space id s
  else if sp_system s then throw ErrSystemNameLocked
  else if is_reserved name then throw ErrNameReserved
  else
    exists_by_name name ≫= fun taken : bool =>
    if taken then throw ErrNameTaken
    else save_space id (Space name (sp_display s) (sp_description s) (sp_owner s) (sp_org s) (sp_privileged s) (sp_system s)
                              (sp_plan s) (sp_cluster s)).
(** [Delete] *)
Definition delete_workspace (id : N) : M unit :=
  s ← find_space id;
  if sp_system s then throw ErrSystemProtected
  else _ ← delete_space id; tell_if (sv_keys sv) (HookShred id).

Definition system_name : string := "system".
Definition unlimited_plan : string := "Unlimited".
Definition pin_unlimited_plan (id : N) : M unit :=
  if negb (sv_plans sv) then mret tt
  else
    p ← attempt (find_plan unlimited_plan);
    match p with None => mret tt | Some p => _ ← attempt (assign_plan id p); mret tt end.
(** [EnsureSystem] *)
Definition ensure_system (owner : N) : M N :=
  have ← attempt find_system;
  match have with
  | Some id => mret id
  | None =>
      exists_by_name system_name ≫= fun taken : bool =>
      name ← (if taken then unique_name "Miabi System" else mret system_name);
      id ← create_with_owner (Space name "Miabi System"
             "Built-in workspace for platform-managed apps (e.g. per-node gateways). Managed by platform admins."
             owner None true true None None);
      _ ← pin_unlimited_plan id;
      _ ← tell_if (sv_nets sv) (HookNetwork id);
      mret id
  end.

(** ** Members *)

(** [guardRank] *)
Definition guard_rank (ws : N) (actor : string) (target : N) (new : option string) : M unit :=
  if negb (role_valid actor) then throw ErrOutranked
  else
    t ← find_member ws target;
    if rank actor <? rank (m_role t) then throw ErrOutranked
    else match new with
         | Some r => if rank actor <? rank r then throw ErrRoleAboveSelf else mret tt
         | None => mret tt
         end.
(** [guardLastOwner] *)
Definition guard_last_owner (ws u : N) : M unit :=
  m ← find_member ws u;
  if negb (String.eqb (m_role m) role_owner) then mret tt
  else n ← count_owners ws; if n <=? 1 then throw ErrLastOwner else mret tt.
(** What a new role asks of its member: a demoted owner must not be the last, a new owner may own another. *)
Definition guard_new_role (ws u : N) (role : string) : M unit :=
  if negb (String.eqb role role_owner) then guard_last_owner ws u
  else
    m ← attempt (find_member ws u);
    if match m with Some m => String.eqb (m_role m) role_owner | None => false end then mret tt else can_own_another u.

(** [UpdateMemberRole] *)
Definition update_member_role (ws : N) (actor : string) (u : N) (role : string) : M unit :=
  if negb (role_valid role) then throw ErrInvalidRole
  else
    _ ← guard_rank ws actor u (Some role);
    _ ← guard_new_role ws u role;
    repo_update_role ws u role.
(** [AssignCustomRole] *)
Definition assign_custom_role (ws : N) (actor : string) (u custom : N) (base : string) : M unit :=
  if negb (role_valid base) then throw ErrInvalidRole
  else
    _ ← guard_rank ws actor u (Some base);
    _ ← guard_new_role ws u base;
    repo_set_custom ws u custom base.
(** [RemoveMember]: its checks, then the row *)
Definition removal_checks (ws : N) (actor : string) (u : N) : M unit := _ ← guard_rank ws actor u None; guard_last_owner ws u.
Definition remove_member (ws : N) (actor : string) (u : N) : M unit :=
  _ ← removal_checks ws actor u;
  repo_remove_member ws u.

(** ** Invitations *)

(** [Invite]; [raw] is the token's 64 random hexadecimal digits. *)
Definition invite (ws : N) (actor : string) (inviter : N) (email role raw : string) : M invitation :=
  if negb (role_valid role) then throw ErrInvalidRole
  else if negb (role_valid actor) || (rank actor <? rank role) then throw ErrRoleAboveSelf
  else
    let email := norm_email email in
    u ← attempt (find_user_by_email email);
    _ ← (match u with
         | Some u => m ← attempt (find_member ws (u_id u)); match m with Some _ => throw ErrAlreadyMember | None => mret tt end
         | None => mret tt
         end);
    pending ← attempt (pending_invitation_exists ws email);
    _ ← refuse_if (default false pending) ErrInvitePending;
    _ ← check_member_capacity ws;
    t ← now;
    create_invitation ws email role (hash_token raw) inviter (t + invitation_ttl).

Definition open_invitation (i : invitation) (t : instant) : bool :=
  String.eqb (i_status i) invite_pending && negb (i_expires i <? t).
(** [acceptInvitation] *)
Definition accept_invitation (i : invitation) (u : N) : M space :=
  t ← now;
  if negb (open_invitation i t) then throw ErrInvalidInvite
  else
    m ← attempt (find_member (i_workspace i) u);
    _ ← refuse_if (bool_decide (is_Some m)) ErrAlreadyMember;
    _ ← check_member_capacity (i_workspace i);
    _ ← (if String.eqb (i_role i) role_owner then can_own_another u else can_join_another u);
    _ ← add_member (i_workspace i) u (Member (i_role i) None "");
    _ ← update_invitation (with_status invite_accepted i);
    find_space (i_workspace i).
(** [Accept] *)
Definition accept (raw : string) (u : N) : M space :=
  i ← or_err ErrInvalidInvite (find_invitation_by_hash (hash_token raw));
  accept_invitation i u.
(** [AcceptByID] *)
Definition accept_by_id (id u : N) : M space :=
  usr ← or_err ErrInvalidInvite (find_user u);
  i ← or_err ErrInvalidInvite (find_invitation id);
  if negb (equal_fold (trim_space (i_email i)) (trim_space (u_email usr))) then throw ErrInvalidInvite
  else accept_invitation i u.

(** [PendingInvitationByToken] *)
Definition pending_invitation_by_token (raw : string) : M invitation :=
  i ← or_err ErrInvalidInvite (find_invitation_by_hash (hash_token raw));
  t ← now;
  if open_invitation i t then mret i else throw ErrInvalidInvite.
(** The user [RegisterFromInvitation] saves: the invitation's address and realm, whatever the form said *)
Definition invited_user (i : invitation) (s : space) (u : user) : user :=
  User (u_id u) (u_name u) (u_username u) (i_email i) (u_password u) (u_role u) (u_active u) (u_suspended_at u)
       (u_suspended_reason u) (u_suspended_until u) (u_auth_source u) kind_human (sp_org s) (u_workspace_limit u)
       (u_membership_limit u) (u_can_create u) signup_invitation.
(** The error of the transaction, read back by [RegisterFromInvitation] *)
Definition claim_error (email : string) (e : acc_err) : M unit :=
  match e with
  | ErrInvitationClaimed => throw ErrInvalidInvite
  | _ => taken ← attempt (exists_by_email email); if default false taken then throw ErrInvalidInvite else throw e
  end.
Definition claim (u : user) (i : invitation) : M unit := fun w =>
  match create_user_from_invitation u i w with
  | (w1, Err e) => claim_error (i_email i) e w1
  | ok => ok
  end.
(** [RegisterFromInvitation] *)
Definition register_from_invitation (raw : string) (u : user) : M space :=
  i ← pending_invitation_by_token raw;
  taken ← attempt (exists_by_email (i_email i));
  _ ← refuse_if (default true taken) ErrInvalidInvite;
  s ← or_err ErrInvalidInvite (find_space (i_workspace i));
  _ ← check_member_capacity (i_workspace i);
  _ ← claim (invited_user i s u) i;
  mret s.

(** ** Custom roles: services/customrole/service.go *)

Definition checked (i : role_input) (actor : gset string) : M unit :=
  match validate i actor with Some e => throw (ErrRole e) | None => mret tt end.
Definition role_create (ws : N) (i : role_input) (actor : gset string) : M N :=
  _ ← checked i actor;
  create_role ws (trim_space (ri_name i)) (ri_base i) (ri_permissions i).
Definition role_update (ws id : N) (i : role_input) (actor : gset string) : M unit :=
  r ← or_err ErrRoleNotFound (find_role_in ws id);
  _ ← checked i actor;
  update_role id (CustomRole (cr_workspace r) (trim_space (ri_name i)) (ri_base i) (ri_permissions i)).
Definition role_delete (ws id : N) : M unit :=
  _ ← or_err ErrRoleNotFound (find_role_in ws id);
  n ← count_members_using id;
  if 0 <? n then throw ErrRoleInUse else delete_role id.

(** ** Requests *)

(** The access [WorkspaceScope] resolves: the custom role's base and permissions, else the built-in role's *)
Definition resolve_access (ws u : N) : M (string * gset string) :=
  m ← or_err ErrForbidden (find_member ws u);
  let builtin := (m_role m, role_permissions (m_role m)) in
  match m_custom m with
  | None => mret builtin
  | Some id =>
      r ← attempt (find_role id);
      mret (match r with Some r => (cr_base r, permission_set r) | None => builtin end)
  end.

Inductive request :=
| ReqUpdateRole (u : N) (role : string)
| ReqRemove (u : N)
| ReqInvite (email role raw : string)
| ReqRoleCreate (i : role_input)
| ReqRoleUpdate (id : N) (i : role_input)
| ReqRoleDelete (id : N)
| ReqAssign (u role : N).

(** [AssignMember] after its entitlement *)
Definition assign_member (ws : N) (actor : string * gset string) (u id : N) : M unit :=
  r ← or_err ErrRoleNotFound (find_role_in ws id);
  if bool_decide (permission_set r ⊆ actor.2) then assign_custom_role ws actor.1 u id (cr_base r)
  else throw (ErrRole ErrEscalation).
Definition need_role (min : string) (actor : string * gset string) (k : M unit) : M unit :=
  if at_least actor.1 min then k else throw ErrForbidden.
Definition need_permission (p : string) (actor : string * gset string) (k : M unit) : M unit :=
  if bool_decide (p ∈ actor.2) then k else throw ErrForbidden.
(** The routes' requirements and the handlers; [licensed] is [RequireMutable(FlagCustomRoles)]. *)
Definition handle (licensed : bool) (ws by_ : N) (actor : string * gset string) (r : request) : M unit :=
  let managed (k : M unit) := need_permission perm_member_write actor (if licensed then k else throw ErrEntitlement) in
  match r with
  | ReqUpdateRole u role =>
      need_role role_admin actor (if (u =? 0)%N then throw (ErrBadRequest "invalid user id") else update_member_role ws actor.1 u role)
  | ReqRemove u =>
      need_role role_admin actor (if (u =? 0)%N then throw (ErrBadRequest "invalid user id") else remove_member ws actor.1 u)
  | ReqInvite email role raw => need_role role_admin actor (_ ← invite ws actor.1 by_ email role raw; mret tt)
  | ReqRoleCreate i => managed (_ ← role_create ws i actor.2; mret tt)
  | ReqRoleUpdate id i => managed (role_update ws id i actor.2)
  | ReqRoleDelete id => managed (role_delete ws id)
  | ReqAssign u id => managed (assign_member ws actor u id)
  end.
Definition serve (licensed : bool) (ws by_ : N) (r : request) : M unit :=
  actor ← resolve_access ws by_;
  handle licensed ws by_ actor r.
End Service.
