(* ===== verification/GroupSync.v ===== *)
(** * Memberships from groups at sign-in

    services/groupsync/groupsync.go, for single sign-on, and the reconciliation of services/directory/service.go, for LDAP. Both
    range over Go maps: [order] is the order a range takes, some permutation of the keys. Group names are ASCII. *)
From S2P Require Import Prelude GoStrings Roles Accounts.
#[local] Open Scope Z_scope.
#[local] Open Scope list_scope.

Definition with_role (role : string) (u : user) : user :=
  User (u_id u) (u_name u) (u_username u) (u_email u) (u_password u) role (u_active u) (u_suspended_at u) (u_suspended_reason u)
       (u_suspended_until u) (u_auth_source u) (u_kind u) (u_org u) (u_workspace_limit u) (u_membership_limit u) (u_can_create u) (u_signup u).

(** [normalize]: the trimmed, lower-case group names *)
Definition normalize (groups : list string) : list string :=
  List.filter (fun g => negb (String.eqb g "")) ((fun g => to_lower (trim_space g)) <$> groups).
Definition normalized (g : string) : string := to_lower (trim_space g).

(** [want]: the highest role asked for a workspace *)
Definition want (desired : gmap N string) (ws : N) (role : string) : gmap N string :=
  match desired !! ws with
  | Some cur => if rank cur <? rank role then <[ws := role]> desired else desired
  | None => <[ws := role]> desired
  end.

(** ** Single sign-on *)

(** [Rule] and [Input]; the user is the row the sign-in read. *)
Record rule := Rule { ru_group : string; ru_admin : bool; ru_workspace : option N; ru_role : string }.
Record input := Input { in_user : option user; in_manager : string; in_groups : list string; in_rules : list rule; in_prefix : string }.

(** [parseStructured] *)
Definition parse_structured (prefix group : string) : option (string * string) :=
  match split ":" (trim_space group) with
  | [p; w; r] =>
      if negb (equal_fold p prefix) || String.eqb w "" then None
      else let role := to_lower r in if rank role =? 0 then None else Some (to_lower w, role)
  | _ => None
  end.

Section Sync.
Context (can_own : option (N -> M unit)) (order : list N -> list N).

Definition each (f : N -> M unit) : list N -> M unit := fix go l :=
  match l with [] => mret tt | x :: l => _ ← f x; go l end.

Definition last_owner (ws : N) : M bool :=
  n ← attempt (count_owners ws);
  mret (match n with Some n => n <=? 1 | None => true end).

(** What the sync may give: an owner's role becomes an admin's for one who may not own another workspace. *)
Definition granted_role (u ws : N) (m : option member) (role : string) : M string :=
  let owns := match m with Some m => String.eqb (m_role m) role_owner | None => false end in
  if String.eqb role role_owner && negb owns then
    match can_own with
    | None => mret role
    | Some check =>
        r ← attempt (check u);
        match r with
        | Some _ => mret role
        | None => _ ← tell (HookAudit u "sso.group_sync.owner_downgraded" ws); mret role_admin
        end
    end
  else mret role.

(** [grant] *)
Definition grant (manager : string) (governed : gset N) (desired : gmap N string) (u ws : N) : M unit :=
  let gov := bool_decide (ws ∈ governed) in
  m ← attempt (find_member ws u);
  let ours := match m with Some m => String.eqb (m_managed m) manager | None => true end in
  if negb (ours || gov) then mret tt
  else
    role ← granted_role u ws m (default "" (desired !! ws));
    let keep := match m with
                | Some _ => if negb ours && gov then _ ← attempt (set_managed_by ws u manager); mret tt else mret tt
                | None => mret tt
                end in
    match m with
    | None =>
        r ← attempt (add_member ws u (Member role None manager));
        match r with Some _ => tell (HookAudit u "sso.group_sync.member_add" ws) | None => mret tt end
    | Some row =>
        if String.eqb (m_role row) role then keep
        else
          (if String.eqb (m_role row) role_owner then last_owner ws else mret false) ≫= fun last : bool =>
          if last then mret tt
          else
            r ← attempt (repo_update_role ws u role);
            match r with
            | None => mret tt
            | Some _ => _ ← tell (HookAudit u "sso.group_sync.member_role" ws); keep
            end
    end.

(** [revoke] *)
Definition revoke (u ws : N) : M unit :=
  m ← attempt (find_member ws u);
  match m with
  | None => mret tt
  | Some m =>
      (if String.eqb (m_role m) role_owner then last_owner ws else mret false) ≫= fun last : bool =>
      if last then mret tt
      else
        r ← attempt (repo_remove_member ws u);
        match r with Some _ => tell (HookAudit u "sso.group_sync.member_remove" ws) | None => mret tt end
  end.

(** [reconcileAdmin]: the last platform admin keeps the role. *)
Definition reconcile_admin (audited : bool) (u : user) (wanted : bool) : M unit :=
  let save (role : string) : M unit :=
    r ← attempt (update_user (with_role role u));
    match r with
    | Some _ => if audited then tell (HookAudit (u_id u) "sso.group_sync.platform_role" 0) else mret tt
    | None => mret tt
    end in
  let admin := String.eqb (u_role u) system_admin in
  if wanted && negb admin then save system_admin
  else if negb wanted && admin then
    n ← attempt (count_by_role system_admin);
    match n with Some n => if n <=? 1 then mret tt else save system_user | None => mret tt end
  else mret tt.

(** What the explicit rules ask: admin governed, admin asked, workspaces governed, roles desired *)
Record asked := Asked { a_managed : bool; a_admin : bool; a_governed : gset N; a_desired : gmap N string }.
Definition ask (groups : list string) (a : asked) (r : rule) : asked :=
  let managed := a_managed a || ru_admin r in
  let governed := match ru_workspace r with Some ws => {[ws]} ∪ a_governed a | None => a_governed a end in
  if negb (bool_decide (normalized (ru_group r) ∈ groups)) then Asked managed (a_admin a) governed (a_desired a)
  else
    Asked managed (a_admin a || ru_admin r) governed
      (match ru_workspace r with
       | Some ws => if 0 <? rank (ru_role r) then want (a_desired a) ws (ru_role r) else a_desired a
       | None => a_desired a
       end).
Definition asked_by (i : input) : asked :=
  foldl (ask (normalize (in_groups i))) (Asked false false ∅ ∅) (in_rules i).
(** The structured groups; the system workspace is not theirs to give. *)
Fixpoint structured (prefix : string) (groups : list string) (desired : gmap N string) : M (gmap N string) :=
  match groups with
  | [] => mret desired
  | g :: groups =>
      match parse_structured prefix g with
      | None => structured prefix groups desired
      | Some (name, role) =>
          ws ← attempt (find_space_by_name name);
          structured prefix groups
            (match ws with
             | Some (id, s) => if sp_system s then desired else want desired id role
             | None => desired
             end)
      end
  end.

(** [Reconcile] *)
Definition reconcile (i : input) : M unit :=
  match in_user i with
  | None => mret tt
  | Some u =>
      if String.eqb (in_manager i) "" then mret tt
      else
        let a := asked_by i in
        desired ← (if String.eqb (in_prefix i) "" then mret (a_desired a) else structured (in_prefix i) (in_groups i) (a_desired a));
        _ ← (if a_managed a then reconcile_admin true u (a_admin a) else mret tt);
        _ ← each (grant (in_manager i) (a_governed a) desired (u_id u)) (order (map_to_list desired).*1);
        managed ← attempt (list_managed_by (u_id u) (in_manager i));
        let stale : gset N := filter (fun ws => desired !! ws = None) (list_to_set (default [] managed) ∪ a_governed a) in
        each (revoke (u_id u)) (order (elements stale))
  end.

(** ** LDAP: services/directory/service.go *)

Record mapping := Mapping { mp_group : string; mp_admin : bool; mp_workspace : option N; mp_role : string }.
Definition source_ldap : string := "ldap".

(** [cnOf] *)
Definition cn_of (dn : string) : string :=
  let first := (cut "," dn).1.1 in
  match cut "=" first with
  | (_, v, true) => trim_space v
  | _ => trim_space first
  end.
(** [groupMatches] *)
Definition group_matches (groups : list string) (g : string) : bool :=
  let g := normalized g in
  if String.eqb g "" then false
  else bool_decide (g ∈ groups) || (negb (contains "=" g) && existsb (fun dn => String.eqb (cn_of dn) g) groups).

Definition map_step (groups : list string) (a : asked) (m : mapping) : asked :=
  let managed := a_managed a || mp_admin m in
  let governed := match mp_workspace m with Some ws => {[ws]} ∪ a_governed a | None => a_governed a end in
  if negb (group_matches groups (mp_group m)) then Asked managed (a_admin a) governed (a_desired a)
  else
    Asked managed (a_admin a || mp_admin m) governed
      (match mp_workspace m with
       | Some ws => if role_valid (mp_role m) then want (a_desired a) ws (mp_role m) else a_desired a
       | None => a_desired a
       end).

(** The loop over the governed workspaces *)
Definition align (desired : gmap N string) (u ws : N) : M unit :=
  m ← attempt (find_member ws u);
  match desired !! ws, m with
  | Some role, None => _ ← attempt (add_member ws u (Member role None "")); mret tt
  | Some role, Some m => if String.eqb (m_role m) role then mret tt else _ ← attempt (repo_update_role ws u role); mret tt
  | None, Some _ => _ ← attempt (repo_remove_member ws u); mret tt
  | None, None => mret tt
  end.
(** [reconcileAdmin] of the directory: a count that fails reads 0. *)
Definition directory_admin (u : user) (wanted : bool) : M unit := reconcile_admin false u wanted.
(** [reconcile]; [config] is the provider's mappings, as the directory's row has them. *)
Definition directory_reconcile (u : user) (groups : list string) (config : M (list mapping)) : M unit :=
  if negb (String.eqb (u_auth_source u) source_ldap) then mret tt
  else
    maps ← config;
    match maps with
    | [] => mret tt
    | _ =>
        let a := foldl (map_step (normalize groups)) (Asked false false ∅ ∅) maps in
        _ ← (if a_managed a then directory_admin u (a_admin a) else mret tt);
        each (align (a_desired a) (u_id u)) (order (elements (a_governed a)))
    end.
End Sync.
