(* ===== verification/AccountFacts.v ===== *)
(** * Facts of the account tables

    What a call leaves alone, what a guarded write does, who owns a workspace, and that the search for a free handle ends. *)
From S2P Require Import Prelude GoStrings Quota ManifestSpec GitOps Roles Accounts Members.
#[local] Open Scope Z_scope.
#[local] Open Scope list_scope.

(** ** Worlds with the same rows *)

Record same (w w' : world) : Prop := Same {
  same_users : w_users w' = w_users w; same_orgs : w_orgs w' = w_orgs w; same_spaces : w_spaces w' = w_spaces w;
  same_members : w_members w' = w_members w; same_invites : w_invites w' = w_invites w; same_roles : w_roles w' = w_roles w;
  same_keys : w_keys w' = w_keys w;
  same_plans : w_plans w' = w_plans w; same_seq : w_seq w' = w_seq w; same_now : w_now w' = w_now w }.
#[export] Instance same_equiv : Equivalence same.
Proof.
  split.
  - by intros w.
  - intros w w' []. by split.
  - intros w1 w2 w3 [] []. split; etrans; eauto.
Qed.
#[export] Instance set_members_same f : Proper (same ==> same) (set_members f).
Proof. intros w w' []. split; cbn; congruence. Qed.

(** A computation that leaves the rows alone *)
Definition quiet {A} (m : M A) : Prop := forall w, same w (m w).1.

Lemma quiet_ret {A} (a : A) : quiet (mret a).
Proof. by intros w. Qed.
Lemma quiet_throw {A} e : quiet (throw (A := A) e).
Proof. by intros w. Qed.
Lemma quiet_bind {A B} (m : M A) (k : A -> M B) : quiet m -> (forall a, quiet (k a)) -> quiet (m ≫= k).
Proof.
  intros Hm Hk w. unfold mbind, M_bind. specialize (Hm w). destruct (m w) as [w1 [a|e]]; cbn in *; [|done].
  etrans; [exact Hm|apply Hk].
Qed.
Lemma quiet_query {A} (f : world -> result acc_err A) : quiet (query f).
Proof. intros w. unfold query, call. case_match; by split. Qed.
Lemma quiet_attempt {A} (m : M A) : quiet m -> quiet (attempt m).
Proof. intros Hm w. specialize (Hm w). unfold attempt. by destruct (m w) as [? []]. Qed.
Lemma quiet_or_err {A} e (m : M A) : quiet m -> quiet (or_err e m).
Proof. intros Hm w. specialize (Hm w). unfold or_err. by destruct (m w) as [? []]. Qed.
Lemma quiet_now : quiet now.
Proof. by intros w. Qed.
Lemma quiet_tell h : quiet (tell h).
Proof. by intros w. Qed.

Create HintDb quiet.
#[export] Hint Resolve quiet_ret quiet_throw quiet_bind quiet_query quiet_attempt quiet_or_err quiet_now quiet_tell : quiet.
Ltac quiet_step :=
  match goal with
  | |- forall _, quiet _ => intro
  | |- quiet (if ?b then _ else _) => destruct b
  | |- quiet (match ?x with _ => _ end) => destruct x
  | |- quiet (let _ := _ in _) => cbv zeta
  | |- quiet _ => solve [eauto with quiet nocore]
  | |- quiet (mret _) => apply quiet_ret
  | |- quiet (throw _) => apply quiet_throw
  | |- quiet (_ ≫= _) => apply quiet_bind
  | |- quiet (attempt _) => apply quiet_attempt
  | |- quiet (or_err _ _) => apply quiet_or_err
  end.
Ltac quiet := repeat quiet_step.

Ltac quiet_unfold h := unfold h; quiet.
Lemma quiet_refuse b e : quiet (refuse_if b e). Proof. quiet_unfold refuse_if. Qed.
Lemma quiet_find_user i : quiet (find_user i). Proof. apply quiet_query. Qed.
Lemma quiet_find_user_by_email e : quiet (find_user_by_email e). Proof. apply quiet_query. Qed.
Lemma quiet_exists_by_email e : quiet (exists_by_email e). Proof. apply quiet_query. Qed.
Lemma quiet_count_by_role r : quiet (count_by_role r). Proof. apply quiet_query. Qed.
Lemma quiet_find_org i : quiet (find_org i). Proof. apply quiet_query. Qed.
#[export] Hint Resolve quiet_refuse quiet_find_user quiet_find_user_by_email quiet_exists_by_email quiet_count_by_role quiet_find_org : quiet.
Lemma quiet_default_org : quiet default_org_id. Proof. quiet_unfold default_org_id. Qed.
#[export] Hint Resolve quiet_default_org : quiet.
Lemma quiet_home u : quiet (home_organization u). Proof. unfold home_organization. quiet_unfold resolve_org. Qed.
Lemma quiet_cap_reached o : quiet (cap_reached o). Proof. quiet_unfold cap_reached. Qed.
Lemma quiet_find_member ws u : quiet (find_member ws u). Proof. apply quiet_query. Qed.
Lemma quiet_list_managed u n : quiet (list_managed_by u n). Proof. apply quiet_query. Qed.
Lemma quiet_count_owners ws : quiet (count_owners ws). Proof. apply quiet_query. Qed.
Lemma quiet_member_count ws : quiet (member_count ws). Proof. apply quiet_query. Qed.
Lemma quiet_count_owned u : quiet (count_owned_by u). Proof. apply quiet_query. Qed.
Lemma quiet_count_joined u : quiet (count_joined_by u). Proof. apply quiet_query. Qed.
Lemma quiet_find_space i : quiet (find_space i). Proof. apply quiet_query. Qed.
Lemma quiet_find_space_by_name n : quiet (find_space_by_name n). Proof. apply quiet_query. Qed.
Lemma quiet_exists_by_name n : quiet (exists_by_name n). Proof. apply quiet_query. Qed.
Lemma quiet_find_system : quiet find_system. Proof. apply quiet_query. Qed.
Lemma quiet_find_plan n : quiet (find_plan n). Proof. apply quiet_query. Qed.
Lemma quiet_pending ws e : quiet (pending_invitation_exists ws e). Proof. apply quiet_query. Qed.
Lemma quiet_by_hash h : quiet (find_invitation_by_hash h). Proof. apply quiet_query. Qed.
Lemma quiet_find_invitation i : quiet (find_invitation i). Proof. apply quiet_query. Qed.
Lemma quiet_find_role i : quiet (find_role i). Proof. apply quiet_query. Qed.
Lemma quiet_find_role_in ws i : quiet (find_role_in ws i). Proof. apply quiet_query. Qed.
Lemma quiet_count_using i : quiet (count_members_using i). Proof. apply quiet_query. Qed.
#[export] Hint Resolve quiet_home quiet_cap_reached quiet_find_member quiet_list_managed quiet_count_owners quiet_member_count
  quiet_count_owned quiet_count_joined quiet_find_space quiet_find_space_by_name quiet_exists_by_name quiet_find_system quiet_find_plan
  quiet_pending quiet_by_hash quiet_find_invitation quiet_find_role quiet_find_role_in quiet_count_using : quiet.

(** ** What a run is made of *)

(** Quiet steps before the rest: either the rows are as they were, or the rest runs on the same rows. *)
Lemma bind_cases {A B} (m : M A) (k : A -> M B) w :
  quiet m ->
  (exists w1 e, m w = (w1, Err e) /\ same w w1 /\ (m ≫= k) w = (w1, Err e)) \/
  (exists w1 a, m w = (w1, Ok a) /\ same w w1 /\ (m ≫= k) w = k a w1).
Proof.
  intros Hm. specialize (Hm w). unfold mbind, M_bind. destruct (m w) as [w1 [a|e]]; cbn in Hm; [right|left]; by exists w1, a || by exists w1, e.
Qed.
Lemma bind_ok {A B} (m : M A) (k : A -> M B) w w' b :
  (m ≫= k) w = (w', Ok b) -> exists w1 a, m w = (w1, Ok a) /\ k a w1 = (w', Ok b).
Proof. unfold mbind, M_bind. destruct (m w) as [w1 [a|e]]; [by exists w1, a|done]. Qed.
(** A call that goes through, or fails without a trace *)
Lemma call_cases {A} (f : world -> world * result acc_err A) w :
  (exists w1, same w w1 /\ call f w = (w1, Err ErrStorage)) \/ (exists w1, same w w1 /\ call f w = f w1).
Proof. unfold call. set (w1 := set_faults _ w). case_match; [left|right]; exists w1; by split. Qed.
Lemma write_cases f w :
  (exists w1, same w w1 /\ write f w = (w1, Err ErrStorage)) \/ (exists w1, same w w1 /\ write f w = (f w1, Ok tt)).
Proof. apply (call_cases (fun w => (f w, Ok tt))). Qed.
Lemma query_ok {A} (f : world -> result acc_err A) w w' a :
  query f w = (w', Ok a) -> same w w' /\ f w' = Ok a.
Proof. unfold query. destruct (call_cases (fun w => (w, f w)) w) as [(w1 & Hs & ->)|(w1 & Hs & ->)]; [done|]. by intros [= <- ?]. Qed.

(** A property of the rows that the property's steps keep *)
Definition keeps {A} (P : world -> Prop) (m : M A) : Prop := forall w, P w -> P (m w).1.
Section Keeps.
Context (P : world -> Prop) (HP : Proper (same ==> iff) P).

Lemma keeps_quiet {A} (m : M A) : quiet m -> keeps P m.
Proof using HP. intros Hm w Hw. by rewrite <- (Hm w). Qed.
Lemma keeps_bind {A B} (m : M A) (k : A -> M B) : keeps P m -> (forall a, keeps P (k a)) -> keeps P (m ≫= k).
Proof using Type.
  intros Hm Hk w Hw. specialize (Hm w Hw). unfold mbind, M_bind. destruct (m w) as [w1 [a|e]]; cbn in *; [by apply Hk|done].
Qed.
Lemma keeps_attempt {A} (m : M A) : keeps P m -> keeps P (attempt m).
Proof using Type. intros Hm w Hw. specialize (Hm w Hw). unfold attempt. by destruct (m w) as [? []]. Qed.
Lemma keeps_write f : (forall w, P w -> P (f w)) -> keeps P (write f).
Proof using HP.
  intros Hf w Hw. destruct (write_cases f w) as [(w1 & Hs & ->)|(w1 & Hs & ->)]; cbn; [by rewrite <- Hs|]. apply Hf. by rewrite <- Hs.
Qed.
(** A write behind quiet guards keeps what it keeps on the rows the guards let through. *)
Lemma keeps_guarded {A B} (g : M A) (k : A -> M B) :
  quiet g -> (forall w w1 a, P w -> g w = (w1, Ok a) -> same w w1 -> P (k a w1).1) -> keeps P (g ≫= k).
Proof using HP.
  intros Hg Hk w Hw. destruct (bind_cases g k w Hg) as [(w1 & e & ? & Hs & ->)|(w1 & a & ? & Hs & ->)]; cbn; [by rewrite <- Hs|by eapply Hk].
Qed.
End Keeps.

(** ** Owners *)

Definition owner (w : world) (ws u : N) : Prop := exists m, w_members w !! (ws, u) = Some m /\ m_role m = role_owner.
(** Every workspace has an owner. *)
Definition owned (w : world) : Prop := forall ws, is_Some (w_spaces w !! ws) -> exists u, owner w ws u.
#[export] Instance owned_proper : Proper (same ==> iff) owned.
Proof.
  assert (H : forall w w', same w w' -> owned w -> owned w').
  { intros w w' [] H ws Hws. unfold owner. rewrite same_members0. apply H. congruence. }
  intros w w' Hs. split; apply H; [done|by symmetry].
Qed.

(** More than one owner: another one than [u] *)
Lemma another_owner ws u members :
  1 < count_members (owner_of ws) members ->
  exists u' m, u' <> u /\ members !! (ws, u') = Some m /\ m_role m = role_owner.
Proof.
  unfold count_members. intros Hn.
  set (l := List.filter (fun kv => owner_of ws kv.1 kv.2) (map_to_list members)) in *.
  assert (Hl : NoDup l.*1).
  { eapply sublist_NoDup; [apply (NoDup_fst_map_to_list members)|apply fmap_sublist, bfilter_sublist]. }
  assert (Hin : forall k m, (k, m) ∈ l -> members !! k = Some m /\ k.1 = ws /\ m_role m = role_owner).
  { intros k m H. apply elem_of_bfilter in H as [H Ho]. apply elem_of_map_to_list in H. cbn in Ho. unfold owner_of in Ho. go_inv.
    split_and!; [done|by apply N.eqb_eq|by apply String.eqb_eq]. }
  destruct l as [|[[w1 u1] m1] [|[[w2 u2] m2] l']]; cbn in Hn; [lia|lia|].
  destruct (Hin (w1, u1) m1) as (H1 & ? & ?); [set_solver|]. destruct (Hin (w2, u2) m2) as (H2 & ? & ?); [set_solver|]. cbn in *. subst w1 w2.
  destruct (decide (u1 = u)) as [->|]; [|by exists u1, m1]. exists u2, m2. split_and!; [|done|done].
  intros ->. inversion Hl as [|? ? Hni _]. apply Hni. left.
Qed.

(** A row changed or removed beside another owner of its workspace *)
Lemma owned_change (w : world) (ws u : N) (f : gmap (N * N) member -> gmap (N * N) member) :
  (forall k, k <> (ws, u) -> f (w_members w) !! k = w_members w !! k) ->
  (exists u' m, f (w_members w) !! (ws, u') = Some m /\ m_role m = role_owner) \/ ~ owner w ws u ->
  owned w -> owned (set_members f w).
Proof.
  intros Hf Ho H ws' Hws'. destruct (decide (ws' = ws)) as [->|Hne].
  - destruct Ho as [(u' & m & Hu)|Hno]; [by exists u', m|]. destruct (H ws Hws') as (u' & m & Hm & Hr). exists u', m. cbn.
    rewrite Hf; [done|]. intros [= ->]. apply Hno. by exists m.
  - destruct (H ws' Hws') as (u' & m & Hm). exists u', m. cbn. rewrite Hf; [done|]. by intros [= -> ?].
Qed.
