(* ===== verification/Handles.v ===== *)
(** * The search for a free handle ends

    slug/slug.go [UniqueAvailable]: of the names it tries, only the first can be reserved, and no two are equal, so a table of [n]
    names leaves one of the first [n + 2] free. *)
From S2P Require Import Prelude GoStrings ManifestSpec GitOps Roles Accounts Members AccountFacts.
#[local] Open Scope Z_scope.
#[local] Open Scope list_scope.

(** ** A numbered name is not reserved *)

Lemma app_nil (s : string) : "" +:+ s = s.
Proof. done. Qed.
Lemma app_cons c (a s : string) : String c a +:+ s = String c (a +:+ s).
Proof. done. Qed.
Lemma drop_while_dash p b t : p "-"%char = false -> exists b', drop_while p (b +:+ String "-" t) = b' +:+ String "-" t.
Proof.
  intros Hp. induction b as [|c b [b' IH]].
  - exists "". rewrite !app_nil. cbn [drop_while]. by rewrite Hp.
  - rewrite app_cons. cbn [drop_while]. destruct (p c); [by exists b'|]. by exists (String c b).
Qed.
Lemma slug_body_clean t : str_forall is_slug t = true -> slug_body false t = t.
Proof. induction t as [|c t IH]; cbn -[is_slug]; [done|]. intros [Hc Ht]%andb_true_iff. by rewrite Hc, IH. Qed.
Lemma slug_body_dash pending a c t :
  is_slug c = true -> str_forall is_slug t = true -> exists x, slug_body pending (a +:+ String "-" (String c t)) = x +:+ String "-" (String c t).
Proof.
  intros Hc Ht. revert pending. induction a as [|x a IH]; intros pending.
  - exists "". rewrite !app_nil. cbn -[is_slug]. change (is_slug "-") with false. by rewrite Hc, slug_body_clean.
  - rewrite app_cons. cbn -[is_slug]. destruct (is_slug x); [|apply IH].
    destruct (IH false) as [y ->]. destruct pending; [by exists (String "-" (String x y))|by exists (String x y)].
Qed.
Lemma slug_start_dash a c t :
  is_slug c = true -> str_forall is_slug t = true ->
  slug_start (a +:+ String "-" (String c t)) = String c t \/ exists x, slug_start (a +:+ String "-" (String c t)) = x +:+ String "-" (String c t).
Proof.
  intros Hc Ht. induction a as [|x a IH].
  - left. rewrite app_nil. cbn -[is_slug slug_body]. change (is_slug "-") with false. cbn -[is_slug slug_body]. rewrite Hc.
    apply slug_body_clean. cbn -[is_slug]. by rewrite Hc.
  - rewrite app_cons. cbn -[is_slug slug_body]. destruct (is_slug x) eqn:Hx; [|done]. right.
    destruct (slug_body_dash false (String x a) c t Hc Ht) as [y Hy]. rewrite app_cons in Hy. rewrite Hy. by exists y.
Qed.

Definition no_dash (c : ascii) : bool := negb (Ascii.eqb c "-").
Lemma reserved_words w : w ∈ reserved -> str_forall no_dash w = true /\ str_forall is_digit w = false.
Proof.
  assert (H : forallb (fun w => str_forall no_dash w && negb (str_forall is_digit w)) reserved = true) by (vm_compute; reflexivity).
  rewrite forallb_forall in H. intros Hw%list_elem_of_In. specialize (H w Hw). cbv beta in H. by go_inv.
Qed.
Lemma digit_slug t : str_forall is_digit t = true -> str_forall is_slug t = true.
Proof. apply str_forall_impl. intros c Hc. unfold is_slug. by rewrite Hc, orb_true_r. Qed.
Lemma digits_trim t : str_forall is_digit t = true -> drop_end_while is_space t = t.
Proof.
  intros H. apply drop_end_while_none. eapply str_forall_impl; [|exact H]. intros c. unfold is_digit, is_space. cbn zeta.
  intros Hc. apply negb_true_iff. go_inv. repeat case_match; go_inv; try lia; done.
Qed.

Lemma number_digits i : (0 < i)%nat -> exists c t, itoa (Z.of_nat i) = String c t /\ str_forall is_digit (String c t) = true.
Proof.
  intros Hi. destruct (itoa_cons (Z.of_nat i)) as (c & t & E & _); [lia|]. exists c, t. split; [done|]. rewrite <- E. apply itoa_digits. lia.
Qed.
Lemma numbered_dash base i : (0 < i)%nat -> numbered base i = base +:+ String "-" (itoa (Z.of_nat i)).
Proof. intros Hi. by destruct i; [lia|]. Qed.
Lemma numbered_inj base i j : (0 < i)%nat -> (0 < j)%nat -> numbered base i = numbered base j -> i = j.
Proof. intros Hi Hj. rewrite !numbered_dash by done. intros [= H%itoa_inj]%str_app_inv_head. lia. Qed.

Lemma numbered_free_of_reserved base i : (0 < i)%nat -> is_reserved (numbered base i) = false.
Proof.
  intros Hi. rewrite numbered_dash by done. destruct (number_digits i Hi) as (c & t & -> & Hd).
  set (n := String c t) in *. unfold is_reserved. apply bool_decide_eq_false. unfold make_slug, trim_space.
  destruct (drop_while_dash is_space base n) as [b ->]; [done|].
  change (String "-" n) with ("-" +:+ n). rewrite str_app_assoc, drop_end_while_keep; [|done|by apply digits_trim]. rewrite <- str_app_assoc.
  unfold to_lower. rewrite str_map_app. change (str_map lower_ascii ("-" +:+ n)) with (String "-" (str_map lower_ascii n)).
  fold (to_lower n). rewrite (to_lower_clean n).
  2:{ eapply str_forall_impl; [|exact Hd]. intros x Hx. unfold is_digit, is_upper in *. cbn zeta in *. apply negb_true_iff, andb_false_iff. go_inv. left.
      apply Z.leb_gt. lia. }
  assert (Hs : str_forall is_slug n = true) by by apply digit_slug. unfold n in Hs. cbn -[is_slug] in Hs. apply andb_true_iff in Hs as [Hc Ht].
  destruct (slug_start_dash (str_map lower_ascii b) c t Hc Ht) as [E|[x E]]; unfold n; rewrite E; intros Hr%reserved_words.
  - destruct Hr as [_ Hr]. change (str_forall is_digit n = false) in Hr. by rewrite Hd in Hr.
  - destruct Hr as [Hr _]. unfold or_else in Hr. destruct (String.eqb _ _) eqn:He in Hr.
    + apply String.eqb_eq in He. by destruct x.
    + rewrite str_forall_app in Hr. cbn -[is_digit] in Hr. by rewrite andb_false_r in Hr.
Qed.

(** ** The search *)

Section Search.
Context (taken : string -> M bool) (l : list string) (R : world -> Prop) (F : world -> Prop).
(** A lookup answers whether the name is in the table, or fails where [F] says a call may. *)
Context (Ht : forall c w, R w ->
  ((taken c w).2 = Err ErrStorage /\ F w) \/
  (exists w1, R w1 /\ (F w1 -> F w) /\ taken c w = (w1, Ok (bool_decide (c ∈ l))))).

Lemma unique_from_cases fuel base i w :
  R w ->
  let r := (unique_from taken fuel base i w).2 in
  (r = Err ErrStorage /\ F w) \/
  (exists n, r = Ok n /\ (n ∉ l) /\ is_reserved n = false) \/
  (r = Err ErrOutOfFuel /\ forall j, (i <= j < i + fuel)%nat -> is_reserved (numbered base j) = true \/ (numbered base j ∈ l)).
Proof using Ht.
  revert i w. induction fuel as [|fuel IH]; intros i w Hw; cbn [unique_from]; cbv zeta.
  { right; right. split; [done|]. intros j Hj. lia. }
  assert (Hstep : forall P : nat -> Prop, P i -> (forall j, (S i <= j < S i + fuel)%nat -> P j) -> forall j, (i <= j < i + S fuel)%nat -> P j).
  { intros P Hi Hs j Hj. destruct (decide (j = i)) as [->|]; [done|]. apply Hs. lia. }
  destruct (is_reserved (numbered base i)) eqn:Hr.
  - destruct (IH (S i) w Hw) as [H|[H|[H1 H2]]]; [by left|by right; left|]. right; right. split; [done|]. by apply Hstep; [left|].
  - destruct (Ht (numbered base i) w Hw) as [[He Hf]|(w1 & Hw1 & Hf & E)].
    { left. split; [|done]. unfold mbind, M_bind. destruct (taken _ w) as [w1 [b|e]]; [done|]. by injection He as ->. }
    unfold mbind, M_bind. rewrite E. case_bool_decide as Hin.
    + destruct (IH (S i) w1 Hw1) as [[H1 H2]|[H|[H1 H2]]]; [left; split; [done|by apply Hf]|by right; left|].
      right; right. split; [done|]. by apply Hstep; [right|].
    + right; left. by exists (numbered base i).
Qed.
(** Enough names for a table of [n] *)
Lemma unique_from_ends n base w :
  (length l <= n)%nat -> R w ->
  let r := (unique_from taken (name_fuel n) base 0 w).2 in
  (r = Err ErrStorage /\ F w) \/ exists c, r = Ok c /\ (c ∉ l) /\ is_reserved c = false.
Proof using Ht.
  intros Hn Hw. cbv zeta. destruct (unique_from_cases (name_fuel n) base 0 w Hw) as [H|[H|[_ H]]]; [by left|by right|exfalso].
  set (names := (fun j => numbered base j) <$> seq 1 (length reserved + n)).
  assert (Hnd : NoDup names).
  { apply NoDup_fmap_2_strong; [|apply NoDup_seq]. intros x y Hx%elem_of_seq Hy%elem_of_seq. apply numbered_inj; lia. }
  assert (Hin : names ⊆ l).
  { intros c (j & -> & Hj%elem_of_seq)%list_elem_of_fmap. destruct (H j) as [Hr|Hl]; [unfold name_fuel; lia| |done].
    by rewrite numbered_free_of_reserved in Hr by lia. }
  pose proof (submseteq_length _ _ (NoDup_submseteq _ _ Hnd Hin)) as Hlen. unfold names in Hlen.
  rewrite length_fmap, length_seq in Hlen. change (length reserved) with 21%nat in Hlen. lia.
Qed.
End Search.

Lemma bool_decide_existsb {A} (f : A -> string) (c : string) (l : list A) :
  existsb (fun x => String.eqb (f x) c) l = bool_decide (c ∈ f <$> l).
Proof.
  induction l as [|x l IH]; cbn; [done|]. rewrite IH. destruct (String.eqb_spec (f x) c) as [->|Hne]; cbn.
  - symmetry. apply bool_decide_eq_true. left.
  - apply bool_decide_ext. rewrite elem_of_cons. split; [by right|]. by intros [->|].
Qed.

(** The search for a workspace's handle ends, whatever name is asked for and whatever handles are taken or
    reserved: it answers one that no workspace has and that is not reserved, or the error of a lookup that failed. *)
Lemma free_handle base w :
  (exists n, (unique_name base w).2 = Ok n /\ is_reserved n = false /\ forall id s, w_spaces w !! id = Some s -> sp_name s <> n) \/
  ((unique_name base w).2 = Err ErrStorage /\ true ∈ w_faults w).
Proof.
  unfold unique_name, unique_available. set (b := or_else _ _).
  set (R := fun w' : world => w_spaces w' = w_spaces w).
  destruct (unique_from_ends exists_by_name (sp_name <$> (map_to_list (w_spaces w)).*2) R (fun w' => true ∈ w_faults w')) with
    (n := size (w_spaces w)) (base := b) (w := w) as [[H1 H2]|(c & H1 & H2 & H3)].
  - intros c w' Hw'. unfold exists_by_name, query, call. destruct (w_faults w') as [|[] fs] eqn:Hf; cbn.
    + right. exists (set_faults [] w'). split_and!; [done|set_solver|]. f_equal. f_equal. unfold space_name_taken. cbn.
      rewrite bool_decide_existsb. by rewrite Hw'.
    + left. split; [done|]. left.
    + right. exists (set_faults fs w'). split_and!; [done|set_solver|]. f_equal. f_equal. unfold space_name_taken. cbn.
      rewrite bool_decide_existsb. by rewrite Hw'.
  - by rewrite !length_fmap, length_map_to_list.
  - done.
  - by right.
  - left. exists c. split_and!; [done|done|]. intros id s Hs E. apply H2. rewrite <- E. apply list_elem_of_fmap. exists s. split; [done|].
    apply list_elem_of_fmap. exists (id, s). split; [done|]. by apply elem_of_map_to_list.
Qed.
