(* ===== verification/MemberOwners.v ===== *)
(** * A workspace always has an owner

    The guards of [Members] and [GroupSync] read only; what they let through leaves every workspace an owner, whatever fails in
    between; the directory's reconciliation has no such guard. *)
From S2P Require Import Prelude GoStrings GoTime Quota ManifestSpec GitOps Roles Accounts Members GroupSync AccountFacts.
#[local] Open Scope Z_scope.
#[local] Open Scope list_scope.

(** ** The guards read only *)

Section Guards.
Context (sv : service) (d : quota_db).

Lemma quiet_home_org u : quiet (home_org sv u). Proof. quiet_unfold home_org. Qed.
#[local] Hint Resolve quiet_home_org : quiet.
Lemma quiet_org_limits u : quiet (org_limits sv u). Proof. quiet_unfold org_limits. Qed.
Lemma quiet_organization_for u : quiet (organization_for sv u). Proof. quiet_unfold organization_for. Qed.
Lemma quiet_user_override e g u : quiet (user_override e g u). Proof. quiet_unfold user_override. Qed.
#[local] Hint Resolve quiet_org_limits quiet_organization_for quiet_user_override : quiet.
Lemma quiet_workspace_limit u : quiet (effective_workspace_limit sv u). Proof. quiet_unfold effective_workspace_limit. Qed.
Lemma quiet_membership_limit u : quiet (effective_membership_limit sv u). Proof. quiet_unfold effective_membership_limit. Qed.
Lemma quiet_under_limit l c e : quiet l -> quiet c -> quiet (under_limit l c e). Proof. intros. quiet_unfold under_limit. Qed.
#[local] Hint Resolve quiet_workspace_limit quiet_membership_limit quiet_under_limit : quiet.
Lemma quiet_can_own u : quiet (can_own_another sv u). Proof. quiet_unfold can_own_another. Qed.
Lemma quiet_can_join u : quiet (can_join_another sv u). Proof. quiet_unfold can_join_another. Qed.
Lemma quiet_capacity ws : quiet (check_member_capacity sv d ws). Proof. quiet_unfold check_member_capacity. Qed.
Lemma quiet_mode_allows m u : quiet (mode_allows sv m u). Proof. quiet_unfold mode_allows. Qed.
#[local] Hint Resolve quiet_can_own quiet_can_join quiet_capacity quiet_mode_allows : quiet.
Lemma quiet_policy u : quiet (policy sv u). Proof. quiet_unfold policy. Qed.
#[local] Hint Resolve quiet_policy : quiet.
Lemma quiet_can_create u : quiet (can_create sv u). Proof. quiet_unfold can_create. Qed.
Lemma quiet_unique_from taken fuel b i : (forall c, quiet (taken c)) -> quiet (unique_from taken fuel b i).
Proof. intros Ht. revert i. induction fuel as [|fuel IH]; intros i; cbn [unique_from]; quiet. Qed.
Lemma quiet_unique_name b : quiet (unique_name b).
Proof. intros w. apply quiet_unique_from. intros c. apply quiet_exists_by_name. Qed.
Lemma quiet_tell_if b h : quiet (tell_if b h). Proof. quiet_unfold tell_if. Qed.
Lemma quiet_guard_rank ws a u n : quiet (guard_rank ws a u n). Proof. quiet_unfold guard_rank. Qed.
Lemma quiet_last_owner ws u : quiet (guard_last_owner ws u). Proof. quiet_unfold guard_last_owner. Qed.
#[local] Hint Resolve quiet_last_owner : quiet.
Lemma quiet_new_role ws u r : quiet (guard_new_role sv ws u r). Proof. quiet_unfold guard_new_role. Qed.
Lemma quiet_checked i a : quiet (checked i a). Proof. quiet_unfold checked. Qed.
Lemma quiet_access ws u : quiet (resolve_access ws u). Proof. quiet_unfold resolve_access. Qed.
Lemma quiet_pending_token raw : quiet (pending_invitation_by_token raw). Proof. quiet_unfold pending_invitation_by_token. Qed.
End Guards.
#[export] Hint Resolve quiet_home_org quiet_org_limits quiet_organization_for quiet_workspace_limit quiet_membership_limit quiet_can_own
  quiet_can_join quiet_capacity quiet_can_create quiet_unique_name quiet_tell_if quiet_guard_rank quiet_last_owner quiet_new_role
  quiet_checked quiet_access quiet_pending_token : quiet.

(** ** What the guards let through *)

(** [u] may stop owning [ws]: it has a row there, and is not the last owner. *)
Definition may_leave (w : world) (ws u : N) : Prop :=
  exists m, w_members w !! (ws, u) = Some m /\ (m_role m = role_owner -> 1 < count_members (owner_of ws) (w_members w)).
#[export] Instance may_leave_proper : Proper (same ==> eq ==> eq ==> iff) may_leave.
Proof. intros w w' Hs ? ? -> ? ? ->. unfold may_leave. by rewrite (same_members _ _ Hs). Qed.

Lemma find_member_ok ws u w w1 m : find_member ws u w = (w1, Ok m) -> same w w1 /\ w_members w1 !! (ws, u) = Some m.
Proof. intros [Hs H%of_option_ok]%query_ok. done. Qed.

Lemma guard_last_owner_ok ws u w w1 : guard_last_owner ws u w = (w1, Ok tt) -> may_leave w1 ws u.
Proof.
  intros (w2 & m & Hm & H)%bind_ok. apply find_member_ok in Hm as [_ Hm].
  destruct (String.eqb_spec (m_role m) role_owner) as [Ho|Hno]; cbn in H.
  - apply bind_ok in H as (w3 & n & [Hs Hc]%query_ok & H). case_match eqn:Hn; [done|]. injection H as <-. apply Z.leb_gt in Hn.
    exists m. rewrite (same_members _ _ Hs). split; [done|]. intros _. rewrite <- (same_members _ _ Hs). by injection Hc as ->.
  - injection H as <-. by exists m.
Qed.
Lemma guard_new_role_ok sv ws u r w w1 : guard_new_role sv ws u r w = (w1, Ok tt) -> r = role_owner \/ may_leave w1 ws u.
Proof.
  unfold guard_new_role. destruct (String.eqb_spec r role_owner); cbn; [by left|]. right. by eapply guard_last_owner_ok.
Qed.
Lemma guard_rank_ok ws actor u new w w1 :
  guard_rank ws actor u new w = (w1, Ok tt) ->
  role_valid actor = true /\
  (exists m, w_members w1 !! (ws, u) = Some m /\ rank (m_role m) <= rank actor) /\ (forall r, new = Some r -> rank r <= rank actor).
Proof.
  unfold guard_rank. destruct (role_valid actor); cbn; [|done]. intros (w2 & m & [_ Hm]%find_member_ok & H)%bind_ok.
  case_match eqn:Hr; [done|]. apply Z.ltb_ge in Hr. destruct new as [r|].
  - case_match eqn:Hn; [done|]. injection H as <-. apply Z.ltb_ge in Hn. split_and!; [done|by exists m|]. by intros ? [= <-].
  - injection H as <-. split_and!; [done|by exists m|done].
Qed.

(** ** Writes that keep an owner *)

Lemma owned_alter w ws u g :
  (forall m, w_members w !! (ws, u) = Some m -> m_role m = role_owner ->
     m_role (g m) = role_owner \/ 1 < count_members (owner_of ws) (w_members w)) ->
  owned w -> owned (set_members (alter g (ws, u)) w).
Proof.
  intros Hg. apply (owned_change _ ws u); [intros k Hk; by rewrite lookup_alter_ne|].
  destruct (w_members w !! (ws, u)) as [m|] eqn:Hm.
  - destruct (decide (m_role m = role_owner)) as [Ho|Hno]; [left|right; intros (m' & Hm' & Hr); congruence].
    destruct (Hg m eq_refl Ho) as [Hk|Hk].
    + exists u, (g m). by rewrite lookup_alter_eq, Hm.
    + destruct (another_owner ws u _ Hk) as (u' & m' & Hne & Hm' & Hr). exists u', m'. rewrite lookup_alter_ne; [done|]. by intros [= ->].
  - right. intros (m' & Hm' & _). congruence.
Qed.
Lemma owned_delete w ws u : may_leave w ws u -> owned w -> owned (set_members (delete (ws, u)) w).
Proof.
  intros (m & Hm & Hc). apply (owned_change _ ws u); [intros k Hk; by rewrite lookup_delete_ne|].
  destruct (decide (m_role m = role_owner)) as [Ho|Hno]; [left|right; intros (m' & Hm' & Hr); congruence].
  destruct (another_owner ws u _ (Hc Ho)) as (u' & m' & Hne & Hm' & Hr). exists u', m'. rewrite lookup_delete_ne; [done|]. by intros [= ->].
Qed.
Lemma owned_insert w ws u m : w_members w !! (ws, u) = None -> owned w -> owned (set_members <[(ws, u) := m]> w).
Proof.
  intros Hn. apply (owned_change _ ws u); [intros k Hk; by rewrite lookup_insert_ne|]. right. intros (m' & Hm' & _). congruence.
Qed.
(** Rows of other tables *)
Lemma owned_other w w' : w_spaces w' = w_spaces w -> w_members w' = w_members w -> owned w -> owned w'.
Proof. unfold owned, owner. intros -> ->. done. Qed.

Abbreviation keeps_owner := (keeps owned).
Lemma owner_quiet {A} (m : M A) : quiet m -> keeps_owner m.
Proof. apply (keeps_quiet owned _). Qed.
Lemma owner_write f : (forall w, owned w -> owned (f w)) -> keeps_owner (write f).
Proof. apply (keeps_write owned _). Qed.
Lemma owner_bind {A B} (m : M A) (k : A -> M B) : keeps_owner m -> (forall a, keeps_owner (k a)) -> keeps_owner (m ≫= k).
Proof. apply keeps_bind. Qed.
Lemma owner_attempt {A} (m : M A) : keeps_owner m -> keeps_owner (attempt m).
Proof. apply keeps_attempt. Qed.
(** A guard, then a write on rows of which the guard says [Q] *)
Lemma owner_guarded {A B} (g : M A) (k : A -> M B) (Q : A -> world -> Prop) :
  quiet g -> (forall w w1 a, g w = (w1, Ok a) -> Q a w1) -> (forall w a, owned w -> Q a w -> owned (k a w).1) -> keeps_owner (g ≫= k).
Proof.
  intros Hg HQ Hk. apply (keeps_guarded owned _); [done|]. intros w w1 a Hw Hr Hs. apply Hk; [by rewrite <- Hs|by eapply HQ].
Qed.
Lemma write_owned f w : owned w -> (forall w1, same w w1 -> owned (f w1)) -> owned (write f w).1.
Proof. intros Hw Hf. destruct (write_cases f w) as [(w1 & Hs & ->)|(w1 & Hs & ->)]; cbn; [by rewrite <- Hs|by apply Hf]. Qed.
Lemma owner_call {A} (f : world -> world * result acc_err A) : (forall w, owned w -> owned (f w).1) -> keeps_owner (call f).
Proof. intros Hf w Hw. destruct (call_cases f w) as [(w1 & Hs & ->)|(w1 & Hs & ->)]; [by rewrite <- Hs|]. apply Hf. by rewrite <- Hs. Qed.
Lemma owner_or_err {A} e (m : M A) : keeps_owner m -> keeps_owner (or_err e m).
Proof. intros Hm w Hw. specialize (Hm w Hw). unfold or_err. by destruct (m w) as [? []]. Qed.

Create HintDb owner.
#[export] Hint Resolve owner_bind owner_attempt owner_or_err : owner.
Ltac owner_step :=
  match goal with
  | |- forall _, keeps _ _ => intro
  | |- keeps _ (if ?b then _ else _) => destruct b
  | |- keeps _ (match ?x with _ => _ end) => destruct x
  | |- keeps _ (let _ := _ in _) => cbv zeta
  | |- keeps _ _ => solve [eauto with owner nocore | apply owner_quiet; eauto with quiet nocore]
  | |- keeps _ (_ ≫= _) => apply owner_bind
  | |- keeps _ (attempt _) => apply owner_attempt
  | |- keeps _ (or_err _ _) => apply owner_or_err
  end.
Ltac keep_owner := repeat owner_step.

(** ** The services *)

Section Services.
Context (sv : service) (d : quota_db).

(** The guards of a new role, then the row written with it *)
Lemma owner_new_role ws u r g :
  (forall m, m_role (g m) = r) -> keeps_owner (guard_new_role sv ws u r ≫= fun _ => write (set_members (alter g (ws, u)))).
Proof.
  intros Hg. apply (owner_guarded _ _ (fun _ w1 => r = role_owner \/ may_leave w1 ws u)).
  - apply quiet_new_role.
  - intros w w1 []. apply guard_new_role_ok.
  - intros w [] Hw HQ. apply write_owned; [done|]. intros w1 Hs. apply owned_alter; [|by rewrite <- Hs].
    intros m Hm Ho. rewrite Hg. destruct HQ as [?|HQ]; [by left|right]. rewrite Hs in HQ. destruct HQ as (m' & Hm' & Hc). apply Hc. congruence.
Qed.
Lemma owner_update_role ws actor u r : keeps_owner (update_member_role sv ws actor u r).
Proof.
  unfold update_member_role, repo_update_role. case_match; [apply owner_quiet, quiet_throw|].
  apply owner_bind; [apply owner_quiet, quiet_guard_rank|intros _; by apply owner_new_role].
Qed.
Lemma owner_assign ws actor u c b : keeps_owner (assign_custom_role sv ws actor u c b).
Proof.
  unfold assign_custom_role, repo_set_custom. case_match; [apply owner_quiet, quiet_throw|].
  apply owner_bind; [apply owner_quiet, quiet_guard_rank|intros _; by apply owner_new_role].
Qed.
Lemma owner_remove ws actor u : keeps_owner (remove_member ws actor u).
Proof.
  unfold remove_member, repo_remove_member. apply (owner_guarded _ _ (fun _ w1 => may_leave w1 ws u)).
  { unfold removal_checks. quiet. }
  { intros w w1 [] (w2 & ? & _ & H)%bind_ok. by eapply guard_last_owner_ok. }
  intros w [] Hw HQ. apply write_owned; [done|]. intros w1 Hs. apply owned_delete; by rewrite <- Hs.
Qed.
Lemma owner_role_write f : keeps_owner (write (set_roles f)).
Proof. apply owner_write. intros w. by apply owned_other. Qed.
Lemma owner_create_role ws n b p : keeps_owner (create_role ws n b p).
Proof. apply owner_call. intros w. by apply owned_other. Qed.
Lemma owner_create_invitation ws e r h b t : keeps_owner (create_invitation ws e r h b t).
Proof. apply owner_call. intros w. case_match; [done|]. by apply owned_other. Qed.
#[local] Hint Resolve owner_update_role owner_assign owner_remove owner_role_write owner_create_role owner_create_invitation : owner.

Lemma owner_handle licensed ws by_ actor r : keeps_owner (handle sv d licensed ws by_ actor r).
Proof.
  destruct r; cbn [handle]; unfold need_role, need_permission, role_create, role_update, update_role, role_delete, delete_role, assign_member, invite;
    keep_owner.
Qed.
Lemma owner_serve licensed ws by_ r : keeps_owner (serve sv d licensed ws by_ r).
Proof. apply owner_bind; [apply owner_quiet, quiet_access|intros; apply owner_handle]. Qed.

Lemma owner_add ws u m : keeps_owner (add_member ws u m).
Proof. apply owner_call. intros w Hw. case_match eqn:Hn; [done|]. by apply owned_insert. Qed.
Lemma owner_update_invitation i : keeps_owner (update_invitation i).
Proof. apply owner_write. intros w. by apply owned_other. Qed.
#[local] Hint Resolve owner_add owner_update_invitation : owner.
Lemma owner_accept i u : keeps_owner (accept_invitation sv d i u).
Proof. unfold accept_invitation. keep_owner. Qed.
#[local] Hint Resolve owner_accept : owner.

Lemma insert_user_owned u w w' u' : insert_user u w = Ok (w', u') -> w_spaces w' = w_spaces w /\ w_members w' = w_members w.
Proof. unfold insert_user. cbv zeta. destruct (choose_username w u); [|done]. destruct (_ || _); [done|]. by intros [= <- <-]. Qed.
Lemma owner_claim u i : keeps_owner (claim u i).
Proof.
  assert (Hc : keeps_owner (create_user_from_invitation u i)).
  { apply owner_call. intros w Hw. case_match; [|done]. case_match; [|done]. case_match eqn:Hi; [|done]. case_match; subst.
    apply insert_user_owned in Hi as [Hs Hm]. case_match eqn:Hn; [done|]. apply owned_insert; [done|]. revert Hw. by apply owned_other. }
  intros w Hw. specialize (Hc w Hw). unfold claim. destruct (create_user_from_invitation u i w) as [w1 [[]|e]]; [done|].
  revert w1 Hc. change (keeps_owner (claim_error (i_email i) e)). unfold claim_error. keep_owner.
Qed.
#[local] Hint Resolve owner_claim : owner.
Lemma owner_register raw u : keeps_owner (register_from_invitation sv d raw u).
Proof. unfold register_from_invitation. keep_owner. Qed.

Lemma owned_save w id s : is_Some (w_spaces w !! id) -> owned w -> owned (set_spaces <[id := s]> w).
Proof.
  intros Hs Hw ws Hws. apply Hw. cbn in Hws. destruct (decide (ws = id)) as [->|Hne]; [done|]. by rewrite lookup_insert_ne in Hws.
Qed.
Lemma owner_create s : keeps_owner (create_with_owner s).
Proof.
  apply owner_call. intros w Hw. case_match; [done|]. intros ws Hws. cbn in *. unfold owner. cbn.
  destruct (decide (ws = w_seq w)) as [->|Hne].
  - exists (sp_owner s), (Member role_owner None ""). by rewrite lookup_insert_eq.
  - rewrite lookup_insert_ne in Hws by done. destruct (Hw ws Hws) as (u & m & Hm). exists u, m.
    rewrite lookup_insert_ne; [done|]. by intros [= E _].
Qed.
#[local] Hint Resolve owner_create : owner.
Lemma owner_assign_plan id p : keeps_owner (assign_plan id p).
Proof.
  apply owner_write. intros w Hw ws Hws. apply Hw. cbn in Hws. destruct (decide (ws = id)) as [->|Hne].
  - rewrite lookup_alter_eq in Hws. by destruct (w_spaces w !! id).
  - by rewrite lookup_alter_ne in Hws.
Qed.
#[local] Hint Resolve owner_assign_plan : owner.
Lemma owner_create_space o n h ds : keeps_owner (create sv o n h ds).
Proof. unfold create, create_named. keep_owner. Qed.
Lemma owner_create_for o n h : keeps_owner (create_for_owner sv o n h).
Proof. unfold create_for_owner, create_named. keep_owner. Qed.
Lemma owner_ensure_system o : keeps_owner (ensure_system sv o).
Proof. unfold ensure_system, pin_unlimited_plan. keep_owner. Qed.

Lemma owner_save id s w0 : is_Some (w_spaces w0 !! id) -> owned w0 -> owned (save_space id s w0).1.
Proof. intros Hs Hw. apply write_owned; [done|]. intros w1 H. apply owned_save; [|by rewrite <- H]. by rewrite (same_spaces _ _ H). Qed.
Lemma owner_rename id n : keeps_owner (rename id n).
Proof.
  apply (owner_guarded _ _ (fun _ w1 => is_Some (w_spaces w1 !! id))); [apply quiet_find_space| |].
  { intros w w1 a [_ H%of_option_ok]%query_ok. by rewrite H. }
  intros w s Hw Hid. cbn zeta. destruct (String.eqb _ ""); [done|]. destruct (String.eqb _ (sp_name s)); [by apply owner_save|].
  destruct (sp_system s); [done|]. destruct (is_reserved _); [done|].
  match goal with |- owned ((?g ≫= ?k) w).1 =>
    destruct (bind_cases g k w (quiet_exists_by_name _)) as [(w1 & e & _ & Hs & ->)|(w1 & [] & _ & Hs & ->)] end;
    cbn -[save_space]; [by rewrite <- Hs|by rewrite <- Hs|].
  apply owner_save; [by rewrite (same_spaces _ _ Hs)|by rewrite <- Hs].
Qed.
Lemma owner_delete_workspace id : keeps_owner (delete_workspace sv id).
Proof.
  assert (H : keeps_owner (delete_space id)).
  { apply owner_write. intros w Hw ws Hws. cbn in Hws. destruct Hws as [s [Hne Hs]%lookup_delete_Some].
    destruct (Hw ws) as (u & m & Hm & Hr); [by exists s|]. exists u, m. split; [|done]. cbn. apply map_lookup_filter_Some. cbn. by split. }
  unfold delete_workspace. keep_owner.
Qed.
End Services.
