(* ===== verification/MemberHistory.v ===== *)
(** * Histories of the membership tables

    Requests, invitations, workspaces made, renamed and deleted, and group synchronisations at sign-in, one after another; every
    turn has its own settings, clock and failing calls. What one turn cannot do, another may: the directory's reconciliation, two
    removals at once, and a custom role edited under its owner leave a workspace nobody owns. *)
From S2P Require Import Prelude GoStrings GoTime Quota ManifestSpec GitOps Roles Accounts Members GroupSync AccountFacts MemberOwners.
#[local] Open Scope Z_scope.
#[local] Open Scope list_scope.

(** ** Group synchronisation keeps an owner *)

Section Sync.
Context (can_own : option (N -> M unit)) (order : list N -> list N) (Hquiet : forall f u, can_own = Some f -> quiet (f u)).

Lemma quiet_sync_last_owner ws : quiet (last_owner ws). Proof. quiet_unfold last_owner. Qed.
Lemma quiet_granted u ws m r : quiet (granted_role can_own u ws m r).
Proof using Hquiet. unfold granted_role. destruct can_own as [f|] eqn:Hf; quiet. by apply Hquiet. Qed.
#[local] Hint Resolve quiet_sync_last_owner quiet_granted : quiet.

(** An owner that is not the last may be changed or removed; one the sync could not count stays. *)
Lemma last_owner_false ws w w1 :
  last_owner ws w = (w1, Ok false) -> 1 < count_members (owner_of ws) (w_members w1).
Proof.
  intros (w2 & n & Hn & H)%bind_ok. injection H as <- H. destruct n as [n|]; [|done]. apply Z.leb_gt in H.
  unfold attempt in Hn. destruct (count_owners ws w) as [w3 [m|]] eqn:Hc; [|done]. injection Hn as -> ->.
  apply query_ok in Hc as [_ Hc]. by injection Hc as ->.
Qed.
Lemma owner_managed ws u n : keeps owned (set_managed_by ws u n).
Proof. apply owner_write. intros w. apply owned_alter. intros m _ Ho. by left. Qed.
#[local] Hint Resolve owner_managed owner_add : owner.

(** The check of the last owner, then a change of the row it was asked for *)
Lemma owner_unless_last {A} ws u row (f : world -> world) (k : option unit -> M A) z w :
  w_members w !! (ws, u) = Some row -> owned w -> keeps owned z -> (forall o, keeps owned (k o)) ->
  (forall w, may_leave w ws u -> owned w -> owned (f w)) ->
  owned (((if String.eqb (m_role row) role_owner then last_owner ws else mret false) ≫= fun last : bool =>
          if last then z else attempt (write f) ≫= k) w).1.
Proof.
  intros Hrow Hw Hz Hk Hf.
  assert (Hq : quiet (if String.eqb (m_role row) role_owner then last_owner ws else mret false)) by quiet.
  match goal with |- owned ((?g ≫= ?k) w).1 =>
    destruct (bind_cases g k w Hq) as [(w1 & e & _ & Hs & ->)|(w1 & b & Hb & Hs & ->)] end; [by cbn; rewrite <- Hs|].
  assert (Hw1 : owned w1) by (by rewrite <- Hs).
  destruct b; [by apply Hz|].
  assert (Hl : may_leave w1 ws u).
  { exists row. rewrite (same_members _ _ Hs). split; [done|]. intros Ho. rewrite Ho in Hb. cbn in Hb.
    rewrite <- (same_members _ _ Hs). by eapply last_owner_false. }
  unfold mbind, M_bind, attempt.
  destruct (write_cases f w1) as [(w2 & H2 & ->)|(w2 & H2 & ->)]; apply Hk; [by rewrite <- H2|]. apply Hf; by rewrite <- H2.
Qed.

Lemma owner_sync_grant manager gov desired u ws : keeps owned (grant can_own manager gov desired u ws).
Proof using Hquiet.
  intros w Hw. unfold grant. cbv zeta.
  match goal with |- owned ((?g ≫= ?k) w).1 =>
    destruct (bind_cases g k w (quiet_attempt _ (quiet_find_member ws u))) as [(w1 & e & _ & Hs & ->)|(w1 & m & Hm & Hs & ->)] end;
    [by cbn; rewrite <- Hs|].
  assert (Hw1 : owned w1) by (by rewrite <- Hs). destruct (negb _); [done|].
  match goal with |- owned ((?g ≫= ?k) w1).1 =>
    destruct (bind_cases g k w1 (quiet_granted _ _ _ _)) as [(w2 & e & _ & H2 & ->)|(w2 & r & _ & H2 & ->)] end; [by cbn; rewrite <- H2|].
  assert (Hw2 : owned w2) by (by rewrite <- H2).
  destruct m as [row|].
  2:{ revert w2 H2 Hw2. intros w2 _. revert w2. match goal with |- forall w, owned w -> owned (?m w).1 => change (keeps owned m) end. keep_owner. }
  destruct (String.eqb _ r).
  { revert Hw2. match goal with |- owned w2 -> owned (?m w2).1 => enough (H : keeps owned m) by apply H end. keep_owner. }
  apply (owner_unless_last ws u); [| done | keep_owner | keep_owner |].
  - rewrite (same_members _ _ H2). unfold attempt in Hm. destruct (find_member ws u w) as [w3 [x|]] eqn:Hf; [|done].
    injection Hm as -> ->. by apply find_member_ok in Hf as [_ Hf].
  - intros w3 (row' & Hr & Hc) H3. apply owned_alter; [|done]. intros m Hm' Ho. right. apply Hc. congruence.
Qed.
Lemma owner_sync_revoke u ws : keeps owned (revoke u ws).
Proof.
  intros w Hw. unfold revoke.
  match goal with |- owned ((?g ≫= ?k) w).1 =>
    destruct (bind_cases g k w (quiet_attempt _ (quiet_find_member ws u))) as [(w1 & e & _ & Hs & ->)|(w1 & m & Hm & Hs & ->)] end;
    [by cbn; rewrite <- Hs|].
  assert (Hw1 : owned w1) by (by rewrite <- Hs). destruct m as [row|]; [|done].
  apply (owner_unless_last ws u); [| done | keep_owner | keep_owner |].
  - unfold attempt in Hm. destruct (find_member ws u w) as [w3 [x|]] eqn:Hf; [|done].
    injection Hm as -> ->. by apply find_member_ok in Hf as [_ Hf].
  - intros w3. apply owned_delete.
Qed.
Lemma owner_each f l : (forall x, keeps owned (f x)) -> keeps owned (each f l).
Proof. intros Hf. induction l as [|x l IH]; cbn [each]; [apply owner_quiet, quiet_ret|]. apply owner_bind; [apply Hf|done]. Qed.
Lemma owner_update_user u : keeps owned (update_user u).
Proof. apply owner_write. intros w. by apply owned_other. Qed.
Lemma owner_reconcile_admin b u wanted : keeps owned (reconcile_admin b u wanted).
Proof. pose proof owner_update_user. unfold reconcile_admin. keep_owner. Qed.
Lemma quiet_structured p gs desired : quiet (structured p gs desired).
Proof. revert desired. induction gs as [|g gs IH]; intros desired; cbn [structured]; quiet. Qed.
Lemma owner_sync i : keeps owned (reconcile can_own order i).
Proof using Hquiet.
  pose proof quiet_structured. pose proof owner_reconcile_admin. unfold reconcile. keep_owner;
    apply owner_each; intros; first [apply owner_sync_grant | apply owner_sync_revoke].
Qed.
End Sync.

(** ** Histories *)

Inductive op :=
| OpServe (licensed : bool) (ws by_ : N) (r : request)
| OpAccept (raw : string) (u : N)
| OpAcceptById (id u : N)
| OpRegister (raw : string) (u : user)
| OpCreate (owner : N) (display handle description : string)
| OpCreateFor (owner : N) (display handle : string)
| OpRename (id : N) (new : string)
| OpDelete (id : N)
| OpEnsureSystem (owner : N)
| OpSync (order : list N -> list N) (i : input).
Definition quietly {A} (m : M A) : M unit := _ ← m; mret tt.
Definition run_op (sv : service) (d : quota_db) (o : op) : M unit :=
  match o with
  | OpServe licensed ws by_ r => serve sv d licensed ws by_ r
  | OpAccept raw u => quietly (accept sv d raw u)
  | OpAcceptById id u => quietly (accept_by_id sv d id u)
  | OpRegister raw u => quietly (register_from_invitation sv d raw u)
  | OpCreate o n h ds => quietly (create sv o n h ds)
  | OpCreateFor o n h => quietly (create_for_owner sv o n h)
  | OpRename id n => rename id n
  | OpDelete id => delete_workspace sv id
  | OpEnsureSystem o => quietly (ensure_system sv o)
  | OpSync order i => reconcile (Some (can_own_another sv)) order i
  end.

(** A turn: an operation under the settings of its moment, at an instant, with the calls that fail *)
Record turn := Turn { t_service : service; t_quota : quota_db; t_now : instant; t_faults : list bool; t_op : op }.
Definition at_moment (t : instant) (faults : list bool) (w : world) : world :=
  World (w_users w) (w_orgs w) (w_spaces w) (w_members w) (w_invites w) (w_roles w) (w_keys w) (w_plans w) (w_seq w) t faults (w_told w).
Definition take_turn (w : world) (t : turn) : world :=
  (run_op (t_service t) (t_quota t) (t_op t) (at_moment (t_now t) (t_faults t) w)).1.
Definition history (w : world) (turns : list turn) : world := foldl take_turn w turns.
(** An installation without workspaces yet *)
Definition boot (users : gmap N user) (orgs : gmap N organization) (plans : gmap string N) (seq : N) : world :=
  World users orgs ∅ ∅ ∅ ∅ ∅ plans seq 0 [] [].

Lemma owner_op sv d o : keeps owned (run_op sv d o).
Proof.
  assert (Hq : forall A (m : M A), keeps owned m -> keeps owned (quietly m)).
  { intros A m Hm. apply owner_bind; [done|]. intros _. apply owner_quiet, quiet_ret. }
  destruct o; cbn [run_op]; try apply Hq.
  - apply owner_serve.
  - unfold accept. apply owner_bind; [apply owner_quiet; quiet|intros; apply owner_accept].
  - unfold accept_by_id. pose proof (owner_accept sv d). keep_owner.
  - apply owner_register.
  - apply owner_create_space.
  - apply owner_create_for.
  - apply owner_rename.
  - apply owner_delete_workspace.
  - apply owner_ensure_system.
  - apply owner_sync. intros f u0 [= <-]. apply quiet_can_own.
Qed.
Lemma owner_history turns : forall w, owned w -> owned (history w turns).
Proof.
  induction turns as [|t turns IH]; intros w Hw; cbn; [done|]. apply IH, owner_op. revert Hw. by apply owned_other.
Qed.

(** C5 [never_ownerless]: From an installation without workspaces, after any history of requests on members, invitations and
    custom roles, of invitations accepted, of workspaces created, renamed and deleted, and of single sign-on group
    synchronisations, under any settings, at any instants and with any calls failing, every workspace has a member whose role is
    owner. *)
Theorem never_ownerless users orgs plans seq turns ws s :
  w_spaces (history (boot users orgs plans seq) turns) !! ws = Some s ->
  exists u m, w_members (history (boot users orgs plans seq) turns) !! (ws, u) = Some m /\ m_role m = role_owner.
Proof.
  intros Hs. assert (H : owned (boot users orgs plans seq)).
  { intros ws' [s' Hs']. cbn in Hs'. by rewrite lookup_empty in Hs'. }
  apply (owner_history turns _ H ws). by exists s.
Qed.

(** ** Concrete histories *)

Definition demo_service : service :=
  Service None false None (Some 5) None None None None None false false false false false.
Definition demo_quota : quota_db := QuotaDB [] ∅ ∅ [] [] [] (fun _ => false).
Definition demo_user (id : N) (name : string) : user :=
  User id name name (name +:+ "@example.com") "" system_user true None "" None "local" kind_human None None None None "self".
Definition demo_boot : world := boot {[1%N := demo_user 1 "ada"; 2%N := demo_user 2 "bob"]} ∅ ∅ 7.
Definition demo_turn (o : op) : turn := Turn demo_service demo_quota 100 [] o.

Lemma never_ownerless_witness :
  let turns := [demo_turn (OpCreate 1 "Team" "" ""); demo_turn (OpServe true 7 1 (ReqRemove 1)); demo_turn (OpServe true 7 1 (ReqUpdateRole 1 role_viewer))] in
  is_Some (w_spaces (history demo_boot turns) !! 7%N) /\
  exists u m, w_members (history demo_boot turns) !! (7%N, u) = Some m /\ m_role m = role_owner.
Proof.
  cbv zeta. split; [by vm_compute; eauto|].
  apply (never_ownerless _ _ _ _ _ _ (Space "team" "Team" "" 1 None false false None None)). vm_compute. reflexivity.
Defined.

(** *** What the guards do not cover *)

(** One workspace, its members, and the custom roles 3 (an owner's base, few permissions) and 4 (an admin's base, fewer) *)
Definition demo_space : space := Space "team" "Team" "" 1 None false false None None.
Definition owner_row (custom : option N) : member := Member role_owner custom "".
Definition demo_roles : gmap N custom_role :=
  {[3%N := CustomRole (Some 7%N) "lead" role_owner (elements owner_permissions);
    4%N := CustomRole (Some 7%N) "people" role_admin [perm_member_write; "member:read"]]}.
Definition demo_team (members : list (N * member)) : world :=
  set_roles (fun _ => demo_roles) (set_spaces (fun _ => {[7%N := demo_space]})
    (set_members (fun _ => list_to_map ((fun um => ((7%N, um.1), um.2)) <$> members)) demo_boot)).

(** The directory removes the last owner of a workspace it governs, where single sign-on would keep them. *)
Definition ldap_user : user :=
  User 1 "ada" "ada" "ada@example.com" "" system_user true None "" None source_ldap kind_human None None None None "self".
Example directory_orphans_workspace :
  let w := demo_team [(1%N, owner_row None)] in
  let w1 := (directory_reconcile id ldap_user ["cn=staff,dc=example"] (mret [Mapping "cn=leads" false (Some 7%N) role_owner]) w).1 in
  let w2 := (reconcile None id (Input (Some ldap_user) "corp" ["staff"] [Rule "leads" false (Some 7%N) role_owner] "") w).1 in
  count_members (owner_of 7) (w_members w) = 1 /\ count_members (owner_of 7) (w_members w1) = 0 /\
  count_members (owner_of 7) (w_members w2) = 1.
Proof. vm_compute. repeat split. Qed.

(** Two owners remove each other at once: both pass the checks before either row goes. *)
Example racing_removals_orphan :
  let w := demo_team [(1%N, owner_row None); (2%N, owner_row None)] in
  (removal_checks 7 role_owner 2 w).2 = Ok tt /\ (removal_checks 7 role_owner 1 w).2 = Ok tt /\
  count_members (owner_of 7) (w_members (repo_remove_member 7 1 (repo_remove_member 7 2 w).1).1) = 0.
Proof. vm_compute. repeat split. Qed.

(** A custom role edited under its member: the row still says owner, the workspace resolves nobody to one. *)
Example edited_role_orphans :
  let w := demo_team [(1%N, owner_row (Some 3%N))] in
  let r := serve demo_service demo_quota true 7 1 (ReqRoleUpdate 3 (RoleInput "lead" role_viewer ["app:read"])) w in
  is_ok r.2 = true /\ count_members (owner_of 7) (w_members r.1) = 1 /\
  match (resolve_access 7 1 r.1).2 with Ok a => a.1 = role_viewer | Err _ => False end.
Proof. vm_compute. repeat split. Qed.
