(* ===== verification/MemberRights.v ===== *)
(** * Nobody gives more than they have

    What a member may do in a workspace, and that no request on its members, invitations or custom roles raises anyone above what
    its author's role and permissions, as the scope resolved them, allow. *)
From S2P Require Import Prelude GoStrings GoTime Quota ManifestSpec GitOps Roles Accounts Members GroupSync AccountFacts MemberOwners MemberHistory.
#[local] Open Scope Z_scope.
#[local] Open Scope list_scope.

(** What [resolve_access] answers when its reads succeed *)
Definition access (w : world) (ws u : N) : option (string * gset string) :=
  m ← w_members w !! (ws, u);
  Some (match m_custom m ≫= fun id => w_roles w !! id with
        | Some r => (cr_base r, permission_set r)
        | None => (m_role m, role_permissions (m_role m))
        end).
Definition granted (w : world) (ws u : N) : gset string := match access w ws u with Some a => a.2 | None => ∅ end.
#[export] Instance granted_proper : Proper (same ==> eq ==> eq ==> eq) granted.
Proof. intros w w' Hs ? ? -> ? ? ->. unfold granted, access. by rewrite (same_members _ _ Hs), (same_roles _ _ Hs). Qed.

Section Rights.
Context (ws : N) (actor : string * gset string) (w0 : world).

(** What the actor may give away *)
Definition authority : gset string := actor.2 ∪ role_permissions actor.1.

(** Since [w0], nobody in [ws] has gained what the actor could not give: permissions, a rank, an invitation's role. *)
Record within (w : world) : Prop := Within {
  within_granted : forall u, granted w ws u ⊆ granted w0 ws u ∪ authority;
  within_rank : forall u m, w_members w !! (ws, u) = Some m ->
    (exists m0, w_members w0 !! (ws, u) = Some m0 /\ m_role m0 = m_role m) \/ rank (m_role m) <= rank actor.1;
  within_invites : forall id i, w_invites w !! id = Some i -> w_invites w0 !! id = Some i \/ rank (i_role i) <= rank actor.1 }.
#[local] Instance within_proper : Proper (same ==> iff) within.
Proof using Type.
  assert (H : forall w w', same w w' -> within w -> within w').
  { intros w w' Hs [H1 H2 H3]. split.
    - intros u. rewrite <- Hs. apply H1.
    - intros u m. rewrite (same_members _ _ Hs). apply H2.
    - intros id i. rewrite (same_invites _ _ Hs). apply H3. }
  intros w w' Hs. split; apply H; [done|by symmetry].
Qed.
Lemma within_refl : within w0.
Proof using Type. split; [set_solver| |]; eauto. Qed.

Lemma within_write f w : within w -> (forall w1, same w w1 -> within w1 -> within (f w1)) -> within (write f w).1.
Proof using Type.
  intros Hw Hf. destruct (write_cases f w) as [(w1 & Hs & ->)|(w1 & Hs & ->)]; cbn; [by rewrite <- Hs|]. apply Hf; [done|by rewrite <- Hs].
Qed.
(** A guard that reads only; then what follows, on rows of which the guard says [Q] *)
Lemma within_guarded {A B} (g : M A) (k : A -> M B) (Q : A -> world -> Prop) w :
  quiet g -> (forall w1 a, g w = (w1, Ok a) -> Q a w1) -> within w -> (forall w1 a, same w w1 -> within w1 -> Q a w1 -> within (k a w1).1) ->
  within ((g ≫= k) w).1.
Proof using Type.
  intros Hg HQ Hw Hk. destruct (bind_cases g k w Hg) as [(w1 & e & _ & Hs & ->)|(w1 & a & Hr & Hs & ->)]; [by cbn; rewrite <- Hs|].
  apply Hk; [done|by rewrite <- Hs|by eapply HQ].
Qed.
Definition nothing {A} (_ : A) (_ : world) : Prop := True.

(** *** The writes *)

(** A row of [ws] changed: its new role is at most the actor's, its new permissions the actor may give. *)
Lemma within_alter w u g :
  (forall m, w_members w !! (ws, u) = Some m ->
     rank (m_role (g m)) <= rank actor.1 /\ granted (set_members (alter g (ws, u)) w) ws u ⊆ authority) ->
  within w -> within (set_members (alter g (ws, u)) w).
Proof using Type.
  intros Hg [H1 H2 H3]. split; [|cbn|done].
  - intros u'. destruct (decide (u' = u)) as [->|Hne].
    + destruct (w_members w !! (ws, u)) as [m|] eqn:Hm; [destruct (Hg m eq_refl) as [_ Ha]; set_solver|].
      unfold granted, access. cbn. rewrite lookup_alter_eq, Hm. cbn. set_solver.
    + etrans; [|apply H1]. unfold granted, access. cbn. rewrite lookup_alter_ne by (by intros [= ->]). done.
  - intros u' m'. destruct (decide (u' = u)) as [->|Hne].
    + rewrite lookup_alter_eq. destruct (w_members w !! (ws, u)) as [m|] eqn:Hm; [|done]. intros [= <-]. right. by apply (Hg m eq_refl).
    + rewrite lookup_alter_ne by (by intros [= ->]). apply H2.
Qed.
Lemma within_delete w u : within w -> within (set_members (delete (ws, u)) w).
Proof using Type.
  intros [H1 H2 H3]. split; [|cbn|done].
  - intros u'. destruct (decide (u' = u)) as [->|Hne].
    + unfold granted, access. cbn. rewrite lookup_delete_eq. cbn. set_solver.
    + etrans; [|apply H1]. unfold granted, access. cbn. rewrite lookup_delete_ne by (by intros [= ->]). done.
  - intros u' m' [_ Hm]%lookup_delete_Some. by apply H2.
Qed.
(** A custom role made or edited: its permissions are the actor's. *)
Lemma within_role w w' id r :
  w_members w' = w_members w -> w_invites w' = w_invites w -> w_roles w' = <[id := r]> (w_roles w) ->
  permission_set r ⊆ actor.2 -> within w -> within w'.
Proof using Type.
  intros Hm Hi Hr Hp [H1 H2 H3]. split; [|by rewrite Hm|by rewrite Hi].
  intros u. specialize (H1 u). unfold granted, access, authority in *. rewrite Hm, Hr.
  destruct (w_members w !! (ws, u)) as [m|]; cbn in *; [|set_solver]. destruct (m_custom m) as [c|]; cbn in *; [|done].
  destruct (decide (c = id)) as [->|Hne]; [rewrite lookup_insert_eq; cbn; set_solver|]. by rewrite lookup_insert_ne.
Qed.
Lemma within_role_delete w id :
  count_members (fun _ m => bool_decide (m_custom m = Some id)) (w_members w) <= 0 -> within w -> within (set_roles (delete id) w).
Proof using Type.
  intros Hn [H1 H2 H3]. split; [|done|done]. intros u. etrans; [|apply H1]. unfold granted, access. cbn.
  destruct (w_members w !! (ws, u)) as [m|] eqn:Hm; cbn; [|done]. destruct (m_custom m) as [c|] eqn:Hc; cbn; [|done].
  rewrite lookup_delete_ne; [done|]. intros ->. unfold count_members in Hn.
  assert (Hin : ((ws, u), m) ∈ List.filter (fun kv => bool_decide (m_custom kv.2 = Some c)) (map_to_list (w_members w))).
  { apply elem_of_bfilter. split; [by apply elem_of_map_to_list|]. by apply bool_decide_eq_true_2. }
  destruct (List.filter _ _); [by apply elem_of_nil in Hin|cbn in Hn; lia].
Qed.
End Rights.
#[export] Existing Instance within_proper.

(** ** The requests *)

Section Requests.
Context (sv : service) (d : quota_db) (licensed : bool) (ws by_ : N) (actor : string * gset string) (w0 : world).
Abbreviation inside := (within ws actor w0).

Lemma inside_quiet {A} (m : M A) w : quiet m -> inside w -> inside (m w).1.
Proof using Type. intros Hm Hw. by rewrite <- (Hm w). Qed.
(** The new role's guards, then the row *)
Lemma inside_new_role u r g w :
  inside w -> role_valid actor.1 = true ->
  (forall w1, same w w1 -> forall m, w_members w1 !! (ws, u) = Some m ->
     rank (m_role (g m)) <= rank actor.1 /\ granted (set_members (alter g (ws, u)) w1) ws u ⊆ authority actor) ->
  inside ((guard_new_role sv ws u r ≫= fun _ => write (set_members (alter g (ws, u)))) w).1.
Proof using Type.
  intros Hw _ Hg. apply (within_guarded _ _ _ _ _ nothing); [apply quiet_new_role|done|done|].
  intros w1 _ Hs Hw1 _. apply within_write; [done|]. intros w2 H2 Hw2. apply within_alter; [|done]. apply Hg. by etrans.
Qed.
(** A role given by name carries the permissions of its rank. *)
Lemma granted_builtin w u r :
  rank r <= rank actor.1 -> forall m, w_members w !! (ws, u) = Some m ->
  granted (set_members (alter (fun m => Member r None (m_managed m)) (ws, u)) w) ws u ⊆ authority actor.
Proof using Type.
  intros Hr m Hm. unfold granted, access, authority. cbn. rewrite lookup_alter_eq, Hm. cbn.
  pose proof (permissions_monotone _ _ Hr). set_solver.
Qed.
(** A custom role carries its own. *)
Lemma granted_custom w u id c base :
  w_roles w !! id = Some c -> permission_set c ⊆ actor.2 -> forall m, w_members w !! (ws, u) = Some m ->
  granted (set_members (alter (fun m => Member base (Some id) (m_managed m)) (ws, u)) w) ws u ⊆ authority actor.
Proof using Type.
  intros Hc Hp m Hm. unfold granted, access, authority. cbn. rewrite lookup_alter_eq, Hm. cbn. rewrite Hc. cbn. set_solver.
Qed.

Lemma inside_update u r w : inside w -> inside (update_member_role sv ws actor.1 u r w).1.
Proof using Type.
  intros Hw. unfold update_member_role. case_match; [done|].
  apply (within_guarded _ _ _ _ _ (fun _ _ => role_valid actor.1 = true /\ rank r <= rank actor.1)); [apply quiet_guard_rank| |done|].
  { intros w1 [] (Hv & _ & Hr)%guard_rank_ok. split; [done|by apply Hr]. }
  intros w1 [] Hs Hw1 [Hv Hr]. apply inside_new_role; [done|done|]. intros w2 _ m Hm. split; [done|by eapply granted_builtin].
Qed.
Lemma inside_assign u id w : inside w -> inside (assign_member sv ws actor u id w).1.
Proof using Type.
  intros Hw. unfold assign_member.
  apply (within_guarded _ _ _ _ _ (fun c w1 => w_roles w1 !! id = Some c)); [quiet| |done|].
  { intros w1 c. unfold or_err. destruct (find_role_in ws id w) as [w2 [c'|]] eqn:Hf; [|done]. intros [= <- <-].
    apply query_ok in Hf as [_ Hf]. do 2 (case_match; [|done]). congruence. }
  intros w1 c Hs Hw1 Hc. case_bool_decide as Hp; [|done]. unfold assign_custom_role. case_match; [done|].
  apply (within_guarded _ _ _ _ _ (fun _ _ => role_valid actor.1 = true /\ rank (cr_base c) <= rank actor.1)); [apply quiet_guard_rank| |done|].
  { intros w2 [] (Hv & _ & Hr)%guard_rank_ok. split; [done|by apply Hr]. }
  intros w2 [] H2 Hw2 [Hv Hr]. apply inside_new_role; [done|done|]. intros w3 H3 m Hm. split; [done|].
  eapply granted_custom; [|done|done]. by rewrite (same_roles _ _ H3), (same_roles _ _ H2).
Qed.
Lemma inside_remove u w : inside w -> inside (remove_member ws actor.1 u w).1.
Proof using Type.
  intros Hw. unfold remove_member. apply (within_guarded _ _ _ _ _ nothing); [unfold removal_checks; quiet|done|done|].
  intros w1 _ _ Hw1 _. apply within_write; [done|]. intros w2 _. apply within_delete.
Qed.
Lemma inside_create_invitation e r h t w :
  rank r <= rank actor.1 -> inside w -> inside (create_invitation ws e r h by_ t w).1.
Proof using Type.
  intros Hr Hw. unfold create_invitation.
  match goal with |- inside (call ?f w).1 => destruct (call_cases f w) as [(w1 & Hs & ->)|(w1 & Hs & ->)] end; [by cbn; rewrite <- Hs|].
  assert (inside w1) as [H1 H2 H3] by (by rewrite <- Hs). case_match; [done|]. split; [done|done|]. cbn. intros id i.
  destruct (decide (id = w_seq w1)) as [->|Hne]; [rewrite lookup_insert_eq; intros [= <-]; by right|].
  rewrite lookup_insert_ne by done. apply H3.
Qed.
Lemma inside_invite e r raw w : inside w -> inside (invite sv d ws actor.1 by_ e r raw w).1.
Proof using Type.
  intros Hw. unfold invite. case_match; [done|]. destruct (role_valid actor.1); [|done]. cbn [negb orb].
  destruct (rank actor.1 <? rank r) eqn:Hr; [done|]. apply Z.ltb_ge in Hr.
  assert (Hb : forall A B (m : M A) (k : A -> M B) w, quiet m -> (forall a w1, inside w1 -> inside (k a w1).1) -> inside w -> inside ((m ≫= k) w).1).
  { intros A B m k w' Hm Hk Hw'. apply (within_guarded _ _ _ _ _ nothing); [done|done|done|]. intros w1 a _ H1 _. by apply Hk. }
  cbv zeta. do 5 (apply Hb; [quiet| |done]; clear w Hw; intros ? w Hw). by apply inside_create_invitation.
Qed.
Lemma inside_role_create i w : inside w -> inside (role_create ws i actor.2 w).1.
Proof using Type.
  intros Hw. apply (within_guarded _ _ _ _ _ (fun _ _ => permission_set (CustomRole (Some ws) "" "" (ri_permissions i)) ⊆ actor.2)); [apply quiet_checked| |done|].
  { intros w1 []. unfold checked. destruct (validate i actor.2) eqn:Hv; [done|]. intros _. by apply validate_sound in Hv as (_ & Hp & _). }
  intros w1 [] _ Hw1 Hp. unfold create_role.
  match goal with |- inside (call ?f w1).1 => destruct (call_cases f w1) as [(w2 & Hs & ->)|(w2 & Hs & ->)] end; [by cbn; rewrite <- Hs|].
  rewrite Hs in Hw1. revert Hw1. by eapply within_role.
Qed.
Lemma inside_role_update id i w : inside w -> inside (role_update ws id i actor.2 w).1.
Proof using Type.
  intros Hw. apply (within_guarded _ _ _ _ _ nothing); [quiet|done|done|]. intros w1 r _ Hw1 _.
  apply (within_guarded _ _ _ _ _ (fun _ _ => permission_set (CustomRole (Some ws) "" "" (ri_permissions i)) ⊆ actor.2)); [apply quiet_checked| |done|].
  { intros w2 []. unfold checked. destruct (validate i actor.2) eqn:Hv; [done|]. intros _. by apply validate_sound in Hv as (_ & Hp & _). }
  intros w2 [] _ Hw2 Hp. apply within_write; [done|]. intros w3 _. by eapply within_role.
Qed.
Lemma inside_role_delete id w : inside w -> inside (role_delete ws id w).1.
Proof using Type.
  intros Hw. apply (within_guarded _ _ _ _ _ nothing); [quiet|done|done|]. intros w1 r _ Hw1 _.
  apply (within_guarded _ _ _ _ _ (fun n w2 => n = count_members (fun _ m => bool_decide (m_custom m = Some id)) (w_members w2)));
    [apply quiet_count_using| |done|].
  { intros w2 n [_ Hn]%query_ok. by injection Hn. }
  intros w2 n _ Hw2 Hn. case_match eqn:Hz; [done|]. apply Z.ltb_ge in Hz. apply within_write; [done|].
  intros w3 H3. apply within_role_delete. rewrite (same_members _ _ H3). lia.
Qed.

Lemma inside_handle r w : inside w -> inside (handle sv d licensed ws by_ actor r w).1.
Proof using Type.
  intros Hw. destruct r; cbn [handle]; unfold need_role, need_permission; repeat (case_match; [|done]); try (case_match; [done|]).
  - by apply inside_update.
  - by apply inside_remove.
  - pose proof (inside_invite email role raw w Hw) as H'. unfold mbind, M_bind. by destruct (invite _ _ _ _ _ _ _ _ w) as [? []].
  - pose proof (inside_role_create i w Hw) as H'. unfold mbind, M_bind. by destruct (role_create _ _ _ w) as [? []].
  - by apply inside_role_update.
  - by apply inside_role_delete.
  - by apply inside_assign.
Qed.
End Requests.

(** C7 [no_escalation]: Once the scope has resolved the author as a member of the workspace, with a
    built-in role and the permissions its request runs with, then whatever it asks of the
    workspace's members, invitations and custom roles, whatever is licensed and whatever calls fail:
    nobody's permissions there grow beyond those its request runs with and those of its built-in
    role taken together (so a member that a custom role narrows may widen itself, but to its
    built-in role at most); nobody's role rises above the rank of the author's built-in role; and no
    invitation is made for a role above that rank. *)
Theorem no_escalation sv d licensed ws by_ r w w1 actor :
  resolve_access ws by_ w = (w1, Ok actor) ->
  let w' := (serve sv d licensed ws by_ r w).1 in
  (forall u, granted w' ws u ⊆ granted w ws u ∪ (actor.2 ∪ role_permissions actor.1)) /\
  (forall u m, w_members w' !! (ws, u) = Some m ->
     (exists m0, w_members w !! (ws, u) = Some m0 /\ m_role m0 = m_role m) \/ rank (m_role m) <= rank actor.1) /\
  (forall id i, w_invites w' !! id = Some i -> w_invites w !! id = Some i \/ rank (i_role i) <= rank actor.1).
Proof.
  intros Ha. cbv zeta. unfold serve. change ((resolve_access ws by_ ≫= ?k) w) with (let (w1, r) := resolve_access ws by_ w in
    match r with Ok a => k a w1 | Err e => (w1, Err e) end). rewrite Ha.
  pose proof (quiet_access ws by_ w) as Hs. rewrite Ha in Hs. cbn in Hs.
  destruct (inside_handle sv d licensed ws by_ actor w r w1) as [H1 H2 H3]; [rewrite <- Hs; apply within_refl|]. done.
Qed.

(** ** Concrete requests *)

(** An admin takes a narrower custom role. *)
Lemma no_escalation_witness :
  let w := demo_team [(1%N, owner_row None); (2%N, Member role_admin None "")] in
  let actor := (role_admin, role_permissions role_admin) in
  let w' := (serve demo_service demo_quota true 7 2 (ReqAssign 2 4) w).1 in
  (resolve_access 7 2 w).2 = Ok actor /\
  bool_decide (granted w' 7 2 = {[perm_member_write; "member:read"]}) = true /\
  (forall u, granted w' 7 u ⊆ granted w 7 u ∪ (actor.2 ∪ role_permissions actor.1)).
Proof.
  cbv zeta. split_and!; [reflexivity|vm_compute; reflexivity|].
  apply (no_escalation demo_service demo_quota true 7 2 (ReqAssign 2 4) _
           (resolve_access 7 2 (demo_team [(1%N, owner_row None); (2%N, Member role_admin None "")])).1).
  reflexivity.
Defined.

(** A custom role based on admin with fewer permissions: its rank lets its member take the built-in role, and with it the rest. *)
Example narrowed_admin_widens_self :
  let w := demo_team [(1%N, owner_row None); (2%N, Member role_admin (Some 4%N) "")] in
  let r := serve demo_service demo_quota true 7 2 (ReqUpdateRole 2 role_admin) w in
  is_ok r.2 = true /\ bool_decide ("app:delete" ∈ granted w 7 2) = false /\ bool_decide ("app:delete" ∈ granted r.1 7 2) = true.
Proof. vm_compute. repeat split. Qed.

(** The read of the custom role fails: the request runs with the permissions of the role under it. *)
Example failed_role_read_widens :
  let w := demo_team [(1%N, owner_row None); (2%N, Member role_admin (Some 4%N) "")] in
  let asked := resolve_access 7 2 in
  (asked w).2 = Ok (role_admin, permission_set (CustomRole (Some 7%N) "people" role_admin [perm_member_write; "member:read"])) /\
  (asked (at_moment 0 [false; true] w)).2 = Ok (role_admin, role_permissions role_admin).
Proof. split; reflexivity. Qed.
