(* ===== verification/MemberInvites.v ===== *)
(** * Invitations

    An invitation made is the one its token finds; accepted, it gives its role to the user who accepts it, and nobody again. *)
From S2P Require Import Prelude GoStrings GoTime Quota ManifestSpec GitOps Roles Accounts Members GroupSync AccountFacts MemberOwners MemberHistory.
#[local] Open Scope Z_scope.
#[local] Open Scope list_scope.

(** ** Runs whose calls all succeed *)

Lemma call_calm {A} (f : world -> world * result acc_err A) w : w_faults w = [] -> call f w = f w.
Proof. intros Hf. unfold call. rewrite Hf. cbn. f_equal. destruct w. cbn in *. by rewrite Hf. Qed.
Lemma query_calm {A} (f : world -> result acc_err A) w : w_faults w = [] -> query f w = (w, f w).
Proof. intros Hw. unfold query. by rewrite call_calm. Qed.
Lemma bind_run {A B} (m : M A) (k : A -> M B) w w1 a : m w = (w1, Ok a) -> (m ≫= k) w = k a w1.
Proof. unfold mbind, M_bind. by intros ->. Qed.
(** A check that passes without touching a row or a fault leaves the world itself. *)
Definition calm {A} (m : M A) : Prop := forall w, w_faults w = [] -> (m w).1 = w.
Lemma calm_ret {A} (a : A) : calm (mret a). Proof. done. Qed.
Lemma calm_throw {A} e : calm (throw (A := A) e). Proof. done. Qed.
Lemma calm_query {A} (f : world -> result acc_err A) : calm (query f).
Proof. intros w Hw. by rewrite query_calm. Qed.
Lemma calm_bind {A B} (m : M A) (k : A -> M B) : calm m -> (forall a, calm (k a)) -> calm (m ≫= k).
Proof. intros Hm Hk w Hw. specialize (Hm w Hw). unfold mbind, M_bind. destruct (m w) as [w1 [a|e]]; cbn in Hm; subst; [by apply Hk|done]. Qed.
Lemma calm_attempt {A} (m : M A) : calm m -> calm (attempt m).
Proof. intros Hm w Hw. specialize (Hm w Hw). unfold attempt. by destruct (m w) as [? []]. Qed.
#[export] Hint Resolve calm_ret calm_throw calm_query calm_attempt : quiet.
Ltac calm_step :=
  match goal with
  | |- forall _, calm _ => intro
  | |- calm (if ?b then _ else _) => destruct b
  | |- calm (match ?x with _ => _ end) => destruct x
  | |- calm _ => solve [eauto with quiet nocore]
  | |- calm (_ ≫= _) => apply calm_bind
  | |- calm (attempt _) => apply calm_attempt
  end.
Ltac calmly := repeat calm_step.
Lemma calm_home u : calm (home_organization u).
Proof. unfold home_organization, resolve_org, default_org_id. calmly. Qed.
#[export] Hint Resolve calm_home : quiet.
Section Calm.
Context (sv : service) (d : quota_db).
Lemma calm_home_org u : calm (home_org sv u). Proof. unfold home_org, find_user, find_org. calmly. Qed.
#[local] Hint Resolve calm_home_org : quiet.
Lemma calm_limits e g u : calm (user_override e g u) /\ calm (org_limits sv u).
Proof. unfold user_override, org_limits, find_user. split; calmly. Qed.
Lemma calm_workspace_limit u : calm (effective_workspace_limit sv u).
Proof. unfold effective_workspace_limit. pose proof (fun e g u => proj1 (calm_limits e g u)) as H1. pose proof (fun u => proj2 (calm_limits None u_workspace_limit u)) as H2. calmly. Qed.
Lemma calm_membership_limit u : calm (effective_membership_limit sv u).
Proof. unfold effective_membership_limit. pose proof (fun e g u => proj1 (calm_limits e g u)) as H1. pose proof (fun u => proj2 (calm_limits None u_workspace_limit u)) as H2. calmly. Qed.
#[local] Hint Resolve calm_workspace_limit calm_membership_limit : quiet.
Lemma calm_can_own u : calm (can_own_another sv u).
Proof. unfold can_own_another, under_limit, find_user, count_owned_by. calmly. Qed.
Lemma calm_can_join u : calm (can_join_another sv u).
Proof. unfold can_join_another, under_limit, count_joined_by. calmly. Qed.
Lemma calm_capacity ws : calm (check_member_capacity sv d ws).
Proof. unfold check_member_capacity, member_count. calmly. Qed.
End Calm.

(** A computation that leaves the world and passes *)
Lemma bind_calm {B} (m : M unit) (k : unit -> M B) w :
  calm m -> w_faults w = [] -> (m w).2 = Ok tt -> (m ≫= k) w = k tt w.
Proof. intros Hm Hw Hr. apply bind_run. rewrite <- (Hm w Hw) at 2. rewrite <- Hr. by destruct (m w). Qed.

(** ** The row an invitation leaves *)

Lemma row_where_unique {A} (p : A -> bool) (m : gmap N A) id x :
  m !! id = Some x -> p x = true -> (forall id' y, m !! id' = Some y -> p y = true -> y = x) -> row_where p m = Some x.
Proof.
  intros Hm Hp Hu. unfold row_where. destruct (find_first p (map_to_list m).*2) as [y|] eqn:Hf.
  - apply find_first_some in Hf as [Hin Hy]. f_equal.
    apply list_elem_of_fmap in Hin as ([id' y'] & -> & Hin%elem_of_map_to_list). by eapply Hu.
  - pose proof (proj1 (find_first_none _ _) Hf x) as Hn. rewrite Hn in Hp; [done|]. apply list_elem_of_fmap. exists (id, x).
    split; [done|]. by apply elem_of_map_to_list.
Qed.

(** What [Invite] leaves when it answers an invitation *)
Lemma invite_ok sv d ws actor by_ e r raw w w1 i :
  invite sv d ws actor by_ e r raw w = (w1, Ok i) ->
  i = Invitation (i_id i) ws (norm_email e) r (hash_token raw) invite_pending by_ (w_now w + invitation_ttl) /\
  w_invites w1 !! i_id i = Some i /\
  (forall id j, w_invites w1 !! id = Some j -> i_hash j = hash_token raw -> id = i_id i /\ j = i) /\
  role_valid r = true /\ rank r <= rank actor.
Proof.
  unfold invite. destruct (role_valid r) eqn:Hr; cbn [negb]; [|done]. destruct (role_valid actor); cbn [negb orb]; [|done].
  destruct (rank actor <? rank r) eqn:Hk; [done|]. apply Z.ltb_ge in Hk. cbv zeta.
  assert (Hq : forall B (m : M B) w w1 (b : B), quiet m -> m w = (w1, Ok b) -> w_now w1 = w_now w).
  { intros B m w' w1' b Hm E. specialize (Hm w'). rewrite E in Hm. by destruct Hm. }
  intros (w2 & u & Hu & H)%bind_ok. apply Hq in Hu; [|quiet].
  apply bind_ok in H as (w3 & x & Hx & H). apply Hq in Hx; [|quiet].
  apply bind_ok in H as (w4 & p & Hp & H). apply Hq in Hp; [|quiet].
  apply bind_ok in H as (w5 & [] & Hf & H). apply Hq in Hf; [|quiet].
  apply bind_ok in H as (w6 & [] & Hc & H). apply Hq in Hc; [|quiet].
  apply bind_ok in H as (w7 & t & Ht & H). injection Ht as <- <-.
  unfold create_invitation in H.
  match type of H with call ?f _ = _ => destruct (call_cases f w6) as [(w8 & Hs & E)|(w8 & Hs & E)]; rewrite E in H; [done|] end.
  destruct (existsb _ _) eqn:Hex; [done|]. injection H as <- <-. cbn. split_and!; [| by rewrite lookup_insert_eq| |done|done].
  - f_equal. lia.
  - intros id j. destruct (decide (id = w_seq w8)) as [->|Hne]; [rewrite lookup_insert_eq; by intros [= <-]|].
    rewrite lookup_insert_ne by done. intros Hj Hh. exfalso. eapply (existsb_elem_false _ _ ) in Hex.
    2:{ apply list_elem_of_fmap. exists (id, j). split; [done|]. by apply elem_of_map_to_list. }
    cbn in Hex. by rewrite Hh, String.eqb_refl in Hex.
Qed.

Lemma accept_used sv d raw u w i :
  (forall id j, w_invites w !! id = Some j -> i_hash j = hash_token raw -> i_status j <> invite_pending) ->
  i_hash i = hash_token raw -> (accept sv d raw u w).2 = Err ErrInvalidInvite.
Proof.
  intros Hu _. unfold accept. destruct (or_err ErrInvalidInvite (find_invitation_by_hash (hash_token raw)) w) as [w1 [j|e]] eqn:Hf.
  - rewrite (bind_run _ _ _ _ _ Hf). unfold or_err in Hf. destruct (find_invitation_by_hash (hash_token raw) w) as [w2 [k|]] eqn:Hg; [|done].
    injection Hf as -> ->. apply query_ok in Hg as [Hs Hg%of_option_ok]. unfold row_where in Hg.
    apply find_first_some in Hg as [Hin Hh%String.eqb_eq].
    apply list_elem_of_fmap in Hin as ([id j'] & -> & Hin%elem_of_map_to_list). cbn in *. rewrite (same_invites _ _ Hs) in Hin.
    specialize (Hu id j' Hin Hh). unfold accept_invitation, mbind, M_bind, now. cbn. unfold open_invitation.
    by apply String.eqb_neq in Hu as ->.
  - unfold mbind, M_bind. rewrite Hf. unfold or_err in Hf. destruct (find_invitation_by_hash _ w) as [w2 [k|]]; [done|]. by injection Hf as _ <-.
Qed.

(** C15 [invitation_round_trip]: A token that Invite answered is presented within seven days, right
    after the invitation with no other operation in between and with no call failing, by a user who
    is not a member yet, to a workspace that is there and has room for another member, the user
    having room to own or to join another workspace (as the role asks): the user becomes a member
    with exactly the role the invitation was made for, which ranks at most the inviter's, nobody
    else's membership changes, and from then on, whatever calls fail, the token is refused to anyone
    who presents it next. *)
Theorem invitation_round_trip sv d ws actor by_ e r raw w w1 i u t s :
  invite sv d ws actor by_ e r raw w = (w1, Ok i) ->
  t <= w_now w + invitation_ttl ->
  let now1 := at_moment t [] w1 in
  w_spaces w1 !! ws = Some s -> w_members w1 !! (ws, u) = None ->
  (check_member_capacity sv d ws now1).2 = Ok tt ->
  ((if String.eqb r role_owner then can_own_another sv u else can_join_another sv u) now1).2 = Ok tt ->
  exists w2,
    accept sv d raw u now1 = (w2, Ok s) /\
    w_members w2 = <[(ws, u) := Member r None ""]> (w_members w1) /\ rank r <= rank actor /\
    forall u' t' faults, (accept sv d raw u' (at_moment t' faults w2)).2 = Err ErrInvalidInvite.
Proof.
  intros (Ei & Hi & Hu & Hv & Hr)%invite_ok Ht now1 Hs Hn Hcap Hroom.
  assert (Hh : i_hash i = hash_token raw) by by rewrite Ei. assert (Hw : i_workspace i = ws) by by rewrite Ei.
  assert (Hro : i_role i = r) by by rewrite Ei.
  assert (Hfind : find_invitation_by_hash (hash_token raw) now1 = (now1, Ok i)).
  { unfold find_invitation_by_hash. rewrite query_calm by done. f_equal. apply of_option_ok. eapply row_where_unique; [exact Hi| |].
    - by rewrite Hh, String.eqb_refl.
    - intros id j Hj Hp%String.eqb_eq. by eapply Hu. }
  set (w2 := set_invites <[i_id i := with_status invite_accepted i]> (set_members <[(ws, u) := Member r None ""]> now1)).
  exists w2. split_and!.
  - unfold accept. rewrite (bind_run _ _ now1 now1 i) by (by unfold or_err; rewrite Hfind).
    unfold accept_invitation. rewrite (bind_run _ _ now1 now1 t) by done.
    assert (Ho : open_invitation i t = true).
    { rewrite Ei. unfold open_invitation. cbn. apply negb_true_iff, Z.ltb_ge. lia. }
    rewrite Ho. cbn [negb]. rewrite Hw, Hro.
    rewrite (bind_run _ _ now1 now1 None).
    2:{ unfold attempt, find_member. rewrite query_calm by done. cbn. by rewrite Hn. }
    rewrite bool_decide_eq_false_2 by (by intros []). rewrite (bind_run _ _ now1 now1 tt) by done.
    rewrite bind_calm; [|apply calm_capacity|done|done].
    rewrite bind_calm; [|destruct (String.eqb r role_owner); [apply calm_can_own|apply calm_can_join]|done|done].
    rewrite (bind_run _ _ now1 (set_members <[(ws, u) := Member r None ""]> now1) tt).
    2:{ unfold add_member. rewrite call_calm by done. cbn. by rewrite Hn. }
    rewrite (bind_run _ _ _ w2 tt) by (unfold update_invitation, write; by rewrite call_calm).
    unfold find_space. rewrite query_calm by done. cbn. unfold find_row. by rewrite Hs.
  - done.
  - done.
  - intros u' t' faults. eapply accept_used; [|exact Hh]. intros id j Hj Hhj. cbn in Hj.
    destruct (decide (id = i_id i)) as [->|Hne]; [rewrite lookup_insert_eq in Hj; by injection Hj as <-|].
    rewrite lookup_insert_ne in Hj by done. by destruct (Hu id j Hj Hhj).
Qed.

(** Ada, an admin, invites Bob as a developer; he accepts two days later. *)
Definition invited : world * result acc_err invitation :=
  invite demo_service demo_quota 7 role_admin 1 " Bob@Example.com" role_developer "token" (demo_team [(1%N, owner_row None)]).
Definition bobs : invitation :=
  Invitation 7 7 "bob@example.com" role_developer (hash_token "token") invite_pending 1 invitation_ttl.
Lemma invitation_round_trip_witness :
  invited = (invited.1, Ok bobs) /\
  exists w2,
    accept demo_service demo_quota "token" 2 (at_moment (2 * 24 * (60 * minute)) [] invited.1) = (w2, Ok demo_space) /\
    w_members w2 = <[(7%N, 2%N) := Member role_developer None ""]> (w_members invited.1) /\ rank role_developer <= rank role_admin /\
    forall u' t' faults, (accept demo_service demo_quota "token" u' (at_moment t' faults w2)).2 = Err ErrInvalidInvite.
Proof.
  split; [vm_compute; reflexivity|].
  eapply (invitation_round_trip demo_service demo_quota 7 role_admin 1 " Bob@Example.com" role_developer "token"
            (demo_team [(1%N, owner_row None)]) invited.1 bobs 2).
  all: vm_compute; first [reflexivity | done].
Defined.
