(* ===== verification/ApiKeys.v ===== *)
(** * API keys

    services/auth/api_key.go over the keys of [Accounts] (storage/repositories/api_key_repo.go) and the requests of
    handlers/api_key_handler.go. A key's plaintext is "mb_" and the hexadecimal digits of 32 random bytes, an argument here; the
    table keeps its first eleven characters and its SHA-256. Days are counted in UTC. *)
From S2P Require Import Prelude GoStrings GoTime Sha256 Quota Roles ApiScopes Accounts Members AccountFacts MemberOwners MemberHistory MemberInvites.
#[local] Open Scope Z_scope.
#[local] Open Scope list_scope.

Definition key_prefix : string := "mb_".
Definition prefix_len : nat := String.length key_prefix + 8.

(** [generateToken]: the raw token of its random bytes *)
Definition raw_token (random : list Z) : string := join "" (hex_byte <$> random).
Definition plaintext_of (random : list Z) : string := key_prefix +:+ raw_token random.

(** ** The table *)

Definition find_by_prefix (p : string) : M (list api_key) :=
  query (fun w => Ok (List.filter (fun k => String.eqb (k_prefix k) p) (map_to_list (w_keys w)).*2)).
Definition find_key (id : N) : M api_key := query (fun w => find_row (w_keys w) id).
Definition count_keys (ws : N) : M Z :=
  query (fun w => Ok (Z.of_nat (length (List.filter
    (fun k => bool_decide (k_workspace k = Some ws) && negb (k_ephemeral k)) (map_to_list (w_keys w)).*2)))).
Definition with_id (id : N) (k : api_key) : api_key :=
  ApiKey id (k_user k) (k_workspace k) (k_name k) (k_hash k) (k_prefix k) (k_scopes k) (k_ips k) (k_app k) (k_ephemeral k)
         (k_last_used k) (k_expires k) (k_revoked k).
Definition revoked (k : api_key) : api_key :=
  ApiKey (k_id k) (k_user k) (k_workspace k) (k_name k) (k_hash k) (k_prefix k) (k_scopes k) (k_ips k) (k_app k) (k_ephemeral k)
         (k_last_used k) (k_expires k) true.
Definition touched (t : instant) (k : api_key) : api_key :=
  ApiKey (k_id k) (k_user k) (k_workspace k) (k_name k) (k_hash k) (k_prefix k) (k_scopes k) (k_ips k) (k_app k) (k_ephemeral k)
         (Some t) (k_expires k) (k_revoked k).
Definition insert_key (k : api_key) : M api_key :=
  call (fun w =>
    if existsb (fun j => String.eqb (k_hash j) (k_hash k)) (map_to_list (w_keys w)).*2 then (w, Err ErrDuplicate)
    else let k := with_id (w_seq w) k in (next_id (set_keys <[k_id k := k]> w), Ok k)).
Definition revoke_key (id : N) : M unit := write (set_keys (alter revoked id)).
Definition revoke_all_by_user (u : N) : M unit := write (set_keys (fmap (fun k => if (k_user k =? u)%N then revoked k else k))).
Definition delete_key (id : N) : M unit := write (set_keys (delete id)).
Definition touch_last_used (id : N) : M unit := write (fun w => set_keys (alter (touched (w_now w)) id) w).
Definition expired_ephemeral (t : instant) (k : api_key) : bool :=
  k_ephemeral k && match k_expires k with Some e => e <? t | None => false end.
Definition delete_expired_ephemeral (t : instant) : M unit :=
  write (set_keys (filter (fun kv => expired_ephemeral t kv.2 = false))).

(** ** The service *)

Section Keys.
Context (q : option quota_service) (d : quota_db).

Definition normal (scopes : list string) : M (list string) :=
  match normalize_scopes scopes with Ok l => mret l | Err s => throw (ErrUnknownScope s) end.
Definition new_key (u : N) (ws : option N) (name plaintext : string) (scopes ips : list string) (app : option N) (ephemeral : bool)
    (expires : option instant) : api_key :=
  ApiKey 0 u ws name (hash_token plaintext) (str_take prefix_len plaintext) scopes ips app ephemeral None expires false.
Definition issue (k : api_key) (plaintext : string) : M (string * api_key) := k ← insert_key k; mret (plaintext, k).
(** [Create] *)
Definition key_create (u : N) (ws : option N) (name : string) (ips scopes : list string) (expires : option instant) (random : list Z) :
    M (string * api_key) :=
  scopes ← normal scopes;
  _ ← (match ws with
       | Some ws =>
           if enabled q then
             n ← attempt (count_keys ws);
             match check_create q d ws ResourceAPIKeys (default 0 n) with Some e => throw (ErrQuota e) | None => mret tt end
           else mret tt
       | None => mret tt
       end);
  let p := plaintext_of random in issue (new_key u ws name p scopes ips None false expires) p.
(** [CreateBilling] *)
Definition key_create_billing (u : N) (name : string) (ips : list string) (random : list Z) : M (string * api_key) :=
  let p := plaintext_of random in issue (new_key u None name p [scope_billing] ips None false None) p.
(** [CreateMigration] *)
Definition key_create_migration (u : N) (ws : option N) (name : string) (expires : instant) (random : list Z) : M (string * api_key) :=
  let p := plaintext_of random in issue (new_key u ws name p [scope_migration] [] None false (Some expires)) p.
(** [CreateEphemeral] *)
Definition key_create_ephemeral (u ws : N) (app : option N) (name : string) (scopes : list string) (expires : instant) (random : list Z) :
    M (string * api_key) :=
  scopes ← normal scopes;
  let p := plaintext_of random in issue (new_key u (Some ws) name p scopes [] app true (Some expires)) p.

(** [Verify] *)
Definition verify (plaintext : string) : M api_key :=
  if negb (has_prefix key_prefix plaintext) || (String.length plaintext <? prefix_len)%nat then throw ErrInvalidKey
  else
    candidates ← or_err ErrInvalidKey (find_by_prefix (str_take prefix_len plaintext));
    let hash := hash_token plaintext in
    match find_first (fun k => String.eqb (k_hash k) hash) candidates with
    | None => throw ErrInvalidKey
    | Some k =>
        t ← now;
        if is_valid k t then _ ← attempt (touch_last_used (k_id k)); mret k else throw ErrInvalidKey
    end.

(** ** Requests: handlers/api_key_handler.go *)

Definition grants_admin (scopes : list string) : bool := existsb (fun s => String.eqb s scope_admin || String.eqb s scope_all) scopes.
(** [Create]; [gate] is the console unlock's answer, [None] when it is not wired. *)
Definition handle_create (gate : option bool) (u : N) (ws : option N) (name : string) (ips scopes : list string) (days : option Z) (random : list Z) :
    M (string * api_key) :=
  _ ← (match ws with Some ws => _ ← or_err ErrForbidden (find_member ws u); mret tt | None => mret tt end);
  scopes ← normal scopes;
  _ ← (match gate with
       | Some fresh =>
           if bool_decide (ws = None) && grants_admin scopes then
             usr ← attempt (find_user u);
             if default false (is_admin <$> usr) && negb fresh then throw ErrForbidden else mret tt
           else mret tt
       | None => mret tt
       end);
  t ← now;
  let expires := match days with Some n => if 0 <? n then Some (t + n * (24 * (60 * minute))) else None | None => None end in
  key_create u ws name ips scopes expires random.
(** [ownedKey] *)
Definition owned_key (u id : N) : M api_key :=
  k ← or_err ErrNotFound (find_key id);
  if (k_user k =? u)%N then mret k else throw ErrNotFound.
Definition handle_revoke (u id : N) : M unit := k ← owned_key u id; revoke_key (k_id k).
Definition handle_delete (u id : N) : M unit :=
  k ← owned_key u id;
  t ← now;
  if is_valid k t then throw (ErrBadRequest "active API keys cannot be deleted") else delete_key (k_id k).

(** What is done with the keys, one after another *)
Inductive key_op :=
| KCreate (gate : option bool) (u : N) (ws : option N) (name : string) (ips scopes : list string) (days : option Z) (random : list Z)
| KBilling (u : N) (name : string) (ips : list string) (random : list Z)
| KMigration (u : N) (ws : option N) (name : string) (expires : instant) (random : list Z)
| KEphemeral (u ws : N) (app : option N) (name : string) (scopes : list string) (expires : instant) (random : list Z)
| KRevoke (u id : N) | KRevokeAll (u : N) | KDelete (u id : N) | KSweep (t : instant) | KVerify (plaintext : string).
Definition run_key_op (o : key_op) : M unit :=
  match o with
  | KCreate g u ws n ips sc days r => quietly (handle_create g u ws n ips sc days r)
  | KBilling u n ips r => quietly (key_create_billing u n ips r)
  | KMigration u ws n e r => quietly (key_create_migration u ws n e r)
  | KEphemeral u ws a n sc e r => quietly (key_create_ephemeral u ws a n sc e r)
  | KRevoke u id => handle_revoke u id
  | KRevokeAll u => revoke_all_by_user u
  | KDelete u id => handle_delete u id
  | KSweep t => delete_expired_ephemeral t
  | KVerify p => quietly (verify p)
  end.
(** Each at its instant, with its failing calls *)
Definition key_turn (w : world) (t : instant * list bool * key_op) : world := (run_key_op t.2 (at_moment t.1.1 t.1.2 w)).1.
Definition key_history (w : world) (turns : list (instant * list bool * key_op)) : world := foldl key_turn w turns.
End Keys.

(** ** What a verified key is *)

Lemma quiet_find_by_prefix p : quiet (find_by_prefix p). Proof. apply quiet_query. Qed.
Lemma quiet_find_key id : quiet (find_key id). Proof. apply quiet_query. Qed.
Lemma quiet_count_keys ws : quiet (count_keys ws). Proof. apply quiet_query. Qed.
#[export] Hint Resolve quiet_find_by_prefix quiet_find_key quiet_count_keys : quiet.
Lemma quiet_normal s : quiet (normal s). Proof. quiet_unfold normal. Qed.
Lemma quiet_owned_key u id : quiet (owned_key u id). Proof. quiet_unfold owned_key. Qed.
#[export] Hint Resolve quiet_normal quiet_owned_key : quiet.

Lemma key_verify_ok p w w1 k :
  verify p w = (w1, Ok k) ->
  has_prefix key_prefix p = true /\
  (exists id, w_keys w !! id = Some k) /\ k_hash k = hash_token p /\ k_prefix k = str_take prefix_len p /\ is_valid k (w_now w) = true.
Proof.
  unfold verify. destruct (has_prefix key_prefix p); cbn [negb orb]; [|done]. case_match; [done|].
  intros (w2 & l & Hl & Hr)%bind_ok. unfold or_err in Hl. destruct (find_by_prefix _ w) as [w3 [l'|]] eqn:Hf; [|done].
  injection Hl as <- <-. apply query_ok in Hf as [Hs Hl]. injection Hl as <-. cbv zeta in Hr.
  destruct (find_first _ _) as [j|] eqn:Hj; [|done]. apply find_first_some in Hj as [Hin Hh%String.eqb_eq].
  apply elem_of_bfilter in Hin as [Hin Hp%String.eqb_eq]. apply list_elem_of_fmap in Hin as ([id j'] & -> & Hin%elem_of_map_to_list).
  cbn in Hh, Hp. apply bind_ok in Hr as (w4 & t & Ht & Hr). injection Ht as <- <-. cbn [snd] in Hr.
  destruct (is_valid j' (w_now w3)) eqn:Hv; [|done]. apply bind_ok in Hr as (w5 & o & _ & Hr). injection Hr as _ <-.
  rewrite (same_keys _ _ Hs) in Hin. rewrite (same_now _ _ Hs) in Hv. split_and!; [done|by exists id|done|done|done].
Qed.

(** ** Keys that are gone stay gone *)

(** Every key is filed under its id, below the next one, with scopes the platform knows. *)
Definition known_scopes : list string := valid_scopes ++ [scope_billing; scope_migration].
Definition known (k : api_key) : Prop := forall s, s ∈ k_scopes k -> s ∈ known_scopes.
Definition filed (w : world) : Prop := forall id k, w_keys w !! id = Some k -> k_id k = id /\ (id < w_seq w)%N /\ known k.
(** Nobody can use key [id] again: it was issued, and is revoked or deleted. *)
Definition dead (id : N) (w : world) : Prop := (id < w_seq w)%N /\ forall k, w_keys w !! id = Some k -> k_revoked k = true.
#[export] Instance filed_proper : Proper (same ==> iff) filed.
Proof. intros w w' Hs. unfold filed. by rewrite (same_keys _ _ Hs), (same_seq _ _ Hs). Qed.
#[export] Instance dead_proper : Proper (eq ==> same ==> iff) dead.
Proof. intros ? id -> w w' Hs. unfold dead. by rewrite (same_keys _ _ Hs), (same_seq _ _ Hs). Qed.

Section Gone.
Context (ids : N -> Prop).
(** What every operation keeps: the filing, and the death of any set of keys *)
Definition gone (w : world) : Prop := filed w /\ forall id, ids id -> dead id w.
#[local] Instance gone_proper : Proper (same ==> iff) gone.
Proof using Type. intros w w' Hs. unfold gone. split; intros [H1 H2]; (split; [by rewrite <- Hs || by rewrite Hs|]); intros id Hid; [rewrite <- Hs|rewrite Hs]; by apply H2. Qed.

(** A change of rows that keeps ids and never clears a revocation *)
Lemma filed_change w f :
  (forall i k, f (w_keys w) !! i = Some k -> exists k0, w_keys w !! i = Some k0 /\ k_id k = k_id k0 /\ k_scopes k = k_scopes k0) -> filed w -> filed (set_keys f w).
Proof using Type. intros Hf Hw i k Hk. cbn in *. destruct (Hf i k Hk) as (k0 & H0 & -> & E). unfold known. rewrite E. by apply Hw. Qed.
Lemma dead_change id w f :
  (forall i k, f (w_keys w) !! i = Some k -> exists k0, w_keys w !! i = Some k0 /\ (k_revoked k0 = true -> k_revoked k = true)) ->
  dead id w -> dead id (set_keys f w).
Proof using Type. intros Hf [Hw1 Hw2]. split; [done|]. intros k Hk. cbn in Hk. destruct (Hf id k Hk) as (k0 & H0 & Hr). by apply Hr, Hw2. Qed.
Definition tame (f : gmap N api_key -> gmap N api_key) : Prop :=
  forall m i k, f m !! i = Some k -> exists k0, m !! i = Some k0 /\ k_id k = k_id k0 /\ k_scopes k = k_scopes k0 /\ (k_revoked k0 = true -> k_revoked k = true).
Lemma gone_write f : (forall w, tame (f w)) -> keeps gone (write (fun w => set_keys (f w) w)).
Proof using Type.
  intros Hf. apply (keeps_write gone _). intros w [H1 H2]. split.
  - apply filed_change; [|done]. intros i k Hk. destruct (Hf w _ _ _ Hk) as (k0 & ? & ? & ? & _). by exists k0.
  - intros id Hid. apply dead_change; [|by apply H2]. intros i k Hk. destruct (Hf w _ _ _ Hk) as (k0 & ? & _ & _ & ?). by exists k0.
Qed.
Lemma tame_alter g i : (forall k, k_id (g k) = k_id k /\ k_scopes (g k) = k_scopes k /\ (k_revoked k = true -> k_revoked (g k) = true)) -> tame (alter g i).
Proof using Type.
  intros Hg m j k. destruct (decide (j = i)) as [->|Hne].
  - rewrite lookup_alter_eq. destruct (m !! i) as [k0|] eqn:H0; [|done]. intros [= <-]. exists k0. by destruct (Hg k0) as (? & ? & ?).
  - rewrite lookup_alter_ne by done. eauto.
Qed.
Lemma tame_sub f : (forall m, f m ⊆ m) -> tame f.
Proof using Type. intros Hf m i k Hk. exists k. split; [|done]. eapply lookup_weaken; [exact Hk|apply Hf]. Qed.
Lemma tame_revoke_all u : tame (fmap (fun k => if (k_user k =? u)%N then revoked k else k)).
Proof using Type.
  intros m i k. rewrite lookup_fmap. destruct (m !! i) as [k0|]; [|done]. intros [= <-]. exists k0. by case_match.
Qed.
Lemma gone_insert k : known k -> keeps gone (insert_key k).
Proof using Type.
  intros Hkn w Hw. unfold insert_key.
  match goal with |- gone (call ?f w).1 => destruct (call_cases f w) as [(w1 & Hs & ->)|(w1 & Hs & ->)] end; [by cbn; rewrite <- Hs|].
  rewrite Hs in Hw. destruct Hw as [H1 H2]. case_match; [done|]. split; [|intros id Hid; destruct (H2 id Hid) as [H3 H4]; split]; cbn.
  - intros i j. cbn. destruct (decide (i = w_seq w1)) as [->|Hne].
    + rewrite lookup_insert_eq. intros [= <-]. cbn. split_and!; [done|lia|done].
    + rewrite lookup_insert_ne by done. intros (? & ? & ?)%H1. split_and!; [done|lia|done].
  - lia.
  - intros j. rewrite lookup_insert_ne by lia. apply H4.
Qed.
Lemma gone_issue k p : known k -> keeps gone (issue k p).
Proof using Type. intros Hk. apply keeps_bind; [by apply gone_insert|]. intros a w Hw. done. Qed.

Lemma gone_quiet {A} (m : M A) : quiet m -> keeps gone m.
Proof using Type. apply (keeps_quiet gone _). Qed.
Lemma gone_quietly {A} (m : M A) : keeps gone m -> keeps gone (quietly m).
Proof using Type. intros Hm. apply keeps_bind; [done|]. intros a. apply gone_quiet, quiet_ret. Qed.
Lemma gone_after {A B} (m : M A) (k : A -> M B) : quiet m -> (forall a, keeps gone (k a)) -> keeps gone (m ≫= k).
Proof using Type. intros Hm. apply keeps_bind. by apply gone_quiet. Qed.

Lemma gone_normal {B} scopes (k : list string -> M B) :
  (forall l, (forall s, s ∈ l -> s ∈ known_scopes) -> keeps gone (k l)) -> keeps gone (normal scopes ≫= k).
Proof using Type.
  intros Hk w Hw. unfold normal. destruct (normalize_scopes scopes) as [l|] eqn:Hn; [|done]. apply Hk; [|done].
  intros s Hs. apply elem_of_app. left. by eapply normalize_scopes_valid.
Qed.
Lemma gone_op q d o : keeps gone (run_key_op q d o).
Proof using Type.
  destruct o; cbn [run_key_op]; try apply gone_quietly.
  - unfold handle_create, key_create. do 4 (apply gone_after; [quiet|intros]). apply gone_normal. intros l Hl.
    apply gone_after; [quiet|intros]. by apply gone_issue.
  - apply gone_issue. intros s ->%list_elem_of_singleton. apply elem_of_app. right. set_solver.
  - apply gone_issue. intros s ->%list_elem_of_singleton. apply elem_of_app. right. set_solver.
  - unfold key_create_ephemeral. apply gone_normal. intros l Hl. by apply gone_issue.
  - apply gone_after; [quiet|intros k]. apply (gone_write (fun _ => alter revoked (k_id k))). intros _. by apply tame_alter.
  - apply (gone_write (fun _ => _)). intros _. apply tame_revoke_all.
  - apply gone_after; [quiet|intros k]. apply gone_after; [quiet|intros t]. case_match; [apply gone_quiet, quiet_throw|].
    apply (gone_write (fun _ => delete (k_id k))). intros _. apply tame_sub. intros m. apply delete_subseteq.
  - apply (gone_write (fun _ => filter (fun kv => expired_ephemeral t kv.2 = false))). intros _. apply tame_sub. intros m. apply map_filter_subseteq.
  - unfold verify. case_match; [apply gone_quiet, quiet_throw|]. apply gone_after; [quiet|intros l]. cbv zeta.
    destruct (find_first _ l) as [k|]; [|apply gone_quiet, quiet_throw]. apply gone_after; [quiet|intros t].
    destruct (is_valid k t); [|apply gone_quiet, quiet_throw]. apply keeps_bind; [|intros; apply gone_quiet, quiet_ret]. apply keeps_attempt.
    apply (gone_write (fun w => alter (touched (w_now w)) (k_id k))). intros w. by apply tame_alter.
Qed.
Lemma gone_moment t f w : gone w -> gone (at_moment t f w).
Proof using Type. done. Qed.
Lemma gone_history q d turns : forall w, gone w -> gone (key_history q d w turns).
Proof using Type. induction turns as [|[[t f] o] turns IH]; intros w Hw; cbn; [done|]. apply IH, gone_op, gone_moment, Hw. Qed.
End Gone.

Lemma filed_boot users orgs plans seq : filed (boot users orgs plans seq).
Proof. intros id k Hk. cbn in Hk. by rewrite lookup_empty in Hk. Qed.

Lemma filed_history q d turns w : filed w -> filed (key_history q d w turns).
Proof. intros Hw. by apply (gone_history (fun _ => False)). Qed.

Lemma handle_revoke_ok u id w w1 : filed w -> handle_revoke u id w = (w1, Ok tt) -> dead id w1.
Proof.
  intros Hf (w2 & k & Hk & H)%bind_ok. apply bind_ok in Hk as (w3 & k' & Hk & H').
  unfold or_err in Hk. destruct (find_key id w) as [w4 [k''|]] eqn:Hq; [|done]. injection Hk as <- <-.
  apply query_ok in Hq as [Hs Hk%of_option_ok]. case_match; [|done]. injection H' as <- <-.
  assert (Hf4 : filed w4) by (by rewrite <- Hs). destruct (Hf4 _ _ Hk) as (E0 & Hlt & _).
  unfold revoke_key in H. rewrite E0 in H. destruct (write_cases (set_keys (alter revoked id)) w4) as [(w5 & H5 & E)|(w5 & H5 & E)]; rewrite E in H; [done|].
  injection H as <-. rewrite H5 in Hf4. split; cbn; [by rewrite (same_seq _ _ H5)|]. intros j. rewrite lookup_alter_eq, (same_keys _ _ H5), Hk.
  by intros [= <-].
Qed.

(** C16 [revoked_key_stays_dead]: From an installation without keys, after any history of keys issued, revoked, deleted, swept and
    presented, once a user has revoked a key, no plaintext presented at any later moment of any further history verifies as that
    key, and a plaintext that does verify is that of an unrevoked, unexpired key of the table. *)
Theorem revoked_key_stays_dead q d users orgs plans seq turns1 u id t1 f1 turns2 p t2 f2 w k :
  let w0 := key_history q d (boot users orgs plans seq) turns1 in
  let w1 := handle_revoke u id (at_moment t1 f1 w0) in
  w1.2 = Ok tt ->
  let w2 := at_moment t2 f2 (key_history q d w1.1 turns2) in
  verify p w2 = (w, Ok k) ->
  k_id k <> id /\ w_keys w2 !! k_id k = Some k /\ k_hash k = hash_token p /\ k_revoked k = false /\ is_expired k t2 = false.
Proof.
  cbv zeta. intros Hr Hv. set (w0 := key_history _ _ _ turns1) in *.
  assert (Hf : filed w0) by apply filed_history, filed_boot.
  destruct (handle_revoke u id (at_moment t1 f1 w0)) as [w1 r] eqn:Hw1. cbn in Hr, Hv. subst r.
  assert (Hg : gone (fun i => i = id) w1).
  { split; [|intros i ->; by eapply handle_revoke_ok, Hw1].
    pose proof (gone_op (fun _ => False) q d (KRevoke u id) (at_moment t1 f1 w0)) as [H _]; [done|]. cbn in H. by rewrite Hw1 in H. }
  apply (gone_history _ q d turns2) in Hg as [Hf2 Hd].
  destruct (key_verify_ok _ _ _ _ Hv) as (_ & (j & Hj) & Hh & _ & Hval). cbn in Hj. destruct (Hf2 j k Hj) as [Hid _]. subst j.
  unfold is_valid in Hval. go_inv. split_and!; [|done|done|done|done]. intros E. specialize (Hd _ E) as [_ Hd]. specialize (Hd k Hj). congruence.
Qed.

(** ** A key issued is a key accepted *)

Lemma join_empty (l : list string) : String.length (join "" l) = foldr (fun s n => (String.length s + n)%nat) O l.
Proof.
  induction l as [|s l IH]; [done|]. destruct l as [|s' l]; [cbn; lia|].
  change (join "" (s :: s' :: l)) with (s +:+ "" +:+ join "" (s' :: l)). rewrite !str_app_length, IH. done.
Qed.
Lemma plaintext_length random : String.length (plaintext_of random) = (3 + 2 * length random)%nat.
Proof.
  unfold plaintext_of. rewrite str_app_length. unfold raw_token. rewrite join_empty. cbn [String.length key_prefix].
  f_equal. induction random as [|b l IH]; [done|]. cbn. rewrite IH. lia.
Qed.

Lemma issue_ok k0 p w w1 p' k :
  issue k0 p w = (w1, Ok (p', k)) ->
  p' = p /\ k = with_id (k_id k) k0 /\ w_keys w1 !! k_id k = Some k /\
  forall i j, w_keys w1 !! i = Some j -> k_hash j = k_hash k -> j = k.
Proof.
  intros (w2 & k' & Hk & H)%bind_ok. injection H as <- <- <-. unfold insert_key in Hk.
  match type of Hk with call ?f _ = _ => destruct (call_cases f w) as [(w8 & Hs & E)|(w8 & Hs & E)]; rewrite E in Hk; [done|] end.
  destruct (existsb _ _) eqn:Hex; [done|]. injection Hk as <- <-. cbn. split_and!; [done|done|by rewrite lookup_insert_eq|].
  intros i j. destruct (decide (i = w_seq w8)) as [->|Hne]; [rewrite lookup_insert_eq; by intros [= <-]|].
  rewrite lookup_insert_ne by done. intros Hj Hh. exfalso. eapply (existsb_elem_false _ _) in Hex.
  2:{ apply list_elem_of_fmap. exists (i, j). split; [done|]. by apply elem_of_map_to_list. }
  cbn in Hex. by rewrite Hh, String.eqb_refl in Hex.
Qed.
Lemma verify_calm p w k i :
  w_faults w = [] -> has_prefix key_prefix p = true -> (prefix_len <= String.length p)%nat ->
  w_keys w !! i = Some k -> k_hash k = hash_token p -> k_prefix k = str_take prefix_len p ->
  (forall j x, w_keys w !! j = Some x -> k_hash x = k_hash k -> x = k) -> is_valid k (w_now w) = true ->
  exists w2, verify p w = (w2, Ok k).
Proof.
  intros Hf Hp Hl Hk Hh Hpre Hu Hv. unfold verify. rewrite Hp. cbn [negb orb].
  destruct (_ <? _)%nat eqn:E; [apply Nat.ltb_lt in E; lia|].
  set (l := List.filter (fun k => String.eqb (k_prefix k) (str_take prefix_len p)) (map_to_list (w_keys w)).*2).
  rewrite (bind_run _ _ w w l) by (unfold or_err, find_by_prefix; by rewrite query_calm). cbv zeta.
  assert (Hfind : find_first (fun k => String.eqb (k_hash k) (hash_token p)) l = Some k).
  { destruct (find_first _ l) as [x|] eqn:Hx.
    - apply find_first_some in Hx as [Hin Hx%String.eqb_eq]. apply elem_of_bfilter in Hin as [Hin _].
      apply list_elem_of_fmap in Hin as ([j y] & -> & Hin%elem_of_map_to_list). f_equal. eapply Hu; [exact Hin|]. cbn in *. congruence.
    - pose proof (proj1 (find_first_none _ _) Hx k) as Hn. cbv beta in Hn. rewrite Hh, String.eqb_refl in Hn.
      discriminate Hn.
      apply elem_of_bfilter. split; [|by rewrite Hpre, String.eqb_refl]. apply list_elem_of_fmap. exists (i, k).
      split; [done|]. by apply elem_of_map_to_list. }
  rewrite Hfind. rewrite (bind_run _ _ w w (w_now w)) by done. rewrite Hv. unfold mbind, M_bind, attempt.
  destruct (touch_last_used (k_id k) w) as [w2 [[]|e]]; by exists w2.
Qed.

(** C17 [key_round_trip]: The plaintext answered when a user makes a key is accepted as exactly that key until it expires; the key
    carries only scopes a user may choose, so it is never a billing or migration key; for a workspace's key the user is a member
    of the workspace; and any plaintext accepted as it has the same SHA-256. *)
Theorem key_round_trip q d gate u ws name ips scopes days random w w1 p k t :
  handle_create q d gate u ws name ips scopes days random w = (w1, Ok (p, k)) ->
  length random = 32%nat -> is_expired k t = false ->
  (exists w2, verify p (at_moment t [] w1) = (w2, Ok k)) /\
  (key_purpose k = General \/ key_purpose k = RegistryOnly) /\ (forall s, s ∈ k_scopes k -> s ∈ valid_scopes) /\
  (forall n, ws = Some n -> is_Some (w_members w !! (n, u))) /\
  forall p' f w3, verify p' (at_moment t f w1) = (w3, Ok k) -> hash_token p' = hash_token p.
Proof.
  intros H Hlen Hexp. unfold handle_create in H.
  apply bind_ok in H as (a1 & [] & Hmem & H). apply bind_ok in H as (a2 & sc & Hsc & H). apply bind_ok in H as (a3 & [] & _ & H).
  apply bind_ok in H as (a4 & t0 & _ & H). unfold key_create in H. apply bind_ok in H as (a5 & sc' & Hsc' & H).
  apply bind_ok in H as (a6 & [] & _ & H). cbv zeta in H. apply issue_ok in H as (-> & Ek & Hrow & Hu).
  unfold normal in Hsc'. destruct (normalize_scopes sc) as [l|] eqn:Hn; [|done]. injection Hsc' as _ <-.
  assert (Es : k_scopes k = l) by by rewrite Ek. assert (Eh : k_hash k = hash_token (plaintext_of random)) by by rewrite Ek.
  assert (Ep : k_prefix k = str_take prefix_len (plaintext_of random)) by by rewrite Ek.
  split_and!.
  - eapply verify_calm; [done| | |exact Hrow|done|done|exact Hu|].
    + unfold has_prefix, plaintext_of. by rewrite cut_prefix_app.
    + rewrite plaintext_length. unfold prefix_len. cbn. lia.
    + unfold is_valid. cbn. rewrite Hexp. by rewrite Ek.
  - eapply normalized_purpose. by rewrite Es.
  - rewrite Es. by eapply normalize_scopes_valid.
  - intros n ->. apply bind_ok in Hmem as (b1 & m & Hm & _). unfold or_err in Hm.
    destruct (find_member n u w) as [b2 [m'|]] eqn:Hf; [|done]. injection Hm as -> ->. apply find_member_ok in Hf as [Hs Hf].
    exists m. by rewrite <- (same_members _ _ Hs).
  - intros p' f w3 (_ & _ & Hh & _)%key_verify_ok. congruence.
Qed.

(** ** Concrete keys *)

Definition demo_random : list Z := seqZ 0 32.
Definition made : world * result acc_err (string * api_key) :=
  handle_create None demo_quota None 2 (Some 7%N) "ci" [] [scope_deploy; scope_read; scope_deploy] (Some 30) demo_random
    (demo_team [(1%N, owner_row None); (2%N, Member role_developer None "")]).
Definition made_key : api_key :=
  ApiKey 7 2 (Some 7%N) "ci" (hash_token (plaintext_of demo_random)) "mb_00010203" [scope_deploy; scope_read] [] None false None
    (Some (30 * (24 * (60 * minute)))) false.
Lemma key_round_trip_witness :
  made = (made.1, Ok (plaintext_of demo_random, made_key)) /\
  (exists w2, verify (plaintext_of demo_random) (at_moment (20 * (24 * (60 * minute))) [] made.1) = (w2, Ok made_key)).
Proof.
  split; [vm_compute; reflexivity|].
  apply (key_round_trip None demo_quota None 2 (Some 7%N) "ci" [] [scope_deploy; scope_read; scope_deploy] (Some 30) demo_random
           (demo_team [(1%N, owner_row None); (2%N, Member role_developer None "")]) made.1 _ made_key).
  all: vm_compute; reflexivity.
Defined.

(** A billing key beside a revoked one: the revoked key no longer verifies, the other does. *)
Definition demo_turns : list (instant * list bool * key_op) :=
  [(1, [], KBilling 2 "old" [] demo_random); (2, [], KBilling 2 "new" [] (reverse demo_random))].
Lemma revoked_key_stays_dead_witness :
  let w0 := key_history None demo_quota (boot ∅ ∅ ∅ 1) demo_turns in
  let w1 := handle_revoke 2 1 (at_moment 3 [] w0) in
  let w2 := at_moment 9 [] (key_history None demo_quota w1.1 [(4, [], KVerify (plaintext_of demo_random))]) in
  w1.2 = Ok tt /\ (verify (plaintext_of demo_random) w2).2 = Err ErrInvalidKey /\
  exists w k, verify (plaintext_of (reverse demo_random)) w2 = (w, Ok k) /\ k_id k <> 1%N.
Proof.
  cbv zeta. split_and!; [vm_compute; reflexivity|vm_compute; reflexivity|].
  eexists _, _. split; [vm_compute; reflexivity|].
  eapply (revoked_key_stays_dead None demo_quota ∅ ∅ ∅ 1 demo_turns 2 1 3 [] [(4, [], KVerify (plaintext_of demo_random))]
            (plaintext_of (reverse demo_random)) 9 []); vm_compute; reflexivity.
Defined.
