(* ===== verification/ApiAccess.v ===== *)
(** * What a request passes before its handler

    The middlewares of middlewares/: authentication by API key or session (middleware.go, jobkey.go, accountscope.go), the
    workspace's scope, roles and permissions (workspace.go), the key's scope (scope.go), suspended users, and the callers of the
    billing and migration trees (billing.go, migration.go), in the order routes/register.go gives them. Reading a session's token
    is the library's: [jwt]; [is_uuid] is the library's too. *)
From S2P Require Import Prelude GoStrings GoTime GoText GoWeb Restriction Roles ApiScopes Accounts Members AccountFacts MemberOwners MemberHistory MemberRights MemberInvites ApiKeys.
#[local] Open Scope Z_scope.
#[local] Open Scope list_scope.

(** ** Requests, routes, what the middlewares set *)

Record http := Http {
  h_method : string; h_path : string; h_authorization : string; h_query_token : string; h_cookie : option string; h_ip : string;
  h_workspace : string; h_app : string; h_param : string -> string }.

(** The claims of a session the library accepted *)
Record claims := Claims { c_sub : option Z; c_jti : option string; c_pwf : option string }.

(** The context: 0, "" and [None] are unset. *)
Record ctx := Ctx {
  x_user : N; x_method : string; x_suspended : string; x_purpose : option purpose; x_key : N; x_scopes : string; x_key_ws : N;
  x_key_app : N; x_ephemeral : bool; x_ws : N; x_app : N; x_role : string; x_perms : option (gset string) }.
Definition anonymous : ctx := Ctx 0 "" "" None 0 "" 0 0 false 0 0 "" None.
Definition with_scope (ws app : N) (a : string * gset string) (x : ctx) : ctx :=
  Ctx (x_user x) (x_method x) (x_suspended x) (x_purpose x) (x_key x) (x_scopes x) (x_key_ws x) (x_key_app x) (x_ephemeral x)
      ws app a.1 (Some a.2).
Definition by_key : string := "api_key".
Definition by_session : string := "jwt".

(** The rows a reference of an application or a workspace is looked up in *)
Record app_ref := AppRef { af_id : N; af_ws : N; af_name : string; af_uid : string }.
Record policy_row := PolicyRow { py_ws : N; py_user : N; py_type : string; py_resource : N; py_permissions : list string }.
Record site := Site {
  st_apps : list app_ref; st_space_uids : list (string * N); st_policies : list policy_row;
  st_secret : string; st_revoked : string -> bool; st_gate : N -> option refusal; st_mode : scope_mode }.

Section Access.
Context (jwt : http -> option claims) (fingerprint : string -> string -> string) (is_uuid : string -> bool) (s : site).

Definition safe_method (m : string) : bool := String.eqb m "GET" || String.eqb m "HEAD" || String.eqb m "OPTIONS".

(** ** API keys *)

(** [ipAllowed] *)
Definition ip_allowed (allowed : list string) (client : string) : bool :=
  bool_decide (allowed = []) ||
  existsb (fun a => String.eqb a client ||
                    match (if contains "/" a then parse_cidr a else None), parse_net_ip client with
                    | Some p, Some ip => prefix_contains p ip
                    | _, _ => false
                    end) allowed.

(** [IDByUID] of the applications: any workspace's *)
Definition app_by_uid (uid : string) : M N :=
  query (fun _ => of_option ErrNotFound (af_id <$> find_first (fun a => String.eqb (af_uid a) uid) (st_apps s))).
(** [IDByRef]: an error of a lookup reads as no row. *)
Definition app_where (ws : N) (p : app_ref -> bool) : M N :=
  r ← attempt (query (fun _ => Ok (af_id <$> find_first (fun a => (af_ws a =? ws)%N && p a) (st_apps s))));
  mret (default 0%N (default None r)).
Definition parse_uint (t : string) : option N :=
  if all_digits t then n ← atoi_digits t; if n <? 2 ^ 64 then Some (Z.to_N n) else None else None.
Definition id_by_ref (ws : N) (ref : string) : M N :=
  let ref := trim_space ref in
  id ← (match parse_uint ref with Some n => if (n =? 0)%N then mret 0%N else app_where ws (fun a => (af_id a =? n)%N) | None => mret 0%N end);
  id ← (if (id =? 0)%N && is_uuid ref then app_where ws (fun a => String.eqb (af_uid a) ref) else mret id);
  id ← (if (id =? 0)%N && negb (String.eqb ref "") then app_where ws (fun a => String.eqb (af_name a) (to_lower ref)) else mret id);
  if (id =? 0)%N then throw ErrNotFound else mret id.

(** [resolveAppRef]; 0 is no application. *)
Definition resolve_app_ref (ref : string) : M N :=
  match atoi ref with
  | Some n => mret (if n <=? 0 then 0%N else Z.to_N n)
  | None => r ← attempt (app_by_uid ref); mret (default 0%N r)
  end.
(** [ephemeralKeyRefusal] *)
Definition ephemeral_refusal (h : http) (bound ws : N) : M unit :=
  if (bound =? 0)%N then throw ErrForbidden
  else
    let ref := trim_space (h_app h) in
    if String.eqb ref "" then throw ErrForbidden
    else
      got ← resolve_app_ref ref;
      by_ref ← (if (ws =? 0)%N then mret None else attempt (id_by_ref ws ref));
      if (default got by_ref =? bound)%N then mret tt else throw ErrForbidden.

(** [reducePath], [workspaceKeyAllowed] *)
Fixpoint after (sub t : string) : option string :=
  match cut_prefix sub t with
  | Some rest => Some rest
  | None => match t with EmptyString => None | String _ t => after sub t end
  end.
Definition reduce_path (path : string) : string :=
  let p := trim_suffix "/" path in
  let p := default p (after "/api/v1" p) in
  if String.eqb p "" then "/" else p.
Definition account_readable : list string := ["/me"; "/permissions"; "/capabilities"].
Definition workspace_key_allowed (h : http) : bool :=
  negb (String.eqb (trim_space (h_workspace h)) "") || has_prefix migration_prefix (h_path h) ||
  (String.eqb (h_method h) "GET" && bool_decide (reduce_path (h_path h) ∈ account_readable)).

Definition suspension (u : user) (t : instant) : string :=
  if user_suspended u t then (if String.eqb (u_suspended_reason u) "" then "no reason given" else u_suspended_reason u) else "".

(** Where a key of a purpose may go *)
Definition purpose_allows (p : purpose) (path : string) : bool :=
  match p with
  | RegistryOnly => false
  | Billing => has_prefix billing_prefix path
  | Migration => has_prefix migration_prefix path
  | General => true
  end.
(** [authAPIKey] *)
Definition auth_api_key (h : http) (raw : string) : M ctx :=
  k ← or_err (ErrUnauthorized "invalid API key") (verify raw);
  u ← or_err (ErrUnauthorized "invalid API key") (find_user (k_user k));
  if negb (u_active u) then throw ErrForbidden
  else
    t ← now;
    if negb (ip_allowed (k_ips k) (h_ip h)) then throw ErrForbidden
    else if negb (purpose_allows (key_purpose k) (h_path h)) then throw ErrForbidden
    else
      let x := Ctx (k_user k) by_key (suspension u t) (Some (key_purpose k)) (k_id k) (join "," (or_read (k_scopes k)))
                   (default 0%N (k_workspace k)) (default 0%N (k_app k)) (k_ephemeral k) 0 0 "" None in
      _ ← (if k_ephemeral k then ephemeral_refusal h (default 0%N (k_app k)) (default 0%N (k_workspace k)) else mret tt);
      if bool_decide (is_Some (k_workspace k)) && negb (workspace_key_allowed h) then throw ErrForbidden else mret x.

(** ** Sessions: [checkSessionUser] and what [baseJWT] validates *)

Definition check_session (c : claims) : M user :=
  match c_jti c with
  | None => throw (ErrUnauthorized "missing jti")
  | Some jti =>
      if String.eqb jti "" then throw (ErrUnauthorized "missing jti")
      else if st_revoked s jti then throw (ErrUnauthorized "session has been revoked")
      else
        match c_sub c with
        | None => throw (ErrUnauthorized "missing subject")
        | Some sub =>
            if sub <=? 0 then throw (ErrUnauthorized "missing subject")
            else
              u ← or_err (ErrUnauthorized "session is no longer valid") (find_user (Z.to_N sub));
              if negb (u_active u) then throw (ErrUnauthorized "account is disabled")
              else match c_pwf c with
                   | Some f => if String.eqb f (fingerprint (st_secret s) (u_password u)) then mret u
                               else throw (ErrUnauthorized "session ended by a password change")
                   | None => mret u
                   end
        end
  end.
Definition auth_session (h : http) : M ctx :=
  match jwt h with
  | None => throw (ErrUnauthorized "invalid or expired session")
  | Some c =>
      u ← check_session c;
      t ← now;
      mret (Ctx (u_id u) by_session (suspension u t) None 0 "" 0 0 false 0 0 "" None)
  end.

(** [Authenticate] *)
Definition raw_credential (h : http) : string :=
  let raw := trim_space (trim_prefix "Bearer " (h_authorization h)) in
  let raw := if String.eqb raw "" then trim_space (h_query_token h) else raw in
  if String.eqb raw "" then match h_cookie h with Some c => trim_space c | None => "" end else raw.
Definition authenticate (h : http) : M ctx :=
  let raw := raw_credential h in
  if has_prefix "mb_" raw then auth_api_key h raw
  else if String.eqb raw "" then throw (ErrUnauthorized "authentication required")
  else auth_session h.

(** ** The workspace *)

(** [strconv.Atoi] with what it answers beside an error: 0, or the nearest integer when the digits are out of range *)
Definition atoi_value (t : string) : Z * bool :=
  match atoi t with
  | Some n => (n, true)
  | None => (match atoi_digits t with Some n => if max_int64 <? n then max_int64 else - 2 ^ 63 | None => 0 end, false)
  end.
Definition space_by_uid (uid : string) : M N :=
  query (fun _ => of_option ErrNotFound (snd <$> find_first (fun r => String.eqb (fst r) uid) (st_space_uids s))).
(** The workspace a parameter names: an id, a uid, else a handle *)
Definition resolve_workspace (param : string) : M N :=
  let ref := trim_space param in
  let '(n, ok) := atoi_value ref in
  if ok && (0 <? n) then mret (Z.to_N n)
  else
    by_uid ← (if is_uuid ref then attempt (space_by_uid ref) else mret None);
    let n := match by_uid with Some id => if (id =? 0)%N then n else Z.of_N id | None => n end in
    n ← (if (n <=? 0) && negb (String.eqb ref "") then
           r ← attempt (find_space_by_name ref);
           mret (match r with Some (id, _) => if (id =? 0)%N then n else Z.of_N id | None => n end)
         else mret n);
    if n <=? 0 then throw (ErrBadRequest "invalid workspace") else mret (Z.to_N n).

Definition root_path (path : string) : bool :=
  match cut_prefix "/api/v1/workspaces/" path with
  | Some rest => let rest := trim_suffix "/" rest in negb (String.eqb rest "") && negb (contains "/" rest)
  | None => false
  end.
(** [restrictionExempt] *)
Definition restriction_exempt (method path : string) : bool :=
  let post := String.eqb method "POST" in
  let del := String.eqb method "DELETE" in
  (del && contains "/members/" path) || (del && root_path path) ||
  (post && (has_suffix "/stop" path || has_suffix "/export" path || has_suffix "/leave" path)) ||
  (post && has_suffix "/migration/unfreeze" path) || contains "/migration-keys" path.

(** [WorkspaceScope] *)
Definition workspace_scope (h : http) (x : ctx) : M ctx :=
  if (x_user x =? 0)%N then throw (ErrUnauthorized "authentication required")
  else
    ws ← resolve_workspace (h_workspace h);
    if negb (x_key_ws x =? 0)%N && negb (x_key_ws x =? ws)%N then throw ErrForbidden
    else
      a ← resolve_access ws (x_user x);
      app ← (if String.eqb (trim_space (h_app h)) "" then mret 0%N
             else or_err ErrNotFound (id_by_ref ws (trim_space (h_app h))));
      if negb (safe_method (h_method h)) && negb (restriction_exempt (h_method h) (h_path h)) &&
         bool_decide (is_Some (st_gate s ws)) then throw ErrForbidden
      else mret (with_scope ws app a x).

(** ** What a route asks for *)

Definition permissions (x : ctx) : gset string := match x_perms x with Some p => p | None => role_permissions (x_role x) end.
(** [HasPermission] of the policies *)
Definition policy_grants (ws u : N) (type : string) (id : N) (p : string) : M bool :=
  r ← attempt (query (fun _ => of_option ErrNotFound (find_first (fun r =>
        (py_ws r =? ws)%N && (py_user r =? u)%N && String.eqb (py_type r) type && (py_resource r =? id)%N) (st_policies s))));
  mret (match r with Some r => bool_decide (p ∈ py_permissions r) | None => false end).

Inductive need :=
| NeedRole (min : string)
| NeedPermission (p : string)
| NeedResource (p type param : string)
| NeedSession
| NeedBilling
| NeedMigration.
Definition pass_if (b : bool) : M unit := if b then mret tt else throw ErrForbidden.
(** [RequireRole], [RequirePermission], [RequireResourcePermission], [RequireSession], [RequireBillingCaller],
    [RequireMigrationCaller] *)
Definition check_need (h : http) (x : ctx) (n : need) : M unit :=
  match n with
  | NeedRole min => pass_if (at_least (x_role x) min)
  | NeedPermission p => pass_if (bool_decide (p ∈ permissions x))
  | NeedResource p type param =>
      if bool_decide (p ∈ permissions x) then mret tt
      else
        let '(n, ok) := atoi_value (h_param h param) in
        let '(n, ok) := if String.eqb param "appID" && negb (x_app x =? 0)%N then (Z.of_N (x_app x), true) else (n, ok) in
        if ok && (0 <? n) then policy_grants (x_ws x) (x_user x) type (Z.to_N n) p ≫= pass_if else throw ErrForbidden
  | NeedSession => pass_if (String.eqb (x_method x) by_session)
  | NeedBilling =>
      pass_if (String.eqb (x_method x) by_key && bool_decide (x_purpose x = Some Billing) &&
               (x_key_ws x =? 0)%N && (x_key_app x =? 0)%N && negb (x_ephemeral x))
  | NeedMigration =>
      pass_if (String.eqb (x_method x) by_key && bool_decide (x_purpose x = Some Migration) &&
               (x_key_app x =? 0)%N && negb (x_ephemeral x))
  end.
(** [RequireScope] *)
Definition require_scope (required : string) (x : ctx) : M unit :=
  if bool_decide (st_mode s = ModeOff) || String.eqb required "" then mret tt
  else if negb (String.eqb (x_method x) by_key) then mret tt
  else pass_if (scope_satisfies (split_scopes (x_scopes x)) required || negb (bool_decide (st_mode s = ModeEnforce))).
(** [SuspensionGuard] *)
Definition suspension_guard (h : http) (x : ctx) : M unit :=
  pass_if (String.eqb (x_suspended x) "" || safe_method (h_method h) || contains "/auth/" (h_path h)).

(** A route: its template, whether it is scoped to a workspace, what else it asks *)
Record route := Route { rt_method : string; rt_group : string; rt_path : string; rt_scoped : bool; rt_needs : list need }.
Fixpoint check_needs (h : http) (x : ctx) (l : list need) : M unit :=
  match l with [] => mret tt | n :: l => _ ← check_need h x n; check_needs h x l end.
(** The middlewares in their order, and the context the handler gets *)
Definition enter (rt : route) (h : http) : M ctx :=
  x ← authenticate h;
  x ← (if rt_scoped rt then workspace_scope h x else mret x);
  _ ← check_needs h x (rt_needs rt);
  _ ← require_scope (scope_for (rt_method rt) (route_path (rt_group rt) (rt_path rt))) x;
  _ ← suspension_guard h x;
  mret x.
End Access.
