(* ===== verification/AccessRules.v ===== *)
(** * Where an API key gets

    What a request that presents a key has passed when its handler runs. *)
From S2P Require Import Prelude GoStrings GoTime GoText GoWeb Restriction Roles ApiScopes Accounts Members AccountFacts MemberOwners MemberHistory MemberRights MemberInvites ApiKeys ApiAccess.
#[local] Open Scope Z_scope.
#[local] Open Scope list_scope.

(** ** The scopes a key carries are those the guard reads back *)

Definition plain (c : ascii) : bool := negb (Ascii.eqb c ",") && negb (is_space c).
Lemma known_plain s : s ∈ known_scopes -> str_forall plain s = true /\ s <> "".
Proof.
  intros H. unfold known_scopes in H. cbn [app] in H.
  repeat (apply elem_of_cons in H as [->|H]; [by vm_compute|]). by apply elem_of_nil in H.
Qed.
Lemma plain_comma s : str_forall plain s = true -> str_forall (without ",") s = true.
Proof. apply str_forall_impl. unfold plain, without. intros c [H _]%andb_true_iff. by rewrite Ascii.eqb_sym in H |- *. Qed.
Lemma plain_space s : str_forall plain s = true -> str_forall (fun c => negb (is_space c)) s = true.
Proof. apply str_forall_impl. unfold plain. by intros c [_ H]%andb_true_iff. Qed.
Lemma split_join l : l <> [] -> (forall s, s ∈ l -> s ∈ known_scopes) -> split "," (join "," l) = l.
Proof.
  intros Hne Hk. induction l as [|s l IH]; [done|]. destruct (known_plain s) as [Hs _]; [apply Hk; left|]. apply plain_comma in Hs.
  destruct l as [|s' l]; [by apply split_none|].
  change (join "," (s :: s' :: l)) with (s +:+ String "," (join "," (s' :: l))). rewrite split_app by done. f_equal.
  apply IH; [done|]. intros x Hx. apply Hk. by right.
Qed.
Lemma join_spaceless l : (forall s, s ∈ l -> s ∈ known_scopes) -> str_forall (fun c => negb (is_space c)) (join "," l) = true.
Proof.
  intros Hk. induction l as [|s l IH]; [done|]. destruct (known_plain s) as [Hs _]; [apply Hk; left|]. apply plain_space in Hs.
  destruct l as [|s' l]; [done|]. change (join "," (s :: s' :: l)) with (s +:+ "," +:+ join "," (s' :: l)).
  rewrite !str_forall_app, Hs, IH; [done|]. intros x Hx. apply Hk. by right.
Qed.
Lemma split_scopes_join l : l <> [] -> (forall s, s ∈ l -> s ∈ known_scopes) -> split_scopes (join "," l) = l.
Proof.
  intros Hne Hk. unfold split_scopes. rewrite trim_space_clean by by apply join_spaceless.
  destruct (String.eqb_spec (join "," l) "") as [E|_].
  { destruct l as [|s l]; [done|]. destruct (known_plain s) as [_ Hs]; [apply Hk; left|]. destruct l as [|s' l]; [done|].
    change (join "," (s :: s' :: l)) with (s +:+ String "," (join "," (s' :: l))) in E. by destruct s. }
  rewrite split_join by done. clear Hne. induction l as [|s l IH]; [done|]. destruct (known_plain s) as [Hs Hn]; [apply Hk; left|].
  cbn [fmap list_fmap List.filter]. rewrite trim_space_clean by by apply plain_space. apply String.eqb_neq in Hn as ->. cbn [negb].
  f_equal. apply IH. intros x Hx. apply Hk. by right.
Qed.
Lemma or_read_known k : known k -> or_read (k_scopes k) <> [] /\ forall s, s ∈ or_read (k_scopes k) -> s ∈ known_scopes.
Proof.
  intros Hk. unfold known in Hk. destruct (k_scopes k) as [|s l]; cbn; [|done]. split; [done|]. intros x ->%list_elem_of_singleton. by left.
Qed.

(** ** What each middleware leaves *)

Lemma or_err_ok {A} e (m : M A) w w1 a : or_err e m w = (w1, Ok a) -> m w = (w1, Ok a).
Proof. unfold or_err. by destruct (m w) as [? []]. Qed.
Lemma pass_if_ok b w w1 : pass_if b w = (w1, Ok tt) -> b = true /\ w1 = w.
Proof. unfold pass_if. destruct b; [|done]. by intros [= <-]. Qed.

Section Rules.
Context (jwt : http -> option claims) (fingerprint : string -> string -> string) (is_uuid : string -> bool) (s : site).

(** What the world keeps during a request: everything but [last_used] *)
Definition kept (w w' : world) : Prop :=
  w_users w' = w_users w /\ w_members w' = w_members w /\ w_roles w' = w_roles w /\ w_spaces w' = w_spaces w /\ w_now w' = w_now w /\
  (w_faults w = [] -> w_faults w' = []).
#[local] Instance kept_pre : PreOrder kept.
Proof using Type.
  split; [done|]. intros w1 w2 w3 (?&?&?&?&?&F1) (?&?&?&?&?&F2). unfold kept. split_and!; try congruence. intros F. by apply F2, F1.
Qed.
Definition keeping {A} (m : M A) : Prop := forall w, kept w (m w).1.
Lemma keeping_query {A} (f : world -> result acc_err A) : keeping (query f).
Proof using Type. intros w. unfold query, call. case_match; cbn; unfold kept; cbn; split_and!; try done; by intros ->. Qed.
Lemma keeping_bind {A B} (m : M A) (k : A -> M B) : keeping m -> (forall a, keeping (k a)) -> keeping (m ≫= k).
Proof using Type.
  intros Hm Hk w. specialize (Hm w). unfold mbind, M_bind. destruct (m w) as [w1 [a|e]]; cbn in *; [|done]. etrans; [done|apply Hk].
Qed.
Lemma keeping_ret {A} (a : A) : keeping (mret a). Proof using Type. by intros w. Qed.
Lemma keeping_throw {A} e : keeping (throw (A := A) e). Proof using Type. by intros w. Qed.
Lemma keeping_attempt {A} (m : M A) : keeping m -> keeping (attempt m).
Proof using Type. intros Hm w. specialize (Hm w). unfold attempt. by destruct (m w) as [? []]. Qed.
Lemma keeping_or_err {A} e (m : M A) : keeping m -> keeping (or_err e m).
Proof using Type. intros Hm w. specialize (Hm w). unfold or_err. by destruct (m w) as [? []]. Qed.
Lemma keeping_now : keeping now. Proof using Type. by intros w. Qed.
Lemma keeping_touch id : keeping (touch_last_used id).
Proof using Type. intros w. unfold touch_last_used, write, call. case_match; cbn; unfold kept; cbn; split_and!; try done; by intros ->. Qed.
#[local] Hint Resolve keeping_query keeping_ret keeping_throw keeping_attempt keeping_or_err keeping_now keeping_touch : quiet.
Ltac keeping_step :=
  match goal with
  | |- forall _, keeping _ => intro
  | |- keeping (if ?b then _ else _) => destruct b
  | |- keeping (match ?x with _ => _ end) => destruct x
  | |- keeping (let _ := _ in _) => cbv zeta
  | |- keeping _ => solve [eauto with quiet nocore]
  | |- keeping (_ ≫= _) => apply keeping_bind
  | |- keeping (attempt _) => apply keeping_attempt
  | |- keeping (or_err _ _) => apply keeping_or_err
  end.
Ltac keeping := repeat keeping_step.
Lemma keeping_verify p : keeping (verify p). Proof using Type. unfold verify, find_by_prefix. keeping. Qed.
Lemma keeping_app_where ws p : keeping (app_where s ws p). Proof using Type. unfold app_where. keeping. Qed.
#[local] Hint Resolve keeping_verify keeping_app_where : quiet.
Lemma keeping_id_by_ref ws r : keeping (id_by_ref is_uuid s ws r). Proof using Type. unfold id_by_ref. keeping. Qed.
#[local] Hint Resolve keeping_id_by_ref : quiet.
Lemma keeping_refusal h b ws : keeping (ephemeral_refusal is_uuid s h b ws).
Proof using Type. unfold ephemeral_refusal, resolve_app_ref, app_by_uid. keeping. Qed.
#[local] Hint Resolve keeping_refusal : quiet.
Lemma keeping_resolve r : keeping (resolve_workspace is_uuid s r).
Proof using Type. unfold resolve_workspace, space_by_uid, find_space_by_name. keeping. Qed.
Lemma keeping_access ws u : keeping (resolve_access ws u).
Proof using Type. unfold resolve_access, find_member, find_role. keeping. Qed.

(** [bind_ok] and what is kept *)
Lemma bind_kept {A B} (m : M A) (k : A -> M B) w w' b :
  keeping m -> (m ≫= k) w = (w', Ok b) -> exists w1 a, m w = (w1, Ok a) /\ kept w w1 /\ k a w1 = (w', Ok b).
Proof using Type.
  intros Hm (w1 & a & H1 & H2)%bind_ok. exists w1, a. split_and!; [done| |done]. specialize (Hm w). by rewrite H1 in Hm.
Qed.

(** What the key and its user are when authentication succeeds *)
Record key_admitted (h : http) (raw : string) (w : world) (k : api_key) (x : ctx) : Prop := KeyAdmitted {
  ka_row : exists id, w_keys w !! id = Some k;
  ka_hash : k_hash k = hash_token raw;
  ka_valid : is_valid k (w_now w) = true;
  ka_user : exists u, w_users w !! k_user k = Some u /\ u_active u = true /\ x_suspended x = suspension u (w_now w);
  ka_ip : ip_allowed (k_ips k) (h_ip h) = true;
  ka_purpose : purpose_allows (key_purpose k) (h_path h) = true;
  ka_ephemeral : k_ephemeral k = true ->
    exists w0 w1, kept w w0 /\ ephemeral_refusal is_uuid s h (default 0%N (k_app k)) (default 0%N (k_workspace k)) w0 = (w1, Ok tt);
  ka_workspace : is_Some (k_workspace k) -> workspace_key_allowed h = true;
  ka_ctx : x_user x = k_user k /\ x_method x = by_key /\ x_scopes x = join "," (or_read (k_scopes k)) /\
           x_key_ws x = default 0%N (k_workspace k) /\ x_purpose x = Some (key_purpose k) /\
           x_key_app x = default 0%N (k_app k) /\ x_ephemeral x = k_ephemeral k }.

Lemma auth_api_key_ok h raw w w1 x :
  auth_api_key is_uuid s h raw w = (w1, Ok x) -> exists k, key_admitted h raw w k x /\ kept w w1.
Proof using Type.
  intros H. unfold auth_api_key in H. apply bind_kept in H as (a1 & k & Hk & K1 & H); [|keeping].
  apply bind_kept in H as (a2 & u & Hu & K2 & H); [|unfold find_user; keeping].
  apply or_err_ok in Hk, Hu. apply key_verify_ok in Hk as (_ & Hrow & Hh & _ & Hv).
  apply query_ok in Hu as [Hs Hu%of_option_ok]. rewrite (same_users _ _ Hs), (proj1 K1) in Hu.
  destruct (u_active u) eqn:Ha; cbn [negb] in H; [|done]. apply bind_ok in H as (a3 & t & Ht & H). injection Ht as <- <-.
  destruct (ip_allowed _ _) eqn:Hip; cbn [negb] in H; [|done].
  destruct (purpose_allows _ _) eqn:Hp; cbn [negb] in H; [|done].
  assert (Ek : kept w a2) by by etrans. destruct Ek as (_ & _ & _ & _ & En & _).
  apply bind_kept in H as (a4 & [] & He & K3 & H); [|keeping].
  destruct (bool_decide (is_Some (k_workspace k)) && negb (workspace_key_allowed h)) eqn:Hw; [done|]. injection H as <- <-.
  exists k. split; [|by etrans; [etrans|]]. split; cbn; try done.
  - exists u. by rewrite En.
  - intros E. rewrite E in He. exists a2, a4. split; [by etrans|done].
  - intros Hsome. apply andb_false_iff in Hw as [Hw|Hw]; [by apply bool_decide_eq_false in Hw|by apply negb_false_iff].
Qed.

(** The role and permissions a scope resolved: the member's access, or the role under a custom one that could not be read *)
Lemma resolve_access_ok ws u w w1 a :
  resolve_access ws u w = (w1, Ok a) ->
  exists m, w_members w !! (ws, u) = Some m /\
    (access w ws u = Some a \/ (w_faults w <> [] /\ a = (m_role m, role_permissions (m_role m)))).
Proof using Type.
  unfold resolve_access. intros H. apply bind_kept in H as (a1 & m & Hm & K & H); [|unfold find_member; keeping].
  apply or_err_ok, find_member_ok in Hm as [Hs Hm]. rewrite (same_members _ _ Hs) in Hm. exists m. split; [done|].
  unfold access. rewrite Hm. cbn. destruct (m_custom m) as [c|]; cbn; [|injection H as _ <-; by left].
  apply bind_ok in H as (a2 & r & Hr & H). injection H as _ <-. unfold attempt, find_role in Hr.
  destruct (query _ a1) as [a3 [y|e]] eqn:Hq; injection Hr as -> <-.
  - apply query_ok in Hq as [Hs2 Hy%of_option_ok]. rewrite (same_roles _ _ Hs2), (same_roles _ _ Hs) in Hy. rewrite Hy. by left.
  - destruct (w_roles w !! c) as [r|] eqn:Hc; [|by left]. right. split; [|done]. intros Hf.
    rewrite query_calm in Hq by by apply K. injection Hq as _ Hq. unfold find_row in Hq. by rewrite (same_roles _ _ Hs), Hc in Hq.
Qed.

(** *** References of applications, when no call fails *)

Definition found_app (ws : N) (p : app_ref -> bool) : N :=
  default 0%N (af_id <$> find_first (fun a => (af_ws a =? ws)%N && p a) (st_apps s)).
Definition ref_id (ws : N) (ref : string) : N :=
  let ref := trim_space ref in
  let id := match parse_uint ref with Some n => if (n =? 0)%N then 0%N else found_app ws (fun a => (af_id a =? n)%N) | None => 0%N end in
  let id := if (id =? 0)%N && is_uuid ref then found_app ws (fun a => String.eqb (af_uid a) ref) else id in
  if (id =? 0)%N && negb (String.eqb ref "") then found_app ws (fun a => String.eqb (af_name a) (to_lower ref)) else id.
Lemma app_where_run ws p w : w_faults w = [] -> app_where s ws p w = (w, Ok (found_app ws p)).
Proof using Type. intros Hw. unfold app_where, mbind, M_bind, attempt. by rewrite query_calm. Qed.
Lemma id_by_ref_run ws ref w :
  w_faults w = [] -> id_by_ref is_uuid s ws ref w = (w, if (ref_id ws ref =? 0)%N then Err ErrNotFound else Ok (ref_id ws ref)).
Proof using Type.
  intros Hw. unfold id_by_ref. cbv zeta. set (t := trim_space ref).
  set (id1 := match parse_uint t with Some n => if (n =? 0)%N then 0%N else found_app ws (fun a => (af_id a =? n)%N) | None => 0%N end).
  rewrite (bind_run _ _ w w id1).
  2:{ unfold id1. destruct (parse_uint t) as [n|]; [|done]. destruct (n =? 0)%N; [done|]. by apply app_where_run. }
  set (id2 := if (id1 =? 0)%N && is_uuid t then found_app ws (fun a => String.eqb (af_uid a) t) else id1).
  rewrite (bind_run _ _ w w id2) by (unfold id2; destruct ((id1 =? 0)%N && is_uuid t); [by apply app_where_run|done]).
  set (id3 := if (id2 =? 0)%N && negb (String.eqb t "") then found_app ws (fun a => String.eqb (af_name a) (to_lower t)) else id2).
  rewrite (bind_run _ _ w w id3) by
    (unfold id3; destruct ((id2 =? 0)%N && negb (String.eqb t "")); [by apply app_where_run|done]).
  change (ref_id ws ref) with id3. by destruct (id3 =? 0)%N.
Qed.
(** The application a job's key is let through for is the one its workspace's scope resolves. *)
Lemma ephemeral_resolves h bound ws w w1 w' w1' app :
  w_faults w = [] -> w_faults w' = [] -> ws <> 0%N ->
  ephemeral_refusal is_uuid s h bound ws w = (w1, Ok tt) ->
  id_by_ref is_uuid s ws (trim_space (h_app h)) w' = (w1', Ok app) -> app = bound /\ bound <> 0%N.
Proof using Type.
  intros Hw Hw' Hws He Hi. rewrite id_by_ref_run in Hi by done.
  unfold ephemeral_refusal in He. destruct (N.eqb_spec bound 0) as [|Hb]; [done|]. cbv zeta in He.
  destruct (String.eqb (trim_space (h_app h)) ""); [done|]. apply bind_kept in He as (a1 & got & _ & K & He).
  2:{ unfold resolve_app_ref, app_by_uid. keeping. }
  destruct (N.eqb_spec ws 0); [done|].
  assert (Hf : w_faults a1 = []) by by apply K.
  unfold mbind, M_bind, attempt in He. rewrite id_by_ref_run in He by done.
  destruct (ref_id ws (trim_space (h_app h)) =? 0)%N; [done|]. injection Hi as _ <-. cbn in He.
  destruct (N.eqb_spec (ref_id ws (trim_space (h_app h))) bound); [done|done].
Qed.

(** *** The workspace's scope and the route's guards *)

Lemma workspace_scope_ok h x w w1 y :
  workspace_scope is_uuid s h x w = (w1, Ok y) ->
  exists ws app a, y = with_scope ws app a x /\ kept w w1 /\ (x_key_ws x <> 0%N -> x_key_ws x = ws) /\
    (exists m, w_members w !! (ws, x_user x) = Some m /\
       (access w ws (x_user x) = Some a \/ (w_faults w <> [] /\ a = (m_role m, role_permissions (m_role m))))) /\
    (trim_space (h_app h) <> "" -> exists w0 w2, kept w w0 /\ id_by_ref is_uuid s ws (trim_space (h_app h)) w0 = (w2, Ok app)) /\
    (safe_method (h_method h) = false -> restriction_exempt (h_method h) (h_path h) = false -> st_gate s ws = None).
Proof using Type.
  unfold workspace_scope. destruct (x_user x =? 0)%N; [done|]. intros H.
  apply bind_kept in H as (a1 & ws & _ & K1 & H); [|apply keeping_resolve].
  destruct (negb (x_key_ws x =? 0)%N && negb (x_key_ws x =? ws)%N) eqn:Hb; [done|].
  apply bind_kept in H as (a2 & a & Ha & K2 & H); [|apply keeping_access].
  apply bind_kept in H as (a3 & app & Happ & K3 & H); [|keeping].
  destruct (negb (safe_method (h_method h)) && negb (restriction_exempt (h_method h) (h_path h)) && bool_decide (is_Some (st_gate s ws))) eqn:Hg; [done|].
  injection H as <- <-. exists ws, app, a. split_and!; [done|by etrans; [|etrans]| | | |].
  - intros Hne. apply andb_false_iff in Hb as [Hb|Hb]; apply negb_false_iff, N.eqb_eq in Hb; done.
  - apply resolve_access_ok in Ha as (m & Hm & Ha). destruct K1 as (E1 & E2 & E3 & E4 & E5 & E6). rewrite E2 in Hm. exists m. split; [done|].
    unfold access in *. rewrite E2, E3 in Ha. destruct Ha as [Ha|[Hf Ha]]; [by left|]. right. split; [|done]. intros F. by apply Hf, E6.
  - intros Hne. apply String.eqb_neq in Hne. rewrite Hne in Happ. apply or_err_ok in Happ. exists a2, a3. split; [by etrans|done].
  - intros Hs He. rewrite Hs, He in Hg. cbn in Hg. apply bool_decide_eq_false in Hg. by destruct (st_gate s ws); [destruct Hg|].
Qed.

Lemma keeping_pass b : keeping (pass_if b).
Proof using Type. unfold pass_if. keeping. Qed.
#[local] Hint Resolve keeping_pass : quiet.
Lemma keeping_need h x n : keeping (check_need s h x n).
Proof using Type. destruct n; cbn [check_need]; unfold policy_grants; keeping. Qed.
Lemma check_needs_ok h x l w w1 :
  check_needs s h x l w = (w1, Ok tt) -> forall n, n ∈ l -> exists w2 w3, check_need s h x n w2 = (w3, Ok tt).
Proof using Type.
  revert w. induction l as [|m l IH]; intros w; cbn [check_needs]; [intros _ n []%elem_of_nil|].
  intros (w2 & [] & H1 & H2)%bind_ok n [->|Hn]%elem_of_cons; [by exists w, w2|by eapply IH].
Qed.
End Rules.


(** ** A concrete request: a pipeline's key deploys its application by name *)

Definition job_world : world :=
  (run_key_op None demo_quota (KEphemeral 2 7 (Some 4%N) "job" [scope_deploy] (60 * minute) demo_random)
     (demo_team [(1%N, owner_row None); (2%N, Member role_developer None "")])).1.
Definition demo_site : site :=
  Site [AppRef 4 7 "web" "6f1c"; AppRef 5 7 "db" "77aa"] [] [] "secret" (fun _ => false) (fun _ => None) ModeEnforce.
Definition deploy_route : route :=
  Route "POST" "/api/v1/workspaces/{workspace}/apps" "/{appID}/deploy" true [NeedPermission "app:deploy"].
Definition deploy_request (app : string) : http :=
  Http "POST" ("/api/v1/workspaces/team/apps/" +:+ app +:+ "/deploy") ("Bearer " +:+ plaintext_of demo_random) "" None "10.0.0.9" "team" app
       (fun _ => app).
Definition deploy_answer (app : string) : world * result acc_err ctx :=
  enter (fun _ => None) (fun _ _ => "") (fun _ => false) demo_site deploy_route (deploy_request app) job_world.
Example job_stays_on_its_application :
  match (deploy_answer "web").2 with Ok x => x_app x = 4%N /\ x_ws x = 7%N | Err _ => False end /\
  (deploy_answer "db").2 = Err ErrForbidden.
Proof. vm_compute. repeat split. Qed.

Lemma demo_team_filed members : filed (demo_team members).
Proof. intros id k Hk. unfold demo_team in Hk. cbn in Hk. by rewrite lookup_empty in Hk. Qed.

(** A lookup that fails reads as no row: the job's key for application 4 is admitted on the application named "4". *)
Definition twin_site : site :=
  Site [AppRef 4 7 "web" "6f1c"; AppRef 9 7 "4" "77aa"] [] [] "secret" (fun _ => false) (fun _ => None) ModeEnforce.
Definition twin_answer (faults : list bool) : result acc_err ctx :=
  (enter (fun _ => None) (fun _ _ => "") (fun _ => false) twin_site deploy_route (deploy_request "4") (at_moment 0 faults job_world)).2.
Example failed_lookup_moves_job :
  match twin_answer [], twin_answer [false; false; false; false; false; false; true] with
  | Ok x, Ok y => x_app x = 4%N /\ x_app y = 9%N
  | _, _ => False
  end.
Proof. vm_compute. split; reflexivity. Qed.
