(* ===== verification/RegistryAccess.v ===== *)
(** * The built-in registry: who may pull and push

    [internal/services/registryserver]: what the gateway asks before a registry request (auth.go), the names a request may use
    (name.go), the repositories of a workspace and the deletion of a tag (repos.go), and the storage quota with its cache
    (quota.go). The docker password is an API key ([ApiKeys]), or the platform's own token. The registry behind the gateway
    is an argument; the gateway's rewrite of a path is the rule of internal/proxy/goma.go.

    A specification of who may pull from and push to the built-in registry, the proof that [RegistryAccess.authorize] answers it
    exactly, and that what the gateway then asks the registry for lies in the workspace that was authorized. *)
From S2P Require Import Prelude GoStrings GoTime GoText GoWeb Roles ApiScopes Accounts Members AccountFacts MemberHistory MemberInvites ApiKeys ApiAccess AccessRules.
From S2P Require Registry.
#[local] Open Scope Z_scope.
#[local] Open Scope list_scope.

(** ** Reading a request *)

(** [AuthInput] *)
Record auth_input := AuthInput { ai_authorization : string; ai_method : string; ai_uri : string }.

(** [firstSegment], [repoTail] *)
Definition first_segment (repo : string) : string := (cut "/" repo).1.1.
Definition repo_tail (repo : string) : string := (cut "/" repo).1.2.

(** [parseBasic]: the user and the password *)
Definition basic_prefix : string := "Basic ".
Definition parse_basic (header : string) : option (string * string) :=
  let n := String.length basic_prefix in
  if (String.length header <? n)%nat || negb (String.eqb (fold_ascii (str_take n header)) (fold_ascii basic_prefix)) then None
  else
    raw ← base64_decode (trim_wide (str_drop n header));
    match cut ":" raw with
    | (user, pass, true) => if String.eqb user "" || String.eqb pass "" then None else Some (user, pass)
    | _ => None
    end.

(** What a path addresses: the base, the catalog, a repository; a path that climbs out addresses one that cannot exist. *)
Inductive target := Base | Catalog | Repo (repo : string).
Definition nul : string := String "000" EmptyString.
(** The rest of [s] from the first [sub] on; what precedes the last one *)
Fixpoint from_first (sub s : string) : option string :=
  if has_prefix sub s then Some s else match s with EmptyString => None | String _ s => from_first sub s end.
Fixpoint before_last_str (sub s : string) : option string :=
  match s with
  | EmptyString => None
  | String c rest =>
      match before_last_str sub rest with
      | Some p => Some (String c p)
      | None => if has_prefix sub s then Some EmptyString else None
      end
  end.
Definition markers : list string := ["/manifests/"; "/blobs/"; "/tags/"].
(** The path the gateway proxies, as [parseRepo] reads it *)
Definition request_path (uri : string) : string :=
  let p := (cut "?" uri).1.1 in
  let p := default p (from_first "/v2" p) in
  path_clean (default p (path_unescape p)).
(** [parseRepo] *)
Definition parse_repo (uri : string) : target :=
  let p := request_path uri in
  if negb (String.eqb p "/v2") && negb (has_prefix "/v2/" p) then Repo nul
  else
    let p := trim_char "/" (trim_prefix "/v2" p) in
    if String.eqb p "" then Base
    else if String.eqb p "_catalog" then Catalog
    else Repo (default p (head (omap (fun m => before_last_str m p) markers))).

(** [isPush] *)
Definition is_push (method : string) : bool :=
  bool_decide (upper_fold (trim_wide method) ∈ ["PUT"; "POST"; "PATCH"; "DELETE"]).

(** [mountSource] *)
Definition mount_source (uri : string) : string :=
  match cut "?" uri with
  | (_, q, true) =>
      match parse_query q with
      | None => if contains "from=" q then nul else ""
      | Some l => trim_char "/" (trim_wide (query_get "from" l))
      end
  | _ => ""
  end.

(** The gateway's rewrite: the segment after [/v2/], when another one follows, becomes the namespace. *)
Definition gateway_rewrite (ns path : string) : string :=
  match cut_prefix "/v2/" path with
  | Some rest =>
      match cut "/" rest with
      | (segment, rest, true) => if String.eqb segment "" then path else "/v2/" +:+ ns +:+ "/" +:+ rest
      | _ => path
      end
  | None => path
  end.

(** ** The storage quota and its cache: quota.go *)

Definition usage_ttl : duration := 60 * second.
Record usage := Usage {
  us_bytes : gmap N Z; us_at : gmap N instant; us_refresh : gset N; us_quota : Z; us_quota_at : instant }.
Definition no_usage : usage := Usage ∅ ∅ ∅ 0 0.

(** [quotaMB]; [settings] is the quota of the settings' row, [None] when it cannot be read. *)
Definition quota_mb (settings : option Z) (t : instant) (us : usage) : usage * Z :=
  if t - us_quota_at us <? usage_ttl then (us, us_quota us)
  else match settings with
       | None => (us, 0)
       | Some q => (Usage (us_bytes us) (us_at us) (us_refresh us) q t, q)
       end.
(** [quotaExceeded] *)
Definition fresh_usage (t : instant) (us : usage) (ws : N) : option Z :=
  match us_bytes us !! ws with
  | Some bytes => if t - default 0 (us_at us !! ws) <? usage_ttl then Some bytes else None
  | None => None
  end.
Definition quota_exceeded (settings : option Z) (t : instant) (ws : N) (us : usage) : usage * bool :=
  let '(us, mb) := quota_mb settings t us in
  if mb <=? 0 then (us, false)
  else
    match fresh_usage t us ws with
    | Some bytes => (us, wrap64 (mb * 1024 * 1024) <=? bytes)
    | None => (Usage (us_bytes us) (us_at us) ({[ws]} ∪ us_refresh us) (us_quota us) (us_quota_at us), false)
    end.
(** [refreshUsage] at its end; [total] is what the walk of the registry gave. *)
Definition refresh_usage (total : option Z) (t : instant) (ws : N) (us : usage) : usage :=
  let done_ := us_refresh us ∖ {[ws]} in
  match total with
  | None => Usage (us_bytes us) (us_at us) done_ (us_quota us) (us_quota_at us)
  | Some n => Usage (<[ws := n]> (us_bytes us)) (<[ws := t]> (us_at us)) done_ (us_quota us) (us_quota_at us)
  end.

(** ** The decision: auth.go *)

Inductive reason :=
| NoCredentials | BadToken | CatalogDenied | UnknownNamespace | NeedsPushScope | NeedsPullScope
| AppUnresolved | OtherRepository (app : string) | OtherWorkspace | NotMember | RoleTooLow
| BadMount | UnknownMount | CrossMount | QuotaExceeded.
(** [AuthResult] *)
Record auth_result := AuthResult {
  ar_status : Z; ar_challenge : bool; ar_workspace : string; ar_ws : N; ar_user : N; ar_namespace : string; ar_reason : option reason }.
Definition allow (name : string) (ws user : N) (ns : string) : auth_result := AuthResult 200 false name ws user ns None.
Definition deny (r : reason) : auth_result := AuthResult 403 false "" 0 0 "" (Some r).
Definition challenge (r : reason) : auth_result := AuthResult 401 true "" 0 0 "" (Some r).
(** [Allowed] *)
Definition allowed_result (r : auth_result) : bool := ar_status r =? 200.

(** [scopeAllows], [roleAllows] *)
Definition scope_allows (k : api_key) (push : bool) : bool :=
  if push then scope_satisfies (k_scopes k) scope_write || scope_satisfies (k_scopes k) scope_deploy || has_scope k scope_registry_write
  else scope_satisfies (k_scopes k) scope_read || has_scope k scope_registry_read.
Definition role_allows (role : string) (push : bool) : bool := at_least role (if push then role_developer else role_viewer).

(** What the service is made with: the platform's token (empty when there is none), the applications when it can resolve them,
    and the quota of its settings, when it keeps usage *)
Record registry_service := RegistryService {
  rs_platform : string; rs_apps : option (list app_ref); rs_quota : option (option Z) }.

(** [platformToken]: the configured one, else the one derived from the master key *)
Definition platform_token (configured derived : string) : string :=
  let t := trim_space configured in if String.eqb t "" then derived else t.

Section Authorize.
Context (g : registry_service).

(** [resolveNamespace] *)
Definition resolve_ns (ns : string) : M (N * space) :=
  match Registry.parse_id_namespace ns with
  | Some id => s ← find_space id; mret (id, s)
  | None => find_space_by_name ns
  end.
(** The application of a bound key *)
Definition find_app (id : N) : M app_ref :=
  match rs_apps g with
  | None => throw ErrNotFound
  | Some l => query (fun _ => of_option ErrNotFound (find_first (fun a => (af_id a =? id)%N) l))
  end.
(** [authorizeBoundApp]: [None] is no objection, here and below. *)
Definition authorize_bound_app (k : api_key) (repo : string) : M (option reason) :=
  match k_app k with
  | None => mret None
  | Some id =>
      a ← attempt (find_app id);
      match a with
      | None => mret (Some AppUnresolved)
      | Some a =>
          let name := trim_wide (repo_tail repo) in
          mret (if String.eqb name "" || negb (String.eqb (fold_ascii name) (fold_ascii (af_name a)))
                then Some (OtherRepository (af_name a)) else None)
      end
  end.
(** [authorizePrincipal] *)
Definition authorize_principal (k : api_key) (ws : N) (repo : string) (push : bool) : M (option reason) :=
  if negb (scope_allows k push) then mret (Some (if push then NeedsPushScope else NeedsPullScope))
  else
    bound ← authorize_bound_app k repo;
    match bound with
    | Some r => mret (Some r)
    | None =>
        if match k_workspace k with Some b => negb (b =? ws)%N | None => false end then mret (Some OtherWorkspace)
        else if k_ephemeral k && bool_decide (is_Some (k_workspace k)) then mret None
        else
          m ← attempt (find_member ws (k_user k));
          mret (match m with
                | None => Some NotMember
                | Some m => if role_allows (m_role m) push then None else Some RoleTooLow
                end)
    end.
(** [authorizeMountSource] *)
Definition climbs (p : string) : bool := String.eqb p ".." || has_prefix "../" p || has_prefix "/" p.
Definition authorize_mount (uri : string) (ws : N) : M (option reason) :=
  let from := mount_source uri in
  if String.eqb from "" then mret None
  else
    let from := path_clean from in
    if climbs from then mret (Some BadMount)
    else
      r ← attempt (resolve_ns (first_segment from));
      mret (match r with
            | None => Some UnknownMount
            | Some (id, _) => if (id =? ws)%N then None else Some CrossMount
            end).
(** The quota, asked of a push that is otherwise allowed *)
Definition over_quota (push : bool) (ws : N) (us : usage) : M (usage * bool) :=
  t ← now;
  mret (match rs_quota g with
        | Some settings => if push then quota_exceeded settings t ws us else (us, false)
        | None => (us, false)
        end).

(** The platform's own token *)
Definition authorize_platform (i : auth_input) : M auth_result :=
  match parse_repo (ai_uri i) with
  | Base => mret (allow "" 0 0 "")
  | Catalog => mret (deny CatalogDenied)
  | Repo repo =>
      r ← attempt (resolve_ns (first_segment repo));
      match r with
      | None => mret (deny UnknownNamespace)
      | Some (id, s) =>
          m ← authorize_mount (ai_uri i) id;
          mret (match m with Some why => deny why | None => allow (sp_name s) id 0 (Registry.namespace id) end)
      end
  end.
(** An API key that verified *)
Definition authorize_key (i : auth_input) (k : api_key) (us : usage) : M (usage * auth_result) :=
  match parse_repo (ai_uri i) with
  | Base => mret (us, allow "" 0 (k_user k) "")
  | Catalog => mret (us, deny CatalogDenied)
  | Repo repo =>
      let push := is_push (ai_method i) in
      r ← attempt (resolve_ns (first_segment repo));
      match r with
      | None => mret (us, deny UnknownNamespace)
      | Some (id, s) =>
          p ← authorize_principal k id repo push;
          match p with
          | Some why => mret (us, deny why)
          | None =>
              m ← authorize_mount (ai_uri i) id;
              match m with
              | Some why => mret (us, deny why)
              | None =>
                  over_quota push id us ≫= fun q : usage * bool =>
                  mret (q.1, if q.2 then deny QuotaExceeded else allow (sp_name s) id (k_user k) (Registry.namespace id))
              end
          end
      end
  end.
(** [Authorize] *)
Definition authorize (i : auth_input) (us : usage) : M (usage * auth_result) :=
  match parse_basic (ai_authorization i) with
  | None => mret (us, challenge NoCredentials)
  | Some (_, token) =>
      if negb (String.eqb (rs_platform g) "") && String.eqb token (rs_platform g) then r ← authorize_platform i; mret (us, r)
      else
        k ← attempt (verify token);
        match k with
        | None => mret (us, challenge BadToken)
        | Some k => authorize_key i k us
        end
  end.
End Authorize.

(** ** Examples of auth_test.go *)

Example parse_repo_examples :
  parse_repo <$> ["/v2/"; "/v2"; "/v2/_catalog"; "/v2/acme/web/manifests/1.0"; "/v2/acme/team/api/blobs/uploads/x?_state=y"; "/v2/acme/web/tags/list";
                  "/v2/acme/../other/web/manifests/1"; "/v2/acme/%2e%2e/other/web/manifests/1"; "/v2/../../etc"; "/registry/v2/acme/web/tags/list"] =
  [Base; Base; Catalog; Repo "acme/web"; Repo "acme/team/api"; Repo "acme/web"; Repo "other/web"; Repo "other/web"; Repo nul; Repo "acme/web"].
Proof. by vm_compute. Qed.
Example mount_examples :
  mount_source <$> ["/v2/acme/web/blobs/uploads/?mount=sha256:abc&from=other/api"; "/v2/acme/web/blobs/uploads/?from=%2Fother%2Fapi%2F"; "/v2/";
                    "/v2/x?from=%zz"; "/v2/x?a=%zz"] = ["other/api"; "other/api"; ""; nul; ""].
Proof. by vm_compute. Qed.
Example push_examples : is_push <$> ["GET"; "put "; "Post"; "HEAD"; "DELETE"; "OPTIONS"] = [false; true; true; false; true; false].
Proof. by vm_compute. Qed.
Example rewrite_examples :
  gateway_rewrite "ws_7" <$> ["/v2/acme/web/manifests/1"; "/v2/acme"; "/v2/"; "/v2/ws_7/web/blobs/uploads/"] =
  ["/v2/ws_7/web/manifests/1"; "/v2/acme"; "/v2/"; "/v2/ws_7/web/blobs/uploads/"].
Proof. by vm_compute. Qed.

(** * What the gateway's question decides *)

#[local] Existing Instance kept_pre.

(** ** The specification *)

(** The workspace a namespace names: by its immutable id, else by its handle *)
Definition space_named (w : world) (ns : string) : option (N * space) :=
  match Registry.parse_id_namespace ns with
  | Some id => pair id <$> w_spaces w !! id
  | None => find_first (fun kv => String.eqb (sp_name kv.2) ns) (map_to_list (w_spaces w))
  end.
Definition app_named (g : registry_service) (id : N) : option app_ref :=
  rs_apps g ≫= find_first (fun a => (af_id a =? id)%N).

(** What a key needs for a repository of workspace [ws] *)
Record entitled (g : registry_service) (k : api_key) (ws : N) (repo : string) (push : bool) (w : world) : Prop := Entitled {
  en_scope : scope_allows k push = true;
  en_app : forall id, k_app k = Some id -> exists a, app_named g id = Some a /\ trim_wide (repo_tail repo) <> "" /\
             fold_ascii (trim_wide (repo_tail repo)) = fold_ascii (af_name a);
  en_workspace : forall b, k_workspace k = Some b -> b = ws;
  en_member : (k_ephemeral k = true /\ is_Some (k_workspace k)) \/
              exists m, w_members w !! (ws, k_user k) = Some m /\ role_allows (m_role m) push = true }.
(** A blob may be mounted from a repository of the same workspace only. *)
Definition mount_within (uri : string) (ws : N) (w : world) : Prop :=
  mount_source uri = "" \/
  (climbs (path_clean (mount_source uri)) = false /\ fst <$> space_named w (first_segment (path_clean (mount_source uri))) = Some ws).
Definition within_quota (g : registry_service) (push : bool) (ws : N) (us : usage) (t : instant) : Prop :=
  push = true -> forall settings, rs_quota g = Some settings -> (quota_exceeded settings t ws us).2 = false.
(** What a request for repository [repo] needs *)
Definition repo_permitted (g : registry_service) (i : auth_input) (us : usage) (k : api_key) (repo : string) (ws : N) (s : space) (w : world) : Prop :=
  space_named w (first_segment repo) = Some (ws, s) /\ entitled g k ws repo (is_push (ai_method i)) w /\
  mount_within (ai_uri i) ws w /\ within_quota g (is_push (ai_method i)) ws us (w_now w).

(** ** Answers of lookups and checks *)

(** A lookup answers what [f] says, or nothing when a call fails. *)
Definition looks {A} (m : M (option A)) (f : world -> option A) : Prop := forall w,
  exists w1 o, m w = (w1, Ok o) /\ kept w w1 /\ (forall x, o = Some x -> f w = Some x) /\ (w_faults w = [] -> o = f w).
(** A check objects to nothing only where [φ] holds, and objects to nothing where it does when no call fails. *)
Definition judges (m : M (option reason)) (φ : world -> Prop) : Prop := forall w,
  exists w1 o, m w = (w1, Ok o) /\ kept w w1 /\ (o = None -> φ w) /\ (w_faults w = [] -> φ w -> o = None).

Definition answer {A} (r : result acc_err A) : option A := match r with Ok a => Some a | Err _ => None end.
Lemma looks_attempt {A} (m : M A) : keeping m -> looks (attempt m) (fun w => answer (m w).2).
Proof. intros Hm w. specialize (Hm w). unfold attempt. destruct (m w) as [w1 [a|e]]; cbn in *; eexists _, _; split_and!; done. Qed.
Lemma looks_ext {A} (m : M (option A)) f f' :
  looks m f -> (forall w x, f w = Some x -> f' w = Some x) -> (forall w, w_faults w = [] -> f w = f' w) -> looks m f'.
Proof.
  intros Hm H1 H2 w. destruct (Hm w) as (w1 & o & E & K & Ho & Hc). exists w1, o. split_and!; [done..| |].
  - intros x Hx. by apply H1, Ho.
  - intros Hf. rewrite <- H2 by done. by apply Hc.
Qed.
Lemma looks_query {A} (f : world -> result acc_err A) (h : world -> option A) :
  (forall w, answer (f w) = h w) -> (forall w w', kept w w' -> h w' = h w) -> looks (attempt (query f)) h.
Proof.
  intros Hf Hk. apply (looks_ext _ (fun w => answer (query f w).2)).
  - apply looks_attempt, keeping_query.
  - intros w x Hx. unfold query, call in Hx. case_match; [done|]. cbn in Hx. rewrite Hf in Hx. rewrite <- Hx. symmetry. apply Hk.
    unfold kept. cbn. split_and!; try done. by intros ->.
  - intros w Hw. rewrite query_calm by done. apply Hf.
Qed.

Lemma answer_of_option {A} e (o : option A) : answer (of_option e o) = o. Proof. by destruct o. Qed.
Lemma attempt_map {A B} (f : world -> result acc_err A) (h : A -> B) w :
  attempt (a ← query f; mret (h a)) w = attempt (query (fun w => match f w with Ok a => Ok (h a) | Err e => Err e end)) w.
Proof. unfold attempt, mbind, M_bind, query, call. destruct (default false _); [done|]. by destruct (f _). Qed.
Lemma kept_spaces w w' ns : kept w w' -> space_named w' ns = space_named w ns.
Proof. intros (_ & _ & _ & Es & _). unfold space_named. by rewrite Es. Qed.
Lemma looks_ns ns : looks (attempt (resolve_ns ns)) (fun w => space_named w ns).
Proof.
  unfold resolve_ns, find_space, find_space_by_name. destruct (Registry.parse_id_namespace ns) as [id|] eqn:E.
  - intros w. rewrite attempt_map. eapply (looks_query _ (fun w => space_named w ns)).
    + intros w'. unfold space_named, find_row. rewrite E. by destruct (w_spaces w' !! id).
    + intros. by apply kept_spaces.
  - apply looks_query; [|intros; by apply kept_spaces]. intros w. rewrite answer_of_option. unfold space_named. by rewrite E.
Qed.
Lemma looks_member ws u : looks (attempt (find_member ws u)) (fun w => w_members w !! (ws, u)).
Proof. apply looks_query; [intros; apply answer_of_option|]. by intros w w' (_ & Em & _); rewrite Em. Qed.
Lemma looks_app g id : looks (attempt (find_app g id)) (fun _ => app_named g id).
Proof.
  unfold find_app, app_named. destruct (rs_apps g) as [l|]; cbn.
  - apply looks_query; [intros; apply answer_of_option|done].
  - intros w. eexists w, None. split_and!; done.
Qed.

(** The rules: an objection, a lookup and what its answer leads to, one check after another *)
Lemma judges_ret (o : option reason) (φ : world -> Prop) : (forall w, o = None <-> φ w) -> judges (mret o) φ.
Proof. intros H w. exists w, o. split_and!; [done|done|by apply H|]. intros _. by apply H. Qed.
Lemma judges_ext m φ ψ : judges m φ -> (forall w, φ w <-> ψ w) -> judges m ψ.
Proof.
  intros Hm H w. destruct (Hm w) as (w1 & o & E & K & Ho & Hc). exists w1, o. split_and!; [done..| |].
  - intros Hn. by apply H, Ho.
  - intros Hf Hp. apply Hc; [done|by apply H].
Qed.
Lemma judges_look {A} (m : M (option A)) f (c : option A -> M (option reason)) (h : option A -> option reason) φ :
  looks m f -> (forall a, c a = mret (h a)) -> is_Some (h None) -> (forall w, h (f w) = None <-> φ w) -> judges (m ≫= c) φ.
Proof.
  intros Hm Hk [r0 Hn] Hφ w. destruct (Hm w) as (w1 & o & E & K & Ho & Hc). exists w1, (h o).
  split_and!; [by rewrite (bind_run _ _ _ w1 o), Hk|done| |].
  - intros Hh. apply Hφ. destruct o as [x|]; [by rewrite (Ho x)|congruence].
  - intros Hf Hp. rewrite (Hc Hf). by apply Hφ.
Qed.
Lemma judges_then m m' φ ψ :
  judges m φ -> judges m' ψ -> (forall w w', kept w w' -> ψ w' <-> ψ w) ->
  judges (o ← m; match o with Some r => mret (Some r) | None => m' end) (fun w => φ w /\ ψ w).
Proof.
  intros Hm Hm' Hk w. destruct (Hm w) as (w1 & o & E & K & Ho & Hc). rewrite (bind_run _ _ _ w1 o) by done. destruct o as [r|].
  - exists w1, (Some r). split_and!; [done|done|done|]. intros Hf [Hp _]. by rewrite (Hc Hf Hp).
  - destruct (Hm' w1) as (w2 & o & E2 & K2 & Ho2 & Hc2). exists w2, o. split_and!; [done|by etrans| |].
    + intros ->. split; [by apply Ho|]. by apply (Hk w w1), Ho2.
    + intros Hf [Hp Hq]. apply Hc2; [by apply K|]. by apply (Hk w w1).
Qed.

Section Rules.
Context (g : registry_service).

(** ** Each check *)

Lemma judges_app k repo :
  judges (authorize_bound_app g k repo) (fun _ => forall id, k_app k = Some id -> exists a, app_named g id = Some a /\
    trim_wide (repo_tail repo) <> "" /\ fold_ascii (trim_wide (repo_tail repo)) = fold_ascii (af_name a)).
Proof.
  unfold authorize_bound_app. destruct (k_app k) as [id|] eqn:E; [|by apply judges_ret].
  apply (judges_look _ _ _ (fun o => match o with None => Some AppUnresolved | Some a =>
    if String.eqb (trim_wide (repo_tail repo)) "" || negb (String.eqb (fold_ascii (trim_wide (repo_tail repo))) (fold_ascii (af_name a)))
    then Some (OtherRepository (af_name a)) else None end) _ (looks_app g id)); [by intros []|done|].
  intros _. destruct (app_named g id) as [a|] eqn:Ha.
  - destruct (String.eqb_spec (trim_wide (repo_tail repo)) "") as [Hn|Hn]; cbn [orb].
    { split; [done|]. intros H. destruct (H id) as (a' & _ & Hne & _); [done|]. congruence. }
    destruct (String.eqb_spec (fold_ascii (trim_wide (repo_tail repo))) (fold_ascii (af_name a))) as [He|He]; cbn [negb].
    + split; [|done]. intros _ id' [= <-]. by exists a.
    + split; [done|]. intros H. destruct (H id) as (a' & Ha' & _ & He'); [done|]. congruence.
  - split; [done|]. intros H. destruct (H id) as (a' & Ha' & _); [done|]. congruence.
Qed.

Lemma judges_member k ws push :
  judges (if match k_workspace k with Some b => negb (b =? ws)%N | None => false end then mret (Some OtherWorkspace)
          else if k_ephemeral k && bool_decide (is_Some (k_workspace k)) then mret None
          else m ← attempt (find_member ws (k_user k));
               mret (match m with None => Some NotMember | Some m => if role_allows (m_role m) push then None else Some RoleTooLow end))
    (fun w => (forall b, k_workspace k = Some b -> b = ws) /\
       ((k_ephemeral k = true /\ is_Some (k_workspace k)) \/
        exists m, w_members w !! (ws, k_user k) = Some m /\ role_allows (m_role m) push = true)).
Proof.
  destruct (match k_workspace k with Some b => negb (b =? ws)%N | None => false end) eqn:Hw.
  { apply judges_ret. intros w. split; [done|]. intros [H _]. destruct (k_workspace k) as [b|]; [|done].
    rewrite (H b eq_refl), N.eqb_refl in Hw. done. }
  assert (Hb : forall b, k_workspace k = Some b -> b = ws).
  { intros b Hb. rewrite Hb in Hw. by apply N.eqb_eq, negb_false_iff. }
  destruct (k_ephemeral k && _) eqn:He.
  { apply judges_ret. intros w. split; [|done]. intros _. apply andb_true_iff in He as [He Hs%bool_decide_eq_true]. split; [done|by left]. }
  eapply judges_look; [apply looks_member|done|done|]. intros w. cbv beta.
  destruct (w_members w !! (ws, k_user k)) as [m|] eqn:Hm.
  - destruct (role_allows (m_role m) push) eqn:Hr.
    + split; [|done]. intros _. split; [done|]. right. by exists m.
    + split; [done|]. intros [_ [[H1 H2]|(m' & Hm' & Hr')]]; [|congruence]. rewrite H1 in He. by rewrite bool_decide_true in He.
  - split; [done|]. intros [_ [[H1 H2]|(m' & Hm' & Hr')]]; [|done]. rewrite H1 in He. by rewrite bool_decide_true in He.
Qed.

Lemma judges_principal k ws repo push : judges (authorize_principal g k ws repo push) (entitled g k ws repo push).
Proof.
  unfold authorize_principal. destruct (scope_allows k push) eqn:Hs; cbn [negb].
  2:{ apply judges_ret. intros w. split; [by destruct push|]. intros [H]. congruence. }
  eapply judges_ext; [apply judges_then; [apply judges_app|apply judges_member|]|].
  - intros w w' (_ & -> & _). done.
  - intros w. split; [intros (H1 & H2 & H3)|intros [H0 H1 H2 H3]]; by repeat split.
Qed.

Lemma judges_mount uri ws : judges (authorize_mount uri ws) (mount_within uri ws).
Proof.
  unfold authorize_mount, mount_within. destruct (String.eqb_spec (mount_source uri) "") as [He|He].
  { apply judges_ret. intros w. split; [by left|done]. }
  destruct (climbs (path_clean (mount_source uri))) eqn:Hc.
  { apply judges_ret. intros w. split; [done|]. by intros [H|[H _]]. }
  eapply judges_look; [apply looks_ns|done|done|]. intros w. cbv beta.
  destruct (space_named w _) as [[id s]|]; cbn.
  - destruct (N.eqb_spec id ws) as [->|Hn].
    + split; [|done]. intros _. by right.
    + split; [done|]. intros [H|[_ H]]; [done|]. congruence.
  - split; [done|]. by intros [H|[_ H]].
Qed.
End Rules.

(** ** The path: what the gateway rewrites is what was authorized *)

Lemma segment_app r z : first_segment (r +:+ String "/" z) = first_segment r.
Proof.
  unfold first_segment. destruct (cut "/" r) as [[a b] []] eqn:E; cbn.
  - pose proof (Registry.cut_true_without _ _ _ _ E) as Ha. apply cut_true in E as ->. rewrite <- str_app_assoc.
    change (String "/" b +:+ String "/" z) with (String "/" (b +:+ String "/" z)). by rewrite cut_app.
  - assert (Ha : str_forall (without "/") r = true).
    { clear -E. revert a b E. induction r as [|c r IH]; [done|]. intros a b. cbn. unfold without. destruct (Ascii.eqb c "/"); [done|]. cbn.
      destruct (cut "/" r) as [[a' b'] f]. intros [= _ _ ->]. by eapply IH. }
    apply cut_false in E as [-> _]. by rewrite cut_app.
Qed.
Lemma before_marker sub c0 sub' s p : sub = String c0 sub' -> before_last_str sub s = Some p -> exists z, s = p +:+ String c0 z.
Proof.
  intros ->. revert p. induction s as [|c s IH]; [done|]. intros p. cbn [before_last_str].
  destruct (before_last_str (String c0 sub') s) as [q|] eqn:E.
  - intros [= <-]. destruct (IH q eq_refl) as [z ->]. by exists z.
  - destruct (has_prefix (String c0 sub') (String c s)) eqn:Hp; [|done]. intros [= <-]. unfold has_prefix in Hp. cbn in Hp.
    destruct (Ascii.eqb_spec c0 c) as [->|]; [|done]. by exists s.
Qed.
Lemma markers_segment p : first_segment (default p (head (omap (fun m => before_last_str m p) markers))) = first_segment p.
Proof.
  assert (H : forall m q, m ∈ markers -> before_last_str m p = Some q -> first_segment q = first_segment p).
  { intros m q Hm Hq. assert (exists m', m = String "/" m') as [m' ->].
    { unfold markers in Hm. repeat (apply elem_of_cons in Hm as [->|Hm]; [by eexists|]). by apply elem_of_nil in Hm. }
    eapply before_marker in Hq as [z ->]; [|done]. by rewrite segment_app. }
  destruct (omap _ markers) as [|q l] eqn:E; [done|]. cbn. assert (Hq : q ∈ omap (fun m => before_last_str m p) markers) by (rewrite E; left).
  apply list_elem_of_omap in Hq as (m & Hm & Hq). by eapply H.
Qed.
Lemma trim_segment x : first_segment (drop_end_while (Ascii.eqb "/") x) = first_segment x.
Proof.
  induction x as [|c x IH]; [done|]. cbn [drop_end_while]. destruct (drop_end_while (Ascii.eqb "/") x) as [|d t] eqn:E.
  - destruct (Ascii.eqb_spec "/" c) as [<-|Hc]; [done|]. unfold first_segment in *. cbn [cut]. destruct (Ascii.eqb_spec c "/"); [by subst|].
    destruct (cut "/" x) as [[a b] f]. cbn in IH |- *. by rewrite <- IH.
  - set (y := String d t) in *. clearbody y. unfold first_segment in *. cbn [cut]. destruct (Ascii.eqb c "/"); [done|].
    destruct (cut "/" y) as [[a b] f], (cut "/" x) as [[a' b'] f']. cbn in *. by rewrite IH.
Qed.

(** The elements of a clean path are not empty and hold no slash. *)
Definition element (e : string) : Prop := e <> "" /\ str_forall (without "/") e = true.
Lemma split_elements s e : e ∈ split "/" s -> str_forall (without "/") e = true.
Proof.
  revert e. induction s as [|c s IH]; intros e; cbn.
  - by intros ->%list_elem_of_singleton.
  - destruct (Ascii.eqb_spec c "/") as [->|Hc].
    + intros [->|H]%elem_of_cons; [done|by apply IH].
    + pose proof (split_not_nil "/" s). destruct (split "/" s) as [|x l]; [done|]. intros [->|H']%elem_of_cons.
      * cbn. unfold without at 1. apply Ascii.eqb_neq in Hc as ->. apply IH. by left.
      * apply IH. by right.
Qed.
Lemma clean_elements_ok rooted p : Forall element (clean_elements rooted p).
Proof.
  unfold clean_elements. apply Forall_reverse. generalize (split_elements p). generalize (split "/" p) as l.
  assert (H : forall l kept, (forall e, e ∈ l -> str_forall (without "/") e = true) -> Forall element kept ->
                Forall element (foldl (clean_step rooted) kept l)).
  { induction l as [|e l IH]; intros kept Hl Hk; [done|]. cbn. apply IH; [intros; apply Hl; by right|]. unfold clean_step.
    destruct (String.eqb_spec e ""); [done|]. destruct (String.eqb e "."); [done|]. cbn.
    assert (He : element e) by (split; [done|]; apply Hl; by left).
    destruct (String.eqb_spec e ".."); [|by constructor]. subst. destruct kept as [|x kept]; [destruct rooted; by repeat constructor|].
    destruct (String.eqb x ".."); [by constructor|]. by inversion Hk. }
  intros l Hl. by apply H.
Qed.
Lemma element_head e : element e -> exists c r, e = String c r /\ Ascii.eqb c "/" = false.
Proof.
  intros [Hn He]. destruct e as [|c r]; [done|]. exists c, r. split; [done|]. cbn in He. apply andb_true_iff in He as [Hc _]. by apply negb_true_iff.
Qed.
Lemma join_head e l : element e -> exists c r, join "/" (e :: l) = String c r /\ Ascii.eqb c "/" = false.
Proof.
  intros (c & r & -> & Hc)%element_head. destruct l as [|e' l]; [by exists c, r|]. by eexists c, _.
Qed.
(** A clean path under [/v2/]: what follows starts with a segment. *)
Lemma clean_v2 q x : cut_prefix "/v2/" (path_clean q) = Some x -> exists c r, x = String c r /\ Ascii.eqb c "/" = false.
Proof.
  intros Hx%cut_prefix_some. unfold path_clean in Hx.
  assert (Hj : forall rooted, join "/" (clean_elements rooted q) <> "/v2/" +:+ x).
  { intros rooted. pose proof (clean_elements_ok rooted q) as H. destruct H as [|e l He Hl]; [done|].
    destruct (join_head e l He) as (c & r & -> & Hc). intros [= -> _]. by rewrite Ascii.eqb_refl in Hc. }
  destruct (has_prefix "/" q); [|case_bool_decide; [done|by apply Hj in Hx]].
  pose proof (clean_elements_ok true q) as H. destruct H as [|e l He Hl]; [done|].
  injection Hx as Hx. destruct l as [|e' l].
  - change (e = "v2/" +:+ x) in Hx. rewrite Hx in He. by destruct He as [_ He].
  - change (join "/" (e :: e' :: l)) with (e +:+ String "/" (join "/" (e' :: l))) in Hx.
    assert (Hc : cut "/" (e +:+ String "/" (join "/" (e' :: l))) = cut "/" ("v2" +:+ String "/" x)) by (f_equal; exact Hx).
    rewrite !cut_app in Hc; [|done|by destruct He]. injection Hc as _ <-. apply join_head. by inversion Hl.
Qed.

(** The repository's namespace is the segment the gateway replaces. *)
Lemma repo_segment uri repo :
  parse_repo uri = Repo repo -> repo <> nul ->
  exists x, request_path uri = "/v2/" +:+ x /\ first_segment repo = first_segment x /\ first_segment x <> "".
Proof.
  unfold parse_repo. destruct (String.eqb_spec (request_path uri) "/v2") as [E|E].
  { rewrite E. by vm_compute. }
  destruct (has_prefix "/v2/" (request_path uri)) eqn:Hp; cbn [negb andb]; [|by intros [= <-]].
  unfold has_prefix in Hp. destruct (cut_prefix _ _) as [x|] eqn:Hx; [|done]. intros H _. exists x.
  pose proof Hx as Hs%cut_prefix_some. unfold request_path in Hx. apply clean_v2 in Hx as (c & r & -> & Hc).
  rewrite Hs in H. change (trim_prefix "/v2" ("/v2/" +:+ String c r)) with (String "/" (String c r)) in H.
  assert (Ht : trim_char "/" (String "/" (String c r)) = drop_end_while (Ascii.eqb "/") (String c r)).
  { unfold trim_char. cbn [drop_while]. rewrite Ascii.eqb_refl. cbn [drop_while]. by rewrite Ascii.eqb_sym, Hc. }
  rewrite Ht in H. pose proof (trim_segment (String c r)) as Hy. revert H Hy. generalize (drop_end_while (Ascii.eqb "/") (String c r)) as y.
  intros y H Hy. destruct (String.eqb y ""); [done|]. destruct (String.eqb y "_catalog"); [done|]. injection H as <-.
  rewrite markers_segment, Hy. split_and!; [done|done|].
  unfold first_segment. cbn [cut].
  rewrite Hc. by destruct (cut "/" r) as [[]].
Qed.
Lemma rewrite_segment ns x rest : cut "/" x = (first_segment x, rest, true) -> first_segment x <> "" ->
  gateway_rewrite ns ("/v2/" +:+ x) = "/v2/" +:+ ns +:+ "/" +:+ rest.
Proof. intros Hc Hn. unfold gateway_rewrite. rewrite cut_prefix_app, Hc. apply String.eqb_neq in Hn as ->. done. Qed.

(** ** The decision *)

Section Decision.
Context (g : registry_service) (i : auth_input) (us : usage).

(** What a key that verified needs, and the workspace the request is then for; logging in needs nothing else. *)
Definition meets (k : api_key) (ws : N) (w : world) : Prop :=
  match parse_repo (ai_uri i) with
  | Base => ws = 0%N
  | Catalog => False
  | Repo repo => exists s, repo_permitted g i us k repo ws s w
  end.
Definition permitted (token : string) (ws : N) (w : world) : Prop := exists k, (verify token w).2 = Ok k /\ meets k ws w.

Lemma kept_permitted k repo ws s w w' : kept w w' -> repo_permitted g i us k repo ws s w' <-> repo_permitted g i us k repo ws s w.
Proof.
  intros K. pose proof K as (_ & Em & _ & Es & En & _). unfold repo_permitted, mount_within. rewrite !(kept_spaces w w') by done. rewrite En.
  assert (H : entitled g k ws repo (is_push (ai_method i)) w' <-> entitled g k ws repo (is_push (ai_method i)) w).
  { split; intros [H1 H2 H3 H4]; split; try done; by rewrite ?Em in *. }
  by rewrite H.
Qed.
Lemma over_quota_run push ws w :
  exists q, over_quota g push ws us w = (w, Ok q) /\ (q.2 = false <-> within_quota g push ws us (w_now w)).
Proof.
  unfold over_quota, within_quota. cbn. destruct (rs_quota g) as [settings|]; [destruct push|]; eexists; (split; [done|]); cbn.
  - split; [by intros H _ ? [= <-]|]. intros H. by apply H.
  - done.
  - done.
Qed.

(** An answer is exact: allowed only to what meets the rules, and to all of it when no call fails. *)
Definition exact (k : api_key) (w : world) (r : world * result acc_err (usage * auth_result)) : Prop :=
  exists w1 us1 a, r = (w1, Ok (us1, a)) /\
    (ar_status a = 200 -> meets k (ar_ws a) w /\ forall repo, parse_repo (ai_uri i) = Repo repo -> ar_namespace a = Registry.namespace (ar_ws a)) /\
    (w_faults w = [] -> forall ws, meets k ws w -> ar_status a = 200 /\ ar_ws a = ws).
Lemma exact_denied k w w1 us1 r : (w_faults w = [] -> forall ws, ~ meets k ws w) -> exact k w (w1, Ok (us1, deny r)).
Proof. intros H. eexists _, _, _. split_and!; [done|done|]. intros Hf ws Hm. by destruct (H Hf ws). Qed.
Lemma kept_faults w w' : kept w w' -> w_faults w = [] -> w_faults w' = []. Proof. intros (_ & _ & _ & _ & _ & H). exact H. Qed.

Lemma authorize_key_exact k w : exact k w (authorize_key g i k us w).
Proof.
  unfold authorize_key. destruct (parse_repo (ai_uri i)) as [| |repo] eqn:Ei.
  { eexists _, _, _. unfold meets. rewrite Ei. split_and!; [done|by intros _; split|]. by intros _ ws ->. }
  { apply exact_denied. unfold meets. rewrite Ei. by intros _ ws []. }
  destruct (looks_ns (first_segment repo) w) as (w1 & o & E & K & Ho & Hc). rewrite (bind_run _ _ _ _ _ E).
  assert (Hns : w_faults w = [] -> forall ws, meets k ws w -> exists s, o = Some (ws, s) /\ repo_permitted g i us k repo ws s w).
  { intros Hf ws. unfold meets. rewrite Ei. intros (s & H). exists s. split; [|done]. rewrite (Hc Hf). by destruct H. }
  destruct o as [[ws s]|].
  2:{ apply exact_denied. intros Hf ws H. by destruct (Hns Hf ws H) as (s & ? & _). }
  specialize (Ho _ eq_refl).
  destruct (judges_principal g k ws repo (is_push (ai_method i)) w1) as (w2 & p & E2 & K2 & Hp & Hpc). rewrite (bind_run _ _ _ _ _ E2).
  destruct p as [r|].
  { apply exact_denied. intros Hf ws' H. destruct (Hns Hf ws' H) as (s' & [= <- <-] & H'). apply (kept_permitted _ _ _ _ _ _ K) in H' as (_ & H' & _).
    by specialize (Hpc (kept_faults _ _ K Hf) H'). }
  destruct (judges_mount (ai_uri i) ws w2) as (w3 & m & E3 & K3 & Hm & Hmc). rewrite (bind_run _ _ _ _ _ E3).
  assert (K02 : kept w w2) by by etrans. assert (K03 : kept w w3) by by etrans. destruct m as [r|].
  { apply exact_denied. intros Hf ws' H. destruct (Hns Hf ws' H) as (s' & [= <- <-] & H'). apply (kept_permitted _ _ _ _ _ _ K02) in H' as (_ & _ & H' & _).
    by specialize (Hmc (kept_faults _ _ K02 Hf) H'). }
  destruct (over_quota_run (is_push (ai_method i)) ws w3) as (q & E4 & Hq). rewrite (bind_run _ _ _ _ _ E4).
  assert (En : w_now w3 = w_now w) by apply K03. rewrite En in Hq. destruct q as [us1 []]; cbn [fst snd] in *.
  { apply exact_denied. intros Hf ws' H. destruct (Hns Hf ws' H) as (s' & [= <- <-] & (_ & _ & _ & H')). by apply Hq in H'. }
  eexists _, _, _. split_and!; [done| |].
  - intros _. split; [|done]. unfold meets. rewrite Ei. exists s. split_and!; [done| | |by apply Hq].
    + destruct (Hp eq_refl) as [H1 H2 H3 H4]. split; try done. by rewrite (proj1 (proj2 K)) in H4.
    + specialize (Hm eq_refl). unfold mount_within in *. by rewrite (kept_spaces w w2) in Hm.
  - intros Hf ws' H. by destruct (Hns Hf ws' H) as (s' & [= <- <-] & _).
Qed.
Lemma kept_meets k ws w w' : kept w w' -> meets k ws w' <-> meets k ws w.
Proof.
  intros K. unfold meets. destruct (parse_repo (ai_uri i)); [done..|]. split; intros (s & H); exists s; by apply (kept_permitted _ _ _ _ _ _ K).
Qed.
End Decision.

(** C6 [registry_access_exact]: A registry request whose credentials are not the platform's own is answered in every case, and
    with 200 exactly when it may pass: its token is a live API key; a request for a repository names a workspace that exists,
    where the key's scopes and its user's current role allow a pull or a push, to which the key is bound if it is bound to one,
    and whose repository is that of the application the key is bound to; a blob is mounted from the same workspace only; and a
    push does not exceed the quota. Calls that fail only ever refuse. What the gateway then asks the registry for is the same
    path in the authorized workspace's own namespace. *)
Theorem registry_access_exact g i us user token w :
  parse_basic (ai_authorization i) = Some (user, token) ->
  token <> rs_platform g ->
  exists w1 us1 a, authorize g i us w = (w1, Ok (us1, a)) /\
    (ar_status a = 200 -> permitted g i us token (ar_ws a) w) /\
    (w_faults w = [] -> forall ws, permitted g i us token ws w -> ar_status a = 200 /\ ar_ws a = ws) /\
    (ar_status a = 200 -> forall repo, parse_repo (ai_uri i) = Repo repo -> repo <> nul ->
       exists x, request_path (ai_uri i) = "/v2/" +:+ x /\ first_segment x = first_segment repo /\
         forall rest, cut "/" x = (first_segment x, rest, true) ->
           gateway_rewrite (ar_namespace a) (request_path (ai_uri i)) = "/v2/" +:+ Registry.namespace (ar_ws a) +:+ "/" +:+ rest).
Proof.
  intros Hb Hp. unfold authorize. rewrite Hb. apply String.eqb_neq in Hp as ->. rewrite andb_false_r.
  destruct (looks_attempt (verify token) (keeping_verify token) w) as (w1 & o & E & K & Ho & Hc). rewrite (bind_run _ _ _ _ _ E).
  destruct o as [k|].
  2:{ eexists _, _, _. split_and!; [done|done| |done]. intros Hf ws (k & Hk & _). specialize (Hc Hf). by rewrite Hk in Hc. }
  specialize (Ho _ eq_refl). assert (Hk : (verify token w).2 = Ok k) by by destruct (verify token w) as [? []]; cbn in *; simplify_eq.
  destruct (authorize_key_exact g i us k w1) as (w2 & us1 & a & E2 & Hok & Hall). exists w2, us1, a. split_and!; [done| | |].
  - intros Ha. exists k. split; [done|]. by apply (kept_meets g i us k (ar_ws a) w w1 K), Hok.
  - intros Hf ws (k' & Hk' & Hm). rewrite Hk in Hk'. injection Hk' as <-. apply Hall; [by apply (kept_faults w)|]. by apply (kept_meets g i us k ws w w1 K).
  - intros Ha repo Hr Hn. destruct (repo_segment _ _ Hr Hn) as (x & Hx & Hs & Hne). exists x. split_and!; [done|done|].
    intros rest Hrest. rewrite Hx, (proj2 (Hok Ha) repo Hr). by apply rewrite_segment.
Qed.

(** ** A concrete push *)

(** A developer's key, made to be used from one address, and its user before and after the account is disabled *)
Definition ci_world : world :=
  (handle_create None demo_quota None 2 (Some 7%N) "ci" ["10.0.0.1"] [scope_deploy] None demo_random
     (demo_team [(1%N, owner_row None); (2%N, Member role_developer None "")])).1.
Definition disabled (u : user) : user :=
  User (u_id u) (u_name u) (u_username u) (u_email u) (u_password u) (u_role u) false (u_suspended_at u) (u_suspended_reason u)
    (u_suspended_until u) (u_auth_source u) (u_kind u) (u_org u) (u_workspace_limit u) (u_membership_limit u) (u_can_create u) (u_signup u).
Definition ci_disabled : world := set_users (alter disabled 2%N) ci_world.
Definition ci_registry : registry_service := RegistryService "plat-secret" (Some [AppRef 4 7 "web" "6f1c"]) None.
Definition ci_push (path : string) : auth_input :=
  AuthInput "Basic dGVhbTptYl8wMDAxMDIwMzA0MDUwNjA3MDgwOTBhMGIwYzBkMGUwZjEwMTExMjEzMTQxNTE2MTcxODE5MWExYjFjMWQxZTFm" "PUT" path.
Definition ci_answer (path : string) (w : world) : option Z := (fun r : usage * auth_result => ar_status r.2) <$> answer (authorize ci_registry (ci_push path) no_usage w).2.
Example push_answers :
  (fun p => ci_answer p ci_world) <$> ["/v2/team/web/manifests/1"; "/v2/ws_7/web/blobs/uploads/x"; "/v2/other/web/manifests/1"; "/v2/_catalog";
                                       "/v2/team/web/blobs/uploads/?mount=sha256:a&from=other/web"] =
  [Some 200; Some 200; Some 403; Some 403; Some 403].
Proof. vm_compute. reflexivity. Qed.
Lemma registry_access_exact_witness :
  ci_answer "/v2/team/web/manifests/1" ci_world = Some 200 /\
  exists ws, permitted ci_registry (ci_push "/v2/team/web/manifests/1") no_usage (plaintext_of demo_random) ws ci_world.
Proof.
  split; [vm_compute; reflexivity|].
  assert (Hb : parse_basic (ai_authorization (ci_push "/v2/team/web/manifests/1")) = Some ("team", plaintext_of demo_random)) by (vm_compute; reflexivity).
  assert (Hp : plaintext_of demo_random <> rs_platform ci_registry) by (vm_compute; discriminate).
  destruct (registry_access_exact ci_registry (ci_push "/v2/team/web/manifests/1") no_usage _ _ ci_world Hb Hp) as (w1 & us1 & a & E & H & _).
  exists (ar_ws a). apply H. assert (Ha : ci_answer "/v2/team/web/manifests/1" ci_world = Some 200) by (vm_compute; reflexivity).
  unfold ci_answer in Ha. rewrite E in Ha. cbn in Ha. by injection Ha.
Defined.

(** The gateway knows neither the caller's address nor whether the account is active: the API refuses this key, the registry
    takes its pushes. *)
Example disabled_user_pushes :
  let h := Http "GET" "/api/v1/workspaces/7/apps" ("Bearer " +:+ plaintext_of demo_random) "" None "203.0.113.9" "7" "" (fun _ => "") in
  ci_answer "/v2/team/web/manifests/1" ci_disabled = Some 200 /\
  (authenticate (fun _ => None) (fun _ _ => "") (fun _ => false) demo_site h ci_disabled).2 = Err ErrForbidden /\
  (authenticate (fun _ => None) (fun _ _ => "") (fun _ => false) demo_site h ci_world).2 = Err ErrForbidden.
Proof. vm_compute. repeat split. Qed.
