(* ===== verification/Housekeeping.v ===== *)
(** * Housekeeping: what a cleanup of a node may take

    [internal/services/housekeeping] (housekeeping.go, reclaim.go, classify.go, apply.go) with the owners of
    [internal/drift]: the report on a node, the dry run of a selection, and its application. What Docker and the database
    answer is a [snapshot], one for each time they are asked again; the labels of the stack's package are [labelling].
    Texts of errors are kept as data.

    Every call of [Housekeeping.apply] is named by its selection and justified by what the node and the records said when it was
    looked for, and with nothing changed in between it is what [Housekeeping.plan_for] listed. *)
From S2P Require Import Prelude GoStrings.
From S2P Require Registry.
#[local] Open Scope Z_scope.
#[local] Open Scope list_scope.

(** ** What Docker and the records say *)

Definition labels := gmap string string.
(** The package of the Docker stack: the value of a label, and what is managed and what is infrastructure *)
Record labelling := Labelling {
  lb_value : labels -> string -> option string; lb_managed : labels -> bool; lb_infra : labels -> bool;
  lb_job : string; lb_app : string; lb_database : string; lb_volume : string; lb_stack : string }.

Record image := Image {
  im_id : string; im_tags : list string; im_digests : list string; im_size : Z; im_shared : Z; im_containers : Z; im_dangling : bool }.
Record container := Container { ct_id : string; ct_names : list string; ct_image : string; ct_state : string; ct_labels : labels }.
Record volume := Volume { vo_name : string; vo_labels : labels }.
Record volume_usage := VolumeUsage { vu_name : string; vu_bytes : Z; vu_refs : Z }.
Record config_object := ConfigObject { co_id : string; co_name : string; co_workspace : string; co_config : string }.
(** The disk usage: the volumes, and the build cache's count, active and reclaimable bytes *)
Record disk_usage := DiskUsage { du_volumes : list volume_usage; du_cache : Z; du_cache_active : Z; du_cache_bytes : Z }.
Record app_row := AppRow { ar_id : N; ar_name : string; ar_alias : string; ar_cluster : N; ar_running : bool; ar_service : bool }.

Inductive lookup := Found | Absent | Failed.
(** [None] is a failed call, in [sn_named], [sn_config] and [sn_swarms] one that is not wired. *)
Record snapshot := Snapshot {
  sn_usage : option disk_usage; sn_images : option (list image); sn_volumes : option (list volume);
  sn_containers : option (list container); sn_configs : option (list config_object);
  sn_refs : list (option (list string)); sn_exists : string -> N -> option bool; sn_named : option (string -> option bool);
  sn_config : option (N -> string -> lookup); sn_apps : option (list app_row);
  sn_swarms : option (N -> option (string -> lookup)); sn_manager : bool; sn_redeploys : bool; sn_find_app : N -> bool }.

(** ** Owners and names: drift.go, classify.go *)

Definition owner_app : string := "app".
Definition owner_database : string := "database".
Definition owner_volume : string := "volume".
Definition owner_stack : string := "stack".
Definition owner_config : string := "config".

(** [parseID] *)
Definition parse_id (s : string) : option N :=
  n ← Registry.parse_uint (trim_space s); if (n =? 0)%N then None else Some n.

Definition swarm_service_label : string := "com.docker.swarm.service.name".
Definition swarm_service_name (l : labels) : string := default "" (l !! swarm_service_label).
(** [isMiabiVolumeName], [isMiabiName] *)
Definition is_miabi_volume_name (name : string) : bool :=
  match cut_prefix "mb-vol-" name with
  | Some rest =>
      match cut "-" rest with
      | (ws, handle, true) => negb (String.eqb handle "") && bool_decide (is_Some (parse_id ws))
      | _ => false
      end
  | None => false
  end.
Definition is_miabi_name (name : string) : bool := has_prefix "mb-" name || has_prefix "miabi_" name || has_prefix "miabi-" name.
Definition container_name (c : container) : string := match ct_names c with n :: _ => trim_prefix "/" n | [] => ct_id c end.

Section Labels.
Context (lb : labelling).

(** The first of some labels that is present decides; its value must be an id. *)
Fixpoint owner_among (kinds : list (string * string)) (l : labels) : option (string * N) :=
  match kinds with
  | [] => None
  | (key, kind) :: kinds =>
      match lb_value lb l key with
      | Some v => pair kind <$> parse_id v
      | None => owner_among kinds l
      end
  end.
(** [OwnerOf], [VolumeOwner] *)
Definition owner_of (l : labels) : option (string * N) :=
  if lb_infra lb l then None
  else if bool_decide (is_Some (lb_value lb l (lb_job lb))) then None
  else owner_among [(lb_app lb, owner_app); (lb_database lb, owner_database); (lb_volume lb, owner_volume); (lb_stack lb, owner_stack)] l.
Definition volume_owner (l : labels) : option (string * N) :=
  if lb_infra lb l then None else owner_among [(lb_volume lb, owner_volume); (lb_database lb, owner_database)] l.

(** [exists] of [NewService]: what cannot be classified exists. *)
Definition owner_exists (sn : snapshot) (kind : string) (id : N) : option bool :=
  if bool_decide (kind ∈ [owner_app; owner_database; owner_volume; owner_stack]) then sn_exists sn kind id else Some true.

(** ** What is unused: reclaim.go *)

(** [referencedImages]: [None] when a source cannot be read; no set when the guard is not wired *)
Definition referenced_images (sources : list (option (list string))) : option (option (gset string)) :=
  match sources with
  | [] => Some None
  | _ => refs ← mapM id sources; Some (Some (list_to_set (List.filter (fun r => negb (String.eqb r "")) (trim_space <$> concat refs))))
  end.
Definition any_referenced (referenced : gset string) (refs : list string) : bool := existsb (fun r => bool_decide (r ∈ referenced)) refs.
(** [unusedImages] *)
Definition unused_image (referenced : gset string) (im : image) : bool :=
  negb (im_dangling im || negb (im_containers im =? 0) || bool_decide (im_tags im = []) || bool_decide (im_digests im = []) ||
        bool_decide (im_id im ∈ referenced) || any_referenced referenced (im_tags im) || any_referenced referenced (im_digests im)).
Definition unused_images (imgs : list image) (referenced : option (gset string)) : list image :=
  match referenced with None => [] | Some r => List.filter (unused_image r) imgs end.
(** [unsharedBytes] *)
Definition unshared_bytes (im : image) : Z :=
  if im_shared im <=? 0 then im_size im else let n := im_size im - im_shared im in if 0 <? n then n else 0.

(** [unusedVolumes]; a name listed twice is the last one. *)
Definition find_volume (vols : list volume) (name : string) : option volume :=
  find_first (fun v => String.eqb (vo_name v) name) (reverse vols).
Fixpoint unused_volumes_from (vols : list volume) (claimed : string -> option bool) (usage : list volume_usage) : option (list volume_usage) :=
  match usage with
  | [] => Some []
  | u :: usage =>
      let skip := unused_volumes_from vols claimed usage in
      if negb (vu_refs u =? 0) then skip
      else
        match find_volume vols (vu_name u) with
        | None => skip
        | Some v =>
            if lb_managed lb (vo_labels v) || lb_infra lb (vo_labels v) || is_miabi_name (vo_name v) then skip
            else held ← claimed (vo_name v); if held : bool then skip else cons u <$> skip
        end
  end.
Definition unused_volumes (vols : list volume) (usage : list volume_usage) (claimed : option (string -> option bool)) : option (list volume_usage) :=
  match claimed with None => Some [] | Some f => unused_volumes_from vols f usage end.

(** [resolveUnused]: [None] is the error of a guard that cannot be evaluated. *)
Definition resolve_unused (sn : snapshot) (usage : list volume_usage) : option (list image * list volume_usage) :=
  referenced ← referenced_images (sn_refs sn);
  let images := match sn_images sn with Some imgs => unused_images imgs referenced | None => [] end in
  match usage with
  | [] => Some (images, [])
  | _ => vols ← sn_volumes sn; volumes ← unused_volumes vols usage (sn_named sn); Some (images, volumes)
  end.

(** ** Drift: housekeeping.go *)

Inductive drift_class := ClassOrphan | ClassMissing | ClassUntracked.
(** [drift.Item]; the action follows from the class. *)
Record drift_item := DriftItem {
  di_class : drift_class; di_kind : string; di_ref : string; di_name : string; di_owner_kind : string; di_owner : N }.
Record drift_summary := DriftSummary { ds_orphans : list drift_item; ds_missing : list drift_item; ds_untracked : list drift_item }.

(** The loop over the containers: orphans and untracked ones, the apps that have a container, the services reported *)
Record scan := Scan { sc_orphans : list drift_item; sc_untracked : list drift_item; sc_live : gset N; sc_services : gset string }.
Definition scan_container (sn : snapshot) (st : scan) (c : container) : option scan :=
  if negb (lb_managed lb (ct_labels c)) then
    Some (Scan (sc_orphans st) (sc_untracked st ++ [DriftItem ClassUntracked "container" (ct_id c) (container_name c) "" 0]) (sc_live st) (sc_services st))
  else
    match owner_of (ct_labels c) with
    | None => Some st
    | Some (kind, id) =>
        let live := if String.eqb kind owner_app then {[id]} ∪ sc_live st else sc_live st in
        there ← owner_exists sn kind id;
        if there : bool then Some (Scan (sc_orphans st) (sc_untracked st) live (sc_services st))
        else
          let svc := swarm_service_name (ct_labels c) in
          if String.eqb svc "" then
            Some (Scan (sc_orphans st ++ [DriftItem ClassOrphan "container" (ct_id c) (container_name c) kind id]) (sc_untracked st) live (sc_services st))
          else if bool_decide (svc ∈ sc_services st) then Some (Scan (sc_orphans st) (sc_untracked st) live (sc_services st))
          else Some (Scan (sc_orphans st ++ [DriftItem ClassOrphan "service" svc svc kind id]) (sc_untracked st) live ({[svc]} ∪ sc_services st))
    end.
Fixpoint scan_containers (sn : snapshot) (st : scan) (l : list container) : option scan :=
  match l with [] => Some st | c :: l => st ← scan_container sn st c; scan_containers sn st l end.

(** [unlabelledVolumeOrphan] and the loop over the volumes *)
Definition unlabelled_volume_orphan (sn : snapshot) (name : string) : option bool :=
  match sn_named sn with
  | None => Some false
  | Some named => if is_miabi_volume_name name then negb <$> named name else Some false
  end.
Definition volume_orphan (sn : snapshot) (v : volume) : option (list drift_item) :=
  if lb_infra lb (vo_labels v) then Some []
  else
    match volume_owner (vo_labels v) with
    | None => o ← unlabelled_volume_orphan sn (vo_name v);
              Some (if o : bool then [DriftItem ClassOrphan "volume" (vo_name v) (vo_name v) owner_volume 0] else [])
    | Some (kind, id) => there ← owner_exists sn kind id;
                         Some (if there : bool then [] else [DriftItem ClassOrphan "volume" (vo_name v) (vo_name v) kind id])
    end.
(** [configExists]: a lookup that fails reads as no row. *)
Definition config_exists (sn : snapshot) (ws : N) (name : string) : bool :=
  match sn_config sn with None => true | Some get => match get ws name with Found => true | _ => false end end.
Definition config_orphan (sn : snapshot) (c : config_object) : list drift_item :=
  if String.eqb (co_config c) "" || String.eqb (co_workspace c) "" then []
  else match parse_id (co_workspace c) with
       | None => []
       | Some ws => if config_exists sn ws (co_config c) then [] else [DriftItem ClassOrphan "config" (co_id c) (co_name c) owner_config 0]
       end.

(** [serviceMissing]; [AppAlias] of services/node *)
Definition app_alias (a : app_row) : string :=
  if String.eqb (ar_alias a) "" then "mb-app-" +:+ itoa (Z.of_N (ar_id a)) else ar_alias a.
Definition service_missing (sn : snapshot) (a : app_row) : bool :=
  match sn_swarms sn with
  | None => false
  | Some managers => match managers (ar_cluster a) with
                     | Some inspect => match inspect (app_alias a) with Absent => true | _ => false end
                     | None => false
                     end
  end.
Definition app_missing (sn : snapshot) (live : gset N) (a : app_row) : list drift_item :=
  let item (kind : string) := [DriftItem ClassMissing kind ("app:" +:+ itoa (Z.of_N (ar_id a))) (ar_name a) owner_app (ar_id a)] in
  if negb (ar_running a) then []
  else if ar_service a then (if service_missing sn a then item "service" else [])
  else if bool_decide (ar_id a ∈ live) then [] else item "container".

(** [analyzeDrift]: [None] is an error. *)
Definition analyze_drift (sn : snapshot) : option drift_summary :=
  containers ← sn_containers sn;
  volumes ← sn_volumes sn;
  st ← scan_containers sn (Scan [] [] ∅ ∅) containers;
  vols ← mapM (volume_orphan sn) volumes;
  let configs := match sn_configs sn with Some l => concat (config_orphan sn <$> l) | None => [] end in
  apps ← sn_apps sn;
  Some (DriftSummary (sc_orphans st ++ concat vols ++ configs) (concat (app_missing sn (sc_live st) <$> apps)) (sc_untracked st)).
End Labels.

(** ** The report: [Analyze] *)

Record category := Category { ca_count : Z; ca_bytes : Z }.
Definition none_of : category := Category 0 0.
Definition add_to (bytes : Z) (c : category) : category := Category (ca_count c + 1) (wrap64 (ca_bytes c + bytes)).
Definition tally {A} (bytes : A -> Z) (l : list A) : category := foldl (fun c x => add_to (bytes x) c) none_of l.
Record breakdown := Breakdown { br_dangling : category; br_cache : category; br_images : category; br_volumes : category }.

Section Service.
Context (lb : labelling).

(** [reclaimable]: measured at one snapshot, the guard evaluated at the next *)
Definition reclaimable (s0 s1 : snapshot) : option (breakdown * list image * list volume_usage) :=
  let usage := match sn_usage s0 with Some du => du_volumes du | None => [] end in
  let cache := match sn_usage s0 with Some du => Category (du_cache du - du_cache_active du) (du_cache_bytes du) | None => none_of end in
  let dangling := match sn_images s0 with Some imgs => tally unshared_bytes (List.filter im_dangling imgs) | None => none_of end in
  unused ← resolve_unused lb s1 usage;
  Some (Breakdown dangling cache (tally unshared_bytes unused.1) (tally vu_bytes unused.2), unused.1, unused.2).
(** [analyze] *)
Definition analyze (s0 s1 s2 : snapshot) : option (breakdown * list image * list volume_usage * drift_summary) :=
  r ← reclaimable s0 s1; d ← analyze_drift lb s2; Some (r, d).

(** ** The dry run: apply.go *)

(** [Selection] and its parts *)
Record resource_ref := ResourceRef { rr_kind : string; rr_ref : string }.
Record selection := Selection {
  se_dangling : bool; se_cache : bool; se_images : bool; se_volumes : bool; se_orphans : list resource_ref; se_missing : list resource_ref }.
(** [refKey] and [orphanIndex]: of two items with one key, the last *)
Definition ref_key (kind ref : string) : string := kind +:+ String "000" ref.
Definition orphan_index (items : list drift_item) : gmap string drift_item :=
  foldl (fun m i => <[ref_key (di_kind i) (di_ref i) := i]> m) ∅ items.
(** What a selection names that a fresh analysis confirms *)
Definition confirmed (items : list drift_item) (refs : list resource_ref) : list drift_item :=
  omap (fun r => orphan_index items !! ref_key (rr_kind r) (rr_ref r)) refs.
Definition image_name (im : image) : string := match im_tags im with t :: _ => t | [] => im_id im end.

(** [Plan] *)
Record plan := Plan {
  pl_dangling : category; pl_cache : category; pl_images : category; pl_volumes : category;
  pl_image_refs : list string; pl_volume_names : list string; pl_orphans : list drift_item; pl_missing : list drift_item; pl_bytes : Z }.
Definition picked (b : bool) (c : category) : category := if b then c else none_of.
Definition plan_for (s0 s1 s2 : snapshot) (sel : selection) : option plan :=
  a ← analyze s0 s1 s2;
  let '(rep, imgs, vols, drift) := a in
  let bytes (b : bool) (c : category) (n : Z) := if b then wrap64 (n + ca_bytes c) else n in
  Some (Plan (picked (se_dangling sel) (br_dangling rep)) (picked (se_cache sel) (br_cache rep))
    (picked (se_images sel) (br_images rep)) (picked (se_volumes sel) (br_volumes rep))
    (if se_images sel then image_name <$> imgs else []) (if se_volumes sel then vu_name <$> vols else [])
    (confirmed (ds_orphans drift) (se_orphans sel)) (confirmed (ds_missing drift) (se_missing sel))
    (bytes (se_volumes sel) (br_volumes rep) (bytes (se_images sel) (br_images rep)
      (bytes (se_cache sel) (br_cache rep) (bytes (se_dangling sel) (br_dangling rep) 0))))).

(** ** Its application *)

Inductive removal :=
| PruneDangling | PruneCache
| RemoveImage (id : string) (force : bool) | RemoveVolume (name : string) (force : bool) | RemoveContainer (id : string) (force : bool)
| RemoveService (name : string) | RemoveConfig (id : string) | Redeploy (app : N).
Inductive hk_err := ErrCall (c : removal) | ErrMeasure | ErrGuard | ErrImagesUnavailable | ErrRedeployUnavailable | ErrRecheck | ErrApp (name : string)
  | ErrNoManager (service : string) | ErrKind (kind : string).
Record outcome := Outcome {
  oc_images : Z; oc_image_bytes : Z; oc_cache_bytes : Z; oc_volumes : Z; oc_volume_bytes : Z;
  oc_orphans : list drift_item; oc_redeployed : list drift_item; oc_errors : list hk_err }.
Definition nothing_done : outcome := Outcome 0 0 0 0 0 [] [] [].
Definition with_error (e : hk_err) (o : outcome) : outcome :=
  Outcome (oc_images o) (oc_image_bytes o) (oc_cache_bytes o) (oc_volumes o) (oc_volume_bytes o) (oc_orphans o) (oc_redeployed o) (oc_errors o ++ [e]).
Definition image_gone (bytes : Z) (o : outcome) : outcome :=
  Outcome (oc_images o + 1) (wrap64 (oc_image_bytes o + bytes)) (oc_cache_bytes o) (oc_volumes o) (oc_volume_bytes o) (oc_orphans o) (oc_redeployed o) (oc_errors o).
Definition volume_gone (bytes : Z) (o : outcome) : outcome :=
  Outcome (oc_images o) (oc_image_bytes o) (oc_cache_bytes o) (oc_volumes o + 1) (wrap64 (oc_volume_bytes o + bytes)) (oc_orphans o) (oc_redeployed o) (oc_errors o).
Definition orphan_gone (i : drift_item) (o : outcome) : outcome :=
  Outcome (oc_images o) (oc_image_bytes o) (oc_cache_bytes o) (oc_volumes o) (oc_volume_bytes o) (oc_orphans o ++ [i]) (oc_redeployed o) (oc_errors o).
Definition redeployed (i : drift_item) (o : outcome) : outcome :=
  Outcome (oc_images o) (oc_image_bytes o) (oc_cache_bytes o) (oc_volumes o) (oc_volume_bytes o) (oc_orphans o) (oc_redeployed o ++ [i]) (oc_errors o).

(** The calls made so far, and what they come to; a call's success may depend on those before it. *)
Definition run : Type := list removal * outcome.
Context (answer : list removal -> removal -> bool) (pruned : removal -> Z * Z).
Definition call (c : removal) (good : outcome -> outcome) (st : run) : run :=
  (st.1 ++ [c], if answer st.1 c then good st.2 else with_error (ErrCall c) st.2).

(** [reclaimUnused] *)
Definition reclaim_unused (sn : snapshot) (sel : selection) (st : run) : run :=
  match sn_usage sn with
  | None => (st.1, with_error ErrMeasure st.2)
  | Some du =>
      match resolve_unused lb sn (du_volumes du) with
      | None => (st.1, with_error ErrGuard st.2)
      | Some (images, volumes) =>
          let st := if se_images sel
                    then foldl (fun st im => call (RemoveImage (im_id im) false) (image_gone (unshared_bytes im)) st)
                           (if bool_decide (sn_refs sn = []) then (st.1, with_error ErrImagesUnavailable st.2) else st) images
                    else st in
          if se_volumes sel then foldl (fun st v => call (RemoveVolume (vu_name v) false) (volume_gone (vu_bytes v)) st) st volumes else st
      end
  end.
(** [redeployMissing] *)
Definition redeploy_one (sn : snapshot) (st : run) (i : drift_item) : run :=
  if sn_find_app sn (di_owner i) then call (Redeploy (di_owner i)) (redeployed i) st else (st.1, with_error (ErrApp (di_name i)) st.2).
Definition redeploy_missing (sn : snapshot) (sel : selection) (st : run) : run :=
  if negb (sn_redeploys sn) then (st.1, with_error ErrRedeployUnavailable st.2)
  else
    match analyze_drift lb sn with
    | None => (st.1, with_error ErrRecheck st.2)
    | Some d => foldl (redeploy_one sn) st (confirmed (ds_missing d) (se_missing sel))
    end.
(** [removeOrphan]: the call it makes *)
Definition orphan_call (sn : snapshot) (i : drift_item) : result hk_err removal :=
  if String.eqb (di_kind i) "container" then Ok (RemoveContainer (di_ref i) true)
  else if String.eqb (di_kind i) "service" then (if sn_manager sn then Ok (RemoveService (di_ref i)) else Err (ErrNoManager (di_ref i)))
  else if String.eqb (di_kind i) "volume" then Ok (RemoveVolume (di_ref i) true)
  else if String.eqb (di_kind i) "config" then Ok (RemoveConfig (di_ref i))
  else Err (ErrKind (di_kind i)).
Definition remove_orphan (sn : snapshot) (st : run) (i : drift_item) : run :=
  match orphan_call sn i with Ok c => call c (orphan_gone i) st | Err e => (st.1, with_error e st.2) end.
(** [removalOrder], and the stable sort by it *)
Definition removal_order (kind : string) : nat :=
  if String.eqb kind "service" then 0 else if String.eqb kind "container" then 1 else if String.eqb kind "volume" then 2 else 3.
Definition by_removal_order (items : list drift_item) : list drift_item :=
  concat ((fun n => List.filter (fun i => removal_order (di_kind i) =? n)%nat items) <$> seq 0 4).

Definition prune (b : bool) (c : removal) (good : Z * Z -> outcome -> outcome) (st : run) : run := if b then call c (good (pruned c)) st else st.
(** [Apply]: the unused, the missing and the orphans are each looked for afresh; [None] is an error of the last look. *)
Definition apply (s1 s2 s3 : snapshot) (sel : selection) : list removal * option outcome :=
  let st := ([], nothing_done) in
  let st := prune (se_dangling sel) PruneDangling (fun r o =>
    Outcome r.1 r.2 (oc_cache_bytes o) (oc_volumes o) (oc_volume_bytes o) (oc_orphans o) (oc_redeployed o) (oc_errors o)) st in
  let st := prune (se_cache sel) PruneCache (fun r o =>
    Outcome (oc_images o) (oc_image_bytes o) r.2 (oc_volumes o) (oc_volume_bytes o) (oc_orphans o) (oc_redeployed o) (oc_errors o)) st in
  let st := if se_images sel || se_volumes sel then reclaim_unused s1 sel st else st in
  let st := if bool_decide (se_missing sel = []) then st else redeploy_missing s2 sel st in
  if bool_decide (se_orphans sel = []) then (st.1, Some st.2)
  else
    match analyze_drift lb s3 with
    | None => (st.1, None)
    | Some d => let st := foldl (remove_orphan s3) st (by_removal_order (confirmed (ds_orphans d) (se_orphans sel))) in (st.1, Some st.2)
    end.
End Service.

(** * What a cleanup takes, and that it is what the dry run showed *)

Section Calls.
Context (lb : labelling) (answer : list removal -> removal -> bool) (pruned : removal -> Z * Z).

(** ** The calls of an application, whatever they come to *)

Definition unused_calls (sn : snapshot) (sel : selection) : list removal :=
  match sn_usage sn ≫= (fun du => resolve_unused lb sn (du_volumes du)) with
  | Some (images, volumes) =>
      (if se_images sel then (fun im => RemoveImage (im_id im) false) <$> images else []) ++
      (if se_volumes sel then (fun v => RemoveVolume (vu_name v) false) <$> volumes else [])
  | None => []
  end.
Definition missing_items (sn : snapshot) (sel : selection) : list drift_item :=
  match analyze_drift lb sn with Some d => confirmed (ds_missing d) (se_missing sel) | None => [] end.
Definition orphan_items (sn : snapshot) (sel : selection) : list drift_item :=
  match analyze_drift lb sn with Some d => by_removal_order (confirmed (ds_orphans d) (se_orphans sel)) | None => [] end.
Definition redeploy_calls (sn : snapshot) (sel : selection) : list removal :=
  if sn_redeploys sn then (fun i => Redeploy (di_owner i)) <$> List.filter (fun i => sn_find_app sn (di_owner i)) (missing_items sn sel) else [].
Definition orphan_calls (sn : snapshot) (items : list drift_item) : list removal :=
  omap (fun i => match orphan_call sn i with Ok c => Some c | Err _ => None end) items.
Definition prunes (sel : selection) : list removal :=
  (if se_dangling sel then [PruneDangling] else []) ++ (if se_cache sel then [PruneCache] else []).

Lemma calls_map {A} (f : run -> A -> run) (c : A -> removal) (l : list A) st :
  (forall st x, (f st x).1 = st.1 ++ [c x]) -> (foldl f st l).1 = st.1 ++ (c <$> l).
Proof.
  intros Hf. revert st. induction l as [|x l IH]; intros st; cbn; [by rewrite app_nil_r|]. rewrite IH, Hf. by rewrite <- (assoc_L (++)).
Qed.
Lemma calls_omap {A} (f : run -> A -> run) (c : A -> option removal) (l : list A) st :
  (forall st x, (f st x).1 = st.1 ++ option_list (c x)) -> (foldl f st l).1 = st.1 ++ omap c l.
Proof.
  intros Hf. revert st. induction l as [|x l IH]; intros st; cbn; [by rewrite app_nil_r|]. rewrite IH, Hf, <- (assoc_L (++)).
  by destruct (c x).
Qed.
Lemma reclaim_calls sn sel st : (reclaim_unused lb answer sn sel st).1 = st.1 ++ unused_calls sn sel.
Proof.
  unfold reclaim_unused, unused_calls. destruct (sn_usage sn) as [du|]; cbn; [|by rewrite app_nil_r].
  destruct (resolve_unused lb sn (du_volumes du)) as [[images volumes]|]; cbn; [|by rewrite app_nil_r].
  set (st1 := if se_images sel then foldl _ _ images else st).
  assert (H1 : st1.1 = st.1 ++ (if se_images sel then (fun im => RemoveImage (im_id im) false) <$> images else [])).
  { subst st1. destruct (se_images sel); [|by rewrite app_nil_r]. erewrite calls_map; [|by intros]. by case_bool_decide. }
  rewrite (assoc_L (++)), <- H1. destruct (se_volumes sel); [|by rewrite app_nil_r]. by erewrite calls_map; [|by intros].
Qed.
Lemma missing_calls sn sel st : (redeploy_missing lb answer sn sel st).1 = st.1 ++ redeploy_calls sn sel.
Proof.
  unfold redeploy_missing, redeploy_calls, missing_items. destruct (sn_redeploys sn); cbn; [|by rewrite app_nil_r].
  destruct (analyze_drift lb sn) as [d|]; cbn; [|by rewrite app_nil_r].
  erewrite (calls_omap _ (fun i => if sn_find_app sn (di_owner i) then Some (Redeploy (di_owner i)) else None)).
  - f_equal. induction (confirmed _ _) as [|i l IH]; [done|]. cbn. destruct (sn_find_app sn (di_owner i)); cbn; by rewrite IH.
  - intros st' i. unfold redeploy_one. destruct (sn_find_app _ _); cbn; [done|by rewrite app_nil_r].
Qed.
Lemma confirmed_nil items : confirmed items [] = []. Proof. done. Qed.
Lemma apply_calls s1 s2 s3 sel :
  (apply lb answer pruned s1 s2 s3 sel).1 =
  prunes sel ++ (if se_images sel || se_volumes sel then unused_calls s1 sel else []) ++
  (if bool_decide (se_missing sel = []) then [] else redeploy_calls s2 sel) ++ orphan_calls s3 (orphan_items s3 sel).
Proof.
  unfold apply. cbv zeta. set (st1 := prune answer pruned (se_cache sel) PruneCache _ _).
  assert (H1 : st1.1 = prunes sel).
  { subst st1. unfold prune, prunes. by destruct (se_dangling sel), (se_cache sel). }
  set (st2 := if se_images sel || se_volumes sel then reclaim_unused lb answer s1 sel st1 else st1).
  assert (H2 : st2.1 = prunes sel ++ (if se_images sel || se_volumes sel then unused_calls s1 sel else [])).
  { subst st2. destruct (_ || _); [|by rewrite app_nil_r]. by rewrite reclaim_calls, H1. }
  set (st3 := if bool_decide (se_missing sel = []) then st2 else redeploy_missing lb answer s2 sel st2).
  assert (H3 : st3.1 = st2.1 ++ (if bool_decide (se_missing sel = []) then [] else redeploy_calls s2 sel)).
  { subst st3. case_bool_decide; [by rewrite app_nil_r|]. by rewrite missing_calls. }
  rewrite (assoc_L (++)), <- H2, (assoc_L (++)), <- H3. unfold orphan_items, orphan_calls. clearbody st3. destruct (bool_decide_reflect (se_orphans sel = [])) as [Ho|Ho].
  { rewrite Ho. destruct (analyze_drift lb s3); cbn; by rewrite app_nil_r. }
  destruct (analyze_drift lb s3) as [d|]; cbn [fst]; [|by rewrite app_nil_r].
  apply calls_omap. intros st i. unfold remove_orphan. destruct (orphan_call s3 i); cbn; [done|by rewrite app_nil_r].
Qed.

(** ** What justifies a call *)

(** No record names the image: every source of references was read, and none of its references is the image's id, tag or digest. *)
Definition unnamed (sn : snapshot) (im : image) : Prop :=
  sn_refs sn <> [] /\ forall src, src ∈ sn_refs sn -> exists refs, src = Some refs /\
    forall r, r ∈ refs -> trim_space r <> "" -> trim_space r ∉ im_id im :: im_tags im ++ im_digests im.
Definition image_free (sn : snapshot) (id : string) : Prop := exists imgs im,
  sn_images sn = Some imgs /\ im ∈ imgs /\ im_id im = id /\ im_dangling im = false /\ im_containers im = 0 /\ im_digests im <> [] /\ unnamed sn im.
Definition volume_free (sn : snapshot) (name : string) : Prop := exists vols v named,
  sn_volumes sn = Some vols /\ v ∈ vols /\ vo_name v = name /\ lb_managed lb (vo_labels v) = false /\ lb_infra lb (vo_labels v) = false /\
  is_miabi_name name = false /\ sn_named sn = Some named /\ named name = Some false.
Definition volume_idle (sn : snapshot) (name : string) : Prop := exists du u,
  sn_usage sn = Some du /\ u ∈ du_volumes du /\ vu_name u = name /\ vu_refs u = 0.
(** The record a container or volume belongs to is gone. *)
Definition gone_owner (sn : snapshot) (o : option (string * N)) : Prop := exists kind id, o = Some (kind, id) /\ owner_exists sn kind id = Some false.
Definition container_orphan (sn : snapshot) (ok : container -> Prop) : Prop := exists l c,
  sn_containers sn = Some l /\ c ∈ l /\ lb_managed lb (ct_labels c) = true /\ gone_owner sn (owner_of lb (ct_labels c)) /\ ok c.
Definition volume_lost (sn : snapshot) (name : string) : Prop := exists l v,
  sn_volumes sn = Some l /\ v ∈ l /\ vo_name v = name /\ lb_infra lb (vo_labels v) = false /\
  (gone_owner sn (volume_owner lb (vo_labels v)) \/
   (volume_owner lb (vo_labels v) = None /\ is_miabi_volume_name name = true /\ exists named, sn_named sn = Some named /\ named name = Some false)).
(** A config no row was found for; see [failed_lookup_removes_config]. *)
Definition config_lost (sn : snapshot) (ref : string) : Prop := exists l c ws get,
  sn_configs sn = Some l /\ c ∈ l /\ co_id c = ref /\ parse_id (co_workspace c) = Some ws /\ sn_config sn = Some get /\ get ws (co_config c) <> Found.
Definition orphan_ok (sn : snapshot) (i : drift_item) : Prop :=
  (di_kind i = "container" /\ container_orphan sn (fun c => ct_id c = di_ref i)) \/
  (di_kind i = "service" /\ container_orphan sn (fun c => swarm_service_name (ct_labels c) = di_ref i /\ di_ref i <> "")) \/
  (di_kind i = "volume" /\ volume_lost sn (di_ref i)) \/
  (di_kind i = "config" /\ config_lost sn (di_ref i)).
(** The application should run, and no container is its. *)
Definition app_down (sn : snapshot) (id : N) : Prop := exists apps a,
  sn_apps sn = Some apps /\ a ∈ apps /\ ar_id a = id /\ ar_running a = true /\
  if ar_service a then exists ms inspect, sn_swarms sn = Some ms /\ ms (ar_cluster a) = Some inspect /\ inspect (app_alias a) = Absent
  else forall l c, sn_containers sn = Some l -> c ∈ l -> lb_managed lb (ct_labels c) = true -> owner_of lb (ct_labels c) <> Some (owner_app, id).

Lemma mapM_ids (l : list (option (list string))) r : mapM id l = Some r -> forall src, src ∈ l -> exists x, src = Some x /\ x ∈ r.
Proof.
  intros Hm src Hin. apply mapM_Some in Hm. induction Hm as [|x y l r Hx Hl IH]; [by apply elem_of_nil in Hin|].
  apply elem_of_cons in Hin as [->|Hin]; [exists y; split; [done|by left]|]. destruct (IH Hin) as (z & ? & ?). exists z. split; [done|by right].
Qed.
Lemma any_referenced_in r refs x : x ∈ refs -> x ∈ r -> any_referenced r refs = true.
Proof. intros Hx Hr. apply existsb_exists. exists x. split; [by apply list_elem_of_In|by apply bool_decide_eq_true]. Qed.
Lemma unused_image_ok sn usage imgs vols im :
  resolve_unused lb sn usage = Some (imgs, vols) -> im ∈ imgs -> image_free sn (im_id im).
Proof.
  unfold resolve_unused. destruct (referenced_images (sn_refs sn)) as [ref|] eqn:Hr; cbn; [|done]. intros H Hin.
  assert (Him : exists l r, sn_images sn = Some l /\ im ∈ l /\ ref = Some r /\ unused_image r im = true).
  { assert (Hi : im ∈ match sn_images sn with Some l => unused_images l ref | None => [] end).
    { destruct usage; [by injection H as <- _|]. destruct (sn_volumes sn); cbn in H; [|done].
      destruct (unused_volumes _ _ _); cbn in H; [by injection H as <- _|done]. }
    destruct (sn_images sn) as [l|]; [|by apply elem_of_nil in Hi]. unfold unused_images in Hi. destruct ref as [r|]; [|by apply elem_of_nil in Hi].
    apply elem_of_bfilter in Hi as [Hi Hu]. by exists l, r. }
  destruct Him as (l & r & Hl & Hi & -> & Hu). unfold unused_image in Hu. apply negb_true_iff in Hu.
  repeat match goal with H : _ || _ = false |- _ => apply orb_false_iff in H as [? ?] end.
  exists l, im. do 4 (split; [done|]). split; [by apply Z.eqb_eq, negb_false_iff|]. split; [by eapply bool_decide_eq_false_1|].
  unfold referenced_images in Hr. destruct (sn_refs sn) as [|s0 ss] eqn:Hs; [done|]. split; [by rewrite Hs|].
  rewrite Hs. destruct (mapM id (s0 :: ss)) as [all|] eqn:Hm; cbn in Hr; [|done]. injection Hr as <-.
  intros src Hsrc. destruct (mapM_ids _ _ Hm src Hsrc) as (refs & -> & Hrefs). exists refs. split; [done|]. intros x Hx Hne Hin'.
  assert (Hmem : trim_space x ∈ (list_to_set (List.filter (fun r => negb (String.eqb r "")) (trim_space <$> concat all)) : gset string)).
  { apply elem_of_list_to_set, elem_of_bfilter. split.
    - apply list_elem_of_fmap. exists x. split; [done|]. apply list_elem_of_In, in_concat. exists refs. by split; apply list_elem_of_In.
    - by apply negb_true_iff, String.eqb_neq. }
  apply elem_of_cons in Hin' as [E|[Ht|Hd]%elem_of_app].
  - rewrite E in Hmem. by rewrite bool_decide_true in *.
  - by rewrite (any_referenced_in _ (im_tags im) _ Ht Hmem) in *.
  - by rewrite (any_referenced_in _ (im_digests im) _ Hd Hmem) in *.
Qed.
Lemma unused_volume_ok sn usage imgs vols u :
  resolve_unused lb sn usage = Some (imgs, vols) -> u ∈ vols -> volume_free sn (vu_name u) /\ u ∈ usage /\ vu_refs u = 0.
Proof.
  unfold resolve_unused. destruct (referenced_images _) as [ref|]; cbn; [|done]. intros H Hin.
  destruct usage as [|u0 us]; [injection H as _ <-; by apply elem_of_nil in Hin|]. set (l := u0 :: us) in *. clearbody l.
  destruct (sn_volumes sn) as [all|] eqn:Hall; cbn in H; [|done]. destruct (unused_volumes lb all l (sn_named sn)) as [vs|] eqn:Hv; cbn in H; [|done].
  injection H as _ <-. unfold unused_volumes in Hv. destruct (sn_named sn) as [named|] eqn:Hn; [|injection Hv as <-; by apply elem_of_nil in Hin].
  revert vs Hv Hin. induction l as [|x l IH]; intros vs; cbn; [intros [= <-] H; by apply elem_of_nil in H|].
  assert (Hskip : unused_volumes_from lb all named l = Some vs -> u ∈ vs -> volume_free sn (vu_name u) /\ u ∈ x :: l /\ vu_refs u = 0).
  { intros H1 H2. destruct (IH vs H1 H2) as (? & ? & ?). split_and!; [done|by right|done]. }
  destruct (Z.eqb_spec (vu_refs x) 0) as [Hz|_]; cbn [negb]; [|done]. destruct (find_volume all (vu_name x)) as [v|] eqn:Hf; [|done].
  destruct (lb_managed lb (vo_labels v) || lb_infra lb (vo_labels v) || is_miabi_name (vo_name v)) eqn:Hm; [done|].
  destruct (named (vo_name v)) as [[]|] eqn:Hh; cbn; [done| |done].
  destruct (unused_volumes_from lb all named l) as [rest|]; cbn; [|done]. intros [= <-] [->|Hin]%elem_of_cons;
    [|destruct (IH rest eq_refl Hin) as (? & ? & ?); split_and!; [done|by right|done]].
  split; [|split; [by left|done]].
  unfold find_volume in Hf. apply find_first_some in Hf as [Hv Heq%String.eqb_eq]. rewrite elem_of_reverse in Hv.
  apply orb_false_iff in Hm as [[Hm1 Hm2]%orb_false_iff Hm3]. exists all, v, named. rewrite Heq in *. by repeat split.
Qed.

(** *** The drift of a node *)

Definition container_item (sn : snapshot) (c : container) (i : drift_item) : Prop :=
  lb_managed lb (ct_labels c) = true /\ gone_owner sn (owner_of lb (ct_labels c)) /\
  ((di_kind i = "container" /\ ct_id c = di_ref i) \/ (di_kind i = "service" /\ swarm_service_name (ct_labels c) = di_ref i /\ di_ref i <> "")).
Lemma scan_container_ok sn st c st' :
  scan_container lb sn st c = Some st' ->
  (forall i, i ∈ sc_orphans st' -> i ∈ sc_orphans st \/ container_item sn c i) /\ sc_live st ⊆ sc_live st' /\
  (lb_managed lb (ct_labels c) = true -> forall id, owner_of lb (ct_labels c) = Some (owner_app, id) -> id ∈ sc_live st').
Proof.
  unfold scan_container. destruct (lb_managed lb (ct_labels c)) eqn:Hm; cbn [negb].
  2:{ intros [= <-]. cbn. split_and!; [by left|done|done]. }
  destruct (owner_of lb (ct_labels c)) as [[kind id]|] eqn:Ho; [|intros [= <-]; split_and!; [by left|done|done]].
  set (live := if String.eqb kind owner_app then _ else _).
  assert (Hl : sc_live st ⊆ live /\ forall id', Some (kind, id) = Some (owner_app, id') -> id' ∈ live).
  { subst live. split; [destruct (String.eqb kind owner_app); set_solver|]. intros id' [= -> ->]. rewrite String.eqb_refl. set_solver. }
  destruct (owner_exists sn kind id) as [[]|] eqn:He; cbn; [|destruct (String.eqb_spec (swarm_service_name (ct_labels c)) "") as [Hs|Hs]|done].
  - intros [= <-]. cbn. split_and!; [by left|apply Hl|intros _; apply Hl].
  - intros [= <-]. cbn. split_and!; [|apply Hl|intros _; apply Hl]. intros i [Hi|Hi%list_elem_of_singleton]%elem_of_app; [by left|right]. subst i.
    split; [done|]. split; [by exists kind, id|by left].
  - case_bool_decide; intros [= <-]; cbn; (split_and!; [|apply Hl|intros _; apply Hl]); [by left|].
    intros i [Hi|Hi%list_elem_of_singleton]%elem_of_app; [by left|right]. subst i. split; [done|]. split; [by exists kind, id|by right].
Qed.
Lemma scan_containers_ok sn l : forall st st',
  scan_containers lb sn st l = Some st' ->
  (forall i, i ∈ sc_orphans st' -> i ∈ sc_orphans st \/ exists c, c ∈ l /\ container_item sn c i) /\ sc_live st ⊆ sc_live st' /\
  (forall c, c ∈ l -> lb_managed lb (ct_labels c) = true -> forall id, owner_of lb (ct_labels c) = Some (owner_app, id) -> id ∈ sc_live st').
Proof.
  induction l as [|c l IH]; intros st st'; cbn.
  - intros [= <-]. split_and!; [by left|done|]. intros c H. by apply elem_of_nil in H.
  - destruct (scan_container lb sn st c) as [st1|] eqn:Hc; cbn; [|done]. intros H.
    destruct (scan_container_ok _ _ _ _ Hc) as (O1 & L1 & M1). destruct (IH _ _ H) as (O2 & L2 & M2). split_and!.
    + intros i [Hi|(x & Hx & Hi)]%O2; [|right; exists x; split; [by right|done]].
      destruct (O1 i Hi) as [Hi'|Hi']; [by left|]. right. exists c. split; [by left|done].
    + by etrans.
    + intros x [->|Hx]%elem_of_cons Hm id Hid; [by apply L2, (M1 Hm)|by apply (M2 x)].
Qed.
Lemma volume_orphan_ok sn l v items i :
  sn_volumes sn = Some l -> v ∈ l -> volume_orphan lb sn v = Some items -> i ∈ items -> di_kind i = "volume" /\ volume_lost sn (di_ref i).
Proof.
  intros Hl Hv. unfold volume_orphan. destruct (lb_infra lb (vo_labels v)) eqn:Hi; [intros [= <-] H; by apply elem_of_nil in H|].
  destruct (volume_owner lb (vo_labels v)) as [[kind id]|] eqn:Ho.
  - destruct (owner_exists sn kind id) as [[]|] eqn:He; cbn; intros [= <-] H; [by apply elem_of_nil in H|]. apply list_elem_of_singleton in H as ->.
    split; [done|]. exists l, v. do 4 (split; [done|]). left. by exists kind, id.
  - unfold unlabelled_volume_orphan. destruct (sn_named sn) as [named|] eqn:Hn; cbn; [|intros [= <-] H; by apply elem_of_nil in H].
    destruct (is_miabi_volume_name (vo_name v)) eqn:Hm; cbn; [|intros [= <-] H; by apply elem_of_nil in H].
    destruct (named (vo_name v)) as [[]|] eqn:Hc; cbn; intros [= <-] H; [by apply elem_of_nil in H|]. apply list_elem_of_singleton in H as ->.
    split; [done|]. exists l, v. do 4 (split; [done|]). right. split_and!; [done|done|by exists named].
Qed.
Lemma config_orphan_ok sn l c i : sn_configs sn = Some l -> c ∈ l -> i ∈ config_orphan sn c -> di_kind i = "config" /\ config_lost sn (di_ref i).
Proof.
  intros Hl Hc. unfold config_orphan. destruct (_ || _); [intros H; by apply elem_of_nil in H|].
  destruct (parse_id (co_workspace c)) as [ws|] eqn:Hw; [|intros H; by apply elem_of_nil in H].
  destruct (config_exists sn ws (co_config c)) eqn:He; [intros H; by apply elem_of_nil in H|]. intros ->%list_elem_of_singleton.
  split; [done|]. unfold config_exists in He. destruct (sn_config sn) as [get|] eqn:Hg; [|done]. exists l, c, ws, get.
  split_and!; try done. intros Hf. by rewrite Hf in He.
Qed.
Lemma drift_parts sn d : analyze_drift lb sn = Some d -> exists l vs st items apps,
  sn_containers sn = Some l /\ sn_volumes sn = Some vs /\ scan_containers lb sn (Scan [] [] ∅ ∅) l = Some st /\
  mapM (volume_orphan lb sn) vs = Some items /\ sn_apps sn = Some apps /\
  d = DriftSummary (sc_orphans st ++ concat items ++ match sn_configs sn with Some l => concat (config_orphan sn <$> l) | None => [] end)
        (concat (app_missing sn (sc_live st) <$> apps)) (sc_untracked st).
Proof.
  unfold analyze_drift. destruct (sn_containers sn) as [l|]; cbn; [|done]. destruct (sn_volumes sn) as [vs|]; cbn; [|done].
  destruct (scan_containers _ _ _ _) as [st|] eqn:Hs; cbn; [|done]. destruct (mapM _ vs) as [items|] eqn:Hm; cbn; [|done].
  destruct (sn_apps sn) as [apps|]; cbn; [|done]. intros [= <-]. by eexists _, _, _, _, _.
Qed.
Lemma orphans_ok sn d i : analyze_drift lb sn = Some d -> i ∈ ds_orphans d -> orphan_ok sn i.
Proof.
  intros (l & vs & st & items & apps & Hl & Hv & Hs & Hm & _ & ->)%drift_parts. cbn. intros [Hi|[Hi|Hi]%elem_of_app]%elem_of_app.
  - destruct (scan_containers_ok _ _ _ _ Hs) as (O & _ & _). destruct (O i Hi) as [H|(c & Hc & Hman & Hg & [[Hk Hr]|(Hk & Hr & Hne)])]; [by apply elem_of_nil in H| |].
    + left. split; [done|]. by exists l, c.
    + right. left. split; [done|]. by exists l, c.
  - right. right. left. apply list_elem_of_In, in_concat in Hi as (its & Hits & Hi). apply list_elem_of_In in Hits, Hi.
    apply mapM_Some in Hm. apply list_elem_of_lookup in Hits as [n Hn]. destruct (Forall2_lookup_r _ _ _ _ _ Hm Hn) as (v & Hvn & Hvo).
    eapply volume_orphan_ok; [done| |done|done]. by eapply list_elem_of_lookup_2.
  - right. right. right. destruct (sn_configs sn) as [cs|] eqn:Hc; [|by apply elem_of_nil in Hi].
    apply elem_of_concat_fmap in Hi as (c & Hin & Hi). by eapply config_orphan_ok.
Qed.
Lemma missing_ref sn live a i : i ∈ app_missing sn live a -> di_ref i = "app:" +:+ itoa (Z.of_N (di_owner i)).
Proof.
  unfold app_missing. destruct (negb _); [intros H; by apply elem_of_nil in H|].
  destruct (ar_service a); [destruct (service_missing sn a)|destruct (bool_decide _)]; intros H; first [by apply elem_of_nil in H|by apply list_elem_of_singleton in H as ->].
Qed.
Lemma missing_refs sn d i : analyze_drift lb sn = Some d -> i ∈ ds_missing d -> di_ref i = "app:" +:+ itoa (Z.of_N (di_owner i)).
Proof. intros (l & vs & st & items & apps & _ & _ & _ & _ & _ & ->)%drift_parts. cbn. intros (a & _ & Hi)%elem_of_concat_fmap. by eapply missing_ref. Qed.
Lemma missing_ok sn d i : analyze_drift lb sn = Some d -> i ∈ ds_missing d -> app_down sn (di_owner i).
Proof.
  intros (l & vs & st & items & apps & Hl & _ & Hs & _ & Ha & ->)%drift_parts. cbn. intros (a & Hin & Hi)%elem_of_concat_fmap.
  destruct (scan_containers_ok _ _ _ _ Hs) as (_ & _ & L). unfold app_missing in Hi. destruct (ar_running a) eqn:Hr; [|by apply elem_of_nil in Hi]. cbn in Hi.
  exists apps, a. destruct (ar_service a) eqn:Hsv.
  - destruct (service_missing sn a) eqn:Hm; [|by apply elem_of_nil in Hi]. apply list_elem_of_singleton in Hi as ->. do 4 (split; [done|]).
    unfold service_missing in Hm. destruct (sn_swarms sn) as [ms|]; [|done]. destruct (ms (ar_cluster a)) as [inspect|] eqn:Hms; [|done].
    exists ms, inspect. by destruct (inspect (app_alias a)) eqn:?.
  - destruct (bool_decide_reflect (ar_id a ∈ sc_live st)) as [Hl'|Hl']; [by apply elem_of_nil in Hi|]. apply list_elem_of_singleton in Hi as ->.
    do 4 (split; [done|]). intros l' c Hl2 Hc Hman Ho. rewrite Hl in Hl2. injection Hl2 as <-. by apply Hl', (L c Hc Hman).
Qed.

(** *** What a selection confirms *)

Definition selected (refs : list resource_ref) (kind ref : string) : Prop :=
  exists r, r ∈ refs /\ ref_key (rr_kind r) (rr_ref r) = ref_key kind ref.
Lemma orphan_index_some items k i : orphan_index items !! k = Some i -> i ∈ items /\ ref_key (di_kind i) (di_ref i) = k.
Proof.
  unfold orphan_index. enough (H : forall m, foldl (fun m i => <[ref_key (di_kind i) (di_ref i) := i]> m) m items !! k = Some i ->
    m !! k = Some i \/ (i ∈ items /\ ref_key (di_kind i) (di_ref i) = k)) by (intros [?|?]%H; [by rewrite lookup_empty in *|done]).
  induction items as [|x items IH]; intros m; cbn; [by left|]. intros [H|[H1 H2]]%IH; [|right; split; [by right|done]].
  destruct (decide (ref_key (di_kind x) (di_ref x) = k)) as [<-|Hn].
  - rewrite lookup_insert_eq in H. injection H as ->. right. split; [by left|done].
  - rewrite lookup_insert_ne in H by done. by left.
Qed.
Lemma confirmed_ok items refs i : i ∈ confirmed items refs -> i ∈ items /\ selected refs (di_kind i) (di_ref i).
Proof.
  unfold confirmed. intros (r & Hr & Hi)%list_elem_of_omap. apply orphan_index_some in Hi as [Hi Hk]. split; [done|]. by exists r.
Qed.
Lemma by_removal_order_sub items i : i ∈ by_removal_order items -> i ∈ items.
Proof. unfold by_removal_order. intros (n & _ & Hi)%elem_of_concat_fmap. by apply elem_of_bfilter in Hi as [Hi _]. Qed.

(** A call that the selection names and the state it was looked for in justifies *)
Definition justified (s1 s2 s3 : snapshot) (sel : selection) (c : removal) : Prop :=
  match c with
  | PruneDangling => se_dangling sel = true
  | PruneCache => se_cache sel = true
  | RemoveImage id force => force = false /\ se_images sel = true /\ image_free s1 id
  | RemoveVolume name false => se_volumes sel = true /\ volume_free s1 name /\ volume_idle s1 name
  | RemoveVolume name true => selected (se_orphans sel) "volume" name /\ volume_lost s3 name
  | RemoveContainer id _ => selected (se_orphans sel) "container" id /\ container_orphan s3 (fun c => ct_id c = id)
  | RemoveService name => selected (se_orphans sel) "service" name /\ container_orphan s3 (fun c => swarm_service_name (ct_labels c) = name /\ name <> "")
  | RemoveConfig id => selected (se_orphans sel) "config" id /\ config_lost s3 id
  | Redeploy id => (exists kind, selected (se_missing sel) kind ("app:" +:+ itoa (Z.of_N id))) /\ app_down s2 id
  end.

Lemma unused_justified s1 s2 s3 sel c : c ∈ unused_calls s1 sel -> justified s1 s2 s3 sel c.
Proof.
  unfold unused_calls. destruct (sn_usage s1) as [du|] eqn:Eu; cbn; [|intros H; by apply elem_of_nil in H].
  destruct (resolve_unused lb s1 (du_volumes du)) as [[images volumes]|] eqn:Hr; [|intros H; by apply elem_of_nil in H].
  intros [H|H]%elem_of_app.
  - destruct (se_images sel) eqn:Hs; [|by apply elem_of_nil in H]. apply list_elem_of_fmap in H as (im & -> & Hi). split_and!; [done|done|].
    by eapply unused_image_ok.
  - destruct (se_volumes sel) eqn:Hs; [|by apply elem_of_nil in H]. apply list_elem_of_fmap in H as (v & -> & Hi). split; [done|].
    destruct (unused_volume_ok _ _ _ _ _ Hr Hi) as (Hf & Hin & Hz). split; [done|]. by exists du, v.
Qed.
Lemma redeploy_justified s1 s2 s3 sel c : c ∈ redeploy_calls s2 sel -> justified s1 s2 s3 sel c.
Proof.
  unfold redeploy_calls, missing_items. destruct (sn_redeploys s2); [|intros H; by apply elem_of_nil in H].
  intros (i & -> & [Hi _]%elem_of_bfilter)%list_elem_of_fmap. destruct (analyze_drift lb s2) as [d|] eqn:Hd; [|by apply elem_of_nil in Hi].
  apply confirmed_ok in Hi as [Hi Hsel]. split; [|by eapply missing_ok]. exists (di_kind i). by rewrite <- (missing_refs _ _ _ Hd Hi).
Qed.
Lemma orphan_justified s1 s2 s3 sel c : c ∈ orphan_calls s3 (orphan_items s3 sel) -> justified s1 s2 s3 sel c.
Proof.
  unfold orphan_calls, orphan_items. intros (i & Hi & Hc)%list_elem_of_omap.
  destruct (analyze_drift lb s3) as [d|] eqn:Hd; [|by apply elem_of_nil in Hi].
  apply by_removal_order_sub, confirmed_ok in Hi as [Hi Hsel]. destruct (orphans_ok _ _ _ Hd Hi) as [[Hk Ho]|[[Hk Ho]|[[Hk Ho]|[Hk Ho]]]];
    rewrite Hk in Hsel; unfold orphan_call in Hc; rewrite Hk in Hc; cbn in Hc.
  - by injection Hc as <-.
  - destruct (sn_manager s3); [|done]. injection Hc as <-. by split.
  - by injection Hc as <-.
  - by injection Hc as <-.
Qed.
End Calls.

(** C9 [cleanup_is_justified]: Whatever is selected and whatever has changed since the dry run, a cleanup asks the node only for what
    the selection names and what the node and the records, read afresh, justify: an image that no container uses and no record
    names, all sources of references having been read; a volume that is neither the platform's nor in use nor claimed; a
    container, service or volume whose own record is gone; a config no row was found for; and a deploy of an application that
    should run and has no container. Images and unused volumes are never removed by force. *)
Theorem cleanup_is_justified lb answer pruned s1 s2 s3 sel :
  Forall (justified lb s1 s2 s3 sel) (apply lb answer pruned s1 s2 s3 sel).1.
Proof.
  apply Forall_forall. intros c. rewrite apply_calls. intros [Hc|[Hc|[Hc|Hc]%elem_of_app]%elem_of_app]%elem_of_app.
  - unfold prunes in Hc. apply elem_of_app in Hc as [Hc|Hc]; [destruct (se_dangling sel) eqn:E|destruct (se_cache sel) eqn:E];
      first [by apply elem_of_nil in Hc|by apply list_elem_of_singleton in Hc as ->].
  - destruct (_ || _); [by apply unused_justified|by apply elem_of_nil in Hc].
  - destruct (bool_decide _); [by apply elem_of_nil in Hc|by apply redeploy_justified].
  - by apply orphan_justified.
Qed.

(** C25 [preview_is_applied]: Where the node, its disk usage measured, and the records answer the
    cleanup as they answered the dry run, a redeployer is wired and every application can still be
    found by its id, a cleanup of the same selection asks the node for exactly what the dry run
    listed and for nothing else: the selected prunes, its images, its volumes by name, its missing
    applications redeployed, each group in the listed order, and then its orphans, sorted anew so
    that an owner goes before what it holds; and it answers. *)
Theorem preview_is_applied lb answer pruned s sel p :
  plan_for lb s s s sel = Some p ->
  sn_usage s <> None -> sn_redeploys s = true -> (forall id, sn_find_app s id = true) ->
  exists imgs, pl_image_refs p = image_name <$> imgs /\
    (apply lb answer pruned s s s sel).1 =
      prunes sel ++ ((fun im => RemoveImage (im_id im) false) <$> imgs) ++ ((fun n => RemoveVolume n false) <$> pl_volume_names p) ++
      ((fun i => Redeploy (di_owner i)) <$> pl_missing p) ++ orphan_calls s (by_removal_order (pl_orphans p)) /\
    is_Some (apply lb answer pruned s s s sel).2.
Proof.
  unfold plan_for, analyze, reclaimable. intros Hp Hu Hr Hf. destruct (sn_usage s) as [du|] eqn:Eu; [|done].
  destruct (resolve_unused lb s (du_volumes du)) as [[imgs vols]|] eqn:Er; cbn in Hp; [|done].
  destruct (analyze_drift lb s) as [d|] eqn:Ed; cbn in Hp; [|done]. injection Hp as <-. cbn [pl_image_refs pl_volume_names pl_missing pl_orphans].
  exists (if se_images sel then imgs else []). split; [by destruct (se_images sel)|]. split.
  - rewrite apply_calls. f_equal.
    assert (Hm : (if bool_decide (se_missing sel = []) then [] else redeploy_calls lb s sel) =
                 (fun i => Redeploy (di_owner i)) <$> confirmed (ds_missing d) (se_missing sel)).
    { destruct (bool_decide_reflect (se_missing sel = [])) as [->|_]; [done|]. unfold redeploy_calls, missing_items. rewrite Hr, Ed. f_equal.
      induction (confirmed _ _) as [|i l IH]; [done|]. cbn. by rewrite Hf, IH. }
    assert (Ho : orphan_items lb s sel = by_removal_order (confirmed (ds_orphans d) (se_orphans sel))) by (unfold orphan_items; by rewrite Ed).
    rewrite Hm, Ho. unfold unused_calls. rewrite Eu. cbn [mbind option_bind]. rewrite Er.
    destruct (se_images sel), (se_volumes sel); cbn [orb]; rewrite <- ?(assoc_L (++)), <- ?list_fmap_compose; done.
  - unfold apply. cbv zeta. rewrite Ed. by destruct (bool_decide (se_orphans sel = [])).
Qed.

(** ** A concrete node *)

Definition demo_labelling : labelling :=
  Labelling (fun l k => l !! k) (fun l => bool_decide (is_Some (l !! "io.miabi.managed"))) (fun l => bool_decide (is_Some (l !! "io.miabi.role")))
    "io.miabi.job" "io.miabi.app" "io.miabi.database" "io.miabi.volume" "io.miabi.stack".
Definition app_labels (id : string) : labels := {["io.miabi.managed" := "true"; "io.miabi.app" := id]}.
Definition demo_image (id tag : string) : image := Image id [tag] ["repo@" +:+ id] 100 0 0 false.
(** Applications 4 and 5 exist and should run; 4 has a container, that of 9 is left over, as is a volume; nginx:1.25 is unused. *)
Definition demo_node (exited : string) (configs : N -> string -> lookup) : snapshot :=
  Snapshot (Some (DiskUsage [VolumeUsage "old" 10 0; VolumeUsage "data" 20 1] 3 1 50)) (Some [demo_image "sha256:aa" "nginx:1.25"; demo_image "sha256:bb" "redis:7"])
    (Some [Volume "old" ∅; Volume "data" ∅; Volume "mb-vol-7-cache" ∅])
    (Some [Container "c4" ["/web"] "web:1" exited (app_labels "4"); Container "c9" ["/gone"] "gone:1" "running" (app_labels "9"); Container "x" ["/hand"] "x" "running" ∅])
    (Some [ConfigObject "cfg1" "app_conf" "7" "conf"])
    [Some ["redis:7"; " web:1"]] (fun _ id => Some (negb (id =? 9)%N)) (Some (fun n => Some (String.eqb n "data"))) (Some configs)
    (Some [AppRow 4 "web" "" 1 true false; AppRow 5 "api" "" 1 true false]) None true true (fun _ => true).
Definition demo_selection : selection :=
  Selection false false true true [ResourceRef "volume" "mb-vol-7-cache"; ResourceRef "container" "c9"; ResourceRef "container" "c4"] [ResourceRef "container" "app:5"].
Definition demo_cleanup (s : snapshot) (sel : selection) : list removal := (apply demo_labelling (fun _ _ => true) (fun _ => (0, 0)) s s s sel).1.
Lemma preview_is_applied_witness :
  demo_cleanup (demo_node "running" (fun _ _ => Found)) demo_selection =
    [RemoveImage "sha256:aa" false; RemoveVolume "old" false; Redeploy 5; RemoveContainer "c9" true; RemoveVolume "mb-vol-7-cache" true] /\
  let s := demo_node "running" (fun _ _ => Found) in
  exists p, plan_for demo_labelling s s s demo_selection = Some p /\ exists imgs, pl_image_refs p = image_name <$> imgs.
Proof.
  split; [vm_compute; reflexivity|]. cbv zeta. eexists. split; [vm_compute; reflexivity|].
  match goal with |- exists imgs, pl_image_refs ?p = _ =>
    destruct (preview_is_applied demo_labelling (fun _ _ => true) (fun _ => (0, 0)) (demo_node "running" (fun _ _ => Found)) demo_selection p) as (imgs & Hi & _);
      [vm_compute; reflexivity|discriminate|reflexivity|reflexivity|exists imgs; exact Hi]
  end.
Defined.

(** A config whose lookup fails, for whatever reason, is taken for one without a row, and removed. *)
Example failed_lookup_removes_config :
  let sel := Selection false false false false [ResourceRef "config" "cfg1"] [] in
  demo_cleanup (demo_node "running" (fun _ _ => Failed)) sel = [RemoveConfig "cfg1"] /\ demo_cleanup (demo_node "running" (fun _ _ => Found)) sel = [].
Proof. vm_compute. split; reflexivity. Qed.
(** An application whose only container has exited is not missing. *)
Example exited_container_is_not_missing :
  demo_cleanup (demo_node "exited" (fun _ _ => Found)) (Selection false false false false [] [ResourceRef "container" "app:4"; ResourceRef "container" "app:5"]) = [Redeploy 5].
Proof. vm_compute. reflexivity. Qed.
