(* ===== verification/Images.v ===== *)
(** * Built images: the catalog, its collection, and the registry's repositories

    [internal/services/image] (image.go, models/image.go, image_repo.go, [ListProtected] of release_repo.go): recording a build,
    deleting an image, the nightly collection. [internal/services/registryserver] name.go, repos.go and browse.go: the names of
    a workspace's repositories, their lists, and the deletion of a tag, which asks the catalog what is in use. The registry is an
    argument; what is asked of it is the list of requests each operation answers beside its result.

    The nightly collection counts, as it goes, the images it keeps of each application; the specification here is by position.
    Then the deletion of a tag, which stays in the workspace's own namespace and never takes what a release holds. *)
From S2P Require Import Prelude GoStrings GoTime.
From S2P Require Registry.
#[local] Open Scope Z_scope.
#[local] Open Scope list_scope.

(** ** Rows *)

(** [models.Image]; provenance is the commit, the run and the runner. *)
Record image_row := ImageRow {
  ig_id : N; ig_ws : N; ig_repository : string; ig_digest : string; ig_tag : string; ig_size : Z; ig_run : option N; ig_app : option N;
  ig_commit : string; ig_runner : string; ig_built : option instant; ig_created : instant }.
(** [Ref] *)
Definition image_ref (i : image_row) : string :=
  if String.eqb (ig_digest i) "" then ig_repository i else ig_repository i +:+ "@" +:+ ig_digest i.
(** The columns of a release the catalog reads *)
Record release_row := ReleaseRow { rl_active : bool; rl_pinned : bool; rl_image_id : option N; rl_digest : string; rl_image : string }.

Record catalog := Catalog { ca_images : gmap N image_row; ca_releases : list release_row; ca_seq : N }.
Inductive image_err := ErrNotFound | ErrInUse | ErrNoDigest | ErrNoWorkspace | ErrStorage.

(** ** What is protected *)

(** [ListProtected] *)
Definition protected_release (r : release_row) : bool := rl_active r || rl_pinned r.
(** [protectedRefs], [protectedSet], [holds] *)
Record protected_refs := Protected { pr_ids : gset N; pr_digests : gset string; pr_refs : gset string }.
Definition nonempty (s : string) : bool := negb (String.eqb s "").
Definition protected_set (rels : list release_row) : protected_refs :=
  let rels := List.filter protected_release rels in
  Protected (list_to_set (omap rl_image_id rels)) (list_to_set (List.filter nonempty (rl_digest <$> rels)))
    (list_to_set (List.filter nonempty (rl_image <$> rels))).
Definition holds (p : protected_refs) (i : image_row) : bool :=
  (negb (ig_id i =? 0)%N && bool_decide (ig_id i ∈ pr_ids p)) ||
  (nonempty (ig_digest i) && bool_decide (ig_digest i ∈ pr_digests p)) ||
  (nonempty (image_ref i) && bool_decide (image_ref i ∈ pr_refs p)).

(** ** Recording and deleting *)

(** [RecordInput] *)
Record record_input := RecordInput {
  ri_ws : N; ri_repository : string; ri_tag : string; ri_digest : string; ri_size : Z; ri_app : option N; ri_run : option N; ri_commit : string;
  ri_runner : string }.
Definition find_digest (c : catalog) (ws : N) (digest : string) : option image_row :=
  find_first (fun i => (ig_ws i =? ws)%N && String.eqb (ig_digest i) digest) (map_to_list (ca_images c)).*2.
Definition provenance (in_ : record_input) (t : instant) (i : image_row) : image_row :=
  ImageRow (ig_id i) (ig_ws i) (ri_repository in_) (ig_digest i) (ri_tag in_) (ri_size in_) (ri_run in_) (ri_app in_) (ri_commit in_) (ri_runner in_)
    (Some t) (ig_created i).
Definition put_image (i : image_row) (c : catalog) : catalog := Catalog (<[ig_id i := i]> (ca_images c)) (ca_releases c) (ca_seq c).
(** [Record]; [fails] are the failures of its two calls: a lookup that fails reads as no row, which the unique index then refuses. *)
Definition record_image (in_ : record_input) (t : instant) (fails : bool * bool) (c : catalog) : catalog * result image_err image_row :=
  if (ri_ws in_ =? 0)%N then (c, Err ErrNoWorkspace)
  else if String.eqb (ri_digest in_) "" then (c, Err ErrNoDigest)
  else
    let there := find_digest c (ri_ws in_) (ri_digest in_) in
    match (if fails.1 then None else there) with
    | Some old => let i := provenance in_ t old in if fails.2 then (c, Err ErrStorage) else (put_image i c, Ok i)
    | None =>
        let i := provenance in_ t (ImageRow (ca_seq c) (ri_ws in_) "" (ri_digest in_) "" 0 None None "" "" None t) in
        if fails.2 || bool_decide (is_Some there) then (c, Err ErrStorage)
        else (Catalog (<[ig_id i := i]> (ca_images c)) (ca_releases c) (ca_seq c + 1), Ok i)
    end.

Inductive effect := RemoveRef (ref : string) | DropRow (id : N).
Definition removal (i : image_row) (remover : bool) : list effect :=
  if remover && nonempty (ig_repository i) then [RemoveRef (image_ref i)] else [].
(** [Delete]; [rels] is what the read of the releases gives. *)
Definition delete_image (ws id : N) (remover : bool) (rels : option (list release_row)) (fails : bool) (c : catalog) :
    catalog * list effect * result image_err unit :=
  match ca_images c !! id with
  | Some i =>
      if negb (ig_ws i =? ws)%N then (c, [], Err ErrNotFound)
      else
        match rels with
        | None => (c, [], Err ErrStorage)
        | Some rels =>
            if holds (protected_set rels) i then (c, [], Err ErrInUse)
            else if fails then (c, removal i remover, Err ErrStorage)
            else (Catalog (delete id (ca_images c)) (ca_releases c) (ca_seq c), removal i remover ++ [DropRow id], Ok tt)
        end
  | None => (c, [], Err ErrNotFound)
  end.

(** ** Collection *)

(** [RetentionPolicy] with its defaults *)
Record retention := Retention { rt_keep : Z; rt_min_age : duration }.
Definition with_defaults (p : retention) : retention :=
  Retention (if rt_keep p <=? 0 then 10 else rt_keep p) (if rt_min_age p <=? 0 then 24 * (60 * minute) else rt_min_age p).
(** [GCReport] and the loop's state *)
Record gc_report := GcReport { gr_deleted : Z; gr_protected : Z; gr_freed : Z }.
Definition app_key (i : image_row) : N := default 0%N (ig_app i).
Record gc_state := GcState { gs_kept : gmap N Z; gs_effects : list effect; gs_report : gc_report }.
Definition kept (st : gc_state) (app : N) : Z := default 0 (gs_kept st !! app).
Definition keep_one (i : image_row) (st : gc_state) : gmap N Z := <[app_key i := kept st (app_key i) + 1]> (gs_kept st).
Section Collection.
Context (policy : retention) (cutoff : instant) (p : protected_refs) (remover : bool) (fails : N -> bool).
Definition gc_step (st : gc_state) (i : image_row) : gc_state :=
  if holds p i then
    GcState (keep_one i st) (gs_effects st) (GcReport (gr_deleted (gs_report st)) (gr_protected (gs_report st) + 1) (gr_freed (gs_report st)))
  else if kept st (app_key i) <? rt_keep policy then GcState (keep_one i st) (gs_effects st) (gs_report st)
  else if cutoff <? ig_created i then st
  else
    let tried := gs_effects st ++ removal i remover in
    if fails (ig_id i) then GcState (gs_kept st) tried (gs_report st)
    else GcState (gs_kept st) (tried ++ [DropRow (ig_id i)])
           (GcReport (gr_deleted (gs_report st) + 1) (gr_protected (gs_report st)) (wrap64 (gr_freed (gs_report st) + ig_size i))).
Definition gc_loop (all : list image_row) : gc_state := foldl gc_step (GcState ∅ [] (GcReport 0 0 0)) all.
End Collection.
(** The order of [ListAll]: by application, the newest first; rows without one come where the database puts them. *)
Definition all_before (a b : image_row) : bool :=
  if (app_key a =? app_key b)%N then ig_created b <? ig_created a else (app_key a <? app_key b)%N.
Definition list_all (c : catalog) : list image_row := stable_sort all_before (map_to_list (ca_images c)).*2.
(** [GC]; [all] and [rels] are what its two reads give. *)
Definition gc (policy : retention) (t : instant) (remover : bool) (all : option (list image_row)) (rels : option (list release_row))
    (fails : N -> bool) : result image_err (list effect * gc_report) :=
  let policy := with_defaults policy in
  match all, rels with
  | Some all, Some rels =>
      let st := gc_loop policy (t - rt_min_age policy) (protected_set rels) remover fails all in Ok (gs_effects st, gs_report st)
  | _, _ => Err ErrStorage
  end.

(** ** Names of repositories and tags: name.go *)

Definition is_alnum (c : ascii) : bool := is_lower c || is_digit c.
(** The automaton of [repoComponent]: words of lower-case letters and digits, between them one dot, one or two underscores, or dashes *)
Inductive name_state := NStart | NWord | NDot | NUnder | NUnder2 | NDash.
Definition name_step (st : name_state) (c : ascii) : option name_state :=
  if is_alnum c then Some NWord
  else
    match st with
    | NWord => if Ascii.eqb c "." then Some NDot else if Ascii.eqb c "_" then Some NUnder else if Ascii.eqb c "-" then Some NDash else None
    | NUnder => if Ascii.eqb c "_" then Some NUnder2 else None
    | NDash => if Ascii.eqb c "-" then Some NDash else None
    | _ => None
    end.
Fixpoint name_run (st : name_state) (s : string) : option name_state :=
  match s with EmptyString => Some st | String c s => st ← name_step st c; name_run st s end.
Definition repo_component (s : string) : bool := match name_run NStart s with Some NWord => true | _ => false end.
(** [tagPattern] *)
Definition tag_first (c : ascii) : bool := is_alnum c || is_upper c || Ascii.eqb c "_".
Definition tag_rest (c : ascii) : bool := tag_first c || Ascii.eqb c "." || Ascii.eqb c "-".
Definition tag_pattern (s : string) : bool :=
  match s with EmptyString => false | String c r => tag_first c && str_forall tag_rest r && (String.length r <=? 127)%nat end.

Inductive repo_err := ErrInvalidRepository | ErrInvalidTag | ErrTagInUse | ErrCatalog | ErrRegistry (why : string) | ErrAbsent.
Definition max_repository_length : nat := 255.
(** [validateRepository], [repoPath], [validateTag] *)
Definition validate_repository (image : string) : result repo_err string :=
  let name := trim_char "/" (trim_space image) in
  if String.eqb name "" then Err ErrInvalidRepository
  else if forallb repo_component (split "/" name) then Ok name else Err ErrInvalidRepository.
Definition repo_path (ws : N) (image : string) : result repo_err string :=
  match validate_repository image with
  | Err e => Err e
  | Ok name =>
      let repo := Registry.namespace ws +:+ "/" +:+ name in
      if (max_repository_length <? String.length repo)%nat then Err ErrInvalidRepository else Ok repo
  end.
Definition validate_tag (tag : string) : option repo_err := if tag_pattern (trim_space tag) then None else Some ErrInvalidTag.

(** ** The registry's repositories: repos.go, browse.go *)

Inductive request := AskCatalog | AskTags (repo : string) | AskDigest (repo ref : string) | DeleteManifest (repo digest : string).
Record registry_client := RegistryClient {
  rc_catalog : result repo_err (list string); rc_tags : string -> result repo_err (list string); rc_digest : string -> string -> result repo_err string;
  rc_delete : string -> string -> result repo_err unit }.

(** [splitRun], [naturalLess]: runs of digits by value, then by length, other text as it is *)
Fixpoint split_run (digits : bool) (s : string) : string * string :=
  match s with
  | EmptyString => ("", "")
  | String c r => if Bool.eqb (is_digit c) digits then let '(a, b) := split_run digits r in (String c a, b) else ("", s)
  end.
Definition starts_digit (s : string) : bool := match s with String c _ => is_digit c | EmptyString => false end.
Fixpoint natural_less (fuel : nat) (a b : string) : bool :=
  match fuel with
  | O => false
  | S fuel =>
      if String.eqb a "" || String.eqb b "" then (String.length a <? String.length b)%nat
      else
        let digits := starts_digit a in
        if negb (Bool.eqb digits (starts_digit b)) then str_lt a b
        else
          let '(ar, a) := split_run digits a in
          let '(br, b) := split_run digits b in
          if String.eqb ar br then natural_less fuel a b
          else if negb digits then str_lt ar br
          else
            let an := drop_while (Ascii.eqb "0") ar in
            let bn := drop_while (Ascii.eqb "0") br in
            if negb (String.length an =? String.length bn)%nat then (String.length an <? String.length bn)%nat
            else if negb (String.eqb an bn) then str_lt an bn
            else (String.length ar <? String.length br)%nat
  end.
(** [SortTags]: latest first, then the newest *)
Definition tag_before (a b : string) : bool :=
  if xorb (String.eqb a "latest") (String.eqb b "latest") then String.eqb a "latest" else natural_less (S (String.length a)) b a.
Definition sort_tags (tags : list string) : list string := stable_sort tag_before tags.

(** [ListRepositories]: a repository without tags is listed. *)
Fixpoint repositories_of (rc : registry_client) (prefix : string) (repos : list string) : list request * result repo_err (list (string * list string)) :=
  match repos with
  | [] => ([], Ok [])
  | repo :: repos =>
      match cut_prefix prefix repo with
      | None => repositories_of rc prefix repos
      | Some image =>
          match rc_tags rc repo with
          | Err ErrAbsent => let '(rq, r) := repositories_of rc prefix repos in (AskTags repo :: rq, match r with Ok l => Ok ((image, []) :: l) | Err e => Err e end)
          | Err e => ([AskTags repo], Err e)
          | Ok tags =>
              let '(rq, r) := repositories_of rc prefix repos in
              (AskTags repo :: rq, match r with Ok l => Ok ((image, sort_tags tags) :: l) | Err e => Err e end)
          end
      end
  end.
Definition list_repositories (rc : registry_client) (ws : N) : list request * result repo_err (list (string * list string)) :=
  match rc_catalog rc with
  | Err e => ([AskCatalog], Err e)
  | Ok all =>
      let '(rq, r) := repositories_of rc (Registry.namespace ws +:+ "/") all in
      (AskCatalog :: rq, match r with Ok l => Ok (stable_sort (fun a b => str_lt a.1 b.1) l) | Err e => Err e end)
  end.
(** [repoNames] *)
Definition repo_names (rc : registry_client) (ws : N) : result repo_err (list string) :=
  match rc_catalog rc with
  | Err e => Err e
  | Ok all => Ok (sort_strings (omap (cut_prefix (Registry.namespace ws +:+ "/")) all))
  end.

(** [DeleteTag]; [in_use] is [ProtectedDigests] of the catalog, [None] when the catalog is not wired. *)
Definition delete_tag (rc : registry_client) (in_use : option (option (gset string))) (ws : N) (image tag : string) : list request * result repo_err unit :=
  match repo_path ws image with
  | Err e => ([], Err e)
  | Ok repo =>
      match validate_tag tag with
      | Some e => ([], Err e)
      | None =>
          match rc_digest rc repo tag with
          | Err e => ([AskDigest repo tag], Err e)
          | Ok digest =>
              let remove := ([AskDigest repo tag; DeleteManifest repo digest], rc_delete rc repo digest) in
              match in_use with
              | None => remove
              | Some None => ([AskDigest repo tag], Err ErrCatalog)
              | Some (Some held) => if bool_decide (digest ∈ held) then ([AskDigest repo tag], Err ErrTagInUse) else remove
              end
          end
      end
  end.
(** [ProtectedDigests] *)
Definition protected_digests (rels : option (list release_row)) : option (gset string) := pr_digests ∘ protected_set <$> rels.

Example tag_order : sort_tags ["v9"; "v10"; "latest"; "v10-rc1"; "main"; "v1.10"; "v1.9"] = ["latest"; "v10-rc1"; "v10"; "v9"; "v1.10"; "v1.9"; "main"].
Proof. vm_compute. reflexivity. Qed.
Example component_examples :
  repo_component <$> ["web"; "a.b"; "a__b"; "a--b"; ".."; "a..b"; "a___b"; "Web"; ""; "a-"] = [true; true; true; true; false; false; false; false; false; false].
Proof. vm_compute. reflexivity. Qed.

(** * What the collection of images removes *)

(** ** The collection, by position *)

Definition same_app (app : N) (j : image_row) : bool := (app_key j =? app)%N.
Definition rank (pre : list image_row) (app : N) : Z := Z.of_nat (length (List.filter (same_app app) pre)).
(** The collection's rule for an image that comes after those of [pre] *)
Record condemned (policy : retention) (cutoff : instant) (p : protected_refs) (pre : list image_row) (i : image_row) : Prop := Condemned {
  cd_free : holds p i = false;
  cd_old : ig_created i <= cutoff;
  cd_rank : rt_keep policy <= rank pre (app_key i) }.
Definition rows_dropped (effs : list effect) : Z := Z.of_nat (length (List.filter (fun e => match e with DropRow _ => true | _ => false end) effs)).

Lemma rank_at_least_0 pre app : 0 <= rank pre app.
Proof. unfold rank. lia. Qed.
Lemma rank_snoc pre app i : rank (pre ++ [i]) app = rank pre app + (if same_app app i then 1 else 0).
Proof. unfold rank. rewrite List.filter_app, length_app. cbn. destruct (same_app app i); cbn; lia. Qed.
Lemma rows_dropped_app l k : rows_dropped (l ++ k) = rows_dropped l + rows_dropped k.
Proof. unfold rows_dropped. rewrite List.filter_app, length_app. lia. Qed.
Lemma rows_dropped_removal i remover : rows_dropped (removal i remover) = 0.
Proof. unfold removal. by destruct (remover && nonempty (ig_repository i)). Qed.

Section Loop.
Context (policy : retention) (cutoff : instant) (p : protected_refs) (remover : bool) (fails : N -> bool).
Let step := gc_step policy cutoff p remover fails.

Definition effects_of (i : image_row) (e : effect) : Prop := e ∈ removal i remover \/ (e = DropRow (ig_id i) /\ fails (ig_id i) = false).
(** What the loop has done once it has seen [pre]: the images it counts are those seen, as long as they are fewer than to keep. *)
Record swept (pre : list image_row) (st : gc_state) : Prop := Swept {
  sw_count : forall app, kept st app <= rank pre app /\ (kept st app < rt_keep policy -> kept st app = rank pre app);
  sw_effects : forall e, e ∈ gs_effects st <->
    exists pre1 i post, pre = pre1 ++ i :: post /\ condemned policy cutoff p pre1 i /\ effects_of i e;
  sw_deleted : gr_deleted (gs_report st) = rows_dropped (gs_effects st) }.

Lemma snoc_split {A} (pre : list A) x (P : list A -> A -> Prop) :
  (exists pre1 i post, pre ++ [x] = pre1 ++ i :: post /\ P pre1 i) <->
  (exists pre1 i post, pre = pre1 ++ i :: post /\ P pre1 i) \/ P pre x.
Proof.
  split.
  - intros (pre1 & i & post & E & H). destruct post as [|y post] using rev_ind; [right|left; clear IHpost].
    + by apply app_inj_tail in E as [<- <-].
    + rewrite app_comm_cons, app_assoc in E. apply app_inj_tail in E as [-> _]. by exists pre1, i, post.
  - intros [(pre1 & i & post & -> & H)|H].
    + exists pre1, i, (post ++ [x]). by rewrite <- app_assoc.
    + by exists pre, x, [].
Qed.
Lemma kept_keep_one i st effs rep app :
  kept (GcState (keep_one i st) effs rep) app = kept st app + (if same_app app i then 1 else 0).
Proof.
  unfold kept, keep_one, same_app; cbn. destruct (N.eqb_spec (app_key i) app) as [->|].
  - by rewrite lookup_insert_eq.
  - by rewrite lookup_insert_ne, Z.add_0_r.
Qed.
Lemma swept_step pre st i : swept pre st -> swept (pre ++ [i]) (step st i).
Proof.
  intros [Hc He Hd]. destruct (Hc (app_key i)) as [Hle Hlt].
  assert (Hspare : ~ condemned policy cutoff p pre i -> forall e, e ∈ gs_effects st <->
    exists pre1 j post, pre ++ [i] = pre1 ++ j :: post /\ condemned policy cutoff p pre1 j /\ effects_of j e).
  { intros Hn e. rewrite He, (snoc_split pre i (fun a j => condemned policy cutoff p a j /\ effects_of j e)). naive_solver. }
  assert (Hcount : forall effs rep app, kept (GcState (keep_one i st) effs rep) app <= rank (pre ++ [i]) app /\
    (kept (GcState (keep_one i st) effs rep) app < rt_keep policy -> kept (GcState (keep_one i st) effs rep) app = rank (pre ++ [i]) app)).
  { intros effs rep app. rewrite kept_keep_one, rank_snoc. specialize (Hc app). destruct (same_app app i); lia. }
  unfold step, gc_step. destruct (holds p i) eqn:Hh.
  { split; cbn; [apply Hcount| |done]. apply Hspare. intros [H _ _]. congruence. }
  destruct (Z.ltb_spec (kept st (app_key i)) (rt_keep policy)) as [Hk|Hk].
  { split; cbn; [apply Hcount| |done]. apply Hspare. intros [_ _ H]. lia. }
  assert (Hskip : forall app, kept st app <= rank (pre ++ [i]) app /\ (kept st app < rt_keep policy -> kept st app = rank (pre ++ [i]) app)).
  { intros app. rewrite rank_snoc. specialize (Hc app). unfold same_app. destruct (N.eqb_spec (app_key i) app) as [<-|]; lia. }
  destruct (Z.ltb_spec cutoff (ig_created i)) as [Hy|Hy].
  { split; cbn; [apply Hskip| |done]. apply Hspare. intros [_ H _]. lia. }
  assert (Hcond : condemned policy cutoff p pre i) by (split; [done|exact Hy|by etrans]).
  destruct (fails (ig_id i)) eqn:Hf; (split; cbn [gs_kept gs_effects gs_report gr_deleted];
    [apply Hskip| |by rewrite Hd, ?rows_dropped_app, rows_dropped_removal, ?Z.add_0_r]);
    intros e; rewrite ?elem_of_app, He, (snoc_split pre i (fun a j => condemned policy cutoff p a j /\ effects_of j e));
    unfold effects_of at 3; rewrite ?list_elem_of_singleton; naive_solver congruence.
Qed.
Lemma swept_loop all : swept all (gc_loop policy cutoff p remover fails all).
Proof.
  unfold gc_loop. induction all as [|i all IH] using rev_ind.
  - split; cbn; [|intros e; split; [by intros ?%elem_of_nil|intros (pre1 & i & post & E & _); by destruct pre1]|done].
    intros app. unfold kept, rank; cbn. rewrite lookup_empty. cbn. lia.
  - rewrite foldl_app. cbn. by apply swept_step.
Qed.
End Loop.

Lemma all_before_spec a b :
  all_before a b = true <-> (app_key a < app_key b)%N \/ (app_key a = app_key b /\ ig_created b < ig_created a).
Proof. unfold all_before. destruct (N.eqb_spec (app_key a) (app_key b)); rewrite ?Z.ltb_lt, ?N.ltb_lt; lia. Qed.
Lemma all_before_false a b :
  all_before a b = false <-> (app_key b < app_key a)%N \/ (app_key a = app_key b /\ ig_created a <= ig_created b).
Proof. unfold all_before. destruct (N.eqb_spec (app_key a) (app_key b)); rewrite ?Z.ltb_ge, ?N.ltb_ge; lia. Qed.
Lemma all_before_asym x y : all_before x y = true -> all_before y x = false.
Proof. rewrite all_before_spec, all_before_false. lia. Qed.
Lemma all_before_negtrans x y z : all_before y x = false -> all_before z y = false -> all_before z x = false.
Proof. rewrite !all_before_false. lia. Qed.

(** C21 [collection_exact]: The collection of built images removes an image exactly when no active or
    pinned release holds it, it is as old as the policy asks, and as many images of its application
    as the policy keeps come before it; the images of its application that come before it are no
    older than it. Of such an image it removes the registry's reference, and drops the row unless
    the database refuses; it touches nothing else, and its report counts the rows dropped. *)
Theorem collection_exact policy t remover c fails :
  exists effs rep, gc policy t remover (Some (list_all c)) (Some (ca_releases c)) fails = Ok (effs, rep) /\
    gr_deleted rep = rows_dropped effs /\
    (forall e, e ∈ effs <-> exists newer i older, list_all c = newer ++ i :: older /\
       condemned (with_defaults policy) (t - rt_min_age (with_defaults policy)) (protected_set (ca_releases c)) newer i /\
       effects_of remover fails i e) /\
    (forall newer i older j, list_all c = newer ++ i :: older -> j ∈ newer -> app_key j = app_key i -> ig_created i <= ig_created j).
Proof.
  unfold gc. cbv zeta. destruct (swept_loop (with_defaults policy) (t - rt_min_age (with_defaults policy)) (protected_set (ca_releases c)) remover fails
    (list_all c)) as [_ He Hd].
  eexists _, _. split_and!; [done|done|exact He|].
  intros newer i older j E Hj Ha.
  pose proof (stable_sort_sorted all_before all_before_asym all_before_negtrans (map_to_list (ca_images c)).*2) as Hs.
  change (stable_sort _ _) with (list_all c) in Hs. rewrite E in Hs. apply (StronglySorted_app_1_elem_of _ _ _ j i) in Hs; [|done|by left].
  apply all_before_false in Hs. lia.
Qed.

(** ** The deletion of a tag *)

Lemma component_not_parent name : forallb repo_component (split "/" name) = true -> ".." ∉ split "/" name /\ "" ∉ split "/" name.
Proof.
  intros H. split; intros Hin; rewrite forallb_forall in H; apply list_elem_of_In, H in Hin; by vm_compute in Hin.
Qed.
Lemma validate_repository_ok image name :
  validate_repository image = Ok name -> name = trim_char "/" (trim_space image) /\ name <> "" /\ ".." ∉ split "/" name /\ "" ∉ split "/" name.
Proof.
  unfold validate_repository. set (n := trim_char "/" (trim_space image)).
  destruct (String.eqb_spec n ""); [done|]. destruct (forallb repo_component (split "/" n)) eqn:H; [|done].
  intros [= <-]. split_and!; [done..| |]; by apply component_not_parent.
Qed.
(** [DeleteTag] takes a manifest only from a repository of the workspace's own namespace, by the digest the tag names, when the
    catalog could be read and no release holds that digest. *)
Lemma tag_deletion_confined rc in_use ws image tag rq r repo d :
  delete_tag rc in_use ws image tag = (rq, r) -> DeleteManifest repo d ∈ rq ->
  (exists name, repo = Registry.namespace ws +:+ "/" +:+ name /\ ".." ∉ split "/" name /\ "" ∉ split "/" name) /\
  (String.length repo <= 255)%nat /\ rc_digest rc repo tag = Ok d /\ in_use <> Some None /\ (forall held, in_use = Some (Some held) -> d ∉ held).
Proof.
  unfold delete_tag, repo_path. destruct (validate_repository image) as [name|] eqn:Hv; [|by intros [= <- <-] ?%elem_of_nil].
  destruct (Nat.ltb_spec max_repository_length (String.length (Registry.namespace ws +:+ "/" +:+ name))) as [|Hl]; [by intros [= <- <-] ?%elem_of_nil|].
  destruct (validate_tag tag); [by intros [= <- <-] ?%elem_of_nil|].
  destruct (rc_digest rc _ tag) as [dg|] eqn:Hd; [|by intros [= <- <-] ?%list_elem_of_singleton].
  apply validate_repository_ok in Hv as (_ & _ & Hup & Hne).
  assert (Hgo : DeleteManifest repo d ∈ [AskDigest (Registry.namespace ws +:+ "/" +:+ name) tag; DeleteManifest (Registry.namespace ws +:+ "/" +:+ name) dg] ->
    repo = Registry.namespace ws +:+ "/" +:+ name /\ d = dg) by (rewrite elem_of_cons, list_elem_of_singleton; naive_solver).
  destruct in_use as [[held|]|].
  - case_bool_decide; intros [= <- <-]; [by intros ?%list_elem_of_singleton|]. intros [-> ->]%Hgo. split_and!; [by exists name|done..|naive_solver].
  - by intros [= <- <-] ?%list_elem_of_singleton.
  - intros [= <- <-] [-> ->]%Hgo. split_and!; [by exists name|done..].
Qed.

(** ** A concrete collection *)

Definition demo_image (id : N) (app : N) (created : Z) : image_row :=
  ImageRow id 7 ("reg.local/ws_7/web") ("sha256:" +:+ itoa (Z.of_N id)) "latest" 100 None (Some app) "" "" None created.
Definition demo_catalog : catalog :=
  Catalog (list_to_map ((fun i => (ig_id i, i)) <$> [demo_image 1 4 0; demo_image 2 4 1; demo_image 3 4 2; demo_image 4 4 3; demo_image 5 9 0]))
    [ReleaseRow true false (Some 1%N) "" ""; ReleaseRow false false (Some 2%N) "" ""] 6.
(** The oldest image still serves a release; the one after it does not, and two newer ones are kept. *)
Example demo_collection :
  gc (Retention 2 1) (10 * minute) true (Some (list_all demo_catalog)) (Some (ca_releases demo_catalog)) (fun _ => false) =
  Ok ([RemoveRef "reg.local/ws_7/web@sha256:2"; DropRow 2], GcReport 1 1 100).
Proof. vm_compute. reflexivity. Qed.
