(* ===== verification/PipelineSpec.v ===== *)
(** * Pipelines as code: the specification

    [internal/services/pipeline/spec.go]: a pipeline's document, once YAML is decoded, and what it must satisfy; the pushes it
    fires on. What [ParseSpec] says of an error besides its kind and its step is left out. *)
From S2P Require Import Prelude GoStrings GoPath GoWeb Semver VersionRender VersionNext VersionSettings.
#[local] Open Scope Z_scope.
#[local] Open Scope list_scope.

(** ** The document *)

Definition api_version : string := "miabi.io/v1".
Definition kind_pipeline : string := "Pipeline".
Definition uses_build : string := "build".
Definition uses_deploy : string := "deploy".

(** [Step]; [sp_cache] is the pointer. *)
Record step := Step {
  sp_name : string; sp_image : string; sp_run : string; sp_uses : string; sp_dockerfile : string; sp_context : string;
  sp_build_args : gmap string string; sp_cache : option bool; sp_platforms : list string; sp_app : string; sp_env : gmap string string;
  sp_continue : bool }.
(** [Triggers]: the branches of a push, when pushes fire *)
Record triggers := Triggers { tg_push : option (list string); tg_manual : bool; tg_schedule : string }.
Record spec := Spec {
  ps_api : string; ps_kind : string; ps_name : string; ps_on : triggers; ps_env : gmap string string; ps_steps : list step;
  ps_versioning : option settings }.

Definition uses (u : string) (s : step) : bool := String.eqb (sp_uses s) u.
(** [HasBuild], [NoCache], [FiresOnBranch] *)
Definition has_build (s : spec) : bool := existsb (uses uses_build) (ps_steps s).
Definition step_no_cache (s : step) : bool := match sp_cache s with Some b => negb b | None => false end.
Definition fires_on_branch (t : triggers) (branch : string) : bool :=
  match tg_push t with
  | None => false
  | Some [] => true
  | Some branches => existsb (fun b => String.eqb b branch) branches
  end.

(** ** What its parts must satisfy *)

(** [envKeyRe], [reservedEnvPrefix], [validEnv], [validArgName] *)
Definition name_start (c : ascii) : bool := is_lower c || is_upper c || Ascii.eqb c "_".
Definition name_rest (c : ascii) : bool := name_start c || is_digit c.
Definition variable_name (k : string) : bool := match k with String c r => name_start c && str_forall name_rest r | EmptyString => false end.
Definition reserved_env_prefix : string := "MIABI_".
Definition reserved_env (k : string) : bool := has_prefix reserved_env_prefix (to_upper k).
Definition valid_env (env : gmap string string) : bool :=
  forallb (fun kv => variable_name kv.1 && negb (reserved_env kv.1)) (map_to_list env).
Definition valid_arg_name (k : string) : bool := variable_name k.
Definition valid_args (args : gmap string string) : bool := forallb (fun kv => valid_arg_name kv.1) (map_to_list args).

(** [validBuildPath] *)
Definition valid_build_path (p : string) : bool :=
  String.eqb p "" ||
  (negb (has_prefix "/" p) && let clean := path_clean p in negb (String.eqb clean ".." || has_prefix "../" clean)).

(** [buildPlatforms], [normalizePlatforms] *)
Definition build_platforms : list string :=
  ["linux/amd64"; "linux/arm64"; "linux/arm/v7"; "linux/arm/v6"; "linux/386"; "linux/ppc64le"; "linux/s390x"; "linux/riscv64"].
Definition platform (p : string) : string :=
  let p := to_lower (trim_space p) in if String.eqb p "linux/arm64/v8" then "linux/arm64" else p.
Fixpoint normalize_platforms (seen : list string) (l : list string) : option (list string) :=
  match l with
  | [] => Some seen
  | p :: l =>
      let p := platform p in
      if negb (bool_decide (p ∈ build_platforms)) then None
      else normalize_platforms (if bool_decide (p ∈ seen) then seen else seen ++ [p]) l
  end.

(** ** [ParseSpec] *)

Inductive step_fault :=
  | BadStepEnv | EnvOnBuiltin | NoImage | UnknownBuiltin | NotABuild | BadPlatform | BadArgName | BadPath.
Inductive spec_err :=
  | ErrDecode | ErrAPIVersion | ErrKind | ErrNoSteps | ErrPipelineEnv | ErrStepName (i : nat) | ErrDuplicateStep (name : string)
  | ErrStep (name : string) (f : step_fault) | ErrFloatingTags | ErrVersioning (e : version_error).

(** What only a [build] step has *)
Definition has_build_fields (s : step) : bool :=
  negb (String.eqb (sp_dockerfile s) "") || negb (String.eqb (sp_context s) "") || negb (bool_decide (sp_build_args s = ∅)) ||
  bool_decide (is_Some (sp_cache s)) || negb (bool_decide (sp_platforms s = [])).
Definition with_platforms (s : step) (l : list string) : step :=
  Step (sp_name s) (sp_image s) (sp_run s) (sp_uses s) (sp_dockerfile s) (sp_context s) (sp_build_args s) (sp_cache s) l (sp_app s)
       (sp_env s) (sp_continue s).
(** The checks of one step, in the code's order *)
Definition check_step (s : step) : result step_fault step :=
  if negb (valid_env (sp_env s)) then Err BadStepEnv
  else if negb (bool_decide (sp_env s = ∅)) && negb (String.eqb (sp_uses s) "") then Err EnvOnBuiltin
  else if String.eqb (sp_uses s) "" && String.eqb (trim_space (sp_image s)) "" then Err NoImage
  else if negb (String.eqb (sp_uses s) "") && negb (uses uses_deploy s) && negb (uses uses_build s) then Err UnknownBuiltin
  else if has_build_fields s && negb (uses uses_build s) then Err NotABuild
  else
    match normalize_platforms [] (sp_platforms s) with
    | None => Err BadPlatform
    | Some l =>
        if negb (valid_args (sp_build_args s)) then Err BadArgName
        else if valid_build_path (sp_dockerfile s) && valid_build_path (sp_context s) then Ok (with_platforms s l) else Err BadPath
    end.
(** The loop over the steps, from the [i]-th; [names] are those seen. *)
Fixpoint check_steps (i : nat) (names : list string) (l : list step) : result spec_err (list step) :=
  match l with
  | [] => Ok []
  | s :: l =>
      if String.eqb (trim_space (sp_name s)) "" then Err (ErrStepName i)
      else if bool_decide (sp_name s ∈ names) then Err (ErrDuplicateStep (sp_name s))
      else
        match check_step s with
        | Err f => Err (ErrStep (sp_name s) f)
        | Ok s' => match check_steps (S i) (sp_name s :: names) l with Ok l => Ok (s' :: l) | Err e => Err e end
        end
  end.
Definition with_steps (s : spec) (l : list step) : spec :=
  Spec (ps_api s) (ps_kind s) (ps_name s) (ps_on s) (ps_env s) l (ps_versioning s).
(** What follows the decoding *)
Definition check_spec (s : spec) : result spec_err spec :=
  if negb (String.eqb (ps_api s) api_version) then Err ErrAPIVersion
  else if negb (String.eqb (ps_kind s) kind_pipeline) then Err ErrKind
  else if bool_decide (ps_steps s = []) then Err ErrNoSteps
  else if negb (valid_env (ps_env s)) then Err ErrPipelineEnv
  else
    match check_steps 1 [] (ps_steps s) with
    | Err e => Err e
    | Ok l =>
        let s := with_steps s l in
        match ps_versioning s with
        | None => Ok s
        | Some v =>
            if negb (has_build s) && negb (bool_decide (st_floating_tags v = [])) then Err ErrFloatingTags
            else match normalize v with Ok _ => Ok s | Err e => Err (ErrVersioning e) end
        end
    end.
(** [ParseSpec]; the decoder of YAML, which refuses unknown fields, is an argument. *)
Definition parse_spec (decode : string -> option spec) (data : string) : result spec_err spec :=
  match decode data with Some s => check_spec s | None => Err ErrDecode end.

(** ** What an accepted step is *)

Record step_ok (s : step) : Prop := StepOk {
  so_name : trim_space (sp_name s) <> "";
  so_kind : (sp_uses s = "" /\ trim_space (sp_image s) <> "") \/ (sp_env s = ∅ /\ (sp_uses s = uses_deploy \/ sp_uses s = uses_build));
  so_build : sp_uses s <> uses_build ->
    sp_dockerfile s = "" /\ sp_context s = "" /\ sp_build_args s = ∅ /\ sp_cache s = None /\ sp_platforms s = [];
  so_env : forall k, is_Some (sp_env s !! k) -> variable_name k = true /\ reserved_env k = false;
  so_args : forall k, is_Some (sp_build_args s !! k) -> variable_name k = true;
  so_platforms : NoDup (sp_platforms s) /\ Forall (fun p => p ∈ build_platforms) (sp_platforms s);
  so_paths : valid_build_path (sp_dockerfile s) = true /\ valid_build_path (sp_context s) = true }.

Lemma valid_env_ok env k : valid_env env = true -> is_Some (env !! k) -> variable_name k = true /\ reserved_env k = false.
Proof.
  unfold valid_env. rewrite forallb_forall. intros H [v Hk]. specialize (H (k, v)). cbn in H.
  rewrite andb_true_iff, negb_true_iff in H. apply H, list_elem_of_In. by apply elem_of_map_to_list.
Qed.
Lemma valid_args_ok args k : valid_args args = true -> is_Some (args !! k) -> variable_name k = true.
Proof.
  unfold valid_args. rewrite forallb_forall. intros H [v Hk]. apply (H (k, v)), list_elem_of_In. by apply elem_of_map_to_list.
Qed.
Lemma normalize_platforms_ok l : forall seen out,
  NoDup seen -> Forall (fun p => p ∈ build_platforms) seen -> normalize_platforms seen l = Some out ->
  NoDup out /\ Forall (fun p => p ∈ build_platforms) out.
Proof.
  induction l as [|p l IH]; intros seen out Hn Hf; cbn; [by intros [= <-]|].
  case_bool_decide as Hp; cbn; [|done]. case_bool_decide as Hs; [by apply IH|]. apply IH.
  - apply NoDup_app. split_and!; [done| |apply NoDup_singleton]. intros x Hx ->%list_elem_of_singleton. done.
  - apply Forall_app. split; [done|]. by apply Forall_singleton.
Qed.
Lemma normalize_platforms_nil l : normalize_platforms [] l = Some [] <-> l = [].
Proof.
  split; [|by intros ->]. destruct l as [|p l]; [done|]. cbn. case_bool_decide; [|done]. cbn.
  assert (Hgrow : forall l seen out, seen <> [] -> normalize_platforms seen l = Some out -> out <> []).
  { clear. induction l as [|p l IH]; intros seen out Hs; cbn; [by intros [= <-]|]. case_bool_decide; [|done]. cbn.
    case_bool_decide; apply IH; [done|]. by destruct seen. }
  intros H0. exfalso. by apply (Hgrow l [platform p] []) in H0.
Qed.
Lemma has_build_fields_false s : has_build_fields s = false ->
  sp_dockerfile s = "" /\ sp_context s = "" /\ sp_build_args s = ∅ /\ sp_cache s = None /\ sp_platforms s = [].
Proof.
  unfold has_build_fields. rewrite !orb_false_iff, !negb_false_iff. intros ((((H1 & H2) & H3) & H4) & H5).
  apply String.eqb_eq in H1, H2. apply bool_decide_eq_true in H3, H5. apply bool_decide_eq_false in H4.
  split_and!; [done..| |done]. by destruct (sp_cache s); [destruct H4|].
Qed.
Lemma check_step_ok s s' : trim_space (sp_name s) <> "" -> check_step s = Ok s' -> step_ok s' /\ exists l, s' = with_platforms s l.
Proof.
  intros Hname. unfold check_step. destruct (valid_env (sp_env s)) eqn:He; cbn; [|done].
  destruct (negb (bool_decide (sp_env s = ∅)) && negb (String.eqb (sp_uses s) "")) eqn:Hb; [done|].
  destruct (String.eqb (sp_uses s) "" && String.eqb (trim_space (sp_image s)) "") eqn:Hi; [done|].
  destruct (negb (String.eqb (sp_uses s) "") && negb (uses uses_deploy s) && negb (uses uses_build s)) eqn:Hk; [done|].
  destruct (has_build_fields s && negb (uses uses_build s)) eqn:Hf; [done|].
  destruct (normalize_platforms [] (sp_platforms s)) as [l|] eqn:Hp; [|done]. destruct (valid_args (sp_build_args s)) eqn:Ha; cbn; [|done].
  destruct (valid_build_path (sp_dockerfile s) && valid_build_path (sp_context s)) eqn:Hd; [|done]. intros [= <-].
  split; [|by exists l]. apply andb_true_iff in Hd as [Hd Hc].
  destruct (normalize_platforms_ok _ _ _ NoDup_nil_2 (List.Forall_nil _) Hp) as [Hn Hin].
  unfold uses in *. split; cbn.
  - done.
  - destruct (String.eqb_spec (sp_uses s) "") as [Hu|Hu]; cbn in *.
    + left. split; [done|]. by apply String.eqb_neq in Hi.
    + right. rewrite andb_true_r in Hb. apply negb_false_iff, bool_decide_eq_true in Hb. split; [done|].
      apply andb_false_iff in Hk as [Hk|Hk]; apply negb_false_iff, String.eqb_eq in Hk; tauto.
  - intros Hu. apply String.eqb_neq in Hu. rewrite Hu, andb_true_r in Hf. apply has_build_fields_false in Hf as (H1 & H2 & H3 & H4 & H5).
    split_and!; [done..|]. rewrite H5 in Hp. by injection Hp.
  - intros k. by apply valid_env_ok.
  - intros k. by apply valid_args_ok.
  - done.
  - done.
Qed.
Lemma check_steps_ok l : forall i names out, check_steps i names l = Ok out ->
  Forall step_ok out /\ NoDup (sp_name <$> out) /\ (forall n, n ∈ names -> n ∉ sp_name <$> out) /\ sp_uses <$> out = sp_uses <$> l.
Proof.
  induction l as [|s l IH]; intros i names out; cbn.
  { intros [= <-]. split_and!; [constructor|constructor|intros n _ H; by apply elem_of_nil in H|done]. }
  destruct (String.eqb_spec (trim_space (sp_name s)) ""); [done|]. case_bool_decide as Hn; [done|].
  destruct (check_step s) as [s'|] eqn:Hs; [|done]. destruct (check_steps _ _ l) as [out'|] eqn:Hl; [|done]. intros [= <-].
  apply check_step_ok in Hs as (Hok & pl & ->); [|done]. apply IH in Hl as (Hf & Hd & Hno & Hu). split_and!.
  - by constructor.
  - cbn. constructor; [|done]. apply Hno. by left.
  - intros m Hm. cbn. intros [->|H]%elem_of_cons; [done|]. by apply (Hno m); [right|].
  - cbn. by f_equal.
Qed.

(** An accepted document: distinct, sound steps, no variable of the platform's own *)
Record spec_ok (s : spec) : Prop := SpecOk {
  ok_steps : ps_steps s <> [] /\ Forall step_ok (ps_steps s) /\ NoDup (sp_name <$> ps_steps s);
  ok_env : forall k, is_Some (ps_env s !! k) -> variable_name k = true /\ reserved_env k = false;
  ok_floating : forall v, ps_versioning s = Some v -> is_ok (normalize v) = true /\ (has_build s = false -> st_floating_tags v = []) }.
Lemma parse_spec_ok decode data s : parse_spec decode data = Ok s -> spec_ok s.
Proof.
  unfold parse_spec, check_spec. destruct (decode data) as [s0|]; [|done]. destruct (String.eqb _ api_version); cbn; [|done].
  destruct (String.eqb _ kind_pipeline); cbn; [|done]. case_bool_decide as Hne; [done|]. destruct (valid_env (ps_env s0)) eqn:He; cbn; [|done].
  destruct (check_steps _ _ _) as [l|] eqn:Hl; [|done]. apply check_steps_ok in Hl as (Hf & Hd & _ & Hu).
  assert (Hl : l <> []) by (intros ->; apply Hne; by destruct (ps_steps s0)).
  cbv zeta. change (ps_versioning (with_steps s0 l)) with (ps_versioning s0).
  destruct (ps_versioning s0) as [v|] eqn:Hv.
  - destruct (negb (existsb (uses uses_build) l) && negb (bool_decide (st_floating_tags v = []))) eqn:Hb; [done|].
    destruct (normalize v) eqn:Hnv; [|done]. intros [= <-]. split; [exact (conj Hl (conj Hf Hd))|intros k; by apply valid_env_ok|cbn].
    intros v' Hv'. assert (v' = v) as -> by congruence. split; [by rewrite Hnv|]. intros Hh. change (existsb (uses uses_build) l = false) in Hh. rewrite Hh in Hb. cbn in Hb. by case_bool_decide.
  - intros [= <-]. split; [exact (conj Hl (conj Hf Hd))|intros k; by apply valid_env_ok|cbn]. congruence.
Qed.
