(* ===== verification/JobSpec.v ===== *)
(** * What a runner is sent

    [internal/runners]: the job of a pipeline run (jobspec.go), the references of its build cache (buildcache.go), the secrets of
    its environment (secrets.go) and what is blacked out of its logs (credentials.go, [redact] of dispatcher.go). The parser of
    URLs and the vault are arguments.

    [redact] leaves none of the texts it is given in a line. The secrets are ASCII: what it writes in their place is not, so
    no new occurrence can arise where it has written. *)
From S2P Require Import Prelude GoStrings GoTime ManifestRefs PipelineSpec.
#[local] Open Scope Z_scope.
#[local] Open Scope list_scope.

(** ** Rows: models/pipeline.go *)

Inductive run_status := RunPending | RunRunning | RunSucceeded | RunFailed | RunCanceled.
#[export] Instance run_status_eq_dec : EqDecision run_status.
Proof. solve_decision. Defined.
(** [IsTerminal], and the texts *)
Definition is_terminal (s : run_status) : bool := match s with RunPending | RunRunning => false | _ => true end.
Definition status_text (s : run_status) : string :=
  match s with
  | RunPending => "pending" | RunRunning => "running" | RunSucceeded => "succeeded" | RunFailed => "failed" | RunCanceled => "canceled"
  end.
(** [PipelineRun] *)
Record run_row := RunRow {
  ru_id : N; ru_ws : N; ru_pipeline : N; ru_number : Z; ru_status : run_status; ru_trigger : string; ru_branch : string; ru_commit : string;
  ru_message : string; ru_key : option N; ru_user : option N; ru_image : option N; ru_version : string; ru_tag : string; ru_runner : option N;
  ru_error : string; ru_env : gmap string string; ru_no_cache : bool; ru_started : option instant; ru_finished : option instant;
  ru_created : instant }.
(** [PipelineStepRun], but for the columns of the log store *)
Record step_row := StepRow {
  sr_ordinal : Z; sr_name : string; sr_status : run_status; sr_image : string; sr_uses : string; sr_run : string; sr_dockerfile : string;
  sr_context : string; sr_build_args : gmap string string; sr_no_cache : bool; sr_platforms : list string; sr_env : gmap string string;
  sr_continue : bool; sr_logs : string }.

(** ** The build cache: buildcache.go *)

Definition between (lo hi : Z) (c : ascii) : bool := (lo <=? byte_code c) && (byte_code c <=? hi).
Definition continues (c : ascii) : bool := between 128 191 c.
(** How many bytes the first rune has: one for a byte that starts none *)
Definition rune_width (s : string) : nat :=
  match s with
  | String a (String b r) =>
      let more (n : nat) (ok : bool) : nat := (if ok then n else 1)%nat in
      if between 194 223 a then more 2%nat (continues b)
      else if between 224 239 a then
        match r with
        | String c _ =>
            let first := if between 224 224 a then between 160 191 b else if between 237 237 a then between 128 159 b else continues b in
            more 3%nat (first && continues c)
        | EmptyString => 1%nat
        end
      else if between 240 244 a then
        match r with
        | String c (String d _) =>
            let first := if between 240 240 a then between 144 191 b else if between 244 244 a then between 128 143 b else continues b in
            more 4%nat (first && continues c && continues d)
        | _ => 1%nat
        end
      else 1%nat
  | _ => 1%nat
  end.
Definition tag_byte (c : ascii) : bool := is_lower c || is_upper c || is_digit c || Ascii.eqb c "." || Ascii.eqb c "_" || Ascii.eqb c "-".
(** The loop of [sanitizeTagPart]: each rune that a tag may not have becomes a dash; [skip] bytes are of the rune before. *)
Fixpoint sanitize_runes (skip : nat) (s : string) : string :=
  match s with
  | EmptyString => ""
  | String c r =>
      match skip with
      | S k => sanitize_runes k r
      | O => if tag_byte c then String c (sanitize_runes 0 r) else String "-" (sanitize_runes (rune_width s - 1) r)
      end
  end.
Definition max_cache_branch_len : nat := 64.
Definition sanitize_tag_part (s : string) : string := trim_char "-" (sanitize_runes 0 (str_take max_cache_branch_len (trim_space s))).
(** [cacheTag], [CacheRefs] *)
Definition cache_tag (branch : string) (gen : N) : string :=
  let b := sanitize_tag_part branch in
  if String.eqb b "" then "cache-g" +:+ itoa (Z.of_N gen) else "cache-" +:+ b +:+ "-g" +:+ itoa (Z.of_N gen).
Definition cache_refs (repository branch trunk : string) (gen : N) : list string * string :=
  let repository := trim_space repository in
  if String.eqb repository "" then ([], "")
  else
    let to := repository +:+ ":" +:+ cache_tag branch gen in
    let t := repository +:+ ":" +:+ cache_tag trunk gen in
    (if String.eqb t to then [to] else [to; t], to).

(** ** The job: jobspec.go *)

Definition default_workdir : string := "/workspace".
(** [JobCredentials], and what [Mint] needs to revoke *)
Record job_credentials := JobCredentials { jc_user : string; jc_registry : string; jc_job : string; jc_keys : list N }.
(** [JobInputs] *)
Record job_inputs := JobInputs {
  ji_run : run_row; ji_pipeline : string; ji_steps : list step_row; ji_app : option N; ji_app_name : string; ji_workspace : string;
  ji_registry : string; ji_repository : string; ji_ref : string; ji_branch : string; ji_source : string; ji_workdir : string;
  ji_env : gmap string string; ji_generation : N; ji_trunk : string; ji_cold : bool; ji_creds : option job_credentials;
  ji_deadline : instant }.
(** [BuildConfig], [StepSpec] and [JobSpec], as they are filled *)
Record build_config := BuildConfig {
  bc_dockerfile : string; bc_context : string; bc_args : gmap string string; bc_no_cache : bool; bc_from : list string; bc_to : string;
  bc_platforms : list string; bc_method : string }.
Record step_spec := StepSpec {
  ss_ordinal : Z; ss_name : string; ss_uses : string; ss_image : string; ss_run : list string; ss_env : list string; ss_continue : bool;
  ss_build : option build_config }.
Record job_spec := JobSpec {
  js_run : N; js_number : Z; js_pipeline : string; js_ws : N; js_workspace : string; js_app : option N; js_app_name : string;
  js_commit : string; js_ref : string; js_branch : string; js_source : string; js_repository : string; js_registry : string;
  js_steps : list step_spec; js_env : list string; js_deadline : instant }.

(** [kv], [appendKV], [sortedKV], [utos] *)
Definition kv (k v : string) : string := k +:+ "=" +:+ v.
Definition kv_if (k v : string) : list string := if String.eqb v "" then [] else [kv k v].
Definition utos (n : N) : string := itoa (Z.of_N n).
Definition sorted_kv (m : gmap string string) : list string := (fun k => kv k (default "" (m !! k))) <$> sort_strings (map_to_list m).*1.

(** [versionEnv] *)
Definition version_env (r : run_row) : list string :=
  if String.eqb (ru_version r) "" then []
  else
    let '(core, pre, _) := cut "-" (ru_version r) in
    [kv "MIABI_VERSION" (ru_version r); kv "MIABI_IMAGE_TAG" (ru_tag r)]
    ++ zip_with kv ["MIABI_VERSION_MAJOR"; "MIABI_VERSION_MINOR"; "MIABI_VERSION_PATCH"] (split "." core)
    ++ kv_if "MIABI_VERSION_PRERELEASE" pre.
(** [strings.NewReplacer]: at each place the first pair that matches *)
Fixpoint replace_pairs (pairs : list (string * string)) (skip : nat) (s : string) : string :=
  match s with
  | EmptyString => ""
  | String c r =>
      match skip with
      | S k => replace_pairs pairs k r
      | O =>
          match find_first (fun p => has_prefix p.1 s) pairs with
          | Some (old, new) => new +:+ replace_pairs pairs (String.length old - 1) r
          | None => String c (replace_pairs pairs 0 r)
          end
      end
  end.
(** [expandVersionArgs] *)
Definition expand_version_args (args : gmap string string) (r : run_row) : gmap string string :=
  if String.eqb (ru_version r) "" then args
  else
    let pairs := (fun e => let '(k, v, _) := cut "=" e in ("${" +:+ k +:+ "}", v)) <$> version_env r in
    replace_pairs pairs 0 <$> args.

(** [buildConfig] *)
Definition build_config_of (s : step_row) (i : job_inputs) : option build_config :=
  if negb (String.eqb (sr_uses s) uses_build) then None
  else
    let no_cache := sr_no_cache s || ji_cold i in
    let '(from, to) := cache_refs (ji_repository i) (ji_branch i) (ji_trunk i) (ji_generation i) in
    let df := trim_space (sr_dockerfile s) in
    let ctx := trim_space (sr_context s) in
    if String.eqb df "" && String.eqb ctx "" && bool_decide (sr_build_args s = ∅) && negb no_cache && String.eqb to "" &&
       bool_decide (sr_platforms s = []) then None
    else Some (BuildConfig df ctx (expand_version_args (sr_build_args s) (ji_run i)) no_cache from to (sr_platforms s)
                 (if String.eqb df "" then "dockerfile" else "")).
(** [shellCommand] *)
Definition shell_command (run : string) : list string := if String.eqb (trim_space run) "" then [] else ["sh"; "-c"; run].
Definition step_of (i : job_inputs) (s : step_row) : step_spec :=
  StepSpec (sr_ordinal s) (sr_name s) (sr_uses s) (sr_image s) (shell_command (sr_run s)) (sorted_kv (sr_env s)) (sr_continue s) (build_config_of s i).
(** [Secrets] of the credentials *)
Definition cred_secrets (c : option job_credentials) : list string :=
  match c with Some c => List.filter (fun v => negb (String.eqb v "")) [jc_registry c; jc_job c] | None => [] end.
Definition cred_env (c : option job_credentials) : list string :=
  match c with
  | Some c => kv_if "MIABI_REGISTRY_USER" (jc_user c) ++ kv_if "MIABI_REGISTRY_TOKEN" (jc_registry c) ++ kv_if "MIABI_JOB_TOKEN" (jc_job c)
  | None => []
  end.

(** [BuildJobSpec] without its mask *)
Definition build_job_spec (i : job_inputs) : job_spec :=
  let r := ji_run i in
  let workdir := if String.eqb (ji_workdir i) "" then default_workdir else ji_workdir i in
  let env :=
    [kv "MIABI_WORKSPACE_NAME" (ji_workspace i); kv "MIABI_WORKSPACE_ID" (utos (ru_ws r)); kv "MIABI_RUN_ID" (utos (ru_id r));
     kv "MIABI_RUN_NUMBER" (itoa (ru_number r)); kv "MIABI_PIPELINE" (ji_pipeline i); kv "MIABI_COMMIT" (ru_commit r); kv "MIABI_WORKDIR" workdir]
    ++ kv_if "MIABI_APP_NAME" (ji_app_name i)
    ++ match ji_app i with Some a => [kv "MIABI_APP_ID" (utos a)] | None => [] end
    ++ kv_if "MIABI_REF" (ji_ref i) ++ kv_if "MIABI_BRANCH" (ji_branch i) ++ kv_if "MIABI_REGISTRY" (ji_registry i)
    ++ kv_if "MIABI_IMAGE_REPOSITORY" (ji_repository i) ++ version_env r ++ sorted_kv (ji_env i) ++ cred_env (ji_creds i) in
  JobSpec (ru_id r) (ru_number r) (ji_pipeline i) (ru_ws r) (ji_workspace i) (ji_app i) (ji_app_name i) (ru_commit r) (ji_ref i) (ji_branch i)
    (ji_source i) (ji_repository i) (ji_registry i) (step_of i <$> ji_steps i) env (ji_deadline i).

(** [requiredRunnerVersion], [requiredFeatures] *)
Definition min_build_inputs_version : string := "0.0.8".
Definition required_runner_version (steps : list step_row) : string :=
  if existsb (fun s => String.eqb (sr_uses s) uses_build &&
                       (negb (String.eqb (trim_space (sr_context s)) "") || negb (bool_decide (sr_build_args s = ∅)))) steps
  then min_build_inputs_version else "".
Definition required_features (multi_platform : string) (steps : list step_row) : list string :=
  if existsb (fun s => String.eqb (sr_uses s) uses_build && negb (bool_decide (sr_platforms s = []))) steps then [multi_platform] else [].

(** ** Secrets: secrets.go, credentials.go *)

(** [url.Parse] and [UserPassword]: the password of a URL, and that password as a URL writes it *)
Record url_library := UrlLibrary { ul_password : string -> option string; ul_encode : string -> string }.
(** [sourceURLSecrets] *)
Definition source_url_secrets (u : url_library) (source : string) : list string :=
  match ul_password u source with
  | None => []
  | Some pw => if String.eqb pw "" then [] else let enc := ul_encode u pw in if String.eqb enc pw then [pw] else [pw; enc]
  end.
(** The mask [BuildJobSpec] answers beside the job *)
Definition job_mask (u : url_library) (i : job_inputs) : list string := cred_secrets (ji_creds i) ++ source_url_secrets u (ji_source i).

Fixpoint has_ref_in (s : string) : bool :=
  match runtime_secret_at s with
  | Some _ => true
  | None => match s with String _ r => has_ref_in r | EmptyString => false end
  end.
(** [hasSecretRef], [specHasSecretRef] *)
Definition has_secret_ref (env : list string) : bool := existsb has_ref_in env.
Definition spec_has_secret_ref (j : job_spec) : bool := has_secret_ref (js_env j) || existsb (fun s => has_secret_ref (ss_env s)) (js_steps j).
(** [valueOf], [changedValues] *)
Definition value_of (entry : string) : string := (cut "=" entry).1.2.
Definition changed_values (before after : list string) : list string :=
  omap (fun p : string * string =>
          if String.eqb p.1 p.2 then None else let v := value_of p.2 in if String.eqb v "" then None else Some v) (zip before after).
(** [SecretResolver]: [None] is an error *)
Definition resolver : Type := N -> list string -> option (list string).
Inductive secret_err := ErrSecretsUnavailable | ErrJobEnv | ErrStepEnv (step : string).
Fixpoint resolve_steps (r : resolver) (ws : N) (steps : list step_spec) : result secret_err (list step_spec * list string) :=
  match steps with
  | [] => Ok ([], [])
  | s :: steps =>
      let keep (s : step_spec) (mask : list string) :=
        match resolve_steps r ws steps with Ok (l, m) => Ok (s :: l, mask ++ m) | Err e => Err e end in
      match ss_env s with
      | [] => keep s []
      | _ =>
          match r ws (ss_env s) with
          | None => Err (ErrStepEnv (ss_name s))
          | Some env => keep (StepSpec (ss_ordinal s) (ss_name s) (ss_uses s) (ss_image s) (ss_run s) env (ss_continue s) (ss_build s))
                          (changed_values (ss_env s) env)
          end
      end
  end.
Definition with_env (j : job_spec) (steps : list step_spec) (env : list string) : job_spec :=
  JobSpec (js_run j) (js_number j) (js_pipeline j) (js_ws j) (js_workspace j) (js_app j) (js_app_name j) (js_commit j) (js_ref j) (js_branch j)
    (js_source j) (js_repository j) (js_registry j) steps env (js_deadline j).
(** [resolveJobSecrets]: the job with its secrets, and the values to mask *)
Definition resolve_job_secrets (r : option resolver) (ws : N) (j : job_spec) : result secret_err (job_spec * list string) :=
  if negb (spec_has_secret_ref j) then Ok (j, [])
  else
    match r with
    | None => Err ErrSecretsUnavailable
    | Some r =>
        match r ws (js_env j) with
        | None => Err ErrJobEnv
        | Some env =>
            match resolve_steps r ws (js_steps j) with
            | Err e => Err e
            | Ok (steps, mask) => Ok (with_env j steps env, changed_values (js_env j) env ++ mask)
            end
        end
    end.

(** ** [redact] *)

Definition mask_text : string := of_chars (ascii_of_nat <$> [226; 128; 162; 226; 128; 162; 226; 128; 162; 226; 128; 162]%nat).
(** [strings.ReplaceAll] of a text that is not empty; [skip] bytes are of the match before. *)
Fixpoint replace_all (old new : string) (skip : nat) (s : string) : string :=
  match s with
  | EmptyString => ""
  | String c r =>
      match skip with
      | S k => replace_all old new k r
      | O => if has_prefix old s then new +:+ replace_all old new (String.length old - 1) r else String c (replace_all old new 0 r)
      end
  end.
Definition redact (line : string) (secrets : list string) : string :=
  foldl (fun line s => if String.eqb s "" then line else replace_all s mask_text 0 line) line secrets.

Example cache_tags : (fun b => cache_tag b 3) <$> ["main"; "main-"; "feature/x"; "main#"; "##"; ""] =
  ["cache-main-g3"; "cache-main-g3"; "cache-feature-x-g3"; "cache-main-g3"; "cache-g3"; "cache-g3"].
Proof. vm_compute. reflexivity. Qed.

(** * What a log shows of a job's secrets *)

(** ** Occurrences *)

Definition ascii_text (s : string) : bool := str_forall (fun c => byte_code c <? 128) s.
(** A text that can be hidden: not empty, and ASCII *)
Definition maskable (s : string) : Prop := s <> "" /\ ascii_text s = true.

Lemma has_prefix_spec p s : has_prefix p s = true <-> exists r, s = p +:+ r.
Proof.
  unfold has_prefix. split.
  - destruct (cut_prefix p s) as [r|] eqn:E; [|done]. intros _. exists r. by apply cut_prefix_some.
  - intros [r ->]. by rewrite cut_prefix_app.
Qed.
Lemma contains_cons sub c s : contains sub (String c s) = has_prefix sub (String c s) || contains sub s.
Proof. done. Qed.
Lemma contains_app sub a s : contains sub s = true -> contains sub (a +:+ s) = true.
Proof. intros H. induction a as [|c a IH]; [done|]. change (String c a +:+ s) with (String c (a +:+ s)). by rewrite contains_cons, IH, orb_true_r. Qed.
(** The text written begins no occurrence of an ASCII text. *)
Lemma prefix_mask s rest n : maskable s -> has_prefix s (str_drop n mask_text +:+ rest) = true -> (12 <= n)%nat.
Proof.
  intros [Hne Ha] Hp. destruct s as [|c s]; [done|]. cbn in Ha. apply andb_true_iff in Ha as [Hc _].
  assert (Hn : forall x y, has_prefix (String c s) (String x y) = true -> 128 <=? byte_code x = true -> False).
  { intros x y Hx Hb. cbn in Hx. unfold has_prefix in Hx. cbn in Hx. destruct (Ascii.eqb_spec c x) as [->|]; [|done].
    apply Z.leb_le in Hb. apply Z.ltb_lt in Hc. lia. }
  do 12 (destruct n as [|n]; [exfalso; by eapply Hn; [exact Hp|]|]). lia.
Qed.
Lemma contains_mask s rest : maskable s -> contains s (mask_text +:+ rest) = contains s rest.
Proof.
  intros Hs. apply eq_true_iff_eq. split; [|apply contains_app].
  assert (Hn : forall n, (n <= 12)%nat -> contains s (str_drop (12 - n) mask_text +:+ rest) = true -> contains s rest = true).
  { intros n. induction n as [|n IH]; [by intros|]. intros Hn. 
    assert (E : exists x, str_drop (12 - S n) mask_text = String x (str_drop (12 - n) mask_text)).
    { do 12 (destruct n as [|n]; [by eexists|]). lia. }
    destruct E as [x E]. intros Hc. rewrite E in Hc. cbn [String.append] in Hc.
    apply orb_true_iff in Hc as [Hp|Hc].
    - exfalso. assert (12 <= 12 - S n)%nat; [|lia]. eapply prefix_mask; [exact Hs|]. rewrite E. exact Hp.
    - apply IH; [lia|]. exact Hc. }
  apply (Hn 12%nat). lia.
Qed.

(** ** One replacement *)

Section Replacing.
Context (t : string) (Ht : t <> "").
Lemma prefix_replaced s r : maskable s -> has_prefix s (replace_all t mask_text 0 r) = true -> has_prefix s r = true.
Proof.
  revert r. induction s as [|a s IH]; intros r [Hne Ha] Hp; [done|]. destruct r as [|c r]; [done|].
  cbn [replace_all] in Hp. destruct (has_prefix t (String c r)) eqn:E.
  { exfalso. assert (12 <= 0)%nat; [|lia]. eapply (prefix_mask (String a s) _ 0); [done|]. exact Hp. }
  cbn in Ha. apply andb_true_iff in Ha as [Hc Ha]. unfold has_prefix in Hp |- *. cbn in Hp |- *. destruct (Ascii.eqb a c); [|done].
  destruct (decide (s = "")) as [->|Hs]; [done|]. by apply IH.
Qed.
(** No occurrence of another secret is made, *)
Lemma contains_replaced s r : maskable s -> forall k, contains s (replace_all t mask_text k r) = true -> contains s r = true.
Proof.
  intros Hs. induction r as [|c r IH]; intros k Hc; [done|]. cbn [replace_all] in Hc. rewrite contains_cons. destruct k as [|k].
  2:{ apply orb_true_iff. right. by eapply IH. }
  destruct (has_prefix t (String c r)) eqn:E.
  - rewrite contains_mask in Hc by done. apply orb_true_iff. right. by eapply IH.
  - rewrite contains_cons in Hc. apply orb_true_iff in Hc as [Hp|Hc]; apply orb_true_iff; [left|right; by eapply IH].
    apply prefix_replaced; [done|]. cbn [replace_all]. by rewrite E.
Qed.
End Replacing.
(** and none is left of this one. *)
Lemma replaced_gone s r : maskable s -> forall k, contains s (replace_all s mask_text k r) = false.
Proof.
  intros Hs. pose proof Hs as [Hne _]. induction r as [|c r IH]; intros k; cbn [replace_all].
  { destruct s; done. }
  destruct k as [|k]; [|apply IH]. destruct (has_prefix s (String c r)) eqn:E; [by rewrite contains_mask|].
  rewrite contains_cons, IH, orb_false_r. apply not_true_iff_false. intros Hp. assert (has_prefix s (String c r) = true); [|congruence].
  apply (prefix_replaced s); [done|]. cbn [replace_all]. by rewrite E.
Qed.

(** ** A whole mask *)

Lemma redact_keeps_out s mask : maskable s -> forall line, contains s line = false -> contains s (redact line mask) = false.
Proof.
  intros Hs. unfold redact. induction mask as [|t mask IH]; intros line H; cbn; [done|]. apply IH. destruct (String.eqb_spec t "") as [|Ht]; [done|].
  apply not_true_iff_false. intros Hc. apply contains_replaced in Hc; [congruence|done].
Qed.
Lemma redact_hides s mask line : maskable s -> s ∈ mask -> contains s (redact line mask) = false.
Proof.
  intros Hs. revert line. induction mask as [|t mask IH]; intros line; [by intros ?%elem_of_nil|]. intros [->|H]%elem_of_cons; [|by apply IH].
  change (redact line (t :: mask)) with (redact (if String.eqb t "" then line else replace_all t mask_text 0 line) mask).
  apply redact_keeps_out; [done|]. destruct (String.eqb_spec t ""); [by destruct Hs|]. by apply replaced_gone.
Qed.
