(* ===== verification/Dispatch.v ===== *)
(** * A pipeline run and its runner

    [internal/worker/pipeline.go] and [internal/runners/dispatcher.go]: a run from its task to its end. The worker checks the
    run, dispatches it, or has it wait; the dispatcher leases a runner ([Scheduler]), mints the job's keys ([ApiKeys]), sends the
    job ([JobSpec]) and follows the frames the runner answers: it logs, records the image ([Images]), settles the version
    ([VersionService]) and deploys. The connection to the runner and its frames are arguments. [dk_faults] says which
    writes of the run's rows, releases of its lease and calls of the queue fail, in order; the code ignores the first two. *)
From S2P Require Import Prelude GoStrings GoTime Quota Scheduler ApiScopes Accounts Members ApiKeys ManifestRefs PipelineSpec JobSpec.
From S2P Require Registry Images Semver VersionService DeployRules.
#[local] Open Scope Z_scope.
#[local] Open Scope list_scope.

(** ** Frames and events *)

(** [proto.Frame], the parts each type uses *)
Inductive frame :=
| FrameLog (step : Z) (line : string) | FrameStep (step : Z) (status : string) | FrameResult (digest : string)
| FrameError (error : string) | FrameDone (status : string) | FrameOther.
(** What a turn of the loop finds: the context's end, or a frame. After the last turn the stream has ended. *)
Inductive turn := Cancelled | Reads (f : frame).

(** The deployment [DeployByDigest] creates *)
Record deploy_request := DeployRequest {
  dq_app : N; dq_image : string; dq_image_id : option N; dq_tag : string; dq_run : N; dq_runner : option N; dq_commit : string;
  dq_strategy : string; dq_server : option N }.
(** What the run's history shows, in order: what is published, queued, asked of the registry *)
Inductive event :=
| Logged (line : string) | Stepped (step : Z) (status : run_status) | Statused (status : run_status) | Finished (status : run_status)
| Deploying (d : deploy_request) (queued : bool) | Queued | HandedOff | Called (c : VersionService.registry_call) | CacheBuilt (app generation : N).

Inductive job_err :=
| ErrSelect (e : runner_err) | ErrMint | ErrSecrets (e : secret_err) | ErrLease | ErrRunnerOffline | ErrOpenStream | ErrSendJob | ErrCancelled
| ErrStreamEnded | ErrPipelineGone | ErrSpec (e : spec_err) | ErrVersion (e : Semver.version_error) | ErrApplication | ErrRepository
| ErrSource | ErrHandOff | ErrNoRunnerCame (reason : string).

(** ** The state *)

(** The run and its steps in memory, and as they are stored; the tables of others; the events *)
Record desk (T : Type) := Desk {
  dk_run : run_row; dk_steps : list step_row; dk_saved : run_row; dk_saved_steps : list step_row; dk_keys : world;
  dk_leases : list runner_lease; dk_catalog : Images.catalog; dk_versions : T; dk_events : list event; dk_faults : list bool }.
Arguments Desk {T}.
Arguments dk_run {T}. Arguments dk_steps {T}. Arguments dk_saved {T}. Arguments dk_saved_steps {T}. Arguments dk_keys {T}.
Arguments dk_leases {T}. Arguments dk_catalog {T}. Arguments dk_versions {T}. Arguments dk_events {T}. Arguments dk_faults {T}.

Section Setters.
Context {T : Type}.
Implicit Type d : desk T.
Definition set_run (r : run_row) d : desk T := Desk r (dk_steps d) (dk_saved d) (dk_saved_steps d) (dk_keys d) (dk_leases d) (dk_catalog d) (dk_versions d) (dk_events d) (dk_faults d).
Definition set_steps (l : list step_row) d : desk T := Desk (dk_run d) l (dk_saved d) (dk_saved_steps d) (dk_keys d) (dk_leases d) (dk_catalog d) (dk_versions d) (dk_events d) (dk_faults d).
Definition set_saved (r : run_row) d : desk T := Desk (dk_run d) (dk_steps d) r (dk_saved_steps d) (dk_keys d) (dk_leases d) (dk_catalog d) (dk_versions d) (dk_events d) (dk_faults d).
Definition set_saved_steps (l : list step_row) d : desk T := Desk (dk_run d) (dk_steps d) (dk_saved d) l (dk_keys d) (dk_leases d) (dk_catalog d) (dk_versions d) (dk_events d) (dk_faults d).
Definition set_world (w : world) d : desk T := Desk (dk_run d) (dk_steps d) (dk_saved d) (dk_saved_steps d) w (dk_leases d) (dk_catalog d) (dk_versions d) (dk_events d) (dk_faults d).
Definition set_leases (l : list runner_lease) d : desk T := Desk (dk_run d) (dk_steps d) (dk_saved d) (dk_saved_steps d) (dk_keys d) l (dk_catalog d) (dk_versions d) (dk_events d) (dk_faults d).
Definition set_catalog (c : Images.catalog) d : desk T := Desk (dk_run d) (dk_steps d) (dk_saved d) (dk_saved_steps d) (dk_keys d) (dk_leases d) c (dk_versions d) (dk_events d) (dk_faults d).
Definition set_versions (t : T) d : desk T := Desk (dk_run d) (dk_steps d) (dk_saved d) (dk_saved_steps d) (dk_keys d) (dk_leases d) (dk_catalog d) t (dk_events d) (dk_faults d).
Definition emit (l : list event) d : desk T := Desk (dk_run d) (dk_steps d) (dk_saved d) (dk_saved_steps d) (dk_keys d) (dk_leases d) (dk_catalog d) (dk_versions d) (dk_events d ++ l) (dk_faults d).
(** Whether the next of these calls fails *)
Definition next_fault d : bool * desk T :=
  (default false (head (dk_faults d)),
   Desk (dk_run d) (dk_steps d) (dk_saved d) (dk_saved_steps d) (dk_keys d) (dk_leases d) (dk_catalog d) (dk_versions d) (dk_events d) (tail (dk_faults d))).
Definition write_row (f : desk T -> desk T) d : desk T := let '(fails, d) := next_fault d in if fails then d else f d.
(** [UpdateRun], [UpdateStep] *)
Definition update_run d : desk T := write_row (fun d => set_saved (dk_run d) d) d.
Definition put_step (s : step_row) (l : list step_row) : list step_row := (fun o => if sr_ordinal o =? sr_ordinal s then s else o) <$> l.
Definition update_step (s : step_row) d : desk T := write_row (fun d => set_saved_steps (put_step s (dk_saved_steps d)) d) d.
Definition on_keys {A} (m : M A) d : desk T * result acc_err A := let '(w, r) := m (dk_keys d) in (set_world w d, r).
End Setters.

(** *** Changes of a row *)

Definition with_status (st : run_status) (r : run_row) : run_row :=
  RunRow (ru_id r) (ru_ws r) (ru_pipeline r) (ru_number r) st (ru_trigger r) (ru_branch r) (ru_commit r) (ru_message r) (ru_key r) (ru_user r)
    (ru_image r) (ru_version r) (ru_tag r) (ru_runner r) (ru_error r) (ru_env r) (ru_no_cache r) (ru_started r) (ru_finished r) (ru_created r).
Definition with_error (e : string) (r : run_row) : run_row :=
  RunRow (ru_id r) (ru_ws r) (ru_pipeline r) (ru_number r) (ru_status r) (ru_trigger r) (ru_branch r) (ru_commit r) (ru_message r) (ru_key r) (ru_user r)
    (ru_image r) (ru_version r) (ru_tag r) (ru_runner r) e (ru_env r) (ru_no_cache r) (ru_started r) (ru_finished r) (ru_created r).
Definition with_times (started finished : option instant) (r : run_row) : run_row :=
  RunRow (ru_id r) (ru_ws r) (ru_pipeline r) (ru_number r) (ru_status r) (ru_trigger r) (ru_branch r) (ru_commit r) (ru_message r) (ru_key r) (ru_user r)
    (ru_image r) (ru_version r) (ru_tag r) (ru_runner r) (ru_error r) (ru_env r) (ru_no_cache r) started finished (ru_created r).
Definition with_runner (id : N) (r : run_row) : run_row :=
  RunRow (ru_id r) (ru_ws r) (ru_pipeline r) (ru_number r) (ru_status r) (ru_trigger r) (ru_branch r) (ru_commit r) (ru_message r) (ru_key r) (ru_user r)
    (ru_image r) (ru_version r) (ru_tag r) (Some id) (ru_error r) (ru_env r) (ru_no_cache r) (ru_started r) (ru_finished r) (ru_created r).
Definition with_image (id : N) (r : run_row) : run_row :=
  RunRow (ru_id r) (ru_ws r) (ru_pipeline r) (ru_number r) (ru_status r) (ru_trigger r) (ru_branch r) (ru_commit r) (ru_message r) (ru_key r) (ru_user r)
    (Some id) (ru_version r) (ru_tag r) (ru_runner r) (ru_error r) (ru_env r) (ru_no_cache r) (ru_started r) (ru_finished r) (ru_created r).
Definition with_version (v tag : string) (r : run_row) : run_row :=
  RunRow (ru_id r) (ru_ws r) (ru_pipeline r) (ru_number r) (ru_status r) (ru_trigger r) (ru_branch r) (ru_commit r) (ru_message r) (ru_key r) (ru_user r)
    (ru_image r) v tag (ru_runner r) (ru_error r) (ru_env r) (ru_no_cache r) (ru_started r) (ru_finished r) (ru_created r).
Definition step_status (st : run_status) (logs : string) (s : step_row) : step_row :=
  StepRow (sr_ordinal s) (sr_name s) st (sr_image s) (sr_uses s) (sr_run s) (sr_dockerfile s) (sr_context s) (sr_build_args s) (sr_no_cache s)
    (sr_platforms s) (sr_env s) (sr_continue s) logs.

(** ** What is wired, and what others answer *)

(** The rows a job reads: of an application its workspace, name, source and cache, and what its deployment needs *)
Record app_row := AppRow {
  ap_id : N; ap_ws : N; ap_name : string; ap_git : string; ap_git_id : option N; ap_ref : string; ap_generation : N; ap_built : N;
  ap_strategy : string; ap_released : bool; ap_server : option N }.
Record repo_row := RepoRow { rp_id : N; rp_ws : N; rp_url : string }.
(** The definition, as far as a run reads it *)
Record pipeline_row := PipelineRow {
  pi_id : N; pi_ws : N; pi_name : string; pi_app : option N; pi_repo : option N; pi_spec : string }.

Record yard := Yard {
  yd_env : list runner_lease -> runner_env;                  (* the runners, over the leases *)
  yd_valid : string -> bool; yd_compare : string -> string -> Z;
  yd_minter : option bool; yd_random : list Z * list Z;       (* [jobTokenEnabled]; the tokens' bytes *)
  yd_timeout : duration; yd_url : url_library; yd_vault : option resolver; yd_multi : string;
  yd_session : N -> bool; yd_opens : bool; yd_sends : bool; yd_lease_id : N; yd_lease_fails : bool;
  yd_images : bool; yd_versions : option (option VersionService.registry * bool); yd_builds : bool;
  yd_apps : option (list app_row); yd_deploy_fails : bool * bool; yd_tail : string -> string;
  yd_decode : string -> option spec; yd_pipelines : option pipeline_row; yd_repos : list repo_row; yd_workspace : option string;
  yd_registry : string; yd_credential : string -> option repo_row -> option string;
  yd_text : job_err -> string; yd_wait : duration; yd_now : instant; yd_end : instant }.

(** [mapStatus] *)
Definition map_status (s : string) : run_status :=
  if String.eqb s "running" then RunRunning else if String.eqb s "succeeded" then RunSucceeded
  else if String.eqb s "canceled" then RunCanceled else RunFailed.

Section Dispatch.
Context {T : Type} `{VersionService.VersionDB T} (y : yard).
Implicit Type d : desk T.

(** ** Credentials: credentials.go *)

Definition registry_username : string := "miabi-job".
(** [Revoke]: a failing call is passed over. *)
Fixpoint revoke_keys (ids : list N) : M unit :=
  match ids with [] => mret tt | id :: ids => _ ← attempt (revoke_key id); revoke_keys ids end.
(** [Mint] *)
Definition mint (job_token : bool) (subject ws : N) (app : option N) (run : N) (deadline : instant) : M job_credentials :=
  a ← key_create_ephemeral subject ws app ("job:run-" +:+ utos run +:+ ":registry") [scope_registry_write; scope_registry_read] deadline (yd_random y).1;
  let creds := JobCredentials registry_username a.1 "" [k_id a.2] in
  if job_token then
    b ← attempt (key_create_ephemeral subject ws app ("job:run-" +:+ utos run +:+ ":deploy") [scope_deploy] deadline (yd_random y).2);
    match b with
    | None => _ ← revoke_keys (jc_keys creds); throw ErrStorage
    | Some b => mret (JobCredentials registry_username a.1 b.1 [k_id a.2; k_id b.2])
    end
  else mret creds.

(** ** The frames: [processFrames] *)

Record meta := Meta { mt_runner : string; mt_repository : string; mt_app : option N; mt_mask : list string; mt_digest : string }.
Definition log (line : string) d : desk T := emit [Logged line] d.

(** [recordImage] *)
Definition record_image (m : meta) (digest : string) d : desk T :=
  if String.eqb digest "" || negb (yd_images y) then d
  else
    let '(f1, d) := next_fault d in
    let '(f2, d) := next_fault d in
    let r := dk_run d in
    let '(c, res) := Images.record_image
      (Images.RecordInput (ru_ws r) (mt_repository m) ("run-" +:+ itoa (ru_number r)) digest 0 (mt_app m) (Some (ru_id r)) (ru_commit r) (mt_runner m))
      (yd_now y) (f1, f2) (dk_catalog d) in
    let d := set_catalog c d in
    match res with
    | Ok img => write_row (fun d => set_saved (with_image (Images.ig_id img) (dk_saved d)) d) (set_run (with_image (Images.ig_id img) (dk_run d)) d)
    | Err _ => d
    end.
(** [finish] *)
Definition finish d : desk T :=
  let r := dk_run d in
  let d := update_run (set_run (with_times (ru_started r) (Some (yd_end y)) r) d) in emit [Finished (ru_status r)] d.
(** The run as the versioning service reads it; [settleVersion] *)
Definition version_run (r : run_row) : VersionService.pipeline_run :=
  VersionService.PipelineRun (ru_id r) (ru_ws r) (ru_branch r) (ru_commit r) (ru_message r) (bool_decide (ru_status r = RunSucceeded)) (ru_image r)
    (yd_builds y) (ru_version r) (ru_tag r).
Definition settle_version (digest repository : string) d : desk T :=
  match yd_versions y with
  | None => d
  | Some (rg, images) =>
      let '(t, calls) := VersionService.settle rg images (dk_versions d) (version_run (dk_run d)) (status_text (ru_status (dk_run d))) digest repository in
      emit (Called <$> calls) (set_versions t d)
  end.
(** [persistStepLogs]: the steps that logged, whatever the order of the map *)
Definition with_log (logs : gmap Z string) (s : step_row) : step_row :=
  match logs !! sr_ordinal s with
  | Some l => if String.eqb l "" then s else step_status (sr_status s) (yd_tail y l) s
  | None => s
  end.
Definition persist_step_logs (logs : gmap Z string) d : desk T :=
  foldl (fun d s => match logs !! sr_ordinal s with
                    | Some l => if String.eqb l "" then d else update_step (with_log logs s) d
                    | None => d
                    end) (set_steps (with_log logs <$> dk_steps d) d) (dk_steps d).
(** [hasDeployStep], [DeployByDigest], [maybeDeploy] *)
Definition has_deploy_step (steps : list step_row) : bool := existsb (fun s => String.eqb (sr_uses s) uses_deploy) steps.
Definition deploy_by_digest (app : N) (image : string) d : option (desk T) :=
  match yd_apps y ≫= find_first (fun a => (ap_id a =? app)%N) with
  | None => None
  | Some a =>
      let r := dk_run d in
      if negb (ap_ws a =? ru_ws r)%N then None
      else if (yd_deploy_fails y).1 then None
      else
        let q := DeployRequest (ap_id a) image (ru_image r) (ru_tag r) (ru_id r) (ru_runner r) (ru_commit r)
                   (DeployRules.effective_deploy_strategy (ap_strategy a) (ap_released a) "") (ap_server a) in
        Some (emit [Deploying q (negb (yd_deploy_fails y).2)] d)
  end.
Definition maybe_deploy (m : meta) d : desk T :=
  match yd_apps y, mt_app m with
  | Some _, Some app =>
      if String.eqb (mt_digest m) "" || String.eqb (mt_repository m) "" || negb (has_deploy_step (dk_steps d)) then d
      else
        let ref := mt_repository m +:+ "@" +:+ mt_digest m in
        match deploy_by_digest app ref d with
        | None => d
        | Some d => if (yd_deploy_fails y).2 then d else log ("enqueued deploy-by-digest " +:+ ref) d
        end
  | _, _ => d
  end.

(** The end of a run that a frame decides *)
Definition conclude (m : meta) (logs : gmap Z string) (r : run_row) d : desk T :=
  let d := finish (set_run r d) in
  let d := settle_version (mt_digest m) (mt_repository m) d in
  let d := persist_step_logs logs d in
  emit [Statused (ru_status r)] d.
Definition with_digest (m : meta) (digest : string) : meta := Meta (mt_runner m) (mt_repository m) (mt_app m) (mt_mask m) digest.
Definition set_status (n : Z) (st : run_status) (l : list step_row) : list step_row :=
  (fun s => if sr_ordinal s =? n then step_status st (sr_logs s) s else s) <$> l.
Definition find_step (n : Z) (l : list step_row) : option step_row := find_first (fun s => sr_ordinal s =? n) (reverse l).
(** One frame: the state after it, and what the loop goes on with *)
Definition on_frame (m : meta) (logs : gmap Z string) (f : frame) d : desk T * option (meta * gmap Z string) :=
  match f with
  | FrameLog n line =>
      let line := redact line (mt_mask m) in
      (log line d, Some (m, <[n := default "" (logs !! n) +:+ line +:+ String "010" ""]> logs))
  | FrameStep n status =>
      let st := map_status status in
      match find_step n (dk_steps d) with
      | None => (d, Some (m, logs))
      | Some s => (emit [Stepped n st] (update_step (step_status st (sr_logs s) s) (set_steps (set_status n st (dk_steps d)) d)), Some (m, logs))
      end
  | FrameResult digest => (record_image m digest d, Some (with_digest m digest, logs))
  | FrameError e => (conclude m logs (with_error e (with_status RunFailed (dk_run d))) d, None)
  | FrameDone status =>
      let d := conclude m logs (with_status (map_status status) (dk_run d)) d in
      (if bool_decide (ru_status (dk_run d) = RunSucceeded) then maybe_deploy m d else d, None)
  | FrameOther => (d, Some (m, logs))
  end.
Fixpoint process_frames (m : meta) (logs : gmap Z string) (turns : list turn) d : desk T * result job_err unit :=
  match turns with
  | [] => (persist_step_logs logs d, Err ErrStreamEnded)
  | Cancelled :: _ => (d, Err ErrCancelled)
  | Reads f :: turns =>
      match on_frame m logs f d with
      | (d, None) => (d, Ok tt)
      | (d, Some (m, logs)) => process_frames m logs turns d
      end
  end.

(** ** [Dispatch] *)

(** [deadline]: the zero time when there is none *)
Definition deadline_of : instant := if yd_timeout y <=? 0 then 0 else yd_now y + yd_timeout y.
Definition with_creds (i : job_inputs) (creds : option job_credentials) : job_inputs :=
  JobInputs (ji_run i) (ji_pipeline i) (ji_steps i) (ji_app i) (ji_app_name i) (ji_workspace i) (ji_registry i) (ji_repository i) (ji_ref i)
    (ji_branch i) (ji_source i) (ji_workdir i) (ji_env i) (ji_generation i) (ji_trunk i) (ji_cold i) creds deadline_of.
Definition add_env (j : job_spec) (e : string) : job_spec := with_env j (js_steps j) (js_env j ++ [e]).
Definition the_job (i : job_inputs) : job :=
  Job (ru_ws (ji_run i)) [] (required_features (yd_multi y) (ji_steps i)) (required_runner_version (ji_steps i)).
(** What a runner is sent for a run, and what is blacked out of its logs *)
Definition prepare (i : job_inputs) (rn : runner) (creds : option job_credentials) : result secret_err (job_spec * list string) :=
  let i := with_creds i creds in
  match resolve_job_secrets (yd_vault y) (ru_ws (ji_run i)) (add_env (build_job_spec i) (kv "MIABI_RUNNER_NAME" (rn_name rn))) with
  | Err e => Err e
  | Ok (j, mask) => Ok (j, job_mask (yd_url y) i ++ mask)
  end.

(** From the lease to the end, when the lease is given back: that the call which releases it fails is ignored. *)
Definition converse (i : job_inputs) (rn : runner) (mask : list string) (turns : list turn) d : desk T * result job_err unit :=
  let d := update_run (set_run (with_runner (rn_id rn) (dk_run d)) d) in
  if negb (yd_session y (rn_id rn)) then (d, Err ErrRunnerOffline)
  else if negb (yd_opens y) then (d, Err ErrOpenStream)
  else if negb (yd_sends y) then (d, Err ErrSendJob)
  else process_frames (Meta (rn_name rn) (ji_repository i) (ji_app i) mask "") ∅ turns d.
Definition on_lease (i : job_inputs) (rn : runner) (mask : list string) (turns : list turn) d : desk T * result job_err unit :=
  let id := ru_id (dk_run d) in
  match lease (dk_leases d) (yd_lease_id y) (rn_id rn) LeaseKindPipeline id None deadline_of (yd_now y) with
  | Ok leases =>
      if yd_lease_fails y then (d, Err ErrLease)
      else
        let '(d, r) := converse i rn mask turns (set_leases leases d) in
        (write_row (fun d => set_leases (release_run (dk_leases d) LeaseKindPipeline id) d) d, r)
  | Err _ => (d, Err ErrLease)
  end.
(** From the credentials to the end; they are revoked whatever it is. *)
Definition with_credentials (i : job_inputs) (rn : runner) (turns : list turn) (creds : option job_credentials) d : desk T * result job_err unit :=
  match prepare i rn creds with
  | Err e => (d, Err (ErrSecrets e))
  | Ok (_, mask) => on_lease i rn mask turns d
  end.
Definition dispatch (i : job_inputs) (subject : N) (turns : list turn) d : desk T * result job_err unit :=
  match select_runner (yd_valid y) (yd_compare y) (yd_env y (dk_leases d)) (the_job i) with
  | Err e => (d, Err (ErrSelect e))
  | Ok rn =>
      match yd_minter y with
      | None => with_credentials i rn turns None d
      | Some job_token =>
          match on_keys (mint job_token subject (ru_ws (dk_run d)) (ji_app i) (ru_id (dk_run d)) deadline_of) d with
          | (d, Err _) => (d, Err ErrMint)
          | (d, Ok creds) =>
              let '(d, r) := with_credentials i rn turns (Some creds) d in
              ((on_keys (revoke_keys (jc_keys creds)) d).1, r)
          end
      end
  end.

(** ** The worker: worker/pipeline.go *)

(** [failRun] *)
Definition fail_run (e : job_err) d : desk T :=
  let r := with_times (ru_started (dk_run d)) (Some (yd_end y)) (with_error (yd_text y e) (with_status RunFailed (dk_run d))) in
  let d := update_run (set_run r d) in
  let d := log (of_chars (ascii_of_nat <$> [226; 156; 150; 32]%nat) +:+ yd_text y e) d in
  emit [Statused RunFailed] (settle_version "" "" d).
(** The run put back, to be taken again: the queue may refuse it, and its error is then the task's, which is not tried again. *)
Definition put_back (line : string) (again : event) d : desk T :=
  let d := update_run (set_run (with_times None (ru_finished (dk_run d)) (with_status RunPending (dk_run d))) d) in
  write_row (emit [again]) (emit [Logged line; Statused RunPending] d).
Definition builder_handoff_timeout : duration := 10 * minute.
Definition ellipsis : string := of_chars (ascii_of_nat <$> [226; 128; 166]%nat).
(** [handOffToBuilder], [waitForRunner] *)
Definition hand_off d : desk T :=
  if builder_handoff_timeout <? yd_now y - ru_created (dk_run d) then fail_run ErrHandOff d
  else put_back ("handing the run off to the runner-capable worker" +:+ ellipsis) HandedOff d.
Definition register_a_runner : string := "register a runner (Settings " +:+ of_chars (ascii_of_nat <$> [226; 134; 146]%nat) +:+ " Runners)".
Definition wait_for_runner (reason : string) d : desk T :=
  if (0 <? yd_wait y) && (yd_wait y <? yd_now y - ru_created (dk_run d)) then
    fail_run (ErrNoRunnerCame (if String.eqb reason "" then register_a_runner else reason)) d
  else put_back ("waiting for an available runner" +:+ (if String.eqb reason "" then ellipsis else ": " +:+ reason)) Queued d.

(** [sourceURL], [jobInputs] *)
Definition find_repo (ws id : N) : option repo_row := find_first (fun g => (rp_id g =? id)%N && (rp_ws g =? ws)%N) (yd_repos y).
Definition find_app (ws id : N) : option app_row := yd_apps y ≫= find_first (fun a => (ap_id a =? id)%N && (ap_ws a =? ws)%N).
Definition source_url (a : app_row) : option string :=
  match ap_git_id a with
  | None => if String.eqb (ap_git a) "" then Some "" else yd_credential y (ap_git a) None
  | Some id =>
      match find_repo (ap_ws a) id with
      | None => None
      | Some g =>
          let raw := if String.eqb (ap_git a) "" then rp_url g else ap_git a in
          if String.eqb raw "" then Some "" else yd_credential y raw (Some g)
      end
  end.
Definition pipeline_image_prefix : string := "pl_".
Definition repository_of (ws : N) (name : string) : string :=
  if String.eqb (yd_registry y) "" then "" else trim_right_char "/" (yd_registry y) +:+ "/" +:+ Registry.namespace ws +:+ "/" +:+ name.
Definition job_inputs_of (def : pipeline_row) d : result job_err job_inputs :=
  let r := dk_run d in
  let inputs (app : option N) (app_name repository source : string) (generation : N) (trunk : string) (cold : bool) :=
    Ok (JobInputs r (pi_name def) (dk_steps d) app app_name (default "" (yd_workspace y)) (yd_registry y) repository (ru_commit r) (ru_branch r)
          source "" (ru_env r) generation trunk cold None 0) in
  match pi_app def, pi_repo def with
  | Some id, _ =>
      match find_app (ru_ws r) id with
      | None => Err ErrApplication
      | Some a =>
          match source_url a with
          | None => Err ErrSource
          | Some url => inputs (Some id) (ap_name a) (repository_of (ru_ws r) (ap_name a)) url (ap_generation a) (ap_ref a)
                          (negb (ap_built a =? ap_generation a)%N)
          end
      end
  | None, Some id =>
      match find_repo (ru_ws r) id with
      | None => Err ErrRepository
      | Some g =>
          match yd_credential y (rp_url g) (Some g) with
          | None => Err ErrSource
          | Some url => inputs None "" (repository_of (ru_ws r) (pipeline_image_prefix +:+ pi_name def)) url 0%N "" false
          end
      end
  | None, None => inputs None "" "" "" 0%N "" false
  end.

(** [VerifyTagFree] of a run, which it saves when it takes another version *)
Definition saves_run (c : VersionService.registry_call) : bool := match c with VersionService.CallUpdateRun _ _ => true | _ => false end.
Definition verify_tag (repository : string) d : desk T * option job_err :=
  match yd_versions y with
  | None => (d, None)
  | Some (rg, _) =>
      let '(t, vr, calls, e) := VersionService.verify_tag_free (yd_now y) rg repository (dk_versions d) (version_run (dk_run d)) in
      let d := set_run (with_version (VersionService.pn_version vr) (VersionService.pn_image_tag vr) (dk_run d)) (set_versions t d) in
      let d := if existsb saves_run calls then set_saved (dk_run d) d else d in
      (emit (Called <$> calls) d, ErrVersion <$> e)
  end.
(** [subjectUser], [markCacheBuilt] *)
Definition subject_user (r : run_row) : N := default 0%N (ru_user r).
Definition mark_cache_built (i : job_inputs) d : desk T :=
  match yd_apps y, ji_app i with
  | Some _, Some app =>
      if bool_decide (ru_status (dk_run d) = RunSucceeded) && bool_decide (is_Some (ru_image (dk_run d)))
      then emit [CacheBuilt app (ji_generation i)] d else d
  | _, _ => d
  end.
(** [runOnRunner] *)
Definition run_on_runner (def : pipeline_row) (reason : string) (turns : list turn) d : desk T :=
  match job_inputs_of def d with
  | Err e => fail_run e d
  | Ok i =>
      match verify_tag (ji_repository i) d with
      | (d, Some e) => fail_run e d
      | (d, None) =>
          let i := JobInputs (dk_run d) (ji_pipeline i) (ji_steps i) (ji_app i) (ji_app_name i) (ji_workspace i) (ji_registry i) (ji_repository i)
                     (ji_ref i) (ji_branch i) (ji_source i) (ji_workdir i) (ji_env i) (ji_generation i) (ji_trunk i) (ji_cold i) None 0 in
          match dispatch i (subject_user (dk_run d)) turns d with
          | (d, Ok _) => mark_cache_built i d
          | (d, Err (ErrSelect ErrNoRunner)) | (d, Err ErrRunnerOffline) => wait_for_runner reason d
          | (d, Err e) => fail_run e d
          end
      end
  end.
(** [ProcessTask]; [dispatches] is whether this worker has the runners' tunnels. *)
Definition process_task (dispatches : bool) (reason : string) (turns : list turn) d : desk T :=
  if is_terminal (ru_status (dk_run d)) then d
  else
    match yd_pipelines y with
    | None => fail_run ErrPipelineGone d
    | Some def =>
        match parse_spec (yd_decode y) (pi_spec def) with
        | Err e => fail_run (ErrSpec e) d
        | Ok _ =>
            if negb dispatches then hand_off d
            else
              let r := with_times (Some (yd_now y)) (ru_finished (dk_run d)) (with_status RunRunning (dk_run d)) in
              let d := emit [Statused RunRunning] (update_run (set_run r d)) in
              run_on_runner def reason turns d
        end
    end.
End Dispatch.
