(* ===== verification/Pipelines.v ===== *)
(** * Pipelines: definitions, their repositories, and how runs start

    [internal/services/pipeline]: pipeline.go, adopt.go, triggers.go and [DiscoverFS] of discover.go, over the tables of
    pipeline_repo.go, the schedule of the cron loop, the queue and the versions ([VersionService]). Every call to a repository,
    and the queue's, may fail ([bd_faults]). What the service reads elsewhere during one request is an [around]: applications,
    git repositories and what cloning them gives, the decoder of YAML, the signatures. What is filled in for display is left out. *)
From S2P Require Import Prelude GoStrings GoTime VersionNext VersionSettings PipelineSpec JobSpec.
From S2P Require GitOps Semver VersionService.
#[local] Open Scope Z_scope.
#[local] Open Scope list_scope.

(** ** Rows and what is around them *)

(** [PipelineDefinition] *)
Record def_row := DefRow {
  de_id : N; de_ws : N; de_name : string; de_display : string; de_app : option N; de_repo : option N; de_branch : string;
  de_spec : string; de_enabled : bool; de_secret : string; de_source : string; de_path : string; de_ref : string; de_commit : string }.
Definition source_manual : string := "manual".
Definition source_repo : string := "repo".
Definition is_repo_owned (p : def_row) : bool := String.eqb (de_source p) source_repo.
(** A run with its steps *)
Record started_run := StartedRun { st_run : run_row; st_steps : list step_row }.

Record board (T : Type) := Board {
  bd_defs : gmap N def_row; bd_runs : gmap N started_run; bd_seq : N; bd_schedule : gmap N string; bd_queue : list N;
  bd_versions : T; bd_faults : list bool }.
Arguments Board {T}. Arguments bd_defs {T}. Arguments bd_runs {T}. Arguments bd_seq {T}. Arguments bd_schedule {T}.
Arguments bd_queue {T}. Arguments bd_versions {T}. Arguments bd_faults {T}.

(** The columns of an application that are read *)
Record git_app := GitApp { ga_id : N; ga_ws : N; ga_name : string; ga_git : bool; ga_repo : string; ga_credential : option N; ga_ref : string }.
(** A file of a checkout *)
Inductive file := Missing | Unreadable | Content (text : string).
(** [pushPayload] *)
Record push := Push { pu_ref : string; pu_after : string; pu_checkout : string; pu_head : string; pu_message : string }.
Record around := Around {
  ar_decode : string -> option spec;
  ar_apps : option (list git_app); ar_repos : option (list (N * N));   (* of a repository, its id and workspace *)
  ar_url : N -> string -> option N -> option string;                   (* [CloneURLAuth] *)
  ar_clone : string -> string -> option (string * (string -> file));   (* of a URL and a ref, the commit and the files *)
  ar_head : string -> string -> option string;                         (* [RemoteCommit] *)
  ar_cron : option (string -> bool); ar_enqueues : bool; ar_versions : bool; ar_restricted : option (N -> bool);
  ar_hmac : string -> string -> string; ar_payload : string -> option push;
  ar_secret : string; ar_token : string; ar_now : instant }.

Inductive pipe_err :=
| ErrNotFound | ErrRunNotFound | ErrNameTaken | ErrNameRequired | ErrInvalidSpec (e : spec_err) | ErrBrokenFile | ErrDisabled | ErrUnauthorized
| ErrRepoOwned | ErrNoPipelineInRepo | ErrNotGitApp | ErrSourceConflict | ErrDeployNeedsApp (step : string) | ErrBuildNeedsSource (step : string)
| ErrRepositoryNotFound | ErrRepositoriesUnavailable | ErrApplicationNotFound | ErrAdoptionUnavailable | ErrInvalidVersioning | ErrReserve (e : Semver.version_error)
| ErrRestricted | ErrGit | ErrDB.

(** [Input] and [TriggerInput] *)
Record input := Input {
  in_name : string; in_display : string; in_app : option N; in_set_app : bool; in_repo : option N; in_set_repo : bool; in_branch : string;
  in_set_branch : bool; in_spec : string; in_enabled : option bool; in_source : string; in_path : string; in_ref : string; in_commit : string;
  in_versioning : option settings }.
Record trigger_input := TriggerInput {
  ti_trigger : string; ti_branch : string; ti_commit : string; ti_message : string; ti_user : option N; ti_key : option N; ti_no_cache : bool;
  ti_bump : string; ti_version : string }.

(** ** The tables *)

Section Service.
Context {T : Type} `{VersionService.VersionDB T} (e : around).
Implicit Types (b : board T) (p : def_row) (s : spec).

Definition set_defs (f : gmap N def_row -> gmap N def_row) b : board T :=
  Board (f (bd_defs b)) (bd_runs b) (bd_seq b) (bd_schedule b) (bd_queue b) (bd_versions b) (bd_faults b).
Definition set_runs (f : gmap N started_run -> gmap N started_run) b : board T :=
  Board (bd_defs b) (f (bd_runs b)) (bd_seq b) (bd_schedule b) (bd_queue b) (bd_versions b) (bd_faults b).
Definition take_id b : board T :=
  Board (bd_defs b) (bd_runs b) (bd_seq b + 1)%N (bd_schedule b) (bd_queue b) (bd_versions b) (bd_faults b).
Definition set_schedule (f : gmap N string -> gmap N string) b : board T :=
  Board (bd_defs b) (bd_runs b) (bd_seq b) (f (bd_schedule b)) (bd_queue b) (bd_versions b) (bd_faults b).
Definition set_queue (f : list N -> list N) b : board T :=
  Board (bd_defs b) (bd_runs b) (bd_seq b) (bd_schedule b) (f (bd_queue b)) (bd_versions b) (bd_faults b).
Definition set_versions (t : T) b : board T :=
  Board (bd_defs b) (bd_runs b) (bd_seq b) (bd_schedule b) (bd_queue b) t (bd_faults b).
Definition drop_fault b : board T :=
  Board (bd_defs b) (bd_runs b) (bd_seq b) (bd_schedule b) (bd_queue b) (bd_versions b) (tail (bd_faults b)).

Definition P (A : Type) : Type := board T -> board T * result pipe_err A.
#[local] Instance P_ret : MRet P := fun A a b => (b, Ok a).
#[local] Instance P_bind : MBind P := fun A B k m b => match m b with (b1, Ok a) => k a b1 | (b1, Err x) => (b1, Err x) end.
Definition throw {A} (x : pipe_err) : P A := fun b => (b, Err x).
Definition guard_by (x : option pipe_err) : P unit := match x with Some x => throw x | None => mret tt end.
(** A call that may fail *)
Definition call {A} (f : board T -> board T * result pipe_err A) : P A := fun b =>
  if default false (head (bd_faults b)) then (drop_fault b, Err ErrDB) else f (drop_fault b).
Definition or_err {A} (x : pipe_err) (m : P A) : P A := fun b => match m b with (b1, Err _) => (b1, Err x) | r => r end.
(** A call whose failure is passed over *)
Definition attempt {A} (m : P A) : P (option A) := fun b => match m b with (b1, Ok a) => (b1, Ok (Some a)) | (b1, Err _) => (b1, Ok None) end.
Definition put (f : board T -> board T) : P unit := fun b => (f b, Ok tt).

Definition named (ws : N) (name : string) p : bool := (de_ws p =? ws)%N && String.eqb (de_name p) name.
Definition rows b : list def_row := (map_to_list (bd_defs b)).*2.
(** [FindInWorkspace], [FindByID], [ExistsByName] *)
Definition find_in_workspace (ws id : N) : P def_row := call (fun b =>
  (b, match bd_defs b !! id with Some p => if (de_ws p =? ws)%N then Ok p else Err ErrNotFound | None => Err ErrNotFound end)).
Definition find_by_id (id : N) : P def_row := call (fun b => (b, of_option ErrNotFound (bd_defs b !! id))).
Definition exists_by_name (ws : N) (name : string) : P bool := call (fun b => (b, Ok (existsb (named ws name) (rows b)))).
(** [Create], [Update] and [Delete]: a workspace's names are unique. The column [enabled] defaults to true, and an insertion writes a
    column's default where the row has the zero value, here and in the row it was given: a new definition is enabled. *)
Definition with_de_id (id : N) p : def_row :=
  DefRow id (de_ws p) (de_name p) (de_display p) (de_app p) (de_repo p) (de_branch p) (de_spec p) true (de_secret p) (de_source p)
    (de_path p) (de_ref p) (de_commit p).
Definition repo_create p : P def_row := call (fun b =>
  if existsb (named (de_ws p) (de_name p)) (rows b) then (b, Err ErrDB)
  else let p := with_de_id (bd_seq b) p in (take_id (set_defs <[de_id p := p]> b), Ok p)).
Definition taken_by_other p (o : def_row) : bool := named (de_ws p) (de_name p) o && negb (de_id o =? de_id p)%N.
Definition repo_update p : P unit := call (fun b =>
  if existsb (taken_by_other p) (rows b) then (b, Err ErrDB) else (set_defs <[de_id p := p]> b, Ok tt)).
Definition repo_delete (ws id : N) : P unit := call (fun b =>
  (set_defs (fun m => match m !! id with Some p => if (de_ws p =? ws)%N then delete id m else m | None => m end) b, Ok tt)).
(** [ListByApp], [ListEnabledByApp] *)
Definition of_app (app : N) p : bool := bool_decide (de_app p = Some app).
Definition list_by_app (app : N) : P (list def_row) := call (fun b => (b, Ok (List.filter (of_app app) (rows b)))).
Definition list_enabled_by_app (app : N) : P (list def_row) := call (fun b => (b, Ok (List.filter (fun p => of_app app p && de_enabled p) (rows b)))).

(** [CreateNumberedRun], [DeleteRun], [UpdateRun], [CreateStep], [FindRun] *)
Definition run_of (pipeline : N) (r : started_run) : bool := (ru_pipeline (st_run r) =? pipeline)%N.
Definition max_number (pipeline : N) b : Z :=
  foldr (fun r n => if run_of pipeline r then Z.max (ru_number (st_run r)) n else n) 0 (map_to_list (bd_runs b)).*2.
Definition numbered (id : N) (number : Z) (r : run_row) : run_row :=
  RunRow id (ru_ws r) (ru_pipeline r) number (ru_status r) (ru_trigger r) (ru_branch r) (ru_commit r) (ru_message r) (ru_key r) (ru_user r)
    (ru_image r) (ru_version r) (ru_tag r) (ru_runner r) (ru_error r) (ru_env r) (ru_no_cache r) (ru_started r) (ru_finished r) (ru_created r).
Definition create_numbered_run (r : run_row) : P run_row := call (fun b =>
  match bd_defs b !! ru_pipeline r with
  | None => (b, Err ErrDB)
  | Some _ =>
      let r := numbered (bd_seq b) (max_number (ru_pipeline r) b + 1) r in
      (take_id (set_runs <[ru_id r := StartedRun r []]> b), Ok r)
  end).
Definition delete_run (id : N) : P unit := call (fun b => (set_runs (delete id) b, Ok tt)).
Definition update_run (r : run_row) : P unit := call (fun b =>
  (set_runs <[ru_id r := StartedRun r (default [] (st_steps <$> bd_runs b !! ru_id r))]> b, Ok tt)).
Definition create_step (run : N) (st : step_row) : P unit := call (fun b =>
  (set_runs (alter (fun r => StartedRun (st_run r) (st_steps r ++ [st])) run) b, Ok tt)).
Definition find_run (ws id : N) : P started_run := call (fun b =>
  (b, match bd_runs b !! id with Some r => if (ru_ws (st_run r) =? ws)%N then Ok r else Err ErrNotFound | None => Err ErrNotFound end)).
Definition enqueue (run : N) : P unit := call (fun b => (set_queue (fun q => q ++ [run]) b, Ok tt)).

(** ** Schedules and versions *)

Definition parse (text : string) : result spec_err spec := parse_spec (ar_decode e) text.
(** [applySchedule]; the scheduler refuses an expression it cannot read. *)
Definition unschedule (id : N) b : board T := match ar_cron e with Some _ => set_schedule (delete id) b | None => b end.
Definition apply_schedule p b : board T :=
  match ar_cron e with
  | None => b
  | Some valid =>
      let b := set_schedule (delete (de_id p)) b in
      if negb (de_enabled p) then b
      else
        match parse (de_spec p) with
        | Err _ => b
        | Ok s =>
            let c := tg_schedule (ps_on s) in
            if String.eqb (trim_space c) "" then b else if valid c then set_schedule <[de_id p := c]> b else b
        end
  end.
(** [syncVersioning]; a failure is logged. *)
Definition version_def p : VersionService.pipeline_def := VersionService.PipelineDef (de_id p) (de_ws p) (de_app p) (de_name p).
Definition ensured p (given : option settings) (managed : bool) b : board T :=
  match VersionService.ensure_for_pipeline (bd_versions b) (version_def p) given managed with
  | Ok (t, _) => set_versions t b
  | Err _ => b
  end.
Definition sync_versioning p s (given : option settings) (created : bool) b : board T :=
  if negb (ar_versions e) then b
  else
    match ps_versioning s with
    | Some v => ensured p (Some v) true b
    | None =>
        let b := set_versions (VersionService.unmanage (bd_versions b) (version_def p)) b in
        if created && has_build s then ensured p given false b else b
    end.

(** ** Definitions: pipeline.go *)

(** [validateStepsAgainstBinding] *)
Definition step_fits (app repo : option N) (st : step) : option pipe_err :=
  if uses uses_deploy st then match app with None => Some (ErrDeployNeedsApp (sp_name st)) | Some _ => None end
  else if uses uses_build st then match app, repo with None, None => Some (ErrBuildNeedsSource (sp_name st)) | _, _ => None end
  else None.
Definition validate_steps s (app repo : option N) : option pipe_err := head (omap (step_fits app repo) (ps_steps s)).
(** [checkBindingsInWorkspace] *)
Definition find_app (ws id : N) : option git_app := ar_apps e ≫= find_first (fun a => (ga_id a =? id)%N && (ga_ws a =? ws)%N).
Definition has_repo (l : list (N * N)) (ws id : N) : bool := existsb (fun g => (g.1 =? id)%N && (g.2 =? ws)%N) l.
Definition check_bindings (ws : N) (app repo : option N) : option pipe_err :=
  match app with
  | Some a =>
      match find_app ws a with
      | None => Some ErrApplicationNotFound
      | Some _ =>
          match repo with
          | None => None
          | Some g => match ar_repos e with None => Some ErrRepositoriesUnavailable | Some l => if has_repo l ws g then None else Some ErrRepositoryNotFound end
          end
      end
  | None =>
      match repo with
      | None => None
      | Some g => match ar_repos e with None => Some ErrRepositoriesUnavailable | Some l => if has_repo l ws g then None else Some ErrRepositoryNotFound end
      end
  end.
Definition both_bound (app repo : option N) : option pipe_err := match app, repo with Some _, Some _ => Some ErrSourceConflict | _, _ => None end.
Definition parsed (text : string) : P spec := match parse text with Ok s => mret s | Err x => throw (ErrInvalidSpec x) end.
Definition refuse (c : bool) (x : pipe_err) : P unit := if c then throw x else mret tt.
Definition get (ws id : N) : P def_row := or_err ErrNotFound (find_in_workspace ws id).

(** [Create] *)
Definition create (ws : N) (i : input) : P def_row :=
  let name := GitOps.make_slug (in_name i) "" in
  _ ← refuse (String.eqb name "") ErrNameRequired;
  let display := if String.eqb (trim_space (in_display i)) "" then trim_space (in_name i) else trim_space (in_display i) in
  s ← parsed (in_spec i);
  _ ← guard_by (both_bound (in_app i) (in_repo i));
  _ ← guard_by (validate_steps s (in_app i) (in_repo i));
  _ ← guard_by (check_bindings ws (in_app i) (in_repo i));
  taken ← attempt (exists_by_name ws name);
  _ ← refuse (default false taken) ErrNameTaken;
  let source := if String.eqb (in_source i) "" then source_manual else in_source i in
  let p := DefRow 0 ws name display (in_app i) (in_repo i) (trim_space (in_branch i)) (in_spec i) (default false (in_enabled i)) (ar_secret e)
             source (in_path i) (in_ref i) (in_commit i) in
  _ ← (match in_versioning i with
       | Some v => match normalize v with Ok _ => mret tt | Err _ => throw ErrInvalidVersioning end
       | None => mret tt
       end);
  p ← repo_create p;
  _ ← put (apply_schedule p);
  _ ← put (sync_versioning p s (in_versioning i) true);
  mret p.

(** [repoOwnedEditRequested] *)
Definition edit_requested p (i : input) : bool :=
  let name := GitOps.make_slug (in_name i) "" in
  let display := trim_space (in_display i) in
  (negb (String.eqb (in_spec i) "") && negb (String.eqb (in_spec i) (de_spec p)))
  || (in_set_app i && negb (bool_decide (in_app i = de_app p)))
  || (in_set_repo i && negb (bool_decide (in_repo i = de_repo p)))
  || (in_set_branch i && negb (String.eqb (trim_space (in_branch i)) (de_branch p)))
  || (negb (String.eqb name "") && negb (String.eqb name (de_name p)))
  || (negb (String.eqb display "") && negb (String.eqb display (de_display p))).
(** The row with what an update gives *)
Definition merged p (i : input) : def_row :=
  let name := GitOps.make_slug (in_name i) "" in
  DefRow (de_id p) (de_ws p) (if String.eqb name "" then de_name p else name)
    (if String.eqb (trim_space (in_display i)) "" then de_display p else trim_space (in_display i))
    (if in_set_app i then in_app i else de_app p) (if in_set_repo i then in_repo i else de_repo p)
    (if in_set_branch i then trim_space (in_branch i) else de_branch p) (if String.eqb (in_spec i) "" then de_spec p else in_spec i)
    (default (de_enabled p) (in_enabled i)) (if String.eqb (de_secret p) "" then ar_secret e else de_secret p)
    (de_source p) (de_path p) (de_ref p) (de_commit p).
(** [Update] *)
Definition update (ws id : N) (i : input) : P def_row :=
  p ← get ws id;
  _ ← refuse (is_repo_owned p && edit_requested p i) ErrRepoOwned;
  _ ← (if String.eqb (in_spec i) "" then mret tt else _ ← parsed (in_spec i); mret tt);
  let q := merged p i in
  _ ← (if String.eqb (de_name q) (de_name p) then mret tt
       else taken ← attempt (exists_by_name ws (de_name q)); refuse (default false taken) ErrNameTaken);
  _ ← (if in_set_app i then guard_by (check_bindings ws (in_app i) None) else mret tt);
  _ ← (if in_set_repo i then guard_by (check_bindings ws None (in_repo i)) else mret tt);
  _ ← guard_by (both_bound (de_app q) (de_repo q));
  s ← parsed (de_spec q);
  _ ← guard_by (validate_steps s (de_app q) (de_repo q));
  _ ← repo_update q;
  _ ← put (apply_schedule q);
  _ ← put (sync_versioning q s None false);
  mret q.

(** [Delete] *)
Definition delete_pipeline (ws id : N) : P unit :=
  p ← get ws id;
  _ ← put (unschedule id);
  _ ← repo_delete ws id;
  put (fun b => if ar_versions e then set_versions (VersionService.pipeline_deleted (bd_versions b) (version_def p)) b else b).

(** ** What a repository carries: discover.go, adopt.go *)

Definition source_paths : list string := [".miabi/pipeline.yaml"; ".miabi/pipeline.yml"; ".miabi/pipelines.yaml"; ".miabi/pipelines.yml"].
(** [Found]: its path, bytes and document; [None] for a file that cannot be read or parsed *)
Record found := Found { fo_commit : string; fo_path : string; fo_raw : string; fo_spec : option spec; fo_broken : bool }.
(** [DiscoverFS] *)
Fixpoint discover_fs (files : string -> file) (commit : string) (paths : list string) : found :=
  match paths with
  | [] => Found commit "" "" None false
  | path :: paths =>
      match files path with
      | Missing => discover_fs files commit paths
      | Unreadable => Found commit "" "" None true
      | Content raw => match parse raw with Ok s => Found commit path raw (Some s) false | Err _ => Found commit path raw None true end
      end
  end.
(** [discoverForApp], [Discover]; without an answer the repository could not be read. *)
Definition discover_for_app (a : git_app) (ref : string) : option found :=
  match ar_url e (ga_ws a) (ga_repo a) (ga_credential a) with
  | None => None
  | Some url =>
      match ar_clone e url (trim_space (if String.eqb ref "" then ga_ref a else ref)) with
      | None => None
      | Some (commit, files) => Some (discover_fs files commit source_paths)
      end
  end.
(** [uniqueName]: the first free of [n] numbered names *)
Fixpoint free_name (n : nat) (ws : N) (name candidate : string) (i : Z) : P string :=
  match n with
  | O => mret (name +:+ "-" +:+ ar_token e)
  | S n =>
      taken ← attempt (exists_by_name ws candidate);
      if default false taken then free_name n ws name (name +:+ "-" +:+ itoa i) (i + 1) else mret candidate
  end.
Definition unique_name (ws : N) (base : string) : P string :=
  let name := GitOps.make_slug base "pipeline" in free_name 98 ws name name 2.
(** [AdoptForApp] *)
Definition adopt_for_app (a : git_app) : P def_row :=
  _ ← (match ar_repos e with None => throw ErrAdoptionUnavailable | Some _ => mret tt end);
  _ ← refuse (negb (ga_git a)) ErrNotGitApp;
  match discover_for_app a "" with
  | None => throw ErrGit
  | Some f =>
      _ ← refuse (fo_broken f) ErrBrokenFile;
      match fo_spec f with
      | None => throw ErrNoPipelineInRepo
      | Some s =>
          name ← unique_name (ga_ws a) (ga_name a);
          create (ga_ws a) (Input name (ps_name s) (Some (ga_id a)) false None false "" false (fo_raw f) (Some true) source_repo (fo_path f) (ga_ref a)
                              (fo_commit f) None)
      end
  end.
(** [pickRepoOwned], [RepoPipelineForApp] *)
Definition pick_repo_owned (l : list def_row) : option def_row :=
  foldl (fun best p => if negb (is_repo_owned p) then best
                       else match best with Some q => if (de_id p <? de_id q)%N then Some p else best | None => Some p end) None l.
Definition repo_pipeline_for_app (app : N) : P (option def_row) := l ← list_enabled_by_app app; mret (pick_repo_owned l).
(** [DeleteForApp]: each pipeline in its turn, failures gathered *)
Definition unbound p : def_row :=
  DefRow (de_id p) (de_ws p) (de_name p) (de_display p) None (de_repo p) (de_branch p) (de_spec p) (de_enabled p) (de_secret p) (de_source p)
    (de_path p) (de_ref p) (de_commit p).
Fixpoint delete_each (ws : N) (l : list def_row) : P bool :=
  match l with
  | [] => mret true
  | p :: l =>
      r ← attempt (if is_repo_owned p then delete_pipeline ws (de_id p) else repo_update (unbound p));
      all ← delete_each ws l;
      mret (bool_decide (is_Some r) && all)
  end.
Definition delete_for_app (ws app : N) : P unit := l ← list_by_app app; all ← delete_each ws l; refuse (negb all) ErrDB.
(** [SyncFromRepo] *)
Definition synced p (f : found) (ref : string) : def_row :=
  DefRow (de_id p) (de_ws p) (de_name p) (de_display p) (de_app p) (de_repo p) (de_branch p) (fo_raw f) (de_enabled p) (de_secret p) (de_source p)
    (fo_path f) (if String.eqb ref "" then de_ref p else ref) (fo_commit f).
Definition sync_from_repo p (ref : string) : P def_row :=
  match ar_repos e, de_app p ≫= find_app (de_ws p) with
  | Some _, Some a =>
      if negb (is_repo_owned p) then mret p
      else
        let ref := if String.eqb ref "" then de_ref p else ref in
        match discover_for_app a ref with
        | None => mret p
        | Some f =>
            _ ← refuse (fo_broken f) ErrBrokenFile;
            match fo_spec f with
            | None => throw ErrNoPipelineInRepo
            | Some s =>
                let q := synced p f ref in
                _ ← repo_update q;
                _ ← put (apply_schedule q);
                _ ← put (fun b => if String.eqb ref (ga_ref a) then sync_versioning q s None false b else b);
                mret q
            end
        end
  | _, _ => mret p
  end.

(** ** Starting runs *)

(** [pinCommit]: the branch it settles on, and the commit if the remote tells *)
Definition pin_commit p (branch : string) : string * string :=
  let head_of (branch raw : string) (credential : option N) :=
    (branch, match ar_url e (de_ws p) raw credential with
             | Some url => default "" (ar_head e url branch)
             | None => ""
             end) in
  match ar_repos e with
  | None => (branch, "")
  | Some _ =>
      match de_app p, ar_apps e with
      | Some id, Some _ =>
          match find_app (de_ws p) id with
          | Some a => if ga_git a then head_of (if String.eqb branch "" then ga_ref a else branch) (ga_repo a) (ga_credential a) else (branch, "")
          | None => (branch, "")
          end
      | _, _ => match de_repo p with Some g => head_of branch "" (Some g) | None => (branch, "") end
      end
  end.
(** The rows of a run's steps *)
Definition step_row_of (no_cache : bool) (i : nat) (st : step) : step_row :=
  StepRow (Z.of_nat i) (sp_name st) RunPending (sp_image st) (sp_uses st) (sp_run st) (sp_dockerfile st) (sp_context st) (sp_build_args st)
    (step_no_cache st || no_cache) (sp_platforms st) (sp_env st) (sp_continue st) "".
Definition step_rows s (no_cache : bool) : list step_row := imap (step_row_of no_cache) (ps_steps s).
Fixpoint create_steps (run : N) (l : list step_row) : P unit :=
  match l with [] => mret tt | st :: l => _ ← create_step run st; create_steps run l end.
(** [reserveVersion]: the run, with the version it was given *)
Definition version_of (r : run_row) s : VersionService.pipeline_run :=
  VersionService.PipelineRun (ru_id r) (ru_ws r) (ru_branch r) (ru_commit r) (ru_message r) false (ru_image r) (has_build s) (ru_version r) (ru_tag r).
Definition versioned (v tag : string) (r : run_row) : run_row :=
  RunRow (ru_id r) (ru_ws r) (ru_pipeline r) (ru_number r) (ru_status r) (ru_trigger r) (ru_branch r) (ru_commit r) (ru_message r) (ru_key r) (ru_user r)
    (ru_image r) v tag (ru_runner r) (ru_error r) (ru_env r) (ru_no_cache r) (ru_started r) (ru_finished r) (ru_created r).
Definition reserve_version (r : run_row) p s (i : trigger_input) : P run_row :=
  if negb (ar_versions e) then mret r
  else if negb (has_build s) && bool_decide (ps_versioning s = None) then
    refuse (negb (String.eqb (ti_bump i) "") || negb (String.eqb (ti_version i) "")) ErrInvalidVersioning;; mret r
  else fun b =>
    match VersionService.reserve_run (ar_now e) (bd_versions b) (version_of r s) (version_def p)
            (Request "" "" "" (ti_bump i) (trim_space (ti_version i)) 0) with
    | Err x => (b, Err (ErrReserve x))
    | Ok (t, v) =>
        let r := versioned (VersionService.pn_version v) (VersionService.pn_image_tag v) r in
        let b := set_versions t b in
        if String.eqb (VersionService.pn_image_tag v) "" then (b, Ok r) else (_ ← update_run r; mret r) b
    end.
(** [Trigger] *)
Definition or_text (s fallback : string) : string := if String.eqb s "" then fallback else s.
Definition pinned p (i : trigger_input) : trigger_input :=
  let commit := if is_repo_owned p then or_text (ti_commit i) (de_commit p) else ti_commit i in
  let branch := if String.eqb (ti_branch i) "" && bool_decide (is_Some (de_repo p)) then de_branch p else ti_branch i in
  let '(branch, commit) := if String.eqb commit "" then pin_commit p branch else (branch, commit) in
  TriggerInput (ti_trigger i) branch commit (ti_message i) (ti_user i) (ti_key i) (ti_no_cache i) (ti_bump i) (ti_version i).
Definition new_run (ws : N) p s (i : trigger_input) : run_row :=
  RunRow 0 ws (de_id p) 0 RunPending (ti_trigger i) (ti_branch i) (ti_commit i) (ti_message i) (ti_key i) (ti_user i) None "" "" None "" (ps_env s)
    (ti_no_cache i) None None (ar_now e).
Definition reserved (r : run_row) p s (i : trigger_input) : P run_row := fun b =>
  match reserve_version r p s i b with
  | (b, Err x) => (_ ← attempt (delete_run (ru_id r)); throw x) b
  | ok => ok
  end.
Definition trigger (ws id : N) (i : trigger_input) : P run_row :=
  p ← get ws id;
  _ ← refuse (negb (de_enabled p)) ErrDisabled;
  p ← (if is_repo_owned p then sync_from_repo p (ti_branch i) else mret p);
  let i := pinned p i in
  s ← parsed (de_spec p);
  r ← create_numbered_run (new_run ws p s i);
  r ← reserved r p s i;
  _ ← create_steps (ru_id r) (step_rows s (ti_no_cache i));
  _ ← (if ar_enqueues e then enqueue (ru_id r) else mret tt);
  mret r.

(** [Rerun] *)
Definition rerun (ws run : N) (user : option N) (no_cache : bool) : P run_row :=
  r ← or_err ErrRunNotFound (find_run ws run);
  let prev := st_run r in
  trigger ws (ru_pipeline prev) (TriggerInput "rerun" (ru_branch prev) (ru_commit prev) (ru_message prev) user None no_cache "" "").
(** [TriggerForApp] *)
Definition trigger_for_app (a : git_app) (why : string) (user : option N) (no_cache : bool) : P run_row :=
  p ← repo_pipeline_for_app (ga_id a);
  match p with
  | None => throw ErrNotFound
  | Some p => trigger (ga_ws a) (de_id p) (TriggerInput why (ga_ref a) "" "" user None no_cache "" "")
  end.
(** [TriggerScheduled] *)
Definition restricted (ws : N) : bool := match ar_restricted e with Some f => f ws | None => false end.
Definition trigger_scheduled (id : N) : P run_row :=
  p ← or_err ErrNotFound (find_by_id id);
  _ ← refuse (restricted (de_ws p)) ErrRestricted;
  trigger (de_ws p) (de_id p) (TriggerInput "schedule" (de_ref p) "" "" None None false "" "").
(** [Verify] of webhooksig, [parsePush], [TriggerPush] *)
Definition verify_webhook p (signature body : string) : bool :=
  let signature := trim_space signature in
  negb (String.eqb (de_secret p) "") && negb (String.eqb signature "") &&
  (String.eqb ("sha256=" +:+ ar_hmac e (de_secret p) body) signature || String.eqb signature (de_secret p)).
Definition parse_push (body : string) : string * string * string :=
  match ar_payload e body with
  | None => ("", "", "")
  | Some u => (trim_prefix "refs/heads/" (pu_ref u), or_text (pu_head u) (or_text (pu_after u) (pu_checkout u)), pu_message u)
  end.
Definition trigger_push (ws id : N) (signature body : string) : P (option run_row) :=
  p ← get ws id;
  _ ← refuse (negb (verify_webhook p signature body)) ErrUnauthorized;
  s ← parsed (de_spec p);
  let '(branch, commit, message) := parse_push body in
  if negb (fires_on_branch (ps_on s) branch) || restricted ws then mret None
  else r ← trigger ws id (TriggerInput "push" branch commit message None None false "" ""); mret (Some r).

(** ** Histories *)

(** [SetScheduler]: every enabled pipeline, as the process starts *)
Definition register_schedules : P unit := r ← attempt (call (fun b => (b, Ok (List.filter de_enabled (rows b)))));
  put (fun b => foldl (fun b p => apply_schedule p b) b (default [] r)).
Inductive op :=
| Create (ws : N) (i : input) | Update (ws id : N) (i : input) | Delete (ws id : N) | Adopt (a : git_app) | DeleteForApp (ws app : N)
| Trigger (ws id : N) (i : trigger_input) | Rerun (ws run : N) (user : option N) (no_cache : bool)
| TriggerForApp (a : git_app) (why : string) (user : option N) (no_cache : bool) | TriggerScheduled (id : N)
| TriggerPush (ws id : N) (signature body : string) | Boot.
Definition perform (o : op) b : board T :=
  match o with
  | Create ws i => (create ws i b).1
  | Update ws id i => (update ws id i b).1
  | Delete ws id => (delete_pipeline ws id b).1
  | Adopt a => (adopt_for_app a b).1
  | DeleteForApp ws app => (delete_for_app ws app b).1
  | Trigger ws id i => (trigger ws id i b).1
  | Rerun ws run user no_cache => (rerun ws run user no_cache b).1
  | TriggerForApp a why user no_cache => (trigger_for_app a why user no_cache b).1
  | TriggerScheduled id => (trigger_scheduled id b).1
  | TriggerPush ws id signature body => (trigger_push ws id signature body b).1
  | Boot => (register_schedules (set_schedule (fun _ => ∅) b)).1
  end.
End Service.
#[export] Existing Instance P_ret.
#[export] Existing Instance P_bind.

(** ** Triples *)

Section Triples.
Context {T : Type}.
Implicit Types (b : board T) (pre bad : board T -> Prop).
(** From [pre], an answer leaves [post] and an error [bad]. *)
Definition triple {A} pre (m : P A) (post : A -> board T -> Prop) bad : Prop :=
  forall b, pre b -> match m b with (b1, Ok a) => post a b1 | (b1, Err _) => bad b1 end.
Lemma triple_answer {A} pre (a : A) post bad : (forall b, pre b -> post a b) -> triple pre (mret a) post bad.
Proof. intros H b. apply H. Qed.
Lemma triple_throw {A} pre x (post : A -> board T -> Prop) bad : (forall b, pre b -> bad b) -> triple pre (throw x) post bad.
Proof. intros H b. apply H. Qed.
Lemma triple_then {A B} pre (m : P A) (k : A -> P B) mid post bad :
  triple pre m mid bad -> (forall a, triple (mid a) (k a) post bad) -> triple pre (m ≫= k) post bad.
Proof. intros Hm Hk b Hb. specialize (Hm b Hb). unfold mbind, P_bind. destruct (m b) as [b1 [a|x]]; [by apply Hk|done]. Qed.
Lemma triple_weaken {A} pre (m : P A) (post post' : A -> board T -> Prop) bad :
  triple pre m post bad -> (forall a b, post a b -> post' a b) -> triple pre m post' bad.
Proof. intros Hm Hp b Hb. specialize (Hm b Hb). destruct (m b) as [b1 [a|x]]; [by apply Hp|done]. Qed.
Lemma triple_from {A} pre pre' (m : P A) post bad : triple pre m post bad -> (forall b, pre' b -> pre b) -> triple pre' m post bad.
Proof. intros Hm Hp b Hb. by apply Hm, Hp. Qed.
Lemma triple_bad {A} pre (m : P A) post bad bad' : triple pre m post bad -> (forall b, bad b -> bad' b) -> triple pre m post bad'.
Proof. intros Hm Hp b Hb. specialize (Hm b Hb). destruct (m b) as [b1 [a|x]]; [done|by apply Hp]. Qed.
Lemma triple_call {A} pre (f : board T -> board T * result pipe_err A) post bad : (forall b, pre b -> bad (drop_fault b)) ->
  (forall b, pre b -> match f (drop_fault b) with (b1, Ok a) => post a b1 | (b1, Err _) => bad b1 end) -> triple pre (call f) post bad.
Proof. intros H1 H2 b Hb. unfold call. destruct (default _ _); [by apply H1|by apply H2]. Qed.
Lemma triple_or_err {A} x pre (m : P A) post bad : triple pre m post bad -> triple pre (or_err x m) post bad.
Proof. intros Hm b Hb. specialize (Hm b Hb). unfold or_err. by destruct (m b) as [b1 [a|y]]. Qed.
Lemma triple_attempt {A} pre (m : P A) post mid bad : triple pre m mid (post None) -> (forall a b, mid a b -> post (Some a) b) ->
  triple pre (attempt m) post bad.
Proof. intros Hm Hp b Hb. specialize (Hm b Hb). unfold attempt. destruct (m b) as [b1 [a|y]]; [by apply Hp|done]. Qed.
Lemma triple_put pre f (post : unit -> board T -> Prop) bad : (forall b, pre b -> post tt (f b)) -> triple pre (put f) post bad.
Proof. intros H b. apply H. Qed.
(** A condition that does not depend on the board *)
Lemma triple_refuse pre c x bad : (forall b, pre b -> bad b) -> triple pre (refuse c x) (fun _ b => pre b /\ c = false) bad.
Proof. intros H b Hb. unfold refuse. destruct c; [by apply H|done]. Qed.
Lemma triple_guard pre o bad : (forall b, pre b -> bad b) -> triple pre (guard_by o) (fun _ b => pre b /\ o = None) bad.
Proof. intros H b Hb. unfold guard_by. destruct o; [by apply H|done]. Qed.
Lemma triple_parsed e pre text bad : (forall b, pre b -> bad b) -> triple pre (parsed e text) (fun s b => pre b /\ parse e text = Ok s) bad.
Proof. intros H b Hb. unfold parsed. destruct (parse e text); [done|by apply H]. Qed.
(** What is known beside the board *)
Lemma triple_pure {A} (F : Prop) pre (m : P A) post bad : (F -> triple pre m post bad) -> triple (fun b => pre b /\ F) m post bad.
Proof. intros H b [Hb HF]. by apply H. Qed.
End Triples.

(** ** What holds of the tables *)

Section Sound.
Context (decode : string -> option spec) (cron : option (string -> bool)) (strict : bool).

(** A definition: a document that parses, at most one source, and one its steps need, unless its application was taken away *)
Record def_ok (p : def_row) : Prop := DefOk {
  do_spec : exists s, parse_spec decode (de_spec p) = Ok s /\
    (validate_steps s (de_app p) (de_repo p) = None \/ (strict = false /\ de_app p = None /\ de_repo p = None));
  do_one : both_bound (de_app p) (de_repo p) = None }.
(** A run in the queue has all its steps: those of one document. *)
Definition queued_ok (r : started_run) : Prop :=
  exists text s, parse_spec decode text = Ok s /\ st_steps r = step_rows s (ru_no_cache (st_run r)) /\ ru_env (st_run r) = ps_env s.
Record tables_ok (defs : gmap N def_row) (runs : gmap N started_run) (seq : N) (sched : gmap N string) (queue : list N) : Prop := TablesOk {
  tk_defs : forall id p, defs !! id = Some p -> de_id p = id /\ (id < seq)%N /\ def_ok p;
  tk_names : forall i j p q, defs !! i = Some p -> defs !! j = Some q -> de_ws p = de_ws q -> de_name p = de_name q -> i = j;
  tk_sched : forall id c, sched !! id = Some c -> exists p s, defs !! id = Some p /\ de_enabled p = true /\ parse_spec decode (de_spec p) = Ok s /\
    tg_schedule (ps_on s) = c;
  tk_runs : forall id r, runs !! id = Some r -> ru_id (st_run r) = id /\ (id < seq)%N /\ 0 < ru_number (st_run r);
  tk_numbers : forall i j r t, runs !! i = Some r -> runs !! j = Some t -> ru_pipeline (st_run r) = ru_pipeline (st_run t) ->
    ru_number (st_run r) = ru_number (st_run t) -> i = j;
  tk_once : NoDup queue;
  tk_queue : forall id, id ∈ queue -> exists r, runs !! id = Some r /\ queued_ok r }.

Lemma tables_seq defs runs seq seq' sched queue : (seq <= seq')%N -> tables_ok defs runs seq sched queue -> tables_ok defs runs seq' sched queue.
Proof.
  intros Hs [D N S R U O Q]. split; try done.
  - intros id p Hp. destruct (D _ _ Hp) as (? & ? & ?). split_and!; [done|lia|done].
  - intros id r Hr. destruct (R _ _ Hr) as (? & ? & ?). split_and!; [done|lia|done].
Qed.
(** A definition is written, its schedule aside. *)
Lemma tables_put defs runs seq sched queue p : (de_id p < seq)%N -> def_ok p ->
  (forall id q, defs !! id = Some q -> named (de_ws p) (de_name p) q = true -> id = de_id p) ->
  tables_ok defs runs seq (delete (de_id p) sched) queue -> tables_ok (<[de_id p := p]> defs) runs seq (delete (de_id p) sched) queue.
Proof.
  intros Hid Hok Hn [D N S R U O Q]. split; try done.
  - intros id q [[<- <-]|[Hne Hq]]%lookup_insert_Some; [done|by apply D].
  - assert (Hnew : forall j q, defs !! j = Some q -> de_ws p = de_ws q -> de_name p = de_name q -> j = de_id p).
    { intros j q Hq Hw He. apply (Hn _ _ Hq). unfold named. by rewrite Hw, He, N.eqb_refl, String.eqb_refl. }
    intros i j q1 q2 [[<- <-]|[Hi H1]]%lookup_insert_Some [[<- <-]|[Hj H2]]%lookup_insert_Some Hw He; [done|by symmetry; eapply Hnew|by eapply Hnew|by eapply N].
  - intros id c Hc. destruct (S _ _ Hc) as (q & s & Hq & ?). apply lookup_delete_Some in Hc as [Hne _]. exists q, s. by rewrite lookup_insert_ne.
Qed.
Lemma tables_unput defs runs seq sched queue id : tables_ok defs runs seq (delete id sched) queue ->
  tables_ok (delete id defs) runs seq (delete id sched) queue.
Proof.
  intros [D N S R U O Q]. split; try done.
  - intros i p [_ Hp]%lookup_delete_Some. by apply D.
  - intros i j p q [_ Hp]%lookup_delete_Some [_ Hq]%lookup_delete_Some. by apply N.
  - intros i c Hc. destruct (S _ _ Hc) as (p & s & Hp & ?). apply lookup_delete_Some in Hc as [Hne _]. exists p, s. by rewrite lookup_delete_ne.
Qed.
Lemma tables_unsched defs runs seq sched queue id : tables_ok defs runs seq sched queue -> tables_ok defs runs seq (delete id sched) queue.
Proof. intros [D N S R U O Q]. split; try done. intros i c [_ Hc]%lookup_delete_Some. by apply S. Qed.
Lemma tables_sched defs runs seq sched queue p s : defs !! de_id p = Some p -> de_enabled p = true -> parse_spec decode (de_spec p) = Ok s ->
  tables_ok defs runs seq (delete (de_id p) sched) queue ->
  tables_ok defs runs seq (<[de_id p := tg_schedule (ps_on s)]> (delete (de_id p) sched)) queue.
Proof.
  intros Hp He Hs [D N S R U O Q]. split; try done. intros i c [[<- <-]|[Hne Hc]]%lookup_insert_Some; [by exists p, s|by apply S].
Qed.
(** A run that is not in the queue is written. *)
Lemma tables_run defs runs seq sched queue r : ru_id (st_run r) ∉ queue -> (ru_id (st_run r) < seq)%N -> 0 < ru_number (st_run r) ->
  (forall id t, runs !! id = Some t -> ru_pipeline (st_run t) = ru_pipeline (st_run r) -> ru_number (st_run t) = ru_number (st_run r) -> id = ru_id (st_run r)) ->
  tables_ok defs runs seq sched queue -> tables_ok defs (<[ru_id (st_run r) := r]> runs) seq sched queue.
Proof.
  intros Hq Hid Hpos Hn [D N S R U O Q]. split; try done.
  - intros id t [[<- <-]|[Hne Ht]]%lookup_insert_Some; [done|by apply R].
  - intros i j t1 t2 [[<- <-]|[Hi H1]]%lookup_insert_Some [[<- <-]|[Hj H2]]%lookup_insert_Some Hp He; [done|by symmetry; eapply Hn|by eapply Hn|by eapply U].
  - intros id Hin. destruct (Q _ Hin) as (t & Ht & ?). exists t. rewrite lookup_insert_ne; [done|]. by intros <-.
Qed.
Lemma tables_unrun defs runs seq sched queue id : id ∉ queue -> tables_ok defs runs seq sched queue -> tables_ok defs (delete id runs) seq sched queue.
Proof.
  intros Hq [D N S R U O Q]. split; try done.
  - intros i r [_ Hr]%lookup_delete_Some. by apply R.
  - intros i j r t [_ Hr]%lookup_delete_Some [_ Ht]%lookup_delete_Some. by apply U.
  - intros i Hin. destruct (Q _ Hin) as (r & Hr & ?). exists r. rewrite lookup_delete_ne; [done|]. by intros <-.
Qed.
Lemma tables_enqueue defs runs seq sched queue id r : id ∉ queue -> runs !! id = Some r -> queued_ok r -> tables_ok defs runs seq sched queue ->
  tables_ok defs runs seq sched (queue ++ [id]).
Proof.
  intros Hn Hr Hok [D N S R U O Q]. split; try done.
  - apply NoDup_app. split_and!; [done| |apply NoDup_singleton]. intros x Hx ->%list_elem_of_singleton. done.
  - intros i [Hi| ->%list_elem_of_singleton]%elem_of_app; [by apply Q|by exists r].
Qed.
End Sound.

(** ** What each operation keeps *)

Section Ops.
Context {T : Type} `{VersionService.VersionDB T} (strict : bool) (e : around).
Implicit Types (b : board T) (p : def_row) (q : list N) (D : gmap N def_row) (R : gmap N started_run).

Definition board_ok b : Prop :=
  tables_ok (ar_decode e) strict (bd_defs b) (bd_runs b) (bd_seq b) (bd_schedule b) (bd_queue b) /\ (ar_cron e = None -> bd_schedule b = ∅).
(** The same while the schedule of [x] is stale *)
Definition board_but (x : N) b : Prop :=
  tables_ok (ar_decode e) strict (bd_defs b) (bd_runs b) (bd_seq b) (delete x (bd_schedule b)) (bd_queue b) /\ (ar_cron e = None -> bd_schedule b = ∅).
Record stands D R q b : Prop := Stands { sd_ok : board_ok b; sd_defs : bd_defs b = D; sd_runs : bd_runs b = R; sd_queue : bd_queue b = q }.
Definition kept R q b : Prop := board_ok b /\ bd_runs b = R /\ bd_queue b = q.
(** What an error leaves: a run may stay behind, but not in the queue. *)
Definition waits q b : Prop := board_ok b /\ bd_queue b = q.

Lemma stands_fault D R q b : stands D R q b -> stands D R q (drop_fault b).
Proof. by intros [Hok HD HR Hq]; split. Qed.
Lemma stands_kept D R q b : stands D R q b -> kept R q b.
Proof. by intros [Hok HD HR Hq]. Qed.
Lemma kept_waits R q b : kept R q b -> waits q b.
Proof. by intros (Hok & HR & Hq). Qed.
Lemma stands_waits D R q b : stands D R q b -> waits q b.
Proof. by intros Hb%stands_kept%kept_waits. Qed.
#[local] Hint Resolve stands_fault stands_kept kept_waits stands_waits : core.

(** *** Lookups *)

(** A call that answers from the tables *)
Lemma triple_query {A} D R q (f : board T -> result pipe_err A) post : (forall b a, stands D R q b -> f b = Ok a -> post a) ->
  triple (stands D R q) (call (fun b => (b, f b))) (fun a b => stands D R q b /\ post a) (stands D R q).
Proof.
  intros Hf. apply triple_call; [auto|]. intros b Hb. destruct (f (drop_fault b)) as [a|x] eqn:E; [split|]; auto. apply (Hf (drop_fault b)); auto.
Qed.
Lemma get_triple D R q ws id : triple (stands D R q) (get ws id) (fun p b => stands D R q b /\ (D !! id = Some p /\ de_ws p = ws)) (stands D R q).
Proof.
  apply triple_or_err, triple_query. intros b p Hb. rewrite <- (sd_defs _ _ _ _ Hb). destruct (bd_defs b !! id) as [p0|]; [|done].
  destruct (N.eqb_spec (de_ws p0) ws); [|done]. by intros [= <-].
Qed.
Lemma taken_triple D R q ws name : triple (stands D R q) (attempt (exists_by_name ws name)) (fun _ b => stands D R q b) (stands D R q).
Proof. eapply triple_attempt; [by apply (triple_query _ _ _ _ (fun _ => True))|]. by intros a b [Hb _]. Qed.

(** *** Schedules and versions *)

Lemma versions_frame p s given created b : exists t, sync_versioning e p s given created b = set_versions t b.
Proof.
  assert (Hens : forall g m b0, exists t, ensured p g m b0 = set_versions t b0).
  { intros g m b0. unfold ensured. destruct (VersionService.ensure_for_pipeline _ _ _ _) as [[t ?]|]; [by eexists|]. exists (bd_versions b0). by destruct b0. }
  unfold sync_versioning. destruct (negb _); [exists (bd_versions b); by destruct b|]. destruct (ps_versioning s) as [v|]; [apply Hens|].
  destruct (_ && _); [|by eexists]. edestruct Hens as [t Ht]. rewrite Ht. by eexists.
Qed.
Lemma schedule_frame p b : exists m, apply_schedule e p b = set_schedule (fun _ => m) b.
Proof.
  unfold apply_schedule. destruct (ar_cron e) as [valid|]; [|exists (bd_schedule b); by destruct b].
  repeat (case_match; try (by eexists)).
Qed.
Lemma schedule_ok p b : board_but (de_id p) b -> bd_defs b !! de_id p = Some p -> board_ok (apply_schedule e p b).
Proof.
  intros [Ht Hc] Hp. revert Hc. unfold board_ok, apply_schedule. destruct (ar_cron e) as [valid|]; intros Hc.
  - destruct (de_enabled p) eqn:He; cbn [negb]; [|by split].
    destruct (parse e (de_spec p)) as [s|] eqn:Hs; [|by split]. destruct (String.eqb _ _); [by split|]. destruct (valid _); [|by split].
    split; [|done]. cbn. eapply tables_sched; done.
  - specialize (Hc eq_refl). split; [|done]. rewrite Hc in Ht. rewrite Hc. by rewrite delete_empty in Ht.
Qed.
(** What follows a write of a definition *)
Lemma after_put p R q (k : board T -> board T) b : (forall b, exists t, k b = set_versions t b) ->
  board_but (de_id p) b -> bd_defs b !! de_id p = Some p -> bd_runs b = R -> bd_queue b = q ->
  kept R q (k (apply_schedule e p b)) /\ bd_defs (k (apply_schedule e p b)) = bd_defs b.
Proof.
  intros Hk Hb Hp HR Hq. pose proof (schedule_ok _ _ Hb Hp) as Hok. destruct (schedule_frame p b) as [m Hm]. rewrite Hm in *.
  destruct (Hk (set_schedule (fun _ => m) b)) as [t ->]. split; [exact (conj Hok (conj HR Hq))|done].
Qed.

(** *** Writing a definition *)

Lemma taken_rows p b : existsb (named (de_ws p) (de_name p)) (rows b) = false ->
  forall id r, bd_defs b !! id = Some r -> named (de_ws p) (de_name p) r = false.
Proof.
  intros Hf id r Hr. apply not_true_iff_false. intros Hn. apply not_true_iff_false in Hf. apply Hf, existsb_elem. exists r. split; [|done].
  unfold rows. apply list_elem_of_fmap. exists (id, r). split; [done|]. by apply elem_of_map_to_list.
Qed.
Lemma with_de_id_ok id p : def_ok (ar_decode e) strict p -> def_ok (ar_decode e) strict (with_de_id id p).
Proof. by intros [H1 H2]. Qed.
Lemma create_triple D R q p : def_ok (ar_decode e) strict p ->
  triple (stands D R q) (repo_create p)
    (fun p' b => board_but (de_id p') b /\ bd_defs b = <[de_id p' := p']> D /\ bd_runs b = R /\ bd_queue b = q /\ p' = with_de_id (de_id p') p) (stands D R q).
Proof.
  intros Hp. apply triple_call; [auto|]. intros b Hb%stands_fault. revert Hb. generalize (drop_fault b). clear b. intros b [[Ht Hc] <- <- <-].
  destruct (existsb _ _) eqn:Hn; [by split|]. split_and!; [|done..]. split; [|done]. cbn.
  pose proof (tables_put (ar_decode e) strict (bd_defs b) (bd_runs b) (bd_seq b + 1) (bd_schedule b) (bd_queue b) (with_de_id (bd_seq b) p)) as Hput.
  cbn in Hput. apply Hput; [lia|by apply with_de_id_ok| |].
  - intros id r Hr Hx. rewrite (taken_rows _ _ Hn _ _ Hr) in Hx. done.
  - apply tables_unsched. eapply tables_seq; [|exact Ht]. lia.
Qed.

Lemma update_triple D R q p p0 : D !! de_id p = Some p0 -> def_ok (ar_decode e) strict p ->
  triple (stands D R q) (repo_update p)
    (fun _ b => (board_but (de_id p) b /\ bd_defs b = <[de_id p := p]> D /\ bd_runs b = R /\ bd_queue b = q) /\
       forall c, bd_schedule b !! de_id p = Some c -> exists s, de_enabled p0 = true /\ parse e (de_spec p0) = Ok s /\ tg_schedule (ps_on s) = c)
    (stands D R q).
Proof.
  intros Hold Hp. apply triple_call; [auto|]. intros b Hb%stands_fault. revert Hb. generalize (drop_fault b). clear b. intros b [[Ht Hc] <- <- <-].
  destruct (existsb _ _) eqn:Hn; [by split|]. split.
  2:{ intros c Hs. destruct (tk_sched _ _ _ _ _ _ _ Ht _ _ Hs) as (p1 & s & Hp1 & He & Hps & Hts). rewrite Hold in Hp1. injection Hp1 as <-. by exists s. }
  split_and!; [|done..]. split; [|done]. cbn. destruct (tk_defs _ _ _ _ _ _ _ Ht _ _ Hold) as (_ & Hid & _).
  apply tables_put; [done|done| |by apply tables_unsched].
  intros id r Hr Hx. destruct (tk_defs _ _ _ _ _ _ _ Ht _ _ Hr) as (<- & _). destruct (N.eq_dec (de_id r) (de_id p)) as [|Hne]; [done|].
  exfalso. apply not_true_iff_false in Hn. apply Hn, existsb_elem. exists r. split; [|unfold taken_by_other; rewrite Hx; by apply N.eqb_neq in Hne as ->].
  unfold rows. apply list_elem_of_fmap. exists (de_id r, r). split; [done|]. by apply elem_of_map_to_list.
Qed.
(** What is done once a definition is written *)
Lemma written_triple D R q p (k : board T -> board T) {A} (a : A) : (forall b, exists t, k b = set_versions t b) ->
  triple (fun b => board_but (de_id p) b /\ bd_defs b = <[de_id p := p]> D /\ bd_runs b = R /\ bd_queue b = q)
    (_ ← put (apply_schedule e p); _ ← put k; mret a) (fun a' b => stands (<[de_id p := p]> D) R q b /\ a' = a) (kept R q).
Proof.
  intros Hk. eapply triple_then; [by apply triple_put with (post := fun _ b => exists b0, b = apply_schedule e p b0 /\
    board_but (de_id p) b0 /\ bd_defs b0 = <[de_id p := p]> D /\ bd_runs b0 = R /\ bd_queue b0 = q); intros b Hb; exists b|]. intros [].
  eapply triple_then; [apply triple_put with (post := fun _ b => stands (<[de_id p := p]> D) R q b)|intros []; by apply triple_answer].
  intros b (b0 & -> & Hb & HD & HR & Hq).
  destruct (after_put p R q k b0 Hk Hb) as [(Hok & HR' & Hq') HD']; [by rewrite HD, lookup_insert_eq|done|done|]. split; [done|by rewrite HD'|done|done].
Qed.

(** *** The operations on definitions *)

Lemma head_none {A} (l : list A) : head l = None -> l = [].
Proof. by destruct l. Qed.
Lemma create_stands D R q ws i : triple (stands D R q) (create e ws i) (fun p b => exists D', stands D' R q b) (kept R q).
Proof.
  unfold create. cbv zeta. eapply triple_then; [by apply triple_refuse; eauto|]. intros []. apply triple_pure. intros _.
  eapply triple_then; [by apply triple_parsed; eauto|]. intros s. apply triple_pure. intros Hs.
  eapply triple_then; [by apply triple_guard; eauto|]. intros []. apply triple_pure. intros Hone.
  eapply triple_then; [by apply triple_guard; eauto|]. intros []. apply triple_pure. intros Hfit.
  eapply triple_then; [by apply triple_guard; eauto|]. intros []. apply triple_pure. intros _.
  eapply triple_then; [eapply triple_bad; [apply taken_triple|eauto]|]. intros taken.
  eapply triple_then; [by apply triple_refuse; eauto|]. intros []. apply triple_pure. intros _.
  eapply triple_then with (mid := fun _ => stands D R q).
  { destruct (in_versioning i) as [v|]; [destruct (normalize v)|]; [by apply triple_answer|by apply triple_throw; eauto|by apply triple_answer]. }
  intros []. set (p := DefRow _ _ _ _ _ _ _ _ _ _ _ _ _ _).
  assert (Hp : def_ok (ar_decode e) strict p) by (split; [exists s; split; [done|by left]|done]).
  eapply triple_then; [eapply triple_bad; [by apply create_triple|eauto]|]. intros p'.
  eapply triple_from; [eapply triple_weaken; [apply written_triple, versions_frame|]|]; [by intros a b [Hb _]; eexists|].
  intros b (H1 & H2 & H3 & H4 & _). done.
Qed.
Lemma update_stands D R q ws id i : triple (stands D R q) (update e ws id i) (fun p b => exists D', stands D' R q b) (kept R q).
Proof.
  unfold update. cbv zeta. eapply triple_then; [eapply triple_bad; [apply get_triple|eauto]|]. intros p. apply triple_pure. intros [Hp Hws].
  eapply triple_then; [by apply triple_refuse; eauto|]. intros []. apply triple_pure. intros _.
  eapply triple_then with (mid := fun _ => stands D R q).
  { destruct (String.eqb _ _); [by apply triple_answer|]. eapply triple_then; [by apply triple_parsed; eauto|]. intros s. by apply triple_answer; intros b [Hb _]. }
  intros []. eapply triple_then with (mid := fun _ => stands D R q).
  { destruct (String.eqb _ _); [by apply triple_answer|]. eapply triple_then; [eapply triple_bad; [apply taken_triple|eauto]|]. intros taken.
    eapply triple_weaken; [by apply triple_refuse; eauto|]. by intros ? b [Hb _]. }
  intros []. eapply triple_then with (mid := fun _ => stands D R q).
  { destruct (in_set_app i); [|by apply triple_answer]. eapply triple_weaken; [by apply triple_guard; eauto|]. by intros ? b [Hb _]. }
  intros []. eapply triple_then with (mid := fun _ => stands D R q).
  { destruct (in_set_repo i); [|by apply triple_answer]. eapply triple_weaken; [by apply triple_guard; eauto|]. by intros ? b [Hb _]. }
  intros []. eapply triple_then; [by apply triple_guard; eauto|]. intros []. apply triple_pure. intros Hone.
  eapply triple_then; [by apply triple_parsed; eauto|]. intros s. apply triple_pure. intros Hs.
  eapply triple_then; [by apply triple_guard; eauto|]. intros []. apply triple_pure. intros Hfit.
  set (n := merged e p i) in *. assert (Hn : def_ok (ar_decode e) strict n) by (split; [exists s; split; [done|by left]|done]).
  intros b Hb. destruct (tk_defs _ _ _ _ _ _ _ (proj1 (sd_ok _ _ _ _ Hb)) id p) as [Hid _]; [by rewrite (sd_defs _ _ _ _ Hb)|]. revert b Hb.
  change (triple (stands D R q) (_ ← repo_update n; _ ← put (apply_schedule e n); _ ← put (sync_versioning e n s None false); mret n)
    (fun p b => exists D', stands D' R q b) (kept R q)).
  eapply triple_then; [eapply triple_bad; [apply (update_triple _ _ _ n p); [change (D !! de_id p = Some p); by rewrite Hid|done]|eauto]|]. intros [].
  eapply triple_weaken; [eapply triple_from; [apply written_triple, versions_frame|by intros b [Hb _]]|]. by intros a b [Hb _]; eexists.
Qed.
Lemma kept_stands R q b : kept R q b -> stands (bd_defs b) R q b.
Proof. by intros (H1 & H2 & H3). Qed.
Lemma unschedule_ok id b : board_ok b -> board_ok (unschedule e id b) /\ bd_schedule (unschedule e id b) !! id = None.
Proof.
  intros [Ht Hc]. revert Hc. unfold board_ok, unschedule. destruct (ar_cron e); intros Hc.
  - split; [split; [by apply tables_unsched|done]|apply lookup_delete_eq].
  - specialize (Hc eq_refl). split; [by split|]. by rewrite Hc.
Qed.
Lemma delete_stands D R q ws id : triple (stands D R q) (delete_pipeline e ws id)
  (fun _ b => exists D', stands D' R q b /\ (D' = D \/ D' = delete id D)) (fun b => stands D R q b).
Proof.
  unfold delete_pipeline. eapply triple_then; [apply get_triple|]. intros p. apply triple_pure. intros [Hp Hws].
  eapply triple_then; [apply triple_put with (post := fun _ b => stands D R q b /\ (bd_schedule b !! id = None)); intros b [Hok HD HR Hq]|].
  - destruct (unschedule_ok id b Hok) as [H1 H2]. split; [|done]. revert H1 H2. unfold unschedule. by destruct (ar_cron e); split.
  - intros []. eapply triple_then.
    + apply triple_call with (post := fun _ b => exists D', stands D' R q b /\ (D' = D \/ D' = delete id D)); [by intros b [Hb _]; apply stands_fault|].
      intros b [Hb Hs]. apply stands_fault in Hb. change (bd_schedule (drop_fault b) !! id = None) in Hs. revert Hb Hs. generalize (drop_fault b). clear b.
      intros b [[Ht Hc] HD HR Hq] Hs. exists (delete id D). split; [|by right]. rewrite HD in Ht.
      assert (E : match D !! id with Some p0 => if (de_ws p0 =? ws)%N then delete id D else D | None => D end = delete id D)
        by (by rewrite Hp, Hws, N.eqb_refl). split; [split| |done|done]; cbn; [|done|by rewrite HD].
      rewrite HD, E. rewrite <- (delete_id (bd_schedule b) id Hs) in Ht |- *. by apply tables_unput.
    + intros []. apply triple_put. intros b (D' & Hb & HD). exists D'. split; [|done]. destruct Hb as [H1 H2 H3 H4]. by destruct (ar_versions e); split.
Qed.
Lemma unique_ok D R q ws base : triple (stands D R q) (unique_name e ws base) (fun _ => stands D R q) (stands D R q).
Proof.
  unfold unique_name. generalize 98%nat, (GitOps.make_slug base "pipeline"), 2. intros n name i. generalize name at 2. revert i.
  induction n as [|n IH]; intros i c; cbn [free_name]; [by apply triple_answer|].
  eapply triple_then; [apply taken_triple|]. intros taken. destruct (default false taken); [apply IH|by apply triple_answer].
Qed.
Lemma adopt_ok D R q a : triple (stands D R q) (adopt_for_app e a) (fun p b => exists D', stands D' R q b) (kept R q).
Proof.
  unfold adopt_for_app. eapply triple_then with (mid := fun _ => stands D R q).
  { destruct (ar_repos e); [by apply triple_answer|by apply triple_throw; eauto]. }
  intros []. eapply triple_then; [by apply triple_refuse; eauto|]. intros []. apply triple_pure. intros _.
  destruct (discover_for_app e a ""); [|by apply triple_throw; eauto].
  eapply triple_then; [by apply triple_refuse; eauto|]. intros []. apply triple_pure. intros _.
  destruct (fo_spec f); [|by apply triple_throw; eauto]. eapply triple_then; [eapply triple_bad; [apply unique_ok|eauto]|]. intros name. apply create_stands.
Qed.

(** *** An application's pipelines *)

Lemma nodup_filter {A B} (f : A -> B) (c : A -> bool) l : NoDup (f <$> l) -> NoDup (f <$> List.filter c l).
Proof.
  induction l as [|x l IH]; [done|]. cbn [fmap list_fmap]. intros [Hx Hl]%NoDup_cons. cbn [List.filter]. destruct (c x); [|by apply IH].
  cbn [fmap list_fmap]. apply NoDup_cons. split; [|by apply IH]. intros (y & Hy & Hin)%list_elem_of_fmap. apply Hx. rewrite Hy.
  apply elem_of_bfilter in Hin as [Hin _]. by apply list_elem_of_fmap_2.
Qed.
(** Rows as they are stored, each once *)
Definition current D (l : list def_row) : Prop := NoDup (de_id <$> l) /\ Forall (fun p => D !! de_id p = Some p) l.
Lemma current_rows D R q b c : stands D R q b -> current D (List.filter c (rows b)).
Proof.
  intros [[Ht _] <- _ _]. unfold rows. pose proof (tk_defs _ _ _ _ _ _ _ Ht) as Hd.
  assert (Hids : de_id <$> (map_to_list (bd_defs b)).*2 = (map_to_list (bd_defs b)).*1).
  { rewrite <- list_fmap_compose. apply list_fmap_ext. intros i [k p] Hk. apply list_elem_of_lookup_2, elem_of_map_to_list in Hk. by destruct (Hd _ _ Hk). }
  split.
  - apply nodup_filter. rewrite Hids. apply NoDup_fst_map_to_list.
  - apply Forall_forall. intros p [Hp _]%elem_of_bfilter. apply list_elem_of_fmap in Hp as ([k p'] & -> & Hp). apply elem_of_map_to_list in Hp.
    destruct (Hd _ _ Hp) as [Hk _]. cbn in *. by rewrite Hk.
Qed.
Lemma current_tail D p l D' : current D (p :: l) -> (forall i, i <> de_id p -> D' !! i = D !! i) -> current D' l.
Proof.
  intros [[Hn Hd]%NoDup_cons [_ Hf]%Forall_cons] He. split; [done|]. rewrite Forall_forall in Hf |- *. intros p' Hp'. rewrite He; [by apply Hf|].
  intros Hx. apply Hn. rewrite <- Hx. by apply list_elem_of_fmap_2.
Qed.
Lemma tables_resched defs runs seq sched queue x : tables_ok (ar_decode e) strict defs runs seq (delete x sched) queue ->
  (forall c, sched !! x = Some c -> exists p s, defs !! x = Some p /\ de_enabled p = true /\ parse e (de_spec p) = Ok s /\ tg_schedule (ps_on s) = c) ->
  tables_ok (ar_decode e) strict defs runs seq sched queue.
Proof.
  intros [D' N S R' U O Q] Hs. split; try done. intros id c Hc. destruct (N.eq_dec id x) as [->|Hne]; [by apply Hs|]. apply S. by rewrite lookup_delete_ne.
Qed.
Lemma unbind_triple D R q p : strict = false -> D !! de_id p = Some p -> is_Some (de_app p) ->
  triple (stands D R q) (repo_update (unbound p)) (fun _ => stands (<[de_id p := unbound p]> D) R q) (stands D R q).
Proof.
  intros Hs Hp [app Happ] b Hb. destruct (tk_defs _ _ _ _ _ _ _ (proj1 (sd_ok _ _ _ _ Hb)) (de_id p) p) as (_ & _ & [(s & Hps & _) Hone]).
  { by rewrite (sd_defs _ _ _ _ Hb). }
  assert (Hrepo : de_repo p = None) by (rewrite Happ in Hone; by destruct (de_repo p)).
  assert (Hok : def_ok (ar_decode e) strict (unbound p)) by (split; [exists s; split; [done|by right]|done]).
  pose proof (update_triple D R q (unbound p) p Hp Hok b Hb) as Hu. destruct (repo_update (unbound p) b) as [b1 [[]|x]]; [|done].
  destruct Hu as [([Ht Hc] & HD & HR & Hq) Hsc]. split; [|done..]. split; [|done]. eapply tables_resched; [exact Ht|]. intros c Hx.
  destruct (Hsc c Hx) as (s' & ? & ? & ?). exists (unbound p), s'. rewrite HD. split_and!; [apply lookup_insert_eq|done..].
Qed.
Lemma delete_each_ok R q ws l : strict = false -> Forall (fun p => is_Some (de_app p)) l -> forall D, current D l ->
  triple (stands D R q) (delete_each e ws l) (fun _ b => exists D', stands D' R q b) (fun b => False).
Proof.
  intros Hs. induction l as [|p l IH]; intros Happ D Hl; cbn [delete_each]; [apply triple_answer; by eexists|].
  apply Forall_cons in Happ as [Hp Happ]. pose proof (proj2 Hl) as [Hcur _]%Forall_cons.
  eapply triple_then with (mid := fun _ b => exists D', stands D' R q b /\ current D' l).
  - eapply triple_attempt with (mid := fun _ b => exists D', stands D' R q b /\ current D' l); [|done]. destruct (is_repo_owned p).
    + eapply triple_bad; [eapply triple_weaken; [apply delete_stands|]|].
      * intros [] b (D' & Hb & [->| ->]); [exists D|exists (delete (de_id p) D)]; (split; [done|]); eapply current_tail; try done.
        intros i Hi. by apply lookup_delete_ne.
      * intros b Hb. exists D. split; [done|]. by eapply current_tail.
    + eapply triple_bad; [eapply triple_weaken; [by apply unbind_triple|]|].
      * intros [] b Hb. eexists. split; [done|]. eapply current_tail; [done|]. intros i Hi. by apply lookup_insert_ne.
      * intros b Hb. exists D. split; [done|]. by eapply current_tail.
  - intros r b (D' & Hb & Hl'). specialize (IH Happ D' Hl' b Hb). unfold mbind, P_bind. by destruct (delete_each e ws l b) as [b1 [a|x]].
Qed.
Lemma delete_for_app_ok D R q ws app : strict = false -> triple (stands D R q) (delete_for_app e ws app) (fun _ b => kept R q b) (kept R q).
Proof.
  intros Hs. unfold delete_for_app. eapply triple_then; [eapply triple_bad; [apply triple_query with (post := fun l => current D l /\ Forall (fun p => is_Some (de_app p)) l)|eauto]|].
  { intros b a Hb [= <-]. split; [by eapply current_rows|]. apply Forall_forall. intros p [_ Hp]%elem_of_bfilter. unfold of_app in Hp. case_bool_decide; [by eexists|done]. }
  intros l. apply triple_pure. intros [Hl Happ]. eapply triple_then.
  { eapply triple_bad; [by apply delete_each_ok|done]. }
  intros all b (D' & Hb). unfold refuse. destruct (negb all); by eapply stands_kept.
Qed.

(** *** A repository's document *)

Lemma fits_app s app repo : validate_steps s (Some app) repo = None.
Proof.
  unfold validate_steps. assert (H0 : omap (step_fits (Some app) repo) (ps_steps s) = []); [|by rewrite H0].
  induction (ps_steps s) as [|st l IH]; [done|]. cbn. unfold step_fits at 1. destruct (uses _ st); [done|]. by destruct (uses _ st).
Qed.
Lemma discovered a ref f s : discover_for_app e a ref = Some f -> fo_spec f = Some s -> parse e (fo_raw f) = Ok s.
Proof.
  unfold discover_for_app. destruct (ar_url _ _ _ _) as [url|]; [|done]. destruct (ar_clone _ _ _) as [[commit files]|]; [|done]. intros Hf.
  assert (f = discover_fs e files commit source_paths) as -> by congruence. clear Hf.
  induction source_paths as [|path l IH]; [done|]. cbn. destruct (files path) as [| |raw]; [done|done|]. by destruct (parse e raw) eqn:Hp; [intros [= <-]|].
Qed.
(** What the repository of an adopted definition carries at [ref], or at the definition's own; nothing when it cannot be read *)
Definition ref_of p (ref : string) : string := if String.eqb ref "" then de_ref p else ref.
Definition carried p (ref : string) : option found :=
  if negb (is_repo_owned p) then None
  else match ar_repos e, de_app p ≫= find_app e (de_ws p) with
       | Some _, Some a => discover_for_app e a (ref_of p ref)
       | _, _ => None
       end.
(** The definition a run starts from: with the document its repository carries, which must parse, or as it was last known *)
Definition renewed (ref : string) p p' : Prop :=
  match carried p ref with
  | None => p' = p
  | Some f => fo_broken f = false /\ is_Some (fo_spec f) /\ p' = synced p f (ref_of p ref)
  end.
Lemma renewed_manual ref p : is_repo_owned p = false -> renewed ref p p.
Proof. intros H0. unfold renewed, carried. by rewrite H0. Qed.
Lemma sync_triple D R q p ref : D !! de_id p = Some p ->
  triple (stands D R q) (sync_from_repo e p ref)
    (fun p' b => exists D', stands D' R q b /\ D' !! de_id p = Some p' /\ renewed ref p p') (kept R q).
Proof.
  intros Hp. unfold sync_from_repo. cbv zeta.
  assert (Hsame : carried p ref = None -> triple (stands D R q) (mret p) (fun p' b => exists D', stands D' R q b /\ D' !! de_id p = Some p' /\ renewed ref p p') (kept R q))
    by (intros Hc; apply triple_answer; intros b Hb; exists D; unfold renewed; by rewrite Hc).
  unfold carried in Hsame. destruct (is_repo_owned p) eqn:Ho; cbn [negb] in Hsame |- *; [|by repeat case_match; apply Hsame].
  destruct (ar_repos e) eqn:Hrepos; [|by apply Hsame]. destruct (de_app p ≫= find_app e (de_ws p)) as [a|] eqn:Ha; [|by apply Hsame].
  unfold ref_of at 1 in Hsame. destruct (discover_for_app e a _) as [f|] eqn:Hf; [|by apply Hsame].
  eapply triple_then; [by apply triple_refuse; eauto|]. intros []. apply triple_pure. intros Hbroken.
  destruct (fo_spec f) as [s|] eqn:Hs; [|by apply triple_throw; eauto]. pose proof (discovered _ _ _ _ Hf Hs) as Hparse.
  set (ref' := if String.eqb ref "" then de_ref p else ref). set (p' := synced p f ref').
  assert (Hok : def_ok (ar_decode e) strict p -> def_ok (ar_decode e) strict p').
  { intros [_ Hone]. split; [|done]. exists s. split; [done|]. left. cbn. destruct (de_app p); [apply fits_app|done]. }
  intros b Hb. assert (Hdo : def_ok (ar_decode e) strict p).
  { eapply (tk_defs _ _ _ _ _ _ _ (proj1 (sd_ok _ _ _ _ Hb)) (de_id p) p). by rewrite (sd_defs _ _ _ _ Hb). }
  revert b Hb. eapply triple_then; [eapply triple_bad; [apply (update_triple _ _ _ p' p Hp (Hok Hdo))|eauto]|]. intros [].
  eapply triple_weaken; [eapply triple_from; [apply (written_triple D R q p' (fun b => if String.eqb ref' (ga_ref a) then sync_versioning e p' s None false b else b))|by intros b [Hb _]]|].
  - intros b. clearbody p' ref'. destruct (String.eqb ref' _); [apply versions_frame|]. exists (bd_versions b). by destruct b.
  - intros x b [Hb ->]. exists (<[de_id p := p']> D). split_and!; [done|apply lookup_insert_eq|].
    unfold renewed, carried. rewrite Ho, Hrepos, Ha. cbn [negb]. unfold ref_of at 1. rewrite Hf, Hs. by split_and!.
Qed.

(** *** A new run *)

Lemma max_number_above pipeline (l : list started_run) r : r ∈ l -> run_of pipeline r = true ->
  ru_number (st_run r) <= foldr (fun r n => if run_of pipeline r then Z.max (ru_number (st_run r)) n else n) 0 l.
Proof. induction l as [|x l IH]; [by intros ?%elem_of_nil|]. intros [->|Hr]%elem_of_cons Hof; cbn; [rewrite Hof; lia|]. specialize (IH Hr Hof). destruct (run_of pipeline x); lia. Qed.
Lemma max_number_positive pipeline (l : list started_run) : 0 <= foldr (fun r n => if run_of pipeline r then Z.max (ru_number (st_run r)) n else n) 0 l.
Proof. induction l as [|x l IH]; cbn; [done|]. destruct (run_of pipeline x); lia. Qed.
(** The run [r], with its steps [l], stored beside [R] and not in the queue *)
Definition beside D R q (r : run_row) (l : list step_row) b : Prop := stands D (<[ru_id r := StartedRun r l]> R) q b.
(** An id and a number that no other run has *)
Record fresh R q (r : run_row) : Prop := Fresh {
  fr_queue : ru_id r ∉ q; fr_id : R !! ru_id r = None;
  fr_number : forall i t, R !! i = Some t -> ru_pipeline (st_run t) = ru_pipeline r -> ru_number (st_run t) < ru_number r }.
Lemma numbered_triple D R q r : triple (stands D R q) (create_numbered_run r)
  (fun r' b => beside D R q r' [] b /\ (fresh R q r' /\ exists id n, r' = numbered id n r)) (waits q).
Proof.
  apply triple_call; [eauto|]. intros b Hb%stands_fault. revert Hb. generalize (drop_fault b). clear b. intros b [[Ht Hc] <- <- <-].
  destruct (bd_defs b !! ru_pipeline r); [|by split]. set (n := max_number _ b + 1).
  assert (Hf : fresh (bd_runs b) (bd_queue b) (numbered (bd_seq b) n r)).
  { split; cbn.
    - intros Hin. destruct (tk_queue _ _ _ _ _ _ _ Ht _ Hin) as (t & Hr & _). apply (tk_runs _ _ _ _ _ _ _ Ht) in Hr as (_ & ? & _). lia.
    - destruct (bd_runs b !! bd_seq b) as [t|] eqn:Hr; [|done]. apply (tk_runs _ _ _ _ _ _ _ Ht) in Hr as (_ & ? & _). lia.
    - intros i t Hr Hof. unfold n, max_number. apply Z.lt_succ_r. apply max_number_above; [|unfold run_of; rewrite Hof; apply N.eqb_refl].
      apply list_elem_of_fmap. exists (i, t). split; [done|]. by apply elem_of_map_to_list. }
  split; [|split; [done|by eexists _, _]]. split; [|done..]. split; [|done]. cbn.
  pose proof (tables_run (ar_decode e) strict (bd_defs b) (bd_runs b) (bd_seq b + 1) (bd_schedule b) (bd_queue b) (StartedRun (numbered (bd_seq b) n r) [])) as Hrun.
  cbn in Hrun. apply Hrun; [apply Hf|lia|unfold n, max_number; pose proof (max_number_positive (ru_pipeline r) (map_to_list (bd_runs b)).*2); lia| |].
  - intros i t Hr Hof Hnum. pose proof (fr_number _ _ _ Hf i t Hr Hof) as Hlt. cbn in Hlt. lia.
  - eapply tables_seq; [|exact Ht]. lia.
Qed.
(** The row of such a run is written again. *)
Lemma rewrite_run D R q r r' l l' b : fresh R q r -> ru_id r' = ru_id r -> ru_pipeline r' = ru_pipeline r -> ru_number r' = ru_number r ->
  beside D R q r l b -> board_ok (set_runs (fun m => <[ru_id r := StartedRun r' l']> m) b) /\
  bd_runs (set_runs (fun m => <[ru_id r := StartedRun r' l']> m) b) = <[ru_id r := StartedRun r' l']> R.
Proof.
  intros Hf Hi Hp Hn [[Ht Hc] HD HR Hq]. split; [|cbn; rewrite HR; apply insert_insert_eq]. split; [|done]. cbn.
  destruct (tk_runs _ _ _ _ _ _ _ Ht (ru_id r) (StartedRun r l)) as (_ & Hlt & Hpos); [by rewrite HR, lookup_insert_eq|].
  pose proof (tables_run (ar_decode e) strict (bd_defs b) (bd_runs b) (bd_seq b) (bd_schedule b) (bd_queue b) (StartedRun r' l')) as Hrun. cbn in Hrun.
  rewrite Hi in Hrun. apply Hrun; [rewrite Hq; apply Hf|done|by rewrite Hn| |done].
  intros j t Hj Hpj Hnj. eapply (tk_numbers _ _ _ _ _ _ _ Ht j (ru_id r) t (StartedRun r l)); [done|by rewrite HR, lookup_insert_eq|by rewrite Hpj|by rewrite Hnj].
Qed.
Lemma step_triple D R q r l st : fresh R q r ->
  triple (beside D R q r l) (create_step (ru_id r) st) (fun _ => beside D R q r (l ++ [st])) (waits q).
Proof.
  intros Hf. apply triple_call; [by intros b Hb%stands_waits; destruct Hb|]. intros b Hb. apply stands_fault in Hb. revert Hb. generalize (drop_fault b). clear b. intros b Hb.
  pose proof (rewrite_run D R q r r l (l ++ [st]) b Hf eq_refl eq_refl eq_refl Hb) as [Hok HR'].
  assert (E : alter (fun r => StartedRun (st_run r) (st_steps r ++ [st])) (ru_id r) (bd_runs b) = <[ru_id r := StartedRun r (l ++ [st])]> (bd_runs b)).
  { rewrite (sd_runs _ _ _ _ Hb). by rewrite alter_insert_eq, insert_insert_eq. }
  destruct Hb as [_ HD HR Hq]. unfold beside. split; [|done| |done]; cbn; [|by rewrite E].
  unfold board_ok in Hok |- *. cbn in Hok |- *. by rewrite E.
Qed.
Lemma steps_triple D R q r more : fresh R q r -> forall l,
  triple (beside D R q r l) (create_steps (ru_id r) more) (fun _ => beside D R q r (l ++ more)) (waits q).
Proof.
  intros Hf. induction more as [|st more IH]; intros l; cbn [create_steps]; [apply triple_answer; by rewrite app_nil_r|].
  eapply triple_then; [by apply step_triple|]. intros []. eapply triple_weaken; [apply IH|]. intros [] b. by rewrite <- app_assoc.
Qed.
(** The same run but for its version *)
Definition alike (r r' : run_row) : Prop := exists v tag, r' = versioned v tag r.
Lemma alike_itself r : alike r r.
Proof. exists (ru_version r), (ru_tag r). by destruct r. Qed.
Lemma fresh_alike R q r r' : alike r r' -> fresh R q r -> fresh R q r'.
Proof. intros (v & tag & ->) [H1 H2 H3]. by split. Qed.
Lemma reserve_triple D R q r p s i : fresh R q r ->
  triple (beside D R q r []) (reserve_version e r p s i) (fun r' b => exists r0, beside D R q r0 [] b /\ alike r r0 /\ alike r r') (beside D R q r []).
Proof.
  intros Hf. unfold reserve_version.
  assert (Hkeep : triple (beside D R q r []) (mret r) (fun r' b => exists r0, beside D R q r0 [] b /\ alike r r0 /\ alike r r') (beside D R q r []))
    by (apply triple_answer; intros b Hb; exists r; split_and!; [done|apply alike_itself..]).
  destruct (negb (ar_versions e)); [done|]. destruct (_ && _).
  { eapply triple_then; [by apply triple_refuse|]. intros []. apply triple_pure. by intros _. }
  intros b Hb. destruct (VersionService.reserve_run _ _ _ _ _) as [[t v]|x]; [|done]. set (r' := versioned _ _ r).
  assert (Ha : alike r r') by by eexists _, _.
  assert (Hb' : beside D R q r [] (set_versions t b)) by (destruct Hb; by split). clearbody r'. destruct (String.eqb _ "").
  { exists r. split_and!; [done|apply alike_itself|done]. }
  revert Hb'. generalize (set_versions t b). clear b Hb. intros b Hb. unfold mbind, P_bind, mret, P_ret, update_run, call.
  destruct (default _ _); [by apply stands_fault|]. apply stands_fault in Hb. revert Hb. generalize (drop_fault b). clear b. intros b Hb.
  destruct Ha as (v' & tag & ->). exists (versioned v' tag r). split_and!; [|by eexists _, _..].
  destruct (rewrite_run D R q r (versioned v' tag r) [] [] b Hf eq_refl eq_refl eq_refl Hb) as [Hok HR'].
  assert (E : default [] (st_steps <$> bd_runs b !! ru_id (versioned v' tag r)) = []) by (rewrite (sd_runs _ _ _ _ Hb); cbn; by rewrite lookup_insert_eq).
  rewrite E. split; [exact Hok|apply Hb|exact HR'|apply Hb].
Qed.
Lemma reserved_triple D R q r p s i : fresh R q r ->
  triple (beside D R q r []) (reserved e r p s i) (fun r' b => exists r0, beside D R q r0 [] b /\ alike r r0 /\ alike r r') (waits q).
Proof.
  intros Hf b Hb. pose proof (reserve_triple D R q r p s i Hf b Hb) as Hr. unfold reserved. destruct (reserve_version e r p s i b) as [b1 [r'|x]]; [done|].
  revert Hr. clear b Hb. unfold mbind, P_bind, attempt, throw, delete_run, call. intros Hb. destruct (default _ _); [by eapply stands_waits, stands_fault|].
  apply stands_fault in Hb. revert Hb. generalize (drop_fault b1). clear b1. intros b [[Ht Hc] HD HR <-]. split; [|done]. split; [|done].
  apply tables_unrun; [apply Hf|exact Ht].
Qed.
Lemma enqueue_triple D R q r s text : fresh R q r -> parse e text = Ok s -> ru_env r = ps_env s ->
  triple (beside D R q r (step_rows s (ru_no_cache r))) (enqueue (ru_id r))
    (fun _ => stands D (<[ru_id r := StartedRun r (step_rows s (ru_no_cache r))]> R) (q ++ [ru_id r])) (waits q).
Proof.
  intros Hf Hp He. apply triple_call; [by intros b Hb%stands_waits; destruct Hb|]. intros b Hb. apply stands_fault in Hb. revert Hb. generalize (drop_fault b). clear b.
  intros b [[Ht Hc] HD HR Hq]. split; [|done|done|cbn; by rewrite Hq]. split; [|done]. cbn. eapply tables_enqueue; [rewrite Hq; apply Hf|by rewrite HR, lookup_insert_eq| |done].
  by exists text, s.
Qed.

(** A run of the definition [id], as a trigger leaves it *)
Record started D R q (ws id : N) (i : trigger_input) (r : run_row) b : Prop := Started {
  ss_def : exists p p' s D', D !! id = Some p /\ de_ws p = ws /\ de_enabled p = true /\ renewed (ti_branch i) p p' /\ D' !! id = Some p' /\ parse e (de_spec p') = Ok s /\
    (exists k n, alike (numbered k n (new_run e ws p' s (pinned e p' i))) r) /\
    stands D' (<[ru_id r := StartedRun r (step_rows s (ti_no_cache i))]> R) (if ar_enqueues e then q ++ [ru_id r] else q) b;
  ss_fresh : fresh R q r }.
Lemma trigger_triple D R q ws id i : triple (stands D R q) (trigger e ws id i) (fun _ b => exists r, started D R q ws id i r b) (waits q).
Proof.
  unfold trigger. eapply triple_then; [eapply triple_bad; [apply get_triple|eauto]|]. intros p. apply triple_pure. intros [Hp Hws].
  eapply triple_then; [by apply triple_refuse; eauto|]. intros []. apply triple_pure. intros Hon. apply negb_false_iff in Hon.
  intros b0 Hb0. destruct (tk_defs _ _ _ _ _ _ _ (proj1 (sd_ok _ _ _ _ Hb0)) id p) as [Hid _]; [by rewrite (sd_defs _ _ _ _ Hb0)|]. revert b0 Hb0.
  eapply triple_then with (mid := fun p' b => exists D', stands D' R q b /\ D' !! id = Some p' /\ renewed (ti_branch i) p p').
  { destruct (is_repo_owned p) eqn:Ho; [|apply triple_answer; intros b Hb; exists D; split_and!; [done|done|by apply renewed_manual]]. eapply triple_bad; [rewrite <- Hid; apply sync_triple; by rewrite Hid|eauto]. }
  intros p' b (D' & Hb & Hp' & Hr). revert b Hb. set (t := pinned e p' i).
  eapply triple_then; [by apply triple_parsed; eauto|]. intros s. apply triple_pure. intros Hs.
  eapply triple_then; [apply numbered_triple|]. intros r. apply triple_pure. intros (Hf & k & n & Hk).
  eapply triple_then; [by apply reserved_triple|]. intros r' b (r0 & Hb & Ha0 & Ha). revert b Hb.
  assert (Hi : ru_id r' = ru_id r0) by (destruct Ha0 as (? & ? & ->), Ha as (? & ? & ->); done). rewrite Hi.
  pose proof (fresh_alike _ _ _ _ Ha0 Hf) as Hf0. assert (Hnc : ti_no_cache t = ti_no_cache i) by (unfold t, pinned; cbv zeta; by destruct (if String.eqb _ _ then _ else _)).
  assert (Hr0 : ru_no_cache r0 = ti_no_cache i /\ ru_env r0 = ps_env s) by (destruct Ha0 as (? & ? & ->); subst r; done). destruct Hr0 as [Hnc0 Henv].
  eapply triple_then; [by apply steps_triple|]. intros []. cbn [app]. rewrite Hnc, <- Hnc0.
  eapply triple_then with (mid := fun _ b => started D R q ws id i r0 b); [|intros []; apply triple_answer; by exists r0].
  assert (Hdone : forall b, stands D' (<[ru_id r0 := StartedRun r0 (step_rows s (ti_no_cache i))]> R) (if ar_enqueues e then q ++ [ru_id r0] else q) b -> started D R q ws id i r0 b).
  { intros b Hb. split; [|done]. exists p, p', s, D'. split_and!; try done. exists k, n. change (alike (numbered k n (new_run e ws p' s t)) r0). by rewrite <- Hk. }
  rewrite Hnc0 in *. destruct (ar_enqueues e).
  - eapply triple_weaken; [rewrite <- Hnc0; by apply (enqueue_triple D' R q r0 s (de_spec p'))|]. intros [] b Hb. apply Hdone. by rewrite <- Hnc0.
  - apply triple_answer. by apply Hdone.
Qed.

(** *** What an operation asks for *)

(** The run [o] may start: of which definition, with what *)
Inductive asks D R : op -> N -> N -> trigger_input -> Prop :=
| AsksTrigger ws id i : asks D R (Trigger ws id i) ws id i
| AsksRerun ws run user no_cache prev : R !! run = Some prev -> ru_ws (st_run prev) = ws ->
    asks D R (Rerun ws run user no_cache) ws (ru_pipeline (st_run prev))
      (TriggerInput "rerun" (ru_branch (st_run prev)) (ru_commit (st_run prev)) (ru_message (st_run prev)) user None no_cache "" "")
| AsksForApp a why user no_cache p : D !! de_id p = Some p -> de_app p = Some (ga_id a) -> de_enabled p = true -> is_repo_owned p = true ->
    asks D R (TriggerForApp a why user no_cache) (ga_ws a) (de_id p) (TriggerInput why (ga_ref a) "" "" user None no_cache "" "")
| AsksSchedule id p : D !! id = Some p -> restricted e (de_ws p) = false ->
    asks D R (TriggerScheduled id) (de_ws p) id (TriggerInput "schedule" (de_ref p) "" "" None None false "" "")
| AsksPush ws id signature body p s branch commit message : D !! id = Some p -> de_ws p = ws -> verify_webhook e p signature body = true ->
    parse e (de_spec p) = Ok s -> parse_push e body = (branch, commit, message) -> fires_on_branch (ps_on s) branch = true -> restricted e ws = false ->
    asks D R (TriggerPush ws id signature body) ws id (TriggerInput "push" branch commit message None None false "" "").
Definition asked D R q (o : op) b : Prop := exists ws id i r, asks D R o ws id i /\ started D R q ws id i r b.
Lemma asked_triple {A} D R q o ws id i (k : run_row -> A) : asks D R o ws id i ->
  triple (stands D R q) (r ← trigger e ws id i; mret (k r)) (fun _ b => waits q b \/ asked D R q o b) (waits q).
Proof.
  intros Ha. eapply triple_then; [apply trigger_triple|]. intros r. apply triple_answer. intros b [r' Hr]. right. by exists ws, id, i, r'.
Qed.
Lemma trigger_asked D R q o ws id i : asks D R o ws id i -> triple (stands D R q) (trigger e ws id i) (fun _ b => waits q b \/ asked D R q o b) (waits q).
Proof. intros Ha. eapply triple_weaken; [apply trigger_triple|]. intros r b [r' Hr]. right. by exists ws, id, i, r'. Qed.
Lemma pick_in l p : pick_repo_owned l = Some p -> p ∈ l /\ is_repo_owned p = true.
Proof.
  unfold pick_repo_owned. assert (Hgen : forall best, foldl (fun best p => if negb (is_repo_owned p) then best
    else match best with Some q => if (de_id p <? de_id q)%N then Some p else best | None => Some p end) best l = Some p ->
    (p ∈ l /\ is_repo_owned p = true) \/ best = Some p).
  { induction l as [|x l IH]; intros best; cbn [foldl]; [by right|]. intros Hf. apply IH in Hf as [[Hin Ho]|Hb]; [left; split; [by right|done]|].
    destruct (is_repo_owned x) eqn:Hx; cbn [negb] in Hb; [|by right]. destruct best as [b|]; [destruct (_ <? _)%N; [|by right]|]; injection Hb as ->; left; (split; [by left|done]). }
  intros Hf. by destruct (Hgen None Hf).
Qed.
Lemma starters_asked D R q o :
  match o with
  | Trigger ws id i => triple (stands D R q) (trigger e ws id i) (fun _ b => waits q b \/ asked D R q o b) (waits q)
  | Rerun ws run user nc => triple (stands D R q) (rerun e ws run user nc) (fun _ b => waits q b \/ asked D R q o b) (waits q)
  | TriggerForApp a why user nc => triple (stands D R q) (trigger_for_app e a why user nc) (fun _ b => waits q b \/ asked D R q o b) (waits q)
  | TriggerScheduled id => triple (stands D R q) (trigger_scheduled e id) (fun _ b => waits q b \/ asked D R q o b) (waits q)
  | TriggerPush ws id sg body => triple (stands D R q) (trigger_push e ws id sg body) (fun _ b => waits q b \/ asked D R q o b) (waits q)
  | _ => True
  end.
Proof.
  destruct o as [| | | | |ws id i|ws run user nc|a why user nc|id|ws id sg body|]; try done.
  - apply trigger_asked, AsksTrigger.
  - unfold rerun. eapply triple_then; [eapply triple_bad; [apply triple_or_err, triple_query with (post := fun r => R !! run = Some r /\ ru_ws (st_run r) = ws)|eauto]|].
    { intros b r Hb. rewrite (sd_runs _ _ _ _ Hb). destruct (R !! run) as [r'|]; [|done]. destruct (N.eqb_spec (ru_ws (st_run r')) ws); [|done]. by intros [= <-]. }
    intros prev. apply triple_pure. intros [Hp Hw]. by apply trigger_asked, AsksRerun.
  - unfold trigger_for_app. eapply triple_then with (mid := fun o b => stands D R q b /\ forall p, o = Some p ->
      D !! de_id p = Some p /\ de_app p = Some (ga_id a) /\ de_enabled p = true /\ is_repo_owned p = true).
    { unfold repo_pipeline_for_app. eapply triple_then; [eapply triple_bad; [apply triple_query with (post := fun l => current D l /\
        Forall (fun p => de_app p = Some (ga_id a) /\ de_enabled p = true) l)|eauto]|].
      - intros b l Hb [= <-]. split; [by eapply current_rows|]. apply Forall_forall. intros p [_ [Hp He]%andb_true_iff]%elem_of_bfilter. unfold of_app in Hp. by case_bool_decide.
      - intros l. apply triple_answer. intros b [Hb [[_ Hc] Hl]]. split; [done|]. intros p [Hin Ho]%pick_in. rewrite Forall_forall in Hc, Hl.
        destruct (Hl _ Hin). by split_and!; [apply Hc|..]. }
    intros [p|]; [|by apply triple_throw; intros b [Hb _]; eauto]. apply triple_pure. intros Hp. destruct (Hp p eq_refl) as (? & ? & ? & ?). by apply trigger_asked, AsksForApp.
  - unfold trigger_scheduled. eapply triple_then; [eapply triple_bad; [apply triple_or_err, triple_query with (post := fun p => D !! id = Some p)|eauto]|].
    { intros b p Hb. rewrite (sd_defs _ _ _ _ Hb). destruct (D !! id); [|done]. by intros [= ->]. }
    intros p. apply triple_pure. intros Hp. eapply triple_then; [by apply triple_refuse; eauto|]. intros []. apply triple_pure. intros Hr.
    intros b Hb. destruct (tk_defs _ _ _ _ _ _ _ (proj1 (sd_ok _ _ _ _ Hb)) id p) as [Hid _]; [by rewrite (sd_defs _ _ _ _ Hb)|]. revert b Hb. rewrite Hid.
    by apply trigger_asked, AsksSchedule.
  - unfold trigger_push. eapply triple_then; [eapply triple_bad; [apply get_triple|eauto]|]. intros p. apply triple_pure. intros [Hp Hw].
    eapply triple_then; [by apply triple_refuse; eauto|]. intros []. apply triple_pure. intros Hv%negb_false_iff.
    eapply triple_then; [by apply triple_parsed; eauto|]. intros s. apply triple_pure. intros Hs.
    destruct (parse_push e body) as [[branch commit] message] eqn:Hpush. destruct (fires_on_branch (ps_on s) branch) eqn:Hb; cbn [negb orb]; [|by apply triple_answer; eauto].
    destruct (restricted e ws) eqn:Hr; [by apply triple_answer; eauto|]. by eapply asked_triple, AsksPush.
Qed.
Lemma boot_ok D R q : triple (stands D R q) (register_schedules e) (fun _ => kept R q) (kept R q).
Proof.
  unfold register_schedules. eapply triple_then with (mid := fun l b => stands D R q b /\ current D (default [] l)).
  { eapply triple_attempt; [eapply triple_bad; [apply triple_query with (post := current D)|]|].
    - intros b l Hb [= <-]. by eapply current_rows.
    - intros b Hb. split; [done|]. split; constructor.
    - intros l b [Hb Hl]. by split. }
  intros l. apply triple_pure. intros Hl. apply triple_put. destruct Hl as [_ Hl]. revert Hl. generalize (default [] l). clear l. intros l.
  induction l as [|p l IH]; intros Hl b Hb; cbn [foldl]; [by eapply stands_kept|]. apply Forall_cons in Hl as [Hp Hl]. apply IH; [done|].
  destruct Hb as [[Ht Hc] HD HR Hq]. assert (Hok : board_ok (apply_schedule e p b)) by (apply schedule_ok; [split; [by apply tables_unsched|done]|by rewrite HD]).
  destruct (schedule_frame p b) as [m Hm]. rewrite Hm in Hok |- *. by split.
Qed.
(** One operation *)
Definition takes_apps (o : op) : bool := match o with DeleteForApp _ _ => true | _ => false end.
Lemma triple_run {A} D R q (m : P A) (post : A -> board T -> Prop) (bad good : board T -> Prop) b : triple (stands D R q) m post bad -> stands D R q b ->
  (forall a b, post a b -> good b) -> (forall b, bad b -> good b) -> good (m b).1.
Proof. intros Hm Hb H1 H2. specialize (Hm b Hb). destruct (m b) as [b1 [a|x]]; cbn; [by eapply H1|by apply H2]. Qed.
Lemma perform_ok D R q o b : (strict = true -> takes_apps o = false) -> stands D R q b -> waits q (perform e o b) \/ asked D R q o (perform e o b).
Proof.
  intros Hs Hb. pose proof (starters_asked D R q o) as Ha. pose (good := fun b1 => waits q b1 \/ asked D R q o b1). change (good (perform e o b)).
  assert (Hw : forall b0, waits q b0 -> good b0) by by left. assert (Hk : forall b0, kept R q b0 -> good b0) by (intros b0 H0; left; eauto).
  assert (Hdef : forall b0, (exists D', stands D' R q b0) -> good b0) by (intros b0 (D' & H0); left; eauto).
  destruct o as [ws i|ws id i|ws id|a|ws app|ws id i|ws run user nc|a why user nc|id|ws id sg body|]; cbn [perform].
  - apply (triple_run D R q _ _ _ good b (create_stands D R q ws i) Hb); [intros _; exact Hdef|exact Hk].
  - apply (triple_run D R q _ _ _ good b (update_stands D R q ws id i) Hb); [intros _; exact Hdef|exact Hk].
  - apply (triple_run D R q _ _ _ good b (delete_stands D R q ws id) Hb); [intros _ b1 (D' & H1 & _); by apply Hdef; exists D'|intros b1 H1; by apply Hdef; exists D].
  - apply (triple_run D R q _ _ _ good b (adopt_ok D R q a) Hb); [intros _; exact Hdef|exact Hk].
  - assert (Hf : strict = false) by (destruct strict; [by discriminate (Hs eq_refl)|done]).
    apply (triple_run D R q _ _ _ good b (delete_for_app_ok D R q ws app Hf) Hb); [intros _; exact Hk|exact Hk].
  - by apply (triple_run D R q _ _ _ good b Ha Hb).
  - by apply (triple_run D R q _ _ _ good b Ha Hb).
  - by apply (triple_run D R q _ _ _ good b Ha Hb).
  - by apply (triple_run D R q _ _ _ good b Ha Hb).
  - by apply (triple_run D R q _ _ _ good b Ha Hb).
  - destruct Hb as [[Ht Hc] HD HR Hq]. assert (Hb : stands D R q (set_schedule (fun _ => ∅) b)).
    { split; [|done..]. split; [|done]. cbn. destruct Ht as [D1 N S R' U O Q]. by split. }
    apply (triple_run D R q _ _ _ good _ (boot_ok D R q) Hb); [intros _; exact Hk|exact Hk].
Qed.
End Ops.

(** ** The histories of a process *)

(** What the program is started with: how documents are read, and the scheduler *)
Definition within (decode : string -> option spec) (cron : option (string -> bool)) (e : around) : around :=
  Around decode (ar_apps e) (ar_repos e) (ar_url e) (ar_clone e) (ar_head e) cron (ar_enqueues e) (ar_versions e) (ar_restricted e) (ar_hmac e)
    (ar_payload e) (ar_secret e) (ar_token e) (ar_now e).
(** An operation, with what is around it and which of its calls fail *)
Record turn := Turn { tu_around : around; tu_faults : list bool; tu_op : op }.
Definition with_faults {T} (l : list bool) (b : board T) : board T :=
  Board (bd_defs b) (bd_runs b) (bd_seq b) (bd_schedule b) (bd_queue b) (bd_versions b) l.
Definition take_turn {T} `{VersionService.VersionDB T} decode cron (b : board T) (u : turn) : board T :=
  perform (within decode cron (tu_around u)) (tu_op u) (with_faults (tu_faults u) b).
Definition empty_board {T} (t : T) : board T := Board ∅ ∅ 1 ∅ [] t [].
Definition history {T} `{VersionService.VersionDB T} decode cron (t : T) (turns : list turn) : board T :=
  foldl (take_turn decode cron) (empty_board t) turns.
Definition keeps_apps (turns : list turn) : bool := negb (existsb (fun u => takes_apps (tu_op u)) turns).

Section Histories.
Context {T : Type} `{VersionService.VersionDB T} (decode : string -> option spec) (cron : option (string -> bool)) (t : T).
Lemma turn_ok strict u (b : board T) : (strict = true -> takes_apps (tu_op u) = false) -> board_ok strict (within decode cron (tu_around u)) b ->
  waits strict (within decode cron (tu_around u)) (bd_queue b) (take_turn decode cron b u) \/
  asked strict (within decode cron (tu_around u)) (bd_defs b) (bd_runs b) (bd_queue b) (tu_op u) (take_turn decode cron b u).
Proof. intros Hs Hb. apply perform_ok; [done|]. by split. Qed.
Lemma history_ok strict turns e : (strict = true -> keeps_apps turns = true) -> board_ok strict (within decode cron e) (history decode cron t turns).
Proof.
  intros Hs. unfold history. assert (H0 : board_ok strict (within decode cron e) (empty_board t)).
  { split; [|done]. split; cbn; try done; [constructor|by intros id ?%elem_of_nil]. }
  assert (Hu : forall u, u ∈ turns -> strict = true -> takes_apps (tu_op u) = false).
  { intros u Hin Ht. specialize (Hs Ht). unfold keeps_apps in Hs. apply negb_true_iff in Hs. rewrite existsb_elem_false in Hs. by apply Hs. }
  apply (foldl_inv (board_ok strict (within decode cron e))); [done|]. intros b u Hin Hb.
  destruct (turn_ok strict u b (Hu u Hin) Hb) as [[Hok _]|(ws & id & i & r & _ & [(p & p' & s & D' & _ & _ & _ & _ & _ & _ & _ & [Hok _ _ _]) _])]; exact Hok.
Qed.
End Histories.

(** C19 [pipelines_sound]: Through every history of requests on pipelines, adoptions, syncs,
    triggers, pushes, schedules and deleted applications, with any calls failing: each definition's
    document parses, its name is its workspace's only one, and it has at most one source, and one if
    a step builds or deploys, unless applications were deleted and it has none; what is scheduled is
    the own schedule of a definition that is stored enabled, as every new one is whatever its
    request says; the runs of a definition have distinct numbers; and each run in the queue is there
    once and has every step of one document. *)
Theorem pipelines_sound {T : Type} `{VersionService.VersionDB T} decode cron (t : T) turns :
  let b := history decode cron t turns in
  tables_ok decode (keeps_apps turns) (bd_defs b) (bd_runs b) (bd_seq b) (bd_schedule b) (bd_queue b).
Proof.
  cbv zeta. pose proof (history_ok decode cron t (keeps_apps turns) turns) as Hok.
  exact (proj1 (Hok (Around decode None None (fun _ _ _ => None) (fun _ _ => None) (fun _ _ => None) cron false false None (fun _ _ => "") (fun _ => None) "" "" 0) (fun Hk => Hk))).
Qed.

(** C20 [runs_start_as_asked]: Whatever has happened before, an operation leaves the queue as it was
    or has started one run of an enabled definition it asked for: by id in its workspace, the
    pipeline of an earlier run, the repository's own pipeline of an application, or, where the
    workspace is not restricted, on a schedule or on a push whose signature and branch the
    definition accepts. The run has a new id and a number above its pipeline's others, and the steps
    of the definition's document, which for an adopted definition is the one its repository now
    carries at the branch asked for, or the last known one when the repository or its application
    cannot be read; where there is a queue, it is the queue's last. *)
Theorem runs_start_as_asked {T : Type} `{VersionService.VersionDB T} decode cron (t : T) turns u :
  let b := history decode cron t turns in
  let b' := take_turn decode cron b u in
  bd_queue b' = bd_queue b \/ asked false (within decode cron (tu_around u)) (bd_defs b) (bd_runs b) (bd_queue b) (tu_op u) b'.
Proof.
  cbv zeta. destruct (turn_ok decode cron false u (history decode cron t turns)) as [[_ Hq]|Ha]; [done| |by left|by right].
  by apply history_ok.
Qed.

(** ** A repository with two branches *)

(** Two documents: main's, built on a schedule, and a feature branch's. *)
Definition demo_step (name u : string) : step := Step name "" "" u "" "" ∅ None [] "" ∅ false.
Definition demo_doc (schedule : string) (steps : list step) : spec :=
  Spec api_version kind_pipeline "ci" (Triggers (Some ["main"; "feature"]) true schedule) ∅ steps None.
Definition demo_decode (text : string) : option spec :=
  if String.eqb text "main.yaml" then Some (demo_doc "@daily" [demo_step "build" uses_build; demo_step "deploy" uses_deploy])
  else if String.eqb text "feature.yaml" then Some (demo_doc "" [demo_step "build" uses_build]) else None.
Definition demo_files (ref path : string) : file := if String.eqb path ".miabi/pipeline.yml" then Content (ref +:+ ".yaml") else Missing.
Definition demo_around : around :=
  Around demo_decode (Some [GitApp 4 7 "web" true "https://git.example/web" None "main"]) (Some [(3%N, 7%N)]) (fun _ url _ => Some url)
    (fun _ ref => Some ("head-of-" +:+ ref, demo_files ref)) (fun _ ref => Some ("head-of-" +:+ ref)) (Some (fun _ => true)) true false None
    (fun _ _ => "5eed") (fun _ => Some (Push "refs/heads/feature" "c0ffee" "" "" "")) "hook" "abcdef" 100.
Definition demo_app : git_app := GitApp 4 7 "web" true "https://git.example/web" None "main".
Definition by_hand (branch commit : string) : trigger_input := TriggerInput "manual" branch commit "" (Some 2%N) None false "" "".
Definition run_ops (turns : list (list bool * op)) : board VersionService.TableDB.table :=
  history demo_decode (Some (fun _ => true)) (VersionService.TableDB.Table [] []) ((fun t => Turn demo_around t.1 t.2) <$> turns).
Definition runs_of {T} (b : board T) : list (N * string * string * list string) :=
  (fun r => (ru_id (st_run r), ru_branch (st_run r), ru_commit (st_run r), sr_name <$> st_steps r)) <$> (map_to_list (bd_runs b)).*2.

(** Adopted, its run builds main, and main's schedule stands. A push to the feature branch makes the definition the feature's: the
    schedule is gone, and what is run without a branch is the feature. *)
Example adopted_runs_main :
  let b := run_ops [([], Adopt demo_app); ([], TriggerScheduled 1)] in
  runs_of b = [(2%N, "main", "head-of-main", ["build"; "deploy"])] /\ bd_schedule b !! 1%N = Some "@daily" /\ bd_queue b = [2%N].
Proof. vm_compute. split_and!; reflexivity. Qed.
Example branch_takes_over :
  let b := run_ops [([], Adopt demo_app); ([], TriggerPush 7 1 "sha256=5eed" "{}"); ([], TriggerScheduled 1)] in
  runs_of b = [(2%N, "feature", "c0ffee", ["build"]); (3%N, "feature", "head-of-feature", ["build"])] /\ bd_schedule b !! 1%N = None.
Proof. vm_compute. split; reflexivity. Qed.
(** An earlier run done again has that run's commit, and the steps its branch has now. *)
Definition moved_around : around :=
  Around demo_decode (ar_apps demo_around) (ar_repos demo_around) (ar_url demo_around) (fun _ ref => Some ("later", demo_files "feature")) (ar_head demo_around)
    (ar_cron demo_around) true false None (ar_hmac demo_around) (ar_payload demo_around) "hook" "abcdef" 100.
Example rerun_mixes_revisions :
  let b := history demo_decode (Some (fun _ => true)) (VersionService.TableDB.Table [] [])
             [Turn demo_around [] (Adopt demo_app); Turn demo_around [] (Trigger 7 1 (by_hand "main" "")); Turn moved_around [] (Rerun 7 2 None false)] in
  runs_of b = [(2%N, "main", "head-of-main", ["build"; "deploy"]); (3%N, "main", "head-of-main", ["build"])].
Proof. vm_compute. reflexivity. Qed.
(** A step that cannot be written leaves a run that waits for ever, with part of its steps, out of the queue. *)
Example forgotten_run :
  let b := run_ops [([], Adopt demo_app); ([false; false; false; false; true], Trigger 7 1 (by_hand "main" ""))] in
  runs_of b = [(2%N, "main", "head-of-main", ["build"])] /\ bd_queue b = [].
Proof. vm_compute. split; reflexivity. Qed.
(** A definition someone wrote outlives its application, enabled, with a deploy step for none; its runs still start. *)
Definition by_person : input := Input "ship" "" (Some 4%N) false None false "" false "main.yaml" (Some true) "" "" "" "" None.
Example unbound_definition_runs :
  let b := run_ops [([], Create 7 by_person); ([], DeleteForApp 7 4); ([], Trigger 7 1 (by_hand "" ""))] in
  (de_app <$> bd_defs b !! 1%N) = Some None /\ runs_of b = [(2%N, "", "", ["build"; "deploy"])] /\ bd_queue b = [2%N].
Proof. vm_compute. split_and!; reflexivity. Qed.
(** A definition that is created disabled is stored enabled, and its schedule stands; an update disables it. *)
Definition disabled_input : input := Input "nightly" "" (Some 4%N) false None false "" false "main.yaml" (Some false) "" "" "" "" None.
Definition switch_off : input := Input "" "" None false None false "" false "" (Some false) "" "" "" "" None.
Example created_disabled_is_enabled :
  let b := run_ops [([], Create 7 disabled_input)] in
  (de_enabled <$> bd_defs b !! 1%N) = Some true /\ bd_schedule b !! 1%N = Some "@daily" /\
  bd_schedule (run_ops [([], Create 7 disabled_input); ([], Update 7 1 switch_off)]) !! 1%N = None.
Proof. vm_compute. split_and!; reflexivity. Qed.
(** A deletion that fails has already taken the schedule. *)
Example failed_deletion_unschedules :
  let b := run_ops [([], Adopt demo_app); ([false; true], Delete 7 1)] in
  (de_enabled <$> bd_defs b !! 1%N) = Some true /\ bd_schedule b !! 1%N = None.
Proof. vm_compute. split; reflexivity. Qed.
